(* ===== verification/_CoqProject ===== *)
-Q . S2P
Prelude.v
QuotaFormat.v
GoErrors.v
GoStrings.v
GoUrl.v
Orm.v
Retry.v
QuotaTypes.v
QuotaStore.v
QuotaCtl.v
QuotaConc.v
BlobStore.v
QuotaMiddleware.v
GC.v
JobStatus.v
TaskStore.v
TaskConc.v
Rbac.v
Security.v
Retention.v
RetentionConc.v
Table.v
Hoare.v
ArtifactStore.v
ArtifactCtl.v
ArtifactInv.v
ArtifactSpec.v
ArtifactDelete.v
ArtifactWalk.v
Listing.v
ListingSpec.v
Query.v
QuerySpec.v
Replication.v
ReplicationSpec.v
RegistryClient.v
Transfer.v
TransferSpec.v
RegistryClientSpec.v
ProjectStore.v
ProjectSpec.v
RobotStore.v
RobotSpec.v
Encrypt.v
VulnReport.v
ScanStore.v
ScanSpec.v
ScanCtl.v
ScanCtlSpec.v
Pull.v
PullSpec.v
Scheduler.v
SchedulerSpec.v
ReplicationCtl.v
ReplicationCtlSpec.v
TokenService.v
TokenSpec.v
Users.v
UserApi.v
UserSpec.v
LoginConc.v
UserGroups.v
Ldap.v
AuthProviders.v
Oidc.v
ProxySecret.v
ProxySecretSpec.v
AuthChain.v
AuthSpec.v
AuthChainSpec.v
Cached.v
CachedSpec.v
Preheat.v
PreheatCtl.v
PreheatSpec.v
RetentionCtl.v
RetentionCtlSpec.v
Goroutines.v
ProxyCache.v
ProxyCacheSpec.v
