(* ===== verification/Prelude.v ===== *)
(** * Harbor: a verification library for the core of the registry

    Harbor stores container artifacts for projects.  This library models the
    parts that decide what may be stored, what is deleted, what is copied and who
    may do what, translated from the Go sources, and proves that they do it.
    Paths below are relative to the directory [src] of the repository.

    ** The parts and how they interact

    A request first gets a security context: a chain of generators tries the
    credentials of the request, which may mean a login through a directory, an
    identity provider or a proxy, or a token that the token service issued after
    a challenge.  The context answers permission questions from the role tables.
    A pull then passes the middlewares that check the tag, the vulnerabilities
    and the signature.  A push passes the quota middleware, which asks the quota
    controller to reserve storage around the next handler; the blob middleware
    records what was pushed, and the artifact controller records manifests, tags
    and accessories.  The garbage collector later deletes the blobs no project
    uses, coordinating with pushes through the status column of the blob table.

    Long work (collection, retention, replication, scanning) runs as jobs: a
    scheduler starts executions, the job service keeps a job's status in Redis and
    reports changes by hooks, which the core turns into the status of tasks and
    executions.  Retention policies choose artifacts to delete, respecting
    immutability rules.  Replication policies choose artifacts of one registry
    that a transfer copies to another, preheat policies images of a project that
    are sent to a distribution network.  Listings answer queries of the API.

    ** Files

    Foundations.
    - [Prelude]: this file; machine integers, tactics, lemmas on lists and maps.
    - [GoErrors], [GoStrings], [GoUrl], [Encrypt]: error values with
      their codes and chains ([lib/errors], [lib/orm/error.go],
      [pkg/quota/errors.go]), what the code uses of strconv, strings, path,
      net/url, sort and encoding/base64, and the encryption of stored secrets
      ([common/utils/encrypt.go]).
    - [Orm], [Table], [Hoare]: the state and error monad of database code.  A
      world is a database, a flag for the ORM in the context, and a schedule of
      faults: each statement takes the next entry, which may make it fail.
      [WithTransaction] restores the database on an error.  [Table] has tables with
      serial keys, [Hoare] specifications with success and error conditions.  The
      tactics [mrun], [mbind_inv], [frame], [keeps_auto] and [spec_auto] and the
      hint databases carry the proofs of the stores.
    - [Retry]: [lib/retry/retry.go].  [Query], [QuerySpec]: the query language of
      the API and its pages ([lib/q], [lib/orm/query.go],
      [server/v2.0/handler/base.go]).

    Quotas and blobs.
    - [QuotaFormat], [QuotaTypes], [QuotaStore], [QuotaCtl]: rendering of sizes,
      resource lists and the limit check, the two tables with dao and manager
      ([pkg/quota]); the controller with its optimistic retry loop
      ([controller/quota]).  The driver of a kind of reference object is the
      interface [DriverOk].  [QuotaConc]: the protocol as a step relation of
      concurrent clients.
    - [BlobStore], [QuotaMiddleware], [GC]: the blob tables and probes
      ([pkg/blob], [controller/blob], [server/middleware/blob]); the middlewares
      of pushes and the project driver ([server/middleware/quota]); the collection
      job ([jobservice/job/impl/gc]), whose services are the interface [GCEnvOk].

    Jobs.
    - [JobStatus], [TaskStore], [TaskConc]: the status of a job in Redis
      ([jobservice/job]); executions, tasks and hooks ([pkg/task]); concurrent hook
      handlers as a step relation.
    - [Scheduler], [SchedulerSpec]: schedules, their callbacks and check-ins
      ([pkg/scheduler]).

    Artifacts.
    - [ArtifactStore], [ArtifactCtl]: artifacts, tags, accessories, labels,
      repositories and the trash: stores ([pkg/artifact], [pkg/tag],
      [pkg/accessory], [pkg/label], [pkg/repository]) and controllers
      ([controller/artifact], [controller/tag], [controller/repository]).
      [ArtifactInv], [ArtifactSpec], [ArtifactDelete], [ArtifactWalk]: their
      invariant and properties.
    - [Listing], [ListingSpec]: catalog and tag listing of the registry API with
      the client that follows the links.
    - [Retention], [RetentionConc]: selectors, immutability, retention rules and
      the performer; the concurrent processor as a step relation.
      [RetentionCtl], [RetentionCtlSpec]: the store of policies, the launcher, the
      job, the controller and the API of retention, and the API of the metadata of
      projects ([pkg/retention], [controller/retention], [server/v2.0/handler]).
    - [VulnReport], [ScanStore], [ScanSpec], [ScanCtl], [ScanCtlSpec]:
      vulnerability reports, their records, scanners, and the scan controller and
      job ([pkg/scan], [controller/scan], [controller/scanner]).
    - [Pull], [PullSpec]: the middlewares of a pull ([server/middleware]).
    - [ProxySecret], [ProxySecretSpec]: the secrets of the proxy cache as
      interleaved atomic steps ([pkg/proxy/secret]).
    - [Cached], [CachedSpec]: the caches in front of the managers of artifacts,
      projects, metadata, repositories and manifests ([pkg/cached], [lib/cache]).
    - [Goroutines]: programs that interleave between their calls, with rules of rely
      and guarantee.  [ProxyCache], [ProxyCacheSpec]: the proxy cache with the
      goroutines of its requests ([controller/proxy], [server/middleware/repoproxy]).
    - [Preheat], [PreheatCtl], [PreheatSpec]: preheat policies, their filters, the
      drivers of providers and the job ([pkg/p2p/preheat]); the enforcer, the
      controller, the event handler and the API ([controller/p2p/preheat],
      [controller/event/handler/p2p], [server/v2.0/handler/preheat.go]).

    Replication.
    - [Replication], [ReplicationSpec]: resources, filters, policies and
      destination names; [ReplicationCtl], [ReplicationCtlSpec]: policies,
      registries and schedules ([controller/replication], [pkg/reg],
      [pkg/replication]).
    - [RegistryClient], [RegistryClientSpec], [Transfer], [TransferSpec]: the
      client of a registry and the copying of artifacts between two registries,
      which are instances of the class [ArtifactRegistry].

    Projects, users and permissions.
    - [ProjectStore], [ProjectSpec]: projects, members, metadata, allowlists.
    - [RobotStore], [RobotSpec]: robot accounts with their API and login.
    - [Rbac], [Security]: policies, role tables, the casbin enforcer as far as it
      is used, and the security contexts as state machines over questions.
    - [TokenService], [TokenSpec]: tokens of the registry API
      ([core/service/token], [pkg/token]).
    - [Users], [UserApi], [UserSpec]: accounts, their API, and the login with its
      lock.  [LoginConc]: logins that run side by side, as a step relation.  [UserGroups], [Ldap], [Oidc], [AuthProviders]: groups, directory,
      identity provider and the authenticators ([pkg/usergroup], [pkg/ldap],
      [pkg/oidc], [core/auth]).  [AuthChain]: the generators of security contexts
      ([server/middleware/security]).  [AuthSpec], [AuthChainSpec]: who a login and
      a request stand for; the class [Honest] is what a login needs of an
      authenticator.

    ** What the theorems show

    Quota.  [quota_never_exceeded], [quota_updates_serializable]: concurrent
    updates are serializable and do not exceed an unchanged limit, as long as the
    sums stay below 2^63 where rollbacks run beside them.  [Request_spec]: a handler
    runs only after a reservation that fits, and nothing is refreshed after it.  [put_blob_accounts]: what
    an upload reserves is what the usage grows by.

    Blobs and collection.  [mark_selects_garbage], [sweep_spares_touched]: only
    blobs that no project references and that were not touched within the window
    are selected, and what was touched in between is spared.

    Jobs.  [job_status_linear], [hook_delivery_order_irrelevant],
    [refreshes_converge]: a status only advances, hooks may arrive in any order,
    executions converge.  [checkins_trigger_once]: repeated, late or reordered
    check-ins have at most one committed run of the callback each; a failed run is
    rolled back with the revision and may be repeated.

    Artifacts.  [reachable_art_ok]: every history under every fault schedule keeps
    the tables consistent.  [Ensure_artifact_spec], [Delete_removes],
    [Delete_terminates], [Walk_terminates]: what recording and deleting do, and
    that the recursions end; what is deleted is in the trash and a push is announced.
    [retention_enforced]: a run has one task for each selected repository, with the
    enabled rules in order; when no rule fails it deletes exactly what no rule
    retains and nothing protects, under every schedule of its goroutines.  [retention_authorised]: policies of retention and
    their schedules agree, and only who may changes them.  [Catalog_complete], [Build_checked],
    [api_pages_complete]: a client that follows the links of a listing sees every
    entry, on the API those of its own filter and in its order.
    [converter_roundtrip]: stored reports are read back, when keys do not collide.
    [pulled_manifest_policies]: what a pulled manifest has passed, and when the
    scanner has a say.

    Caches.  [cache_transparent]: a history of requests over the cached managers
    of artifacts or repositories is answered from the tables as they are, up to
    references that were removed one by one.

    Proxy cache.  [proxied_content], [proxy_cache_closed]: over every interleaving of
    requests and goroutines, what clients are served comes from the remote registry,
    and no manifest is kept before what it refers to.

    Preheating.  [preheats_admitted]: no image is sent to a provider unless the
    filters of the policy on repository, tag and label and the settings of the
    project admit it.

    Replication.  [filters_select], [registry_roundtrip], [replication_coherent]:
    what policies select, and that policies, registries and schedules agree over
    any history.  [transfer_closed], [transfer_delivers],
    [transfer_returns], [chunks_partition]: no manifest is left without its parts,
    other than foreign layers and blobs whose mount the destination affirmed without
    doing it; success means delivery, and the loops end.

    Users and permissions.  [challenge_exchange]: a token obtained after a challenge
    grants what the caller itself may do.  [request_context]: every context is
    vouched for, and when the chain panics.  [login_identity]: a login stands for the
    account of that name.
    [login_throttled], [accounts_authorised], [proxy_secrets]: how many refusals the
    lock lets through when logins overlap, who may change accounts, and which secrets
    of the proxy are accepted.
    [local_Can_spec], [created_robot_context], [project_name_reusable]: what users
    and robots may do, and that a deleted project frees its name.

    Behaviours the code does not intend.  [repository_delete_livelock]: a state in
    which the deletion of a repository never ends.  Other such behaviours are
    examples beside the theorems: a secret of the proxy accepted twice
    ([secret_accepted_twice]), a user of the auth proxy without a number
    ([authproxy_known_user]), a directory entry that becomes the administrator
    ([directory_admin]), a lock that is evaded by the email ([email_evades_lock]), a
    login that panics ([group_settings_panic]), a name with a comma that casbin splits
    ([comma_in_name]), a request so large that the sum of the quota wraps around
    ([oversized_reservation]), a vulnerability that is stored as another
    ([colliding_key_drops_item]), a secret that is not stored
    ([keyless_secret_dropped]), a metadata entry served after its deletion ([deleted_metadata_served]), a signed
    image that counts as unsigned ([signed_image_skipped]), credentials of a provider
    that are never read back ([stored_credentials_unusable]), a deleted policy of
    retention that blocks the next one and a second policy that runs beside the first
    ([deleted_policy_blocks], [second_policy]), a policy that can be neither deleted
    nor changed ([cron_missing_stuck]), an old list of images served under a new digest
    ([stale_list]), an image that is kept without its layer ([incomplete_image]), a tag
    without a name ([empty_tag]), a limit change that retries until it times out, a task stopped in a batch and
    overwritten by a late hook, a layer listed twice and reserved twice.

    ** Bounds and fuel

    [Retry] counts the attempts a timer allows; theorems hold for every budget and
    say what happens when it is spent.  Loops that are not structural take fuel,
    and theorems say how much is enough: the probe of a blob, two; paging loops of
    the collector and of the sweeper, more than the rows, since every page moves
    the cursor or removes rows; the deep deletion of an artifact, two more than
    twice the links of the tables; the walk of an artifact, [walk_bound]; the client
    of a listing, more than the names; the walk over pages of the API, more than
    the rows; a transfer, more depth than the rank of the manifest and chunks that
    cover the blob; removal of a substring, the length of the text.  The refresh of
    an execution makes the five attempts of the code.  Role links are followed to
    casbin's depth of ten.  Integers are kept at their width where the code
    computes with them ([wrap64], [wrap_u64]).

    ** What is not modelled

    HTTP routing and rendering, the web portal, logging and metrics, generated and
    vendored code other than casbin's decision, the adapters of foreign registries,
    the worker pool and the API of the job service, notifications,
    exports, the audit log, configuration and most handlers of the REST
    API, which decode a request and render the reply of a controller.  Code that is
    not in the repository (ciphers, hashes, signatures of tokens, directory, identity
    providers, scanners, registries) is a parameter; what is needed of it is a
    class or a hypothesis.  JSON texts are documents with their rendering; times are
    numbers; regular expressions of policy keys are covered up to the wildcard
    after a slash. *)

From Stdlib Require Export ZArith Lia.
From stdpp Require Export base gmap strings list fin_maps sorting pretty.


(** ** Notation scope of the library *)
Declare Scope harbor_scope.
Delimit Scope harbor_scope with harbor.

(** Go's comparison of strings, as a boolean. *)
Notation "x == y" := (bool_decide (@eq string x%string y%string))
  (at level 70, no associativity) : harbor_scope.

(** ** Machine integers: Go's [int64] *)
Definition max_int64 : Z := 2 ^ 63 - 1.
Definition min_int64 : Z := - 2 ^ 63.

Definition in_int64 (z : Z) : Prop := (min_int64 ≤ z ≤ max_int64)%Z.

#[export] Instance in_int64_dec z : Decision (in_int64 z).
Proof. unfold in_int64. apply _. Defined.

(** Two's complement wrap-around of an [int64] operation's exact result. *)
Definition wrap64 (z : Z) : Z := ((z + 2 ^ 63) mod 2 ^ 64 - 2 ^ 63)%Z.

Lemma wrap64_range z : in_int64 (wrap64 z).
Proof.
  unfold in_int64, wrap64, min_int64, max_int64.
  pose proof (Z.mod_pos_bound (z + 2 ^ 63) (2 ^ 64) ltac:(lia)). lia.
Qed.

Lemma wrap64_id z : in_int64 z → wrap64 z = z.
Proof.
  unfold in_int64, wrap64, min_int64, max_int64. intros ?.
  rewrite Z.mod_small by lia. lia.
Qed.

(** A sum of two numbers that overflows becomes negative. *)
Lemma wrap64_over z : (max_int64 < z ≤ 2 * max_int64)%Z → (wrap64 z = z - 2 ^ 64 ∧ wrap64 z < 0)%Z.
Proof.
  unfold wrap64, max_int64. intros Hz.
  replace (z + 2 ^ 63)%Z with (z - 2 ^ 63 + 1 * 2 ^ 64)%Z by lia. rewrite Z.mod_add, Z.mod_small by lia. lia.
Qed.

(** Goals about the range of an [int64]. *)
Ltac int64_lia := unfold in_int64, min_int64, max_int64 in *; lia.

Create HintDb harbor.
#[export] Hint Resolve wrap64_range : harbor.
#[export] Hint Extern 2 (in_int64 _) => int64_lia : harbor.

Lemma div_le_mul_iff n u p : (0 < u)%Z → (p ≤ n / u ↔ u * p ≤ n)%Z.
Proof.
  intros Hu. pose proof (Z.div_mod n u ltac:(lia)).
  pose proof (Z.mod_pos_bound n u Hu). split; intros.
  - assert (u * p <= u * (n / u))%Z by (apply Z.mul_le_mono_nonneg_l; lia). lia.
  - apply Z.div_le_lower_bound; lia.
Qed.

Lemma div_lt_mul_iff n u p : (0 < u)%Z → (n / u < p ↔ n < u * p)%Z.
Proof. intros Hu. pose proof (div_le_mul_iff n u p Hu). lia. Qed.

(** ** Tactics *)

(** Split conjunctions and existentials of the context. *)
Ltac destr_all :=
  repeat match goal with
  | H : _ ∧ _ |- _ => destruct H
  | H : ∃ _, _ |- _ => destruct H
  end.

(** Case on the first [match] or [if] of the goal or of a hypothesis,
    remembering the equation. *)
Ltac case_goal := repeat (case_match; simplify_eq/=; try done).

Ltac invs H := inversion H; subst; clear H.

(** Close a goal on concrete values by evaluation. *)
Ltac by_eval := first [vm_compute; reflexivity | vm_compute; discriminate | vm_compute; intuition congruence].

(** ** Generic lemmas on lists and maps *)

Lemma filter_nil_iff {A} (P : A → Prop) `{!∀ x, Decision (P x)} (l : list A) :
  filter P l = [] ↔ Forall (λ x, ¬ P x) l.
Proof.
  induction l as [|x l IH]; [done|].
  rewrite Forall_cons, filter_cons. case_decide; naive_solver.
Qed.

Lemma Forall_map_to_list {K V} `{Countable K} (P : K * V → Prop) (m : gmap K V) :
  Forall P (map_to_list m) ↔ (∀ k v, m !! k = Some v → P (k, v)).
Proof.
  rewrite Forall_forall. split.
  - intros HP k v Hk. apply HP. by apply elem_of_map_to_list.
  - intros HP [k v] Hin. apply HP. by apply elem_of_map_to_list.
Qed.

Lemma fmap_nil_iff {A B} (f : A → B) (l : list A) : f <$> l = [] ↔ l = [].
Proof. by destruct l. Qed.

Lemma filter_all {A} (P : A → Prop) `{!∀ x, Decision (P x)} (l : list A) :
  Forall P l → filter P l = l.
Proof. induction 1; [done|]. rewrite filter_cons_True by done. by f_equal. Qed.

Lemma filter_ext_in {A} (P Q : A → Prop) `{!∀ x, Decision (P x), !∀ x, Decision (Q x)} (l : list A) :
  (∀ x, x ∈ l → P x ↔ Q x) → filter P l = filter Q l.
Proof.
  induction l as [|x l IH]; intros Hpq; [done|]. rewrite !filter_cons.
  pose proof (Hpq x ltac:(left)) as Hx.
  rewrite IH by (intros y Hy; apply Hpq; by right).
  do 2 case_decide; try tauto; done.
Qed.

(** A predicate that rejects one more element keeps fewer. *)
Lemma length_filter_le {A} (P Q : A → Prop) `{!∀ x, Decision (P x), !∀ x, Decision (Q x)} (l : list A) :
  (∀ x, P x → Q x) → (length (filter P l) ≤ length (filter Q l))%nat.
Proof.
  intros HPQ. induction l as [|x l IH]; [done|]. rewrite !filter_cons.
  do 2 case_decide; simpl; try lia. naive_solver.
Qed.

Lemma length_filter_lt {A} (P Q : A → Prop) `{!∀ x, Decision (P x), !∀ x, Decision (Q x)} (l : list A) x :
  (∀ y, P y → Q y) → x ∈ l → Q x → ¬ P x → (length (filter P l) < length (filter Q l))%nat.
Proof.
  intros HPQ Hin HQ HP. induction l as [|y l IH]; [by apply not_elem_of_nil in Hin|].
  rewrite !filter_cons. apply elem_of_cons in Hin as [->|Hin].
  - rewrite decide_False, decide_True by done. simpl. apply Nat.lt_succ_r, length_filter_le, HPQ.
  - specialize (IH Hin). do 2 case_decide; simpl; try lia. naive_solver.
Qed.

(** In a sorted list with distinct keys, the last element of a prefix of two or
    more has a key above the first one's. *)
Lemma sorted_last_lt {A} (key : A → Z) (l : list A) (a b : A) :
  StronglySorted (λ x y, key x ≤ key y)%Z l → NoDup (key <$> l) → (2 ≤ length l)%nat →
  head l = Some a → last l = Some b → (key a < key b)%Z.
Proof.
  intros Hs Hn Hl Ha Hb. destruct l as [|x l]; [done|]. simpl in Ha. injection Ha as ->.
  inversion Hs as [|?? _ Hf]; subst. rewrite fmap_cons in Hn. apply NoDup_cons in Hn as [Hn _].
  assert (Hin : b ∈ l).
  { destruct l as [|y l]; [simpl in Hl; lia|]. rewrite last_cons_cons in Hb.
    by apply last_Some_elem_of. }
  rewrite Forall_forall in Hf. specialize (Hf b Hin).
  assert (key a ≠ key b) by (intros He; apply Hn; rewrite He; by apply list_elem_of_fmap_2). lia.
Qed.
