(* ===== verification/QuotaFormat.v ===== *)
(** * Display of resource values: [src/pkg/quota/types/format.go] and
    [ResourceName.FormatValue] of [src/pkg/quota/types/resources.go]

    Error messages and quota warnings print storage sizes with a binary unit.
    Go's [fmt] verbs used here are [%d] (decimal), and [%.1f] applied to a
    quotient of two [float64] conversions, which is modelled exactly: the
    conversion of the [int64] rounds to 53 significant bits, the division by a
    power of two is exact, and the one decimal is rounded half to even. *)

From S2P Require Import Prelude.

Open Scope Z_scope.

Definition ResourceStorage : string := "storage".
Definition UNLIMITED : Z := -1.

(** Quotient rounded to the nearest integer, ties to the even one. *)
Definition div_half_even (a b : Z) : Z :=
  let q := a / b in
  let r := a mod b in
  if 2 * r <? b then q
  else if b <? 2 * r then q + 1
  else if Z.even q then q else q + 1.

(** [float64(z)] for a non-negative [int64]. *)
Definition float64_of (z : Z) : Z :=
  let k := Z.log2 z - 52 in
  if k <=? 0 then z else div_half_even z (2 ^ k) * 2 ^ k.

(** [fmt.Sprintf("%.1f", float64(value)/float64(div))] *)
Definition fmt_quot_1f (value div : Z) : string :=
  let t := div_half_even (float64_of value * 10) (float64_of div) in
  pretty (t / 10) +:+ "." +:+ pretty (t mod 10).

Definition unit_ : Z := 1024.

(** The loop [for n := value / unit; n >= unit; n /= unit]: the divisor and
    the exponent when it exits, [None] when the fuel does not suffice. *)
Fixpoint display_loop (fuel : nat) (n div : Z) (exp : nat) : option (Z * nat) :=
  match fuel with
  | O => None
  | S fuel =>
      if unit_ <=? n
      then display_loop fuel (n / unit_) (wrap64 (div * unit_)) (S exp)
      else Some (div, exp)
  end.

(** The units string indexed by the exponent. *)
Definition units : string := "KMGTPE".

(** Enough iterations for any [int64]; see [byteCountToDisplaySize_total]. *)
Definition display_fuel : nat := 6.

(** [None] stands for the run-time panic of an index out of range. *)
Definition byteCountToDisplaySize (value : Z) : option string :=
  if value <? unit_ then Some (pretty value +:+ " B")
  else
    match display_loop display_fuel (value / unit_) unit_ 0 with
    | Some (div, exp) =>
        match String.get exp units with
        | Some c => Some (fmt_quot_1f value div +:+ " " +:+ String c "iB")
        | None => None
        end
    | None => None
    end.

Definition FormatValue (resource : string) (value : Z) : option string :=
  if bool_decide (resource = ResourceStorage)
  then byteCountToDisplaySize value
  else Some (pretty value).

(** ** The loop's result *)

Lemma display_loop_spec fuel n k :
  0 <= n < unit_ ^ Z.of_nat fuel →
  (0 ≤ k)%nat →
  Z.of_nat k + Z.of_nat fuel <= 6 →
  (0 < fuel)%nat →
  ∃ j, display_loop fuel n (unit_ ^ (Z.of_nat k + 1)) k
         = Some (unit_ ^ (Z.of_nat (k + j) + 1), (k + j)%nat)
       ∧ (j < fuel)%nat
       ∧ (unit_ ^ Z.of_nat j <= n \/ j = 0%nat)
       ∧ n < unit_ ^ (Z.of_nat j + 1).
Proof.
  revert n k. induction fuel as [|fuel IH]; intros n k Hn Hk Hf H0; [lia|].
  simpl. destruct (Z.leb_spec unit_ n) as [Hle|Hlt].
  - assert (Hfuel : (0 < fuel)%nat).
    { destruct fuel; [|lia]. change (unit_ ^ Z.of_nat 1) with unit_ in Hn. lia. }
    assert (Hu : unit_ ^ Z.of_nat (S fuel) = unit_ * unit_ ^ Z.of_nat fuel).
    { rewrite Nat2Z.inj_succ, Z.pow_succ_r by lia. done. }
    rewrite Hu in Hn.
    assert (Hn' : 0 <= n / unit_ < unit_ ^ Z.of_nat fuel).
    { split; [apply Z.div_pos; unfold unit_ in *; lia|].
      apply Z.div_lt_upper_bound; unfold unit_ in *; lia. }
    assert (Hw : wrap64 (unit_ ^ (Z.of_nat k + 1) * unit_) = unit_ ^ (Z.of_nat (S k) + 1)).
    { replace (Z.of_nat (S k) + 1) with (Z.succ (Z.of_nat k + 1)) by lia.
      rewrite Z.pow_succ_r by lia. rewrite Z.mul_comm. apply wrap64_id.
      rewrite <- Z.pow_succ_r by lia.
      assert (unit_ ^ Z.succ (Z.of_nat k + 1) <= unit_ ^ 6).
      { apply Z.pow_le_mono_r; unfold unit_; lia. }
      assert (0 < unit_ ^ Z.succ (Z.of_nat k + 1)) by (apply Z.pow_pos_nonneg; unfold unit_; lia).
      unfold in_int64, min_int64, max_int64. change (unit_ ^ 6) with (2 ^ 60) in *. lia. }
    rewrite Hw.
    destruct (IH (n / unit_) (S k) Hn' ltac:(lia) ltac:(lia) Hfuel) as (j & Hj & Hjf & Hlo & Hhi).
    exists (S j). replace (k + S j)%nat with (S k + j)%nat by lia.
    split_and!; [done|lia| |].
    + left. rewrite Nat2Z.inj_succ, Z.pow_succ_r by lia.
      destruct Hlo as [Hlo| ->].
      * by apply div_le_mul_iff.
      * change (unit_ ^ Z.of_nat 0) with 1. lia.
    + replace (Z.of_nat (S j) + 1) with (Z.succ (Z.of_nat j + 1)) by lia.
      rewrite Z.pow_succ_r by lia. by apply div_lt_mul_iff.
  - exists 0%nat. rewrite Nat.add_0_r. split_and!; [done|lia|by right|].
    change (Z.of_nat 0 + 1) with 1. rewrite Z.pow_1_r. lia.
Qed.

(** For every [int64] the loop stops within its fuel, the exponent indexes
    [units], and the divisor is the largest power of 1024 not above the value. *)
Lemma display_loop_int64 value :
  unit_ <= value <= max_int64 →
  ∃ exp, display_loop display_fuel (value / unit_) unit_ 0
           = Some (unit_ ^ (Z.of_nat exp + 1), exp)
       ∧ (exp < String.length units)%nat
       ∧ unit_ ^ (Z.of_nat exp + 1) <= value < unit_ ^ (Z.of_nat exp + 2).
Proof.
  unfold max_int64. intros [Hlo Hhi].
  destruct (display_loop_spec 6 (value / unit_) 0) as (j & Hj & Hlt & Hl & Hh).
  { change (unit_ ^ Z.of_nat 6) with (2 ^ 60). split; [apply Z.div_pos|apply div_lt_mul_iff];
      unfold unit_ in *; lia. }
  all: try lia.
  exists j. split_and!; [exact Hj|exact Hlt| |].
  - change (Z.of_nat j + 1) with (Z.succ (Z.of_nat j)). rewrite Z.pow_succ_r by lia.
    destruct Hl as [Hl| ->]; [by apply div_le_mul_iff|]. change (unit_ ^ Z.of_nat 0) with 1. lia.
  - replace (Z.of_nat j + 2) with (Z.succ (Z.of_nat j + 1)) by lia.
    rewrite Z.pow_succ_r by lia. by apply div_lt_mul_iff.
Qed.

Lemma string_get_lt s n : (n < String.length s)%nat → is_Some (String.get n s).
Proof.
  revert n. induction s as [|c s IH]; intros [|n] Hn; simpl in *; try lia; eauto.
  apply IH. lia.
Qed.

Lemma byteCountToDisplaySize_total value :
  value <= max_int64 → is_Some (byteCountToDisplaySize value).
Proof.
  intros Hv. unfold byteCountToDisplaySize.
  destruct (Z.ltb_spec value unit_) as [|Hge]; [eauto|].
  destruct (display_loop_int64 value) as (e & -> & He & _); [lia|].
  destruct (string_get_lt units e He) as [c ->]. eauto.
Qed.

Lemma FormatValue_total resource value :
  value <= max_int64 → is_Some (FormatValue resource value).
Proof.
  intros. unfold FormatValue. case_bool_decide; eauto using byteCountToDisplaySize_total.
Qed.
