(* ===== verification/GoErrors.v ===== *)
(** * Errors: [src/lib/errors], [src/lib/orm/error.go], [src/pkg/quota/errors.go]

    Go's [error] is an open interface; the inductive type below has one
    constructor per implementation that the modelled code builds or tests for.
    Sentinels compared by identity ([orm.ErrNoRows], [orm.ErrOptimisticLock],
    [errNonSuccess], [readonly.Err], [errGcStop], [errStopped], [cjob.ErrJobNotFound],
    [task.ErrTimeOut]) are constructors of their own; [Panic] is a run-time panic
    of the called code.  Values compared by pointer
    ([*ResourceOverflow], [*ResourceNotFound]) carry the address of their
    allocation.  Stack traces are not modelled. *)

From S2P Require Import Prelude QuotaFormat.


Inductive error :=
  | ErrNoRows
  | ErrOptimisticLock
  | ErrNonSuccess
  | ErrReadonly
  | ErrGcStop
  | ErrStopped
  | ErrJobNotFound
  | ErrTimeOut
  | Panic (msg : string)
  | HttpError (code : Z) (msg : string)
  | StatusMismatch (current target : string)
  | NoObjectFound (object : string)
  | PgError (code msg : string)
  | PlainError (msg : string)
  | ResourceOverflow (ptr : nat) (resource : string) (hard current new : Z)
  | ResourceNotFound (ptr : nat) (resource : string)
  | QuotaErrors (errs : list error)
  | RetryAbort (cause : option error)
  | HError (cause : option error) (code msg : string).

(** Results of Go functions of type [(T, error)]: a value or an error. *)
Inductive result (A : Type) :=
  | Ok (a : A)
  | Err (e : error).
Arguments Ok {A} a.
Arguments Err {A} e.

Definition is_ok {A} (r : result A) : bool :=
  match r with Ok _ => true | Err _ => false end.

(** ** [src/lib/errors/const.go] *)
Definition NotFoundCode : string := "NOT_FOUND".
Definition ConflictCode : string := "CONFLICT".
Definition GeneralCode : string := "UNKNOWN".
Definition DENIED : string := "DENIED".
Definition BadRequestCode : string := "BAD_REQUEST".
Definition PreconditionCode : string := "PRECONDITION".
Definition ForbiddenCode : string := "FORBIDDEN".
Definition ViolateForeignKeyConstraintCode : string := "VIOLATE_FOREIGN_KEY_CONSTRAINT".

(** ** [src/lib/errors/errors.go] *)

(** The message of the package-level [*Error] value [orm.ErrOptimisticLock]. *)
Definition optimistic_lock_msg : string :=
  "the object has been modified; please apply your changes to the latest version and try again".

(** [errors.New] of a string: a fresh [*Error] holding it as its message. *)
Definition New (msg : string) : error := HError None EmptyString msg.
Definition Wrap (err : option error) (message : string) : option error :=
  match err with
  | None => None
  | Some e => Some (HError (Some e) EmptyString message)
  end.

(** The builder methods mutate the [*Error] and return it; on another
    implementation of [error] they do not apply. *)
Definition WithCode (e : error) (code : string) : error :=
  match e with HError c _ m => HError c code m | _ => e end.
Definition WithCause (e : error) (cause : option error) : error :=
  match e with HError _ c m => HError cause c m | _ => e end.
Definition WithMessage (e : error) (msg : string) : error :=
  match e with HError c k _ => HError c k msg | _ => e end.

Definition NotFoundError (err : option error) : error :=
  WithCause (WithCode (New "resource not found") NotFoundCode) err.
Definition ConflictError (err : option error) : error :=
  WithCause (WithCode (New "resource conflict") ConflictCode) err.
Definition DeniedError (err : option error) : error :=
  WithCause (WithCode (New "denied") DENIED) err.
Definition BadRequestError (err : option error) : error :=
  WithCause (WithCode (New "bad request") BadRequestCode) err.
Definition ForbiddenError (err : option error) : error :=
  WithCause (WithCode (New "forbidden") ForbiddenCode) err.

(** Go's [errors.As] with a [*Error] target: the first [*Error] of the unwrap
    chain, as its cause and code.  Only [*Error] has an [Unwrap] method. *)
Definition AsError (e : error) : option (option error * string) :=
  match e with
  | HError c k _ => Some (c, k)
  | ErrOptimisticLock => Some (None, EmptyString)
  | _ => None
  end.

Definition IsErr (e : error) (code : string) : bool :=
  match AsError e with
  | Some (_, k) => bool_decide (k = code)
  | None => false
  end.

Definition IsNotFoundErr (e : error) : bool := IsErr e NotFoundCode.
Definition IsConflictErr (e : error) : bool := IsErr e ConflictCode.

(** [ErrCode]: the first non-empty code of the chain, [GeneralCode] when there
    is none. *)
Fixpoint ErrCode (e : error) : string :=
  match e with
  | HError c k _ =>
      if bool_decide (k = EmptyString)
      then match c with Some e' => ErrCode e' | None => GeneralCode end
      else k
  | _ => GeneralCode
  end.

(** [Cause]: the root of the chain of [*Error] values. *)
Fixpoint Cause (e : error) : error :=
  match e with
  | HError (Some e') _ _ => Cause e'
  | _ => e
  end.

(** Go's [errors.Is] against the two sentinels the code tests for. *)
Fixpoint Is_NoRows (e : error) : bool :=
  match e with
  | ErrNoRows => true
  | HError (Some c) _ _ => Is_NoRows c
  | _ => false
  end.

Fixpoint Is_OptimisticLock (e : error) : bool :=
  match e with
  | ErrOptimisticLock => true
  | HError (Some c) _ _ => Is_OptimisticLock c
  | _ => false
  end.

(** Go's [errors.As] with a [quota.Errors] target. *)
Fixpoint AsQuotaErrors (e : error) : option (list error) :=
  match e with
  | QuotaErrors es => Some es
  | HError (Some c) _ _ => AsQuotaErrors c
  | _ => None
  end.

(** Go's [errors.As] with a [*retry.abort] target. *)
Fixpoint AsAbort (e : error) : option (option error) :=
  match e with
  | RetryAbort c => Some c
  | HError (Some c) _ _ => AsAbort c
  | _ => None
  end.

(** ** [src/lib/orm/error.go] *)

Fixpoint IsDuplicateKeyError (e : error) : bool :=
  match e with
  | PgError c _ => bool_decide (c = "23505"%string)
  | HError (Some c) _ _ => IsDuplicateKeyError c
  | _ => false
  end.

Definition AsNotFoundError (e : error) (msg : string) : option error :=
  if Is_NoRows e
  then Some (if bool_decide (msg = EmptyString) then NotFoundError None
             else WithMessage (NotFoundError None) msg)
  else None.

Definition WrapNotFoundError (e : error) (msg : string) : error :=
  default e (AsNotFoundError e msg).

Definition AsConflictError (e : error) (msg : string) : option error :=
  if IsDuplicateKeyError e
  then Some (WithMessage (WithCode (New EmptyString) ConflictCode) msg)
  else None.

Fixpoint isViolatingForeignKeyConstraintError (e : error) : bool :=
  match e with
  | PgError c _ => bool_decide (c = "23503"%string)
  | HError (Some c) _ _ => isViolatingForeignKeyConstraintError c
  | _ => false
  end.

Definition AsForeignKeyError (e : error) (msg : string) : option error :=
  if isViolatingForeignKeyConstraintError e
  then Some (HError (Some e) ViolateForeignKeyConstraintCode msg)
  else None.

Definition WrapConflictError (e : error) (msg : string) : error :=
  default e (AsConflictError e msg).

(** ** Rendering: the [Error()] methods *)

(** Go's [strings.Join]. *)
Fixpoint strings_Join (l : list string) (sep : string) : string :=
  match l with
  | [] => EmptyString
  | [x] => x
  | x :: l => x +:+ sep +:+ strings_Join l sep
  end.

(** [resource.FormatValue(v)]; total on [int64], see [FormatValue_total]. *)
Definition format_or_empty (resource : string) (v : Z) : string :=
  default EmptyString (FormatValue resource v).

Definition overflow_string (resource : string) (hard current new : Z) : string :=
  let '(op, delta) :=
    if (current <? new)%Z then ("adding"%string, wrap64 (new - current))
    else ("subtracting"%string, wrap64 (current - new)) in
  op +:+ " " +:+ format_or_empty resource delta +:+ " of " +:+ resource
     +:+ " resource, which when updated to current usage of "
     +:+ format_or_empty resource current +:+ " will exceed the configured upper limit of "
     +:+ format_or_empty resource hard +:+ ".".

(** The JSON text of the job service's [baseError]; the texts it carries need no
    escaping. *)
Definition dq : string := String (Ascii.ascii_of_nat 34) EmptyString.
Definition quoted (s : string) : string := dq +:+ s +:+ dq.
Definition job_error (code : Z) (msg details : string) : string :=
  "{" +:+ quoted "code" +:+ ":" +:+ pretty code +:+ "," +:+ quoted "message" +:+ ":" +:+ quoted msg
      +:+ "," +:+ quoted "details" +:+ ":" +:+ quoted details +:+ "}".

Fixpoint error_string (e : error) : string :=
  match e with
  | ErrNoRows => "<QuerySeter> no row found"
  | ErrOptimisticLock => optimistic_lock_msg
  | ErrNonSuccess => "non success status code"
  | ErrReadonly => "the system is in read only mode, cancel the request"
  | ErrGcStop => "stopped"
  | ErrStopped => "stopped"
  | ErrJobNotFound => "job not found"
  | ErrTimeOut => "stopping the execution timeout"
  | Panic m => m
  | HttpError c m => "http error: code " +:+ pretty c +:+ ", message " +:+ m
  | StatusMismatch c t =>
      job_error 10016 "mismatch job status" ("current " +:+ c +:+ ", setting to " +:+ t)
  | NoObjectFound o => job_error 10010 "object is not found" o
  | PgError _ m => m
  | PlainError m => m
  | ResourceOverflow _ r h c n => overflow_string r h c n
  | ResourceNotFound _ r => "resource " +:+ r +:+ " not found"
  | QuotaErrors es => strings_Join (map error_string es) "; "
  | RetryAbort None => "retry abort"
  | RetryAbort (Some c) => "retry abort, error: " +:+ error_string c
  | HError None _ m => m
  | HError (Some c) _ m => m +:+ ": " +:+ error_string c
  end.

(** ** [src/pkg/quota/errors.go] *)

(** Go's [err == e] on two interface values: same dynamic type and same
    pointer.  Two [quota.Errors] never meet here, the caller splices them. *)
Definition error_same (a b : error) : bool :=
  match a, b with
  | ResourceOverflow p _ _ _ _, ResourceOverflow q _ _ _ _ => bool_decide (p = q)
  | ResourceNotFound p _, ResourceNotFound q _ => bool_decide (p = q)
  | ErrNoRows, ErrNoRows => true
  | ErrOptimisticLock, ErrOptimisticLock => true
  | ErrNonSuccess, ErrNonSuccess => true
  | ErrReadonly, ErrReadonly => true
  | ErrGcStop, ErrGcStop => true
  | ErrStopped, ErrStopped => true
  | _, _ => false
  end.

Definition errors_add_one (errs : list error) (err : error) : list error :=
  if existsb (error_same err) errs then errs else errs ++ [err].

(** [Errors.Add]: a nested [Errors] is spliced, a duplicate is dropped. *)
Fixpoint errors_Add (errs : list error) (err : error) : list error :=
  match err with
  | QuotaErrors es =>
      (fix go (acc : list error) (l : list error) : list error :=
         match l with
         | [] => acc
         | e :: l => go (errors_Add acc e) l
         end) errs es
  | _ => errors_add_one errs err
  end.

Definition is_overflow (e : error) : bool :=
  match e with ResourceOverflow _ _ _ _ _ => true | _ => false end.

(** [Errors.Exceeded]: [None] is the Go [nil]. *)
Definition Exceeded (errs : list error) : option (list error) :=
  match fold_left (λ acc e, if is_overflow e then errors_Add acc e else acc) errs [] with
  | [] => None
  | l => Some l
  end.

(** ** Facts *)

Lemma WrapNotFoundError_spec e msg :
  IsNotFoundErr (WrapNotFoundError e msg) = Is_NoRows e || IsNotFoundErr e.
Proof.
  unfold WrapNotFoundError, AsNotFoundError.
  destruct (Is_NoRows e); [|done]. by case_bool_decide.
Qed.

Lemma ErrCode_nonempty e : ErrCode e ≠ EmptyString.
Proof.
  revert e. fix IH 1. intros e. destruct e; simpl; try done. case_bool_decide; [|done]. destruct cause; [apply IH|done].
Qed.

Lemma Is_OptimisticLock_not_abort e : Is_OptimisticLock e = true → AsAbort e = None.
Proof. revert e. fix IH 1. intros e. destruct e; simpl; try done. destruct cause; [apply IH|done]. Qed.
