(* ===== verification/GoStrings.v ===== *)
(** * Strings: what the code uses of Go's [strconv] and [strings]

    [ParseInt] of base 10 at 64 bits, the decimal rendering of an integer
    ([pretty], as [strconv.FormatInt] and [%d]), prefixes, suffixes, splitting on
    a separator, and the test for blank strings of
    [src/jobservice/common/utils/utils.go]. *)

From S2P Require Import Prelude.
From Stdlib Require Import Ascii.
Open Scope Z_scope.

(** ** [strconv.ParseInt(s, 10, 64)] *)

Definition digit_val (c : ascii) : option Z :=
  let n := Z.of_N (N_of_ascii c) in
  if (48 <=? n) && (n <=? 57) then Some (n - 48) else None.

Fixpoint parse_digits (acc : Z) (s : string) : option Z :=
  match s with
  | EmptyString => Some acc
  | String c s =>
      match digit_val c with
      | Some d => parse_digits (acc * 10 + d) s
      | None => None
      end
  end.

(** Unsigned digits, at least one. *)
Definition parse_magnitude (s : string) : option Z :=
  match s with EmptyString => None | _ => parse_digits 0 s end.

Definition in_range (z : Z) : option Z := if decide (in_int64 z) then Some z else None.

(** [None] is a syntax or a range error. *)
Definition ParseInt (s : string) : option Z :=
  match s with
  | String "-" s' => m ← parse_magnitude s'; in_range (- m)
  | String "+" s' => m ← parse_magnitude s'; in_range m
  | _ => m ← parse_magnitude s; in_range m
  end.

Lemma digit_val_char x : (x < 10)%N → digit_val (pretty_N_char x) = Some (Z.of_N x).
Proof.
  intros Hx. assert (x = 0 ∨ x = 1 ∨ x = 2 ∨ x = 3 ∨ x = 4 ∨ x = 5 ∨ x = 6 ∨ x = 7 ∨ x = 8 ∨ x = 9)%N
    as H by lia.
  repeat destruct H as [->|H]; try reflexivity. subst x. reflexivity.
Qed.

Lemma parse_pretty_N_go x s : parse_digits 0 (pretty_N_go x s) = parse_digits (Z.of_N x) s.
Proof.
  revert s. induction (N.lt_wf_0 x) as [x _ IH]; intros s.
  assert (x = 0 ∨ 0 < x)%N as [->|?] by lia; [by rewrite pretty_N_go_0|].
  rewrite pretty_N_go_step by done. rewrite IH by (by apply N.div_lt).
  simpl. rewrite digit_val_char by (by apply N.mod_lt). f_equal.
  pose proof (N.div_mod x 10). lia.
Qed.

Lemma parse_pretty_N (x : N) : parse_digits 0 (pretty x) = Some (Z.of_N x).
Proof.
  unfold pretty, pretty_N. case_decide as Hx; [by subst|].
  rewrite parse_pretty_N_go. done.
Qed.

(** The text of a natural number starts with a digit. *)
Lemma pretty_N_head (x : N) : ∃ c s, pretty x = String c s ∧ c ≠ "-"%char ∧ c ≠ "+"%char.
Proof.
  pose proof (parse_pretty_N x) as H. destruct (pretty x) as [|c s] eqn:E.
  - simpl in H. injection H as H. assert (x = 0%N) as -> by lia. done.
  - exists c, s. split; [done|]. by split; intros ->.
Qed.

Lemma ParseInt_digits s c s' : s = String c s' → c ≠ "-"%char → c ≠ "+"%char →
  ParseInt s = (m ← parse_digits 0 s; in_range m).
Proof.
  intros -> Hm Hp. unfold ParseInt, parse_magnitude.
  destruct c as [[] [] [] [] [] [] [] []]; try done.
Qed.

Lemma ParseInt_pretty z : in_int64 z → ParseInt (pretty z) = Some z.
Proof.
  intros Hz. unfold pretty, pretty_Z.
  assert (Hr : in_range z = Some z) by (unfold in_range; by rewrite decide_True).
  destruct z as [|p|p].
  - reflexivity.
  - unfold pretty, pretty_positive. destruct (pretty_N_head (N.pos p)) as (c & s & Hs & Hm & Hp).
    rewrite (ParseInt_digits _ c s Hs Hm Hp), parse_pretty_N. done.
  - unfold pretty, pretty_positive. destruct (pretty_N_head (N.pos p)) as (c & s & Hs & Hm & Hp).
    change (ParseInt (String "-" (pretty (N.pos p))) = Some (Z.neg p)).
    unfold ParseInt, parse_magnitude. rewrite Hs. rewrite <- Hs, parse_pretty_N. done.
Qed.

(** The value [strconv.ParseInt] returns beside its error, for the callers that
    drop the error: zero for a syntax error, the nearest bound when the digits
    run out of range. *)
Definition max_uint64 : Z := 2 ^ 64 - 1.

Fixpoint scan_uint64 (acc : Z) (s : string) : Z :=
  match s with
  | EmptyString => acc
  | String c s =>
      match digit_val c with
      | None => 0
      | Some d => if max_uint64 <? acc * 10 + d then max_uint64 else scan_uint64 (acc * 10 + d) s
      end
  end.

Definition ParseInt_value (s : string) : Z :=
  match s with
  | String "-" s' => Z.max (- 2 ^ 63) (- scan_uint64 0 s')
  | String "+" s' => Z.min (2 ^ 63 - 1) (scan_uint64 0 s')
  | _ => Z.min (2 ^ 63 - 1) (scan_uint64 0 s)
  end.

Lemma digit_val_bounds c d : digit_val c = Some d → 0 <= d <= 9.
Proof. unfold digit_val. intros H. destruct (_ && _) eqn:E; [|done]. injection H as <-. lia. Qed.

Lemma parse_digits_ge acc s m : 0 <= acc → parse_digits acc s = Some m → acc <= m.
Proof.
  revert acc. induction s as [|c s IH]; intros acc Ha H; simpl in H; [injection H as <-; lia|].
  destruct (digit_val c) as [d|] eqn:E; [|done]. apply digit_val_bounds in E.
  apply IH in H; lia.
Qed.

Lemma scan_parse acc s m : 0 <= acc <= max_uint64 → parse_digits acc s = Some m →
  scan_uint64 acc s = Z.min m max_uint64.
Proof.
  revert acc. induction s as [|c s IH]; intros acc Ha H; simpl in *; [injection H as <-; lia|].
  destruct (digit_val c) as [d|] eqn:E; [|done]. apply digit_val_bounds in E.
  destruct (max_uint64 <? _) eqn:El; [|apply IH; [lia|done]].
  apply parse_digits_ge in H; lia.
Qed.

Lemma ParseInt_value_ok s v : ParseInt s = Some v → ParseInt_value s = v.
Proof.
  assert (Hpos : ∀ s v, (m ← parse_magnitude s; in_range m) = Some v → Z.min (2 ^ 63 - 1) (scan_uint64 0 s) = v).
  { clear. intros s v H. apply bind_Some in H as (m & Hm & Hv). unfold in_range in Hv.
    case_decide as Hr; [|done]. injection Hv as <-. unfold in_int64, min_int64, max_int64 in Hr.
    unfold parse_magnitude in Hm. destruct s as [|c s]; [done|].
    rewrite (scan_parse 0 (String c s) m); [unfold max_uint64; lia|done|done]. }
  assert (Hneg : ∀ s v, (m ← parse_magnitude s; in_range (- m)) = Some v → Z.max (- 2 ^ 63) (- scan_uint64 0 s) = v).
  { clear. intros s v H. apply bind_Some in H as (m & Hm & Hv). unfold in_range in Hv.
    case_decide as Hr; [|done]. injection Hv as <-. unfold in_int64, min_int64, max_int64 in Hr.
    unfold parse_magnitude in Hm. destruct s as [|c s]; [done|].
    rewrite (scan_parse 0 (String c s) m); [unfold max_uint64; lia|done|done]. }
  unfold ParseInt, ParseInt_value. destruct s as [|c s]; [apply Hpos|].
  destruct c as [[] [] [] [] [] [] [] []]; first [apply Hpos | apply Hneg].
Qed.

(** ** [utils.IsEmptyStr]: nothing but Unicode white space, as UTF-8 bytes *)

Definition byte (c : ascii) : N := N_of_ascii c.

Fixpoint IsEmptyStr (s : string) : bool :=
  match s with
  | EmptyString => true
  | String a s1 =>
      let a := byte a in
      if ((9 <=? a) && (a <=? 13) || (a =? 32))%N then IsEmptyStr s1
      else
        match s1 with
        | EmptyString => false
        | String b s2 =>
            let b := byte b in
            if ((a =? 194) && ((b =? 133) || (b =? 160)))%N then IsEmptyStr s2
            else
              match s2 with
              | EmptyString => false
              | String c s3 =>
                  let c := byte c in
                  if ((a =? 225) && (b =? 154) && (c =? 128)
                      || (a =? 226) && (b =? 128) &&
                         ((128 <=? c) && (c <=? 138) || (c =? 168) || (c =? 169) || (c =? 175))
                      || (a =? 226) && (b =? 129) && (c =? 159)
                      || (a =? 227) && (b =? 128) && (c =? 128))%N
                  then IsEmptyStr s3 else false
              end
        end
  end.

(** ** Prefixes, suffixes and splitting *)

Definition HasPrefix (s p : string) : bool := String.prefix p s.

Fixpoint HasSuffix (s p : string) : bool :=
  bool_decide (s = p) || match s with EmptyString => false | String _ s => HasSuffix s p end.

(** [strings.TrimPrefix] *)
Fixpoint drop_chars (n : nat) (s : string) : string :=
  match n, s with
  | S n, String _ s => drop_chars n s
  | _, _ => s
  end.
Definition TrimPrefix (s p : string) : string :=
  if HasPrefix s p then drop_chars (String.length p) s else s.

(** [strings.Split] on a one-byte separator. *)
Fixpoint Split (s : string) (sep : ascii) : list string :=
  match s with
  | EmptyString => [EmptyString]
  | String c s =>
      if bool_decide (c = sep) then EmptyString :: Split s sep
      else match Split s sep with
           | x :: l => String c x :: l
           | [] => [String c EmptyString]
           end
  end.

Lemma Split_nonempty s sep : Split s sep ≠ [].
Proof. destruct s as [|c s]; simpl; [done|]. case_bool_decide; [done|]. by destruct (Split s sep). Qed.

Lemma HasPrefix_split s p : HasPrefix s p = true → s = p +:+ drop_chars (String.length p) s.
Proof.
  unfold HasPrefix. revert s. induction p as [|c p IH]; intros s H; [done|].
  destruct s as [|d s]; simpl in H; [done|]. destruct (ascii_dec c d) as [->|]; [|done].
  simpl. change (String d p +:+ ?x) with (String d (p +:+ x)). by rewrite <-IH.
Qed.

Lemma HasPrefix_app p s : HasPrefix (p +:+ s) p = true.
Proof. unfold HasPrefix. induction p as [|c p IH]; simpl; [by destruct s|]. by destruct (ascii_dec c c). Qed.

Lemma drop_chars_app p s : drop_chars (String.length p) (p +:+ s) = s.
Proof. induction p as [|c p IH]; simpl; [by destruct s|]. done. Qed.

Lemma TrimPrefix_app p s : TrimPrefix (p +:+ s) p = s.
Proof. unfold TrimPrefix. by rewrite HasPrefix_app, drop_chars_app. Qed.

(** ** [strings.TrimSpace] *)

(** The number of bytes of a white-space character at the head, if there is one. *)
Definition space_width (s : string) : nat :=
  match s with
  | EmptyString => 0
  | String a s1 =>
      let a := byte a in
      if ((9 <=? a) && (a <=? 13) || (a =? 32))%N then 1
      else
        match s1 with
        | EmptyString => 0
        | String b s2 =>
            let b := byte b in
            if ((a =? 194) && ((b =? 133) || (b =? 160)))%N then 2
            else
              match s2 with
              | EmptyString => 0
              | String c _ =>
                  let c := byte c in
                  if ((a =? 225) && (b =? 154) && (c =? 128)
                      || (a =? 226) && (b =? 128) &&
                         ((128 <=? c) && (c <=? 138) || (c =? 168) || (c =? 169) || (c =? 175))
                      || (a =? 226) && (b =? 129) && (c =? 159)
                      || (a =? 227) && (b =? 128) && (c =? 128))%N
                  then 3 else 0
              end
        end
  end.

Fixpoint trim_left (skip : nat) (s : string) : string :=
  match s with
  | EmptyString => EmptyString
  | String _ s' =>
      match skip with
      | S skip => trim_left skip s'
      | O => match space_width s with O => s | S n => trim_left n s' end
      end
  end.

Fixpoint trim_right (s : string) : string :=
  if IsEmptyStr s then EmptyString
  else match s with EmptyString => EmptyString | String c s => String c (trim_right s) end.

Definition TrimSpace (s : string) : string := trim_right (trim_left 0 s).

(** Every byte satisfies [p]. *)
Fixpoint string_forall (p : ascii → bool) (s : string) : bool :=
  match s with EmptyString => true | String c s => p c && string_forall p s end.

Lemma string_forall_app p s t : string_forall p (s +:+ t) = string_forall p s && string_forall p t.
Proof. induction s as [|c s IH]; simpl; [done|]. by rewrite IH, andb_assoc. Qed.

Lemma string_forall_impl (p q : ascii → bool) s :
  (∀ c, p c = true → q c = true) → string_forall p s = true → string_forall q s = true.
Proof.
  intros Hpq. induction s as [|c s IH]; simpl; [done|]. rewrite !andb_true_iff. intros [H1 H2]. auto.
Qed.

(** Visible ASCII. *)
Definition visible (c : ascii) : bool := (33 <=? byte c)%N && (byte c <=? 126)%N.

Lemma visible_cases c : visible c = true →
  ((9 <=? byte c) && (byte c <=? 13) || (byte c =? 32))%N = false ∧
  (byte c =? 194)%N = false ∧ (byte c =? 225)%N = false ∧ (byte c =? 226)%N = false ∧ (byte c =? 227)%N = false.
Proof.
  unfold visible. generalize (byte c). intros a H. rewrite andb_true_iff, !N.leb_le in H.
  rewrite !N.eqb_neq, orb_false_iff, andb_false_iff, !N.leb_gt, N.eqb_neq. lia.
Qed.

Lemma visible_IsEmptyStr c s : visible c = true → IsEmptyStr (String c s) = false.
Proof.
  intros (H1 & H2 & H3 & H4 & H5)%visible_cases. simpl. rewrite H1, H2, H3, H4, H5. simpl.
  by destruct s as [|? []].
Qed.

Lemma visible_space_width c s : visible c = true → space_width (String c s) = 0%nat.
Proof.
  intros (H1 & H2 & H3 & H4 & H5)%visible_cases. simpl. rewrite H1, H2, H3, H4, H5. simpl.
  by destruct s as [|? []].
Qed.

Lemma trim_right_visible s : string_forall visible s = true → trim_right s = s.
Proof.
  induction s as [|c s IH]; intros H; [done|]. simpl in H. apply andb_true_iff in H as [H1 H2].
  change (trim_right (String c s)) with
    (if IsEmptyStr (String c s) then EmptyString else String c (trim_right s)).
  rewrite visible_IsEmptyStr by done. by rewrite IH.
Qed.

Lemma TrimSpace_visible s : string_forall visible s = true → TrimSpace s = s.
Proof.
  intros H. unfold TrimSpace. assert (trim_left 0 s = s) as ->; [|by apply trim_right_visible].
  destruct s as [|c s]; [done|]. simpl in H. apply andb_true_iff in H as [H1 _].
  change (trim_left 0 (String c s)) with
    (match space_width (String c s) with O => String c s | S n => trim_left n s end).
  by rewrite visible_space_width.
Qed.

(** A space in front does not matter. *)
Lemma TrimSpace_space s : TrimSpace (String " " s) = TrimSpace s.
Proof. reflexivity. Qed.

(** ** Splitting and joining *)

Definition no_char (c : ascii) : string → bool := string_forall (λ d, negb (bool_decide (d = c))).

Lemma no_char_app c s t : no_char c (s +:+ t) = no_char c s && no_char c t.
Proof. apply string_forall_app. Qed.

Lemma byte_bound c : (byte c < 256)%N.
Proof. apply N_ascii_bounded. Qed.

Lemma Split_app a b sep : no_char sep a = true → Split (a +:+ String sep b) sep = a :: Split b sep.
Proof.
  unfold no_char. induction a as [|c a IH]; simpl; intros H; [by rewrite bool_decide_true|].
  apply andb_true_iff in H as [H1 H2]. destruct (bool_decide (c = sep)); [done|]. by rewrite IH.
Qed.

Lemma Split_one a sep : no_char sep a = true → Split a sep = [a].
Proof.
  unfold no_char. induction a as [|c a IH]; simpl; intros H; [done|].
  apply andb_true_iff in H as [H1 H2]. destruct (bool_decide (c = sep)); [done|]. by rewrite IH.
Qed.

Fixpoint join_with (sep : string) (l : list string) : string :=
  match l with
  | [] => EmptyString
  | [x] => x
  | x :: l => x +:+ sep +:+ join_with sep l
  end.

(** ** [path.Clean] and [path.Join] *)

Definition clean_step (rooted : bool) (stack : list string) (x : string) : list string :=
  if bool_decide (x = EmptyString) || bool_decide (x = ".")%string then stack
  else if bool_decide (x = "..")%string then
    match stack with
    | top :: rest => if bool_decide (top = "..")%string then x :: stack else rest
    | [] => if rooted then [] else [x]
    end
  else x :: stack.

Definition path_Clean (path : string) : string :=
  let rooted := HasPrefix path "/" in
  let elems := reverse (foldl (clean_step rooted) [] (Split path "/"%char)) in
  if rooted then "/" +:+ join_with "/" elems
  else match elems with [] => "." | _ => join_with "/" elems end.

Fixpoint join_elems (buf : string) (l : list string) : string :=
  match l with
  | [] => buf
  | e :: l =>
      if bool_decide (buf = EmptyString) then join_elems e l
      else join_elems (buf +:+ "/" +:+ e) l
  end.

Definition path_Join (l : list string) : string :=
  let buf := join_elems EmptyString l in
  if bool_decide (buf = EmptyString) then EmptyString else path_Clean buf.

(** The text of an integer has no slash and no space. *)
Lemma parse_digits_chars s : ∀ acc m, parse_digits acc s = Some m →
  string_forall (λ c, (48 <=? byte c)%N && (byte c <=? 57)%N) s = true.
Proof.
  induction s as [|c s IH]; intros acc m H; [done|]. simpl in *.
  destruct (digit_val c) as [d|] eqn:E; [|done]. unfold digit_val in E.
  destruct (_ && _) eqn:Er in E; [|done]. rewrite (IH _ _ H), andb_true_r. unfold byte.
  rewrite andb_true_iff, !Z.leb_le in Er. rewrite andb_true_iff, !N.leb_le. lia.
Qed.

Definition number_char (c : ascii) : bool :=
  ((48 <=? byte c)%N && (byte c <=? 57)%N) || (byte c =? 45)%N.

Lemma pretty_Z_chars (z : Z) : string_forall number_char (pretty z) = true.
Proof.
  assert (HN : ∀ x : N, string_forall number_char (pretty x) = true).
  { intros x. apply string_forall_impl with (p := λ c, (48 <=? byte c)%N && (byte c <=? 57)%N).
    - intros c Hc. unfold number_char. by rewrite Hc.
    - eapply parse_digits_chars, parse_pretty_N. }
  unfold pretty, pretty_Z. destruct z as [|p|p]; [done|apply HN|].
  change (string_forall number_char (String "-" (pretty (N.pos p))) = true).
  simpl. rewrite HN. done.
Qed.

(** ** [strings.Trim] with a cutset of ASCII characters *)

Fixpoint trim_left_by (p : ascii → bool) (s : string) : string :=
  match s with
  | EmptyString => EmptyString
  | String c s' => if p c then trim_left_by p s' else s
  end.

Fixpoint trim_right_by (p : ascii → bool) (s : string) : string :=
  match s with
  | EmptyString => EmptyString
  | String c s =>
      match trim_right_by p s with
      | EmptyString => if p c then EmptyString else String c EmptyString
      | s' => String c s'
      end
  end.

Definition Trim (s : string) (p : ascii → bool) : string := trim_right_by p (trim_left_by p s).

(** The quotation mark. *)
Definition dquote : ascii := "034".

(** Whether [sub] occurs in [s]. *)
Fixpoint Contains (s sub : string) : bool :=
  HasPrefix s sub || match s with EmptyString => false | String _ s => Contains s sub end.

(** The last byte, and what precedes it. *)
Fixpoint last_char (s : string) : option ascii :=
  match s with
  | EmptyString => None
  | String c EmptyString => Some c
  | String _ s => last_char s
  end.

Fixpoint but_last (s : string) : string :=
  match s with
  | EmptyString | String _ EmptyString => EmptyString
  | String c s => String c (but_last s)
  end.

Lemma last_char_snoc s c : last_char (s +:+ String c EmptyString) = Some c.
Proof. induction s as [|d s IH]; [done|]. destruct s as [|e s]; [done|]. exact IH. Qed.

Lemma but_last_snoc s c : but_last (s +:+ String c EmptyString) = s.
Proof. induction s as [|d s IH]; [done|]. destruct s as [|e s]; [done|]. exact (f_equal (String d) IH). Qed.

Lemma append_assoc (s t u : string) : s +:+ (t +:+ u) = (s +:+ t) +:+ u.
Proof. induction s as [|c s IH]; [done|]. exact (f_equal (String c) IH). Qed.

Lemma append_nil (s : string) : s +:+ EmptyString = s.
Proof. induction s as [|c s IH]; [done|]. exact (f_equal (String c) IH). Qed.
