(* ===== verification/GoUrl.v ===== *)
(** * URLs: what the code uses of Go's [net/url], and of [sort]

    Escaping and unescaping of query components, the values of a query string
    with their encoding, and the search by halving of [sort.Search].  The
    lemmas show that decoding undoes encoding. *)

From S2P Require Import Prelude GoStrings.
From Stdlib Require Import Ascii.
From stdpp Require Import sorting.
Open Scope Z_scope.

(** ** [url.QueryEscape] and [url.QueryUnescape] *)

(** A letter, a digit or one of [-_.~]. *)
Definition unreserved (c : ascii) : bool :=
  let n := byte c in
  ((48 <=? n) && (n <=? 57) || (65 <=? n) && (n <=? 90) || (97 <=? n) && (n <=? 122)
   || (n =? 45) || (n =? 95) || (n =? 46) || (n =? 126))%N.

Definition upper_hex (n : N) : ascii := ascii_of_N (if (n <? 10)%N then 48 + n else 55 + n).

Definition unhex (c : ascii) : option N :=
  let n := byte c in
  if ((48 <=? n) && (n <=? 57))%N then Some (n - 48)%N
  else if ((97 <=? n) && (n <=? 102))%N then Some (n - 87)%N
  else if ((65 <=? n) && (n <=? 70))%N then Some (n - 55)%N
  else None.

Definition escape_char (c : ascii) (s : string) : string :=
  if unreserved c then String c s
  else if (byte c =? 32)%N then String "+" s
  else String "%" (String (upper_hex (byte c / 16)) (String (upper_hex (byte c mod 16)) s)).

Fixpoint QueryEscape (s : string) : string :=
  match s with
  | EmptyString => EmptyString
  | String c s => escape_char c (QueryEscape s)
  end.

(** [None] is the error of a percent sign that two hexadecimal digits do not follow. *)
Fixpoint QueryUnescape (s : string) : option string :=
  match s with
  | EmptyString => Some EmptyString
  | String "%" (String a (String b s)) =>
      h ← unhex a; l ← unhex b; String (ascii_of_N (16 * h + l)) <$> QueryUnescape s
  | String "%" _ => None
  | String "+" s => String " " <$> QueryUnescape s
  | String c s => String c <$> QueryUnescape s
  end.

(** ** The values of a query *)

Abbreviation Values := (gmap string (list string)).

(** [strings.Cut] at a byte. *)
Fixpoint Cut (s : string) (sep : ascii) : string * string * bool :=
  match s with
  | EmptyString => (EmptyString, EmptyString, false)
  | String c s =>
      if bool_decide (c = sep) then (EmptyString, s, true)
      else let '(a, b, found) := Cut s sep in (String c a, b, found)
  end.

Definition contains_char (c : ascii) (s : string) : bool := negb (no_char c s).

Definition add_value (m : Values) (kv : string * string) : Values :=
  <[fst kv := default [] (m !! fst kv) ++ [snd kv]]> m.

(** One setting between ampersands; a malformed one is skipped. *)
Definition parse_setting (s : string) : option (string * string) :=
  if contains_char ";" s then None
  else
    let '(k, v, _) := Cut s "=" in
    k ← QueryUnescape k; v ← QueryUnescape v; Some (k, v).

(** [URL.Query] *)
Definition URL_Query (raw : string) : Values :=
  foldl add_value ∅ (omap (λ s, if bool_decide (s = EmptyString) then None else parse_setting s)
                       (Split raw "&")).

Definition Values_Get (m : Values) (k : string) : string :=
  match m !! k with Some (v :: _) => v | _ => EmptyString end.

Definition Values_Set (m : Values) (k v : string) : Values := <[k := [v]]> m.

Definition sorted_keys (m : Values) : list string := merge_sort String.le (elements (dom m)).

(** The settings in the order in which [Encode] writes them. *)
Definition settings (m : Values) : list (string * string) :=
  k ← sorted_keys m; (λ v, (k, v)) <$> default [] (m !! k).

Definition setting (kv : string * string) : string := QueryEscape (fst kv) +:+ "=" +:+ QueryEscape (snd kv).

(** [Values.Encode] *)
Definition Encode (m : Values) : string := join_with "&" (setting <$> settings m).

(** ** [sort.Search]

    The least index below [n] at which a monotone [f] holds; [fuel] halvings
    are enough when it is at least [j - i]. *)
Fixpoint search (fuel : nat) (f : nat → bool) (i j : nat) : nat :=
  match fuel with
  | O => i
  | S fuel =>
      if bool_decide (i < j)%nat
      then let h := Nat.div2 (i + j) in
           if negb (f h) then search fuel f (S h) j else search fuel f i h
      else i
  end.
Definition sort_Search (n : nat) (f : nat → bool) : nat := search n f 0 n.

(** ** Decoding undoes encoding *)

Lemma unhex_upper n : (n < 16)%N → unhex (upper_hex n) = Some n.
Proof.
  intros H. destruct n as [|p]; [done|]. do 4 (destruct p as [p|p|]; try done; try lia).
Qed.

(** What escaping leaves as it is is neither a percent nor a plus sign. *)
Lemma unreserved_plain c s : unreserved c = true → QueryUnescape (String c s) = String c <$> QueryUnescape s.
Proof. destruct c as [[] [] [] [] [] [] [] []]; cbn; intros; (done || reflexivity). Qed.

Lemma unescape_char c s : QueryUnescape (escape_char c s) = String c <$> QueryUnescape s.
Proof.
  unfold escape_char. destruct (unreserved c) eqn:E; [by apply unreserved_plain|].
  destruct (byte c =? 32)%N eqn:E2.
  - apply N.eqb_eq in E2. unfold byte in E2. assert (c = " "%char) as ->; [|done].
    rewrite <- (ascii_N_embedding c), E2. done.
  - pose proof (byte_bound c). cbn [QueryUnescape].
    rewrite !unhex_upper by (try apply N.mod_lt; try apply N.Div0.div_lt_upper_bound; lia). simpl.
    rewrite <- N.div_mod by lia. unfold byte. by rewrite ascii_N_embedding.
Qed.

Lemma QueryUnescape_Escape s : QueryUnescape (QueryEscape s) = Some s.
Proof. induction s as [|c s IH]; [done|]. simpl. by rewrite unescape_char, IH. Qed.

(** The bytes of an escaped text. *)
Definition escaped_char (c : ascii) : bool := unreserved c || (byte c =? 37)%N || (byte c =? 43)%N.

Lemma upper_hex_escaped n : (n < 16)%N → unreserved (upper_hex n) = true.
Proof.
  intros H. destruct n as [|p]; [done|]. do 4 (destruct p as [p|p|]; try done; try lia).
Qed.

Lemma QueryEscape_chars s : string_forall escaped_char (QueryEscape s) = true.
Proof.
  induction s as [|c s IH]; [done|]. cbn [QueryEscape]. unfold escape_char. pose proof (byte_bound c).
  assert (∀ d, unreserved d = true → escaped_char d = true) as Hu by (intros d Hd; unfold escaped_char; by rewrite Hd).
  destruct (unreserved c) eqn:E; cbn [string_forall]; [by rewrite IH, Hu|].
  destruct (byte c =? 32)%N; cbn [string_forall]; [by rewrite IH|].
  rewrite IH, (Hu (upper_hex (byte c / 16))), (Hu (upper_hex (byte c mod 16))); [done| |].
  - apply upper_hex_escaped, N.mod_lt. lia.
  - apply upper_hex_escaped, N.Div0.div_lt_upper_bound. lia.
Qed.

Lemma escaped_no_char c s : escaped_char c = false → no_char c (QueryEscape s) = true.
Proof.
  intros Hc. eapply string_forall_impl; [|apply QueryEscape_chars]. intros d Hd.
  apply negb_true_iff, bool_decide_eq_false_2. by intros ->; rewrite Hc in Hd.
Qed.

Lemma Cut_app a b sep : no_char sep a = true → Cut (a +:+ String sep b) sep = (a, b, true).
Proof.
  unfold no_char. induction a as [|c a IH]; simpl; intros H; [by rewrite bool_decide_true|].
  apply andb_true_iff in H as [H1 H2]. destruct (bool_decide (c = sep)); [done|]. by rewrite IH.
Qed.

Lemma setting_no_char c kv : escaped_char c = false → c ≠ "="%char → no_char c (setting kv) = true.
Proof.
  intros Hc Hne. unfold setting. rewrite !no_char_app, !escaped_no_char by done.
  unfold no_char. cbn [string_forall]. by rewrite bool_decide_false.
Qed.

Lemma parse_setting_setting kv : parse_setting (setting kv) = Some kv.
Proof.
  unfold parse_setting, contains_char. rewrite setting_no_char by done. destruct kv as [k v]. unfold setting. cbn [negb fst snd].
  change ("=" +:+ QueryEscape v) with (String "=" (QueryEscape v)). rewrite Cut_app by by apply escaped_no_char. by rewrite !QueryUnescape_Escape.
Qed.

Lemma setting_clean kv : no_char "&" (setting kv) = true ∧ setting kv ≠ EmptyString.
Proof. split; [by apply setting_no_char|]. destruct kv as [k v]. unfold setting. by destruct (QueryEscape _). Qed.

Lemma Split_settings l : l ≠ [] → Split (join_with "&" (setting <$> l)) "&" = setting <$> l.
Proof.
  induction l as [|kv l IH]; [done|]. intros _. destruct l as [|kv' l].
  - simpl. apply Split_one, setting_clean.
  - rewrite fmap_cons. remember (setting <$> kv' :: l) as L eqn:HL. rewrite fmap_cons in HL.
    destruct L as [|x L]; [done|]. change (join_with "&" (setting kv :: x :: L))
      with (setting kv +:+ String "&" (join_with "&" (x :: L))).
    rewrite Split_app by apply setting_clean. by rewrite IH.
Qed.

(** The settings that are read back are those that were written. *)
Lemma URL_Query_settings l :
  URL_Query (join_with "&" (setting <$> l)) = foldl add_value ∅ l.
Proof.
  unfold URL_Query. f_equal. destruct l as [|kv l]; [done|]. rewrite Split_settings by done.
  generalize (kv :: l). clear. intros l. induction l as [|kv l IH]; [done|]. rewrite fmap_cons.
  unfold omap in *. cbn [list_omap]. rewrite bool_decide_false by apply setting_clean.
  by rewrite parse_setting_setting, IH.
Qed.

Definition values_of (k : string) (l : list (string * string)) : list string :=
  snd <$> filter (λ kv, kv.1 = k) l.

Lemma foldl_add_value m l k :
  foldl add_value m l !! k =
    match values_of k l with [] => m !! k | vs => Some (default [] (m !! k) ++ vs) end.
Proof.
  revert m. induction l as [|[k' v] l IH]; intros m; [done|]. simpl. rewrite IH. unfold values_of.
  rewrite filter_cons. simpl. unfold add_value. simpl. case_decide as E.
  - subst k'. rewrite lookup_insert_eq, fmap_cons. simpl. destruct (snd <$> filter _ l); [done|]. by rewrite <- app_assoc.
  - by rewrite lookup_insert_ne.
Qed.

Lemma values_of_pairs k k' vs :
  values_of k ((λ v, (k', v)) <$> vs) = if decide (k' = k) then vs else [].
Proof.
  unfold values_of. induction vs as [|v vs IH]; [by case_decide|]. rewrite fmap_cons, filter_cons. simpl.
  case_decide; [|done]. by rewrite fmap_cons, IH.
Qed.

Lemma values_of_app k l l' : values_of k (l ++ l') = values_of k l ++ values_of k l'.
Proof. unfold values_of. by rewrite filter_app, fmap_app. Qed.

Lemma values_of_settings m k : values_of k (settings m) = default [] (m !! k).
Proof.
  unfold settings. assert (NoDup (sorted_keys m)) as Hnd.
  { unfold sorted_keys. rewrite merge_sort_Permutation. apply NoDup_elements. }
  assert (∀ l, NoDup l → values_of k (l ≫= λ k', (λ v, (k', v)) <$> default [] (m !! k'))
                         = if decide (k ∈ l) then default [] (m !! k) else []) as H.
  { induction l as [|k' l IH]; [done|]. intros [Hni Hnd']%NoDup_cons.
    rewrite bind_cons, values_of_app, values_of_pairs, IH by done. destruct (decide (k' = k)) as [->|Hne].
    - rewrite decide_False by done. rewrite decide_True by left. apply app_nil_r.
    - destruct (decide (k ∈ l)) as [|Hl]; [by rewrite decide_True by by right|].
      rewrite decide_False; [done|]. by intros [->|]%elem_of_cons. }
  rewrite H by done. case_decide as E; [done|]. unfold sorted_keys in E.
  rewrite merge_sort_Permutation, elem_of_elements, not_elem_of_dom in E. by rewrite E.
Qed.

(** A query in which every key has a value survives encoding and decoding. *)
Lemma URL_Query_Encode m : map_Forall (λ _ vs, vs ≠ []) m → URL_Query (Encode m) = m.
Proof.
  intros Hm. apply map_eq. intros k. unfold Encode. rewrite URL_Query_settings, foldl_add_value, values_of_settings.
  rewrite lookup_empty. simpl. destruct (m !! k) as [vs|] eqn:E; simpl; [|done].
  destruct vs; [by apply Hm in E|done].
Qed.

Lemma URL_Query_values raw : map_Forall (λ _ vs, vs ≠ []) (URL_Query raw).
Proof.
  intros k vs. unfold URL_Query. rewrite foldl_add_value, lookup_empty. simpl.
  destruct (values_of k _) as [|v vs'] eqn:E; [done|]. by intros [= <-].
Qed.

Lemma Values_Get_Set m k v : Values_Get (Values_Set m k v) k = v.
Proof. unfold Values_Get, Values_Set. by rewrite lookup_insert_eq. Qed.

Lemma Values_Get_Set_ne m k k' v : k ≠ k' → Values_Get (Values_Set m k v) k' = Values_Get m k'.
Proof. intros H. unfold Values_Get, Values_Set. by rewrite lookup_insert_ne. Qed.

(** ** The search finds the boundary *)

Lemma search_bounds fuel f i j : (i ≤ j)%nat → (i ≤ search fuel f i j ≤ j)%nat.
Proof.
  revert i j. induction fuel as [|fuel IH]; intros i j Hij; simpl; [lia|]. case_bool_decide as E; [|lia].
  assert (i ≤ Nat.div2 (i + j) < j)%nat as Hh.
  { rewrite Nat.div2_div. split; [apply Nat.div_le_lower_bound|apply Nat.Div0.div_lt_upper_bound]; lia. }
  destruct (negb (f _)).
  - specialize (IH (S (Nat.div2 (i + j))) j). lia.
  - specialize (IH i (Nat.div2 (i + j))). lia.
Qed.

Lemma search_spec fuel f i j :
  (i ≤ j)%nat → (j - i ≤ fuel)%nat →
  (∀ a b, (a ≤ b < j)%nat → f a = true → f b = true) →
  (∀ a, (i ≤ a < search fuel f i j)%nat → f a = false) ∧
  (∀ a, (search fuel f i j ≤ a < j)%nat → f a = true).
Proof.
  revert i j. induction fuel as [|fuel IH]; intros i j Hij Hf Hm; simpl; [split; intros; lia|].
  case_bool_decide as E; [|split; intros; lia].
  assert (i ≤ Nat.div2 (i + j) < j)%nat as Hh.
  { rewrite Nat.div2_div. split; [apply Nat.div_le_lower_bound|apply Nat.Div0.div_lt_upper_bound]; lia. }
  set (h := Nat.div2 (i + j)) in *. destruct (f h) eqn:Eh; simpl.
  - destruct (IH i h ltac:(lia) ltac:(lia)) as [H1 H2]; [intros a b Hab; apply Hm; lia|].
    split; [done|]. intros a Ha. destruct (decide (a < h)%nat); [apply H2; lia|]. apply (Hm h a); [lia|done].
  - destruct (IH (S h) j ltac:(lia) ltac:(lia)) as [H1 H2]; [intros a b Hab; apply Hm; lia|].
    split; [|done]. intros a Ha. destruct (decide (h < a)%nat); [apply H1; lia|].
    destruct (f a) eqn:Ea; [|done]. rewrite (Hm a h) in Eh; [done|lia|done].
Qed.
