(* ===== verification/Orm.v ===== *)
(** * Database access: [src/lib/orm]

    Data-access code runs in a state-and-error monad over a database state [D].
    Every SQL statement or ORM call goes through [stmt], which first consults a
    fault schedule: an entry [Some e] makes the call fail with [e] without
    effect, [None] lets it run, and an exhausted schedule means no more faults.
    The theorems of the library quantify over every schedule.  [ctx_orm] says
    whether the Go context carries an ORM, which [FromContext] tests. *)

From S2P Require Import Prelude GoErrors.

Record World (D : Type) := mkWorld {
  db : D;
  ctx_orm : bool;
  faults : list (option error);
}.
Arguments mkWorld {D}.
Arguments db {D}.
Arguments ctx_orm {D}.
Arguments faults {D}.

Definition M (D A : Type) : Type := World D → result A * World D.

#[global] Instance M_ret D : MRet (M D) := λ A a w, (Ok a, w).
#[global] Instance M_bind D : MBind (M D) := λ A B k m w,
  match m w with
  | (Ok a, w') => k a w'
  | (Err e, w') => (Err e, w')
  end.

(** Return an error. *)
Definition fail {D A} (e : error) : M D A := λ w, (Err e, w).

(** Run and expose the outcome: Go's [x, err := m()]. *)
Definition try {D A} (m : M D A) : M D (result A) :=
  λ w, let '(r, w') := m w in (Ok r, w').

(** Return the outcome [r] of an earlier call. *)
Definition of_result {D A} (r : result A) : M D A := λ w, (r, w).

Definition with_db {D} (w : World D) (d : D) : World D :=
  mkWorld d (ctx_orm w) (faults w).

(** One statement. *)
Definition stmt {D A} (f : D → result A * D) : M D A := λ w,
  match faults w with
  | Some e :: fs => (Err e, mkWorld (db w) (ctx_orm w) fs)
  | fs =>
      let '(r, d) := f (db w) in
      (r, mkWorld d (ctx_orm w) (tail fs))
  end.

(** A call of something else than the database: its state decides how it ends. *)
Definition act {D A} (f : D → result A * D) : M D A := λ w,
  let '(r, d) := f (db w) in (r, with_db w d).

Definition query {D A} (f : D → result A) : M D A := stmt (λ d, (f d, d)).

(** [orm.FromContext] *)
Definition FromContext {D} : M D unit := λ w,
  if ctx_orm w then (Ok tt, w)
  else (Err (New "cannot get the ORM from context"), w).

(** [orm.WithTransaction]: begin (a savepoint when already in a transaction),
    run, then commit, or roll the database back to where it began. *)
Definition tx_end {D A} (f : M D A) : M D A := λ w,
  match f w with
  | (Err e, w') =>
      match query (λ _, Ok tt) (with_db w' (db w)) with
      | (Err e', w'') => (Err e', w'')
      | (Ok _, w'') => (Err e, w'')
      end
  | (Ok a, w') =>
      match query (λ _, Ok tt) w' with
      | (Err e', w'') => (Err e', with_db w'' (db w))
      | (Ok _, w'') => (Ok a, w'')
      end
  end.

Definition WithTransaction {D A} (f : M D A) : M D A :=
  _ ← FromContext;
  _ ← query (λ _ : D, Ok tt);
  tx_end f.

(** ** Reasoning *)

Section facts.
Context {D : Type}.
Implicit Types (w : World D).

Lemma bind_ok_inv {A B} (m : M D A) (k : A → M D B) w b w' :
  (m ≫= k) w = (Ok b, w') → ∃ a w1, m w = (Ok a, w1) ∧ k a w1 = (Ok b, w').
Proof.
  unfold mbind, M_bind. destruct (m w) as [[a|e] w1] eqn:E; [|congruence].
  eauto.
Qed.

Lemma bind_eq {A B} (m : M D A) (k : A → M D B) w :
  (m ≫= k) w = match m w with (Ok a, w1) => k a w1 | (Err e, w1) => (Err e, w1) end.
Proof. reflexivity. Qed.

Lemma bind_cases {A B} (m : M D A) (k : A → M D B) w r w' :
  (m ≫= k) w = (r, w') →
  (∃ e, m w = (Err e, w') ∧ r = Err e) ∨ (∃ a w1, m w = (Ok a, w1) ∧ k a w1 = (r, w')).
Proof.
  unfold mbind, M_bind. destruct (m w) as [[a|e] w1] eqn:E; intros; simplify_eq; eauto.
Qed.

Lemma FromContext_cases w r w' :
  FromContext w = (r, w') → w' = w ∧ (r = Ok tt ∧ ctx_orm w = true ∨ ∃ e, r = Err e).
Proof. unfold FromContext. destruct (ctx_orm w) eqn:E; intros; simplify_eq; eauto. Qed.

(** [try] always continues. *)
Lemma bind_try_inv {A B} (m : M D A) (k : result A → M D B) w r w' :
  (try m ≫= k) w = (r, w') → ∃ x w1, m w = (x, w1) ∧ k x w1 = (r, w').
Proof. unfold mbind, M_bind, try. destruct (m w) as [x w1]. eauto. Qed.

(** Faults do not change the database, and never add one. *)
Lemma stmt_err_schedule {A} (f : D → result A * D) w e fs :
  faults w = Some e :: fs →
  stmt f w = (Err e, mkWorld (db w) (ctx_orm w) fs).
Proof. intros H. unfold stmt. by rewrite H. Qed.

Lemma stmt_runs {A} (f : D → result A * D) w :
  (∀ e fs, faults w ≠ Some e :: fs) →
  stmt f w = (fst (f (db w)), mkWorld (snd (f (db w))) (ctx_orm w) (tail (faults w))).
Proof.
  intros H. unfold stmt. destruct (faults w) as [|[e|] fs] eqn:E;
    try (by destruct (f (db w))). by destruct (H e fs).
Qed.

(** The two possible outcomes of a statement. *)
Lemma stmt_cases {A} (f : D → result A * D) w r w' :
  stmt f w = (r, w') →
  ctx_orm w' = ctx_orm w ∧
  ((∃ e, r = Err e ∧ db w' = db w) ∨ (f (db w) = (r, db w'))).
Proof.
  unfold stmt. destruct (faults w) as [|[e|] fs] eqn:E; intros; simplify_eq/=; eauto.
  all: destruct (f (db w)) as [r' d'] eqn:F; simplify_eq/=; eauto.
Qed.

Lemma stmt_ok_inv {A} (f : D → result A * D) w a w' :
  stmt f w = (Ok a, w') → f (db w) = (Ok a, db w').
Proof. intros H. by apply stmt_cases in H as [_ [(? & [=] & _)|?]]. Qed.

Lemma stmt_err_inv {A} (f : D → result A * D) w e w' :
  stmt f w = (Err e, w') → db w' = db w ∨ f (db w) = (Err e, db w').
Proof. intros H. apply stmt_cases in H as [_ [(? & _ & ?)|?]]; auto. Qed.

Lemma query_cases {A} (f : D → result A) w r w' :
  query f w = (r, w') →
  db w' = db w ∧ ctx_orm w' = ctx_orm w ∧ ((∃ e, r = Err e) ∨ r = f (db w)).
Proof.
  intros H. apply stmt_cases in H as [? [(e & -> & ?)|?]]; [eauto|].
  simplify_eq. eauto.
Qed.

(** A failed transaction leaves the database as it found it. *)
Lemma WithTransaction_err {A} (f : M D A) w e w' :
  WithTransaction f w = (Err e, w') → db w' = db w.
Proof.
  unfold WithTransaction. rewrite bind_eq.
  destruct (FromContext w) as [r w1] eqn:H1.
  assert (db w1 = db w) as <-.
  { unfold FromContext in H1. destruct (ctx_orm w); by simplify_eq. }
  destruct r as [u|e1]; [|by intros; simplify_eq].
  rewrite bind_eq.
  destruct (query (λ _, Ok tt) w1) as [r2 w2] eqn:H2.
  apply query_cases in H2 as (<- & _ & _).
  destruct r2 as [[]|e2]; [|by intros; simplify_eq]. unfold tx_end.
  destruct (f w2) as [[a|e3] w3] eqn:H3.
  - destruct (query (λ _, Ok tt) w3) as [[[]|e4] w4] eqn:H4; intros; by simplify_eq/=.
  - destruct (query _ _) as [[[]|e4] w4] eqn:H4; intros; simplify_eq/=;
      by apply query_cases in H4 as (-> & _ & _).
Qed.

(** A committed transaction has the effect of its body. *)
Lemma WithTransaction_ok {A} (f : M D A) w a w' :
  WithTransaction f w = (Ok a, w') →
  ∃ w1 w2, db w1 = db w ∧ ctx_orm w1 = ctx_orm w ∧ f w1 = (Ok a, w2) ∧ db w' = db w2.
Proof.
  unfold WithTransaction. rewrite bind_eq.
  destruct (FromContext w) as [[u|e1] w1] eqn:H1; [|congruence].
  unfold FromContext in H1. destruct (ctx_orm w) eqn:Hc; simplify_eq.
  rewrite bind_eq.
  destruct (query (λ _, Ok tt) w1) as [[[]|e2] w2] eqn:H2; [|congruence].
  apply query_cases in H2 as (Hd & Hctx & _). unfold tx_end.
  destruct (f w2) as [[a'|e3] w3] eqn:H3.
  - destruct (query (λ _, Ok tt) w3) as [[[]|e4] w4] eqn:H4; intros; simplify_eq.
    apply query_cases in H4 as (Hd4 & _ & _).
    exists w2, w3. split_and!; congruence.
  - destruct (query _ _) as [[[]|e4] w4]; congruence.
Qed.

Lemma FromContext_ok w : ctx_orm w = true → FromContext w = (Ok tt, w).
Proof. unfold FromContext. by intros ->. Qed.

(** With an empty schedule every statement runs. *)
Lemma stmt_nofault {A} (f : D → result A * D) d c :
  stmt f (mkWorld d c []) = (fst (f d), mkWorld (snd (f d)) c []).
Proof. unfold stmt; simpl. by destruct (f d). Qed.

Lemma query_nofault {A} (f : D → result A) d c :
  query f (mkWorld d c []) = (f d, mkWorld d c []).
Proof. unfold query. by rewrite stmt_nofault. Qed.

Lemma WithTransaction_nofault {A} (f : M D A) d d' a :
  f (mkWorld d true []) = (Ok a, mkWorld d' true []) →
  WithTransaction f (mkWorld d true []) = (Ok a, mkWorld d' true []).
Proof.
  intros H. unfold WithTransaction. rewrite bind_eq, FromContext_ok by done.
  rewrite bind_eq, query_nofault. unfold tx_end. by rewrite H, query_nofault.
Qed.

Lemma mret_eq {A} (a : A) w : (mret a : M D A) w = (Ok a, w).
Proof. done. Qed.

End facts.

(** Rewriting a run without faults to its result. *)
Create Rewrite HintDb mrun.
#[export] Hint Rewrite @stmt_nofault @query_nofault @mret_eq @bind_eq : mrun.
Ltac mrun := repeat (autorewrite with mrun; simpl).

(** Invert one bind of a run: the error branch is closed or named, the success
    branch continues. *)
Ltac mbind_inv H :=
  let e := fresh "e" in let a := fresh "a" in let w1 := fresh "w" in
  let H1 := fresh "Hm" in
  let H2 := fresh "Hr" in
  apply bind_cases in H as [(e & H1 & H2)|(a & w1 & H1 & H)];
  [try discriminate H2; try subst|].


(** ** Frames: what a run relates, whatever its outcome *)

Definition preserves {D A} (R : relation D) (m : M D A) : Prop :=
  ∀ w r w', m w = (r, w') → R (db w) (db w').

Section frames.
Context {D : Type} (R : relation D) `{!PreOrder R}.

Lemma preserves_mret {A} (a : A) : preserves R (mret a).
Proof. intros w r w' [= _ <-]. reflexivity. Qed.

Lemma preserves_fail {A} e : preserves R (fail e : M D A).
Proof. intros w r w' [= _ <-]. reflexivity. Qed.

Lemma preserves_bind {A B} (m : M D A) (k : A → M D B) :
  preserves R m → (∀ a, preserves R (k a)) → preserves R (m ≫= k).
Proof.
  intros Hm Hk w r w' H. apply bind_cases in H as [(e & H & _)|(a & w1 & H1 & H2)]; [by eapply Hm|].
  transitivity (db w1); [by eapply Hm|by eapply Hk].
Qed.

(** The same, knowing that the value is one the first part can return. *)
Lemma preserves_bind_val {A B} (P : A → Prop) (m : M D A) (k : A → M D B) :
  preserves R m → (∀ w a w', m w = (Ok a, w') → P a) → (∀ a, P a → preserves R (k a)) →
  preserves R (m ≫= k).
Proof.
  intros Hm HP Hk w r w' H. apply bind_cases in H as [(e & H & _)|(a & w1 & H1 & H2)]; [by eapply Hm|].
  transitivity (db w1); [by eapply Hm|]. eapply Hk; eauto.
Qed.

Lemma preserves_try {A} (m : M D A) : preserves R m → preserves R (try m).
Proof.
  intros Hm w r w'. unfold try. destruct (m w) as [x w1] eqn:E. intros [= _ <-]. by eapply Hm.
Qed.

Lemma preserves_FromContext : preserves R FromContext.
Proof. intros w r w' H. apply FromContext_cases in H as [-> _]. reflexivity. Qed.

Lemma preserves_query {A} (f : D → result A) : preserves R (query f).
Proof. intros w r w' H. apply query_cases in H as [-> _]. reflexivity. Qed.

Lemma preserves_stmt {A} (f : D → result A * D) :
  (∀ d, R d (f d).2) → preserves R (stmt f).
Proof.
  intros Hf w r w' H. apply stmt_cases in H as [_ [(e & _ & ->)|H]]; [reflexivity|].
  specialize (Hf (db w)). by rewrite H in Hf.
Qed.

Lemma preserves_WithTransaction {A} (f : M D A) : preserves R f → preserves R (WithTransaction f).
Proof.
  intros Hf w r w' H. destruct r as [a|e].
  - apply WithTransaction_ok in H as (w1 & w2 & Hd & _ & H & ->). rewrite <- Hd. by eapply Hf.
  - apply WithTransaction_err in H as ->. reflexivity.
Qed.

Lemma preserves_of_result {A} (x : result A) : preserves R (of_result x).
Proof. intros w r w' [= _ <-]. reflexivity. Qed.

End frames.

Lemma preserves_weaken {D A} (R R' : relation D) (m : M D A) :
  (∀ d d', R d d' → R' d d') → preserves R m → preserves R' m.
Proof. intros HR Hm w r w' H. eapply HR, Hm, H. Qed.

Create HintDb frame.
#[export] Hint Resolve preserves_mret preserves_fail preserves_FromContext preserves_query
  preserves_of_result : frame.

(** Walk a monadic program; what is left are its statements and calls. *)
Ltac frame_step :=
  match goal with
  | |- ∀ _, _ => intros ?
  | |- preserves _ (mbind _ _) => apply preserves_bind; [try apply _| |]
  | |- preserves _ (try _) => apply preserves_try
  | |- preserves _ (WithTransaction _) => apply preserves_WithTransaction; [try apply _|]
  | |- preserves _ (match ?x with _ => _ end) => destruct x
  | |- preserves _ _ => solve [eauto with frame typeclass_instances]
  end.
Ltac frame := repeat frame_step.
