(* ===== verification/Retry.v ===== *)
(** * Retrying: [src/lib/retry/retry.go]

    [Retry] calls [f] until it succeeds, it aborts, or the timer fires.  The
    timer is the environment's: [budget] is the number of loop iterations that
    begin before [<-timeout] becomes ready.  Backoff, jitter and the callback
    only affect when the next attempt starts, not its outcome. *)

From S2P Require Import Prelude GoErrors Orm.

Definition Abort (e : error) : error := RetryAbort (Some e).

Definition retry_timeout_error (err : option error) : error :=
  WithCause (New "retry timeout") err.

Fixpoint Retry_loop {D} (budget : nat) (f : M D unit) (err : option error) : M D unit := λ w,
  match budget with
  | O => (Err (retry_timeout_error err), w)
  | S budget =>
      match f w with
      | (Ok _, w') => (Ok tt, w')
      | (Err e, w') =>
          match AsAbort e with
          | Some (Some cause) => (Err cause, w')
          | Some None => (Ok tt, w')
          | None => Retry_loop budget f (Some e) w'
          end
      end
  end.

Definition Retry {D} (budget : nat) (f : M D unit) : M D unit := Retry_loop budget f None.

Section facts.
Context {D : Type} (f : M D unit).

(** An invariant of one attempt is an invariant of the whole loop. *)
Lemma Retry_loop_invariant (P : World D → Prop) :
  (∀ w r w', P w → f w = (r, w') → P w') →
  ∀ n err w r w', P w → Retry_loop n f err w = (r, w') → P w'.
Proof.
  intros Hf n. induction n as [|n IH]; intros err w r w' HP; simpl.
  - intros; by simplify_eq.
  - destruct (f w) as [[[]|e] w1] eqn:E; [intros; simplify_eq; eauto|].
    destruct (AsAbort e) as [[c|]|]; intros; simplify_eq; eauto.
Qed.

(** A success of the loop is a success of its last attempt. *)
Lemma Retry_loop_ok (P : World D → Prop) :
  (∀ w e w', P w → f w = (Err e, w') → P w' ∧ AsAbort e ≠ Some None) →
  ∀ n err w w', P w → Retry_loop n f err w = (Ok tt, w') →
    ∃ w1, P w1 ∧ f w1 = (Ok tt, w').
Proof.
  intros Hf n. induction n as [|n IH]; intros err w w' HP; simpl; [congruence|].
  destruct (f w) as [[[]|e] w1] eqn:E; [intros; simplify_eq; eauto|].
  destruct (Hf _ _ _ HP E) as [HP' Hn].
  destruct (AsAbort e) as [[c|]|] eqn:Ea; intros; simplify_eq; eauto.
Qed.

(** When each attempt either settles or fails with a retryable error whose
    world satisfies [P], a timeout is the only other outcome. *)
Lemma Retry_loop_settles n err w :
  (∃ r w', f w = (r, w') ∧ match r with Ok _ => True | Err e => AsAbort e ≠ None end) →
  ∀ k, Retry_loop (S n) f err w = Retry_loop (S k) f err w.
Proof.
  intros (r & w' & Hf & Hr) k. simpl. rewrite Hf.
  destruct r as [[]|e]; [done|]. by destruct (AsAbort e) as [[c|]|].
Qed.

End facts.

Lemma preserves_Retry {D} (R : relation D) `{!PreOrder R} n (f : M D unit) :
  preserves R f → preserves R (Retry n f).
Proof.
  intros Hf w r w' H.
  refine (Retry_loop_invariant f (λ w1, R (db w) (db w1)) _ n None w r w' _ H); [|reflexivity].
  intros w1 r1 w2 H1 H2. etransitivity; [done|]. by eapply Hf.
Qed.
#[export] Hint Resolve preserves_Retry : frame.
