(* ===== verification/QuotaTypes.v ===== *)
(** * Resource lists and limit checks: [src/pkg/quota/types/resources.go] and
    [src/pkg/quota/util.go]

    A [ResourceList] is a Go map from resource names to [int64]; it is modelled
    as a finite map.  Go iterates a map in an unspecified order; the loops below
    fold over the map in the order of [map_to_list], and the lemmas show that
    their results do not depend on it.  Arithmetic wraps at 64 bits. *)

From S2P Require Import Prelude QuotaFormat GoErrors.

Open Scope Z_scope.

Abbreviation ResourceList := (gmap string Z).

Definition Equals (a b : ResourceList) : bool :=
  if bool_decide (size a ≠ size b) then false
  else forallb (λ '(key, value1),
         match b !! key with
         | None => false
         | Some value2 => bool_decide (value1 = value2)
         end) (map_to_list a).

Definition Add (a b : ResourceList) : ResourceList :=
  let result :=
    map_fold (λ key value result,
      <[key := match b !! key with
               | Some other => wrap64 (value + other)
               | None => value
               end]> result) (∅ : ResourceList) a in
  map_fold (λ key value result,
    match result !! key with
    | Some _ => result
    | None => <[key := value]> result
    end) result b.

Definition Subtract (a b : ResourceList) : ResourceList :=
  let result :=
    map_fold (λ key value result,
      <[key := match b !! key with
               | Some other => wrap64 (value - other)
               | None => value
               end]> result) (∅ : ResourceList) a in
  map_fold (λ key value result,
    match result !! key with
    | Some _ => result
    | None => <[key := wrap64 (- value)]> result
    end) result b.

Definition Zero (a : ResourceList) : ResourceList :=
  map_fold (λ key _ result, <[key := 0]> result) (∅ : ResourceList) a.

Definition IsNegative (a : ResourceList) : list string :=
  fold_left (λ results '(k, v), if v <? 0 then results ++ [k] else results)
    (map_to_list a) [].

Definition IsValidResource (resource : string) : bool :=
  bool_decide (resource = ResourceStorage).

(** [currentUsed[resource]]: a missing key reads as zero. *)
Definition get0 (m : ResourceList) (k : string) : Z := default 0 (m !! k).

(** The loop of [IsSafe] over an iteration order [l] of [newUsed].  The
    address of a new error is the number of errors allocated before it. *)
Definition IsSafe_loop (hardLimits currentUsed : ResourceList)
    (ignoreLimitation : bool) (l : list (string * Z)) (errs : list error) : list error :=
  fold_left (λ errs '(resource, value),
    match hardLimits !! resource with
    | None => errors_Add errs (ResourceNotFound (length errs) resource)
    | Some hardLimit =>
        if bool_decide (hardLimit = UNLIMITED) || bool_decide (value = get0 currentUsed resource)
        then errs
        else if (hardLimit <? value) && negb ignoreLimitation
        then errors_Add errs
               (ResourceOverflow (length errs) resource hardLimit
                  (get0 currentUsed resource) value)
        else errs
    end) l errs.

(** [None] is the Go [nil] error. *)
Definition IsSafe (hardLimits currentUsed newUsed : ResourceList)
    (ignoreLimitation : bool) : option error :=
  match IsSafe_loop hardLimits currentUsed ignoreLimitation (map_to_list newUsed) [] with
  | [] => None
  | errs => Some (QuotaErrors errs)
  end.

(** [strings.Join] of the sorted names. *)
Definition PrettyPrintResourceNames (a : list string) : string :=
  strings_Join (merge_sort String.le a) ",".

(** ** Folds that build a map key by key *)

Section fold_lemmas.
Context {V W : Type}.

Lemma map_fold_insert_lookup (f : string → V → W) (r0 : gmap string W) (m : gmap string V) i :
  map_fold (λ k v r, <[k := f k v]> r) r0 m !! i =
  match m !! i with Some v => Some (f i v) | None => r0 !! i end.
Proof.
  apply (map_fold_weak_ind (λ r m, r !! i = match m !! i with
    | Some v => Some (f i v) | None => r0 !! i end)).
  - by rewrite lookup_empty.
  - intros k v m' r Hk IH. destruct (decide (k = i)) as [->|Hne].
    + by rewrite !lookup_insert_eq.
    + by rewrite !lookup_insert_ne.
Qed.

Lemma map_fold_insert_absent_lookup (g : V → W) (r0 : gmap string W) (m : gmap string V) i :
  map_fold (λ k v r, match r !! k with
                     | Some _ => r
                     | None => <[k := g v]> r
                     end) r0 m !! i =
  match r0 !! i with Some x => Some x | None => g <$> m !! i end.
Proof.
  apply (map_fold_weak_ind (λ r m, r !! i = match r0 !! i with
    | Some x => Some x | None => g <$> m !! i end)).
  - rewrite lookup_empty. by destruct (r0 !! i).
  - intros k v m' r Hk IH. destruct (decide (k = i)) as [->|Hne].
    + rewrite lookup_insert_eq. rewrite Hk in IH. simpl in IH.
      destruct (r !! i) eqn:E; [rewrite E; by destruct (r0 !! i)|].
      rewrite lookup_insert_eq. by destruct (r0 !! i).
    + rewrite (lookup_insert_ne m') by done. rewrite <- IH.
      destruct (r !! k); [done|]. by rewrite lookup_insert_ne.
Qed.

End fold_lemmas.

Lemma Add_lookup a b i :
  Add a b !! i = match a !! i, b !! i with
                 | Some x, Some y => Some (wrap64 (x + y))
                 | Some x, None => Some x
                 | None, y => y
                 end.
Proof.
  unfold Add. rewrite (map_fold_insert_absent_lookup id), map_fold_insert_lookup.
  rewrite lookup_empty, option_fmap_id. by destruct (a !! i), (b !! i).
Qed.

Lemma Subtract_lookup a b i :
  Subtract a b !! i = match a !! i, b !! i with
                      | Some x, Some y => Some (wrap64 (x - y))
                      | Some x, None => Some x
                      | None, y => (λ v, wrap64 (- v)) <$> y
                      end.
Proof.
  unfold Subtract.
  rewrite (map_fold_insert_absent_lookup (λ v, wrap64 (- v))), map_fold_insert_lookup.
  rewrite lookup_empty. by destruct (a !! i), (b !! i).
Qed.

Lemma Zero_lookup a i : Zero a !! i = (λ _, 0) <$> a !! i.
Proof.
  unfold Zero. rewrite (map_fold_insert_lookup (λ _ _, 0)), lookup_empty.
  by destruct (a !! i).
Qed.

(** ** Membership in [IsNegative] *)

Lemma IsNegative_filter a :
  IsNegative a = (filter (λ kv, kv.2 < 0) (map_to_list a)).*1.
Proof.
  unfold IsNegative.
  assert (∀ l acc, fold_left (λ results '(k, v), if v <? 0 then results ++ [k] else results) l acc
    = acc ++ (filter (λ kv : string * Z, kv.2 < 0) l).*1) as H; [|by rewrite H].
  induction l as [|[k v] l IH]; intros acc; simpl.
  - by rewrite app_nil_r.
  - rewrite IH, filter_cons. destruct (Z.ltb_spec v 0); case_decide; simpl in *; try lia; [|done].
    by rewrite <- (assoc_L (++)).
Qed.

Lemma elem_of_IsNegative a k : k ∈ IsNegative a ↔ ∃ v, a !! k = Some v ∧ v < 0.
Proof.
  rewrite IsNegative_filter, list_elem_of_fmap. split.
  - intros ([k' v] & -> & Hin). apply list_elem_of_filter in Hin as [Hv Hin].
    apply elem_of_map_to_list in Hin. eauto.
  - intros (v & Hk & Hv). exists (k, v). split; [done|].
    apply list_elem_of_filter. split; [done|]. by apply elem_of_map_to_list.
Qed.

Lemma IsNegative_nil a : IsNegative a = [] ↔ ∀ k v, a !! k = Some v → 0 <= v.
Proof.
  rewrite IsNegative_filter, fmap_nil_iff, filter_nil_iff, Forall_map_to_list.
  simpl. split; intros H k v Hk; specialize (H k v Hk); lia.
Qed.

(** [Equals] decides equality of resource lists. *)
Lemma Equals_spec a b : Equals a b = true ↔ a = b.
Proof.
  unfold Equals. case_bool_decide as Hs; [split; [done|naive_solver]|].
  rewrite forallb_forall. split.
  - intros Hall.
    assert (Hsub : a ⊆ b).
    { apply map_subseteq_spec. intros k v Hk.
      specialize (Hall (k, v)). simpl in Hall.
      rewrite <- list_elem_of_In, elem_of_map_to_list in Hall. specialize (Hall Hk).
      destruct (b !! k); [|done]. by apply bool_decide_eq_true in Hall as ->. }
    apply map_subseteq_size_eq; [done|]. lia.
  - intros -> [k v] Hin. apply list_elem_of_In, elem_of_map_to_list in Hin.
    rewrite Hin. by apply bool_decide_eq_true.
Qed.

(** ** What [IsSafe] decides *)

(** A resource of the new usage is safe: its limit is known, and it is
    unlimited, unchanged, not enforced, or respected. *)
Definition safe_resource (hardLimits currentUsed : ResourceList) (ignoreLimitation : bool)
    (r : string) (v : Z) : Prop :=
  match hardLimits !! r with
  | None => False
  | Some h => h = UNLIMITED ∨ v = get0 currentUsed r ∨ ignoreLimitation = true ∨ v <= h
  end.

#[export] Instance safe_resource_dec hard cur ign r v :
  Decision (safe_resource hard cur ign r v).
Proof. unfold safe_resource. destruct (hard !! r); apply _. Defined.

(** The resource an error of [IsSafe] is about. *)
Definition error_resource (e : error) : string :=
  match e with
  | ResourceOverflow _ r _ _ _ => r
  | ResourceNotFound _ r => r
  | _ => EmptyString
  end.

(** All addresses in the list were allocated before [n]. *)
Definition ptrs_below (n : nat) (errs : list error) : Prop :=
  Forall (λ e, match e with
               | ResourceOverflow p _ _ _ _ | ResourceNotFound p _ => (p < n)%nat
               | _ => False
               end) errs.

Lemma ptrs_below_fresh n errs e :
  ptrs_below n errs →
  match e with
  | ResourceOverflow p _ _ _ _ | ResourceNotFound p _ => p = n
  | _ => False
  end →
  errors_add_one errs e = errs ++ [e].
Proof.
  intros Hb He. unfold errors_add_one.
  assert (existsb (error_same e) errs = false) as ->; [|done].
  apply not_true_iff_false. rewrite existsb_exists. intros (e' & Hin & Hs).
  apply list_elem_of_In in Hin. unfold ptrs_below in Hb. rewrite Forall_forall in Hb.
  specialize (Hb e' Hin).
  destruct e, e'; simpl in *; try done; case_bool_decide; subst; lia.
Qed.

Lemma ptrs_below_snoc errs e :
  ptrs_below (length errs) errs →
  match e with
  | ResourceOverflow p _ _ _ _ | ResourceNotFound p _ => p = length errs
  | _ => False
  end →
  ptrs_below (length (errs ++ [e])) (errs ++ [e]).
Proof.
  intros Hb He. unfold ptrs_below in *. rewrite length_app; simpl.
  apply Forall_app; split.
  - eapply Forall_impl; [exact Hb|]. intros []; simpl; lia || done.
  - constructor; [|done]. destruct e; simpl in *; lia || done.
Qed.

(** The loop appends one error per unsafe entry, in the order of the entries. *)
Lemma IsSafe_loop_spec hard cur ign l errs :
  ptrs_below (length errs) errs →
  map error_resource (IsSafe_loop hard cur ign l errs) =
  map error_resource errs ++
    (filter (λ kv, ¬ safe_resource hard cur ign kv.1 kv.2) l).*1.
Proof.
  unfold IsSafe_loop. revert errs.
  induction l as [|[r v] l IH]; intros errs Hb; [by rewrite app_nil_r|].
  assert (Hadd : ∀ e errs', ptrs_below (length errs) errs →
    match e with
    | ResourceOverflow p _ _ _ _ | ResourceNotFound p _ => p = length errs
    | _ => False end →
    errs' = errs ++ [e] → error_resource e = r → ¬ safe_resource hard cur ign r v →
    map error_resource (IsSafe_loop hard cur ign l errs') =
    map error_resource errs ++
      (filter (λ kv, ¬ safe_resource hard cur ign kv.1 kv.2) ((r, v) :: l)).*1).
  { intros e errs' _ He -> Hr Hns. unfold IsSafe_loop. rewrite IH by by apply ptrs_below_snoc.
    rewrite map_app, <- (assoc_L (++)), filter_cons. rewrite decide_True by done.
    by rewrite fmap_cons, Hr. }
  assert (Hskip : safe_resource hard cur ign r v →
    map error_resource (IsSafe_loop hard cur ign l errs) =
    map error_resource errs ++
      (filter (λ kv, ¬ safe_resource hard cur ign kv.1 kv.2) ((r, v) :: l)).*1).
  { intros Hs. unfold IsSafe_loop. rewrite IH by done. rewrite filter_cons.
    by rewrite decide_False by naive_solver. }
  simpl. unfold IsSafe_loop in *. unfold safe_resource in Hadd, Hskip.
  destruct (hard !! r) as [h|] eqn:Hh.
  - destruct (bool_decide _ || bool_decide _) eqn:E.
    { apply Hskip. apply orb_true_iff in E as [E|E]; apply bool_decide_eq_true in E; auto. }
    apply orb_false_iff in E as [E1 E2]. rewrite bool_decide_eq_false in E1, E2.
    destruct ((h <? v) && negb ign) eqn:E3.
    + apply andb_true_iff in E3 as [E3 E4]. apply negb_true_iff in E4.
      eapply Hadd; [done|..]; cycle 1;
        [by apply (ptrs_below_fresh (length errs))|done| |done]. naive_solver lia.
    + apply Hskip. destruct ign; [auto|]. rewrite andb_true_r in E3. right. right. right. lia.
  - eapply Hadd; [done|..]; cycle 1; [by apply (ptrs_below_fresh (length errs))|done|auto|done].
Qed.

Lemma IsSafe_None hard cur new ign :
  IsSafe hard cur new ign = None ↔
  ∀ r v, new !! r = Some v → safe_resource hard cur ign r v.
Proof.
  unfold IsSafe. pose proof (IsSafe_loop_spec hard cur ign (map_to_list new) []) as H.
  specialize (H ltac:(constructor)). simpl in H.
  assert (IsSafe_loop hard cur ign (map_to_list new) [] = [] ↔
          ∀ r v, new !! r = Some v → safe_resource hard cur ign r v) as <-.
  { rewrite <- (fmap_nil_iff error_resource). change (fmap error_resource) with (map error_resource).
    rewrite H, fmap_nil_iff, filter_nil_iff, Forall_map_to_list. simpl.
    split; intros Hs r v Hr; specialize (Hs r v Hr).
    - by destruct (decide (safe_resource hard cur ign r v)).
    - naive_solver. }
  by destruct (IsSafe_loop _ _ _ _ _).
Qed.

Lemma IsSafe_Some hard cur new ign e :
  IsSafe hard cur new ign = Some e →
  ∃ errs, e = QuotaErrors errs ∧ errs ≠ [] ∧
    ∀ r, r ∈ map error_resource errs ↔
      ∃ v, new !! r = Some v ∧ ¬ safe_resource hard cur ign r v.
Proof.
  unfold IsSafe. pose proof (IsSafe_loop_spec hard cur ign (map_to_list new) []) as H.
  specialize (H ltac:(constructor)). simpl in H.
  destruct (IsSafe_loop _ _ _ _ _) as [|e0 es] eqn:E; [done|]. intros [= <-].
  exists (e0 :: es). split_and!; [done|done|]. intros r. rewrite H, list_elem_of_fmap. split.
  - intros ([k v] & -> & Hin). apply list_elem_of_filter in Hin as [Hn Hin].
    apply elem_of_map_to_list in Hin. eauto.
  - intros (v & Hr & Hn). exists (r, v). split; [done|]. apply list_elem_of_filter.
    split; [done|]. by apply elem_of_map_to_list.
Qed.
