(* ===== verification/QuotaStore.v ===== *)
(** * Quota tables and their access: [src/pkg/quota/models/quota.go],
    [src/pkg/quota/dao/dao.go], [src/pkg/quota/dao/model.go],
    [src/pkg/quota/manager.go]

    The two tables [quota] and [quota_usage] are finite maps keyed by [id],
    with the constraints of the schema (primary key, and uniqueness of
    (reference, reference_id)) enforced by [Insert].  The [hard] and [used]
    columns are JSON: a document is kept with the rendering it has as text,
    since the controller compares texts; Postgres renders a stored document its
    own way.  A column can also hold text that does not decode.  Timestamps and
    the paging/sorting of [List] are not modelled. *)

From S2P Require Import Prelude QuotaFormat GoErrors Orm QuotaTypes.
Open Scope Z_scope.

(** ** JSON texts *)
Inductive rendering := Compact | Postgres.

Inductive json_text :=
  | JDoc (style : rendering) (doc : ResourceList)
  | JBad (text : string).

#[global] Instance rendering_eq_dec : EqDecision rendering.
Proof. solve_decision. Defined.
#[global] Instance json_text_eq_dec : EqDecision json_text.
Proof. solve_decision. Defined.

(** [ResourceList.String] *)
Definition ResourceList_String (r : ResourceList) : json_text := JDoc Compact r.

Definition NewResourceList (s : json_text) : result ResourceList :=
  match s with
  | JDoc _ doc => Ok doc
  | JBad _ => Err (PlainError "invalid character in JSON text")
  end.

(** What a JSONB column gives back for the text written to it. *)
Definition jsonb (s : json_text) : json_text :=
  match s with JDoc _ doc => JDoc Postgres doc | JBad t => JBad t end.

(** ** Rows *)
Module Row.
Record QuotaRow := mkQuotaRow {
  id : Z; reference : string; reference_id : string;
  hard : json_text; version : Z }.
Record UsageRow := mkUsageRow {
  uid : Z; ureference : string; ureference_id : string;
  used : json_text; uversion : Z }.
End Row.
Import Row.

Record QuotaDB := mkQuotaDB {
  quotas : gmap Z QuotaRow;
  usages : gmap Z UsageRow;
  quota_seq : Z;   (* last value handed out by the sequence of quota.id *)
}.

(** [models.Quota] *)
Record Quota := mkQuota {
  ID : Z;
  Reference : string;
  ReferenceID : string;
  Hard : json_text;
  Used : json_text;
  HardVersion : Z;
  UsedVersion : Z;
  HardChanged : bool;
  UsedChanged : bool;
}.

Definition GetHard (q : Quota) : result ResourceList := NewResourceList (Hard q).
Definition GetUsed (q : Quota) : result ResourceList := NewResourceList (Used q).

Definition SetHard (q : Quota) (hardLimits : ResourceList) : Quota :=
  mkQuota (ID q) (Reference q) (ReferenceID q) (ResourceList_String hardLimits) (Used q)
    (HardVersion q) (UsedVersion q) true (UsedChanged q).

Definition SetUsed (q : Quota) (used : ResourceList) : Quota :=
  mkQuota (ID q) (Reference q) (ReferenceID q) (Hard q) (ResourceList_String used)
    (HardVersion q) (UsedVersion q) (HardChanged q) true.

(** The loop of [GetWarningResources] over an iteration order of the usage. *)
Fixpoint warning_loop (hardLimits : ResourceList) (warningPercent : Z)
    (l : list (string * Z)) (resources : list string) : result (list string) :=
  match l with
  | [] => Ok resources
  | (resource, used) :: l =>
      match hardLimits !! resource with
      | None => Err (PlainError ("resource " +:+ resource +:+ " not found in hard limits"))
      | Some limited =>
          if bool_decide (limited = UNLIMITED)
          then warning_loop hardLimits warningPercent l resources
          else if wrap64 (limited * warningPercent) <=? wrap64 (used * 100)
          then warning_loop hardLimits warningPercent l (resources ++ [resource])
          else warning_loop hardLimits warningPercent l resources
      end
  end.

Definition GetWarningResources (q : Quota) (warningPercent : Z) : result (list string) :=
  if (warningPercent <? 0) || (100 <? warningPercent)
  then Err (PlainError "bad warningPercent")
  else match GetHard q with
       | Err e => Err e
       | Ok hardLimits =>
           match GetUsed q with
           | Err e => Err e
           | Ok usage => warning_loop hardLimits warningPercent (map_to_list usage) []
           end
       end.

(** ** ORM calls on the two tables *)

Definition duplicate_key : error := PgError "23505" "duplicate key value violates unique constraint".

Definition quota_conflict (d : QuotaDB) (reference' reference_id' : string) : bool :=
  existsb (λ '(_, r), bool_decide (reference r = reference' ∧ reference_id r = reference_id'))
    (map_to_list (quotas d)).
Definition usage_conflict (d : QuotaDB) (reference' reference_id' : string) : bool :=
  existsb (λ '(_, r), bool_decide (ureference r = reference' ∧ ureference_id r = reference_id'))
    (map_to_list (usages d)).

(** [o.Insert(quota)] with a zero id: the sequence advances even when the
    row is refused. *)
Definition insert_quota (reference' reference_id' : string) (hard' : json_text)
    (d : QuotaDB) : result Z * QuotaDB :=
  let n := quota_seq d + 1 in
  if quota_conflict d reference' reference_id' || bool_decide (is_Some (quotas d !! n))
  then (Err duplicate_key, mkQuotaDB (quotas d) (usages d) n)
  else (Ok n, mkQuotaDB (<[n := mkQuotaRow n reference' reference_id' (jsonb hard') 0]> (quotas d))
                (usages d) n).

Definition insert_usage (id' : Z) (reference' reference_id' : string) (used' : json_text)
    (d : QuotaDB) : result Z * QuotaDB :=
  if usage_conflict d reference' reference_id' || bool_decide (is_Some (usages d !! id'))
  then (Err duplicate_key, d)
  else (Ok id', mkQuotaDB (quotas d)
                  (<[id' := mkUsageRow id' reference' reference_id' (jsonb used') 0]> (usages d))
                  (quota_seq d)).

Definition read_quota_by_ref (reference' reference_id' : string) (d : QuotaDB) : result QuotaRow :=
  match filter (λ kr, reference kr.2 = reference' ∧ reference_id kr.2 = reference_id')
          (map_to_list (quotas d)) with
  | [] => Err ErrNoRows
  | (_, r) :: _ => Ok r
  end.

Definition read_usage_by_ref (reference' reference_id' : string) (d : QuotaDB) : result UsageRow :=
  match filter (λ kr, ureference kr.2 = reference' ∧ ureference_id kr.2 = reference_id')
          (map_to_list (usages d)) with
  | [] => Err ErrNoRows
  | (_, r) :: _ => Ok r
  end.

Definition of_option {A} (o : option A) : result A :=
  match o with Some a => Ok a | None => Err ErrNoRows end.

(** ** [src/pkg/quota/dao/dao.go] *)

Definition toQuota (q : QuotaRow) (u : UsageRow) : Quota :=
  mkQuota (id q) (reference q) (reference_id q) (hard q) (used u) (version q) (uversion u)
    false false.

Definition getVersion (current : Z) : Z :=
  if bool_decide (current = max_int64) then 0 else current + 1.

(** Give an error of a call the wrapping its caller adds. *)
Definition map_err {D A} (f : error → error) (m : M D A) : M D A := λ w,
  match m w with (Ok a, w') => (Ok a, w') | (Err e, w') => (Err (f e), w') end.

Module dao.
Definition Create (reference' referenceID : string) (hardLimits used' : ResourceList)
    : M QuotaDB Z :=
  _ ← FromContext;
  id' ← stmt (insert_quota reference' referenceID (ResourceList_String hardLimits));
  _ ← stmt (insert_usage id' reference' referenceID (ResourceList_String used'));
  mret id'.

Definition Delete (id' : Z) : M QuotaDB unit :=
  _ ← FromContext;
  _ ← stmt (λ d, (Ok tt, mkQuotaDB (delete id' (quotas d)) (usages d) (quota_seq d)));
  _ ← stmt (λ d, (Ok tt, mkQuotaDB (quotas d) (delete id' (usages d)) (quota_seq d)));
  mret tt.

Definition Get (id' : Z) : M QuotaDB Quota :=
  _ ← FromContext;
  q ← map_err (λ e, WrapNotFoundError e ("quota " +:+ pretty id' +:+ " not found"))
        (query (λ d, of_option (quotas d !! id')));
  u ← map_err (λ e, WrapNotFoundError e ("quota usage " +:+ pretty id' +:+ " not found"))
        (query (λ d, of_option (usages d !! id')));
  mret (toQuota q u).

Definition GetByRef (reference' referenceID : string) : M QuotaDB Quota :=
  _ ← FromContext;
  q ← map_err (λ e, WrapNotFoundError e
          ("quota not found for (" +:+ reference' +:+ ", " +:+ referenceID +:+ ")"))
        (query (read_quota_by_ref reference' referenceID));
  u ← map_err (λ e, WrapNotFoundError e
          ("quota usage not found for (" +:+ reference' +:+ ", " +:+ referenceID +:+ ")"))
        (query (read_usage_by_ref reference' referenceID));
  mret (toQuota q u).

(** [UPDATE quota_usage SET used = ?, version = ? WHERE id = ? AND version = ?]
    and the number of rows it affects. *)
Definition update_used (q : Quota) (d : QuotaDB) : result Z * QuotaDB :=
  match usages d !! ID q with
  | Some u =>
      if bool_decide (uversion u = UsedVersion q)
      then (Ok 1, mkQuotaDB (quotas d)
             (<[ID q := mkUsageRow (uid u) (ureference u) (ureference_id u)
                         (jsonb (Used q)) (getVersion (UsedVersion q))]> (usages d))
             (quota_seq d))
      else (Ok 0, d)
  | None => (Ok 0, d)
  end.

Definition update_hard (q : Quota) (d : QuotaDB) : result Z * QuotaDB :=
  match quotas d !! ID q with
  | Some r =>
      if bool_decide (version r = HardVersion q)
      then (Ok 1, mkQuotaDB
             (<[ID q := mkQuotaRow (id r) (reference r) (reference_id r)
                         (jsonb (Hard q)) (getVersion (HardVersion q))]> (quotas d))
             (usages d) (quota_seq d))
      else (Ok 0, d)
  | None => (Ok 0, d)
  end.

Definition Update (q : Quota) : M QuotaDB unit :=
  _ ← FromContext;
  if UsedChanged q && HardChanged q
  then fail (New "not support change both hard and used of the quota")
  else if negb (UsedChanged q) && negb (HardChanged q)
  then mret tt
  else
    num ← stmt (if UsedChanged q then update_used q else update_hard q);
    if num =? 0 then fail ErrOptimisticLock else mret tt.
End dao.

(** ** [src/pkg/quota/manager.go] *)
Module manager.
Definition Create (reference' referenceID : string) (hardLimits : ResourceList)
    (usages' : list ResourceList) : M QuotaDB Z :=
  WithTransaction
    (let used' := match usages' with u :: _ => u | [] => Zero hardLimits end in
     dao.Create reference' referenceID hardLimits used').

Definition Delete (id' : Z) : M QuotaDB unit := WithTransaction (dao.Delete id').
Definition Get (id' : Z) : M QuotaDB Quota := dao.Get id'.
Definition GetByRef (r i : string) : M QuotaDB Quota := dao.GetByRef r i.
Definition Update (q : Quota) : M QuotaDB unit := dao.Update q.
End manager.

(** ** The invariant of the store

    Rows sit under their own id, the two tables hold the same ids with the same
    reference object, a reference object has one quota, and the sequence is
    ahead of every id. *)
Record db_ok (d : QuotaDB) : Prop := mk_db_ok {
  ok_ids : ∀ i r, quotas d !! i = Some r → id r = i;
  ok_uids : ∀ i u, usages d !! i = Some u → uid u = i;
  ok_twin : ∀ i r, quotas d !! i = Some r →
      ∃ u, usages d !! i = Some u ∧ ureference u = reference r ∧ ureference_id u = reference_id r;
  ok_utwin : ∀ i u, usages d !! i = Some u → is_Some (quotas d !! i);
  ok_unique : ∀ i j r s, quotas d !! i = Some r → quotas d !! j = Some s →
      reference r = reference s → reference_id r = reference_id s → i = j;
  ok_seq : ∀ i r, quotas d !! i = Some r → i <= quota_seq d;
}.

(** ** Lookups under the invariant *)

Lemma read_quota_by_ref_ok d i r :
  db_ok d → quotas d !! i = Some r →
  read_quota_by_ref (reference r) (reference_id r) d = Ok r.
Proof.
  intros Hd Hr. unfold read_quota_by_ref.
  destruct (filter _ _) as [|[j s] l] eqn:E.
  - apply filter_nil_iff in E. rewrite Forall_map_to_list in E.
    by destruct (E i r Hr).
  - assert (Hin : (j, s) ∈ filter (λ kr : Z * QuotaRow, reference kr.2 = reference r ∧
      reference_id kr.2 = reference_id r) (map_to_list (quotas d))) by (rewrite E; left).
    apply list_elem_of_filter in Hin as [[H1 H2] Hin]. apply elem_of_map_to_list in Hin.
    simpl in *. assert (j = i) as -> by (eapply (ok_unique d Hd); eauto). congruence.
Qed.

Lemma ok_unique_usage d i j u v :
  db_ok d → usages d !! i = Some u → usages d !! j = Some v →
  ureference u = ureference v → ureference_id u = ureference_id v → i = j.
Proof.
  intros Hd Hu Hv H1 H2.
  destruct (ok_utwin d Hd i u Hu) as [r Hr], (ok_utwin d Hd j v Hv) as [s Hs].
  destruct (ok_twin d Hd i r Hr) as (u' & Hu' & ? & ?).
  destruct (ok_twin d Hd j s Hs) as (v' & Hv' & ? & ?).
  eapply (ok_unique d Hd i j r s); congruence.
Qed.

Lemma read_usage_by_ref_ok d i u :
  db_ok d → usages d !! i = Some u →
  read_usage_by_ref (ureference u) (ureference_id u) d = Ok u.
Proof.
  intros Hd Hu. unfold read_usage_by_ref.
  destruct (filter _ _) as [|[j s] l] eqn:E.
  - apply filter_nil_iff in E. rewrite Forall_map_to_list in E.
    by destruct (E i u Hu).
  - assert (Hin : (j, s) ∈ filter (λ kr : Z * UsageRow, ureference kr.2 = ureference u ∧
      ureference_id kr.2 = ureference_id u) (map_to_list (usages d))) by (rewrite E; left).
    apply list_elem_of_filter in Hin as [[H1 H2] Hin]. apply elem_of_map_to_list in Hin.
    simpl in *. assert (j = i) as -> by (eapply ok_unique_usage; eauto). congruence.
Qed.

(** ** Specifications of the operations, for every fault schedule *)

Lemma map_err_cases {D A} (f : error → error) (m : M D A) w r w' :
  map_err f m w = (r, w') →
  (∃ a, r = Ok a ∧ m w = (Ok a, w')) ∨ (∃ e, r = Err (f e) ∧ m w = (Err e, w')).
Proof. unfold map_err. destruct (m w) as [[]]; intros; simplify_eq; eauto. Qed.

Lemma quota_conflict_false d r i :
  quota_conflict d r i = false ↔
  ∀ k row, quotas d !! k = Some row → ¬ (reference row = r ∧ reference_id row = i).
Proof.
  unfold quota_conflict. rewrite <- not_true_iff_false, existsb_exists. split.
  - intros H k row Hk Hr. apply H. exists (k, row).
    rewrite <- list_elem_of_In, elem_of_map_to_list, bool_decide_eq_true. done.
  - intros H ([k row] & Hin & Hb). rewrite bool_decide_eq_true in Hb.
    apply list_elem_of_In, elem_of_map_to_list in Hin. naive_solver.
Qed.

Lemma dao_Create_ok hardLimits used' r i w n w' :
  db_ok (db w) →
  dao.Create r i hardLimits used' w = (Ok n, w') →
  quotas (db w) !! n = None ∧ usages (db w) !! n = None ∧
  (∀ k row, quotas (db w) !! k = Some row → ¬ (reference row = r ∧ reference_id row = i)) ∧
  db w' = mkQuotaDB (<[n := mkQuotaRow n r i (JDoc Postgres hardLimits) 0]> (quotas (db w)))
            (<[n := mkUsageRow n r i (JDoc Postgres used') 0]> (usages (db w)))
            (quota_seq (db w) + 1) ∧
  n = quota_seq (db w) + 1.
Proof.
  intros Hd H. unfold dao.Create in H.
  mbind_inv H. apply FromContext_cases in Hm as [-> _].
  mbind_inv H. apply stmt_cases in Hm as [_ [(? & [=] & _)|Hins]].
  mbind_inv H. apply stmt_cases in Hm as [_ [(? & [=] & _)|Hu]].
  rewrite mret_eq in H. simplify_eq.
  unfold insert_quota in Hins. destruct (_ || _) eqn:E; [discriminate|].
  apply orb_false_iff in E as [E1 E2]. apply bool_decide_eq_false in E2.
  injection Hins as <- Hdb. rewrite <- Hdb in Hu.
  unfold insert_usage in Hu. destruct (_ || _) eqn:E3; [discriminate|]. simpl in Hu.
  apply orb_false_iff in E3 as [_ E4]. apply bool_decide_eq_false in E4.
  split_and!; [by apply eq_None_not_Some|by apply eq_None_not_Some|
    by apply quota_conflict_false| |done].
  by injection Hu as <-.
Qed.

Lemma db_ok_insert d n r i h u :
  db_ok d → n = quota_seq d + 1 →
  quotas d !! n = None → usages d !! n = None →
  (∀ k row, quotas d !! k = Some row → ¬ (reference row = r ∧ reference_id row = i)) →
  db_ok (mkQuotaDB (<[n := mkQuotaRow n r i h 0]> (quotas d))
           (<[n := mkUsageRow n r i u 0]> (usages d)) n).
Proof.
  intros [] -> Hq Hu Hfresh. split; simpl; intros *; rewrite ?lookup_insert_Some.
  - naive_solver.
  - naive_solver.
  - intros [[<- <-]|[Hne Hr]].
    + eexists. rewrite lookup_insert_eq. eauto.
    + rewrite lookup_insert_ne by done. eauto.
  - intros [[<- <-]|[Hne Hr]].
    + rewrite lookup_insert_eq. eauto.
    + rewrite lookup_insert_ne by done. eauto.
  - naive_solver.
  - intros [[<- <-]|[Hne Hr]]; [lia|]. specialize (ok_seq0 _ _ Hr). lia.
Qed.

Lemma dao_Delete_ok id' w w' :
  dao.Delete id' w = (Ok tt, w') →
  db w' = mkQuotaDB (delete id' (quotas (db w))) (delete id' (usages (db w))) (quota_seq (db w)).
Proof.
  intros H. unfold dao.Delete in H.
  mbind_inv H. apply FromContext_cases in Hm as [-> _].
  mbind_inv H. apply stmt_cases in Hm as [_ [(? & [=] & _)|Hq]].
  mbind_inv H. apply stmt_cases in Hm as [_ [(? & [=] & _)|Hu]].
  rewrite mret_eq in H. injection H as <-.
  injection Hq as _ Hq. injection Hu as _ Hu. by rewrite <- Hu, <- Hq.
Qed.

Lemma db_ok_delete d i :
  db_ok d → db_ok (mkQuotaDB (delete i (quotas d)) (delete i (usages d)) (quota_seq d)).
Proof.
  intros []. split; simpl; intros *; rewrite ?lookup_delete_Some.
  - intros [_ ?]; eauto.
  - intros [_ ?]; eauto.
  - intros [Hne Hr]. rewrite lookup_delete_ne by done. eauto.
  - intros [Hne Hr]. rewrite lookup_delete_ne by done. eauto.
  - intros [_ ?] [_ ?]; eauto.
  - intros [_ ?]; eauto.
Qed.

(** The effect of [dao.Update], on every branch. *)
Inductive update_effect (q : Quota) (d : QuotaDB) : result unit → QuotaDB → Prop :=
  | upd_fail e : update_effect q d (Err e) d
  | upd_none : UsedChanged q = false → HardChanged q = false → update_effect q d (Ok tt) d
  | upd_used u :
      UsedChanged q = true → HardChanged q = false →
      usages d !! ID q = Some u → uversion u = UsedVersion q →
      update_effect q d (Ok tt)
        (mkQuotaDB (quotas d)
           (<[ID q := mkUsageRow (uid u) (ureference u) (ureference_id u)
                        (jsonb (Used q)) (getVersion (UsedVersion q))]> (usages d))
           (quota_seq d))
  | upd_hard r :
      UsedChanged q = false → HardChanged q = true →
      quotas d !! ID q = Some r → version r = HardVersion q →
      update_effect q d (Ok tt)
        (mkQuotaDB
           (<[ID q := mkQuotaRow (id r) (reference r) (reference_id r)
                        (jsonb (Hard q)) (getVersion (HardVersion q))]> (quotas d))
           (usages d) (quota_seq d)).

Lemma update_used_cases q d r d' :
  dao.update_used q d = (r, d') →
  (r = Ok 0 ∧ d' = d) ∨
  ∃ u, r = Ok 1 ∧ usages d !! ID q = Some u ∧ uversion u = UsedVersion q ∧
    d' = mkQuotaDB (quotas d)
           (<[ID q := mkUsageRow (uid u) (ureference u) (ureference_id u)
                        (jsonb (Used q)) (getVersion (UsedVersion q))]> (usages d))
           (quota_seq d).
Proof.
  unfold dao.update_used. destruct (usages d !! ID q) as [u|]; [|naive_solver].
  case_bool_decide; [|naive_solver]. intros [= <- <-]. eauto 10.
Qed.

Lemma update_hard_cases q d r d' :
  dao.update_hard q d = (r, d') →
  (r = Ok 0 ∧ d' = d) ∨
  ∃ h, r = Ok 1 ∧ quotas d !! ID q = Some h ∧ version h = HardVersion q ∧
    d' = mkQuotaDB
           (<[ID q := mkQuotaRow (id h) (reference h) (reference_id h)
                        (jsonb (Hard q)) (getVersion (HardVersion q))]> (quotas d))
           (usages d) (quota_seq d).
Proof.
  unfold dao.update_hard. destruct (quotas d !! ID q) as [u|]; [|naive_solver].
  case_bool_decide; [|naive_solver]. intros [= <- <-]. eauto 10.
Qed.

Lemma dao_Update_effect q w r w' :
  dao.Update q w = (r, w') → update_effect q (db w) r (db w').
Proof.
  intros H. unfold dao.Update in H.
  mbind_inv H; [apply FromContext_cases in Hm as [-> _]; constructor|].
  apply FromContext_cases in Hm as [-> _].
  destruct (UsedChanged q) eqn:EU, (HardChanged q) eqn:EH; simpl in H.
  - injection H as <- <-. constructor.
  - mbind_inv H.
    + apply stmt_err_inv in Hm as [->|Hm]; [constructor|].
      apply update_used_cases in Hm as [[? ->]|(? & ? & _)]; [constructor|done].
    + apply stmt_ok_inv in Hm.
      apply update_used_cases in Hm as [[[= ->] Hd]|(u & [= ->] & Hu & Hv & Hd)]; simpl in H;
        injection H as <- <-; rewrite Hd; by econstructor.
  - mbind_inv H.
    + apply stmt_err_inv in Hm as [->|Hm]; [constructor|].
      apply update_hard_cases in Hm as [[? ->]|(? & ? & _)]; [constructor|done].
    + apply stmt_ok_inv in Hm.
      apply update_hard_cases in Hm as [[[= ->] Hd]|(u & [= ->] & Hu & Hv & Hd)]; simpl in H;
        injection H as <- <-; rewrite Hd; by econstructor.
  - rewrite mret_eq in H. simplify_eq. by constructor.
Qed.

Lemma update_effect_db_ok q d r d' :
  update_effect q d r d' → db_ok d → db_ok d'.
Proof.
  intros [e|EU EH|u EU EH Hu Hv|h EU EH Hh Hv] Hd; try done.
  - destruct Hd. split; simpl; try done.
    + intros i u'. rewrite lookup_insert_Some. intros [[<- <-]|[_ ?]]; simpl; eauto.
    + intros i r' Hr. destruct (decide (ID q = i)) as [<-|Hne].
      * destruct (ok_twin0 _ _ Hr) as (u' & Hu' & ? & ?). simplify_eq.
        rewrite lookup_insert_eq. eauto.
      * rewrite lookup_insert_ne by done. eauto.
    + intros i u'. rewrite lookup_insert_Some. intros [[<- <-]|[_ ?]]; simpl; eauto.
  - destruct Hd. split; simpl; try done.
    + intros i r'. rewrite lookup_insert_Some. intros [[<- <-]|[_ ?]]; simpl; eauto.
    + intros i r'. rewrite lookup_insert_Some. intros [[<- <-]|[_ ?]]; [|eauto].
      destruct (ok_twin0 _ _ Hh) as (u' & Hu' & ? & ?). exists u'. done.
    + intros i u Hu. destruct (decide (ID q = i)) as [<-|Hne].
      * rewrite lookup_insert_eq. eauto.
      * rewrite lookup_insert_ne by done. eauto.
    + intros i j r' s. rewrite !lookup_insert_Some.
      intros [[<- <-]|[_ ?]] [[<- <-]|[_ ?]]; simpl; eauto.
    + intros i r'. rewrite lookup_insert_Some. intros [[<- <-]|[_ ?]]; simpl; eauto.
Qed.

(** A row read by reference is stored under its id. *)
Lemma read_quota_by_ref_inv r i d h :
  db_ok d → read_quota_by_ref r i d = Ok h →
  quotas d !! id h = Some h ∧ reference h = r ∧ reference_id h = i.
Proof.
  intros Hd. unfold read_quota_by_ref. destruct (filter _ _) as [|[j s] l] eqn:E; [done|].
  intros [= ->].
  assert (Hin : (j, h) ∈ filter (λ kr : Z * QuotaRow, reference kr.2 = r ∧
    reference_id kr.2 = i) (map_to_list (quotas d))) by (rewrite E; left).
  apply list_elem_of_filter in Hin as [[H1 H2] Hin]. apply elem_of_map_to_list in Hin.
  rewrite (ok_ids d Hd _ _ Hin). auto.
Qed.

Lemma read_usage_by_ref_inv r i d u :
  db_ok d → read_usage_by_ref r i d = Ok u →
  usages d !! uid u = Some u ∧ ureference u = r ∧ ureference_id u = i.
Proof.
  intros Hd. unfold read_usage_by_ref. destruct (filter _ _) as [|[j s] l] eqn:E; [done|].
  intros [= ->].
  assert (Hin : (j, u) ∈ filter (λ kr : Z * UsageRow, ureference kr.2 = r ∧
    ureference_id kr.2 = i) (map_to_list (usages d))) by (rewrite E; left).
  apply list_elem_of_filter in Hin as [[H1 H2] Hin]. apply elem_of_map_to_list in Hin.
  rewrite (ok_uids d Hd _ _ Hin). auto.
Qed.

(** The two rows of a reference object have the same id. *)
Lemma read_same_row r i d h u :
  db_ok d → read_quota_by_ref r i d = Ok h → read_usage_by_ref r i d = Ok u →
  usages d !! id h = Some u.
Proof.
  intros Hd Hh Hu.
  apply read_quota_by_ref_inv in Hh as (Hh & <- & <-); [|done].
  apply read_usage_by_ref_inv in Hu as (Hu & H1 & H2); [|done].
  destruct (ok_twin d Hd _ _ Hh) as (u' & Hu' & H3 & H4).
  assert (uid u = id h) as <- by (eapply ok_unique_usage; eauto; congruence). done.
Qed.

Lemma db_ok_empty n : db_ok (mkQuotaDB ∅ ∅ n).
Proof. by split; simpl; intros *; rewrite lookup_empty. Qed.

(** The store after the quota of one object has been created. *)
Definition one_quota_db (r i : string) (hard' used' : ResourceList) : QuotaDB :=
  mkQuotaDB (<[1 := mkQuotaRow 1 r i (JDoc Postgres hard') 0]> ∅)
    (<[1 := mkUsageRow 1 r i (JDoc Postgres used') 0]> ∅) 1.

Lemma one_quota_db_ok r i hard' used' : db_ok (one_quota_db r i hard' used').
Proof.
  by apply (db_ok_insert (mkQuotaDB ∅ ∅ 0) 1 r i).
Qed.

(** ** Properties *)

(** Further property (safety). Creating a quota is atomic and keeps the store's invariant: on
    an error, whichever statement failed, both tables are unchanged; on success
    a fresh id has its limits and its usage row, and no other row changed. *)
Theorem quota_Create_atomic r i hardLimits us w x w' :
  db_ok (db w) →
  manager.Create r i hardLimits us w = (x, w') →
  db_ok (db w') ∧
  match x with
  | Err _ => db w' = db w
  | Ok n =>
      quotas (db w) !! n = None ∧
      quotas (db w') = <[n := mkQuotaRow n r i (JDoc Postgres hardLimits) 0]> (quotas (db w)) ∧
      usages (db w') =
        <[n := mkUsageRow n r i (JDoc Postgres (default (Zero hardLimits) (head us))) 0]>
          (usages (db w))
  end.
Proof.
  intros Hok H. unfold manager.Create in H. destruct x as [n|e].
  - apply WithTransaction_ok in H as (w1 & w2 & Hd & _ & Hc & Hd').
    rewrite <- Hd in Hok. apply dao_Create_ok in Hc as (Hq & Hu & Hf & Hd2 & Hn); [|done].
    rewrite Hd', Hd2, <- Hd. split; [rewrite <- Hn; by apply db_ok_insert|].
    simpl. destruct us; auto.
  - apply WithTransaction_err in H. by rewrite H.
Qed.

Lemma quota_Create_atomic_witness :
  let w := mkWorld (mkQuotaDB ∅ ∅ 0) true [None; None; None; Some (PlainError "connection reset")] in
  db_ok (db w) ∧ db_ok (db (snd (manager.Create "project" "1" {[ResourceStorage := 10]} [] w))).
Proof.
  intros w. split; [apply db_ok_empty|].
  destruct (manager.Create "project" "1" {[ResourceStorage := 10]} [] w) as [x w'] eqn:E.
  exact (proj1 (quota_Create_atomic "project" "1" {[ResourceStorage := 10]} [] w x w'
                  (db_ok_empty 0) E)).
Defined.

(** Further property (safety). Deleting a quota removes both of its rows or, on any error,
    neither, and keeps the invariant. *)
Theorem quota_Delete_atomic n w x w' :
  db_ok (db w) → manager.Delete n w = (x, w') →
  db_ok (db w') ∧
  match x with
  | Err _ => db w' = db w
  | Ok _ => quotas (db w') = delete n (quotas (db w)) ∧ usages (db w') = delete n (usages (db w))
  end.
Proof.
  intros Hok H. unfold manager.Delete in H. destruct x as [[]|e].
  - apply WithTransaction_ok in H as (w1 & w2 & Hd & _ & Hc & Hd').
    apply dao_Delete_ok in Hc. rewrite Hd', Hc, Hd. split; [by apply db_ok_delete|done].
  - apply WithTransaction_err in H. by rewrite H.
Qed.

Lemma quota_Delete_atomic_witness :
  let w := mkWorld (one_quota_db "project" "1" {[ResourceStorage := 10]} ∅) true
             [None; None; Some (PlainError "connection reset")] in
  db_ok (db w) ∧ db_ok (db (snd (manager.Delete 1 w))).
Proof.
  intros w. split; [apply one_quota_db_ok|].
  destruct (manager.Delete 1 w) as [x w'] eqn:E.
  exact (proj1 (quota_Delete_atomic 1 w x w' (one_quota_db_ok _ _ _ _) E)).
Defined.

(** Further property (invariant). [Update] is an optimistic write: when it reports success
    after changing the usage, the stored version was the one the caller had
    read, and the row now has the new document and the next version; a version
    mismatch, a change of both documents and a failed statement all report an
    error and change nothing.  The invariant is kept in every case. *)
Theorem quota_Update_optimistic q w x w' :
  db_ok (db w) → manager.Update q w = (x, w') →
  db_ok (db w') ∧ (is_ok x = false → db w' = db w) ∧
  (is_ok x = true → UsedChanged q = true →
     ∃ u, usages (db w) !! ID q = Some u ∧ uversion u = UsedVersion q ∧
       quotas (db w') = quotas (db w) ∧
       usages (db w') =
         <[ID q := mkUsageRow (uid u) (ureference u) (ureference_id u)
                     (jsonb (Used q)) (getVersion (UsedVersion q))]> (usages (db w))) ∧
  (UsedChanged q = true → HardChanged q = true → is_ok x = false).
Proof.
  intros Hok H. apply dao_Update_effect in H.
  split; [by eapply update_effect_db_ok|].
  destruct H; simpl; split_and!; intros; try congruence. eauto 10.
Qed.

Lemma quota_Update_optimistic_witness :
  let d := one_quota_db "project" "1" {[ResourceStorage := 10]} ∅ in
  let w := mkWorld d true [] in
  let q := SetUsed (mkQuota 1 "project" "1" (JBad "") (JBad "") 0 0 false false)
             {[ResourceStorage := 3]} in
  fst (manager.Update q w) = Ok tt ∧
  db_ok (db (snd (manager.Update q w))).
Proof.
  intros d w q. split; [vm_compute; reflexivity|].
  destruct (manager.Update q w) as [x w'] eqn:E.
  exact (proj1 (quota_Update_optimistic q w x w' (one_quota_db_ok _ _ _ _) E)).
Defined.
