(* ===== verification/QuotaCtl.v ===== *)
(** * The quota controller: [src/controller/quota/controller.go] and
    [src/pkg/quota/driver/driver.go]

    The drivers (what is counted against a quota) are reached through the
    [Driver] interface; [DriverOk] is what the controller's theorems need of
    one.  [budget] is the number of attempts the retry timer allows. *)

From S2P Require Import Prelude QuotaFormat GoErrors Orm Retry QuotaTypes QuotaStore.
Open Scope Z_scope.

(** ** The driver interface *)
Record Driver := mkDriver {
  Enabled : string → M QuotaDB bool;
  HardLimits : M QuotaDB ResourceList;
  Validate_ : ResourceList → option error;
  CalculateUsage : string → M QuotaDB ResourceList;
}.

(** A driver only reads the quota tables, and keeps the ORM in the context. *)
Class DriverOk (dr : Driver) : Prop := {
  CalculateUsage_reads : ∀ key w r w',
    CalculateUsage dr key w = (r, w') → db w' = db w ∧ ctx_orm w' = ctx_orm w;
}.

(** ** Decisions on the usage *)

(** The operations passed to [updateUsageWithRetry]. *)
Definition usage_op : Type := ResourceList → ResourceList → M QuotaDB ResourceList.

Definition reserveResources (resources : ResourceList) : usage_op := λ hardLimits used,
  let newUsed := Add used resources in
  match IsSafe hardLimits used newUsed false with
  | Some err =>
      fail (WithMessage (DeniedError (Some err))
              ("Quota exceeded when processing the request of " +:+ error_string err))
  | None => mret newUsed
  end.

Definition rollbackResources (resources : ResourceList) : usage_op := λ hardLimits used,
  let newUsed := Subtract used resources in
  match IsNegative newUsed with
  | [] => mret newUsed
  | negativeUsed =>
      fail (PlainError ("resources is negative for resource(s): "
                          +:+ PrettyPrintResourceNames negativeUsed))
  end.

Definition refreshResources (calculateUsage : M QuotaDB ResourceList)
    (ignoreLimitation : bool) : usage_op := λ hardLimits used,
  newUsed ← calculateUsage;
  match IsNegative newUsed with
  | [] =>
      match IsSafe hardLimits used newUsed ignoreLimitation with
      | Some err => fail err
      | None => mret newUsed
      end
  | negativeUsed =>
      fail (PlainError ("quota usage is negative for resource(s): "
                          +:+ PrettyPrintResourceNames negativeUsed))
  end.

(** ** Operations *)

(** One attempt of [updateUsageWithRetry]. *)
Definition updateUsage_attempt (reference' referenceID : string) (op : usage_op) : M QuotaDB unit :=
  q ← map_err Abort (manager.GetByRef reference' referenceID);
  hardLimits ← map_err Abort (of_result (GetHard q));
  used' ← map_err Abort (of_result (GetUsed q));
  newUsed ← map_err Abort (op hardLimits used');
  r ← try (manager.Update (SetUsed q newUsed));
  match r with
  | Ok _ => mret tt
  | Err e => if Is_OptimisticLock e then fail e else fail (Abort e)
  end.

Definition updateUsageWithRetry (budget : nat) (reference' referenceID : string)
    (op : usage_op) : M QuotaDB unit :=
  Retry budget (updateUsage_attempt reference' referenceID op).

Section controller.
Context (drivers : gmap string Driver) (budget : nat).

Definition getDriver (reference' : string) : M QuotaDB Driver :=
  match drivers !! reference' with
  | Some d => mret d
  | None => fail (PlainError ("quota not support for " +:+ reference'))
  end.

Definition IsEnabled (reference' referenceID : string) : M QuotaDB bool :=
  d ← getDriver reference';
  Enabled d referenceID.

Definition Validate (reference' : string) (hardLimits : ResourceList) : M QuotaDB unit :=
  d ← getDriver reference';
  match Validate_ d hardLimits with Some e => fail e | None => mret tt end.

Definition Refresh (reference' referenceID : string) (ignoreLimitation : bool) : M QuotaDB unit :=
  d ← getDriver reference';
  updateUsageWithRetry budget reference' referenceID
    (refreshResources (CalculateUsage d referenceID) ignoreLimitation).

(** The error of the rollback is logged and dropped. *)
Definition Request (reference' referenceID : string) (resources : ResourceList)
    (f : M QuotaDB unit) : M QuotaDB unit :=
  if bool_decide (size resources = 0%nat) then f
  else
    _ ← updateUsageWithRetry budget reference' referenceID (reserveResources resources);
    err ← try f;
    match err with
    | Ok _ => mret tt
    | Err e =>
        _ ← try (updateUsageWithRetry budget reference' referenceID (rollbackResources resources));
        fail e
    end.

(** One attempt of [Update]: the texts of [u] are compared with the stored
    ones, and an undecodable text is left alone. *)
Definition Update_attempt (u : Quota) : M QuotaDB unit :=
  q ← manager.GetByRef (Reference u) (ReferenceID u);
  let q :=
    if bool_decide (Hard q ≠ Hard u)
    then match GetHard u with Ok hard' => SetHard q hard' | Err _ => q end
    else q in
  let q :=
    if bool_decide (Used q ≠ Used u)
    then match GetUsed u with Ok used' => SetUsed q used' | Err _ => q end
    else q in
  manager.Update q.

Definition Update (u : Quota) : M QuotaDB unit := Retry budget (Update_attempt u).

End controller.

(** ** Lemmas on one attempt *)

(** What [GetByRef] returns when both rows are found. *)
Lemma GetByRef_ok r i w q w' :
  dao.GetByRef r i w = (Ok q, w') →
  db w' = db w ∧ ctx_orm w' = ctx_orm w ∧
  ∃ h u, read_quota_by_ref r i (db w) = Ok h ∧ read_usage_by_ref r i (db w) = Ok u ∧
    q = toQuota h u.
Proof.
  intros H. unfold dao.GetByRef in H.
  mbind_inv H. apply FromContext_cases in Hm as [-> _].
  mbind_inv H. apply map_err_cases in Hm as [(h & [= <-] & Hq)|(? & [=] & _)].
  apply query_cases in Hq as (Hd1 & Hc1 & [[? [=]]|Hq]).
  mbind_inv H. apply map_err_cases in Hm as [(u & [= <-] & Hu)|(? & [=] & _)].
  apply query_cases in Hu as (Hd2 & Hc2 & [[? [=]]|Hu]).
  rewrite mret_eq in H. injection H as <- <-. rewrite Hd1 in Hu.
  split_and!; [congruence|congruence|]. eauto 10.
Qed.

Lemma GetByRef_reads r i w x w' :
  dao.GetByRef r i w = (x, w') → db w' = db w ∧ ctx_orm w' = ctx_orm w.
Proof.
  intros H. unfold dao.GetByRef in H.
  mbind_inv H; [by apply FromContext_cases in Hm as [-> _]|].
  apply FromContext_cases in Hm as [-> _].
  mbind_inv H.
  { apply map_err_cases in Hm as [(? & [=] & _)|(? & _ & Hm)]. by apply query_cases in Hm as (? & ? & _). }
  apply map_err_cases in Hm as [(h & _ & Hq)|(? & [=] & _)].
  apply query_cases in Hq as (Hd1 & Hc1 & _).
  mbind_inv H.
  { apply map_err_cases in Hm as [(? & [=] & _)|(? & _ & Hm)].
    apply query_cases in Hm as (? & ? & _). split; congruence. }
  apply map_err_cases in Hm as [(u & _ & Hu)|(? & [=] & _)].
  apply query_cases in Hu as (Hd2 & Hc2 & _).
  rewrite mret_eq in H. injection H as <- <-. split; congruence.
Qed.

(** An operation that only reads the quota tables. *)
Definition op_reads (op : usage_op) : Prop :=
  ∀ h u w r w', op h u w = (r, w') → db w' = db w.

Lemma reserveResources_reads res : op_reads (reserveResources res).
Proof. intros h u w r w'. unfold reserveResources. destruct (IsSafe _ _ _ _); intros [= <- <-]; done. Qed.

Lemma rollbackResources_reads res : op_reads (rollbackResources res).
Proof. intros h u w r w'. unfold rollbackResources. destruct (IsNegative _); intros [= <- <-]; done. Qed.

Lemma refreshResources_reads dr key ign :
  DriverOk dr → op_reads (refreshResources (CalculateUsage dr key) ign).
Proof.
  intros Hdr h u w r w' H. unfold refreshResources in H.
  mbind_inv H; apply CalculateUsage_reads in Hm as [Hd _]; [done|].
  destruct (IsNegative _); [destruct (IsSafe _ _ _ _)|]; by injection H as <- <-.
Qed.

(** The database after a successful change of the usage of quota row [h] whose
    usage row is [u]. *)
Definition set_used (d : QuotaDB) (h : Row.QuotaRow) (u : Row.UsageRow) (new : ResourceList) : QuotaDB :=
  mkQuotaDB (quotas d)
    (<[Row.id h := Row.mkUsageRow (Row.uid u) (Row.ureference u) (Row.ureference_id u)
                     (JDoc Postgres new) (getVersion (Row.uversion u))]> (usages d))
    (quota_seq d).

(** One attempt either fails without effect, or reads both rows, decides with
    [op], and replaces the usage document and bumps its version. *)
Lemma attempt_cases r i op w x w' :
  op_reads op → db_ok (db w) →
  updateUsage_attempt r i op w = (x, w') →
  (∃ e, x = Err e ∧ db w' = db w ∧ AsAbort e ≠ Some None) ∨
  (x = Ok tt ∧ ∃ h u hard' used' new w1 w2,
     read_quota_by_ref r i (db w) = Ok h ∧ read_usage_by_ref r i (db w) = Ok u ∧
     NewResourceList (Row.hard h) = Ok hard' ∧ NewResourceList (Row.used u) = Ok used' ∧
     op hard' used' w1 = (Ok new, w2) ∧ db w' = set_used (db w) h u new).
Proof.
  intros Hop Hok H. unfold updateUsage_attempt in H.
  mbind_inv H.
  { apply map_err_cases in Hm as [(? & [=] & _)|(e' & [= ->] & Hm)]. left.
    apply GetByRef_reads in Hm as [? _]. eauto. }
  apply map_err_cases in Hm as [(q & [= <-] & Hm)|(? & [=] & _)].
  apply GetByRef_ok in Hm as (Hd & _ & h & u & Hh & Hu & ->).
  mbind_inv H.
  { apply map_err_cases in Hm as [(? & [=] & _)|(e' & [= ->] & Hm)]. injection Hm as _ <-. eauto. }
  apply map_err_cases in Hm as [(hard' & [= <-] & Hm)|(? & [=] & _)]. injection Hm as Hhard <-.
  mbind_inv H.
  { apply map_err_cases in Hm as [(? & [=] & _)|(e' & [= ->] & Hm)]. injection Hm as _ <-. eauto. }
  apply map_err_cases in Hm as [(used' & [= <-] & Hm)|(? & [=] & _)]. injection Hm as Hused <-.
  mbind_inv H.
  { apply map_err_cases in Hm as [(? & [=] & _)|(e' & [= ->] & Hm)]. apply Hop in Hm.
    left. eexists. split_and!; [done|congruence|done]. }
  apply map_err_cases in Hm as [(new & [= <-] & Hm)|(? & [=] & _)]. pose proof (Hop _ _ _ _ _ Hm) as Hd2.
  apply bind_try_inv in H as (ur & w5 & EU & H).
  apply dao_Update_effect in EU. rewrite Hd2, Hd in EU.
  destruct ur as [[]|e].
  - rewrite mret_eq in H. injection H as <- <-. right. split; [done|].
    exists h, u, a, a0, a1, w0, w1. split_and!; try done.
    inversion EU as [| |u' _ _ Hu' Hv' Hres|]; subst; simpl in *; try done.
    rewrite (read_same_row _ _ _ _ _ Hok Hh Hu) in Hu'. injection Hu' as <-. done.
  - left. exists (if Is_OptimisticLock e then e else Abort e). destruct (Is_OptimisticLock e) eqn:El;
      injection H as <- <-; inversion EU; split_and!; try done.
    by rewrite Is_OptimisticLock_not_abort.
Qed.

(** ** The retry loop around the attempts *)

(** What a usage update may do to the database: nothing and an error, or one
    replacement of the usage document by the value [op] decided. *)
Definition usage_updated (r i : string) (op : usage_op) (d d' : QuotaDB) (x : result unit) : Prop :=
  (∃ e, x = Err e ∧ d' = d) ∨
  (x = Ok tt ∧ ∃ h u hard' used' new w1 w2,
     read_quota_by_ref r i d = Ok h ∧ read_usage_by_ref r i d = Ok u ∧
     NewResourceList (Row.hard h) = Ok hard' ∧ NewResourceList (Row.used u) = Ok used' ∧
     op hard' used' w1 = (Ok new, w2) ∧ d' = set_used d h u new).

Lemma updateUsage_spec n r i op w x w' :
  op_reads op → db_ok (db w) →
  updateUsageWithRetry n r i op w = (x, w') → usage_updated r i op (db w) (db w') x.
Proof.
  intros Hop. unfold updateUsageWithRetry, Retry. generalize (@None error) as err.
  revert w. induction n as [|n IH]; intros w err Hok H; simpl in H.
  { injection H as <- <-. left. eauto. }
  destruct (updateUsage_attempt r i op w) as [y w1] eqn:E.
  apply attempt_cases in E; [|done|done].
  destruct E as [(e & -> & Hd & Ha)|(-> & Hupd)].
  - destruct (AsAbort e) as [[c|]|] eqn:Ea; [| done|].
    + injection H as <- <-. left. eauto.
    + rewrite <- Hd in Hok. apply IH in H; [|done]. by rewrite Hd in H.
  - injection H as <- <-. right. eauto.
Qed.

Lemma set_used_db_ok d r i h u new :
  db_ok d → read_quota_by_ref r i d = Ok h → read_usage_by_ref r i d = Ok u →
  db_ok (set_used d h u new).
Proof.
  intros Hd Hh Hu.
  apply (update_effect_db_ok (SetUsed (toQuota h u) new) d (Ok tt)); [|done].
  apply (upd_used (SetUsed (toQuota h u) new) d u); simpl; try done. by eapply read_same_row.
Qed.

Lemma usage_updated_db_ok r i op d d' x :
  usage_updated r i op d d' x → db_ok d → db_ok d'.
Proof.
  intros [(e & _ & ->)|(_ & h & u & hard' & used' & new & w1 & w2 & Hh & Hu & _ & _ & _ & ->)] Hd;
    [done|]. by eapply set_used_db_ok.
Qed.

(** ** Progress without faults *)

Section progress.
Context (r i : string) (d : QuotaDB) (h : Row.QuotaRow) (u : Row.UsageRow).
Hypothesis Hok : db_ok d.
Hypothesis Hh : read_quota_by_ref r i d = Ok h.
Hypothesis Hu : read_usage_by_ref r i d = Ok u.

Let w : World QuotaDB := mkWorld d true [].

Lemma GetByRef_nofault : dao.GetByRef r i w = (Ok (toQuota h u), w).
Proof using Hh Hu.
  unfold dao.GetByRef, w. rewrite bind_eq, FromContext_ok by done.
  rewrite bind_eq. unfold map_err at 1. rewrite query_nofault, Hh.
  rewrite bind_eq. unfold map_err. by rewrite query_nofault, Hu.
Qed.

Lemma attempt_nofault op hard' used' new :
  NewResourceList (Row.hard h) = Ok hard' → NewResourceList (Row.used u) = Ok used' →
  op hard' used' w = (Ok new, w) →
  updateUsage_attempt r i op w = (Ok tt, mkWorld (set_used d h u new) true []).
Proof using Hok Hh Hu.
  intros Hhard Hused Hop. unfold updateUsage_attempt.
  rewrite bind_eq. unfold map_err at 1. change manager.GetByRef with dao.GetByRef.
  rewrite GetByRef_nofault.
  rewrite bind_eq. unfold map_err at 1, of_result. unfold GetHard, toQuota; simpl. rewrite Hhard.
  rewrite bind_eq. unfold map_err at 1. unfold GetUsed; simpl. rewrite Hused.
  rewrite bind_eq. unfold map_err at 1. rewrite Hop.
  rewrite bind_eq. unfold try, manager.Update, dao.Update.
  rewrite bind_eq, FromContext_ok by done. simpl.
  rewrite bind_eq. unfold w. rewrite stmt_nofault. unfold dao.update_used. simpl.
  rewrite (read_same_row _ _ _ _ _ Hok Hh Hu), bool_decide_eq_true_2 by done. done.
Qed.

Lemma updateUsage_nofault n op hard' used' new :
  NewResourceList (Row.hard h) = Ok hard' → NewResourceList (Row.used u) = Ok used' →
  op hard' used' w = (Ok new, w) →
  updateUsageWithRetry (S n) r i op w = (Ok tt, mkWorld (set_used d h u new) true []).
Proof using Hok Hh Hu.
  intros. unfold updateUsageWithRetry, Retry; simpl. by erewrite attempt_nofault.
Qed.

End progress.

Lemma read_quota_set_used d r i h u new :
  read_quota_by_ref r i d = Ok h → read_quota_by_ref r i (set_used d h u new) = Ok h.
Proof. done. Qed.

(** The usage row after an update, read back. *)
Lemma read_usage_set_used d r i h u new :
  db_ok d → read_quota_by_ref r i d = Ok h → read_usage_by_ref r i d = Ok u →
  read_usage_by_ref r i (set_used d h u new) =
    Ok (Row.mkUsageRow (Row.uid u) (Row.ureference u) (Row.ureference_id u)
          (JDoc Postgres new) (getVersion (Row.uversion u))).
Proof.
  intros Hd Hh Hu.
  pose proof (set_used_db_ok d r i h u new Hd Hh Hu) as Hok'.
  apply read_usage_by_ref_inv in Hu as (_ & <- & <-); [|done].
  refine (read_usage_by_ref_ok _ (Row.id h) (Row.mkUsageRow _ _ _ _ _) Hok' _).
  simpl. by rewrite lookup_insert_eq.
Qed.

(** ** Arithmetic of reserve and rollback *)

Lemma Subtract_Add used res :
  (∀ k v, res !! k = Some v → ∃ x, used !! k = Some x ∧ in_int64 (x + v)) →
  (∀ k x, used !! k = Some x → in_int64 x) →
  Subtract (Add used res) res = used.
Proof.
  intros Hres Hused. apply map_eq. intros k. rewrite Subtract_lookup, Add_lookup.
  destruct (res !! k) as [v|] eqn:Hv.
  - destruct (Hres k v Hv) as (x & Hx & Hin). rewrite Hx.
    rewrite (wrap64_id (x + v)) by done. replace (x + v - v) with x by lia.
    by rewrite wrap64_id by eauto.
  - by destruct (used !! k).
Qed.

(** ** Properties *)

(** C22 (functional). [Request] runs the handler only after a reservation that
    the limit check accepted has been committed; when the reservation fails the
    handler does not run and nothing changes; a handler's error triggers the
    rollback and is what the caller gets.  After a handler that succeeds nothing is
    released or refreshed, whatever the comment of the interface says.  For every
    request that names resources and every fault schedule. *)
Theorem Request_spec budget r i resources f w x w' :
  db_ok (db w) → size resources ≠ 0%nat →
  Request budget r i resources f w = (x, w') →
  (is_ok x = false ∧ db w' = db w) ∨
  ∃ h u hard' used' w1 y w2,
    read_quota_by_ref r i (db w) = Ok h ∧ read_usage_by_ref r i (db w) = Ok u ∧
    NewResourceList (Row.hard h) = Ok hard' ∧ NewResourceList (Row.used u) = Ok used' ∧
    (∀ res v, Add used' resources !! res = Some v → safe_resource hard' used' false res v) ∧
    db w1 = set_used (db w) h u (Add used' resources) ∧
    f w1 = (y, w2) ∧ x = y ∧
    match y with
    | Ok _ => w' = w2
    | Err _ => db_ok (db w2) →
        ∃ z, usage_updated r i (rollbackResources resources) (db w2) (db w') z
    end.
Proof.
  intros Hok Hsz H. unfold Request in H. rewrite bool_decide_eq_false_2 in H by done.
  mbind_inv H.
  { apply updateUsage_spec in Hm as [(? & _ & ?)|([=] & _)];
      eauto using reserveResources_reads. }
  apply updateUsage_spec in Hm; [|apply reserveResources_reads|done].
  destruct Hm as [(? & [=] & _)|
    (_ & h & u & hard' & used' & new & v1 & v2 & Hh & Hu & Hhard & Hused & Hop & Hd)].
  unfold reserveResources in Hop. destruct (IsSafe _ _ _ _) eqn:Es; [done|].
  rewrite mret_eq in Hop. injection Hop as <- <-. rewrite IsSafe_None in Es.
  apply bind_try_inv in H as (y & w2 & Hf & H). right.
  exists h, u, hard', used', w0, y, w2. split_and!; try done.
  - destruct y as [[]|e]; [by injection H as <- <-|].
    apply bind_try_inv in H as (? & ? & ? & H). by injection H as <- <-.
  - destruct y as [[]|e]; [by injection H as <- <-|].
    apply bind_try_inv in H as (z & w3 & Hz & H). injection H as <- <-.
    intros Hok2. exists z. eapply updateUsage_spec; eauto using rollbackResources_reads.
Qed.

(** Further property (functional). A handler that fails without touching the quota tables
    leaves the usage document exactly as it was before the request: the
    reservation is rolled back (no faults; the request names counted resources
    and does not overflow). *)
Theorem Request_rollback_restores n r i resources d h u hard' used' f e :
  db_ok d → size resources ≠ 0%nat →
  read_quota_by_ref r i d = Ok h → read_usage_by_ref r i d = Ok u →
  NewResourceList (Row.hard h) = Ok hard' → NewResourceList (Row.used u) = Ok used' →
  (∀ k v, resources !! k = Some v → ∃ x, used' !! k = Some x ∧ in_int64 (x + v)) →
  (∀ k x, used' !! k = Some x → 0 <= x <= max_int64) →
  IsSafe hard' used' (Add used' resources) false = None →
  (∀ w, f w = (Err e, w)) →
  ∃ d', Request (S n) r i resources f (mkWorld d true []) = (Err e, mkWorld d' true []) ∧
    quotas d' = quotas d ∧
    ∃ u', read_usage_by_ref r i d' = Ok u' ∧ NewResourceList (Row.used u') = Ok used'.
Proof.
  intros Hok Hsz Hh Hu Hhard Hused Hres Hpos Hsafe Hf. unfold Request.
  rewrite bool_decide_eq_false_2 by done. rewrite bind_eq.
  erewrite updateUsage_nofault; [|done..|]; cycle 1.
  { unfold reserveResources. by rewrite Hsafe. }
  rewrite bind_eq. unfold try at 1. rewrite Hf.
  pose proof (read_usage_set_used d r i h u (Add used' resources) Hok Hh Hu) as Hu1.
  rewrite bind_eq. unfold try.
  assert (Hback : Subtract (Add used' resources) resources = used').
  { apply Subtract_Add; [done|]. intros k x Hx. specialize (Hpos k x Hx).
    unfold in_int64, min_int64. lia. }
  pose proof (set_used_db_ok _ _ _ _ _ (Add used' resources) Hok Hh Hu) as Hok1.
  rewrite (updateUsage_nofault r i _ h _ Hok1 (read_quota_set_used d r i h u _ Hh) Hu1 n _
             hard' (Add used' resources) used'); [|done|done|]; cycle 1.
  { unfold rollbackResources. rewrite Hback.
    assert (IsNegative used' = []) as ->; [|done].
    apply IsNegative_nil. intros k v Hk. specialize (Hpos k v Hk). lia. }
  eexists. split; [done|]. split; [done|]. eexists. split.
  { by apply read_usage_set_used. }
  done.
Qed.

(** The error of a reservation above a limit. *)
Definition denied (err : error) : error :=
  WithMessage (DeniedError (Some err)) ("Quota exceeded when processing the request of " +:+ error_string err).

Lemma Request_denied_run n r i resources d h u hard' used' f err :
  db_ok d → size resources ≠ 0%nat →
  read_quota_by_ref r i d = Ok h → read_usage_by_ref r i d = Ok u →
  NewResourceList (Row.hard h) = Ok hard' → NewResourceList (Row.used u) = Ok used' →
  IsSafe hard' used' (Add used' resources) false = Some err →
  Request (S n) r i resources f (mkWorld d true []) = (Err (denied err), mkWorld d true []).
Proof.
  intros Hok Hsz Hh Hu Hhard Hused Es.
  unfold Request. rewrite bool_decide_eq_false_2 by done. rewrite bind_eq.
  unfold updateUsageWithRetry, Retry; simpl. unfold updateUsage_attempt.
  rewrite bind_eq. unfold map_err at 1. change manager.GetByRef with dao.GetByRef.
  erewrite GetByRef_nofault by done.
  rewrite bind_eq. unfold map_err at 1, of_result. unfold GetHard, toQuota; simpl. rewrite Hhard.
  rewrite bind_eq. unfold map_err at 1. unfold GetUsed; simpl. rewrite Hused.
  rewrite bind_eq. unfold map_err at 1. unfold reserveResources. by rewrite Es.
Qed.

(** Further property (error). A request above a limit is denied: the code of the error is
    DENIED, it carries the quota errors, and nothing is written. *)
Theorem Request_denied n r i resources d h u hard' used' f :
  db_ok d → size resources ≠ 0%nat →
  read_quota_by_ref r i d = Ok h → read_usage_by_ref r i d = Ok u →
  NewResourceList (Row.hard h) = Ok hard' → NewResourceList (Row.used u) = Ok used' →
  IsSafe hard' used' (Add used' resources) false ≠ None →
  ∃ e errs, Request (S n) r i resources f (mkWorld d true []) = (Err e, mkWorld d true []) ∧
    ErrCode e = DENIED ∧ AsQuotaErrors e = Some errs ∧
    ∀ k, k ∈ map error_resource errs ↔
      ∃ v, Add used' resources !! k = Some v ∧ ¬ safe_resource hard' used' false k v.
Proof.
  intros Hok Hsz Hh Hu Hhard Hused Hns.
  destruct (IsSafe _ _ _ _) as [err|] eqn:Es; [|done].
  pose proof Es as Es'. apply IsSafe_Some in Es' as (errs & -> & _ & Herr).
  exists (denied (QuotaErrors errs)), errs.
  split_and!; [|done|done|done]. by eapply Request_denied_run.
Qed.

(** Further property (functional). [Refresh] replaces the usage by what the driver counted,
    only if that is non-negative and, unless limits are ignored, allowed; on an
    error the tables are unchanged.  The driver enters through [DriverOk]. *)
Theorem Refresh_spec drivers budget r i ign dr w x w' :
  DriverOk dr → drivers !! r = Some dr → db_ok (db w) →
  Refresh drivers budget r i ign w = (x, w') →
  db_ok (db w') ∧
  ((is_ok x = false ∧ db w' = db w) ∨
   ∃ h u hard' used' new w1 w2,
     read_quota_by_ref r i (db w) = Ok h ∧ read_usage_by_ref r i (db w) = Ok u ∧
     NewResourceList (Row.hard h) = Ok hard' ∧ NewResourceList (Row.used u) = Ok used' ∧
     CalculateUsage dr i w1 = (Ok new, w2) ∧
     (∀ k v, new !! k = Some v → 0 <= v ∧ safe_resource hard' used' ign k v) ∧
     x = Ok tt ∧ db w' = set_used (db w) h u new).
Proof.
  intros Hdr Hlook Hok H. unfold Refresh, getDriver in H. rewrite Hlook in H.
  rewrite bind_eq, mret_eq in H.
  apply updateUsage_spec in H; [|by apply refreshResources_reads|done].
  split; [by eapply usage_updated_db_ok|].
  destruct H as [(e & -> & ->)|
    (-> & h & u & hard' & used' & new & v1 & v2 & Hh & Hu & Hhard & Hused & Hop & Hd)]; [auto|].
  right. unfold refreshResources in Hop. mbind_inv Hop.
  destruct (IsNegative a) eqn:En; [|done].
  destruct (IsSafe hard' used' a ign) eqn:Es; [done|].
  rewrite mret_eq in Hop. injection Hop as <- <-. rewrite IsSafe_None in Es.
  rewrite IsNegative_nil in En.
  exists h, u, hard', used', a, v1, w0. split_and!; eauto.
Qed.

Definition ex_db : QuotaDB :=
  one_quota_db "project" "1" {[ResourceStorage := 100]} {[ResourceStorage := 40]}.
Definition ex_w : World QuotaDB := mkWorld ex_db true [].
Definition ex_h : Row.QuotaRow :=
  Row.mkQuotaRow 1 "project" "1" (JDoc Postgres {[ResourceStorage := 100]}) 0.
Definition ex_u : Row.UsageRow :=
  Row.mkUsageRow 1 "project" "1" (JDoc Postgres {[ResourceStorage := 40]}) 0.

Definition ex_req : ResourceList := {[ResourceStorage := 50]}.

Lemma ex_db_ok : db_ok ex_db.
Proof. apply one_quota_db_ok. Qed.

Lemma Request_spec_witness :
  ∃ w', Request 3 "project" "1" ex_req (mret tt) ex_w = (Ok tt, w') ∧
    db w' = set_used ex_db ex_h ex_u (Add {[ResourceStorage := 40]} ex_req) ∧ get0 (Add {[ResourceStorage := 40]} ex_req) ResourceStorage = 90.
Proof.
  destruct (Request 3 "project" "1" ex_req (mret tt) ex_w) as [x w'] eqn:E.
  assert (x = Ok tt) as -> by (vm_compute in E; congruence). exists w'. split; [reflexivity|]. split; [|reflexivity].
  destruct (Request_spec 3 "project" "1" ex_req (mret tt) ex_w _ _ ex_db_ok ltac:(vm_compute; discriminate) E)
    as [[H _]|(h & u & hard' & used' & w1 & y & w2 & Hh & Hu & _ & Hused & _ & Hd & Hf & <- & Hw)]; [discriminate H|].
  assert (read_quota_by_ref "project" "1" ex_db = Ok ex_h) as Eh by by_eval.
  assert (read_usage_by_ref "project" "1" ex_db = Ok ex_u) as Eu by by_eval.
  change (db ex_w) with ex_db in *. rewrite Eh in Hh. rewrite Eu in Hu. injection Hh as <-. injection Hu as <-.
  assert (NewResourceList (Row.used ex_u) = Ok {[ResourceStorage := 40]}) as En by by_eval.
  rewrite En in Hused. injection Hused as <-. injection Hf as <-. rewrite Hw. exact Hd.
Defined.

Lemma Request_rollback_restores_witness :
  ∃ d', Request 1 "project" "1" {[ResourceStorage := 50]}
          (fail (PlainError "push failed")) ex_w = (Err (PlainError "push failed"), mkWorld d' true []) ∧
    quotas d' = quotas ex_db ∧
    ∃ u', read_usage_by_ref "project" "1" d' = Ok u' ∧
      NewResourceList (Row.used u') = Ok {[ResourceStorage := 40]}.
Proof.
  refine (Request_rollback_restores 0 "project" "1" {[ResourceStorage := 50]} ex_db ex_h ex_u
    {[ResourceStorage := 100]} {[ResourceStorage := 40]} _ (PlainError "push failed")
    ex_db_ok _ _ _ _ _ _ _ _ _);
    [by_eval|by_eval|by_eval|by_eval|by_eval| | |by_eval|reflexivity].
  - intros k v Hk. apply lookup_singleton_Some in Hk as [<- <-].
    exists 40. split; [reflexivity|]. unfold in_int64, min_int64, max_int64. lia.
  - intros k x Hk. apply lookup_singleton_Some in Hk as [<- <-]. unfold max_int64. lia.
Defined.

Lemma Request_denied_witness :
  ∃ e errs, Request 1 "project" "1" {[ResourceStorage := 61]} (mret tt) (mkWorld ex_db true []) =
      (Err e, mkWorld ex_db true []) ∧
    ErrCode e = DENIED ∧ AsQuotaErrors e = Some errs ∧
    ∀ k, k ∈ map error_resource errs ↔
      ∃ v, Add {[ResourceStorage := 40]} {[ResourceStorage := 61]} !! k = Some v ∧
        ¬ safe_resource {[ResourceStorage := 100]} {[ResourceStorage := 40]} false k v.
Proof.
  apply (Request_denied 0 "project" "1" {[ResourceStorage := 61]} ex_db ex_h ex_u
    {[ResourceStorage := 100]} {[ResourceStorage := 40]} (mret tt) ex_db_ok).
  all: by_eval.
Defined.

(** A driver that always counts 7 bytes. *)
Definition ex_driver : Driver :=
  mkDriver (λ _, mret true) (mret {[ResourceStorage := 100]}) (λ _, None)
    (λ _, mret {[ResourceStorage := 7]}).

Lemma ex_driver_ok : DriverOk ex_driver.
Proof. split. intros key w r w' [= <- <-]. done. Qed.

Lemma Refresh_spec_witness :
  let x := Refresh {["project"%string := ex_driver]} 1 "project" "1" false ex_w in
  fst x = Ok tt ∧ db_ok (db (snd x)).
Proof.
  intros x. split; [vm_compute; reflexivity|]. unfold x.
  destruct (Refresh _ _ _ _ _ _) as [r w'] eqn:E.
  exact (proj1 (Refresh_spec {["project"%string := ex_driver]} 1 "project" "1" false ex_driver
    ex_w r w' ex_driver_ok (lookup_singleton_eq _ _) ex_db_ok E)).
Defined.

(** Further property (liveness). [Update] can spin: a caller that changes the limits of a
    quota it read before the usage changed asks, at every attempt, for a change
    of both documents, which the store refuses; the error is not an abort, so
    every attempt the timer allows is spent and the call ends in a timeout,
    although writing the limits alone would have succeeded. *)
Theorem Update_stale_usage_times_out budget q d h u hard' used' :
  read_quota_by_ref (Reference q) (ReferenceID q) d = Ok h →
  read_usage_by_ref (Reference q) (ReferenceID q) d = Ok u →
  GetHard q = Ok hard' → GetUsed q = Ok used' →
  Row.hard h ≠ Hard q → Row.used u ≠ Used q →
  Update (S budget) q (mkWorld d true []) =
    (Err (retry_timeout_error (Some (New "not support change both hard and used of the quota"))),
     mkWorld d true []).
Proof.
  intros Hh Hu Hhard Hused Hne1 Hne2. unfold Update, Retry.
  assert (Hatt : Update_attempt q (mkWorld d true []) =
    (Err (New "not support change both hard and used of the quota"), mkWorld d true [])).
  { unfold Update_attempt. rewrite bind_eq. change manager.GetByRef with dao.GetByRef.
    erewrite GetByRef_nofault by done. simpl.
    rewrite (bool_decide_eq_true_2 (Row.hard h ≠ Hard q)), Hhard by done. simpl.
    rewrite (bool_decide_eq_true_2 (Row.used u ≠ Used q)), Hused by done.
    unfold manager.Update, dao.Update. rewrite bind_eq, FromContext_ok by done. done. }
  generalize (@None error) as err. induction budget as [|n IH]; intros err.
  - simpl. by rewrite Hatt.
  - change (Retry_loop (S (S n)) (Update_attempt q) err (mkWorld d true []))
      with (match Update_attempt q (mkWorld d true []) with
            | (Ok _, w') => (Ok tt, w')
            | (Err e, w') => match AsAbort e with
                | Some (Some cause) => (Err cause, w') | Some None => (Ok tt, w')
                | None => Retry_loop (S n) (Update_attempt q) (Some e) w' end end).
    rewrite Hatt. apply IH.
Qed.

Lemma Update_stale_usage_times_out_witness :
  let q := mkQuota 1 "project" "1" (ResourceList_String {[ResourceStorage := 200]})
             (JDoc Postgres {[ResourceStorage := 39]}) 0 0 true false in
  is_ok (fst (Update 4 q (mkWorld ex_db true []))) = false.
Proof.
  intros q.
  rewrite (Update_stale_usage_times_out 3 q ex_db ex_h ex_u
    {[ResourceStorage := 200]} {[ResourceStorage := 39]}); by_eval.
Defined.
