(* ===== verification/QuotaConc.v ===== *)
(** * Concurrent usage updates: the optimistic protocol of
    [updateUsageWithRetry] ([src/controller/quota/controller.go]) over
    [dao.GetByRef] and [dao.Update] ([src/pkg/quota/dao/dao.go])

    Several clients (core instances serving pushes) update the usage of one
    quota at the same time.  A client is at one of the points between two SQL
    statements of an attempt; a step of the system is one statement of one
    client, a failure of a client, or an administrator's change of the limits.
    The reads of an attempt are two separate statements, not a transaction.
    A ghost log records the committed changes in commit order. *)

From S2P Require Import Prelude QuotaFormat GoErrors Orm Retry QuotaTypes QuotaStore QuotaCtl.
From stdpp Require Import relations.
Open Scope Z_scope.

(** The two operations clients run (see [Request]). *)
Inductive usage_change :=
  | Reserve (resources : ResourceList)
  | Rollback (resources : ResourceList).

Definition change_op (c : usage_change) : usage_op :=
  match c with
  | Reserve res => reserveResources res
  | Rollback res => rollbackResources res
  end.

(** The decision of an operation; neither operation touches the world. *)
Definition change_decide (c : usage_change) (hardLimits used' : ResourceList) : result ResourceList :=
  fst (change_op c hardLimits used' (mkWorld (mkQuotaDB ∅ ∅ 0) true [])).

Lemma change_decide_op c h u w : change_op c h u w = (change_decide c h u, w).
Proof.
  unfold change_decide. destruct c; simpl.
  - unfold reserveResources. by destruct (IsSafe _ _ _ _).
  - unfold rollbackResources. by destruct (IsNegative _).
Qed.

(** Where a client is in its attempt. *)
Inductive client :=
  | AtStart (c : usage_change)
  | HasLimits (c : usage_change) (h : Row.QuotaRow)
  | HasDecided (c : usage_change) (hard' used' new : ResourceList) (q : Quota)
  | Finished (outcome : bool).

Record commit := mkCommit {
  c_change : usage_change; c_hard : ResourceList; c_before : ResourceList; c_after : ResourceList }.

Record sys := mkSys { s_db : QuotaDB; s_clients : gmap nat client; s_log : list commit }.

Section protocol.
Context (r i : string).

Inductive step : relation sys :=
  | step_read_quota d cl log k c h :
      cl !! k = Some (AtStart c) → read_quota_by_ref r i d = Ok h →
      step (mkSys d cl log) (mkSys d (<[k := HasLimits c h]> cl) log)
  | step_read_usage d cl log k c h u hard' used' new :
      cl !! k = Some (HasLimits c h) → read_usage_by_ref r i d = Ok u →
      NewResourceList (Row.hard h) = Ok hard' → NewResourceList (Row.used u) = Ok used' →
      change_decide c hard' used' = Ok new →
      step (mkSys d cl log)
        (mkSys d (<[k := HasDecided c hard' used' new (SetUsed (toQuota h u) new)]> cl) log)
  | step_update d d' cl log k c hard' used' new q :
      cl !! k = Some (HasDecided c hard' used' new q) → dao.update_used q d = (Ok 1, d') →
      step (mkSys d cl log)
        (mkSys d' (<[k := Finished true]> cl) (log ++ [mkCommit c hard' used' new]))
  | step_conflict d d' cl log k c hard' used' new q :
      cl !! k = Some (HasDecided c hard' used' new q) → dao.update_used q d = (Ok 0, d') →
      step (mkSys d cl log) (mkSys d' (<[k := AtStart c]> cl) log)
  | step_fail d cl log k c :
      cl !! k = Some c → (∀ b, c ≠ Finished b) →
      step (mkSys d cl log) (mkSys d (<[k := Finished false]> cl) log)
  | step_limits d d' cl log q :
      dao.update_hard q d = (Ok 1, d') →
      step (mkSys d cl log) (mkSys d' cl log).

(** ** The abstract specification: one operation at a time

    [serial u log u'] : the committed changes, run one after the other, each on
    the usage its predecessor left, turn [u] into [u']. *)
Inductive serial (u0 : ResourceList) : list commit → ResourceList → Prop :=
  | serial_nil : serial u0 [] u0
  | serial_snoc log u c hard' new :
      serial u0 log u → change_decide c hard' u = Ok new →
      serial u0 (log ++ [mkCommit c hard' u new]) new.

(** ** The invariant that relates the protocol to the specification *)

Definition version_of (d : QuotaDB) (v : Z) (used' : ResourceList) : Prop :=
  ∃ u, read_usage_by_ref r i d = Ok u ∧ Row.uversion u = v ∧ NewResourceList (Row.used u) = Ok used'.

(** A client that has decided holds a version not newer than the stored one,
    and when it is the stored one, the usage it decided on is the stored one. *)
Definition client_ok (d : QuotaDB) (c : client) : Prop :=
  match c with
  | HasDecided c hard' used' new q =>
      UsedChanged q = true ∧ Used q = ResourceList_String new ∧
      change_decide c hard' used' = Ok new ∧
      ∃ u, read_usage_by_ref r i d = Ok u ∧ ID q = Row.uid u ∧
        UsedVersion q <= Row.uversion u ∧
        (UsedVersion q = Row.uversion u → NewResourceList (Row.used u) = Ok used')
  | HasLimits _ h => ∃ h', read_quota_by_ref r i d = Ok h' ∧ Row.id h = Row.id h'
  | _ => True
  end.

Record inv (u0 : ResourceList) (v0 : Z) (s : sys) : Prop := mk_inv {
  inv_db : db_ok (s_db s);
  inv_serial : ∃ used', version_of (s_db s) (v0 + Z.of_nat (length (s_log s))) used' ∧
      serial u0 (s_log s) used';
  inv_clients : ∀ k c, s_clients s !! k = Some c → client_ok (s_db s) c;
  inv_quota : ∃ h, read_quota_by_ref r i (s_db s) = Ok h;
}.

(** ** Effects of the two writes on what a client can read *)

Lemma update_used_effect q d d' :
  dao.update_used q d = (Ok 1, d') → db_ok d →
  ∀ u, read_usage_by_ref r i d = Ok u → ID q = Row.uid u →
  db_ok d' ∧ Row.uversion u = UsedVersion q ∧ quotas d' = quotas d ∧
  read_usage_by_ref r i d' =
    Ok (Row.mkUsageRow (Row.uid u) (Row.ureference u) (Row.ureference_id u)
          (jsonb (Used q)) (getVersion (UsedVersion q))).
Proof.
  intros H Hok u Hu Hid. apply update_used_cases in H as [[? _]|(u2 & _ & Hu2 & Hv & ->)]; [done|].
  apply read_usage_by_ref_inv in Hu as (Hu & <- & <-); [|done].
  rewrite Hid, Hu in Hu2. injection Hu2 as <-.
  set (u' := Row.mkUsageRow _ _ _ _ _). set (d' := mkQuotaDB _ _ _).
  assert (Hok' : db_ok d').
  { apply (update_effect_db_ok (mkQuota (ID q) EmptyString EmptyString (Hard q) (Used q) 0
             (UsedVersion q) false true) d (Ok tt)); [|done].
    rewrite <- Hid in Hu. by apply (upd_used (mkQuota (ID q) EmptyString EmptyString (Hard q) (Used q) 0
             (UsedVersion q) false true) d u). }
  split_and!; try done.
  refine (read_usage_by_ref_ok d' (ID q) u' Hok' _). simpl. by rewrite lookup_insert_eq.
Qed.

Lemma update_hard_effect q d d' h :
  dao.update_hard q d = (Ok 1, d') → db_ok d → read_quota_by_ref r i d = Ok h →
  db_ok d' ∧ usages d' = usages d ∧ ∃ h', read_quota_by_ref r i d' = Ok h' ∧ Row.id h' = Row.id h.
Proof.
  intros H Hok Hh. apply update_hard_cases in H as [[? _]|(h2 & _ & Hh2 & Hv & ->)]; [done|].
  set (d' := mkQuotaDB _ _ _).
  assert (Hok' : db_ok d').
  { apply (update_effect_db_ok (mkQuota (ID q) EmptyString EmptyString (Hard q) (Used q)
             (HardVersion q) 0 true false) d (Ok tt)); [|done].
    by apply (upd_hard (mkQuota (ID q) EmptyString EmptyString (Hard q) (Used q)
             (HardVersion q) 0 true false) d h2). }
  split_and!; [done|done|].
  apply read_quota_by_ref_inv in Hh as (Hh & <- & <-); [|done].
  destruct (decide (ID q = Row.id h)) as [He|Hne].
  - rewrite He, Hh in Hh2. injection Hh2 as <-.
    eexists. split.
    + refine (read_quota_by_ref_ok d' (Row.id h) (Row.mkQuotaRow _ _ _ _ _) Hok' _).
      simpl. by rewrite He, lookup_insert_eq.
    + done.
  - exists h. split; [|done]. apply (read_quota_by_ref_ok d' (Row.id h)); [done|].
    simpl. by rewrite lookup_insert_ne.
Qed.

Lemma read_usage_usages d d' : usages d' = usages d → read_usage_by_ref r i d' = read_usage_by_ref r i d.
Proof. intros H. unfold read_usage_by_ref. by rewrite H. Qed.
Lemma read_quota_quotas d d' : quotas d' = quotas d → read_quota_by_ref r i d' = read_quota_by_ref r i d.
Proof. intros H. unfold read_quota_by_ref. by rewrite H. Qed.

(** A client's knowledge survives the commit of another one. *)
Lemma client_ok_commit d d' u u' c :
  read_usage_by_ref r i d = Ok u → read_usage_by_ref r i d' = Ok u' →
  quotas d' = quotas d → Row.uid u' = Row.uid u → Row.uversion u' = Row.uversion u + 1 →
  client_ok d c → client_ok d' c.
Proof.
  intros Hu Hu' Hq Hid Hv. destruct c as [| |c h0 u0 new q|]; simpl; try done.
  - by rewrite (read_quota_quotas d d').
  - intros (? & ? & ? & u1 & Hu1 & Hi & Hle & _). rewrite Hu in Hu1. injection Hu1 as <-.
    split_and!; try done. exists u'. split_and!; [done|congruence|lia|lia].
Qed.

Lemma client_ok_limits d d' h h' c :
  read_quota_by_ref r i d = Ok h → read_quota_by_ref r i d' = Ok h' → Row.id h' = Row.id h →
  usages d' = usages d → client_ok d c → client_ok d' c.
Proof.
  intros Hh Hh' Hid Hus. destruct c as [|c g|c h0 u0 new q|]; simpl; try done.
  - intros (g' & Hg & He). rewrite Hh in Hg. injection Hg as <-. exists h'. split; [done|congruence].
  - by rewrite (read_usage_usages d d').
Qed.

Lemma clients_insert (P : client → Prop) (cl : gmap nat client) k c :
  (∀ k c, cl !! k = Some c → P c) → P c → ∀ k' c', <[k := c]> cl !! k' = Some c' → P c'.
Proof. intros H Hc k' c'. rewrite lookup_insert_Some. naive_solver. Qed.

Lemma inv_step u0 v0 s s' :
  step s s' → v0 + Z.of_nat (length (s_log s')) <= max_int64 → inv u0 v0 s → inv u0 v0 s'.
Proof.
  intros Hstep Hmax [Hok (used0 & (u & Hu & Hv & Hused) & Hser) Hcl [h0 Hh0]].
  destruct Hstep as [d cl log k c h Hk Hh|d cl log k c h u1 hard' used' new Hk Hu1 Hhd Hus Hdec|
    d d' cl log k c hard' used' new q Hk Hupd|d d' cl log k c hard' used' new q Hk Hupd|
    d cl log k c Hk _|d d' cl log q Hupd]; simpl in *.
  - split; simpl; [done|by exists used0; split; [exists u|]| |by eauto].
    apply clients_insert; [done|]. simpl. eauto.
  - split; simpl; [done|by exists used0; split; [exists u|]| |by eauto].
    apply clients_insert; [done|]. simpl. rewrite Hu1 in Hu. injection Hu as ->.
    split_and!; try done. exists u. split_and!; try done.
    destruct (Hcl k _ Hk) as (h' & Hh' & ->).
    pose proof (read_same_row _ _ _ _ _ Hok Hh' Hu1) as Hs.
    symmetry. by apply (ok_uids _ Hok).
  - destruct (Hcl k _ Hk) as (Hch & Hq & Hdec & u1 & Hu1 & Hid & Hle & Heq).
    rewrite Hu in Hu1. injection Hu1 as <-.
    destruct (update_used_effect _ _ _ Hupd Hok u Hu Hid) as (Hok' & Hvq & Hqs & Hu').
    rewrite length_app in Hmax; simpl in Hmax.
    assert (Hgv : getVersion (UsedVersion q) = Row.uversion u + 1).
    { unfold getVersion. rewrite bool_decide_eq_false_2; lia. }
    specialize (Heq (eq_sym Hvq)). rewrite Hused in Heq. injection Heq as ->.
    rewrite Hgv in Hu'. split; simpl; [done| | |].
    + exists new. split; [|by constructor]. eexists. split; [exact Hu'|]. simpl.
      rewrite length_app. simpl. split; [lia|]. by rewrite Hq.
    + apply clients_insert; [|done]. intros k' c' Hk'.
      eapply (client_ok_commit d d' u); eauto; done.
    + rewrite (read_quota_quotas d d') by done. eauto.
  - apply update_used_cases in Hupd as [[_ ->]|(? & ? & _)]; [|done].
    split; simpl; [done|by exists used0; split; [exists u|]| |by eauto].
    by apply clients_insert.
  - split; simpl; [done|by exists used0; split; [exists u|]| |by eauto].
    by apply clients_insert.
  - destruct (update_hard_effect _ _ _ h0 Hupd Hok Hh0) as (Hok' & Hus' & h' & Hh' & Hid).
    split; simpl; [done| | |by eauto].
    + exists used0. split; [|done]. exists u. by rewrite (read_usage_usages d d').
    + intros k c Hk. eapply (client_ok_limits d d' h0 h'); eauto.
Qed.

Lemma step_log_grows s s' : step s s' → (length (s_log s) ≤ length (s_log s'))%nat.
Proof. destruct 1; simpl; rewrite ?length_app; lia. Qed.

Lemma inv_steps u0 v0 s s' :
  rtc step s s' → v0 + Z.of_nat (length (s_log s')) <= max_int64 → inv u0 v0 s → inv u0 v0 s'.
Proof.
  induction 1 as [s|s1 s2 s3 H12 H23 IH]; intros Hmax Hinv; [done|].
  apply IH; [done|]. eapply inv_step; [done| |done].
  assert (length (s_log s2) ≤ length (s_log s3))%nat; [|lia].
  clear -H23. induction H23 as [|a b c Hab _ IH]; [done|]. apply step_log_grows in Hab. lia.
Qed.

(** ** Runs in which the limits do not change *)

Section fixed_limits.
Context (hard0 : ResourceList) (P : usage_change → Prop).

Definition step_fixed (s s' : sys) : Prop := step s s' ∧ quotas (s_db s') = quotas (s_db s).

(** Everything decided so far was decided on [hard0], for changes in [P]. *)
Definition client_fixed (d : QuotaDB) (c : client) : Prop :=
  match c with
  | AtStart c => P c
  | HasLimits c h => P c ∧ read_quota_by_ref r i d = Ok h
  | HasDecided c hard' _ _ _ => P c ∧ hard' = hard0
  | Finished _ => True
  end.

Definition fixed (s : sys) : Prop :=
  (∀ h, read_quota_by_ref r i (s_db s) = Ok h → NewResourceList (Row.hard h) = Ok hard0) ∧
  (∀ k c, s_clients s !! k = Some c → client_fixed (s_db s) c) ∧
  Forall (λ c, P (c_change c) ∧ c_hard c = hard0) (s_log s).

Lemma client_fixed_quotas d d' c : quotas d' = quotas d → client_fixed d c → client_fixed d' c.
Proof. intros H. destruct c; simpl; try done. by rewrite (read_quota_quotas d d'). Qed.

Lemma fixed_step s s' : step_fixed s s' → fixed s → fixed s'.
Proof.
  intros [Hstep Hq] (Hh & Hcl & Hlog).
  assert (Hcl' : ∀ k c, s_clients s !! k = Some c → client_fixed (s_db s') c).
  { intros k c Hk. eapply client_fixed_quotas; [exact Hq|by eauto]. }
  assert (Hh' : ∀ h, read_quota_by_ref r i (s_db s') = Ok h → NewResourceList (Row.hard h) = Ok hard0).
  { intros h. rewrite (read_quota_quotas (s_db s) (s_db s')) by done. apply Hh. }
  split; [done|].
  destruct Hstep as [d cl log k c h Hk Hr|d cl log k c h u1 hard' used' new Hk Hu1 Hhd Hus Hdec|
    d d' cl log k c hard' used' new q Hk Hupd|d d' cl log k c hard' used' new q Hk Hupd|
    d cl log k c Hk _|d d' cl log q Hupd]; simpl in *.
  - split; [|done]. apply clients_insert; [done|]. split; [|done]. apply (Hcl k _ Hk).
  - split; [|done]. apply clients_insert; [done|]. destruct (Hcl k _ Hk) as [? Hr].
    split; [done|]. specialize (Hh h Hr). congruence.
  - destruct (Hcl k _ Hk) as [? ->].
    split; [by apply clients_insert|]. apply Forall_app; split; [done|]. by constructor.
  - split; [|done]. apply clients_insert; [done|]. apply (Hcl k _ Hk).
  - split; [by apply clients_insert|done].
  - done.
Qed.

Lemma fixed_steps s s' : rtc step_fixed s s' → fixed s → fixed s'.
Proof. induction 1; eauto using fixed_step. Qed.

Lemma step_fixed_rtc s s' : rtc step_fixed s s' → rtc step s s'.
Proof. induction 1 as [|? ? ? [? _]]; [done|]. eapply rtc_l; eauto. Qed.

End fixed_limits.

End protocol.

(** ** The bound along a serial run *)

(** The requests for resource [k] are non-negative and too small to overflow
    on top of the limit [h]. *)
Definition bounded_change (k : string) (h : Z) (c : usage_change) : Prop :=
  ∀ v, (match c with Reserve res | Rollback res => res end) !! k = Some v →
    0 <= v <= max_int64 - h.

Lemma change_decide_bound k h hard0 c used' new :
  hard0 !! k = Some h → 0 <= h <= max_int64 → bounded_change k h c →
  0 <= get0 used' k <= h →
  change_decide c hard0 used' = Ok new → 0 <= get0 new k <= h.
Proof.
  intros Hh Hr Hb Hu. unfold bounded_change, max_int64 in *.
  assert (Hw : ∀ v, 0 <= v <= 2 ^ 63 - 1 - h → wrap64 (get0 used' k + v) = get0 used' k + v).
  { intros v Hv. apply wrap64_id. auto with harbor. }
  assert (Hw' : ∀ v, 0 <= v <= 2 ^ 63 - 1 - h → wrap64 (get0 used' k - v) = get0 used' k - v).
  { intros v Hv. apply wrap64_id. auto with harbor. }
  unfold change_decide. destruct c as [res|res]; simpl in *.
  - unfold reserveResources. destruct (IsSafe _ _ _ _) eqn:Es; [done|]. intros [= <-].
    rewrite IsSafe_None in Es. specialize (Es k). rewrite Add_lookup in Es.
    unfold get0 in *. rewrite Add_lookup. unfold safe_resource in Es. rewrite Hh in Es.
    destruct (used' !! k) as [x|] eqn:Ex, (res !! k) as [v|] eqn:Ev; simpl in *; try lia.
    + specialize (Hb v eq_refl). rewrite Hw in * by lia.
      specialize (Es _ eq_refl). unfold UNLIMITED, get0 in Es. rewrite Ex in Es. simpl in Es. naive_solver lia.
    + specialize (Hb v eq_refl). specialize (Es _ eq_refl).
      unfold UNLIMITED, get0 in Es. rewrite Ex in Es. simpl in Es. naive_solver lia.
  - unfold rollbackResources. destruct (IsNegative _) eqn:En; [|done]. intros [= <-].
    rewrite IsNegative_nil in En. specialize (En k). rewrite Subtract_lookup in En.
    unfold get0 in *. rewrite Subtract_lookup.
    destruct (used' !! k) as [x|] eqn:Ex, (res !! k) as [v|] eqn:Ev; simpl in *; try lia.
    + specialize (Hb v eq_refl). rewrite Hw' in * by lia. specialize (En _ eq_refl). lia.
    + specialize (Hb v eq_refl). specialize (En _ eq_refl).
      specialize (Hw' v Hb). simpl in Hw'. replace (- v) with (0 - v) in * by lia. lia.
Qed.

(** Whatever a reservation asks for, it does not take the usage above the limit. *)
Lemma reserve_upper k h hard0 res used' new :
  hard0 !! k = Some h → 0 <= h → get0 used' k <= h →
  change_decide (Reserve res) hard0 used' = Ok new → get0 new k <= h.
Proof.
  intros Hh Hr Hu. unfold change_decide. simpl. unfold reserveResources.
  destruct (IsSafe _ _ _ _) eqn:Es; [done|]. intros [= <-].
  rewrite IsSafe_None in Es. specialize (Es k). rewrite Add_lookup in Es.
  unfold get0 in *. rewrite Add_lookup. unfold safe_resource in Es. rewrite Hh in Es.
  destruct (used' !! k) as [x|] eqn:Ex, (res !! k) as [v|] eqn:Ev; simpl in *; try lia;
    specialize (Es _ eq_refl); unfold UNLIMITED, get0 in Es; rewrite Ex in Es; simpl in Es; naive_solver lia.
Qed.

(** What each change keeps holds after a serial run. *)
Lemma serial_keeps (P : usage_change → Prop) (Q : ResourceList → Prop) hard0 u0 log u :
  (∀ c u u', P c → Q u → change_decide c hard0 u = Ok u' → Q u') →
  Forall (λ c, P (c_change c) ∧ c_hard c = hard0) log → Q u0 → serial u0 log u → Q u.
Proof.
  intros Hstep Hall Hu0 Hs. induction Hs as [|log u c hard' new Hs IH Hd]; [done|].
  apply Forall_app in Hall as [Hall Hc]. apply Forall_cons in Hc as [[Hb Hhard] _].
  simpl in *. subst hard'. eauto.
Qed.

(** ** Properties *)

(** C15 (refinement). Concurrent usage updates are serializable: whatever the
    interleaving of statements, conflicts, failures and limit changes, the
    stored usage is the result of running the committed operations one at a time
    in commit order, each deciding on exactly the usage its predecessor left.
    No update is lost.  (The version counter must not have wrapped.) *)
Theorem quota_updates_serializable r i d h u u0 cl s :
  db_ok d → read_quota_by_ref r i d = Ok h → read_usage_by_ref r i d = Ok u →
  NewResourceList (Row.used u) = Ok u0 →
  (∀ k c, cl !! k = Some c → ∃ ch, c = AtStart ch) →
  rtc (step r i) (mkSys d cl []) s →
  Row.uversion u + Z.of_nat (length (s_log s)) <= max_int64 →
  ∃ u' used', read_usage_by_ref r i (s_db s) = Ok u' ∧
    NewResourceList (Row.used u') = Ok used' ∧
    Row.uversion u' = Row.uversion u + Z.of_nat (length (s_log s)) ∧
    serial u0 (s_log s) used'.
Proof.
  intros Hok Hh Hu Hused Hcl Hrun Hmax.
  destruct (inv_steps r i u0 (Row.uversion u) _ _ Hrun Hmax) as [_ (used' & (u' & ? & ? & ?) & ?) _ _].
  - split; simpl; [done| | |by eauto].
    + exists u0. split; [|constructor]. exists u. split_and!; [done|lia|done].
    + intros k c Hk. by destruct (Hcl k c Hk) as [ch ->].
  - eauto 10.
Qed.

(** C1 (invariant). A resource of a quota has the limit [lim] and is used
    within it, and the limits are not changed. Then under every interleaving of
    reservations and rollbacks, with conflicts and failures: reservations alone,
    of whatever sizes, never take it above its limit; and when every request asks
    for between zero and [max_int64 - lim], reservations and rollbacks together
    keep it between zero and its limit. Without this bound on the sizes the sum
    wraps around: see [oversized_reservation]. *)
Theorem quota_never_exceeded r i d h u u0 hard0 k lim cl s :
  db_ok d → read_quota_by_ref r i d = Ok h → read_usage_by_ref r i d = Ok u →
  NewResourceList (Row.hard h) = Ok hard0 → NewResourceList (Row.used u) = Ok u0 →
  hard0 !! k = Some lim → 0 <= lim <= max_int64 → 0 <= get0 u0 k <= lim →
  (∀ n c, cl !! n = Some c → ∃ ch, c = AtStart ch) →
  rtc (step_fixed r i) (mkSys d cl []) s →
  Row.uversion u + Z.of_nat (length (s_log s)) <= max_int64 →
  ∃ u' used', read_usage_by_ref r i (s_db s) = Ok u' ∧ NewResourceList (Row.used u') = Ok used' ∧
    ((∀ n ch, cl !! n = Some (AtStart ch) → ∃ res, ch = Reserve res) → get0 used' k <= lim) ∧
    ((∀ n ch, cl !! n = Some (AtStart ch) → bounded_change k lim ch) → 0 <= get0 used' k <= lim).
Proof.
  intros Hok Hh Hu Hhard Hused Hlim Hr Hu0 Hcl Hrun Hmax.
  destruct (inv_steps r i u0 (Row.uversion u) _ _ (step_fixed_rtc _ _ _ _ Hrun) Hmax)
    as [_ (used' & (u' & Hu' & _ & Hus') & Hser) _ _].
  - split; simpl; [done| | |by eauto].
    + exists u0. split; [|constructor]. exists u. split_and!; [done|lia|done].
    + intros n c Hn. by destruct (Hcl n c Hn) as [ch ->].
  - assert (Hlog : ∀ P, (∀ n ch, cl !! n = Some (AtStart ch) → P ch) →
      Forall (λ c, P (c_change c) ∧ c_hard c = hard0) (s_log s)).
    { intros P HP. destruct (fixed_steps r i hard0 P _ _ Hrun) as (_ & _ & H); [|exact H].
      split_and!; simpl; [intros h' Hh'; congruence| |done].
      intros n c Hn. destruct (Hcl n c Hn) as [ch ->]. exact (HP n ch Hn). }
    exists u', used'. split_and!; [done|done| |]; intros HP.
    + apply (serial_keeps (λ ch, ∃ res, ch = Reserve res) (λ u, get0 u k <= lim) hard0 u0 (s_log s));
      [|by apply (Hlog (λ ch, ∃ res, ch = Reserve res))|lia|done].
      intros ? ? ? [res ->]. eapply reserve_upper; [done|lia].
    + apply (serial_keeps (bounded_change k lim) (λ u, 0 <= get0 u k <= lim) hard0 u0 (s_log s));
      [|by apply (Hlog (bounded_change k lim))|done|done].
      intros ? ? ? ? ?. by eapply change_decide_bound.
Qed.

(** A reservation that is so large that the sum wraps around passes the check
    and leaves a negative usage, on top of which a push of 100 passes too. *)
Example oversized_reservation :
  match change_decide (Reserve {[ResourceStorage := max_int64]}) {[ResourceStorage := 100]}
    {[ResourceStorage := 40]} with
  | Ok u => get0 u ResourceStorage <? 0 = true ∧
      ∃ u', change_decide (Reserve {[ResourceStorage := 100]}) {[ResourceStorage := 100]} u = Ok u'
  | Err _ => False
  end.
Proof. vm_compute. split; [done|]. eexists. reflexivity. Qed.

(** Two clients on one quota: both read, the first commits, the second meets a
    conflict and starts again. *)
Definition race_init : sys :=
  mkSys ex_db (<[0%nat := AtStart (Reserve {[ResourceStorage := 10]})]>
               (<[1%nat := AtStart (Reserve {[ResourceStorage := 20]})]> ∅)) [].

(** An executable scheduler: the next statement of client [k]. *)
Definition exec (r i : string) (k : nat) (s : sys) : option sys :=
  let '(mkSys d cl log) := s in
  match cl !! k with
  | Some (AtStart c) =>
      match read_quota_by_ref r i d with
      | Ok h => Some (mkSys d (<[k := HasLimits c h]> cl) log)
      | Err _ => None
      end
  | Some (HasLimits c h) =>
      match read_usage_by_ref r i d, NewResourceList (Row.hard h) with
      | Ok u, Ok hard' =>
          match NewResourceList (Row.used u) with
          | Ok used' =>
              match change_decide c hard' used' with
              | Ok new => Some (mkSys d (<[k := HasDecided c hard' used' new
                                                 (SetUsed (toQuota h u) new)]> cl) log)
              | Err _ => None
              end
          | Err _ => None
          end
      | _, _ => None
      end
  | Some (HasDecided c hard' used' new q) =>
      match dao.update_used q d with
      | (Ok 1, d') => Some (mkSys d' (<[k := Finished true]> cl) (log ++ [mkCommit c hard' used' new]))
      | (Ok 0, d') => Some (mkSys d' (<[k := AtStart c]> cl) log)
      | _ => None
      end
  | _ => None
  end.

Lemma exec_sound r i k s s' : exec r i k s = Some s' → step_fixed r i s s'.
Proof.
  destruct s as [d cl log]. unfold exec.
  destruct (cl !! k) as [[c|c h|c hard' used' new q|]|] eqn:Hk; try done.
  - destruct (read_quota_by_ref r i d) eqn:Hr; intros [= <-]. split; [|done].
    by apply step_read_quota.
  - destruct (read_usage_by_ref r i d) as [u|] eqn:Hu; [|done].
    destruct (NewResourceList (Row.hard h)) as [hard'|] eqn:Hh; [|done].
    destruct (NewResourceList (Row.used u)) as [used'|] eqn:Hus; [|done].
    destruct (change_decide c hard' used') as [new|] eqn:Hd; intros [= <-]. split; [|done].
    by eapply step_read_usage.
  - destruct (dao.update_used q d) as [x d'] eqn:Hq. intros H.
    pose proof (update_used_cases _ _ _ _ Hq) as [[-> ->]|(u & -> & _ & _ & Hd')];
      injection H as <-; split; try done.
    + by eapply step_conflict.
    + by eapply step_update.
    + by rewrite Hd'.
Qed.

Fixpoint exec_all (r i : string) (sched : list nat) (s : sys) : option sys :=
  match sched with
  | [] => Some s
  | k :: sched => match exec r i k s with Some s' => exec_all r i sched s' | None => None end
  end.

Lemma exec_all_sound r i sched s s' : exec_all r i sched s = Some s' → rtc (step_fixed r i) s s'.
Proof.
  revert s. induction sched as [|k sched IH]; intros s; simpl; [intros [= ->]; done|].
  destruct (exec r i k s) as [s1|] eqn:E; [|done].
  intros H. eapply rtc_l; [by eapply exec_sound|by apply IH].
Qed.

Lemma race_run :
  ∃ s, rtc (step_fixed "project" "1") race_init s ∧ length (s_log s) = 1%nat.
Proof.
  destruct (exec_all "project" "1" [0; 1; 0; 1; 0; 1]%nat race_init) as [s|] eqn:E.
  - exists s. split; [by eapply exec_all_sound|].
    assert (Hl : (λ s, length (s_log s)) <$> exec_all "project" "1" [0; 1; 0; 1; 0; 1]%nat race_init
              = Some 1%nat) by (vm_compute; reflexivity).
    rewrite E in Hl. by injection Hl.
  - assert (Hl : bool_decide (is_Some (exec_all "project" "1" [0; 1; 0; 1; 0; 1]%nat race_init)) = true)
      by (vm_compute; reflexivity).
    rewrite E in Hl. by vm_compute in Hl.
Qed.

Lemma race_init_start n c :
  s_clients race_init !! n = Some c →
  ∃ ch, c = AtStart ch ∧ bounded_change ResourceStorage 100 ch.
Proof.
  simpl. rewrite !lookup_insert_Some, lookup_empty.
  intros [[_ <-]|[_ [[_ <-]|[_ [=]]]]]; eexists; split; [done| |done|];
    intros v Hv; apply lookup_singleton_Some in Hv as [_ <-]; unfold max_int64; lia.
Qed.

Lemma quota_updates_serializable_witness :
  ∃ s used', rtc (step "project" "1") race_init s ∧ length (s_log s) = 1%nat ∧
    serial {[ResourceStorage := 40]} (s_log s) used'.
Proof.
  destruct race_run as (s & Hrun & Hlen). apply step_fixed_rtc in Hrun.
  destruct (quota_updates_serializable "project" "1" ex_db ex_h ex_u {[ResourceStorage := 40]}
    (s_clients race_init) s ex_db_ok ltac:(by_eval) ltac:(by_eval) ltac:(by_eval))
    as (u' & used' & _ & _ & _ & Hs).
  - intros k c Hk. destruct (race_init_start k c Hk) as (ch & -> & _). by exists ch.
  - exact Hrun.
  - rewrite Hlen. unfold max_int64. simpl. lia.
  - exists s, used'. auto.
Defined.

Lemma quota_never_exceeded_witness :
  ∃ s used', rtc (step_fixed "project" "1") race_init s ∧ length (s_log s) = 1%nat ∧
    get0 used' ResourceStorage <= 100 ∧ 0 <= get0 used' ResourceStorage <= 100.
Proof.
  destruct race_run as (s & Hrun & Hlen).
  destruct (quota_never_exceeded "project" "1" ex_db ex_h ex_u {[ResourceStorage := 40]}
    {[ResourceStorage := 100]} ResourceStorage 100 (s_clients race_init) s ex_db_ok
    ltac:(by_eval) ltac:(by_eval) ltac:(by_eval) ltac:(by_eval) ltac:(by_eval))
    as (u' & used' & _ & _ & Hres & Hb).
  - unfold max_int64. lia.
  - vm_compute. split; discriminate.
  - intros n c Hn. destruct (race_init_start n c Hn) as (ch & -> & _). by exists ch.
  - exact Hrun.
  - rewrite Hlen. unfold max_int64. simpl. lia.
  - exists s, used'. split; [done|]. split; [done|]. split; [apply Hres|apply Hb].
    + intros n ch. simpl. rewrite !lookup_insert_Some, lookup_empty. naive_solver.
    + intros n ch Hn. destruct (race_init_start n _ Hn) as (ch' & [= ->] & Hch). exact Hch.
Defined.
