(* ===== verification/BlobStore.v ===== *)
(** * Blobs: [src/pkg/blob/models/blob.go], [src/pkg/blob/dao/dao.go],
    [src/pkg/blob/manager.go], [src/controller/blob/controller.go]

    The tables [blob], [project_blob], [artifact_blob] and the columns of
    [artifact] that the blob queries join with.  The clock is part of the
    database state ([now], in seconds).  Creation times and the accepted sizes
    kept in Redis are not modelled. *)

From S2P Require Import Prelude GoErrors Orm.
Open Scope Z_scope.

Inductive BlobStatus :=
  | StatusNone
  | StatusDelete
  | StatusDeleting
  | StatusDeleteFailed
  | StatusOther (s : string).

#[global] Instance BlobStatus_eq_dec : EqDecision BlobStatus.
Proof. solve_decision. Defined.

(** [StatusMap]: the accepted source statuses of each target status. *)
Definition StatusMap (target : BlobStatus) : option (list BlobStatus) :=
  match target with
  | StatusNone => Some [StatusNone; StatusDelete; StatusDeleteFailed]
  | StatusDelete => Some [StatusNone; StatusDelete; StatusDeleteFailed]
  | StatusDeleting => Some [StatusDelete]
  | StatusDeleteFailed => Some [StatusDeleting]
  | StatusOther _ => None
  end.

Record Blob := mkBlob {
  ID : Z; Digest : string; ContentType : string; Size : Z;
  Status : BlobStatus; UpdateTime : Z; Version : Z }.

Definition MediaTypeForeignLayer : string :=
  "application/vnd.docker.image.rootfs.foreign.diff.tar.gzip".

Definition manifest_media_types : list string :=
  ["application/vnd.docker.distribution.manifest.v2+json";
   "application/vnd.docker.distribution.manifest.v1+json";
   "application/vnd.docker.distribution.manifest.v1+prettyjws";
   "application/vnd.oci.image.manifest.v1+json";
   "application/vnd.oci.image.index.v1+json";
   "application/vnd.docker.distribution.manifest.list.v2+json"]%string.

Definition IsForeignLayer (b : Blob) : bool := bool_decide (ContentType b = MediaTypeForeignLayer).
Definition IsManifest (b : Blob) : bool := bool_decide (ContentType b ∈ manifest_media_types).

Record BlobDB := mkBlobDB {
  blobs : gmap Z Blob;
  project_blob : gset (Z * Z);            (* project_id, blob_id *)
  artifact_blob : gset (string * string); (* digest_af, digest_blob *)
  artifacts : list (Z * string);          (* project_id, digest *)
  blob_seq : Z;
  now : Z;
}.

Definition set_blobs (d : BlobDB) (m : gmap Z Blob) : BlobDB :=
  mkBlobDB m (project_blob d) (artifact_blob d) (artifacts d) (blob_seq d) (now d).
Definition set_project_blob (d : BlobDB) (s : gset (Z * Z)) : BlobDB :=
  mkBlobDB (blobs d) s (artifact_blob d) (artifacts d) (blob_seq d) (now d).
Definition set_artifact_blob (d : BlobDB) (s : gset (string * string)) : BlobDB :=
  mkBlobDB (blobs d) (project_blob d) s (artifacts d) (blob_seq d) (now d).

Definition find_digest (digest : string) (d : BlobDB) : option Blob :=
  snd <$> head (filter (λ kb, Digest kb.2 = digest) (map_to_list (blobs d))).

(** ** [src/pkg/blob/dao/dao.go] *)

Module dao.

(** The [UPDATE ... RETURNING version] statement: the new version when a row
    matched, [ErrNoRows] otherwise. *)
Definition update_status_row (b : Blob) (d : BlobDB) : result Z * BlobDB :=
  match blobs d !! ID b with
  | None => (Err ErrNoRows, d)
  | Some row =>
      let version_ok :=
        match Status b with
        | StatusNone => Version b <=? Version row
        | _ => Version row =? Version b
        end in
      let stats := default [] (StatusMap (Status b)) in
      if version_ok && bool_decide (Status row ∈ stats)
      then
        let v := Version row + 1 in
        (Ok v, set_blobs d
                 (<[ID b := mkBlob (ID row) (Digest row) (ContentType row) (Size row)
                              (Status b) (now d) v]> (blobs d)))
      else (Err ErrNoRows, d)
  end.

(** The count, and the blob whose [Version] field was updated. *)
Definition UpdateBlobStatus (b : Blob) : M BlobDB (Z * Blob) :=
  _ ← FromContext;
  r ← try (stmt (update_status_row b));
  match r with
  | Ok v => mret (1, mkBlob (ID b) (Digest b) (ContentType b) (Size b) (Status b) (UpdateTime b) v)
  | Err e =>
      match AsNotFoundError e "no blob is updated" with
      | Some _ => mret (0, b)
      | None => fail e
      end
  end.

(** [InsertOrUpdate(blob, "digest")]: a conflicting row has all its columns but
    the id overwritten, the status and the version included. *)
Definition CreateBlob (digest contentType : string) (size : Z) : M BlobDB Z :=
  _ ← FromContext;
  stmt (λ d,
    match find_digest digest d with
    | Some row =>
        (Ok (ID row), set_blobs d
          (<[ID row := mkBlob (ID row) digest contentType size StatusNone (now d) 0]> (blobs d)))
    | None =>
        let n := blob_seq d + 1 in
        (Ok n, mkBlobDB (<[n := mkBlob n digest contentType size StatusNone (now d) 0]> (blobs d))
                 (project_blob d) (artifact_blob d) (artifacts d) n (now d))
    end).

Definition GetBlobByDigest (digest : string) : M BlobDB Blob :=
  _ ← FromContext;
  r ← try (query (λ d, match find_digest digest d with Some b => Ok b | None => Err ErrNoRows end));
  match r with
  | Ok b => mret b
  | Err e => fail (WrapNotFoundError e ("blob " +:+ digest +:+ " not found"))
  end.

Definition UpdateBlob (b : Blob) : M BlobDB unit :=
  _ ← FromContext;
  stmt (λ d,
    match blobs d !! ID b with
    | Some row =>
        (Ok tt, set_blobs d (<[ID b := mkBlob (ID row) (Digest row) (ContentType b) (Size b)
                                         (Status row) (now d) (Version row)]> (blobs d)))
    | None => (Ok tt, d)
    end).

Definition DeleteBlob (id : Z) : M BlobDB unit :=
  _ ← FromContext;
  n ← stmt (λ d, match blobs d !! id with
                 | Some _ => (Ok 1, set_blobs d (delete id (blobs d)))
                 | None => (Ok 0, d)
                 end);
  if n =? 0
  then fail (WithMessage (NotFoundError None) ("blob " +:+ pretty id +:+ " not found"))
  else mret tt.

Definition CreateArtifactAndBlob (artifactDigest blobDigest : string) : M BlobDB unit :=
  _ ← FromContext;
  stmt (λ d, (Ok tt, set_artifact_blob d ({[(artifactDigest, blobDigest)]} ∪ artifact_blob d))).

Definition DeleteArtifactAndBlobByArtifact (artifactDigest : string) : M BlobDB unit :=
  _ ← FromContext;
  stmt (λ d, (Ok tt, set_artifact_blob d (filter (λ p, p.1 ≠ artifactDigest) (artifact_blob d)))).

Definition CreateProjectBlob (projectID blobID : Z) : M BlobDB unit :=
  _ ← FromContext;
  stmt (λ d, (Ok tt, set_project_blob d ({[(projectID, blobID)]} ∪ project_blob d))).

Definition DeleteProjectBlob (projectID : Z) (blobIDs : list Z) : M BlobDB unit :=
  match blobIDs with
  | [] => mret tt
  | _ =>
      _ ← FromContext;
      stmt (λ d, (Ok tt, set_project_blob d
        (filter (λ p, ¬ (p.1 = projectID ∧ p.2 ∈ blobIDs)) (project_blob d))))
  end.

(** The digests a project's artifacts still reference. *)
Definition referenced (d : BlobDB) (projectID : Z) (digest : string) : Prop :=
  Exists (λ a, a.1 = projectID ∧ (a.2, digest) ∈ artifact_blob d) (artifacts d).
#[export] Instance referenced_dec d p g : Decision (referenced d p g).
Proof. unfold referenced. apply _. Defined.

Definition FindBlobsShouldUnassociatedWithProject (projectID : Z) (bs : list Blob)
    : M BlobDB (list Blob) :=
  match bs with
  | [] => mret []
  | _ =>
      _ ← FromContext;
      query (λ d, Ok (filter (λ b, ¬ referenced d projectID (Digest b)) bs))
  end.

Definition sum_sizes (l : list Blob) : Z := foldr (λ b acc, Size b + acc) 0 l.

(** The blobs joined with [project_blob] on a project. *)
Definition project_blobs (d : BlobDB) (projectID : Z) : list Blob :=
  filter (λ b, (projectID, ID b) ∈ project_blob d) ((map_to_list (blobs d)).*2).

Definition SumBlobsSizeByProject (projectID : Z) (excludeForeignLayer : bool) : M BlobDB Z :=
  _ ← FromContext;
  query (λ d, Ok (sum_sizes
    (filter (λ b, excludeForeignLayer = true → IsForeignLayer b = false) (project_blobs d projectID)))).

(** Blobs no project references and not touched within the window. *)
Definition GetBlobsNotRefedByProjectBlob (timeWindowHours : Z) : M BlobDB (list Blob) :=
  _ ← FromContext;
  query (λ d, Ok (filter (λ b,
      set_Forall (λ p, p.2 ≠ ID b) (project_blob d) ∧
      UpdateTime b <= now d - timeWindowHours * 3600)
    ((map_to_list (blobs d)).*2))).

Definition GetBlobsByArtDigest (digest : string) : M BlobDB (list Blob) :=
  _ ← FromContext;
  query (λ d, Ok (filter (λ b, (digest, Digest b) ∈ artifact_blob d) ((map_to_list (blobs d)).*2))).

(** A filter keyword that may be absent. *)
Definition when_given {A} (o : option A) (P : A → Prop) : Prop :=
  match o with Some x => P x | None => True end.
#[export] Instance when_given_dec {A} (o : option A) (P : A → Prop) `{!∀ x, Decision (P x)} :
  Decision (when_given o P).
Proof. destruct o; apply _. Defined.

(** [ListBlobs] with the filters the callers use: digests, project, artifact. *)
Definition ListBlobs (digests : list string) (projectID : option Z) (artifactDigest : option string)
    : M BlobDB (list Blob) :=
  _ ← FromContext;
  query (λ d, Ok (filter (λ b, Digest b ∈ digests ∧
      when_given projectID (λ p, (p, ID b) ∈ project_blob d) ∧
      when_given artifactDigest (λ a, (a, Digest b) ∈ artifact_blob d))
    ((map_to_list (blobs d)).*2))).

End dao.

(** ** [src/pkg/blob/manager.go] *)

Module manager.

Definition UpdateBlobStatus (b : Blob) : M BlobDB (Z * Blob) :=
  match StatusMap (Status b) with
  | None => fail (New ("cannot update blob status, as the status is unknown. digest: " +:+ Digest b))
  | Some _ => dao.UpdateBlobStatus b
  end.

Definition CleanupAssociationsForProject (projectID : Z) (bs : list Blob) : M BlobDB unit :=
  match bs with
  | [] => mret tt
  | _ =>
      shouldUnassociated ← dao.FindBlobsShouldUnassociatedWithProject projectID bs;
      dao.DeleteProjectBlob projectID (map ID shouldUnassociated)
  end.

End manager.

(** ** [src/controller/blob/controller.go] *)

Definition with_status (b : Blob) (s : BlobStatus) : Blob :=
  mkBlob (ID b) (Digest b) (ContentType b) (Size b) s (UpdateTime b) (Version b).

Definition Touch (b : Blob) : M BlobDB Blob :=
  '(count, b') ← manager.UpdateBlobStatus (with_status b StatusNone);
  if count =? 0
  then fail (WithCode (New ("no blob item is updated to StatusNone, id:" +:+ pretty (ID b)
                              +:+ ", digest:" +:+ Digest b)) NotFoundCode)
  else mret b'.

Definition Fail (b : Blob) : M BlobDB Blob :=
  '(count, b') ← manager.UpdateBlobStatus (with_status b StatusDeleteFailed);
  if count =? 0
  then fail (WithCode (New ("no blob item is updated to StatusDeleteFailed, id:" +:+ pretty (ID b)
                              +:+ ", digest:" +:+ Digest b)) NotFoundCode)
  else mret b'.

(** [Get] with its options: a zero project id and an empty artifact digest are
    no filter. *)
Definition Get (digest : string) (projectID : Z) (artifactDigest : string) : M BlobDB Blob :=
  if bool_decide (digest = EmptyString)
  then fail (WithMessage (WithCode (New EmptyString) BadRequestCode) "require digest")
  else
    bs ← dao.ListBlobs [digest]
           (if projectID =? 0 then None else Some projectID)
           (if bool_decide (artifactDigest = EmptyString) then None else Some artifactDigest);
    match bs with
    | [] => fail (WithMessage (NotFoundError None) ("blob " +:+ digest +:+ " not found"))
    | b :: _ => mret b
    end.

Definition Exist (digest : string) (projectID : Z) (artifactDigest : string) : M BlobDB bool :=
  if bool_decide (digest = EmptyString)
  then fail (WithMessage (BadRequestError None) "exist blob require digest")
  else
    r ← try (Get digest projectID artifactDigest);
    match r with
    | Ok _ => mret true
    | Err e => if IsNotFoundErr e then mret false else fail e
    end.

Definition Ensure (digest contentType : string) (size : Z) : M BlobDB Z :=
  r ← try (dao.GetBlobByDigest digest);
  match r with
  | Ok b => mret (ID b)
  | Err e => if IsNotFoundErr e then dao.CreateBlob digest contentType size else fail e
  end.

Fixpoint associate_all (blobDigests : list string) (artifactDigest : string) : M BlobDB unit :=
  match blobDigests with
  | [] => mret tt
  | g :: l => _ ← dao.CreateArtifactAndBlob artifactDigest g; associate_all l artifactDigest
  end.

Definition AssociateWithArtifact (blobDigests : list string) (artifactDigest : string) : M BlobDB unit :=
  found ← Exist artifactDigest 0 artifactDigest;
  if (found : bool) then mret tt
  else associate_all (blobDigests ++ [artifactDigest]) artifactDigest.

Definition AssociateWithProjectByID (blobID projectID : Z) : M BlobDB unit :=
  dao.CreateProjectBlob projectID blobID.

Definition AssociateWithProjectByDigest (blobDigest : string) (projectID : Z) : M BlobDB unit :=
  b ← dao.GetBlobByDigest blobDigest;
  dao.CreateProjectBlob projectID (ID b).

Definition FindMissingAssociationsForProject (projectID : Z) (bs : list Blob) : M BlobDB (list Blob) :=
  match bs with
  | [] => mret []
  | _ =>
      associatedBlobs ← dao.ListBlobs (map Digest bs) (Some projectID) None;
      if bool_decide (length associatedBlobs = 0%nat) then mret bs
      else if bool_decide (length associatedBlobs = length bs) then mret []
      else
        let associated := map Digest associatedBlobs in
        mret (filter (λ b, Digest b ∉ associated) bs)
  end.

(** A descriptor of a manifest's reference. *)
Record Descriptor := mkDescriptor { d_digest : string; d_mediaType : string; d_size : Z }.

Fixpoint update_all (l : list Blob) : M BlobDB unit :=
  match l with
  | [] => mret tt
  | b :: l => _ ← dao.UpdateBlob b; update_all l
  end.

Fixpoint create_all (l : list Descriptor) : M BlobDB unit :=
  match l with
  | [] => mret tt
  | r :: l => _ ← dao.CreateBlob (d_digest r) (d_mediaType r) (d_size r); create_all l
  end.

(** The digests of the blobs to update, the references to create, and the final
    map.  The map holds pointers: once a reference has changed the content type
    of a blob, later references to its digest and the list of blobs to update
    see the change. *)
Fixpoint sync_split (references : list Descriptor) (mp : gmap string Blob)
    : list string * list Descriptor * gmap string Blob :=
  match references with
  | [] => ([], [], mp)
  | r :: refs =>
      match mp !! d_digest r with
      | Some found =>
          if bool_decide (ContentType found ≠ d_mediaType r)
          then
            let b := mkBlob (ID found) (Digest found) (d_mediaType r) (Size found)
                       (Status found) (UpdateTime found) (Version found) in
            let '(upd, mis, mp') := sync_split refs (<[d_digest r := b]> mp) in
            (d_digest r :: upd, mis, mp')
          else sync_split refs mp
      | None =>
          let '(upd, mis, mp') := sync_split refs mp in (upd, r :: mis, mp')
      end
  end.

Definition Sync (references : list Descriptor) : M BlobDB unit :=
  match references with
  | [] => mret tt
  | _ =>
      bs ← dao.ListBlobs (map d_digest references) None None;
      let mp := foldl (λ m b, <[Digest b := b]> m) (∅ : gmap string Blob) bs in
      let '(updating, missing, mp') := sync_split references mp in
      _ ← (match updating with
           | [] => mret tt
           | _ => WithTransaction (update_all (omap (λ g, mp' !! g) updating))
           end);
      create_all missing
  end.

(** ** Status handling of HEAD and PUT requests:
    [src/server/middleware/blob/head_blob.go], [src/server/middleware/blob/util.go] *)

Definition seconds_of_hours (h : Z) : Z := h * 3600.

(** Seconds since the last update of the blob. *)
Definition age (b : Blob) : M BlobDB Z := λ w, (Ok (now (db w) - UpdateTime b), w).

Definition wrapf {D A} (msg : string) (m : M D A) : M D A := λ w,
  match m w with
  | (Ok a, w') => (Ok a, w')
  | (Err e, w') => (Err (default e (Wrap (Some e) msg)), w')
  end.

Definition handleHead (gcTimeWindow : Z) (requestID digest : string) : M BlobDB unit :=
  bb ← Get digest 0 EmptyString;
  match Status bb with
  | StatusNone | StatusDelete =>
      _ ← wrapf ("the request id is: " +:+ requestID) (Touch bb);
      mret tt
  | StatusDeleting =>
      a ← age bb;
      _ ← (if seconds_of_hours gcTimeWindow <? a
           then _ ← wrapf ("the request id is: " +:+ requestID) (Fail bb); mret tt
           else mret tt);
      fail (WithCode (New ("the asking blob is in GC, mark it as non existing, request id: "
                             +:+ requestID)) NotFoundCode)
  | StatusDeleteFailed =>
      fail (WithCode (New ("the asking blob is delete failed, mark it as non existing, request id: "
                             +:+ requestID)) NotFoundCode)
  | StatusOther s => fail (New ("wrong blob status, " +:+ s))
  end.

(** [probeBlob] calls itself after it marked the blob as failed.  [fuel] bounds
    the calls; [None] when it does not suffice. *)
Fixpoint probeBlob (fuel : nat) (gcTimeWindow : Z) (requestID digest : string)
    : M BlobDB (option unit) :=
  match fuel with
  | O => mret None
  | S fuel =>
      r ← try (Get digest 0 EmptyString);
      match r with
      | Err e => if IsNotFoundErr e then mret (Some tt) else fail e
      | Ok bb =>
          match Status bb with
          | StatusNone | StatusDelete | StatusDeleteFailed =>
              _ ← wrapf ("the request id is: " +:+ requestID) (Touch bb);
              mret (Some tt)
          | StatusDeleting =>
              a ← age bb;
              if seconds_of_hours gcTimeWindow <? a
              then
                _ ← wrapf ("the request id is: " +:+ requestID) (Fail bb);
                probeBlob fuel gcTimeWindow requestID digest
              else
                fail (WithCode (New ("the asking blob is in GC, mark it as non existing, request id: "
                                       +:+ requestID)) NotFoundCode)
          | StatusOther _ => mret (Some tt)
          end
      end
  end.

(** ** The invariant of the table: rows sit under their id, digests are unique,
    and the sequence is ahead of the ids. *)
Record blob_ok (d : BlobDB) : Prop := mk_blob_ok {
  bok_ids : ∀ i b, blobs d !! i = Some b → ID b = i;
  bok_digest : ∀ i j b c, blobs d !! i = Some b → blobs d !! j = Some c →
      Digest b = Digest c → i = j;
  bok_seq : ∀ i b, blobs d !! i = Some b → i <= blob_seq d;
}.

(** Replacing a row by one with the same id and digest keeps the invariant. *)
Lemma blob_ok_replace d i b b' :
  blob_ok d → blobs d !! i = Some b → ID b' = i → Digest b' = Digest b →
  blob_ok (set_blobs d (<[i := b']> (blobs d))).
Proof.
  intros [Hid Hdg Hs] Hb Hi Hd. split; simpl.
  - intros j c. rewrite lookup_insert_Some. intros [[<- <-]|[_ ?]]; eauto.
  - intros j k c e. rewrite !lookup_insert_Some.
    intros [[<- <-]|[Hn1 H1]] [[<- <-]|[Hn2 H2]] He; eauto.
    + eapply (Hdg i k b e); eauto; congruence.
    + eapply (Hdg j i c b); eauto; congruence.
  - intros j c. rewrite lookup_insert_Some. intros [[<- _]|[_ ?]]; eauto.
Qed.

Lemma find_digest_Some d g b :
  blob_ok d → find_digest g d = Some b → blobs d !! ID b = Some b ∧ Digest b = g.
Proof.
  intros Hok. unfold find_digest.
  destruct (filter _ _) as [|[i b'] l] eqn:E; [done|]. simpl. intros [= ->].
  assert (Hin : (i, b) ∈ filter (λ kb : Z * Blob, Digest kb.2 = g) (map_to_list (blobs d)))
    by (rewrite E; left).
  apply list_elem_of_filter in Hin as [Hg Hin]. apply elem_of_map_to_list in Hin.
  by rewrite (bok_ids d Hok _ _ Hin).
Qed.

Lemma find_digest_None d g :
  find_digest g d = None ↔ ∀ i b, blobs d !! i = Some b → Digest b ≠ g.
Proof.
  unfold find_digest. destruct (filter _ _) as [|[i b] l] eqn:E; simpl.
  - apply filter_nil_iff in E. rewrite Forall_map_to_list in E. split; [|done].
    intros _ i b Hb. apply (E i b Hb).
  - split; [done|]. intros H.
    assert (Hin : (i, b) ∈ filter (λ kb : Z * Blob, Digest kb.2 = g) (map_to_list (blobs d)))
      by (rewrite E; left).
    apply list_elem_of_filter in Hin as [Hg Hin]. apply elem_of_map_to_list in Hin.
    by destruct (H i b Hin).
Qed.

Lemma blob_ok_insert d n b :
  blob_ok d → n = blob_seq d + 1 → ID b = n → find_digest (Digest b) d = None →
  blob_ok (mkBlobDB (<[n := b]> (blobs d)) (project_blob d) (artifact_blob d) (artifacts d) n (now d)).
Proof.
  intros [Hid Hdg Hs] -> Hi Hf. rewrite find_digest_None in Hf. split; simpl.
  - intros j c. rewrite lookup_insert_Some. intros [[<- <-]|[_ ?]]; eauto.
  - intros j k c e. rewrite !lookup_insert_Some.
    intros [[<- <-]|[Hn1 H1]] [[<- <-]|[Hn2 H2]] He; eauto; exfalso.
    + apply (Hf _ _ H2). congruence.
    + apply (Hf _ _ H1). congruence.
  - intros j c. rewrite lookup_insert_Some. intros [[<- _]|[_ Hj]]; [lia|].
    specialize (Hs _ _ Hj). lia.
Qed.

(** ** Status updates *)

(** The life of a blob under garbage collection: in use, candidate, being
    deleted, deletion failed.  A blob being deleted can only become a failed one
    (or disappear with its row); only a candidate can start being deleted. *)
Inductive transition : BlobStatus → BlobStatus → Prop :=
  | touch : transition StatusNone StatusNone
  | revive : transition StatusDelete StatusNone
  | revive_failed : transition StatusDeleteFailed StatusNone
  | select : transition StatusNone StatusDelete
  | select_again : transition StatusDelete StatusDelete
  | select_failed : transition StatusDeleteFailed StatusDelete
  | start_delete : transition StatusDelete StatusDeleting
  | delete_fails : transition StatusDeleting StatusDeleteFailed.

Lemma StatusMap_transition s t : s ∈ default [] (StatusMap t) ↔ transition s t.
Proof.
  split.
  - destruct t; simpl; rewrite ?elem_of_cons, ?elem_of_nil; intros H; destruct_or?; subst; done || constructor.
  - intros []; simpl; set_solver.
Qed.

(** What a status update may do: nothing, or move one row along a transition and
    advance its version by one. *)
Inductive status_move (b : Blob) (d : BlobDB) : BlobDB → Prop :=
  | move_none : status_move b d d
  | move_row row :
      blobs d !! ID b = Some row → transition (Status row) (Status b) →
      (Status b ≠ StatusNone → Version row = Version b) →
      Version b <= Version row →
      status_move b d (set_blobs d
        (<[ID b := mkBlob (ID row) (Digest row) (ContentType row) (Size row)
                     (Status b) (now d) (Version row + 1)]> (blobs d))).

Lemma update_status_row_cases b d r d' :
  dao.update_status_row b d = (r, d') →
  (r = Err ErrNoRows ∧ d' = d) ∨
  ∃ row, blobs d !! ID b = Some row ∧ r = Ok (Version row + 1) ∧ status_move b d d' ∧ d' ≠ d ∧
    d' = set_blobs d (<[ID b := mkBlob (ID row) (Digest row) (ContentType row) (Size row)
                     (Status b) (now d) (Version row + 1)]> (blobs d)).
Proof.
  unfold dao.update_status_row. destruct (blobs d !! ID b) as [row|] eqn:Hr; [|naive_solver].
  destruct (_ && _) eqn:E; [|naive_solver]. intros [= <- <-]. right. exists row.
  apply andb_true_iff in E as [Ev Es]. apply bool_decide_eq_true in Es.
  assert (Hne : set_blobs d (<[ID b := mkBlob (ID row) (Digest row) (ContentType row) (Size row)
                     (Status b) (now d) (Version row + 1)]> (blobs d)) ≠ d).
  { intros Heq. assert (Hl : blobs d !! ID b = Some (mkBlob (ID row) (Digest row) (ContentType row)
      (Size row) (Status b) (now d) (Version row + 1))).
    { rewrite <- Heq at 1. simpl. by rewrite lookup_insert_eq. }
    rewrite Hr in Hl. injection Hl as Hl. apply (f_equal Version) in Hl. simpl in Hl. lia. }
  apply StatusMap_transition in Es. split_and!; try done. apply move_row; [done|done| |].
  - intros Hn. destruct (Status b); try done; lia.
  - destruct (Status b); lia.
Qed.

(** The outcome of [manager.UpdateBlobStatus], for every fault schedule. *)
Lemma UpdateBlobStatus_cases b w x w' :
  manager.UpdateBlobStatus b w = (x, w') →
  ((∃ e, x = Err e) ∨ x = Ok (0, b)) ∧ db w' = db w ∨
  ∃ row, blobs (db w) !! ID b = Some row ∧ status_move b (db w) (db w') ∧ db w' ≠ db w ∧
    db w' = set_blobs (db w) (<[ID b := mkBlob (ID row) (Digest row) (ContentType row) (Size row)
                     (Status b) (now (db w)) (Version row + 1)]> (blobs (db w))) ∧
    x = Ok (1, mkBlob (ID b) (Digest b) (ContentType b) (Size b) (Status b) (UpdateTime b)
                 (Version row + 1)).
Proof.
  unfold manager.UpdateBlobStatus. destruct (StatusMap (Status b)) eqn:Em.
  2:{ intros [= <- <-]. eauto. }
  intros H. unfold dao.UpdateBlobStatus in H. mbind_inv H.
  { apply FromContext_cases in Hm as [-> _]. eauto. }
  apply FromContext_cases in Hm as [-> _].
  apply bind_try_inv in H as (r & w1 & Hs & H).
  apply stmt_cases in Hs as [_ [(e & -> & Hd)|Hs]].
  - left. split.
    + destruct (AsNotFoundError e _); injection H as <- _; eauto.
    + destruct (AsNotFoundError e _); injection H as _ <-; done.
  - apply update_status_row_cases in Hs as [[-> Hd]|(row & Hrow & -> & Hmv & Hne & Hd)].
    + simpl in H. injection H as <- <-. eauto.
    + rewrite mret_eq in H. injection H as <- <-. right. eauto 10.
Qed.

Lemma status_move_ok b d d' : status_move b d d' → blob_ok d → blob_ok d'.
Proof.
  intros [|row Hr Hm Hs Hv] Hok; [done|]. eapply blob_ok_replace; eauto. simpl.
  by apply (bok_ids d Hok).
Qed.

(** ** Properties *)

(** Further property (invariant). Blob statuses only move along the transitions of the life of
    a blob under garbage collection, one row at a time, with the version advancing by exactly one: [UpdateBlobStatus] either
    reports count 1 after such a move, or reports 0 or an error and changes
    nothing; a target other than [StatusNone] moves only the version the caller
    holds.  For every fault schedule. *)
Theorem UpdateBlobStatus_follows_StatusMap b w x w' :
  blob_ok (db w) → manager.UpdateBlobStatus b w = (x, w') →
  blob_ok (db w') ∧ status_move b (db w) (db w') ∧
  (db w' = db w ↔ ∀ b', x ≠ Ok (1, b')) ∧
  (∀ b', x = Ok (1, b') → ∃ row, blobs (db w) !! ID b = Some row ∧ Version b' = Version row + 1).
Proof.
  intros Hok H. apply UpdateBlobStatus_cases in H as [[Hx Hd]|(row & Hr & Hmv & Hne & Hd & ->)].
  - rewrite Hd. split_and!; [done|constructor| |]; [split; [|done]|]; destruct Hx as [[e ->]| ->]; done.
  - split_and!; [by eapply status_move_ok|done| |].
    + split; [done|]. intros Hx. by destruct (Hx _ eq_refl).
    + intros b' [= <-]. eauto.
Qed.

Definition ex_blob (s : BlobStatus) (v : Z) : Blob :=
  mkBlob 1 "sha256:aa" "application/octet-stream" 10 s 0 v.
Definition ex_blob_db (s : BlobStatus) (v : Z) : BlobDB :=
  mkBlobDB (<[1 := ex_blob s v]> ∅) ∅ ∅ [] 1 100.

Lemma ex_blob_db_ok s v : blob_ok (ex_blob_db s v).
Proof.
  apply (blob_ok_insert (mkBlobDB ∅ ∅ ∅ [] 0 100) 1 (ex_blob s v)); try done.
Qed.

Lemma UpdateBlobStatus_follows_StatusMap_witness :
  let w := mkWorld (ex_blob_db StatusDelete 3) true [] in
  let x := manager.UpdateBlobStatus (ex_blob StatusDeleting 3) w in
  is_ok (fst x) = true ∧ status_move (ex_blob StatusDeleting 3) (db w) (db (snd x)).
Proof.
  intros w x. split; [vm_compute; reflexivity|].
  exact (proj1 (proj2 (UpdateBlobStatus_follows_StatusMap (ex_blob StatusDeleting 3) w _ _
    (ex_blob_db_ok _ _) (surjective_pairing x)))).
Defined.

(** ** Missing associations *)

(** The project references a blob with this digest. *)
Definition associated (d : BlobDB) (projectID : Z) (digest : string) : Prop :=
  Exists (λ b, Digest b = digest ∧ (projectID, ID b) ∈ project_blob d) ((map_to_list (blobs d)).*2).
#[export] Instance associated_dec d p g : Decision (associated d p g).
Proof. unfold associated. apply _. Defined.

Lemma blobs_digests_NoDup d (P : Blob → Prop) `{!∀ b, Decision (P b)} :
  blob_ok d → NoDup (map Digest (filter P ((map_to_list (blobs d)).*2))).
Proof.
  intros Hok.
  assert (Hnd : NoDup ((map_to_list (blobs d)).*2)).
  { apply NoDup_fmap_2_strong; [|apply NoDup_map_to_list].
    intros [i b] [j c] Hi Hj He. simpl in He. subst c. apply elem_of_map_to_list in Hi, Hj.
    rewrite <- (bok_ids d Hok _ _ Hi), <- (bok_ids d Hok _ _ Hj). done. }
  apply (NoDup_fmap_2_strong Digest); [|by apply NoDup_filter].
  intros b c Hb Hc He. apply list_elem_of_filter in Hb as [_ Hb], Hc as [_ Hc].
  apply list_elem_of_fmap in Hb as ([i b'] & -> & Hb), Hc as ([j c'] & -> & Hc).
  apply elem_of_map_to_list in Hb, Hc. simpl in *.
  assert (i = j) as -> by (by eapply (bok_digest d Hok)). congruence.
Qed.

Lemma NoDup_subset_length_eq (l k : list string) :
  NoDup l → (∀ x, x ∈ l → x ∈ k) → length l = length k → ∀ x, x ∈ k → x ∈ l.
Proof.
  intros Hnd Hsub Hlen x Hx. apply list_elem_of_In.
  apply (List.NoDup_length_incl (l := l) (l' := k)); [by apply NoDup_ListNoDup|lia| |by apply list_elem_of_In].
  intros y Hy. apply list_elem_of_In, Hsub, list_elem_of_In, Hy.
Qed.

(** Further property (equivalence). With its two shortcuts, [FindMissingAssociationsForProject]
    computes the blobs of the list whose digest the project does not reference
    yet, in order. *)
Theorem FindMissing_correct projectID bs w l w' :
  blob_ok (db w) →
  FindMissingAssociationsForProject projectID bs w = (Ok l, w') →
  l = filter (λ b, ¬ associated (db w) projectID (Digest b)) bs ∧ db w' = db w.
Proof.
  intros Hok H. unfold FindMissingAssociationsForProject in H.
  destruct bs as [|b0 bs0] eqn:Ebs; [by injection H as <- <-|]. rewrite <- Ebs in *. clear Ebs b0 bs0.
  mbind_inv H. unfold dao.ListBlobs in Hm. mbind_inv Hm. apply FromContext_cases in Hm0 as [-> _].
  apply query_cases in Hm as (Hd & _ & [[e Hq]|Hq]); [done|]. injection Hq as Hq.
  set (L := filter _ _) in Hq.
  assert (HL : ∀ b, b ∈ bs → Digest b ∈ map Digest L ↔ associated (db w) projectID (Digest b)).
  { intros b Hb. unfold associated. rewrite Exists_exists. split.
    - intros Hin. apply list_elem_of_fmap in Hin as (c & Hc & Hin).
      apply list_elem_of_filter in Hin as [(_ & Hp & _) Hin]. exists c. done.
    - intros (c & Hin & Hc & Hp). apply list_elem_of_fmap. exists c. split; [done|].
      apply list_elem_of_filter. split; [|done]. split; [|done].
      apply list_elem_of_fmap. exists b. done. }
  subst a. destruct (bool_decide (length L = 0%nat)) eqn:E0.
  { apply bool_decide_eq_true in E0. apply nil_length_inv in E0. rewrite mret_eq in H.
    injection H as <- <-. split; [|done]. symmetry. apply filter_all.
    apply Forall_forall. intros b Hb. rewrite <- HL by done. rewrite E0. simpl. apply not_elem_of_nil. }
  destruct (bool_decide (length L = length bs)) eqn:E1.
  { apply bool_decide_eq_true in E1. rewrite mret_eq in H. injection H as <- <-. split; [|done].
    symmetry. apply filter_nil_iff. apply Forall_forall. intros b Hb Hn. apply Hn, HL; [done|].
    apply (NoDup_subset_length_eq _ (map Digest bs)).
    - by apply blobs_digests_NoDup.
    - intros g Hg. apply list_elem_of_fmap in Hg as (c & -> & Hc).
      by apply list_elem_of_filter in Hc as [(? & _) _].
    - by rewrite !length_map.
    - apply list_elem_of_fmap. eauto. }
  rewrite mret_eq in H. injection H as <- <-. split; [|done].
  apply filter_ext_in. intros b Hb. by rewrite HL.
Qed.

Lemma FindMissing_correct_witness :
  let w := mkWorld (ex_blob_db StatusNone 0) true [] in
  let bs := [ex_blob StatusNone 0] in
  is_ok (fst (FindMissingAssociationsForProject 7 bs w)) = true ∧
  ∀ l w', FindMissingAssociationsForProject 7 bs w = (Ok l, w') → db w' = db w.
Proof.
  intros w bs. split; [vm_compute; reflexivity|]. intros l w' H.
  exact (proj2 (FindMissing_correct 7 bs w l w' (ex_blob_db_ok _ _) H)).
Defined.

(** ** Requests for a blob *)

Lemma Get_ok g p a w b w' :
  blob_ok (db w) → Get g p a w = (Ok b, w') →
  db w' = db w ∧ blobs (db w) !! ID b = Some b ∧ Digest b = g.
Proof.
  intros Hok H. unfold Get in H. destruct (bool_decide _); [done|].
  mbind_inv H. unfold dao.ListBlobs in Hm. mbind_inv Hm. apply FromContext_cases in Hm0 as [-> _].
  apply query_cases in Hm as (Hd & _ & [[e Hq]|Hq]); [done|]. injection Hq as ->.
  destruct (filter _ _) as [|c l] eqn:E; [done|]. rewrite mret_eq in H. injection H as -> <-.
  match type of E with ?f = _ => assert (Hin : b ∈ f) by (rewrite E; left) end.
  apply list_elem_of_filter in Hin as [(Hg & _) Hin].
  apply list_elem_of_singleton in Hg. apply list_elem_of_fmap in Hin as ([i c] & -> & Hin).
  apply elem_of_map_to_list in Hin. simpl in *. by rewrite (bok_ids _ Hok _ _ Hin).
Qed.

Lemma Get_reads g p a w x w' : Get g p a w = (x, w') → db w' = db w.
Proof.
  unfold Get. destruct (bool_decide _); [by intros [= <- <-]|].
  intros H. mbind_inv H; unfold dao.ListBlobs in Hm.
  - mbind_inv Hm; [by apply FromContext_cases in Hm0 as [-> _]|].
    apply FromContext_cases in Hm0 as [-> _]. by apply query_cases in Hm as (? & _).
  - mbind_inv Hm. apply FromContext_cases in Hm0 as [-> _]. apply query_cases in Hm as (Hd & _).
    destruct a0; by injection H as <- <-.
Qed.

(** The row of the blob after a status update that reported success. *)
Lemma Touch_ok b w b' w' :
  blob_ok (db w) → Touch b w = (Ok b', w') →
  blob_ok (db w') ∧ ∃ row, blobs (db w) !! ID b = Some row ∧ Status row ≠ StatusDeleting ∧
    blobs (db w') !! ID b = Some (mkBlob (ID row) (Digest row) (ContentType row) (Size row)
                                  StatusNone (now (db w)) (Version row + 1)).
Proof.
  intros Hok H. unfold Touch in H. mbind_inv H. destruct a as [c b1].
  apply UpdateBlobStatus_cases in Hm as [[[[e [=]]|[= -> ->]] _]|(row & Hr & Hmv & _ & Hd & [= -> ->])];
    simpl in H; [done|].
  rewrite mret_eq in H. injection H as <- <-. split; [by eapply status_move_ok|].
  exists row. split; [done|]. split.
  - inversion Hmv as [Heq|row' Hr' Hs _ _ Heq]; simpl in *.
    + intros Hst. rewrite <- Heq in Hd. apply (f_equal (λ d, blobs d !! ID b)) in Hd. simpl in Hd.
      rewrite lookup_insert_eq, Hr in Hd. injection Hd as Hd. apply (f_equal Version) in Hd.
      simpl in Hd. lia.
    + rewrite Hr in Hr'. injection Hr' as <-. intros He. rewrite He in Hs. inversion Hs.
  - rewrite Hd. simpl. by rewrite lookup_insert_eq.
Qed.

Lemma Fail_ok b w b' w' :
  blob_ok (db w) → Fail b w = (Ok b', w') →
  blob_ok (db w') ∧ ∃ row, blobs (db w) !! ID b = Some row ∧
    blobs (db w') !! ID b = Some (mkBlob (ID row) (Digest row) (ContentType row) (Size row)
                                  StatusDeleteFailed (now (db w)) (Version row + 1)).
Proof.
  intros Hok H. unfold Fail in H. mbind_inv H. destruct a as [c b1].
  apply UpdateBlobStatus_cases in Hm as [[[[e [=]]|[= -> ->]] _]|(row & Hr & Hmv & _ & Hd & [= -> ->])];
    simpl in H; [done|].
  rewrite mret_eq in H. injection H as <- <-. split; [by eapply status_move_ok|].
  exists row. split; [done|]. rewrite Hd. simpl. by rewrite lookup_insert_eq.
Qed.

Lemma wrapf_ok {D A} msg (m : M D A) w a w' : wrapf msg m w = (Ok a, w') → m w = (Ok a, w').
Proof. unfold wrapf. destruct (m w) as [[]]; intros; by simplify_eq. Qed.

(** Further property (safety). A HEAD request that is let through has brought the blob back
    into use: its row is [StatusNone] with a version above the one it had, so a
    garbage collection that marked it before cannot delete it; a blob under
    deletion is never let through.  For every fault schedule. *)
Theorem handleHead_revives win rid g w w' :
  blob_ok (db w) → handleHead win rid g w = (Ok tt, w') →
  ∃ b b', blobs (db w) !! ID b = Some b ∧ Digest b = g ∧ Status b ≠ StatusDeleting ∧
    blobs (db w') !! ID b = Some b' ∧ Digest b' = g ∧ Status b' = StatusNone ∧
    Version b' = Version b + 1.
Proof.
  intros Hok H. unfold handleHead in H. mbind_inv H.
  apply Get_ok in Hm as (Hd & Hb & Hg); [|done].
  destruct (Status a) eqn:Es; try done.
  3:{ mbind_inv H. mbind_inv H. done. }
  all: mbind_inv H; rewrite mret_eq in H; injection H as <-; apply wrapf_ok in Hm;
    rewrite <- Hd in Hok; apply Touch_ok in Hm as (_ & row & Hr & Hns & Hr'); [|done];
    rewrite Hd in Hr; rewrite Hb in Hr; injection Hr as <-;
    exists a; eexists; split_and!; try done; congruence.
Qed.

Lemma handleHead_revives_witness :
  let w := mkWorld (ex_blob_db StatusDelete 3) true [] in
  let x := handleHead 2 "r1" "sha256:aa" w in
  ∃ b', blobs (db (snd x)) !! 1 = Some b' ∧ Status b' = StatusNone.
Proof.
  intros w x.
  destruct (handleHead_revives 2 "r1" "sha256:aa" w (snd x) (ex_blob_db_ok _ _)) as
    (b & b' & Hb & _ & _ & Hb' & _ & Hs & _); [vm_compute; reflexivity|].
  unfold w, ex_blob_db in Hb. simpl in Hb. rewrite lookup_insert_Some, lookup_empty in Hb.
  destruct Hb as [[Hi _]|[_ [=]]]. exists b'. rewrite Hi. auto.
Defined.

(** Further property (termination). [probeBlob] calls itself at most once: two calls always
    settle the request, whatever the state and the faults. *)
Theorem probeBlob_terminates n win rid g w :
  blob_ok (db w) → fst (probeBlob (S (S n)) win rid g w) ≠ Ok None.
Proof.
  assert (Htouch : ∀ b m w, fst ((wrapf m (Touch b) ≫= λ _, mret (Some tt)) w) ≠ Ok (None : option unit)).
  { intros b m w1. rewrite bind_eq. by destruct (wrapf m (Touch b) w1) as [[]]. }
  intros Hok. simpl probeBlob. rewrite bind_eq. unfold try at 1.
  destruct (Get g 0 EmptyString w) as [[bb|e] w1] eqn:E1; [|by destruct (IsNotFoundErr e)].
  apply Get_ok in E1 as (Hd1 & Hb & Hg); [|done].
  destruct (Status bb) eqn:Es; try apply Htouch; [|done].
  rewrite bind_eq. simpl. destruct (_ <? _); [|done].
  rewrite bind_eq. destruct (wrapf _ (Fail bb) w1) as [[b1|e1] w2] eqn:E2; [|done].
  apply wrapf_ok, Fail_ok in E2 as (Hok2 & row & Hr & Hr2); [|by rewrite Hd1].
  rewrite Hd1, Hb in Hr. injection Hr as <-.
  rewrite bind_eq. unfold try at 1.
  destruct (Get g 0 EmptyString w2) as [[b3|e3] w3] eqn:E3; [|by destruct (IsNotFoundErr e3)].
  apply Get_ok in E3 as (Hd3 & Hb3 & Hg3); [|done].
  assert (ID b3 = ID bb) as Hid.
  { eapply (bok_digest _ Hok2); eauto. simpl. congruence. }
  rewrite Hid, Hr2 in Hb3. injection Hb3 as <-. simpl Status. apply Htouch.
Qed.

Lemma probeBlob_terminates_witness :
  let w := mkWorld (ex_blob_db StatusDeleting 3) true [] in
  fst (probeBlob 2 0 "r1" "sha256:aa" w) ≠ Ok None ∧
  is_ok (fst (probeBlob 2 0 "r1" "sha256:aa" w)) = true.
Proof.
  intros w. split; [|vm_compute; reflexivity].
  exact (probeBlob_terminates 0 0 "r1" "sha256:aa" w (ex_blob_db_ok _ _)).
Defined.
