(* ===== verification/QuotaMiddleware.v ===== *)
(** * Quota enforcement on requests: [src/server/middleware/quota],
    [src/controller/quota/driver/project/project.go], and the bookkeeping of
    [src/server/middleware/blob] that follows a successful push

    A middleware decides which resources a request needs, reserves them through
    the quota controller around the next handler, and turns the outcome into a
    reply and notification events.  The next handler is a total function on the
    state that returns an HTTP status.  Parsing of URLs and manifests, the
    project lookup, the artifact controller and the accepted sizes in Redis are
    parameters. *)

From S2P Require Import Prelude QuotaFormat GoErrors GoStrings Orm Retry QuotaTypes QuotaStore QuotaCtl BlobStore.
From Stdlib Require Import Ascii.
Open Scope Z_scope.

(** ** [src/controller/quota/driver/project/project.go] *)

Module project.

(** The configuration manager, as the values it returns. *)
Record Config := mkConfig { cfg_Load : option error; QuotaPerProjectEnable : bool; StoragePerProject : Z }.

Section driver.
Context (cfg : Config) (blobdb : BlobDB).

Definition Enabled (key : string) : M QuotaDB bool :=
  match cfg_Load cfg with Some e => fail e | None => mret (QuotaPerProjectEnable cfg) end.

(** A failed load is only logged. *)
Definition HardLimits : M QuotaDB ResourceList := mret {[ ResourceStorage := StoragePerProject cfg ]}.

(** The first offending entry decides the error; Go's map order is unspecified,
    so only whether there is an error is meaningful. *)
Definition Validate (hardLimits : ResourceList) : option error :=
  match filter (λ kv, kv.1 ≠ ResourceStorage ∨ (kv.2 <= 0 ∧ kv.2 ≠ UNLIMITED)) (map_to_list hardLimits) with
  | (resource, _) :: _ =>
      Some (PlainError (if bool_decide (resource = ResourceStorage)
                        then "invalid value for resource " +:+ resource
                        else "resource " +:+ resource +:+ " not support"))
  | [] =>
      match hardLimits !! ResourceStorage with
      | None => Some (PlainError ("resource " +:+ ResourceStorage +:+ " not found"))
      | Some _ => None
      end
  end.

(** The blobs of the project, foreign layers excluded. *)
Definition usage (d : BlobDB) (projectID : Z) : Z :=
  dao.sum_sizes (filter (λ b, IsForeignLayer b = false) (dao.project_blobs d projectID)).

Definition CalculateUsage (key : string) : M QuotaDB ResourceList :=
  match ParseInt key with
  | None => fail (PlainError ("strconv.ParseInt: parsing " +:+ key))
  | Some projectID => query (λ _, Ok {[ ResourceStorage := usage blobdb projectID ]})
  end.

Definition driver : Driver := mkDriver Enabled HardLimits Validate CalculateUsage.

#[export] Instance driver_ok : DriverOk driver.
Proof.
  split. intros key w r w' H. simpl in H. unfold CalculateUsage in H.
  destruct (ParseInt key); [|by injection H as _ <-]. by apply query_cases in H as (? & ? & _).
Qed.
End driver.
End project.

(** ** [src/controller/quota/util.go] *)

Definition ProjectReference : string := "project".
Definition ReferenceID_of (projectID : Z) : string := pretty projectID.

(** ** [src/server/middleware/quota/quota.go] *)

Inductive reply := PassThrough | ErrorReply (e : error).

(** [Ev]: the notification events. *)
Record RequestConfig (Ev : Type) := mkRequestConfig {
  ReferenceObject : option (M QuotaDB (string * string));
  Resources : option (string → string → M QuotaDB (option ResourceList));
  ResourcesWarningPercent : Z;
  ResourcesWarning : option (string → string → string → Ev);
  ResourcesExceeded : option (string → string → string → Ev);
}.
Arguments ReferenceObject {Ev}.
Arguments Resources {Ev}.
Arguments ResourcesWarningPercent {Ev}.
Arguments ResourcesWarning {Ev}.
Arguments ResourcesExceeded {Ev}.

Definition isSuccess (statusCode : Z) : bool := (200 <=? statusCode) && (statusCode <? 400).

Definition run {D A} (f : World D → A * World D) : M D A :=
  λ w, let '(a, w') := f w in (Ok a, w').

Section middleware.
Context {Ev : Type} (drivers : gmap string Driver) (budget : nat) (config : RequestConfig Ev)
  (next : World QuotaDB → Z * World QuotaDB).

Definition warning_percent : Z :=
  if ResourcesWarningPercent config =? 0 then 85 else ResourcesWarningPercent config.

Definition warning_part (used hardLimits : ResourceList) (resource : string) : string :=
  "resource " +:+ resource +:+ " used " +:+ format_or_empty resource (get0 used resource)
    +:+ " of " +:+ format_or_empty resource (get0 hardLimits resource).

(** Every failure is logged and ends the notification. *)
Definition tryWarningNotification (reference' referenceID : string)
    (ev : string → string → string → Ev) : M QuotaDB (list Ev) :=
  r ← try (QuotaStore.manager.GetByRef reference' referenceID);
  match r with
  | Err _ => mret []
  | Ok q =>
      match GetWarningResources q warning_percent with
      | Err _ => mret []
      | Ok [] => mret []
      | Ok resources =>
          let hardLimits := match GetHard q with Ok h => h | Err _ => ∅ end in
          let used := match GetUsed q with Ok u => u | Err _ => ∅ end in
          let message := "quota usage reach " +:+ pretty warning_percent +:+ "%: "
                           +:+ strings_Join (map (warning_part used hardLimits) resources) "; " in
          mret [ev reference' referenceID message]
      end
  end.

Definition is_non_success (e : error) : bool := match e with ErrNonSuccess => true | _ => false end.

(** The reply to a failed request, and its event. *)
Definition exceeded_events (reference' referenceID : string) (err : error) : list Ev :=
  match ResourcesExceeded config with
  | Some ev =>
      match AsQuotaErrors err with
      | Some errs =>
          match Exceeded errs with
          | Some ex => [ev reference' referenceID (error_string (QuotaErrors ex))]
          | None => []
          end
      | None => []
      end
  | None => []
  end.

Definition error_reply (err : error) : reply :=
  match AsQuotaErrors err with
  | Some errs => ErrorReply (WithMessage (DeniedError None) (error_string (QuotaErrors errs)))
  | None => ErrorReply err
  end.

Definition serve_next : M QuotaDB (reply * list Ev) :=
  _ ← run next;
  mret (PassThrough, []).

Definition request_with (reference' referenceID : string) (resources : ResourceList)
    : M QuotaDB (reply * list Ev) :=
  err ← try (Request budget reference' referenceID resources
               (statusCode ← run next;
                if isSuccess statusCode then mret tt else fail ErrNonSuccess));
  match err with
  | Ok _ =>
      match ResourcesWarning config with
      | Some ev => evs ← tryWarningNotification reference' referenceID ev; mret (PassThrough, evs)
      | None => mret (PassThrough, [])
      end
  | Err e =>
      if is_non_success e then mret (PassThrough, [])
      else mret (error_reply e, exceeded_events reference' referenceID e)
  end.

Definition RequestMiddleware : M QuotaDB (reply * list Ev) :=
  match ReferenceObject config, Resources config with
  | Some refobj, Some resources_of =>
      r ← try refobj;
      match r with
      | Err e => mret (ErrorReply e, [])
      | Ok (reference', referenceID) =>
          r ← try (IsEnabled drivers reference' referenceID);
          match r with
          | Err e => mret (ErrorReply e, [])
          | Ok false => serve_next
          | Ok true =>
              r ← try (resources_of reference' referenceID);
              match r with
              | Err e => mret (ErrorReply e, [])
              | Ok rs =>
                  let resources := default ∅ rs in
                  if bool_decide (size resources = 0%nat) then serve_next
                  else request_with reference' referenceID resources
              end
          end
      end
  | _, _ => mret (ErrorReply (PlainError "invald config the for middleware"), [])
  end.

End middleware.

Section refresh_middleware.
Context (drivers : gmap string Driver) (budget : nat).

(** [RefreshMiddleware]: the error of the response hook, [None] for nil. *)
Definition RefreshMiddleware (ignoreLimitation : bool) (refobj : option (M QuotaDB (string * string)))
    (fromRetentionJob : bool) (statusCode : Z) : M QuotaDB unit :=
  if negb (isSuccess statusCode) then mret tt
  else
    match refobj with
    | None => fail (PlainError "invald config the for middleware")
    | Some refobj =>
        '(reference', referenceID) ← refobj;
        enabled ← IsEnabled drivers reference' referenceID;
        if negb enabled then mret tt
        else if fromRetentionJob then mret tt
        else
          r ← try (Refresh drivers budget reference' referenceID ignoreLimitation);
          match r with
          | Ok _ => mret tt
          | Err err =>
              match AsQuotaErrors err with
              | Some errs => fail (WithMessage (DeniedError None) (error_string (QuotaErrors errs)))
              | None => fail err
              end
          end
    end.

(** [RefreshForProjects]: create missing quotas, then refresh ignoring limits;
    failures of one project are logged. *)
Fixpoint refresh_projects (d : Driver) (l : list (result Z)) : M QuotaDB unit :=
  match l with
  | [] => mret tt
  | Err _ :: l => refresh_projects d l
  | Ok projectID :: l =>
      let referenceID := ReferenceID_of projectID in
      r ← try (QuotaStore.manager.GetByRef ProjectReference referenceID);
      go ← (match r with
            | Ok _ => mret true
            | Err e =>
                if IsNotFoundErr e
                then
                  hard ← HardLimits d;
                  c ← try (QuotaStore.manager.Create ProjectReference referenceID hard []);
                  mret (is_ok c)
                else mret false
            end);
      _ ← (if (go : bool)
           then _ ← try (Refresh drivers budget ProjectReference referenceID true); mret tt
           else mret tt);
      refresh_projects d l
  end.

Definition RefreshForProjects (l : list (result Z)) : M QuotaDB unit :=
  d ← getDriver drivers ProjectReference;
  refresh_projects d l.

End refresh_middleware.

(** ** What a request asks for *)

Definition storage (size : Z) : ResourceList := {[ ResourceStorage := size ]}.

(** [projectID, _ := strconv.ParseInt(referenceID, 10, 64)] *)
Definition project_of (referenceID : string) : Z := ParseInt_value referenceID.

Definition MANIFESTINVALID : string := "MANIFEST_INVALID".

(** The blob of a reference, as the code builds it. *)
Definition ref_blob (r : Descriptor) : Blob :=
  mkBlob 0 (d_digest r) (d_mediaType r) (d_size r) (StatusOther EmptyString) 0 0.

Definition add_sizes (size : Z) (bs : list Blob) : Z :=
  foldl (λ acc b, if IsForeignLayer b then acc else wrap64 (acc + Size b)) size bs.

(** [src/server/middleware/quota/put_manifest.go]: the unmarshalled manifest's
    references and its descriptor. *)
Definition putManifestResources (manifest : result (list Descriptor * Descriptor)) (referenceID : string)
    : M BlobDB (option ResourceList) :=
  let projectID := project_of referenceID in
  match manifest with
  | Err e => fail (WithCode (default e (Wrap (Some e) "unmarshal manifest failed")) MANIFESTINVALID)
  | Ok (references, descriptor) =>
      exist ← Exist (d_digest descriptor) projectID EmptyString;
      if (exist : bool) then mret None
      else
        missing ← FindMissingAssociationsForProject projectID (map ref_blob references);
        mret (Some (storage (add_sizes (d_size descriptor) missing)))
  end.

(** [src/server/middleware/quota/put_blob_upload.go]: the Content-Length header
    and the size accepted for the upload session. *)
Definition blob_size (contentLength : string) (accepted : M BlobDB Z) : M BlobDB Z :=
  match ParseInt contentLength with
  | Some size => if size =? 0 then accepted else mret size
  | None => accepted
  end.

Definition putBlobUploadResources (contentLength : string) (accepted : M BlobDB Z)
    (digest referenceID : string) : M BlobDB (option ResourceList) :=
  size ← blob_size contentLength accepted;
  if size =? 0 then mret None
  else
    exist ← Exist digest (project_of referenceID) EmptyString;
    if (exist : bool) then mret None else mret (Some (storage size)).

(** [src/server/middleware/quota/post_initiate_blob_upload.go] *)
Definition postInitiateBlobUploadResources (mount referenceID : string) : M BlobDB (option ResourceList) :=
  if bool_decide (mount = EmptyString) then mret None
  else
    r ← try (Get mount 0 EmptyString);
    match r with
    | Err e => if IsNotFoundErr e then mret None else fail e
    | Ok blb =>
        exist ← Exist (Digest blb) (project_of referenceID) EmptyString;
        if (exist : bool) then mret None else mret (Some (storage (Size blb)))
    end.

(** [src/server/middleware/quota/copy_artifact.go]: the artifact the [from]
    parameter names, and the digests of the walk over it. *)
Record Artifact := mkArtifact { a_ProjectID : Z; a_RepositoryName : string }.

Definition list_artifact_blobs (digests : list string) : M BlobDB (list Blob) :=
  _ ← FromContext;
  query (λ d, Ok (filter (λ b, Exists (λ a, (a, Digest b) ∈ artifact_blob d) digests)
    ((map_to_list (blobs d)).*2))).

Definition copyArtifactResources (from : string) (parsed : bool) (art : result Artifact)
    (walk : result (list string)) (repositoryName referenceID : string) : M BlobDB (option ResourceList) :=
  if bool_decide (from = EmptyString) then mret None
  else if negb parsed then mret None
  else
    match art with
    | Err e =>
        if IsNotFoundErr e
        then fail (WithMessage (BadRequestError None) ("artifact " +:+ from +:+ " not found"))
        else fail e
    | Ok art =>
        let projectID := project_of referenceID in
        if (a_ProjectID art =? projectID) && bool_decide (a_RepositoryName art = repositoryName)
        then mret None
        else
          match walk with
          | Err e => fail e
          | Ok digests =>
              allBlobs ← list_artifact_blobs digests;
              missing ← FindMissingAssociationsForProject projectID allBlobs;
              mret (Some (storage (add_sizes 0 missing)))
          end
    end.

(** ** The bookkeeping after a successful push:
    [src/server/middleware/blob/put_blob_upload.go],
    [src/server/middleware/blob/put_manifest.go] *)

Definition putBlobUpload_after (statusCode : Z) (contentLength : string) (accepted : M BlobDB Z)
    (project : result Z) (digest : string) : M BlobDB unit :=
  if negb (statusCode =? 201) then mret tt
  else WithTransaction (
    size ← blob_size contentLength accepted;
    projectID ← of_result project;
    blobID ← Ensure digest "application/octet-stream" size;
    AssociateWithProjectByID blobID projectID).

Fixpoint associate_references (l : list Descriptor) (projectID : Z) : M BlobDB unit :=
  match l with
  | [] => mret tt
  | r :: l => _ ← AssociateWithProjectByDigest (d_digest r) projectID; associate_references l projectID
  end.

Definition putManifest_after (statusCode : Z) (project : result Z) (contentType : string)
    (manifest : result (list Descriptor * Descriptor)) : M BlobDB unit :=
  if negb (statusCode =? 201) then mret tt
  else
    projectID ← of_result project;
    '(references, descriptor) ← of_result manifest;
    _ ← Sync references;
    _ ← associate_references references projectID;
    blobID ← Ensure (d_digest descriptor) contentType (d_size descriptor);
    _ ← AssociateWithProjectByID blobID projectID;
    AssociateWithArtifact (map d_digest references) (d_digest descriptor).

(** [src/server/middleware/blob/patch_blob_upload.go]: the size in the Range
    header of the registry's answer. *)
Fixpoint after_dash (s : string) : option string :=
  match s with
  | EmptyString => None
  | String c s => if bool_decide (c = "-"%char) then Some s else after_dash s
  end.

Definition parseAcceptedBlobSize (rangeHeader : string) : result Z :=
  if bool_decide (rangeHeader = EmptyString) then Err (PlainError "range header required")
  else
    match after_dash rangeHeader with
    | None => Err (PlainError ("range header bad value: " +:+ rangeHeader))
    | Some s =>
        match ParseInt s with
        | None => Err (PlainError ("strconv.ParseInt: parsing " +:+ s))
        | Some size => Ok (if 0 <? size then wrap64 (size + 1) else size)
        end
    end.

(** ** Enforcement *)

(** Further property (safety). A request whose resources do not fit is answered with a DENIED
    error without running the next handler: the quota tables are as before, and
    the exceeded event is sent exactly when one is configured and some resource
    is over its limit. *)
Theorem RequestMiddleware_denies {Ev} (config : RequestConfig Ev) drivers n next d r i resources_of
    resources dr h u hard' used' err :
  db_ok d → ReferenceObject config = Some (mret (r, i)) → Resources config = Some resources_of →
  drivers !! r = Some dr → Enabled dr i (mkWorld d true []) = (Ok true, mkWorld d true []) →
  resources_of r i (mkWorld d true []) = (Ok (Some resources), mkWorld d true []) →
  size resources ≠ 0%nat →
  read_quota_by_ref r i d = Ok h → read_usage_by_ref r i d = Ok u →
  NewResourceList (Row.hard h) = Ok hard' → NewResourceList (Row.used u) = Ok used' →
  IsSafe hard' used' (Add used' resources) false = Some err →
  ∃ e evs, RequestMiddleware drivers (S n) config next (mkWorld d true [])
      = (Ok (ErrorReply e, evs), mkWorld d true []) ∧ ErrCode e = DENIED ∧
    (evs ≠ [] ↔ is_Some (ResourcesExceeded config) ∧ ∃ errs, err = QuotaErrors errs ∧ is_Some (Exceeded errs)).
Proof.
  intros Hok Href Hres Hdr Hen Hrs Hsz Hh Hu Hhard Hused Hsafe.
  pose proof Hsafe as Hs'. apply IsSafe_Some in Hs' as (errs & -> & _ & _).
  unfold RequestMiddleware. rewrite Href, Hres. rewrite bind_eq. unfold try at 1. rewrite mret_eq.
  rewrite bind_eq. unfold try at 1. unfold IsEnabled, getDriver. rewrite bind_eq, Hdr, mret_eq, Hen.
  rewrite bind_eq. unfold try at 1. rewrite Hrs. simpl default.
  rewrite bool_decide_false by done. unfold request_with. rewrite bind_eq. unfold try at 1.
  erewrite Request_denied_run by done. cbv iota beta. change (is_non_success (denied (QuotaErrors errs))) with false.
  cbv iota. rewrite mret_eq.
  eexists _, _. split; [reflexivity|]. split; [done|].
  unfold exceeded_events, denied. simpl AsQuotaErrors. destruct (ResourcesExceeded config) as [ev|].
  - destruct (Exceeded errs) as [ex|] eqn:Ex; split; try done.
    + intros _. split; [by eexists|]. exists errs. by rewrite Ex.
    + intros [_ (errs' & [= <-] & H)]. rewrite Ex in H. by destruct H.
  - split; [done|]. intros [[? [=]] _].
Qed.

Definition ex_config : RequestConfig string :=
  mkRequestConfig string (Some (mret ("project", "1")))%string
    (Some (λ _ _, mret (Some (storage 50)))) 0 None (Some (λ _ _ m, m)).

Definition ex_quota_db : QuotaDB := one_quota_db "project" "1" (storage 100) (storage 60).

Definition ex_drivers : gmap string Driver :=
  {[ "project"%string := project.driver (project.mkConfig None true 100) (mkBlobDB ∅ ∅ ∅ [] 0 0) ]}.

Lemma RequestMiddleware_denies_witness :
  ∃ e evs, RequestMiddleware ex_drivers 3 ex_config (λ w, (200, w)) (mkWorld ex_quota_db true [])
      = (Ok (ErrorReply e, evs), mkWorld ex_quota_db true []) ∧ ErrCode e = DENIED ∧ evs ≠ [].
Proof.
  destruct (IsSafe (storage 100) (storage 60) (Add (storage 60) (storage 50)) false) as [err|] eqn:Es;
    [|vm_compute in Es; discriminate].
  destruct (RequestMiddleware_denies ex_config ex_drivers 2 (λ w, (200, w)) ex_quota_db "project" "1"
    (λ _ _, mret (Some (storage 50))) (storage 50)
    (project.driver (project.mkConfig None true 100) (mkBlobDB ∅ ∅ ∅ [] 0 0))
    (Row.mkQuotaRow 1 "project" "1" (JDoc Postgres (storage 100)) 0)
    (Row.mkUsageRow 1 "project" "1" (JDoc Postgres (storage 60)) 0)
    (storage 100) (storage 60) err) as (e & evs & H & Hc & Hev);
    [apply one_quota_db_ok|reflexivity|reflexivity|reflexivity|reflexivity|reflexivity
    |vm_compute; discriminate|vm_compute; reflexivity|vm_compute; reflexivity|reflexivity|reflexivity|exact Es|].
  exists e, evs. split; [exact H|]. split; [exact Hc|]. apply Hev. split; [by eexists|].
  vm_compute in Es. injection Es as <-. eexists. split; [reflexivity|]. vm_compute. by eexists.
Defined.

(** ** Accounting *)

(** What one row adds to the usage of a project. *)
Definition weight (pb : gset (Z * Z)) (pid : Z) (b : Blob) : Z :=
  if decide ((pid, ID b) ∈ pb ∧ IsForeignLayer b = false) then Size b else 0.

Definition total (pb : gset (Z * Z)) (pid : Z) (l : list Blob) : Z :=
  foldr (λ b acc, weight pb pid b + acc) 0 l.

Lemma usage_total d pid : project.usage d pid = total (project_blob d) pid ((map_to_list (blobs d)).*2).
Proof.
  unfold project.usage, dao.project_blobs, total, dao.sum_sizes, weight.
  induction ((map_to_list (blobs d)).*2) as [|b l IH]; [done|]. rewrite !filter_cons. simpl.
  destruct (decide ((pid, ID b) ∈ project_blob d)) as [H1|H1].
  - rewrite filter_cons. destruct (decide (IsForeignLayer b = false)) as [H2|H2]; simpl.
    + rewrite decide_True by done. by rewrite IH.
    + rewrite decide_False by naive_solver. by rewrite IH.
  - rewrite decide_False by naive_solver. by rewrite IH.
Qed.

Lemma total_perm pb pid l l' : l ≡ₚ l' → total pb pid l = total pb pid l'.
Proof. unfold total. induction 1; simpl; lia. Qed.

Lemma total_ext pb pb' pid l :
  (∀ b, b ∈ l → (pid, ID b) ∈ pb ↔ (pid, ID b) ∈ pb') → total pb pid l = total pb' pid l.
Proof.
  unfold total. induction l as [|b l IH]; intros H; [done|]. simpl.
  rewrite IH by (intros c Hc; apply H; by right). f_equal. unfold weight.
  pose proof (H b ltac:(left)). do 2 case_decide; tauto || done.
Qed.

(** Associating one more existing row. *)
Lemma usage_associate d pid i b :
  blob_ok d → blobs d !! i = Some b → IsForeignLayer b = false → (pid, i) ∉ project_blob d →
  project.usage (set_project_blob d ({[(pid, i)]} ∪ project_blob d)) pid = project.usage d pid + Size b.
Proof.
  intros Hok Hb Hf Hn. rewrite !usage_total. simpl.
  assert (Hp : (map_to_list (blobs d)).*2 ≡ₚ b :: (map_to_list (delete i (blobs d))).*2).
  { rewrite <- (insert_delete_id (blobs d) i b) at 1 by done.
    rewrite map_to_list_insert by (by rewrite lookup_delete_eq). done. }
  rewrite !(total_perm _ _ _ _ Hp). simpl. pose proof (bok_ids _ Hok _ _ Hb) as Hid.
  assert (weight ({[(pid, i)]} ∪ project_blob d) pid b = Size b) as ->.
  { unfold weight. rewrite decide_True; [done|]. rewrite Hid. split; [set_solver|done]. }
  assert (weight (project_blob d) pid b = 0) as ->.
  { unfold weight. rewrite decide_False; [done|]. rewrite Hid. naive_solver. }
  rewrite (total_ext ({[(pid, i)]} ∪ project_blob d) (project_blob d)); [lia|].
  intros c Hc. apply list_elem_of_fmap in Hc as ([j c'] & -> & Hc). apply elem_of_map_to_list in Hc.
  apply lookup_delete_Some in Hc as [Hij Hc]. simpl. rewrite (bok_ids _ Hok _ _ Hc).
  rewrite elem_of_union, elem_of_singleton. naive_solver.
Qed.

(** Adding a row without associations. *)
Lemma usage_new_row d pid n b :
  blob_ok d → n = blob_seq d + 1 → ID b = n → (pid, n) ∉ project_blob d →
  project.usage (mkBlobDB (<[n := b]> (blobs d)) (project_blob d) (artifact_blob d) (artifacts d) n (now d)) pid
    = project.usage d pid.
Proof.
  intros Hok Hn Hi Hp. rewrite !usage_total. simpl.
  assert (Hfresh : blobs d !! n = None).
  { apply eq_None_not_Some. intros [c Hc]. apply (bok_seq _ Hok) in Hc. lia. }
  assert (Hperm : (map_to_list (<[n := b]> (blobs d))).*2 ≡ₚ b :: (map_to_list (blobs d)).*2)
    by (by rewrite map_to_list_insert).
  rewrite (total_perm _ _ _ _ Hperm). simpl. unfold weight at 1. rewrite Hi.
  rewrite decide_False by naive_solver. lia.
Qed.

Lemma Get_nofault g pid d :
  g ≠ EmptyString → pid ≠ 0 →
  (∃ b, Get g pid EmptyString (mkWorld d true []) = (Ok b, mkWorld d true []) ∧ associated d pid g) ∨
  (∃ e, Get g pid EmptyString (mkWorld d true []) = (Err e, mkWorld d true []) ∧ IsNotFoundErr e = true ∧
        ¬ associated d pid g).
Proof.
  intros Hg Hp. unfold Get. rewrite bool_decide_false by done. destruct (pid =? 0) eqn:Ep; [lia|].
  rewrite bool_decide_true by done. rewrite bind_eq. unfold dao.ListBlobs.
  rewrite bind_eq, FromContext_ok by done. rewrite query_nofault.
  destruct (filter _ _) as [|b l] eqn:E.
  - right. eexists. split; [reflexivity|]. split; [done|]. unfold associated. rewrite Exists_exists.
    intros (b & Hin & Hd & Hpb). apply filter_nil_iff in E. rewrite Forall_forall in E.
    apply (E b Hin). split_and!; [by apply list_elem_of_singleton|done|done].
  - left. exists b. split; [reflexivity|].
    match type of E with ?f = _ => assert (Hin : b ∈ f) by (rewrite E; left) end.
    apply list_elem_of_filter in Hin as [(Hd & Hpb & _) Hin]. apply list_elem_of_singleton in Hd.
    unfold associated. apply Exists_exists. exists b. done.
Qed.

Lemma Exist_nofault g pid d :
  g ≠ EmptyString → pid ≠ 0 →
  Exist g pid EmptyString (mkWorld d true []) = (Ok (bool_decide (associated d pid g)), mkWorld d true []).
Proof.
  intros Hg Hp. unfold Exist. rewrite bool_decide_false by done. rewrite bind_eq. unfold try.
  destruct (Get_nofault g pid d Hg Hp) as [(b & -> & Ha)|(e & -> & He & Ha)].
  - by rewrite bool_decide_true.
  - rewrite He. by rewrite bool_decide_false.
Qed.

Lemma project_of_reference pid : in_int64 pid → project_of (ReferenceID_of pid) = pid.
Proof. intros H. by apply ParseInt_value_ok, ParseInt_pretty. Qed.

Lemma reserved_storage n : default 0 (Some (storage n) ≫= λ r, r !! ResourceStorage) = n.
Proof. change (default 0 (storage n !! ResourceStorage) = n). unfold storage. by rewrite lookup_singleton_eq. Qed.

(** The row a push of [g] ends with, and the effect of the bookkeeping. *)
Lemma putBlob_after_nofault cl acc size g pid d :
  ParseInt cl = Some size → size ≠ 0 →
  ∃ d', putBlobUpload_after 201 cl acc (Ok pid) g (mkWorld d true []) = (Ok tt, mkWorld d' true []) ∧
    match find_digest g d with
    | Some b => d' = set_project_blob d ({[(pid, ID b)]} ∪ project_blob d)
    | None =>
        let n := blob_seq d + 1 in
        let d1 := mkBlobDB (<[n := mkBlob n g "application/octet-stream" size StatusNone (now d) 0]> (blobs d))
                    (project_blob d) (artifact_blob d) (artifacts d) n (now d) in
        d' = set_project_blob d1 ({[(pid, n)]} ∪ project_blob d1)
    end.
Proof.
  intros Hc Hs.
  assert (HE : ∃ i d1, Ensure g "application/octet-stream" size (mkWorld d true []) = (Ok i, mkWorld d1 true []) ∧
    match find_digest g d with
    | Some b => i = ID b ∧ d1 = d
    | None => i = blob_seq d + 1 ∧
        d1 = mkBlobDB (<[i := mkBlob i g "application/octet-stream" size StatusNone (now d) 0]> (blobs d))
               (project_blob d) (artifact_blob d) (artifacts d) i (now d)
    end).
  { unfold Ensure. rewrite bind_eq. unfold try, dao.GetBlobByDigest. rewrite bind_eq, FromContext_ok by done.
    rewrite bind_eq. unfold try. rewrite query_nofault. destruct (find_digest g d) as [b|] eqn:Ef.
    - eexists _, _. split; [reflexivity|]. done.
    - cbv iota. unfold fail. change (IsNotFoundErr _) with true. cbv iota.
      unfold dao.CreateBlob. rewrite bind_eq, FromContext_ok by done. rewrite stmt_nofault, Ef.
      eexists _, _. split; [reflexivity|]. done. }
  destruct HE as (i & d1 & HE & Hi).
  exists (set_project_blob d1 ({[(pid, i)]} ∪ project_blob d1)). split.
  - unfold putBlobUpload_after. change (negb (201 =? 201)) with false. cbv iota.
    apply WithTransaction_nofault. rewrite bind_eq.
    assert (blob_size cl acc (mkWorld d true []) = (Ok size, mkWorld d true [])) as ->.
    { unfold blob_size. rewrite Hc. by destruct (size =? 0) eqn:Es; [lia|]. }
    cbv iota beta. rewrite bind_eq.
    change (of_result (Ok pid) (mkWorld d true [])) with (@Ok Z pid, mkWorld d true []). cbv iota beta.
    rewrite bind_eq, HE. unfold AssociateWithProjectByID, dao.CreateProjectBlob.
    rewrite bind_eq, FromContext_ok by done. by rewrite stmt_nofault.
  - destruct (find_digest g d); destruct Hi as [-> ->]; done.
Qed.

(** Association of a digest, by the row that has it. *)
Lemma associated_find g pid d : blob_ok d →
  associated d pid g ↔ ∃ b, find_digest g d = Some b ∧ (pid, ID b) ∈ project_blob d.
Proof.
  intros Hok. unfold associated. rewrite Exists_exists. split.
  - intros (b & Hin & Hdg & Hpb). apply list_elem_of_fmap in Hin as ([j b'] & -> & Hin).
    apply elem_of_map_to_list in Hin. simpl in *.
    destruct (find_digest g d) as [c|] eqn:Ef.
    + apply find_digest_Some in Ef as [Hcr Hcd]; [|done]. exists c. split; [done|].
      assert (ID c = j) as -> by (eapply (bok_digest _ Hok); eauto; congruence).
      by rewrite (bok_ids _ Hok _ _ Hin) in Hpb.
    + rewrite find_digest_None in Ef. by destruct (Ef _ _ Hin).
  - intros (b & Ef & Hpb). apply find_digest_Some in Ef as [Hr Hdg]; [|done]. exists b.
    split; [|done]. apply list_elem_of_fmap. exists (ID b, b). by rewrite elem_of_map_to_list.
Qed.

(** Further property (functional). Quota and bookkeeping agree on a blob upload: what the
    quota middleware reserves is exactly what the project's usage grows by once
    the blob is recorded, and a blob the project already has reserves nothing
    and adds nothing. *)
Theorem put_blob_accounts cl acc size g pid d :
  ParseInt cl = Some size → size ≠ 0 → in_int64 pid → pid ≠ 0 → g ≠ EmptyString → blob_ok d →
  (∀ i, (pid, i) ∈ project_blob d → i <= blob_seq d) →
  (∀ b, find_digest g d = Some b → Size b = size ∧ IsForeignLayer b = false) →
  ∃ res d',
    putBlobUploadResources cl acc g (ReferenceID_of pid) (mkWorld d true []) = (Ok res, mkWorld d true []) ∧
    putBlobUpload_after 201 cl acc (Ok pid) g (mkWorld d true []) = (Ok tt, mkWorld d' true []) ∧
    project.usage d' pid = project.usage d pid + default 0 (res ≫= λ r, r !! ResourceStorage) ∧
    (res = None ↔ associated d pid g).
Proof.
  intros Hc Hs Hpid Hp0 Hg Hok Hseq Hrow.
  destruct (putBlob_after_nofault cl acc size g pid d Hc Hs) as (d' & Hafter & Hd').
  exists (if bool_decide (associated d pid g) then None else Some (storage size)), d'.
  split.
  { unfold putBlobUploadResources, blob_size. rewrite Hc. destruct (size =? 0) eqn:Es; [lia|].
    rewrite bind_eq, mret_eq, Es, bind_eq, project_of_reference by done.
    rewrite Exist_nofault by done. by case_bool_decide. }
  split; [done|].
  pose proof (associated_find g pid d Hok) as Hass.
  split; [|by case_bool_decide].
  destruct (find_digest g d) as [b|] eqn:Ef.
  - destruct (Hrow b eq_refl) as [Hsz Hf]. pose proof Ef as Ef'. apply find_digest_Some in Ef' as [Hr Hdg]; [|done].
    case_bool_decide as Ha.
    + apply Hass in Ha as (b' & [= <-] & Hpb). subst d'.
      assert ({[(pid, ID b)]} ∪ project_blob d = project_blob d) as -> by set_solver.
      change (set_project_blob d (project_blob d)) with
        (mkBlobDB (blobs d) (project_blob d) (artifact_blob d) (artifacts d) (blob_seq d) (now d)).
      destruct d. symmetry. apply Z.add_0_r.
    + subst d'. rewrite usage_associate with (b := b); [|done|done|done|].
      * rewrite reserved_storage. lia.
      * intros Hpb. apply Ha, Hass. eauto.
  - assert (Hna : ¬ associated d pid g) by (rewrite Hass; naive_solver).
    rewrite bool_decide_false by done. rewrite reserved_storage.
    cbv zeta in Hd'. subst d'. set (n := blob_seq d + 1).
    assert (Hfree : (pid, n) ∉ project_blob d) by (intros H; specialize (Hseq _ H); unfold n in *; lia).
    rewrite usage_associate with (b := mkBlob n g "application/octet-stream" size StatusNone (now d) 0).
    + f_equal. apply usage_new_row; done.
    + by apply blob_ok_insert.
    + simpl. by rewrite lookup_insert_eq.
    + done.
    + done.
Qed.

Lemma put_blob_accounts_witness :
  ∃ res d',
    putBlobUploadResources "10" (mret 0) "sha256:bb" (ReferenceID_of 7) (mkWorld (ex_blob_db StatusNone 0) true [])
      = (Ok res, mkWorld (ex_blob_db StatusNone 0) true []) ∧
    project.usage d' 7 = project.usage (ex_blob_db StatusNone 0) 7
      + default 0 (res ≫= λ r, r !! ResourceStorage).
Proof.
  destruct (put_blob_accounts "10" (mret 0) 10 "sha256:bb" 7 (ex_blob_db StatusNone 0)) as (res & d' & H1 & _ & H3 & _);
    [vm_compute; reflexivity|lia|vm_compute; split; discriminate|lia|done|apply ex_blob_db_ok
    |simpl; set_solver|vm_compute; discriminate|].
  exists res, d'. auto.
Defined.

(** *** A manifest that lists a layer twice *)

Definition ex_layer : Descriptor := mkDescriptor "sha256:aa" "application/octet-stream" 10.
Definition ex_manifest : result (list Descriptor * Descriptor) :=
  Ok ([ex_layer; ex_layer], mkDescriptor "sha256:m1" "application/vnd.oci.image.manifest.v1+json" 3).

(** Further property (functional). The quota middleware counts the references of a manifest
    one by one: a layer the manifest lists twice is reserved twice, while the
    project's usage grows by it once when the push is recorded. *)
Theorem duplicate_layer_reserved_twice :
  let w := mkWorld (ex_blob_db StatusNone 0) true [] in
  fst (putManifestResources ex_manifest (ReferenceID_of 7) w) = Ok (Some (storage 23)) ∧
  let w' := snd (putManifest_after 201 (Ok 7) "application/vnd.oci.image.manifest.v1+json" ex_manifest w) in
  project.usage (db w') 7 = project.usage (db w) 7 + 13.
Proof. vm_compute. split; reflexivity. Qed.
