(* ===== verification/GC.v ===== *)
(** * Garbage collection: [src/jobservice/job/impl/gc/garbage_collection.go],
    [src/jobservice/job/impl/gc/util.go], [src/pkg/artifactrash/dao/dao.go]

    The job marks the blobs no project references and then sweeps them from the
    registry's storage and from the database.  The job's state is the database
    of blobs, the trash of deleted artifacts, the registry's blob storage and
    the stop signals the job context will report.  The artifact controller and
    the registry's services are reached through interfaces ([GCEnv]) whose laws
    are in [GCEnvOk].  Cleaning the registry's Redis cache is part of the
    interface. *)

From S2P Require Import Prelude GoErrors Orm Retry BlobStore.
Open Scope Z_scope.

Record ArtifactTrash := mkTrash {
  t_ID : Z; t_RepositoryName : string; t_Digest : string }.

(** An artifact without tags, as [artCtl.List] returns it. *)
Record Untagged := mkUntagged { u_ID : Z; u_RepositoryName : string; u_Digest : string }.

Record GCDB := mkGCDB {
  g_blob : BlobDB;
  g_trash : gmap Z ArtifactTrash;
  g_live : list (string * string);   (* repository, digest of the artifact rows *)
  g_storage : gset string;           (* digests present in the registry storage *)
  g_stops : list bool;               (* what the next stop checks will report *)
}.

Definition set_g_blob (d : GCDB) (b : BlobDB) : GCDB :=
  mkGCDB b (g_trash d) (g_live d) (g_storage d) (g_stops d).

(** Run a blob operation on the job's state. *)
Definition lift {A} (m : M BlobDB A) : M GCDB A := λ w,
  let '(r, w') := m (mkWorld (g_blob (db w)) (ctx_orm w) (faults w)) in
  (r, mkWorld (set_g_blob (db w) (db w')) (ctx_orm w') (faults w')).

(** [gc.shouldStop]: consume one report of the job context. *)
Definition shouldStop : M GCDB bool := λ w,
  match g_stops (db w) with
  | [] => (Ok false, w)
  | s :: l => (Ok s, with_db w (mkGCDB (g_blob (db w)) (g_trash (db w)) (g_live (db w))
                                 (g_storage (db w)) l))
  end.

(** ** The services the job calls *)
Record GCEnv := mkGCEnv {
  artCtl_ListUntagged : M GCDB (list Untagged);
  artCtl_Delete : Z → M GCDB unit;
  project_ListAll : list (result Z);
  registry_ManifestExist : string → string → M GCDB bool;
  registry_DeleteManifest : string → string → M GCDB unit;
  regctl_Health : M GCDB unit;
  regctl_DeleteManifest : string → string → M GCDB unit;
  regctl_DeleteBlob : string → M GCDB unit;
  cleanCache : M GCDB unit;
}.

Section job.
Context (env : GCEnv) (budget : nat).

(** ** [src/jobservice/job/impl/gc/util.go] *)

(** [captured] is what the variables the closure captured hold when its
    not-found error is ignored. *)
Definition ignoreNotFound {A} (captured : A) (f : M GCDB A) : M GCDB A :=
  r ← try f;
  match r with
  | Ok a => mret a
  | Err e => if IsNotFoundErr e then mret captured else fail e
  end.

Definition is_readonly (e : error) : bool :=
  match e with ErrReadonly => true | _ => false end.

(** A call whose read-only error stops the retrying. *)
Definition abort_readonly (f : M GCDB unit) : M GCDB unit :=
  r ← try f;
  match r with
  | Ok _ => mret tt
  | Err e => if is_readonly e then fail (Abort e) else fail e
  end.

Definition v2DeleteManifest (repository digest : string) : M GCDB unit :=
  found ← registry_ManifestExist env repository digest;
  if (found : bool)
  then Retry budget (abort_readonly (registry_DeleteManifest env repository digest))
  else mret tt.

(** ** [src/pkg/artifactrash/dao/dao.go] *)

(** Trashed artifacts that do not exist as artifacts; the cut-off is now. *)
Definition artrash_Filter : M GCDB (list ArtifactTrash) :=
  _ ← FromContext;
  query (λ d, Ok (filter (λ t, (t_RepositoryName t, t_Digest t) ∉ g_live d)
                    ((map_to_list (g_trash d)).*2))).

Definition artrash_Delete (id : Z) : M GCDB unit :=
  _ ← FromContext;
  n ← stmt (λ d, match g_trash d !! id with
                 | Some _ => (Ok 1, mkGCDB (g_blob d) (delete id (g_trash d)) (g_live d)
                                      (g_storage d) (g_stops d))
                 | None => (Ok 0, d)
                 end);
  if n =? 0
  then fail (WithMessage (NotFoundError None) ("artifact trash " +:+ pretty id +:+ " not found"))
  else mret tt.

(** ** Parameters *)

Inductive param := PBool (b : bool) | PNum (truncated : Z) | PString (s : string).

Record GC := mkGC { deleteUntagged : bool; timeWindowHours : Z; dryRun : bool }.

(** [None] is the panic of the type assertion on the Redis URL. *)
Definition parseParams (params : gmap string param) : option GC :=
  match params !! "redis_url_reg"%string with
  | Some (PString _) =>
      Some (mkGC
        (match params !! "delete_untagged"%string with Some (PBool false) => false | _ => true end)
        (match params !! "time_window"%string with Some (PNum z) => z | _ => 2 end)
        (match params !! "dry_run"%string with Some (PBool true) => true | _ => false end))
  | _ => None
  end.

(** ** Mark *)

(** The loop over the untagged artifacts; a failed deletion is skipped. *)
Fixpoint delete_untagged (gc : GC) (l : list Untagged) (trashed : list ArtifactTrash)
    : M GCDB (list ArtifactTrash) :=
  match l with
  | [] => mret trashed
  | u :: l =>
      if dryRun gc
      then delete_untagged gc l
             (trashed ++ [mkTrash 0 (u_RepositoryName u) (u_Digest u)])
      else
        stop ← shouldStop;
        if (stop : bool) then fail ErrGcStop
        else
          _ ← try (artCtl_Delete env (u_ID u));
          delete_untagged gc l trashed
  end.

(** Group the trashed artifacts by digest. *)
Definition group_trash (l : list ArtifactTrash) : gmap string (list ArtifactTrash) :=
  fold_left (λ m t, <[t_Digest t := default [] (m !! t_Digest t) ++ [t]]> m) l ∅.

Definition deletedArt (gc : GC) : M GCDB (gmap string (list ArtifactTrash)) :=
  simulated ← (if deleteUntagged gc
               then untagged ← artCtl_ListUntagged env; delete_untagged gc untagged []
               else mret []);
  actual ← (if dryRun gc then mret [] else artrash_Filter);
  mret (group_trash (simulated ++ actual)).

(** One page of a project's blobs: ids from [lastBlobID] on, old enough, sorted
    by id, at most [ps]. *)
Definition ps : nat := 1000.

Definition blob_le (a b : Blob) : Prop := ID a <= ID b.
#[export] Instance blob_le_dec : RelDecision blob_le.
Proof. intros a b. unfold blob_le. apply _. Defined.

Definition list_page (projectID lastBlobID timeMax : Z) : M BlobDB (list Blob) :=
  _ ← FromContext;
  query (λ d, Ok (take ps (merge_sort blob_le
    (filter (λ b, UpdateTime b <= timeMax ∧ lastBlobID <= ID b) (dao.project_blobs d projectID))))).

(** The paging loop over one project: [None] when the fuel runs out; errors are
    logged and end the loop. *)
Fixpoint untagged_pages (fuel : nat) (gc : GC) (projectID lastBlobID timeMax : Z)
    (orphans : list Blob) : M GCDB (option (list Blob)) :=
  match fuel with
  | O => mret None
  | S fuel =>
      stop ← shouldStop;
      if (stop : bool) then fail ErrGcStop
      else
        r ← try (lift (list_page projectID lastBlobID timeMax));
        match r with
        | Err _ => mret (Some orphans)
        | Ok bs =>
            r ← try (if dryRun gc
                     then lift (dao.FindBlobsShouldUnassociatedWithProject projectID bs)
                     else lift (_ ← manager.CleanupAssociationsForProject projectID bs; mret []));
            match r with
            | Err _ => mret (Some orphans)
            | Ok found =>
                let orphans := orphans ++ found in
                if (length bs <? ps)%nat then mret (Some orphans)
                else
                  match last bs with
                  | Some b => untagged_pages fuel gc projectID (ID b) timeMax orphans
                  | None => mret (Some orphans)
                  end
            end
        end
  end.

Definition clock : M GCDB Z := λ w, (Ok (now (g_blob (db w))), w).

Fixpoint untagged_projects (fuel : nat) (gc : GC) (l : list (result Z)) (orphans : list Blob)
    : M GCDB (option (list Blob)) :=
  match l with
  | [] => mret (Some orphans)
  | r :: l =>
      stop ← shouldStop;
      if (stop : bool) then fail ErrGcStop
      else
        match r with
        | Err _ => untagged_projects fuel gc l orphans
        | Ok projectID =>
            t ← clock;
            o ← untagged_pages fuel gc projectID 0 (t - timeWindowHours gc * 3600) orphans;
            match o with
            | Some orphans => untagged_projects fuel gc l orphans
            | None => mret None
            end
        end
  end.

Definition markOrSweepUntaggedBlobs (fuel : nat) (gc : GC) : M GCDB (option (list Blob)) :=
  untagged_projects fuel gc (project_ListAll env) [].


Fixpoint blobs_of_arts (digests : list string) (acc : list Blob) : M GCDB (list Blob) :=
  match digests with
  | [] => mret acc
  | g :: l => artBlobs ← lift (dao.GetBlobsByArtDigest g); blobs_of_arts l (acc ++ artBlobs)
  end.

Definition uselessBlobs (gc : GC) (trashed : gmap string (list ArtifactTrash)) : M GCDB (list Blob) :=
  bs ← lift (dao.GetBlobsNotRefedByProjectBlob (timeWindowHours gc));
  if dryRun gc then blobs_of_arts ((map_to_list trashed).*1) bs else mret bs.

(** The loop over the candidates; the result is [gc.deleteSet]. *)
Fixpoint mark_candidates (gc : GC) (l : list Blob) (deleteSet : list Blob) : M GCDB (list Blob) :=
  match l with
  | [] => mret deleteSet
  | b :: l =>
      if dryRun gc then mark_candidates gc l (deleteSet ++ [b])
      else
        stop ← shouldStop;
        if (stop : bool) then fail ErrGcStop
        else
          r ← try (lift (manager.UpdateBlobStatus (with_status b StatusDelete)));
          match r with
          | Err _ => mark_candidates gc l deleteSet
          | Ok (count, b') =>
              if count =? 0 then mark_candidates gc l deleteSet
              else mark_candidates gc l (deleteSet ++ [b'])
          end
  end.

(** [gc.trashedArts] and [gc.deleteSet] after the phase. *)
Definition mark (fuel : nat) (gc : GC)
    : M GCDB (option (gmap string (list ArtifactTrash) * list Blob)) :=
  arts ← deletedArt gc;
  o ← markOrSweepUntaggedBlobs fuel gc;
  match o with
  | None => mret None
  | Some orphanBlobs =>
      bs ← uselessBlobs gc arts;
      let bs := bs ++ orphanBlobs in
      match bs with
      | [] => mret (Some (arts, []))
      | _ => deleteSet ← mark_candidates gc bs []; mret (Some (arts, deleteSet))
      end
  end.

(** ** Sweep *)

Definition markDeleteFailed (b : Blob) : M GCDB Blob :=
  r ← try (lift (manager.UpdateBlobStatus (with_status b StatusDeleteFailed)));
  match r with
  | Err e => fail (default e (Wrap (Some e) ("failed to mark gc candidate delete failed: " +:+ Digest b)))
  | Ok (count, b') =>
      if count =? 0
      then fail (WithCode (New ("no blob found to mark delete failed, ID:" +:+ pretty (ID b)
                                  +:+ ", digest:" +:+ Digest b)) NotFoundCode)
      else mret b'
  end.

(** After an error [e] of a deletion: the blob goes to [StatusDeleteFailed], and
    a read-only system ends the sweep. *)
Definition after_failure (b : Blob) (e : error) : M GCDB Blob :=
  b' ← ignoreNotFound (with_status b StatusDeleteFailed) (markDeleteFailed b);
  if is_readonly e then fail e else mret b'.

(** The loop over the trashed artifacts of one manifest: the blob as the calls
    left it, and [skippedBlob]. *)
Fixpoint sweep_arts (arts : list ArtifactTrash) (b : Blob) (skipped : bool) : M GCDB (Blob * bool) :=
  match arts with
  | [] => mret (b, skipped)
  | art :: arts =>
      r ← try (v2DeleteManifest (t_RepositoryName art) (Digest b));
      match r with
      | Err e => b' ← after_failure b e; sweep_arts arts b' true
      | Ok _ =>
          r ← try (Retry budget (ignoreNotFound tt
                 (abort_readonly (regctl_DeleteManifest env (t_RepositoryName art) (Digest b)))));
          match r with
          | Err e => b' ← after_failure b e; sweep_arts arts b' true
          | Ok _ =>
              _ ← ignoreNotFound tt (lift (dao.DeleteArtifactAndBlobByArtifact (t_Digest art)));
              _ ← ignoreNotFound tt (artrash_Delete (t_ID art));
              sweep_arts arts b skipped
          end
      end
  end.

(** Deleting the database record, the last step for a blob. *)
Definition sweep_record (b : Blob) : M GCDB unit :=
  r ← try (ignoreNotFound tt (lift (dao.DeleteBlob (ID b))));
  match r with
  | Ok _ => mret tt
  | Err e =>
      _ ← ignoreNotFound (with_status b StatusDeleteFailed) (markDeleteFailed b);
      fail e
  end.

(** The body of the loop for a blob that is [StatusDeleting]. *)
Definition sweep_deleting (trashed : gmap string (list ArtifactTrash)) (b : Blob) : M GCDB unit :=
  '(b, skipped) ← (match trashed !! Digest b with
                   | Some arts => if IsManifest b then sweep_arts arts b false else mret (b, false)
                   | None => mret (b, false)
                   end);
  if (skipped : bool) then mret tt
  else if IsForeignLayer b then sweep_record b
  else
    r ← try (Retry budget (ignoreNotFound tt (abort_readonly (regctl_DeleteBlob env (Digest b)))));
    match r with
    | Err e => _ ← after_failure b e; mret tt
    | Ok _ => sweep_record b
    end.

Definition sweep_one (trashed : gmap string (list ArtifactTrash)) (b : Blob) : M GCDB unit :=
  r ← try (lift (manager.UpdateBlobStatus (with_status b StatusDeleting)));
  match r with
  | Err _ => mret tt
  | Ok (count, b') => if count =? 0 then mret tt else sweep_deleting trashed b'
  end.

Fixpoint sweep (trashed : gmap string (list ArtifactTrash)) (deleteSet : list Blob) : M GCDB unit :=
  match deleteSet with
  | [] => mret tt
  | b :: l =>
      stop ← shouldStop;
      if (stop : bool) then fail ErrGcStop
      else _ ← sweep_one trashed b; sweep trashed l
  end.

(** ** Run *)

Definition is_stop (e : error) : bool := match e with ErrGcStop => true | _ => false end.

Definition Run (fuel : nat) (gc : GC) : M GCDB (option unit) :=
  _ ← regctl_Health env;
  r ← try (mark fuel gc);
  match r with
  | Err e => if is_stop e then mret (Some tt) else fail e
  | Ok None => mret None
  | Ok (Some (trashed, deleteSet)) =>
      if dryRun gc then mret (Some tt)
      else
        r ← try (sweep trashed deleteSet);
        match r with
        | Err e => if is_stop e then _ ← cleanCache env; mret (Some tt) else fail e
        | Ok _ => _ ← cleanCache env; mret (Some tt)
        end
  end.

End job.

(** ** What the services promise *)

(** No table, trash or storage changes; only the pending stop reports may. *)
Definition same_tables (d d' : GCDB) : Prop :=
  g_blob d' = g_blob d ∧ g_trash d' = g_trash d ∧ g_live d' = g_live d ∧ g_storage d' = g_storage d.

#[export] Instance same_tables_po : PreOrder same_tables.
Proof. unfold same_tables. split; [by intros d|]. intros a b c. naive_solver congruence. Qed.

(** Deleting a blob file removes at most that file. *)
Definition drops_file (g : string) (d d' : GCDB) : Prop :=
  g_blob d' = g_blob d ∧ g_trash d' = g_trash d ∧ g_live d' = g_live d ∧
  (g_storage d' = g_storage d ∨ g_storage d' = g_storage d ∖ {[g]}).

Class GCEnvOk (env : GCEnv) : Prop := {
  ok_ListUntagged : preserves same_tables (artCtl_ListUntagged env);
  ok_Delete i : preserves (λ d d', blobs (g_blob d') = blobs (g_blob d) ∧
    blob_seq (g_blob d') = blob_seq (g_blob d) ∧ now (g_blob d') = now (g_blob d) ∧
    g_storage d' = g_storage d) (artCtl_Delete env i);
  ok_ManifestExist r g : preserves same_tables (registry_ManifestExist env r g);
  ok_v2DeleteManifest r g : preserves same_tables (registry_DeleteManifest env r g);
  ok_Health : preserves same_tables (regctl_Health env);
  ok_DeleteManifest r g : preserves same_tables (regctl_DeleteManifest env r g);
  ok_DeleteBlob g : preserves (drops_file g) (regctl_DeleteBlob env g);
  ok_cleanCache : preserves same_tables (cleanCache env);
}.
#[export] Hint Resolve ok_ListUntagged ok_ManifestExist ok_v2DeleteManifest ok_Health
  ok_DeleteManifest ok_cleanCache : frame.

Lemma preserves_shouldStop : preserves same_tables shouldStop.
Proof.
  intros w r w'. unfold shouldStop. destruct (g_stops (db w)); intros [= _ <-]; [reflexivity|done].
Qed.
#[export] Hint Resolve preserves_shouldStop : frame.

(** A blob operation changes the blob tables only. *)
Lemma preserves_lift {A} (R : relation BlobDB) (m : M BlobDB A) :
  preserves R m →
  preserves (λ d d', R (g_blob d) (g_blob d') ∧ g_trash d' = g_trash d ∧ g_live d' = g_live d ∧
    g_storage d' = g_storage d) (lift m).
Proof.
  intros Hm w r w'. unfold lift. destruct (m _) as [x w1] eqn:E. intros [= _ <-].
  apply Hm in E. done.
Qed.

Lemma preserves_lift_reads {A} (m : M BlobDB A) : preserves eq m → preserves same_tables (lift m).
Proof.
  intros Hm. eapply preserves_weaken; [|by apply preserves_lift, Hm].
  unfold same_tables. naive_solver.
Qed.
#[export] Hint Resolve preserves_lift_reads : frame.

Lemma preserves_ignoreNotFound (R : relation GCDB) `{!PreOrder R} {A} (a : A) f :
  preserves R f → preserves R (ignoreNotFound a f).
Proof. intros Hf. unfold ignoreNotFound. frame. Qed.

Lemma preserves_abort_readonly (R : relation GCDB) `{!PreOrder R} f :
  preserves R f → preserves R (abort_readonly f).
Proof. intros Hf. unfold abort_readonly. frame. Qed.
#[export] Hint Resolve preserves_ignoreNotFound preserves_abort_readonly : frame.

(** ** Dry run *)

Lemma preserves_clock : preserves same_tables clock.
Proof. intros w r w' [= _ <-]. reflexivity. Qed.
#[export] Hint Resolve preserves_clock : frame.

Section dry_run.
Context (env : GCEnv) `{!GCEnvOk env} (gc : GC) (Hdry : dryRun gc = true).

Lemma delete_untagged_dry l acc : preserves same_tables (delete_untagged env gc l acc).
Proof. revert acc. induction l as [|u l IH]; intros acc; simpl; [frame|]. rewrite Hdry. apply IH. Qed.

Lemma deletedArt_dry : preserves same_tables (deletedArt env gc).
Proof. unfold deletedArt. rewrite Hdry. frame. apply delete_untagged_dry. Qed.

Lemma untagged_pages_dry fuel p last t o : preserves same_tables (untagged_pages fuel gc p last t o).
Proof.
  revert last o. induction fuel as [|fuel IH]; intros last o; simpl; [frame|]. rewrite Hdry.
  frame; apply preserves_lift_reads.
  - unfold list_page. frame.
  - unfold dao.FindBlobsShouldUnassociatedWithProject. frame.
Qed.

Lemma untagged_projects_dry fuel l o : preserves same_tables (untagged_projects fuel gc l o).
Proof.
  revert o. induction l as [|x l IH]; intros o; simpl; [frame|]. frame. apply untagged_pages_dry.
Qed.

Lemma blobs_of_arts_reads l acc : preserves same_tables (blobs_of_arts l acc).
Proof.
  revert acc. induction l as [|g l IH]; intros acc; simpl; [frame|]. frame.
  apply preserves_lift_reads. unfold dao.GetBlobsByArtDigest. frame.
Qed.

Lemma mark_candidates_dry l acc : preserves same_tables (mark_candidates gc l acc).
Proof. revert acc. induction l as [|b l IH]; intros acc; simpl; [frame|]. rewrite Hdry. apply IH. Qed.

Lemma uselessBlobs_reads gc' t : preserves same_tables (uselessBlobs gc' t).
Proof.
  unfold uselessBlobs. frame; [|apply blobs_of_arts_reads].
  apply preserves_lift_reads. unfold dao.GetBlobsNotRefedByProjectBlob. frame.
Qed.

Lemma mark_dry fuel : preserves same_tables (mark env fuel gc).
Proof.
  unfold mark. frame;
    [apply deletedArt_dry|apply untagged_projects_dry|apply uselessBlobs_reads|apply mark_candidates_dry].
Qed.

End dry_run.

(** ** Sweep *)

(** Everything the sweep of [b] may change: the row of [b] and its file. *)
Record only (b : Blob) (d d' : GCDB) : Prop := mk_only {
  only_rows i : i ≠ ID b → blobs (g_blob d') !! i = blobs (g_blob d) !! i;
  only_row r' : blobs (g_blob d') !! ID b = Some r' →
    ∃ r, blobs (g_blob d) !! ID b = Some r ∧ Digest r' = Digest r ∧ ID r' = ID r;
  only_seq : blob_seq (g_blob d') = blob_seq (g_blob d);
  only_projects : project_blob (g_blob d') = project_blob (g_blob d);
  only_storage : g_storage d' ⊆ g_storage d;
  only_files g : g ∈ g_storage d → g ≠ Digest b → g ∈ g_storage d';
}.

#[export] Instance only_po b : PreOrder (only b).
Proof.
  split.
  - intros d. split; eauto.
  - intros d1 d2 d3 [A1 A2 A3 A4 A5 A6] [B1 B2 B3 B4 B5 B6]. split; try congruence; eauto.
    + intros i Hi. by rewrite B1, A1.
    + intros r3 H3. destruct (B2 _ H3) as (r2 & H2 & ? & ?). destruct (A2 _ H2) as (r1 & H1 & ? & ?).
      exists r1. split_and!; congruence.
    + set_solver.
Qed.

Lemma same_tables_only b d d' : same_tables d d' → only b d d'.
Proof. intros (Hb & _ & _ & Hs). split; rewrite ?Hb, ?Hs; eauto. Qed.

Lemma only_ok b d d' : only b d d' → blob_ok (g_blob d) → blob_ok (g_blob d').
Proof.
  intros Ho [Hid Hdg Hsq].
  assert (Hrow : ∀ i r', blobs (g_blob d') !! i = Some r' →
    ∃ r, blobs (g_blob d) !! i = Some r ∧ Digest r' = Digest r ∧ ID r' = ID r).
  { intros i r' H. destruct (decide (i = ID b)) as [->|Hn]; [by apply (only_row _ _ _ Ho)|].
    rewrite (only_rows _ _ _ Ho) in H by done. eauto. }
  split.
  - intros i r' H. destruct (Hrow _ _ H) as (r & Hr & _ & ->). eauto.
  - intros i j r1 r2 H1 H2 He. destruct (Hrow _ _ H1) as (s1 & Hs1 & ? & _), (Hrow _ _ H2) as (s2 & Hs2 & ? & _).
    eapply Hdg; eauto; congruence.
  - intros i r' H. destruct (Hrow _ _ H) as (r & Hr & _). rewrite (only_seq _ _ _ Ho). eauto.
Qed.

(** The blob operations of the sweep, as frames. *)
Lemma UpdateBlobStatus_only b b' : ID b' = ID b →
  preserves (only b) (lift (manager.UpdateBlobStatus b')).
Proof.
  intros Hi w r w' H.
  apply (preserves_lift (λ d d', d' = d ∨ ∃ row, blobs d !! ID b' = Some row ∧
    d' = set_blobs d (<[ID b' := mkBlob (ID row) (Digest row) (ContentType row) (Size row)
                     (Status b') (now d) (Version row + 1)]> (blobs d)))) in H.
  - destruct H as ([He|(row & Hr & He)] & Ht & Hl & Hs);
      [by apply same_tables_only|]. rewrite Hi in *. split; rewrite ?He, ?Hs; simpl; eauto.
    + intros i Hn. by rewrite lookup_insert_ne.
    + intros r'. rewrite lookup_insert_eq. intros [= <-]. eauto.
  - intros w1 x w2 H1. apply UpdateBlobStatus_cases in H1 as [[_ ->]|(row & Hr & _ & _ & He & _)]; eauto.
Qed.

Lemma DeleteBlob_only b : preserves (only b) (lift (dao.DeleteBlob (ID b))).
Proof.
  intros w r w' H. apply (preserves_lift (λ d d', d' = d ∨ d' = set_blobs d (delete (ID b) (blobs d)))) in H.
  - destruct H as ([He|He] & Ht & Hl & Hs); [by apply same_tables_only|].
    split; rewrite ?He, ?Hs; simpl; eauto.
    + intros i Hn. by rewrite lookup_delete_ne.
    + intros r'. by rewrite lookup_delete_eq.
  - intros w1 x w2 H1. unfold dao.DeleteBlob in H1.
    mbind_inv H1; [by apply FromContext_cases in Hm as [-> _]; left|].
    apply FromContext_cases in Hm as [-> _]. mbind_inv H1.
    + apply stmt_cases in Hm as [_ [(e' & _ & ->)|Hm]]; [by left|].
      destruct (blobs (db w1) !! ID b); injection Hm; auto.
    + assert (db w2 = db w0) as -> by (destruct (a0 =? 0); by injection H1 as _ <-).
      apply stmt_cases in Hm as [_ [(e' & _ & ->)|Hm]]; [by left|].
      destruct (blobs (db w1) !! ID b); injection Hm; auto.
Qed.

Lemma DeleteArtifactAndBlob_only b g : preserves (only b) (lift (dao.DeleteArtifactAndBlobByArtifact g)).
Proof.
  eapply preserves_weaken; [|apply (preserves_lift (λ d d', blobs d' = blobs d ∧ blob_seq d' = blob_seq d ∧
    project_blob d' = project_blob d))].
  - intros d d' ((Hb & Hs & Hp) & _ & _ & Hst). split; rewrite ?Hb, ?Hs, ?Hp, ?Hst; eauto.
  - unfold dao.DeleteArtifactAndBlobByArtifact.
    assert (PreOrder (λ d d' : BlobDB, blobs d' = blobs d ∧ blob_seq d' = blob_seq d ∧
      project_blob d' = project_blob d)).
    { split; [by intros d|]. intros x y z. naive_solver congruence. }
    frame. by apply preserves_stmt.
Qed.

Lemma artrash_Delete_only b i : preserves (only b) (artrash_Delete i).
Proof.
  unfold artrash_Delete. frame. apply preserves_stmt; [apply _|]. intros d.
  destruct (g_trash d !! i); simpl; [by split; eauto|reflexivity].
Qed.
#[export] Hint Resolve DeleteArtifactAndBlob_only artrash_Delete_only : frame.

Lemma drops_file_only b d d' : drops_file (Digest b) d d' → only b d d'.
Proof. intros (Hb & _ & _ & Hs). split; rewrite ?Hb; eauto; destruct Hs as [-> | ->]; set_solver. Qed.

Section sweeping.
Context (env : GCEnv) `{!GCEnvOk env} (budget : nat).

Lemma service_only {A} b (m : M GCDB A) : preserves same_tables m → preserves (only b) m.
Proof. apply preserves_weaken, same_tables_only. Qed.

Lemma markDeleteFailed_only b b' : ID b' = ID b → preserves (only b) (markDeleteFailed b').
Proof. intros Hi. unfold markDeleteFailed. frame. by apply UpdateBlobStatus_only. Qed.

Lemma after_failure_only b b' e : ID b' = ID b → preserves (only b) (after_failure b' e).
Proof.
  intros Hi. unfold after_failure. frame.
  apply preserves_ignoreNotFound; [apply _|]. by apply markDeleteFailed_only.
Qed.

(** The pointer keeps naming the same blob. *)
Lemma after_failure_id b e w b' w' :
  after_failure b e w = (Ok b', w') → ID b' = ID b ∧ Digest b' = Digest b ∧ ContentType b' = ContentType b.
Proof.
  intros H. unfold after_failure in H. mbind_inv H.
  destruct (is_readonly e); [done|]. rewrite mret_eq in H. injection H as -> <-.
  unfold ignoreNotFound in Hm. apply bind_try_inv in Hm as (x & w2 & Hm & H).
  destruct x as [b2|e2].
  - rewrite mret_eq in H. injection H as -> <-. unfold markDeleteFailed in Hm.
    apply bind_try_inv in Hm as (y & w3 & Hm & H). destruct y as [[c b3]|e3]; [|done].
    destruct (c =? 0) eqn:Ec; [done|]. rewrite mret_eq in H. injection H as -> <-.
    unfold lift in Hm. destruct (manager.UpdateBlobStatus _ _) as [r w4] eqn:E.
    injection Hm as -> _. apply UpdateBlobStatus_cases in E as [[[[e4 [=]]|[= -> ->]] _]|(row & _ & _ & _ & _ & [= -> ->])];
      done.
  - destruct (IsNotFoundErr e2); [|done]. rewrite mret_eq in H. by injection H as <- <-.
Qed.

Definition same_blob (b b' : Blob) : Prop :=
  ID b' = ID b ∧ Digest b' = Digest b ∧ ContentType b' = ContentType b.

Lemma sweep_failure_only b b' e {A} (k : Blob → M GCDB A) :
  same_blob b b' → (∀ b2, same_blob b b2 → preserves (only b) (k b2)) →
  preserves (only b) (after_failure b' e ≫= k).
Proof.
  intros (Hi & Hd & Hc) Hk. eapply (preserves_bind_val _ (same_blob b)); [| |done].
  - by apply after_failure_only.
  - intros w b2 w2 H. apply after_failure_id in H as (? & ? & ?). unfold same_blob. split_and!; congruence.
Qed.

Lemma v2DeleteManifest_only b r g : preserves (only b) (v2DeleteManifest env budget r g).
Proof.
  apply service_only. unfold v2DeleteManifest. frame.
Qed.

Lemma delete_file_only b :
  preserves (only b) (Retry budget (ignoreNotFound tt (abort_readonly (regctl_DeleteBlob env (Digest b))))).
Proof.
  apply preserves_Retry, preserves_ignoreNotFound, preserves_abort_readonly; try apply _.
  eapply preserves_weaken; [apply drops_file_only|]. apply ok_DeleteBlob.
Qed.

Lemma sweep_arts_only b arts b' skipped :
  same_blob b b' → preserves (only b) (sweep_arts env budget arts b' skipped).
Proof.
  revert b' skipped. induction arts as [|art arts IH]; intros b' skipped Hb; simpl; [frame|].
  apply preserves_bind; [apply _|apply preserves_try, v2DeleteManifest_only|].
  intros [?|e]; [|by apply sweep_failure_only; auto].
  apply preserves_bind; [apply _|apply preserves_try, service_only; frame|].
  intros [?|e]; [|by apply sweep_failure_only; auto].
  frame.
Qed.

Lemma sweep_arts_same b arts b' skipped w b2 s w' :
  same_blob b b' → sweep_arts env budget arts b' skipped w = (Ok (b2, s), w') → same_blob b b2.
Proof.
  assert (Hf : ∀ b1 e w b2 w', same_blob b b1 → after_failure b1 e w = (Ok b2, w') → same_blob b b2).
  { intros b1 e w1 b3 w3 (? & ? & ?) Ha. apply after_failure_id in Ha as (? & ? & ?).
    unfold same_blob. split_and!; congruence. }
  revert b' skipped w. induction arts as [|art arts IH]; intros b' skipped w Hb H; simpl in H.
  { by injection H as <- <- <-. }
  apply bind_try_inv in H as ([] & w1 & _ & H).
  2:{ mbind_inv H. eapply IH; [|done]. by eapply Hf. }
  apply bind_try_inv in H as ([] & w2 & _ & H).
  2:{ mbind_inv H. eapply IH; [|done]. by eapply Hf. }
  mbind_inv H. mbind_inv H. by eapply IH.
Qed.

Lemma sweep_record_only b b' : ID b' = ID b → preserves (only b) (sweep_record b').
Proof.
  intros Hi. unfold sweep_record. frame; apply preserves_ignoreNotFound; try apply _.
  - rewrite Hi. apply DeleteBlob_only.
  - by apply markDeleteFailed_only.
Qed.

Lemma sweep_deleting_only b b' trashed :
  same_blob b b' → preserves (only b) (sweep_deleting env budget trashed b').
Proof.
  intros Hb. unfold sweep_deleting.
  eapply (preserves_bind_val _ (λ p, same_blob b p.1)).
  - frame. by apply sweep_arts_only.
  - intros w [b2 s] w' H. destruct (trashed !! _) as [arts|]; [destruct (IsManifest b')|];
      try (rewrite mret_eq in H; by injection H as <- <- <-).
    by eapply sweep_arts_same.
  - intros [b2 s] (Hi & Hd & Hc). simpl in Hd, Hi. frame; try by apply sweep_record_only.
    + rewrite Hd. apply delete_file_only.
    + by apply after_failure_only.
Qed.

Lemma sweep_one_only b trashed : preserves (only b) (sweep_one env budget trashed b).
Proof.
  unfold sweep_one. eapply (preserves_bind_val _
    (λ r, match r with Ok (_, b') => same_blob b b' | Err _ => True end)).
  - apply preserves_try. by apply UpdateBlobStatus_only.
  - intros w r w' H. unfold try in H. destruct (lift _ w) as [x w1] eqn:E. injection H as <- <-.
    unfold lift in E. destruct (manager.UpdateBlobStatus _ _) as [y w2] eqn:E2. injection E as <- <-.
    apply UpdateBlobStatus_cases in E2 as [[[[e ->]| ->] _]|(row & _ & _ & _ & _ & ->)]; done.
  - intros [[c b']|e] Hb; frame. by apply sweep_deleting_only.
Qed.

(** A blob whose row is not the one that was marked is left alone. *)
Lemma sweep_one_stale b trashed w r w' :
  (∀ row, blobs (g_blob (db w)) !! ID b = Some row → Version row ≠ Version b ∨ Status row ≠ StatusDelete) →
  sweep_one env budget trashed b w = (r, w') → same_tables (db w) (db w').
Proof.
  intros Hst H. unfold sweep_one in H. apply bind_try_inv in H as (x & w1 & H1 & H).
  unfold lift in H1. destruct (manager.UpdateBlobStatus _ _) as [y w2] eqn:E2. injection H1 as <- <-.
  apply UpdateBlobStatus_cases in E2 as [[Hy Hd]|(row & Hr & Hmv & Hne & Hd & ->)]; simpl in Hd.
  - assert (w' = mkWorld (set_g_blob (db w) (db w2)) (ctx_orm w2) (faults w2)) as ->.
    { destruct Hy as [[e ->]| ->]; by injection H as _ <-. }
    simpl. rewrite Hd. by destruct (db w).
  - exfalso. simpl in *. inversion Hmv as [He|row' Hr' Hs Hv Hle]; [by simplify_eq|].
    simpl in *. rewrite Hr in Hr'. injection Hr' as <-.
    assert (Status row = StatusDelete) by (by inversion Hs).
    destruct (Hst _ Hr) as [Hn|Hn]; [apply Hn, Hv; done|done].
Qed.

(** The marked blobs carry the digest of the row with their id. *)
Definition snapshot (d : GCDB) (b : Blob) : Prop :=
  ∀ r, blobs (g_blob d) !! ID b = Some r → Digest r = Digest b.

Lemma snapshot_only b c d d' : only b d d' → snapshot d c → snapshot d' c.
Proof.
  intros Ho Hs r Hr. destruct (decide (ID c = ID b)) as [He|Hn].
  - rewrite He in Hr. destruct (only_row _ _ _ Ho _ Hr) as (r0 & H0 & -> & _). apply Hs. by rewrite He.
  - apply Hs. by rewrite <- (only_rows _ _ _ Ho).
Qed.

Lemma sweep_step_spares b trashed w r w' id row :
  blob_ok (g_blob (db w)) → snapshot (db w) b →
  blobs (g_blob (db w)) !! id = Some row →
  (ID b = id → Version row ≠ Version b ∨ Status row ≠ StatusDelete) →
  sweep_one env budget trashed b w = (r, w') →
  blobs (g_blob (db w')) !! id = Some row ∧
  (Digest row ∈ g_storage (db w) → Digest row ∈ g_storage (db w')).
Proof.
  intros Hok Hsn Hrow Hst H.
  destruct (decide (ID b = id)) as [He|Hn].
  - apply sweep_one_stale in H as (Hb & _ & _ & Hs); [by rewrite Hb, Hs|].
    intros row' Hr'. rewrite He, Hrow in Hr'. injection Hr' as <-. auto.
  - destruct (blobs (g_blob (db w)) !! ID b) as [rb|] eqn:Eb.
    + apply sweep_one_only in H. split; [by rewrite (only_rows _ _ _ H) by done|].
      intros Hin. apply (only_files _ _ _ H); [done|]. intros Hd. apply Hn.
      eapply (bok_digest _ Hok); eauto. rewrite (Hsn _ Eb). done.
    + apply sweep_one_stale in H as (Hb & _ & _ & Hs); [by rewrite Hb, Hs|]. by rewrite Eb.
Qed.

Lemma sweep_spares_rows trashed deleteSet w r w' id row :
  blob_ok (g_blob (db w)) → Forall (snapshot (db w)) deleteSet →
  blobs (g_blob (db w)) !! id = Some row →
  Forall (λ b, ID b = id → Version row ≠ Version b ∨ Status row ≠ StatusDelete) deleteSet →
  sweep env budget trashed deleteSet w = (r, w') →
  blobs (g_blob (db w')) !! id = Some row ∧
  (Digest row ∈ g_storage (db w) → Digest row ∈ g_storage (db w')).
Proof.
  intros Hok Hsn Hrow Hst. revert w Hok Hsn Hrow.
  induction deleteSet as [|b l IH]; intros w Hok Hsn Hrow H; simpl in H; [by injection H as _ <-|].
  apply Forall_cons in Hsn as [Hb Hsn]. apply Forall_cons in Hst as [Hs1 Hst].
  specialize (IH Hst). mbind_inv H.
  { apply preserves_shouldStop in Hm as (E1 & _ & _ & E2). by rewrite E1, E2. }
  apply preserves_shouldStop in Hm as (E1 & _ & _ & E2). rewrite <- E1 in Hok, Hrow. rewrite <- E2.
  assert (Hb' : snapshot (db w0) b) by (unfold snapshot; by rewrite E1).
  assert (Hsn' : Forall (snapshot (db w0)) l)
    by (eapply Forall_impl; [done|]; unfold snapshot; intros c; by rewrite E1).
  destruct a; [by injection H as _ <-|]. mbind_inv H; [by eapply sweep_step_spares|].
  destruct (sweep_step_spares _ _ _ _ _ _ _ Hok Hb' Hrow Hs1 Hm) as [Hr1 Hs2].
  apply sweep_one_only in Hm.
  destruct (IH w1) as [? ?]; auto; [by eapply only_ok|].
  eapply Forall_impl; [done|]. intros c. by eapply snapshot_only.
Qed.

End sweeping.

(** ** Mark *)

(** The row of a marked blob: under deletion candidates, unchanged since. *)
Definition marked (d : GCDB) (b : Blob) : Prop :=
  ∃ row, blobs (g_blob d) !! ID b = Some row ∧ Status row = StatusDelete ∧
    Version row = Version b ∧ Digest row = Digest b ∧ ContentType row = ContentType b.

(** No project references the blob. *)
Definition unreferenced (d : GCDB) (id : Z) : Prop :=
  ∀ p, (p, id) ∉ project_blob (g_blob d).

Lemma UpdateBlobStatus_lift b w x w' :
  lift (manager.UpdateBlobStatus b) w = (x, w') →
  project_blob (g_blob (db w')) = project_blob (g_blob (db w)) ∧
  now (g_blob (db w')) = now (g_blob (db w)) ∧ g_storage (db w') = g_storage (db w) ∧
  (∀ i, i ≠ ID b → blobs (g_blob (db w')) !! i = blobs (g_blob (db w)) !! i) ∧
  (blob_ok (g_blob (db w)) → blob_ok (g_blob (db w'))) ∧
  (((∃ e, x = Err e) ∨ x = Ok (0, b)) ∧ g_blob (db w') = g_blob (db w) ∨
   ∃ row, blobs (g_blob (db w)) !! ID b = Some row ∧
     let v := Version row + 1 in
     blobs (g_blob (db w')) !! ID b = Some (mkBlob (ID row) (Digest row) (ContentType row) (Size row)
       (Status b) (now (g_blob (db w))) v) ∧
     x = Ok (1, mkBlob (ID b) (Digest b) (ContentType b) (Size b) (Status b) (UpdateTime b) v)).
Proof.
  unfold lift. destruct (manager.UpdateBlobStatus _ _) as [y w2] eqn:E. intros [= <- <-]. simpl.
  apply UpdateBlobStatus_cases in E as [[Hy Hd]|(row & Hr & Hmv & Hne & Hd & ->)]; simpl in *.
  - rewrite Hd. split_and!; try done. left. done.
  - do 3 (split; [by rewrite ?Hd|]). split; [|split].
    + intros i Hi. rewrite Hd. simpl. by rewrite lookup_insert_ne.
    + intros Hok. by eapply status_move_ok.
    + right. exists row. split_and!; try done. rewrite Hd. simpl. by rewrite lookup_insert_eq.
Qed.

(** What the marking loop keeps true of its accumulator and its input. *)
Record marking (d0 d : GCDB) (l acc : list Blob) : Prop := mk_marking {
  mk_ok : blob_ok (g_blob d);
  mk_now : now (g_blob d) = now (g_blob d0);
  mk_projects : project_blob (g_blob d) = project_blob (g_blob d0);
  mk_storage : g_storage d = g_storage d0;
  mk_todo : Forall (λ b, blobs (g_blob d) !! ID b = Some b) l;
  mk_done : Forall (marked d) acc;
  mk_ids : NoDup (map ID l ++ map ID acc);
}.

Lemma marking_stop d0 d d' l acc : same_tables d d' → marking d0 d l acc → marking d0 d' l acc.
Proof.
  intros (Hb & _ & _ & Hs) [? ? ? ? ? Hd ?]. split; try (rewrite ?Hb, ?Hs; done).
  eapply Forall_impl; [done|]. unfold marked. intros b. by rewrite Hb.
Qed.

Lemma marking_skip d0 d b l acc : marking d0 d (b :: l) acc → marking d0 d l acc.
Proof.
  intros [? ? ? ? Ht ? Hn]. apply Forall_cons in Ht as [_ Ht].
  simpl in Hn. apply NoDup_cons in Hn as [_ Hn]. by split.
Qed.

Lemma marking_update d0 b l acc w x w' :
  marking d0 (db w) (b :: l) acc →
  lift (manager.UpdateBlobStatus (with_status b StatusDelete)) w = (x, w') →
  marking d0 (db w') l acc ∧
  (∀ c b', x = Ok (c, b') → c ≠ 0 → marking d0 (db w') l (acc ++ [b']) ∧ ID b' = ID b ∧
     Digest b' = Digest b).
Proof.
  intros Hmk H. pose proof (marking_skip _ _ _ _ _ Hmk) as Hsk.
  destruct Hmk as [Hok Hnow Hp Hs Ht Hd Hn].
  apply Forall_cons in Ht as [Hb Ht]. simpl in Hn. apply NoDup_cons in Hn as [Hnb Hn].
  apply UpdateBlobStatus_lift in H as (Hp' & Hnow' & Hs' & Hoth & Hok' & Hx). simpl in Hoth.
  assert (Hne : ∀ c, c ∈ l ++ acc → ID c ≠ ID b).
  { intros c Hc He. apply Hnb. rewrite <- He. rewrite <- map_app. by apply list_elem_of_fmap_2. }
  assert (Ht' : Forall (λ c, blobs (g_blob (db w')) !! ID c = Some c) l).
  { rewrite Forall_forall in *. intros c Hc. rewrite Hoth; [eauto|]. apply Hne. set_solver. }
  assert (Hd' : Forall (marked (db w')) acc).
  { rewrite Forall_forall in *. intros c Hc. destruct (Hd c Hc) as (r & Hr & ?).
    exists r. rewrite Hoth; [done|]. apply Hne. set_solver. }
  assert (Hmk' : marking d0 (db w') l acc) by (split; try done; try congruence; auto).
  split; [done|]. intros c b' -> Hc.
  destruct Hx as [[[[e [=]]|[= -> ->]] _]|(row & Hr & Hl & [= -> ->])]; [done|]. simpl in *.
  split; [|done]. destruct Hmk' as [? ? ? ? ? ? ?]. split; try done.
  - apply Forall_app. split; [done|]. apply Forall_singleton. eexists. split; [done|]. simpl.
    rewrite Hb in Hr. injection Hr as <-. done.
  - rewrite map_app. rewrite app_assoc. rewrite NoDup_app. simpl. split_and!; [done| |apply NoDup_singleton].
    intros z Hz ->%list_elem_of_singleton. done.
Qed.

Lemma mark_candidates_spec gc d0 l acc w S w' :
  dryRun gc = false → marking d0 (db w) l acc →
  mark_candidates gc l acc w = (Ok S, w') →
  marking d0 (db w') [] S ∧ ∀ b, b ∈ S → b ∈ acc ∨ ∃ c, c ∈ l ∧ ID c = ID b ∧ Digest c = Digest b.
Proof.
  intros Hdry. revert acc w. induction l as [|b l IH]; intros acc w Hmk H; simpl in H.
  { injection H as <- <-. auto. }
  rewrite Hdry in H. mbind_inv H. apply preserves_shouldStop in Hm.
  eapply marking_stop in Hmk; [|done]. destruct a; [done|].
  apply bind_try_inv in H as (x & w1 & Hu & H).
  destruct (marking_update _ _ _ _ _ _ _ Hmk Hu) as [Hsk Hacc].
  assert (Hskip : mark_candidates gc l acc w1 = (Ok S, w') →
    marking d0 (db w') [] S ∧ ∀ c, c ∈ S → c ∈ acc ∨ ∃ e, e ∈ b :: l ∧ ID e = ID c ∧ Digest e = Digest c).
  { intros Hm'. destruct (IH _ _ Hsk Hm') as [? Hin]. split; [done|]. intros c Hc.
    destruct (Hin c Hc) as [?|(e & ? & ?)]; [auto|]. right. exists e. split; [by right|done]. }
  destruct x as [[c b']|e]; [|auto]. destruct (c =? 0) eqn:Ec; [auto|].
  destruct (Hacc c b' eq_refl) as (Hmk' & Hi & Hd); [lia|].
  destruct (IH _ _ Hmk' H) as [? Hin]. split; [done|]. intros c' Hc'.
  destruct (Hin c' Hc') as [[?|Heq%list_elem_of_singleton]%elem_of_app|(e & ? & ?)]; [auto| |].
  - right. subst c'. exists b. split; [by left|done].
  - right. exists e. split; [by right|done].
Qed.

(** ** The paging loop *)

(** The rows, the clock and the files stay; associations may go. *)
Definition keeps_rows (d d' : GCDB) : Prop :=
  blobs (g_blob d') = blobs (g_blob d) ∧ blob_seq (g_blob d') = blob_seq (g_blob d) ∧
  now (g_blob d') = now (g_blob d) ∧ g_storage d' = g_storage d.

#[export] Instance keeps_rows_po : PreOrder keeps_rows.
Proof. unfold keeps_rows. split; [by intros d|]. intros a b c. naive_solver congruence. Qed.

Lemma same_tables_keeps_rows d d' : same_tables d d' → keeps_rows d d'.
Proof. unfold same_tables, keeps_rows. intros (-> & _ & _ & ->). done. Qed.

Lemma keeps_rows_service {A} (m : M GCDB A) : preserves same_tables m → preserves keeps_rows m.
Proof. apply preserves_weaken, same_tables_keeps_rows. Qed.
#[export] Hint Resolve keeps_rows_service : frame.

Lemma keeps_rows_ok d d' : keeps_rows d d' → blob_ok (g_blob d) → blob_ok (g_blob d').
Proof. intros (Hb & Hs & _) [H1 H2 H3]. split; rewrite ?Hb, ?Hs; eauto. Qed.

Lemma list_page_reads p last t : preserves eq (list_page p last t).
Proof. unfold list_page. frame. Qed.
#[export] Hint Resolve list_page_reads : frame.

Lemma FindBlobs_reads p bs : preserves eq (dao.FindBlobsShouldUnassociatedWithProject p bs).
Proof. unfold dao.FindBlobsShouldUnassociatedWithProject. frame. Qed.
#[export] Hint Resolve FindBlobs_reads : frame.

Definition blob_rows (d d' : BlobDB) : Prop :=
  blobs d' = blobs d ∧ blob_seq d' = blob_seq d ∧ now d' = now d.
#[export] Instance blob_rows_po : PreOrder blob_rows.
Proof. unfold blob_rows. split; [by intros d|]. intros a b c. naive_solver congruence. Qed.

Lemma cleanup_keeps_rows p bs :
  preserves keeps_rows (lift (_ ← manager.CleanupAssociationsForProject p bs; mret ([] : list Blob))).
Proof.
  eapply preserves_weaken; [|apply (preserves_lift blob_rows)].
  - unfold keeps_rows, blob_rows. naive_solver.
  - unfold manager.CleanupAssociationsForProject. frame.
    + eapply preserves_weaken; [|apply FindBlobs_reads]. by intros d d' <-.
    + unfold dao.DeleteProjectBlob. frame. by apply preserves_stmt; [apply _|].
Qed.
#[export] Hint Resolve cleanup_keeps_rows : frame.

Lemma untagged_pages_keeps fuel gc p last t o : preserves keeps_rows (untagged_pages fuel gc p last t o).
Proof.
  revert last o. induction fuel as [|fuel IH]; intros last o; simpl; [frame|]. frame.
Qed.

(** How many blobs a page may still start from. *)
Definition remaining (d : GCDB) (lastBlobID : Z) : nat :=
  length (filter (λ b, lastBlobID <= ID b) ((map_to_list (blobs (g_blob d))).*2)).

Lemma project_blobs_NoDup d (P : Blob → Prop) `{!∀ b, Decision (P b)} p :
  blob_ok d → NoDup (ID <$> filter P (dao.project_blobs d p)).
Proof.
  intros Hok. assert (Hnd : NoDup (dao.project_blobs d p)).
  { eapply (NoDup_fmap_1 Digest). by apply blobs_digests_NoDup. }
  apply NoDup_fmap_2_strong; [|by apply NoDup_filter].
  intros b c Hb Hc He. unfold dao.project_blobs in *.
  apply list_elem_of_filter in Hb as [_ [_ Hb]%list_elem_of_filter].
  apply list_elem_of_filter in Hc as [_ [_ Hc]%list_elem_of_filter].
  apply list_elem_of_fmap in Hb as ([i b'] & -> & Hb), Hc as ([j c'] & -> & Hc).
  apply elem_of_map_to_list in Hb, Hc. simpl in *.
  rewrite (bok_ids _ Hok _ _ Hb), (bok_ids _ Hok _ _ Hc) in He. congruence.
Qed.

(** A full page moves the start of the next one forward. *)
Lemma full_page_progress p lastID t w bs w' b :
  blob_ok (g_blob (db w)) →
  lift (list_page p lastID t) w = (Ok bs, w') → (ps ≤ length bs)%nat → last bs = Some b →
  (remaining (db w) (ID b) < remaining (db w) lastID)%nat.
Proof.
  intros Hok H Hlen Hlast. unfold lift in H. destruct (list_page _ _ _ _) as [y w1] eqn:E.
  injection H as -> <-. unfold list_page in E. mbind_inv E. apply FromContext_cases in Hm as [-> _]. clear a.
  apply query_cases in E as (_ & _ & [[e Hq]|Hq]); [done|]. injection Hq as ->. simpl in *.
  set (F := filter _ _) in *. set (S := merge_sort blob_le F) in *.
  assert (HS : S ≡ₚ F) by apply merge_sort_Permutation.
  assert (Hsort : StronglySorted blob_le S).
  { apply StronglySorted_merge_sort; intros x y; unfold blob_le; lia. }
  destruct (head (take ps S)) as [a|] eqn:Ha;
    [|destruct (take ps S); [by simpl in Hlast|done]].
  assert (Hlt : ID a < ID b).
  { apply (sorted_last_lt ID (take ps S)); try done.
    - rewrite <- (take_drop ps S) in Hsort. by apply StronglySorted_app_1_l in Hsort.
    - rewrite fmap_take. eapply sublist_NoDup; [|apply sublist_take]. rewrite HS.
      by apply project_blobs_NoDup.
    - unfold ps in Hlen |- *. lia. }
  assert (Hin : a ∈ F).
  { rewrite <- HS. rewrite <- (take_drop ps S). apply elem_of_app. left.
    destruct (take ps S) as [|z zs]; [done|]. injection Ha as ->. left. }
  unfold F in Hin. apply list_elem_of_filter in Hin as [[_ Hge] Hin].
  unfold dao.project_blobs in Hin. apply list_elem_of_filter in Hin as [_ Hin].
  unfold remaining. eapply length_filter_lt; [|done|done|lia]. intros y Hy. simpl in *. lia.
Qed.

Lemma untagged_pages_terminates fuel gc p lastID t o w :
  blob_ok (g_blob (db w)) → (remaining (db w) lastID < fuel)%nat →
  fst (untagged_pages fuel gc p lastID t o w) ≠ Ok None.
Proof.
  revert lastID o w. induction fuel as [|fuel IH]; intros lastID o w Hok Hlt; [lia|].
  simpl. rewrite bind_eq. destruct (shouldStop w) as [[[]|e] w1] eqn:E1; [done| |done].
  apply preserves_shouldStop in E1 as (Hb1 & _).
  assert (Hr1 : ∀ x, remaining (db w1) x = remaining (db w) x)
    by (intros x; unfold remaining; by rewrite Hb1).
  rewrite <- Hb1 in Hok. rewrite bind_eq. unfold try at 1.
  destruct (lift (list_page p lastID t) w1) as [[bs|e] w2] eqn:E2; [|done].
  rewrite bind_eq. unfold try at 1.
  match goal with |- context [(if dryRun gc then ?x else ?y) w2] =>
    destruct ((if dryRun gc then x else y) w2) as [[found|e] w3] eqn:E3 end; [|done].
  destruct (_ <? _)%nat eqn:Elen; [done|]. apply Nat.ltb_ge in Elen.
  destruct (last bs) as [b|] eqn:El; [|done].
  pose proof (full_page_progress _ _ _ _ _ _ _ Hok E2 Elen El) as Hp.
  apply (preserves_lift_reads _ (list_page_reads _ _ _)) in E2 as (Hb2 & _).
  assert (Hk3 : keeps_rows (db w2) (db w3)).
  { destruct (dryRun gc).
    - by apply same_tables_keeps_rows, (preserves_lift_reads _ (FindBlobs_reads _ _) _ _ _ E3).
    - by eapply cleanup_keeps_rows. }
  apply IH.
  - eapply keeps_rows_ok; [done|]. by rewrite Hb2.
  - destruct Hk3 as (Hb3 & _).
    assert (remaining (db w3) (ID b) = remaining (db w1) (ID b)) as ->
      by (unfold remaining; by rewrite Hb3, Hb2).
    pose proof (Hr1 lastID). pose proof (Hr1 (ID b)). lia.
Qed.

Lemma remaining_le d x : (remaining d x ≤ size (blobs (g_blob d)))%nat.
Proof.
  unfold remaining. rewrite length_filter, length_fmap. apply Nat.eq_le_incl. apply length_map_to_list.
Qed.

Lemma untagged_projects_terminates fuel gc l o w :
  blob_ok (g_blob (db w)) → (size (blobs (g_blob (db w))) < fuel)%nat →
  fst (untagged_projects fuel gc l o w) ≠ Ok None.
Proof.
  revert o w. induction l as [|x l IH]; intros o w Hok Hlt; [done|]. simpl. rewrite bind_eq.
  destruct (shouldStop w) as [[[]|e] w1] eqn:E1; [done| |done].
  apply preserves_shouldStop in E1 as (Hb1 & _). rewrite <- Hb1 in Hok, Hlt.
  destruct x as [p|e]; [|by apply IH]. rewrite bind_eq. unfold clock. rewrite bind_eq.
  pose proof (untagged_pages_terminates fuel gc p 0 (now (g_blob (db w1)) - timeWindowHours gc * 3600)
    o w1 Hok) as Ht.
  destruct (untagged_pages _ _ _ _ _ _ w1) as [[[o'|]|e] w2] eqn:E2; [|..|done].
  - apply untagged_pages_keeps in E2. apply IH; [by eapply keeps_rows_ok|].
    destruct E2 as (-> & _). done.
  - pose proof (remaining_le (db w1) 0). simpl in Ht. by destruct Ht; [lia|].
Qed.

(** Outside a dry run the paging loop collects nothing. *)
Lemma untagged_pages_sweeps fuel gc p lastID t o w o' w' :
  dryRun gc = false → untagged_pages fuel gc p lastID t o w = (Ok (Some o'), w') → o' = o.
Proof.
  intros Hdry. revert lastID o w. induction fuel as [|fuel IH]; intros lastID o w H; [done|].
  simpl in H. mbind_inv H. destruct a; [done|]. apply bind_try_inv in H as (r & w1 & _ & H).
  destruct r as [bs|e]; [|by injection H]. rewrite Hdry in H.
  apply bind_try_inv in H as (r2 & w2 & Hc & H). destruct r2 as [found|e]; [|by injection H].
  assert (found = []) as ->.
  { unfold lift in Hc. match type of Hc with (let '(_, _) := ?m in _) = _ =>
      destruct m as [y w3] eqn:E end. injection Hc as -> _.
    mbind_inv E. by injection E. }
  rewrite app_nil_r in H. destruct (_ <? _)%nat; [by injection H|].
  destruct (last bs); [by eapply IH|by injection H].
Qed.

Lemma untagged_projects_sweeps fuel gc l o w o' w' :
  dryRun gc = false → untagged_projects fuel gc l o w = (Ok (Some o'), w') → o' = o.
Proof.
  intros Hdry. revert o w. induction l as [|x l IH]; intros o w H; simpl in H; [by injection H|].
  mbind_inv H. destruct a; [done|]. destruct x as [p|e]; [|by eapply IH].
  mbind_inv H. mbind_inv H. destruct a0 as [o1|]; [|done].
  apply untagged_pages_sweeps in Hm1 as ->; [|done]. by eapply IH.
Qed.

Section marking_phase.
Context (env : GCEnv) `{!GCEnvOk env}.

Lemma deletedArt_keeps gc : preserves keeps_rows (deletedArt env gc).
Proof.
  unfold deletedArt. frame.
  - generalize ([] : list ArtifactTrash). induction a as [|u l IH]; intros acc; simpl; [frame|].
    frame. eapply preserves_weaken; [|apply ok_Delete]. unfold keeps_rows. naive_solver.
  - apply keeps_rows_service. unfold artrash_Filter. frame.
Qed.

Lemma untagged_projects_keeps fuel gc l o : preserves keeps_rows (untagged_projects fuel gc l o).
Proof.
  revert o. induction l as [|x l IH]; intros o; simpl; [frame|]. frame. apply untagged_pages_keeps.
Qed.

Lemma useless_spec gc arts w bs w' :
  dryRun gc = false → blob_ok (g_blob (db w)) → uselessBlobs gc arts w = (Ok bs, w') →
  marking (db w') (db w') bs [] ∧ same_tables (db w) (db w') ∧
  Forall (λ b, unreferenced (db w') (ID b) ∧
               UpdateTime b <= now (g_blob (db w')) - timeWindowHours gc * 3600) bs.
Proof.
  intros Hdry Hok H. assert (Hs : same_tables (db w) (db w')) by (by eapply uselessBlobs_reads; eauto).
  assert (Hb' : g_blob (db w') = g_blob (db w)) by apply Hs.
  unfold uselessBlobs in H. rewrite Hdry in H. mbind_inv H. injection H as -> ->.
  unfold lift in Hm. destruct (dao.GetBlobsNotRefedByProjectBlob _ _) as [y w1] eqn:E.
  injection Hm as -> _. unfold dao.GetBlobsNotRefedByProjectBlob in E. mbind_inv E.
  apply FromContext_cases in Hm as [-> _].
  apply query_cases in E as (_ & _ & [[e Hq]|Hq]); [done|]. injection Hq as ->. simpl in *.
  assert (Hin : ∀ b, b ∈ (map_to_list (blobs (g_blob (db w)))).*2 → blobs (g_blob (db w)) !! ID b = Some b).
  { intros b Hb. apply list_elem_of_fmap in Hb as ([i c] & -> & Hb). apply elem_of_map_to_list in Hb.
    simpl. by rewrite (bok_ids _ Hok _ _ Hb). }
  split_and!; [|done|].
  - split; rewrite ?Hb'; try done.
    + apply Forall_forall. intros b [_ Hb]%list_elem_of_filter. eauto.
    + rewrite app_nil_r. apply NoDup_fmap_2_strong.
      * intros b c [_ Hb]%list_elem_of_filter [_ Hc]%list_elem_of_filter He.
        apply Hin in Hb, Hc. rewrite He in Hb. congruence.
      * eapply (NoDup_fmap_1 Digest). by apply blobs_digests_NoDup.
  - apply Forall_forall. intros b [[Hp Ht] Hb]%list_elem_of_filter. rewrite Hb'. split; [|done].
    intros p Hin'. rewrite Hb' in Hin'. apply (Hp (p, ID b)); [done|done].
Qed.

End marking_phase.

(** ** Properties *)

(** C19 (safety). The mark phase of a real run selects only blobs that no
    project references and that were not touched within the time window; it
    leaves each of them [StatusDelete] at the version it hands to the sweep, and
    removes no file.  For every fault schedule, stop signal and service. *)
Theorem mark_selects_garbage env `{!GCEnvOk env} fuel gc w arts deleteSet w' :
  dryRun gc = false → blob_ok (g_blob (db w)) →
  mark env fuel gc w = (Ok (Some (arts, deleteSet)), w') →
  blob_ok (g_blob (db w')) ∧ g_storage (db w') = g_storage (db w) ∧
  Forall (λ b, marked (db w') b ∧ unreferenced (db w') (ID b) ∧
    ∃ row, blobs (g_blob (db w)) !! ID b = Some row ∧ Digest row = Digest b ∧
      UpdateTime row <= now (g_blob (db w)) - timeWindowHours gc * 3600) deleteSet.
Proof.
  intros Hdry Hok H. unfold mark in H. mbind_inv H. mbind_inv H.
  apply deletedArt_keeps in Hm; [|done]. apply untagged_projects_keeps in Hm0 as Hk2.
  destruct a0 as [o|]; [|done]. apply untagged_projects_sweeps in Hm0 as ->; [|done].
  assert (Hk : keeps_rows (db w) (db w1)) by (by etransitivity). clear Hm Hk2.
  mbind_inv H. rewrite app_nil_r in H.
  apply useless_spec in Hm as (Hmk & (Hb & _ & _ & Hs) & Hall); [|done|by eapply keeps_rows_ok].
  destruct Hk as (K1 & K2 & K3 & K4).
  assert (Hm : mark_candidates gc a0 [] w2 = (Ok deleteSet, w')).
  { destruct a0 as [|b0 bs0]; [by injection H as <- <- <-|]. mbind_inv H. by injection H as <- <- <-. }
  apply (mark_candidates_spec _ (db w2)) in Hm as ([? _ Hp Hst _ Hd _] & Hin); [|done|done].
  split_and!; [done|congruence|]. rewrite Forall_forall in *. intros b Hbin.
  split; [by apply Hd|]. destruct (Hin b Hbin) as [[]%not_elem_of_nil|(c & Hc & Hci & Hcd)].
  destruct (Hall c Hc) as [Hun Ht]. split.
  - unfold unreferenced in *. rewrite Hp, <- Hci. done.
  - exists c. pose proof (mk_todo _ _ _ _ Hmk) as Htd. rewrite Forall_forall in Htd.
    specialize (Htd c Hc). rewrite Hb, K1, Hci in Htd. rewrite Hb, K3 in Ht. done.
Qed.

(** C8 (safety). The sweep deletes only what was marked and has not been
    touched since: a blob whose row changed version or status after the mark (a
    push or a HEAD request revived it), or that was never marked, keeps its row
    and its file, whatever fails or stops in between. *)
Theorem sweep_spares_touched env `{!GCEnvOk env} budget trashed deleteSet w r w' id row :
  blob_ok (g_blob (db w)) → Forall (snapshot (db w)) deleteSet →
  blobs (g_blob (db w)) !! id = Some row →
  Forall (λ b, ID b = id → Version row ≠ Version b ∨ Status row ≠ StatusDelete) deleteSet →
  sweep env budget trashed deleteSet w = (r, w') →
  blobs (g_blob (db w')) !! id = Some row ∧
  (Digest row ∈ g_storage (db w) → Digest row ∈ g_storage (db w')).
Proof. intros. by eapply sweep_spares_rows. Qed.

(** Further property (safety). A dry run changes no row of any table, no trash record and no
    file, whatever its outcome. *)
Theorem dry_run_changes_nothing env `{!GCEnvOk env} budget fuel gc w r w' :
  dryRun gc = true → Run env budget fuel gc w = (r, w') → same_tables (db w) (db w').
Proof.
  intros Hdry. apply (λ H, H : preserves same_tables (Run env budget fuel gc)). unfold Run.
  rewrite Hdry. frame. by apply mark_dry.
Qed.

(** Further property (termination). The job's only unbounded loop, the paging over a
    project's blobs whose pages overlap in one blob, ends: with more rounds per
    project than there are blobs the job never runs out of them. *)
Theorem gc_terminates env `{!GCEnvOk env} budget fuel gc w :
  blob_ok (g_blob (db w)) → (size (blobs (g_blob (db w))) < fuel)%nat →
  fst (Run env budget fuel gc w) ≠ Ok None.
Proof.
  intros Hok Hlt. unfold Run. rewrite bind_eq.
  destruct (regctl_Health env w) as [[[]|e] w1] eqn:E1; [|done].
  apply ok_Health in E1 as (Hb1 & _). rewrite <- Hb1 in Hok, Hlt.
  rewrite bind_eq. unfold try at 1.
  assert (Hmark : fst (mark env fuel gc w1) ≠ Ok None).
  { unfold mark. rewrite bind_eq. destruct (deletedArt env gc w1) as [[arts|e] w2] eqn:E2; [|done].
    apply deletedArt_keeps in E2; [|done]. rewrite bind_eq.
    pose proof (untagged_projects_terminates fuel gc (project_ListAll env) [] w2) as Ht.
    unfold markOrSweepUntaggedBlobs.
    destruct (untagged_projects _ _ _ _ w2) as [[[o|]|e] w3]; [| |done].
    - rewrite bind_eq. destruct (uselessBlobs gc arts w3) as [[bs|e] w4]; [|done].
      destruct (bs ++ o); [done|]. rewrite bind_eq. by destruct (mark_candidates _ _ _ w4) as [[]].
    - destruct Ht; [by eapply keeps_rows_ok| |done]. destruct E2 as (-> & _). done. }
  destruct (mark env fuel gc w1) as [[[[arts S]|]|e] w2]; [| |].
  - destruct (dryRun gc); [done|]. rewrite bind_eq. unfold try.
    destruct (sweep _ _ _ _ w2) as [[[]|e] w3]; [|destruct (is_stop e); [|done]];
      rewrite bind_eq; by destruct (cleanCache env w3) as [[]].
  - done.
  - by destruct (is_stop e).
Qed.

(** *** A concrete registry: the services answer and one blob is garbage *)

Definition ex_DeleteBlob (g : string) : M GCDB unit := λ w,
  (Ok tt, with_db w (mkGCDB (g_blob (db w)) (g_trash (db w)) (g_live (db w))
                       (g_storage (db w) ∖ {[g]}) (g_stops (db w)))).

Definition ex_env : GCEnv := mkGCEnv (mret []) (λ _, mret tt) [Ok 7]
  (λ _ _, mret true) (λ _ _, mret tt) (mret tt) (λ _ _, mret tt) ex_DeleteBlob (mret tt).

#[export] Instance ex_env_ok : GCEnvOk ex_env.
Proof. split; try (intros w r w' [= _ <-]; done); try (intros ? ? w r w' [= _ <-]; done).
  - intros i w r w' [= _ <-]. done.
  - intros g w r w' [= _ <-]. split_and!; try done. by right.
Qed.

Definition ex_gcdb (s : BlobStatus) (v : Z) : GCDB :=
  mkGCDB (mkBlobDB (<[1 := mkBlob 1 "sha256:aa" "application/octet-stream" 10 s 0 v]> ∅) ∅ ∅ [] 1 100000)
    ∅ [] {["sha256:aa"%string]} [].

Lemma ex_gcdb_ok s v : blob_ok (g_blob (ex_gcdb s v)).
Proof.
  apply (blob_ok_insert (mkBlobDB ∅ ∅ ∅ [] 0 100000) 1
    (mkBlob 1 "sha256:aa" "application/octet-stream" 10 s 0 v)); done.
Qed.

Lemma mark_selects_garbage_witness :
  let w := mkWorld (ex_gcdb StatusNone 3) true [] in
  match mark ex_env 5 (mkGC true 2 false) w with
  | (Ok (Some (_, dset)), w') => length dset = 1%nat ∧ Forall (marked (db w')) dset
  | _ => False
  end.
Proof.
  intros w. destruct (mark ex_env 5 (mkGC true 2 false) w) as [r w'] eqn:E.
  assert (Hl : match r with Ok (Some (_, dset)) => length dset = 1%nat | _ => False end).
  { apply (f_equal fst) in E. simpl in E. subst r. vm_compute. reflexivity. }
  destruct r as [[[arts dset]|]|]; try done. split; [done|].
  destruct (mark_selects_garbage ex_env 5 (mkGC true 2 false) w arts dset w' eq_refl (ex_gcdb_ok _ _) E)
    as (_ & _ & HS).
  eapply Forall_impl; [exact HS|]. intros b Hb. apply Hb.
Defined.

(** The blob was marked at version 4 and touched since. *)
Lemma sweep_spares_touched_witness :
  let w := mkWorld (ex_gcdb StatusNone 5) true [] in
  let S := [mkBlob 1 "sha256:aa" "application/octet-stream" 10 StatusDelete 0 4] in
  let x := sweep ex_env 3 ∅ S w in
  "sha256:aa"%string ∈ g_storage (db (snd x)).
Proof.
  intros w S x.
  refine (proj2 (sweep_spares_touched ex_env 3 ∅ S w (fst x) (snd x) 1
    (mkBlob 1 "sha256:aa" "application/octet-stream" 10 StatusNone 0 5)
    (ex_gcdb_ok _ _) _ _ _ (surjective_pairing x)) _).
  - apply Forall_singleton. intros r Hr. vm_compute in Hr. by injection Hr as <-.
  - vm_compute. reflexivity.
  - apply Forall_singleton. intros _. left. simpl. lia.
  - simpl. set_solver.
Defined.

Lemma dry_run_changes_nothing_witness :
  let w := mkWorld (ex_gcdb StatusNone 3) true [] in
  same_tables (db w) (db (snd (Run ex_env 3 5 (mkGC true 2 true) w))).
Proof.
  intros w. apply (dry_run_changes_nothing ex_env 3 5 (mkGC true 2 true) w
    (fst (Run ex_env 3 5 (mkGC true 2 true) w)) (snd (Run ex_env 3 5 (mkGC true 2 true) w)) eq_refl).
  apply surjective_pairing.
Defined.

Lemma gc_terminates_witness :
  let w := mkWorld (ex_gcdb StatusNone 3) true [] in
  fst (Run ex_env 3 2 (mkGC true 2 false) w) ≠ Ok None ∧
  g_storage (db (snd (Run ex_env 3 2 (mkGC true 2 false) w))) = ∅.
Proof.
  intros w. split; [|vm_compute; reflexivity].
  apply (gc_terminates ex_env 3 2 (mkGC true 2 false) w); [apply ex_gcdb_ok|vm_compute; lia].
Defined.
