(* ===== verification/JobStatus.v ===== *)
(** * Job life cycle: [src/jobservice/job/status.go],
    [src/jobservice/job/tracker.go], [src/jobservice/job/models.go],
    [src/jobservice/common/rds/scripts.go]

    A job's stats live in a Redis hash; its status changes through Lua scripts
    that run atomically, and a tracker in the job service's memory mirrors the
    hash.  The Redis state is a map from job ids to hashes (field texts, the ACK
    document, the expiry), the in-progress track, and the sorted sets of
    periodic executions.  Each Redis round trip of a tracker may fail with an
    error of the fault schedule.  Parameters are kept as their JSON text.  The
    namespace of the keys is fixed. *)

From S2P Require Import Prelude GoErrors GoStrings Orm.
Open Scope Z_scope.

(** ** [src/jobservice/job/status.go] *)

Definition PendingStatus : string := "Pending".
Definition RunningStatus : string := "Running".
Definition StoppedStatus : string := "Stopped".
Definition ErrorStatus : string := "Error".
Definition SuccessStatus : string := "Success".
Definition ScheduledStatus : string := "Scheduled".

Definition Code (s : string) : Z :=
  if bool_decide (s = PendingStatus) then 0
  else if bool_decide (s = ScheduledStatus) then 1
  else if bool_decide (s = RunningStatus) then 2
  else if bool_decide (s = StoppedStatus) then 3
  else if bool_decide (s = ErrorStatus) then 3
  else if bool_decide (s = SuccessStatus) then 3
  else -1.

(** [None] is the nil error. *)
Definition Validate (s : string) : option error :=
  if Code s =? -1 then Some (PlainError (s +:+ " is not valid job status")) else None.

Definition Compare (s another : string) : Z := Code s - Code another.
Definition Before (s another : string) : bool := Code s - Code another <? 0.
Definition After (s another : string) : bool := 0 <? Code s - Code another.
Definition Equal (s another : string) : bool := Code s - Code another =? 0.
Definition Final (s : string) : bool := Code s =? 3.

(** ** The Redis state *)

Record Ack := mkAck { a_status : string; a_revision : Z; a_check_in_at : Z }.

Record Hash := mkHash { fields : gmap string string; ack : option Ack; ttl : option Z }.
Definition empty_hash : Hash := mkHash ∅ None None.

Record RedisDB := mkRedis {
  stats : gmap string Hash;                (* job stats by job id *)
  track : gmap string Z;                   (* in-progress track *)
  executions : gmap (string * string) Z;   (* (upstream job, execution), score *)
}.

Definition hash (d : RedisDB) (jobID : string) : Hash := default empty_hash (stats d !! jobID).
Definition hget (d : RedisDB) (jobID field : string) : option string := fields (hash d jobID) !! field.

Definition set_hash (d : RedisDB) (jobID : string) (h : Hash) : RedisDB :=
  mkRedis (<[jobID := h]> (stats d)) (track d) (executions d).

Definition hmset (d : RedisDB) (jobID : string) (kvs : list (string * string)) : RedisDB :=
  let h := hash d jobID in
  set_hash d jobID (mkHash (foldl (λ m kv, <[kv.1 := kv.2]> m) (fields h) kvs) (ack h) (ttl h)).

(** Lua's [tonumber(v) or 0] on a hash field. *)
Definition tonumber_or_0 (v : option string) : Z := default 0 (v ≫= ParseInt).

(** ** [src/jobservice/common/rds/scripts.go] *)

Definition stCode (st : option string) : Z :=
  match st with
  | None => 0
  | Some s =>
      if bool_decide (s = PendingStatus) then 0
      else if bool_decide (s = ScheduledStatus) then 1
      else if bool_decide (s = RunningStatus) then 2
      else if bool_decide (s = SuccessStatus) then 3
      else if bool_decide (s = StoppedStatus) then 3
      else if bool_decide (s = ErrorStatus) then 3
      else 0
  end.

(** One [hincrby -1] of the job's entry, removed when it is not positive. *)
Definition untrack (d : RedisDB) (jobID : string) : RedisDB :=
  let c := default 0 (track d !! jobID) - 1 in
  mkRedis (stats d)
    (if c <=? 0 then delete jobID (track d) else <[jobID := c]> (track d)) (executions d).

Definition set_ttl (d : RedisDB) (jobID : string) (t : option Z) : RedisDB :=
  let h := hash d jobID in set_hash d jobID (mkHash (fields h) (ack h) t).

(** The reply is ['ok'], or the stored status; [None] is a nil reply. *)
Definition SetStatusScript (jobID status : string) (aRev time : Z) (d : RedisDB)
    : option string * RedisDB :=
  let st := hget d jobID "status" in
  let code := stCode st in
  let aCode := stCode (Some status) in
  let rev := tonumber_or_0 (hget d jobID "revision") in
  if (rev <? aRev) || ((rev =? aRev) && ((code <? aCode) || bool_decide (st = Some status)))
  then
    let d := hmset d jobID [("status", status); ("update_time", pretty time)]%string in
    let d :=
      if aCode =? 3
      then
        let d := untrack d jobID in
        if bool_decide (status = SuccessStatus) || bool_decide (status = StoppedStatus)
        then set_ttl d jobID (Some 86400)
        else if bool_decide (status = ErrorStatus) then set_ttl d jobID (Some 604800)
        else set_ttl d jobID None
      else d in
    (Some "ok"%string, d)
  else (st, d).

(** [compare(status, revision)] of the ACK script. *)
Definition ack_compare (a : Ack) (status : string) (aRev aCheckInT : Z) : bool :=
  (a_revision a <? aRev)
  || ((a_revision a =? aRev) && (stCode (Some (a_status a)) <=? stCode (Some status)))
  || ((a_revision a =? aRev) && negb (aCheckInT =? 0)).

Definition canSetAck (d : RedisDB) (jobID status : string) (nrev checkIn : Z) : bool :=
  match ack (hash d jobID) with
  | Some a => ack_compare a status nrev checkIn
  | None => tonumber_or_0 (hget d jobID "revision") <=? nrev
  end.

Definition HookAckScript (jobID status : string) (rev checkIn : Z) (d : RedisDB) : string * RedisDB :=
  if canSetAck d jobID status rev checkIn
  then
    let h := hash d jobID in
    let d := set_hash d jobID (mkHash (fields h) (Some (mkAck status rev checkIn)) (ttl h)) in
    let d := if stCode (Some status) =? 3 then untrack d jobID else d in
    ("ok"%string, d)
  else ("none"%string, d).

Definition StatusResetScript (jobID status : string) (now : Z) (d : RedisDB) : RedisDB :=
  let d := hmset d jobID [("status", status); ("revision", pretty now); ("update_time", pretty now)]%string in
  let h := hash d jobID in
  let d := set_hash d jobID
    (mkHash (delete "check_in_at" (delete "check_in" (fields h)))%string None (ttl h)) in
  mkRedis (stats d) (<[jobID := 2]> (track d)) (executions d).

(** ** [src/jobservice/job/models.go] *)

Record StatsInfo := mkInfo {
  JobID : string; Status : string; JobName : string; JobKind : string; IsUnique : bool;
  RefLink : string; CronSpec : string; EnqueueTime : Z; UpdateTime : Z; RunAt : Z;
  CheckIn : string; CheckInAt : Z; DieAt : Z; WebHookURL : string; UpstreamJobID : string;
  NumericPID : Z; Parameters : string; Revision : Z; HookAck : option Ack }.

Record StatusChange := mkChange {
  sc_JobID : string; sc_Status : string; sc_CheckIn : string; sc_Metadata : StatsInfo }.

Record SimpleStatusChange := mkSimple {
  ss_JobID : string; ss_TargetStatus : string; ss_Revision : Z }.

Definition KindGeneric : string := "Generic".
Definition KindPeriodic : string := "Periodic".
Definition KindScheduled : string := "Scheduled".

Definition Stats_Validate (i : option StatsInfo) : option error :=
  match i with
  | None => Some (New "nil stats body")
  | Some i =>
      if IsEmptyStr (JobID i) then Some (New "missing job ID in job stats")
      else if IsEmptyStr (JobName i) then Some (New "missing job name in job stats")
      else if IsEmptyStr (JobKind i) then Some (New "missing job name in job stats")
      else if bool_decide (JobKind i ≠ KindGeneric ∧ JobKind i ≠ KindPeriodic ∧ JobKind i ≠ KindScheduled)
      then Some (New ("job kind is not supported: " +:+ JobKind i))
      else
        match Validate (Status i) with
        | Some e => Some e
        | None =>
            if bool_decide (JobKind i = KindPeriodic) && IsEmptyStr (CronSpec i)
            then Some (New "missing cron spec for periodic job")
            else if bool_decide (JobKind i = KindScheduled) && (RunAt i =? 0)
            then Some (New "enqueue timestamp missing for scheduled job")
            else None
        end
  end.

(** ** [src/jobservice/job/tracker.go] *)

Record JobState := mkJob {
  redis : RedisDB;
  jobStats : StatsInfo;
  retryList : list SimpleStatusChange;
  clock : Z;
}.

Definition set_redis (s : JobState) (d : RedisDB) : JobState :=
  mkJob d (jobStats s) (retryList s) (clock s).
Definition set_stats (s : JobState) (i : StatsInfo) : JobState :=
  mkJob (redis s) i (retryList s) (clock s).

(** Access to the tracker's memory; it cannot fail. *)
Definition gets {A} (f : JobState → A) : M JobState A := λ w, (Ok (f (db w)), w).
Definition modify (f : JobState → JobState) : M JobState unit := λ w, (Ok tt, with_db w (f (db w))).

(** One Redis command. *)
Definition redis_do {A} (f : RedisDB → A * RedisDB) : M JobState A :=
  stmt (λ s, let '(a, d) := f (redis s) in (Ok a, set_redis s d)).

Definition IsStatusMismatchError (e : error) : bool :=
  match e with StatusMismatch _ _ => true | _ => false end.

Definition wrap {A} (m : M JobState A) (msg : string) : M JobState A :=
  r ← try m;
  match r with
  | Ok a => mret a
  | Err e => fail (default e (Wrap (Some e) msg))
  end.

Section tracker.
Context (jobID : string) (callback : option (string → StatusChange → M JobState unit)).

Definition info_refresh (i : StatsInfo) (status : string) (checkIn : option string) (now : Z) : StatsInfo :=
  mkInfo (JobID i) status (JobName i) (JobKind i) (IsUnique i) (RefLink i) (CronSpec i)
    (EnqueueTime i) now (RunAt i) (default (CheckIn i) checkIn)
    (match checkIn with Some _ => now | None => CheckInAt i end) (DieAt i) (WebHookURL i)
    (UpstreamJobID i) (NumericPID i) (Parameters i) (Revision i) (HookAck i).

Definition refresh (targetStatus : string) (checkIn : option string) : M JobState unit :=
  modify (λ s, set_stats s (info_refresh (jobStats s) targetStatus checkIn (clock s))).

Definition fireHookEvent (status : string) (checkIn : string) : M JobState unit :=
  i ← gets jobStats;
  if IsEmptyStr (WebHookURL i) then mret tt
  else
    match callback with
    | Some cb => cb (WebHookURL i) (mkChange jobID status checkIn i)
    | None => mret tt
    end.

Definition compareAndSet (targetStatus : string) : M JobState unit :=
  rev ← gets (λ s, Revision (jobStats s));
  now ← gets clock;
  reply ← wrap (
    o ← redis_do (SetStatusScript jobID targetStatus rev now);
    match o with
    | Some s => mret s
    | None => fail (PlainError "redigo: nil returned")
    end) "compare and set status error";
  if bool_decide (reply = "ok"%string) then mret tt
  else fail (StatusMismatch reply targetStatus).

Definition UpdateStatusWithRetry (targetStatus : string) : M JobState unit :=
  r ← try (compareAndSet targetStatus);
  match r with
  | Ok _ => mret tt
  | Err e =>
      _ ← (if IsStatusMismatchError e then mret tt
           else modify (λ s, mkJob (redis s) (jobStats s)
                  (retryList s ++ [mkSimple jobID targetStatus (Revision (jobStats s))]) (clock s)));
      fail e
  end.

Definition setStatus (status : string) : M JobState unit :=
  r ← try (UpdateStatusWithRetry status);
  match r with
  | Err (StatusMismatch c t) => fail (StatusMismatch c t)
  | _ =>
      _ ← refresh status None;
      h ← try (fireHookEvent status EmptyString);
      match h, r with
      | Err er, Err e => fail (default er (Wrap (Some er) (error_string e)))
      | Err er, Ok _ => fail er
      | Ok _, _ => of_result r
      end
  end.

Definition Run : M JobState unit := wrap (setStatus RunningStatus) "run".
Definition Stop : M JobState unit := wrap (setStatus StoppedStatus) "stop".
Definition Fail : M JobState unit := wrap (setStatus ErrorStatus) "fail".
Definition Succeed : M JobState unit := wrap (setStatus SuccessStatus) "succeed".

Definition info_reset (i : StatsInfo) (now : Z) : StatsInfo :=
  mkInfo (JobID i) PendingStatus (JobName i) (JobKind i) (IsUnique i) (RefLink i) (CronSpec i)
    (EnqueueTime i) now (RunAt i) EmptyString 0 (DieAt i) (WebHookURL i)
    (UpstreamJobID i) (NumericPID i) (Parameters i) now (HookAck i).

Definition Reset : M JobState unit :=
  now ← gets clock;
  id ← gets (λ s, JobID (jobStats s));
  _ ← wrap (redis_do (λ d, (tt, StatusResetScript id PendingStatus now d))) "reset";
  modify (λ s, set_stats s (info_reset (jobStats s) now)).

Definition FireHook : M JobState unit :=
  i ← gets jobStats;
  fireHookEvent (Status i) (CheckIn i).

(** [Update]: the update time is written before and after the given fields. *)
Definition Update (kvs : list (string * string)) : M JobState unit :=
  match kvs with
  | [] => fail (New "no properties specified to update")
  | _ =>
      now ← gets clock;
      redis_do (λ d, (tt, hmset d jobID
        (("update_time"%string, pretty now) :: kvs ++ [("update_time"%string, pretty now)])))
  end.

(** The error of the hook event is dereferenced when the update fails. *)
Definition CheckIn_ (message : string) : M JobState unit :=
  if IsEmptyStr message then fail (New "check in error: empty message")
  else
    now ← gets clock;
    current ← gets (λ s, Status (jobStats s));
    _ ← refresh current (Some message);
    errFireHE ← try (fireHookEvent current message);
    r ← try (Update [("check_in_at", pretty now); ("update_time", pretty now)]%string);
    match r, errFireHE with
    | Ok _, _ => mret tt
    | Err err, Err he => fail (default err (Wrap (Some err) (error_string he)))
    | Err err, Ok _ => fail (Panic "invalid memory address or nil pointer dereference")
    end.

(** A missing field makes the type assertion panic. *)
Definition getStatus : M JobState string :=
  v ← wrap (redis_do (λ d, (hget d jobID "status", d))) "get status error";
  match v with
  | None => fail (Panic "interface conversion: interface is nil, not []uint8")
  | Some st =>
      match Validate st with
      | None => mret st
      | Some _ => fail (New "malformed status data returned")
      end
  end.

Definition NumericID : M JobState Z :=
  i ← gets jobStats;
  if 0 <? NumericPID i then mret (NumericPID i)
  else fail (New ("numeric ID not found for job: " +:+ jobID)).

(** [ZADD XX]: only an existing member gets the score. *)
Definition PeriodicExecutionDone : M JobState unit :=
  i ← gets jobStats;
  if IsEmptyStr (UpstreamJobID i) then fail (New (jobID +:+ " is not periodic job execution"))
  else
    redis_do (λ d, (tt, match executions d !! (UpstreamJobID i, jobID) with
                        | Some _ => mkRedis (stats d) (track d)
                                      (<[(UpstreamJobID i, jobID) := -1]> (executions d))
                        | None => d
                        end)).

Definition bool_arg (b : bool) : string := if b then "1" else "0".

(** The field-value pairs of the [HMSET] in [Save], without the ACK. *)
Definition save_fields (i : StatsInfo) (now : Z) : list (string * string) :=
  [("id", JobID i); ("name", JobName i); ("kind", JobKind i); ("unique", bool_arg (IsUnique i));
   ("status", Status i); ("ref_link", RefLink i); ("enqueue_time", pretty (EnqueueTime i));
   ("run_at", pretty (RunAt i)); ("cron_spec", CronSpec i); ("web_hook_url", WebHookURL i);
   ("numeric_policy_id", pretty (NumericPID i))]%string
  ++ (if (0 <? CheckInAt i) && negb (IsEmptyStr (CheckIn i))
      then [("check_in", "[REDUNDANT]"); ("check_in_at", pretty (CheckInAt i))]%string else [])
  ++ (if 0 <? DieAt i then [("die_at", pretty (DieAt i))]%string else [])
  ++ (if IsEmptyStr (UpstreamJobID i) then [] else [("upstream_job_id", UpstreamJobID i)]%string)
  ++ (if bool_decide (Parameters i = EmptyString) then [] else [("parameters", Parameters i)]%string)
  ++ [("update_time", pretty now);
      ("revision", pretty (if (0 <? Revision i)%Z then Revision i else now))]%string.

(** The transaction of [Save].  With an ACK the [HMSET] has a field without a
    value, which Redis rejects: nothing is executed. *)
Definition save_tx (i : StatsInfo) (now : Z) (d : RedisDB) : RedisDB :=
  let d := hmset d (JobID i) (save_fields i now) in
  mkRedis (stats d) (<[JobID i := 2]> (track d))
    (if IsEmptyStr (UpstreamJobID i) then executions d
     else match executions d !! (UpstreamJobID i, JobID i) with
          | Some _ => executions d
          | None => <[(UpstreamJobID i, JobID i) := RunAt i]> (executions d)
          end).

Definition Save : M JobState unit :=
  i ← gets jobStats;
  now ← gets clock;
  match HookAck i with
  | Some _ => fail (PlainError "EXECABORT Transaction discarded because of previous errors.")
  | None => redis_do (λ d, (tt, save_tx i now d))
  end.

Definition parseInt64 (v : string) : Z := default 0 (ParseInt v).

(** [strconv.ParseBool], [false] on an error. *)
Definition parse_unique (v : string) : bool :=
  bool_decide (v ∈ ["1"; "t"; "T"; "TRUE"; "true"; "True"]%string).

Definition text_of (m : gmap string string) (k : string) : string := default EmptyString (m !! k).
Definition int_of (m : gmap string string) (k : string) : Z := default 0 (parseInt64 <$> m !! k).

(** The loop over the fields of the hash: absent fields keep their zero value,
    the check-in placeholder is never read back. *)
Definition stats_of_hash (h : Hash) : StatsInfo :=
  let m := fields h in
  mkInfo (text_of m "id") (text_of m "status") (text_of m "name") (text_of m "kind")
    (match m !! "unique"%string with Some v => parse_unique v | None => false end)
    (text_of m "ref_link") (text_of m "cron_spec") (int_of m "enqueue_time") (int_of m "update_time")
    (int_of m "run_at") EmptyString (int_of m "check_in_at") (int_of m "die_at")
    (text_of m "web_hook_url") (text_of m "upstream_job_id") (int_of m "numeric_policy_id")
    (text_of m "parameters") (int_of m "revision") (ack h).

Definition Load : M JobState unit :=
  o ← redis_do (λ d, (stats d !! jobID, d));
  match o with
  | None => fail (NoObjectFound jobID)
  | Some h => modify (λ s, set_stats s (stats_of_hash h))
  end.

End tracker.

(** ** Facts about the scripts *)

Definition stored_status (d : RedisDB) (jobID : string) : option string := hget d jobID "status".
Definition stored_rev (d : RedisDB) (jobID : string) : Z := tonumber_or_0 (hget d jobID "revision").

(** The Lua table and the Go method agree on the valid statuses. *)
Lemma stCode_Code s : Validate s = None → stCode (Some s) = Code s.
Proof.
  unfold Validate, stCode, Code. intros H.
  repeat case_bool_decide; subst; try done.
Qed.

Lemma stCode_range st : 0 <= stCode st <= 3.
Proof. unfold stCode. destruct st; [|lia]. repeat case_bool_decide; lia. Qed.

Lemma hash_set_eq d j h : hash (set_hash d j h) j = h.
Proof. unfold hash, set_hash. simpl. by rewrite lookup_insert_eq. Qed.
Lemma hash_set_ne d j k h : j ≠ k → hash (set_hash d j h) k = hash d k.
Proof. intros. unfold hash, set_hash. simpl. by rewrite lookup_insert_ne. Qed.
Lemma hash_untrack d j k : hash (untrack d j) k = hash d k.
Proof. done. Qed.

(** The effect of an accepted status on the fields. *)
Lemma hget_hmset_eq d j kvs f :
  hget (hmset d j kvs) j f = foldl (λ m kv, <[kv.1 := kv.2]> m) (fields (hash d j)) kvs !! f.
Proof. unfold hget, hmset. by rewrite hash_set_eq. Qed.
Lemma hget_hmset_ne d j k kvs f : j ≠ k → hget (hmset d j kvs) k f = hget d k f.
Proof. intros. unfold hget, hmset. by rewrite hash_set_ne. Qed.
Lemma hget_set_ttl d j k t f : hget (set_ttl d j t) k f = hget d k f.
Proof.
  unfold hget, set_ttl. destruct (decide (j = k)) as [->|]; [by rewrite hash_set_eq|by rewrite hash_set_ne].
Qed.
Lemma hget_untrack d j k f : hget (untrack d j) k f = hget d k f.
Proof. done. Qed.

Definition set_accepted (d : RedisDB) (j status : string) (aRev : Z) : bool :=
  (stored_rev d j <? aRev)
  || ((stored_rev d j =? aRev) &&
      ((stCode (stored_status d j) <? stCode (Some status)) || bool_decide (stored_status d j = Some status))).

Lemma SetStatusScript_refused j s r t d :
  set_accepted d j s r = false → SetStatusScript j s r t d = (stored_status d j, d).
Proof. unfold SetStatusScript, set_accepted, stored_status, stored_rev. by intros ->. Qed.

Lemma SetStatusScript_accepted j s r t d :
  set_accepted d j s r = true →
  ∃ d', SetStatusScript j s r t d = (Some "ok"%string, d') ∧
    stored_status d' j = Some s ∧ stored_rev d' j = stored_rev d j ∧
    (∀ k f, k ≠ j → hget d' k f = hget d k f) ∧
    track d' = (if stCode (Some s) =? 3 then track (untrack d j) else track d) ∧
    ack (hash d' j) = ack (hash d j).
Proof.
  unfold SetStatusScript, set_accepted, stored_rev, stored_status. intros ->.
  eexists. split; [reflexivity|].
  assert (Ht : ∀ d0 tt0, track (set_ttl d0 j tt0) = track d0) by done.
  assert (Ha : ∀ d0 tt0, ack (hash (set_ttl d0 j tt0) j) = ack (hash d0 j))
    by (intros; unfold set_ttl; by rewrite hash_set_eq).
  assert (Hm : ack (hash (hmset d j [("status", s); ("update_time", pretty t)]%string) j) = ack (hash d j))
    by (unfold hmset; by rewrite hash_set_eq).
  destruct (stCode (Some s) =? 3).
  - assert (H : ∀ o, let d' := set_ttl (untrack (hmset d j [("status", s); ("update_time", pretty t)]%string) j) j o in
      hget d' j "status" = Some s ∧ tonumber_or_0 (hget d' j "revision") = tonumber_or_0 (hget d j "revision") ∧
      (∀ k f, k ≠ j → hget d' k f = hget d k f) ∧ track d' = track (untrack d j) ∧
      ack (hash d' j) = ack (hash d j)).
    { intros o d'. unfold d'. split_and!.
      - rewrite hget_set_ttl, hget_untrack, hget_hmset_eq. simpl.
        by rewrite lookup_insert_ne, lookup_insert_eq.
      - rewrite hget_set_ttl, hget_untrack, hget_hmset_eq. simpl. by rewrite !lookup_insert_ne.
      - intros k f Hk. by rewrite hget_set_ttl, hget_untrack, hget_hmset_ne.
      - done.
      - by rewrite Ha, hash_untrack. }
    destruct (_ || _); [|destruct (bool_decide _)]; apply H.
  - split_and!; try done.
    + rewrite hget_hmset_eq. simpl. by rewrite lookup_insert_ne, lookup_insert_eq.
    + rewrite hget_hmset_eq. simpl. by rewrite !lookup_insert_ne.
    + intros k f Hk. by rewrite hget_hmset_ne.
Qed.

Lemma HookAckScript_fields j s r c d k f : hget (HookAckScript j s r c d).2 k f = hget d k f.
Proof.
  unfold HookAckScript. destruct (canSetAck _ _ _ _ _); [|done]. simpl.
  assert (H : hget (set_hash d j (mkHash (fields (hash d j)) (Some (mkAck s r c)) (ttl (hash d j)))) k f = hget d k f).
  { unfold hget. destruct (decide (j = k)) as [->|]; [by rewrite hash_set_eq|by rewrite hash_set_ne]. }
  by destruct (_ =? 3).
Qed.

(** ** The life of a job between two resets: any tracker may set a status with a
    revision no newer than the stored one, acknowledge hooks, write other fields,
    or work on other jobs. *)
Inductive job_step (j : string) : RedisDB → RedisDB → Prop :=
  | step_set d s r t : r <= stored_rev d j → job_step j d (SetStatusScript j s r t d).2
  | step_ack d s r c : job_step j d (HookAckScript j s r c d).2
  | step_update d kvs : Forall (λ kv, kv.1 ≠ "status"%string ∧ kv.1 ≠ "revision"%string) kvs →
      job_step j d (hmset d j kvs)
  | step_set_other d k s r t : k ≠ j → job_step j d (SetStatusScript k s r t d).2
  | step_ack_other d k s r c : k ≠ j → job_step j d (HookAckScript k s r c d).2
  | step_reset_other d k s t : k ≠ j → job_step j d (StatusResetScript k s t d).

(** Within a revision the status only advances, and a final one stays. *)
Definition advances (j : string) (d d' : RedisDB) : Prop :=
  stored_rev d' j = stored_rev d j ∧
  stCode (stored_status d j) <= stCode (stored_status d' j) ∧
  (stCode (stored_status d j) = 3 → stored_status d' j = stored_status d j).

#[export] Instance advances_po j : PreOrder (advances j).
Proof.
  split; [by intros d; repeat split|]. intros a b c (? & ? & Hf1) (? & ? & Hf2).
  split_and!; [congruence|lia|]. intros Hc. rewrite <- (Hf1 Hc). apply Hf2. by rewrite (Hf1 Hc).
Qed.

Lemma hget_same_advances j d d' : (∀ f, hget d' j f = hget d j f) → advances j d d'.
Proof. intros H. unfold advances, stored_rev, stored_status. by rewrite !H. Qed.

Lemma hmset_other_fields (kvs : list (string * string)) (m : gmap string string) f :
  Forall (λ kv, kv.1 ≠ f) kvs → foldl (λ m kv, <[kv.1 := kv.2]> m) m kvs !! f = m !! f.
Proof.
  revert m. induction kvs as [|kv kvs IH]; intros m H; [done|]. apply Forall_cons in H as [H1 H].
  simpl. rewrite IH by done. by rewrite lookup_insert_ne.
Qed.

Lemma job_step_advances j d d' : job_step j d d' → advances j d d'.
Proof.
  intros [? s r t Hr|? s r c|? kvs Hk|? k s r t Hk|? k s r c Hk|? k s t Hk].
  - destruct (set_accepted d0 j s r) eqn:E.
    + apply (SetStatusScript_accepted _ _ _ t) in E as Hacc.
      destruct Hacc as (d1 & -> & Hs & Hrev & _). simpl.
      unfold advances. rewrite Hs, Hrev. unfold set_accepted in E.
      rewrite orb_true_iff, andb_true_iff, orb_true_iff, bool_decide_eq_true in E.
      split; [done|]. destruct E as [E|[_ [E|E]]]; [lia| |by rewrite E].
      pose proof (stCode_range (Some s)). split; [lia|]. lia.
    + rewrite SetStatusScript_refused by done. reflexivity.
  - apply hget_same_advances. intros f. apply HookAckScript_fields.
  - apply Forall_and in Hk as [H1 H2]. unfold advances, stored_rev, stored_status.
    rewrite !hget_hmset_eq, !hmset_other_fields by done. done.
  - apply hget_same_advances. intros f. destruct (set_accepted d0 k s r) eqn:E.
    + apply (SetStatusScript_accepted _ _ _ t) in E as (d1 & -> & _ & _ & H & _). simpl. by apply H.
    + by rewrite SetStatusScript_refused.
  - apply hget_same_advances. intros f. apply HookAckScript_fields.
  - apply hget_same_advances. intros f. unfold StatusResetScript.
    unfold hget at 1, hash at 1. simpl. rewrite lookup_insert_ne by done.
    by rewrite lookup_insert_ne.
Qed.

(** C27 (invariant). However many trackers race on a job, and whatever order
    their scripts run in, until the next reset the stored revision stays, the
    status only advances (Pending, Scheduled, Running, final), and once a final
    status is stored no other one replaces it. *)
Theorem job_status_linear j d d' :
  rtc (job_step j) d d' →
  stored_rev d' j = stored_rev d j ∧
  stCode (stored_status d j) <= stCode (stored_status d' j) ∧
  (stCode (stored_status d j) = 3 → stored_status d' j = stored_status d j).
Proof.
  intros H. change (advances j d d').
  induction H as [|d1 d2 d3 H1 _ IH]; [reflexivity|].
  etransitivity; [by apply job_step_advances|done].
Qed.

Definition ex_redis (status : string) : RedisDB :=
  mkRedis (<["j1"%string := mkHash (<["status"%string := status]> (<["revision"%string := "100"%string]> ∅)) None None]> ∅)
    (<["j1"%string := 2]> ∅) ∅.

Lemma job_status_linear_witness :
  let d := ex_redis SuccessStatus in
  stored_status (SetStatusScript "j1" ErrorStatus 100 120 d).2 "j1" = Some SuccessStatus.
Proof.
  intros d. refine (proj2 (proj2 (job_status_linear "j1" d _ _)) _).
  - apply rtc_once. apply step_set. vm_compute. discriminate.
  - vm_compute. reflexivity.
Defined.

(** ** A tracker's status change *)

Section tracker_facts.
Context (j : string) (callback : option (string → StatusChange → M JobState unit)).

(** Outcomes of the compare-and-set: accepted, refused, or no answer. *)
Lemma compareAndSet_cases status w r w' :
  compareAndSet j status w = (r, w') →
  let s := db w in
  let set := SetStatusScript j status (Revision (jobStats s)) (clock s) (redis s) in
  (r = Ok tt ∧ set.1 = Some "ok"%string ∧ db w' = set_redis s set.2) ∨
  (∃ c, r = Err (StatusMismatch c status) ∧ set.1 = Some c ∧ set.2 = redis s ∧ db w' = s) ∨
  (∃ e, r = Err e ∧ IsStatusMismatchError e = false ∧ db w' = s).
Proof.
  intros H s set. unfold compareAndSet in H.
  rewrite bind_eq in H. simpl in H. rewrite bind_eq in H. simpl in H.
  unfold wrap in H. rewrite bind_eq in H.
  match type of H with match ?m with _ => _ end = _ => destruct m as [[reply|e] w1] eqn:E end.
  - apply bind_try_inv in E as (x & w2 & E & E'). destruct x as [reply'|e]; [|by simpl in E'].
    injection E' as -> ->. rewrite bind_eq in E. unfold redis_do in E.
    destruct (stmt _ w) as [[o|e] w3] eqn:E3; [|done].
    apply stmt_ok_inv in E3. fold s in E3. fold set in E3. destruct set as [o' d'] eqn:Eset.
    injection E3 as -> Hd. destruct o as [rep|]; [|done]. injection E as -> ->.
    case_bool_decide as Hok.
    + injection H as <- <-. left. subst. done.
    + injection H as <- <-. right. left. exists reply.
      assert (d' = redis s) as ->.
      { destruct (set_accepted (redis s) j status (Revision (jobStats s))) eqn:Ea.
        - apply (SetStatusScript_accepted _ _ _ (clock s)) in Ea as (d1 & Ea & _).
          fold s in set. unfold set in Eset. rewrite Ea in Eset. injection Eset as <- _. done.
        - unfold set in Eset. rewrite SetStatusScript_refused in Eset by done. by injection Eset. }
      split_and!; try done. rewrite <- Hd. by destruct s.
  - injection H as <- <-. right. right. exists e. apply bind_try_inv in E as (x & w2 & E & E').
    destruct x as [reply'|e']; [by simpl in E'|]. simpl in E'. injection E' as <- <-.
    split_and!; [done|done|]. rewrite bind_eq in E. unfold redis_do in E.
    destruct (stmt _ w) as [[o|e2] w3] eqn:E3.
    + apply stmt_ok_inv in E3. fold s in E3. destruct o as [rep|]; [done|]. injection E as <- <-.
      destruct (SetStatusScript _ _ _ _ _) as [o' d'] eqn:Eset. injection E3 as -> Hd.
      destruct (set_accepted (redis s) j status (Revision (jobStats s))) eqn:Ea.
      * apply (SetStatusScript_accepted _ _ _ (clock s)) in Ea as (d1 & Ea & _).
        rewrite Ea in Eset. done.
      * rewrite SetStatusScript_refused in Eset by done. injection Eset as _ <-.
        rewrite <- Hd. by destruct s.
    + injection E as <- <-. apply stmt_cases in E3 as [_ [(e3 & _ & ->)|E3]]; [done|].
      by destruct (SetStatusScript _ _ _ _ _).
Qed.

End tracker_facts.

(** Further property (functional). Setting a status through a tracker: a status that lost the
    race changes nothing anywhere and reports the mismatch; otherwise the
    in-memory stats take the status and the hook is fired on them, with either
    the accepted script's effect on Redis, or Redis untouched and the change
    queued for retrying under the tracker's revision. *)
Theorem setStatus_spec j callback status w r w' :
  setStatus j callback status w = (r, w') →
  (∃ c, r = Err (StatusMismatch c status) ∧ db w' = db w) ∨
  ∃ w1 rc h,
    fireHookEvent j callback status EmptyString w1 = (h, w') ∧
    jobStats (db w1) = info_refresh (jobStats (db w)) status None (clock (db w)) ∧
    ((rc = Ok tt ∧ retryList (db w1) = retryList (db w) ∧
      SetStatusScript j status (Revision (jobStats (db w))) (clock (db w)) (redis (db w))
        = (Some "ok"%string, redis (db w1))) ∨
     (∃ e, rc = Err e ∧ IsStatusMismatchError e = false ∧ redis (db w1) = redis (db w) ∧
      retryList (db w1) = retryList (db w) ++ [mkSimple j status (Revision (jobStats (db w)))])) ∧
    (r = Ok tt ↔ h = Ok tt ∧ rc = Ok tt).
Proof.
  intros H. unfold setStatus in H. apply bind_try_inv in H as (rc & w1 & H1 & H).
  unfold UpdateStatusWithRetry in H1. apply bind_try_inv in H1 as (rs & w2 & H2 & H1).
  apply compareAndSet_cases in H2 as [(-> & Hs & Hd)|[(c & -> & Hs1 & Hs2 & Hd)|(e & -> & Hne & Hd)]].
  - injection H1 as <- <-. right.
    rewrite bind_eq in H. simpl in H. apply bind_try_inv in H as (h & w3 & Hh & H).
    exists (with_db w2 (set_stats (db w2) (info_refresh (jobStats (db w2)) status None (clock (db w2))))), (Ok tt), h.
    assert (w' = w3) as -> by (by destruct h; injection H).
    split; [done|]. rewrite Hd. simpl. split; [done|]. split.
    + left. split_and!; try done. rewrite <- Hs. by destruct (SetStatusScript _ _ _ _ _).
    + destruct h as [[]|eh]; injection H as <-; naive_solver.
  - simpl in H1. injection H1 as <- <-. injection H as <- <-. left. eauto.
  - rewrite Hne in H1. simpl in H1. injection H1 as <- <-. right.
    assert (H' : (_ ← refresh status None; h ← try (fireHookEvent j callback status EmptyString);
       match h with
       | Err er => fail (default er (Wrap (Some er) (error_string e)))
       | Ok _ => of_result (Err e : result unit)
       end) (with_db w2 (mkJob (redis (db w2)) (jobStats (db w2))
          (retryList (db w2) ++ [mkSimple j status (Revision (jobStats (db w2)))]) (clock (db w2)))) = (r, w')).
    { destruct e; done. }
    clear H. rewrite bind_eq in H'. simpl in H'. apply bind_try_inv in H' as (h & w3 & Hh & H).
    eexists _, (Err e), h. assert (w' = w3) as -> by (by destruct h; injection H).
    split; [exact Hh|]. simpl. rewrite Hd. split; [done|]. split; [right; eauto|].
    destruct h as [[]|eh]; injection H as <-; naive_solver.
Qed.

Definition ex_info (status : string) (ackd : option Ack) : StatsInfo :=
  mkInfo "j1" status "REPLICATION" "Generic" true "" "" 90 95 0 "" 0 0 "http://core/hook" "" 0
    "{}" 100 ackd.

Definition ex_job (status : string) : JobState :=
  mkJob (ex_redis status) (ex_info status None) [] 130.

Lemma fireHookEvent_none j s c w : fireHookEvent j None s c w = (Ok tt, w).
Proof. unfold fireHookEvent. rewrite bind_eq. simpl. by destruct (IsEmptyStr _). Qed.

Lemma setStatus_spec_witness :
  let w := mkWorld (ex_job RunningStatus) true [Some (PlainError "EOF")] in
  let x := setStatus "j1" None SuccessStatus w in
  retryList (db (snd x)) = [mkSimple "j1" SuccessStatus 100].
Proof.
  intros w x.
  destruct (setStatus_spec "j1" None SuccessStatus w (fst x) (snd x) (surjective_pairing x))
    as [(c & Hc & _)|(w1 & rc & h & Hf & _ & [(-> & _ & Hs)|(e & _ & _ & _ & Hr)] & Hok)].
  - vm_compute in Hc. discriminate.
  - rewrite fireHookEvent_none in Hf. injection Hf as <- _.
    destruct Hok as [_ Hok]. specialize (Hok (conj eq_refl eq_refl)). vm_compute in Hok. discriminate.
  - rewrite fireHookEvent_none in Hf. apply (f_equal snd) in Hf. change (w1 = snd x) in Hf.
    rewrite <- Hf. exact Hr.
Defined.

(** ** Saving and loading *)

(** What a saved job looks like when it is read back: the placeholder of the
    check-in data is not, the times and the revision are those of the save. *)
Definition saved (i : StatsInfo) (now : Z) : StatsInfo :=
  mkInfo (JobID i) (Status i) (JobName i) (JobKind i) (IsUnique i) (RefLink i) (CronSpec i)
    (EnqueueTime i) now (RunAt i) EmptyString
    (if (0 <? CheckInAt i) && negb (IsEmptyStr (CheckIn i)) then CheckInAt i else 0)
    (if 0 <? DieAt i then DieAt i else 0) (WebHookURL i)
    (if IsEmptyStr (UpstreamJobID i) then EmptyString else UpstreamJobID i)
    (NumericPID i) (Parameters i) (if 0 <? Revision i then Revision i else now) None.

Record int_fields (i : StatsInfo) (now : Z) : Prop := mk_int_fields {
  if_enqueue : in_int64 (EnqueueTime i); if_run : in_int64 (RunAt i);
  if_checkin : in_int64 (CheckInAt i); if_die : in_int64 (DieAt i);
  if_pid : in_int64 (NumericPID i); if_rev : in_int64 (Revision i); if_now : in_int64 now }.

(** The value a list of writes leaves under a field. *)
Fixpoint written (f : string) (kvs : list (string * string)) : option string :=
  match kvs with
  | [] => None
  | kv :: l =>
      match written f l with
      | Some v => Some v
      | None => if String.eqb f kv.1 then Some kv.2 else None
      end
  end.

Lemma lookup_written f kvs (m : gmap string string) :
  foldl (λ m kv, <[kv.1 := kv.2]> m) m kvs !! f =
  match written f kvs with Some v => Some v | None => m !! f end.
Proof.
  revert m. induction kvs as [|kv kvs IH]; intros m; [done|]. simpl. rewrite IH.
  destruct (written f kvs); [done|]. destruct (String.eqb_spec f kv.1) as [->|Hn].
  - by rewrite lookup_insert_eq.
  - by rewrite lookup_insert_ne by congruence.
Qed.

(** Evaluate a lookup under a concrete field name. *)
Ltac find_field :=
  rewrite ?lookup_written, ?lookup_empty;
  cbv [written app fst snd String.eqb Ascii.eqb Bool.eqb].

Lemma stats_of_saved i now :
  int_fields i now →
  stats_of_hash (mkHash (foldl (λ m kv, <[kv.1 := kv.2]> m) ∅ (save_fields i now)) None None)
    = saved i now.
Proof.
  intros [H1 H2 H3 H4 H5 H6 H7].
  assert (HP : ∀ z, in_int64 z → parseInt64 (pretty z) = z)
    by (intros z Hz; unfold parseInt64; by rewrite ParseInt_pretty).
  assert (HR : in_int64 (if 0 <? Revision i then Revision i else now)) by (by destruct (0 <? Revision i)).
  unfold stats_of_hash, saved, text_of, int_of. cbn [fields ack].
  rewrite !lookup_written, !lookup_empty. unfold save_fields.
  destruct ((0 <? CheckInAt i) && negb (IsEmptyStr (CheckIn i))) eqn:E1;
  destruct (0 <? DieAt i) eqn:E2; destruct (IsEmptyStr (UpstreamJobID i)) eqn:E3;
  destruct (bool_decide (Parameters i = EmptyString)) eqn:E4;
    find_field; cbn [default fmap option_fmap option_map from_option id];
    rewrite ?HP by done; try (apply bool_decide_eq_true in E4; rewrite E4);
    f_equal; destruct (IsUnique i); reflexivity.
Qed.

(** Further property (roundtrip). A job without a hook acknowledgement that is saved under a
    fresh id is loaded back as it was, up to the times, the first revision and
    the check-in text, and enters the in-progress track with two locks. *)
Theorem Save_Load_roundtrip i rl now d :
  int_fields i now → HookAck i = None → stats d !! JobID i = None →
  let w := mkWorld (mkJob d i rl now) true [] in
  ∃ w1 w2, Save w = (Ok tt, w1) ∧ track (redis (db w1)) !! JobID i = Some 2 ∧
    Load (JobID i) w1 = (Ok tt, w2) ∧ jobStats (db w2) = saved i now ∧
    redis (db w2) = redis (db w1) ∧
    getStatus (JobID i) w1 = (if bool_decide (Validate (Status i) = None)
      then (Ok (Status i), w1) else (Err (New "malformed status data returned"), w1)).
Proof.
  intros Hi Hack Hd w.
  assert (Hh : stats (save_tx i now d) !! JobID i =
    Some (mkHash (foldl (λ m kv, <[kv.1 := kv.2]> m) ∅ (save_fields i now)) None None)).
  { unfold save_tx, hmset, hash. simpl. rewrite lookup_insert_eq, Hd. done. }
  assert (Ht : track (save_tx i now d) !! JobID i = Some 2)
    by (unfold save_tx; simpl; by rewrite lookup_insert_eq).
  assert (HS : Save w = (Ok tt, mkWorld (set_redis (mkJob d i rl now) (save_tx i now d)) true [])).
  { unfold Save. rewrite bind_eq. simpl. rewrite bind_eq. simpl. rewrite Hack.
    unfold redis_do, w. rewrite stmt_nofault. done. }
  generalize dependent (save_tx i now d). intros dd Hh Ht HS.
  set (w1 := mkWorld (set_redis (mkJob d i rl now) dd) true []) in *.
  exists w1, (mkWorld (mkJob dd (saved i now) rl now) true []).
  split_and!; try done.
  - unfold Load. rewrite bind_eq. unfold redis_do, w1. rewrite stmt_nofault. simpl. rewrite Hh.
    rewrite <- (stats_of_saved i now Hi). done.
  - assert (Hg : hget dd (JobID i) "status" = Some (Status i)).
    { unfold hget, hash. rewrite Hh. cbn [default from_option id fields].
      rewrite lookup_written. unfold save_fields.
      destruct ((0 <? CheckInAt i) && negb (IsEmptyStr (CheckIn i))); destruct (0 <? DieAt i);
      destruct (IsEmptyStr (UpstreamJobID i)); destruct (bool_decide (Parameters i = EmptyString));
      find_field; done. }
    unfold getStatus, wrap, redis_do, w1. rewrite !bind_eq. unfold try. rewrite stmt_nofault.
    simpl. rewrite Hg. destruct (Validate (Status i)) eqn:Ev; simpl; repeat case_bool_decide; done.
Qed.

Lemma Save_Load_roundtrip_witness :
  let w := mkWorld (mkJob (mkRedis ∅ ∅ ∅) (ex_info PendingStatus None) [] 130) true [] in
  ∃ w1 w2, Save w = (Ok tt, w1) ∧ Load "j1" w1 = (Ok tt, w2) ∧
    Status (jobStats (db w2)) = PendingStatus ∧ Revision (jobStats (db w2)) = 100.
Proof.
  intros w.
  destruct (Save_Load_roundtrip (ex_info PendingStatus None) [] 130 (mkRedis ∅ ∅ ∅))
    as (w1 & w2 & HS & _ & HL & Hi & _); [split; vm_compute; split; discriminate|done|done|].
  exists w1, w2. rewrite Hi. done.
Defined.

(** ** The in-progress track *)

(** Further property (functional). A job tracked with its two locks stays tracked through
    every non-final status, drops to one lock at its accepted final status and
    leaves the track when the final hook is acknowledged; but storing the same
    final status a second time releases the second lock as well, before any
    acknowledgement. *)
Theorem track_released j s r t d :
  track d !! j = Some 2 → set_accepted d j s r = true → stored_rev d j = r →
  let d1 := (SetStatusScript j s r t d).2 in
  (stCode (Some s) ≠ 3 → track d1 !! j = Some 2) ∧
  (stCode (Some s) = 3 →
     track d1 !! j = Some 1 ∧
     (∀ r' c, canSetAck d1 j s r' c = true → track (HookAckScript j s r' c d1).2 !! j = None) ∧
     track (SetStatusScript j s r t d1).2 !! j = None).
Proof.
  intros Ht Hacc Hr d1.
  pose proof (SetStatusScript_accepted j s r t d Hacc) as (d' & E & Hst & Hrev & _ & Htr & _).
  assert (d1 = d') as Hd by (unfold d1; by rewrite E). rewrite Hd.
  assert (Hun : ∀ d0 n, track d0 !! j = Some n → track (untrack d0 j) !! j = if n - 1 <=? 0 then None else Some (n - 1)).
  { intros d0 n Hn. unfold untrack. simpl. rewrite Hn. simpl.
    destruct (n - 1 <=? 0); [by rewrite lookup_delete_eq|by rewrite lookup_insert_eq]. }
  split; intros Hc.
  - rewrite Htr. destruct (_ =? 3) eqn:E3; [lia|done].
  - rewrite Hc, Z.eqb_refl in Htr.
    assert (H1 : track d' !! j = Some 1) by (rewrite Htr; by rewrite (Hun _ _ Ht)).
    split; [done|]. split.
    + intros r' c Hack. unfold HookAckScript. rewrite Hack, Hc, Z.eqb_refl. cbn [snd].
      rewrite (Hun _ 1); done.
    + assert (Hacc' : set_accepted d' j s r = true).
      { unfold set_accepted. rewrite Hst, Hrev, Hr. rewrite Z.eqb_refl, bool_decide_true by done.
        by rewrite !orb_true_r. }
      destruct (SetStatusScript_accepted j s r t d' Hacc') as (d2 & -> & _ & _ & _ & Ht2 & _).
      cbn [snd]. rewrite Ht2, Hc, Z.eqb_refl. rewrite (Hun _ _ H1). done.
Qed.

Lemma track_released_witness :
  track (SetStatusScript "j1" SuccessStatus 100 131
    (SetStatusScript "j1" SuccessStatus 100 131 (ex_redis RunningStatus)).2).2 !! "j1"%string = None.
Proof.
  refine (proj2 (proj2 (proj2 (track_released "j1" SuccessStatus 100 131 (ex_redis RunningStatus) _ _ _) _)));
    vm_compute; reflexivity.
Defined.
