(* ===== verification/TaskStore.v ===== *)
(** * Executions and tasks: [src/pkg/task/dao/model.go],
    [src/pkg/task/dao/execution.go], [src/pkg/task/dao/task.go],
    [src/pkg/task/execution.go], [src/pkg/task/task.go], [src/pkg/task/hook.go]

    An execution groups the tasks of one run of a vendor (replication, GC, ...);
    each task mirrors a job of the job service, whose status arrives by hooks.
    The tables are maps; the clock is part of the state.  A zero time is [None].
    The job service client is an interface ([JsClient]).  The loops over query
    results are in the order of the queries' sorting, ties in any fixed order. *)

From S2P Require Import Prelude GoErrors Orm JobStatus.
Open Scope Z_scope.

Record Execution := mkExec {
  e_ID : Z; e_VendorType : string; e_VendorID : Z; e_Status : string; e_StatusMessage : string;
  e_Trigger : string; e_ExtraAttrs : string; e_StartTime : Z; e_UpdateTime : Z;
  e_EndTime : option Z; e_Revision : Z }.

Record Task := mkTask {
  t_ID : Z; t_VendorType : string; t_ExecutionID : Z; t_JobID : string; t_Status : string;
  t_StatusCode : Z; t_StatusRevision : Z; t_RunCount : Z; t_ExtraAttrs : string;
  t_StartTime : option Z; t_UpdateTime : option Z; t_EndTime : option Z }.

Record TaskDB := mkTaskDB {
  execs : gmap Z Execution;
  tasks : gmap Z Task;
  exec_seq : Z; task_seq : Z;
  tnow : Z;
}.

Definition set_execs (d : TaskDB) (m : gmap Z Execution) : TaskDB :=
  mkTaskDB m (tasks d) (exec_seq d) (task_seq d) (tnow d).
Definition set_tasks (d : TaskDB) (m : gmap Z Task) : TaskDB :=
  mkTaskDB (execs d) m (exec_seq d) (task_seq d) (tnow d).

(** The rows of the tasks of an execution. *)
Definition tasks_of (d : TaskDB) (id : Z) : list Task :=
  filter (λ t, t_ExecutionID t = id) ((map_to_list (tasks d)).*2).

Definition now_ : M TaskDB Z := λ w, (Ok (tnow (db w)), w).

(** ** [src/pkg/task/dao/task.go] *)

Module taskDAO.

Definition Get (id : Z) : M TaskDB Task :=
  _ ← FromContext;
  r ← try (query (λ d, match tasks d !! id with Some t => Ok t | None => Err ErrNoRows end));
  match r with
  | Ok t => mret t
  | Err e => fail (WrapNotFoundError e ("task " +:+ pretty id +:+ " not found"))
  end.

Definition List_by (P : Task → Prop) `{!∀ t, Decision (P t)} : M TaskDB (list Task) :=
  _ ← FromContext;
  query (λ d, Ok (filter P ((map_to_list (tasks d)).*2))).

(** A task references an existing execution. *)
Definition Create (row : Z → Task) : M TaskDB Z :=
  _ ← FromContext;
  r ← try (stmt (λ d,
    let n := task_seq d + 1 in
    match execs d !! t_ExecutionID (row n) with
    | None => (Err (PgError "23503" "violates foreign key constraint"), d)
    | Some _ => (Ok n, mkTaskDB (execs d) (<[n := row n]> (tasks d)) (exec_seq d) n (tnow d))
    end));
  match r with
  | Ok n => mret n
  | Err e => fail (default e (AsForeignKeyError e
               ("the task tries to reference a non existing execution " +:+ pretty (t_ExecutionID (row 0)))))
  end.

(** [Update] with the listed columns, as a function on the row. *)
Definition Update (id : Z) (f : Task → Task) : M TaskDB unit :=
  _ ← FromContext;
  n ← stmt (λ d, match tasks d !! id with
                 | Some t => (Ok 1, set_tasks d (<[id := f t]> (tasks d)))
                 | None => (Ok 0, d)
                 end);
  if n =? 0
  then fail (WithMessage (NotFoundError None) ("task " +:+ pretty id +:+ " not found"))
  else mret tt.

(** The first statement of [UpdateStatus]: a newer revision is another run. *)
Definition count_run (statusRevision : Z) (t : Task) : Task :=
  if t_StatusRevision t <? statusRevision
  then mkTask (t_ID t) (t_VendorType t) (t_ExecutionID t) (t_JobID t) (t_Status t) (t_StatusCode t)
         (t_StatusRevision t) (t_RunCount t + 1) (t_ExtraAttrs t) (Some statusRevision)
         (t_UpdateTime t) (t_EndTime t)
  else t.

(** The second statement: only a newer revision, or a later status of the same. *)
Definition accept_status (status : string) (statusRevision now : Z) (t : Task) : Task :=
  if ((t_StatusRevision t =? statusRevision) && (t_StatusCode t <? Code status))
     || (t_StatusRevision t <? statusRevision)
  then mkTask (t_ID t) (t_VendorType t) (t_ExecutionID t) (t_JobID t) status (Code status)
         statusRevision (t_RunCount t) (t_ExtraAttrs t) (t_StartTime t) (Some now)
         (if Final status then Some now else None)
  else t.

Definition on_row (id : Z) (f : Task → Task) (d : TaskDB) : result unit * TaskDB :=
  (Ok tt, set_tasks d (alter f id (tasks d))).

Definition UpdateStatus (id : Z) (status : string) (statusRevision : Z) : M TaskDB unit :=
  _ ← FromContext;
  _ ← stmt (on_row id (count_run statusRevision));
  now ← now_;
  stmt (on_row id (accept_status status statusRevision now)).

Definition Delete (id : Z) : M TaskDB unit :=
  _ ← FromContext;
  n ← stmt (λ d, match tasks d !! id with
                 | Some _ => (Ok 1, set_tasks d (delete id (tasks d)))
                 | None => (Ok 0, d)
                 end);
  if n =? 0
  then fail (WithMessage (NotFoundError None) ("task " +:+ pretty id +:+ " not found"))
  else mret tt.

(** [group by status] *)
Definition ListStatusCount (executionID : Z) : M TaskDB (list (string * Z)) :=
  _ ← FromContext;
  query (λ d, let sts := map t_Status (tasks_of d executionID) in
    Ok (map (λ s, (s, Z.of_nat (length (filter (λ x, x = s) sts)))) (remove_dups sts))).

(** [max(end_time)] over the tasks that have one. *)
Definition max_end (l : list Task) : option Z :=
  foldr (λ t acc, match t_EndTime t, acc with
                  | Some x, Some y => Some (Z.max x y)
                  | Some x, None => Some x
                  | None, _ => acc
                  end) None l.

Definition GetMaxEndTime (executionID : Z) : M TaskDB (option Z) :=
  _ ← FromContext;
  query (λ d, Ok (max_end (tasks_of d executionID))).

Definition set_status_only (status : string) (now : Z) (t : Task) : Task :=
  mkTask (t_ID t) (t_VendorType t) (t_ExecutionID t) (t_JobID t) status (t_StatusCode t)
    (t_StatusRevision t) (t_RunCount t) (t_ExtraAttrs t) (t_StartTime t) (Some now) (t_EndTime t).

Definition batch (jobIDs : list string) (status : string) (d : TaskDB) : result unit * TaskDB :=
  (Ok tt, set_tasks d ((λ t, if bool_decide (t_JobID t ∈ jobIDs)
                             then set_status_only status (tnow d) t else t) <$> tasks d)).

(** The recursion on the rest of the ids; [fuel] bounds its depth, [None] when it
    does not suffice. *)
Fixpoint UpdateStatusInBatch (fuel : nat) (jobIDs : list string) (status : string) (batchSize : nat)
    : M TaskDB (option unit) :=
  match fuel with
  | O => mret None
  | S fuel =>
      match jobIDs with
      | [] => mret (Some tt)
      | _ =>
          _ ← FromContext;
          if (length jobIDs <=? batchSize)%nat
          then _ ← stmt (batch jobIDs status); mret (Some tt)
          else
            _ ← (if bool_decide (batchSize = O)
                 then fail (PgError "42601" "syntax error at or near )")
                 else stmt (batch (take batchSize jobIDs) status));
            UpdateStatusInBatch fuel (drop batchSize jobIDs) status batchSize
      end
  end.

Definition ExecutionIDsByVendorAndStatus (vendorType status : string) : M TaskDB (list Z) :=
  _ ← FromContext;
  query (λ d, Ok (remove_dups (map t_ExecutionID
    (filter (λ t, t_VendorType t = vendorType ∧ t_Status t = status) ((map_to_list (tasks d)).*2))))).

End taskDAO.

(** ** [src/pkg/task/dao/execution.go] *)

Record Metrics := mkMetrics {
  TaskCount : Z; SuccessTaskCount : Z; ErrorTaskCount : Z; PendingTaskCount : Z;
  RunningTaskCount : Z; ScheduledTaskCount : Z; StoppedTaskCount : Z }.

Module executionDAO.

Definition Get (id : Z) : M TaskDB Execution :=
  _ ← FromContext;
  r ← try (query (λ d, match execs d !! id with Some e => Ok e | None => Err ErrNoRows end));
  match r with
  | Ok e => mret e
  | Err e => fail (WrapNotFoundError e ("execution " +:+ pretty id +:+ " not found"))
  end.

Definition Create (row : Z → Execution) : M TaskDB Z :=
  _ ← FromContext;
  stmt (λ d, let n := exec_seq d + 1 in
    (Ok n, mkTaskDB (<[n := row n]> (execs d)) (tasks d) n (task_seq d) (tnow d))).

Definition Update (id : Z) (f : Execution → Execution) : M TaskDB unit :=
  _ ← FromContext;
  n ← stmt (λ d, match execs d !! id with
                 | Some e => (Ok 1, set_execs d (<[id := f e]> (execs d)))
                 | None => (Ok 0, d)
                 end);
  if n =? 0
  then fail (WithMessage (NotFoundError None) ("execution " +:+ pretty id +:+ " not found"))
  else mret tt.

(** The foreign key of the tasks protects the row. *)
Definition Delete (id : Z) : M TaskDB unit :=
  _ ← FromContext;
  r ← try (stmt (λ d,
    match execs d !! id with
    | Some _ => if bool_decide (tasks_of d id = [])
                then (Ok 1, set_execs d (delete id (execs d)))
                else (Err (PgError "23503" "violates foreign key constraint"), d)
    | None => (Ok 0, d)
    end));
  match r with
  | Err e => fail (default e (AsForeignKeyError e
               ("the execution " +:+ pretty id +:+ " is referenced by other resources")))
  | Ok n => if n =? 0
            then fail (WithMessage (NotFoundError None) ("execution " +:+ pretty id +:+ " not found"))
            else mret tt
  end.

(** One row of the status counts; an unknown status is only logged. *)
Definition add_count (m : Metrics) (sc : string * Z) : Metrics :=
  let '(s, n) := sc in
  if bool_decide (s = SuccessStatus) then mkMetrics (TaskCount m) n (ErrorTaskCount m) (PendingTaskCount m) (RunningTaskCount m) (ScheduledTaskCount m) (StoppedTaskCount m)
  else if bool_decide (s = ErrorStatus) then mkMetrics (TaskCount m) (SuccessTaskCount m) n (PendingTaskCount m) (RunningTaskCount m) (ScheduledTaskCount m) (StoppedTaskCount m)
  else if bool_decide (s = PendingStatus) then mkMetrics (TaskCount m) (SuccessTaskCount m) (ErrorTaskCount m) n (RunningTaskCount m) (ScheduledTaskCount m) (StoppedTaskCount m)
  else if bool_decide (s = RunningStatus) then mkMetrics (TaskCount m) (SuccessTaskCount m) (ErrorTaskCount m) (PendingTaskCount m) n (ScheduledTaskCount m) (StoppedTaskCount m)
  else if bool_decide (s = ScheduledStatus) then mkMetrics (TaskCount m) (SuccessTaskCount m) (ErrorTaskCount m) (PendingTaskCount m) (RunningTaskCount m) n (StoppedTaskCount m)
  else if bool_decide (s = StoppedStatus) then mkMetrics (TaskCount m) (SuccessTaskCount m) (ErrorTaskCount m) (PendingTaskCount m) (RunningTaskCount m) (ScheduledTaskCount m) n
  else m.

Definition metrics_of (scs : list (string * Z)) : Metrics :=
  let m := foldl add_count (mkMetrics 0 0 0 0 0 0 0) scs in
  mkMetrics (SuccessTaskCount m + ErrorTaskCount m + PendingTaskCount m + RunningTaskCount m
               + ScheduledTaskCount m + StoppedTaskCount m)
    (SuccessTaskCount m) (ErrorTaskCount m) (PendingTaskCount m) (RunningTaskCount m)
    (ScheduledTaskCount m) (StoppedTaskCount m).

Definition GetMetrics (id : Z) : M TaskDB Metrics :=
  scs ← taskDAO.ListStatusCount id;
  mret (metrics_of scs).

Definition status_from (m : Metrics) : string :=
  if (0 <? PendingTaskCount m) || (0 <? RunningTaskCount m) || (0 <? ScheduledTaskCount m)
  then RunningStatus
  else if 0 <? ErrorTaskCount m then ErrorStatus
  else if 0 <? StoppedTaskCount m then StoppedStatus
  else if 0 <? SuccessTaskCount m then SuccessStatus
  else EmptyString.

(** [update ... set status, revision+1 where id and revision]: affected rows. *)
Definition cas_status (id revision : Z) (status : string) (d : TaskDB) : result Z * TaskDB :=
  match execs d !! id with
  | Some e =>
      if e_Revision e =? revision
      then (Ok 1, set_execs d (<[id := mkExec (e_ID e) (e_VendorType e) (e_VendorID e) status
             (e_StatusMessage e) (e_Trigger e) (e_ExtraAttrs e) (e_StartTime e) (tnow d)
             (e_EndTime e) (e_Revision e + 1)]> (execs d)))
      else (Ok 0, d)
  | None => (Ok 0, d)
  end.

(** The end time is the last one of the tasks when the status is final. *)
Definition set_end_time (id : Z) (d : TaskDB) : result unit * TaskDB :=
  (Ok tt, set_execs d (alter (λ e,
     mkExec (e_ID e) (e_VendorType e) (e_VendorID e) (e_Status e) (e_StatusMessage e) (e_Trigger e)
       (e_ExtraAttrs e) (e_StartTime e) (e_UpdateTime e)
       (if bool_decide (e_Status e = ErrorStatus ∨ e_Status e = StoppedStatus ∨ e_Status e = SuccessStatus)
        then taskDAO.max_end (tasks_of d id) else None)
       (e_Revision e)) id (execs d))).

(** The change of the status with the status, or [None] for a retry. *)
Definition refreshStatus (id : Z) : M TaskDB (option (bool * string)) :=
  execution ← Get id;
  metrics ← GetMetrics id;
  if TaskCount metrics =? 0 then mret (Some (false, EmptyString))
  else
    let status := status_from metrics in
    _ ← FromContext;
    n ← stmt (cas_status id (e_Revision execution) status);
    if n =? 0 then mret None
    else
      _ ← stmt (set_end_time id);
      mret (Some (bool_decide (status ≠ e_Status execution), status)).

Fixpoint refresh_loop (n : nat) (id : Z) : M TaskDB (bool * string) :=
  match n with
  | O => fail (PlainError ("failed to refresh the status of the execution " +:+ pretty id
                             +:+ " after 5 retries"))
  | S n =>
      o ← refreshStatus id;
      match o with
      | Some r => mret r
      | None => refresh_loop n id
      end
  end.

Definition RefreshStatus (id : Z) : M TaskDB (bool * string) := refresh_loop 5 id.

End executionDAO.

(** ** The job service client and the hooks of the vendors *)

Record JsClient := mkJsClient {
  SubmitJob : Z → string → M TaskDB string;        (* task id, job name: the job id *)
  PostStop : string → M TaskDB unit;               (* the stop command for a job *)
}.

(** Registered functions, by vendor type. *)
Record Registry := mkRegistry {
  checkInProcessor : string → option (Task → string → M TaskDB unit);
  statusChangePost : string → option (Z → string → M TaskDB unit);
  execStatusChangePost : string → option (Z → string → M TaskDB unit);
}.

Section managers.
Context (js : JsClient) (reg : Registry) (executionSweeperCount : string → Z).

(** ** [src/pkg/task/task.go] *)

Definition createTaskRecord (executionID : Z) (extras : string) : M TaskDB Z :=
  exec ← executionDAO.Get executionID;
  now ← now_;
  taskDAO.Create (λ id, mkTask id (e_VendorType exec) executionID EmptyString PendingStatus
    (Code PendingStatus) 0 0 extras None (Some now) None).

Definition task_Create (executionID : Z) (jobName extras : string) : M TaskDB Z :=
  id ← createTaskRecord executionID extras;
  r ← try (SubmitJob js id jobName);
  match r with
  | Err e =>
      _ ← try (taskDAO.Delete id);
      fail e
  | Ok jobID =>
      _ ← try (taskDAO.Update id (λ t,
        mkTask (t_ID t) (t_VendorType t) (t_ExecutionID t) jobID (t_Status t) (t_StatusCode t)
          (t_StatusRevision t) (t_RunCount t) (t_ExtraAttrs t) (t_StartTime t) (t_UpdateTime t)
          (t_EndTime t)));
      mret id
  end.

Definition is_job_not_found (e : error) : bool :=
  match e with ErrJobNotFound => true | _ => false end.

(** The columns a task gets when its job is gone. *)
Definition stopped_row (now : Z) (t : Task) : Task :=
  mkTask (t_ID t) (t_VendorType t) (t_ExecutionID t) (t_JobID t) StoppedStatus (Code StoppedStatus)
    (t_StatusRevision t) (t_RunCount t) (t_ExtraAttrs t) (t_StartTime t) (Some now) (Some now).

Definition task_Stop (id : Z) : M TaskDB unit :=
  task ← taskDAO.Get id;
  r ← try (PostStop js (t_JobID task));
  match r with
  | Ok _ => mret tt
  | Err e =>
      if is_job_not_found e
      then
        now ← now_;
        _ ← taskDAO.Update (t_ID task) (stopped_row now);
        _ ← executionDAO.RefreshStatus (t_ExecutionID task);
        mret tt
      else fail e
  end.

(** ** [src/pkg/task/execution.go] *)

(** The record; the sweep runs separately, see [sweep]. *)
Definition Create (vendorType : string) (vendorID : Z) (trigger extras : string) : M TaskDB Z :=
  now ← now_;
  executionDAO.Create (λ id, mkExec id vendorType vendorID RunningStatus EmptyString trigger extras
    now now None 0).

Definition UpdateExtraAttrs (id : Z) (extras : string) : M TaskDB unit :=
  now ← now_;
  executionDAO.Update id (λ e, mkExec (e_ID e) (e_VendorType e) (e_VendorID e) (e_Status e)
    (e_StatusMessage e) (e_Trigger e) extras (e_StartTime e) now (e_EndTime e) (e_Revision e)).

(** [MarkDone] and [MarkError] *)
Definition mark_with (status : string) (id : Z) (message : string) : M TaskDB unit :=
  now ← now_;
  executionDAO.Update id (λ e, mkExec (e_ID e) (e_VendorType e) (e_VendorID e) status message
    (e_Trigger e) (e_ExtraAttrs e) (e_StartTime e) now (Some now) (e_Revision e)).
Definition MarkDone : Z → string → M TaskDB unit := mark_with SuccessStatus.
Definition MarkError : Z → string → M TaskDB unit := mark_with ErrorStatus.

(** The loop of [Stop]: failures are logged, the last task's error is returned. *)
Fixpoint stop_all (ids : list Z) (err : option error) : M TaskDB unit :=
  match ids with
  | [] => match err with Some e => fail e | None => mret tt end
  | id :: ids =>
      r ← try (task_Stop id);
      stop_all ids (match r with Ok _ => None | Err e => Some e end)
  end.

Definition Stop (id : Z) : M TaskDB unit :=
  execution ← executionDAO.Get id;
  ts ← taskDAO.List_by (λ t, t_ExecutionID t = id);
  match ts with
  | [] =>
      if Final (e_Status execution) then mret tt
      else
        now ← now_;
        executionDAO.Update id (λ e, mkExec (e_ID e) (e_VendorType e) (e_VendorID e) StoppedStatus
          (e_StatusMessage e) (e_Trigger e) (e_ExtraAttrs e) (e_StartTime e) now (Some now)
          (e_Revision execution + 1))
  | _ => stop_all (map t_ID ts) None
  end.

(** [StopAndWait]: stop, then poll until the status is final; [polls] rounds fit
    before the timer fires, and [env] is what happens between two of them. *)
Fixpoint wait_final (polls : nat) (env : M TaskDB unit) (id : Z) : M TaskDB unit :=
  match polls with
  | O => fail ErrTimeOut
  | S polls =>
      execution ← executionDAO.Get id;
      if Final (e_Status execution) then mret tt
      else _ ← try env; wait_final polls env id
  end.

Definition StopAndWait (polls : nat) (env : M TaskDB unit) (id : Z) : M TaskDB unit :=
  _ ← Stop id;
  wait_final polls env id.

Fixpoint delete_tasks (id : Z) (ts : list Task) : M TaskDB unit :=
  match ts with
  | [] => mret tt
  | t :: ts =>
      if negb (Final (t_Status t))
      then fail (WithCode (New ("the execution " +:+ pretty id
             +:+ " has tasks that aren't in final status, stop the tasks first")) PreconditionCode)
      else
        r ← try (taskDAO.Delete (t_ID t));
        match r with
        | Ok _ => delete_tasks id ts
        | Err e => if IsNotFoundErr e then delete_tasks id ts else fail e
        end
  end.

Definition Delete (id : Z) : M TaskDB unit :=
  ts ← taskDAO.List_by (λ t, t_ExecutionID t = id);
  _ ← delete_tasks id ts;
  executionDAO.Delete id.

Fixpoint delete_execs (ids : list Z) : M TaskDB unit :=
  match ids with
  | [] => mret tt
  | id :: ids =>
      r ← try (Delete id);
      match r with
      | Ok _ => delete_execs ids
      | Err e => if IsNotFoundErr e then delete_execs ids else fail e
      end
  end.

Definition vendor_execs (vendorType : string) (vendorID : Z) (d : TaskDB) : list Execution :=
  filter (λ e, e_VendorType e = vendorType ∧ e_VendorID e = vendorID) ((map_to_list (execs d)).*2).

Definition DeleteByVendor (vendorType : string) (vendorID : Z) : M TaskDB unit :=
  es ← (_ ← FromContext; query (λ d, Ok (vendor_execs vendorType vendorID d)));
  if bool_decide (Forall (λ e, Final (e_Status e) = true) es)
  then delete_execs (map e_ID es)
  else fail (WithCode (New "contains executions that aren't in final status, stop the execution first")
               PreconditionCode).

(** *** The sweeper *)

(** Newest first. *)
Definition newer (a b : Execution) : Prop := e_StartTime b <= e_StartTime a.
#[export] Instance newer_dec : RelDecision newer.
Proof. intros a b. unfold newer. apply _. Defined.

(** One page of a query: [limit] and [offset]. *)
Definition page {A} (size number : nat) (l : list A) : list A :=
  take size (drop (size * (number - 1)) l).

Definition candidates (vendorType : string) (vendorID : Z) (maxStart : option Z) (d : TaskDB)
    : list Execution :=
  merge_sort newer (filter (λ e, e_StartTime e <= default (e_StartTime e) maxStart)
    (vendor_execs vendorType vendorID d)).

Definition list_page (vendorType : string) (vendorID : Z) (maxStart : option Z) (size number : nat)
    : M TaskDB (list Execution) :=
  _ ← FromContext;
  query (λ d, Ok (page size number (candidates vendorType vendorID maxStart d))).

Definition count_candidates (vendorType : string) (vendorID : Z) (maxStart : option Z) : M TaskDB nat :=
  _ ← FromContext;
  query (λ d, Ok (length (candidates vendorType vendorID maxStart d))).

(** The executions of a page; only final ones are deleted, failures are logged. *)
Fixpoint sweep_execs (es : list Execution) : M TaskDB unit :=
  match es with
  | [] => mret tt
  | e :: es =>
      if negb (Final (e_Status e)) then sweep_execs es
      else _ ← try (Delete (e_ID e)); sweep_execs es
  end.

(** Pages from the last to the first. *)
Fixpoint sweep_pages (vendorType : string) (vendorID m : Z) (i : nat) : M TaskDB unit :=
  match i with
  | O => mret tt
  | S i' =>
      es ← list_page vendorType vendorID (Some m) 1000 i;
      _ ← sweep_execs es;
      sweep_pages vendorType vendorID m i'
  end.

Definition page_count (total : nat) : nat :=
  (total / 1000 + if 0 <? total mod 1000 then 1 else 0)%nat.

Definition sweep (vendorType : string) (vendorID : Z) : M TaskDB unit :=
  let size := executionSweeperCount vendorType in
  if size =? 0 then mret tt
  else
    es ← list_page vendorType vendorID None 1 (Z.to_nat size);
    match es with
    | [] => mret tt
    | e :: _ =>
        total ← count_candidates vendorType vendorID (Some (e_StartTime e));
        sweep_pages vendorType vendorID (e_StartTime e) (page_count total)
    end.

(** ** [src/pkg/task/hook.go] *)

Definition Handle (sc : StatusChange) : M TaskDB unit :=
  let jobID := if bool_decide (UpstreamJobID (sc_Metadata sc) = EmptyString)
               then sc_JobID sc else UpstreamJobID (sc_Metadata sc) in
  ts ← taskDAO.List_by (λ t, t_JobID t = jobID);
  match ts with
  | [] => fail (WithCode (New ("task with job ID " +:+ sc_JobID sc +:+ " not found")) NotFoundCode)
  | task :: _ =>
      execution ← executionDAO.Get (t_ExecutionID task);
      if bool_decide (sc_CheckIn sc ≠ EmptyString)
      then
        match checkInProcessor reg (e_VendorType execution) with
        | None => fail (PlainError ("the check in processor for task " +:+ pretty (t_ID task) +:+ " not found"))
        | Some processor => processor task (sc_CheckIn sc)
        end
      else
        _ ← taskDAO.UpdateStatus (t_ID task) (sc_Status sc) (Revision (sc_Metadata sc));
        _ ← (match statusChangePost reg (e_VendorType execution) with
             | Some fc => _ ← try (fc (t_ID task) (sc_Status sc)); mret tt
             | None => mret tt
             end);
        '(statusChanged, currentStatus) ← executionDAO.RefreshStatus (t_ExecutionID task);
        match execStatusChangePost reg (e_VendorType execution) with
        | Some fc => if (statusChanged : bool)
                     then _ ← try (fc (t_ExecutionID task) currentStatus); mret tt
                     else mret tt
        | None => mret tt
        end
  end.

End managers.

(** ** Task statuses *)

(** Revision first, then code: the order in which hooks are accepted. *)
Definition rank_max (a b : Z * Z) : Z * Z :=
  if (fst a <? fst b) || ((fst a =? fst b) && (snd a <? snd b)) then b else a.

Lemma rank_max_comm a b : rank_max a b = rank_max b a.
Proof.
  destruct a as [a1 a2], b as [b1 b2]. unfold rank_max; simpl.
  destruct (a1 <? b1) eqn:?, (a1 =? b1) eqn:?, (a2 <? b2) eqn:?, (b1 <? a1) eqn:?,
    (b1 =? a1) eqn:?, (b2 <? a2) eqn:?; simpl; try done; f_equal; lia.
Qed.

Lemma rank_max_assoc a b c : rank_max a (rank_max b c) = rank_max (rank_max a b) c.
Proof.
  destruct a as [a1 a2], b as [b1 b2], c as [c1 c2]. unfold rank_max; simpl.
  repeat (case_match; simpl in * ); try done; exfalso;
    repeat match goal with
    | H : _ || _ = true |- _ => apply orb_true_iff in H
    | H : _ && _ = true |- _ => apply andb_true_iff in H
    | H : _ || _ = false |- _ => apply orb_false_iff in H
    | H : _ && _ = false |- _ => apply andb_false_iff in H
    end; lia.
Qed.

Definition rank (t : Task) : Z * Z := (t_StatusRevision t, t_StatusCode t).

(** The effect of one hook on the row. *)
Definition hook_row (status : string) (rev now : Z) (t : Task) : Task :=
  taskDAO.accept_status status rev now (taskDAO.count_run rev t).

Lemma hook_row_rank s r now t : rank (hook_row s r now t) = rank_max (rank t) (r, Code s).
Proof.
  unfold hook_row, taskDAO.accept_status, taskDAO.count_run, rank, rank_max. simpl.
  destruct (t_StatusRevision t <? r) eqn:E1; simpl.
  - rewrite E1, orb_true_r. done.
  - rewrite E1, orb_false_r. by destruct (_ && _).
Qed.

(** The status text and its code agree. *)
Definition status_ok (t : Task) : Prop := t_StatusCode t = Code (t_Status t).

Lemma hook_row_ok s r now t : status_ok t → status_ok (hook_row s r now t).
Proof.
  unfold hook_row, taskDAO.accept_status, taskDAO.count_run, status_ok. intros H.
  destruct (t_StatusRevision t <? r); simpl; by destruct (_ || _).
Qed.

Lemma UpdateStatus_ok id s r w w' :
  taskDAO.UpdateStatus id s r w = (Ok tt, w') →
  db w' = set_tasks (db w) (alter (hook_row s r (tnow (db w))) id (tasks (db w))).
Proof.
  intros H. unfold taskDAO.UpdateStatus in H. mbind_inv H. apply FromContext_cases in Hm as [-> _].
  mbind_inv H. apply stmt_ok_inv in Hm. unfold taskDAO.on_row in Hm. injection Hm as _ Hm.
  rewrite bind_eq in H. simpl in H. apply stmt_ok_inv in H. unfold taskDAO.on_row in H.
  injection H as H. rewrite <- H, <- Hm. simpl. unfold set_tasks. simpl. f_equal.
  apply map_eq. intros i. destruct (decide (id = i)) as [<-|Hn].
  - rewrite !lookup_alter_eq. by destruct (tasks _ !! id).
  - by rewrite !lookup_alter_ne.
Qed.

Fixpoint deliver (id : Z) (evs : list (string * Z)) : M TaskDB unit :=
  match evs with
  | [] => mret tt
  | (s, r) :: evs => _ ← taskDAO.UpdateStatus id s r; deliver id evs
  end.

Lemma deliver_row id evs w w' t :
  tasks (db w) !! id = Some t → deliver id evs w = (Ok tt, w') →
  tasks (db w') !! id = Some (foldl (λ t e, hook_row e.1 e.2 (tnow (db w)) t) t evs).
Proof.
  revert w t. induction evs as [|[s r] evs IH]; intros w t Ht H; simpl in H; [by injection H as <-|].
  mbind_inv H. destruct a. apply UpdateStatus_ok in Hm as Hd.
  eapply IH in H; [|rewrite Hd; simpl; by rewrite lookup_alter_eq, Ht]. rewrite H.
  by rewrite Hd.
Qed.

Lemma foldl_rank now evs t :
  rank (foldl (λ t e, hook_row e.1 e.2 now t) t evs) = foldr rank_max (rank t) (map (λ e, (e.2, Code e.1)) evs).
Proof.
  revert t. induction evs as [|[s r] evs IH]; intros t; [done|]. simpl. rewrite IH, hook_row_rank.
  clear IH. generalize (rank t). intros x. simpl. induction evs as [|[s' r'] evs IH]; simpl.
  - apply rank_max_comm.
  - rewrite IH, !rank_max_assoc. f_equal. apply rank_max_comm.
Qed.

Lemma foldr_rank_perm (l l' : list (Z * Z)) x : l ≡ₚ l' → foldr rank_max x l = foldr rank_max x l'.
Proof.
  induction 1; simpl; [done|by f_equal| |by etransitivity].
  rewrite !rank_max_assoc. f_equal. apply rank_max_comm.
Qed.

Lemma Code_inj s s' : Code s = Code s' → Code s ≠ -1 → Code s ≠ 3 → s = s'.
Proof.
  intros H H1 H3. unfold Code in *.
  repeat (case_bool_decide; subst; try done; try lia).
Qed.

Lemma foldl_hook_ok now evs t :
  status_ok t → status_ok (foldl (λ t e, hook_row e.1 e.2 now t) t evs).
Proof. revert t. induction evs; intros t Ht; [done|]. simpl. apply IHevs. by apply hook_row_ok. Qed.

Lemma foldr_rank_bound (l : list (Z * Z)) x :
  Forall (λ y, snd y ≠ -1) l → snd x ≠ -1 → snd (foldr rank_max x l) ≠ -1.
Proof. induction 1; simpl; [done|]. intros. unfold rank_max. by case_match; auto. Qed.

(** C23 (functional). Status hooks of a task may be delivered in any order, late
    or repeated: the revision and the status code the row ends with depend only
    on which hooks were delivered, and so does the status while it is not
    final. *)
Theorem hook_delivery_order_irrelevant id evs evs' w w1 w2 t :
  evs ≡ₚ evs' → tasks (db w) !! id = Some t → status_ok t → Code (t_Status t) ≠ -1 →
  Forall (λ e, Validate e.1 = None) evs →
  deliver id evs w = (Ok tt, w1) → deliver id evs' w = (Ok tt, w2) →
  ∃ t1 t2, tasks (db w1) !! id = Some t1 ∧ tasks (db w2) !! id = Some t2 ∧
    rank t1 = rank t2 ∧ status_ok t1 ∧ status_ok t2 ∧
    (Final (t_Status t1) = false → t_Status t1 = t_Status t2).
Proof.
  intros Hp Ht Hok Hc Hv H1 H2. eapply deliver_row in H1; [|done]. eapply deliver_row in H2; [|done].
  eexists _, _. split; [done|]. split; [done|].
  assert (Hr : rank (foldl (λ t e, hook_row e.1 e.2 (tnow (db w)) t) t evs)
             = rank (foldl (λ t e, hook_row e.1 e.2 (tnow (db w)) t) t evs')).
  { rewrite !foldl_rank. apply foldr_rank_perm. by apply Permutation_map. }
  assert (Hn : snd (rank (foldl (λ t e, hook_row e.1 e.2 (tnow (db w)) t) t evs)) ≠ -1).
  { rewrite foldl_rank. apply foldr_rank_bound; [|simpl; by rewrite Hok].
    apply Forall_map. eapply Forall_impl; [done|]. intros [s r] Hs. simpl in *.
    unfold Validate in Hs. destruct (Code s =? -1) eqn:E; [done|lia]. }
  pose proof (foldl_hook_ok (tnow (db w)) evs t Hok) as Hk1.
  pose proof (foldl_hook_ok (tnow (db w)) evs' t Hok) as Hk2.
  generalize dependent (foldl (λ t e, hook_row e.1 e.2 (tnow (db w)) t) t evs').
  generalize dependent (foldl (λ t e, hook_row e.1 e.2 (tnow (db w)) t) t evs).
  intros t1 _ Hn Hk1 t2 _ Hr Hk2. split_and!; try done.
  intros Hf. unfold rank in *. simpl in *. injection Hr as _ Hcode. unfold status_ok in *.
  unfold Final in Hf. apply Code_inj; lia.
Qed.

Definition ex_task (s : string) : Task := mkTask 1 "GC" 1 "j1" s (Code s) 100 1 "{}" None None None.
Definition ex_exec (s : string) : Execution := mkExec 1 "GC" 0 s "" "MANUAL" "{}" 90 90 None 0.
Definition ex_tdb (s : string) : TaskDB :=
  mkTaskDB (<[1 := ex_exec RunningStatus]> ∅) (<[1 := ex_task s]> ∅) 1 1 200.

Lemma hook_delivery_order_irrelevant_witness :
  let w := mkWorld (ex_tdb PendingStatus) true [] in
  let a := deliver 1 [(RunningStatus, 100); (SuccessStatus, 100)] w in
  let b := deliver 1 [(SuccessStatus, 100); (RunningStatus, 100)] w in
  ∃ t1 t2, tasks (db (snd a)) !! 1 = Some t1 ∧ tasks (db (snd b)) !! 1 = Some t2 ∧ rank t1 = rank t2.
Proof.
  intros w a b.
  destruct (hook_delivery_order_irrelevant 1 [(RunningStatus, 100); (SuccessStatus, 100)]
    [(SuccessStatus, 100); (RunningStatus, 100)] w (snd a) (snd b) (ex_task PendingStatus))
    as (t1 & t2 & H1 & H2 & Hr & _);
    [apply Permutation_swap|vm_compute; reflexivity|vm_compute; reflexivity|vm_compute; discriminate
    |repeat constructor|vm_compute; reflexivity|vm_compute; reflexivity|].
  exists t1, t2. auto.
Defined.

(** ** The status of an execution *)

Definition has_status (ts : list Task) (l : list string) : bool :=
  existsb (λ t, bool_decide (t_Status t ∈ l)) ts.

(** The specification: a task that is not final keeps the execution running,
    otherwise an error wins over a stop, and a stop over success. *)
Definition derived (ts : list Task) : string :=
  if has_status ts [PendingStatus; RunningStatus; ScheduledStatus] then RunningStatus
  else if has_status ts [ErrorStatus] then ErrorStatus
  else if has_status ts [StoppedStatus] then StoppedStatus
  else if has_status ts [SuccessStatus] then SuccessStatus
  else EmptyString.

Definition known_statuses : list string :=
  [SuccessStatus; ErrorStatus; PendingStatus; RunningStatus; ScheduledStatus; StoppedStatus].

Definition count_of (m : Metrics) (s : string) : Z :=
  if bool_decide (s = SuccessStatus) then SuccessTaskCount m
  else if bool_decide (s = ErrorStatus) then ErrorTaskCount m
  else if bool_decide (s = PendingStatus) then PendingTaskCount m
  else if bool_decide (s = RunningStatus) then RunningTaskCount m
  else if bool_decide (s = ScheduledStatus) then ScheduledTaskCount m
  else StoppedTaskCount m.

Lemma add_count_spec m s n s' :
  s' ∈ known_statuses → count_of (executionDAO.add_count m (s, n)) s' = if bool_decide (s = s') then n else count_of m s'.
Proof.
  intros Hs'. unfold known_statuses in Hs'. rewrite !elem_of_cons in Hs'.
  unfold executionDAO.add_count.
  destruct Hs' as [->|[->|[->|[->|[->|[->|[]%not_elem_of_nil]]]]]];
    repeat (case_bool_decide; subst; try done).
Qed.

Lemma foldl_count l m s :
  s ∈ known_statuses → NoDup (l.*1) →
  (∀ n, (s, n) ∈ l → count_of (foldl executionDAO.add_count m l) s = n) ∧
  (s ∉ l.*1 → count_of (foldl executionDAO.add_count m l) s = count_of m s).
Proof.
  intros Hs. revert m. induction l as [|[s0 n0] l IH]; intros m Hnd.
  { split; [by intros ? ?%not_elem_of_nil|done]. }
  rewrite fmap_cons in Hnd. apply NoDup_cons in Hnd as [Hn0 Hnd]. simpl in Hn0. cbn [foldl].
  destruct (IH (executionDAO.add_count m (s0, n0)) Hnd) as [H1 H2]. split.
  - intros n [[= -> ->]|Hin]%elem_of_cons; [|by apply H1].
    rewrite H2 by done. rewrite add_count_spec by done. by rewrite bool_decide_true.
  - intros Hni. rewrite fmap_cons, not_elem_of_cons in Hni. simpl in Hni. destruct Hni as [Hne Hni].
    rewrite H2 by done. rewrite add_count_spec by done. by rewrite bool_decide_false by congruence.
Qed.

(** The counts the query returns for the tasks. *)
Definition status_counts (ts : list Task) : list (string * Z) :=
  let sts := map t_Status ts in
  map (λ s, (s, Z.of_nat (length (filter (λ x, x = s) sts)))) (remove_dups sts).

Lemma metrics_count ts s :
  s ∈ known_statuses →
  count_of (executionDAO.metrics_of (status_counts ts)) s
    = Z.of_nat (length (filter (λ x, x = s) (map t_Status ts))).
Proof.
  intros Hs.
  assert (Hcnt : ∀ m, count_of (executionDAO.metrics_of m) s = count_of (foldl executionDAO.add_count (mkMetrics 0 0 0 0 0 0 0) m) s).
  { intros m. unfold count_of, executionDAO.metrics_of. simpl. by repeat case_bool_decide. }
  rewrite Hcnt. set (l := status_counts ts).
  assert (Hk : l.*1 = remove_dups (map t_Status ts)).
  { unfold l, status_counts. rewrite <- (list_fmap_compose _ fst). apply list_fmap_id. }
  destruct (foldl_count l (mkMetrics 0 0 0 0 0 0 0) s Hs) as [H1 H2].
  { rewrite Hk. apply NoDup_remove_dups. }
  destruct (decide (s ∈ map t_Status ts)) as [Hin|Hni].
  - apply H1. unfold l, status_counts. apply list_elem_of_fmap. exists s. split; [done|].
    by apply elem_of_remove_dups.
  - rewrite H2 by (rewrite Hk, elem_of_remove_dups; done).
    assert (filter (λ x, x = s) (map t_Status ts) = []) as ->.
    { apply filter_nil_iff, Forall_forall. intros x Hx ->. done. }
    unfold count_of. by repeat case_bool_decide.
Qed.

Lemma count_pos ts s :
  s ∈ known_statuses →
  (0 <? count_of (executionDAO.metrics_of (status_counts ts)) s) = has_status ts [s].
Proof.
  intros Hs. rewrite metrics_count by done. unfold has_status. clear Hs.
  induction ts as [|t ts IH]; [done|]. simpl. rewrite <- IH. rewrite filter_cons.
  case_decide as Ht; simpl.
  - rewrite bool_decide_true by (by apply list_elem_of_singleton). done.
  - by rewrite bool_decide_false by (by rewrite list_elem_of_singleton).
Qed.

Lemma has_status_app ts l l' : has_status ts (l ++ l') = has_status ts l || has_status ts l'.
Proof.
  unfold has_status. induction ts as [|t ts IH]; [done|]. simpl. rewrite IH.
  rewrite (bool_decide_ext (t_Status t ∈ l ++ l') (t_Status t ∈ l ∨ t_Status t ∈ l')) by apply elem_of_app.
  rewrite bool_decide_or. by destruct (bool_decide _), (bool_decide _), (existsb _ _), (existsb _ _).
Qed.

Lemma status_from_derived ts :
  executionDAO.status_from (executionDAO.metrics_of (status_counts ts)) = derived ts.
Proof.
  unfold executionDAO.status_from, derived.
  change [PendingStatus; RunningStatus; ScheduledStatus] with ([PendingStatus] ++ [RunningStatus] ++ [ScheduledStatus]).
  rewrite !has_status_app.
  rewrite <- !count_pos by (unfold known_statuses; set_solver).
  rewrite orb_assoc. done.
Qed.

Lemma no_known_status ts :
  TaskCount (executionDAO.metrics_of (status_counts ts)) = 0 ↔ has_status ts known_statuses = false.
Proof.
  assert (Hc : TaskCount (executionDAO.metrics_of (status_counts ts)) =
    foldr (λ s n, count_of (executionDAO.metrics_of (status_counts ts)) s + n) 0 known_statuses).
  { unfold count_of, known_statuses. cbn [foldr]. repeat (case_bool_decide; try done).
    unfold executionDAO.metrics_of. simpl. lia. }
  change known_statuses with ([SuccessStatus] ++ [ErrorStatus] ++ [PendingStatus] ++ [RunningStatus] ++ [ScheduledStatus] ++ [StoppedStatus]).
  rewrite !has_status_app, !orb_false_iff. rewrite Hc. unfold known_statuses at 1. cbn [foldr].
  assert (Hp : ∀ s, s ∈ known_statuses → 0 <= count_of (executionDAO.metrics_of (status_counts ts)) s)
    by (intros s Hs; rewrite metrics_count by done; lia).
  rewrite <- !count_pos by (unfold known_statuses; set_solver).
  pose proof (Hp SuccessStatus ltac:(unfold known_statuses; set_solver)).
  pose proof (Hp ErrorStatus ltac:(unfold known_statuses; set_solver)).
  pose proof (Hp PendingStatus ltac:(unfold known_statuses; set_solver)).
  pose proof (Hp RunningStatus ltac:(unfold known_statuses; set_solver)).
  pose proof (Hp ScheduledStatus ltac:(unfold known_statuses; set_solver)).
  pose proof (Hp StoppedStatus ltac:(unfold known_statuses; set_solver)).
  rewrite !Z.ltb_ge. lia.
Qed.

Definition refreshed (e : Execution) (st : string) (ts : list Task) (now : Z) : Execution :=
  mkExec (e_ID e) (e_VendorType e) (e_VendorID e) st (e_StatusMessage e) (e_Trigger e) (e_ExtraAttrs e)
    (e_StartTime e) now (if Final st then taskDAO.max_end ts else None) (e_Revision e + 1).

Lemma derived_final ts :
  bool_decide (derived ts = ErrorStatus ∨ derived ts = StoppedStatus ∨ derived ts = SuccessStatus)
    = Final (derived ts).
Proof.
  unfold derived.
  destruct (has_status ts [PendingStatus; RunningStatus; ScheduledStatus]); [done|].
  destruct (has_status ts [ErrorStatus]); [done|].
  destruct (has_status ts [StoppedStatus]); [done|].
  by destruct (has_status ts [SuccessStatus]).
Qed.

Lemma exec_Get_ok id w e w' :
  executionDAO.Get id w = (Ok e, w') → db w' = db w ∧ execs (db w) !! id = Some e.
Proof.
  intros H. unfold executionDAO.Get in H. mbind_inv H. apply FromContext_cases in Hm as [-> _].
  apply bind_try_inv in H as (r & w1 & Hq & H). apply query_cases in Hq as (Hd & _ & Hq).
  destruct r as [e'|e']; [|done]. injection H as -> <-. split; [done|].
  destruct Hq as [[? [=]]|Hq]. destruct (execs _ !! id); by simplify_eq.
Qed.

Lemma GetMetrics_ok id w m w' :
  executionDAO.GetMetrics id w = (Ok m, w') →
  db w' = db w ∧ m = executionDAO.metrics_of (status_counts (tasks_of (db w) id)).
Proof.
  intros H. unfold executionDAO.GetMetrics in H. mbind_inv H. injection H as <- <-.
  unfold taskDAO.ListStatusCount in Hm. mbind_inv Hm. apply FromContext_cases in Hm0 as [-> _].
  apply query_cases in Hm as (Hd & _ & [[? [=]]|Hq]). injection Hq as ->. done.
Qed.

Lemma exec_Get_nofault id d e :
  execs d !! id = Some e → executionDAO.Get id (mkWorld d true []) = (Ok e, mkWorld d true []).
Proof.
  intros He. unfold executionDAO.Get. rewrite bind_eq. simpl. rewrite bind_eq. unfold try.
  by rewrite query_nofault, He.
Qed.

Lemma GetMetrics_nofault id d :
  executionDAO.GetMetrics id (mkWorld d true [])
    = (Ok (executionDAO.metrics_of (status_counts (tasks_of d id))), mkWorld d true []).
Proof.
  unfold executionDAO.GetMetrics, taskDAO.ListStatusCount. rewrite bind_eq, bind_eq.
  rewrite FromContext_ok by done. by rewrite query_nofault.
Qed.

Lemma refreshStatus_ok id w o w' :
  executionDAO.refreshStatus id w = (Ok o, w') →
  ∃ e, execs (db w) !! id = Some e ∧
    let ts := tasks_of (db w) id in
    if has_status ts known_statuses
    then o = Some (bool_decide (derived ts ≠ e_Status e), derived ts) ∧
         db w' = set_execs (db w) (<[id := refreshed e (derived ts) ts (tnow (db w))]> (execs (db w)))
    else o = Some (false, EmptyString) ∧ db w' = db w.
Proof.
  intros H. unfold executionDAO.refreshStatus in H. mbind_inv H.
  apply exec_Get_ok in Hm as [Hd1 He]. mbind_inv H. apply GetMetrics_ok in Hm as [Hd2 ->].
  rewrite Hd1 in *. exists a. split; [done|]. simpl. set (ts := tasks_of (db w) id) in *.
  destruct (has_status ts known_statuses) eqn:Ek.
  - destruct (TaskCount _ =? 0) eqn:Ec.
    { assert (has_status ts known_statuses = false) as Hf by (apply no_known_status; lia). by rewrite Hf in Ek. }
    rewrite status_from_derived in H. mbind_inv H. apply FromContext_cases in Hm as [-> _].
    mbind_inv H. apply stmt_ok_inv in Hm. unfold executionDAO.cas_status in Hm.
    rewrite Hd2, He, Z.eqb_refl in Hm. injection Hm as <- Hd3. simpl in H. mbind_inv H.
    apply stmt_ok_inv in Hm. unfold executionDAO.set_end_time in Hm. injection Hm as _ Hd4.
    injection H as <- <-. split; [done|]. rewrite <- Hd4, <- Hd3. unfold set_execs. simpl. f_equal.
    apply map_eq. intros i. destruct (decide (id = i)) as [<-|Hn].
    + rewrite lookup_alter_eq, !lookup_insert_eq. simpl. rewrite derived_final. done.
    + by rewrite lookup_alter_ne, !lookup_insert_ne.
  - apply no_known_status in Ek. rewrite Ek in H. simpl in H. injection H as <- <-.
    split; [done|congruence].
Qed.

(** Further property (refinement). A refresh that returns has set the execution's status to
    the one the specification derives from its tasks, advanced its revision by
    one and set the end time to the tasks' last one exactly when the status is
    final, changing nothing else; without tasks it changes nothing.  It reports
    whether the status changed.  Without faults it always returns, in the first
    of its attempts. *)
Theorem RefreshStatus_spec id :
  (∀ w ch st w', executionDAO.RefreshStatus id w = (Ok (ch, st), w') →
     ∃ e, execs (db w) !! id = Some e ∧
       let ts := tasks_of (db w) id in
       if has_status ts known_statuses
       then st = derived ts ∧ ch = bool_decide (st ≠ e_Status e) ∧
            db w' = set_execs (db w) (<[id := refreshed e st ts (tnow (db w))]> (execs (db w)))
       else ch = false ∧ st = EmptyString ∧ db w' = db w) ∧
  (∀ d, is_Some (execs d !! id) → is_ok (fst (executionDAO.RefreshStatus id (mkWorld d true []))) = true).
Proof.
  split.
  - intros w ch st w' H. unfold executionDAO.RefreshStatus in H. cbn [executionDAO.refresh_loop] in H.
    mbind_inv H. apply refreshStatus_ok in Hm as (e & He & Hm). exists e. split; [done|]. simpl in *.
    destruct (has_status _ _); destruct Hm as [-> Hd]; rewrite mret_eq in H; injection H as <- <- <-; done.
  - intros d [e He]. unfold executionDAO.RefreshStatus. cbn [executionDAO.refresh_loop].
    assert (Hr : ∃ r w', executionDAO.refreshStatus id (mkWorld d true []) = (Ok (Some r), w')).
    { unfold executionDAO.refreshStatus. rewrite bind_eq, (exec_Get_nofault _ _ _ He).
      rewrite bind_eq, GetMetrics_nofault.
      match goal with |- context [if ?b then _ else _] => destruct b end; [by do 2 eexists|].
      rewrite bind_eq, FromContext_ok by done. rewrite bind_eq, stmt_nofault.
      unfold executionDAO.cas_status. rewrite He, Z.eqb_refl. simpl fst. simpl snd.
      cbv iota beta. change (1 =? 0) with false. cbv iota. rewrite bind_eq, stmt_nofault. by do 2 eexists. }
    destruct Hr as (r & w' & Hr). rewrite bind_eq, Hr. done.
Qed.

Lemma RefreshStatus_spec_witness :
  let w := mkWorld (ex_tdb SuccessStatus) true [] in
  is_ok (fst (executionDAO.RefreshStatus 1 w)) = true ∧
  ∀ ch st w', executionDAO.RefreshStatus 1 w = (Ok (ch, st), w') →
    ∃ e, execs (db w) !! 1 = Some e.
Proof.
  intros w. split.
  - apply (proj2 (RefreshStatus_spec 1)). vm_compute. by eexists.
  - intros ch st w' H. destruct (proj1 (RefreshStatus_spec 1) _ _ _ _ H) as (e & He & _). eauto.
Defined.

(** ** Deletion *)

Definition task_keys (d : TaskDB) : Prop := ∀ i t, tasks d !! i = Some t → t_ID t = i.
Definition exec_keys (d : TaskDB) : Prop := ∀ i e, execs d !! i = Some e → e_ID e = i.

Lemma tasks_of_in d id t : t ∈ tasks_of d id ↔ (∃ i, tasks d !! i = Some t) ∧ t_ExecutionID t = id.
Proof.
  unfold tasks_of. rewrite list_elem_of_filter, list_elem_of_fmap. split.
  - intros [? ([i t'] & -> & Hin)]. apply elem_of_map_to_list in Hin. eauto.
  - intros [[i Hi] ?]. split; [done|]. exists (i, t). by rewrite elem_of_map_to_list.
Qed.

(** What deleting tasks may do: rows of [ts] that are final disappear. *)
Definition drops_tasks (P : Task → Prop) (d d' : TaskDB) : Prop :=
  execs d' = execs d ∧ tnow d' = tnow d ∧
  (∀ i t, tasks d' !! i = Some t → tasks d !! i = Some t) ∧
  (∀ i t, tasks d !! i = Some t → tasks d' !! i = Some t ∨ P t).

#[export] Instance drops_tasks_po P : PreOrder (drops_tasks P).
Proof.
  split; [intros d; split_and!; eauto|].
  intros a b c (? & ? & H1 & H2) (? & ? & H3 & H4). split_and!; [congruence..|eauto|].
  intros i t Ht. destruct (H2 _ _ Ht) as [Hb|?]; eauto.
Qed.

Lemma task_Delete_drops P i d0 :
  (∀ t, tasks d0 !! i = Some t → P t) → ∀ w r w',
  (∀ t, tasks (db w) !! i = Some t → tasks d0 !! i = Some t) →
  taskDAO.Delete i w = (r, w') → drops_tasks P (db w) (db w').
Proof.
  intros HP w r w' Hsub H. unfold taskDAO.Delete in H. mbind_inv H.
  { apply FromContext_cases in Hm as [-> _]. reflexivity. }
  apply FromContext_cases in Hm as [-> _].
  assert (Hst : ∀ x w2, stmt (λ d, match tasks d !! i with
                 | Some _ => (Ok 1, set_tasks d (delete i (tasks d)))
                 | None => (Ok 0, d) end) w = (x, w2) → drops_tasks P (db w) (db w2)).
  { intros x w2 Hs. apply stmt_cases in Hs as [_ [(e & _ & ->)|Hs]]; [reflexivity|].
    destruct (tasks (db w) !! i) as [t|] eqn:Et; injection Hs as _ <-; [|reflexivity].
    split_and!; try done; simpl.
    - intros k t'. rewrite lookup_delete_Some. naive_solver.
    - intros k t' Hk. destruct (decide (k = i)) as [->|Hn].
      + right. apply HP, Hsub. congruence.
      + left. by rewrite lookup_delete_ne. }
  mbind_inv H; [by eapply Hst|]. apply Hst in Hm. by destruct (a0 =? 0); injection H as _ <-.
Qed.

Lemma delete_tasks_drops id ts w r w' :
  (∀ t, t ∈ ts → ∀ t', tasks (db w) !! t_ID t = Some t' → t' = t) →
  delete_tasks id ts w = (r, w') →
  drops_tasks (λ t, t ∈ ts ∧ Final (t_Status t) = true) (db w) (db w') ∧
  (r = Ok tt → Forall (λ t, Final (t_Status t) = true) ts).
Proof.
  revert w. induction ts as [|t ts IH]; intros w Hin H; simpl in H.
  { injection H as <- <-. split; [reflexivity|by constructor]. }
  destruct (Final (t_Status t)) eqn:Ef; simpl in H; [|injection H as <- <-; split; [reflexivity|done]].
  apply bind_try_inv in H as (x & w1 & Hd & H).
  apply (task_Delete_drops (λ t', t' ∈ t :: ts ∧ Final (t_Status t') = true) _ (db w)) in Hd; [| |done].
  2:{ intros t' Ht'. rewrite (Hin t ltac:(left) t' Ht'). split; [left|done]. }
  assert (Hcont : delete_tasks id ts w1 = (r, w') →
    drops_tasks (λ t0, t0 ∈ t :: ts ∧ Final (t_Status t0) = true) (db w) (db w') ∧
    (r = Ok tt → Forall (λ t0, Final (t_Status t0) = true) (t :: ts))).
  { intros Hc. apply IH in Hc as [Hc1 Hc2].
    - split; [|intros Hr; constructor; auto].
      etransitivity; [done|]. destruct Hc1 as (? & ? & H1 & H2). split_and!; try done.
      intros i t0 Ht0. destruct (H2 _ _ Ht0) as [?|[??]]; [auto|]. right. split; [by right|done].
    - intros t0 Ht0 t' Ht'. destruct Hd as (_ & _ & Hsub & _). apply (Hin t0); [by right|auto]. }
  destruct x as [[]|e]; [auto|]. destruct (IsNotFoundErr e); [auto|].
  injection H as <- <-. split; [done|done].
Qed.

Lemma exec_Delete_cases id w r w' :
  executionDAO.Delete id w = (r, w') →
  (r = Ok tt ∧ tasks_of (db w) id = [] ∧ db w' = set_execs (db w) (delete id (execs (db w)))) ∨
  ((∃ e, r = Err e) ∧ db w' = db w).
Proof.
  intros H. unfold executionDAO.Delete in H. mbind_inv H.
  { apply FromContext_cases in Hm as [-> _]. eauto. }
  apply FromContext_cases in Hm as [-> _]. apply bind_try_inv in H as (x & w1 & Hs & H).
  apply stmt_cases in Hs as [_ [(e & -> & Hd)|Hs]].
  { injection H as <- <-. eauto. }
  destruct (execs (db w) !! id) eqn:Ee.
  - case_bool_decide as Ht; injection Hs as <- Hd.
    + simpl in H. injection H as <- <-. eauto.
    + injection H as <- <-. eauto.
  - injection Hs as <- Hd. simpl in H. injection H as <- <-. eauto.
Qed.

Lemma Delete_cases id w r w' :
  task_keys (db w) → Delete id w = (r, w') →
  (∃ d1, drops_tasks (λ t, t_ExecutionID t = id ∧ Final (t_Status t) = true) (db w) d1 ∧
    ((r = Ok tt ∧ tasks_of d1 id = [] ∧ Forall (λ t, Final (t_Status t) = true) (tasks_of (db w) id) ∧
      db w' = set_execs d1 (delete id (execs d1))) ∨
     (∃ e, r = Err e) ∧ db w' = d1)).
Proof.
  intros Hk H. unfold Delete in H.
  assert (HL : ∀ x w1, taskDAO.List_by (λ t, t_ExecutionID t = id) w = (x, w1) →
    db w1 = db w ∧ ((∃ e, x = Err e) ∨ x = Ok (tasks_of (db w) id))).
  { intros x w1 Hl. unfold taskDAO.List_by in Hl. mbind_inv Hl.
    - apply FromContext_cases in Hm as [-> _]. eauto.
    - apply FromContext_cases in Hm as [-> _]. apply query_cases in Hl as (? & _ & ?). eauto. }
  mbind_inv H.
  { apply HL in Hm as [-> _]. eexists. split; [reflexivity|]. right. eauto. }
  apply HL in Hm as [Hd1 [[e [=]]|[= ->]]]. mbind_inv H.
  - apply delete_tasks_drops in Hm as [Hdr _].
    + eexists. split; [|right; eauto]. rewrite <- Hd1. destruct Hdr as (? & ? & ? & H2). split_and!; try done.
      intros i t Ht. destruct (H2 _ _ Ht) as [?|[Hin ?]]; [auto|]. apply tasks_of_in in Hin as [_ ?]. auto.
    + intros t [[i Hi] _]%tasks_of_in t' Ht'. rewrite Hd1, (Hk _ _ Hi), Hi in Ht'. congruence.
  - destruct a. apply delete_tasks_drops in Hm as [Hdr Hall].
    + exists (db w1). split.
      * rewrite <- Hd1. destruct Hdr as (? & ? & ? & H2). split_and!; try done.
        intros i t Ht. destruct (H2 _ _ Ht) as [?|[Hin ?]]; [auto|]. apply tasks_of_in in Hin as [_ ?]. auto.
      * apply exec_Delete_cases in H as [(-> & Ht & Hd)|[He Hd]]; [left; split_and!; auto|right; auto].
    + intros t [[i Hi] _]%tasks_of_in t' Ht'. rewrite Hd1, (Hk _ _ Hi), Hi in Ht'. congruence.
Qed.

(** Further property (safety). Deleting an execution: on success all its tasks were final and
    are gone with it; on any error the execution stays; and in every case the
    only rows lost are final tasks of that execution, whatever faults occur. *)
Theorem Delete_execution_spec id w r w' :
  task_keys (db w) → Delete id w = (r, w') →
  (∀ i t, tasks (db w) !! i = Some t →
     tasks (db w') !! i = Some t ∨ (t_ExecutionID t = id ∧ Final (t_Status t) = true)) ∧
  (r = Ok tt → Forall (λ t, Final (t_Status t) = true) (tasks_of (db w) id) ∧
     tasks_of (db w') id = [] ∧ execs (db w') = delete id (execs (db w))) ∧
  (r ≠ Ok tt → execs (db w') = execs (db w)).
Proof.
  intros Hk H. apply Delete_cases in H as (d1 & (He & Hn & H1 & H2) & H); [|done].
  destruct H as [(-> & Ht & Hf & Hd)|[[e ->] Hd]]; rewrite Hd; simpl; split_and!; try done.
  - intros _. split_and!; try done. by rewrite He.
Qed.

Lemma Delete_execution_spec_witness :
  let w := mkWorld (ex_tdb SuccessStatus) true [] in
  let x := Delete 1 w in
  fst x = Ok tt ∧ execs (db (snd x)) = delete 1 (execs (db w)).
Proof.
  intros w x. assert (Hk : task_keys (db w)).
  { intros i t Ht.
    assert (Ht' : (<[1 := ex_task SuccessStatus]> (∅ : gmap Z Task)) !! i = Some t) by exact Ht.
    rewrite lookup_insert_Some, lookup_empty in Ht'. destruct Ht' as [[<- <-]|[_ [=]]]. done. }
  assert (Hr : fst x = Ok tt) by (vm_compute; reflexivity). split; [done|].
  apply (proj1 (proj2 (Delete_execution_spec 1 w (fst x) (snd x) Hk (surjective_pairing x))) Hr).
Defined.

(** ** The sweeper *)

(** Rows since [d0]: none is new, and the missing ones satisfy [P]. *)
Record swept (P : Execution → Prop) (d0 d : TaskDB) : Prop := mk_swept {
  sw_keys : task_keys d;
  sw_sub i e : execs d !! i = Some e → execs d0 !! i = Some e;
  sw_kept i e : execs d0 !! i = Some e → execs d !! i = Some e ∨ P e;
}.

Lemma Delete_swept P d0 e w r w' :
  swept P d0 (db w) → (∀ e', execs d0 !! e_ID e = Some e' → P e') →
  Delete (e_ID e) w = (r, w') → swept P d0 (db w').
Proof.
  intros [Hk Hs Hp] He H. apply Delete_cases in H as (d1 & (He1 & _ & H1 & _) & H); [|done].
  assert (Hk1 : task_keys d1) by (intros i t Ht; eauto).
  destruct H as [(_ & _ & _ & Hd)|[_ Hd]]; rewrite Hd; split; simpl; try done; rewrite ?He1; auto.
  - intros i x. rewrite lookup_delete_Some. naive_solver.
  - intros i x Hx. destruct (decide (i = e_ID e)) as [->|Hn]; [right; by apply He|].
    rewrite lookup_delete_ne by done. auto.
Qed.

Lemma sweep_execs_swept P d0 es w r w' :
  swept P d0 (db w) →
  Forall (λ e, Final (e_Status e) = true → ∀ e', execs d0 !! e_ID e = Some e' → P e') es →
  sweep_execs es w = (r, w') → swept P d0 (db w').
Proof.
  revert w. induction es as [|e es IH]; intros w Hsw Hf H; simpl in H; [by injection H as _ <-|].
  apply Forall_cons in Hf as [He Hf].
  destruct (Final (e_Status e)) eqn:Ef; simpl in H; [|by eapply IH].
  apply bind_try_inv in H as (x & w1 & Hd & H). apply (Delete_swept P d0) in Hd; auto. by eapply IH.
Qed.

Lemma candidates_in vt vid m d e :
  e ∈ candidates vt vid m d ↔
  (∃ i, execs d !! i = Some e) ∧ e_VendorType e = vt ∧ e_VendorID e = vid ∧
  e_StartTime e <= default (e_StartTime e) m.
Proof.
  unfold candidates. rewrite merge_sort_Permutation. unfold vendor_execs.
  rewrite !list_elem_of_filter, list_elem_of_fmap. split.
  - intros (? & [? ?] & [i e'] & -> & Hin). apply elem_of_map_to_list in Hin. simpl in *. eauto.
  - intros ([i Hi] & ? & ? & ?). split_and!; try done. exists (i, e). by rewrite elem_of_map_to_list.
Qed.

Lemma page_incl {A} sz n (l : list A) x : x ∈ page sz n l → x ∈ l.
Proof.
  unfold page. intros Hx. rewrite <- (take_drop (sz * (n - 1)) l), elem_of_app. right.
  rewrite <- (take_drop sz (drop _ l)), elem_of_app. by left.
Qed.

Lemma list_page_in vt vid m sz n w es w' :
  list_page vt vid m sz n w = (Ok es, w') →
  db w' = db w ∧ es = page sz n (candidates vt vid m (db w)).
Proof.
  intros H. unfold list_page in H. mbind_inv H. apply FromContext_cases in Hm as [-> _].
  apply query_cases in H as (? & _ & [[? [=]]|[= ->]]). done.
Qed.

Lemma list_page_db vt vid m sz n w x w' : list_page vt vid m sz n w = (x, w') → db w' = db w.
Proof. intros H. symmetry. revert H. apply (λ H, H : preserves eq _). unfold list_page. frame. Qed.

Lemma sweep_pages_swept vt vid m d0 i w r w' :
  exec_keys d0 →
  swept (λ e, e_VendorType e = vt ∧ e_VendorID e = vid ∧ Final (e_Status e) = true ∧ e_StartTime e <= m) d0 (db w) →
  sweep_pages vt vid m i w = (r, w') →
  swept (λ e, e_VendorType e = vt ∧ e_VendorID e = vid ∧ Final (e_Status e) = true ∧ e_StartTime e <= m) d0 (db w').
Proof.
  intros Hk. revert w. induction i as [|i IH]; intros w Hsw H; cbn [sweep_pages] in H; [by injection H as _ <-|].
  mbind_inv H; [apply list_page_db in Hm as ->; done|].
  apply list_page_in in Hm as [Hd ->]. rewrite <- Hd in Hsw.
  assert (Hf : Forall (λ e, Final (e_Status e) = true → ∀ e', execs d0 !! e_ID e = Some e' →
    e_VendorType e' = vt ∧ e_VendorID e' = vid ∧ Final (e_Status e') = true ∧ e_StartTime e' <= m)
    (page 1000 (S i) (candidates vt vid (Some m) (db w)))).
  { apply Forall_forall. intros e Hin Hfin e' He'. apply page_incl in Hin.
    apply candidates_in in Hin as ([j Hj] & ? & ? & ?). simpl in *.
    rewrite <- Hd in Hj. apply (sw_sub _ _ _ Hsw) in Hj. rewrite (Hk _ _ Hj), Hj in He'.
    by injection He' as <-. }
  mbind_inv H; [by eapply sweep_execs_swept|]. eapply sweep_execs_swept in Hm; [|exact Hsw|exact Hf].
  by eapply IH.
Qed.

(** Further property (safety). The execution sweeper only ever removes executions of its
    vendor that are in a final status and started no later than the one at the
    configured position, counted from the newest: executions of other vendors,
    running ones and newer ones stay, whatever fails. *)
Theorem sweep_retains cnt vt vid w r w' i e :
  exec_keys (db w) → task_keys (db w) →
  sweep cnt vt vid w = (r, w') → execs (db w) !! i = Some e →
  execs (db w') !! i = Some e ∨
  (e_VendorType e = vt ∧ e_VendorID e = vid ∧ Final (e_Status e) = true ∧ cnt vt ≠ 0 ∧
   ∃ c, candidates vt vid None (db w) !! (Z.to_nat (cnt vt) - 1)%nat = Some c ∧
        e_StartTime e <= e_StartTime c).
Proof.
  intros Hek Htk H He. unfold sweep in H. destruct (cnt vt =? 0) eqn:Ec; [injection H as _ <-; auto|].
  mbind_inv H; [apply list_page_db in Hm as ->; auto|]. apply list_page_in in Hm as [Hd ->].
  destruct (page 1 _ _) as [|c l] eqn:Ep; [injection H as _ <-; rewrite Hd; auto|].
  assert (Hc : candidates vt vid None (db w) !! (Z.to_nat (cnt vt) - 1)%nat = Some c).
  { unfold page in Ep. rewrite Nat.mul_1_l in Ep.
    destruct (drop _ _) as [|c' l'] eqn:Ed; [done|]. injection Ep as -> _.
    rewrite <- (Nat.add_0_r (Z.to_nat (cnt vt) - 1)), <- lookup_drop, Ed. done. }
  assert (Hsw : swept (λ e, e_VendorType e = vt ∧ e_VendorID e = vid ∧ Final (e_Status e) = true ∧
    e_StartTime e <= e_StartTime c) (db w) (db w)) by (split; auto).
  assert (Hcount : ∀ x w2, count_candidates vt vid (Some (e_StartTime c)) w0 = (x, w2) → db w2 = db w).
  { intros x w2 Hx. rewrite <- Hd. symmetry. revert Hx. apply (λ H, H : preserves eq _).
    unfold count_candidates. frame. }
  mbind_inv H; [apply Hcount in Hm as ->; auto|]. apply Hcount in Hm. rewrite <- Hm in Hsw at 2.
  apply (sweep_pages_swept _ _ _ (db w)) in H; [|done|done].
  destruct (sw_kept _ _ _ H _ _ He) as [?|(? & ? & ? & ?)]; [auto|]. right.
  split_and!; try done; [lia|eauto].
Qed.

Definition ex_sweep_db : TaskDB :=
  mkTaskDB (<[1 := mkExec 1 "GC" 0 SuccessStatus "" "MANUAL" "{}" 10 10 (Some 11) 1]>
           (<[2 := mkExec 2 "GC" 0 SuccessStatus "" "MANUAL" "{}" 20 20 (Some 21) 1]> ∅)) ∅ 2 0 30.

Lemma sweep_retains_witness :
  let w := mkWorld ex_sweep_db true [] in
  let w' := snd (sweep (λ _, 2) "GC" 0 w) in
  is_Some (execs (db w') !! 2).
Proof.
  intros w w'.
  destruct (sweep_retains (λ _, 2) "GC" 0 w (fst (sweep (λ _, 2) "GC" 0 w)) w' 2
    (mkExec 2 "GC" 0 SuccessStatus "" "MANUAL" "{}" 20 20 (Some 21) 1)) as [H|(_ & _ & _ & _ & c & Hc & Hle)].
  - intros i e He. unfold w, ex_sweep_db in He. simpl in He. rewrite !lookup_insert_Some, lookup_empty in He.
    naive_solver.
  - intros i t Ht. unfold w in Ht. simpl in Ht. by rewrite lookup_empty in Ht.
  - apply surjective_pairing.
  - vm_compute. reflexivity.
  - by rewrite H.
  - vm_compute in Hc. injection Hc as <-. simpl in Hle. lia.
Defined.

(** With a retention of two records, the older of two is swept: one remains. *)
Example sweep_keeps_one_less :
  let w' := snd (sweep (λ _, 2) "GC" 0 (mkWorld ex_sweep_db true [])) in
  size (execs (db w')) = 1%nat.
Proof. vm_compute. reflexivity. Qed.

(** ** Batch updates *)

Lemma batch_terminates fuel jobIDs status n w :
  (length jobIDs < fuel)%nat → fst (taskDAO.UpdateStatusInBatch fuel jobIDs status n w) ≠ Ok None.
Proof.
  revert jobIDs w. induction fuel as [|fuel IH]; intros jobIDs w Hl; [lia|].
  destruct jobIDs as [|j js]; [done|]. cbn [taskDAO.UpdateStatusInBatch]. rewrite bind_eq.
  destruct (FromContext w) as [[[]|e] w1]; [|done].
  destruct (_ <=? _)%nat eqn:El.
  - rewrite bind_eq. by destruct (stmt _ w1) as [[]].
  - rewrite bind_eq. case_bool_decide as Hn; [done|]. destruct (stmt _ w1) as [[]]; [|done].
    apply IH. rewrite length_drop. simpl in *. lia.
Qed.

(** Further property (safety). The batch update writes the status but not its code: a running
    task that is stopped in a batch still accepts a later status of the same run,
    so a late hook overwrites its final status. *)
Theorem batch_stop_is_overwritten fuel n id t s w w1 w2 :
  tasks (db w) !! id = Some t → t_StatusCode t = Code RunningStatus → s ∈ [ErrorStatus; SuccessStatus] →
  taskDAO.UpdateStatusInBatch (S fuel) [t_JobID t] StoppedStatus (S n) w = (Ok (Some tt), w1) →
  taskDAO.UpdateStatus id s (t_StatusRevision t) w1 = (Ok tt, w2) →
  ∃ t1 t2, tasks (db w1) !! id = Some t1 ∧ t_Status t1 = StoppedStatus ∧ ¬ status_ok t1 ∧
    tasks (db w2) !! id = Some t2 ∧ t_Status t2 = s.
Proof.
  intros Ht Hc Hs Hb Hu. cbn [taskDAO.UpdateStatusInBatch] in Hb. mbind_inv Hb.
  apply FromContext_cases in Hm as [-> _]. simpl in Hb. mbind_inv Hb. injection Hb as ->.
  apply stmt_ok_inv in Hm. unfold taskDAO.batch in Hm. injection Hm as _ Hd.
  assert (Ht1 : tasks (db w1) !! id = Some (taskDAO.set_status_only StoppedStatus (tnow (db w)) t)).
  { rewrite <- Hd. simpl. rewrite lookup_fmap, Ht. simpl.
    by rewrite bool_decide_true by (by apply list_elem_of_singleton). }
  apply UpdateStatus_ok in Hu. eexists _, _. split; [done|]. split; [done|]. split.
  { unfold status_ok. simpl. rewrite Hc. done. }
  rewrite Hu. simpl. rewrite lookup_alter_eq, Ht1. split; [reflexivity|].
  unfold hook_row, taskDAO.count_run, taskDAO.accept_status. simpl.
  rewrite Z.ltb_irrefl. simpl. rewrite Z.eqb_refl, Hc, Z.ltb_irrefl.
  rewrite !elem_of_cons in Hs. by destruct Hs as [->|[->|[]%not_elem_of_nil]].
Qed.

Lemma batch_stop_is_overwritten_witness :
  let w := mkWorld (ex_tdb RunningStatus) true [] in
  ∃ w1 w2 t2, taskDAO.UpdateStatusInBatch 2 ["j1"%string] StoppedStatus 10 w = (Ok (Some tt), w1) ∧
    taskDAO.UpdateStatus 1 ErrorStatus 100 w1 = (Ok tt, w2) ∧
    tasks (db w2) !! 1 = Some t2 ∧ t_Status t2 = ErrorStatus.
Proof.
  intros w.
  set (x := taskDAO.UpdateStatusInBatch 2 ["j1"%string] StoppedStatus 10 w).
  assert (Hx : x = (Ok (Some tt), snd x)) by (vm_compute; reflexivity).
  set (y := taskDAO.UpdateStatus 1 ErrorStatus 100 (snd x)).
  assert (Hy : y = (Ok tt, snd y)) by (vm_compute; reflexivity).
  destruct (batch_stop_is_overwritten 1 9 1 (ex_task RunningStatus) ErrorStatus w (snd x) (snd y))
    as (t1 & t2 & _ & _ & _ & H2 & Hs);
    [vm_compute; reflexivity|vm_compute; reflexivity|by left|exact Hx|exact Hy|].
  exists (snd x), (snd y), t2. auto.
Defined.
