(* ===== verification/TaskConc.v ===== *)
(** * Concurrent status hooks: [src/pkg/task/hook.go] over
    [src/pkg/task/dao/execution.go]

    Any number of hook handlers of one execution run at the same time.  Each
    statement a handler sends to the database is one step: the two updates of the
    task's row, the read of the execution, the count of the task statuses, the
    compare-and-set of the execution's status, the update of the end time.  The
    handlers interleave arbitrarily. *)

From S2P Require Import Prelude GoErrors Orm JobStatus TaskStore.
Open Scope Z_scope.

(** Where a handler is; [n] counts the refresh attempts left. *)
Inductive pc :=
  | HUpdate (task : Z) (status : string) (rev : Z)
  | HAccept (task : Z) (status : string) (rev : Z)
  | HRefresh (n : nat)
  | HRead (n : nat) (revision : Z)
  | HMetrics (n : nat) (revision : Z) (status : string)
  | HEnd
  | HDone
  | HFailed.

Record Conf := mkConf { cdb : TaskDB; procs : gmap nat pc }.

Section conc.
Context (eid : Z).

Definition computed (d : TaskDB) : Metrics := executionDAO.metrics_of (status_counts (tasks_of d eid)).

Inductive step : Conf → Conf → Prop :=
  | s_update d ps p t s r :
      ps !! p = Some (HUpdate t s r) →
      step (mkConf d ps)
        (mkConf (snd (taskDAO.on_row t (taskDAO.count_run r) d)) (<[p := HAccept t s r]> ps))
  | s_accept d ps p t s r now :
      ps !! p = Some (HAccept t s r) →
      step (mkConf d ps)
        (mkConf (snd (taskDAO.on_row t (taskDAO.accept_status s r now) d)) (<[p := HRefresh 5]> ps))
  | s_get d ps p n e :
      ps !! p = Some (HRefresh (S n)) → execs d !! eid = Some e →
      step (mkConf d ps) (mkConf d (<[p := HRead (S n) (e_Revision e)]> ps))
  | s_metrics d ps p n r :
      ps !! p = Some (HRead n r) → TaskCount (computed d) ≠ 0 →
      step (mkConf d ps)
        (mkConf d (<[p := HMetrics n r (executionDAO.status_from (computed d))]> ps))
  | s_no_task d ps p n r :
      ps !! p = Some (HRead n r) → TaskCount (computed d) = 0 →
      step (mkConf d ps) (mkConf d (<[p := HDone]> ps))
  | s_cas d ps p n r s d' k :
      ps !! p = Some (HMetrics n r s) → executionDAO.cas_status eid r s d = (Ok k, d') → k ≠ 0 →
      step (mkConf d ps) (mkConf d' (<[p := HEnd]> ps))
  | s_retry d ps p n r s d' :
      ps !! p = Some (HMetrics (S n) r s) → executionDAO.cas_status eid r s d = (Ok 0, d') →
      step (mkConf d ps) (mkConf d' (<[p := match n with O => HFailed | _ => HRefresh n end]> ps))
  | s_end d ps p :
      ps !! p = Some HEnd →
      step (mkConf d ps) (mkConf (snd (executionDAO.set_end_time eid d)) (<[p := HDone]> ps)).

(** The execution's status is the one its tasks determine. *)
Definition consistent (d : TaskDB) : Prop :=
  ∀ e, execs d !! eid = Some e → has_status (tasks_of d eid) known_statuses = true →
    e_Status e = derived (tasks_of d eid).

(** A handler that will bring the status up to date, or gave up with an error. *)
Definition owing (d : TaskDB) (c : pc) : Prop :=
  match c with
  | HRefresh _ | HRead _ _ | HFailed => True
  | HMetrics _ r s =>
      s = derived (tasks_of d eid) ∨ ∀ e, execs d !! eid = Some e → e_Revision e ≠ r
  | _ => False
  end.

Record inv (c : Conf) : Prop := mk_inv {
  inv_old p n r : (procs c !! p = Some (HRead n r) ∨ ∃ s, procs c !! p = Some (HMetrics n r s)) →
    ∀ e, execs (cdb c) !! eid = Some e → r <= e_Revision e;
  inv_owed : consistent (cdb c) ∨ ∃ p q, procs c !! p = Some q ∧ owing (cdb c) q;
  inv_stale p n r s : has_status (tasks_of (cdb c) eid) known_statuses = true →
    procs c !! p = Some (HMetrics n r s) → ¬ owing (cdb c) (HMetrics n r s) →
    ∃ p' q, p' ≠ p ∧ procs c !! p' = Some q ∧ owing (cdb c) q;
}.

(** Moving one handler, in the same database, to a place where it still owes. *)
Lemma inv_move d ps p q q' :
  inv (mkConf d ps) → ps !! p = Some q → owing d q' →
  (∀ n r, (q' = HRead n r ∨ ∃ s, q' = HMetrics n r s) → ∀ e, execs d !! eid = Some e → r <= e_Revision e) →
  inv (mkConf d (<[p := q']> ps)).
Proof.
  intros [Ho Hw Hs] Hq Hq' Hold. split; simpl in *.
  - intros p0 n r H e He. destruct (decide (p0 = p)) as [->|Hn].
    + rewrite lookup_insert_eq in H. apply (Hold n r); [|done].
      destruct H as [[=]|[s [=]]]; eauto.
    + rewrite lookup_insert_ne in H by done. eauto.
  - right. exists p, q'. by rewrite lookup_insert_eq.
  - intros p0 n r s _ Hp Hno. destruct (decide (p0 = p)) as [->|Hn].
    + rewrite lookup_insert_eq in Hp. injection Hp as ->. done.
    + exists p, q'. by rewrite lookup_insert_eq.
Qed.

(** A step that leaves the task statuses, the execution's status and revision,
    and every owing handler. *)
Lemma inv_frame d d' ps p q q' :
  (∀ e', execs d' !! eid = Some e' → ∃ e, execs d !! eid = Some e ∧ e_Status e' = e_Status e ∧
     e_Revision e' = e_Revision e) →
  (∀ l, has_status (tasks_of d' eid) l = has_status (tasks_of d eid) l) →
  inv (mkConf d ps) → ps !! p = Some q → ¬ owing d q →
  (∀ n r s, q' ≠ HRead n r ∧ q' ≠ HMetrics n r s) → inv (mkConf d' (<[p := q']> ps)).
Proof.
  intros He Hst [Ho Hw Hs] Hq Hno Hq'.
  assert (Hder : derived (tasks_of d' eid) = derived (tasks_of d eid)) by (unfold derived; by rewrite !Hst).
  assert (Hcon : consistent d → consistent d').
  { intros Hc e' He' Hk. destruct (He e' He') as (e & Hee & -> & _). rewrite Hst in Hk.
    rewrite Hder. by apply Hc. }
  assert (How : ∀ c, owing d c → owing d' c).
  { intros [| | | |n r s| | |]; simpl; try done. rewrite Hder. intros [?|Hr]; [auto|]. right.
    intros e' He'. destruct (He e' He') as (e & Hee & _ & ->). auto. }
  assert (Hother : ∀ p0 c, ps !! p0 = Some c → owing d c → (<[p := q']> ps) !! p0 = Some c ∧ owing d' c).
  { intros p0 c Hc Hoc. split; [|auto]. rewrite lookup_insert_ne; [done|]. intros <-.
    rewrite Hq in Hc. injection Hc as <-. done. }
  split; simpl in *.
  - intros p0 n r H e' He'. destruct (decide (p0 = p)) as [->|Hn].
    + rewrite lookup_insert_eq in H. exfalso.
      destruct H as [[= H]|[s [= H]]]; [by destruct (Hq' n r EmptyString)|by destruct (Hq' n r s)].
    + rewrite lookup_insert_ne in H by done. destruct (He e' He') as (e & Hee & _ & ->). eauto.
  - destruct Hw as [Hc|(p0 & c & Hc & Hoc)]; [auto|]. right. exists p0, c. auto.
  - intros p0 n r s Hk Hp Hno'. rewrite Hst in Hk. destruct (decide (p0 = p)) as [->|Hn].
    { rewrite lookup_insert_eq in Hp. injection Hp as Hp. by destruct (Hq' n r s). }
    rewrite lookup_insert_ne in Hp by done.
    destruct (Hs _ _ _ _ Hk Hp) as (p' & c & Hne & Hc & Hoc); [intros Hx; apply Hno'; by apply (How (HMetrics n r s))|].
    exists p', c. split; [done|]. auto.
Qed.

Lemma has_status_iff d l :
  has_status (tasks_of d eid) l = true ↔ ∃ i t, tasks d !! i = Some t ∧ t_ExecutionID t = eid ∧ t_Status t ∈ l.
Proof.
  unfold has_status. rewrite existsb_exists. split.
  - intros (t & Hin & Hs). apply bool_decide_eq_true in Hs.
    apply list_elem_of_In, tasks_of_in in Hin as [[i Hi] He]. eauto.
  - intros (i & t & Ht & He & Hs). exists t. split; [|by apply bool_decide_eq_true].
    apply list_elem_of_In, tasks_of_in. eauto.
Qed.

Lemma has_status_ext d d' :
  (∀ l, has_status (tasks_of d' eid) l = true ↔ has_status (tasks_of d eid) l = true) →
  ∀ l, has_status (tasks_of d' eid) l = has_status (tasks_of d eid) l.
Proof. intros H l. specialize (H l). destruct (has_status _ l), (has_status _ l); naive_solver. Qed.

Lemma count_run_status t r d l :
  has_status (tasks_of (snd (taskDAO.on_row t (taskDAO.count_run r) d)) eid) l = has_status (tasks_of d eid) l.
Proof.
  revert l. apply has_status_ext. intros l. rewrite !has_status_iff. simpl.
  assert (Hc : ∀ x, t_ExecutionID (taskDAO.count_run r x) = t_ExecutionID x ∧ t_Status (taskDAO.count_run r x) = t_Status x)
    by (intros x; unfold taskDAO.count_run; by destruct (_ <? _)).
  split.
  - intros (i & x & Hx & He & Hs). destruct (decide (t = i)) as [<-|Hn].
    + rewrite lookup_alter_eq in Hx. destruct (tasks d !! t) as [y|] eqn:Ey; [|done].
      injection Hx as <-. destruct (Hc y) as [E1 E2]. rewrite E1 in He. rewrite E2 in Hs. eauto.
    + rewrite lookup_alter_ne in Hx by done. eauto.
  - intros (i & x & Hx & He & Hs). destruct (decide (t = i)) as [<-|Hn].
    + exists t, (taskDAO.count_run r x). rewrite lookup_alter_eq, Hx. destruct (Hc x) as [-> ->]. done.
    + exists i, x. by rewrite lookup_alter_ne.
Qed.

Lemma cas_cases r s d k d' :
  executionDAO.cas_status eid r s d = (Ok k, d') →
  (k = 0 ∧ d' = d) ∨
  (∃ e, k ≠ 0 ∧ execs d !! eid = Some e ∧ e_Revision e = r ∧ tasks d' = tasks d ∧
     ∃ e', execs d' !! eid = Some e' ∧ e_Status e' = s ∧ e_Revision e' = r + 1).
Proof.
  unfold executionDAO.cas_status. destruct (execs d !! eid) as [e|] eqn:Ee; [|intros [= <- <-]; auto].
  destruct (e_Revision e =? r) eqn:Er; intros [= <- <-]; [|auto]. right. exists e.
  split_and!; [done|done|lia|done|]. eexists. simpl. rewrite lookup_insert_eq. split_and!; try done.
  simpl. lia.
Qed.

Lemma tasks_of_ext d d' : tasks d' = tasks d → tasks_of d' eid = tasks_of d eid.
Proof. unfold tasks_of. by intros ->. Qed.

(** The committed status makes every other reader's revision stale. *)
Lemma inv_cas d ps p n r s k d' :
  inv (mkConf d ps) → ps !! p = Some (HMetrics n r s) →
  executionDAO.cas_status eid r s d = (Ok k, d') → k ≠ 0 → inv (mkConf d' (<[p := HEnd]> ps)).
Proof.
  intros [Ho Hw Hs] Hp Hcas Hk.
  apply cas_cases in Hcas as [[? _]|(e & _ & He & Hr & Ht & e' & He' & Hst & Hr')]; [done|].
  apply tasks_of_ext in Ht.
  assert (How : ∀ p0 c, p0 ≠ p → ps !! p0 = Some c →
    owing d c ∨ (∃ n0 r0 s0, c = HMetrics n0 r0 s0) → owing d' c).
  { intros p0 c Hn Hc [Hoc|(n0 & r0 & s0 & ->)].
    - destruct c as [| | | |n0 r0 s0| | |]; simpl in *; try done. right. intros e1 He1.
      rewrite He' in He1. injection He1 as <-.
      specialize (Ho p0 n0 r0 ltac:(right; eauto) e He). lia.
    - right. intros e1 He1. rewrite He' in He1. injection He1 as <-.
      specialize (Ho p0 n0 r0 ltac:(right; eauto) e He). lia. }
  split; simpl in *.
  - intros p0 n0 r0 H e1 He1. rewrite He' in He1. injection He1 as <-.
    destruct (decide (p0 = p)) as [->|Hn].
    + rewrite lookup_insert_eq in H. by destruct H as [[=]|[? [=]]].
    + rewrite lookup_insert_ne in H by done. specialize (Ho p0 n0 r0 H e He). lia.
  - destruct (has_status (tasks_of d eid) known_statuses) eqn:Ek.
    2:{ left. intros e1 _. by rewrite Ht, Ek. }
    destruct (decide (s = derived (tasks_of d eid))) as [Hd|Hd].
    { left. intros e1 He1 _. rewrite He' in He1. injection He1 as <-. by rewrite Ht, Hst. }
    right. destruct (Hs p n r s eq_refl Hp) as (p' & c & Hne & Hc & Hoc).
    { simpl. intros [?|Hx]; [done|]. by apply (Hx e He). }
    exists p', c. rewrite lookup_insert_ne by done. eauto.
  - intros p0 n0 r0 s0 _ H Hno. destruct (decide (p0 = p)) as [->|Hn].
    + by rewrite lookup_insert_eq in H.
    + rewrite lookup_insert_ne in H by done. exfalso. apply Hno. apply (How p0 (HMetrics n0 r0 s0)); eauto 10.
Qed.

Lemma hook_inv_step c c' : step c c' → inv c → inv c'.
Proof.
  intros [d ps p t s r Hp|d ps p t s r now Hp|d ps p n e Hp He|d ps p n r Hp Hc|d ps p n r Hp Hc
         |d ps p n r s d' k Hp Hcas Hk|d ps p n r s d' Hp Hcas|d ps p Hp] Hinv.
  - eapply inv_frame; [|apply count_run_status|done|done|by intros []|done]. simpl. eauto.
  - destruct Hinv as [Ho Hw Hs]. split; simpl in *.
    + intros p0 n r0 H e He. destruct (decide (p0 = p)) as [->|Hn].
      * rewrite lookup_insert_eq in H. by destruct H as [[=]|[? [=]]].
      * rewrite lookup_insert_ne in H by done. eauto.
    + right. exists p, (HRefresh 5). by rewrite lookup_insert_eq.
    + intros p0 n r0 s0 _ H _. destruct (decide (p0 = p)) as [->|Hn].
      * by rewrite lookup_insert_eq in H.
      * exists p, (HRefresh 5). by rewrite lookup_insert_eq.
  - eapply inv_move; [done|done|done|]. intros n0 r0 [[= <- <-]|[? [=]]] e' He'.
    rewrite He in He'. injection He' as <-. lia.
  - eapply inv_move; [done|done| |].
    + simpl. left. apply status_from_derived.
    + intros n0 r0 [[=]|[s [= <- <- <-]]]. eapply (inv_old _ Hinv p). eauto.
  - assert (Hf : has_status (tasks_of d eid) known_statuses = false) by (by apply no_known_status).
    destruct Hinv as [Ho Hw Hs]. split; simpl in *.
    + intros p0 n0 r0 H e He. destruct (decide (p0 = p)) as [->|Hn].
      * rewrite lookup_insert_eq in H. by destruct H as [[=]|[? [=]]].
      * rewrite lookup_insert_ne in H by done. eauto.
    + left. intros e He. by rewrite Hf.
    + by rewrite Hf.
  - by eapply inv_cas.
  - apply cas_cases in Hcas as [[_ ->]|(? & ? & _)]; [|done].
    eapply inv_move; [done|done|by destruct n|].
    intros n0 r0 H. by destruct n, H as [[=]|[? [=]]].
  - eapply (inv_frame d); [|done|done|done|by intros []|done]. simpl.
    intros e'. rewrite lookup_alter_eq. destruct (execs d !! eid) as [e|]; [|done].
    intros [= <-]. eauto.
Qed.

End conc.

(** C24 (invariant). However the hook handlers of an execution interleave, when
    all of them have finished and none gave up after its five attempts, the
    status of the execution is the one its tasks determine: no update is lost to
    a handler that counted the tasks earlier. *)
Theorem refreshes_converge eid d ps c :
  consistent eid d → (∀ p q, ps !! p = Some q → ∃ t s r, q = HUpdate t s r) →
  rtc (step eid) (mkConf d ps) c →
  (∀ p q, procs c !! p = Some q → q = HDone) → consistent eid (cdb c).
Proof.
  intros Hc Hps Hsteps Hdone.
  assert (Hinv : inv eid c).
  { assert (H0 : inv eid (mkConf d ps)).
    { split; simpl.
      - intros p n r [H|[s H]]; destruct (Hps _ _ H) as (? & ? & ? & [=]).
      - by left.
      - intros p n r s _ H. destruct (Hps _ _ H) as (? & ? & ? & [=]). }
    clear Hc Hps Hdone. induction Hsteps as [|c1 c2 c3 H1 _ IH]; [done|].
    apply IH. by eapply hook_inv_step. }
  destruct (inv_owed _ _ Hinv) as [?|(p & q & Hp & Ho)]; [done|].
  by rewrite (Hdone _ _ Hp) in Ho.
Qed.

(** One handler, run to its end. *)
Lemma refreshes_converge_witness :
  let d := ex_tdb RunningStatus in
  ∃ c, rtc (step 1) (mkConf d {[ 0%nat := HUpdate 1 SuccessStatus 100 ]}) c ∧ consistent 1 (cdb c).
Proof.
  intros d.
  assert (H : ∃ c, rtc (step 1) (mkConf d {[ 0%nat := HUpdate 1 SuccessStatus 100 ]}) c ∧
    (∀ p q, procs c !! p = Some q → q = HDone)).
  { eexists. split.
    - eapply rtc_l; [apply (s_update 1 _ _ 0%nat); by rewrite lookup_singleton_eq|].
      eapply rtc_l; [apply (s_accept 1 _ _ 0%nat 1 SuccessStatus 100 200); by rewrite lookup_insert_eq|].
      eapply rtc_l; [eapply (s_get 1 _ _ 0%nat 4); [by rewrite lookup_insert_eq|vm_compute; reflexivity]|].
      eapply rtc_l; [eapply (s_metrics 1 _ _ 0%nat); [by rewrite lookup_insert_eq|vm_compute; discriminate]|].
      eapply rtc_l; [eapply (s_cas 1 _ _ 0%nat); [by rewrite lookup_insert_eq|vm_compute; reflexivity|done]|].
      eapply rtc_l; [eapply (s_end 1 _ _ 0%nat); by rewrite lookup_insert_eq|].
      apply rtc_refl.
    - intros p q. simpl. rewrite !insert_insert_eq, insert_singleton_eq.
      intros [_ <-]%lookup_singleton_Some. done. }
  destruct H as (c & Hsteps & Hdone). exists c. split; [done|].
  apply (refreshes_converge 1 d {[ 0%nat := HUpdate 1 SuccessStatus 100 ]} c); [| |done|done].
  - intros e He _. vm_compute in He. injection He as <-. vm_compute. reflexivity.
  - intros p q [_ <-]%lookup_singleton_Some. eauto.
Defined.
