(* ===== verification/Rbac.v ===== *)
(** * Permissions: [src/pkg/permission], [src/common/rbac]

    A permission question is a user name, a resource path and an action.  The
    evaluator of a user renders the policies as text lines for the vendored
    casbin enforcer, which loads the lines, links users to roles and merges the
    effects of the matching rules; [src/vendor/github.com/casbin/casbin] is
    modelled as far as that evaluator uses it.  Policy keys become regular
    expressions; the model covers the keys whose only operator is the wildcard
    after a slash, and says so ([Unmodelled]) of the others.  A run-time panic of
    the enforcer is an outcome of its own. *)

From S2P Require Import Prelude GoStrings.
From Stdlib Require Import Ascii.
Open Scope Z_scope.
Local Open Scope harbor_scope.

(** ** [src/pkg/permission/types] *)

Definition EffectAllow : string := "allow".
Definition EffectDeny : string := "deny".

Record Policy := mkPolicy { Resource : string; Action : string; Effect : string }.
#[export] Instance Policy_eq_dec : EqDecision Policy.
Proof. solve_decision. Defined.

Definition GetEffect (p : Policy) : string :=
  if bool_decide (Effect p = EmptyString) then EffectAllow else Effect p.

(** A policy of the tables, with the default effect. *)
Definition policy (r a : string) : Policy := mkPolicy r a EmptyString.

Definition Subresource (res : string) (resources : list string) : string := path_Join (res :: resources).

Record RBACRole := mkRole { GetRoleName : string; role_policies : list Policy }.
Record RBACUser := mkRBACUser { GetUserName : string; GetPolicies : list Policy; GetRoles : list RBACRole }.

(** ** Namespaces: [src/common/rbac/project/namespace.go],
    [src/common/rbac/system/namespace.go], [src/pkg/permission/types/namespace.go] *)

Inductive Namespace := ProjectNS (projectID : Z) | SystemNS.
#[export] Instance Namespace_eq_dec : EqDecision Namespace.
Proof. solve_decision. Defined.

Definition Kind (ns : Namespace) : string :=
  match ns with ProjectNS _ => "project" | SystemNS => "system" end.

Definition project_path (projectID : Z) : string := "/project/" +:+ pretty projectID.

Definition ns_Resource (ns : Namespace) (subresources : list string) : string :=
  match ns with
  | ProjectNS projectID => Subresource (project_path projectID) subresources
  | SystemNS => Subresource "/system/" subresources
  end.

(** The longest prefix without a slash. *)
Fixpoint until_slash (s : string) : string :=
  match s with
  | EmptyString => EmptyString
  | String c s => if bool_decide (c = "/"%char) then EmptyString else String c (until_slash s)
  end.

(** The regular expression takes what follows [/project/] up to the next slash. *)
Definition project_NamespaceParse (resource : string) : option Namespace :=
  if HasPrefix resource "/project/"
  then projectID ← ParseInt (until_slash (TrimPrefix resource "/project/")); Some (ProjectNS projectID)
  else None.

Definition system_NamespaceParse (resource : string) : option Namespace :=
  if HasPrefix resource "/system" then Some SystemNS else None.

(** The parsers are tried in no particular order; no resource is accepted by
    both (lemma [namespaces_disjoint]). *)
Definition NamespaceFromResource (resource : string) : option Namespace :=
  match project_NamespaceParse resource with
  | Some ns => Some ns
  | None => system_NamespaceParse resource
  end.

Definition ResourceAllowedInNamespace (resource : string) (ns : Namespace) : bool :=
  match NamespaceFromResource resource with
  | Some n => bool_decide (n = ns)
  | None => false
  end.

(** ** Policy lines: [src/pkg/permission/evaluator/rbac/casbin_adapter.go] *)

Definition policy_line (who : string) (p : Policy) : string :=
  "p, " +:+ who +:+ ", " +:+ Resource p +:+ ", " +:+ Action p +:+ ", " +:+ GetEffect p.

Definition policyLinesOfRole (r : RBACRole) : list string :=
  if bool_decide (GetRoleName r = EmptyString) then []
  else map (policy_line (GetRoleName r)) (role_policies r).

Definition policyLinesOfRBACUser (u : RBACUser) : list string :=
  map (policy_line (GetUserName u)) (GetPolicies u).

Definition grouping_line (username role : string) : string := "g, " +:+ username +:+ ", " +:+ role.

Definition getPolicyLines (u : RBACUser) : list string :=
  if bool_decide (GetUserName u = EmptyString) then []
  else policyLinesOfRBACUser u
       ++ flat_map (λ r, policyLinesOfRole r ++ [grouping_line (GetUserName u) (GetRoleName r)]) (GetRoles u).

(** ** Casbin: loading *)

(** The rules of section p and of section g. *)
Record Model := mkModel { p_rules : list (list string); g_rules : list (list string) }.

Inductive outcome (A : Type) := Done (a : A) | Panics | Unmodelled.
Arguments Done {A} a.
Arguments Panics {A}.
Arguments Unmodelled {A}.

(** [persist.LoadPolicyLine]; only the sections p and g exist. *)
Definition LoadPolicyLine (line : string) (m : Model) : outcome Model :=
  if bool_decide (line = EmptyString) || HasPrefix line "#" then Done m
  else
    match map TrimSpace (Split line ","%char) with
    | [] => Panics
    | key :: rest =>
        if (key == "p") then Done (mkModel (p_rules m ++ [rest]) (g_rules m))
        else if (key == "g") then Done (mkModel (p_rules m) (g_rules m ++ [rest]))
        else Panics
    end.

Fixpoint LoadPolicy (lines : list string) (m : Model) : outcome Model :=
  match lines with
  | [] => Done m
  | line :: lines =>
      match LoadPolicyLine line m with
      | Done m => LoadPolicy lines m
      | Panics => Panics
      | Unmodelled => Unmodelled
      end
  end.

(** [Assertion.buildRoleLinks]: the first two fields of each rule. *)
Fixpoint buildRoleLinks (rules : list (list string)) : outcome (list (string * string)) :=
  match rules with
  | [] => Done []
  | (name1 :: name2 :: _) :: rules =>
      match buildRoleLinks rules with
      | Done links => Done ((name1, name2) :: links)
      | r => r
      end
  | _ :: _ => Panics
  end.

(** ** Casbin: the role manager *)

Fixpoint role_hasRole (links : list (string * string)) (r name : string) (hierarchyLevel : nat) : bool :=
  bool_decide (r = name) ||
  match hierarchyLevel with
  | O => false
  | S level => existsb (λ l, bool_decide (l.1 = r) && role_hasRole links l.2 name level) links
  end.

Definition known_role (links : list (string * string)) (name : string) : bool :=
  existsb (λ l, bool_decide (l.1 = name) || bool_decide (l.2 = name)) links.

Definition maxHierarchyLevel : nat := 10.

Definition HasLink (links : list (string * string)) (name1 name2 : string) : bool :=
  if bool_decide (name1 = name2) then true
  else if negb (known_role links name1) || negb (known_role links name2) then false
  else role_hasRole links name1 name2 maxHierarchyLevel.

(** ** Key matching: [src/pkg/permission/evaluator/rbac/casbin_match.go] *)

Inductive elem := Lit (c : ascii) | AnyStar.

Definition metachar (c : ascii) : bool :=
  bool_decide (c ∈ ["."; "+"; "*"; "?"; "("; ")"; "["; "]"; "{"; "}"; "|"; "^"; "$"; "\"]%char).

(** The expression of a key, [None] outside the fragment: [/*] is a wildcard, and
    a key with [/:] or any other operator is not covered. *)
Fixpoint keyMatch2Build (key2 : string) : option (list elem) :=
  match key2 with
  | EmptyString => Some []
  | String "/" (String "*" s) => (λ p, Lit "/" :: AnyStar :: p) <$> keyMatch2Build s
  | String "/" (String ":" _) => None
  | String c s => if metachar c then None else (λ p, Lit c :: p) <$> keyMatch2Build s
  end.

(** [.*] matches anything but a line feed. *)
Fixpoint pmatch (p : list elem) (s : string) : bool :=
  match p with
  | [] => bool_decide (s = EmptyString)
  | Lit c :: p => match s with String d s => bool_decide (c = d) && pmatch p s | EmptyString => false end
  | AnyStar :: p =>
      (fix any (s : string) : bool :=
         pmatch p s ||
         match s with
         | EmptyString => false
         | String d s => negb (bool_decide (d = "010"%char)) && any s
         end) s
  end.

Definition keyMatch2 (key1 key2 : string) : outcome bool :=
  match keyMatch2Build key2 with Some p => Done (pmatch p key1) | None => Unmodelled end.

(** ** Casbin: the decision *)

Inductive effect := Allow | Deny | Indeterminate.

Definition policy_effect (eft : string) : effect :=
  if bool_decide (eft = EffectAllow) then Allow
  else if bool_decide (eft = EffectDeny) then Deny
  else Indeterminate.

(** The matcher [g(r.sub, p.sub) && keyMatch2(r.obj, p.obj) && (r.act == p.act
    || p.act == '*')], left to right. *)
Definition matcher (links : list (string * string)) (sub obj act p_sub p_obj p_act : string) : outcome bool :=
  if HasLink links sub p_sub
  then
    match keyMatch2 obj p_obj with
    | Done true => Done (bool_decide (act = p_act) || (p_act == "*"))
    | r => r
    end
  else Done false.

Fixpoint rule_effects (links : list (string * string)) (sub obj act : string) (rules : list (list string))
    : outcome (list effect) :=
  match rules with
  | [] => Done []
  | [p_sub; p_obj; p_act; p_eft] :: rules =>
      match matcher links sub obj act p_sub p_obj p_act with
      | Done b =>
          match rule_effects links sub obj act rules with
          | Done l => Done ((if b then policy_effect p_eft else Indeterminate) :: l)
          | r => r
          end
      | Panics => Panics
      | Unmodelled => Unmodelled
      end
  | _ :: _ => Panics
  end.

(** [some(where (p_eft == allow)) && !some(where (p_eft == deny))] *)
Fixpoint MergeEffects (result : bool) (effects : list effect) : bool :=
  match effects with
  | [] => result
  | Allow :: l => MergeEffects true l
  | Deny :: _ => false
  | Indeterminate :: l => MergeEffects result l
  end.

Definition Enforce (links : list (string * string)) (rules : list (list string)) (sub obj act : string)
    : outcome bool :=
  match rules with
  | [] =>
      match matcher links sub obj act EmptyString EmptyString EmptyString with
      | Done b => Done (MergeEffects false [if b then Allow else Indeterminate])
      | r => r
      end
  | _ =>
      match rule_effects links sub obj act rules with
      | Done l => Done (MergeEffects false l)
      | Panics => Panics
      | Unmodelled => Unmodelled
      end
  end.

(** [rbac.Evaluator.HasPermission] *)
Definition HasPermission (u : RBACUser) (resource action : string) : outcome bool :=
  match LoadPolicy (getPolicyLines u) (mkModel [] []) with
  | Done m =>
      match buildRoleLinks (g_rules m) with
      | Done links => Enforce links (p_rules m) (GetUserName u) resource action
      | Panics => Panics
      | Unmodelled => Unmodelled
      end
  | Panics => Panics
  | Unmodelled => Unmodelled
  end.

(** [Evaluators.HasPermission]: the first that accepts decides. *)
Fixpoint any_HasPermission (l : list RBACUser) (resource action : string) : outcome bool :=
  match l with
  | [] => Done false
  | u :: l =>
      match HasPermission u resource action with
      | Done false => any_HasPermission l resource action
      | r => r
      end
  end.

(** ** [src/common/rbac/const.go] *)

Definition ActionAll : string := "*".
Definition ActionPull : string := "pull".
Definition ActionPush : string := "push".
Definition ActionCreate : string := "create".
Definition ActionRead : string := "read".
Definition ActionUpdate : string := "update".
Definition ActionDelete : string := "delete".
Definition ActionList : string := "list".
Definition ActionOperate : string := "operate".
Definition ActionScannerPull : string := "scanner-pull".
Definition ActionStop : string := "stop".
Definition ResourceAll : string := "*".
Definition ResourceConfiguration : string := "configuration".
Definition ResourceLabel : string := "label".
Definition ResourceLog : string := "log".
Definition ResourceLdapUser : string := "ldap-user".
Definition ResourceMember : string := "member".
Definition ResourceMetadata : string := "metadata".
Definition ResourceQuota : string := "quota".
Definition ResourceRepository : string := "repository".
Definition ResourceTagRetention : string := "tag-retention".
Definition ResourceImmutableTag : string := "immutable-tag".
Definition ResourceRobot : string := "robot".
Definition ResourceNotificationPolicy : string := "notification-policy".
Definition ResourceScan : string := "scan".
Definition ResourceScanner : string := "scanner".
Definition ResourceArtifact : string := "artifact".
Definition ResourceTag : string := "tag".
Definition ResourceAccessory : string := "accessory".
Definition ResourceArtifactAddition : string := "artifact-addition".
Definition ResourceArtifactLabel : string := "artifact-label".
Definition ResourcePreatPolicy : string := "preheat-policy".
Definition ResourcePreatInstance : string := "preheat-instance".
Definition ResourceSelf : string := EmptyString.
Definition ResourceAuditLog : string := "audit-log".
Definition ResourceCatalog : string := "catalog".
Definition ResourceProject : string := "project".
Definition ResourceUser : string := "user".
Definition ResourceUserGroup : string := "user-group".
Definition ResourceRegistry : string := "registry".
Definition ResourceReplication : string := "replication".
Definition ResourceDistribution : string := "distribution".
Definition ResourceGarbageCollection : string := "garbage-collection".
Definition ResourceReplicationAdapter : string := "replication-adapter".
Definition ResourceReplicationPolicy : string := "replication-policy".
Definition ResourceScanAll : string := "scan-all".
Definition ResourceSystemVolumes : string := "system-volumes".
Definition ResourcePurgeAuditLog : string := "purge-audit".
Definition ResourceExportCVE : string := "export-cve".
Definition ResourceJobServiceMonitor : string := "jobservice-monitor".

(** ** [src/common/rbac/project/rbac_role.go], [src/common/rbac/project/rbac_util.go] *)

Definition projectAdmin_policies : list Policy :=
  [policy ResourceSelf ActionRead;
   policy ResourceSelf ActionUpdate;
   policy ResourceSelf ActionDelete;
   policy ResourceMember ActionCreate;
   policy ResourceMember ActionRead;
   policy ResourceMember ActionUpdate;
   policy ResourceMember ActionDelete;
   policy ResourceMember ActionList;
   policy ResourceMetadata ActionCreate;
   policy ResourceMetadata ActionRead;
   policy ResourceMetadata ActionUpdate;
   policy ResourceMetadata ActionDelete;
   policy ResourceLog ActionList;
   policy ResourceLabel ActionCreate;
   policy ResourceLabel ActionRead;
   policy ResourceLabel ActionUpdate;
   policy ResourceLabel ActionDelete;
   policy ResourceLabel ActionList;
   policy ResourceQuota ActionRead;
   policy ResourceRepository ActionCreate;
   policy ResourceRepository ActionRead;
   policy ResourceRepository ActionUpdate;
   policy ResourceRepository ActionDelete;
   policy ResourceRepository ActionList;
   policy ResourceRepository ActionPull;
   policy ResourceRepository ActionPush;
   policy ResourceTagRetention ActionCreate;
   policy ResourceTagRetention ActionRead;
   policy ResourceTagRetention ActionUpdate;
   policy ResourceTagRetention ActionDelete;
   policy ResourceTagRetention ActionList;
   policy ResourceTagRetention ActionOperate;
   policy ResourceImmutableTag ActionCreate;
   policy ResourceImmutableTag ActionUpdate;
   policy ResourceImmutableTag ActionDelete;
   policy ResourceImmutableTag ActionList;
   policy ResourceConfiguration ActionRead;
   policy ResourceConfiguration ActionUpdate;
   policy ResourceRobot ActionCreate;
   policy ResourceRobot ActionRead;
   policy ResourceRobot ActionUpdate;
   policy ResourceRobot ActionDelete;
   policy ResourceRobot ActionList;
   policy ResourceNotificationPolicy ActionCreate;
   policy ResourceNotificationPolicy ActionUpdate;
   policy ResourceNotificationPolicy ActionDelete;
   policy ResourceNotificationPolicy ActionList;
   policy ResourceNotificationPolicy ActionRead;
   policy ResourceScan ActionCreate;
   policy ResourceScan ActionRead;
   policy ResourceScan ActionStop;
   policy ResourceScanner ActionRead;
   policy ResourceScanner ActionCreate;
   policy ResourceArtifact ActionCreate;
   policy ResourceArtifact ActionRead;
   policy ResourceArtifact ActionDelete;
   policy ResourceArtifact ActionList;
   policy ResourceArtifactAddition ActionRead;
   policy ResourceTag ActionList;
   policy ResourceTag ActionCreate;
   policy ResourceTag ActionDelete;
   policy ResourceAccessory ActionList;
   policy ResourceArtifactLabel ActionCreate;
   policy ResourceArtifactLabel ActionDelete;
   policy ResourcePreatPolicy ActionCreate;
   policy ResourcePreatPolicy ActionRead;
   policy ResourcePreatPolicy ActionUpdate;
   policy ResourcePreatPolicy ActionDelete;
   policy ResourcePreatPolicy ActionList;
   policy ResourceExportCVE ActionCreate;
   policy ResourceExportCVE ActionRead;
   policy ResourceExportCVE ActionList].

Definition maintainer_policies : list Policy :=
  [policy ResourceSelf ActionRead;
   policy ResourceMember ActionRead;
   policy ResourceMember ActionList;
   policy ResourceMetadata ActionCreate;
   policy ResourceMetadata ActionRead;
   policy ResourceMetadata ActionUpdate;
   policy ResourceMetadata ActionDelete;
   policy ResourceLog ActionList;
   policy ResourceQuota ActionRead;
   policy ResourceLabel ActionCreate;
   policy ResourceLabel ActionRead;
   policy ResourceLabel ActionUpdate;
   policy ResourceLabel ActionDelete;
   policy ResourceLabel ActionList;
   policy ResourceRepository ActionCreate;
   policy ResourceRepository ActionRead;
   policy ResourceRepository ActionUpdate;
   policy ResourceRepository ActionDelete;
   policy ResourceRepository ActionList;
   policy ResourceRepository ActionPush;
   policy ResourceRepository ActionPull;
   policy ResourceTagRetention ActionCreate;
   policy ResourceTagRetention ActionRead;
   policy ResourceTagRetention ActionUpdate;
   policy ResourceTagRetention ActionDelete;
   policy ResourceTagRetention ActionList;
   policy ResourceTagRetention ActionOperate;
   policy ResourceAccessory ActionList;
   policy ResourceImmutableTag ActionCreate;
   policy ResourceImmutableTag ActionUpdate;
   policy ResourceImmutableTag ActionDelete;
   policy ResourceImmutableTag ActionList;
   policy ResourceConfiguration ActionRead;
   policy ResourceRobot ActionRead;
   policy ResourceRobot ActionList;
   policy ResourceNotificationPolicy ActionList;
   policy ResourceScan ActionCreate;
   policy ResourceScan ActionRead;
   policy ResourceScan ActionStop;
   policy ResourceScanner ActionRead;
   policy ResourceArtifact ActionCreate;
   policy ResourceArtifact ActionRead;
   policy ResourceArtifact ActionDelete;
   policy ResourceArtifact ActionList;
   policy ResourceArtifactAddition ActionRead;
   policy ResourceTag ActionList;
   policy ResourceTag ActionCreate;
   policy ResourceTag ActionDelete;
   policy ResourceArtifactLabel ActionCreate;
   policy ResourceArtifactLabel ActionDelete;
   policy ResourceExportCVE ActionCreate;
   policy ResourceExportCVE ActionRead;
   policy ResourceExportCVE ActionList].

Definition developer_policies : list Policy :=
  [policy ResourceSelf ActionRead;
   policy ResourceMember ActionRead;
   policy ResourceMember ActionList;
   policy ResourceLog ActionList;
   policy ResourceLabel ActionRead;
   policy ResourceLabel ActionList;
   policy ResourceQuota ActionRead;
   policy ResourceRepository ActionCreate;
   policy ResourceRepository ActionRead;
   policy ResourceRepository ActionUpdate;
   policy ResourceRepository ActionList;
   policy ResourceRepository ActionPush;
   policy ResourceRepository ActionPull;
   policy ResourceTagRetention ActionCreate;
   policy ResourceTagRetention ActionRead;
   policy ResourceTagRetention ActionUpdate;
   policy ResourceTagRetention ActionDelete;
   policy ResourceTagRetention ActionList;
   policy ResourceTagRetention ActionOperate;
   policy ResourceConfiguration ActionRead;
   policy ResourceRobot ActionRead;
   policy ResourceRobot ActionList;
   policy ResourceScan ActionRead;
   policy ResourceScanner ActionRead;
   policy ResourceArtifact ActionCreate;
   policy ResourceArtifact ActionRead;
   policy ResourceArtifact ActionList;
   policy ResourceArtifactAddition ActionRead;
   policy ResourceTag ActionList;
   policy ResourceTag ActionCreate;
   policy ResourceAccessory ActionList;
   policy ResourceArtifactLabel ActionCreate;
   policy ResourceArtifactLabel ActionDelete;
   policy ResourceExportCVE ActionCreate;
   policy ResourceExportCVE ActionRead;
   policy ResourceExportCVE ActionList].

Definition guest_policies : list Policy :=
  [policy ResourceSelf ActionRead;
   policy ResourceMember ActionRead;
   policy ResourceMember ActionList;
   policy ResourceLog ActionList;
   policy ResourceLabel ActionRead;
   policy ResourceLabel ActionList;
   policy ResourceQuota ActionRead;
   policy ResourceRepository ActionRead;
   policy ResourceRepository ActionList;
   policy ResourceRepository ActionPull;
   policy ResourceConfiguration ActionRead;
   policy ResourceRobot ActionRead;
   policy ResourceRobot ActionList;
   policy ResourceScan ActionRead;
   policy ResourceScanner ActionRead;
   policy ResourceTag ActionList;
   policy ResourceAccessory ActionList;
   policy ResourceArtifact ActionRead;
   policy ResourceArtifact ActionList;
   policy ResourceArtifactAddition ActionRead].

Definition limitedGuest_policies : list Policy :=
  [policy ResourceSelf ActionRead;
   policy ResourceQuota ActionRead;
   policy ResourceRepository ActionList;
   policy ResourceRepository ActionPull;
   policy ResourceConfiguration ActionRead;
   policy ResourceScan ActionRead;
   policy ResourceScanner ActionRead;
   policy ResourceTag ActionList;
   policy ResourceAccessory ActionList;
   policy ResourceArtifact ActionRead;
   policy ResourceArtifact ActionList;
   policy ResourceArtifactAddition ActionRead].

Definition publicProjectPolicies : list Policy :=
  [policy ResourceSelf ActionRead;
   policy ResourceLabel ActionRead;
   policy ResourceLabel ActionList;
   policy ResourceRepository ActionList;
   policy ResourceRepository ActionPull;
   policy ResourceScan ActionRead;
   policy ResourceScanner ActionRead;
   policy ResourceTag ActionList;
   policy ResourceArtifact ActionRead;
   policy ResourceArtifact ActionList;
   policy ResourceArtifactAddition ActionRead;
   policy ResourceAccessory ActionList].

Definition rolePoliciesMap (roleName : string) : list Policy :=
  if (roleName == "projectAdmin") then projectAdmin_policies
  else if (roleName == "maintainer") then maintainer_policies
  else if (roleName == "developer") then developer_policies
  else if (roleName == "guest") then guest_policies
  else if (roleName == "limitedGuest") then limitedGuest_policies
  else [].

Definition RoleProjectAdmin : Z := 1.
Definition RoleDeveloper : Z := 2.
Definition RoleGuest : Z := 3.
Definition RoleMaintainer : Z := 4.
Definition RoleLimitedGuest : Z := 5.

Definition role_GetRoleName (roleID : Z) : string :=
  if roleID =? RoleProjectAdmin then "projectAdmin"
  else if roleID =? RoleMaintainer then "maintainer"
  else if roleID =? RoleDeveloper then "developer"
  else if roleID =? RoleGuest then "guest"
  else if roleID =? RoleLimitedGuest then "limitedGuest"
  else EmptyString.

Definition in_project (projectID : Z) (p : Policy) : Policy :=
  mkPolicy (ns_Resource (ProjectNS projectID) [Resource p]) (Action p) (Effect p).

Definition role_GetPolicies (projectID roleID : Z) : list Policy :=
  let roleName := role_GetRoleName roleID in
  if bool_decide (roleName = EmptyString) then []
  else map (in_project projectID) (rolePoliciesMap roleName).

Definition getPoliciesForPublicProject (projectID : Z) : list Policy :=
  map (in_project projectID) publicProjectPolicies.

(** ** [src/common/rbac/project/rbac_user.go] *)

(** A project, as the permission code reads it ([src/pkg/project/models]). *)
Record Project := mkProject { ProjectID : Z; Name : string; Metadata : gmap string string }.

Definition to_lower (c : ascii) : ascii :=
  let n := N_of_ascii c in
  if ((65 <=? n) && (n <=? 90))%N then ascii_of_N (n + 32) else c.
Fixpoint ToLower (s : string) : string :=
  match s with EmptyString => EmptyString | String c s => String (to_lower c) (ToLower s) end.

Definition isTrue (value : string) : bool :=
  (ToLower value == "true") || (ToLower value == "1").

Definition IsPublic (p : Project) : bool :=
  match Metadata p !! "public"%string with Some v => isTrue v | None => false end.

Definition rbacUser (project : Project) (username : string) (projectRoles : list Z) (policies : list Policy)
    : RBACUser :=
  mkRBACUser username
    (policies ++ if IsPublic project then getPoliciesForPublicProject (ProjectID project) else [])
    (map (λ roleID, mkRole (role_GetRoleName roleID) (role_GetPolicies (ProjectID project) roleID)) projectRoles).

(** ** Namespaces *)

Lemma namespaces_disjoint resource ns : project_NamespaceParse resource = Some ns → system_NamespaceParse resource = None.
Proof.
  unfold project_NamespaceParse, system_NamespaceParse, HasPrefix.
  destruct resource as [|c s]; [done|]. cbn [String.prefix]. destruct (ascii_dec "/" c); [|done].
  destruct s as [|d s]; [done|]. cbn [String.prefix]. destruct (ascii_dec "p" d) as [<-|]; done.
Qed.

(** ** Loading the lines of a user *)

(** A field that survives the text form of a rule. *)
Definition token (s : string) : Prop := no_char ","%char s = true ∧ TrimSpace s = s.

Lemma token_visible s : string_forall (λ c, visible c && negb (bool_decide (c = ","%char))) s = true → token s.
Proof.
  intros H. split.
  - unfold no_char. apply (string_forall_impl _ _ _) with (2 := H). intros c [_ Hc]%andb_true_iff. done.
  - apply TrimSpace_visible. apply (string_forall_impl _ _ _) with (2 := H). by intros c [Hc _]%andb_true_iff.
Qed.

Definition row (who : string) (p : Policy) : list string := [who; Resource p; Action p; GetEffect p].

Definition good_policy (p : Policy) : Prop :=
  token (Resource p) ∧ token (Action p) ∧ token (GetEffect p) ∧ is_Some (keyMatch2Build (Resource p)).

Lemma no_char_space c s : c ≠ " "%char → no_char c (String " " s) = no_char c s.
Proof. intros H. unfold no_char. simpl. by rewrite bool_decide_false. Qed.

Lemma split_fields a b : no_char ","%char a = true →
  Split (a +:+ ", " +:+ b) ","%char = a :: Split (String " " b) ","%char.
Proof. intros Ha. change (a +:+ ", " +:+ b) with (a +:+ String "," (String " " b)). by apply Split_app. Qed.

Lemma split_space_fields a b : no_char ","%char a = true →
  Split (String " " (a +:+ ", " +:+ b)) ","%char = String " " a :: Split (String " " b) ","%char.
Proof.
  intros Ha. change (String " " (a +:+ ", " +:+ b)) with ((String " " a) +:+ ", " +:+ b).
  apply split_fields. by rewrite no_char_space.
Qed.

Lemma LoadPolicyLine_policy who p m : token who → good_policy p →
  LoadPolicyLine (policy_line who p) m = Done (mkModel (p_rules m ++ [row who p]) (g_rules m)).
Proof.
  intros [Hw1 Hw2] ([Hr1 Hr2] & [Ha1 Ha2] & [He1 He2] & _). unfold LoadPolicyLine.
  rewrite bool_decide_false by done. change (HasPrefix (policy_line who p) "#") with false. cbv iota. simpl orb. cbv iota.
  unfold policy_line. change ("p, " +:+ ?x) with ("p"%string +:+ ", " +:+ x).
  rewrite split_fields by done. rewrite !split_space_fields by done.
  rewrite Split_one by (by rewrite no_char_space). simpl map. rewrite !TrimSpace_space.
  rewrite Hw2, Hr2, Ha2, He2. change (TrimSpace "p") with "p"%string. by rewrite bool_decide_true.
Qed.

Lemma LoadPolicyLine_grouping u r m : token u → token r →
  LoadPolicyLine (grouping_line u r) m = Done (mkModel (p_rules m) (g_rules m ++ [[u; r]])).
Proof.
  intros [Hw1 Hw2] [Hr1 Hr2]. unfold LoadPolicyLine.
  rewrite bool_decide_false by done. change (HasPrefix (grouping_line u r) "#") with false. simpl orb. cbv iota.
  unfold grouping_line. change ("g, " +:+ ?x) with ("g"%string +:+ ", " +:+ x).
  rewrite split_fields by done. rewrite split_space_fields by done.
  rewrite Split_one by (by rewrite no_char_space). simpl map. rewrite !TrimSpace_space.
  rewrite Hw2, Hr2. change (TrimSpace "g") with "g"%string. by rewrite bool_decide_false, bool_decide_true.
Qed.

Lemma LoadPolicy_app l1 l2 m m1 : LoadPolicy l1 m = Done m1 → LoadPolicy (l1 ++ l2) m = LoadPolicy l2 m1.
Proof.
  revert m. induction l1 as [|l l1 IH]; intros m H; simpl in *; [by injection H as ->|].
  destruct (LoadPolicyLine l m); try done. by apply IH.
Qed.

Lemma LoadPolicy_cons l ls m m1 : LoadPolicyLine l m = Done m1 → LoadPolicy (l :: ls) m = LoadPolicy ls m1.
Proof. intros H. change (l :: ls) with ([l] ++ ls). apply LoadPolicy_app. cbn [LoadPolicy]. by rewrite H. Qed.

Lemma LoadPolicy_policies who ps m : token who → Forall good_policy ps →
  LoadPolicy (map (policy_line who) ps) m = Done (mkModel (p_rules m ++ map (row who) ps) (g_rules m)).
Proof.
  intros Hw Hg. revert m. induction Hg as [|p ps Hp _ IH]; intros m; cbn [map].
  - rewrite app_nil_r. by destruct m.
  - erewrite LoadPolicy_cons by (by apply LoadPolicyLine_policy). rewrite IH. simpl. by rewrite <- app_assoc.
Qed.

(** Roles with an empty name contribute no policies. *)
Definition effective (r : RBACRole) : list Policy :=
  if bool_decide (GetRoleName r = EmptyString) then [] else role_policies r.

Definition good_role (r : RBACRole) : Prop := token (GetRoleName r) ∧ Forall good_policy (effective r).

Definition role_rows (r : RBACRole) : list (list string) := map (row (GetRoleName r)) (effective r).

Lemma LoadPolicy_roles u rs m : token u → Forall good_role rs →
  LoadPolicy (flat_map (λ r, policyLinesOfRole r ++ [grouping_line u (GetRoleName r)]) rs) m
    = Done (mkModel (p_rules m ++ flat_map role_rows rs) (g_rules m ++ map (λ r, [u; GetRoleName r]) rs)).
Proof.
  intros Hu Hr. revert m. induction Hr as [|r rs [Ht Hp] _ IH]; intros m; cbn [flat_map map].
  - rewrite !app_nil_r. by destruct m.
  - rewrite <- app_assoc.
    assert (LoadPolicy (policyLinesOfRole r) m = Done (mkModel (p_rules m ++ role_rows r) (g_rules m))) as Hl.
    { unfold policyLinesOfRole, role_rows, effective in *. case_bool_decide; cbn [map LoadPolicy].
      - rewrite app_nil_r. by destruct m.
      - by apply LoadPolicy_policies. }
    rewrite (LoadPolicy_app _ _ _ _ Hl). cbn [app].
    erewrite LoadPolicy_cons by (by apply LoadPolicyLine_grouping). rewrite IH. simpl. by rewrite <- !app_assoc.
Qed.

Lemma LoadPolicy_user u : token (GetUserName u) → GetUserName u ≠ EmptyString →
  Forall good_policy (GetPolicies u) → Forall good_role (GetRoles u) →
  LoadPolicy (getPolicyLines u) (mkModel [] []) =
    Done (mkModel (map (row (GetUserName u)) (GetPolicies u) ++ flat_map role_rows (GetRoles u))
                  (map (λ r, [GetUserName u; GetRoleName r]) (GetRoles u))).
Proof.
  intros Ht Hn Hp Hr. unfold getPolicyLines. rewrite bool_decide_false by done.
  unfold policyLinesOfRBACUser. erewrite LoadPolicy_app by (by apply LoadPolicy_policies).
  by rewrite LoadPolicy_roles.
Qed.

Lemma buildRoleLinks_user u rs :
  buildRoleLinks (map (λ r, [u; GetRoleName r]) rs) = Done (map (λ r, (u, GetRoleName r)) rs).
Proof. induction rs as [|r rs IH]; simpl; [done|]. by rewrite IH. Qed.

(** ** What the enforcer decides *)

(** The policy applies to the question. *)
Definition applies (p : Policy) (resource action : string) : bool :=
  match keyMatch2Build (Resource p) with
  | Some e => pmatch e resource && (bool_decide (action = Action p) || (Action p == "*"))
  | None => false
  end.

(** Some policy allows and none denies. *)
Definition allowed (ps : list Policy) (resource action : string) : bool :=
  existsb (λ p, applies p resource action && bool_decide (GetEffect p = EffectAllow)) ps
  && negb (existsb (λ p, applies p resource action && bool_decide (GetEffect p = EffectDeny)) ps).

Definition all_policies (u : RBACUser) : list Policy := GetPolicies u ++ flat_map effective (GetRoles u).

Lemma HasLink_user u rs x :
  x = u ∨ x ∈ map GetRoleName rs → HasLink (map (λ r, (u, GetRoleName r)) rs) u x = true.
Proof.
  unfold HasLink. case_bool_decide as Hux; [done|]. intros [->|Hx]; [done|].
  apply list_elem_of_fmap in Hx as (r & -> & Hr).
  assert (Hin : In (u, GetRoleName r) (map (λ r, (u, GetRoleName r)) rs)).
  { apply in_map_iff. exists r. split; [done|]. by apply list_elem_of_In. }
  assert (known_role (map (λ r, (u, GetRoleName r)) rs) u = true) as ->.
  { apply existsb_exists. eexists. split; [exact Hin|]. simpl. by rewrite bool_decide_true. }
  assert (known_role (map (λ r, (u, GetRoleName r)) rs) (GetRoleName r) = true) as ->.
  { apply existsb_exists. eexists. split; [exact Hin|]. simpl. cbn [snd].
    apply orb_true_iff. right. by apply bool_decide_true. }
  simpl negb. simpl orb. cbv iota. unfold maxHierarchyLevel. cbn [role_hasRole].
  apply orb_true_iff. right. apply existsb_exists. eexists. split; [exact Hin|].
  cbn [fst snd]. rewrite !bool_decide_true by done. done.
Qed.

Definition decided (p : Policy) (resource action : string) : effect :=
  if applies p resource action then policy_effect (GetEffect p) else Indeterminate.

Lemma matcher_linked links sub obj act who p : HasLink links sub who = true →
  is_Some (keyMatch2Build (Resource p)) →
  matcher links sub obj act who (Resource p) (Action p) = Done (applies p obj act).
Proof.
  intros Hl [e He]. unfold matcher, keyMatch2, applies. rewrite Hl, He. by destruct (pmatch e obj).
Qed.

Lemma rule_effects_linked links sub obj act who ps rules l : HasLink links sub who = true →
  Forall good_policy ps → rule_effects links sub obj act rules = Done l →
  rule_effects links sub obj act (map (row who) ps ++ rules) = Done (map (λ p, decided p obj act) ps ++ l).
Proof.
  intros Hl Hg Hr. induction Hg as [|p ps (_ & _ & _ & Hp) _ IH]; [done|].
  cbn [map app row rule_effects]. rewrite matcher_linked by done. rewrite IH. unfold decided.
  by destruct (applies p obj act).
Qed.

Lemma rule_effects_roles u obj act rs rs' : Forall good_role rs' → (∀ r, r ∈ rs' → r ∈ rs) →
  rule_effects (map (λ r, (u, GetRoleName r)) rs) u obj act (flat_map role_rows rs')
    = Done (map (λ p, decided p obj act) (flat_map effective rs')).
Proof.
  intros Hg Hsub. induction Hg as [|r rs' [Ht Hp] _ IH]; [done|]. cbn [flat_map].
  unfold role_rows at 1. rewrite map_app. apply rule_effects_linked; [|done|].
  - apply HasLink_user. right. apply list_elem_of_fmap_2, Hsub. left.
  - apply IH. intros r' Hr'. apply Hsub. by right.
Qed.

Lemma MergeEffects_spec r l : MergeEffects r l = (r || existsb (λ e, match e with Allow => true | _ => false end) l)
  && negb (existsb (λ e, match e with Deny => true | _ => false end) l).
Proof.
  revert r. induction l as [|[] l IH]; intros r; simpl.
  - by rewrite orb_false_r, andb_true_r.
  - by rewrite IH, orb_true_r.
  - by rewrite andb_false_r.
  - apply IH.
Qed.

Lemma MergeEffects_decided ps obj act :
  MergeEffects false (map (λ p, decided p obj act) ps) = allowed ps obj act.
Proof.
  rewrite MergeEffects_spec. unfold allowed. simpl orb. f_equal; [|f_equal];
    (induction ps as [|p ps IH]; [done|]; cbn [map existsb]; rewrite IH; f_equal;
     unfold decided, policy_effect; destruct (applies p obj act); [|done]; simpl).
  - repeat case_bool_decide; done.
  - repeat case_bool_decide; unfold EffectAllow, EffectDeny in *; congruence.
Qed.

(** A user's permission is decided by its own policies and those of its roles. *)
Lemma HasPermission_spec u resource action :
  token (GetUserName u) → GetUserName u ≠ EmptyString →
  Forall good_policy (GetPolicies u) → Forall good_role (GetRoles u) → resource ≠ EmptyString →
  HasPermission u resource action = Done (allowed (all_policies u) resource action).
Proof.
  intros Ht Hn Hp Hr Hres. unfold HasPermission. rewrite LoadPolicy_user by done.
  cbn [p_rules g_rules]. rewrite buildRoleLinks_user. rewrite <- MergeEffects_decided.
  assert (He : rule_effects (map (λ r, (GetUserName u, GetRoleName r)) (GetRoles u)) (GetUserName u) resource action
     (map (row (GetUserName u)) (GetPolicies u) ++ flat_map role_rows (GetRoles u))
     = Done (map (λ p, decided p resource action) (all_policies u))).
  { unfold all_policies. rewrite map_app. apply rule_effects_linked; [|done|].
    - apply HasLink_user. by left.
    - by apply rule_effects_roles. }
  unfold Enforce. destruct (map (row _) _ ++ _) as [|x l] eqn:E.
  - simpl in He. injection He as <-. unfold matcher, keyMatch2. destruct (HasLink _ _ _); [|done].
    cbn [keyMatch2Build pmatch]. by rewrite bool_decide_false.
  - by rewrite He.
Qed.

(** ** Resources of a project *)

(** The bytes of project paths and of the resource names of the tables. *)
Definition plain_char (c : ascii) : bool :=
  number_char c || ((97 <=? byte c)%N && (byte c <=? 122)%N) || (byte c =? 47)%N.
Definition plain (s : string) : bool := string_forall plain_char s.

Lemma plain_char_facts c : plain_char c = true →
  visible c = true ∧ c ≠ ","%char ∧ c ≠ ":"%char ∧ c ≠ "*"%char ∧ metachar c = false.
Proof. destruct c as [[] [] [] [] [] [] [] []]; intros [=]; repeat split; done. Qed.

Lemma plain_token s : plain s = true → token s.
Proof.
  intros H. apply token_visible. apply (string_forall_impl _ _ _) with (2 := H).
  intros c (Hv & Hc & _)%plain_char_facts. by rewrite Hv, bool_decide_false.
Qed.

Fixpoint lits (s : string) : list elem :=
  match s with EmptyString => [] | String c s => Lit c :: lits s end.

Lemma keyMatch2Build_plain s : plain s = true → keyMatch2Build s = Some (lits s).
Proof.
  unfold plain. induction s as [|c s IH]; [done|]. cbn [string_forall]. intros [Hc Hs]%andb_true_iff.
  specialize (IH Hs). destruct (plain_char_facts c Hc) as (_ & _ & _ & _ & Hm).
  assert (Hgen : (if metachar c then None else (λ p, Lit c :: p) <$> keyMatch2Build s) = Some (lits (String c s))).
  { rewrite Hm, IH. done. }
  destruct (decide (c = "/"%char)) as [->|Hne].
  - destruct s as [|d s]; [done|]. cbn [string_forall] in Hs. apply andb_true_iff in Hs as [Hd _].
    destruct (plain_char_facts d Hd) as (_ & _ & H1 & H2 & _).
    rewrite <- Hgen. clear -H1 H2. destruct d as [[] [] [] [] [] [] [] []]; try done.
  - rewrite <- Hgen. clear -Hne. destruct c as [[] [] [] [] [] [] [] []]; done.
Qed.

Lemma pmatch_lits s x : pmatch (lits s) x = bool_decide (x = s).
Proof.
  revert x. induction s as [|c s IH]; intros x; [done|]. cbn [lits pmatch].
  destruct x as [|d x]; [by rewrite bool_decide_false|]. rewrite IH.
  repeat case_bool_decide; simplify_eq; done.
Qed.

Lemma number_plain s : string_forall number_char s = true → plain s = true.
Proof. apply string_forall_impl. intros c Hc. unfold plain_char. by rewrite Hc. Qed.

Lemma project_path_plain projectID : plain (project_path projectID) = true.
Proof.
  unfold plain, project_path. rewrite string_forall_app.
  apply andb_true_iff. split; [done|]. apply number_plain, pretty_Z_chars.
Qed.

Lemma pretty_Z_nonempty (z : Z) : pretty z ≠ EmptyString.
Proof.
  unfold pretty, pretty_Z. destruct z as [|p|p]; [done| |done].
  destruct (pretty_N_head (N.pos p)) as (c & s & Hs & _). unfold pretty, pretty_positive. by rewrite Hs.
Qed.

(** The path of a resource below a project, for the plain names of the tables. *)
Definition below (projectID : Z) (sub : string) : string :=
  if bool_decide (sub = EmptyString) then project_path projectID else project_path projectID +:+ "/" +:+ sub.

Lemma plain_clean_step s stack rooted : s ≠ EmptyString → plain s = true → clean_step rooted stack s = s :: stack.
Proof.
  intros Hn Hp. unfold clean_step. rewrite !bool_decide_false; [done| | |done]; by intros ->.
Qed.

Lemma plain_no_slash s : string_forall (λ c, plain_char c && negb (bool_decide (c = "/"%char))) s = true →
  no_char "/"%char s = true ∧ plain s = true.
Proof.
  intros H. split; apply (string_forall_impl _ _ _) with (2 := H); by intros c [? ?]%andb_true_iff.
Qed.

Lemma number_no_slash s : string_forall number_char s = true → no_char "/"%char s = true.
Proof.
  apply string_forall_impl. intros c Hc. destruct (bool_decide (c = "/"%char)) eqn:E; [|done].
  apply bool_decide_eq_true in E as ->. done.
Qed.

Lemma ns_Resource_below projectID sub : no_char "/"%char sub = true → plain sub = true →
  ns_Resource (ProjectNS projectID) [sub] = below projectID sub.
Proof.
  intros Hs Hp. unfold ns_Resource, Subresource, path_Join.
  change (join_elems EmptyString [project_path projectID; sub]) with (project_path projectID +:+ "/" +:+ sub).
  rewrite bool_decide_false by done. unfold path_Clean.
  change (HasPrefix (project_path projectID +:+ "/" +:+ sub) "/") with true. cbv iota.
  pose proof (pretty_Z_chars projectID) as Hn.
  assert (Split (project_path projectID +:+ "/" +:+ sub) "/"%char = [EmptyString; "project"; pretty projectID; sub]%string) as ->.
  { unfold project_path.
    change (("/project/" +:+ pretty projectID) +:+ "/" +:+ sub)
      with (EmptyString +:+ String "/" ("project" +:+ String "/" (pretty projectID +:+ String "/" sub))).
    rewrite !Split_app by first [done | by apply number_no_slash]. by rewrite Split_one. }
  cbn [foldl]. unfold clean_step at 4. rewrite bool_decide_true by done. cbn [orb].
  rewrite (plain_clean_step "project") by done.
  rewrite (plain_clean_step (pretty projectID)) by first [apply pretty_Z_nonempty | by apply number_plain].
  unfold below. case_bool_decide as He.
  - subst sub. done.
  - rewrite plain_clean_step by done. done.
Qed.

(** ** The policies of the tables *)

Definition table_policy (p : Policy) : bool :=
  no_char "/"%char (Resource p) && plain (Resource p) && plain (Action p) && bool_decide (Effect p = EmptyString).

Lemma tables_ok : forallb table_policy
  (projectAdmin_policies ++ maintainer_policies ++ developer_policies ++ guest_policies
     ++ limitedGuest_policies ++ publicProjectPolicies) = true.
Proof. vm_compute. reflexivity. Qed.

Lemma rolePoliciesMap_table name p : p ∈ rolePoliciesMap name → table_policy p = true.
Proof.
  pose proof tables_ok as H. rewrite forallb_forall in H. intros Hp. apply H.
  apply list_elem_of_In. rewrite !elem_of_app. unfold rolePoliciesMap in Hp.
  repeat case_bool_decide; eauto 10. by apply not_elem_of_nil in Hp.
Qed.

Lemma public_table p : p ∈ publicProjectPolicies → table_policy p = true.
Proof.
  pose proof tables_ok as H. rewrite forallb_forall in H. intros Hp. apply H.
  apply list_elem_of_In. rewrite !elem_of_app. auto 10.
Qed.

Lemma table_policy_facts p : table_policy p = true →
  no_char "/"%char (Resource p) = true ∧ plain (Resource p) = true ∧ plain (Action p) = true ∧
  p = policy (Resource p) (Action p).
Proof.
  unfold table_policy. rewrite !andb_true_iff, bool_decide_eq_true. intros [[[H1 H2] H3] H4].
  split_and!; try done. destruct p. simpl in *. by subst.
Qed.

Lemma plain_app s t : plain s = true → plain t = true → plain (s +:+ t) = true.
Proof. intros Hs Ht. unfold plain in *. by rewrite string_forall_app, Hs, Ht. Qed.

Lemma below_plain projectID sub : plain sub = true → plain (below projectID sub) = true.
Proof.
  intros Hs. unfold below. case_bool_decide; [apply project_path_plain|].
  apply plain_app; [apply project_path_plain|]. by apply plain_app.
Qed.

Lemma in_project_table projectID p : table_policy p = true →
  in_project projectID p = policy (below projectID (Resource p)) (Action p).
Proof.
  intros (H1 & H2 & _ & Hp)%table_policy_facts. destruct p as [r a e]. injection Hp as ->.
  unfold in_project, policy. cbn [Resource Action Effect] in *. by rewrite ns_Resource_below.
Qed.

Lemma in_project_good projectID p : table_policy p = true → good_policy (in_project projectID p).
Proof.
  intros Ht. rewrite in_project_table by done. apply table_policy_facts in Ht as (_ & H2 & H3 & _).
  assert (Hb := below_plain projectID _ H2). split_and!; simpl.
  - by apply plain_token.
  - by apply plain_token.
  - by apply (plain_token "allow").
  - rewrite keyMatch2Build_plain by done. by eexists.
Qed.

Lemma applies_in_project projectID p resource action : table_policy p = true →
  applies (in_project projectID p) resource action
    = bool_decide (resource = below projectID (Resource p) ∧ action = Action p).
Proof.
  intros Ht. rewrite in_project_table by done. apply table_policy_facts in Ht as (_ & H2 & H3 & _).
  unfold applies. simpl. rewrite keyMatch2Build_plain by (by apply below_plain). rewrite pmatch_lits.
  rewrite (bool_decide_false (Action p = "*"%string)), orb_false_r.
  - by rewrite bool_decide_and.
  - intros He. by rewrite He in H3.
Qed.

(** Tables hold no denials. *)
Lemma allowed_tables projectID ps resource action : Forall (λ p, table_policy p = true) ps →
  allowed (map (in_project projectID) ps) resource action = true ↔
  ∃ sub, resource = below projectID sub ∧ policy sub action ∈ ps.
Proof.
  intros Ht. rewrite Forall_forall in Ht. unfold allowed.
  assert (existsb (λ p, applies p resource action && bool_decide (GetEffect p = EffectDeny))
            (map (in_project projectID) ps) = false) as ->.
  { apply not_true_iff_false. rewrite existsb_exists. intros (q & Hq & He).
    apply in_map_iff in Hq as (p & <- & Hp). apply list_elem_of_In, Ht in Hp.
    rewrite in_project_table in He by done. by rewrite andb_false_r in He. }
  rewrite andb_true_r, existsb_exists. split.
  - intros (q & Hq & He). apply in_map_iff in Hq as (p & <- & Hp). apply list_elem_of_In in Hp.
    apply andb_true_iff in He as [He _]. rewrite applies_in_project in He by auto.
    apply bool_decide_eq_true in He as [-> ->]. exists (Resource p). split; [done|].
    by destruct (table_policy_facts p (Ht p Hp)) as (_ & _ & _ & <-).
  - intros (sub & -> & Hp). exists (in_project projectID (policy sub action)).
    split; [apply in_map, list_elem_of_In, Hp|]. rewrite applies_in_project by auto.
    rewrite in_project_table by auto. simpl. by rewrite bool_decide_true.
Qed.

(** What the roles of a user and the visibility of the project grant. *)
Definition grants (public : bool) (roles : list Z) (sub action : string) : Prop :=
  (public = true ∧ policy sub action ∈ publicProjectPolicies) ∨
  ∃ r, r ∈ roles ∧ policy sub action ∈ rolePoliciesMap (role_GetRoleName r).

Definition granted_policies (public : bool) (roles : list Z) : list Policy :=
  (if public then publicProjectPolicies else []) ++
  flat_map (λ r, rolePoliciesMap (role_GetRoleName r)) roles.

Lemma granted_policies_spec public roles sub action :
  policy sub action ∈ granted_policies public roles ↔ grants public roles sub action.
Proof.
  unfold granted_policies, grants. rewrite elem_of_app, !list_elem_of_In, in_flat_map.
  split.
  - intros [H|(r & Hr & H)].
    + destruct public; [by left|done].
    + right. exists r. by rewrite !list_elem_of_In.
  - intros [[-> H]|(r & Hr & H)].
    + by left.
    + right. exists r. by rewrite <- !list_elem_of_In.
Qed.

Lemma granted_policies_table public roles : Forall (λ p, table_policy p = true) (granted_policies public roles).
Proof.
  apply Forall_forall. intros p. unfold granted_policies. rewrite elem_of_app. intros [H|H].
  - destruct public; [by apply public_table|by apply not_elem_of_nil in H].
  - apply list_elem_of_In, in_flat_map in H as (r & _ & H). by eapply rolePoliciesMap_table, list_elem_of_In.
Qed.

Lemma effective_role projectID r :
  effective (mkRole (role_GetRoleName r) (role_GetPolicies projectID r))
    = map (in_project projectID) (rolePoliciesMap (role_GetRoleName r)).
Proof.
  unfold effective, role_GetPolicies. simpl. case_bool_decide as H; [|done]. by rewrite H.
Qed.

Lemma rbacUser_policies project username roles :
  all_policies (rbacUser project username roles [])
    = map (in_project (ProjectID project)) (granted_policies (IsPublic project) roles).
Proof.
  unfold all_policies, granted_policies. rewrite map_app. f_equal.
  - simpl. by destruct (IsPublic project).
  - simpl. induction roles as [|r roles IH]; [done|]. cbn [map flat_map]. rewrite effective_role, map_app. by rewrite IH.
Qed.

Lemma role_name_token r : token (role_GetRoleName r).
Proof.
  unfold role_GetRoleName.
  repeat match goal with |- context [if ?b then _ else _] => destruct b; [by apply token_visible|] end.
  by apply token_visible.
Qed.

Lemma rbacUser_spec project username roles resource action :
  token username → username ≠ EmptyString → resource ≠ EmptyString →
  ∃ b, HasPermission (rbacUser project username roles []) resource action = Done b ∧
    (b = true ↔ ∃ sub, resource = below (ProjectID project) sub ∧ grants (IsPublic project) roles sub action).
Proof.
  intros Ht Hn Hres. eexists. split.
  - apply HasPermission_spec; simpl; try done.
    + destruct (IsPublic project); [|constructor]. apply Forall_forall. intros p Hp.
      apply list_elem_of_fmap in Hp as (q & -> & Hq). by apply in_project_good, public_table.
    + apply Forall_forall. intros r Hr. apply list_elem_of_fmap in Hr as (i & -> & _). split; [apply role_name_token|].
      rewrite effective_role. apply Forall_forall. intros p Hp. apply list_elem_of_fmap in Hp as (q & -> & Hq).
      by eapply in_project_good, rolePoliciesMap_table.
  - rewrite rbacUser_policies, allowed_tables by apply granted_policies_table.
    setoid_rewrite granted_policies_spec. done.
Qed.

(** ** The order of the roles *)

Definition role_rank (roleID : Z) : nat :=
  if roleID =? RoleProjectAdmin then 5
  else if roleID =? RoleMaintainer then 4
  else if roleID =? RoleDeveloper then 3
  else if roleID =? RoleGuest then 2
  else if roleID =? RoleLimitedGuest then 1
  else 0.

Definition rank_policies (n : nat) : list Policy :=
  match n with
  | 1 => limitedGuest_policies
  | 2 => guest_policies
  | 3 => developer_policies
  | 4 => maintainer_policies
  | 5 => projectAdmin_policies
  | _ => []
  end%nat.

Lemma role_rank_policies r : rolePoliciesMap (role_GetRoleName r) = rank_policies (role_rank r).
Proof.
  unfold role_GetRoleName, role_rank.
  repeat match goal with |- context [if ?b then _ else _] => destruct b; [reflexivity|] end. reflexivity.
Qed.

Definition includes (l k : list Policy) : bool := forallb (λ p, bool_decide (p ∈ k)) l.

Lemma includes_elem l k p : includes l k = true → p ∈ l → p ∈ k.
Proof.
  unfold includes. rewrite forallb_forall. intros H Hp. apply list_elem_of_In in Hp.
  by apply H, bool_decide_eq_true in Hp.
Qed.

Lemma rank_policies_step n : (n < 5)%nat → includes (rank_policies n) (rank_policies (S n)) = true.
Proof. intros H. destruct n as [|[|[|[|[|n]]]]]; [vm_compute; reflexivity..|lia]. Qed.

Lemma rank_policies_mono n m p : (n <= m <= 5)%nat → p ∈ rank_policies n → p ∈ rank_policies m.
Proof.
  intros [Hnm Hm] Hp. induction Hnm as [|m Hnm IH]; [done|].
  eapply includes_elem; [apply rank_policies_step; lia|]. apply IH. lia.
Qed.

Lemma role_rank_le r : (role_rank r <= 5)%nat.
Proof.
  unfold role_rank. repeat match goal with |- context [if ?b then _ else _] => destruct b; [lia|] end. lia.
Qed.

(** [k] is the lowest rank whose policies have [p]. *)
Definition starts_at (p : Policy) (k : nat) : bool :=
  forallb (λ n, Bool.eqb (bool_decide (p ∈ rank_policies n)) (k <=? n)%nat) (seq 0 6).

Lemma starts_at_spec p k r : starts_at p k = true →
  p ∈ rolePoliciesMap (role_GetRoleName r) ↔ (k <= role_rank r)%nat.
Proof.
  unfold starts_at. rewrite forallb_forall, role_rank_policies. intros H.
  specialize (H (role_rank r)). rewrite in_seq in H. specialize (H ltac:(pose proof (role_rank_le r); lia)).
  apply eqb_prop in H. rewrite <- (bool_decide_eq_true (p ∈ _)), H. apply Nat.leb_le.
Qed.

(** Further property (safety). The roles of a project form a chain: limited guest, guest,
    developer, maintainer, project administrator; a higher role may do all a lower
    one may.  In a private project pushing takes at least a developer, deleting
    artifacts at least a maintainer, and managing members a project
    administrator; an unknown role grants nothing. *)
Theorem role_chain public a b sub action :
  (role_rank a <= role_rank b)%nat →
  (grants public [a] sub action → grants public [b] sub action) ∧
  (grants false [a] ResourceRepository ActionPush ↔ (3 <= role_rank a)%nat) ∧
  (grants false [a] ResourceArtifact ActionDelete ↔ (4 <= role_rank a)%nat) ∧
  (grants false [a] ResourceMember ActionCreate ↔ (5 <= role_rank a)%nat) ∧
  (role_rank a = 0%nat → ¬ grants false [a] sub action).
Proof.
  intros Hab.
  assert (Hone : ∀ s t, grants false [a] s t ↔ policy s t ∈ rolePoliciesMap (role_GetRoleName a)).
  { intros s t. unfold grants. setoid_rewrite list_elem_of_singleton. naive_solver. }
  split_and!.
  - unfold grants. setoid_rewrite list_elem_of_singleton. intros [H|(r & -> & H)]; [by left|]. right.
    exists b. split; [done|]. rewrite role_rank_policies in *. pose proof (role_rank_le b).
    by eapply rank_policies_mono; [|exact H].
  - rewrite Hone. apply starts_at_spec. vm_compute. reflexivity.
  - rewrite Hone. apply starts_at_spec. vm_compute. reflexivity.
  - rewrite Hone. apply starts_at_spec. vm_compute. reflexivity.
  - intros H0. rewrite Hone, role_rank_policies, H0. apply not_elem_of_nil.
Qed.

Lemma role_chain_witness :
  (role_rank RoleGuest <= role_rank RoleMaintainer)%nat ∧
  (grants false [RoleGuest] ResourceRepository ActionPull → grants false [RoleMaintainer] ResourceRepository ActionPull).
Proof.
  split; [vm_compute; lia|].
  apply (role_chain false RoleGuest RoleMaintainer ResourceRepository ActionPull). vm_compute. lia.
Defined.
