(* ===== verification/Security.v ===== *)
(** * Security contexts: [src/common/security], the evaluators of
    [src/pkg/permission/evaluator] and [src/common/rbac/project/evaluator.go]

    A request carries one security context; the handlers ask it questions.  The
    contexts are stateful: they build their evaluators at the first question,
    the evaluator of a namespace caches the users it built, and the builder for
    policies overwrites the policies it captured with the filtered ones.  The
    model threads that state through the sequence of questions.  The project
    controller is a parameter: which projects exist and which roles a user has. *)

From S2P Require Import Prelude GoStrings Rbac.
From Stdlib Require Import Ascii.
Open Scope Z_scope.
Local Open Scope harbor_scope.

(** The user of [src/common/models], as far as permissions go. *)
Record User := mkUser { UserID : Z; Username : string; SysAdminFlag : bool; AdminRoleInAuth : bool }.

(** One question: the request's context (its address), the action, the resource. *)
Record Question := mkQ { q_ctx : Z; q_action : string; q_resource : string }.

(** [security.Context]: what the handlers rely on. *)
Class SecurityContext (T : Type) := Can : T → Question → outcome bool * T.

(** The context after a sequence of questions. *)
Fixpoint after `{SecurityContext T} (s : T) (qs : list Question) : T :=
  match qs with [] => s | q :: qs => after (snd (Can s q)) qs end.

Definition answer `{SecurityContext T} (s : T) (q : Question) : outcome bool := fst (Can s q).

(** An invariant of the questions holds after all of them. *)
Lemma after_invariant `{SecurityContext T} (P : T → Prop) (Q : Question → Prop) :
  (∀ s q, P s → Q q → P (snd (Can s q))) → ∀ qs s, P s → Forall Q qs → P (after s qs).
Proof.
  intros Hstep qs. induction qs as [|q qs IH]; intros s Hs Hq; [done|].
  apply Forall_cons in Hq as [Hq Hqs]. simpl. apply IH; auto.
Qed.

Section controller.
Context (ctl_Get : Z → option Project) (ctl_ListRoles : Z → User → option (list Z)).

(** ** [src/common/rbac/project/evaluator.go] *)

(** The closures [NewBuilderForUser] and [NewBuilderForPolicies] with what they
    capture. *)
Inductive Builder :=
  | ForUser (user : option User)
  | ForPolicies (username : string) (policies : list Policy) (filters : list (Project → list Policy → list Policy)).

(** A call of the closure: the user it makes, and the closure afterwards. *)
Definition build (b : Builder) (p : Project) : option RBACUser * Builder :=
  match b with
  | ForUser None => (Some (rbacUser p "anonymous" [] []), b)
  | ForUser (Some user) =>
      match ctl_ListRoles (ProjectID p) user with
      | None => (None, b)
      | Some roles => (Some (rbacUser p (Username user) roles []), b)
      end
  | ForPolicies username policies filters =>
      let policies := foldl (λ ps filter, filter p ps) policies filters in
      (Some (rbacUser p username [] policies), ForPolicies username policies filters)
  end.

Fixpoint build_all (bs : list Builder) (p : Project) : list RBACUser * list Builder :=
  match bs with
  | [] => ([], [])
  | b :: bs =>
      let '(u, b) := build b p in
      let '(us, bs) := build_all bs p in
      (match u with Some u => u :: us | None => us end, b :: bs)
  end.

(** ** [src/pkg/permission/evaluator/namespace/namespace.go], for projects *)

(** The cache is keyed by the context and the project; no user is the nil
    evaluator. *)
Record ProjectEvaluator := mkPE { builders : list Builder; cache : gmap (Z * Z) (list RBACUser) }.

Definition factory (e : ProjectEvaluator) (projectID : Z) : list RBACUser * list Builder :=
  match ctl_Get projectID with
  | None => ([], builders e)
  | Some p => build_all (builders e) p
  end.

Definition project_HasPermission (e : ProjectEvaluator) (q : Question) : outcome bool * ProjectEvaluator :=
  match NamespaceFromResource (q_resource q) with
  | Some (ProjectNS projectID) =>
      match cache e !! (q_ctx q, projectID) with
      | Some us => (any_HasPermission us (q_resource q) (q_action q), e)
      | None =>
          let '(us, bs) := factory e projectID in
          (any_HasPermission us (q_resource q) (q_action q),
           mkPE bs (<[(q_ctx q, projectID) := us]> (cache e)))
      end
  | _ => (Done false, e)
  end.

(** [src/common/rbac/system/evaluator.go]; its cache only saves work. *)
Definition system_HasPermission (username : string) (policies : list Policy) (q : Question) : outcome bool :=
  match NamespaceFromResource (q_resource q) with
  | Some SystemNS => HasPermission (mkRBACUser username policies []) (q_resource q) (q_action q)
  | _ => Done false
  end.

(** ** [src/pkg/permission/evaluator/evaluator.go] *)

Inductive Evaluator :=
  | AdminEvaluator (username : string)
  | SystemEvaluator (username : string) (policies : list Policy)
  | ProjectEvaluatorOf (e : ProjectEvaluator).

Definition evaluator_HasPermission (e : Evaluator) (q : Question) : outcome bool * Evaluator :=
  match e with
  | AdminEvaluator _ => (Done (negb (bool_decide (q_action q = ActionScannerPull))), e)
  | SystemEvaluator username policies => (system_HasPermission username policies q, e)
  | ProjectEvaluatorOf e => let '(r, e) := project_HasPermission e q in (r, ProjectEvaluatorOf e)
  end.

Fixpoint evaluators_HasPermission (l : list Evaluator) (q : Question) : outcome bool * list Evaluator :=
  match l with
  | [] => (Done false, [])
  | e :: l =>
      let '(r, e) := evaluator_HasPermission e q in
      match r with
      | Done false => let '(r, l) := evaluators_HasPermission l q in (r, e :: l)
      | _ => (r, e :: l)
      end
  end.

(** ** [src/common/security/local/context.go] *)

Record LocalContext := mkLocal { l_user : option User; l_evaluator : option (list Evaluator) }.

Definition local_New (user : option User) : LocalContext := mkLocal user None.

Definition local_IsSysAdmin (s : LocalContext) : bool :=
  match l_user s with None => false | Some u => SysAdminFlag u || AdminRoleInAuth u end.

Definition local_GetUsername (s : LocalContext) : string :=
  match l_user s with None => EmptyString | Some u => Username u end.

Definition local_evaluators (s : LocalContext) : list Evaluator :=
  (if local_IsSysAdmin s then [AdminEvaluator (local_GetUsername s)] else [])
    ++ [ProjectEvaluatorOf (mkPE [ForUser (l_user s)] ∅)].

#[global] Instance local_Can : SecurityContext LocalContext := λ s q,
  let '(r, l) := evaluators_HasPermission (default (local_evaluators s) (l_evaluator s)) q in
  (r, mkLocal (l_user s) (Some l)).

(** ** [src/common/security/robot/context.go] *)

Record Permission := mkPermission { Scope : string; Access : list Policy }.
Record Robot := mkRobot { r_Name : string; Level : string; Permissions : list Permission }.

Definition LEVELSYSTEM : string := "system".
Definition SCOPESYSTEM : string := "/system".
Definition SCOPEPROJECT : string := "/project".

Record RobotContext := mkRobotContext { robot : option Robot; r_evaluator : option (list Evaluator) }.

Definition robot_New (r : option Robot) : RobotContext := mkRobotContext r None.

Definition accesses (r : Robot) : list Policy :=
  flat_map (λ p, map (λ a, mkPolicy (Scope p +:+ "/" +:+ Resource a) (Action a) (Effect a)) (Access p)) (Permissions r).

Definition filterRobotPolicies (p : Project) (policies : list Policy) : list Policy :=
  flat_map (λ policy',
    if ResourceAllowedInNamespace (Resource policy') (ProjectNS (ProjectID p))
    then policy' :: (if bool_decide (Action policy' = ActionPush)
                     then [policy (Resource policy') ActionPull] else [])
    else []) policies.

Definition robot_evaluators (r : Robot) : list Evaluator :=
  if bool_decide (Level r = LEVELSYSTEM)
  then
    let sysPolicies := List.filter (λ p, HasPrefix (Resource p) SCOPESYSTEM) (accesses r) in
    let proPolicies := List.filter (λ p, negb (HasPrefix (Resource p) SCOPESYSTEM)
                                           && HasPrefix (Resource p) SCOPEPROJECT) (accesses r) in
    if negb (bool_decide (length sysPolicies = 0%nat)) then [SystemEvaluator (r_Name r) sysPolicies]
    else if negb (bool_decide (length proPolicies = 0%nat))
    then [ProjectEvaluatorOf (mkPE [ForPolicies (r_Name r) proPolicies []] ∅)]
    else []
  else [ProjectEvaluatorOf (mkPE [ForPolicies (r_Name r) (accesses r) [filterRobotPolicies]] ∅)].

#[global] Instance robot_Can : SecurityContext RobotContext := λ s q,
  match robot s with
  | None => (Done false, s)
  | Some r =>
      let '(res, l) := evaluators_HasPermission (default (robot_evaluators r) (r_evaluator s)) q in
      (res, mkRobotContext (robot s) (Some l))
  end.

(** ** [src/common/security/v2token/context.go] *)

Record ResourceActions := mkRA { ra_Type : string; ra_Name : string; ra_Actions : list string }.

Record TokenContext := mkToken { t_name : string; accessMap : gmap string (gset string) }.

Definition action_set (a : string) : gset string :=
  if (a == "pull") then {[ ActionPull ]}
  else if (a == "push") then {[ ActionPush ]}
  else if (a == "delete") then {[ ActionDelete ]}
  else if (a == "scanner-pull") then {[ ActionScannerPull ]}
  else if (a == "*") then {[ ActionPull; ActionPush; ActionDelete ]}
  else ∅.

Definition token_New (name : string) (access : list ResourceActions) : TokenContext :=
  mkToken name (foldl (λ m ac,
    if bool_decide (ra_Type ac ≠ "repository"%string) then m
    else
      match Split (ra_Name ac) "/"%char with
      | [] => m
      | l0 :: _ => <[l0 := ⋃ map action_set (ra_Actions ac)]> m
      end) ∅ access).

#[global] Instance token_Can : SecurityContext TokenContext := λ t q,
  (Done (if negb (HasSuffix (q_resource q) ResourceRepository) then false
         else
           match project_NamespaceParse (q_resource q) with
           | Some (ProjectNS pid) =>
               match ctl_Get pid with
               | None => false
               | Some p =>
                   match accessMap t !! Name p with
                   | None => false
                   | Some actions => bool_decide (q_action q ∈ actions)
                   end
               end
           | _ => false
           end), t).

(** ** [src/common/security/proxycachesecret/context.go] *)

Record ProxyCacheContext := mkProxyCache { pc_repository : string }.

Fixpoint TrimLeft_slash (s : string) : string :=
  match s with String "/" s => TrimLeft_slash s | _ => s end.
Fixpoint TrimRight_slash (s : string) : string :=
  match s with
  | EmptyString => EmptyString
  | String c s =>
      match TrimRight_slash s with
      | EmptyString => if bool_decide (c = "/"%char) then EmptyString else String c EmptyString
      | s => String c s
      end
  end.

(** [utils.ParseRepository], the project part. *)
Definition ParseRepository (repository : string) : string :=
  let repository := TrimRight_slash (TrimLeft_slash repository) in
  match Split repository "/"%char with p :: _ :: _ => p | _ => EmptyString end.

#[global] Instance proxycache_Can : SecurityContext ProxyCacheContext := λ s q,
  (Done (if negb (bool_decide (q_action q = ActionPull) || bool_decide (q_action q = ActionPush)) then false
         else
           match project_NamespaceParse (q_resource q) with
           | Some (ProjectNS pid) =>
               match ctl_Get pid with
               | None => false
               | Some p => bool_decide (Name p = ParseRepository (pc_repository s))
               end
           | _ => false
           end), s).

(** ** [src/common/security/secret/context.go], [src/common/secret/store.go] *)

Record SecretContext := mkSecret { s_secret : string; store : option (gmap string string) }.

Definition JobserviceUser : string := "harbor-jobservice".
Definition CoreUser : string := "harbor-core".

Definition store_GetUsername (st : gmap string string) (secret : string) : string := default EmptyString (st !! secret).

#[global] Instance secret_Can : SecurityContext SecretContext := λ s q,
  (Done (match store s with
         | None => false
         | Some st =>
             bool_decide (store_GetUsername st (s_secret s) = JobserviceUser)
             || bool_decide (store_GetUsername st (s_secret s) = CoreUser)
         end), s).

(** ** Local users *)

Definition is_admin (user : option User) : bool :=
  match user with None => false | Some u => SysAdminFlag u || AdminRoleInAuth u end.

Definition display_name (user : option User) : string :=
  match user with None => "anonymous" | Some u => Username u end.

Definition roles_in (user : option User) (projectID : Z) : option (list Z) :=
  match user with None => Some [] | Some u => ctl_ListRoles projectID u end.

(** What membership and visibility grant: the resource lies below an existing
    project in which the roles of the user, or the project being public, allow
    the action on it. *)
Definition project_grants (user : option User) (resource action : string) : Prop :=
  ∃ projectID p roles sub,
    NamespaceFromResource resource = Some (ProjectNS projectID) ∧ ctl_Get projectID = Some p ∧
    roles_in user (ProjectID p) = Some roles ∧ resource = below (ProjectID p) sub ∧
    grants (IsPublic p) roles sub action.

(** The users the evaluator of a local user builds for a project. *)
Definition local_users (user : option User) (projectID : Z) : list RBACUser :=
  match ctl_Get projectID with
  | None => []
  | Some p =>
      match roles_in user (ProjectID p) with
      | None => []
      | Some roles => [rbacUser p (display_name user) roles []]
      end
  end.

Lemma factory_ForUser user c projectID :
  factory (mkPE [ForUser user] c) projectID = (local_users user projectID, [ForUser user]).
Proof.
  unfold factory, local_users. destruct (ctl_Get projectID) as [p|]; [|done]. simpl.
  destruct user as [u|]; [|done]. simpl. by destruct (ctl_ListRoles (ProjectID p) u).
Qed.

(** The cache holds what the factory would build. *)
Definition cache_ok (user : option User) (e : ProjectEvaluator) : Prop :=
  builders e = [ForUser user] ∧ map_Forall (λ k us, us = local_users user k.2) (cache e).

Lemma project_HasPermission_user user e q : cache_ok user e →
  fst (project_HasPermission e q) =
    match NamespaceFromResource (q_resource q) with
    | Some (ProjectNS projectID) => any_HasPermission (local_users user projectID) (q_resource q) (q_action q)
    | _ => Done false
    end ∧ cache_ok user (snd (project_HasPermission e q)).
Proof.
  intros [Hb Hc]. unfold project_HasPermission.
  destruct (NamespaceFromResource (q_resource q)) as [[projectID|]|]; [|done|done].
  destruct (cache e !! (q_ctx q, projectID)) as [us|] eqn:E.
  - by rewrite (Hc _ _ E).
  - destruct e as [bs c]. simpl in *. subst bs. rewrite factory_ForUser. split; [done|]. split; [done|].
    apply map_Forall_insert_2; done.
Qed.

Lemma NamespaceFromResource_nonempty resource ns : NamespaceFromResource resource = Some ns → resource ≠ EmptyString.
Proof. by intros H ->. Qed.

Lemma local_users_spec user projectID resource action :
  token (display_name user) → display_name user ≠ EmptyString →
  NamespaceFromResource resource = Some (ProjectNS projectID) →
  ∃ b, any_HasPermission (local_users user projectID) resource action = Done b ∧
    (b = true ↔ project_grants user resource action).
Proof.
  intros Ht Hn Hns. unfold local_users.
  assert (Hno : (∀ p roles, ctl_Get projectID = Some p → roles_in user (ProjectID p) = Some roles → False) →
     ∃ b, Done false = Done b ∧ (b = true ↔ project_grants user resource action)).
  { intros H. exists false. split; [done|]. split; [done|].
    intros (pid' & p & roles & sub & Hns' & Hg & Hr & _). rewrite Hns in Hns'. injection Hns' as <-. by destruct (H p roles). }
  destruct (ctl_Get projectID) as [p|] eqn:Eg; [|apply Hno; naive_solver].
  destruct (roles_in user (ProjectID p)) as [roles|] eqn:Er; [|apply Hno; naive_solver].
  destruct (rbacUser_spec p (display_name user) roles resource action) as (b & Hb & Hspec); [done|done| |].
  { by eapply NamespaceFromResource_nonempty. }
  exists b. cbn [any_HasPermission]. rewrite Hb. split; [by destruct b|]. rewrite Hspec. split.
  - intros (sub & Hs & Hgr). exists projectID, p, roles, sub. done.
  - intros (pid' & p' & roles' & sub & Hns' & Hg & Hr & Hs & Hgr). rewrite Hns in Hns'. injection Hns' as <-.
    rewrite Eg in Hg. injection Hg as <-. rewrite Er in Hr. injection Hr as <-. eauto.
Qed.

Lemma project_evaluator_user user e q : cache_ok user e →
  token (display_name user) → display_name user ≠ EmptyString →
  ∃ b, fst (project_HasPermission e q) = Done b ∧ (b = true ↔ project_grants user (q_resource q) (q_action q)).
Proof.
  intros He Ht Hn. destruct (project_HasPermission_user user e q He) as [-> _].
  destruct (NamespaceFromResource (q_resource q)) as [[projectID|]|] eqn:E; [by apply local_users_spec| |];
    exists false; (split; [done|]; split; [done|]; intros (pid & ? & ? & ? & Hns & _); congruence).
Qed.

Definition admin_part (user : option User) : list Evaluator :=
  if is_admin user then [AdminEvaluator (match user with None => EmptyString | Some u => Username u end)] else [].

(** The state of a local context between questions. *)
Definition local_ok (user : option User) (s : LocalContext) : Prop :=
  l_user s = user ∧ ∃ e, cache_ok user e ∧
    default (local_evaluators s) (l_evaluator s) = admin_part user ++ [ProjectEvaluatorOf e].

Lemma local_New_ok user : local_ok user (local_New user).
Proof.
  split; [done|]. exists (mkPE [ForUser user] ∅). split; [split; [done|apply map_Forall_empty]|done].
Qed.

Lemma evaluators_admin n l q :
  evaluators_HasPermission ([AdminEvaluator n] ++ l) q =
    if negb (bool_decide (q_action q = ActionScannerPull)) then (Done true, [AdminEvaluator n] ++ l)
    else let '(r, l) := evaluators_HasPermission l q in (r, [AdminEvaluator n] ++ l).
Proof. simpl. by destruct (negb _). Qed.

Lemma evaluators_user user e q : cache_ok user e →
  ∃ e', cache_ok user e' ∧
    evaluators_HasPermission (admin_part user ++ [ProjectEvaluatorOf e]) q =
      (if is_admin user && negb (bool_decide (q_action q = ActionScannerPull)) then Done true
       else fst (project_HasPermission e q), admin_part user ++ [ProjectEvaluatorOf e']).
Proof.
  intros He. destruct (project_HasPermission_user user e q He) as [_ He'].
  assert (Hp : evaluators_HasPermission [ProjectEvaluatorOf e] q =
    (fst (project_HasPermission e q), [ProjectEvaluatorOf (snd (project_HasPermission e q))])).
  { simpl. destruct (project_HasPermission e q) as [r e1]. by destruct r as [[]| |]. }
  unfold admin_part. destruct (is_admin user); [|eexists; split; [exact He'|done]].
  rewrite evaluators_admin, Hp. cbn [andb]. destruct (negb _); eexists; (split; [|reflexivity]); done.
Qed.

Lemma local_Can_ok user s q : local_ok user s → local_ok user (snd (Can s q)).
Proof.
  intros (Hu & e & He & Hl). unfold Can, local_Can. rewrite Hl.
  destruct (evaluators_user user e q He) as (e' & He' & ->). split; [done|]. exists e'. done.
Qed.

(** C32 (refinement). What a local user may do.  Whatever was asked of the same
    context before, and in whichever requests, a question is answered yes exactly
    when the user is a system administrator and the action is not the scanner's
    pull, or when the resource lies below an existing project whose visibility
    or the user's roles there allow the action: nothing is granted outside the
    tables, across projects, or when the project or the roles cannot be read.
    The name of the user is not empty, has no comma and neither starts nor ends
    with a space ([token]): casbin splits the lines of its policy at commas, and
    [comma_in_name] shows the answers for a name with one. *)
Theorem local_Can_spec user qs q :
  token (display_name user) → display_name user ≠ EmptyString →
  ∃ b, answer (after (local_New user) qs) q = Done b ∧
    (b = true ↔ is_admin user = true ∧ q_action q ≠ ActionScannerPull ∨
                project_grants user (q_resource q) (q_action q)).
Proof.
  intros Ht Hn.
  assert (Hok : local_ok user (after (local_New user) qs)).
  { apply (after_invariant (local_ok user) (λ _, True)); [intros; by apply local_Can_ok|apply local_New_ok|].
    by apply Forall_true. }
  revert Hok. generalize (after (local_New user) qs). intros s (Hu & e & He & Hl).
  unfold answer, Can, local_Can. rewrite Hl.
  destruct (evaluators_user user e q He) as (e' & _ & ->). cbn [fst].
  destruct (project_evaluator_user user e q He Ht Hn) as (b & Hb & Hspec). rewrite Hb.
  exists ((is_admin user && negb (bool_decide (q_action q = ActionScannerPull))) || b).
  split; [by destruct (_ && _)|]. rewrite orb_true_iff, andb_true_iff, negb_true_iff, bool_decide_eq_false. tauto.
Qed.

(** ** Robots of a project *)

Lemma elem_filterRobotPolicies p ps x :
  x ∈ filterRobotPolicies p ps ↔
    ∃ a, a ∈ ps ∧ ResourceAllowedInNamespace (Resource a) (ProjectNS (ProjectID p)) = true ∧
      (x = a ∨ Action a = ActionPush ∧ x = policy (Resource a) ActionPull).
Proof.
  unfold filterRobotPolicies. rewrite list_elem_of_In, in_flat_map. split.
  - intros (a & Ha & Hx). apply list_elem_of_In in Ha. exists a. split; [done|].
    destruct (ResourceAllowedInNamespace _ _); [|done]. split; [done|].
    destruct Hx as [->|Hx]; [by left|]. case_bool_decide; [|done]. destruct Hx as [<-|[]]. by right.
  - intros (a & Ha & Hns & Hx). exists a. split; [by apply list_elem_of_In|]. rewrite Hns.
    destruct Hx as [->|[Hp ->]]; [by left|]. rewrite bool_decide_true by done. right. by left.
Qed.

(** Filtering again neither adds nor drops a policy. *)
Lemma filterRobotPolicies_idem p ps x :
  x ∈ filterRobotPolicies p (filterRobotPolicies p ps) ↔ x ∈ filterRobotPolicies p ps.
Proof.
  rewrite elem_filterRobotPolicies. setoid_rewrite elem_filterRobotPolicies. split.
  - intros (a & (b & Hb & Hbn & Hab) & Han & Hx). exists b. split_and!; [done|done|].
    destruct Hab as [->|[Hp ->]]; [done|]. destruct Hx as [->|[Hp' _]]; [by right|]. done.
  - intros (a & Ha & Hn & Hx). exists a. split_and!; [|done|done]. exists a. auto.
Qed.

Lemma allowed_ext ps ps' resource action : (∀ x, x ∈ ps ↔ x ∈ ps') → allowed ps resource action = allowed ps' resource action.
Proof.
  intros H.
  assert (He : ∀ f : Policy → bool, existsb f ps = existsb f ps').
  { intros f. apply eq_bool_prop_intro. rewrite !Is_true_true, !existsb_exists.
    setoid_rewrite <- list_elem_of_In. naive_solver. }
  unfold allowed. by rewrite !He.
Qed.

Lemma good_policy_pull a : good_policy a → good_policy (policy (Resource a) ActionPull).
Proof. intros (H1 & _ & _ & H4). split_and!; [done|by apply token_visible|by apply token_visible|done]. Qed.

Lemma filterRobotPolicies_good p ps : Forall good_policy ps → Forall good_policy (filterRobotPolicies p ps).
Proof.
  rewrite !Forall_forall. intros H x (a & Ha & _ & [->|[_ ->]])%elem_filterRobotPolicies; [by apply H|].
  by apply good_policy_pull, H.
Qed.

Lemma public_good projectID : Forall good_policy (getPoliciesForPublicProject projectID).
Proof.
  apply Forall_forall. intros x Hx. apply list_elem_of_fmap in Hx as (q & -> & Hq). by apply in_project_good, public_table.
Qed.

Definition visible_policies (p : Project) : list Policy :=
  if IsPublic p then getPoliciesForPublicProject (ProjectID p) else [].

Lemma visible_good p : Forall good_policy (visible_policies p).
Proof. unfold visible_policies. destruct (IsPublic p); [apply public_good|constructor]. Qed.

(** An access of the robot in the project. *)
Definition own_access (r : Robot) (p : Project) (a : Policy) : Prop :=
  a ∈ accesses r ∧ ResourceAllowedInNamespace (Resource a) (ProjectNS (ProjectID p)) = true.

(** What the accesses of a robot in its project grant: no access denies, and one
    allows, or a push access covers a pull, or the project is public. *)
Definition robot_grants (r : Robot) (p : Project) (resource action : string) : Prop :=
  NamespaceFromResource resource = Some (ProjectNS (ProjectID p)) ∧
  (∀ a, own_access r p a → GetEffect a = EffectDeny → applies a resource action = false) ∧
  ((∃ a, own_access r p a ∧ GetEffect a = EffectAllow ∧ applies a resource action = true) ∨
   (∃ a, own_access r p a ∧ Action a = ActionPush ∧ action = ActionPull ∧ applies a resource ActionPush = true) ∨
   (IsPublic p = true ∧ ∃ sub, resource = below (ProjectID p) sub ∧ policy sub action ∈ publicProjectPolicies)).

Lemma allowed_true ps resource action : allowed ps resource action = true ↔
  (∃ x, x ∈ ps ∧ GetEffect x = EffectAllow ∧ applies x resource action = true) ∧
  (∀ x, x ∈ ps → GetEffect x = EffectDeny → applies x resource action = false).
Proof.
  unfold allowed. rewrite andb_true_iff, negb_true_iff, existsb_exists.
  rewrite <- not_true_iff_false, existsb_exists.
  setoid_rewrite <- list_elem_of_In. setoid_rewrite andb_true_iff. setoid_rewrite bool_decide_eq_true.
  split; intros [H1 H2]; (split; [naive_solver|]).
  - intros x Hx Hd. apply not_true_iff_false. naive_solver.
  - intros (x & Hx & Ha & Hd). by rewrite (H2 x Hx Hd) in Ha.
Qed.

Lemma applies_pull a resource action :
  applies (policy (Resource a) ActionPull) resource action = true ↔
  action = ActionPull ∧ (Action a = ActionPush → applies a resource ActionPush = true) ∧
    (∃ e, keyMatch2Build (Resource a) = Some e ∧ pmatch e resource = true).
Proof.
  unfold applies. simpl. destruct (keyMatch2Build (Resource a)) as [e|]; [|naive_solver].
  rewrite !andb_true_iff, !orb_true_iff, !bool_decide_eq_true. split.
  - intros [He [->|?]]; [|done]. split_and!; eauto.
  - intros (-> & _ & e' & [= <-] & He). auto.
Qed.

Lemma visible_deny p x : x ∈ visible_policies p → GetEffect x = EffectAllow.
Proof.
  unfold visible_policies. destruct (IsPublic p); [|by intros ?%not_elem_of_nil].
  intros (q & -> & Hq)%list_elem_of_fmap. by rewrite in_project_table by (by apply public_table).
Qed.

Lemma visible_spec p resource action :
  (∃ x, x ∈ visible_policies p ∧ applies x resource action = true) ↔
  IsPublic p = true ∧ ∃ sub, resource = below (ProjectID p) sub ∧ policy sub action ∈ publicProjectPolicies.
Proof.
  unfold visible_policies. destruct (IsPublic p).
  2:{ split; [|naive_solver]. intros (x & Hx & _). by apply not_elem_of_nil in Hx. }
  rewrite <- (allowed_tables (ProjectID p) publicProjectPolicies), allowed_true.
  2:{ apply Forall_forall. apply public_table. }
  assert (Ha : ∀ x, x ∈ map (in_project (ProjectID p)) publicProjectPolicies → GetEffect x = EffectAllow).
  { intros x (q & -> & Hq)%list_elem_of_fmap. by rewrite in_project_table by (by apply public_table). }
  unfold getPoliciesForPublicProject. split.
  - intros (x & Hx & H). split; [done|]. split; [by eauto|]. intros y Hy Hd. by rewrite (Ha y Hy) in Hd.
  - intros (_ & (x & Hx & _ & H) & _). eauto.
Qed.

Lemma robot_allowed_spec r p resource action :
  NamespaceFromResource resource = Some (ProjectNS (ProjectID p)) →
  allowed (filterRobotPolicies p (accesses r) ++ visible_policies p) resource action = true ↔
  robot_grants r p resource action.
Proof.
  intros Hns. rewrite allowed_true. unfold robot_grants, own_access. rewrite <- visible_spec. split.
  - intros [(x & Hx & He & Ha) Hd]. split; [done|]. split.
    { intros a [Hin Hn] Hde. apply Hd; [|done]. apply elem_of_app. left. apply elem_filterRobotPolicies. eauto. }
    apply elem_of_app in Hx as [Hx|Hx]; [|by eauto].
    apply elem_filterRobotPolicies in Hx as (a & Hin & Hn & [->|[Hp ->]]); [by left; eauto|].
    apply applies_pull in Ha as (-> & Hap & _). right. left. exists a. auto.
  - intros (_ & Hd & Hc). split.
    + destruct Hc as [(a & [Hin Hn] & He & Ha)|[(a & [Hin Hn] & Hp & -> & Ha)|(x & Hx & Ha)]].
      * exists a. split; [|done]. apply elem_of_app. left. apply elem_filterRobotPolicies. eauto.
      * exists (policy (Resource a) ActionPull). split; [|split; [done|]].
        -- apply elem_of_app. left. apply elem_filterRobotPolicies. eauto 10.
        -- apply applies_pull. split; [done|]. split; [done|]. unfold applies in Ha.
           destruct (keyMatch2Build (Resource a)) as [e|]; [|done]. apply andb_true_iff in Ha as [Ha _]. eauto.
      * exists x. split; [|split; [by eapply visible_deny|done]]. apply elem_of_app. by right.
    + intros x Hx He. apply elem_of_app in Hx as [Hx|Hx].
      * apply elem_filterRobotPolicies in Hx as (a & Hin & Hn & [->|[Hp ->]]); [by apply Hd|done].
      * apply visible_deny in Hx. by rewrite Hx in He.
Qed.

Section own_project.
Context (r : Robot) (projectID : Z) (p : Project).
Context (Hlevel : Level r ≠ LEVELSYSTEM) (Hget : ctl_Get projectID = Some p) (Hid : ProjectID p = projectID).
Context (Hname : token (r_Name r)) (Hname' : r_Name r ≠ EmptyString) (Hgood : Forall good_policy (accesses r)).

(** Questions about the robot's project, or about none that exists. *)
Definition about_own (q : Question) : Prop :=
  ∀ pid, NamespaceFromResource (q_resource q) = Some (ProjectNS pid) → pid = projectID ∨ ctl_Get pid = None.

(** Policies that filtering turns into what it makes of the robot's own. *)
Definition equivalent (ps : list Policy) : Prop :=
  Forall good_policy ps ∧ ∀ x, x ∈ filterRobotPolicies p ps ↔ x ∈ filterRobotPolicies p (accesses r).

Definition own_users (us : list RBACUser) : Prop :=
  ∃ ps, us = [rbacUser p (r_Name r) [] (filterRobotPolicies p ps)] ∧ equivalent ps.

Definition robot_evaluator_ok (e : ProjectEvaluator) : Prop :=
  (∃ ps, builders e = [ForPolicies (r_Name r) ps [filterRobotPolicies]] ∧ equivalent ps) ∧
  map_Forall (λ k us, (k.2 = projectID → own_users us) ∧ (ctl_Get k.2 = None → us = [])) (cache e).

Lemma equivalent_filter ps : equivalent ps → equivalent (filterRobotPolicies p ps).
Proof.
  intros [Hg He]. split; [by apply filterRobotPolicies_good|]. intros x. by rewrite filterRobotPolicies_idem.
Qed.

Lemma own_users_allowed us resource action : own_users us → resource ≠ EmptyString →
  any_HasPermission us resource action
    = Done (allowed (filterRobotPolicies p (accesses r) ++ visible_policies p) resource action).
Proof.
  intros (ps & -> & Hg & He) Hr. cbn [any_HasPermission].
  rewrite HasPermission_spec; [|done|done| |constructor|done].
  - unfold all_policies. cbn [rbacUser GetPolicies GetRoles map flat_map]. rewrite app_nil_r.
    fold (visible_policies p).
    rewrite (allowed_ext _ (filterRobotPolicies p (accesses r) ++ visible_policies p)); [by destruct (allowed _ _ _)|].
    intros x. rewrite !elem_of_app, He. done.
  - cbn [rbacUser GetPolicies]. apply Forall_app. split; [by apply filterRobotPolicies_good|apply visible_good].
Qed.

Lemma robot_project_HasPermission e q : robot_evaluator_ok e → about_own q →
  fst (project_HasPermission e q) =
    match NamespaceFromResource (q_resource q) with
    | Some (ProjectNS pid) =>
        if bool_decide (pid = projectID)
        then Done (allowed (filterRobotPolicies p (accesses r) ++ visible_policies p) (q_resource q) (q_action q))
        else Done false
    | _ => Done false
    end ∧ robot_evaluator_ok (snd (project_HasPermission e q)).
Proof.
  intros [(ps & Hb & He) Hc] Hq. unfold project_HasPermission, about_own in *.
  destruct (NamespaceFromResource (q_resource q)) as [[pid|]|] eqn:Ens.
  2,3: split; [done|]; split; [by exists ps|done].
  specialize (Hq pid eq_refl). pose proof (NamespaceFromResource_nonempty _ _ Ens) as Hne.
  destruct (cache e !! (q_ctx q, pid)) as [us|] eqn:E.
  - destruct (Hc _ _ E) as [H1 H2]. simpl in H1, H2. split; [|split; [by exists ps|done]]. cbn [fst].
    case_bool_decide as Hp; [by apply own_users_allowed; auto|]. destruct Hq as [->|Hq]; [done|].
    by rewrite H2.
  - unfold factory. case_bool_decide as Hp.
    + subst pid. rewrite Hget, Hb. cbn [build_all build foldl fst snd].
      assert (Hown : own_users [rbacUser p (r_Name r) [] (filterRobotPolicies p ps)]) by (by exists ps).
      split; [by apply own_users_allowed|]. split.
      * exists (filterRobotPolicies p ps). split; [done|]. by apply equivalent_filter.
      * simpl. apply map_Forall_insert_2; [|done]. simpl. split; [done|]. congruence.
    + destruct Hq as [->|Hq]; [done|]. rewrite Hq. split; [done|]. split; [by exists ps|]. simpl.
      apply map_Forall_insert_2; [|done]. done.
Qed.

Definition robot_ok (s : RobotContext) : Prop :=
  robot s = Some r ∧ ∃ e, robot_evaluator_ok e ∧
    default (robot_evaluators r) (r_evaluator s) = [ProjectEvaluatorOf e].

Lemma robot_New_ok : robot_ok (robot_New (Some r)).
Proof.
  split; [done|]. exists (mkPE [ForPolicies (r_Name r) (accesses r) [filterRobotPolicies]] ∅). split.
  - split; [|apply map_Forall_empty]. exists (accesses r). done.
  - simpl. unfold robot_evaluators. by rewrite bool_decide_false.
Qed.

Lemma single_evaluator e q :
  evaluators_HasPermission [ProjectEvaluatorOf e] q
    = (fst (project_HasPermission e q), [ProjectEvaluatorOf (snd (project_HasPermission e q))]).
Proof. simpl. destruct (project_HasPermission e q) as [x e1]. by destruct x as [[]| |]. Qed.

Lemma robot_Can_step s q : robot_ok s → about_own q →
  robot_ok (snd (Can s q)) ∧ ∃ e, robot_evaluator_ok e ∧ fst (Can s q) = fst (project_HasPermission e q).
Proof.
  intros (Hr & e & He & Hl) Hq. unfold Can, robot_Can. rewrite Hr, Hl, single_evaluator. cbn [fst snd].
  destruct (robot_project_HasPermission e q He Hq) as [_ He']. split; [|by exists e].
  split; [done|]. eexists. split; [exact He'|done].
Qed.

(** Further property (functional). What a project-level robot may do, as long as the context is
    only asked about its project (or about projects that do not exist): a question
    is answered yes exactly when the resource is in the project and its accesses
    there, or the visibility of the project, grant it; asking again, in the same
    or another request, changes nothing. *)
Theorem robot_Can_spec qs q : Forall about_own qs → about_own q →
  ∃ b, answer (after (robot_New (Some r)) qs) q = Done b ∧
    (b = true ↔ robot_grants r p (q_resource q) (q_action q)).
Proof.
  intros Hqs Hq. assert (Hok : robot_ok (after (robot_New (Some r)) qs)).
  { apply (after_invariant robot_ok about_own); [intros; by apply robot_Can_step|apply robot_New_ok|done]. }
  destruct (robot_Can_step _ q Hok Hq) as (_ & e & He & Ha). unfold answer. rewrite Ha.
  destruct (robot_project_HasPermission e q He Hq) as [-> _].
  destruct (NamespaceFromResource (q_resource q)) as [[pid|]|] eqn:Ens.
  2,3: exists false; split; [done|]; split; [done|]; intros (H & _); congruence.
  case_bool_decide as Hp.
  - subst pid. eexists. split; [done|]. apply robot_allowed_spec. by rewrite Hid.
  - exists false. split; [done|]. split; [done|]. intros (H & _). congruence.
Qed.

End own_project.

(** Further property (safety). A system-level robot with a system permission is refused
    everything in projects, whatever project permissions it holds beside it: the
    two evaluators are built in the branches of one conditional. *)
Theorem system_robot_refused_in_projects r qs q projectID :
  Level r = LEVELSYSTEM → (∃ a, a ∈ accesses r ∧ HasPrefix (Resource a) SCOPESYSTEM = true) →
  NamespaceFromResource (q_resource q) = Some (ProjectNS projectID) →
  answer (after (robot_New (Some r)) qs) q = Done false.
Proof.
  intros Hl (a & Ha & Hs) Hns. set (P := λ s, robot s = Some r ∧ ∃ ps,
    default (robot_evaluators r) (r_evaluator s) = [SystemEvaluator (r_Name r) ps]).
  assert (H1 : ∀ ps q, ∃ x, evaluators_HasPermission [SystemEvaluator (r_Name r) ps] q = (x, [SystemEvaluator (r_Name r) ps])
     ∧ x = system_HasPermission (r_Name r) ps q).
  { intros ps q'. exists (system_HasPermission (r_Name r) ps q'). split; [|done]. simpl.
    by destruct (system_HasPermission _ _ _) as [[]| |]. }
  assert (Hok : P (after (robot_New (Some r)) qs)).
  { apply (after_invariant P (λ _, True)); [|split; [done|]|by apply Forall_true].
    - intros s q' (Hr & ps & Hps) _. unfold Can, robot_Can. rewrite Hr, Hps.
      destruct (H1 ps q') as (x & -> & _). split; [done|]. by exists ps.
    - simpl. unfold robot_evaluators. rewrite bool_decide_true by done. rewrite bool_decide_false; [by eexists|].
      intros Hlen. apply nil_length_inv in Hlen.
      assert (Hin : In a (List.filter (λ p, HasPrefix (Resource p) SCOPESYSTEM) (accesses r)))
        by (apply List.filter_In; by rewrite <- list_elem_of_In).
      by rewrite Hlen in Hin. }
  revert Hok. generalize (after (robot_New (Some r)) qs). intros s (Hr & ps & Hps).
  unfold answer, Can, robot_Can. rewrite Hr, Hps. destruct (H1 ps q) as (x & -> & ->).
  unfold system_HasPermission. by rewrite Hns.
Qed.

(** ** Registry tokens *)

(** The last repository access of the token in the project decides. *)
Definition last_access (access : list ResourceActions) (project : string) : option ResourceActions :=
  last (filter (λ ac, ra_Type ac = "repository"%string ∧ head (Split (ra_Name ac) "/"%char) = Some project) access).

Lemma token_New_lookup name access project :
  accessMap (token_New name access) !! project = (λ ac, ⋃ map action_set (ra_Actions ac)) <$> last_access access project.
Proof.
  unfold token_New, last_access. simpl. induction access as [|ac access IH] using rev_ind; [done|].
  rewrite foldl_app, filter_app. cbn [foldl]. rewrite filter_cons, filter_nil.
  destruct (Split (ra_Name ac) "/"%char) as [|l0 l] eqn:Es; [by apply Split_nonempty in Es|].
  cbn [head]. case_bool_decide as Ht.
  - rewrite decide_False by naive_solver. by rewrite app_nil_r.
  - destruct (decide (l0 = project)) as [->|Hne].
    + rewrite lookup_insert_eq, decide_True by done. by rewrite last_snoc.
    + rewrite lookup_insert_ne by done. rewrite decide_False by naive_solver. by rewrite app_nil_r.
Qed.

(** Further property (functional). What a registry token allows: the action must be among
    those of the last repository access of the token in the resource's project
    (earlier ones of the same project, for whichever repository, are forgotten),
    the resource must name repositories, and the project must exist. *)
Theorem token_Can_spec name access qs q :
  answer (after (token_New name access) qs) q = Done true ↔
  HasSuffix (q_resource q) ResourceRepository = true ∧
  ∃ pid p ac, project_NamespaceParse (q_resource q) = Some (ProjectNS pid) ∧ ctl_Get pid = Some p ∧
    last_access access (Name p) = Some ac ∧ ∃ a, a ∈ ra_Actions ac ∧ q_action q ∈ action_set a.
Proof.
  assert (Hs : after (token_New name access) qs = token_New name access).
  { generalize (token_New name access). induction qs as [|q' qs IH]; intros t; [done|]. apply IH. }
  rewrite Hs. unfold answer, Can, token_Can. cbn [fst].
  destruct (HasSuffix _ _); simpl; [|naive_solver].
  destruct (project_NamespaceParse (q_resource q)) as [[pid|]|]; [|naive_solver|naive_solver].
  destruct (ctl_Get pid) as [p|] eqn:Eg; [|naive_solver].
  change (foldl _ ∅ access) with (accessMap (token_New name access)). rewrite token_New_lookup.
  destruct (last_access access (Name p)) as [ac|] eqn:El; cbn [fmap option_fmap option_map].
  2:{ split; [done|]. intros (_ & pid' & p' & ac & [= <-] & Hg & Hl & _). congruence. }
  assert (Hact : q_action q ∈ ⋃ map action_set (ra_Actions ac) ↔ ∃ a, a ∈ ra_Actions ac ∧ q_action q ∈ action_set a).
  { rewrite elem_of_union_list. setoid_rewrite list_elem_of_fmap. naive_solver. }
  split.
  - intros [= H]. apply bool_decide_eq_true, Hact in H. eauto 10.
  - intros (_ & pid' & p' & ac' & [= <-] & Hg & Hl & H). rewrite Eg in Hg. injection Hg as <-.
    rewrite El in Hl. injection Hl as <-. f_equal. by apply bool_decide_eq_true, Hact.
Qed.

End controller.

(** ** Examples *)

Definition ex_projects (pid : Z) : option Project :=
  if pid =? 1 then Some (mkProject 1 "library" ∅)
  else if pid =? 2 then Some (mkProject 2 "shared" {[ "public" := "true" ]}%string)
  else None.

Definition ex_roles (pid : Z) (u : User) : option (list Z) :=
  if (pid =? 1) && (UserID u =? 7) then Some [RoleDeveloper] else Some [].

Definition ex_user : User := mkUser 7 "alice" false false.

Definition ask_push : Question := mkQ 100 ActionPush "/project/1/repository".
Definition ask_member : Question := mkQ 100 ActionCreate "/project/1/member".

Lemma alice_token : token "alice".
Proof. by apply token_visible. Qed.

Lemma local_Can_spec_witness :
  ∃ b, @answer _ (local_Can ex_projects ex_roles)
      (@after _ (local_Can ex_projects ex_roles) (local_New (Some ex_user)) [ask_member]) ask_push = Done b ∧ b = true.
Proof.
  destruct (local_Can_spec ex_projects ex_roles (Some ex_user) [ask_member] ask_push alice_token)
    as (b & Hb & Hs); [done|].
  exists b. split; [exact Hb|]. apply Hs. right.
  exists 1, (mkProject 1 "library" ∅), [RoleDeveloper], ResourceRepository.
  split_and!; try reflexivity. right. exists RoleDeveloper. split; [left|].
  apply (bool_decide_unpack _). vm_compute. exact I.
Defined.

(** A developer whose name has a comma may not push to the project, and asking to
    pull from a public project panics. *)
Example comma_in_name :
  let ask name q := @answer _ (local_Can ex_projects ex_roles) (local_New (Some (mkUser 7 name false false))) q in
  ask "alice"%string ask_push = Done true ∧ ask "a,b"%string ask_push = Done false ∧
  ask "alice"%string (mkQ 100 ActionPull "/project/2/repository") = Done true ∧
  ask "a,b"%string (mkQ 100 ActionPull "/project/2/repository") = Panics.
Proof. split_and!; vm_compute; reflexivity. Qed.

(** A robot of project 1, and one of the same name with accesses in two projects. *)
Definition ex_robot : Robot :=
  mkRobot "robot$library+ci" "project" [mkPermission "/project/1" [policy ResourceRepository ActionPush]].

Lemma ex_robot_good : Forall good_policy (accesses ex_robot).
Proof.
  constructor; [|constructor].
  split_and!; [by apply token_visible|by apply token_visible|by apply token_visible|by eexists].
Qed.

Lemma robot_Can_spec_witness :
  ∃ b, @answer _ (robot_Can ex_projects ex_roles)
      (@after _ (robot_Can ex_projects ex_roles) (robot_New (Some ex_robot)) [ask_push]) (mkQ 101 ActionPull "/project/1/repository")
      = Done b ∧ b = true.
Proof.
  destruct (robot_Can_spec ex_projects ex_roles ex_robot 1 (mkProject 1 "library" ∅) ltac:(done) eq_refl eq_refl
    ltac:(by apply token_visible) ltac:(done) ex_robot_good [ask_push] (mkQ 101 ActionPull "/project/1/repository"))
    as (b & Hb & Hs).
  - apply Forall_singleton. intros pid H. vm_compute in H. injection H as <-. by left.
  - intros pid H. vm_compute in H. injection H as <-. by left.
  - exists b. split; [exact Hb|]. apply Hs. split; [reflexivity|]. split.
    + intros a [Ha _] Hd. apply list_elem_of_singleton in Ha as ->. discriminate Hd.
    + right. left. exists (mkPolicy "/project/1/repository" ActionPush EmptyString).
      split_and!; [split; [left|reflexivity]|reflexivity|reflexivity|vm_compute; reflexivity].
Defined.

Definition ex_system_robot : Robot :=
  mkRobot "robot$backup" "system"
    [mkPermission "/system" [policy ResourceCatalog ActionRead]; mkPermission "/project/1" [policy ResourceRepository ActionPull]].

Lemma system_robot_refused_in_projects_witness :
  @answer _ (robot_Can ex_projects ex_roles) (@after _ (robot_Can ex_projects ex_roles) (robot_New (Some ex_system_robot)) [])
    (mkQ 100 ActionPull "/project/1/repository") = Done false.
Proof.
  apply (system_robot_refused_in_projects ex_projects ex_roles ex_system_robot [] _ 1); [reflexivity| |reflexivity].
  eexists. split; [left|reflexivity].
Defined.

(** Further property (safety). The policies captured by a robot's evaluator are overwritten by
    the filtered ones, so one question about another existing project makes a
    project-level robot lose the permissions it has: the same question is answered
    yes or no depending on what the context was asked before. *)
Theorem robot_loses_permissions :
  let can := robot_Can ex_projects ex_roles in
  @answer _ can (robot_New (Some ex_robot)) ask_push = Done true ∧
  @answer _ can (@after _ can (robot_New (Some ex_robot)) [mkQ 101 ActionPull "/project/2/repository"]) ask_push = Done false.
Proof. vm_compute. split; reflexivity. Qed.
