(* ===== verification/Retention.v ===== *)
(** * Tag retention: [src/lib/selector], [src/pkg/retention/policy],
    [src/pkg/immutable/match]

    A retention policy has rules; each rule selects candidates and an evaluator
    picks those to retain; the performer deletes the candidates no rule retained
    unless an immutability rule protects them.  The pattern matcher of the
    vendored package doublestar, the sort of the standard library (which is not
    stable), the immutability rules of a project and the deletion through the
    core API are parameters.  The clock is a number of nanoseconds; times of
    candidates are seconds; durations wrap at 64 bits. *)

From S2P Require Import Prelude GoErrors GoStrings Security.
From Stdlib Require Import Ascii.
Open Scope Z_scope.
Local Open Scope harbor_scope.

(** ** [src/lib/selector/candidate.go], [src/lib/selector/result.go] *)

Record Candidate := mkCandidate {
  NamespaceID : Z; Namespace : string; Repository : string; Kind : string;
  Tags : list string; Digest : string; PushedTime : Z; PulledTime : Z; CreationTime : Z;
  Labels : list string; VulnerabilitySeverity : Z; Signatures : gmap string bool;
}.

(** The text that [Hash] encodes in base64; the encoding is injective and the
    hash is only used as a key. *)
Definition Hash (c : Candidate) : string :=
  Kind c +:+ ":" +:+ Namespace c +:+ "/" +:+ Repository c +:+ ":" +:+ Digest c.

Inductive result_error := ImmutableError | DeleteError (e : error).

Record Result := mkResult { Target : Candidate; Error : option result_error }.

(** ** [sort.Slice]: a permutation in which no element is less than an earlier
    one, for orders by a key *)

Class SortSlice := {
  sort_Slice : (Candidate → Candidate → bool) → list Candidate → list Candidate;
  sort_perm less l : sort_Slice less l ≡ₚ l;
  sort_sorted key l : StronglySorted (λ x y, key y <= key x) (sort_Slice (λ x y, key y <? key x) l);
}.

(** ** Selectors *)

Inductive Selector :=
  | DoubleStar (decoration pattern : string) (untagged : bool)
  | LabelSelector (decoration : string) (labels : list string)
  | SeveritySelector (decoration : string) (severity : Z)
  | SignatureSelector (decoration : string) (expected : bool).

Section selectors.
Context (doublestar_Match : string → string → result bool).

(** [src/lib/selector/selectors/doublestar/selector.go] *)
Definition match_ (pattern str : string) : result bool :=
  if bool_decide (pattern = EmptyString) then Ok true else doublestar_Match pattern str.

Fixpoint tag_loop (pattern : string) (want : bool) (tags : list string) : result bool :=
  match tags with
  | [] => Ok false
  | t :: tags =>
      match match_ pattern t with
      | Err e => Err e
      | Ok matched => if Bool.eqb matched want then Ok true else tag_loop pattern want tags
      end
  end.

Definition tagSelectMatch (pattern : string) (untagged : bool) (c : Candidate) : result bool :=
  match Tags c with [] => Ok untagged | tags => tag_loop pattern true tags end.

Definition tagSelectExclude (pattern : string) (untagged : bool) (c : Candidate) : result bool :=
  match Tags c with [] => Ok (negb untagged) | tags => tag_loop pattern false tags end.

(** An empty value selects nothing. *)
Definition value_select (pattern value : string) (excludes : bool) : result bool :=
  if bool_decide (value = EmptyString) then Ok false
  else
    match match_ pattern value with
    | Err e => Err e
    | Ok matched => Ok ((matched && negb excludes) || (negb matched && excludes))
    end.

Definition doublestar_one (decoration pattern : string) (untagged : bool) (c : Candidate) : result bool :=
  if (decoration == "matches") then tagSelectMatch pattern untagged c
  else if (decoration == "excludes") then tagSelectExclude pattern untagged c
  else if (decoration == "repoMatches") then value_select pattern (Repository c) false
  else if (decoration == "repoExcludes") then value_select pattern (Repository c) true
  else if (decoration == "nsMatches") then value_select pattern (Namespace c) false
  else if (decoration == "nsExcludes") then value_select pattern (Namespace c) true
  else Ok false.

(** [src/lib/selector/selectors/label/selector.go] *)
Definition isMatched (patternLbls resLbls : list string) (decoration : string) : bool :=
  forallb (λ lbl,
    negb ((decoration == "withoutLabels") && bool_decide (lbl ∈ resLbls))
    && negb ((decoration == "withLabels") && negb (bool_decide (lbl ∈ resLbls)))) patternLbls.

(** [src/lib/selector/selectors/severity/selector.go] *)
Definition severity_one (decoration : string) (severity : Z) (c : Candidate) : bool :=
  let s := VulnerabilitySeverity c in
  if (decoration == "gte") then severity <=? s
  else if (decoration == "gt") then severity <? s
  else if (decoration == "equal") then s =? severity
  else if (decoration == "lte") then s <=? severity
  else if (decoration == "lt") then s <? severity
  else false.

(** [src/lib/selector/selectors/signature/selector.go] *)
Fixpoint count_signed (decoration : string) (expected : bool) (signatures : gmap string bool)
    (tags : list string) (matched : nat) : nat :=
  match tags with
  | [] => matched
  | t :: tags =>
      if Bool.eqb (default false (signatures !! t)) expected
      then if (decoration == "any") then S matched
           else count_signed decoration expected signatures tags (S matched)
      else if (decoration == "all") then matched
           else count_signed decoration expected signatures tags matched
  end.

Definition signature_one (decoration : string) (expected : bool) (c : Candidate) : bool :=
  let matched := count_signed decoration expected (Signatures c) (Tags c) 0 in
  ((decoration == "any") && (0 <? matched)%nat)
  || ((decoration == "all") && (matched =? length (Tags c))%nat).

Definition select_one (s : Selector) (c : Candidate) : result bool :=
  match s with
  | DoubleStar decoration pattern untagged => doublestar_one decoration pattern untagged c
  | LabelSelector decoration labels => Ok (isMatched labels (Labels c) decoration)
  | SeveritySelector decoration severity => Ok (severity_one decoration severity c)
  | SignatureSelector decoration expected => Ok (signature_one decoration expected c)
  end.

Fixpoint Select (s : Selector) (artifacts : list Candidate) : result (list Candidate) :=
  match artifacts with
  | [] => Ok []
  | art :: artifacts =>
      match select_one s art with
      | Err e => Err e
      | Ok b =>
          match Select s artifacts with
          | Err e => Err e
          | Ok selected => Ok (if b then art :: selected else selected)
          end
      end
  end.

(** [doublestar.New]; [extras] is the field the extras decode to, if they do. *)
Definition doublestar_New (decoration pattern : string) (extras : option bool) : Selector :=
  DoubleStar decoration pattern (default (negb ((decoration == "excludes"))) extras).

(** [src/lib/selector/selectors/index/index.go]: only doublestar is registered. *)
Definition selector_Get (kind decoration pattern : string) (extras : option bool) : result Selector :=
  if bool_decide (kind = EmptyString) || bool_decide (decoration = EmptyString)
  then Err (New "empty selector kind or decoration")
  else if negb ((kind == "doublestar"))
  then Err (New ("selector " +:+ kind +:+ " is not registered"))
  else if bool_decide (decoration ∈ ["matches"; "excludes"; "repoMatches"; "repoExcludes"; "nsMatches"; "nsExcludes"]%string)
  then Ok (doublestar_New decoration pattern extras)
  else Err (New ("decoration " +:+ decoration +:+ " of selector " +:+ kind +:+ " is not supported")).

(** ** [src/pkg/immutable/match/rule/match.go] *)

Record SelectorMeta := mkSelectorMeta { s_Kind : string; s_Decoration : string; s_Pattern : string; s_Extras : option bool }.

Record ImmutableRule := mkImmutableRule {
  Disabled : bool; ScopeRepository : list SelectorMeta; i_TagSelectors : list SelectorMeta;
}.

Definition meta_select (m : SelectorMeta) (extras : option bool) (cands : list Candidate) : result (list Candidate) :=
  match selector_Get (s_Kind m) (s_Decoration m) (s_Pattern m) extras with
  | Err e => Err e
  | Ok s => Select s cands
  end.

Fixpoint match_rules (rules : list ImmutableRule) (c : Candidate) : result bool :=
  match rules with
  | [] => Ok false
  | r :: rules =>
      if Disabled r then match_rules rules c
      else
        match ScopeRepository r with
        | [] => match_rules rules c
        | repositorySelector :: _ =>
            match meta_select repositorySelector None [c] with
            | Err e => Err e
            | Ok [] => match_rules rules c
            | Ok _ =>
                match i_TagSelectors r with
                | [] => match_rules rules c
                | tagSelector :: _ =>
                    match meta_select tagSelector (Some false) [c] with
                    | Err e => Err e
                    | Ok [] => match_rules rules c
                    | Ok _ => Ok true
                    end
                end
            end
        end
  end.

(** The rules of the project are a parameter. *)
Definition Match (rules : Z → result (list ImmutableRule)) (pid : Z) (c : Candidate) : result bool :=
  match rules pid with Err e => Err e | Ok rs => match_rules rs c end.

End selectors.

(** ** Rules: [src/pkg/retention/policy/rule] *)

Inductive Evaluator :=
  | LatestPushedK (k : Z)
  | LatestPulledN (n : Z)
  | LatestActiveK (k : Z)
  | LastXDays (x : Z)
  | Always
  | NDaysSinceLastPull (n : Z)
  | NDaysSinceLastPush (n : Z).

Definition activeTime (c : Candidate) : Z :=
  if PushedTime c <? PulledTime c then PulledTime c else PushedTime c.

Definition Hour : Z := 3600 * 1000000000.

(** [now.Add(time.Duration(hours) * time.Hour)] *)
Definition add_hours (now hours : Z) : Z := now + wrap64 (wrap64 hours * Hour).

Definition take_k (k : Z) (l : list Candidate) : list Candidate := take (Z.to_nat k) l.

(** The evaluators of the packages [latestps], [latestpl], [latestk], [lastx],
    [always], [dayspl] and [daysps]. *)
Section rules.
Context `{SortSlice} (now : Z).

Definition latestps_Process (k : Z) (artifacts : list Candidate) : list Candidate :=
  take_k k (sort_Slice (λ x y, PushedTime y <? PushedTime x) artifacts).

Definition latestpl_Process (n : Z) (artifacts : list Candidate) : list Candidate :=
  take_k n (sort_Slice (λ x y, PulledTime y <? PulledTime x) artifacts).

Definition latestk_Process (k : Z) (artifacts : list Candidate) : list Candidate :=
  take_k k (sort_Slice (λ x y, activeTime y <? activeTime x) artifacts).

Definition lastx_Process (x : Z) (artifacts : list Candidate) : list Candidate :=
  List.filter (λ a, add_hours now (x * -24) <? PushedTime a * 1000000000) artifacts.

Definition always_Process (artifacts : list Candidate) : list Candidate := artifacts.

Definition dayspl_Process (n : Z) (artifacts : list Candidate) : list Candidate :=
  List.filter (λ a, add_hours now (-1 * 24 * n) / 1000000000 <=? PulledTime a) artifacts.

Definition daysps_Process (n : Z) (artifacts : list Candidate) : list Candidate :=
  List.filter (λ a, add_hours now (-1 * 24 * n) / 1000000000 <=? PushedTime a) artifacts.

Definition Process (e : Evaluator) (artifacts : list Candidate) : list Candidate :=
  match e with
  | LatestPushedK k => latestps_Process k artifacts
  | LatestPulledN n => latestpl_Process n artifacts
  | LatestActiveK k => latestk_Process k artifacts
  | LastXDays x => lastx_Process x artifacts
  | Always => always_Process artifacts
  | NDaysSinceLastPull n => dayspl_Process n artifacts
  | NDaysSinceLastPush n => daysps_Process n artifacts
  end.

End rules.

(** A parameter of a rule: a number ([ParseJSONInt] truncates it) or something
    else. *)
Inductive param := PNum (v : Z) | POther.

Definition nat_param (params : gmap string param) (name : string) (dflt : Z) : Z :=
  match params !! name with
  | Some (PNum v) => if 0 <=? v then v else dflt
  | _ => dflt
  end.

(** The constructors [New] of the rule packages. *)
Definition new_evaluator (templateID : string) (params : gmap string param) : option Evaluator :=
  if (templateID == "latestPushedK") then Some (LatestPushedK (nat_param params templateID 10))
  else if (templateID == "latestPulledN") then Some (LatestPulledN (nat_param params templateID 10))
  else if (templateID == "latestActiveK") then Some (LatestActiveK (nat_param params templateID 10))
  else if (templateID == "lastXDays") then Some (LastXDays (nat_param params templateID 10))
  else if (templateID == "always") then Some Always
  else if (templateID == "nDaysSinceLastPull") then Some (NDaysSinceLastPull (nat_param params templateID 30))
  else if (templateID == "nDaysSinceLastPush") then Some (NDaysSinceLastPush (nat_param params templateID 30))
  else None.

(** [src/pkg/retention/policy/rule/index/index.go]: every template but [always]
    requires the parameter of its own name. *)
Definition required_missing (templateID : string) (params : gmap string param) : bool :=
  negb ((templateID == "always")) && bool_decide (params !! templateID = None).

Definition rule_Get (templateID : string) (params : gmap string param) : result Evaluator :=
  if bool_decide (templateID = EmptyString) then Err (New "empty rule template ID")
  else
    match new_evaluator templateID params with
    | None => Err (New ("rule evaluator " +:+ templateID +:+ " is not registered"))
    | Some e =>
        if required_missing templateID params
        then Err (New ("missing required parameter " +:+ templateID +:+ " for rule " +:+ templateID))
        else Ok e
    end.

(** The validators of the counting and of the days rules; [None] is nil. *)
Definition valid_param (templateID : string) (params : gmap string param) : option string :=
  let bounded (too_large : Z → bool) :=
    match params !! templateID with
    | None => None
    | Some POther => Some (templateID +:+ " type error")
    | Some (PNum v) =>
        if v <? 0 then Some (templateID +:+ " is less than zero")
        else if too_large v then Some (templateID +:+ " is too large")
        else None
    end in
  if bool_decide (templateID ∈ ["latestPushedK"; "latestPulledN"]%string) then bounded (λ v, 32767 <=? v)
  else if bool_decide (templateID ∈ ["nDaysSinceLastPull"; "nDaysSinceLastPush"]%string) then bounded (λ v, 20190904 <? v)
  else None.

Definition rule_Valid (templateID : string) (params : gmap string param) : option string :=
  match rule_Get templateID params with
  | Err e => Some (error_string e)
  | Ok _ => valid_param templateID params
  end.

(** ** The performer: [src/pkg/retention/policy/action/performer.go] *)

(** [utils.ParseRepository], the rest after the project. *)
Definition repository_rest (repository : string) : string :=
  let repository := TrimRight_slash (TrimLeft_slash repository) in
  match Split repository "/"%char with
  | p :: _ :: _ => drop_chars (S (String.length p)) repository
  | _ => repository
  end.

Section performer.
Context (doublestar_Match : string → string → result bool) (rules : Z → result (list ImmutableRule))
  (client_Delete : Candidate → option error).

(** The candidate the performer asks about; an error counts as not immutable. *)
Definition immutable_question (c : Candidate) : Candidate :=
  mkCandidate (NamespaceID c) EmptyString (repository_rest (Repository c)) EmptyString (Tags c) EmptyString
    0 0 0 [] 0 ∅.

Definition isImmutable (c : Candidate) : bool :=
  match Match doublestar_Match rules (NamespaceID c) (immutable_question c) with
  | Ok b => b
  | Err _ => false
  end.

(** The results, and the candidates whose deletion is requested, in order. *)
Fixpoint perform_loop (retained immutable : gset string) (isDryRun : bool) (l : list Candidate)
    : list Result * list Candidate :=
  match l with
  | [] => ([], [])
  | c :: l =>
      let '(results, deleted) := perform_loop retained immutable isDryRun l in
      if bool_decide (Hash c ∈ retained) then (results, deleted)
      else if bool_decide (Hash c ∈ immutable) then (mkResult c (Some ImmutableError) :: results, deleted)
      else if isDryRun then (mkResult c None :: results, deleted)
      else (mkResult c (DeleteError <$> client_Delete c) :: results, c :: deleted)
  end.

Definition Perform (all : list Candidate) (isDryRun : bool) (candidates : list Candidate)
    : list Result * list Candidate :=
  let retained : gset string := list_to_set (map Hash candidates) in
  let immutable : gset string :=
    list_to_set (map Hash (List.filter (λ c, negb (bool_decide (Hash c ∈ retained)) && isImmutable c) all)) in
  perform_loop retained immutable isDryRun all.

End performer.

(** ** A sort *)

Definition not_less (less : Candidate → Candidate → bool) (x y : Candidate) : Prop := less y x = false.
#[global] Instance not_less_dec less : RelDecision (not_less less).
Proof. intros x y. unfold not_less. apply _. Defined.

Lemma merge_sorted key (l : list Candidate) :
  StronglySorted (λ x y, key y <= key x) (merge_sort (not_less (λ x y, key y <? key x)) l).
Proof.
  assert (Hw : ∀ k, StronglySorted (not_less (λ x y, key y <? key x)) k → StronglySorted (λ x y, key y <= key x) k).
  { induction 1 as [|x k _ IH Hx]; constructor; [done|].
    eapply Forall_impl; [exact Hx|]. intros y Hy. unfold not_less in Hy. by apply Z.ltb_ge in Hy. }
  apply Hw, StronglySorted_merge_sort; unfold not_less.
  - intros x y z H1 H2. apply Z.ltb_ge in H1, H2. apply Z.ltb_ge. lia.
  - intros x y. rewrite !Z.ltb_ge. lia.
Qed.

#[global] Instance merge_SortSlice : SortSlice := {|
  sort_Slice less l := merge_sort (not_less less) l;
  sort_perm less l := merge_sort_Permutation (not_less less) l;
  sort_sorted := merge_sorted;
|}.

(** ** What the rules retain *)

(** The counting rules: as many as asked for or as there are, none of the others
    more recent than a retained one. *)
Lemma take_k_spec `{SortSlice} key k l : 0 <= k →
  let retained := take_k k (sort_Slice (λ x y, key y <? key x) l) in
  length retained = Nat.min (Z.to_nat k) (length l) ∧
  ∃ dropped, retained ++ dropped ≡ₚ l ∧ Forall (λ x, Forall (λ y, key y <= key x) dropped) retained.
Proof.
  intros Hk. unfold take_k. pose proof (sort_perm (λ x y, key y <? key x) l) as Hp.
  pose proof (sort_sorted key l) as Hs. revert Hp Hs. generalize (sort_Slice (λ x y, key y <? key x) l). intros s Hp Hs.
  simpl. rewrite length_take, (Permutation_length Hp). split; [done|].
  exists (drop (Z.to_nat k) s). rewrite take_drop. split; [done|].
  generalize (Z.to_nat k). clear Hp Hk. induction Hs as [|x s _ IH Hx]; intros n; [by rewrite take_nil|].
  destruct n as [|n]; [constructor|]. simpl. constructor; [by apply Forall_drop|apply IH].
Qed.

Lemma add_hours_exact now n : 0 <= n <= 106751 → add_hours now (-1 * 24 * n) = now - n * 24 * Hour.
Proof.
  intros H. unfold add_hours, Hour. rewrite (wrap64_id (-1 * 24 * n)), wrap64_id; auto with harbor; lia.
Qed.

(** Further property (bounds). The days rules and the range of a duration.  Up to 106751 days
    a days rule retains exactly the artifacts pushed (or pulled) since the start
    of the window; one day more overflows the duration, and the rule, which the
    validation accepts up to 20190904 days, retains no artifact pushed or pulled
    until now. *)
Theorem days_rules_window now artifacts n :
  0 <= n <= 106751 →
  Process now (NDaysSinceLastPush n) artifacts
    = List.filter (λ a, (now - n * 24 * Hour) / 1000000000 <=? PushedTime a) artifacts ∧
  Process now (NDaysSinceLastPull n) artifacts
    = List.filter (λ a, (now - n * 24 * Hour) / 1000000000 <=? PulledTime a) artifacts ∧
  rule_Valid "nDaysSinceLastPush" {[ "nDaysSinceLastPush"%string := PNum 106752 ]} = None ∧
  rule_Valid "nDaysSinceLastPull" {[ "nDaysSinceLastPull"%string := PNum 106752 ]} = None ∧
  (∀ a, PushedTime a * 1000000000 <= now → a ∉ Process now (NDaysSinceLastPush 106752) artifacts) ∧
  (∀ a, PulledTime a * 1000000000 <= now → a ∉ Process now (NDaysSinceLastPull 106752) artifacts).
Proof.
  intros Hn. cbn [Process]. unfold daysps_Process, dayspl_Process. rewrite add_hours_exact by done.
  assert (Hover : ∀ t, t * 1000000000 <= now → (add_hours now (-1 * 24 * 106752) / 1000000000 <=? t) = false).
  { intros t Ht. apply Z.leb_gt. unfold add_hours.
    change (wrap64 (wrap64 (-1 * 24 * 106752) * Hour)) with 9223371273709551616.
    pose proof (Z.div_mod (now + 9223371273709551616) 1000000000 ltac:(lia)).
    pose proof (Z.mod_pos_bound (now + 9223371273709551616) 1000000000 ltac:(lia)). lia. }
  split_and!; [done|done|vm_compute; reflexivity|vm_compute; reflexivity| |];
    intros a Ha; rewrite list_elem_of_In, List.filter_In; intros [_ H]; by rewrite Hover in H.
Qed.

Definition ex_candidate (tag digest : string) (pushed : Z) : Candidate :=
  mkCandidate 1 "library" "nginx" "image" [tag] digest pushed pushed pushed [] 0 ∅.

Lemma days_rules_window_witness :
  Process (1700000000 * 1000000000) (NDaysSinceLastPush 7)
    [ex_candidate "v1" "sha256:aa" 1600000000; ex_candidate "v2" "sha256:bb" 1699999999]
  = [ex_candidate "v2" "sha256:bb" 1699999999].
Proof.
  destruct (days_rules_window (1700000000 * 1000000000)
    [ex_candidate "v1" "sha256:aa" 1600000000; ex_candidate "v2" "sha256:bb" 1699999999] 7 ltac:(lia)) as [H _].
  rewrite H. vm_compute. reflexivity.
Defined.

(** The repository of a candidate has no project part, so the performer's
    question about immutability drops the first part of a nested name. *)
Lemma nested_repository_misread :
  repository_rest "team/app" = "app"%string ∧ repository_rest "app" = "app"%string.
Proof. vm_compute. split; reflexivity. Qed.
