(* ===== verification/RetentionConc.v ===== *)
(** * The retention processor: [src/pkg/retention/policy/alg/or/processor.go],
    [src/pkg/retention/policy/builder.go]

    One goroutine per rule sends its outcome on one of two channels of capacity
    one; a receiver collects until it sees the result channel closed; the main
    goroutine closes that channel once all rules are done.  The select statement
    of the receiver picks any ready channel.  The model is a step relation over
    the channels, so that the theorems speak of every schedule. *)

From S2P Require Import Prelude GoErrors GoStrings Retention.
Open Scope Z_scope.
Local Open Scope harbor_scope.

(** ** Building *)

(** A rule of the policy: [src/pkg/retention/policy/rule/models.go]. *)
Record RuleMeta := mkRule {
  Template : string; RuleParameters : gmap string param; Action : string; TagSelectors : list SelectorMeta;
}.

(** [alg.Parameter] *)
Record AlgParameter := mkAlgParameter { p_evaluator : Evaluator; p_selectors : list Selector }.

Fixpoint build_selectors (l : list SelectorMeta) : result (list Selector) :=
  match l with
  | [] => Ok []
  | s :: l =>
      match selector_Get (s_Kind s) (s_Decoration s) (s_Pattern s) (s_Extras s) with
      | Err e => Err (default e (Wrap (Some e) "get selector by metadata"))
      | Ok sel => match build_selectors l with Err e => Err e | Ok sl => Ok (sel :: sl) end
      end
  end.

(** The only registered action is [retain]. *)
Definition action_Get (act : string) : option error :=
  if bool_decide (act = EmptyString) then Some (New "empty action")
  else if (act == "retain") then None
  else Some (New ("action " +:+ act +:+ " is not registered")).

Fixpoint build_params (rules : list RuleMeta) : result (list AlgParameter) :=
  match rules with
  | [] => Ok []
  | r :: rules =>
      match rule_Get (Template r) (RuleParameters r) with
      | Err e => Err e
      | Ok evaluator =>
          match action_Get (Action r) with
          | Some e => Err (default e (Wrap (Some e) "get action performer by metadata"))
          | None =>
              match build_selectors (TagSelectors r) with
              | Err e => Err e
              | Ok sl =>
                  match build_params rules with
                  | Err e => Err e
                  | Ok ps => Ok (mkAlgParameter evaluator sl :: ps)
                  end
              end
          end
      end
  end.

(** [basicBuilder.Build]: the parameters of the processor for algorithm [or]. *)
Definition Build (algorithm : string) (rules : list RuleMeta) : result (list AlgParameter) :=
  match build_params rules with
  | Err e => Err e
  | Ok ps =>
      if (algorithm == "or") then Ok ps
      else
        let e := New ("no processor registered with algorithm: " +:+ algorithm) in
        Err (default e (Wrap (Some e) ("get processor for algorithm: " +:+ algorithm)))
  end.

(** [or.New] keeps the parameters that have selectors. *)
Definition kept (ps : list AlgParameter) : list AlgParameter :=
  List.filter (λ p, negb (bool_decide (length (p_selectors p) = 0%nat))) ps.

(** ** One rule *)

Section processor.
Context {Hsort : SortSlice} (doublestar_Match : string → string → result bool) (now : Z).

Fixpoint select_all (l : list Selector) (processed : list Candidate) : result (list Candidate) :=
  match l with
  | [] => Ok processed
  | s :: l =>
      match Select doublestar_Match s processed with
      | Err e => Err e
      | Ok processed => select_all l processed
      end
  end.

(** What the goroutine of a rule sends. *)
Definition rule_outcome (artifacts : list Candidate) (p : AlgParameter) : result (list Candidate) :=
  match select_all (p_selectors p) artifacts with
  | Err e => Err e
  | Ok processed => Ok (Retention.Process now (p_evaluator p) processed)
  end.

(** ** The channels *)

Record State := mkState {
  pending : list (result (list Candidate));   (* rules that have not sent *)
  resChan : option (list Candidate);
  errChan : option error;
  closed : bool;
  got : option (gmap string Candidate);       (* processedCandidates["retain"] *)
  err : option error;
  finished : bool;                            (* the receiver returned *)
}.

Definition init (outcomes : list (result (list Candidate))) : State :=
  mkState outcomes None None false None None false.

Definition collect (m : option (gmap string Candidate)) (l : list Candidate) : gmap string Candidate :=
  foldl (λ m c, <[Hash c := c]> m) (default ∅ m) l.

Definition collect_err (err : option error) (e : error) : option error :=
  match err with
  | None => Wrap (Some e) "artifact processing error"
  | Some err => Wrap (Some e) (error_string err)
  end.

Inductive step : State → State → Prop :=
  | send_result pre post l s :
      pending s = pre ++ Ok l :: post → resChan s = None →
      step s (mkState (pre ++ post) (Some l) (errChan s) (closed s) (got s) (err s) (finished s))
  | send_error pre post e s :
      pending s = pre ++ Err e :: post → errChan s = None →
      step s (mkState (pre ++ post) (resChan s) (Some e) (closed s) (got s) (err s) (finished s))
  | close s :
      pending s = [] → closed s = false →
      step s (mkState [] (resChan s) (errChan s) true (got s) (err s) (finished s))
  | receive_result l s :
      finished s = false → resChan s = Some l →
      step s (mkState (pending s) None (errChan s) (closed s) (Some (collect (got s) l)) (err s) false)
  | receive_error e s :
      finished s = false → errChan s = Some e →
      step s (mkState (pending s) (resChan s) None (closed s) (got s) (collect_err (err s) e) false)
  | receive_closed s :
      finished s = false → resChan s = None → closed s = true →
      step s (mkState (pending s) None (errChan s) true (got s) (err s) true).

(** After the receiver is done: the error, or the candidates to perform on. *)
Definition collected (s : State) : result (option (list Candidate)) :=
  match err s with
  | Some e => Err e
  | None => Ok ((λ m, (map_to_list m).*2) <$> got s)
  end.

End processor.

(** ** The whole run *)

Section run.
Context {Hsort : SortSlice} (doublestar_Match : string → string → result bool) (now : Z)
  (rules : Z → result (list ImmutableRule)) (client_Delete : Candidate → option error).

(** The outcomes of [processor.Process] under some schedule: results and the
    deletions requested. *)
Inductive Process_run (ps : list AlgParameter) (isDryRun : bool) (artifacts : list Candidate)
    : result (list Result * list Candidate) → Prop :=
  | run_empty : artifacts = [] → Process_run ps isDryRun artifacts (Ok ([], []))
  | run_error s e :
      artifacts ≠ [] → rtc step (init (map (rule_outcome doublestar_Match now artifacts) (kept ps))) s →
      finished s = true → collected s = Err e → Process_run ps isDryRun artifacts (Err e)
  | run_none s :
      artifacts ≠ [] → rtc step (init (map (rule_outcome doublestar_Match now artifacts) (kept ps))) s →
      finished s = true → collected s = Ok None → Process_run ps isDryRun artifacts (Ok ([], []))
  | run_performed s l :
      artifacts ≠ [] → rtc step (init (map (rule_outcome doublestar_Match now artifacts) (kept ps))) s →
      finished s = true → collected s = Ok (Some l) →
      Process_run ps isDryRun artifacts (Ok (Perform doublestar_Match rules client_Delete artifacts isDryRun l)).

End run.

(** ** Every run ends *)

Definition size_of {A} (o : option A) : nat := match o with Some _ => 1 | None => 0 end.

Definition remaining (s : State) : nat :=
  2 * length (pending s) + size_of (resChan s) + size_of (errChan s)
    + (if closed s then 0 else 1) + (if finished s then 0 else 1).

Lemma step_decreases s s' : step s s' → (remaining s' < remaining s)%nat.
Proof.
  unfold remaining. intros [pre post l s0 Hp Hc|pre post e s0 Hp Hc|s0 Hp Hc|l s0 Hf Hc|e s0 Hf Hc|s0 Hf Hr Hc];
    simpl; rewrite ?Hp, ?Hc, ?Hf, ?Hr, ?length_app; simpl; lia.
Qed.

(** A receiver that has not returned can go on, or a rule or the main goroutine
    can: nothing blocks forever. *)
Lemma progress s : finished s = false → ∃ s', step s s'.
Proof.
  intros Hf. destruct (resChan s) as [l|] eqn:Er; [eexists; by eapply receive_result|].
  destruct (errChan s) as [e|] eqn:Ee; [eexists; by eapply receive_error|].
  destruct (pending s) as [|[l|e] ps] eqn:Ep.
  - destruct (closed s) eqn:Ec; [eexists; by eapply receive_closed|eexists; by eapply close].
  - eexists. by eapply (send_result [] ps l).
  - eexists. by eapply (send_error [] ps e).
Qed.

Lemma can_finish s : ∃ s', rtc step s s' ∧ finished s' = true.
Proof.
  remember (remaining s) as n eqn:Hn. revert s Hn. induction (lt_wf n) as [n _ IH]. intros s ->.
  destruct (finished s) eqn:Hf; [by exists s|]. destruct (progress s Hf) as [s1 Hs].
  destruct (IH _ (step_decreases _ _ Hs) s1 eq_refl) as (s2 & Hr & Hf2).
  exists s2. split; [|done]. by eapply rtc_l.
Qed.

(** ** What the receiver has collected *)

Definition ok_of (r : result (list Candidate)) : option (list Candidate) := match r with Ok l => Some l | Err _ => None end.
Definition err_of (r : result (list Candidate)) : option error := match r with Ok _ => None | Err e => Some e end.
Definition oks (o : list (result (list Candidate))) : list (list Candidate) := omap ok_of o.
Definition errs (o : list (result (list Candidate))) : list error := omap err_of o.

Definition holds (g : option (gmap string Candidate)) (received : list (list Candidate)) : Prop :=
  match g with
  | None => received = []
  | Some m => received ≠ [] ∧ ∀ h, h ∈ map Hash ((map_to_list m).*2) ↔ h ∈ map Hash (concat received)
  end.

Lemma collect_hashes (m : gmap string Candidate) l h : (∀ k c, m !! k = Some c → Hash c = k) →
  (∀ k c, foldl (λ m c, <[Hash c := c]> m) m l !! k = Some c → Hash c = k) ∧
  (is_Some (foldl (λ m c, <[Hash c := c]> m) m l !! h) ↔ is_Some (m !! h) ∨ h ∈ map Hash l).
Proof.
  revert m. induction l as [|c l IH]; intros m Hm; simpl.
  - split; [done|]. rewrite elem_of_nil. tauto.
  - destruct (IH (<[Hash c := c]> m)) as [H1 H2].
    { intros k c' Hk. apply lookup_insert_Some in Hk as [[<- <-]|[_ Hk]]; [done|by apply Hm]. }
    split; [done|]. rewrite H2, lookup_insert_is_Some', elem_of_cons. naive_solver.
Qed.

Lemma hashes_of_map (m : gmap string Candidate) h : (∀ k c, m !! k = Some c → Hash c = k) →
  h ∈ map Hash ((map_to_list m).*2) ↔ is_Some (m !! h).
Proof.
  intros Hm. rewrite list_elem_of_fmap. setoid_rewrite list_elem_of_fmap. split.
  - intros (c & -> & (kc & -> & Hin)). destruct kc as [k c]. apply elem_of_map_to_list in Hin. simpl.
    rewrite (Hm _ _ Hin). by eexists.
  - intros [c Hc]. exists c. split; [by rewrite (Hm _ _ Hc)|]. exists (h, c). by rewrite elem_of_map_to_list.
Qed.

Record Inv (o : list (result (list Candidate))) (s : State) : Prop := {
  inv_results : ∃ received, oks o ≡ₚ oks (pending s) ++ option_list (resChan s) ++ received ∧ holds (got s) received;
  inv_keys : ∀ m, got s = Some m → ∀ k c, m !! k = Some c → Hash c = k;
  inv_errors : ∃ n, length (errs o) = (length (errs (pending s)) + size_of (errChan s) + n)%nat ∧ (err s = None ↔ n = 0%nat);
  inv_closed : closed s = true → pending s = [];
  inv_finished : finished s = true → closed s = true ∧ resChan s = None;
}.

Lemma Inv_init o : Inv o (init o).
Proof.
  constructor; simpl; try done.
  - exists []. split; [by rewrite app_nil_r|done].
  - exists 0%nat. split; [lia|done].
Qed.

Lemma oks_app a b : oks (a ++ b) = oks a ++ oks b.
Proof. apply omap_app. Qed.
Lemma errs_app a b : errs (a ++ b) = errs a ++ errs b.
Proof. apply omap_app. Qed.

Lemma holds_collect g received l : (∀ m, g = Some m → ∀ k c, m !! k = Some c → Hash c = k) →
  holds g received → holds (Some (collect g l)) (l :: received).
Proof.
  intros Hk Hg. split; [done|]. intros h. unfold collect.
  assert (Hm : ∀ k c, default ∅ g !! k = Some c → Hash c = k).
  { destruct g as [m|]; simpl; [by apply Hk|]. intros k c. by rewrite lookup_empty. }
  destruct (collect_hashes (default ∅ g) l h Hm) as [H1 H2]. rewrite hashes_of_map by done. rewrite H2.
  simpl concat. rewrite map_app, elem_of_app. destruct g as [m|]; simpl in *.
  - destruct Hg as [_ Hg]. rewrite <- Hg, hashes_of_map by done. tauto.
  - subst received. simpl. rewrite elem_of_nil, lookup_empty, is_Some_alt. tauto.
Qed.

Lemma Inv_step o s s' : Inv o s → step s s' → Inv o s'.
Proof.
  intros HI Hs. revert HI.
  destruct Hs as [pre post l s0 Hp Hch|pre post e s0 Hp Hch|s0 Hp Hch|l s0 Hfi Hch|e s0 Hfi Hch|s0 Hfi Hre Hch];
    intros [(received & Hr & Hg) Hk (n & Hn & He) Hc Hf]; constructor; simpl.
  (* a rule sends its result *)
  - exists received. split; [|done]. rewrite Hr, Hp, Hch, !oks_app. simpl.
    rewrite <- !app_assoc. apply Permutation_app_head. simpl. apply Permutation_middle.
  - done.
  - exists n. rewrite Hn, Hp, !errs_app. simpl. done.
  - intros H. rewrite (Hc H) in Hp. by destruct pre.
  - intros H. destruct (Hf H) as [H1 _]. rewrite (Hc H1) in Hp. by destruct pre.
  (* a rule sends its error *)
  - exists received. split; [|done]. by rewrite Hr, Hp, !oks_app.
  - done.
  - exists n. rewrite Hn, Hp, Hch, !errs_app, !length_app. simpl. split; [lia|done].
  - intros H. rewrite (Hc H) in Hp. by destruct pre.
  - intros H. destruct (Hf H) as [H1 _]. rewrite (Hc H1) in Hp. by destruct pre.
  (* the channel is closed *)
  - exists received. split; [|done]. by rewrite Hr, Hp.
  - done.
  - exists n. by rewrite Hn, Hp.
  - done.
  - intros H. by destruct (Hf H).
  (* the receiver takes a result *)
  - exists (l :: received). split; [by rewrite Hr, Hch|]. by apply holds_collect.
  - intros m [= <-] k c Hkc. unfold collect in Hkc.
    destruct (collect_hashes (default ∅ (got s0)) l EmptyString) as [H1 _]; [|by apply H1].
    destruct (got s0) as [m0|] eqn:E; simpl; [by apply Hk|]. intros k' c'. by rewrite lookup_empty.
  - by exists n.
  - done.
  - done.
  (* the receiver takes an error *)
  - by exists received.
  - done.
  - exists (S n). rewrite Hn, Hch. simpl. split; [lia|]. split; [|lia]. destruct (err s0); done.
  - done.
  - done.
  (* the receiver sees the channel closed *)
  - exists received. by rewrite Hr, Hre.
  - done.
  - by exists n.
  - intros _. by apply Hc.
  - done.
Qed.

Lemma Inv_steps o s s' : Inv o s → rtc step s s' → Inv o s'.
Proof. intros Hi Hs. induction Hs as [|x y z Hxy _ IH]; [done|]. apply IH. by eapply Inv_step. Qed.

(** What a receiver that has returned holds. *)
Lemma finished_state o s : rtc step (init o) s → finished s = true →
  (∃ received, oks o ≡ₚ received ∧ holds (got s) received) ∧
  (length (errs o) = 0%nat → err s = None) ∧ ((2 <= length (errs o))%nat → err s ≠ None).
Proof.
  intros Hr Hf. destruct (Inv_steps o _ s (Inv_init o) Hr) as [(received & Hp & Hg) _ (n & Hn & He) Hc Hfi].
  destruct (Hfi Hf) as [Hcl Hch]. rewrite (Hc Hcl) in *. rewrite Hch in Hp. simpl in *.
  split; [by exists received|]. split.
  - intros H0. apply He. lia.
  - intros H2 H. apply He in H. destruct (errChan s); simpl in *; lia.
Qed.

(** ** The deletions *)

Section deletions.
Context {Hsort : SortSlice} (doublestar_Match : string → string → result bool) (now : Z)
  (rules : Z → result (list ImmutableRule)) (client_Delete : Candidate → option error).

(** Some rule that did not fail keeps the candidate. *)
Definition retained_by (ps : list AlgParameter) (artifacts : list Candidate) (c : Candidate) : Prop :=
  ∃ p l c', p ∈ kept ps ∧ rule_outcome doublestar_Match now artifacts p = Ok l ∧ c' ∈ l ∧ Hash c' = Hash c.

(** An immutability rule protects it. *)
Definition protected (artifacts : list Candidate) (c : Candidate) : Prop :=
  ∃ c', c' ∈ artifacts ∧ Hash c' = Hash c ∧ isImmutable doublestar_Match rules c' = true.

Definition to_delete (ps : list AlgParameter) (isDryRun : bool) (artifacts : list Candidate) (c : Candidate) : Prop :=
  isDryRun = false ∧ c ∈ artifacts ∧ ¬ retained_by ps artifacts c ∧ ¬ protected artifacts c.

Lemma perform_loop_deleted retained immutable isDryRun l c :
  c ∈ snd (perform_loop client_Delete retained immutable isDryRun l) ↔
  isDryRun = false ∧ c ∈ l ∧ Hash c ∉ retained ∧ Hash c ∉ immutable.
Proof.
  induction l as [|x l IH]; simpl; [rewrite !elem_of_nil; tauto|].
  destruct (perform_loop client_Delete retained immutable isDryRun l) as [results deleted]. simpl in IH.
  rewrite elem_of_cons. repeat case_bool_decide; destruct isDryRun; simpl; rewrite ?elem_of_cons, ?IH; naive_solver.
Qed.

Lemma Perform_deleted all isDryRun candidates c :
  c ∈ snd (Perform doublestar_Match rules client_Delete all isDryRun candidates) ↔
  isDryRun = false ∧ c ∈ all ∧ Hash c ∉ map Hash candidates ∧ ¬ protected all c.
Proof.
  unfold Perform. rewrite perform_loop_deleted, !elem_of_list_to_set.
  assert (Hi : Hash c ∉ map Hash candidates →
    Hash c ∈ map Hash (List.filter (λ c, negb (bool_decide (Hash c ∈@{gset string} list_to_set (map Hash candidates)))
      && isImmutable doublestar_Match rules c) all) ↔ protected all c).
  { intros Hn. unfold protected. rewrite list_elem_of_fmap. setoid_rewrite list_elem_of_In. setoid_rewrite List.filter_In.
    split.
    - intros (c' & He & Hin & Hb). apply andb_true_iff in Hb as [_ Hb]. by exists c'.
    - intros (c' & Hin & He & Hb). exists c'. split_and!; [done|done|]. rewrite Hb, andb_true_r, negb_true_iff.
      apply bool_decide_eq_false. rewrite elem_of_list_to_set. by rewrite He. }
  split.
  - intros (H1 & H2 & H3 & H4). split_and!; try done. by rewrite <- Hi.
  - intros (H1 & H2 & H3 & H4). split_and!; try done. by rewrite Hi.
Qed.

Lemma elem_oks ps artifacts l :
  l ∈ oks (map (rule_outcome doublestar_Match now artifacts) ps) ↔
  ∃ p, p ∈ ps ∧ rule_outcome doublestar_Match now artifacts p = Ok l.
Proof.
  unfold oks. rewrite list_elem_of_omap. setoid_rewrite list_elem_of_fmap. split.
  - intros (r & (p & -> & Hp) & Hr). exists p. split; [done|]. by destruct (rule_outcome _ _ _ _); simplify_eq/=.
  - intros (p & Hp & Hr). exists (rule_outcome doublestar_Match now artifacts p). split; [by exists p|]. by rewrite Hr.
Qed.

(** The candidates a finished receiver hands to the performer. *)
Lemma received_retained ps artifacts received l c :
  oks (map (rule_outcome doublestar_Match now artifacts) (kept ps)) ≡ₚ received →
  (∀ h, h ∈ map Hash l ↔ h ∈ map Hash (concat received)) →
  Hash c ∈ map Hash l ↔ retained_by ps artifacts c.
Proof.
  intros Hp Hl. rewrite Hl, list_elem_of_fmap. unfold retained_by. setoid_rewrite list_elem_of_In.
  setoid_rewrite in_concat. setoid_rewrite <- list_elem_of_In. split.
  - intros (c' & He & k & Hk & Hc'). rewrite <- Hp in Hk. apply elem_oks in Hk as (p & Hpk & Hr).
    exists p, k, c'. done.
  - intros (p & k & c' & Hpk & Hr & Hc' & He). exists c'. split; [done|]. exists k. split; [|done].
    rewrite <- Hp. apply elem_oks. eauto.
Qed.

Lemma collected_deletions ps isDryRun artifacts s l :
  rtc step (init (map (rule_outcome doublestar_Match now artifacts) (kept ps))) s → finished s = true →
  collected s = Ok (Some l) →
  ∀ c, c ∈ snd (Perform doublestar_Match rules client_Delete artifacts isDryRun l) ↔ to_delete ps isDryRun artifacts c.
Proof.
  intros Hs Hf Hl c. destruct (finished_state _ s Hs Hf) as [(received & Hp & Hg) _].
  unfold collected in Hl. destruct (err s); [done|]. injection Hl as Hl.
  destruct (got s) as [m|]; [|done]. injection Hl as <-. destruct Hg as [_ Hg].
  rewrite Perform_deleted. unfold to_delete. by rewrite (received_retained ps artifacts received _ c Hp Hg).
Qed.

Definition outcomes (ps : list AlgParameter) (artifacts : list Candidate) : list (result (list Candidate)) :=
  map (rule_outcome doublestar_Match now artifacts) (kept ps).

Lemma oks_errs_nil o : oks o = [] → errs o = [] → o = [].
Proof. destruct o as [|[l|e] o]; done. Qed.

Lemma run_exists ps isDryRun artifacts :
  ∃ r, Process_run doublestar_Match now rules client_Delete ps isDryRun artifacts r.
Proof.
  destruct (decide (artifacts = [])) as [He|He]; [eexists; by apply run_empty|].
  destruct (can_finish (init (outcomes ps artifacts))) as (s & Hs & Hf).
  destruct (collected s) as [[l|]|e] eqn:E; eexists;
    [by eapply run_performed|by eapply run_none|by eapply run_error].
Qed.

(** Further property (functional). What retention deletes when no rule fails.  Under every
    schedule of the rules' goroutines the processor ends without an error, and it
    requests the deletion of exactly the artifacts that no rule with selectors
    retains and no immutability rule protects; in a dry run, or when no rule has
    selectors, it requests none.  A schedule always completes. *)
Theorem retention_deletes ps isDryRun artifacts :
  errs (outcomes ps artifacts) = [] →
  (∃ r, Process_run doublestar_Match now rules client_Delete ps isDryRun artifacts r) ∧
  ∀ r, Process_run doublestar_Match now rules client_Delete ps isDryRun artifacts r →
    ∃ results deleted, r = Ok (results, deleted) ∧
      ∀ c, c ∈ deleted ↔ kept ps ≠ [] ∧ to_delete ps isDryRun artifacts c.
Proof.
  intros Hnoerr. split; [apply run_exists|]. unfold outcomes in *.
  intros r [He|s e Hne Hs Hf Hc|s Hne Hs Hf Hc|s l Hne Hs Hf Hc].
  - exists [], []. split; [done|]. intros c. unfold to_delete. subst artifacts. rewrite elem_of_nil.
    split; [done|]. by intros (_ & _ & [] & _).
  - destruct (finished_state _ s Hs Hf) as (_ & He & _). unfold collected in Hc.
    rewrite He in Hc; [done|by rewrite Hnoerr].
  - exists [], []. split; [done|]. intros c. rewrite elem_of_nil. split; [done|]. intros [Hk _]. apply Hk.
    destruct (finished_state _ s Hs Hf) as [(received & Hp & Hg) _]. unfold collected in Hc.
    destruct (err s); [done|]. destruct (got s); [done|]. simpl in Hg. subst received.
    apply Permutation_nil_r in Hp. pose proof (oks_errs_nil _ Hp Hnoerr) as Ho. by destruct (kept ps).
  - destruct (Perform doublestar_Match rules client_Delete artifacts isDryRun l) as [results deleted] eqn:E.
    exists results, deleted. split; [done|]. intros c.
    pose proof (collected_deletions ps isDryRun artifacts s l Hs Hf Hc c) as HD. rewrite E in HD. simpl in HD. rewrite HD.
    split; [|tauto]. intros Hd. split; [|done]. intros Hk. rewrite Hk in Hs. simpl in Hs.
    destruct (finished_state _ s Hs Hf) as [(received & Hp & Hg) _]. unfold collected in Hc.
    destruct (err s); [done|]. destruct (got s) as [m|]; [|done]. destruct Hg as [Hg _].
    by apply Permutation_nil_l in Hp.
Qed.

(** ** Lost errors *)

(** The results among the rules are sent and received one after the other. *)
Lemma drain_results pre ls post g e f : ∃ g',
  rtc step (mkState (pre ++ map Ok ls ++ post) None e false g f false) (mkState (pre ++ post) None e false g' f false) ∧
  (g' = None → g = None ∧ ls = []).
Proof.
  revert g. induction ls as [|l ls IH]; intros g; [by exists g|].
  destruct (IH (Some (collect g l))) as (g' & Hr & Hg). exists g'. split; [|intros H; by apply Hg in H as [? _]].
  eapply rtc_l; [by apply (send_result pre (map Ok ls ++ post) l)|].
  eapply rtc_l; [by apply (receive_result l)|]. exact Hr.
Qed.

Lemma one_error o : length (errs o) = 1%nat → ∃ ls e ks, o = map Ok ls ++ Err e :: map Ok ks.
Proof.
  induction o as [|[l|e] o IH]; intros H; [done| |].
  - destruct (IH H) as (ls & e & ks & ->). by exists (l :: ls), e, ks.
  - exists [], e. assert (Hn : errs o = []) by (apply nil_length_inv; by injection H). clear -Hn.
    assert (∃ ks, o = map Ok ks) as [ks ->]; [|by exists ks].
    induction o as [|[l|e'] o IH]; [by exists []| |done]. destruct (IH Hn) as [ks ->]. by exists (l :: ks).
Qed.

(** With exactly one failing rule, the receiver may return with the error still
    in its channel. *)
Lemma error_lost o : length (errs o) = 1%nat →
  ∃ s, rtc step (init o) s ∧ finished s = true ∧ err s = None ∧ (oks o ≠ [] → got s ≠ None).
Proof.
  intros H. destruct (one_error o H) as (ls & e & ks & ->).
  destruct (drain_results [] ls (Err e :: map Ok ks) None None None) as (g1 & H1 & Hg1).
  destruct (drain_results [Err e] ks [] g1 None None) as (g2 & H2 & Hg2).
  exists (mkState [] None (Some e) true g2 None true). split_and!; try done.
  - unfold init. etrans; [exact H1|]. simpl in H2. rewrite app_nil_r in H2.
    etrans; [exact H2|].
    eapply rtc_l; [by apply (send_error [] [] e)|]. eapply rtc_l; [by apply close|].
    eapply rtc_l; [by apply receive_closed|]. done.
  - simpl. intros Ho Hn. apply Hg2 in Hn as [Hn ->]. apply Hg1 in Hn as [_ ->]. done.
Qed.

(** Further property (safety). One failing rule is not always reported.  When exactly one rule
    fails and another succeeds, there is a schedule in which the error stays in
    its channel: the processor returns no error and requests the deletion of the
    artifacts the other rules do not retain, those the failing rule would have
    retained among them.  Two failing rules are always reported, and then nothing
    is deleted. *)
Theorem retention_error_lost ps isDryRun artifacts :
  artifacts ≠ [] →
  (length (errs (outcomes ps artifacts)) = 1%nat → oks (outcomes ps artifacts) ≠ [] →
   ∃ results deleted, Process_run doublestar_Match now rules client_Delete ps isDryRun artifacts (Ok (results, deleted)) ∧
     ∀ c, c ∈ deleted ↔ to_delete ps isDryRun artifacts c) ∧
  ((2 <= length (errs (outcomes ps artifacts)))%nat →
   ∀ r, Process_run doublestar_Match now rules client_Delete ps isDryRun artifacts r → ∃ e, r = Err e).
Proof.
  intros Hne. split.
  - intros H1 Hok. destruct (error_lost _ H1) as (s & Hs & Hf & He & Hg). specialize (Hg Hok).
    destruct (got s) as [m|] eqn:Em; [|done].
    assert (Hc : collected s = Ok (Some ((map_to_list m).*2))) by (unfold collected; by rewrite He, Em).
    destruct (Perform doublestar_Match rules client_Delete artifacts isDryRun ((map_to_list m).*2)) as [results deleted] eqn:E.
    exists results, deleted. rewrite <- E. split; [by eapply run_performed|]. intros c.
    pose proof (collected_deletions ps isDryRun artifacts s _ Hs Hf Hc c) as HD. by rewrite E in HD.
  - unfold outcomes. intros H2 r [He|s e _ Hs Hf Hc|s _ Hs Hf Hc|s l _ Hs Hf Hc]; [done|by eexists| |];
      destruct (finished_state _ s Hs Hf) as (_ & _ & He); specialize (He H2); unfold collected in Hc; by destruct (err s).
Qed.

End deletions.

(** ** Examples *)

(** A matcher that knows literal patterns and rejects an unclosed bracket. *)
Definition ex_match (pattern str : string) : result bool :=
  if (pattern == "[") then Err (New "syntax error in pattern") else Ok (bool_decide (pattern = str)).

Definition ex_rules (pid : Z) : result (list ImmutableRule) :=
  Ok [mkImmutableRule false [mkSelectorMeta "doublestar" "repoMatches" "nginx" None]
        [mkSelectorMeta "doublestar" "matches" "v1" None]].

Definition ex_artifacts : list Candidate :=
  [ex_candidate "v1" "sha256:aa" 100; ex_candidate "v2" "sha256:bb" 200; ex_candidate "v3" "sha256:cc" 300].

Definition ex_policy : list AlgParameter :=
  [mkAlgParameter Always [doublestar_New "matches" "v3" None]; mkAlgParameter (LatestPushedK 0) [doublestar_New "matches" EmptyString None]].

Definition ex_failing_policy : list AlgParameter :=
  [mkAlgParameter Always [doublestar_New "matches" "[" None]; mkAlgParameter (LatestPushedK 0) [doublestar_New "matches" EmptyString None]].

Lemma retention_deletes_witness :
  ∃ results deleted, Process_run ex_match 1000 ex_rules (λ _, None) ex_policy false ex_artifacts (Ok (results, deleted)) ∧
    ∀ c, c ∈ deleted ↔ kept ex_policy ≠ [] ∧ to_delete ex_match 1000 ex_rules ex_policy false ex_artifacts c.
Proof.
  destruct (retention_deletes ex_match 1000 ex_rules (λ _, None) ex_policy false ex_artifacts) as [(r & Hr) H];
    [vm_compute; reflexivity|].
  destruct (H r Hr) as (results & deleted & -> & Hd). exists results, deleted. split; [exact Hr|exact Hd].
Defined.

Lemma retention_error_lost_witness :
  ∃ results deleted, Process_run ex_match 1000 ex_rules (λ _, None) ex_failing_policy false ex_artifacts (Ok (results, deleted)) ∧
    ∀ c, c ∈ deleted ↔ to_delete ex_match 1000 ex_rules ex_failing_policy false ex_artifacts c.
Proof.
  apply (retention_error_lost ex_match 1000 ex_rules (λ _, None) ex_failing_policy false ex_artifacts);
    [discriminate|vm_compute; reflexivity|vm_compute; discriminate].
Defined.
