(* ===== verification/Table.v ===== *)
(** * Tables with a serial primary key

    The rows of a table are a finite map from primary keys; [seq] is the last
    value of the key's sequence.  The second part holds the shapes of access that
    the data-access packages share: beego's [Read] followed by
    [orm.AsNotFoundError], and [Delete] followed by the test of the number of
    affected rows ([src/pkg/artifact/dao/dao.go], [src/pkg/tag/dao/dao.go] and
    their siblings).  [fueled] runs are for recursion that is not structural: the
    value [None] is the run that ran out of fuel. *)

From S2P Require Import Prelude GoErrors Orm.
Open Scope Z_scope.

Record table (R : Type) := mkTable { rows : gmap Z R; seq : Z }.
Arguments mkTable {R}.
Arguments rows {R}.
Arguments seq {R}.

Section table.
Context {R : Type}.
Implicit Types (t : table R) (r : R).

(** [SELECT ... WHERE P] *)
Definition select (P : R → Prop) `{!∀ r, Decision (P r)} (t : table R) : list R :=
  filter P ((map_to_list (rows t)).*2).

(** [INSERT]: the next key and the table with the row. *)
Definition next (t : table R) : Z := seq t + 1.
Definition add_row (f : Z → R) (t : table R) : table R :=
  mkTable (<[next t := f (next t)]> (rows t)) (next t).
Definition put_row (i : Z) (r : R) (t : table R) : table R :=
  mkTable (<[i := r]> (rows t)) (seq t).
Definition del_row (i : Z) (t : table R) : table R := mkTable (delete i (rows t)) (seq t).
(** [DELETE ... WHERE P] *)
Definition del_rows (P : R → Prop) `{!∀ r, Decision (P r)} (t : table R) : table R :=
  mkTable (filter (λ kr, ¬ P kr.2) (rows t)) (seq t).

(** Keys are the primary keys of the rows and come from the sequence. *)
Definition table_ok (key : R → Z) (t : table R) : Prop :=
  ∀ i r, rows t !! i = Some r → key r = i ∧ 0 < i <= seq t.

Lemma elem_of_select P `{!∀ r, Decision (P r)} t r :
  r ∈ select P t ↔ ∃ i, rows t !! i = Some r ∧ P r.
Proof.
  unfold select. rewrite list_elem_of_filter, list_elem_of_fmap. split.
  - intros [HP ([i r'] & -> & Hin)]. apply elem_of_map_to_list in Hin. eauto.
  - intros (i & Hi & HP). split; [done|]. exists (i, r). split; [done|]. by apply elem_of_map_to_list.
Qed.

Lemma select_nil P `{!∀ r, Decision (P r)} t :
  select P t = [] ↔ ∀ i r, rows t !! i = Some r → ¬ P r.
Proof.
  unfold select. rewrite filter_nil_iff, Forall_fmap, Forall_map_to_list. done.
Qed.

Lemma elem_of_select_ok key P `{!∀ r, Decision (P r)} t r :
  table_ok key t → r ∈ select P t ↔ rows t !! key r = Some r ∧ P r.
Proof.
  intros Hok. rewrite elem_of_select. split; [|eauto].
  intros (i & Hi & HP). by destruct (Hok _ _ Hi) as [-> _].
Qed.

Lemma NoDup_select key P `{!∀ r, Decision (P r)} t : table_ok key t → NoDup (select P t).
Proof.
  intros Hok. apply NoDup_filter, NoDup_fmap_2_strong; [|apply NoDup_map_to_list].
  intros [i x] [j y] Hx Hy. simpl. intros ->. apply elem_of_map_to_list in Hx, Hy.
  destruct (Hok _ _ Hx) as [<- _]. by destruct (Hok _ _ Hy) as [<- _].
Qed.

Lemma table_ok_add key f t :
  table_ok key t → 0 <= seq t → (∀ n, key (f n) = n) → table_ok key (add_row f t).
Proof.
  intros Hok Hs Hf i r. unfold add_row, next; simpl. intros H.
  apply lookup_insert_Some in H as [[<- <-]|[_ H]]; [split; [done|lia]|].
  destruct (Hok _ _ H). split; [done|lia].
Qed.

Lemma table_ok_put key i r r' t :
  table_ok key t → rows t !! i = Some r → key r' = key r → table_ok key (put_row i r' t).
Proof.
  intros Hok Hi Hk j x H. simpl in *. apply lookup_insert_Some in H as [[<- <-]|[_ H]]; [|by apply Hok].
  rewrite Hk. by apply Hok.
Qed.

Lemma table_ok_del key i t : table_ok key t → table_ok key (del_row i t).
Proof. intros Hok j x H. simpl in *. apply lookup_delete_Some in H as [_ H]. by apply Hok. Qed.

Lemma table_ok_dels key P `{!∀ r, Decision (P r)} t : table_ok key t → table_ok key (del_rows P t).
Proof. intros Hok j x Hj. simpl in *. apply map_lookup_filter_Some in Hj as [Hj _]. by apply Hok. Qed.

Lemma lookup_add key f t i r :
  table_ok key t → rows t !! i = Some r → rows (add_row f t) !! i = Some r.
Proof.
  intros Hok H. simpl. rewrite lookup_insert_ne; [done|]. unfold next. destruct (Hok _ _ H). lia.
Qed.

Lemma lookup_next key t : table_ok key t → rows t !! next t = None.
Proof.
  intros Hok. destruct (rows t !! next t) eqn:E; [|done]. destruct (Hok _ _ E). unfold next in *. lia.
Qed.

Lemma lookup_dels P `{!∀ r, Decision (P r)} t i r :
  rows (del_rows P t) !! i = Some r ↔ rows t !! i = Some r ∧ ¬ P r.
Proof. simpl. by rewrite map_lookup_filter_Some. Qed.

(** Deleting removes rows. *)
Lemma size_del_row i t : (size (rows (del_row i t)) <= size (rows t))%nat.
Proof.
  simpl. destruct (rows t !! i) eqn:E.
  - pose proof (map_size_delete_Some i (rows t) ltac:(eauto)). lia.
  - by rewrite delete_id.
Qed.

Lemma size_del_row_lt i r t :
  rows t !! i = Some r → (size (rows (del_row i t)) < size (rows t))%nat.
Proof.
  intros E. simpl. rewrite (map_size_delete_Some i (rows t)) by eauto.
  assert (size (rows t) ≠ 0%nat); [|lia].
  intros Hz. apply map_size_empty_iff in Hz. rewrite Hz in E. by rewrite lookup_empty in E.
Qed.

Lemma size_del_rows P `{!∀ r, Decision (P r)} t : (size (rows (del_rows P t)) <= size (rows t))%nat.
Proof. apply map_subseteq_size, map_filter_subseteq. Qed.

Lemma size_del_rows_lt P `{!∀ r, Decision (P r)} t i r :
  rows t !! i = Some r → P r → (size (rows (del_rows P t)) < size (rows t))%nat.
Proof.
  intros Hi HP. apply map_subset_size. split; [apply map_filter_subseteq|].
  intros Hsub. assert (rows (del_rows P t) !! i = Some r) as Hr by by eapply lookup_weaken.
  apply lookup_dels in Hr as [_ Hr]. done.
Qed.

End table.

(** ** Well-formed tables: keys from the sequence, a unique constraint and a
    condition on every row *)

Record tab_ok {R} (key : R → Z) (same : relation R) (valid : R → Prop) (t : table R) : Prop := mk_tab_ok {
  tab_keys : table_ok key t;
  tab_seq : 0 <= seq t;
  tab_unique : ∀ i j x y, rows t !! i = Some x → rows t !! j = Some y → same x y → i = j;
  tab_valid : ∀ i x, rows t !! i = Some x → valid x;
}.

Section tab_ok.
Context {R : Type} (key : R → Z) (same : relation R) (valid : R → Prop).
Implicit Types (t : table R).

Lemma tab_ok_mono (valid' : R → Prop) t :
  tab_ok key same valid t → (∀ i x, rows t !! i = Some x → valid x → valid' x) → tab_ok key same valid' t.
Proof. intros [] Hv. split; eauto. Qed.

Lemma tab_ok_add `{!Symmetric same} (P : R → Prop) `{!∀ r, Decision (P r)} f t :
  tab_ok key same valid t → select P t = [] → (∀ n, key (f n) = n) →
  (∀ n x, same (f n) x → P x) → valid (f (next t)) → tab_ok key same valid (add_row f t).
Proof.
  intros [Hk Hs Hu Hv] Hsel Hf HP Hval. rewrite select_nil in Hsel. split.
  - by apply table_ok_add.
  - simpl. unfold next. lia.
  - intros i j x y Hx Hy Hxy. simpl in Hx, Hy.
    apply lookup_insert_Some in Hx as [[<- <-]|[Hi Hx]]; apply lookup_insert_Some in Hy as [[<- <-]|[Hj Hy]].
    + done.
    + destruct (Hsel _ _ Hy). by eapply HP.
    + destruct (Hsel _ _ Hx). eapply HP. by symmetry.
    + by eapply Hu.
  - intros i x Hx. simpl in Hx. apply lookup_insert_Some in Hx as [[<- <-]|[_ Hx]]; eauto.
Qed.

(** A row replaced by one with the same key and the same unique columns. *)
Lemma tab_ok_put `{!Symmetric same} i x x' t :
  tab_ok key same valid t → rows t !! i = Some x → key x' = key x →
  (∀ y, same x' y → same x y) → valid x' → tab_ok key same valid (put_row i x' t).
Proof.
  intros [Hk Hs Hu Hv] Hi Hkey Hsame Hval. split.
  - by eapply table_ok_put.
  - done.
  - intros j k y z Hy Hz Hyz. simpl in Hy, Hz.
    apply lookup_insert_Some in Hy as [[<- <-]|[Hij Hy]]; apply lookup_insert_Some in Hz as [[<- <-]|[Hik Hz]].
    + done.
    + apply (Hu i k x z Hi Hz). by apply Hsame.
    + apply (Hu j i y x Hy Hi). symmetry. apply Hsame. by symmetry.
    + by eapply Hu.
  - intros j y Hy. simpl in Hy. apply lookup_insert_Some in Hy as [[<- <-]|[_ Hy]]; eauto.
Qed.

(** A row replaced by one whose unique columns no other row has. *)
Lemma tab_ok_put_fresh `{!Symmetric same} (P : R → Prop) `{!∀ r, Decision (P r)} i x x' t :
  tab_ok key same valid t → rows t !! i = Some x → key x' = i → select P t = [] →
  (∀ y, same x' y → key y ≠ i → P y) → valid x' → tab_ok key same valid (put_row i x' t).
Proof.
  intros [Hk Hs Hu Hv] Hi Hkey Hsel HP Hval. rewrite select_nil in Hsel.
  assert (Hfresh : ∀ j y, rows t !! j = Some y → i ≠ j → ¬ same x' y).
  { intros j y Hy Hij Hxy. apply (Hsel j y Hy), HP; [done|]. destruct (Hk _ _ Hy) as [-> _]. congruence. }
  split; [|done| |].
  - eapply table_ok_put; [done..|]. by destruct (Hk _ _ Hi) as [-> _].
  - intros j k y z Hy Hz Hyz. simpl in Hy, Hz.
    apply lookup_insert_Some in Hy as [[<- <-]|[Hij Hy]]; apply lookup_insert_Some in Hz as [[<- <-]|[Hik Hz]].
    + done.
    + by destruct (Hfresh _ _ Hz Hik).
    + by destruct (Hfresh _ _ Hy Hij).
    + by eapply Hu.
  - intros j y Hy. simpl in Hy. apply lookup_insert_Some in Hy as [[<- <-]|[_ Hy]]; eauto.
Qed.

Lemma tab_ok_del i t : tab_ok key same valid t → tab_ok key same valid (del_row i t).
Proof.
  intros [Hk Hs Hu Hv]. split; [by apply table_ok_del|done| |].
  - intros j k x y Hx Hy. simpl in *. apply lookup_delete_Some in Hx as [_ Hx].
    apply lookup_delete_Some in Hy as [_ Hy]. by eapply Hu.
  - intros j x Hx. simpl in *. apply lookup_delete_Some in Hx as [_ Hx]. eauto.
Qed.

Lemma tab_ok_dels (P : R → Prop) `{!∀ r, Decision (P r)} t :
  tab_ok key same valid t → tab_ok key same valid (del_rows P t).
Proof.
  intros [Hk Hs Hu Hv]. split; [by apply table_ok_dels|done| |].
  - intros j k x y Hx Hy. apply lookup_dels in Hx as [Hx _]. apply lookup_dels in Hy as [Hy _].
    by eapply Hu.
  - intros j x Hx. apply lookup_dels in Hx as [Hx _]. eauto.
Qed.

End tab_ok.

Definition empty_table {R} : table R := mkTable ∅ 0.

Lemma empty_ok {R} key same valid : tab_ok key same valid (@empty_table R).
Proof. split; [| |intros i j x y|intros i x]; simpl; try done; intros i x; by rewrite lookup_empty. Qed.

(** ** Access *)

Section access.
Context {D R : Type}.

(** [ormer.Read] with its not-found error mapped. *)
Definition Read (f : D → option R) (msg : string) : M D R :=
  _ ← FromContext;
  r ← try (query (λ d, match f d with Some a => Ok a | None => Err ErrNoRows end));
  match r with
  | Ok a => mret a
  | Err e => fail (WrapNotFoundError e msg)
  end.

(** [ormer.Delete] or [ormer.Update] on a primary key: [f] gives the new state
    when the row exists; no affected row is a not-found error. *)
Definition affect (f : D → option (result D)) (msg : string) (wrap : error → error) : M D unit :=
  _ ← FromContext;
  r ← try (stmt (λ d, match f d with
                      | Some (Ok d') => (Ok 1, d')
                      | Some (Err e) => (Err e, d)
                      | None => (Ok 0, d)
                      end));
  match r with
  | Err e => fail (wrap e)
  | Ok n => if n =? 0 then fail (WithMessage (NotFoundError None) msg) else mret tt
  end.

Lemma Read_inv f msg w r w' :
  Read f msg w = (r, w') → db w' = db w ∧ ∀ a, r = Ok a → f (db w) = Some a.
Proof.
  unfold Read. intros H.
  apply bind_cases in H as [(e & H & ->)|([] & w1 & H1 & H)].
  { apply FromContext_cases in H as [-> _]. split; [done|congruence]. }
  apply FromContext_cases in H1 as [-> _].
  apply bind_try_inv in H as (x & w2 & H2 & H).
  apply query_cases in H2 as (Hd & _ & Hx). destruct x as [a|e].
  - invs H. split; [done|]. intros a' [= <-]. destruct Hx as [[? [=]]|Hx].
    by destruct (f (db w)); simplify_eq.
  - invs H. split; [done|congruence].
Qed.

Lemma preserves_Read (P : relation D) `{!PreOrder P} f msg : preserves P (Read f msg).
Proof. intros w r w' H. apply Read_inv in H as [-> _]. reflexivity. Qed.

Lemma preserves_affect (P : relation D) `{!PreOrder P} f msg wrap :
  (∀ d d', f d = Some (Ok d') → P d d') → preserves P (affect f msg wrap).
Proof.
  intros Hf. unfold affect. frame. apply preserves_stmt; [apply _|]. intros d.
  destruct (f d) as [[d'|e]|] eqn:E; simpl; [by apply Hf|reflexivity|reflexivity].
Qed.

Lemma affect_ok f msg wrap w w' :
  affect f msg wrap w = (Ok tt, w') → f (db w) = Some (Ok (db w')).
Proof.
  unfold affect. intros H. apply bind_ok_inv in H as ([] & w1 & H1 & H).
  apply FromContext_cases in H1 as [-> _].
  apply bind_try_inv in H as (x & w2 & H2 & H). destruct x as [n|e]; [|discriminate H].
  apply stmt_ok_inv in H2. destruct (n =? 0) eqn:E; [discriminate H|]. invs H.
  destruct (f (db w)) as [[d'|e]|]; simplify_eq; done.
Qed.

(** Runs without faults. *)
Lemma Read_nofault (f : D → option R) msg (d : D) :
  Read f msg (mkWorld d true []) =
  (match f d with Some a => Ok a | None => Err (WrapNotFoundError ErrNoRows msg) end, mkWorld d true []).
Proof. unfold Read, FromContext, try. mrun. by destruct (f d). Qed.

Lemma affect_nofault (f : D → option (result D)) msg wrap (d d' : D) :
  f d = Some (Ok d') → affect f msg wrap (mkWorld d true []) = (Ok tt, mkWorld d' true []).
Proof. intros H. unfold affect, FromContext, try. mrun. by rewrite H. Qed.

End access.
#[export] Hint Resolve preserves_Read : frame.

(** ** Fuel *)

(** Sequencing of runs that may run out of fuel. *)
Definition fbind {D A B} (m : M D (option A)) (k : A → M D (option B)) : M D (option B) :=
  o ← m; match o with Some a => k a | None => mret None end.
Notation "x <~ m ; k" := (fbind m (λ x, k))
  (at level 20, m at level 100, k at level 200, right associativity) : harbor_scope.
(** A run that needs no fuel. *)
Definition fret {D A} (m : M D A) : M D (option A) := a ← m; mret (Some a).

Definition out_of_fuel {A} (r : result (option A)) : Prop := r = Ok None.

Lemma preserves_fbind {D A B} (P : relation D) `{!PreOrder P} (m : M D (option A)) (k : A → M D (option B)) :
  preserves P m → (∀ a, preserves P (k a)) → preserves P (fbind m k).
Proof. intros Hm Hk. unfold fbind. frame. Qed.

Lemma preserves_fret {D A} (P : relation D) `{!PreOrder P} (m : M D A) : preserves P m → preserves P (fret m).
Proof. intros Hm. unfold fret. frame. Qed.

Lemma fbind_cases {D A B} (m : M D (option A)) (k : A → M D (option B)) w r w' :
  fbind m k w = (r, w') →
  (∃ e, m w = (Err e, w') ∧ r = Err e) ∨ (m w = (Ok None, w') ∧ r = Ok None) ∨
  (∃ a w1, m w = (Ok (Some a), w1) ∧ k a w1 = (r, w')).
Proof.
  unfold fbind. intros H. apply bind_cases in H as [?|([a|] & w1 & H1 & H)]; [by left| |].
  - right; right. eauto.
  - right; left. invs H. eauto.
Qed.

Lemma fret_cases {D A} (m : M D A) w r w' :
  fret m w = (r, w') →
  (∃ e, m w = (Err e, w') ∧ r = Err e) ∨ (∃ a, m w = (Ok a, w') ∧ r = Ok (Some a)).
Proof.
  unfold fret. intros H. apply bind_cases in H as [?|(a & w1 & H1 & H)]; [by left|].
  right. invs H. eauto.
Qed.
