(* ===== verification/Hoare.v ===== *)
(** * Specifications of database code

    [spec P m Q E]: run from a database that satisfies [P], under any schedule of
    faults, [m] ends with a value [a] and a database that satisfies [Q a], or with
    an error and a database that satisfies [E].  The rules follow the combinators
    of [Orm] and [Table]; [spec_auto] walks a program with them. *)

From S2P Require Import Prelude GoErrors Orm Table.

Definition spec {D A} (P : D → Prop) (m : M D A) (Q : A → D → Prop) (E : D → Prop) : Prop :=
  ∀ w r w', P (db w) → m w = (r, w') →
    match r with Ok a => Q a (db w') | Err _ => E (db w') end.

Section rules.
Context {D : Type}.
Implicit Types (P E : D → Prop).

Lemma spec_conseq {A} P P' (m : M D A) Q Q' E E' :
  spec P' m Q' E' → (∀ d, P d → P' d) → (∀ a d, Q' a d → Q a d) → (∀ d, E' d → E d) → spec P m Q E.
Proof. intros Hm HP HQ HE w [a|e] w' Hw H; [apply HQ|apply HE]; exact (Hm _ _ _ (HP _ Hw) H). Qed.

Lemma spec_pre {A} P P' (m : M D A) Q E : spec P' m Q E → (∀ d, P d → P' d) → spec P m Q E.
Proof. intros. by eapply spec_conseq. Qed.

Lemma spec_post {A} P (m : M D A) Q Q' E : spec P m Q' E → (∀ a d, Q' a d → Q a d) → spec P m Q E.
Proof. intros. by eapply spec_conseq. Qed.

(** Facts that do not depend on the database. *)
Lemma spec_pure {A} (φ : Prop) P (m : M D A) Q E :
  (φ → spec P m Q E) → spec (λ d, φ ∧ P d) m Q E.
Proof. intros H w r w' [Hφ Hw] Hr. by eapply H. Qed.

Lemma spec_ex {A B} (P : B → D → Prop) (m : M D A) Q E :
  (∀ b, spec (P b) m Q E) → spec (λ d, ∃ b, P b d) m Q E.
Proof. intros H w r w' [b Hw] Hr. by eapply H. Qed.

(** Name the state from which the program runs. *)
Lemma spec_exact {A} P (m : M D A) Q E : (∀ d, P d → spec (λ x, x = d) m Q E) → spec P m Q E.
Proof. intros H w r w' Hw Hr. exact (H _ Hw w r w' eq_refl Hr). Qed.

Lemma spec_ret {A} P (a : A) Q E : (∀ d, P d → Q a d) → spec P (mret a) Q E.
Proof. intros H w r w' Hw [= <- <-]. by apply H. Qed.

Lemma spec_fail {A} P e (Q : A → D → Prop) E : (∀ d, P d → E d) → spec P (fail e) Q E.
Proof. intros H w r w' Hw [= <- <-]. by apply H. Qed.

Lemma spec_of_result {A} P (x : result A) Q E :
  (∀ a d, x = Ok a → P d → Q a d) → (∀ d, P d → E d) → spec P (of_result x) Q E.
Proof. intros HQ HE w r w' Hw [= <- <-]. destruct x; eauto. Qed.

Lemma spec_bind {A B} P (m : M D A) R (k : A → M D B) Q E :
  spec P m R E → (∀ a, spec (R a) (k a) Q E) → spec P (m ≫= k) Q E.
Proof.
  intros Hm Hk w r w' Hw H. apply bind_cases in H as [(e & H & ->)|(a & w1 & H1 & H)].
  - exact (Hm _ _ _ Hw H).
  - exact (Hk a _ _ _ (Hm _ _ _ Hw H1) H).
Qed.

Lemma spec_try {A} P (m : M D A) (Q : A → D → Prop) E E' :
  spec P m Q E → spec P (try m) (λ r d, match r with Ok a => Q a d | Err _ => E d end) E'.
Proof.
  intros Hm w r w' Hw. unfold try. destruct (m w) as [x w1] eqn:H. intros [= <- <-].
  exact (Hm _ _ _ Hw H).
Qed.

Lemma spec_FromContext P Q E : (∀ d, P d → Q tt d) → (∀ d, P d → E d) → spec P FromContext Q E.
Proof.
  intros HQ HE w r w' Hw H. apply FromContext_cases in H as [-> [[-> _]|[e ->]]]; eauto.
Qed.

Lemma spec_stmt {A} P (f : D → result A * D) Q E :
  (∀ d, P d → match f d with (Ok a, d') => Q a d' | (Err _, d') => E d' end) →
  (∀ d, P d → E d) → spec P (stmt f) Q E.
Proof.
  intros Hf HE w r w' Hw H. apply stmt_cases in H as [_ [(e & -> & ->)|H]]; [by apply HE|].
  specialize (Hf _ Hw). rewrite H in Hf. by destruct r.
Qed.

Lemma spec_act {A} P (f : D → result A * D) Q E :
  (∀ d, P d → match f d with (Ok a, d') => Q a d' | (Err _, d') => E d' end) → spec P (act f) Q E.
Proof.
  intros Hf w r w' Hw. unfold act. specialize (Hf _ Hw). destruct (f (db w)) as [x d] eqn:F.
  intros [= <- <-]. by destruct x.
Qed.

Lemma spec_query {A} P (f : D → result A) Q E :
  (∀ d a, P d → f d = Ok a → Q a d) → (∀ d, P d → E d) → spec P (query f) Q E.
Proof.
  intros HQ HE. apply spec_stmt; [|done]. intros d Hd. destruct (f d) eqn:F; eauto.
Qed.

(** A failed transaction restores what held before it. *)
Lemma spec_WithTransaction {A} P (f : M D A) Q E E' :
  spec P f Q E' → (∀ d, P d → E d) → spec P (WithTransaction f) Q E.
Proof.
  intros Hf HE w r w' Hw H. destruct r as [a|e].
  - apply WithTransaction_ok in H as (w1 & w2 & Hd & _ & H & ->). rewrite <- Hd in Hw.
    exact (Hf _ _ _ Hw H).
  - apply WithTransaction_err in H as ->. by apply HE.
Qed.

Lemma spec_Read {R} P (f : D → option R) msg Q E :
  (∀ d a, P d → f d = Some a → Q a d) → (∀ d, P d → E d) → spec P (Read f msg) Q E.
Proof.
  intros HQ HE w r w' Hw H. apply Read_inv in H as [-> H]. destruct r; eauto.
Qed.

Lemma spec_affect P (f : D → option (result D)) msg wrap Q E :
  (∀ d d', P d → f d = Some (Ok d') → Q tt d') → (∀ d, P d → E d) → spec P (affect f msg wrap) Q E.
Proof.
  intros HQ HE. unfold affect.
  eapply (spec_bind _ _ (λ _, P)); [by apply spec_FromContext|intros []].
  eapply (spec_bind _ _ (λ r d, match r with
                                | Ok n => if (n =? 0)%Z then P d else Q tt d
                                | Err _ => P d end)).
  - apply (spec_try _ _ (λ n d, if (n =? 0)%Z then P d else Q tt d) P).
    apply spec_stmt; [|done]. intros d Hd. destruct (f d) as [[d'|e]|] eqn:F; simpl; eauto.
  - intros [n|e]; [|by apply spec_fail]. destruct (n =? 0)%Z; [by apply spec_fail|by apply spec_ret].
Qed.

Lemma spec_fbind {A B} P (m : M D (option A)) R (k : A → M D (option B)) Q E :
  spec P m (λ o d, match o with Some a => R a d | None => Q None d end) E →
  (∀ a, spec (R a) (k a) Q E) → spec P (fbind m k) Q E.
Proof.
  intros Hm Hk. unfold fbind. eapply spec_bind; [exact Hm|]. intros [a|]; [apply Hk|by apply spec_ret].
Qed.

Lemma spec_fret {A} P (m : M D A) Q E :
  spec P m (λ a, Q (Some a)) E → spec P (fret m) Q E.
Proof. intros Hm. unfold fret. eapply spec_bind; [exact Hm|]. intros a. by apply spec_ret. Qed.

Lemma spec_and {A} P P' (m : M D A) Q Q' E E' :
  spec P m Q E → spec P' m Q' E' →
  spec (λ d, P d ∧ P' d) m (λ a d, Q a d ∧ Q' a d) (λ d, E d ∧ E' d).
Proof.
  intros H1 H2 w r w' [Hw1 Hw2] H. specialize (H1 _ _ _ Hw1 H). specialize (H2 _ _ _ Hw2 H).
  by destruct r.
Qed.

(** Code that only reads. *)
Definition reads {A} (m : M D A) : Prop := preserves eq m.

Lemma spec_reads {A} P (m : M D A) : reads m → spec P m (λ _, P) P.
Proof. intros Hm w r w' Hw H. rewrite <- (Hm _ _ _ H). by destruct r. Qed.

Lemma spec_reads_E {A} P (m : M D A) E : reads m → (∀ d, P d → E d) → spec P m (λ _, P) E.
Proof. intros Hm HE. by eapply spec_conseq; [apply (spec_reads P), Hm|..]. Qed.

(** A reader returns what its specification says of an unchanged database. *)
Lemma spec_reads_val {A} P (m : M D A) (Q : A → D → Prop) E :
  reads m → spec P m Q (λ _, True) → (∀ d, P d → E d) → spec P m (λ a d, P d ∧ Q a d) E.
Proof.
  intros Hm HQ HE w r w' Hw H. specialize (HQ _ _ _ Hw H). pose proof (Hm _ _ _ H) as Hd.
  destruct r; rewrite <- Hd in *; eauto.
Qed.

End rules.

(** Case on the condition of a specified program. *)
Ltac spec_if := match goal with |- spec _ (if ?b then _ else _) _ _ => destruct b eqn:? end.

(** ** Keeping an invariant *)

(** [keeps I m]: [m] preserves [I] in every outcome. *)
Definition keeps {D A} (I : D → Prop) (m : M D A) : Prop := spec I m (λ _, I) I.

Lemma keeps_spec {D A} (P E : D → Prop) (m : M D A) :
  keeps P m → (∀ d, P d → E d) → spec P m (λ _, P) E.
Proof. intros Hm HE. by eapply spec_conseq. Qed.

Section keeps.
Context {D : Type} (I : D → Prop).

Lemma keeps_ret {A} (a : A) : keeps I (mret a).
Proof. by apply spec_ret. Qed.
Lemma keeps_fail {A} e : keeps I (fail e : M D A).
Proof. by apply spec_fail. Qed.
Lemma keeps_of_result {A} (x : result A) : keeps I (of_result x).
Proof. by apply spec_of_result. Qed.
Lemma keeps_bind {A B} (m : M D A) (k : A → M D B) :
  keeps I m → (∀ a, keeps I (k a)) → keeps I (m ≫= k).
Proof. intros. by eapply spec_bind. Qed.
Lemma keeps_try {A} (m : M D A) : keeps I m → keeps I (try m).
Proof.
  intros Hm. eapply spec_post; [exact (spec_try I m _ I I Hm)|]. intros [a|e] d; done.
Qed.
Lemma keeps_FromContext : keeps I FromContext.
Proof. by apply spec_FromContext. Qed.
Lemma keeps_query {A} (f : D → result A) : keeps I (query f).
Proof. by apply spec_query. Qed.
Lemma keeps_WithTransaction {A} (f : M D A) : keeps I f → keeps I (WithTransaction f).
Proof. intros. by eapply spec_WithTransaction. Qed.
Lemma keeps_Read {R} (f : D → option R) msg : keeps I (Read f msg).
Proof. by apply spec_Read. Qed.
Lemma keeps_fbind {A B} (m : M D (option A)) (k : A → M D (option B)) :
  keeps I m → (∀ a, keeps I (k a)) → keeps I (fbind m k).
Proof. intros Hm Hk. unfold fbind. apply keeps_bind; [done|]. intros [a|]; [done|apply keeps_ret]. Qed.
Lemma keeps_fret {A} (m : M D A) : keeps I m → keeps I (fret m).
Proof. intros. unfold fret. apply keeps_bind; [done|]. intros. apply keeps_ret. Qed.
Lemma keeps_reads {A} (m : M D A) : reads m → keeps I m.
Proof. intros. by apply spec_reads. Qed.
Lemma keeps_affect f msg wrap :
  (∀ d d', I d → f d = Some (Ok d') → I d') → keeps I (affect f msg wrap).
Proof. intros Hf. by apply spec_affect. Qed.
Lemma keeps_stmt {A} (f : D → result A * D) : (∀ d, I d → I (f d).2) → keeps I (stmt f).
Proof.
  intros Hf. apply spec_stmt; [|done]. intros d Hd. specialize (Hf d Hd). by destruct (f d) as [[a|e] d'].
Qed.
End keeps.

Create HintDb keeps.
#[export] Hint Resolve keeps_ret keeps_fail keeps_of_result keeps_FromContext keeps_query keeps_Read : keeps.

(** Walk a program down to its statements and calls. *)
Ltac keeps_step :=
  match goal with
  | |- ∀ _, _ => intros ?
  | |- keeps _ (mbind _ _) => apply keeps_bind
  | |- keeps _ (fbind _ _) => apply keeps_fbind
  | |- keeps _ (fret _) => apply keeps_fret
  | |- keeps _ (try _) => apply keeps_try
  | |- keeps _ (WithTransaction _) => apply keeps_WithTransaction
  | |- keeps _ (match ?x with _ => _ end) => destruct x
  | |- keeps _ _ => solve [eauto with keeps]
  end.
Ltac keeps_auto := repeat keeps_step.

(** ** The schedule of faults is only consumed *)

Definition tame {D A} (m : M D A) : Prop := ∀ w r w', m w = (r, w') → faults w' `suffix_of` faults w.

Section tame.
Context {D : Type}.

Lemma tame_ret {A} (a : A) : tame (mret a : M D A).
Proof. intros w r w' [= _ <-]. done. Qed.
Lemma tame_fail {A} e : tame (fail e : M D A).
Proof. intros w r w' [= _ <-]. done. Qed.
Lemma tame_of_result {A} (x : result A) : tame (of_result x : M D A).
Proof. intros w r w' [= _ <-]. done. Qed.
Lemma tame_FromContext : tame (FromContext : M D unit).
Proof. intros w r w' H. by apply FromContext_cases in H as [-> _]. Qed.
Lemma tame_bind {A B} (m : M D A) (k : A → M D B) : tame m → (∀ a, tame (k a)) → tame (m ≫= k).
Proof.
  intros Hm Hk w r w' H. apply bind_cases in H as [(e & H & _)|(a & w1 & H1 & H)]; [by eapply Hm|].
  etrans; [by eapply Hk|by eapply Hm].
Qed.
Lemma tame_try {A} (m : M D A) : tame m → tame (try m).
Proof. intros Hm w r w'. unfold try. destruct (m w) as [x w1] eqn:E. intros [= _ <-]. by eapply Hm. Qed.
Lemma tame_stmt {A} (f : D → result A * D) : tame (stmt f).
Proof.
  intros w r w'. unfold stmt. destruct (faults w) as [|[e|] fs] eqn:E.
  - destruct (f (db w)) as [x d]. intros [= _ <-]. simpl. done.
  - intros [= _ <-]. simpl. by apply suffix_cons_r.
  - destruct (f (db w)) as [x d]. intros [= _ <-]. simpl. by apply suffix_cons_r.
Qed.
Lemma tame_query {A} (f : D → result A) : tame (query f).
Proof. apply tame_stmt. Qed.
Lemma tame_WithTransaction {A} (f : M D A) : tame f → tame (WithTransaction f).
Proof.
  intros Hf. unfold WithTransaction. apply tame_bind; [apply tame_FromContext|intros []].
  apply tame_bind; [apply tame_query|intros []]. intros w r w'. unfold tx_end.
  destruct (f w) as [[a|e] w1] eqn:E; pose proof (Hf _ _ _ E) as H1.
  - destruct (query _ w1) as [[[]|e'] w2] eqn:Q; pose proof (tame_query _ _ _ _ Q) as H2;
      intros [= _ <-]; simpl; by etrans.
  - destruct (query _ _) as [[[]|e'] w2] eqn:Q; pose proof (tame_query _ _ _ _ Q) as H2;
      intros [= _ <-]; simpl in *; by etrans.
Qed.
Lemma tame_Read {R} (f : D → option R) msg : tame (Read f msg).
Proof.
  unfold Read. apply tame_bind; [apply tame_FromContext|intros []].
  apply tame_bind; [apply tame_try, tame_query|]. intros [a|e]; [apply tame_ret|apply tame_fail].
Qed.
Lemma tame_affect f msg wrap : tame (affect f msg wrap : M D unit).
Proof.
  unfold affect. apply tame_bind; [apply tame_FromContext|intros []].
  apply tame_bind; [apply tame_try, tame_stmt|]. intros [n|e]; [|apply tame_fail].
  destruct (n =? 0)%Z; [apply tame_fail|apply tame_ret].
Qed.
Lemma tame_fbind {A B} (m : M D (option A)) (k : A → M D (option B)) :
  tame m → (∀ a, tame (k a)) → tame (fbind m k).
Proof. intros Hm Hk. unfold fbind. apply tame_bind; [done|]. intros [a|]; [apply Hk|apply tame_ret]. Qed.
Lemma tame_fret {A} (m : M D A) : tame m → tame (fret m).
Proof. intros Hm. unfold fret. apply tame_bind; [done|]. intros. apply tame_ret. Qed.
End tame.

Create HintDb tame.
#[export] Hint Resolve tame_ret tame_fail tame_of_result tame_FromContext tame_stmt tame_query tame_Read
  tame_affect : tame.
Ltac tame_step :=
  match goal with
  | |- ∀ _, _ => intros ?
  | |- tame (mbind _ _) => apply tame_bind
  | |- tame (fbind _ _) => apply tame_fbind
  | |- tame (fret _) => apply tame_fret
  | |- tame (try _) => apply tame_try
  | |- tame (WithTransaction _) => apply tame_WithTransaction
  | |- tame (match ?x with _ => _ end) => destruct x
  | |- tame _ => solve [eauto with tame]
  end.
Ltac tame_auto := repeat tame_step.

(** ** A program on a part of the database *)

Definition zoom {D E A} (get : D → E) (put : E → D → D) (m : M E A) : M D A := λ w,
  let '(r, w') := m (mkWorld (get (db w)) (ctx_orm w) (faults w)) in
  (r, mkWorld (put (db w') (db w)) (ctx_orm w') (faults w')).

Section zoom.
Context {D E : Type} (get : D → E) (put : E → D → D).

Lemma zoom_eq {A} (m : M E A) d c fs r e c' fs' :
  m (mkWorld (get d) c fs) = (r, mkWorld e c' fs') →
  zoom get put m (mkWorld d c fs) = (r, mkWorld (put e d) c' fs').
Proof. intros H. unfold zoom. simpl. by rewrite H. Qed.

Lemma zoom_inv {A} (m : M E A) w r w' :
  zoom get put m w = (r, w') →
  ∃ w1, m (mkWorld (get (db w)) (ctx_orm w) (faults w)) = (r, w1) ∧ db w' = put (db w1) (db w).
Proof. unfold zoom. destruct (m _) as [x w1]. intros [= <- <-]. eauto. Qed.

Lemma spec_zoom {A} P (m : M E A) (Q : A → D → Prop) F :
  (∀ d, P d → spec (λ e, e = get d) m (λ a e, Q a (put e d)) (λ e, F (put e d))) →
  spec P (zoom get put m) Q F.
Proof.
  intros H w r w' HP Hr. apply zoom_inv in Hr as (w1 & Hm & Hd). rewrite Hd.
  pose proof (H _ HP (mkWorld _ _ _) _ _ eq_refl Hm) as Hq. by destruct r.
Qed.

Lemma keeps_zoom {A} (I : D → Prop) (J : E → Prop) (m : M E A) :
  keeps J m → (∀ d, I d → J (get d)) → (∀ d e, I d → J e → I (put e d)) → keeps I (zoom get put m).
Proof.
  intros Hm H1 H2. apply spec_zoom. intros d Hd. eapply spec_conseq; [exact Hm| | |]; simpl.
  - intros e ->. by apply H1.
  - intros _ e He. by apply H2.
  - intros e He. by apply H2.
Qed.

(** A program that only reads its part only reads. *)
Lemma reads_zoom {A} (m : M E A) : (∀ d, put (get d) d = d) → reads m → reads (zoom get put m).
Proof.
  intros Hid Hm w r w' H. apply zoom_inv in H as (w1 & Hw & ->). pose proof (Hm _ _ _ Hw) as Hd. simpl in Hd.
  by rewrite <- Hd, Hid.
Qed.

End zoom.

(** ** What a reader returns *)

(** [reading m φ]: [m] changes nothing, and what it returns satisfies [φ] of the
    database. *)
Definition reading {D A} (m : M D A) (φ : D → A → Prop) : Prop :=
  ∀ w r w', m w = (r, w') → db w' = db w ∧ ∀ a, r = Ok a → φ (db w) a.

Section reading.
Context {D : Type}.

Lemma reading_reads {A} (m : M D A) φ : reading m φ → reads m.
Proof. intros H w r w' E. symmetry. exact (proj1 (H _ _ _ E)). Qed.

Lemma reads_reading {A} (m : M D A) : reads m → reading m (λ _ _, True).
Proof. intros H w r w' E. split; [symmetry; exact (H _ _ _ E)|done]. Qed.

Lemma reading_conseq {A} (m : M D A) (φ ψ : D → A → Prop) :
  reading m φ → (∀ d a, φ d a → ψ d a) → reading m ψ.
Proof. intros H HI w r w' E. destruct (H _ _ _ E) as [Hd Hr]. eauto. Qed.

Lemma reading_ret {A} (a : A) : reading (mret a : M D A) (λ _ b, b = a).
Proof. intros w r w' [= <- <-]. naive_solver. Qed.

Lemma reading_fail {A} e (φ : D → A → Prop) : reading (fail e) φ.
Proof. intros w r w' [= <- <-]. done. Qed.

Lemma reading_of_result {A} (x : result A) : reading (of_result x : M D A) (λ _ a, x = Ok a).
Proof. intros w r w' [= <- <-]. naive_solver. Qed.

Lemma reading_FromContext : reading (FromContext : M D unit) (λ _ _, True).
Proof. intros w r w' H. by apply FromContext_cases in H as [-> _]. Qed.

Lemma reading_query {A} (f : D → result A) : reading (query f) (λ d a, f d = Ok a).
Proof.
  intros w r w' H. apply query_cases in H as [Hd Hr]. split; [done|]. intros a ->. naive_solver.
Qed.

Lemma reading_Read {R} (f : D → option R) msg : reading (Read f msg) (λ d a, f d = Some a).
Proof. intros w r w' H. exact (Read_inv f msg _ _ _ H). Qed.

Lemma reading_bind {A B} (m : M D A) (k : A → M D B) φ (ψ : A → D → B → Prop) :
  reading m φ → (∀ a, reading (k a) (ψ a)) → reading (m ≫= k) (λ d b, ∃ a, φ d a ∧ ψ a d b).
Proof.
  intros Hm Hk w r w' H. apply bind_cases in H as [(e & H & ->)|(a & w1 & H1 & H)].
  - destruct (Hm _ _ _ H) as [Hd _]. done.
  - destruct (Hm _ _ _ H1) as [Hd1 Ha]. destruct (Hk _ _ _ _ H) as [Hd Hb]. rewrite Hd1 in *.
    split; [done|]. intros b Hr. exists a. split; [by apply Ha|by apply Hb].
Qed.

Lemma reading_skip {A B} (m : M D A) (k : A → M D B) (ψ : D → B → Prop) :
  reads m → (∀ a, reading (k a) ψ) → reading (m ≫= k) ψ.
Proof.
  intros Hm Hk. eapply reading_conseq; [apply reading_bind; [by apply reads_reading|exact Hk]|]. naive_solver.
Qed.

Lemma reading_try {A} (m : M D A) φ :
  reading m φ → reading (try m) (λ d r, ∀ a, r = Ok a → φ d a).
Proof.
  intros Hm w r w'. unfold try. destruct (m w) as [x w1] eqn:E. intros [= <- <-].
  destruct (Hm _ _ _ E) as [Hd Hx]. split; [done|]. by intros ? [= <-].
Qed.

End reading.

Lemma reading_zoom {D E A} (get : D → E) (put : E → D → D) (m : M E A) φ :
  (∀ d, put (get d) d = d) → reading m φ → reading (zoom get put m) (λ d, φ (get d)).
Proof.
  intros Hid Hm w r w' H. apply zoom_inv in H as (w1 & Hw & Hd). destruct (Hm _ _ _ Hw) as [He Ha]. simpl in *.
  rewrite Hd, He. split; [apply Hid|done].
Qed.

Lemma spec_reading {D A} (m : M D A) φ d :
  reading m φ → spec (λ x, x = d) m (λ a x, x = d ∧ φ d a) (λ x, x = d).
Proof. intros Hm w r w' <- E. destruct (Hm _ _ _ E) as [Hd Ha]. destruct r; [|done]. split; [done|by apply Ha]. Qed.

(** Run a reader first. *)
Lemma spec_read_bind {D A B} (m : M D A) φ (k : A → M D B) d Q (E : D → Prop) :
  reading m φ → E d → (∀ a, φ d a → spec (λ x, x = d) (k a) Q E) → spec (λ x, x = d) (m ≫= k) Q E.
Proof.
  intros Hm HE Hk. eapply spec_bind; [eapply spec_conseq; [exact (spec_reading m φ d Hm)|done|intros ?? H; exact H|by intros x ->]|].
  intros a w r w' [Hw Ha] H. exact (Hk a Ha _ _ _ Hw H).
Qed.

Lemma spec_read {D A} (m : M D A) φ d (Q : A → D → Prop) (E : D → Prop) :
  reading m φ → E d → (∀ a, φ d a → Q a d) → spec (λ x, x = d) m Q E.
Proof. intros Hm HE HQ. eapply spec_conseq; [exact (spec_reading m φ d Hm)|done|intros a x [-> ?]; eauto|by intros x ->]. Qed.
