(* ===== verification/ArtifactStore.v ===== *)
(** * Artifacts, tags, accessories, labels and repositories: the stores

    [src/pkg/artifact], [src/pkg/tag], [src/pkg/accessory], [src/pkg/label],
    [src/pkg/artifactrash] and [src/pkg/repository]: models, data access and
    managers, with the constraints of the schema under
    [make/migrations/postgresql].  A unique or foreign key violation is the
    Postgres error that the data-access code inspects.  JSON columns are kept as
    texts.  Rows come in the order the code asks for, or in the order of the map
    where it asks for none; paging is not modelled. *)

From S2P Require Import Prelude GoErrors GoStrings Orm BlobStore Table.
Open Scope Z_scope.
Local Open Scope harbor_scope.

(** ** Models *)

(** [src/pkg/artifact/dao/model.go]; a null [pull_time] is [None]. *)
Record Artifact := mkArtifact {
  a_ID : Z; a_Type : string; a_MediaType : string; a_ManifestMediaType : string;
  a_ProjectID : Z; a_RepositoryID : Z; a_RepositoryName : string; a_Digest : string;
  a_Size : Z; a_Icon : string; a_PushTime : Z; a_PullTime : option Z;
  a_ExtraAttrs : string; a_Annotations : string }.

Record Reference := mkReference {
  r_ID : Z; r_ParentID : Z; r_ChildID : Z; r_ChildDigest : string;
  r_Platform : string; r_URLs : string; r_Annotations : string }.

(** [src/pkg/tag/model/tag/model.go] *)
Record Tag := mkTag {
  t_ID : Z; t_RepositoryID : Z; t_ArtifactID : Z; t_Name : string;
  t_PushTime : Z; t_PullTime : option Z }.

(** [src/pkg/accessory/dao/model.go] *)
Record Accessory := mkAccessory {
  c_ID : Z; c_ArtifactID : Z; c_SubjectArtifactID : Z; c_Type : string; c_Size : Z;
  c_Digest : string }.

(** [src/pkg/label/model/model.go] *)
Record Label := mkLabel {
  l_ID : Z; l_Name : string; l_Description : string; l_Color : string; l_Level : string;
  l_Scope : string; l_ProjectID : Z; l_Deleted : bool }.
Record LabelReference := mkLabelReference { lr_ID : Z; lr_LabelID : Z; lr_ArtifactID : Z }.

(** [src/pkg/artifactrash/model/model.go] *)
Record ArtifactTrash := mkArtifactTrash {
  x_ID : Z; x_MediaType : string; x_ManifestMediaType : string; x_RepositoryName : string;
  x_Digest : string; x_CreationTime : Z }.

(** [src/pkg/repository/model/model.go] *)
Record RepoRecord := mkRepoRecord {
  p_RepositoryID : Z; p_Name : string; p_ProjectID : Z; p_Description : string;
  p_PullCount : Z; p_StarCount : Z; p_CreationTime : Z }.

(** What the controllers announce through [notification.AddEvent] or publish;
    the events of a request are sent when it succeeds. *)
Inductive Event :=
  | PushArtifact (artifactID : Z) (tag : option string)
  | DeleteArtifact (artifactID : Z) (tags : list string)
  | ArtifactLabeled (artifactID labelID : Z).

Record ArtDB := mkArtDB {
  arts : table Artifact;
  refs : table Reference;
  tags : table Tag;
  accs : table Accessory;
  labels : table Label;
  labelrefs : table LabelReference;
  trash : table ArtifactTrash;
  repos : table RepoRecord;
  blobdb : BlobDB;
  events : list Event;
}.

Definition set_arts (x : table Artifact) (d : ArtDB) : ArtDB :=
  mkArtDB x (refs d) (tags d) (accs d) (labels d) (labelrefs d) (trash d) (repos d) (blobdb d) (events d).
Definition set_refs (x : table Reference) (d : ArtDB) : ArtDB :=
  mkArtDB (arts d) x (tags d) (accs d) (labels d) (labelrefs d) (trash d) (repos d) (blobdb d) (events d).
Definition set_tags (x : table Tag) (d : ArtDB) : ArtDB :=
  mkArtDB (arts d) (refs d) x (accs d) (labels d) (labelrefs d) (trash d) (repos d) (blobdb d) (events d).
Definition set_accs (x : table Accessory) (d : ArtDB) : ArtDB :=
  mkArtDB (arts d) (refs d) (tags d) x (labels d) (labelrefs d) (trash d) (repos d) (blobdb d) (events d).
Definition set_labels (x : table Label) (d : ArtDB) : ArtDB :=
  mkArtDB (arts d) (refs d) (tags d) (accs d) x (labelrefs d) (trash d) (repos d) (blobdb d) (events d).
Definition set_labelrefs (x : table LabelReference) (d : ArtDB) : ArtDB :=
  mkArtDB (arts d) (refs d) (tags d) (accs d) (labels d) x (trash d) (repos d) (blobdb d) (events d).
Definition set_trash (x : table ArtifactTrash) (d : ArtDB) : ArtDB :=
  mkArtDB (arts d) (refs d) (tags d) (accs d) (labels d) (labelrefs d) x (repos d) (blobdb d) (events d).
Definition set_repos (x : table RepoRecord) (d : ArtDB) : ArtDB :=
  mkArtDB (arts d) (refs d) (tags d) (accs d) (labels d) (labelrefs d) (trash d) x (blobdb d) (events d).
Definition set_blobdb (x : BlobDB) (d : ArtDB) : ArtDB :=
  mkArtDB (arts d) (refs d) (tags d) (accs d) (labels d) (labelrefs d) (trash d) (repos d) x (events d).
Definition add_event (e : Event) (d : ArtDB) : ArtDB :=
  mkArtDB (arts d) (refs d) (tags d) (accs d) (labels d) (labelrefs d) (trash d) (repos d) (blobdb d)
    (events d ++ [e]).

(** The columns of the artifact table that the blob queries join with. *)
Definition blob_view (d : ArtDB) : BlobDB :=
  mkBlobDB (blobs (blobdb d)) (project_blob (blobdb d)) (artifact_blob (blobdb d))
    ((λ a, (a_ProjectID a, a_Digest a)) <$> (map_to_list (rows (arts d))).*2)
    (blob_seq (blobdb d)) (now (blobdb d)).

Definition put_blobs (b : BlobDB) (d : ArtDB) : ArtDB :=
  set_blobdb (mkBlobDB (blobs b) (project_blob b) (artifact_blob b) (artifacts (blobdb d))
                (blob_seq b) (now b)) d.

(** Run a blob operation. *)
Definition on_blobs {A} (m : M BlobDB A) : M ArtDB A := λ w,
  let '(r, w') := m (mkWorld (blob_view (db w)) (ctx_orm w) (faults w)) in
  (r, mkWorld (put_blobs (db w') (db w)) (ctx_orm w') (faults w')).

Definition AddEvent (e : Event) : M ArtDB unit := λ w, (Ok tt, with_db w (add_event e (db w))).

(** [time.Now()] *)
Definition time_Now : M ArtDB Z := λ w, (Ok (now (blobdb (db w))), w).

Definition unique_violation : error := PgError "23505" "duplicate key value violates unique constraint".
Definition foreign_key_violation : error := PgError "23503" "violates foreign key constraint".

Definition wrap_with (fs : list (error → option error)) (e : error) : error :=
  match omap (λ f, f e) fs with x :: _ => x | [] => e end.

(** [SELECT ... ORDER BY] with decreasing keys. *)
Definition desc {R} (key : R → Z * Z) (x y : R) : Prop :=
  (key y).1 < (key x).1 ∨ ((key y).1 = (key x).1 ∧ (key y).2 <= (key x).2).
#[export] Instance desc_dec {R} (key : R → Z * Z) : RelDecision (desc key).
Proof. intros x y. unfold desc. apply _. Defined.
Definition order_desc {R} (key : R → Z * Z) (l : list R) : list R := merge_sort (desc key) l.

Lemma order_desc_perm {R} (key : R → Z * Z) l : order_desc key l ≡ₚ l.
Proof. apply merge_sort_Permutation. Qed.

Definition tagged (d : ArtDB) (id : Z) : Prop := select (λ t, t_ArtifactID t = id) (tags d) ≠ [].
Definition referenced_child (d : ArtDB) (id : Z) : Prop := select (λ r, r_ChildID r = id) (refs d) ≠ [].
Definition is_accessory (d : ArtDB) (id : Z) : Prop := select (λ c, c_ArtifactID c = id) (accs d) ≠ [].

#[export] Instance not_nil_dec {A} (l : list A) : Decision (l ≠ []).
Proof. destruct l; [right|left]; naive_solver. Defined.
#[export] Instance tagged_dec d i : Decision (tagged d i).
Proof. unfold tagged. apply _. Defined.
#[export] Instance referenced_child_dec d i : Decision (referenced_child d i).
Proof. unfold referenced_child. apply _. Defined.
#[export] Instance is_accessory_dec d i : Decision (is_accessory d i).
Proof. unfold is_accessory. apply _. Defined.

(** ** Artifacts: [src/pkg/artifact/dao/dao.go] *)

(** The keywords of a query that the package handles itself: [base], [tags] and
    [labels]; [where_] is the filter on columns that [orm.QuerySetter] makes of
    the others and [no_keywords] says that there are none at all. *)
Inductive base_value := BaseString (s : string) | BaseOther.
Inductive tags_value := TagsFuzzy (s : string) | TagsString (s : string) | TagsOther.
Inductive labels_value := LabelsAnd (l : list (option Z)) | LabelsOther.

Record ArtQuery := mkArtQuery {
  where_ : Artifact → bool;
  q_base : option base_value; q_tags : option tags_value; q_labels : option labels_value }.

(** [strings.Contains], the [LIKE] of an escaped pattern between wildcards. *)
Fixpoint contains_str (s sub : string) : bool :=
  HasPrefix s sub || match s with EmptyString => false | String _ s' => contains_str s' sub end.

Module artifact_dao.

Definition bad_request (msg : string) : error := WithMessage (WithCode (New EmptyString) BadRequestCode) msg.

Definition base_msg : string := "the value of base query can only be exact match value with *".
Definition tags_msg : string := "the value of tags query can only be fuzzy match value or exact match value".
Definition labels_msg : string :=
  "the value of labels query can only be integer list with intersetion relationship".

(** The artifacts the base filter keeps. *)
Definition both (d : ArtDB) (id : Z) : Prop := tagged d id ∨ ¬ referenced_child d id.
#[export] Instance both_dec d i : Decision (both d i).
Proof. unfold both. apply _. Defined.

Definition setBaseQuery (query : option ArtQuery) : result (ArtDB → Z → bool) :=
  match (q ← query; q_base q) with
  | None => Ok (λ d id, bool_decide (both d id))
  | Some (BaseString s) => if s == "*" then Ok (λ _ _, true) else Err (bad_request base_msg)
  | Some BaseOther => Err (bad_request base_msg)
  end.

(** [orm.CreateInClause] on the tag names: a query of its own. *)
Definition ids_by_tag (p : string → bool) : M ArtDB (list Z) :=
  _ ← FromContext;
  query (λ d, Ok (t_ArtifactID <$> select (λ t, p (t_Name t) = true) (tags d))).

Definition setTagQuery (query : option ArtQuery) : M ArtDB (ArtDB → Z → bool) :=
  match (q ← query; q_tags q) with
  | None => mret (λ _ _, true)
  | Some (TagsFuzzy f) =>
      ids ← ids_by_tag (λ n, contains_str n f);
      mret (λ _ id, bool_decide (id ∈ ids))
  | Some (TagsString s) =>
      if s == "*" then mret (λ d id, bool_decide (tagged d id))
      else if s == "nil" then mret (λ d id, negb (bool_decide (tagged d id)))
      else ids ← ids_by_tag (λ n, n == s); mret (λ _ id, bool_decide (id ∈ ids))
  | Some TagsOther => fail (bad_request tags_msg)
  end.

(** Without a label the clause is [IN ()], which Postgres does not parse: the
    first component is the error of the statement. *)
Definition setLabelQuery (query : option ArtQuery) : result (option error * (ArtDB → Z → bool)) :=
  match (q ← query; q_labels q) with
  | None => Ok (None, λ _ _, true)
  | Some LabelsOther => Err (bad_request labels_msg)
  | Some (LabelsAnd l) =>
      match mapM id l with
      | None => Err (bad_request labels_msg)
      | Some [] => Ok (Some (PgError "42601" "syntax error at or near )"), λ _ _, true)
      | Some ls =>
          Ok (None, λ d id, forallb (λ lab, bool_decide
            (select (λ lr, lr_LabelID lr = lab ∧ lr_ArtifactID lr = id) (labelrefs d) ≠ [])) ls)
      end
  end.

(** Applied whenever there is a query, also with [base=*]. *)
Definition setAccessoryQuery (query : option ArtQuery) (d : ArtDB) (id : Z) : bool :=
  match query with
  | None => true
  | Some _ => negb (bool_decide (is_accessory d id))
  end.

Record QuerySeter := mkQuerySeter { qs_err : option error; qs_filter : ArtDB → Artifact → bool }.

Definition querySetter (query : option ArtQuery) : M ArtDB QuerySeter :=
  _ ← FromContext;
  base ← of_result (setBaseQuery query);
  tag ← setTagQuery query;
  '(e, lab) ← of_result (setLabelQuery query);
  mret (mkQuerySeter e (λ d a,
    match query with None => true | Some q => where_ q a end
    && base d (a_ID a) && tag d (a_ID a) && lab d (a_ID a) && setAccessoryQuery query d (a_ID a))).

(** [GetDefaultSorts]: by push time, then by ID, both descending. *)
Definition GetDefaultSorts (a : Artifact) : Z * Z := (a_PushTime a, a_ID a).

Definition All (qs : QuerySeter) : M ArtDB (list Artifact) :=
  query (λ d, match qs_err qs with
              | Some e => Err e
              | None => Ok (order_desc GetDefaultSorts (select (λ a, qs_filter qs d a = true) (arts d)))
              end).

Definition Count (query : option ArtQuery) : M ArtDB Z :=
  qs ← querySetter query;
  l ← All qs; mret (Z.of_nat (length l)).

Definition List (query : option ArtQuery) : M ArtDB (list Artifact) :=
  qs ← querySetter query; All qs.

Definition Get (id : Z) : M ArtDB Artifact :=
  Read (λ d, rows (arts d) !! id) ("artifact " +:+ pretty id +:+ " not found").

Definition GetByDigest (repository digest : string) : M ArtDB Artifact :=
  _ ← FromContext;
  l ← query (λ d, Ok (order_desc GetDefaultSorts
         (select (λ a, a_RepositoryName a = repository ∧ a_Digest a = digest) (arts d))));
  match l with
  | [] => fail (WithMessage (WithCode (New EmptyString) NotFoundCode)
                  ("artifact " +:+ repository +:+ "@" +:+ digest +:+ " not found"))
  | a :: _ => mret a
  end.

Definition with_id (id : Z) (a : Artifact) : Artifact :=
  mkArtifact id (a_Type a) (a_MediaType a) (a_ManifestMediaType a) (a_ProjectID a) (a_RepositoryID a)
    (a_RepositoryName a) (a_Digest a) (a_Size a) (a_Icon a) (a_PushTime a) (a_PullTime a)
    (a_ExtraAttrs a) (a_Annotations a).

(** Unique on (repository_id, digest). *)
Definition same_artifact (a b : Artifact) : Prop :=
  a_RepositoryID a = a_RepositoryID b ∧ a_Digest a = a_Digest b.
#[export] Instance same_artifact_dec a b : Decision (same_artifact a b).
Proof. unfold same_artifact. apply _. Defined.

Definition insert_artifact (a : Artifact) (d : ArtDB) : result Z * ArtDB :=
  if decide (select (same_artifact a) (arts d) = [])
  then (Ok (next (arts d)), set_arts (add_row (λ n, with_id n a) (arts d)) d)
  else (Err unique_violation, d).

Definition conflict_msg (a : Artifact) : string :=
  "artifact " +:+ a_Digest a +:+ " already exists under the repository " +:+ pretty (a_RepositoryID a).

Definition wrap_err {A} (wrap : error → error) (m : M ArtDB A) : M ArtDB A :=
  r ← try m; match r with Ok a => mret a | Err e => fail (wrap e) end.

Definition Create (a : Artifact) : M ArtDB Z :=
  _ ← FromContext;
  wrap_err (λ e, WrapConflictError e (conflict_msg a)) (stmt (insert_artifact a)).

(** What still refers to an artifact row. *)
Definition artifact_in_use (d : ArtDB) (id : Z) : Prop :=
  tagged d id ∨ referenced_child d id ∨ is_accessory d id ∨
  select (λ r, r_ParentID r = id) (refs d) ≠ [] ∨
  select (λ c, c_SubjectArtifactID c = id) (accs d) ≠ [] ∨
  select (λ lr, lr_ArtifactID lr = id) (labelrefs d) ≠ [].
#[export] Instance artifact_in_use_dec d i : Decision (artifact_in_use d i).
Proof. unfold artifact_in_use. apply _. Defined.

Definition delete_artifact (id : Z) (d : ArtDB) : option (result ArtDB) :=
  match rows (arts d) !! id with
  | None => None
  | Some _ =>
      Some (if decide (artifact_in_use d id) then Err foreign_key_violation
            else Ok (set_arts (del_row id (arts d)) d))
  end.

Definition Delete (id : Z) : M ArtDB unit :=
  affect (delete_artifact id) ("artifact " +:+ pretty id +:+ " not found")
    (λ e, default e (AsForeignKeyError e
       ("the artifact " +:+ pretty id +:+ " is referenced by other resources"))).

(** [f] overwrites the columns named by the properties. *)
Definition Update (id : Z) (f : Artifact → Artifact) : M ArtDB unit :=
  affect (λ d, match rows (arts d) !! id with
               | None => None
               | Some a => Some (Ok (set_arts (put_row id (with_id id (f a)) (arts d)) d))
               end) ("artifact " +:+ pretty id +:+ " not found") (λ e, e).

Definition with_pull_time (a : Artifact) (t : Z) : Artifact :=
  mkArtifact (a_ID a) (a_Type a) (a_MediaType a) (a_ManifestMediaType a) (a_ProjectID a)
    (a_RepositoryID a) (a_RepositoryName a) (a_Digest a) (a_Size a) (a_Icon a) (a_PushTime a)
    (Some t) (a_ExtraAttrs a) (a_Annotations a).

(** The row changes only when the new time is later. *)
Definition UpdatePullTime (id pullTime : Z) : M ArtDB unit :=
  _ ← FromContext;
  stmt (λ d, (Ok tt,
    match rows (arts d) !! id with
    | None => d
    | Some a =>
        if match a_PullTime a with None => true | Some t => t <? pullTime end
        then set_arts (put_row id (with_pull_time a pullTime) (arts d)) d
        else d
    end)).

(** Unique on (parent_id, child_id), both foreign keys. *)
Definition insert_reference (r : Reference) (d : ArtDB) : result Z * ArtDB :=
  if decide (select (λ x, r_ParentID x = r_ParentID r ∧ r_ChildID x = r_ChildID r) (refs d) = [])
  then match rows (arts d) !! r_ParentID r, rows (arts d) !! r_ChildID r with
       | Some _, Some _ =>
           (Ok (next (refs d)), set_refs (add_row (λ n, mkReference n (r_ParentID r) (r_ChildID r)
              (r_ChildDigest r) (r_Platform r) (r_URLs r) (r_Annotations r)) (refs d)) d)
       | _, _ => (Err foreign_key_violation, d)
       end
  else (Err unique_violation, d).

Definition CreateReference (r : Reference) : M ArtDB Z :=
  let ids := ", parent artifact ID: " +:+ pretty (r_ParentID r) +:+ ", child artifact ID: "
             +:+ pretty (r_ChildID r) in
  _ ← FromContext;
  wrap_err (wrap_with
      [λ e, AsConflictError e ("reference already exists" +:+ ids);
       λ e, AsForeignKeyError e ("the reference tries to reference a non existing artifact" +:+ ids)])
    (stmt (insert_reference r)).

Definition ListReferences (P : Reference → Prop) `{!∀ r, Decision (P r)} : M ArtDB (list Reference) :=
  _ ← FromContext; query (λ d, Ok (select P (refs d))).

Definition DeleteReference (id : Z) : M ArtDB unit :=
  affect (λ d, match rows (refs d) !! id with
               | None => None
               | Some _ => Some (Ok (set_refs (del_row id (refs d)) d))
               end) ("artifact reference " +:+ pretty id +:+ " not found") (λ e, e).

Definition DeleteReferences (parentID : Z) : M ArtDB unit :=
  _ ← Get parentID;
  _ ← FromContext;
  stmt (λ d, (Ok tt, set_refs (del_rows (λ r, r_ParentID r = parentID) (refs d)) d)).

End artifact_dao.

(** ** Artifacts: [src/pkg/artifact/manager.go], [src/pkg/artifact/model.go] *)

Definition MediaTypeImageIndex : string := "application/vnd.oci.image.index.v1+json".
Definition MediaTypeManifestList : string := "application/vnd.docker.distribution.manifest.list.v2+json".

Definition IsImageIndex (a : Artifact) : bool :=
  (a_ManifestMediaType a == MediaTypeImageIndex) || (a_ManifestMediaType a == MediaTypeManifestList).

(** An artifact with its references. *)
Record ArtifactRefs := mkArtifactRefs { ar_row : Artifact; ar_References : list Reference }.

Module artifact_mgr.

Definition ListReferences (P : Reference → Prop) `{!∀ r, Decision (P r)} : M ArtDB (list Reference) :=
  artifact_dao.ListReferences P.

Definition assemble (a : Artifact) : M ArtDB ArtifactRefs :=
  if IsImageIndex a
  then rs ← ListReferences (λ r, r_ParentID r = a_ID a); mret (mkArtifactRefs a rs)
  else mret (mkArtifactRefs a []).

Fixpoint assemble_all (l : list Artifact) : M ArtDB (list ArtifactRefs) :=
  match l with
  | [] => mret []
  | a :: l => x ← assemble a; xs ← assemble_all l; mret (x :: xs)
  end.

Definition Count (query : option ArtQuery) : M ArtDB Z := artifact_dao.Count query.
Definition List (query : option ArtQuery) : M ArtDB (list ArtifactRefs) :=
  l ← artifact_dao.List query; assemble_all l.
Definition Get (id : Z) : M ArtDB ArtifactRefs := a ← artifact_dao.Get id; assemble a.
Definition GetByDigest (repository digest : string) : M ArtDB ArtifactRefs :=
  a ← artifact_dao.GetByDigest repository digest; assemble a.

Fixpoint create_references (parent : Z) (l : list Reference) : M ArtDB unit :=
  match l with
  | [] => mret tt
  | r :: l =>
      _ ← artifact_dao.CreateReference (mkReference (r_ID r) parent (r_ChildID r) (r_ChildDigest r)
            (r_Platform r) (r_URLs r) (r_Annotations r));
      create_references parent l
  end.

Definition Create (a : ArtifactRefs) : M ArtDB Z :=
  id ← artifact_dao.Create (ar_row a);
  _ ← create_references id (ar_References a);
  mret id.

Definition Delete (id : Z) : M ArtDB unit :=
  _ ← artifact_dao.DeleteReferences id; artifact_dao.Delete id.

Definition Update (id : Z) (f : Artifact → Artifact) : M ArtDB unit := artifact_dao.Update id f.
Definition UpdatePullTime (id pullTime : Z) : M ArtDB unit := artifact_dao.UpdatePullTime id pullTime.
Definition DeleteReference (id : Z) : M ArtDB unit := artifact_dao.DeleteReference id.

End artifact_mgr.

(** ** Tags: [src/pkg/tag/dao/dao.go]; the manager only forwards *)

Module tag_dao.
Import artifact_dao(wrap_err).

Definition GetDefaultSorts (t : Tag) : Z * Z := (t_PushTime t, t_ID t).

Definition Count (P : Tag → Prop) `{!∀ t, Decision (P t)} : M ArtDB Z :=
  _ ← FromContext; query (λ d, Ok (Z.of_nat (length (select P (tags d))))).

Definition List (P : Tag → Prop) `{!∀ t, Decision (P t)} : M ArtDB (list Tag) :=
  _ ← FromContext; query (λ d, Ok (order_desc GetDefaultSorts (select P (tags d)))).

Definition Get (id : Z) : M ArtDB Tag :=
  Read (λ d, rows (tags d) !! id) ("tag " +:+ pretty id +:+ " not found").

Definition with_id (id : Z) (t : Tag) : Tag :=
  mkTag id (t_RepositoryID t) (t_ArtifactID t) (t_Name t) (t_PushTime t) (t_PullTime t).

(** Unique on (repository_id, name). *)
Definition same_tag (t u : Tag) : Prop := t_RepositoryID t = t_RepositoryID u ∧ t_Name t = t_Name u.
#[export] Instance same_tag_dec t u : Decision (same_tag t u).
Proof. unfold same_tag. apply _. Defined.

Definition insert_tag (t : Tag) (d : ArtDB) : result Z * ArtDB :=
  if decide (select (same_tag t) (tags d) = [])
  then match rows (arts d) !! t_ArtifactID t with
       | Some _ => (Ok (next (tags d)), set_tags (add_row (λ n, with_id n t) (tags d)) d)
       | None => (Err foreign_key_violation, d)
       end
  else (Err unique_violation, d).

Definition attach_msg (t : string) (a : Z) : string :=
  "the tag " +:+ t +:+ " tries to attach to a non existing artifact " +:+ pretty a.

Definition Create (t : Tag) : M ArtDB Z :=
  _ ← FromContext;
  wrap_err (wrap_with
      [λ e, AsConflictError e ("tag " +:+ t_Name t +:+ " already exists under the repository "
                                 +:+ pretty (t_RepositoryID t));
       λ e, AsForeignKeyError e (attach_msg (t_Name t) (t_ArtifactID t))])
    (stmt (insert_tag t)).

(** The properties the callers update. *)
Inductive props :=
  | ArtifactID_PushTime (artifactID pushTime : Z)
  | PullTime (t : Z).
Definition apply_props (p : props) (t : Tag) : Tag :=
  match p with
  | ArtifactID_PushTime a pt => mkTag (t_ID t) (t_RepositoryID t) a (t_Name t) pt (t_PullTime t)
  | PullTime pt => mkTag (t_ID t) (t_RepositoryID t) (t_ArtifactID t) (t_Name t) (t_PushTime t) (Some pt)
  end.

Definition update_tag (id : Z) (p : props) (d : ArtDB) : option (result ArtDB) :=
  match rows (tags d) !! id with
  | None => None
  | Some t =>
      let t' := apply_props p t in
      Some (match rows (arts d) !! t_ArtifactID t' with
            | Some _ => Ok (set_tags (put_row id t' (tags d)) d)
            | None => Err foreign_key_violation
            end)
  end.

Definition Update (id : Z) (artifactID : Z) (p : props) : M ArtDB unit :=
  affect (update_tag id p) ("tag " +:+ pretty id +:+ " not found")
    (λ e, default e (AsForeignKeyError e (attach_msg (pretty id) artifactID))).

Definition Delete (id : Z) : M ArtDB unit :=
  affect (λ d, match rows (tags d) !! id with
               | None => None
               | Some _ => Some (Ok (set_tags (del_row id (tags d)) d))
               end) ("tag " +:+ pretty id +:+ " not found") (λ e, e).

Definition DeleteOfArtifact (artifactID : Z) : M ArtDB unit :=
  _ ← FromContext;
  stmt (λ d, (Ok tt, set_tags (del_rows (λ t, t_ArtifactID t = artifactID) (tags d)) d)).

End tag_dao.

(** ** Accessories: [src/pkg/accessory] *)

(** [src/pkg/accessory/model/accessory.go] and the registered factories [base],
    [cosign] and [nydus]. *)
Definition TypeNone : string := "base".
Definition TypeCosignSignature : string := "signature.cosign".
Definition TypeNydusAccelerator : string := "accelerator.nydus".
Definition RefNone : string := "base".
Definition RefHard : string := "hard".

Definition accessory_New (typ : string) : result string :=
  if typ == TypeNone then Ok RefNone
  else if typ == TypeCosignSignature then Ok RefHard
  else if typ == TypeNydusAccelerator then Ok RefHard
  else Err (PlainError ("accessory type " +:+ typ +:+ " not support")).

(** [IsHard] of the value the factory makes. *)
Definition IsHard (c : Accessory) : bool :=
  match accessory_New (c_Type c) with Ok k => k == RefHard | Err _ => false end.

Module accessory_dao.
Import artifact_dao(wrap_err).

Definition Count (P : Accessory → Prop) `{!∀ c, Decision (P c)} : M ArtDB Z :=
  _ ← FromContext; query (λ d, Ok (Z.of_nat (length (select P (accs d))))).

Definition List (P : Accessory → Prop) `{!∀ c, Decision (P c)} : M ArtDB (list Accessory) :=
  _ ← FromContext; query (λ d, Ok (select P (accs d))).

Definition Get (id : Z) : M ArtDB Accessory :=
  Read (λ d, rows (accs d) !! id) ("accessory " +:+ pretty id +:+ " not found").

(** Unique on (artifact_id, subject_artifact_id), both foreign keys. *)
Definition insert_accessory (c : Accessory) (d : ArtDB) : result Z * ArtDB :=
  if decide (select (λ x, c_ArtifactID x = c_ArtifactID c ∧
                          c_SubjectArtifactID x = c_SubjectArtifactID c) (accs d) = [])
  then match rows (arts d) !! c_ArtifactID c, rows (arts d) !! c_SubjectArtifactID c with
       | Some _, Some _ =>
           (Ok (next (accs d)), set_accs (add_row (λ n, mkAccessory n (c_ArtifactID c)
              (c_SubjectArtifactID c) (c_Type c) (c_Size c) (c_Digest c)) (accs d)) d)
       | _, _ => (Err foreign_key_violation, d)
       end
  else (Err unique_violation, d).

Definition Create (c : Accessory) : M ArtDB Z :=
  _ ← FromContext;
  wrap_err (wrap_with
      [λ e, AsConflictError e ("accessory " +:+ c_Digest c +:+ " already exists under the artifact "
                                 +:+ pretty (c_SubjectArtifactID c));
       λ e, AsForeignKeyError e ("the accessory " +:+ c_Digest c
              +:+ " tries to attach to a non existing artifact " +:+ pretty (c_SubjectArtifactID c))])
    (stmt (insert_accessory c)).

Definition Delete (id : Z) : M ArtDB unit :=
  affect (λ d, match rows (accs d) !! id with
               | None => None
               | Some _ => Some (Ok (set_accs (del_row id (accs d)) d))
               end) ("accessory " +:+ pretty id +:+ " not found") (λ e, e).

Definition DeleteAccessories (P : Accessory → Prop) `{!∀ c, Decision (P c)} : M ArtDB Z :=
  _ ← FromContext;
  stmt (λ d, (Ok (Z.of_nat (length (select P (accs d)))), set_accs (del_rows P (accs d)) d)).

End accessory_dao.

Module accessory_mgr.

Definition Create (c : Accessory) : M ArtDB Z := accessory_dao.Create c.

(** An accessory of this artifact and digest is taken for the wanted one,
    whatever its subject. *)
Definition Ensure (subArtID artifactID size : Z) (digest accType : string) : M ArtDB unit :=
  l ← accessory_dao.List (λ c, c_ArtifactID c = artifactID ∧ c_Digest c = digest);
  match l with
  | _ :: _ => mret tt
  | [] => _ ← Create (mkAccessory 0 artifactID subArtID accType size digest); mret tt
  end.

(** An unknown type makes the whole list fail. *)
Definition List (P : Accessory → Prop) `{!∀ c, Decision (P c)} : M ArtDB (list Accessory) :=
  l ← accessory_dao.List P;
  match find (λ c, negb (is_ok (accessory_New (c_Type c)))) l with
  | Some c => fail (HError (Some (PlainError ("accessory type " +:+ c_Type c +:+ " not support")))
                      BadRequestCode EmptyString)
  | None => mret l
  end.

Definition Get (id : Z) : M ArtDB Accessory :=
  c ← accessory_dao.Get id;
  match accessory_New (c_Type c) with Ok _ => mret c | Err e => fail e end.

Definition Count (P : Accessory → Prop) `{!∀ c, Decision (P c)} : M ArtDB Z := accessory_dao.Count P.
Definition Delete (id : Z) : M ArtDB unit := accessory_dao.Delete id.
Definition DeleteAccessories (P : Accessory → Prop) `{!∀ c, Decision (P c)} : M ArtDB unit :=
  _ ← accessory_dao.DeleteAccessories P; mret tt.

End accessory_mgr.

(** ** Labels: [src/pkg/label/dao/dao.go], [src/pkg/label/manager.go] *)

Module label_dao.
Import artifact_dao(wrap_err).

Definition Get (id : Z) : M ArtDB Label :=
  Read (λ d, rows (labels d) !! id) ("label " +:+ pretty id +:+ " not found").

Definition with_id (id : Z) (l : Label) : Label :=
  mkLabel id (l_Name l) (l_Description l) (l_Color l) (l_Level l) (l_Scope l) (l_ProjectID l) (l_Deleted l).

(** Unique on (name, scope, project_id). *)
Definition same_label (l m : Label) : Prop :=
  l_Name l = l_Name m ∧ l_Scope l = l_Scope m ∧ l_ProjectID l = l_ProjectID m.
#[export] Instance same_label_dec l m : Decision (same_label l m).
Proof. unfold same_label. apply _. Defined.

Definition label_conflict (l : Label) (e : error) : error :=
  WrapConflictError e ("label " +:+ l_Name l +:+ " already exists").

Definition Create (l : Label) : M ArtDB Z :=
  _ ← FromContext;
  wrap_err (label_conflict l) (stmt (λ d,
    if decide (select (same_label l) (labels d) = [])
    then (Ok (next (labels d)), set_labels (add_row (λ n, with_id n l) (labels d)) d)
    else (Err unique_violation, d))).

(** No affected row is not an error here. *)
Definition Update (l : Label) : M ArtDB unit :=
  _ ← FromContext;
  wrap_err (label_conflict l) (stmt (λ d,
    match rows (labels d) !! l_ID l with
    | None => (Ok tt, d)
    | Some _ =>
        if decide (select (λ m, same_label l m ∧ l_ID m ≠ l_ID l) (labels d) = [])
        then (Ok tt, set_labels (put_row (l_ID l) l (labels d)) d)
        else (Err unique_violation, d)
    end)).

Definition Delete (id : Z) : M ArtDB unit :=
  affect (λ d, match rows (labels d) !! id with
               | None => None
               | Some _ =>
                   Some (if decide (select (λ r, lr_LabelID r = id) (labelrefs d) = [])
                         then Ok (set_labels (del_row id (labels d)) d)
                         else Err foreign_key_violation)
               end) ("label " +:+ pretty id +:+ " not found") (λ e, e).

Definition ListByArtifact (artifactID : Z) : M ArtDB (list Label) :=
  _ ← FromContext;
  query (λ d, Ok (omap (λ r, rows (labels d) !! lr_LabelID r)
                    (select (λ r, lr_ArtifactID r = artifactID) (labelrefs d)))).

Definition insert_labelref (labelID artifactID : Z) (d : ArtDB) : result Z * ArtDB :=
  if decide (select (λ r, lr_LabelID r = labelID ∧ lr_ArtifactID r = artifactID) (labelrefs d) = [])
  then match rows (labels d) !! labelID, rows (arts d) !! artifactID with
       | Some _, Some _ =>
           (Ok (next (labelrefs d)),
            set_labelrefs (add_row (λ n, mkLabelReference n labelID artifactID) (labelrefs d)) d)
       | _, _ => (Err foreign_key_violation, d)
       end
  else (Err unique_violation, d).

Definition CreateReference (labelID artifactID : Z) : M ArtDB Z :=
  let names := "label " +:+ pretty labelID in
  _ ← FromContext;
  wrap_err (wrap_with
      [λ e, AsConflictError e (names +:+ " is already added to the artifact " +:+ pretty artifactID);
       λ e, (λ e', WithCode e' NotFoundCode) <$> AsForeignKeyError e
              ("the reference tries to refer a non existing " +:+ names +:+ " or artifact "
                 +:+ pretty artifactID)])
    (stmt (insert_labelref labelID artifactID)).

Definition DeleteReferences (P : LabelReference → Prop) `{!∀ r, Decision (P r)} : M ArtDB Z :=
  _ ← FromContext;
  stmt (λ d, (Ok (Z.of_nat (length (select P (labelrefs d)))), set_labelrefs (del_rows P (labelrefs d)) d)).

End label_dao.

Module label_mgr.

Definition AddTo (labelID artifactID : Z) : M ArtDB unit :=
  _ ← label_dao.CreateReference labelID artifactID; mret tt.

Definition RemoveFrom (labelID artifactID : Z) : M ArtDB unit :=
  n ← label_dao.DeleteReferences (λ r, lr_LabelID r = labelID ∧ lr_ArtifactID r = artifactID);
  if n =? 0
  then fail (WithMessage (NotFoundError None) ("reference with label " +:+ pretty labelID
               +:+ " and artifact " +:+ pretty artifactID +:+ " not found"))
  else mret tt.

Definition RemoveAllFrom (artifactID : Z) : M ArtDB unit :=
  _ ← label_dao.DeleteReferences (λ r, lr_ArtifactID r = artifactID); mret tt.

Definition RemoveFromAllArtifacts (labelID : Z) : M ArtDB unit :=
  _ ← label_dao.DeleteReferences (λ r, lr_LabelID r = labelID); mret tt.

End label_mgr.

(** ** The trash: [src/pkg/artifactrash/dao/dao.go] *)

Module trash_dao.
Import artifact_dao(wrap_err).

(** Unique on (repository_name, digest). *)
Definition Create (x : ArtifactTrash) : M ArtDB Z :=
  _ ← FromContext;
  wrap_err (λ e, WrapConflictError e ("artifact trash " +:+ x_Digest x
                   +:+ " already exists under the repository " +:+ x_RepositoryName x))
    (stmt (λ d,
       if decide (select (λ y, x_RepositoryName y = x_RepositoryName x ∧ x_Digest y = x_Digest x)
                    (trash d) = [])
       then (Ok (next (trash d)), set_trash (add_row (λ n, mkArtifactTrash n (x_MediaType x)
               (x_ManifestMediaType x) (x_RepositoryName x) (x_Digest x) (now (blobdb d))) (trash d)) d)
       else (Err unique_violation, d))).

Definition Delete (id : Z) : M ArtDB unit :=
  affect (λ d, match rows (trash d) !! id with
               | None => None
               | Some _ => Some (Ok (set_trash (del_row id (trash d)) d))
               end) ("artifact trash " +:+ pretty id +:+ " not found") (λ e, e).

(** Old enough and without an artifact row of the same repository and digest. *)
Definition Filter (cutOff : Z) : M ArtDB (list ArtifactTrash) :=
  _ ← FromContext;
  query (λ d, Ok (select (λ x, x_CreationTime x <= cutOff ∧
    select (λ a, a_RepositoryName a = x_RepositoryName x ∧ a_Digest a = x_Digest x) (arts d) = [])
    (trash d))).

Definition Flush (cutOff : Z) : M ArtDB unit :=
  _ ← FromContext;
  stmt (λ d, (Ok tt, set_trash (del_rows (λ x, x_CreationTime x <= cutOff) (trash d)) d)).

End trash_dao.

(** ** Repositories: [src/pkg/repository/dao/dao.go], [src/pkg/repository/manager.go] *)

Module repo_mgr.
Import artifact_dao(wrap_err).

Definition GetDefaultSorts (p : RepoRecord) : Z * Z := (p_CreationTime p, p_RepositoryID p).

Definition Count (P : RepoRecord → Prop) `{!∀ p, Decision (P p)} : M ArtDB Z :=
  _ ← FromContext; query (λ d, Ok (Z.of_nat (length (select P (repos d))))).

Definition List (P : RepoRecord → Prop) `{!∀ p, Decision (P p)} : M ArtDB (list RepoRecord) :=
  _ ← FromContext; query (λ d, Ok (order_desc GetDefaultSorts (select P (repos d)))).

Definition Get (id : Z) : M ArtDB RepoRecord :=
  Read (λ d, rows (repos d) !! id) ("repository " +:+ pretty id +:+ " not found").

Definition GetByName (name : string) : M ArtDB RepoRecord :=
  l ← List (λ p, p_Name p = name);
  match l with
  | [] => fail (WithMessage (WithCode (New EmptyString) NotFoundCode)
                  ("repository " +:+ name +:+ " not found"))
  | p :: _ => mret p
  end.

(** Unique on the name; the creation time is set by the ORM. *)
Definition Create (name : string) (projectID : Z) : M ArtDB Z :=
  _ ← FromContext;
  wrap_err (λ e, WrapConflictError e ("repository " +:+ name +:+ " already exists"))
    (stmt (λ d,
       if decide (select (λ p, p_Name p = name) (repos d) = [])
       then (Ok (next (repos d)), set_repos (add_row (λ n,
               mkRepoRecord n name projectID EmptyString 0 0 (now (blobdb d))) (repos d)) d)
       else (Err unique_violation, d))).

Definition Delete (id : Z) : M ArtDB unit :=
  affect (λ d, match rows (repos d) !! id with
               | None => None
               | Some _ => Some (Ok (set_repos (del_row id (repos d)) d))
               end) ("repository " +:+ pretty id +:+ " not found") (λ e, e).

(** [f] overwrites the columns named by the properties; a name that is taken is
    a violation that the code returns as it is. *)
Definition Update (id : Z) (f : RepoRecord → RepoRecord) : M ArtDB unit :=
  affect (λ d, match rows (repos d) !! id with
               | None => None
               | Some p =>
                   let p' := mkRepoRecord id (p_Name (f p)) (p_ProjectID (f p)) (p_Description (f p))
                               (p_PullCount (f p)) (p_StarCount (f p)) (p_CreationTime (f p)) in
                   Some (if decide (select (λ x, p_Name x = p_Name p' ∧ p_RepositoryID x ≠ id)
                                      (repos d) = [])
                         then Ok (set_repos (put_row id p' (repos d)) d)
                         else Err unique_violation)
               end) ("repository " +:+ pretty id +:+ " not found") (λ e, e).

(** The increment is done by the database; the column is an [int]. *)
Definition AddPullCount (id count : Z) : M ArtDB unit :=
  _ ← FromContext;
  n ← stmt (λ d, match rows (repos d) !! id with
                 | None => (Ok 0, d)
                 | Some p =>
                     if p_PullCount p + count <? 2 ^ 31
                     then (Ok 1, set_repos (put_row id (mkRepoRecord id (p_Name p) (p_ProjectID p)
                            (p_Description p) (p_PullCount p + count) (p_StarCount p)
                            (p_CreationTime p)) (repos d)) d)
                     else (Err (PgError "22003" "integer out of range"), d)
                 end);
  if n =? 0
  then fail (WithMessage (New EmptyString)
               ("failed to increase repository pull count: " +:+ pretty id))
  else mret tt.

Definition NonEmptyRepos : M ArtDB (list RepoRecord) :=
  _ ← FromContext;
  query (λ d, Ok (select (λ p, select (λ t, t_RepositoryID t = p_RepositoryID p) (tags d) ≠ []) (repos d))).

End repo_mgr.
