(* ===== verification/ArtifactCtl.v ===== *)
(** * Tag, artifact and repository controllers

    [src/controller/tag/controller.go], [src/controller/artifact/controller.go],
    [src/controller/artifact/abstractor.go], [src/controller/repository/controller.go].
    The registry's content, the notary service, the digest grammar, the
    processors of artifact types and the immutability rules of a project are
    parameters.  Links to additions and icons of the views are not modelled. *)

From S2P Require Import Prelude GoErrors GoStrings Security Retention.
From S2P Require Import Orm BlobStore Table ArtifactStore.
Open Scope Z_scope.
Local Open Scope harbor_scope.

(** A layer or manifest content as its JSON decoders see it; [None] is a decoding
    error. *)
Record IndexEntry := mkIndexEntry {
  ie_Digest : string; ie_Platform : string; ie_URLs : string; ie_Annotations : string }.
Record ManifestV2 := mkManifestV2 {
  mv_ConfigMediaType : string; mv_ConfigSize : Z; mv_LayerSizes : list Z;
  mv_Annotations : gmap string string; mv_AnnotationsText : string }.
Record Content := mkContent {
  k_Len : Z;
  k_AsV1 : option (list string);       (* digests of the file system layers *)
  k_AsV2 : option ManifestV2;
  k_AsIndex : option (list IndexEntry * gmap string string * string) }.

(** What the controllers call outside the database. *)
Record Services := mkServices {
  doublestar_Match : string → string → result bool;
  immutable_rules : Z → result (list ImmutableRule);
  GetCheckerByRepo : string → result (gmap string string);
  digest_Parse : string → bool;
  PullManifest : string → string → result (string * Content);
  regCli_Copy : string → string → string → result unit;
  proc_AbstractMetadata : Artifact → list Reference → Content → result (string * string);
  proc_GetArtifactType : string → string;
  proMgr_Get : string → result Z;
}.

(** ** [src/controller/tag] *)

Record TagOption := mkTagOption {
  WithImmutableStatus : bool; WithSignature : bool; SignatureChecker : option (gmap string string) }.

Record TagView := mkTagView { tv_Tag : Tag; tv_Immutable : bool; tv_Signed : bool }.

(** [src/pkg/signature/manager.go] *)
Definition IsTagSigned (signatures : gmap string string) (tag digest : string) : bool :=
  if digest == "" then bool_decide (is_Some (signatures !! tag))
  else digest == default EmptyString (signatures !! tag).

Module tag_ctl.
Section tag_ctl.
Context (sv : Services).

Definition candidate (a : Artifact) (name : string) : Candidate :=
  mkCandidate (a_ProjectID a) EmptyString (repository_rest (a_RepositoryName a)) EmptyString [name]
    EmptyString 0 0 0 [] 0 ∅.

Definition immutable (a : Artifact) (name : string) : result bool :=
  Match (doublestar_Match sv) (immutable_rules sv) (a_ProjectID a) (candidate a name).

Definition populateImmutableStatus (t : TagView) : M ArtDB TagView :=
  r ← try (artifact_mgr.Get (t_ArtifactID (tv_Tag t)));
  match r with
  | Err _ => mret t
  | Ok a =>
      match immutable (ar_row a) (t_Name (tv_Tag t)) with
      | Err _ => mret t
      | Ok matched => mret (mkTagView (tv_Tag t) matched (tv_Signed t))
      end
  end.

(** The checker is fetched once per option value and kept in it. *)
Definition populateTagSignature (t : TagView) (o : TagOption) : M ArtDB (TagView * TagOption) :=
  r ← try (artifact_mgr.Get (t_ArtifactID (tv_Tag t)));
  match r with
  | Err _ => mret (t, o)
  | Ok a =>
      match
        match SignatureChecker o with
        | Some chk => Ok chk
        | None => GetCheckerByRepo sv (a_RepositoryName (ar_row a))
        end
      with
      | Err _ => mret (t, o)
      | Ok chk =>
          mret (mkTagView (tv_Tag t) (tv_Immutable t)
                  (IsTagSigned chk (t_Name (tv_Tag t)) (a_Digest (ar_row a))),
                mkTagOption (WithImmutableStatus o) (WithSignature o) (Some chk))
      end
  end.

Definition assembleTag (t : Tag) (o : option TagOption) : M ArtDB (TagView * option TagOption) :=
  let v := mkTagView t false false in
  match o with
  | None => mret (v, None)
  | Some o =>
      v ← (if WithImmutableStatus o then populateImmutableStatus v else mret v);
      if WithSignature o
      then '(v, o) ← populateTagSignature v o; mret (v, Some o)
      else mret (v, Some o)
  end.

(** The tags, and the option as the callee leaves it: it is shared by reference. *)
Fixpoint assembleTags (l : list Tag) (o : option TagOption) : M ArtDB (list TagView * option TagOption) :=
  match l with
  | [] => mret ([], o)
  | t :: l => '(v, o) ← assembleTag t o; '(vs, o) ← assembleTags l o; mret (v :: vs, o)
  end.

Definition Count (P : Tag → Prop) `{!∀ t, Decision (P t)} : M ArtDB Z := tag_dao.Count P.

Definition list_with (P : Tag → Prop) `{!∀ t, Decision (P t)} (o : option TagOption)
    : M ArtDB (list TagView * option TagOption) := l ← tag_dao.List P; assembleTags l o.
Definition List (P : Tag → Prop) `{!∀ t, Decision (P t)} (o : option TagOption) : M ArtDB (list TagView) :=
  x ← list_with P o; mret x.1.

Definition Get (id : Z) (o : option TagOption) : M ArtDB TagView :=
  t ← tag_dao.Get id; '(v, _) ← assembleTag t o; mret v.

Definition Create (t : Tag) : M ArtDB Z := tag_dao.Create t.

Definition immutable_error (name what : string) : error :=
  WithMessage (WithCode (New EmptyString) PreconditionCode)
    ("the tag " +:+ name +:+ " configured as immutable, cannot be " +:+ what).
Definition signed_error (name : string) : error :=
  WithMessage (WithCode (New EmptyString) PreconditionCode)
    ("the tag " +:+ name +:+ " with signature cannot be deleted").

Definition Ensure (repositoryID artifactID : Z) (name : string) : M ArtDB unit :=
  l ← List (λ t, t_RepositoryID t = repositoryID ∧ t_Name t = name) (Some (mkTagOption true false None));
  match l with
  | v :: _ =>
      let tag := tv_Tag v in
      if t_ArtifactID tag =? artifactID then mret tt
      else if tv_Immutable v then fail (immutable_error (t_Name tag) "updated")
      else
        now ← time_Now;
        tag_dao.Update (t_ID tag) artifactID (tag_dao.ArtifactID_PushTime artifactID now)
  | [] =>
      r ← try (WithTransaction (
             now ← time_Now;
             _ ← Create (mkTag 0 repositoryID artifactID name now None);
             mret tt));
      match r with
      | Ok _ => mret tt
      | Err e => if IsConflictErr e then mret tt else fail e
      end
  end.

Definition Delete (id : Z) : M ArtDB unit :=
  v ← Get id (Some (mkTagOption true true None));
  if tv_Immutable v then fail (immutable_error (t_Name (tv_Tag v)) "deleted")
  else if tv_Signed v then fail (signed_error (t_Name (tv_Tag v)))
  else tag_dao.Delete id.

Fixpoint DeleteTags (ids : list Z) : M ArtDB unit :=
  match ids with
  | [] => mret tt
  | id :: ids => _ ← Delete id; DeleteTags ids
  end.

End tag_ctl.
End tag_ctl.

(** ** [src/controller/artifact/abstractor.go] *)

Definition MediaTypeSignedManifest : string := "application/vnd.docker.distribution.manifest.v1+prettyjws".
Definition MediaTypeImageManifest : string := "application/vnd.oci.image.manifest.v1+json".
Definition MediaTypeManifest : string := "application/vnd.docker.distribution.manifest.v2+json".

(** [src/controller/artifact/processor/wasm/wasm.go] *)
Definition wasm_variant : string * string := ("module.wasm.image/variant", "compat").
Definition wasm_handler : string * string := ("run.oci.handler", "wasm").
Definition wasm_MediaType : string := "application/vnd.wasm.config.v1+json".

(** The fields of an artifact that its manifest determines. *)
Definition with_meta (a : Artifact) (mediaType manifestMediaType : string) (size : Z) (annotations : string)
    : Artifact :=
  mkArtifact (a_ID a) (a_Type a) mediaType manifestMediaType (a_ProjectID a) (a_RepositoryID a)
    (a_RepositoryName a) (a_Digest a) size (a_Icon a) (a_PushTime a) (a_PullTime a)
    (a_ExtraAttrs a) annotations.
Definition with_attrs (a : Artifact) (attrs icon : string) : Artifact :=
  mkArtifact (a_ID a) (a_Type a) (a_MediaType a) (a_ManifestMediaType a) (a_ProjectID a)
    (a_RepositoryID a) (a_RepositoryName a) (a_Digest a) (a_Size a) icon (a_PushTime a) (a_PullTime a)
    attrs (a_Annotations a).
Definition with_type (a : Artifact) (type : string) : Artifact :=
  mkArtifact (a_ID a) type (a_MediaType a) (a_ManifestMediaType a) (a_ProjectID a)
    (a_RepositoryID a) (a_RepositoryName a) (a_Digest a) (a_Size a) (a_Icon a) (a_PushTime a)
    (a_PullTime a) (a_ExtraAttrs a) (a_Annotations a).

Module abstractor.
Section abstractor.
Context (sv : Services).

(** Sizes are summed in 64 bits. *)
Definition add64 (x y : Z) : Z := wrap64 (x + y).

Definition abstractManifestV1Metadata (a : Artifact) (k : Content) : M ArtDB ArtifactRefs :=
  match k_AsV1 k with
  | None => fail (PlainError "cannot unmarshal the manifest")
  | Some layers =>
      bs ← on_blobs (dao.ListBlobs layers None None);
      mret (mkArtifactRefs (with_meta a MediaTypeSignedManifest MediaTypeSignedManifest
              (fold_left (λ s b, add64 s (Size b)) bs (k_Len k)) (a_Annotations a)) [])
  end.

Definition abstractManifestV2Metadata (a : Artifact) (k : Content) : result ArtifactRefs :=
  match k_AsV2 k with
  | None => Err (PlainError "cannot unmarshal the manifest")
  | Some m =>
      let wasm := (default EmptyString (mv_Annotations m !! wasm_variant.1) == wasm_variant.2)
                  || (default EmptyString (mv_Annotations m !! wasm_handler.1) == wasm_handler.2) in
      Ok (mkArtifactRefs (with_meta a (if wasm then wasm_MediaType else mv_ConfigMediaType m)
            (a_ManifestMediaType a)
            (fold_left add64 (mv_LayerSizes m) (add64 (k_Len k) (mv_ConfigSize m)))
            (mv_AnnotationsText m)) [])
  end.

(** Every child must exist already. *)
Fixpoint index_children (repository : string) (l : list IndexEntry) (size : Z) (acc : list Reference)
    : M ArtDB (Z * list Reference) :=
  match l with
  | [] => mret (size, acc)
  | e :: l =>
      ar ← artifact_mgr.GetByDigest repository (ie_Digest e);
      index_children repository l (add64 size (a_Size (ar_row ar)))
        (acc ++ [mkReference 0 0 (a_ID (ar_row ar)) (ie_Digest e) (ie_Platform e) (ie_URLs e)
                   (ie_Annotations e)])
  end.

Definition abstractIndexMetadata (a : Artifact) (k : Content) : M ArtDB ArtifactRefs :=
  match k_AsIndex k with
  | None => fail (PlainError "cannot unmarshal the index")
  | Some (manifests, annotations, text) =>
      '(size, rs) ← index_children (a_RepositoryName a) manifests (add64 (a_Size a) (k_Len k)) [];
      let mediaType := default EmptyString (annotations !! "org.opencontainers.artifactType"%string) in
      mret (mkArtifactRefs (with_meta a
              (if mediaType == "" then a_ManifestMediaType a else mediaType)
              (a_ManifestMediaType a) size text) rs)
  end.

Definition AbstractMetadata (a : Artifact) : M ArtDB ArtifactRefs :=
  '(mediaType, k) ← of_result (PullManifest sv (a_RepositoryName a) (a_Digest a));
  let a := with_meta a (a_MediaType a) mediaType (a_Size a) (a_Annotations a) in
  ar ← (if (mediaType == "") || (mediaType == "application/json") || (mediaType == MediaTypeSignedManifest)
        then abstractManifestV1Metadata a k
        else if (mediaType == MediaTypeImageManifest) || (mediaType == MediaTypeManifest)
        then of_result (abstractManifestV2Metadata a k)
        else if (mediaType == MediaTypeImageIndex) || (mediaType == MediaTypeManifestList)
        then abstractIndexMetadata a k
        else fail (PlainError ("unsupported manifest media type: " +:+ mediaType)));
  '(attrs, icon) ← of_result (proc_AbstractMetadata sv (ar_row ar) (ar_References ar) k);
  mret (mkArtifactRefs (with_attrs (ar_row ar) attrs icon) (ar_References ar)).

End abstractor.
End abstractor.

(** ** [src/controller/artifact/controller.go] *)

Record Option := mkOption {
  WithTag : bool; TagOption_ : option TagOption; WithLabel : bool; WithAccessory : bool }.

(** The overall view of an artifact. *)
Record ArtView := mkArtView {
  v_Art : ArtifactRefs; v_Tags : list TagView; v_Labels : list Label; v_Accessories : list Accessory }.
Definition v_row (v : ArtView) : Artifact := ar_row (v_Art v).
Definition v_References (v : ArtView) : list Reference := ar_References (v_Art v).

(** [model.AccessoryData] as [Copy] and [Ensure] use it. *)
Record AccessoryData := mkAccessoryData { d_ArtifactID : Z; d_Digest : string; d_Type : string; d_Size : Z }.

Record ArtOption := mkArtOption { o_Tags : list string; o_Accs : list AccessoryData }.

Definition option_or {A} (x : result A) (y : A) : A := match x with Ok a => a | Err _ => y end.

Module artifact_ctl.
Section artifact_ctl.
Context (sv : Services).

(** The population functions log an error and leave the field empty. *)
Definition populateTags (id : Z) (o : option TagOption) : M ArtDB (list TagView * option TagOption) :=
  r ← try (tag_ctl.list_with sv (λ t, t_ArtifactID t = id) o); mret (option_or r ([], o)).
Definition populateLabels (id : Z) : M ArtDB (list Label) :=
  r ← try (label_dao.ListByArtifact id); mret (option_or r []).
Definition populateAccessories (id : Z) : M ArtDB (list Accessory) :=
  r ← try (accessory_mgr.List (λ c, c_SubjectArtifactID c = id)); mret (option_or r []).

(** The view, and the option with the tag option as it was left. *)
Definition assemble_with (a : ArtifactRefs) (o : option Option) : M ArtDB (ArtView * option Option) :=
  let id := a_ID (ar_row a) in
  match o with
  | None => mret (mkArtView a [] [] [], None)
  | Some o =>
      ts ← (if WithTag o then populateTags id (TagOption_ o) else mret ([], TagOption_ o));
      ls ← (if WithLabel o then populateLabels id else mret []);
      cs ← (if WithAccessory o then populateAccessories id else mret []);
      mret (mkArtView a ts.1 ls cs, Some (mkOption (WithTag o) ts.2 (WithLabel o) (WithAccessory o)))
  end.
Definition assembleArtifact (a : ArtifactRefs) (o : option Option) : M ArtDB ArtView :=
  x ← assemble_with a o; mret x.1.

(** The artifacts of a list share one option. *)
Fixpoint assembleArtifacts (l : list ArtifactRefs) (o : option Option) : M ArtDB (list ArtView) :=
  match l with
  | [] => mret []
  | a :: l => x ← assemble_with a o; vs ← assembleArtifacts l x.2; mret (x.1 :: vs)
  end.

Definition Count (query : option ArtQuery) : M ArtDB Z := artifact_mgr.Count query.

Definition List (query : option ArtQuery) (o : option Option) : M ArtDB (list ArtView) :=
  l ← artifact_mgr.List query; assembleArtifacts l o.

Definition Get (id : Z) (o : option Option) : M ArtDB ArtView :=
  a ← artifact_mgr.Get id; assembleArtifact a o.

Definition getByDigest (repository digest : string) (o : option Option) : M ArtDB ArtView :=
  a ← artifact_mgr.GetByDigest repository digest; assembleArtifact a o.

Definition getByTag (repository tag : string) (o : option Option) : M ArtDB ArtView :=
  repo ← repo_mgr.GetByName repository;
  l ← tag_ctl.List sv (λ t, t_RepositoryID t = p_RepositoryID repo ∧ t_Name t = tag) None;
  match l with
  | [] => fail (WithMessage (WithCode (New EmptyString) NotFoundCode)
                  ("artifact " +:+ repository +:+ ":" +:+ tag +:+ " not found"))
  | v :: _ => Get (t_ArtifactID (tv_Tag v)) o
  end.

Definition GetByReference (repository reference : string) (o : option Option) : M ArtDB ArtView :=
  if digest_Parse sv reference then getByDigest repository reference o
  else getByTag repository reference o.

(** After the transaction failed with a conflict, another request has created
    the artifact. *)
Definition ensureArtifact (repository digest : string) : M ArtDB (bool * ArtifactRefs) :=
  r ← try (artifact_mgr.GetByDigest repository digest);
  match r with
  | Ok a => mret (false, a)
  | Err e =>
      if negb (IsErr e NotFoundCode) then fail e
      else
        repo ← repo_mgr.GetByName repository;
        now ← time_Now;
        let art := mkArtifact 0 EmptyString EmptyString EmptyString (p_ProjectID repo)
                     (p_RepositoryID repo) repository digest 0 EmptyString now None
                     EmptyString EmptyString in
        ar ← abstractor.AbstractMetadata sv art;
        let ar := mkArtifactRefs (with_type (ar_row ar) (proc_GetArtifactType sv (a_MediaType (ar_row ar))))
                    (ar_References ar) in
        r ← try (WithTransaction (artifact_mgr.Create ar));
        match r with
        | Ok id => mret (true, mkArtifactRefs (artifact_dao.with_id id (ar_row ar)) (ar_References ar))
        | Err e =>
            if negb (IsConflictErr e) then fail e
            else a ← artifact_mgr.GetByDigest repository digest; mret (false, a)
        end
  end.

Fixpoint ensure_tags (repositoryID artifactID : Z) (l : list string) : M ArtDB unit :=
  match l with
  | [] => mret tt
  | t :: l => _ ← tag_ctl.Ensure sv repositoryID artifactID t; ensure_tags repositoryID artifactID l
  end.

Fixpoint ensure_accs (artifactID : Z) (l : list AccessoryData) : M ArtDB unit :=
  match l with
  | [] => mret tt
  | c :: l =>
      _ ← accessory_mgr.Ensure artifactID (d_ArtifactID c) (d_Size c) (d_Digest c) (d_Type c);
      ensure_accs artifactID l
  end.

Definition Ensure (repository digest : string) (o : option ArtOption) : M ArtDB (bool * Z) :=
  '(created, a) ← ensureArtifact repository digest;
  let row := ar_row a in
  _ ← (match o with
       | None => mret tt
       | Some o =>
           _ ← ensure_tags (a_RepositoryID row) (a_ID row) (o_Tags o);
           ensure_accs (a_ID row) (o_Accs o)
       end);
  _ ← AddEvent (PushArtifact (a_ID row) (o ← o; head (o_Tags o)));
  mret (created, a_ID row).

(** An error with one of these codes is passed over. *)
Definition ignoring (code : string) (m : M ArtDB unit) : M ArtDB unit :=
  r ← try m;
  match r with Ok _ => mret tt | Err e => if IsErr e code then mret tt else fail e end.

(** [blobMgr.List] with the keyword [artifactDigest], then
    [CleanupAssociationsForProject]. *)
Definition cleanup_blobs (projectID : Z) (digest : string) : M ArtDB unit :=
  bs ← on_blobs (dao.GetBlobsByArtDigest digest);
  on_blobs (manager.CleanupAssociationsForProject projectID bs).

(** The row is deleted, the blobs only it needed leave the project, and it is
    recorded in the trash. *)
Definition delete_row (v : ArtView) (isRoot : bool) : M ArtDB unit :=
  let a := v_row v in
  _ ← label_mgr.RemoveAllFrom (a_ID a);
  r ← try (artifact_mgr.Delete (a_ID a));
  match r with
  | Err e => if negb isRoot && IsErr e NotFoundCode then mret tt else fail e
  | Ok _ =>
      _ ← cleanup_blobs (a_ProjectID a) (a_Digest a);
      _ ← ignoring ConflictCode (WithTransaction (
             _ ← trash_dao.Create (mkArtifactTrash 0 (a_MediaType a) (a_ManifestMediaType a)
                   (a_RepositoryName a) (a_Digest a) 0);
             mret tt));
      if isRoot
      then AddEvent (DeleteArtifact (a_ID a) ((λ t, t_Name (tv_Tag t)) <$> v_Tags v))
      else mret tt
  end.

(** The two loops over hard accessories and over references take the recursive
    call as an argument. *)
Section loops.
Context (rec : Z → bool → bool → M ArtDB (option unit)).

Fixpoint delete_accessories (l : list Accessory) : M ArtDB (option unit) :=
  match l with
  | [] => mret (Some tt)
  | c :: l =>
      if IsHard c
      then _ <~ rec (c_ArtifactID c) true true; delete_accessories l
      else delete_accessories l
  end.

Fixpoint delete_children (l : list Reference) : M ArtDB (option unit) :=
  match l with
  | [] => mret (Some tt)
  | r :: l =>
      _ <~ fret (ignoring NotFoundCode (artifact_mgr.DeleteReference (r_ID r)));
      _ <~ rec (r_ChildID r) false false;
      delete_children l
  end.
End loops.

Definition delete_option : option Option := Some (mkOption true None false true).

Fixpoint deleteDeeply (fuel : nat) (id : Z) (isRoot isAccessory : bool) : M ArtDB (option unit) :=
  match fuel with
  | O => mret None
  | S fuel =>
      r ← try (Get id delete_option);
      match r with
      | Err e => if negb isRoot && IsErr e NotFoundCode then mret (Some tt) else fail e
      | Ok v =>
          let a := v_row v in
          _ ← (if (isAccessory : bool)
               then ignoring NotFoundCode (accessory_mgr.DeleteAccessories
                      (λ c, c_ArtifactID c = a_ID a ∧ c_Digest c = a_Digest a))
               else mret tt);
          if negb isRoot && negb (bool_decide (v_Tags v = [])) then mret (Some tt)
          else
            parents ← artifact_mgr.ListReferences (λ r, r_ChildID r = id);
            if negb (bool_decide (parents = []))
            then if (isRoot : bool)
                 then fail (WithMessage (WithCode (New EmptyString) ViolateForeignKeyConstraintCode)
                              "the deleting artifact is referenced by others")
                 else mret (Some tt)
            else
              _ <~ delete_accessories (deleteDeeply fuel) (v_Accessories v);
              _ <~ delete_children (deleteDeeply fuel) (v_References v);
              _ ← (if (isRoot : bool)
                   then tag_ctl.DeleteTags sv ((λ t, t_ID (tv_Tag t)) <$> v_Tags v)
                   else mret tt);
              fret (delete_row v isRoot)
      end
  end.

Definition Delete (fuel : nat) (id : Z) : M ArtDB (option unit) :=
  l ← accessory_mgr.List (λ c, c_ArtifactID c = id);
  WithTransaction (deleteDeeply fuel id true (negb (bool_decide (l = [])))).

(** [dstAccs] is the slice that all levels share; it is passed along and
    returned.  The entry of an accessory is appended before the accessory is
    copied and completed afterwards. *)
Section copy_loops.
Context (srcRepo dstRepo : string).
Context (rec : string → bool → bool → list AccessoryData → M ArtDB (option (Z * list AccessoryData))).

Fixpoint copy_children (l : list Reference) (dstAccs : list AccessoryData)
    : M ArtDB (option (list AccessoryData)) :=
  match l with
  | [] => mret (Some dstAccs)
  | r :: l => x <~ rec (r_ChildDigest r) false false dstAccs; copy_children l x.2
  end.

Definition set_artifact_id (id : Z) (c : AccessoryData) : AccessoryData :=
  mkAccessoryData id (d_Digest c) (d_Type c) (d_Size c).

Fixpoint copy_accessories (l : list Accessory) (dstAccs : list AccessoryData)
    : M ArtDB (option (list AccessoryData)) :=
  match l with
  | [] => mret (Some dstAccs)
  | c :: l =>
      let i := length dstAccs in
      x <~ rec (c_Digest c) false true (dstAccs ++ [mkAccessoryData 0 (c_Digest c) (c_Type c) (c_Size c)]);
      copy_accessories l (alter (set_artifact_id x.1) i x.2)
  end.
End copy_loops.

Fixpoint copyDeeply (fuel : nat) (srcRepo dstRepo reference : string) (isRoot isAcc : bool)
    (dstAccs : list AccessoryData) : M ArtDB (option (Z * list AccessoryData)) :=
  match fuel with
  | O => mret None
  | S fuel =>
      let option := Some (mkOption true None false (negb isAcc)) in
      srcArt ← GetByReference srcRepo reference option;
      let digest := a_Digest (v_row srcArt) in
      r ← try (GetByReference dstRepo digest option);
      let ensureArt (dstAccs : list AccessoryData) : M ArtDB (Datatypes.option (Z * list AccessoryData)) :=
        '(_, id) ← Ensure dstRepo digest
           (Some (mkArtOption ((λ t, t_Name (tv_Tag t)) <$> v_Tags srcArt)
                    (if isAcc then [] else dstAccs)));
        mret (Some (id, dstAccs)) in
      match r with
      | Ok dstArt => if negb isRoot then mret (Some (a_ID (v_row dstArt), dstAccs)) else ensureArt dstAccs
      | Err e =>
          if negb (IsErr e NotFoundCode) then fail e
          else
            dstAccs <~ copy_children (copyDeeply fuel srcRepo dstRepo) (v_References srcArt) dstAccs;
            dstAccs <~ copy_accessories (copyDeeply fuel srcRepo dstRepo) (v_Accessories srcArt) dstAccs;
            _ ← of_result (regCli_Copy sv srcRepo digest dstRepo);
            ensureArt dstAccs
      end
  end.

Definition Copy (fuel : nat) (srcRepo reference dstRepo : string) : M ArtDB (option Z) :=
  x <~ copyDeeply fuel srcRepo dstRepo reference true false []; mret (Some x.1).

Definition UpdatePullTime (artifactID tagID time : Z) : M ArtDB unit :=
  _ ← artifact_mgr.UpdatePullTime artifactID time;
  if tagID =? 0 then mret tt
  else
    tg ← tag_ctl.Get sv tagID None;
    if negb (t_ArtifactID (tv_Tag tg) =? artifactID)
    then fail (PlainError ("tag " +:+ pretty tagID +:+ " isn't attached to artifact " +:+ pretty artifactID))
    else tag_dao.Update (t_ID (tv_Tag tg)) 0 (tag_dao.PullTime time).

(** The event is published when the label was added. *)
Definition AddLabel (artifactID labelID : Z) : M ArtDB unit :=
  _ ← label_mgr.AddTo labelID artifactID;
  AddEvent (ArtifactLabeled artifactID labelID).

Definition RemoveLabel (artifactID labelID : Z) : M ArtDB unit := label_mgr.RemoveFrom labelID artifactID.

(** [walkFn] accumulates in [S]; its outcome is no error, [ErrBreak] or [ErrSkip];
    another error is a failure. *)
Inductive walk_result := WalkOn | ErrBreak | ErrSkip.

Section walk.
Context {S : Type} (walkFn : ArtView → S → M ArtDB (walk_result * S)) (option : option Option).

Definition unwalked (walked : list string) (l : list ArtView) : list ArtView :=
  filter (λ v, a_Digest (v_row v) ∉ walked) l.

Fixpoint accessory_artifacts (l : list Accessory) : M ArtDB (list ArtView) :=
  match l with
  | [] => mret []
  | c :: l => v ← Get (c_ArtifactID c) option; vs ← accessory_artifacts l; mret (v :: vs)
  end.

(** What is pushed for the children: each one, followed by its accessories. *)
Fixpoint child_artifacts (l : list ArtView) : M ArtDB (list ArtView) :=
  match l with
  | [] => mret []
  | child :: l =>
      cs ← accessory_artifacts (v_Accessories child);
      rest ← child_artifacts l;
      mret (child :: cs ++ rest)
  end.

Definition children_query (ids : list Z) : Datatypes.option ArtQuery :=
  Some (mkArtQuery (λ a, bool_decide (a_ID a ∈ ids)) (Some (BaseString "*")) None None).

(** The artifacts to push after an artifact was walked, in order. *)
Definition successors (v : ArtView) : M ArtDB (list ArtView) :=
  kids ← (match v_References v with
          | [] => mret []
          | rs => children ← List (children_query (r_ChildID <$> rs)) option; child_artifacts children
          end);
  own ← accessory_artifacts (v_Accessories v);
  mret (kids ++ own).

Fixpoint walk_loop (fuel : nat) (queue : list ArtView) (walked : list string) (s : S)
    : M ArtDB (Datatypes.option S) :=
  match queue with
  | [] => mret (Some s)
  | artifact :: queue =>
      match fuel with
      | O => mret None
      | Datatypes.S fuel =>
          let walked := a_Digest (v_row artifact) :: walked in
          '(res, s) ← walkFn artifact s;
          match res with
          | ErrBreak => mret (Some s)
          | ErrSkip => walk_loop fuel queue walked s
          | WalkOn =>
              next ← successors artifact;
              walk_loop fuel (queue ++ unwalked walked next) walked s
          end
      end
  end.

Definition Walk (fuel : nat) (root : ArtView) (s : S) : M ArtDB (Datatypes.option S) :=
  walk_loop fuel [root] [] s.
End walk.

End artifact_ctl.
End artifact_ctl.

(** ** [src/controller/repository/controller.go] *)

Module repo_ctl.
Section repo_ctl.
Context (sv : Services).

Definition Ensure (name : string) : M ArtDB (bool * Z) :=
  r ← try (repo_mgr.GetByName name);
  match r with
  | Ok p => mret (false, p_RepositoryID p)
  | Err e =>
      if negb (IsErr e NotFoundCode) then fail e
      else
        projectID ← of_result (proMgr_Get sv (ParseRepository name));
        r ← try (WithTransaction (repo_mgr.Create name projectID));
        match r with
        | Ok id => mret (true, id)
        | Err e =>
            if negb (IsConflictErr e) then fail e
            else p ← repo_mgr.GetByName name; mret (false, p_RepositoryID p)
        end
  end.

Definition in_repository (id : Z) : option ArtQuery :=
  Some (mkArtQuery (λ a, a_RepositoryID a =? id) None None None).

(** One pass over the candidates; those that others reference are kept for the
    next pass.  [fuel] is for the deletion of one artifact. *)
Fixpoint delete_pass (fuel : nat) (l : list ArtView) : M ArtDB (option (list ArtView)) :=
  match l with
  | [] => mret (Some [])
  | v :: l =>
      parents ← artifact_mgr.ListReferences (λ r, r_ChildID r = a_ID (v_row v));
      if negb (bool_decide (parents = []))
      then rest <~ delete_pass fuel l; mret (Some (v :: rest))
      else _ <~ artifact_ctl.Delete sv fuel (a_ID (v_row v)); delete_pass fuel l
  end.

(** The loop [for len(candidates) > 0], at most [passes] times. *)
Fixpoint delete_passes (fuel passes : nat) (candidates : list ArtView) : M ArtDB (option unit) :=
  match candidates with
  | [] => mret (Some tt)
  | _ =>
      match passes with
      | O => mret None
      | S passes => rest <~ delete_pass fuel candidates; delete_passes fuel passes rest
      end
  end.

Definition Delete (fuel passes : nat) (id : Z) : M ArtDB (option unit) :=
  candidates ← artifact_ctl.List sv (in_repository id) None;
  _ <~ delete_passes fuel passes candidates;
  fret (repo_mgr.Delete id).

End repo_ctl.
End repo_ctl.

(** ** Pushing and deleting manifests: [src/server/registry/manifest.go] *)

Module handlers.
Section handlers.
Context (sv : Services).

(** [proxied] is the answer of the backend registry: none when it failed, or the
    digest of its header.  The value says whether the request succeeded. *)
Definition putManifest (repo reference : string) (proxied : option string) : M ArtDB bool :=
  _ ← repo_ctl.Ensure sv repo;
  match proxied with
  | None => mret false
  | Some header =>
      let '(dgt, tags) := if digest_Parse sv reference then (reference, []) else (header, [reference]) in
      _ ← artifact_ctl.Ensure sv repo dgt (Some (mkArtOption tags []));
      mret true
  end.

(** Cached manifests are not modelled. *)
Definition deleteManifest (fuel : nat) (repository reference : string) : M ArtDB (option unit) :=
  if negb (digest_Parse sv reference)
  then fail (WithCode (HError (Some (PlainError "invalid checksum digest format")) EmptyString
               ("unsupported digest " +:+ reference)) "UNSUPPORTED")
  else
    v ← artifact_ctl.GetByReference sv repository reference None;
    artifact_ctl.Delete sv fuel (a_ID (v_row v)).

(** *** Accessories of a pushed manifest: [src/server/middleware/cosign/cosign.go],
    [src/server/middleware/nydus/nydus.go] *)

(** A decoded manifest: its digest and size, the media types and the annotations
    of what it refers to, and its own annotations. *)
Record Pushed := mkPushed {
  u_Digest : string; u_Size : Z;
  u_References : list (string * gmap string string); u_Annotations : gmap string string }.

Definition mediaTypeCosignLayer : string := "application/vnd.dev.cosign.simplesigning.v1+json".
Definition nydusBoostrapAnnotation : string := "containerd.io/snapshot/nydus-bootstrap".
Definition sourceDigestAnnotation : string :=
  "io.goharbor.artifact.v1alpha1.acceleration.source.digest".

(** Lower-case hexadecimal digits. *)
Definition hex_char (c : Ascii.ascii) : bool :=
  ((48 <=? byte c) && (byte c <=? 57) || (97 <=? byte c) && (byte c <=? 102))%N.

(** The tag of a signature: [sha256-], 64 digits, any character, [sig]. *)
Definition matchCosignSignaturePattern (tag : string) : option string :=
  let rest := drop_chars 7 tag in
  let digits := String.substring 0 64 rest in
  if HasPrefix tag "sha256-" && bool_decide (String.length digits = 64%nat) && string_forall hex_char digits
     && match drop_chars 64 rest with String _ s => s == "sig" | EmptyString => false end
  then Some digits else None.

(** Create the accessory in a transaction of its own; a conflict means that it
    exists. *)
Definition create_accessory (repository subjectDigest : string) (p : Pushed) (typ : string) : M ArtDB unit :=
  subject ← artifact_ctl.GetByReference sv repository subjectDigest None;
  art ← artifact_ctl.GetByReference sv repository (u_Digest p) None;
  r ← try (WithTransaction (
         _ ← accessory_mgr.Create (mkAccessory 0 (a_ID (v_row art)) (a_ID (v_row subject)) typ
               (u_Size p) (u_Digest p));
         mret tt));
  match r with
  | Ok _ => mret tt
  | Err e => if IsConflictErr e then mret tt else fail e
  end.

(** After a push with status 201; [tag] is empty when it was by digest. *)
Definition SignatureMiddleware (repository tag : string) (p : Pushed) : M ArtDB unit :=
  if tag == "" then mret tt
  else
    match matchCosignSignaturePattern tag with
    | None => mret tt
    | Some subjectArtDigest =>
        if existsb (λ r, r.1 == mediaTypeCosignLayer) (u_References p)
        then create_accessory repository ("sha256:" +:+ subjectArtDigest) p TypeCosignSignature
        else mret tt
    end.

Definition AcceleratorMiddleware (repository tag : string) (p : Pushed) : M ArtDB unit :=
  if tag == "" then mret tt
  else if existsb (λ r, bool_decide (is_Some (r.2 !! nydusBoostrapAnnotation))) (u_References p)
  then create_accessory repository (default EmptyString (u_Annotations p !! sourceDigestAnnotation)) p
         TypeNydusAccelerator
  else mret tt.

End handlers.
End handlers.
