(* ===== verification/ArtifactInv.v ===== *)
(** * The invariant of the artifact tables

    [art_ok]: every table has its keys from its sequence, satisfies its unique
    constraint and its foreign keys; in addition a reference joins an image index
    to an older artifact of the same repository with the recorded digest, and a
    tag points to an artifact of its own repository.  The first part is what the
    schema enforces, the second is kept by the code.  Every operation of the
    stores and of the tag, artifact and repository controllers keeps it, under
    every schedule of faults. *)

From S2P Require Import Prelude GoErrors Orm BlobStore Table Hoare ArtifactStore ArtifactCtl.
Open Scope Z_scope.

Definition same_reference (r s : Reference) : Prop :=
  r_ParentID r = r_ParentID s ∧ r_ChildID r = r_ChildID s.
Definition same_accessory (c e : Accessory) : Prop :=
  c_ArtifactID c = c_ArtifactID e ∧ c_SubjectArtifactID c = c_SubjectArtifactID e.
Definition same_labelref (r s : LabelReference) : Prop :=
  lr_LabelID r = lr_LabelID s ∧ lr_ArtifactID r = lr_ArtifactID s.
Definition same_trash (x y : ArtifactTrash) : Prop :=
  x_RepositoryName x = x_RepositoryName y ∧ x_Digest x = x_Digest y.
Definition same_repo (p q : RepoRecord) : Prop := p_Name p = p_Name q.

#[export] Instance same_artifact_sym : Symmetric artifact_dao.same_artifact.
Proof. intros x y []. by split. Qed.
#[export] Instance same_tag_sym : Symmetric tag_dao.same_tag.
Proof. intros x y []. by split. Qed.
#[export] Instance same_label_sym : Symmetric label_dao.same_label.
Proof. intros x y (? & ? & ?). by split_and!. Qed.
#[export] Instance same_reference_sym : Symmetric same_reference.
Proof. intros x y []. by split. Qed.
#[export] Instance same_accessory_sym : Symmetric same_accessory.
Proof. intros x y []. by split. Qed.
#[export] Instance same_labelref_sym : Symmetric same_labelref.
Proof. intros x y []. by split. Qed.
#[export] Instance same_trash_sym : Symmetric same_trash.
Proof. intros x y []. by split. Qed.
#[export] Instance same_repo_sym : Symmetric same_repo.
Proof. intros x y ?. by unfold same_repo in *. Qed.

(** ** Valid rows *)

(** [c] can be a child of [p] under the recorded digest. *)
Definition child_of (p c : Artifact) (digest : string) : Prop :=
  a_RepositoryName p = a_RepositoryName c ∧ a_Digest c = digest ∧ IsImageIndex p = true.

Definition ref_valid (A : table Artifact) (r : Reference) : Prop :=
  ∃ p c, rows A !! r_ParentID r = Some p ∧ rows A !! r_ChildID r = Some c ∧
    child_of p c (r_ChildDigest r) ∧ r_ChildID r < r_ParentID r.
Definition tag_valid (A : table Artifact) (t : Tag) : Prop :=
  ∃ a, rows A !! t_ArtifactID t = Some a ∧ a_RepositoryID a = t_RepositoryID t.
Definition acc_valid (A : table Artifact) (c : Accessory) : Prop :=
  is_Some (rows A !! c_ArtifactID c) ∧ is_Some (rows A !! c_SubjectArtifactID c).
Definition lref_valid (A : table Artifact) (L : table Label) (r : LabelReference) : Prop :=
  is_Some (rows L !! lr_LabelID r) ∧ is_Some (rows A !! lr_ArtifactID r).

Record art_ok (d : ArtDB) : Prop := mk_art_ok {
  ok_arts : tab_ok a_ID artifact_dao.same_artifact (λ _, True) (arts d);
  ok_refs : tab_ok r_ID same_reference (ref_valid (arts d)) (refs d);
  ok_tags : tab_ok t_ID tag_dao.same_tag (tag_valid (arts d)) (tags d);
  ok_accs : tab_ok c_ID same_accessory (acc_valid (arts d)) (accs d);
  ok_labels : tab_ok l_ID label_dao.same_label (λ _, True) (labels d);
  ok_labelrefs : tab_ok lr_ID same_labelref (lref_valid (arts d) (labels d)) (labelrefs d);
  ok_trash : tab_ok x_ID same_trash (λ _, True) (trash d);
  ok_repos : tab_ok p_RepositoryID same_repo (λ _, True) (repos d);
}.

(** ** Changes of the artifact table *)

(** Every row [i] of [A] survives in [A'] with the columns that others rely on,
    when [keep i]. *)
Definition carries (keep : Z → Prop) (A A' : table Artifact) : Prop :=
  ∀ i a, keep i → rows A !! i = Some a →
    ∃ a', rows A' !! i = Some a' ∧ a_RepositoryName a' = a_RepositoryName a ∧
      a_RepositoryID a' = a_RepositoryID a ∧ a_Digest a' = a_Digest a ∧
      IsImageIndex a' = IsImageIndex a.

Lemma carries_some keep A A' i : carries keep A A' → keep i → is_Some (rows A !! i) → is_Some (rows A' !! i).
Proof. intros Hc Hk [a Ha]. destruct (Hc _ _ Hk Ha) as (a' & -> & _). eauto. Qed.

Lemma ref_valid_carries keep A A' r :
  carries keep A A' → keep (r_ParentID r) → keep (r_ChildID r) → ref_valid A r → ref_valid A' r.
Proof.
  intros Hc Hp Hch (p & c & HP & HC & (Hn & Hd & Hi) & Hlt).
  destruct (Hc _ _ Hp HP) as (p' & HP' & Hn' & _ & _ & Hi').
  destruct (Hc _ _ Hch HC) as (c' & HC' & Hn'' & _ & Hd' & _).
  exists p', c'. unfold child_of. split_and!; congruence.
Qed.

Lemma tag_valid_carries keep A A' t :
  carries keep A A' → keep (t_ArtifactID t) → tag_valid A t → tag_valid A' t.
Proof.
  intros Hc Hk (a & Ha & Hr). destruct (Hc _ _ Hk Ha) as (a' & Ha' & _ & Hr' & _).
  exists a'. split; congruence.
Qed.

(** Replace the artifact table: rows that are referred to are carried over. *)
Lemma art_ok_set_arts keep A' d :
  art_ok d → tab_ok a_ID artifact_dao.same_artifact (λ _, True) A' → carries keep (arts d) A' →
  (∀ i r, rows (refs d) !! i = Some r → keep (r_ParentID r) ∧ keep (r_ChildID r)) →
  (∀ i t, rows (tags d) !! i = Some t → keep (t_ArtifactID t)) →
  (∀ i c, rows (accs d) !! i = Some c → keep (c_ArtifactID c) ∧ keep (c_SubjectArtifactID c)) →
  (∀ i r, rows (labelrefs d) !! i = Some r → keep (lr_ArtifactID r)) →
  art_ok (set_arts A' d).
Proof.
  intros Hok HA Hc Hr Ht Ha Hl. destruct Hok. split; simpl; try done.
  - eapply tab_ok_mono; [done|]. intros i r Hi. destruct (Hr i r Hi). by eapply ref_valid_carries.
  - eapply tab_ok_mono; [done|]. intros i t Hi. by eapply tag_valid_carries; eauto.
  - eapply tab_ok_mono; [done|]. intros i c Hi []. destruct (Ha i c Hi).
    split; by eapply carries_some.
  - eapply tab_ok_mono; [done|]. intros i r Hi []. split; [done|]. eapply carries_some; eauto.
Qed.

Lemma art_ok_add_artifact a d :
  art_ok d → select (artifact_dao.same_artifact a) (arts d) = [] →
  art_ok (set_arts (add_row (λ n, artifact_dao.with_id n a) (arts d)) d).
Proof.
  intros Hok Hsel. apply (art_ok_set_arts (λ _, True)); try done.
  - by apply (tab_ok_add _ _ _ _ _ _ (ok_arts d Hok) Hsel).
  - intros i b _ Hi. exists b. split_and!; try done.
    eapply lookup_add; [apply (ok_arts d Hok)|done].
Qed.

Lemma art_ok_put_artifact i a a' d :
  art_ok d → rows (arts d) !! i = Some a → a_ID a' = a_ID a → a_RepositoryName a' = a_RepositoryName a →
  a_RepositoryID a' = a_RepositoryID a → a_Digest a' = a_Digest a → IsImageIndex a' = IsImageIndex a →
  art_ok (set_arts (put_row i a' (arts d)) d).
Proof.
  intros Hok Hi Hid Hn Hr Hg Hx. apply (art_ok_set_arts (λ _, True)); try done.
  - eapply (tab_ok_put _ _ _ i a a' _ (ok_arts d Hok)); try done.
    intros y []. split; congruence.
  - intros j b _ Hj. simpl. destruct (decide (i = j)) as [<-|Hne].
    + exists a'. rewrite lookup_insert_eq. simplify_eq. done.
    + exists b. by rewrite lookup_insert_ne.
Qed.

Lemma not_in_use d id : ¬ artifact_dao.artifact_in_use d id →
  (∀ i r, rows (refs d) !! i = Some r → r_ParentID r ≠ id ∧ r_ChildID r ≠ id) ∧
  (∀ i t, rows (tags d) !! i = Some t → t_ArtifactID t ≠ id) ∧
  (∀ i c, rows (accs d) !! i = Some c → c_ArtifactID c ≠ id ∧ c_SubjectArtifactID c ≠ id) ∧
  (∀ i r, rows (labelrefs d) !! i = Some r → lr_ArtifactID r ≠ id).
Proof.
  unfold artifact_dao.artifact_in_use, tagged, referenced_child, is_accessory. intros Hn.
  assert (Hsel : ∀ {R} (P : R → Prop) (HP : ∀ r, Decision (P r)) t i x,
    ¬ (@select R P HP t ≠ []) → rows t !! i = Some x → ¬ P x).
  { intros R P HP t i x Hf Hi. apply dec_stable in Hf. rewrite select_nil in Hf. eauto. }
  apply Decidable.not_or in Hn as [H1 Hn]. apply Decidable.not_or in Hn as [H2 Hn].
  apply Decidable.not_or in Hn as [H3 Hn]. apply Decidable.not_or in Hn as [H4 Hn].
  apply Decidable.not_or in Hn as [H5 H6].
  split_and!; intros i x Hi; repeat split.
  - exact (Hsel _ _ _ _ _ _ H4 Hi).
  - exact (Hsel _ _ _ _ _ _ H2 Hi).
  - exact (Hsel _ _ _ _ _ _ H1 Hi).
  - exact (Hsel _ _ _ _ _ _ H3 Hi).
  - exact (Hsel _ _ _ _ _ _ H5 Hi).
  - exact (Hsel _ _ _ _ _ _ H6 Hi).
Qed.

Lemma art_ok_del_artifact id d :
  art_ok d → ¬ artifact_dao.artifact_in_use d id → art_ok (set_arts (del_row id (arts d)) d).
Proof.
  intros Hok Hn. apply not_in_use in Hn as (Hr & Ht & Hc & Hl).
  apply (art_ok_set_arts (λ i, i ≠ id)); try done.
  - apply tab_ok_del, Hok.
  - intros i a Hi Ha. exists a. simpl. by rewrite lookup_delete_ne.
Qed.

(** ** Changes of the other tables *)

Lemma art_ok_set_refs R' d : art_ok d → tab_ok r_ID same_reference (ref_valid (arts d)) R' → art_ok (set_refs R' d).
Proof. intros [] ?. by split. Qed.
Lemma art_ok_set_tags T' d : art_ok d → tab_ok t_ID tag_dao.same_tag (tag_valid (arts d)) T' → art_ok (set_tags T' d).
Proof. intros [] ?. by split. Qed.
Lemma art_ok_set_accs C' d : art_ok d → tab_ok c_ID same_accessory (acc_valid (arts d)) C' → art_ok (set_accs C' d).
Proof. intros [] ?. by split. Qed.
Lemma art_ok_set_labelrefs X' d :
  art_ok d → tab_ok lr_ID same_labelref (lref_valid (arts d) (labels d)) X' → art_ok (set_labelrefs X' d).
Proof. intros [] ?. by split. Qed.
Lemma art_ok_set_trash X' d : art_ok d → tab_ok x_ID same_trash (λ _, True) X' → art_ok (set_trash X' d).
Proof. intros [] ?. by split. Qed.
Lemma art_ok_set_repos X' d : art_ok d → tab_ok p_RepositoryID same_repo (λ _, True) X' → art_ok (set_repos X' d).
Proof. intros [] ?. by split. Qed.
Lemma art_ok_set_blobdb b d : art_ok d → art_ok (set_blobdb b d).
Proof. intros []. by split. Qed.
Lemma art_ok_add_event e d : art_ok d → art_ok (add_event e d).
Proof. intros []. by split. Qed.

(** ** The stores keep the invariant *)

Lemma put_blob_view d : put_blobs (blob_view d) d = d.
Proof. by destruct d as [????????[]]. Qed.

Lemma on_blobs_inv {A} (m : M BlobDB A) w r w' :
  on_blobs m w = (r, w') → ∃ v, m (mkWorld (blob_view (db w)) (ctx_orm w) (faults w)) = (r, v) ∧
    db w' = put_blobs (db v) (db w).
Proof.
  unfold on_blobs. destruct (m _) as [x v] eqn:E. intros [= -> <-]. eauto.
Qed.

Lemma on_blobs_keeps {A} (m : M BlobDB A) : keeps art_ok (on_blobs m).
Proof.
  intros w r w' Hw H. apply on_blobs_inv in H as (v & _ & ->).
  assert (art_ok (put_blobs (db v) (db w))) by by apply art_ok_set_blobdb. by destruct r.
Qed.

Lemma on_blobs_reads {A} (m : M BlobDB A) : preserves eq m → reads (on_blobs m).
Proof.
  intros Hm w r w' H. apply on_blobs_inv in H as (v & H & ->). apply Hm in H. simpl in H.
  by rewrite <- H, put_blob_view.
Qed.

Lemma time_Now_keeps I : keeps I time_Now.
Proof. intros w r w' Hw [= <- <-]. done. Qed.
Lemma AddEvent_keeps e : keeps art_ok (AddEvent e).
Proof. intros w r w' Hw [= <- <-]. by apply art_ok_add_event. Qed.
#[export] Hint Resolve on_blobs_keeps time_Now_keeps AddEvent_keeps : keeps.

(** [wrap_err] changes the error only. *)
Lemma spec_wrap_err {A} P wrap (m : M ArtDB A) Q E :
  spec P m Q E → spec P (artifact_dao.wrap_err wrap m) Q E.
Proof.
  intros Hm. unfold artifact_dao.wrap_err. eapply spec_bind; [by apply (spec_try _ _ Q E)|].
  intros [a|e]; [by apply spec_ret|by apply spec_fail].
Qed.
Lemma keeps_wrap_err {A} I wrap (m : M ArtDB A) : keeps I m → keeps I (artifact_dao.wrap_err wrap m).
Proof. apply spec_wrap_err. Qed.

Lemma artifact_Create_spec a :
  spec art_ok (artifact_dao.Create a)
    (λ id d, art_ok d ∧ rows (arts d) !! id = Some (artifact_dao.with_id id a) ∧ id = seq (arts d)) art_ok.
Proof.
  unfold artifact_dao.Create. eapply spec_bind; [by apply (spec_FromContext _ (λ _, art_ok))|intros []].
  apply spec_wrap_err, spec_stmt; [|done]. intros d Hd. unfold artifact_dao.insert_artifact.
  case_decide; [|done]. split; [by apply art_ok_add_artifact|]. simpl. by rewrite lookup_insert_eq.
Qed.

Lemma artifact_Delete_keeps id : keeps art_ok (artifact_dao.Delete id).
Proof.
  apply keeps_affect. intros d d' Hd. unfold artifact_dao.delete_artifact.
  destruct (rows (arts d) !! id); [|done]. case_decide; [done|].
  intros [= <-]. by apply art_ok_del_artifact.
Qed.

Lemma artifact_UpdatePullTime_keeps id t : keeps art_ok (artifact_dao.UpdatePullTime id t).
Proof.
  unfold artifact_dao.UpdatePullTime. keeps_auto. apply keeps_stmt. intros d Hd; simpl.
  destruct (rows (arts d) !! id) eqn:E; [|done]. match goal with |- context [if ?b then _ else _] => destruct b end; [|done].
  by eapply art_ok_put_artifact.
Qed.

Lemma DeleteReference_keeps id : keeps art_ok (artifact_dao.DeleteReference id).
Proof.
  apply keeps_affect. intros d d' Hd. destruct (rows (refs d) !! id); [|done].
  intros [= <-]. apply art_ok_set_refs; [done|]. apply tab_ok_del, Hd.
Qed.

Lemma DeleteReferences_keeps id : keeps art_ok (artifact_dao.DeleteReferences id).
Proof.
  unfold artifact_dao.DeleteReferences, artifact_dao.Get. keeps_auto. apply keeps_stmt.
  intros d Hd. apply art_ok_set_refs; [done|]. apply tab_ok_dels, Hd.
Qed.
#[export] Hint Resolve artifact_Delete_keeps artifact_UpdatePullTime_keeps DeleteReference_keeps
  DeleteReferences_keeps : keeps.

(** A reference can be created when its child is ready. *)
Definition child_ready (A : table Artifact) (repository : string) (r : Reference) : Prop :=
  ∃ c, rows A !! r_ChildID r = Some c ∧ a_RepositoryName c = repository ∧ a_Digest c = r_ChildDigest r.

Lemma CreateReference_spec p r A :
  rows A !! r_ParentID r = Some p → IsImageIndex p = true →
  child_ready A (a_RepositoryName p) r → r_ChildID r < r_ParentID r →
  spec (λ d, art_ok d ∧ arts d = A) (artifact_dao.CreateReference r) (λ _ d, art_ok d ∧ arts d = A)
    art_ok.
Proof.
  intros Hp Hi (c & Hc & Hn & Hg) Hlt. unfold artifact_dao.CreateReference.
  eapply spec_bind; [apply (spec_FromContext _ (λ _ d, art_ok d ∧ arts d = A)); naive_solver|intros []].
  apply spec_wrap_err, spec_stmt; [|naive_solver]. intros d [Hd <-].
  unfold artifact_dao.insert_reference. case_decide as Hsel; [|done]. rewrite Hp, Hc.
  split; [|done]. apply art_ok_set_refs; [done|].
  eapply (tab_ok_add _ _ _ _ _ _ (ok_refs d Hd) Hsel); try done.
  - intros n x [? ?]. simpl in *. by split.
  - exists p, c. by split_and!.
Qed.

Lemma create_references_spec id p l A :
  rows A !! id = Some p → (l ≠ [] → IsImageIndex p = true) →
  Forall (λ r, child_ready A (a_RepositoryName p) r ∧ r_ChildID r < id) l →
  spec (λ d, art_ok d ∧ arts d = A) (artifact_mgr.create_references id l)
    (λ _ d, art_ok d ∧ arts d = A) art_ok.
Proof.
  intros Hp Hi Hl. induction Hl as [|r l [Hr Hlt] _ IH]; [by apply spec_ret|]. simpl.
  eapply spec_bind.
  - apply (CreateReference_spec p); [done|by apply Hi|done|done].
  - intros ?. apply IH. intros. by apply Hi.
Qed.

(** An artifact that can be created: its references are ready, and only an image
    index has some. *)
Definition ready (a : ArtifactRefs) (d : ArtDB) : Prop :=
  Forall (child_ready (arts d) (a_RepositoryName (ar_row a))) (ar_References a) ∧
  (ar_References a ≠ [] → IsImageIndex (ar_row a) = true).

Lemma Create_spec a :
  spec (λ d, art_ok d ∧ ready a d) (artifact_mgr.Create a)
    (λ id d, art_ok d ∧ rows (arts d) !! id = Some (artifact_dao.with_id id (ar_row a))) art_ok.
Proof.
  intros w r w' [Hw [Hr Hi]] H. unfold artifact_mgr.Create in H.
  apply bind_cases in H as [(e & H & ->)|(id & w1 & H1 & H)].
  { exact (artifact_Create_spec _ _ _ _ Hw H). }
  assert (Hext : Forall (child_ready (arts (db w1)) (a_RepositoryName (ar_row a))) (ar_References a) ∧
    Forall (λ r, r_ChildID r < id) (ar_References a)).
  { pose proof (ok_arts _ Hw) as HA. unfold artifact_dao.Create in H1.
    apply bind_ok_inv in H1 as ([] & w2 & H2 & H1). apply FromContext_cases in H2 as [-> _].
    unfold artifact_dao.wrap_err in H1. apply bind_try_inv in H1 as ([x|e] & w3 & H3 & H1); [|discriminate].
    injection H1 as -> <-. apply stmt_ok_inv in H3. unfold artifact_dao.insert_artifact in H3.
    case_decide; [|discriminate]. injection H3 as <- <-. rewrite <- Forall_and.
    eapply Forall_impl; [exact Hr|]. intros x (c & Hc & Hx). split.
    - exists c. split; [|done]. cbn [arts set_arts]. eapply lookup_add; [apply HA|done].
    - destruct (tab_keys _ _ _ _ HA _ _ Hc) as [_ ?]. unfold next. lia. }
  destruct Hext as [Hready Hlt].
  pose proof (artifact_Create_spec _ _ _ _ Hw H1) as (Hd & Hrow & _).
  assert (Hs := create_references_spec id _ (ar_References a) (arts (db w1)) Hrow Hi).
  specialize (Hs (proj2 (Forall_and _ _) (conj Hready Hlt))).
  apply bind_cases in H as [(e & H & ->)|(u & w2 & H2 & H)].
  - exact (Hs _ _ _ (conj Hd eq_refl) H).
  - injection H as <- <-. destruct (Hs _ _ _ (conj Hd eq_refl) H2) as [? ->]. done.
Qed.

Lemma artifact_mgr_Delete_keeps id : keeps art_ok (artifact_mgr.Delete id).
Proof. unfold artifact_mgr.Delete. keeps_auto. Qed.
#[export] Hint Resolve artifact_mgr_Delete_keeps : keeps.

(** *** Tags *)

(** The artifact that a tag of the repository may point to. *)
Definition in_repo (repositoryID artifactID : Z) (d : ArtDB) : Prop :=
  ∃ a, rows (arts d) !! artifactID = Some a ∧ a_RepositoryID a = repositoryID.

Lemma tag_Create_spec t :
  spec (λ d, art_ok d ∧ in_repo (t_RepositoryID t) (t_ArtifactID t) d) (tag_dao.Create t)
    (λ _, art_ok) art_ok.
Proof.
  unfold tag_dao.Create.
  eapply spec_bind;
    [apply (spec_FromContext _ (λ _ d, art_ok d ∧ in_repo (t_RepositoryID t) (t_ArtifactID t) d)); naive_solver
    |intros []].
  apply spec_wrap_err, spec_stmt; [|naive_solver]. intros d [Hd Hin]. unfold tag_dao.insert_tag.
  case_decide as Hsel; [|done]. destruct (rows (arts d) !! _) eqn:E; [|done].
  apply art_ok_set_tags; [done|]. by eapply (tab_ok_add _ _ _ _ _ _ (ok_tags d Hd) Hsel).
Qed.

Lemma tag_Update_spec id art p repositoryID :
  spec (λ d, art_ok d ∧ match p with
                        | tag_dao.ArtifactID_PushTime a _ =>
                            in_repo repositoryID a d ∧
                            ∃ t, rows (tags d) !! id = Some t ∧ t_RepositoryID t = repositoryID
                        | tag_dao.PullTime _ => True
                        end) (tag_dao.Update id art p) (λ _, art_ok) art_ok.
Proof.
  apply spec_affect; [|naive_solver]. intros d d' [Hd Hp]. unfold tag_dao.update_tag.
  destruct (rows (tags d) !! id) as [t|] eqn:E; [|done].
  destruct (rows (arts d) !! _) as [a|] eqn:F; [|done]. intros [= <-].
  apply art_ok_set_tags; [done|].
  pose proof (tab_valid _ _ _ _ (ok_tags d Hd) _ _ E) as (b & Hb & Hbr).
  eapply (tab_ok_put _ _ _ id t _ _ (ok_tags d Hd) E); destruct p; simpl in *; try done.
  - destruct Hp as [(x & Hx & Hxr) (t' & Ht' & Htr)]. exists x. split; [done|]. simpl. congruence.
  - exists b. by split.
Qed.

Lemma tag_Delete_keeps id : keeps art_ok (tag_dao.Delete id).
Proof.
  apply keeps_affect. intros d d' Hd. destruct (rows (tags d) !! id); [|done].
  intros [= <-]. apply art_ok_set_tags; [done|]. apply tab_ok_del, Hd.
Qed.
Lemma tag_DeleteOfArtifact_keeps id : keeps art_ok (tag_dao.DeleteOfArtifact id).
Proof.
  unfold tag_dao.DeleteOfArtifact. keeps_auto. apply keeps_stmt.
  intros d Hd. apply art_ok_set_tags; [done|]. apply tab_ok_dels, Hd.
Qed.

(** *** Accessories, labels, trash, repositories *)

Lemma accessory_Create_keeps c : keeps art_ok (accessory_dao.Create c).
Proof.
  unfold accessory_dao.Create. keeps_auto. apply keeps_wrap_err, keeps_stmt. intros d Hd.
  unfold accessory_dao.insert_accessory. case_decide as Hsel; [|done].
  destruct (rows (arts d) !! c_ArtifactID c) eqn:E; [|done].
  destruct (rows (arts d) !! c_SubjectArtifactID c) eqn:F; [|done]. simpl.
  apply art_ok_set_accs; [done|]. eapply (tab_ok_add _ _ _ _ _ _ (ok_accs d Hd) Hsel); try done.
  intros n x [? ?]. by split.
Qed.
Lemma accessory_Delete_keeps id : keeps art_ok (accessory_dao.Delete id).
Proof.
  apply keeps_affect. intros d d' Hd. destruct (rows (accs d) !! id); [|done].
  intros [= <-]. apply art_ok_set_accs; [done|]. apply tab_ok_del, Hd.
Qed.
Lemma DeleteAccessories_keeps P `{!∀ c, Decision (P c)} : keeps art_ok (accessory_dao.DeleteAccessories P).
Proof.
  unfold accessory_dao.DeleteAccessories. keeps_auto. apply keeps_stmt.
  intros d Hd. apply art_ok_set_accs; [done|]. apply tab_ok_dels, Hd.
Qed.
#[export] Hint Resolve tag_Delete_keeps tag_DeleteOfArtifact_keeps accessory_Create_keeps
  accessory_Delete_keeps DeleteAccessories_keeps : keeps.

Lemma accessory_List_keeps I P `{!∀ c, Decision (P c)} : keeps I (accessory_dao.List P).
Proof. unfold accessory_dao.List. keeps_auto. Qed.
#[export] Hint Resolve accessory_List_keeps : keeps.
Lemma accessory_mgr_List_keeps I P `{!∀ c, Decision (P c)} : keeps I (accessory_mgr.List P).
Proof. unfold accessory_mgr.List. keeps_auto. Qed.
Lemma accessory_mgr_Ensure_keeps s a z g ty : keeps art_ok (accessory_mgr.Ensure s a z g ty).
Proof. unfold accessory_mgr.Ensure, accessory_mgr.Create. keeps_auto. Qed.
Lemma accessory_mgr_DeleteAccessories_keeps P `{!∀ c, Decision (P c)} :
  keeps art_ok (accessory_mgr.DeleteAccessories P).
Proof. unfold accessory_mgr.DeleteAccessories. keeps_auto. Qed.
#[export] Hint Resolve accessory_mgr_List_keeps accessory_mgr_Ensure_keeps
  accessory_mgr_DeleteAccessories_keeps : keeps.

Lemma label_Create_keeps l : keeps art_ok (label_dao.Create l).
Proof.
  unfold label_dao.Create. keeps_auto. apply keeps_wrap_err, keeps_stmt. intros d Hd.
  case_decide as Hsel; [|done]. simpl. destruct Hd. split; simpl; try done.
  - by eapply (tab_ok_add _ _ _ _ _ _ ok_labels0 Hsel).
  - eapply tab_ok_mono; [done|]. intros i r _ [[x Hx] ?]. split; [|done]. exists x.
    eapply lookup_add; [apply ok_labels0|done].
Qed.

Lemma label_Update_keeps l : keeps art_ok (label_dao.Update l).
Proof.
  unfold label_dao.Update. keeps_auto. apply keeps_wrap_err, keeps_stmt. intros d Hd.
  destruct (rows (labels d) !! l_ID l) as [m|] eqn:E; [|done]. case_decide as Hsel; [|done]. simpl.
  destruct Hd. split; simpl; try done.
  - eapply (tab_ok_put_fresh _ _ _ _ _ _ _ _ ok_labels0 E); [done|exact Hsel|done|done].
  - eapply tab_ok_mono; [done|]. intros i r _ [[x Hx] ?]. split; [|done]. simpl.
    apply lookup_insert_is_Some'. eauto.
Qed.

Lemma label_Delete_keeps id : keeps art_ok (label_dao.Delete id).
Proof.
  apply keeps_affect. intros d d' Hd. destruct (rows (labels d) !! id) as [m|] eqn:E; [|done].
  case_decide as Hsel; [|done]. intros [= <-]. rewrite select_nil in Hsel.
  destruct Hd. split; simpl; try done; [by apply tab_ok_del|].
  eapply tab_ok_mono; [done|]. intros i r Hi [[x Hx] ?]. split; [|done]. exists x. simpl.
  rewrite lookup_delete_ne; [done|]. intros Hid. by eapply Hsel.
Qed.

Lemma AddTo_keeps l a : keeps art_ok (label_mgr.AddTo l a).
Proof.
  unfold label_mgr.AddTo, label_dao.CreateReference. keeps_auto. apply keeps_wrap_err, keeps_stmt. intros d Hd.
  unfold label_dao.insert_labelref. case_decide as Hsel; [|done].
  destruct (rows (labels d) !! l) eqn:E; [|done]. destruct (rows (arts d) !! a) eqn:F; [|done]. simpl.
  apply art_ok_set_labelrefs; [done|]. eapply (tab_ok_add _ _ _ _ _ _ (ok_labelrefs d Hd) Hsel); try done.
  intros n x [? ?]. by split.
Qed.

Lemma label_DeleteReferences_keeps P `{!∀ r, Decision (P r)} : keeps art_ok (label_dao.DeleteReferences P).
Proof.
  unfold label_dao.DeleteReferences. keeps_auto. apply keeps_stmt.
  intros d Hd. apply art_ok_set_labelrefs; [done|]. apply tab_ok_dels, Hd.
Qed.
#[export] Hint Resolve label_Create_keeps label_Update_keeps label_Delete_keeps AddTo_keeps
  label_DeleteReferences_keeps : keeps.

Lemma RemoveAllFrom_keeps a : keeps art_ok (label_mgr.RemoveAllFrom a).
Proof. unfold label_mgr.RemoveAllFrom. keeps_auto. Qed.
Lemma RemoveFrom_keeps l a : keeps art_ok (label_mgr.RemoveFrom l a).
Proof. unfold label_mgr.RemoveFrom. keeps_auto. Qed.
Lemma RemoveFromAllArtifacts_keeps l : keeps art_ok (label_mgr.RemoveFromAllArtifacts l).
Proof. unfold label_mgr.RemoveFromAllArtifacts. keeps_auto. Qed.

Lemma trash_Create_keeps x : keeps art_ok (trash_dao.Create x).
Proof.
  unfold trash_dao.Create. keeps_auto. apply keeps_wrap_err, keeps_stmt. intros d Hd.
  case_decide as Hsel; [|done]. simpl. apply art_ok_set_trash; [done|].
  eapply (tab_ok_add _ _ _ _ _ _ (ok_trash d Hd) Hsel); try done. intros n y [? ?]. by split.
Qed.
Lemma trash_Delete_keeps id : keeps art_ok (trash_dao.Delete id).
Proof.
  apply keeps_affect. intros d d' Hd. destruct (rows (trash d) !! id); [|done].
  intros [= <-]. apply art_ok_set_trash; [done|]. apply tab_ok_del, Hd.
Qed.
Lemma Flush_keeps t : keeps art_ok (trash_dao.Flush t).
Proof.
  unfold trash_dao.Flush. keeps_auto. apply keeps_stmt.
  intros d Hd. apply art_ok_set_trash; [done|]. apply tab_ok_dels, Hd.
Qed.

Lemma repo_Create_keeps n p : keeps art_ok (repo_mgr.Create n p).
Proof.
  unfold repo_mgr.Create. keeps_auto. apply keeps_wrap_err, keeps_stmt. intros d Hd.
  case_decide as Hsel; [|done]. simpl. apply art_ok_set_repos; [done|].
  by eapply (tab_ok_add _ _ _ _ _ _ (ok_repos d Hd) Hsel).
Qed.
Lemma repo_Delete_keeps id : keeps art_ok (repo_mgr.Delete id).
Proof.
  apply keeps_affect. intros d d' Hd. destruct (rows (repos d) !! id); [|done].
  intros [= <-]. apply art_ok_set_repos; [done|]. apply tab_ok_del, Hd.
Qed.
Lemma repo_Update_keeps id f : keeps art_ok (repo_mgr.Update id f).
Proof.
  apply keeps_affect. intros d d' Hd. destruct (rows (repos d) !! id) as [p|] eqn:E; [|done].
  cbv zeta. case_decide as Hsel; [|done]. intros [= <-]. apply art_ok_set_repos; [done|].
  eapply (tab_ok_put_fresh _ _ _ _ _ _ _ _ (ok_repos d Hd) E); [done|exact Hsel| |done].
  intros y Hy Hne. by split.
Qed.
Lemma AddPullCount_keeps id n : keeps art_ok (repo_mgr.AddPullCount id n).
Proof.
  unfold repo_mgr.AddPullCount. keeps_auto. apply keeps_stmt. intros d Hd.
  destruct (rows (repos d) !! id) as [p|] eqn:E; [|done]. destruct (_ <? _); [|done].
  apply art_ok_set_repos; [done|]. pose proof (ok_repos d Hd) as Hr.
  eapply (tab_ok_put _ _ _ _ _ _ _ Hr E); [|done|done].
  simpl. by destruct (tab_keys _ _ _ _ Hr _ _ E) as [-> _].
Qed.
#[export] Hint Resolve RemoveAllFrom_keeps RemoveFrom_keeps RemoveFromAllArtifacts_keeps trash_Create_keeps
  trash_Delete_keeps Flush_keeps repo_Create_keeps repo_Delete_keeps repo_Update_keeps AddPullCount_keeps : keeps.

(** ** Readers keep every predicate *)

Lemma keeps_all_reads {D A} (m : M D A) : (∀ I, keeps I m) → reads m.
Proof. intros Hm w r w' H. pose proof (Hm (λ d, db w = d) _ _ _ eq_refl H). by destruct r. Qed.

Section readers.
Context (sv : Services) (I : ArtDB → Prop).

Lemma ListReferences_keeps P `{!∀ r, Decision (P r)} : keeps I (artifact_dao.ListReferences P).
Proof. unfold artifact_dao.ListReferences. keeps_auto. Qed.
Hint Resolve ListReferences_keeps : keeps.
Lemma assemble_keeps a : keeps I (artifact_mgr.assemble a).
Proof. unfold artifact_mgr.assemble, artifact_mgr.ListReferences. keeps_auto. Qed.
Hint Resolve assemble_keeps : keeps.
Lemma artifact_Get_keeps id : keeps I (artifact_mgr.Get id).
Proof. unfold artifact_mgr.Get, artifact_dao.Get. keeps_auto. Qed.
Lemma artifact_GetByDigest_keeps r g : keeps I (artifact_mgr.GetByDigest r g).
Proof. unfold artifact_mgr.GetByDigest, artifact_dao.GetByDigest. keeps_auto. Qed.
Lemma querySetter_keeps q : keeps I (artifact_dao.querySetter q).
Proof.
  unfold artifact_dao.querySetter, artifact_dao.setTagQuery, artifact_dao.ids_by_tag. keeps_auto.
Qed.
Hint Resolve artifact_Get_keeps artifact_GetByDigest_keeps querySetter_keeps : keeps.
Lemma assemble_all_keeps l : keeps I (artifact_mgr.assemble_all l).
Proof. induction l; simpl; keeps_auto. Qed.
Hint Resolve assemble_all_keeps : keeps.
Lemma artifact_List_keeps q : keeps I (artifact_mgr.List q).
Proof. unfold artifact_mgr.List, artifact_dao.List, artifact_dao.All. keeps_auto. Qed.

Lemma tag_dao_List_keeps P `{!∀ t, Decision (P t)} : keeps I (tag_dao.List P).
Proof. unfold tag_dao.List. keeps_auto. Qed.
Hint Resolve artifact_List_keeps tag_dao_List_keeps : keeps.
Lemma assembleTag_keeps t o : keeps I (tag_ctl.assembleTag sv t o).
Proof.
  unfold tag_ctl.assembleTag, tag_ctl.populateImmutableStatus, tag_ctl.populateTagSignature.
  keeps_auto.
Qed.
Hint Resolve assembleTag_keeps : keeps.
Lemma assembleTags_keeps l o : keeps I (tag_ctl.assembleTags sv l o).
Proof. revert o. induction l; intros o; simpl; keeps_auto. Qed.
Hint Resolve assembleTags_keeps : keeps.
Lemma list_with_keeps P `{!∀ t, Decision (P t)} o : keeps I (tag_ctl.list_with sv P o).
Proof. unfold tag_ctl.list_with. keeps_auto. Qed.
Hint Resolve list_with_keeps : keeps.
Lemma tag_List_keeps P `{!∀ t, Decision (P t)} o : keeps I (tag_ctl.List sv P o).
Proof. unfold tag_ctl.List. keeps_auto. Qed.
Lemma tag_Get_keeps id o : keeps I (tag_ctl.Get sv id o).
Proof. unfold tag_ctl.Get, tag_dao.Get. keeps_auto. Qed.
Lemma GetByName_keeps n : keeps I (repo_mgr.GetByName n).
Proof. unfold repo_mgr.GetByName, repo_mgr.List. keeps_auto. Qed.
Hint Resolve tag_List_keeps tag_Get_keeps GetByName_keeps : keeps.

Lemma assemble_with_keeps a o : keeps I (artifact_ctl.assemble_with sv a o).
Proof.
  unfold artifact_ctl.assemble_with, artifact_ctl.populateTags, artifact_ctl.populateLabels,
    artifact_ctl.populateAccessories, label_dao.ListByArtifact.
  keeps_auto.
Qed.
Hint Resolve assemble_with_keeps : keeps.
Lemma assembleArtifact_keeps a o : keeps I (artifact_ctl.assembleArtifact sv a o).
Proof. unfold artifact_ctl.assembleArtifact. keeps_auto. Qed.
Hint Resolve assembleArtifact_keeps : keeps.
Lemma assembleArtifacts_keeps l o : keeps I (artifact_ctl.assembleArtifacts sv l o).
Proof. revert o. induction l; intros o; simpl; keeps_auto. Qed.
Hint Resolve assembleArtifacts_keeps : keeps.
Lemma ctl_List_keeps q o : keeps I (artifact_ctl.List sv q o).
Proof. unfold artifact_ctl.List. keeps_auto. Qed.
Lemma ctl_Get_keeps id o : keeps I (artifact_ctl.Get sv id o).
Proof. unfold artifact_ctl.Get. keeps_auto. Qed.
Hint Resolve ctl_Get_keeps : keeps.
Lemma GetByReference_keeps r s o : keeps I (artifact_ctl.GetByReference sv r s o).
Proof.
  unfold artifact_ctl.GetByReference, artifact_ctl.getByDigest, artifact_ctl.getByTag. keeps_auto.
Qed.

Lemma ListBlobs_keeps l p a : keeps I (on_blobs (dao.ListBlobs l p a)).
Proof. apply keeps_reads, on_blobs_reads. unfold dao.ListBlobs. frame. Qed.
Lemma index_children_keeps r l s acc : keeps I (abstractor.index_children r l s acc).
Proof. revert s acc. induction l; intros; simpl; keeps_auto. Qed.
Hint Resolve ListBlobs_keeps index_children_keeps : keeps.
Lemma AbstractMetadata_keeps a : keeps I (abstractor.AbstractMetadata sv a).
Proof.
  unfold abstractor.AbstractMetadata, abstractor.abstractManifestV1Metadata, abstractor.abstractIndexMetadata.
  keeps_auto.
Qed.
End readers.
#[export] Hint Resolve ListReferences_keeps assemble_keeps artifact_Get_keeps artifact_GetByDigest_keeps
  querySetter_keeps artifact_List_keeps tag_dao_List_keeps assembleTag_keeps tag_List_keeps
  tag_Get_keeps GetByName_keeps assembleArtifact_keeps ctl_List_keeps ctl_Get_keeps GetByReference_keeps
  ListBlobs_keeps AbstractMetadata_keeps : keeps.

(** ** What the readers return *)

Section returned.
Context (sv : Services).

(** Strengthen a reader's postcondition. *)
Lemma reader_spec {A} P (m : M ArtDB A) (Q : A → ArtDB → Prop) :
  (∀ I, keeps I m) → spec P m Q (λ _, True) → spec P m (λ a d, P d ∧ Q a d) P.
Proof. intros Hm HQ. apply spec_reads_val; [by apply keeps_all_reads|done|done]. Qed.

Lemma head_order_desc {R} (key : R → Z * Z) P `{!∀ r, Decision (P r)} t x l :
  order_desc key (select P t) = x :: l → ∃ i, rows t !! i = Some x ∧ P x.
Proof.
  intros Hl. apply (elem_of_select P t x). rewrite <- (order_desc_perm key), Hl. by left.
Qed.

Lemma assemble_row a : spec (λ _, True) (artifact_mgr.assemble a) (λ x _, ar_row x = a) (λ _, True).
Proof.
  unfold artifact_mgr.assemble. destruct (IsImageIndex a); [|by apply spec_ret].
  eapply spec_bind; [apply spec_reads, keeps_all_reads; intros; apply ListReferences_keeps|].
  intros rs. by apply spec_ret.
Qed.

Definition found (repository digest : string) (a : Artifact) (d : ArtDB) : Prop :=
  rows (arts d) !! a_ID a = Some a ∧ a_RepositoryName a = repository ∧ a_Digest a = digest.

Lemma GetByDigest_spec P repository digest :
  (∀ d, P d → art_ok d) →
  spec P (artifact_mgr.GetByDigest repository digest)
    (λ a d, P d ∧ found repository digest (ar_row a) d) P.
Proof.
  intros HP. apply reader_spec; [intros; apply artifact_GetByDigest_keeps|].
  unfold artifact_mgr.GetByDigest.
  apply (spec_bind _ _ (λ a d, found repository digest a d)).
  - unfold artifact_dao.GetByDigest.
    eapply spec_bind; [by apply (spec_FromContext _ (λ _, P))|intros []].
    eapply (spec_bind _ _ (λ l d, ∀ a, head l = Some a → found repository digest a d)).
    + apply spec_query; [|done]. intros d l Hd [= <-] a Ha.
      destruct (order_desc _ _) as [|x l] eqn:E; [done|]. injection Ha as ->.
      apply head_order_desc in E as (i & Hi & Hr & Hg).
      destruct (tab_keys _ _ _ _ (ok_arts d (HP d Hd)) _ _ Hi) as [<- _]. by split_and!.
    + intros [|a l]; [by apply spec_fail|]. apply spec_ret. eauto.
  - intros a. eapply spec_conseq; [|done| |done].
    + apply (reader_spec (found repository digest a) _ (λ x _, ar_row x = a)).
      * intros. apply assemble_keeps.
      * eapply spec_pre; [apply assemble_row|done].
    + by intros x d [? ->].
Qed.

End returned.

(** ** The controllers keep the invariant *)

Section controllers.
Context (sv : Services).

Lemma index_children_spec repository l size acc :
  spec (λ d, art_ok d ∧ Forall (child_ready (arts d) repository) acc)
    (abstractor.index_children repository l size acc)
    (λ x d, art_ok d ∧ Forall (child_ready (arts d) repository) x.2) art_ok.
Proof.
  revert size acc. induction l as [|e l IH]; intros size acc; simpl; [by apply spec_ret|].
  eapply spec_bind.
  - eapply spec_conseq;
      [apply (GetByDigest_spec (λ d, art_ok d ∧ Forall (child_ready (arts d) repository) acc))
      |done|intros a d H; exact H|]; by intros d [].
  - intros ar. eapply spec_pre; [apply IH|]. intros d [[Hd Hacc] (Hrow & Hn & Hg)].
    split; [done|]. apply Forall_app_2; [done|]. apply Forall_singleton. exists (ar_row ar). by split_and!.
Qed.

(** The columns that [AbstractMetadata] does not set. *)
Definition same_identity (a b : Artifact) : Prop :=
  a_RepositoryName a = a_RepositoryName b ∧ a_RepositoryID a = a_RepositoryID b ∧
  a_ProjectID a = a_ProjectID b ∧ a_Digest a = a_Digest b.

Lemma AbstractMetadata_spec a :
  spec art_ok (abstractor.AbstractMetadata sv a)
    (λ ar d, art_ok d ∧ ready ar d ∧ same_identity (ar_row ar) a) art_ok.
Proof.
  unfold abstractor.AbstractMetadata.
  eapply (spec_bind _ _ (λ _, art_ok)); [by apply spec_of_result|]. intros [mt k].
  set (a' := with_meta _ _ _ _ _).
  apply (spec_bind _ _ (λ ar d, art_ok d ∧ ready ar d ∧ same_identity (ar_row ar) a)).
  - spec_if; [|spec_if; [|spec_if; [|by apply spec_fail]]].
    + unfold abstractor.abstractManifestV1Metadata. destruct (k_AsV1 k); [|by apply spec_fail].
      eapply spec_bind; [apply (ListBlobs_keeps art_ok)|]. intros bs. apply spec_ret.
      intros d Hd. split_and!; [done|done|done].
    + apply spec_of_result; [|done]. intros ar d. unfold abstractor.abstractManifestV2Metadata.
      destruct (k_AsV2 k); [|done]. intros [= <-] Hd. by split_and!.
    + unfold abstractor.abstractIndexMetadata. destruct (k_AsIndex k) as [[[l anns] text]|]; [|by apply spec_fail].
      eapply spec_bind; [eapply spec_pre; [apply (index_children_spec (a_RepositoryName a') l)|]|].
      { intros d Hd. by split. }
      intros [size rs]. apply spec_ret. intros d [Hd Hrs]. split_and!; [done| |done].
      split; [exact Hrs|]. intros _. unfold IsImageIndex. simpl. done.
  - intros ar. eapply (spec_bind _ _ (λ _ d, art_ok d ∧ ready ar d ∧ same_identity (ar_row ar) a)).
    + apply spec_of_result; naive_solver.
    + intros [attrs icon]. by apply spec_ret.
Qed.

Lemma ensureArtifact_spec repository digest :
  spec art_ok (artifact_ctl.ensureArtifact sv repository digest)
    (λ x d, art_ok d ∧ found repository digest (ar_row x.2) d) art_ok.
Proof.
  unfold artifact_ctl.ensureArtifact.
  eapply spec_bind; [eapply (spec_try _ _ _ art_ok art_ok); by apply (GetByDigest_spec art_ok)|].
  intros [a|e]; [by apply spec_ret|]. destruct (IsErr e NotFoundCode); [|by apply spec_fail]. simpl.
  eapply spec_bind; [apply (GetByName_keeps art_ok)|intros repo].
  eapply spec_bind; [apply (time_Now_keeps art_ok)|intros now].
  eapply spec_bind; [apply AbstractMetadata_spec|]. intros ar. cbv zeta.
  set (ar' := mkArtifactRefs _ _).
  apply (spec_bind _ _ (λ r d, art_ok d ∧ match r with
      | Ok id => found repository digest (artifact_dao.with_id id (ar_row ar')) d | Err _ => True end)).
  - intros w r w' (Hw & [Hr Hi] & Hid & _ & _ & Hg) H.
    assert (Ht : spec (λ d, art_ok d ∧ ready ar' d) (WithTransaction (artifact_mgr.Create ar'))
      (λ id d, art_ok d ∧ rows (arts d) !! id = Some (artifact_dao.with_id id (ar_row ar'))) art_ok).
    { eapply spec_WithTransaction; [apply Create_spec|]. by intros d []. }
    pose proof (spec_try _ _ _ _ art_ok Ht _ _ _ (conj Hw (conj Hr Hi)) H) as Hq.
    destruct r as [[id|e']|e']; [|done|exact Hq].
    destruct Hq as [Hd Hrow]. split; [done|]. by split_and!.
  - intros [id|e'].
    + apply spec_ret. intros d [Hd Hf]. done.
    + destruct (IsConflictErr e'); simpl; [|by apply spec_fail; intros d []].
      eapply spec_bind.
      * eapply spec_pre; [by apply (GetByDigest_spec art_ok)|]. by intros d [].
      * intros a. by apply spec_ret.
Qed.

(** Tag operations do not touch the artifacts. *)
Lemma tag_Create_arts A t : keeps (λ d, arts d = A) (tag_dao.Create t).
Proof.
  unfold tag_dao.Create. keeps_auto. apply keeps_wrap_err, keeps_stmt. intros d <-.
  unfold tag_dao.insert_tag. case_decide; [|done]. by destruct (rows (arts d) !! _).
Qed.
Lemma tag_Update_arts A id x p : keeps (λ d, arts d = A) (tag_dao.Update id x p).
Proof.
  apply keeps_affect. intros d d' <-. unfold tag_dao.update_tag.
  destruct (rows (tags d) !! id); [|done]. destruct (rows (arts d) !! _); [|done]. by intros [= <-].
Qed.
Lemma tag_Ensure_arts A rid aid name : keeps (λ d, arts d = A) (tag_ctl.Ensure sv rid aid name).
Proof.
  unfold tag_ctl.Ensure, tag_ctl.Create.
  keeps_auto; first [apply tag_Create_arts|apply tag_Update_arts].
Qed.

(** Assembling a tag keeps the row. *)
Lemma assembleTag_tag t o :
  spec (λ _, True) (tag_ctl.assembleTag sv t o) (λ x _, tv_Tag x.1 = t) (λ _, True).
Proof.
  assert (Hget : ∀ (φ : Prop) i, spec (λ _, φ) (try (artifact_mgr.Get i)) (λ _ _, φ) (λ _, True)).
  { intros φ i. eapply spec_conseq; [|intros d H; exact H|intros r d H; exact H|done].
    apply (keeps_try (λ _, φ)), artifact_Get_keeps. }
  unfold tag_ctl.assembleTag. destruct o as [o|]; [|by apply spec_ret].
  apply (spec_bind _ _ (λ v _, tv_Tag v = t)).
  - destruct (WithImmutableStatus o); [|by apply spec_ret]. unfold tag_ctl.populateImmutableStatus.
    eapply spec_bind; [apply (Hget True)|].
    intros [a|e]; [|by apply spec_ret]. destruct (tag_ctl.immutable sv _ _); by apply spec_ret.
  - intros v. destruct (WithSignature o); [|by apply spec_ret].
    apply (spec_bind _ _ (λ x _, tv_Tag x.1 = t)); [|intros [v' o']; by apply spec_ret].
    unfold tag_ctl.populateTagSignature. eapply spec_bind; [apply (Hget (tv_Tag v = t))|].
    intros [a|e]; [|by apply spec_ret].
    match goal with |- spec _ (match ?x with _ => _ end) _ _ => destruct x end; by apply spec_ret.
Qed.

Lemma assembleTags_tags l o :
  spec (λ _, True) (tag_ctl.assembleTags sv l o) (λ x _, tv_Tag <$> x.1 = l) (λ _, True).
Proof.
  revert o. induction l as [|t l IH]; intros o; simpl; [by apply spec_ret|].
  eapply spec_bind; [apply assembleTag_tag|]. intros [v o']. simpl.
  apply (spec_bind _ _ (λ x _, tv_Tag v = t ∧ tv_Tag <$> x.1 = l)).
  - eapply spec_conseq; [apply (spec_and (λ _, tv_Tag v = t));
      [apply (assembleTags_keeps sv (λ _, tv_Tag v = t))|apply (IH o')]|done..].
  - intros [vs o'']. apply spec_ret. intros d [Hv Hl]. cbn [fst] in *. by rewrite fmap_cons, Hv, Hl.
Qed.

(** The tags that are listed are rows that satisfy the condition. *)
Lemma tag_List_rows P `{!∀ t, Decision (P t)} o :
  spec art_ok (tag_ctl.List sv P o)
    (λ l d, art_ok d ∧ ∀ v, v ∈ l → rows (tags d) !! t_ID (tv_Tag v) = Some (tv_Tag v) ∧ P (tv_Tag v)) art_ok.
Proof.
  apply reader_spec; [intros; apply tag_List_keeps|]. unfold tag_ctl.List, tag_ctl.list_with.
  set (good := λ (l : list Tag) (d : ArtDB), ∀ t, t ∈ l → rows (tags d) !! t_ID t = Some t ∧ P t).
  apply (spec_bind _ _ (λ x d, ∀ v, v ∈ x.1 → rows (tags d) !! t_ID (tv_Tag v) = Some (tv_Tag v) ∧ P (tv_Tag v)));
    [|intros x; by apply spec_ret].
  apply (spec_bind _ _ good).
  - unfold tag_dao.List. eapply spec_bind; [by apply (spec_FromContext _ (λ _, art_ok))|intros []].
    apply spec_query; [|done]. intros d l Hd [= <-] t Ht. rewrite order_desc_perm in Ht.
    by apply (elem_of_select_ok t_ID) in Ht; [|apply (tab_keys _ _ _ _ (ok_tags d Hd))].
  - intros l. eapply (spec_conseq _ (λ d, good l d ∧ True) _ _ (λ x d, good l d ∧ tv_Tag <$> x.1 = l)).
    + apply spec_and; [apply (assembleTags_keeps sv (good l))|apply assembleTags_tags].
    + done.
    + intros vs d [Hg Hvs] v Hv. apply Hg. rewrite <- Hvs. by apply list_elem_of_fmap_2.
    + done.
Qed.

Lemma in_repo_arts rid aid A d : arts d = A → in_repo rid aid d ↔
  ∃ a, rows A !! aid = Some a ∧ a_RepositoryID a = rid.
Proof. by intros <-. Qed.

Lemma tag_Ensure_spec rid aid name :
  spec (λ d, art_ok d ∧ in_repo rid aid d) (tag_ctl.Ensure sv rid aid name)
    (λ _ d, art_ok d ∧ in_repo rid aid d) art_ok.
Proof.
  intros w r w' [Hw Hin] H.
  pose proof (tag_Ensure_arts (arts (db w)) rid aid name _ _ _ eq_refl H) as Harts.
  assert (Hin' : in_repo rid aid (db w')).
  { apply (in_repo_arts rid aid (arts (db w))); [by destruct r|done]. }
  enough (art_ok (db w')) by by destruct r.
  enough (spec (λ d, art_ok d ∧ in_repo rid aid d) (tag_ctl.Ensure sv rid aid name) (λ _, art_ok) art_ok) as Hs.
  { specialize (Hs _ _ _ (conj Hw Hin) H). by destruct r. }
  clear. unfold tag_ctl.Ensure, tag_ctl.Create.
  eapply spec_bind.
  { eapply spec_conseq; [apply (spec_and art_ok)| | |].
    - apply tag_List_rows.
    - apply (tag_List_keeps sv (in_repo rid aid)).
    - done.
    - intros l d H. exact H.
    - by intros d []. }
  intros [|v l].
  - apply (spec_bind _ _ (λ _, art_ok)); [|intros [u|e]; [by apply spec_ret|by spec_if; [apply spec_ret|apply spec_fail]]].
    eapply spec_conseq; [apply (spec_try _ _ (λ _, art_ok) art_ok art_ok)|intros d H; exact H|by intros [] |done].
    eapply (spec_WithTransaction _ _ _ _ (λ _, True)); [|naive_solver].
    eapply spec_bind; [eapply spec_conseq; [apply (time_Now_keeps (λ d, art_ok d ∧ in_repo rid aid d))| | |]|].
    + naive_solver.
    + intros a d H; exact H.
    + done.
    + intros now. apply (spec_bind _ _ (λ _, art_ok)); [|intros id; by apply spec_ret].
      eapply spec_conseq; [apply tag_Create_spec|naive_solver|done|done].
  - set (tag := tv_Tag v). spec_if; [apply spec_ret; naive_solver|].
    spec_if; [apply spec_fail; naive_solver|].
    apply (spec_bind _ _ (λ _ d, art_ok d ∧ in_repo rid aid d ∧
       rows (tags d) !! t_ID tag = Some tag ∧ t_RepositoryID tag = rid)).
    { eapply spec_conseq; [apply time_Now_keeps| |intros x d H; exact H|by intros d []].
      intros d [[Hd Hl] Hi]. destruct (Hl v) as (? & ? & _); [left|done]. }
    intros now. eapply spec_conseq; [apply (tag_Update_spec (t_ID tag) aid _ rid)| |done|done].
    intros d (Hd & Hi & Ht & Hr). split_and!; eauto.
Qed.

Lemma ensure_tags_spec rid aid l :
  spec (λ d, art_ok d ∧ in_repo rid aid d) (artifact_ctl.ensure_tags sv rid aid l)
    (λ _ d, art_ok d ∧ in_repo rid aid d) art_ok.
Proof.
  induction l as [|t l IH]; simpl; [by apply spec_ret|].
  eapply spec_bind; [apply tag_Ensure_spec|]. intros []. apply IH.
Qed.

Lemma ensure_accs_keeps aid l : keeps art_ok (artifact_ctl.ensure_accs aid l).
Proof. induction l; simpl; keeps_auto. Qed.
Hint Resolve ensure_accs_keeps : keeps.

Lemma Ensure_keeps repository digest o : keeps art_ok (artifact_ctl.Ensure sv repository digest o).
Proof.
  unfold artifact_ctl.Ensure. eapply spec_bind; [apply ensureArtifact_spec|]. intros [created a]. simpl.
  apply (spec_bind _ _ (λ _, art_ok)).
  - destruct o as [o|]; [|by apply spec_ret; intros d []].
    apply (spec_bind _ _ (λ _, art_ok)); [|intros []; apply ensure_accs_keeps].
    eapply spec_conseq; [apply ensure_tags_spec| |by intros u d []|done].
    intros d [Hd (Hrow & _)]. split; [done|]. by exists (ar_row a).
  - intros []. eapply (spec_bind _ _ (λ _, art_ok)); [apply AddEvent_keeps|]. intros []. by apply spec_ret.
Qed.
Hint Resolve Ensure_keeps : keeps.

Lemma tag_ctl_Delete_keeps id : keeps art_ok (tag_ctl.Delete sv id).
Proof. unfold tag_ctl.Delete. keeps_auto. Qed.
Hint Resolve tag_ctl_Delete_keeps : keeps.
Lemma DeleteTags_keeps ids : keeps art_ok (tag_ctl.DeleteTags sv ids).
Proof. induction ids; simpl; keeps_auto. Qed.
Hint Resolve DeleteTags_keeps : keeps.

Lemma ignoring_keeps I code (m : M ArtDB unit) : keeps I m → keeps I (artifact_ctl.ignoring code m).
Proof. intros. unfold artifact_ctl.ignoring. keeps_auto. Qed.

Lemma delete_row_keeps v isRoot : keeps art_ok (artifact_ctl.delete_row v isRoot).
Proof.
  unfold artifact_ctl.delete_row, artifact_ctl.cleanup_blobs.
  keeps_auto. apply ignoring_keeps. keeps_auto.
Qed.
Hint Resolve delete_row_keeps : keeps.

(** The recursion keeps any predicate that its steps keep. *)
Section loops.
Context (I : ArtDB → Prop) (rec : Z → bool → bool → M ArtDB (option unit)).
Hypothesis rec_keeps : ∀ id b c, keeps I (rec id b c).
Lemma delete_accessories_keeps l : keeps I (artifact_ctl.delete_accessories rec l).
Proof. induction l; simpl; keeps_auto. Qed.
Lemma delete_children_keeps l :
  (∀ id, keeps I (artifact_mgr.DeleteReference id)) → keeps I (artifact_ctl.delete_children rec l).
Proof.
  intros Hdel. induction l; simpl; keeps_auto. by apply ignoring_keeps.
Qed.
End loops.

Lemma deleteDeeply_keeps fuel id isRoot isAccessory :
  keeps art_ok (artifact_ctl.deleteDeeply sv fuel id isRoot isAccessory).
Proof.
  revert id isRoot isAccessory. induction fuel as [|fuel IH]; intros id isRoot isAccessory; simpl; [keeps_auto|].
  keeps_auto.
  - apply ignoring_keeps. keeps_auto.
  - apply delete_accessories_keeps, IH.
  - apply delete_children_keeps; [apply IH|]. intros. apply DeleteReference_keeps.
Qed.
Hint Resolve deleteDeeply_keeps : keeps.
Lemma Delete_keeps fuel id : keeps art_ok (artifact_ctl.Delete sv fuel id).
Proof. unfold artifact_ctl.Delete. keeps_auto. Qed.
Hint Resolve Delete_keeps : keeps.

Lemma copyDeeply_keeps fuel srcRepo dstRepo reference isRoot isAcc accs :
  keeps art_ok (artifact_ctl.copyDeeply sv fuel srcRepo dstRepo reference isRoot isAcc accs).
Proof.
  revert reference isRoot isAcc accs. induction fuel as [|fuel IH]; intros; simpl; [keeps_auto|].
  assert (Hkids : ∀ l accs, keeps art_ok
    (artifact_ctl.copy_children (artifact_ctl.copyDeeply sv fuel srcRepo dstRepo) l accs)).
  { induction l as [|x l IHl]; intros; simpl; keeps_auto. }
  assert (Haccs : ∀ l accs, keeps art_ok
    (artifact_ctl.copy_accessories (artifact_ctl.copyDeeply sv fuel srcRepo dstRepo) l accs)).
  { induction l as [|x l IHl]; intros; simpl; keeps_auto. }
  keeps_auto.
Qed.
Hint Resolve copyDeeply_keeps : keeps.
Lemma Copy_keeps fuel s r t : keeps art_ok (artifact_ctl.Copy sv fuel s r t).
Proof. unfold artifact_ctl.Copy. keeps_auto. Qed.

Lemma UpdatePullTime_keeps a t x : keeps art_ok (artifact_ctl.UpdatePullTime sv a t x).
Proof.
  unfold artifact_ctl.UpdatePullTime, artifact_mgr.UpdatePullTime. keeps_auto.
  eapply spec_pre; [apply (tag_Update_spec _ _ _ 0)|done].
Qed.
Lemma AddLabel_keeps a l : keeps art_ok (artifact_ctl.AddLabel a l).
Proof. unfold artifact_ctl.AddLabel. keeps_auto. Qed.
Lemma RemoveLabel_keeps a l : keeps art_ok (artifact_ctl.RemoveLabel a l).
Proof. unfold artifact_ctl.RemoveLabel. keeps_auto. Qed.

Lemma repo_Ensure_keeps n : keeps art_ok (repo_ctl.Ensure sv n).
Proof. unfold repo_ctl.Ensure. keeps_auto. Qed.
Lemma delete_pass_keeps fuel l : keeps art_ok (repo_ctl.delete_pass sv fuel l).
Proof. induction l; simpl; keeps_auto. Qed.
Hint Resolve delete_pass_keeps : keeps.
Lemma delete_passes_keeps fuel passes l : keeps art_ok (repo_ctl.delete_passes sv fuel passes l).
Proof. revert l. induction passes; intros [|x l]; simpl; keeps_auto. Qed.
Hint Resolve delete_passes_keeps : keeps.
Lemma repo_ctl_Delete_keeps fuel passes id : keeps art_ok (repo_ctl.Delete sv fuel passes id).
Proof. unfold repo_ctl.Delete. keeps_auto. Qed.

End controllers.
#[export] Hint Resolve Ensure_keeps tag_ctl_Delete_keeps DeleteTags_keeps deleteDeeply_keeps Delete_keeps
  Copy_keeps UpdatePullTime_keeps AddLabel_keeps RemoveLabel_keeps repo_Ensure_keeps
  repo_ctl_Delete_keeps : keeps.
