(* ===== verification/ArtifactSpec.v ===== *)
(** * Properties of the artifact stores and controllers

    Reachable states satisfy the invariant; what ensuring an artifact or a tag,
    deleting an artifact and walking an artifact tree do; that deletion and the
    walk end; and where they do not do what is intended. *)

From S2P Require Import Prelude GoErrors Orm Retention BlobStore Table Hoare ArtifactStore ArtifactCtl ArtifactInv.
Open Scope Z_scope.
Local Open Scope harbor_scope.

(** ** The operations as a state machine *)

Section machine.
Context (sv : Services).

(** What requests and jobs do to the tables. *)
Inductive op :=
  | PutManifest (repo reference : string) (proxied : option string)
  | DeleteManifest (fuel : nat) (repo reference : string)
  | Signature (repo tag : string) (p : handlers.Pushed)
  | Accelerator (repo tag : string) (p : handlers.Pushed)
  | OpCopy (fuel : nat) (srcRepo reference dstRepo : string)
  | OpDelete (fuel : nat) (id : Z)
  | DeleteTag (id : Z)
  | OpUpdatePullTime (artifactID tagID time : Z)
  | OpAddLabel (artifactID labelID : Z)
  | OpRemoveLabel (artifactID labelID : Z)
  | CreateLabel (l : Label)
  | UpdateLabel (l : Label)
  | DeleteLabel (id : Z)
  | EnsureRepository (name : string)
  | UpdateRepository (id : Z) (f : RepoRecord → RepoRecord)
  | CountPulls (id n : Z)
  | DeleteRepository (fuel passes : nat) (id : Z)
  | FlushTrash (cutOff : Z).

Definition ignore {A} (m : M ArtDB A) : M ArtDB unit := _ ← m; mret tt.

Definition run (o : op) : M ArtDB unit :=
  match o with
  | PutManifest r x p => ignore (handlers.putManifest sv r x p)
  | DeleteManifest n r x => ignore (handlers.deleteManifest sv n r x)
  | Signature r t p => handlers.SignatureMiddleware sv r t p
  | Accelerator r t p => handlers.AcceleratorMiddleware sv r t p
  | OpCopy n s x t => ignore (artifact_ctl.Copy sv n s x t)
  | OpDelete n id => ignore (artifact_ctl.Delete sv n id)
  | DeleteTag id => tag_ctl.Delete sv id
  | OpUpdatePullTime a t x => artifact_ctl.UpdatePullTime sv a t x
  | OpAddLabel a l => artifact_ctl.AddLabel a l
  | OpRemoveLabel a l => artifact_ctl.RemoveLabel a l
  | CreateLabel l => ignore (label_dao.Create l)
  | UpdateLabel l => label_dao.Update l
  | DeleteLabel id => label_dao.Delete id
  | EnsureRepository n => ignore (repo_ctl.Ensure sv n)
  | UpdateRepository id f => repo_mgr.Update id f
  | CountPulls id n => repo_mgr.AddPullCount id n
  | DeleteRepository n k id => ignore (repo_ctl.Delete sv n k id)
  | FlushTrash t => trash_dao.Flush t
  end.

(** One operation, with or without the ORM in its context and under any schedule
    of faults, or the clock. *)
Inductive step : ArtDB → ArtDB → Prop :=
  | step_op o d ctx fs r w : run o (mkWorld d ctx fs) = (r, w) → step d (db w)
  | step_tick d t : now (blobdb d) <= t →
      step d (set_blobdb (mkBlobDB (blobs (blobdb d)) (project_blob (blobdb d)) (artifact_blob (blobdb d))
                (artifacts (blobdb d)) (blob_seq (blobdb d)) t) d).

Definition initial (b : BlobDB) : ArtDB :=
  mkArtDB empty_table empty_table empty_table empty_table empty_table empty_table empty_table empty_table b [].

Lemma create_accessory_keeps r s p t : keeps art_ok (handlers.create_accessory sv r s p t).
Proof. unfold handlers.create_accessory, accessory_mgr.Create. keeps_auto. Qed.
Hint Resolve create_accessory_keeps : keeps.

Lemma run_keeps o : keeps art_ok (run o).
Proof.
  destruct o; simpl; unfold ignore, handlers.putManifest, handlers.deleteManifest,
    handlers.SignatureMiddleware, handlers.AcceleratorMiddleware; keeps_auto.
Qed.

End machine.

Lemma rtc_art_ok sv d d' : rtc (step sv) d d' → art_ok d → art_ok d'.
Proof.
  intros Hr Hi. induction Hr as [|x y z Hs _ IH]; [done|]. apply IH.
  destruct Hs as [o x ctx fs r w H|x t _]; [|by apply art_ok_set_blobdb].
  pose proof (run_keeps sv o (mkWorld x ctx fs) r w Hi H). by destruct r.
Qed.

Lemma initial_ok b : art_ok (initial b).
Proof. split; apply empty_ok. Qed.

(** C2 (the invariant of the artifact tables): whatever requests, deletions,
    copies and label operations run, in any order and with statements failing at
    any point, keys stay unique, every tag, reference, accessory and label
    reference points to existing rows, a tag points to an artifact of its own
    repository, and a reference joins an image index to an older artifact of the
    same repository with the recorded digest; so no artifact refers to itself
    through its references. *)
Theorem reachable_art_ok sv b d : rtc (step sv) (initial b) d → art_ok d.
Proof.
  intros Hr. by apply (rtc_art_ok _ _ _ Hr), initial_ok.
Qed.

(** *** A small registry for the examples *)

Definition ex_manifest : string * Content :=
  (MediaTypeImageManifest, mkContent 100 None (Some (mkManifestV2 "config" 10 [20; 30] ∅ EmptyString)) None).
Definition ex_index (children : list string) : string * Content :=
  (MediaTypeImageIndex, mkContent 50 None None
     (Some ((λ g, mkIndexEntry g EmptyString EmptyString EmptyString) <$> children, ∅, EmptyString))).

Definition ex_sv : Services := {|
  doublestar_Match := λ p s, Ok (p == s);
  immutable_rules := λ _, Ok [];
  GetCheckerByRepo := λ _, Ok ∅;
  digest_Parse := λ s, GoStrings.HasPrefix s "sha256:";
  PullManifest := λ _ g, Ok (if g == "sha256:i" then ex_index ["sha256:a"; "sha256:b"]%string else ex_manifest);
  regCli_Copy := λ _ _ _, Ok tt;
  proc_AbstractMetadata := λ _ _ _, Ok (EmptyString, EmptyString);
  proc_GetArtifactType := λ _, "IMAGE"%string;
  proMgr_Get := λ _, Ok 1;
|}.

Definition ex_blobs : BlobDB := mkBlobDB ∅ ∅ ∅ [] 0 0.
Definition run_all (ops : list op) (d : ArtDB) : ArtDB :=
  fold_left (λ d o, db (run ex_sv o (mkWorld d true [])).2) ops d.

Lemma run_all_steps ops d : rtc (step ex_sv) d (run_all ops d).
Proof.
  revert d. induction ops as [|o ops IH]; intros d; simpl; [done|].
  eapply rtc_l; [|apply IH].
  destruct (run ex_sv o (mkWorld d true [])) as [r w] eqn:E. by eapply step_op.
Qed.

(** Two images and an index of them, tagged. *)
Definition ex_pushes : list op :=
  [PutManifest "library/app" "v1" (Some "sha256:a"); PutManifest "library/app" "sha256:b" (Some "sha256:b");
   PutManifest "library/app" "latest" (Some "sha256:i")]%string.
Definition ex_db : ArtDB := run_all ex_pushes (initial ex_blobs).

Example ex_db_tables :
  (a_Digest <$> select (λ _, True) (arts ex_db), r_ChildDigest <$> select (λ _, True) (refs ex_db),
   t_Name <$> select (λ _, True) (tags ex_db)) =
  (["sha256:i"; "sha256:b"; "sha256:a"], ["sha256:b"; "sha256:a"], ["latest"; "v1"])%string.
Proof. vm_compute. reflexivity. Qed.

Lemma ex_art_db_ok : art_ok ex_db.
Proof. apply (rtc_art_ok ex_sv (initial ex_blobs)); [apply run_all_steps|apply initial_ok]. Qed.

Lemma reachable_art_ok_witness :
  size (rows (refs ex_db)) = 2%nat ∧ art_ok ex_db.
Proof.
  split; [vm_compute; reflexivity|]. apply (reachable_art_ok ex_sv ex_blobs). apply run_all_steps.
Defined.

(** ** Ensuring an artifact *)

Section ensure.
Context (sv : Services).

Lemma ensure_tags_arts A rid aid l : keeps (λ d, arts d = A) (artifact_ctl.ensure_tags sv rid aid l).
Proof. induction l; simpl; keeps_auto. apply tag_Ensure_arts. Qed.

Lemma ensure_accs_arts A aid l : keeps (λ d, arts d = A) (artifact_ctl.ensure_accs aid l).
Proof.
  induction l as [|c l IH]; simpl; keeps_auto. unfold accessory_mgr.Ensure, accessory_mgr.Create, accessory_dao.Create.
  keeps_auto. apply keeps_wrap_err, keeps_stmt. intros d <-. unfold accessory_dao.insert_accessory.
  case_decide; [|done]. by repeat case_match.
Qed.

Lemma AddEvent_arts A e : keeps (λ d, arts d = A) (AddEvent e).
Proof. intros w r w' Hw [= <- <-]. done. Qed.

(** Creating an artifact adds one row under a new key. *)
Lemma Create_new a w id w' :
  art_ok (db w) → artifact_mgr.Create a w = (Ok id, w') →
  rows (arts (db w)) !! id = None ∧ ∃ x, rows (arts (db w')) = <[id:=x]> (rows (arts (db w))).
Proof.
  intros Hok H. unfold artifact_mgr.Create in H. apply bind_ok_inv in H as (i & w1 & H1 & H).
  assert (Hgrow : rows (arts (db w)) !! i = None ∧ ∃ x, rows (arts (db w1)) = <[i:=x]> (rows (arts (db w)))).
  { unfold artifact_dao.Create in H1. apply bind_ok_inv in H1 as ([] & w2 & H2 & H1).
    apply FromContext_cases in H2 as [-> _]. unfold artifact_dao.wrap_err in H1.
    apply bind_try_inv in H1 as ([x|e] & w3 & H3 & H1); [|discriminate]. injection H1 as -> <-.
    apply stmt_ok_inv in H3. unfold artifact_dao.insert_artifact in H3. case_decide; [|discriminate].
    injection H3 as <- <-. pose proof (lookup_next _ _ (tab_keys _ _ _ _ (ok_arts _ Hok))) as Hn.
    split; [done|]. by eexists. }
  destruct Hgrow as [Hnew Hgrow].
  apply bind_ok_inv in H as ([] & w2 & H2 & H). injection H as <- <-. split; [done|].
  enough (arts (db w2) = arts (db w1)) as -> by done.
  assert (Hk : ∀ A l, keeps (λ d, arts d = A) (artifact_mgr.create_references i l)).
  { intros A. induction l as [|r l IH]; simpl; keeps_auto. unfold artifact_dao.CreateReference. keeps_auto.
    apply keeps_wrap_err, keeps_stmt. intros d <-. unfold artifact_dao.insert_reference.
    case_decide; [|done]. by repeat case_match. }
  exact (Hk (arts (db w1)) _ _ _ _ eq_refl H2).
Qed.

Lemma ensureArtifact_cases repository digest w created a w' :
  art_ok (db w) → artifact_ctl.ensureArtifact sv repository digest w = (Ok (created, a), w') →
  if created then rows (arts (db w)) !! a_ID (ar_row a) = None ∧
    ∃ x, rows (arts (db w')) = <[a_ID (ar_row a):=x]> (rows (arts (db w)))
  else arts (db w') = arts (db w).
Proof.
  intros Hok H. unfold artifact_ctl.ensureArtifact in H.
  apply bind_try_inv in H as (x & w1 & H1 & H).
  pose proof (keeps_all_reads _ (λ I, artifact_GetByDigest_keeps I repository digest) _ _ _ H1) as Hd1.
  destruct x as [a0|e]; [injection H as <- <- <-; congruence|].
  destruct (IsErr e NotFoundCode); [|discriminate H]. simpl in H.
  apply bind_ok_inv in H as (repo & w2 & H2 & H).
  pose proof (keeps_all_reads _ (λ I, GetByName_keeps I repository) _ _ _ H2) as Hd2.
  apply bind_ok_inv in H as (t & w3 & H3 & H). injection H3 as <- <-.
  apply bind_ok_inv in H as (ar & w4 & H4 & H).
  pose proof (keeps_all_reads _ (λ I, AbstractMetadata_keeps sv I _) _ _ _ H4) as Hd4.
  apply bind_try_inv in H as (x & w5 & H5 & H).
  rewrite Hd1, Hd2, Hd4 in Hok |- *.
  destruct x as [id|e'].
  - injection H as <- <- <-. simpl.
    apply WithTransaction_ok in H5 as (w6 & w7 & Hd6 & _ & H5 & ->). rewrite <- Hd6 in *.
    by eapply Create_new.
  - apply WithTransaction_err in H5. destruct (IsConflictErr e'); simpl in H; [|discriminate H].
    apply bind_ok_inv in H as (a' & w6 & H6 & H). injection H as <- <- <-.
    pose proof (keeps_all_reads _ (λ I, artifact_GetByDigest_keeps I repository digest) _ _ _ H6).
    congruence.
Qed.

(** C28 (ensuring an artifact): when [Ensure] succeeds, whatever faults it met on
    the way, the returned row is the artifact of the repository and digest; it is
    reported as created exactly when its row is new, no other artifact row was
    touched, and the last event is the push of the artifact under its first tag. *)
Theorem Ensure_artifact_spec repository digest o w created id w' :
  art_ok (db w) → artifact_ctl.Ensure sv repository digest o w = (Ok (created, id), w') →
  (∃ a, rows (arts (db w')) !! id = Some a ∧ a_RepositoryName a = repository ∧ a_Digest a = digest) ∧
  (created = true ↔ rows (arts (db w)) !! id = None) ∧
  (∀ i a, i ≠ id → rows (arts (db w')) !! i = Some a → rows (arts (db w)) !! i = Some a) ∧
  rows (arts (db w)) ⊆ rows (arts (db w')) ∧ art_ok (db w') ∧
  last (events (db w')) = Some (PushArtifact id (o ← o; head (o_Tags o))).
Proof.
  intros Hok H. pose proof (Ensure_keeps sv repository digest o _ _ _ Hok H) as Hok'. simpl in Hok'.
  unfold artifact_ctl.Ensure in H. apply bind_ok_inv in H as ([c a] & w1 & H1 & H).
  pose proof (ensureArtifact_spec sv repository digest _ _ _ Hok H1) as [Hok1 (Hrow & Hn & Hg)]. simpl in *.
  pose proof (ensureArtifact_cases _ _ _ _ _ _ Hok H1) as Hc.
  assert (Harts : arts (db w') = arts (db w1) ∧ created = c ∧ id = a_ID (ar_row a) ∧
    last (events (db w')) = Some (PushArtifact (a_ID (ar_row a)) (o ← o; head (o_Tags o)))).
  { apply bind_ok_inv in H as (u & w2 & H2 & H). apply bind_ok_inv in H as ([] & w3 & H3 & H).
    injection H as <- <- <-. split; [|split_and!; [done|done|injection H3 as <-; apply last_snoc]].
    assert (arts (db w2) = arts (db w1)) as <-; [|by injection H3 as <-].
    destruct o as [o|]; [|by injection H2 as _ <-].
    apply bind_ok_inv in H2 as ([] & w4 & H4 & H2).
    pose proof (ensure_tags_arts (arts (db w1)) _ _ _ _ _ _ eq_refl H4) as He1.
    pose proof (ensure_accs_arts (arts (db w4)) _ _ _ _ _ eq_refl H2) as He2.
    destruct u. simpl in *. congruence. }
  destruct Harts as (Harts & -> & -> & Hev). rewrite Harts.
  destruct c; [destruct Hc as [Hnew [x Hx]]|rewrite Hc in *].
  - split_and!; [eauto|done| | |done|done]; rewrite Hx; [|by apply insert_subseteq].
    intros i b Hi. by rewrite lookup_insert_ne.
  - split_and!; [eauto|split; congruence|done|done|done|done].
Qed.
End ensure.

Definition ex_option : option ArtOption := Some (mkArtOption ["v1"%string] []).
Definition ex_ensured : World ArtDB :=
  (artifact_ctl.Ensure ex_sv "library/app" "sha256:c" ex_option (mkWorld ex_db true [])).2.

#[local] Opaque ex_db ex_ensured.
Lemma Ensure_artifact_spec_witness :
  artifact_ctl.Ensure ex_sv "library/app" "sha256:c" ex_option (mkWorld ex_db true []) = (Ok (true, 4), ex_ensured) ∧
  rows (arts ex_db) ⊆ rows (arts (db ex_ensured)) ∧ last (events (db ex_ensured)) = Some (PushArtifact 4 (Some "v1"%string)).
Proof.
  assert (He : artifact_ctl.Ensure ex_sv "library/app" "sha256:c" ex_option (mkWorld ex_db true [])
               = (Ok (true, 4), ex_ensured)) by (vm_compute; reflexivity).
  split; [exact He|].
  destruct (Ensure_artifact_spec ex_sv "library/app" "sha256:c" ex_option
    (mkWorld ex_db true []) true 4 ex_ensured ex_art_db_ok He) as (_ & _ & _ & Hsub & _ & Hev). exact (conj Hsub Hev).
Defined.

(** ** Runs without faults *)

Section nofault.
Context (sv : Services).

Lemma artifact_Get_nofault id d :
  ∃ r : result ArtifactRefs, artifact_mgr.Get id (mkWorld d true []) = (r, mkWorld d true []) ∧
    match rows (arts d) !! id with
    | Some a => ∃ rs, r = Ok (mkArtifactRefs a rs)
    | None => ∃ e, r = Err e
    end.
Proof.
  unfold artifact_mgr.Get. rewrite bind_eq. unfold artifact_dao.Get. rewrite Read_nofault.
  destruct (rows (arts d) !! id) as [a|]; simpl; [|eauto].
  unfold artifact_mgr.assemble. destruct (IsImageIndex a); [|eauto].
  unfold artifact_mgr.ListReferences, artifact_dao.ListReferences, FromContext. mrun. eauto.
Qed.

(** The answer of the immutability check that [Ensure] makes. *)
Definition immutable_tag (d : ArtDB) (t : Tag) : bool :=
  match rows (arts d) !! t_ArtifactID t with
  | Some a => match tag_ctl.immutable sv a (t_Name t) with Ok b => b | Err _ => false end
  | None => false
  end.

Lemma assembleTags_nofault l d :
  tag_ctl.assembleTags sv l (Some (mkTagOption true false None)) (mkWorld d true []) =
  (Ok ((λ t, mkTagView t (immutable_tag d t) false) <$> l, Some (mkTagOption true false None)), mkWorld d true []).
Proof.
  induction l as [|t l IH]; [done|]. simpl. unfold tag_ctl.populateImmutableStatus.
  rewrite !bind_eq. unfold try. simpl.
  destruct (artifact_Get_nofault (t_ArtifactID t) d) as (r & -> & Hr).
  unfold immutable_tag. destruct (rows (arts d) !! t_ArtifactID t) as [a|].
  - destruct Hr as [rs ->]. simpl. destruct (tag_ctl.immutable sv a (t_Name t)); simpl;
      by rewrite bind_eq, IH.
  - destruct Hr as [e ->]. simpl. by rewrite bind_eq, IH.
Qed.

Lemma tag_List_nofault P `{!∀ t, Decision (P t)} d :
  tag_ctl.List sv P (Some (mkTagOption true false None)) (mkWorld d true []) =
  (Ok ((λ t, mkTagView t (immutable_tag d t) false) <$> order_desc tag_dao.GetDefaultSorts (select P (tags d))),
   mkWorld d true []).
Proof.
  unfold tag_ctl.List, tag_ctl.list_with, tag_dao.List, FromContext. mrun. by rewrite assembleTags_nofault.
Qed.

(** The table after a tag was created or moved. *)
Definition tag_created (rid aid : Z) (name : string) (d : ArtDB) : ArtDB :=
  set_tags (add_row (λ n, mkTag n rid aid name (now (blobdb d)) None) (tags d)) d.
Definition tag_moved (t : Tag) (aid : Z) (d : ArtDB) : ArtDB :=
  set_tags (put_row (t_ID t) (mkTag (t_ID t) (t_RepositoryID t) aid (t_Name t) (now (blobdb d)) (t_PullTime t))
              (tags d)) d.

(** Further property (ensuring a tag): without failing statements, a new name is created on the
    artifact; a tag that is already on it is left alone; an immutable tag on
    another artifact is refused and nothing changes; any other tag is moved, with
    a new push time. *)
Theorem tag_Ensure_exact rid aid name d :
  art_ok d → in_repo rid aid d →
  tag_ctl.Ensure sv rid aid name (mkWorld d true []) =
  match order_desc tag_dao.GetDefaultSorts (select (λ t, t_RepositoryID t = rid ∧ t_Name t = name) (tags d)) with
  | [] => (Ok tt, mkWorld (tag_created rid aid name d) true [])
  | t :: _ =>
      if t_ArtifactID t =? aid then (Ok tt, mkWorld d true [])
      else if immutable_tag d t
      then (Err (tag_ctl.immutable_error name "updated"), mkWorld d true [])
      else (Ok tt, mkWorld (tag_moved t aid d) true [])
  end.
Proof.
  intros Hok (a & Ha & Hr). unfold tag_ctl.Ensure. rewrite bind_eq, tag_List_nofault.
  destruct (order_desc _ _) as [|t l] eqn:E; simpl.
  - rewrite bind_eq. unfold try. erewrite WithTransaction_nofault; [done|].
    unfold time_Now, tag_ctl.Create, tag_dao.Create, FromContext, artifact_dao.wrap_err, try. mrun.
    unfold tag_dao.insert_tag. simpl. rewrite decide_True, Ha; [done|].
    pose proof (order_desc_perm tag_dao.GetDefaultSorts
      (select (λ t, t_RepositoryID t = rid ∧ t_Name t = name) (tags d))) as Hp.
    rewrite E in Hp. symmetry in Hp. apply Permutation_nil_r in Hp.
    rewrite select_nil in Hp |- *. intros i x Hi [H1 H2]. apply (Hp i x Hi). simpl in *. by split.
  - apply head_order_desc in E as (i & Hi & Hrid & Hname).
    destruct (t_ArtifactID t =? aid); [done|]. destruct (immutable_tag d t); [by rewrite Hname|].
    rewrite bind_eq. unfold time_Now; simpl. unfold tag_dao.Update.
    destruct (tab_keys _ _ _ _ (ok_tags d Hok) _ _ Hi) as [<- _].
    apply affect_nofault. unfold tag_dao.update_tag. rewrite Hi. simpl. by rewrite Ha.
Qed.

End nofault.

Lemma tag_Ensure_exact_witness :
  in_repo 1 2 ex_db ∧
  tag_ctl.Ensure ex_sv 1 2 "v1" (mkWorld ex_db true []) =
  (Ok tt, mkWorld (tag_moved (mkTag 1 1 1 "v1" 0 None) 2 ex_db) true []).
Proof.
  assert (Hin : in_repo 1 2 ex_db) by (eexists; split; vm_compute; reflexivity).
  split; [exact Hin|].
  rewrite (tag_Ensure_exact ex_sv 1 2 "v1" ex_db).
  - vm_compute. reflexivity.
  - apply ex_art_db_ok.
  - exact Hin.
Defined.
