(* ===== verification/ArtifactDelete.v ===== *)
(** * Deleting an artifact

    What [Delete] and [deleteDeeply] of [src/controller/artifact/controller.go]
    may remove, that a failed deletion changes nothing, and that the recursion
    ends. *)

From S2P Require Import Prelude GoErrors Orm BlobStore Table Hoare ArtifactStore ArtifactCtl ArtifactInv ArtifactSpec.
Open Scope Z_scope.

(** ** What a deletion may reach *)

(** The artifacts that the deletion of [root] reaches; those reached as the root
    or as a hard accessory are deleted with their tags ([true]), those reached as
    a child only when nothing else needs them ([false]). *)
Inductive doomed (d : ArtDB) (root : Z) : bool → Z → Prop :=
  | doomed_root : doomed d root true root
  | doomed_accessory b i c :
      doomed d root b (c_SubjectArtifactID c) → rows (accs d) !! i = Some c → IsHard c = true →
      doomed d root true (c_ArtifactID c)
  | doomed_child b i r :
      doomed d root b (r_ParentID r) → rows (refs d) !! i = Some r → doomed d root false (r_ChildID r).

(** Rows are only removed, and every removed row is accounted for. *)
Record removed (d0 : ArtDB) (root : Z) (d : ArtDB) : Prop := mk_removed {
  rm_arts_sub : rows (arts d) ⊆ rows (arts d0);
  rm_refs_sub : rows (refs d) ⊆ rows (refs d0);
  rm_tags_sub : rows (tags d) ⊆ rows (tags d0);
  rm_accs_sub : rows (accs d) ⊆ rows (accs d0);
  rm_labelrefs_sub : rows (labelrefs d) ⊆ rows (labelrefs d0);
  rm_art i a : rows (arts d0) !! i = Some a → rows (arts d) !! i = None → ∃ b, doomed d0 root b i;
  rm_ref i r : rows (refs d0) !! i = Some r → rows (refs d) !! i = None → ∃ b, doomed d0 root b (r_ParentID r);
  rm_tag i t : rows (tags d0) !! i = Some t → rows (tags d) !! i = None → doomed d0 root true (t_ArtifactID t);
  rm_acc i c : rows (accs d0) !! i = Some c → rows (accs d) !! i = None → doomed d0 root true (c_ArtifactID c);
  rm_labelref i r :
    rows (labelrefs d0) !! i = Some r → rows (labelrefs d) !! i = None → ∃ b, doomed d0 root b (lr_ArtifactID r);
}.

Lemma removed_refl d root : removed d root d.
Proof. split; (done || congruence). Qed.

(** A lost row: it was lost before, or is lost by the change. *)
Lemma del_rows_lost {R} (P : R → Prop) `{!∀ r, Decision (P r)} (t t0 : table R) i x :
  rows t ⊆ rows t0 → rows t0 !! i = Some x → rows (del_rows P t) !! i = None →
  rows t !! i = None ∨ P x.
Proof.
  intros Hsub Hi Hn. destruct (rows t !! i) as [y|] eqn:E; [|by left]. right.
  pose proof (lookup_weaken _ _ _ _ E Hsub). simplify_eq.
  destruct (decide (P x)); [done|]. assert (rows (del_rows P t) !! i = Some x) by by apply lookup_dels.
  congruence.
Qed.

Lemma del_row_lost {R} (t t0 : table R) i j x :
  rows t0 !! i = Some x → rows (del_row j t) !! i = None → rows t !! i = None ∨ i = j.
Proof. intros Hi Hn. simpl in Hn. apply lookup_delete_None in Hn as [->|?]; auto. Qed.

Lemma del_row_sub {R} (t t0 : table R) j : rows t ⊆ rows t0 → rows (del_row j t) ⊆ rows t0.
Proof. intros H. etrans; [apply delete_subseteq|done]. Qed.
Lemma del_rows_sub {R} (P : R → Prop) `{!∀ r, Decision (P r)} (t t0 : table R) :
  rows t ⊆ rows t0 → rows (del_rows P t) ⊆ rows t0.
Proof. intros Hs. etrans; [apply map_filter_subseteq|done]. Qed.

(** Read the tables of an updated database. *)
Ltac proj_db :=
  cbn [arts refs tags accs labels labelrefs trash repos blobdb events set_arts set_refs set_tags set_accs
       set_labels set_labelrefs set_trash set_repos set_blobdb add_event].

Section removal.
Context (sv : Services) (d0 : ArtDB) (root : Z).
Hypothesis Hok0 : art_ok d0.
Local Notation J := (removed d0 root).
Local Notation dead b i := (doomed d0 root b i).

(** ** Each statement of a deletion is accounted for *)

Lemma removed_del_artifact id b d : dead b id → J d → J (set_arts (del_row id (arts d)) d).
Proof.
  intros Hb []. split; proj_db; try done; [by apply del_row_sub|].
  intros i a Hi Hn. eapply del_row_lost in Hn as [Hn| ->]; eauto.
Qed.

Lemma removed_del_refs id b d : dead b id → J d →
  J (set_refs (del_rows (λ r, r_ParentID r = id) (refs d)) d).
Proof.
  intros Hb []. split; proj_db; try done; [by apply del_rows_sub|].
  intros i r Hi Hn. eapply (del_rows_lost _ _ _ _ _ rm_refs_sub0) in Hn as [Hn|Hp]; eauto; rewrite Hp; eauto.
Qed.

Lemma removed_del_ref r b d :
  rows (refs d0) !! r_ID r = Some r → dead b (r_ParentID r) → J d → J (set_refs (del_row (r_ID r) (refs d)) d).
Proof.
  intros Hr Hb []. split; proj_db; try done; [by apply del_row_sub|].
  intros i x Hi Hn. destruct (del_row_lost _ _ _ _ _ Hi Hn) as [Hn'| ->]; eauto. simplify_eq. eauto.
Qed.

Lemma removed_del_tag t d :
  rows (tags d0) !! t_ID t = Some t → dead true (t_ArtifactID t) → J d →
  J (set_tags (del_row (t_ID t) (tags d)) d).
Proof.
  intros Ht Hb []. split; proj_db; try done; [by apply del_row_sub|].
  intros i x Hi Hn. destruct (del_row_lost _ _ _ _ _ Hi Hn) as [Hn'| ->]; eauto. by simplify_eq.
Qed.

Lemma removed_del_accs (P : Accessory → Prop) `{!∀ c, Decision (P c)} id d :
  (∀ c, P c → c_ArtifactID c = id) → dead true id → J d → J (set_accs (del_rows P (accs d)) d).
Proof.
  intros HP Hb []. split; proj_db; try done; [by apply del_rows_sub|].
  intros i c Hi Hn. eapply (del_rows_lost _ _ _ _ _ rm_accs_sub0) in Hn as [Hn|Hc]; eauto.
  by rewrite (HP c Hc).
Qed.

Lemma removed_del_labelrefs id b d : dead b id → J d →
  J (set_labelrefs (del_rows (λ r, lr_ArtifactID r = id) (labelrefs d)) d).
Proof.
  intros Hb []. split; proj_db; try done; [by apply del_rows_sub|].
  intros i r Hi Hn. eapply (del_rows_lost _ _ _ _ _ rm_labelrefs_sub0) in Hn as [Hn|Hp]; eauto; rewrite Hp; eauto.
Qed.

Lemma removed_same d d' :
  arts d' = arts d → refs d' = refs d → tags d' = tags d → accs d' = accs d → labelrefs d' = labelrefs d →
  J d → J d'.
Proof. intros H1 H2 H3 H4 H5 []. split; rewrite ?H1, ?H2, ?H3, ?H4, ?H5; done. Qed.

(** ** The calls of [deleteDeeply] *)

Lemma artifact_mgr_Delete_J id b : dead b id → keeps J (artifact_mgr.Delete id).
Proof.
  intros Hb. unfold artifact_mgr.Delete, artifact_dao.DeleteReferences, artifact_dao.Get, artifact_dao.Delete.
  keeps_auto.
  - apply keeps_stmt. intros d Hd. by eapply removed_del_refs.
  - apply keeps_affect. intros d d' Hd. unfold artifact_dao.delete_artifact.
    destruct (rows (arts d) !! id); [|done]. case_decide; [done|]. intros [= <-].
    by eapply removed_del_artifact.
Qed.

Lemma RemoveAllFrom_J id b : dead b id → keeps J (label_mgr.RemoveAllFrom id).
Proof.
  intros Hb. unfold label_mgr.RemoveAllFrom, label_dao.DeleteReferences. keeps_auto.
  apply keeps_stmt. intros d Hd. by eapply removed_del_labelrefs.
Qed.

Lemma on_blobs_J {A} (m : M BlobDB A) : keeps J (on_blobs m).
Proof.
  intros w r w' Hw H. apply on_blobs_inv in H as (v & _ & ->).
  assert (J (put_blobs (db v) (db w))) by by apply (removed_same (db w)). by destruct r.
Qed.

Lemma trash_Create_J x : keeps J (trash_dao.Create x).
Proof.
  unfold trash_dao.Create. keeps_auto. apply keeps_wrap_err, keeps_stmt. intros d Hd.
  case_decide; [|done]. by apply (removed_same d).
Qed.

Lemma AddEvent_J e : keeps J (AddEvent e).
Proof. intros w r w' Hw [= <- <-]. by apply (removed_same (db w)). Qed.
Hint Resolve on_blobs_J trash_Create_J AddEvent_J : keeps.

Lemma delete_row_J v isRoot b : dead b (a_ID (v_row v)) → keeps J (artifact_ctl.delete_row v isRoot).
Proof.
  intros Hb. unfold artifact_ctl.delete_row, artifact_ctl.cleanup_blobs. keeps_auto.
  - by eapply RemoveAllFrom_J.
  - by eapply artifact_mgr_Delete_J.
  - apply ignoring_keeps. keeps_auto.
Qed.

Lemma DeleteReference_J r b :
  rows (refs d0) !! r_ID r = Some r → dead b (r_ParentID r) → keeps J (artifact_mgr.DeleteReference (r_ID r)).
Proof.
  intros Hr Hb. apply keeps_affect. intros d d' Hd. destruct (rows (refs d) !! r_ID r); [|done].
  intros [= <-]. by eapply removed_del_ref.
Qed.

Lemma DeleteTags_J id (l : list Tag) :
  dead true id → Forall (λ t, rows (tags d0) !! t_ID t = Some t ∧ t_ArtifactID t = id) l →
  keeps J (tag_ctl.DeleteTags sv (t_ID <$> l)).
Proof.
  intros Hb Hl. induction Hl as [|t l [Ht Hid] _ IH]; simpl; [keeps_auto|]. apply keeps_bind; [|done].
  unfold tag_ctl.Delete. keeps_auto. apply keeps_affect. intros d d' Hd.
  destruct (rows (tags d) !! t_ID t); [|done]. intros [= <-]. subst id. by apply removed_del_tag.
Qed.

Lemma DeleteAccessories_J (P : Accessory → Prop) `{!∀ c, Decision (P c)} id :
  (∀ c, P c → c_ArtifactID c = id) → dead true id → keeps J (accessory_mgr.DeleteAccessories P).
Proof.
  intros HP Hb. unfold accessory_mgr.DeleteAccessories, accessory_dao.DeleteAccessories. keeps_auto.
  apply keeps_stmt. intros d Hd. by eapply removed_del_accs.
Qed.

(** ** What [Get] returns on the way *)

(** A view whose parts are rows of the initial database. *)
Definition view_ok (id : Z) (v : ArtView) : Prop :=
  a_ID (v_row v) = id ∧
  Forall (λ r, rows (refs d0) !! r_ID r = Some r ∧ r_ParentID r = id) (v_References v) ∧
  Forall (λ t, rows (tags d0) !! t_ID t = Some t ∧ t_ArtifactID t = id) (tv_Tag <$> v_Tags v) ∧
  Forall (λ c, (∃ i, rows (accs d0) !! i = Some c) ∧ c_SubjectArtifactID c = id) (v_Accessories v).

Lemma select_in {R} key same valid (P : R → Prop) `{!∀ r, Decision (P r)} (t t0 : table R) :
  tab_ok key same valid t0 → rows t ⊆ rows t0 → Forall (λ r, rows t0 !! key r = Some r ∧ P r) (select P t).
Proof.
  intros Hk Hs. apply Forall_forall. intros r Hr. apply elem_of_select in Hr as (i & Hi & HP).
  pose proof (lookup_weaken _ _ _ _ Hi Hs) as Hi0. by destruct (tab_keys _ _ _ _ Hk _ _ Hi0) as [-> _].
Qed.

Lemma assemble_J a : rows (arts d0) !! a_ID a = Some a →
  spec J (artifact_mgr.assemble a) (λ x d, ar_row x = a ∧
    Forall (λ r, rows (refs d0) !! r_ID r = Some r ∧ r_ParentID r = a_ID a) (ar_References x)) (λ _, True).
Proof.
  intros Ha. unfold artifact_mgr.assemble. destruct (IsImageIndex a); [|by apply spec_ret].
  unfold artifact_mgr.ListReferences, artifact_dao.ListReferences.
  apply (spec_bind _ _ (λ rs _, Forall (λ r, rows (refs d0) !! r_ID r = Some r ∧ r_ParentID r = a_ID a) rs));
    [|intros rs; by apply spec_ret].
  eapply spec_bind; [by apply (spec_FromContext _ (λ _, J))|intros []].
  apply spec_query; [|done]. intros d rs Hd [= <-]. eapply select_in; [apply (ok_refs d0 Hok0)|apply Hd].
Qed.

Lemma Get_J id : spec J (artifact_ctl.Get sv id artifact_ctl.delete_option) (λ v d, J d ∧ view_ok id v) J.
Proof.
  apply reader_spec; [intros; apply ctl_Get_keeps|]. unfold artifact_ctl.Get, artifact_mgr.Get.
  apply (spec_bind _ _ (λ x d, J d ∧ a_ID (ar_row x) = id ∧
    Forall (λ r, rows (refs d0) !! r_ID r = Some r ∧ r_ParentID r = id) (ar_References x))).
  - apply (spec_bind _ _ (λ a d, J d ∧ a_ID a = id ∧ rows (arts d0) !! a_ID a = Some a)).
    + unfold artifact_dao.Get. apply spec_Read; [|done]. intros d a Hd Ha.
      pose proof (lookup_weaken _ _ _ _ Ha (rm_arts_sub _ _ _ Hd)) as Ha0.
      destruct (tab_keys _ _ _ _ (ok_arts d0 Hok0) _ _ Ha0) as [<- _]. done.
    + intros a w r w' (Hd & <- & Ha) H.
      pose proof (assemble_J a Ha _ _ _ Hd H) as Hx. pose proof (assemble_keeps J a _ _ _ Hd H) as Hk.
      destruct r as [x|e]; [|done]. destruct Hx as [<- Hf]. done.
  - intros x w r w' (Hd & Hid & Hrefs) H. unfold artifact_ctl.assembleArtifact, artifact_ctl.assemble_with in H. simpl in H.
    apply bind_cases in H as [(e & H & ->)|(vo & w0 & H & Hv)]; [done|]. injection Hv as <- <-.
    apply bind_cases in H as [(e & H & [=])|(ts & w1 & H1 & H)].
    apply bind_cases in H as [(e & H & [=])|(ls & w2 & H2 & H)].
    apply bind_cases in H as [(e & H & [=])|(cs & w3 & H3 & H)].
    injection H as <- <-. injection H2 as <- <-. unfold view_ok, v_row, v_References. simpl.
    assert (HJ1 : J (db w1)).
    { assert (Hk : keeps J (artifact_ctl.populateTags sv (a_ID (ar_row x)) None))
        by (unfold artifact_ctl.populateTags; pose proof list_with_keeps; keeps_auto). exact (Hk _ _ _ Hd H1). }
    split_and!; [done|done| |].
    + unfold artifact_ctl.populateTags in H1. apply bind_try_inv in H1 as (y & w4 & H4 & H1).
      injection H1 as <- <-. destruct y as [l|e]; [|done]. simpl.
      unfold tag_ctl.list_with in H4. apply bind_ok_inv in H4 as (tl & w5 & H5 & H4).
      pose proof (assembleTags_tags sv tl None _ _ _ Logic.I H4) as ->.
      unfold tag_dao.List in H5. apply bind_ok_inv in H5 as ([] & w6 & H6 & H5).
      apply FromContext_cases in H6 as [-> _]. apply query_cases in H5 as (_ & _ & [[? [=]]|[= ->]]).
      rewrite (order_desc_perm tag_dao.GetDefaultSorts), <- Hid.
      eapply select_in; [apply (ok_tags d0 Hok0)|apply Hd].
    + unfold artifact_ctl.populateAccessories in H3. apply bind_try_inv in H3 as (y & w4 & H4 & H3).
      injection H3 as <- <-. destruct y as [l|e]; [|done]. simpl.
      unfold accessory_mgr.List in H4. apply bind_ok_inv in H4 as (al & w5 & H5 & H4).
      destruct (find _ al); [discriminate|]. injection H4 as <- <-.
      unfold accessory_dao.List in H5. apply bind_ok_inv in H5 as ([] & w6 & H6 & H5).
      apply FromContext_cases in H6 as [-> _]. apply query_cases in H5 as (_ & _ & [[? [=]]|[= ->]]).
      rewrite <- Hid. eapply Forall_impl; [eapply select_in; [apply (ok_accs d0 Hok0)|apply HJ1]|].
      intros c [Hc Hs]. eauto.
Qed.

(** ** The recursion *)

Lemma deleteDeeply_J fuel id isRoot isAccessory :
  dead isRoot id → (isAccessory = true → isRoot = true) →
  keeps J (artifact_ctl.deleteDeeply sv fuel id isRoot isAccessory).
Proof.
  revert id isRoot isAccessory. induction fuel as [|fuel IH]; intros id isRoot isAccessory Hb Hra; simpl; [keeps_auto|].
  assert (Haccs : ∀ l, Forall (λ c, (∃ i, rows (accs d0) !! i = Some c) ∧ c_SubjectArtifactID c = id) l →
    keeps J (artifact_ctl.delete_accessories (artifact_ctl.deleteDeeply sv fuel) l)).
  { induction 1 as [|c l [[i Hi] Hs] _ IHl]; simpl; [keeps_auto|]. destruct (IsHard c) eqn:Eh; [|done].
    apply keeps_fbind; [|done]. apply IH; [|done]. eapply doomed_accessory; [by rewrite Hs|done|done]. }
  assert (Hkids : ∀ l, Forall (λ r, rows (refs d0) !! r_ID r = Some r ∧ r_ParentID r = id) l →
    keeps J (artifact_ctl.delete_children (artifact_ctl.deleteDeeply sv fuel) l)).
  { induction 1 as [|r l [Hr Hp] _ IHl]; simpl; [keeps_auto|]. rewrite <- Hp in Hb.
    apply keeps_fbind; [by eapply keeps_fret, ignoring_keeps, DeleteReference_J|intros []].
    apply keeps_fbind; [|done]. apply IH; [|done]. by eapply doomed_child. }
  eapply (spec_bind _ _ (λ r d, J d ∧ match r with Ok v => view_ok id v | Err _ => True end)).
  { eapply spec_conseq; [exact (spec_try J _ _ J J (Get_J id))|done| |done]. intros [v|e] d; naive_solver. }
  intros [v|e]; [|spec_if; [by apply spec_ret; intros d []|by apply spec_fail; intros d []]].
  intros w r w' [Hw (Hid & Hrefs & Htags & Hcs)] H. revert w r w' Hw H.
  match goal with |- ∀ w r w', _ → ?m w = _ → _ => change (keeps J m) end.
  apply keeps_bind.
  { destruct isAccessory; [|keeps_auto]. apply ignoring_keeps, DeleteAccessories_J with (id := id).
    - intros c [Hc _]. congruence.
    - by rewrite Hra in Hb by done. }
  assert (Htl : (λ t, t_ID (tv_Tag t)) <$> v_Tags v = t_ID <$> (tv_Tag <$> v_Tags v))
    by by rewrite <- list_fmap_compose.
  intros []. keeps_auto;
    first [by apply Haccs|by apply Hkids|rewrite Htl; by eapply DeleteTags_J|eapply delete_row_J; by rewrite Hid].
Qed.

End removal.

(** ** What a deletion did *)

Section deleted.
Context (sv : Services).

Lemma artifact_mgr_Delete_gone id w w' :
  artifact_mgr.Delete id w = (Ok tt, w') → rows (arts (db w')) !! id = None.
Proof.
  unfold artifact_mgr.Delete. intros H. apply bind_ok_inv in H as ([] & w1 & _ & H).
  apply affect_ok in H. unfold artifact_dao.delete_artifact in H.
  destruct (rows (arts (db w1)) !! id); [|done]. case_decide; [done|].
  injection H as <-. simpl. by rewrite lookup_delete_eq.
Qed.

Lemma delete_row_gone v w w' :
  artifact_ctl.delete_row v true w = (Ok tt, w') → rows (arts (db w')) !! a_ID (v_row v) = None.
Proof.
  unfold artifact_ctl.delete_row. intros H. apply bind_ok_inv in H as ([] & w1 & _ & H).
  apply bind_try_inv in H as ([[]|e] & w2 & H2 & H); [|discriminate].
  apply artifact_mgr_Delete_gone in H2. revert H2 H.
  set (I := λ d : ArtDB, rows (arts d) !! a_ID (v_row v) = None). intros HI H.
  assert (Hb : ∀ {A} (m : M BlobDB A), keeps I (on_blobs m)).
  { intros A m x r x' Hx Hr. apply on_blobs_inv in Hr as (y & _ & ->). by destruct r. }
  assert (Ht : ∀ x, keeps I (trash_dao.Create x)).
  { intros x. unfold trash_dao.Create. keeps_auto. apply keeps_wrap_err, keeps_stmt. intros d Hd. by case_decide. }
  match type of H with ?m _ = _ => assert (Hk : keeps I m) end.
  { unfold artifact_ctl.cleanup_blobs. keeps_auto; [apply ignoring_keeps; keeps_auto|].
    intros x r x' Hx [= <- <-]. done. }
  exact (Hk _ _ _ HI H).
Qed.

Lemma deleteDeeply_gone fuel id isAccessory w w' :
  art_ok (db w) →
  artifact_ctl.deleteDeeply sv fuel id true isAccessory w = (Ok (Some tt), w') →
  rows (arts (db w')) !! id = None.
Proof.
  destruct fuel as [|fuel]; [done|]. intros Hok H. cbn [artifact_ctl.deleteDeeply] in H.
  apply bind_try_inv in H as ([v|e] & w1 & H1 & H); [|discriminate].
  assert (Hid : a_ID (v_row v) = id).
  { by destruct (Get_J sv (db w) id Hok id _ _ _ (removed_refl _ _) H1) as [_ [? _]]. }
  apply bind_ok_inv in H as ([] & w2 & _ & H). simpl in H.
  apply bind_ok_inv in H as (ps & w3 & _ & H). destruct (negb _); [discriminate|].
  apply fbind_cases in H as [(? & _ & [=])|[[_ [=]]|([] & w4 & _ & H)]].
  apply fbind_cases in H as [(? & _ & [=])|[[_ [=]]|([] & w5 & _ & H)]].
  apply bind_ok_inv in H as ([] & w6 & _ & H).
  apply fret_cases in H as [(? & _ & [=])|([] & H & _)].
  rewrite <- Hid. by eapply delete_row_gone.
Qed.

End deleted.

(** ** The recursion ends *)

Section termination.
Context (sv : Services).

(** *** The calls of a deletion consume the schedule *)

Lemma tame_on_blobs {A} (m : M BlobDB A) : tame m → tame (on_blobs m).
Proof.
  intros Hm w r w'. unfold on_blobs. destruct (m _) as [x v] eqn:E. intros [= _ <-].
  exact (Hm _ _ _ E).
Qed.
Lemma tame_wrap_err {A} wrap (m : M ArtDB A) : tame m → tame (artifact_dao.wrap_err wrap m).
Proof. intros. unfold artifact_dao.wrap_err. tame_auto. Qed.
Lemma tame_ignoring code (m : M ArtDB unit) : tame m → tame (artifact_ctl.ignoring code m).
Proof. intros. unfold artifact_ctl.ignoring. tame_auto. Qed.
Lemma tame_AddEvent e : tame (AddEvent e).
Proof. intros w r w' [= _ <-]. done. Qed.
Hint Resolve tame_AddEvent : tame.
Lemma tame_artifact_Get id : tame (artifact_mgr.Get id).
Proof.
  unfold artifact_mgr.Get, artifact_dao.Get, artifact_mgr.assemble, artifact_mgr.ListReferences,
    artifact_dao.ListReferences. tame_auto.
Qed.
Hint Resolve tame_artifact_Get : tame.
Lemma tame_assembleTag t o : tame (tag_ctl.assembleTag sv t o).
Proof.
  unfold tag_ctl.assembleTag, tag_ctl.populateImmutableStatus, tag_ctl.populateTagSignature. tame_auto.
Qed.
Hint Resolve tame_assembleTag : tame.
Lemma tame_assembleTags l o : tame (tag_ctl.assembleTags sv l o).
Proof. revert o. induction l; intros; simpl; tame_auto. Qed.
Hint Resolve tame_assembleTags : tame.
Lemma tame_Get id o : tame (artifact_ctl.Get sv id o).
Proof.
  unfold artifact_ctl.Get, artifact_ctl.assembleArtifact, artifact_ctl.assemble_with, artifact_ctl.populateTags, tag_ctl.list_with, tag_dao.List,
    artifact_ctl.populateLabels, label_dao.ListByArtifact, artifact_ctl.populateAccessories, accessory_mgr.List,
    accessory_dao.List. tame_auto.
Qed.
Lemma tame_DeleteTags l : tame (tag_ctl.DeleteTags sv l).
Proof.
  induction l; simpl; unfold tag_ctl.Delete, tag_ctl.Get, tag_dao.Get, tag_dao.Delete; tame_auto.
Qed.
Lemma tame_delete_row v b : tame (artifact_ctl.delete_row v b).
Proof.
  unfold artifact_ctl.delete_row, label_mgr.RemoveAllFrom, label_dao.DeleteReferences, artifact_mgr.Delete,
    artifact_dao.DeleteReferences, artifact_dao.Get, artifact_dao.Delete, artifact_ctl.cleanup_blobs.
  tame_auto.
  - apply tame_on_blobs. unfold dao.GetBlobsByArtDigest. tame_auto.
  - apply tame_on_blobs. unfold manager.CleanupAssociationsForProject, dao.FindBlobsShouldUnassociatedWithProject,
      dao.DeleteProjectBlob. tame_auto.
  - apply tame_ignoring. unfold trash_dao.Create. tame_auto. apply tame_wrap_err. tame_auto.
Qed.
Hint Resolve tame_Get tame_DeleteTags tame_delete_row : tame.

Lemma tame_DeleteAccessories P `{!∀ c, Decision (P c)} : tame (accessory_mgr.DeleteAccessories P).
Proof. unfold accessory_mgr.DeleteAccessories, accessory_dao.DeleteAccessories. tame_auto. Qed.

Lemma tame_deleteDeeply fuel id isRoot isAccessory :
  tame (artifact_ctl.deleteDeeply sv fuel id isRoot isAccessory).
Proof.
  revert id isRoot isAccessory. induction fuel as [|fuel IH]; intros; simpl; [tame_auto|].
  assert (Ha : ∀ l, tame (artifact_ctl.delete_accessories (artifact_ctl.deleteDeeply sv fuel) l)).
  { induction l; simpl; tame_auto. }
  assert (Hr : ∀ l, tame (artifact_ctl.delete_children (artifact_ctl.deleteDeeply sv fuel) l)).
  { induction l; simpl; tame_auto. apply tame_ignoring.
    unfold artifact_mgr.DeleteReference, artifact_dao.DeleteReference. tame_auto. }
  unfold artifact_mgr.ListReferences, artifact_dao.ListReferences.
  tame_auto. apply tame_ignoring, tame_DeleteAccessories.
Qed.

(** *** What the recursion decreases *)

(** The references and accessories, of which there is one fewer at each second
    level. *)
Definition links (d : ArtDB) : nat := size (rows (refs d)) + size (rows (accs d)).

Definition shrinks (d d' : ArtDB) : Prop :=
  rows (arts d') ⊆ rows (arts d) ∧ rows (refs d') ⊆ rows (refs d) ∧ rows (accs d') ⊆ rows (accs d).

Lemma shrinks_links d d' : shrinks d d' → (links d' <= links d)%nat.
Proof.
  intros (_ & Hr & Hc). apply map_subseteq_size in Hr, Hc. unfold links. lia.
Qed.

Lemma lost_smaller {R} (t t' : table R) i x :
  rows t' ⊆ rows t → rows t !! i = Some x → rows t' !! i = None → (size (rows t') < size (rows t))%nat.
Proof.
  intros Hs Hi Hn. apply map_subset_size. split; [done|]. intros H'.
  pose proof (lookup_weaken _ _ _ _ Hi H'). congruence.
Qed.

Lemma lost_ref_links d d' i r :
  shrinks d d' → rows (refs d) !! i = Some r → rows (refs d') !! i = None → (links d' < links d)%nat.
Proof.
  intros (_ & Hr & Hc) Hi Hn. pose proof (lost_smaller _ _ _ _ Hr Hi Hn).
  apply map_subseteq_size in Hc. unfold links. lia.
Qed.
Lemma lost_acc_links d d' i c :
  shrinks d d' → rows (accs d) !! i = Some c → rows (accs d') !! i = None → (links d' < links d)%nat.
Proof.
  intros (_ & Hr & Hc) Hi Hn. pose proof (lost_smaller _ _ _ _ Hc Hi Hn).
  apply map_subseteq_size in Hr. unfold links. lia.
Qed.

Lemma shrinks_refl d : shrinks d d.
Proof. by split_and!. Qed.
Lemma shrinks_trans d d' d'' : shrinks d d' → shrinks d' d'' → shrinks d d''.
Proof. intros (? & ? & ?) (? & ? & ?). split_and!; by etrans. Qed.

(** Every run of a deletion shrinks the tables. *)
Section shrink.
Context (d0 : ArtDB).
Local Notation K := (shrinks d0).

Lemma shrinks_same d d' : arts d' = arts d → refs d' = refs d → accs d' = accs d → K d → K d'.
Proof. unfold shrinks. by intros -> -> ->. Qed.

Lemma artifact_mgr_Delete_K id : keeps K (artifact_mgr.Delete id).
Proof.
  unfold artifact_mgr.Delete, artifact_dao.DeleteReferences, artifact_dao.Get, artifact_dao.Delete.
  keeps_auto.
  - apply keeps_stmt. intros d (? & ? & ?). split_and!; proj_db; try done. by apply del_rows_sub.
  - apply keeps_affect. intros d d' (? & ? & ?). unfold artifact_dao.delete_artifact.
    destruct (rows (arts d) !! id); [|done]. case_decide; [done|]. intros [= <-].
    split_and!; proj_db; try done. by apply del_row_sub.
Qed.
Lemma RemoveAllFrom_K id : keeps K (label_mgr.RemoveAllFrom id).
Proof.
  unfold label_mgr.RemoveAllFrom, label_dao.DeleteReferences. keeps_auto.
  apply keeps_stmt. intros d Hd. by apply (shrinks_same d).
Qed.
Lemma on_blobs_K {A} (m : M BlobDB A) : keeps K (on_blobs m).
Proof.
  intros w r w' Hw H. apply on_blobs_inv in H as (v & _ & ->).
  assert (K (put_blobs (db v) (db w))) by by apply (shrinks_same (db w)). by destruct r.
Qed.
Lemma trash_Create_K x : keeps K (trash_dao.Create x).
Proof.
  unfold trash_dao.Create. keeps_auto. apply keeps_wrap_err, keeps_stmt. intros d Hd.
  case_decide; [|done]. by apply (shrinks_same d).
Qed.
Lemma AddEvent_K e : keeps K (AddEvent e).
Proof. intros w r w' Hw [= <- <-]. by apply (shrinks_same (db w)). Qed.
Lemma DeleteReference_K id : keeps K (artifact_mgr.DeleteReference id).
Proof.
  apply keeps_affect. intros d d' (? & ? & ?). destruct (rows (refs d) !! id); [|done].
  intros [= <-]. split_and!; proj_db; try done. by apply del_row_sub.
Qed.
Lemma DeleteAccessories_K P `{!∀ c, Decision (P c)} : keeps K (accessory_mgr.DeleteAccessories P).
Proof.
  unfold accessory_mgr.DeleteAccessories, accessory_dao.DeleteAccessories. keeps_auto.
  apply keeps_stmt. intros d (? & ? & ?). split_and!; proj_db; try done. by apply del_rows_sub.
Qed.
Lemma DeleteTags_K l : keeps K (tag_ctl.DeleteTags sv l).
Proof.
  induction l; simpl; [keeps_auto|]. unfold tag_ctl.Delete. keeps_auto. apply keeps_affect. intros d d' Hd.
  destruct (rows (tags d) !! _); [|done]. intros [= <-]. by apply (shrinks_same d).
Qed.
Hint Resolve artifact_mgr_Delete_K RemoveAllFrom_K on_blobs_K trash_Create_K AddEvent_K DeleteTags_K : keeps.

Lemma deleteDeeply_K fuel id isRoot isAccessory :
  keeps K (artifact_ctl.deleteDeeply sv fuel id isRoot isAccessory).
Proof.
  revert id isRoot isAccessory. induction fuel as [|fuel IH]; intros; simpl; [keeps_auto|].
  assert (Hr : ∀ v b, keeps K (artifact_ctl.delete_row v b)).
  { intros. unfold artifact_ctl.delete_row, artifact_ctl.cleanup_blobs. keeps_auto. apply ignoring_keeps. keeps_auto. }
  keeps_auto.
  - apply ignoring_keeps, DeleteAccessories_K.
  - apply delete_accessories_keeps, IH.
  - apply delete_children_keeps; [apply IH|apply DeleteReference_K].
Qed.
End shrink.

(** *** The bound *)

(** Accessory rows record the digest of their artifact. *)
Definition acc_digests (d : ArtDB) : Prop :=
  ∀ i c a, rows (accs d) !! i = Some c → rows (arts d) !! c_ArtifactID c = Some a → c_Digest c = a_Digest a.

(** No fault of the schedule reads as a missing row. *)
Definition driver_fault (f : option error) : Prop := ∀ e, f = Some e → IsErr e NotFoundCode = false.

Record quiet (w : World ArtDB) : Prop := mk_quiet {
  quiet_ok : art_ok (db w);
  quiet_digests : acc_digests (db w);
  quiet_faults : Forall driver_fault (faults w);
}.

Lemma acc_digests_shrinks d d' : shrinks d d' → acc_digests d → acc_digests d'.
Proof.
  intros (Ha & _ & Hc) Hd i c a Hi Ha'. by eapply Hd; eapply lookup_weaken.
Qed.

(** One run of a part of a deletion. *)
Definition well_behaved {A} (m : M ArtDB A) : Prop :=
  tame m ∧ keeps art_ok m ∧ ∀ d0, keeps (shrinks d0) m.

Lemma quiet_run {A} (m : M ArtDB A) w r w' :
  well_behaved m → m w = (r, w') → quiet w → quiet w' ∧ shrinks (db w) (db w').
Proof.
  intros (Ht & Ho & Hk) H [Hok Hd Hf].
  pose proof (Hk (db w) _ _ _ (shrinks_refl _) H) as Hs.
  assert (Hs' : shrinks (db w) (db w')) by by destruct r. split; [|done]. split.
  - pose proof (Ho _ _ _ Hok H). by destruct r.
  - by eapply acc_digests_shrinks.
  - destruct (Ht _ _ _ H) as [k Hfk]. rewrite Hfk in Hf. by apply Forall_app in Hf as [_ Hf].
Qed.

Lemma well_behaved_reader {A} (m : M ArtDB A) : tame m → (∀ I, keeps I m) → well_behaved m.
Proof. intros. by split_and!. Qed.
Lemma well_behaved_rec fuel id b c : well_behaved (artifact_ctl.deleteDeeply sv fuel id b c).
Proof.
  split_and!; [apply tame_deleteDeeply|apply deleteDeeply_keeps|intros; apply deleteDeeply_K].
Qed.
Lemma well_behaved_DeleteReference id :
  well_behaved (artifact_ctl.ignoring NotFoundCode (artifact_mgr.DeleteReference id)).
Proof.
  split_and!.
  - apply tame_ignoring. unfold artifact_mgr.DeleteReference, artifact_dao.DeleteReference. tame_auto.
  - apply ignoring_keeps, DeleteReference_keeps.
  - intros. apply ignoring_keeps, DeleteReference_K.
Qed.
Lemma well_behaved_DeleteAccessories P `{!∀ c, Decision (P c)} :
  well_behaved (artifact_ctl.ignoring NotFoundCode (accessory_mgr.DeleteAccessories P)).
Proof.
  split_and!.
  - apply tame_ignoring, tame_DeleteAccessories.
  - apply ignoring_keeps, accessory_mgr_DeleteAccessories_keeps.
  - intros. apply ignoring_keeps, DeleteAccessories_K.
Qed.

(** Without a fault that reads as a missing row, the statements took effect. *)
Lemma stmt_fault {A} (f : ArtDB → result A * ArtDB) w r w' :
  Forall driver_fault (faults w) → stmt f w = (r, w') →
  (∃ e, r = Err e ∧ IsErr e NotFoundCode = false ∧ db w' = db w) ∨ f (db w) = (r, db w').
Proof.
  intros Hf. unfold stmt. destruct (faults w) as [|[e|] fs] eqn:E.
  - destruct (f (db w)) as [x d]. intros [= <- <-]. by right.
  - intros [= <- <-]. left. exists e. split_and!; try done. inversion Hf as [|?? He]; subst. by apply He.
  - destruct (f (db w)) as [x d]. intros [= <- <-]. by right.
Qed.

Lemma DeleteReference_effect id w w' :
  quiet w → artifact_ctl.ignoring NotFoundCode (artifact_mgr.DeleteReference id) w = (Ok tt, w') →
  rows (refs (db w')) !! id = None.
Proof.
  intros [_ _ Hf] H. unfold artifact_ctl.ignoring in H. apply bind_try_inv in H as (x & w1 & H1 & H).
  assert (Hw : w' = w1) by (destruct x; [by injection H as <-|]; destruct (IsErr _ _); [by injection H as <-|done]).
  subst w'. unfold artifact_mgr.DeleteReference, artifact_dao.DeleteReference, affect in H1.
  apply bind_cases in H1 as [(e & H1 & ->)|([] & w2 & H2 & H1)].
  { unfold FromContext in H1. destruct (ctx_orm w); [done|]. injection H1 as <- <-. discriminate H. }
  apply FromContext_cases in H2 as [-> _].
  apply bind_try_inv in H1 as (y & w3 & H3 & H1). apply stmt_fault in H3 as [(e & -> & He & _)|H3]; [| |done].
  { injection H1 as <- <-. by rewrite He in H. }
  destruct (rows (refs (db w)) !! id) eqn:E; injection H3 as <- Hd.
  - injection H1 as <- <-. rewrite <- Hd. simpl. by rewrite lookup_delete_eq.
  - injection H1 as <- <-. by rewrite <- Hd.
Qed.

Lemma DeleteAccessories_effect P `{!∀ c, Decision (P c)} w w' i c :
  quiet w → artifact_ctl.ignoring NotFoundCode (accessory_mgr.DeleteAccessories P) w = (Ok tt, w') →
  rows (accs (db w)) !! i = Some c → P c → rows (accs (db w')) !! i = None.
Proof.
  intros [_ _ Hf] Hr Hi HP. unfold artifact_ctl.ignoring in Hr. apply bind_try_inv in Hr as (x & w1 & H1 & Hr).
  assert (Hw : w' = w1) by (destruct x; [by injection Hr as <-|]; destruct (IsErr _ _); [by injection Hr as <-|done]).
  subst w'. unfold accessory_mgr.DeleteAccessories, accessory_dao.DeleteAccessories in H1.
  apply bind_cases in H1 as [(e & H1 & ->)|(n & w2 & H2 & H1)].
  - apply bind_cases in H1 as [(e' & H1 & [= ->])|([] & w3 & H3 & H1)].
    + unfold FromContext in H1. destruct (ctx_orm w); [done|]. injection H1 as <- <-. discriminate Hr.
    + apply FromContext_cases in H3 as [-> _].
      apply stmt_fault in H1 as [(e' & [= ->] & He & _)|H1]; [by rewrite He in Hr|done|done].
  - injection H1 as <- <-. apply bind_ok_inv in H2 as ([] & w3 & H3 & H2).
    apply FromContext_cases in H3 as [-> _]. apply stmt_ok_inv in H2. injection H2 as _ <-.
    proj_db. destruct (rows (del_rows P (accs (db w))) !! i) as [y|] eqn:E; [|done].
    apply lookup_dels in E as [E HnP]. simplify_eq. done.
Qed.

(** The fuel that a call needs: two levels per link, and one less when its own
    accessory row is still there to be deleted first. *)
Definition need (isAccessory : bool) (id : Z) (d : ArtDB) : nat :=
  2 * links d + (if isAccessory && bool_decide (is_accessory d id) then 1 else 2).

Lemma need_bound b id d : (need b id d <= 2 * links d + 2)%nat.
Proof. unfold need. destruct (_ && _); lia. Qed.

Section ends.
Context (fuel : nat).
Hypothesis rec_ends : ∀ id isRoot isAccessory w, quiet w → (need isAccessory id (db w) <= fuel)%nat →
  (artifact_ctl.deleteDeeply sv fuel id isRoot isAccessory w).1 ≠ Ok None.

Lemma delete_accessories_ends d l w :
  quiet w → shrinks d (db w) →
  (∀ c w, c ∈ l → quiet w → shrinks d (db w) → (need true (c_ArtifactID c) (db w) <= fuel)%nat) →
  (artifact_ctl.delete_accessories (artifact_ctl.deleteDeeply sv fuel) l w).1 ≠ Ok None.
Proof.
  revert w. induction l as [|c l IH]; intros w Hq Hs Hneed; simpl; [done|].
  destruct (IsHard c); [|apply IH; [done|done|]; intros; apply Hneed; [by right|done|done]].
  destruct (fbind _ _ w) as [r w'] eqn:H. apply fbind_cases in H as [(e & _ & ->)|[[H ->]|([] & w1 & H1 & H)]]; [done| |].
  - pose proof (rec_ends (c_ArtifactID c) true true w Hq (Hneed c w ltac:(left) Hq Hs)) as Hr. by rewrite H in Hr.
  - destruct (quiet_run _ _ _ _ (well_behaved_rec _ _ _ _) H1 Hq) as [Hq1 Hs1].
    pose proof (IH w1 Hq1 (shrinks_trans _ _ _ Hs Hs1)) as Hr. rewrite H in Hr. apply Hr.
    intros. apply Hneed; [by right|done|done].
Qed.

Lemma delete_children_ends d l w :
  quiet w → shrinks d (db w) → Forall (λ r, rows (refs d) !! r_ID r = Some r) l →
  (2 * links d <= fuel)%nat →
  (artifact_ctl.delete_children (artifact_ctl.deleteDeeply sv fuel) l w).1 ≠ Ok None.
Proof.
  intros Hq Hs Hl Hfuel. revert w Hq Hs. induction Hl as [|r l Hr _ IH]; intros w Hq Hs; simpl; [done|].
  destruct (fbind _ _ w) as [x w'] eqn:H. apply fbind_cases in H as [(e & _ & ->)|[[H ->]|([] & w1 & H1 & H)]].
  - done.
  - apply fret_cases in H as [(? & _ & [=])|(? & _ & [=])].
  - apply fret_cases in H1 as [(? & _ & [=])|([] & H1 & _)].
    destruct (quiet_run _ _ _ _ (well_behaved_DeleteReference _) H1 Hq) as [Hq1 Hs1].
    pose proof (DeleteReference_effect _ _ _ Hq H1) as Hgone. pose proof (shrinks_trans _ _ _ Hs Hs1) as Hs'.
    pose proof (lost_ref_links _ _ _ _ Hs' Hr Hgone) as Hlt.
    apply fbind_cases in H as [(e & _ & ->)|[[H ->]|([] & w2 & H2 & H)]]; [done| |].
    + assert (Hn : (need false (r_ChildID r) (db w1) <= fuel)%nat) by (unfold need; simpl; lia).
      pose proof (rec_ends (r_ChildID r) false false w1 Hq1 Hn) as Hne. by rewrite H in Hne.
    + destruct (quiet_run _ _ _ _ (well_behaved_rec _ _ _ _) H2 Hq1) as [Hq2 Hs2].
      pose proof (IH w2 Hq2 (shrinks_trans _ _ _ Hs' Hs2)) as Hne. by rewrite H in Hne.
Qed.
End ends.

(** The row of the view that [Get] returned. *)
Lemma Get_row id w v w' :
  artifact_ctl.Get sv id artifact_ctl.delete_option w = (Ok v, w') → rows (arts (db w)) !! id = Some (v_row v).
Proof.
  unfold artifact_ctl.Get, artifact_mgr.Get. intros H.
  apply bind_ok_inv in H as (x & w2 & H2 & H). apply bind_ok_inv in H2 as (a & w3 & H3 & H2).
  apply Read_inv in H3 as [_ H3]. rewrite (H3 _ eq_refl). f_equal.
  pose proof (assemble_row a _ _ _ Logic.I H2) as Hx. simpl in Hx.
  unfold artifact_ctl.assembleArtifact, artifact_ctl.assemble_with in H. apply bind_ok_inv in H as (vo & w4 & H & Hv).
  injection Hv as <- _. apply bind_ok_inv in H as (ts & w7 & _ & H).
  apply bind_ok_inv in H as (ls & w5 & _ & H). apply bind_ok_inv in H as (cs & w6 & _ & H).
  by injection H as <- _.
Qed.

(** After its own accessory rows are gone, a call has fuel for two levels per
    remaining link, or a link is gone. *)
Definition spare (fuel : nat) (d d' : ArtDB) : Prop :=
  (2 * links d + 1 <= fuel ∨ (2 * links d <= fuel ∧ links d' < links d))%nat.

Lemma own_accessory fuel id isAccessory a w w' :
  quiet w → rows (arts (db w)) !! id = Some a → a_ID a = id → (need isAccessory id (db w) <= S fuel)%nat →
  (if isAccessory : bool
   then artifact_ctl.ignoring NotFoundCode (accessory_mgr.DeleteAccessories
          (λ c, c_ArtifactID c = a_ID a ∧ c_Digest c = a_Digest a))
   else mret tt) w = (Ok tt, w') →
  quiet w' ∧ shrinks (db w) (db w') ∧ spare fuel (db w) (db w').
Proof.
  intros Hq Ha Hid Hn H. unfold need in Hn. destruct isAccessory.
  - destruct (quiet_run _ _ _ _ (well_behaved_DeleteAccessories _) H Hq) as [Hq2 Hs2]. split_and!; [done|done|].
    simpl in Hn. destruct (decide (is_accessory (db w) id)) as [Hc|Hc];
      [rewrite bool_decide_true in Hn by done|rewrite bool_decide_false in Hn by done; left; lia].
    right. split; [lia|].
    unfold is_accessory in Hc. destruct (select _ (accs (db w))) as [|c l] eqn:E; [done|].
    assert (Hin : c ∈ select (λ c, c_ArtifactID c = id) (accs (db w))) by (rewrite E; left).
    apply elem_of_select in Hin as (i & Hi & Hcid).
    eapply (lost_acc_links _ _ i c Hs2 Hi). refine (DeleteAccessories_effect _ _ _ i c Hq H Hi _).
    split; [congruence|]. eapply (quiet_digests _ Hq); [done|]. by rewrite Hcid.
  - injection H as <-. split_and!; [done|apply shrinks_refl|]. simpl in Hn. left. lia.
Qed.

Lemma accessory_need fuel d d1 c i d' :
  spare fuel d d1 → shrinks d d1 → shrinks d1 d' → rows (accs d) !! i = Some c →
  (need true (c_ArtifactID c) d' <= fuel)%nat.
Proof.
  intros Hfuel Hs Hs' Hi. pose proof (shrinks_trans _ _ _ Hs Hs') as Hs0.
  pose proof (need_bound true (c_ArtifactID c) d').
  destruct (rows (accs d') !! i) as [c'|] eqn:E.
  - destruct Hfuel as [Hfuel|[Hfuel Hlt]]; [|pose proof (shrinks_links _ _ Hs'); lia].
    unfold need. rewrite bool_decide_true; [pose proof (shrinks_links _ _ Hs0); simpl; lia|].
    pose proof (lookup_weaken _ _ _ _ E (proj2 (proj2 Hs0))). simplify_eq.
    unfold is_accessory. intros Hsel. rewrite select_nil in Hsel. by eapply Hsel.
  - pose proof (lost_acc_links _ _ _ _ Hs0 Hi E). unfold spare in Hfuel. lia.
Qed.

Lemma well_behaved_accessories fuel l :
  well_behaved (artifact_ctl.delete_accessories (artifact_ctl.deleteDeeply sv fuel) l).
Proof.
  pose proof (well_behaved_rec fuel) as Hrec. split_and!.
  - induction l; simpl; tame_auto. apply Hrec.
  - apply delete_accessories_keeps. intros. apply Hrec.
  - intros. apply delete_accessories_keeps. intros. apply Hrec.
Qed.

Lemma deleteDeeply_ends fuel id isRoot isAccessory w :
  quiet w → (need isAccessory id (db w) <= fuel)%nat →
  (artifact_ctl.deleteDeeply sv fuel id isRoot isAccessory w).1 ≠ Ok None.
Proof.
  revert id isRoot isAccessory w. induction fuel as [|fuel IH]; intros id isRoot isAccessory w Hq Hn.
  { unfold need in Hn. destruct (_ && _); lia. }
  destruct (artifact_ctl.deleteDeeply sv (S fuel) id isRoot isAccessory w) as [r w'] eqn:H.
  cbn [artifact_ctl.deleteDeeply] in H. cbn [fst].
  apply bind_try_inv in H as (x & w1 & H1 & H).
  destruct x as [v|e]; [|by destruct (negb _ && _); injection H as <- _].
  destruct (quiet_run _ _ _ _ (well_behaved_reader _ (tame_Get id _) (λ I, ctl_Get_keeps sv I id _)) H1 Hq) as [Hq1 _].
  assert (Hd1 : db w1 = db w) by (symmetry; exact (keeps_all_reads _ (λ I, ctl_Get_keeps sv I id _) _ _ _ H1)).
  destruct (Get_J sv (db w) id (quiet_ok _ Hq) id _ _ _ (removed_refl _ _) H1) as [_ (Hid & Hrefs & _ & Hcs)].
  pose proof (Get_row _ _ _ _ H1) as Hrow. rewrite <- Hd1 in Hn, Hrow, Hrefs, Hcs.
  apply bind_cases in H as [(e & _ & ->)|([] & w2 & H2 & H)]; [done|].
  destruct (own_accessory _ _ _ _ _ _ Hq1 Hrow Hid Hn H2) as (Hq2 & Hs2 & Hfuel). clear H2.
  destruct (negb isRoot && negb _); [by injection H as <- _|].
  apply bind_cases in H as [(e & _ & ->)|(ps & w3 & H3 & H)]; [done|].
  destruct (quiet_run _ _ _ _ (well_behaved_reader (artifact_mgr.ListReferences (λ r, r_ChildID r = id))
    ltac:(unfold artifact_mgr.ListReferences, artifact_dao.ListReferences; tame_auto)
    (λ I, ListReferences_keeps I _)) H3 Hq2) as [Hq3 Hs3].
  destruct (negb _); [by destruct isRoot; [injection H as <- _|injection H as <- _]|].
  apply fbind_cases in H as [(e & _ & ->)|[[H ->]|([] & w4 & H4 & H)]]; [done| |].
  { exfalso. refine (delete_accessories_ends fuel IH (db w3) (v_Accessories v) w3 Hq3 (shrinks_refl _) _ _); [|by rewrite H].
    intros c wk Hc Hqk Hsk. rewrite Forall_forall in Hcs. destruct (Hcs c Hc) as [[i Hi] _].
    exact (accessory_need _ _ _ _ _ _ Hfuel Hs2 (shrinks_trans _ _ _ Hs3 Hsk) Hi). }
  destruct (quiet_run _ _ _ _ (well_behaved_accessories _ _) H4 Hq3) as [Hq4 Hs4].
  apply fbind_cases in H as [(e & _ & ->)|[[H ->]|([] & w5 & H5 & H)]]; [done| |].
  { exfalso. refine (delete_children_ends fuel IH (db w1) (v_References v) w4 Hq4
      (shrinks_trans _ _ _ Hs2 (shrinks_trans _ _ _ Hs3 Hs4)) _ _ _); [|unfold spare in Hfuel; lia|by rewrite H].
    eapply Forall_impl; [exact Hrefs|]. naive_solver. }
  apply bind_cases in H as [(e & _ & ->)|(u & w6 & _ & H)]; [done|].
  apply fret_cases in H as [(e & _ & ->)|(a & _ & ->)]; done.
Qed.

(** C21 (deletion ends): the recursion of [deleteDeeply] comes back, also when
    references or accessories form a cycle, and with failing statements: two levels
    for each reference and accessory row of the tables, of whatever artifacts, and two
    more are enough.  The database is consistent, accessory rows record the digest of
    their artifact, and no failure reads as a missing row ([quiet]). *)
Theorem Delete_terminates fuel id w :
  quiet w → (2 * links (db w) + 2 <= fuel)%nat → (artifact_ctl.Delete sv fuel id w).1 ≠ Ok None.
Proof.
  intros Hq Hn. unfold artifact_ctl.Delete.
  destruct ((accessory_mgr.List _ ≫= _) w) as [r w'] eqn:H. cbn [fst].
  apply bind_cases in H as [(e & _ & ->)|(l & w1 & H1 & H)]; [done|].
  destruct (quiet_run _ _ _ _ (well_behaved_reader (accessory_mgr.List (λ c, c_ArtifactID c = id))
    ltac:(unfold accessory_mgr.List, accessory_dao.List; tame_auto) (λ I, accessory_mgr_List_keeps I _)) H1 Hq)
    as [Hq1 Hs1].
  destruct r as [[]|e]; [done| |done]. exfalso.
  unfold WithTransaction in H. apply bind_ok_inv in H as ([] & w2 & H2 & H).
  apply FromContext_cases in H2 as [-> _]. apply bind_ok_inv in H as ([] & w3 & H3 & H).
  pose proof (tame_query _ _ _ _ H3) as [k Hk]. apply query_cases in H3 as (Hd3 & _ & _).
  assert (Hq3 : quiet w3).
  { destruct Hq1 as [H1' H2' H3']. split; rewrite ?Hd3; try done. rewrite Hk in H3'.
    by apply Forall_app in H3' as [_ H3']. }
  refine (deleteDeeply_ends fuel id true (negb (bool_decide (l = []))) w3 Hq3 _ _).
  - pose proof (need_bound (negb (bool_decide (l = []))) id (db w3)).
    pose proof (shrinks_links _ _ Hs1). rewrite Hd3 in *. lia.
  - unfold tx_end in H. destruct (artifact_ctl.deleteDeeply _ _ _ _ _ w3) as [[o|e] w4].
    + destruct (query _ w4) as [[[]|e] w5]; [|discriminate]. by injection H as -> _.
    + destruct (query _ _) as [[[]|e'] w5]; discriminate.
Qed.

End termination.

(** ** The trash *)

Section recorded.
Context (sv : Services).

(** No fault of the schedule reads as a duplicate. *)
Definition no_duplicate (f : option error) : Prop :=
  ∀ e, f = Some e → IsErr e ConflictCode = false ∧ IsDuplicateKeyError e = false.

Definition in_trash (d : ArtDB) (a : Artifact) : Prop :=
  ∃ k x, rows (trash d) !! k = Some x ∧ x_RepositoryName x = a_RepositoryName a ∧ x_Digest x = a_Digest a.

(** The rows of the trash have numbers from its sequence. *)
Definition numbered (t : table ArtifactTrash) : Prop := ∀ i x, rows t !! i = Some x → i <= seq t.

(** Artifacts only go, and into the trash. *)
Record records (d d' : ArtDB) : Prop := mk_records {
  rec_arts : rows (arts d') ⊆ rows (arts d);
  rec_kept a : in_trash d a → in_trash d' a;
  rec_lost i a : rows (arts d) !! i = Some a → rows (arts d') !! i = None → in_trash d' a;
  rec_table : numbered (trash d) → numbered (trash d');
}.

Lemma records_trans d d' d'' : records d d' → records d' d'' → records d d''.
Proof.
  intros [H1 H2 H3 H7] [H4 H5 H6 H8]. split; [by etrans|auto| |auto]. intros i a Hi Hn.
  destruct (rows (arts d') !! i) as [b|] eqn:E; [|eauto]. pose proof (lookup_weaken _ _ _ _ E H1). simplify_eq. eauto.
Qed.

Lemma records_same d d' : arts d' = arts d → trash d' = trash d → records d d'.
Proof. intros Ha Ht. split; unfold in_trash; rewrite ?Ha, ?Ht; [done|done|congruence|done]. Qed.

(** A run that succeeds, from rows under their numbers and without such a fault. *)
Record good (w : World ArtDB) : Prop := mk_good {
  good_faults : Forall no_duplicate (faults w);
  good_keys i a : rows (arts (db w)) !! i = Some a → a_ID a = i;
  good_trash : numbered (trash (db w));
}.
Definition recording {A} (m : M ArtDB A) : Prop :=
  ∀ w a w', good w → m w = (Ok a, w') → good w' ∧ records (db w) (db w').

Lemma good_records w w' : good w → faults w' `suffix_of` faults w → records (db w) (db w') → good w'.
Proof.
  intros [Hf Hk Ht] [k Hs] [Ha _ _ Htr]. split; [| |auto].
  - rewrite Hs in Hf. by apply Forall_app in Hf as [_ Hf].
  - intros i a Hi. eapply Hk, lookup_weaken; done.
Qed.

(** Calls that touch neither table. *)
Definition elsewhere {A} (m : M ArtDB A) : Prop := tame m ∧ ∀ X, keeps (λ d, (arts d, trash d) = X) m.

Lemma elsewhere_run {A} (m : M ArtDB A) w r w' : elsewhere m → good w → m w = (r, w') → good w' ∧ records (db w) (db w').
Proof.
  intros [Ht Hk] Hg H. assert ((arts (db w'), trash (db w')) = (arts (db w), trash (db w))) as E.
  { pose proof (Hk _ _ _ _ eq_refl H). by destruct r. }
  injection E as Ha Htr. assert (records (db w) (db w')) as Hr by by apply records_same. split; [|done].
  eapply good_records; [done|by eapply Ht|done].
Qed.

Lemma recording_elsewhere {A} (m : M ArtDB A) : elsewhere m → recording m.
Proof. intros Hm w a w' Hg H. by eapply elsewhere_run. Qed.
Lemma recording_ret {A} (a : A) : recording (mret a).
Proof. intros w x w' Hg [= <- <-]. split; [done|by apply records_same]. Qed.
Lemma recording_fail {A} e : recording (fail e : M ArtDB A).
Proof. by intros w x w' Hg ?. Qed.
Lemma recording_bind {A B} (m : M ArtDB A) (k : A → M ArtDB B) : recording m → (∀ a, recording (k a)) → recording (m ≫= k).
Proof.
  intros Hm Hk w b w' Hg H. apply bind_ok_inv in H as (a & w1 & H1 & H). destruct (Hm _ _ _ Hg H1) as [Hg1 Hr1].
  destruct (Hk a _ _ _ Hg1 H) as [Hg' Hr']. split; [done|]. by eapply records_trans.
Qed.
Lemma recording_fbind {A B} (m : M ArtDB (option A)) (k : A → M ArtDB (option B)) :
  recording m → (∀ a, recording (k a)) → recording (fbind m k).
Proof. intros Hm Hk. unfold fbind. apply recording_bind; [done|]. intros [a|]; [apply Hk|apply recording_ret]. Qed.
Lemma recording_fret {A} (m : M ArtDB A) : recording m → recording (fret m).
Proof. intros Hm. unfold fret. apply recording_bind; [done|]. intros. apply recording_ret. Qed.

Lemma elsewhere_try {A} (m : M ArtDB A) : elsewhere m → elsewhere (try m).
Proof. intros [Ht Hk]. split; [by apply tame_try|]. intros X. by apply keeps_try. Qed.
Lemma elsewhere_ignoring code (m : M ArtDB unit) : elsewhere m → elsewhere (artifact_ctl.ignoring code m).
Proof. intros [Ht Hk]. split; [by apply tame_ignoring|]. intros X. by apply ignoring_keeps. Qed.

Lemma elsewhere_Get id o : elsewhere (artifact_ctl.Get sv id o).
Proof. split; [apply tame_Get|]. intros X. apply ctl_Get_keeps. Qed.
Lemma elsewhere_DeleteAccessories (P : Accessory → Prop) `{!∀ c, Decision (P c)} : elsewhere (accessory_mgr.DeleteAccessories P).
Proof.
  split; [apply tame_DeleteAccessories|]. intros X. unfold accessory_mgr.DeleteAccessories, accessory_dao.DeleteAccessories.
  keeps_auto. by apply keeps_stmt.
Qed.
Lemma elsewhere_ListReferences (P : Reference → Prop) `{!∀ c, Decision (P c)} : elsewhere (artifact_mgr.ListReferences P).
Proof.
  split; [unfold artifact_mgr.ListReferences, artifact_dao.ListReferences; tame_auto|]. intros X. apply ListReferences_keeps.
Qed.
Lemma elsewhere_DeleteReference id : elsewhere (artifact_mgr.DeleteReference id).
Proof.
  split; [unfold artifact_mgr.DeleteReference, artifact_dao.DeleteReference; tame_auto|]. intros X.
  apply keeps_affect. intros d d' Hd. destruct (rows (refs d) !! id); [|done]. by intros [= <-].
Qed.
Lemma elsewhere_DeleteTags l : elsewhere (tag_ctl.DeleteTags sv l).
Proof.
  split; [apply tame_DeleteTags|]. intros X. induction l; simpl; [keeps_auto|]. unfold tag_ctl.Delete. keeps_auto.
  apply keeps_affect. intros d d' Hd. destruct (rows (tags d) !! _); [|done]. by intros [= <-].
Qed.
Lemma elsewhere_RemoveAllFrom id : elsewhere (label_mgr.RemoveAllFrom id).
Proof.
  split; [unfold label_mgr.RemoveAllFrom, label_dao.DeleteReferences; tame_auto|]. intros X.
  unfold label_mgr.RemoveAllFrom, label_dao.DeleteReferences. keeps_auto. by apply keeps_stmt.
Qed.
Lemma elsewhere_cleanup pid digest : elsewhere (artifact_ctl.cleanup_blobs pid digest).
Proof.
  split.
  - unfold artifact_ctl.cleanup_blobs. tame_auto; apply tame_on_blobs; [unfold dao.GetBlobsByArtDigest|
      unfold manager.CleanupAssociationsForProject, dao.FindBlobsShouldUnassociatedWithProject, dao.DeleteProjectBlob]; tame_auto.
  - intros X. assert (∀ {A} (m : M BlobDB A), keeps (λ d, (arts d, trash d) = X) (on_blobs m)) as Hb.
    { intros A m w r w' Hw H. apply on_blobs_inv in H as (v & _ & ->). by destruct r. }
    unfold artifact_ctl.cleanup_blobs. keeps_auto.
Qed.

(** *** The record *)

Lemma stmt_no_duplicate {A} (f : ArtDB → result A * ArtDB) w r w' :
  Forall no_duplicate (faults w) → stmt f w = (r, w') →
  (∃ e, r = Err e ∧ IsErr e ConflictCode = false ∧ IsDuplicateKeyError e = false) ∨ f (db w) = (r, db w').
Proof.
  intros Hf. unfold stmt. destruct (faults w) as [|[e|] fs] eqn:E.
  - destruct (f (db w)) as [x d]. intros [= <- <-]. by right.
  - intros [= <- <-]. left. exists e. apply Forall_cons in Hf as [He _]. by destruct (He e eq_refl).
  - destruct (f (db w)) as [x d]. intros [= <- <-]. by right.
Qed.

Definition same_key (x y : ArtifactTrash) : Prop := x_RepositoryName y = x_RepositoryName x ∧ x_Digest y = x_Digest x.

Lemma trash_Create_run x w r w' : good w → trash_dao.Create x w = (r, w') →
  match r with
  | Ok _ => records (db w) (db w') ∧ ∃ k y, rows (trash (db w')) !! k = Some y ∧ same_key x y
  | Err e => IsErr e ConflictCode = true → ∃ k y, rows (trash (db w)) !! k = Some y ∧ same_key x y
  end.
Proof.
  intros Hg H. unfold trash_dao.Create in H. apply bind_cases in H as [(e & H & ->)|([] & w1 & H1 & H)].
  { unfold FromContext in H. destruct (ctx_orm w); [done|]. by injection H as <- _. }
  apply FromContext_cases in H1 as [-> _]. unfold artifact_dao.wrap_err in H. apply bind_try_inv in H as (y & w2 & H2 & H).
  apply (stmt_no_duplicate _ _ _ _ (good_faults _ Hg)) in H2 as [(e & -> & He & Hd)|Hs].
  - injection H as <- _. unfold WrapConflictError, AsConflictError. rewrite Hd. simpl. congruence.
  - case_decide as Hsel; injection Hs as <- Hd; injection H as <- <-.
    + rewrite <-Hd. split.
      * split; simpl; [done| |congruence|].
        -- intros a (k & z & Hk & Hz). exists k, z. split; [|done]. simpl. apply lookup_insert_Some. right. split; [|done].
          intros <-. pose proof (good_trash _ Hg _ _ Hk). unfold next in *. lia.
        -- intros Hn i z Hi. simpl in *. unfold next in *. apply lookup_insert_Some in Hi as [[<- _]|[_ Hi]]; [lia|].
           specialize (Hn _ _ Hi). lia.
      * eexists (next (trash (db w))), _. simpl. rewrite lookup_insert_eq. done.
    + intros _. destruct (select _ (trash (db w))) as [|z l] eqn:E; [done|].
      assert (Hin : z ∈ select (λ y, x_RepositoryName y = x_RepositoryName x ∧ x_Digest y = x_Digest x) (trash (db w))) by (rewrite E; left).
      apply elem_of_select in Hin as (k & Hk & Hz). by exists k, z.
Qed.

Lemma good_faults_only w w' : good w → faults w' `suffix_of` faults w → db w' = db w → good w'.
Proof. intros Hg Hs Hd. eapply good_records; [done|done|]. rewrite Hd. by apply records_same. Qed.

Lemma query_no_duplicate (w : World ArtDB) r w' : good w → query (λ _, Ok tt) w = (r, w') →
  good w' ∧ db w' = db w ∧ ∀ e, r = Err e → IsErr e ConflictCode = false.
Proof.
  intros Hg H. pose proof (tame_query _ _ _ _ H) as Hs. pose proof (query_cases _ _ _ _ H) as (Hd & _).
  split; [by eapply good_faults_only|]. split; [done|]. intros e ->.
  by apply (stmt_no_duplicate _ _ _ _ (good_faults _ Hg)) in H as [(e' & [= <-] & He & _)|[=]].
Qed.

(** In a transaction of its own; a duplicate is passed over. *)
Lemma trash_recorded x w w' : good w →
  artifact_ctl.ignoring ConflictCode (WithTransaction (_ ← trash_dao.Create x; mret tt)) w = (Ok tt, w') →
  good w' ∧ records (db w) (db w') ∧ ∃ k y, rows (trash (db w')) !! k = Some y ∧ same_key x y.
Proof.
  intros Hg H. assert (Ht : faults w' `suffix_of` faults w).
  { assert (tame (artifact_ctl.ignoring ConflictCode (WithTransaction (_ ← trash_dao.Create x; mret tt)))) as Ht; [|by eapply Ht].
    apply tame_ignoring. unfold trash_dao.Create. tame_auto. apply tame_wrap_err. tame_auto. }
  enough (records (db w) (db w') ∧ ∃ k y, rows (trash (db w')) !! k = Some y ∧ same_key x y) as [Hr Hk].
  { split; [by eapply good_records|done]. }
  unfold artifact_ctl.ignoring in H. apply bind_try_inv in H as (r & w1 & H1 & H).
  assert (w1 = w') as -> by (destruct r as [[]|e]; [by injection H|destruct (IsErr e _); by injection H]).
  assert (∀ e, r = Err e → IsErr e ConflictCode = true) as Herr.
  { intros e ->. by destruct (IsErr e ConflictCode). }
  clear H. assert (∀ e, r = Err e → db w' = db w) as Hback by (intros e ->; by eapply WithTransaction_err).
  unfold WithTransaction in H1. apply bind_cases in H1 as [(e & H & ->)|([] & w2 & H2 & H)].
  { unfold FromContext in H. destruct (ctx_orm w); [done|]. injection H as <- _. by specialize (Herr _ eq_refl). }
  apply FromContext_cases in H2 as [-> _]. apply bind_cases in H as [(e & H & ->)|([] & w3 & H3 & H)].
  { destruct (query_no_duplicate _ _ _ Hg H) as (_ & _ & Hq). specialize (Herr _ eq_refl). by rewrite (Hq _ eq_refl) in Herr. }
  destruct (query_no_duplicate _ _ _ Hg H3) as (Hg3 & Hd3 & _). unfold tx_end in H. rewrite bind_eq in H.
  destruct (trash_dao.Create x w3) as [y w4] eqn:Ec. pose proof (trash_Create_run _ _ _ _ Hg3 Ec) as Hc. rewrite Hd3 in Hc.
  assert (Hg4 : ∀ d, d = db w3 ∨ is_ok y = true → good (with_db w4 (if is_ok y then db w4 else db w3))).
  { intros _ _. eapply (good_records w3); [done| |].
    - assert (tame (trash_dao.Create x)) as Htc; [|exact (Htc _ _ _ Ec)].
      unfold trash_dao.Create. tame_auto. apply tame_wrap_err. tame_auto.
    - rewrite <-Hd3 in Hc. destruct y; simpl; [apply Hc|by apply records_same]. }
  specialize (Hg4 _ (or_introl eq_refl)). destruct y as [z|e]; simpl in Hg4.
  - simpl in H. destruct (query _ w4) as [[[]|e'] w5] eqn:Eq.
    + injection H as <- <-. apply query_cases in Eq as (Hd & _). by rewrite Hd.
    + injection H as <- _. destruct w4 as [d4 o4 f4]. destruct (query_no_duplicate _ _ _ Hg4 Eq) as (_ & _ & Hq).
      specialize (Herr _ eq_refl). by rewrite (Hq _ eq_refl) in Herr.
  - destruct (query _ (with_db w4 (db w3))) as [[[]|e'] w5] eqn:Eq; injection H as <- _.
    + rewrite (Hback _ eq_refl). split; [by apply records_same|]. apply Hc. by apply Herr.
    + destruct (query_no_duplicate _ _ _ Hg4 Eq) as (_ & _ & Hq). specialize (Herr _ eq_refl). by rewrite (Hq _ eq_refl) in Herr.
Qed.

(** *** One artifact *)

Lemma artifact_Delete_run id w r w' : artifact_mgr.Delete id w = (r, w') →
  trash (db w') = trash (db w) ∧ arts (db w') = match r with Ok _ => del_row id (arts (db w)) | Err _ => arts (db w) end.
Proof.
  intros H. enough (spec (λ d, (arts d, trash d) = (arts (db w), trash (db w))) (artifact_mgr.Delete id)
    (λ _ d, (arts d, trash d) = (del_row id (arts (db w)), trash (db w))) (λ d, (arts d, trash d) = (arts (db w), trash (db w)))) as Hs.
  { pose proof (Hs _ _ _ eq_refl H) as Hd. by destruct r; injection Hd as -> ->. }
  clear H. unfold artifact_mgr.Delete. eapply (spec_bind _ _ (λ _ d, (arts d, trash d) = (arts (db w), trash (db w)))).
  - unfold artifact_dao.DeleteReferences, artifact_dao.Get.
    match goal with |- spec ?P ?m _ _ => change (keeps P m) end. keeps_auto. by apply keeps_stmt.
  - intros _. apply spec_affect; [|done]. intros d d' [= Ha Ht]. unfold artifact_dao.delete_artifact.
    destruct (rows (arts d) !! id); [|done]. case_decide; [done|]. intros [= <-]. simpl. congruence.
Qed.

Lemma elsewhere_AddEvent e : elsewhere (AddEvent e).
Proof. split; [apply tame_AddEvent|]. intros X w r w' Hw [= <- <-]. done. Qed.

Lemma tame_artifact_Delete id : tame (artifact_mgr.Delete id).
Proof. unfold artifact_mgr.Delete, artifact_dao.DeleteReferences, artifact_dao.Get, artifact_dao.Delete. tame_auto. Qed.

Lemma delete_row_recording v isRoot w w' : good w →
  (∀ a, rows (arts (db w)) !! a_ID (v_row v) = Some a → a = v_row v) →
  artifact_ctl.delete_row v isRoot w = (Ok tt, w') → good w' ∧ records (db w) (db w').
Proof.
  intros Hg Hrow H. unfold artifact_ctl.delete_row in H. apply bind_ok_inv in H as ([] & w1 & H1 & H).
  destruct (elsewhere_run _ _ _ _ (elsewhere_RemoveAllFrom _) Hg H1) as [Hg1 Hr1].
  assert (Hrow1 : ∀ a, rows (arts (db w1)) !! a_ID (v_row v) = Some a → a = v_row v).
  { intros a Ha. apply Hrow. exact (lookup_weaken _ _ _ _ Ha (rec_arts _ _ Hr1)). }
  enough (good w' ∧ records (db w1) (db w')) as [Hgo Hrest] by (split; [exact Hgo|exact (records_trans _ _ _ Hr1 Hrest)]).
  clear Hr1 H1 Hrow Hg. apply bind_try_inv in H as (r & w2 & H2 & H). pose proof (tame_artifact_Delete _ _ _ _ H2) as Hs2.
  apply artifact_Delete_run in H2 as [Ht Ha]. destruct r as [[]|e].
  - assert (Hg2 : good w2).
    { destruct Hg1 as [Hf Hk Hn]. destruct Hs2 as [k Hs2]. split; [rewrite Hs2 in Hf; by apply Forall_app in Hf as [_ Hf]| |by rewrite Ht].
      intros i a. rewrite Ha. simpl. intros [_ Hi]%lookup_delete_Some. by apply Hk. }
    apply bind_ok_inv in H as ([] & w3 & H3 & H). destruct (elsewhere_run _ _ _ _ (elsewhere_cleanup _ _) Hg2 H3) as [Hg3 Hr3].
    apply bind_ok_inv in H as ([] & w4 & H4 & H). apply trash_recorded in H4 as (Hg4 & Hr4 & k & y & Hk & Hy); [|done].
    assert (good w' ∧ records (db w4) (db w')) as [Hg' Hr'].
    { destruct isRoot; [by eapply elsewhere_run, H; [apply elsewhere_AddEvent|]|]. injection H as <-. split; [done|by apply records_same]. }
    split; [done|]. assert (Hr : records (db w2) (db w')) by (eapply records_trans; [exact Hr3|by eapply records_trans]).
    destruct Hr as [Hsub Hkept Hlost Hnum]. split.
    + etrans; [exact Hsub|]. rewrite Ha. by apply delete_subseteq.
    + intros a Hin. apply Hkept. unfold in_trash. by rewrite Ht.
    + intros i a Hi Hno. destruct (decide (i = a_ID (v_row v))) as [->|Hne].
      * apply (rec_kept _ _ Hr'). rewrite (Hrow1 a Hi). by exists k, y.
      * apply (Hlost i); [|done]. rewrite Ha. simpl. by rewrite lookup_delete_ne.
    + rewrite Ht in Hnum. done.
  - destruct (_ && _); [|done]. injection H as <-.
    assert (records (db w1) (db w2)) as Hr by by apply records_same. split; [by eapply good_records|done].
Qed.

(** *** The recursion *)

Lemma ctl_Get_row id o w v w' : artifact_ctl.Get sv id o w = (Ok v, w') → rows (arts (db w)) !! id = Some (v_row v).
Proof.
  unfold artifact_ctl.Get, artifact_mgr.Get. intros H. apply bind_ok_inv in H as (x & w1 & H1 & H).
  apply bind_ok_inv in H1 as (a & w2 & H2 & H1). apply Read_inv in H2 as [_ H2].
  assert (ar_row x = a) as Hx.
  { unfold artifact_mgr.assemble in H1. destruct (IsImageIndex a); [|by injection H1 as <- _].
    apply bind_ok_inv in H1 as (l & w3 & _ & H1). by injection H1 as <- _. }
  assert (v_row v = ar_row x) as ->.
  { unfold artifact_ctl.assembleArtifact in H. apply bind_ok_inv in H as (vo & w3 & H3 & H). injection H as <- _.
    unfold artifact_ctl.assemble_with in H3. destruct o as [o|]; [|by injection H3 as <- _].
    apply bind_ok_inv in H3 as (ts & w4 & _ & H3). apply bind_ok_inv in H3 as (ls & w5 & _ & H3).
    apply bind_ok_inv in H3 as (cs & w6 & _ & H3). by injection H3 as <- _. }
  rewrite Hx. by apply H2.
Qed.

Lemma deleteDeeply_recording fuel : ∀ id isRoot isAccessory, recording (artifact_ctl.deleteDeeply sv fuel id isRoot isAccessory).
Proof.
  induction fuel as [|fuel IH]; intros id isRoot isAccessory; [apply recording_ret|]. intros w o w' Hg H. cbn [artifact_ctl.deleteDeeply] in H.
  assert (Haccs : ∀ l, recording (artifact_ctl.delete_accessories (artifact_ctl.deleteDeeply sv fuel) l)).
  { induction l as [|c l IHl]; simpl; [apply recording_ret|]. destruct (IsHard c); [|done]. apply recording_fbind; [apply IH|intros []; exact IHl]. }
  assert (Hkids : ∀ l, recording (artifact_ctl.delete_children (artifact_ctl.deleteDeeply sv fuel) l)).
  { induction l as [|r l IHl]; simpl; [apply recording_ret|]. apply recording_fbind; [|intros []; by apply recording_fbind].
    apply recording_fret, recording_elsewhere, elsewhere_ignoring, elsewhere_DeleteReference. }
  apply bind_try_inv in H as (r & w1 & H1 & H). destruct (elsewhere_run _ _ _ _ (elsewhere_Get _ _) Hg H1) as [Hg1 Hr1].
  destruct r as [v|e]; [|destruct (_ && _); [|done]; injection H as _ <-; done].
  apply ctl_Get_row in H1. pose proof (good_keys _ Hg _ _ H1) as Hid. rewrite <-Hid in H1.
  enough (good w' ∧ records (db w1) (db w')) as [Hgo Hrest] by (split; [exact Hgo|exact (records_trans _ _ _ Hr1 Hrest)]).
  assert (Hrow : ∀ d, records (db w1) d → ∀ a, rows (arts d) !! a_ID (v_row v) = Some a → a = v_row v).
  { intros d Hd a Ha. pose proof (records_trans _ _ _ Hr1 Hd) as [Hsub _ _ _].
    pose proof (lookup_weaken _ _ _ _ Ha Hsub). congruence. }
  apply bind_ok_inv in H as ([] & w2 & H2 & H).
  assert (good w2 ∧ records (db w1) (db w2)) as [Hg2 Hr2].
  { destruct isAccessory; [|injection H2 as <-; split; [done|by apply records_same]].
    by eapply elsewhere_run, H2; [apply elsewhere_ignoring, elsewhere_DeleteAccessories|]. }
  destruct (negb isRoot && _); [by injection H as _ <-|]. apply bind_ok_inv in H as (ps & w3 & H3 & H).
  destruct (elsewhere_run _ _ _ _ (elsewhere_ListReferences _) Hg2 H3) as [Hg3 Hr3].
  pose proof (records_trans _ _ _ Hr2 Hr3) as Hr. destruct (negb _); [destruct isRoot; [done|by injection H as _ <-]|].
  apply fbind_cases in H as [(? & _ & [=])|[[H [= ->]]|([] & w4 & H4 & H)]];
    [by destruct (Haccs _ _ _ _ Hg3 H) as [? ?%(records_trans _ _ _ Hr)]|].
  destruct (Haccs _ _ _ _ Hg3 H4) as [Hg4 Hr4%(records_trans _ _ _ Hr)].
  apply fbind_cases in H as [(? & _ & [=])|[[H [= ->]]|([] & w5 & H5 & H)]];
    [by destruct (Hkids _ _ _ _ Hg4 H) as [? ?%(records_trans _ _ _ Hr4)]|].
  destruct (Hkids _ _ _ _ Hg4 H5) as [Hg5 Hr5%(records_trans _ _ _ Hr4)].
  apply bind_ok_inv in H as ([] & w6 & H6 & H).
  assert (good w6 ∧ records (db w5) (db w6)) as [Hg6 Hr6%(records_trans _ _ _ Hr5)].
  { destruct isRoot; [by eapply elsewhere_run, H6; [apply elsewhere_DeleteTags|]|]. injection H6 as <-. split; [done|by apply records_same]. }
  apply fret_cases in H as [(? & _ & [=])|([] & H & _)].
  destruct (delete_row_recording _ _ _ _ Hg6 (Hrow _ Hr6) H) as [Hg' Hr'%(records_trans _ _ _ Hr6)]. done.
Qed.

Lemma WithTransaction_suffix {A} (f : M ArtDB A) w a w' : WithTransaction f w = (Ok a, w') →
  ∃ w1 w2, db w1 = db w ∧ faults w1 `suffix_of` faults w ∧ f w1 = (Ok a, w2) ∧ db w' = db w2.
Proof.
  unfold WithTransaction. intros H. apply bind_ok_inv in H as ([] & w1 & H1 & H). apply FromContext_cases in H1 as [-> _].
  apply bind_ok_inv in H as ([] & w2 & H2 & H). pose proof (tame_query _ _ _ _ H2) as Hs. apply query_cases in H2 as (Hd & _).
  unfold tx_end in H. destruct (f w2) as [[x|e] w3] eqn:Ef.
  - destruct (query _ w3) as [[[]|e] w4] eqn:E4; [|done]. injection H as <- <-. apply query_cases in E4 as (Hd4 & _).
    by exists w2, w3.
  - destruct (query _ _) as [[[]|e'] w4]; done.
Qed.

(** C20 (deleting an artifact): a failed deletion leaves the database as it was.  A
    successful one removed the artifact, and whatever else it removed is
    accounted for: artifacts it reaches through hard accessories and references;
    references of such artifacts; tags only of the artifact itself and of hard
    accessories, so that a tagged artifact never disappears as a mere child; the
    tables stay consistent.  Under every schedule of faults.  And unless a fault
    reads as a duplicate row, each artifact that it removed is in the trash. *)
Theorem Delete_removes fuel id w r w' :
  art_ok (db w) → artifact_ctl.Delete sv fuel id w = (r, w') →
  match r with
  | Err _ => db w' = db w
  | Ok None => True
  | Ok (Some _) =>
      rows (arts (db w')) !! id = None ∧ removed (db w) id (db w') ∧ art_ok (db w') ∧
      (∀ x a, rows (arts (db w)) !! x = Some a → rows (arts (db w')) !! x = None →
        tagged (db w) x → doomed (db w) id true x) ∧
      (Forall no_duplicate (faults w) →
        ∀ x a, rows (arts (db w)) !! x = Some a → rows (arts (db w')) !! x = None → in_trash (db w') a)
  end.
Proof.
  intros Hok H. pose proof (Delete_keeps sv fuel id _ _ _ Hok H) as Hok'.
  unfold artifact_ctl.Delete in H. apply bind_cases in H as [(e & H & ->)|(l & w1 & H1 & H)].
  { symmetry. exact (keeps_all_reads _ (λ I, accessory_mgr_List_keeps I _) _ _ _ H). }
  pose proof (keeps_all_reads _ (λ I, accessory_mgr_List_keeps I _) _ _ _ H1) as Hd1.
  assert (Hs1 : faults w1 `suffix_of` faults w).
  { assert (tame (accessory_mgr.List (λ c, c_ArtifactID c = id))) as Ht; [|exact (Ht _ _ _ H1)].
    unfold accessory_mgr.List, accessory_dao.List. tame_auto. }
  destruct r as [[[]|]|e]; [|done|].
  - apply WithTransaction_suffix in H as (w2 & w3 & Hd2 & Hs2 & H & Hd').
    assert (db w2 = db w) as Hd by congruence. rewrite Hd' in *. rewrite <- Hd in *.
    pose proof (deleteDeeply_J sv (db w2) id Hok fuel id true _ (doomed_root _ _) (λ _, eq_refl)
      _ _ _ (removed_refl _ _) H) as HJ.
    split_and!; [exact (deleteDeeply_gone sv fuel id _ _ _ Hok H)|exact HJ|exact Hok'| |].
    + intros x a Ha Hn Ht. unfold tagged in Ht.
      destruct (select (λ t, t_ArtifactID t = x) (tags (db w2))) as [|t l'] eqn:E; [done|].
      assert (Hin : t ∈ select (λ t, t_ArtifactID t = x) (tags (db w2))) by (rewrite E; left).
      apply elem_of_select in Hin as (i & Hi & <-). eapply (rm_tag _ _ _ HJ); [done|].
      destruct (rows (tags (db w3)) !! i) as [t'|] eqn:E'; [|done].
      pose proof (lookup_weaken _ _ _ _ E' (rm_tags_sub _ _ _ HJ)). simplify_eq.
      destruct (tab_valid _ _ _ _ (ok_tags _ Hok') _ _ E') as (b & Hb & _). congruence.
    + intros Hf. assert (Hg : good w2).
      { split.
        - destruct Hs1 as [k1 Hs1], Hs2 as [k2 Hs2]. rewrite Hs1, Hs2, !Forall_app in Hf. apply Hf.
        - intros i a Hi. by destruct (tab_keys _ _ _ _ (ok_arts _ Hok) _ _ Hi).
        - intros i x Hi. destruct (tab_keys _ _ _ _ (ok_trash _ Hok) _ _ Hi). lia. }
      exact (rec_lost _ _ (proj2 (deleteDeeply_recording _ _ _ _ _ _ _ Hg H))).
  - apply WithTransaction_err in H. congruence.
Qed.
End recorded.

(** ** Examples *)

Definition ex_deleted : World ArtDB := (artifact_ctl.Delete ex_sv 6 3 (mkWorld ex_db true [])).2.
#[local] Opaque ex_db ex_deleted.

(** Deleting the index removes its untagged image and keeps the tagged one. *)
Lemma Delete_removes_witness :
  artifact_ctl.Delete ex_sv 6 3 (mkWorld ex_db true []) = (Ok (Some tt), ex_deleted) ∧
  (a_Digest <$> select (λ _, True) (arts (db ex_deleted)) = ["sha256:a"%string]) ∧
  removed ex_db 3 (db ex_deleted) ∧ ∃ a, rows (arts ex_db) !! 3 = Some a ∧ in_trash (db ex_deleted) a.
Proof.
  assert (He : artifact_ctl.Delete ex_sv 6 3 (mkWorld ex_db true []) = (Ok (Some tt), ex_deleted))
    by (vm_compute; reflexivity).
  split; [exact He|]. split; [vm_compute; reflexivity|].
  destruct (Delete_removes ex_sv 6 3 (mkWorld ex_db true []) (Ok (Some tt)) ex_deleted ex_art_db_ok He) as (Hgone & Hrem & _ & _ & Htrash).
  split; [exact Hrem|]. destruct (rows (arts ex_db) !! 3) as [a|] eqn:Ea; [|vm_compute in Ea; discriminate Ea].
  exists a. split; [reflexivity|]. exact (Htrash (Forall_nil_2 _) 3 a Ea Hgone).
Defined.

Lemma ex_db_quiet : quiet (mkWorld ex_db true (replicate 20 None ++ [Some ErrNoRows])).
Proof.
  split; [apply ex_art_db_ok| |].
  - intros i c a Hi. exfalso. assert (rows (accs ex_db) = ∅) as He by (vm_compute; reflexivity).
    cbn [db] in Hi. rewrite He in Hi. exact (lookup_empty_Some _ _ Hi).
  - simpl. repeat (apply Forall_cons; split; [intros e [= <-]; done|]). by apply Forall_nil.
Qed.

(** The index and its children, without faults and with a statement that fails on
    the way. *)
Lemma Delete_terminates_witness :
  links ex_db = 2%nat ∧ (artifact_ctl.Delete ex_sv 6 3 (mkWorld ex_db true [])).1 = Ok (Some tt) ∧
  (∃ e, (artifact_ctl.Delete ex_sv 6 3 (mkWorld ex_db true (replicate 20 None ++ [Some ErrNoRows]))).1 = Err e) ∧
  (artifact_ctl.Delete ex_sv 6 3 (mkWorld ex_db true (replicate 20 None ++ [Some ErrNoRows]))).1 ≠ Ok None.
Proof.
  split; [vm_compute; reflexivity|]. split; [vm_compute; reflexivity|]. split; [vm_compute; eexists; reflexivity|].
  apply (Delete_terminates ex_sv 6 3 (mkWorld ex_db true (replicate 20 None ++ [Some ErrNoRows])) ex_db_quiet).
  vm_compute. lia.
Defined.
