(* ===== verification/ArtifactWalk.v ===== *)
(** * Walking artifact trees and deleting repositories

    [Walk] of [src/controller/artifact/controller.go] ends on every database; the
    deletion loop of [src/controller/repository/controller.go] does not; and what
    [Copy] and [Delete] do with accessories. *)

From S2P Require Import Prelude GoErrors Orm BlobStore Table Hoare ArtifactStore ArtifactCtl ArtifactInv.
From S2P Require Import ArtifactSpec ArtifactDelete.
Open Scope Z_scope.

(** ** The views that a walk sees *)

Lemma length_select {R} (P : R → Prop) `{!∀ r, Decision (P r)} (t : table R) :
  (length (select P t) <= size (rows t))%nat.
Proof.
  unfold select. etrans; [apply length_filter|]. by rewrite length_fmap, length_map_to_list.
Qed.

Section walk.
Context (sv : Services) (d : ArtDB).
Local Notation at_d := (λ d', d' = d).

(** A view of a row, with no more accessories than there are rows. *)
Definition view_in (v : ArtView) : Prop :=
  (∃ i, rows (arts d) !! i = Some (v_row v)) ∧ (length (v_Accessories v) <= size (rows (accs d)))%nat.

Lemma assemble_with_view a o :
  (∃ i, rows (arts d) !! i = Some (ar_row a)) →
  spec at_d (artifact_ctl.assemble_with sv a o) (λ x d', d' = d ∧ view_in x.1) at_d.
Proof.
  intros Ha. apply reader_spec; [intros; apply assemble_with_keeps|].
  unfold artifact_ctl.assemble_with. destruct o as [o|]; [|apply spec_ret; intros ? _; split; [done|simpl; lia]].
  apply (spec_bind _ _ (λ _, at_d)).
  { destruct (WithTag o); [|by apply spec_ret]. unfold artifact_ctl.populateTags.
    eapply spec_bind; [apply (keeps_spec at_d); [apply keeps_try, list_with_keeps|done]|]. intros r. by apply spec_ret. }
  intros ts. apply (spec_bind _ _ (λ _, at_d)).
  { destruct (WithLabel o); [|by apply spec_ret]. unfold artifact_ctl.populateLabels, label_dao.ListByArtifact.
    eapply spec_bind; [apply (keeps_spec at_d); [keeps_auto|done]|]. intros r. by apply spec_ret. }
  intros ls. apply (spec_bind _ _ (λ cs _, (length cs <= size (rows (accs d)))%nat)).
  { destruct (WithAccessory o); [|apply spec_ret; simpl; lia]. unfold artifact_ctl.populateAccessories.
    apply (spec_bind _ _ (λ r _, match r with Ok l => (length l <= size (rows (accs d)))%nat | Err _ => True end)).
    - apply (spec_try _ _ (λ l _, (length l <= size (rows (accs d)))%nat) (λ _, True)).
      unfold accessory_mgr.List, accessory_dao.List.
      apply (spec_bind _ _ (λ l _, (length l <= size (rows (accs d)))%nat)).
      + eapply spec_bind; [by apply (spec_FromContext _ (λ _, at_d))|intros []].
        apply spec_query; [|done]. intros d' l -> [= <-]. apply length_select.
      + intros l. destruct (find _ l); [by apply spec_fail|by apply spec_ret].
    - intros [l|e]; apply spec_ret; simpl; [done|lia]. }
  intros cs. apply spec_ret. intros d' Hcs. by split.
Qed.

Lemma assembleArtifact_view a o :
  (∃ i, rows (arts d) !! i = Some (ar_row a)) →
  spec at_d (artifact_ctl.assembleArtifact sv a o) (λ v d', d' = d ∧ view_in v) at_d.
Proof.
  intros Ha. unfold artifact_ctl.assembleArtifact. eapply spec_bind; [by apply assemble_with_view|]. intros x. by apply spec_ret.
Qed.

Lemma assemble_at a :
  spec at_d (artifact_mgr.assemble a) (λ x d', d' = d ∧ ar_row x = a) at_d.
Proof.
  apply reader_spec; [intros; apply assemble_keeps|]. eapply spec_pre; [apply assemble_row|done].
Qed.

Lemma Get_view id o : spec at_d (artifact_ctl.Get sv id o) (λ v d', d' = d ∧ view_in v) at_d.
Proof.
  unfold artifact_ctl.Get, artifact_mgr.Get, artifact_dao.Get.
  apply (spec_bind _ _ (λ x d', d' = d ∧ ∃ i, rows (arts d) !! i = Some (ar_row x))).
  - apply (spec_bind _ _ (λ a d', d' = d ∧ rows (arts d) !! id = Some a)).
    + apply spec_Read; [|done]. intros d' a -> Ha. done.
    + intros a. apply (spec_conseq _ (λ d', rows (arts d) !! id = Some a ∧ d' = d) _ _
        (λ x d', d' = d ∧ ∃ i, rows (arts d) !! i = Some (ar_row x)) _ at_d); [|naive_solver|done|done].
      apply spec_pure. intros Ha. eapply spec_post; [apply assemble_at|]. intros x d' [-> ->]. eauto.
  - intros x. eapply (spec_pre _ (λ d', (∃ i, rows (arts d) !! i = Some (ar_row x)) ∧ d' = d)); [|naive_solver].
    apply spec_pure, assembleArtifact_view.
Qed.

Lemma assembleArtifacts_views l o :
  Forall (λ x, ∃ i, rows (arts d) !! i = Some (ar_row x)) l →
  spec at_d (artifact_ctl.assembleArtifacts sv l o)
    (λ vs d', d' = d ∧ Forall view_in vs ∧ length vs = length l) at_d.
Proof.
  intros Hl. revert o. induction Hl as [|a l Ha _ IH]; intros o; simpl; [apply spec_ret; by intros d' ->|].
  eapply spec_bind; [by apply assemble_with_view|]. intros [v o']. simpl.
  apply (spec_bind _ _ (λ vs d', d' = d ∧ view_in v ∧ Forall view_in vs ∧ length vs = length l)).
  - eapply (spec_pre _ (λ d', view_in v ∧ d' = d)); [|naive_solver]. apply spec_pure. intros Hv.
    eapply spec_post; [apply IH|]. naive_solver.
  - intros vs. apply spec_ret. intros d' (-> & Hv & Hvs & Hl). simpl. split_and!; [done|by constructor|lia].
Qed.

Lemma assemble_all_rows l :
  Forall (λ a, ∃ i, rows (arts d) !! i = Some a) l →
  spec at_d (artifact_mgr.assemble_all l) (λ xs d', d' = d ∧
    Forall (λ x, ∃ i, rows (arts d) !! i = Some (ar_row x)) xs ∧ length xs = length l) at_d.
Proof.
  induction 1 as [|a l Ha _ IH]; simpl; [apply spec_ret; by intros d' ->|].
  eapply spec_bind; [apply assemble_at|]. intros x.
  eapply (spec_bind _ _ (λ xs d', d' = d ∧ ar_row x = a ∧
    Forall (λ x, ∃ i, rows (arts d) !! i = Some (ar_row x)) xs ∧ length xs = length l)).
  - eapply (spec_pre _ (λ d', ar_row x = a ∧ d' = d)); [|naive_solver]. apply spec_pure. intros Hx.
    eapply spec_post; [apply IH|]. naive_solver.
  - intros xs. apply spec_ret. intros d' (-> & Hx & Hxs & Hl). simpl. split_and!; [done| |lia].
    constructor; [by rewrite Hx|done].
Qed.

Lemma List_views q o :
  spec at_d (artifact_ctl.List sv q o)
    (λ vs d', d' = d ∧ Forall view_in vs ∧ (length vs <= size (rows (arts d)))%nat) at_d.
Proof.
  unfold artifact_ctl.List, artifact_mgr.List, artifact_dao.List.
  apply (spec_bind _ _ (λ xs d', d' = d ∧ Forall (λ x, ∃ i, rows (arts d) !! i = Some (ar_row x)) xs ∧
    (length xs <= size (rows (arts d)))%nat)).
  - apply (spec_bind _ _ (λ l d', d' = d ∧ Forall (λ a, ∃ i, rows (arts d) !! i = Some a) l ∧
      (length l <= size (rows (arts d)))%nat)).
    + eapply spec_bind; [apply (querySetter_keeps at_d)|]. intros qs. unfold artifact_dao.All.
      apply spec_query; [|done]. intros d' l -> Hl. destruct (artifact_dao.qs_err qs); [done|].
      injection Hl as <-. split_and!; [done| |].
      * apply Forall_forall. intros a Ha. rewrite order_desc_perm in Ha. apply elem_of_select in Ha as (i & Hi & _). eauto.
      * rewrite order_desc_perm. apply length_select.
    + intros l. eapply (spec_pre _ (λ d', (Forall (λ a, ∃ i, rows (arts d) !! i = Some a) l ∧
        (length l <= size (rows (arts d)))%nat) ∧ d' = d)); [|naive_solver].
      apply spec_pure. intros [Hl Hlen]. eapply spec_post; [by apply assemble_all_rows|].
      intros xs d' (-> & Hxs & ->). done.
  - intros xs. eapply (spec_pre _ (λ d', (Forall (λ x, ∃ i, rows (arts d) !! i = Some (ar_row x)) xs ∧
      (length xs <= size (rows (arts d)))%nat) ∧ d' = d)); [|naive_solver].
    apply spec_pure. intros [Hl Hlen]. eapply spec_post; [by apply assembleArtifacts_views|].
    intros vs d' (-> & Hvs & ->). done.
Qed.

(** ** What one step pushes *)

Lemma accessory_artifacts_views o l :
  spec at_d (artifact_ctl.accessory_artifacts sv o l)
    (λ vs d', d' = d ∧ Forall view_in vs ∧ length vs = length l) at_d.
Proof.
  induction l as [|c l IH]; simpl; [apply spec_ret; by intros d' ->|].
  eapply spec_bind; [apply Get_view|]. intros v.
  eapply (spec_bind _ _ (λ vs d', d' = d ∧ view_in v ∧ Forall view_in vs ∧ length vs = length l)).
  - eapply (spec_pre _ (λ d', view_in v ∧ d' = d)); [|naive_solver]. apply spec_pure. intros Hv.
    eapply spec_post; [apply IH|]. naive_solver.
  - intros vs. apply spec_ret. intros d' (-> & Hv & Hvs & Hl). simpl. split_and!; [done|by constructor|lia].
Qed.

Local Notation nA := (size (rows (arts d))).
Local Notation nC := (size (rows (accs d))).

Lemma child_artifacts_views o l :
  Forall view_in l →
  spec at_d (artifact_ctl.child_artifacts sv o l)
    (λ vs d', d' = d ∧ Forall view_in vs ∧ (length vs <= length l * (1 + nC))%nat) at_d.
Proof.
  induction 1 as [|v l Hv _ IH]; simpl; [apply spec_ret; by intros d' ->|].
  eapply spec_bind; [apply accessory_artifacts_views|]. intros cs.
  eapply (spec_bind _ _ (λ vs d', d' = d ∧ (Forall view_in cs ∧ length cs = length (v_Accessories v)) ∧
    Forall view_in vs ∧ (length vs <= length l * (1 + nC))%nat)).
  - eapply (spec_pre _ (λ d', (Forall view_in cs ∧ length cs = length (v_Accessories v)) ∧ d' = d)); [|naive_solver].
    apply spec_pure. intros Hcs. eapply spec_post; [apply IH|]. naive_solver.
  - intros vs. apply spec_ret. intros d' (-> & [Hcs Hlc] & Hvs & Hl). split_and!; [done| |].
    + constructor; [done|]. by apply Forall_app.
    + simpl. rewrite length_app, Hlc. destruct Hv as [_ Hv]. lia.
Qed.

(** The most that one artifact pushes; [k] bounds its own accessories. *)
Definition degree (k : nat) : nat := nA * (1 + nC) + k.

Lemma successors_views o v k :
  (length (v_Accessories v) <= k)%nat →
  spec at_d (artifact_ctl.successors sv o v)
    (λ vs d', d' = d ∧ Forall view_in vs ∧ (length vs <= degree k)%nat) at_d.
Proof.
  intros Hk. unfold artifact_ctl.successors.
  apply (spec_bind _ _ (λ vs d', d' = d ∧ Forall view_in vs ∧ (length vs <= nA * (1 + nC))%nat)).
  - destruct (v_References v) as [|r rs]; [apply spec_ret; intros d' ->; simpl; split_and!; [done..|lia]|].
    eapply spec_bind; [apply List_views|]. intros kids.
    eapply (spec_pre _ (λ d', (Forall view_in kids ∧ (length kids <= nA)%nat) ∧ d' = d)); [|naive_solver].
    apply spec_pure. intros [Hkids Hlen]. eapply spec_post; [by apply child_artifacts_views|].
    intros vs d' (-> & Hvs & Hl). split_and!; [done|done|].
    etrans; [exact Hl|]. apply Nat.mul_le_mono_r. done.
  - intros kids. eapply (spec_bind _ _ (λ vs d', d' = d ∧ (Forall view_in kids ∧ (length kids <= nA * (1 + nC))%nat) ∧
      Forall view_in vs ∧ length vs = length (v_Accessories v))).
    + eapply (spec_pre _ (λ d', (Forall view_in kids ∧ (length kids <= nA * (1 + nC))%nat) ∧ d' = d)); [|naive_solver].
      apply spec_pure. intros Hkids. eapply spec_post; [apply accessory_artifacts_views|]. naive_solver.
    + intros vs. apply spec_ret. intros d' (-> & [Hkids Hl] & Hvs & Hlv). split_and!; [done|by apply Forall_app|].
      unfold degree. rewrite length_app, Hlv. lia.
Qed.

(** ** The cost of a queue *)

(** [cost n] bounds the steps that an artifact not walked yet causes while [n]
    digests are left to walk. *)
Fixpoint cost (k n : nat) : nat :=
  match n with O => 1 | S n => 1 + degree k * cost k n end.

Lemma cost_mono k n m : (n <= m)%nat → (cost k n <= cost k m)%nat.
Proof.
  assert (Hs : ∀ n, (cost k n <= cost k (S n))%nat).
  { intros x. induction x as [|x IH]; simpl in *; [lia|]. apply le_n_S, Nat.mul_le_mono_l, IH. }
  induction 1 as [|m _ IH]; [done|]. etrans; [exact IH|apply Hs].
Qed.

(** The digests that an artifact of the database, or the root, can have. *)
Definition universe (root : ArtView) : list string :=
  a_Digest (v_row root) :: (a_Digest <$> (map_to_list (rows (arts d))).*2).

Lemma view_in_universe root v : view_in v → a_Digest (v_row v) ∈ universe root.
Proof.
  intros [[i Hi] _]. right. apply list_elem_of_fmap_2. apply list_elem_of_fmap. exists (i, v_row v).
  split; [done|]. by apply elem_of_map_to_list.
Qed.

Section loop.
Context {S : Type} (walkFn : ArtView → S → M ArtDB (artifact_ctl.walk_result * S)) (o : option Option)
  (root : ArtView).
Let k : nat := Nat.max nC (length (v_Accessories root)).

Definition left (walked : list string) : nat := length (filter (λ g, g ∉ walked) (universe root)).

Definition view_cost (walked : list string) (v : ArtView) : nat :=
  if bool_decide (a_Digest (v_row v) ∈ walked) then cost k (1 + left walked) else cost k (left walked).
Definition queue_cost (walked : list string) (q : list ArtView) : nat := sum_list_with (view_cost walked) q.

(** A view of the queue: the root or a row. *)
Definition queued (v : ArtView) : Prop :=
  a_Digest (v_row v) ∈ universe root ∧ (length (v_Accessories v) <= k)%nat.

Lemma left_lt walked g : g ∈ universe root → g ∉ walked → (left (g :: walked) < left walked)%nat.
Proof.
  intros Hg Hw. unfold left. apply (length_filter_lt _ _ _ g); [|done|done|].
  - intros y Hy Hin. apply Hy. by right.
  - intros Hn. apply Hn. by left.
Qed.
Lemma left_le walked g : (left (g :: walked) <= left walked)%nat.
Proof. apply length_filter_le. intros y Hy Hin. apply Hy. by right. Qed.

(** Walking an artifact makes none of the others dearer. *)
Lemma view_cost_le walked g v :
  g ∈ universe root → (view_cost (g :: walked) v <= view_cost walked v)%nat.
Proof.
  intros Hg. unfold view_cost. destruct (decide (a_Digest (v_row v) ∈ walked)) as [Hv|Hv].
  - rewrite !bool_decide_true by (done || by right). apply cost_mono. pose proof (left_le walked g). lia.
  - rewrite (bool_decide_false (_ ∈ walked)) by done.
    destruct (decide (a_Digest (v_row v) = g)) as [Heq|Hne].
    + rewrite Heq in *. rewrite bool_decide_true by constructor. apply cost_mono. pose proof (left_lt walked g Hg Hv). lia.
    + rewrite bool_decide_false by (intros [?|?]%elem_of_cons; done). apply cost_mono, left_le.
Qed.

Lemma queue_cost_app walked q q' : queue_cost walked (q ++ q') = (queue_cost walked q + queue_cost walked q')%nat.
Proof. apply sum_list_with_app. Qed.

Lemma queue_cost_le walked g q :
  g ∈ universe root → (queue_cost (g :: walked) q <= queue_cost walked q)%nat.
Proof.
  intros Hg. induction q as [|v q IH]; simpl; [done|]. pose proof (view_cost_le walked g v Hg).
  unfold queue_cost in *. lia.
Qed.

(** What is pushed costs less than the artifact that pushes it. *)
Lemma pushed_cost walked v next :
  queued v → (length next <= degree k)%nat →
  let walked' := a_Digest (v_row v) :: walked in
  (1 + queue_cost walked' (artifact_ctl.unwalked walked' next) <= view_cost walked v)%nat.
Proof.
  intros [Hv _] Hl walked'.
  assert (Hsum : (queue_cost walked' (artifact_ctl.unwalked walked' next) <= degree k * cost k (left walked'))%nat).
  { etrans; [|apply Nat.mul_le_mono_r; exact Hl]. clear Hl. unfold artifact_ctl.unwalked, queue_cost.
    induction next as [|x next IH]; simpl; [lia|]. rewrite filter_cons. case_decide as Hx; simpl; [|lia].
    unfold view_cost at 1. rewrite bool_decide_false by done. lia. }
  unfold view_cost. case_bool_decide as Hw.
  - change (cost k (1 + left walked)) with (1 + degree k * cost k (left walked))%nat. apply le_n_S.
    etrans; [exact Hsum|]. apply Nat.mul_le_mono_l, cost_mono, left_le.
  - pose proof (left_lt walked _ Hv Hw) as Hlt. destruct (left walked) as [|n] eqn:E; [lia|].
    simpl. apply le_n_S. etrans; [exact Hsum|]. apply Nat.mul_le_mono_l, cost_mono. subst walked'. lia.
Qed.

Lemma view_cost_pos walked v : (1 <= view_cost walked v)%nat.
Proof. unfold view_cost. destruct (bool_decide _), (left walked); simpl; lia. Qed.

Lemma walk_loop_ends fuel queue walked s w :
  (∀ v s, reads (walkFn v s)) → db w = d → Forall queued queue → (queue_cost walked queue <= fuel)%nat →
  (artifact_ctl.walk_loop sv walkFn o fuel queue walked s w).1 ≠ Ok None.
Proof.
  intros Hfn. revert queue walked s w. induction fuel as [|fuel IH]; intros queue walked s w Hd Hq Hf.
  - destruct queue as [|v q]; [done|]. unfold queue_cost in Hf. simpl in Hf.
    pose proof (view_cost_pos walked v). lia.
  - destruct queue as [|v q]; [done|]. simpl. inversion Hq as [|?? Hv Hqs]; subst.
    destruct ((walkFn v s ≫= _) w) as [r0 w0] eqn:H0. cbn [fst].
    apply bind_cases in H0 as [(e & _ & ->)|([res s'] & w2 & H2 & H0)]; [done|].
    assert (Hd2 : db w2 = d) by (rewrite <- Hd; symmetry; exact (Hfn v s _ _ _ H2)). change r0 with (r0, w0).1. rewrite <- H0.
    clear H0 H2. destruct res.
    + destruct ((artifact_ctl.successors sv o v ≫= _) w2) as [r w'] eqn:H. cbn [fst].
      apply bind_cases in H as [(e & _ & ->)|(next & w1 & H1 & H)]; [done|].
      destruct (successors_views o v k (proj2 Hv) _ _ _ Hd2 H1) as (Hd1 & Hnext & Hlen).
      pose proof (IH (q ++ artifact_ctl.unwalked (a_Digest (v_row v) :: walked) next)
        (a_Digest (v_row v) :: walked) s' w1 Hd1) as Hr. rewrite H in Hr. apply Hr.
      * apply Forall_app. split; [done|]. unfold artifact_ctl.unwalked. apply Forall_forall.
        intros x [_ Hx]%list_elem_of_filter. rewrite Forall_forall in Hnext. specialize (Hnext x Hx).
        split; [by apply view_in_universe|]. destruct Hnext as [_ Hnext]. unfold k. lia.
      * rewrite queue_cost_app. pose proof (pushed_cost walked v next Hv Hlen) as Hp. simpl in Hp.
        pose proof (queue_cost_le walked _ q (proj1 Hv)). unfold queue_cost in *. simpl in Hf. lia.
    + done.
    + apply IH; [done|done|]. pose proof (queue_cost_le walked _ q (proj1 Hv)). unfold queue_cost in *. simpl in Hf.
      pose proof (view_cost_pos walked v). lia.
Qed.

End loop.
End walk.

(** Enough steps for the walk from [root]. *)
Definition walk_bound (d : ArtDB) (root : ArtView) : nat :=
  cost d (Nat.max (size (rows (accs d))) (length (v_Accessories root))) (1 + size (rows (arts d))).

(** Further property (walking ends): [Walk] comes back on every database and for every root,
    whatever the walk function answers from what it reads, also when references and
    accessories form cycles and an artifact is pushed many times. *)
Theorem Walk_terminates sv {S} (walkFn : ArtView → S → M ArtDB (artifact_ctl.walk_result * S)) o root s w fuel :
  (∀ v s, reads (walkFn v s)) → (walk_bound (db w) root <= fuel)%nat →
  (artifact_ctl.Walk sv walkFn o fuel root s w).1 ≠ Ok None.
Proof.
  intros Hfn Hf. unfold artifact_ctl.Walk. apply (walk_loop_ends sv (db w) walkFn o root); [done|done| |].
  - apply Forall_singleton. split; [left|lia].
  - unfold queue_cost. cbn [sum_list_with]. rewrite Nat.add_0_r. etrans; [|exact Hf]. unfold view_cost.
    rewrite bool_decide_false by apply not_elem_of_nil. apply cost_mono. unfold left.
    etrans; [apply length_filter|]. simpl. by rewrite !length_fmap, length_map_to_list.
Qed.

Definition ex_root : ArtView :=
  match (artifact_ctl.Get ex_sv 3 artifact_ctl.delete_option (mkWorld ex_db true [])).1 with
  | Ok v => v
  | Err _ => mkArtView (mkArtifactRefs (mkArtifact 0 "" "" "" 0 0 "" "" 0 "" 0 None "" "") []) [] [] []
  end.
Definition ex_visit (v : ArtView) (l : list string) : M ArtDB (artifact_ctl.walk_result * list string) :=
  mret (artifact_ctl.WalkOn, l ++ [a_Digest (v_row v)]).

Lemma Walk_terminates_witness :
  (artifact_ctl.Walk ex_sv ex_visit None 121 ex_root [] (mkWorld ex_db true [])).1 ≠ Ok None ∧
  (artifact_ctl.Walk ex_sv ex_visit None 121 ex_root [] (mkWorld ex_db true [])).1
    = Ok (Some ["sha256:i"; "sha256:b"; "sha256:a"]%string).
Proof.
  split; [|vm_compute; reflexivity].
  apply (Walk_terminates ex_sv ex_visit None ex_root [] (mkWorld ex_db true []) 121).
  { intros v s w r w' [= _ <-]. done. }
  assert (He : walk_bound ex_db ex_root = 121%nat) by (vm_compute; reflexivity).
  cbn [db]. rewrite He. lia.
Defined.

(** ** Deleting a repository *)

Section livelock.
Context (sv : Services).

Lemma delete_pass_stuck fuel d l :
  Forall (λ v, referenced_child d (a_ID (v_row v))) l →
  repo_ctl.delete_pass sv fuel l (mkWorld d true []) = (Ok (Some l), mkWorld d true []).
Proof.
  induction 1 as [|v l Hv _ IH]; [done|]. simpl.
  unfold artifact_mgr.ListReferences, artifact_dao.ListReferences, FromContext. mrun.
  unfold referenced_child in Hv. rewrite bool_decide_false by done. simpl.
  unfold fbind. by rewrite bind_eq, IH.
Qed.

(** C40 (repository deletion can run forever): artifacts that others refer to are
    put aside for the next round.  When every listed artifact has a parent, and a
    parent that is an accessory is not listed, no round makes progress: for every
    number of rounds the loop is still running and nothing has changed.  An index
    pushed under the tag of a signature of one of its own entries produces such a
    repository. *)
Theorem repository_delete_livelock id d v l fuel passes :
  artifact_ctl.List sv (repo_ctl.in_repository id) None (mkWorld d true []) = (Ok (v :: l), mkWorld d true []) →
  Forall (λ v, referenced_child d (a_ID (v_row v))) (v :: l) →
  repo_ctl.Delete sv fuel passes id (mkWorld d true []) = (Ok None, mkWorld d true []).
Proof.
  intros Hl Hall. unfold repo_ctl.Delete. rewrite bind_eq, Hl. unfold fbind at 1. rewrite bind_eq.
  enough (repo_ctl.delete_passes sv fuel passes (v :: l) (mkWorld d true []) = (Ok None, mkWorld d true [])) as ->
    by done.
  induction passes as [|passes IH]; [done|]. cbn [repo_ctl.delete_passes]. unfold fbind.
  by rewrite bind_eq, delete_pass_stuck.
Qed.

End livelock.

(** An image, and an index that lists it and is its signature. *)
Definition ex_hex : string := "aaaaaaaaaaaaaaaaaaaaaaaaaaaaaaaaaaaaaaaaaaaaaaaaaaaaaaaaaaaaaaaa".
Definition ex_sv2 : Services := {|
  doublestar_Match := doublestar_Match ex_sv; immutable_rules := immutable_rules ex_sv;
  GetCheckerByRepo := GetCheckerByRepo ex_sv; digest_Parse := digest_Parse ex_sv;
  PullManifest := λ _ g, Ok (if bool_decide (g = "sha256:i"%string) then ex_index [("sha256:" +:+ ex_hex)%string]
                             else ex_manifest);
  regCli_Copy := regCli_Copy ex_sv; proc_AbstractMetadata := proc_AbstractMetadata ex_sv;
  proc_GetArtifactType := proc_GetArtifactType ex_sv; proMgr_Get := proMgr_Get ex_sv |}.
Definition ex_tag : string := "sha256-" +:+ ex_hex +:+ ".sig".
Definition ex_pushes2 : list op :=
  [PutManifest "library/app" "v1" (Some ("sha256:" +:+ ex_hex)%string);
   PutManifest "library/app" ex_tag (Some "sha256:i");
   Signature "library/app" ex_tag (handlers.mkPushed "sha256:i" 50 [(handlers.mediaTypeCosignLayer, ∅)] ∅)]%string.
Definition ex_db2 : ArtDB :=
  fold_left (λ d o, db (run ex_sv2 o (mkWorld d true [])).2) ex_pushes2 (initial ex_blobs).

Lemma ex_db2_reachable : rtc (step ex_sv2) (initial ex_blobs) ex_db2.
Proof.
  unfold ex_db2. generalize ex_pushes2, (initial ex_blobs). induction l as [|o ops IH]; intros d; simpl; [done|].
  eapply rtc_l; [|apply IH]. destruct (run ex_sv2 o (mkWorld d true [])) as [r w] eqn:E. by eapply step_op.
Qed.

Definition ex_candidates : list ArtView :=
  option_or (artifact_ctl.List ex_sv2 (repo_ctl.in_repository 1) None (mkWorld ex_db2 true [])).1 [].
Definition ex_candidate : ArtView := default ex_root (head ex_candidates).
#[local] Opaque ex_db2.

Lemma repository_delete_livelock_witness :
  rtc (step ex_sv2) (initial ex_blobs) ex_db2 ∧
  repo_ctl.Delete ex_sv2 10 1000 1 (mkWorld ex_db2 true []) = (Ok None, mkWorld ex_db2 true []).
Proof.
  split; [apply ex_db2_reachable|].
  apply (repository_delete_livelock ex_sv2 1 ex_db2 ex_candidate [] 10 1000).
  - vm_compute. reflexivity.
  - constructor; [|constructor]. unfold referenced_child. vm_compute. discriminate.
Defined.

(** ** Copying an artifact *)

Section copy.
Context (sv : Services) (src dst gX gP : string) (d : ArtDB).
Local Notation w := (mkWorld d true []).
Local Notation opt isAcc := (Some (mkOption true None false (negb isAcc))).

(** [gX] has the accessory [gP], whose first reference is [gX] again; neither is
    in the destination yet. *)
Record entangled (vX vP : ArtView) (eX eP : error) (c : Accessory) (cs : list Accessory)
    (r : Reference) (rs : list Reference) : Prop := mk_entangled {
  en_X : artifact_ctl.GetByReference sv src gX (opt false) w = (Ok vX, w);
  en_P : artifact_ctl.GetByReference sv src gP (opt true) w = (Ok vP, w);
  en_gX : a_Digest (v_row vX) = gX;
  en_gP : a_Digest (v_row vP) = gP;
  en_dX : artifact_ctl.GetByReference sv dst gX (opt false) w = (Err eX, w);
  en_dP : artifact_ctl.GetByReference sv dst gP (opt true) w = (Err eP, w);
  en_eX : IsErr eX NotFoundCode = true;
  en_eP : IsErr eP NotFoundCode = true;
  en_refsX : v_References vX = [];
  en_accsX : v_Accessories vX = c :: cs;
  en_c : c_Digest c = gP;
  en_refsP : v_References vP = r :: rs;
  en_r : r_ChildDigest r = gX;
}.

Lemma copyDeeply_entangled vX vP eX eP c cs r rs n :
  entangled vX vP eX eP c cs r rs →
  (∀ isRoot accs, artifact_ctl.copyDeeply sv n src dst gX isRoot false accs w = (Ok None, w)) ∧
  (∀ accs, artifact_ctl.copyDeeply sv n src dst gP false true accs w = (Ok None, w)).
Proof.
  intros []. induction n as [|n [IHX IHP]]; [done|]. split.
  - intros isRoot accs. cbn [artifact_ctl.copyDeeply]. rewrite bind_eq, en_X0. cbv zeta. rewrite en_gX0.
    rewrite bind_eq. unfold try. rewrite en_dX0. simpl. rewrite en_eX0. simpl.
    rewrite en_refsX0, en_accsX0. simpl. unfold fbind, mret, M_ret. rewrite !bind_eq.
    rewrite en_c0. by rewrite IHP.
  - intros accs. cbn [artifact_ctl.copyDeeply]. rewrite bind_eq, en_P0. cbv zeta. rewrite en_gP0.
    rewrite bind_eq. unfold try. rewrite en_dP0. simpl. rewrite en_eP0. simpl.
    rewrite en_refsP0. simpl. unfold fbind. rewrite !bind_eq. rewrite en_r0. by rewrite IHX.
Qed.

(** Further property (copying can recurse forever): when an accessory of an artifact refers to
    the artifact itself, [Copy] descends from the one into the other at every
    depth and never returns. *)
Theorem copy_never_returns vX vP eX eP c cs r rs n :
  entangled vX vP eX eP c cs r rs →
  artifact_ctl.Copy sv n src gX dst w = (Ok None, w).
Proof.
  intros H. unfold artifact_ctl.Copy, fbind. rewrite bind_eq.
  by rewrite (proj1 (copyDeeply_entangled _ _ _ _ _ _ _ _ n H)).
Qed.

End copy.

Definition ex_db3 : ArtDB := db (run ex_sv2 (EnsureRepository "library/copy") (mkWorld ex_db2 true [])).2.
Definition ex_get (id : Z) (acc : bool) : ArtView :=
  option_or (artifact_ctl.Get ex_sv2 id (Some (mkOption true None false acc)) (mkWorld ex_db3 true [])).1 ex_root.
Definition ex_missing (g : string) : error :=
  WithMessage (WithCode (New EmptyString) NotFoundCode) ("artifact library/copy@" +:+ g +:+ " not found").

Lemma copy_never_returns_witness :
  rtc (step ex_sv2) ex_db2 ex_db3 ∧
  artifact_ctl.Copy ex_sv2 1000 "library/app" ("sha256:" +:+ ex_hex) "library/copy" (mkWorld ex_db3 true [])
    = (Ok None, mkWorld ex_db3 true []).
Proof.
  split.
  { apply rtc_once. apply (step_op ex_sv2 (EnsureRepository "library/copy") ex_db2 true []
      (Ok tt)). vm_compute. reflexivity. }
  apply (copy_never_returns ex_sv2 "library/app" "library/copy" ("sha256:" +:+ ex_hex) "sha256:i" ex_db3
    (ex_get 1 true) (ex_get 2 false) (ex_missing ("sha256:" +:+ ex_hex)) (ex_missing "sha256:i")
    (mkAccessory 1 2 1 TypeCosignSignature 50 "sha256:i") []
    (mkReference 1 2 1 ("sha256:" +:+ ex_hex) "" "" "") []).
  split; vm_compute; reflexivity.
Defined.
