(* ===== verification/Listing.v ===== *)
(** * Listing repositories and tags of the registry API

    [src/server/registry/catalog.go], [tag.go] and [util/util.go]: the pages of
    a listing and the link to the next one.  [src/lib/link.go] and
    [src/pkg/registry/client.go]: the client that follows the links, which
    replication uses towards another Harbor.  A panic of the code is the error
    [Panic]. *)

From S2P Require Import Prelude GoErrors GoStrings GoUrl Orm Table Hoare ArtifactStore ArtifactCtl ArtifactInv.
From Stdlib Require Import Ascii.
From stdpp Require Import sorting.
Local Open Scope Z_scope.
Local Open Scope harbor_scope.

(** ** URLs and slices *)

(** A URL as a server sees it; the path is kept in its escaped form. *)
Record URL := mkURL { u_Path : string; u_RawQuery : string }.

Definition URL_String (u : URL) : string :=
  if u_RawQuery u == EmptyString then u_Path u else u_Path u +:+ "?" +:+ u_RawQuery u.

Definition url_Parse (s : string) : URL :=
  let '(s, _, _) := Cut s "#" in let '(p, r, _) := Cut s "?" in mkURL p r.

(** [l[i:j]] of a slice of which nothing lies beyond its length. *)
Definition slice {A} (l : list A) (i j : Z) : result (list A) :=
  if (0 <=? i) && (i <=? j) && (j <=? Z.of_nat (length l))
  then Ok (take (Z.to_nat (j - i)) (drop (Z.to_nat i) l))
  else Err (Panic "slice bounds out of range").

Definition sort_Strings : list string → list string := merge_sort String.le.

Definition nth_string (l : list string) (i : nat) : string := default EmptyString (l !! i).

(** ** [util.go] *)

Definition SetLinkHeader (origURL : URL) (n : Z) (last : string) : string :=
  let v := Values_Set (Values_Set ∅ "n" (pretty n)) "last" last in
  "<" +:+ URL_String (mkURL (u_Path origURL) (Encode v)) +:+ ">; rel=" +:+ String dquote ("next" +:+ String dquote EmptyString).

Fixpoint StringsAreSorted (l : list string) : bool :=
  match l with
  | x :: (y :: _) as l => negb (String.ltb y x) && StringsAreSorted l
  | _ => true
  end.

Definition IndexString (strs : list string) (x : string) : Z :=
  let strs := if StringsAreSorted strs then strs else sort_Strings strs in
  let i := sort_Search (length strs) (λ i, String.leb x (nth_string strs i)) in
  if bool_decide (i < length strs)%nat && (nth_string strs i == x) then Z.of_nat i else -1.

Definition bad_n : error :=
  WithMessage (WithCode (New EmptyString) BadRequestCode) "the N must be a positive int type".

Definition ParseNAndLastParameters (u : URL) : result (option Z * string) :=
  let q := URL_Query (u_RawQuery u) in
  if Values_Get q "n" == EmptyString then Ok (None, Values_Get q "last")
  else
    match ParseInt (Values_Get q "n") with
    | Some value => if value <? 0 then Err bad_n else Ok (Some value, Values_Get q "last")
    | None => Err bad_n
    end.

(** The loop that moves the first of equal neighbours to the front, in place:
    [k] turns from the indices [i] and [j]. *)
Fixpoint compact (k i j : nat) (items : list string) : list string * nat :=
  match k with
  | O => (items, j)
  | S k =>
      if nth_string items i == nth_string items (i - 1)
      then compact k (S i) j items
      else compact k (S i) (S j) (<[j := nth_string items i]> items)
  end.

Definition sortedAndUniqueItems (items : list string) : list string :=
  let n := length items in
  if (n <=? 1)%nat then items
  else let '(items, j) := compact (n - 1) 1 1 (sort_Strings items) in take j items.

Definition pickItems (items : list string) (n : option Z) (last_ : string) : result (list string * string) :=
  if bool_decide (items = []) || bool_decide (n = Some 0) then Ok ([], EmptyString)
  else
    let len := Z.of_nat (length items) in
    let n := default len n in
    let i := if last_ == EmptyString then 0
             else Z.of_nat (sort_Search (length items) (λ ix, String.ltb last_ (nth_string items ix))) in
    let j := wrap64 (i + n) in
    let j := if len <=? j then len else j in
    match slice items i j with
    | Err e => Err e
    | Ok result =>
        match last result with
        | Some x => Ok (result, if default EmptyString (last items) == x then EmptyString else x)
        | None => Ok (result, EmptyString)
        end
    end.

(** A response: the entries of the body and the [Link] header, empty when there is none. *)
Record Page := mkPage { pg_Items : list string; pg_Link : string }.

Definition SendListTagsResponse (u : URL) (tags : list string) : result Page :=
  match ParseNAndLastParameters u with
  | Err e => Err e
  | Ok (n, last) =>
      match pickItems (sortedAndUniqueItems tags) n last with
      | Err e => Err e
      | Ok (items, nextLast) =>
          Ok (mkPage items
                match n with
                | Some n => if nextLast == EmptyString then EmptyString else SetLinkHeader u n nextLast
                | None => EmptyString
                end)
      end
  end.

(** ** [catalog.go], [tag.go] *)

(** The entries after the one named by [last], at most [maxEntries]. *)
Definition catalog_page (repoNames : list string) (maxEntries : Z) (lastEntry : string)
  : result (list string * Z) :=
  let repoNamesLen := Z.of_nat (length repoNames) in
  if negb (lastEntry == EmptyString)
  then
    let lastEntryIndex := IndexString repoNames lastEntry in
    if lastEntryIndex =? -1
    then Err (WithMessage (WithCode (New EmptyString) BadRequestCode)
                ("the last: " +:+ lastEntry +:+ " should be a valid repository name."))
    else
      let upper := wrap64 (wrap64 (lastEntryIndex + 1) + maxEntries) in
      match slice repoNames (lastEntryIndex + 1) (if repoNamesLen <? upper then repoNamesLen else upper) with
      | Ok l => Ok (l, maxEntries)
      | Err e => Err e
      end
  else
    let maxEntries := if repoNamesLen <? maxEntries then repoNamesLen else maxEntries in
    match slice repoNames 0 maxEntries with Ok l => Ok (l, maxEntries) | Err e => Err e end.

Definition catalog_ServeHTTP (u : URL) : M ArtDB Page :=
  let reqQ := URL_Query (u_RawQuery u) in
  let lastEntry := Values_Get reqQ "last" in
  let withN := negb (Values_Get reqQ "n" == EmptyString) in
  maxEntries ← (if withN
                then match ParseInt (Values_Get reqQ "n") with
                     | Some n => if n <? 0 then fail bad_n else mret n
                     | None => fail bad_n
                     end
                else mret 0);
  repoRecords ← repo_mgr.NonEmptyRepos;
  if bool_decide (repoRecords = []) then mret (mkPage [] EmptyString)
  else
    let repoNames := sort_Strings (p_Name <$> repoRecords) in
    if negb withN then mret (mkPage repoNames EmptyString)
    else
      '(resRepos, maxEntries) ← of_result (catalog_page repoNames maxEntries lastEntry);
      match last resRepos with
      | None => mret (mkPage resRepos EmptyString)
      | Some x =>
          mret (mkPage resRepos
                  (if default EmptyString (last repoNames) == x then EmptyString
                   else SetLinkHeader u maxEntries x))
      end.

Definition tag_ServeHTTP (sv : Services) (u : URL) (splat : string) : M ArtDB Page :=
  '(n, _) ← of_result (ParseNAndLastParameters u);
  if bool_decide (n = Some 0) then of_result (SendListTagsResponse u [])
  else
    repository ← repo_mgr.GetByName splat;
    tags ← tag_ctl.List sv (λ t, t_RepositoryID t = p_RepositoryID repository) None;
    of_result (SendListTagsResponse u ((λ t, t_Name (tv_Tag t)) <$> tags)).

(** ** [link.go]: reading a [Link] header *)

Record Link := mkLink { lk_URL : string; lk_Rel : string; lk_Attrs : gmap string string }.

Definition parse_attr (link : Link) (attr : string) : Link :=
  let attr := TrimSpace attr in
  match attr with
  | EmptyString => link
  | String c rest =>
      if bool_decide (c = "<"%char) && bool_decide (last_char attr = Some ">"%char)
      then mkLink (but_last rest) (lk_Rel link) (lk_Attrs link)
      else
        let '(key, v, _) := Cut attr "=" in
        let value := Trim v (λ c, bool_decide (c = dquote)) in
        if key == "rel" then mkLink (lk_URL link) value (lk_Attrs link)
        else mkLink (lk_URL link) (lk_Rel link) (<[key := value]> (lk_Attrs link))
  end.

Definition ParseLinks (str : string) : list Link :=
  filter (λ l, lk_URL l ≠ EmptyString)
    ((λ lk, foldl parse_attr (mkLink EmptyString EmptyString ∅) (Split lk ";")) <$> Split str ",").

(** ** [client.go]: the client that follows the links *)

Definition next (link : string) : string :=
  match filter (λ l, lk_Rel l = "next") (ParseLinks link) with l :: _ => lk_URL l | [] => EmptyString end.

Section client.
Context {D : Type} (get : string → M D Page).

(** [client.catalog], [client.listTags]: one request. *)
Definition get_page (url : string) : M D (list string * string) :=
  p ← get url; mret (pg_Items p, next (pg_Link p)).

(** The loop of [Catalog] and of [ListTags]; [None] when [fuel] requests are not enough. *)
Fixpoint get_pages (fuel : nat) (endpoint url : string) (acc : list string) : M D (option (list string)) :=
  match fuel with
  | O => mret None
  | S fuel =>
      '(items, next) ← get_page url;
      let acc := acc ++ items in
      if next == EmptyString then mret (Some acc)
      else get_pages fuel endpoint (if Contains next "://" then next else endpoint +:+ next) acc
  end.

Definition buildCatalogURL (endpoint : string) : string := endpoint +:+ "/v2/_catalog?n=1000".
Definition buildTagListURL (endpoint repository : string) : string :=
  endpoint +:+ "/v2/" +:+ repository +:+ "/tags/list".

Definition Catalog (fuel : nat) (endpoint : string) : M D (option (list string)) :=
  get_pages fuel endpoint (buildCatalogURL endpoint) [].

Definition ListTags (fuel : nat) (endpoint repository : string) : M D (option (list string)) :=
  get_pages fuel endpoint (buildTagListURL endpoint repository) [].
End client.
