(* ===== verification/ListingSpec.v ===== *)
(** * What a client sees of a listing

    The pages cut a sorted list without repetition: [sortedAndUniqueItems] and
    [pickItems] against plain definitions, the link of a page read back by the
    client, and the client against the handlers of this registry. *)

From S2P Require Import Prelude GoErrors GoStrings GoUrl Orm Table Hoare ArtifactStore ArtifactCtl ArtifactInv ArtifactSpec Listing.
From Stdlib Require Import Ascii.
From stdpp Require Import sorting.
Local Open Scope Z_scope.
Local Open Scope harbor_scope.

(** ** The order of strings *)

Lemma ltb_negb_leb x y : String.ltb x y = negb (String.leb y x).
Proof.
  unfold String.ltb, String.leb. rewrite (String.compare_antisym x y). by destruct (String.compare y x).
Qed.

Lemma leb_le x y : String.leb x y = true ↔ String.le x y.
Proof. unfold String.le. by rewrite Is_true_true. Qed.

Lemma ltb_lt x y : String.ltb x y = true ↔ ¬ String.le y x.
Proof. rewrite ltb_negb_leb, <- leb_le. by destruct (String.leb y x). Qed.

Lemma sort_sorted l : StronglySorted String.le (sort_Strings l).
Proof. apply StronglySorted_merge_sort; apply _. Qed.

Lemma sort_perm l : sort_Strings l ≡ₚ l.
Proof. apply merge_sort_Permutation. Qed.

Lemma sort_id l : StronglySorted String.le l → sort_Strings l = l.
Proof.
  intros H. apply (StronglySorted_unique String.le); [apply sort_sorted|done|apply sort_perm].
Qed.

Lemma AreSorted_sorted l : StronglySorted String.le l → StringsAreSorted l = true.
Proof.
  induction 1 as [|x l Hs IH Hx]; [done|]. destruct l as [|y l]; [done|].
  change (StringsAreSorted (x :: y :: l)) with (negb (String.ltb y x) && StringsAreSorted (y :: l)).
  rewrite IH, andb_true_r, ltb_negb_leb, negb_involutive. apply leb_le. by apply Forall_cons in Hx as [? _].
Qed.

Lemma sorted_lookup l i j x y :
  StronglySorted String.le l → (i ≤ j)%nat → l !! i = Some x → l !! j = Some y → String.le x y.
Proof.
  intros Hs. revert i j. induction Hs as [|z l Hs IH Hz]; intros i j Hij Hi Hj; [done|].
  destruct i as [|i], j as [|j]; simpl in *; [by simplify_eq| |lia|eapply IH; [|done..]; lia].
  simplify_eq. rewrite Forall_forall in Hz. apply Hz. by eapply list_elem_of_lookup_2.
Qed.

Lemma nth_string_lookup l i x : l !! i = Some x → nth_string l i = x.
Proof. unfold nth_string. by intros ->. Qed.

Lemma nth_string_lt l i : (i < length l)%nat → l !! i = Some (nth_string l i).
Proof. intros [x H]%lookup_lt_is_Some. by rewrite (nth_string_lookup _ _ _ H). Qed.

(** Distinct positions of a sorted list without repetition are ordered strictly. *)
Lemma sorted_lookup_lt l i j x y :
  StronglySorted String.le l → NoDup l → (i < j)%nat → l !! i = Some x → l !! j = Some y → ¬ String.le y x.
Proof.
  intros Hs Hn Hij Hi Hj Hyx. pose proof (sorted_lookup l i j x y Hs ltac:(lia) Hi Hj) as Hxy.
  assert (x = y) as -> by by apply (anti_symm String.le).
  pose proof (NoDup_lookup _ _ _ _ Hn Hi Hj). lia.
Qed.

Lemma search_lt (l : list string) f :
  (∀ a b, (a ≤ b < length l)%nat → f a = true → f b = true) →
  (∀ a, (a < sort_Search (length l) f)%nat → f a = false) ∧
  (∀ a, (sort_Search (length l) f ≤ a < length l)%nat → f a = true) ∧ (sort_Search (length l) f ≤ length l)%nat.
Proof.
  intros Hm. unfold sort_Search. destruct (search_spec (length l) f 0 (length l)) as [H1 H2]; [lia..|done|].
  pose proof (search_bounds (length l) f 0 (length l)). split_and!; [|done|lia]. intros a Ha. apply H1. lia.
Qed.

Lemma IndexString_spec l i x :
  StronglySorted String.le l → NoDup l → l !! i = Some x → IndexString l x = Z.of_nat i.
Proof.
  intros Hs Hn Hi. unfold IndexString. rewrite AreSorted_sorted by done.
  pose proof (lookup_lt_Some _ _ _ Hi) as Hlt.
  destruct (search_lt l (λ i, String.leb x (nth_string l i))) as (H1 & H2 & H3).
  { intros a b Hab. rewrite !leb_le. intros Ha. etrans; [exact Ha|].
    eapply sorted_lookup; [done| |apply nth_string_lt; lia..]. lia. }
  set (s := sort_Search _ _) in *. assert (s = i) as ->.
  { destruct (decide (s ≤ i)%nat).
    - destruct (decide (s = i)); [done|]. exfalso.
      assert (Hs' := H2 s ltac:(lia)). apply leb_le in Hs'.
      eapply sorted_lookup_lt; [done|done| |apply (nth_string_lt l s); lia|exact Hi|done]. lia.
    - exfalso. specialize (H1 i ltac:(lia)). rewrite (nth_string_lookup _ _ _ Hi) in H1.
      enough (String.leb x x = true) by congruence. by apply leb_le. }
  rewrite bool_decide_true by done. by rewrite (nth_string_lookup _ _ _ Hi), bool_decide_true.
Qed.

(** ** One page of the catalog *)

Lemma slice_ok {A} (l : list A) i j :
  0 <= i → i <= j → j <= Z.of_nat (length l) →
  slice l i j = Ok (take (Z.to_nat (j - i)) (drop (Z.to_nat i) l)).
Proof. intros. unfold slice. by rewrite !(proj2 (Z.leb_le _ _)). Qed.

Lemma take_min {A} (l : list A) (n : Z) :
  0 <= n → take (Z.to_nat (if Z.of_nat (length l) <? n then Z.of_nat (length l) else n)) l = take (Z.to_nat n) l.
Proof.
  intros Hn. destruct (Z.ltb_spec (Z.of_nat (length l)) n); [|done]. rewrite !take_ge; [done|lia..].
Qed.

Lemma catalog_page_first names n :
  0 <= n → catalog_page names n EmptyString
    = Ok (take (Z.to_nat n) names, if Z.of_nat (length names) <? n then Z.of_nat (length names) else n).
Proof.
  intros Hn. unfold catalog_page. simpl. rewrite slice_ok.
  - by rewrite Z.sub_0_r, drop_0, take_min.
  - lia.
  - destruct (Z.ltb_spec (Z.of_nat (length names)) n); lia.
  - destruct (Z.ltb_spec (Z.of_nat (length names)) n); lia.
Qed.

Lemma catalog_page_next names n i x :
  StronglySorted String.le names → NoDup names → names !! i = Some x → x ≠ EmptyString → 0 <= n →
  Z.of_nat (length names) + n <= max_int64 →
  catalog_page names n x = Ok (take (Z.to_nat n) (drop (S i) names), n).
Proof.
  intros Hs Hnd Hi Hx Hn Hmax. unfold catalog_page. rewrite bool_decide_false by done. simpl.
  rewrite (IndexString_spec _ i) by done. pose proof (lookup_lt_Some _ _ _ Hi) as Hlt.
  assert ((Z.of_nat i =? -1) = false) as -> by lia.
  assert (min_int64 < 0) by done. rewrite !wrap64_id by (unfold in_int64; rewrite ?wrap64_id by (unfold in_int64; lia); lia).
  set (j := if _ <? _ then _ else _). assert (Z.of_nat i + 1 <= j <= Z.of_nat (length names)
     ∧ take (Z.to_nat (j - (Z.of_nat i + 1))) (drop (S i) names) = take (Z.to_nat n) (drop (S i) names)) as [Hj Ht].
  { subst j. destruct (Z.ltb_spec (Z.of_nat (length names)) (Z.of_nat i + 1 + n)).
    - split; [lia|]. rewrite !take_ge; [done|rewrite length_drop; lia..].
    - split; [lia|]. f_equal. lia. }
  rewrite slice_ok by lia. replace (Z.to_nat (Z.of_nat i + 1)) with (S i) by lia. by rewrite Ht.
Qed.

(** An upper bound that overflows is a slice out of range. *)
Lemma catalog_page_overflow names n i x :
  StronglySorted String.le names → NoDup names → names !! i = Some x → x ≠ EmptyString →
  0 <= n <= max_int64 → max_int64 < Z.of_nat i + 1 + n → Z.of_nat (length names) <= max_int64 →
  catalog_page names n x = Err (Panic "slice bounds out of range").
Proof.
  intros Hs Hnd Hi Hx Hn Hov Hl. unfold catalog_page. rewrite bool_decide_false by done. simpl.
  rewrite (IndexString_spec _ i) by done. pose proof (lookup_lt_Some _ _ _ Hi) as Hlt.
  assert ((Z.of_nat i =? -1) = false) as -> by lia. unfold max_int64 in *.
  rewrite (wrap64_id (Z.of_nat i + 1)) by (unfold in_int64, min_int64, max_int64; lia).
  destruct (wrap64_over (Z.of_nat i + 1 + n)) as [_ Hneg]; [unfold max_int64; lia|].
  rewrite (proj2 (Z.ltb_ge _ _)) by lia. unfold slice. rewrite (proj2 (Z.leb_gt (Z.of_nat i + 1) _)) by lia.
  by rewrite andb_false_r.
Qed.

(** ** The link of a page, read back *)

(** What may occur in a path that a [Link] header carries. *)
Definition link_char (c : ascii) : bool :=
  visible c && negb (bool_decide (c = ","%char)) && negb (bool_decide (c = ";"%char)) &&
  negb (bool_decide (c = ":"%char)) && negb (bool_decide (c = "?"%char)) && negb (bool_decide (c = "#"%char)).

Definition next_values (n : Z) (x : string) : Values := Values_Set (Values_Set ∅ "n" (pretty n)) "last" x.

Definition next_url (path : string) (n : Z) (x : string) : string :=
  path +:+ "?" +:+ Encode (next_values n x).

Lemma escaped_link c : escaped_char c = true → link_char c = true.
Proof. destruct c as [[] [] [] [] [] [] [] []]; vm_compute; congruence. Qed.

Lemma QueryEscape_link s : string_forall link_char (QueryEscape s) = true.
Proof. eapply string_forall_impl; [exact escaped_link|apply QueryEscape_chars]. Qed.

Lemma setting_link kv : string_forall link_char (setting kv) = true.
Proof.
  unfold setting. by rewrite !string_forall_app, !QueryEscape_link.
Qed.

Lemma join_link l : string_forall link_char (join_with "&" (setting <$> l)) = true.
Proof.
  induction l as [|kv l IH]; [done|]. destruct l as [|kv' l]; [apply setting_link|].
  change (join_with "&" (setting <$> kv :: kv' :: l))
    with (setting kv +:+ "&" +:+ join_with "&" (setting <$> kv' :: l)).
  by rewrite !string_forall_app, IH, setting_link.
Qed.

Lemma Encode_nonempty n x : Encode (next_values n x) ≠ EmptyString.
Proof.
  intros H. assert (URL_Query (Encode (next_values n x)) = ∅) as He by (rewrite H; reflexivity).
  rewrite URL_Query_Encode in He; [apply (f_equal (.!! "last")) in He; by vm_compute in He|].
  intros k vs. unfold next_values, Values_Set. rewrite !lookup_insert_Some, lookup_empty.
  by intros [[<- <-]|(_ & [[_ <-]|[_ ?]])].
Qed.

Lemma no_char_forall p c s : p c = false → string_forall p s = true → no_char c s = true.
Proof.
  intros Hc. apply string_forall_impl. intros d Hd. apply negb_true_iff, bool_decide_eq_false_2.
  by intros ->; rewrite Hc in Hd.
Qed.

Lemma link_visible c : link_char c = true → visible c = true.
Proof. unfold link_char. by rewrite !andb_true_iff; intros [[[[[? _] _] _] _] _]. Qed.

Section link.
Context (path : string) (n : Z) (x : string) (Hp : string_forall link_char path = true).

Lemma next_url_no_char c : link_char c = false → c ≠ "?"%char → no_char c (next_url path n x) = true.
Proof.
  intros Hc Hne. unfold next_url. rewrite !no_char_app.
  rewrite (no_char_forall link_char c path Hc Hp), (no_char_forall link_char c (Encode _) Hc (join_link _)).
  unfold no_char. cbn [string_forall]. by rewrite bool_decide_false.
Qed.

Lemma next_url_visible : string_forall visible (next_url path n x) = true.
Proof.
  unfold next_url. rewrite !string_forall_app, (string_forall_impl _ _ path link_visible Hp).
  by rewrite (string_forall_impl _ _ (Encode _) link_visible (join_link _)).
Qed.

Lemma next_url_nonempty : next_url path n x ≠ EmptyString.
Proof. unfold next_url. by destruct path. Qed.

Definition rel_next : string := " rel=" +:+ String dquote ("next" +:+ String dquote EmptyString).

Lemma SetLinkHeader_eq raw :
  SetLinkHeader (mkURL path raw) n x = ("<" +:+ next_url path n x +:+ ">") +:+ String ";" rel_next.
Proof.
  unfold SetLinkHeader, URL_String. cbn [u_Path u_RawQuery]. fold (next_values n x).
  rewrite bool_decide_false by apply Encode_nonempty. fold (next_url path n x).
  rewrite <- !append_assoc. reflexivity.
Qed.

(** The bracketed target becomes the URL of the link. *)
Lemma parse_attr_target t l :
  string_forall visible t = true → parse_attr l ("<" +:+ t +:+ ">") = mkLink t (lk_Rel l) (lk_Attrs l).
Proof.
  intros Hv. unfold parse_attr. rewrite TrimSpace_visible by by rewrite !string_forall_app, Hv.
  change ("<" +:+ t +:+ ">") with (String "<" (t +:+ ">")). cbv iota beta.
  rewrite but_last_snoc, (bool_decide_true (last_char _ = _)); [done|]. exact (last_char_snoc ("<" +:+ t) ">").
Qed.

Lemma next_SetLinkHeader raw : next (SetLinkHeader (mkURL path raw) n x) = next_url path n x.
Proof.
  rewrite SetLinkHeader_eq. unfold next, ParseLinks.
  assert (H : ∀ c, link_char c = false → c ≠ "?"%char → c ≠ "<"%char → c ≠ ">"%char →
    no_char c ("<" +:+ next_url path n x +:+ ">") = true).
  { intros c Hc H1 H2 H3. rewrite !no_char_app, next_url_no_char by done. unfold no_char. cbn [string_forall].
    by rewrite !bool_decide_false by congruence. }
  rewrite Split_one by (rewrite no_char_app, H by done; reflexivity).
  rewrite list_fmap_singleton, Split_app by by apply H.
  change (Split rel_next ";") with [rel_next]. cbn [foldl].
  rewrite (parse_attr_target _ _ next_url_visible). cbn [lk_Rel lk_Attrs].
  change (parse_attr (mkLink (next_url path n x) EmptyString ∅) rel_next) with (mkLink (next_url path n x) "next" ∅).
  rewrite !filter_cons_True; [done|done|]. unfold next_url. by destruct path.
Qed.
End link.

(** ** The client against the catalog of this registry *)

(** The URL of a page reaches the handler with its path and query. *)
Lemma url_Parse_text path raw :
  string_forall link_char path = true → no_char "#" raw = true →
  url_Parse (path +:+ "?" +:+ raw) = mkURL path raw.
Proof.
  intros Hp Hr. unfold url_Parse. assert (Cut_none : ∀ s c, no_char c s = true → Cut s c = (s, EmptyString, false)).
  { intros s c. unfold no_char. induction s as [|d s IH]; [done|]. simpl. rewrite andb_true_iff. intros [H1 H2].
    destruct (bool_decide (d = c)); [done|]. by rewrite IH. }
  rewrite Cut_none by (rewrite !no_char_app, (no_char_forall link_char _ path), Hr by done; done).
  change ("?" +:+ raw) with (String "?" raw). by rewrite Cut_app by by apply (no_char_forall link_char).
Qed.

Lemma url_Parse_next path n x :
  string_forall link_char path = true → url_Parse (next_url path n x) = mkURL path (Encode (next_values n x)).
Proof. intros Hp. apply url_Parse_text; [done|]. apply (no_char_forall link_char); [done|apply join_link]. Qed.

Lemma next_values_back n x : URL_Query (Encode (next_values n x)) = next_values n x.
Proof.
  apply URL_Query_Encode. intros k vs. unfold next_values, Values_Set. rewrite !lookup_insert_Some, lookup_empty.
  by intros [[<- <-]|(_ & [[_ <-]|[_ ?]])].
Qed.

Lemma not_absolute s : no_char ":" s = true → Contains s "://" = false.
Proof.
  unfold no_char. induction s as [|c s IH]; [done|]. cbn [string_forall Contains]. rewrite andb_true_iff. intros [H1 H2].
  rewrite IH, orb_false_r by done. unfold HasPrefix. cbn [String.prefix].
  destruct (ascii_dec ":" c) as [<-|]; [by rewrite bool_decide_true in H1|done].
Qed.

Definition catalog_path : string := "/v2/_catalog".

(** What the transport does: the request reaches the handler when the URL starts with the endpoint. *)
Definition harbor (endpoint url : string) : M ArtDB Page :=
  if HasPrefix url endpoint then catalog_ServeHTTP (url_Parse (TrimPrefix url endpoint))
  else fail (PlainError "no such host").

(** The repositories that hold a tag. *)
Definition tagged_repos (d : ArtDB) : list RepoRecord :=
  select (λ p, select (λ t, t_RepositoryID t = p_RepositoryID p) (tags d) ≠ []) (repos d).

Definition catalog_names (d : ArtDB) : list string := sort_Strings (p_Name <$> tagged_repos d).

(** The last entry of a page is the last of the list exactly when nothing follows the page. *)
Lemma page_last (L : list string) k N :
  NoDup L → (k < length L)%nat → (0 < N)%nat →
  ∃ x, last (take N (drop k L)) = Some x ∧ L !! (k + N `min` (length L - k) - 1)%nat = Some x ∧
    (default EmptyString (last L) == x) = bool_decide (length L ≤ k + N)%nat.
Proof.
  intros Hnd Hk HN. set (i := (k + N `min` (length L - k) - 1)%nat).
  destruct (lookup_lt_is_Some_2 L i) as [x Hx]; [lia|]. exists x.
  destruct (lookup_lt_is_Some_2 L (length L - 1)) as [y Hy]; [lia|].
  assert (last L = Some y) as ->.
  { rewrite last_lookup. by replace (pred (length L)) with (length L - 1)%nat by lia. }
  split_and!; [|done|].
  - rewrite last_lookup, length_take, length_drop, lookup_take_lt, lookup_drop by lia.
    by replace (k + pred (N `min` (length L - k)))%nat with i by lia.
  - apply bool_decide_ext. simpl. split; intros H.
    + subst y. pose proof (NoDup_lookup _ _ _ _ Hnd Hx Hy). lia.
    + replace (length L - 1)%nat with i in Hy by lia. congruence.
Qed.

Section catalog.
Context (endpoint : string) (d : ArtDB).
Hypothesis Hok : art_ok d.
Hypothesis Hnames : Forall (λ s, s ≠ EmptyString) (catalog_names d).
Let w := mkWorld d true [].

Lemma catalog_names_nodup : NoDup (catalog_names d).
Proof.
  unfold catalog_names. rewrite sort_perm. destruct (ok_repos _ Hok) as [Hk _ Hu _].
  apply NoDup_fmap_2_strong; [|by eapply NoDup_select].
  intros x y Hx Hy Hn. unfold tagged_repos in *. apply elem_of_select in Hx as (i & Hi & _), Hy as (j & Hj & _).
  assert (i = j) as -> by (eapply Hu; eauto). by simplify_eq.
Qed.

(** A request with a page size. *)
Lemma catalog_serve path raw n :
  in_int64 n → 0 <= n → Values_Get (URL_Query raw) "n" = pretty n →
  catalog_ServeHTTP (mkURL path raw) w =
    (if bool_decide (catalog_names d = []) then Ok (mkPage [] EmptyString)
     else match catalog_page (catalog_names d) n (Values_Get (URL_Query raw) "last") with
          | Err e => Err e
          | Ok (l, m) =>
              Ok (mkPage l match last l with
                           | None => EmptyString
                           | Some x => if default EmptyString (last (catalog_names d)) == x then EmptyString
                                       else SetLinkHeader (mkURL path raw) m x
                           end)
          end, w).
Proof.
  intros Hn Hpos Hget. unfold catalog_ServeHTTP. cbn [u_RawQuery]. rewrite Hget.
  assert (pretty n ≠ EmptyString) as Hne.
  { intros He. pose proof (ParseInt_pretty n Hn) as Hp. by rewrite He in Hp. }
  rewrite bool_decide_false by done. cbn [negb]. rewrite ParseInt_pretty by done.
  rewrite (proj2 (Z.ltb_ge _ _)) by done. unfold repo_mgr.NonEmptyRepos, FromContext. mrun. fold (tagged_repos d).
  assert (tagged_repos d = [] ↔ catalog_names d = []) as Hnil.
  { rewrite <- (fmap_nil_iff p_Name (tagged_repos d)). unfold catalog_names. split; [by intros ->|].
    intros H. apply Permutation_nil_r. by rewrite <- sort_perm, H. }
  rewrite (bool_decide_ext _ _ Hnil). fold (catalog_names d). case_bool_decide; [done|]. rewrite bind_eq. unfold of_result.
  destruct (catalog_page _ _ _) as [[l m]|e]; [|done]. by destruct (last l).
Qed.

Context (n : Z).
Hypothesis Hn : 0 < n.
Hypothesis Hmax : Z.of_nat (length (catalog_names d)) + n <= max_int64.

Lemma n_int64 : in_int64 n.
Proof. unfold in_int64, min_int64. lia. Qed.

(** The response to a request for the names after the first [k]. *)
Lemma catalog_request k raw :
  (k < length (catalog_names d))%nat → Values_Get (URL_Query raw) "n" = pretty n →
  match k with
  | O => Values_Get (URL_Query raw) "last" = EmptyString
  | S k => catalog_names d !! k = Some (Values_Get (URL_Query raw) "last")
  end →
  ∃ l link, catalog_ServeHTTP (mkURL catalog_path raw) w = (Ok (mkPage l link), w) ∧
    l = take (Z.to_nat n) (drop k (catalog_names d)) ∧
    next link = match catalog_names d !! (k + Z.to_nat n)%nat with
                | Some _ => next_url catalog_path n (nth_string (catalog_names d) (k + Z.to_nat n - 1))
                | None => EmptyString
                end.
Proof.
  intros Hk Hq Hlast. rewrite (catalog_serve _ _ n) by (done || apply n_int64 || lia).
  rewrite bool_decide_false by (intros E; rewrite E in Hk; simpl in Hk; lia).
  destruct (page_last (catalog_names d) k (Z.to_nat n) catalog_names_nodup Hk) as (x & Hx & Hi & He); [lia|].
  assert (∃ m, catalog_page (catalog_names d) n (Values_Get (URL_Query raw) "last")
             = Ok (take (Z.to_nat n) (drop k (catalog_names d)), m)
             ∧ ((k + Z.to_nat n < length (catalog_names d))%nat → m = n)) as (m & -> & Hm).
  { destruct k as [|k].
    - rewrite Hlast, catalog_page_first, drop_0 by lia. eexists. split; [done|]. intros H.
      destruct (Z.ltb_spec (Z.of_nat (length (catalog_names d))) n); lia.
    - rewrite (catalog_page_next _ _ k); [eauto|apply sort_sorted|apply catalog_names_nodup|done| |lia|done].
      apply (Forall_lookup_1 _ _ _ _ Hnames Hlast). }
  rewrite Hx, He. clear He. eexists _, _. split_and!; [done|done|]. case_bool_decide as E.
  - rewrite lookup_ge_None_2 by lia. done.
  - destruct (lookup_lt_is_Some_2 (catalog_names d) (k + Z.to_nat n)) as [y ->]; [lia|].
    rewrite Hm by lia. rewrite next_SetLinkHeader by done. f_equal. symmetry. apply nth_string_lookup.
    by replace (k + Z.to_nat n - 1)%nat with (k + Z.to_nat n `min` (length (catalog_names d) - k) - 1)%nat by lia.
Qed.

Lemma harbor_eq url : harbor endpoint (endpoint +:+ url) = catalog_ServeHTTP (url_Parse url).
Proof. unfold harbor. by rewrite HasPrefix_app, TrimPrefix_app. Qed.

(** From the page after the first [k] names on, the client gets all the others. *)
Lemma get_pages_rest fuel : ∀ k url raw,
  (k < length (catalog_names d))%nat → (length (catalog_names d) - k ≤ fuel)%nat →
  url_Parse url = mkURL catalog_path raw → Values_Get (URL_Query raw) "n" = pretty n →
  match k with
  | O => Values_Get (URL_Query raw) "last" = EmptyString
  | S k => catalog_names d !! k = Some (Values_Get (URL_Query raw) "last")
  end →
  get_pages (harbor endpoint) fuel endpoint (endpoint +:+ url) (take k (catalog_names d)) w
  = (Ok (Some (catalog_names d)), w).
Proof.
  induction fuel as [|fuel IH]; intros k url raw Hk Hf Hurl Hq Hlast; [lia|].
  destruct (catalog_request k raw Hk Hq Hlast) as (l & link & Hserve & -> & Hnext).
  cbn [get_pages]. unfold get_page. rewrite !bind_eq, harbor_eq, Hurl, Hserve. mrun. rewrite Hnext.
  destruct (catalog_names d !! (k + Z.to_nat n)%nat) as [y|] eqn:Ey.
  - assert (Hlt := lookup_lt_Some _ _ _ Ey).
    rewrite bool_decide_false by by apply next_url_nonempty.
    rewrite not_absolute by by apply next_url_no_char. rewrite take_take_drop.
    eapply IH; [done|lia|by apply url_Parse_next|by rewrite next_values_back|].
    rewrite next_values_back. destruct (k + Z.to_nat n)%nat as [|j] eqn:Ej; [lia|].
    rewrite Nat.sub_1_r. simpl. rewrite nth_string_lt by lia. done.
  - apply lookup_ge_None_1 in Ey. rewrite bool_decide_true by done. rewrite mret_eq.
    rewrite take_take_drop, take_ge by lia. done.
Qed.
End catalog.

(** C35 (a client lists every repository): the client of replication that follows
    the links of the catalog of another Harbor, a thousand names at a time, ends
    and gets the name of every repository that holds a tag, each once and in
    order; what it must not meet is a repository without name. *)
Theorem Catalog_complete endpoint d fuel :
  art_ok d → Forall (λ s, s ≠ EmptyString) (catalog_names d) →
  Z.of_nat (length (catalog_names d)) + 1000 <= max_int64 → (length (catalog_names d) < fuel)%nat →
  ∃ l, Catalog (harbor endpoint) fuel endpoint (mkWorld d true []) = (Ok (Some l), mkWorld d true []) ∧
    StronglySorted String.le l ∧ NoDup l ∧
    ∀ s, s ∈ l ↔ ∃ i p j t, rows (repos d) !! i = Some p ∧ p_Name p = s ∧
                   rows (tags d) !! j = Some t ∧ t_RepositoryID t = p_RepositoryID p.
Proof.
  intros Hok Hne Hmax Hf. exists (catalog_names d). split_and!;
    [|apply sort_sorted|by apply catalog_names_nodup|].
  - unfold Catalog. destruct (decide (catalog_names d = [])) as [E|E].
    + destruct fuel as [|fuel]; [lia|]. cbn [get_pages]. unfold get_page, buildCatalogURL.
      rewrite !bind_eq, harbor_eq. change (url_Parse _) with (mkURL catalog_path "n=1000").
      rewrite (catalog_serve d _ _ 1000), bool_decide_true, E by done. done.
    + assert (0 < length (catalog_names d))%nat by (destruct (catalog_names d); simpl; [done|lia]).
      change (@nil string) with (take 0 (catalog_names d)). apply (get_pages_rest endpoint d Hok Hne 1000) with (raw := "n=1000");
        [lia|done|done|lia|done..].
  - intros s. unfold catalog_names. rewrite sort_perm, list_elem_of_fmap. unfold tagged_repos. split.
    + intros (p & -> & Hp). apply elem_of_select in Hp as (i & Hi & Hs).
      destruct (select _ (tags d)) as [|t l] eqn:E; [done|].
      assert (t ∈ select (λ t, t_RepositoryID t = p_RepositoryID p) (tags d)) as Ht by (rewrite E; left).
      apply elem_of_select in Ht as (j & Hj & Ht). naive_solver.
    + intros (i & p & j & t & Hi & <- & Hj & Ht). exists p. split; [done|]. apply elem_of_select. exists i.
      split; [done|]. rewrite select_nil. intros H. exact (H _ _ Hj Ht).
Qed.

Lemma Catalog_complete_witness :
  catalog_names ex_db = ["library/app"%string] ∧
  ∃ l, Catalog (harbor "https://hub") 2 "https://hub" (mkWorld ex_db true []) = (Ok (Some l), mkWorld ex_db true []) ∧
    "library/app" ∈ l.
Proof.
  assert (catalog_names ex_db = ["library/app"%string]) as Hn by (vm_compute; reflexivity).
  split; [exact Hn|].
  destruct (Catalog_complete "https://hub" ex_db 2 ex_art_db_ok) as (l & Hl & _ & _ & _).
  - rewrite Hn. by constructor.
  - rewrite Hn. vm_compute. discriminate.
  - rewrite Hn. simpl. lia.
  - exists l. split; [exact Hl|]. vm_compute in Hl. injection Hl as <-. left.
Defined.

(** ** Tags: sorting and removing repetitions in place *)

(** Of equal neighbours, one is kept. *)
Fixpoint uniq (l : list string) : list string :=
  match l with
  | x :: (y :: _) as l' => if x == y then uniq l' else x :: uniq l'
  | _ => l
  end.

Lemma uniq_snoc l x y : last l = Some x → uniq (l ++ [y]) = if x == y then uniq l else uniq l ++ [y].
Proof.
  induction l as [|a l IH]; [done|]. destruct l as [|b l].
  - intros [= ->]. simpl. by case_bool_decide as E; [rewrite E|].
  - intros Hl. specialize (IH Hl). change ((a :: b :: l) ++ [y]) with (a :: b :: (l ++ [y])).
    change (uniq (a :: b :: (l ++ [y]))) with (if a == b then uniq ((b :: l) ++ [y]) else a :: uniq ((b :: l) ++ [y])).
    change (uniq (a :: b :: l)) with (if a == b then uniq (b :: l) else a :: uniq (b :: l)). rewrite IH.
    by destruct (a == b), (x == y).
Qed.

Lemma elem_of_uniq x l : x ∈ uniq l ↔ x ∈ l.
Proof.
  induction l as [|a l IH]; [done|]. destruct l as [|b l]; [done|].
  change (uniq (a :: b :: l)) with (if a == b then uniq (b :: l) else a :: uniq (b :: l)).
  case_bool_decide as E; [subst; rewrite IH; set_solver|]. rewrite !(elem_of_cons _ _ a), IH. done.
Qed.

Lemma uniq_sorted l : StronglySorted String.le l → StronglySorted String.le (uniq l) ∧ NoDup (uniq l).
Proof.
  induction 1 as [|a l Hs [IH1 IH2] Ha]; [split; constructor|].
  destruct l as [|b l]; [split; repeat constructor; set_solver|].
  change (uniq (a :: b :: l)) with (if a == b then uniq (b :: l) else a :: uniq (b :: l)).
  case_bool_decide as E; [done|]. split.
  - constructor; [done|]. apply Forall_forall. intros x Hx. rewrite elem_of_uniq in Hx.
    rewrite Forall_forall in Ha. by apply Ha.
  - constructor; [|done]. rewrite elem_of_uniq. intros Hin. apply E, (anti_symm String.le).
    + by apply Forall_cons in Ha as [? _].
    + apply elem_of_cons in Hin as [->|Hin]; [done|]. apply StronglySorted_inv in Hs as [_ Hb].
      rewrite Forall_forall in Hb. by apply Hb.
Qed.

(** The loop in place against [uniq]: what it has not visited is unchanged. *)
Lemma compact_spec L k : ∀ i j cur,
  (1 ≤ j ≤ i)%nat → (i + k = length L)%nat → length cur = length L →
  (∀ p, (i - 1 ≤ p)%nat → cur !! p = L !! p) → take j cur = uniq (take i L) →
  take (compact k i j cur).2 (compact k i j cur).1 = uniq L.
Proof.
  induction k as [|k IH]; intros i j cur Hij Hik Hlen Hrest Htake; simpl.
  - by rewrite Htake, take_ge by lia.
  - destruct (lookup_lt_is_Some_2 L i) as [y Hy]; [lia|]. destruct (lookup_lt_is_Some_2 L (i - 1)) as [x Hx]; [lia|].
    rewrite (nth_string_lookup cur i y), (nth_string_lookup cur (i - 1) x) by (rewrite Hrest by lia; done).
    assert (last (take i L) = Some x) as Hl.
    { rewrite last_lookup, length_take, lookup_take_lt by lia. by replace (pred (i `min` length L)) with (i - 1)%nat by lia. }
    assert (uniq (take (S i) L) = if x == y then uniq (take i L) else uniq (take i L) ++ [y]) as Hu.
    { rewrite (take_S_r _ _ _ Hy). by apply uniq_snoc. }
    destruct (decide (y = x)) as [E|E].
    + subst y. rewrite bool_decide_true in * by done. apply IH; [lia|lia|done| |congruence].
      intros p Hp. apply Hrest. lia.
    + rewrite !bool_decide_false in * by congruence. apply IH; [lia|lia|by rewrite length_insert| |].
      * intros p Hp. destruct (decide (p = j)) as [->|Hne]; [|rewrite list_lookup_insert_ne by lia; apply Hrest; lia].
        assert (j = i) as -> by lia. by rewrite list_lookup_insert_eq by lia.
      * rewrite (take_S_r _ _ y) by (by rewrite list_lookup_insert_eq by lia).
        rewrite take_insert_ge by lia. congruence.
Qed.

(** The names once each, in order. *)
Definition unique_names (l : list string) : list string := sort_Strings (remove_dups l).

Lemma unique_names_nodup l : NoDup (unique_names l).
Proof. unfold unique_names. rewrite sort_perm. apply NoDup_remove_dups. Qed.

Lemma sortedAndUniqueItems_eq items : sortedAndUniqueItems items = unique_names items.
Proof.
  assert (uniq (sort_Strings items) = unique_names items) as Hu.
  { destruct (uniq_sorted _ (sort_sorted items)) as [H1 H2].
    apply (StronglySorted_unique String.le); [done|apply sort_sorted|].
    apply NoDup_Permutation; [done|apply unique_names_nodup|]. intros x. unfold unique_names.
    by rewrite elem_of_uniq, !sort_perm, elem_of_remove_dups. }
  unfold sortedAndUniqueItems. destruct (Nat.leb_spec (length items) 1).
  - destruct items as [|x [|y l]]; [done|done|simpl in *; lia].
  - pose proof (Permutation_length (sort_perm items)) as Hl.
    pose proof (compact_spec (sort_Strings items) (length items - 1) 1 1 (sort_Strings items)) as Hc.
    destruct (compact _ _ _ _) as [items' j]. simpl in Hc. rewrite <- Hu. apply Hc; [lia|lia|done|done|].
    destruct (sort_Strings items) as [|x l]; [simpl in *; lia|]. done.
Qed.

(** ** One page of tags *)

(** The names that follow [last]. *)
Definition after (last_ : string) (names : list string) : list string :=
  if last_ == EmptyString then names else filter (λ x, ¬ String.le x last_) names.

(** The number of names up to [last]. *)
Definition skipped (last_ : string) (names : list string) : Z :=
  Z.of_nat (length names) - Z.of_nat (length (after last_ names)).

Lemma search_after last_ L :
  StronglySorted String.le L →
  let s := sort_Search (length L) (λ ix, String.ltb last_ (nth_string L ix)) in
  (s ≤ length L)%nat ∧ filter (λ x, ¬ String.le x last_) L = drop s L.
Proof.
  intros Hs. simpl. destruct (search_lt L (λ ix, String.ltb last_ (nth_string L ix))) as (H1 & H2 & H3).
  { intros a b Hab. rewrite !ltb_lt. intros Ha Hb. apply Ha. etrans; [|exact Hb].
    eapply sorted_lookup; [done| |apply nth_string_lt; lia..]. lia. }
  set (s := sort_Search _ _) in *. split; [done|].
  rewrite <- (take_drop s L) at 1. rewrite filter_app.
  assert (filter (λ x, ¬ String.le x last_) (take s L) = []) as ->.
  { apply filter_nil_iff, Forall_lookup. intros i x Hi. apply lookup_take_Some in Hi as [Hi Hlt].
    specialize (H1 i Hlt). rewrite (nth_string_lookup _ _ _ Hi) in H1. intros Hn. apply ltb_lt in Hn. congruence. }
  apply filter_all, Forall_lookup. intros i x Hi. rewrite lookup_drop in Hi.
  pose proof (lookup_lt_Some _ _ _ Hi). specialize (H2 (s + i)%nat ltac:(lia)).
  rewrite (nth_string_lookup _ _ _ Hi) in H2. by apply ltb_lt.
Qed.

Lemma after_drop last_ L :
  StronglySorted String.le L → ∃ s, (s ≤ length L)%nat ∧ after last_ L = drop s L ∧
    (if last_ == EmptyString then 0
     else Z.of_nat (sort_Search (length L) (λ ix, String.ltb last_ (nth_string L ix)))) = Z.of_nat s.
Proof.
  intros Hs. unfold after. case_bool_decide; [exists 0%nat; split_and!; [lia|done|done]|].
  destruct (search_after last_ L Hs). eauto.
Qed.

(** The entry to continue from: none when the page reaches the end. *)
Definition next_last (names page : list string) : string :=
  match last page with
  | Some x => if default EmptyString (last names) == x then EmptyString else x
  | None => EmptyString
  end.

Lemma pickItems_spec L n last_ :
  StronglySorted String.le L → 0 < n <= max_int64 → Z.of_nat (length L) <= max_int64 →
  pickItems L (Some n) last_ =
    if max_int64 <? skipped last_ L + n then Err (Panic "slice bounds out of range")
    else Ok (take (Z.to_nat n) (after last_ L), next_last L (take (Z.to_nat n) (after last_ L))).
Proof.
  intros Hs Hn Hlen. unfold pickItems. destruct (after_drop last_ L Hs) as (s & Hsl & Ha & Hi).
  assert (skipped last_ L = Z.of_nat s) as Hsk by (unfold skipped; rewrite Ha, length_drop; lia).
  rewrite Hsk, Ha. rewrite (bool_decide_false (Some n = Some 0)) by (intros [= ->]; lia). rewrite orb_false_r.
  destruct (decide (L = [])) as [E|E].
  { rewrite bool_decide_true by done. subst L. simpl in Hsl. assert (s = 0%nat) as -> by lia. simpl. rewrite (proj2 (Z.ltb_ge _ _)) by lia.
    by rewrite take_nil. }
  rewrite bool_decide_false by done. rewrite Hi. simpl. unfold max_int64 in *. destruct (Z.ltb_spec (2 ^ 63 - 1) (Z.of_nat s + n)) as [Hov|Hok].
  - destruct (wrap64_over (Z.of_nat s + n)) as [_ Hneg]; [unfold max_int64; lia|].
    rewrite (proj2 (Z.leb_gt _ _)) by lia. unfold slice. rewrite (proj2 (Z.leb_gt (Z.of_nat s) _)) by lia.
    by rewrite andb_false_r.
  - rewrite wrap64_id by (unfold in_int64, min_int64, max_int64; lia).
    set (j := if _ <=? _ then _ else _).
    assert (Z.of_nat s <= j <= Z.of_nat (length L) ∧ take (Z.to_nat (j - Z.of_nat s)) (drop s L) = take (Z.to_nat n) (drop s L)) as [Hj Ht].
    { subst j. destruct (Z.leb_spec (Z.of_nat (length L)) (Z.of_nat s + n)).
      - split; [lia|]. rewrite !take_ge; [done|rewrite length_drop; lia..].
      - split; [lia|]. f_equal. lia. }
    rewrite slice_ok by lia. rewrite Nat2Z.id, Ht. unfold next_last. by destruct (last (take _ _)).
Qed.

Section tags.
Context (sv : Services) (d : ArtDB).
Hypothesis Hok : art_ok d.
Let w := mkWorld d true [].

Lemma assembleTags_plain l :
  tag_ctl.assembleTags sv l None w = (Ok ((λ t, mkTagView t false false) <$> l, None), w).
Proof. unfold w. induction l as [|t l IH]; [done|]. simpl. unfold tag_ctl.assembleTag. mrun. by rewrite IH. Qed.

Lemma repo_by_name i p : rows (repos d) !! i = Some p → repo_mgr.GetByName (p_Name p) w = (Ok p, w).
Proof.
  intros Hp. unfold repo_mgr.GetByName, repo_mgr.List, FromContext, w. mrun.
  destruct (order_desc _ _) as [|q l] eqn:E.
  - exfalso. assert (p ∈ select (λ q, p_Name q = p_Name p) (repos d)) as Hin by (apply elem_of_select; eauto).
    rewrite <- (order_desc_perm repo_mgr.GetDefaultSorts), E in Hin. by apply elem_of_nil in Hin.
  - apply head_order_desc in E as (j & Hj & Hn). simpl.
    assert (j = i) as -> by (eapply (tab_unique _ _ _ _ (ok_repos _ Hok)); eauto). by simplify_eq.
Qed.

(** The names of the tags of a repository. *)
Definition tag_names (p : RepoRecord) : list string :=
  t_Name <$> select (λ t, t_RepositoryID t = p_RepositoryID p) (tags d).

Lemma unique_names_perm l l' : l ≡ₚ l' → unique_names l = unique_names l'.
Proof.
  intros H. apply (StronglySorted_unique String.le); [apply sort_sorted..|].
  apply NoDup_Permutation; [apply unique_names_nodup..|]. intros x. unfold unique_names.
  by rewrite !sort_perm, !elem_of_remove_dups, H.
Qed.

(** A page as the handler writes it. *)
Definition tag_page (u : URL) (names : list string) (n : Z) (last_ : string) : Page :=
  let page := take (Z.to_nat n) (after last_ names) in
  mkPage page (if next_last names page == EmptyString then EmptyString else SetLinkHeader u n (next_last names page)).
End tags.

(** Further property (a page of tags): a request for [n] tags after [last] gets the first [n]
    of the names that follow it, of the tags of the repository each once and in
    order, and a link when more follow; when the number of names up to [last]
    and [n] together exceed 64 bits, the handler panics. *)
Theorem tag_listing sv d i p path raw n :
  art_ok d → rows (repos d) !! i = Some p → 0 < n <= max_int64 →
  Z.of_nat (length (unique_names (tag_names d p))) <= max_int64 → Values_Get (URL_Query raw) "n" = pretty n →
  let names := unique_names (tag_names d p) in
  let last_ := Values_Get (URL_Query raw) "last" in
  tag_ServeHTTP sv (mkURL path raw) (p_Name p) (mkWorld d true []) =
    (if max_int64 <? skipped last_ names + n then Err (Panic "slice bounds out of range")
     else Ok (tag_page (mkURL path raw) names n last_), mkWorld d true []).
Proof.
  intros Hok Hp Hn Hlen Hq. cbv zeta. unfold tag_ServeHTTP.
  assert (ParseNAndLastParameters (mkURL path raw) = Ok (Some n, Values_Get (URL_Query raw) "last")) as Hpar.
  { unfold ParseNAndLastParameters. cbn [u_RawQuery]. rewrite Hq.
    assert (in_int64 n) as Hi by (unfold in_int64, min_int64; lia). pose proof (ParseInt_pretty n Hi) as Hp'.
    rewrite bool_decide_false by (intros E; by rewrite E in Hp'). rewrite Hp'.
    by rewrite (proj2 (Z.ltb_ge _ _)) by lia. }
  rewrite bind_eq. unfold of_result at 1. rewrite Hpar. cbv beta iota.
  rewrite (bool_decide_false (Some n = Some 0)) by (intros [= ->]; lia).
  rewrite bind_eq, (repo_by_name d Hok i) by done. rewrite bind_eq. unfold tag_ctl.List, tag_ctl.list_with, tag_dao.List, FromContext. mrun.
  rewrite assembleTags_plain. mrun. unfold of_result, SendListTagsResponse. rewrite Hpar, sortedAndUniqueItems_eq.
  rewrite <- list_fmap_compose. unfold compose. simpl.
  rewrite (unique_names_perm _ (tag_names d p)) by (unfold tag_names; by rewrite (order_desc_perm tag_dao.GetDefaultSorts)).
  rewrite pickItems_spec by (done || apply sort_sorted).
  by destruct (max_int64 <? _).
Qed.

Definition ex_repo : RepoRecord := default (mkRepoRecord 0 EmptyString 0 EmptyString 0 0 0) (rows (repos ex_db) !! 1).

(** The largest page size after the first tag does not fit. *)
Lemma tag_listing_witness :
  unique_names (tag_names ex_db ex_repo) = ["latest"; "v1"]%string ∧
  tag_ServeHTTP ex_sv (mkURL "/v2/library/app/tags/list" "n=1") "library/app" (mkWorld ex_db true [])
  = (Ok (mkPage ["latest"%string] (SetLinkHeader (mkURL "/v2/library/app/tags/list" EmptyString) 1 "latest")), mkWorld ex_db true []) ∧
  tag_ServeHTTP ex_sv (mkURL "/v2/library/app/tags/list" "n=9223372036854775807&last=latest") "library/app" (mkWorld ex_db true [])
  = (Err (Panic "slice bounds out of range"), mkWorld ex_db true []).
Proof.
  assert (unique_names (tag_names ex_db ex_repo) = ["latest"; "v1"]%string) as Hn by (vm_compute; reflexivity).
  split; [exact Hn|]. split.
  - pose proof (tag_listing ex_sv ex_db 1 ex_repo "/v2/library/app/tags/list" "n=1" 1 ex_art_db_ok) as H.
    rewrite Hn in H. cbv zeta in H. etrans.
    + apply H; [vm_compute; reflexivity|vm_compute; split; congruence|vm_compute; discriminate|reflexivity].
    + vm_compute. reflexivity.
  - pose proof (tag_listing ex_sv ex_db 1 ex_repo "/v2/library/app/tags/list" "n=9223372036854775807&last=latest"
      9223372036854775807 ex_art_db_ok) as H.
    rewrite Hn in H. cbv zeta in H. etrans.
    + apply H; [vm_compute; reflexivity|vm_compute; split; congruence|vm_compute; discriminate|vm_compute; reflexivity].
    + rewrite (proj2 (Z.ltb_lt _ _)); [reflexivity|]. vm_compute. reflexivity.
Defined.
