(* ===== verification/Query.v ===== *)
(** * Queries of the API: text, model and database query

    [src/lib/q] parses the [q] and [sort] parameters of a request into a
    [Query]; [src/lib/orm/query.go] and [metadata.go] turn a query into the
    conditions, orders and bounds of a database query over a model;
    [src/server/v2.0/handler/base.go] reads the parameters of a request and
    writes the links to the neighbouring pages.  The ORM's query is the list of
    conditions it was given; a model is described by what reflection sees of
    it. *)

From S2P Require Import Prelude GoErrors GoStrings GoUrl Listing.
From Stdlib Require Import Ascii.
Local Open Scope Z_scope.
Local Open Scope harbor_scope.

(** ** [time.Parse] with the layout [2006-01-02T15:04:05] *)

Record Time := mkTime {
  tm_Year : Z; tm_Month : Z; tm_Day : Z; tm_Hour : Z; tm_Min : Z; tm_Sec : Z; tm_Nsec : Z
}.

#[export] Instance Time_eq_dec : EqDecision Time.
Proof. solve_decision. Defined.

Definition isDigit (s : string) : option Z := match s with String c _ => digit_val c | EmptyString => None end.

(** One or two digits; [fixed] requires two. *)
Definition getnum (s : string) (fixed : bool) : option (Z * string) :=
  match s with
  | EmptyString => None
  | String a s1 =>
      x ← digit_val a;
      match isDigit s1 with
      | Some y => Some (x * 10 + y, drop_chars 1 s1)
      | None => if fixed then None else Some (x, s1)
      end
  end.

Definition skip (s : string) (c : ascii) : option string :=
  match s with String d s => if bool_decide (d = c) then Some s else None | EmptyString => None end.

Definition isLeap (y : Z) : bool := (y mod 4 =? 0) && (negb (y mod 100 =? 0) || (y mod 400 =? 0)).

Definition daysIn (m y : Z) : Z :=
  if m =? 2 then if isLeap y then 29 else 28
  else if (m =? 4) || (m =? 6) || (m =? 9) || (m =? 11) then 30 else 31.

(** The digits at the head and what follows them. *)
Fixpoint span_digits (s : string) : list Z * string :=
  match s with
  | EmptyString => ([], EmptyString)
  | String c s' =>
      match digit_val c with
      | Some d => let '(ds, r) := span_digits s' in (d :: ds, r)
      | None => ([], s)
      end
  end.

(** A fraction of a second may follow although the layout has none; nine digits count. *)
Definition fraction (s : string) : Z * string :=
  match s with
  | String c s' =>
      if (bool_decide (c = "."%char) || bool_decide (c = ","%char)) && bool_decide (is_Some (isDigit s'))
      then let '(ds, r) := span_digits s' in
           let ds := take 9 ds in
           (foldl (λ a d, a * 10 + d) 0 ds * 10 ^ (9 - Z.of_nat (length ds)), r)
      else (0, s)
  | EmptyString => (0, s)
  end.

Definition year (s : string) : option (Z * string) :=
  match s with
  | String a (String b (String c (String d s))) =>
      y ← parse_digits 0 (String a (String b (String c (String d EmptyString)))); Some (y, s)
  | _ => None
  end.

Definition parse_time (value : string) : option Time :=
  '(y, s) ← year value; s ← skip s "-";
  '(mo, s) ← getnum s true; s ← skip s "-";
  '(d, s) ← getnum s true; s ← skip s "T";
  '(h, s) ← getnum s false; s ← skip s ":";
  '(mi, s) ← getnum s true; s ← skip s ":";
  '(sec, s) ← getnum s true;
  let '(nsec, s) := fraction s in
  if (s == EmptyString) && (1 <=? mo) && (mo <=? 12) && (h <? 24) && (mi <? 60) && (sec <? 60)
     && (1 <=? d) && (d <=? daysIn mo y)
  then Some (mkTime y mo d h mi sec nsec) else None.

(** ** [src/lib/q/query.go] *)

(** The dynamic types of a value in a query. *)
Inductive qvalue := VString (s : string) | VInt (i : Z) | VTime (t : Time).

#[export] Instance qvalue_eq_dec : EqDecision qvalue.
Proof. solve_decision. Defined.

Inductive pattern :=
  | Plain (v : qvalue)
  | FuzzyMatchValue (s : string)
  | Range (min max : option qvalue)
  | AndList (values : list qvalue)
  | OrList (values : list qvalue).

Record Sort := mkSort { s_Key : string; s_DESC : bool }.

Record Query := mkQuery {
  Keywords : gmap string pattern;
  Sorts : list Sort;
  PageNumber : Z;
  PageSize : Z;
}.

Definition NewQuery (kw : gmap string pattern) : Query := mkQuery kw [] 0 0.

Definition First (q : Query) (sorting : list Sort) : Query := mkQuery (Keywords q) (Sorts q ++ sorting) 1 1.

(** The sorts are assigned and then appended one by one. *)
Definition MustClone (query : option Query) : Query :=
  match query with
  | None => mkQuery ∅ [] 0 0
  | Some q => mkQuery (Keywords q) (Sorts q ++ Sorts q) (PageNumber q) (PageSize q)
  end.

(** ** [src/lib/q/builder.go] *)

Definition escapeValue (value : string) : string :=
  match value with String c s => if bool_decide (c = "\"%char) then s else value | EmptyString => value end.

Definition quote_char (c : ascii) : bool := bool_decide (c = dquote) || bool_decide (c = "'"%char).

Definition parseValue (value : string) : qvalue :=
  let value := TrimSpace value in
  match parse_time value with
  | Some t => VTime t
  | None => match ParseInt value with Some i => VInt i | None => VString (Trim value quote_char) end
  end.

Definition quoted (s : string) : string := String dquote (s +:+ String dquote EmptyString).

(** [value[1:length-1]] *)
Definition inner (value : string) : result string :=
  match value with
  | String _ (String _ _ as s) => Ok (but_last s)
  | _ => Err (Panic "slice bounds out of range")
  end.

Fixpoint count_char (c : ascii) (s : string) : nat :=
  match s with EmptyString => 0 | String d s => (if bool_decide (d = c) then 1 else 0) + count_char c s end.

Definition fuzzy_msg : string :=
  "fuzzy match value must start with " +:+ quoted "~" +:+ " and contain at least 1 other characters".

Definition parseFuzzyMatchValue (value : string) : result pattern :=
  match value with
  | String c (String _ _ as s) =>
      if bool_decide (c = "~"%char) then Ok (FuzzyMatchValue s)
      else Err (PlainError fuzzy_msg)
  | _ => Err (PlainError fuzzy_msg)
  end.

Definition bound (s : string) : option qvalue := if s == EmptyString then None else Some (parseValue s).

Definition parseRange (value : string) : result pattern :=
  if negb (bool_decide (last_char value = Some "]"%char)) || negb (count_char "~" value =? 1)%nat
  then Err (PlainError ("range must start with " +:+ quoted "[" +:+ ", end with " +:+ quoted "]" +:+ " and contains only one " +:+ quoted "~"))
  else
    match inner value with
    | Err e => Err e
    | Ok s =>
        let '(a, b, _) := Cut s "~" in
        let min := TrimSpace a in
        let max := TrimSpace b in
        if (min == EmptyString) && (max == EmptyString)
        then Err (PlainError "min and max at least one should be set in range'")
        else Ok (Range (bound min) (bound max))
    end.

Definition nonempty_value (v : qvalue) : Prop := v ≠ VString EmptyString.
#[export] Instance nonempty_value_dec v : Decision (nonempty_value v) := decide (v ≠ VString EmptyString).

Definition parseList (value : string) (c : ascii) : result (list qvalue) :=
  if bool_decide (c = "{"%char) && negb (bool_decide (last_char value = Some "}"%char))
  then Err (PlainError ("or list must start with " +:+ quoted "{" +:+ " and end with " +:+ quoted "}"))
  else if bool_decide (c = "("%char) && negb (bool_decide (last_char value = Some ")"%char))
  then Err (PlainError ("and list must start with " +:+ quoted "(" +:+ " and end with " +:+ quoted ")"))
  else
    match inner value with
    | Err e => Err e
    | Ok s => Ok (filter nonempty_value (parseValue <$> Split s " "))
    end.

Definition parseOrList (value : string) : result pattern :=
  match parseList value "{" with Ok l => Ok (OrList l) | Err e => Err e end.

Definition parseAndList (value : string) : result pattern :=
  match parseList value "(" with Ok l => Ok (AndList l) | Err e => Err e end.

Definition parsePattern (value : string) : result pattern :=
  match value with
  | EmptyString => Ok (Plain (VString value))
  | String c _ =>
      if bool_decide (c = "~"%char) then parseFuzzyMatchValue value
      else if bool_decide (c = "["%char) then parseRange value
      else if bool_decide (c = "{"%char) then parseOrList value
      else if bool_decide (c = "("%char) then parseAndList value
      else Ok (Plain (VString (escapeValue value)))
  end.

Definition key_value_msg : string := "the query string must contain " +:+ quoted "=" +:+ " and the key/value cannot be empty".

(** One setting of the query: its key and pattern. *)
Definition parse_param (param : string) : result (string * pattern) :=
  let '(k, v, found) := Cut param "=" in
  if negb found || (k == EmptyString) || (v == EmptyString)
  then Err (WithMessage (WithCode (New EmptyString) BadRequestCode) key_value_msg)
  else
    match parsePattern v with
    | Ok p => Ok (k, p)
    | Err (Panic m) => Err (Panic m)
    | Err _ => Err (WithMessage (WithCode (New EmptyString) BadRequestCode) ("invalid query string value: " +:+ v))
    end.

Fixpoint parse_params (l : list string) (keywords : gmap string pattern) : result (gmap string pattern) :=
  match l with
  | [] => Ok keywords
  | param :: l =>
      match parse_param param with
      | Ok (k, p) => parse_params l (<[k := p]> keywords)
      | Err e => Err e
      end
  end.

Definition parseKeywords (q : string) : result (gmap string pattern) :=
  if q == EmptyString then Ok ∅ else parse_params (Split (default q (QueryUnescape q)) ",") ∅.

Definition parse_sort (sorting : string) : Sort :=
  if HasPrefix sorting "-" then mkSort (TrimPrefix sorting "-") true else mkSort sorting false.

Definition parseSorting (sort : string) : list Sort := parse_sort <$> Split sort ",".

Definition Build (q sort : string) (pageNumber pageSize : Z) : result Query :=
  match parseKeywords q with
  | Err e => Err e
  | Ok keywords => Ok (mkQuery keywords (parseSorting sort) pageNumber pageSize)
  end.

(** ** [src/lib/orm/metadata.go] *)

(** The ORM's query: conditions with their arguments, orders and bounds. *)
Record QuerySeter := mkQuerySeter {
  q_Conds : list (string * list qvalue);
  q_Orders : list string;
  q_Limit : option Z;
  q_Offset : option Z;
}.

Definition qs_Filter (expr : string) (args : list qvalue) (qs : QuerySeter) : QuerySeter :=
  mkQuerySeter (q_Conds qs ++ [(expr, args)]) (q_Orders qs) (q_Limit qs) (q_Offset qs).

Definition filter_func := QuerySeter → string → pattern → QuerySeter.

Record key := mkKey { k_Name : string; k_Filterable : bool; k_FilterFunc : option filter_func; k_Sortable : bool }.

Record metadata := mkMetadata { md_Keys : gmap string key; md_DefaultSorts : list Sort }.

(** A field with its annotations, and a model with its filter methods. *)
Record Field := mkField { f_Name : string; f_orm : string; f_filter : string; f_sort : string }.
Record Model := mkModel {
  m_Fields : list Field; m_Methods : list (string * filter_func); m_GetDefaultSorts : list Sort
}.

Definition Filterable (m : metadata) (k : string) : option key := md_Keys m !! k.

Definition Sortable (m : metadata) (k : string) : bool :=
  match md_Keys m !! k with None => false | Some k => k_Sortable k end.

Definition parseFilterable (f : Field) : bool := negb (f_filter f == "false").

Fixpoint parse_sort_items (f : Field) (l : list string) (d : option Sort) : option Sort * bool :=
  match l with
  | [] => (d, true)
  | item :: l =>
      if item == "false" then (None, false)
      else if negb (HasPrefix item "default") then parse_sort_items f l d
      else parse_sort_items f l (Some (mkSort (f_Name f) (TrimPrefix item "default" == ":desc")))
  end.

Definition parseSortable (f : Field) : option Sort * bool := parse_sort_items f (Split (f_sort f) ";") None.

Definition is_upper (c : ascii) : bool := (65 <=? byte c)%N && (byte c <=? 90)%N.
Definition is_lower (c : ascii) : bool := (97 <=? byte c)%N && (byte c <=? 122)%N.
Definition to_lower (c : ascii) : ascii := if is_upper c then ascii_of_N (byte c + 32) else c.

(** Letters are those of ASCII; [prev] is the preceding one. *)
Fixpoint snake (prev : option ascii) (s : string) : string :=
  match s with
  | EmptyString => EmptyString
  | String c s' =>
      let lower_next := match s' with String n _ => is_lower n | EmptyString => false end in
      let rest := String (to_lower c) (snake (Some c) s') in
      match prev with
      | Some p => if is_upper c && (lower_next || is_lower p) then String "_" rest else rest
      | None => rest
      end
  end.
Definition snakeCase (s : string) : string := snake None s.

Definition TrimSuffix_paren (s : string) : string :=
  if bool_decide (last_char s = Some ")"%char) then but_last s else s.

Definition parseColumn (f : Field) : string :=
  let column := match filter (λ item, HasPrefix item "column" = true) (Split (f_orm f) ";") with
                | item :: _ => TrimSuffix_paren (TrimPrefix item "column(")
                | [] => EmptyString
                end in
  if column == EmptyString then snakeCase (f_Name f) else column.

Definition parse_field (m : metadata) (f : Field) : metadata :=
  if f_orm f == "-" then m
  else
    let '(defaultSort, sortable) := parseSortable f in
    let k name := mkKey name (parseFilterable f) None sortable in
    mkMetadata (<[parseColumn f := k (parseColumn f)]> (<[f_Name f := k (f_Name f)]> (md_Keys m)))
      (match defaultSort with Some s => [s] | None => md_DefaultSorts m end).

Definition parse_method (m : metadata) (x : string * filter_func) : metadata :=
  if negb (HasPrefix (fst x) "FilterBy") then m
  else
    let field := TrimPrefix (fst x) "FilterBy" in
    let k name := mkKey name true (Some (snd x)) false in
    mkMetadata (<[snakeCase field := k (snakeCase field)]> (<[field := k field]> (md_Keys m))) (md_DefaultSorts m).

Definition parseModel (model : Model) : metadata :=
  let m := foldl parse_method (foldl parse_field (mkMetadata ∅ []) (m_Fields model)) (m_Methods model) in
  match m_GetDefaultSorts model with
  | [] => m
  | sorts => mkMetadata (md_Keys m) sorts
  end.

(** ** [src/lib/orm/query.go], [orm.go] *)

Fixpoint escape_char_with (c : ascii) (s : string) : string :=
  match s with
  | EmptyString => EmptyString
  | String d s => if bool_decide (d = c) then String "\" (String d (escape_char_with c s)) else String d (escape_char_with c s)
  end.

Definition Escape (str : string) : string :=
  escape_char_with "_" (escape_char_with "%" (escape_char_with "\" str)).

(** The part before the first double underscore. *)
Fixpoint before_sep (s : string) : string :=
  match s with
  | String "_" (String "_" _) => EmptyString
  | String c s => String c (before_sep s)
  | EmptyString => EmptyString
  end.

Definition lookup_key (meta : metadata) (k : string) : option key :=
  match Filterable meta k with Some mk => Some mk | None => Filterable meta (snakeCase k) end.

Definition set_filter (meta : metadata) (qs : QuerySeter) (kv : string * pattern) : QuerySeter :=
  let '(key, value) := kv in
  match lookup_key meta (before_sep key) with
  | None => qs
  | Some mk =>
      match k_FilterFunc mk with
      | Some f => f qs key value
      | None =>
          match value with
          | FuzzyMatchValue s => qs_Filter (key +:+ "__icontains") [VString (Escape s)] qs
          | Range min max =>
              let qs := match min with Some v => qs_Filter (key +:+ "__gte") [v] qs | None => qs end in
              match max with Some v => qs_Filter (key +:+ "__lte") [v] qs | None => qs end
          | OrList l => qs_Filter (key +:+ "__in") l qs
          | AndList _ => qs
          | Plain v => qs_Filter key [v] qs
          end
      end
  end.

(** [kws] is the order in which the keywords of the map are visited. *)
Definition setFilters (qs : QuerySeter) (kws : list (string * pattern)) (meta : metadata) : QuerySeter :=
  foldl (set_filter meta) qs kws.

Definition sorting_of (s : Sort) : string := if s_DESC s then "-" +:+ s_Key s else s_Key s.

Definition setSorts (qs : QuerySeter) (query : Query) (meta : metadata) : QuerySeter :=
  let sortings := sorting_of <$> filter (λ s, Sortable meta (s_Key s) = true) (Sorts query) in
  let sortings := match sortings with [] => sorting_of <$> md_DefaultSorts meta | _ => sortings end in
  match sortings with
  | [] => qs
  | _ => mkQuerySeter (q_Conds qs) sortings (q_Limit qs) (q_Offset qs)
  end.

Definition setPages (qs : QuerySeter) (query : Query) : QuerySeter :=
  if 0 <? PageSize query
  then mkQuerySeter (q_Conds qs) (q_Orders qs) (Some (PageSize query))
         (if 0 <? PageNumber query then Some (wrap64 (PageSize query * (PageNumber query - 1))) else q_Offset qs)
  else qs.

Definition empty_seter : QuerySeter := mkQuerySeter [] [] None None.

Definition QuerySetter (model : Model) (query : option Query) (kws : list (string * pattern)) : QuerySeter :=
  match query with
  | None => empty_seter
  | Some query =>
      let metadata := parseModel model in
      setPages (setSorts (setFilters empty_seter kws metadata) query metadata) query
  end.

Definition QuerySetterForCount (model : Model) (query : option Query) (kws : list (string * pattern)) : QuerySeter :=
  let query := MustClone query in
  QuerySetter model (Some (mkQuery (Keywords query) [] 0 0)) kws.

Definition PaginationOnRawSQL (query : option Query) (sql : string) (params : list Z) : string * list Z :=
  match query with
  | None => (sql, params)
  | Some q =>
      if 0 <? PageSize q
      then let sql := sql +:+ " limit ?" in
           let params := params ++ [PageSize q] in
           if 0 <? PageNumber q
           then (sql +:+ " offset ?", params ++ [wrap64 ((PageNumber q - 1) * PageSize q)])
           else (sql, params)
      else (sql, params)
  end.

(** ** [src/server/v2.0/handler/base.go] *)

Definition BuildQuery (query sort : option string) (pageNumber pageSize : option Z) : result Query :=
  Build (default EmptyString query) (default EmptyString sort) (default 0 pageNumber) (default 0 pageSize).

(** The query of a neighbouring page; it is unescaped as a whole. *)
Definition page_query (raw : string) (page size : Z) : string :=
  let q := Values_Set (Values_Set (URL_Query raw) "page" (pretty page)) "page_size" (pretty size) in
  default (Encode q) (QueryUnescape (Encode q)).

Definition Links (u : URL) (total pageNumber pageSize : Z) : list Link :=
  if pageSize =? 0 then []
  else
    let '(prev, raw) :=
      if (1 <? pageNumber) && (wrap64 ((pageNumber - 1) * pageSize) <? total)
      then let raw := page_query (u_RawQuery u) (pageNumber - 1) pageSize in
           ([mkLink (URL_String (mkURL (u_Path u) raw)) "prev" ∅], raw)
      else ([], u_RawQuery u) in
    let next :=
      if wrap64 (pageSize * pageNumber) <? total
      then [mkLink (URL_String (mkURL (u_Path u) (page_query raw (wrap64 (pageNumber + 1)) pageSize))) "next" ∅]
      else [] in
    prev ++ next.

(** [src/lib/link.go]: the header of a link without further attributes. *)
Definition Link_String (l : Link) : string :=
  let s := "<" +:+ lk_URL l +:+ ">" in
  if lk_Rel l == EmptyString then s
  else s +:+ "; rel=" +:+ quoted (lk_Rel l).

Definition Links_String (l : list Link) : string := join_with " , " (Link_String <$> l).
