(* ===== verification/QuerySpec.v ===== *)
(** * What queries of the API mean

    Errors of the parser, the documented grammar read back, the database query
    against a model, and the walk over the pages of a listing along its links. *)

From S2P Require Import Prelude GoErrors GoStrings GoUrl Listing ListingSpec Query.
From Stdlib Require Import Ascii.
Local Open Scope Z_scope.
Local Open Scope harbor_scope.

(** ** Well-typed patterns *)

Definition time_ok (t : Time) : Prop :=
  0 <= tm_Year t <= 9999 ∧ 1 <= tm_Month t <= 12 ∧ 1 <= tm_Day t <= daysIn (tm_Month t) (tm_Year t) ∧
  0 <= tm_Hour t < 24 ∧ 0 <= tm_Min t < 60 ∧ 0 <= tm_Sec t < 60 ∧ 0 <= tm_Nsec t < 10 ^ 9.

Definition qvalue_ok (v : qvalue) : Prop :=
  match v with VString _ => True | VInt i => in_int64 i | VTime t => time_ok t end.

Definition item_ok (v : qvalue) : Prop := qvalue_ok v ∧ v ≠ VString EmptyString.

Definition bound_ok (v : option qvalue) : Prop := from_option qvalue_ok True v.

Definition pattern_ok (p : pattern) : Prop :=
  match p with
  | Plain v => ∃ s, v = VString s
  | FuzzyMatchValue s => s ≠ EmptyString
  | Range min max => bound_ok min ∧ bound_ok max ∧ (is_Some min ∨ is_Some max)
  | AndList l | OrList l => Forall item_ok l
  end.

Lemma getnum_range s fixed n r : getnum s fixed = Some (n, r) → 0 <= n <= 99.
Proof.
  destruct s as [|a s]; [done|]. simpl. intros H. apply bind_Some in H as (x & Hx%digit_val_bounds & H).
  destruct s as [|b s]; simpl in H; [destruct fixed; simplify_eq; lia|].
  destruct (digit_val b) as [y|] eqn:Ey; [apply digit_val_bounds in Ey; simplify_eq; lia|].
  destruct fixed; simplify_eq. lia.
Qed.

Lemma parse_digits_bounds s : ∀ acc m, 0 <= acc → parse_digits acc s = Some m →
  acc * 10 ^ Z.of_nat (String.length s) <= m < (acc + 1) * 10 ^ Z.of_nat (String.length s).
Proof.
  induction s as [|c s IH]; intros acc m Ha H; simpl in H.
  - simplify_eq. simpl. lia.
  - destruct (digit_val c) as [x|] eqn:Ex; [|done]. apply digit_val_bounds in Ex.
    apply IH in H; [|lia]. cbn [String.length]. rewrite Nat2Z.inj_succ, Z.pow_succ_r by lia.
    set (k := 10 ^ Z.of_nat (String.length s)) in *. assert (0 < k) by (apply Z.pow_pos_nonneg; lia). nia.
Qed.

Lemma span_digits_range s : Forall (λ d, 0 <= d <= 9) (span_digits s).1.
Proof.
  induction s as [|c s IH]; [constructor|]. simpl. destruct (digit_val c) as [x|] eqn:Ex; [|constructor].
  apply digit_val_bounds in Ex. destruct (span_digits s). by constructor.
Qed.

Lemma foldl_digits l : ∀ a, 0 <= a → Forall (λ d, 0 <= d <= 9) l →
  0 <= foldl (λ a d, a * 10 + d) a l < (a + 1) * 10 ^ Z.of_nat (length l).
Proof.
  induction l as [|d l IH]; intros a Ha Hl; [simpl; lia|]. apply Forall_cons in Hl as [Hd Hl]. cbn [foldl length].
  specialize (IH (a * 10 + d) ltac:(lia) Hl). rewrite Nat2Z.inj_succ, Z.pow_succ_r by lia.
  set (k := 10 ^ Z.of_nat (length l)) in *. assert (0 < k) by (apply Z.pow_pos_nonneg; lia). nia.
Qed.

Lemma fraction_range s : 0 <= (fraction s).1 < 10 ^ 9.
Proof.
  destruct s as [|c s]; [done|]. unfold fraction. destruct (_ && _); [|done].
  pose proof (span_digits_range s) as Hd. destruct (span_digits s) as [ds r]. cbn [fst] in *.
  pose proof (foldl_digits (take 9 ds) 0 ltac:(lia) (Forall_take _ 9 _ Hd)) as Hf.
  set (l := take 9 ds) in *. assert (Z.of_nat (length l) <= 9) as Hlen by (unfold l; rewrite length_take; lia).
  assert (10 ^ 9 = 10 ^ Z.of_nat (length l) * 10 ^ (9 - Z.of_nat (length l))) as Hk.
  { rewrite <- Z.pow_add_r by lia. f_equal. lia. }
  assert (0 < 10 ^ (9 - Z.of_nat (length l))) by (apply Z.pow_pos_nonneg; lia).
  assert (0 < 10 ^ Z.of_nat (length l)) by (apply Z.pow_pos_nonneg; lia). nia.
Qed.

Lemma parse_time_ok s t : parse_time s = Some t → time_ok t.
Proof.
  unfold parse_time. intros H.
  apply bind_Some in H as ([y s1] & Hy & H). apply bind_Some in H as (s2 & _ & H).
  apply bind_Some in H as ([mo s3] & _ & H). apply bind_Some in H as (s4 & _ & H).
  apply bind_Some in H as ([d s5] & _ & H). apply bind_Some in H as (s6 & _ & H).
  apply bind_Some in H as ([h s7] & Hh & H). apply bind_Some in H as (s8 & _ & H).
  apply bind_Some in H as ([mi s9] & Hmi & H). apply bind_Some in H as (s10 & _ & H).
  apply bind_Some in H as ([sec s11] & Hsec & H).
  apply getnum_range in Hh, Hmi, Hsec. pose proof (fraction_range s11) as Hf.
  destruct (fraction s11) as [nsec s12]. destruct (_ && _) eqn:E in H; [|done]. injection H as <-.
  rewrite !andb_true_iff in E. destruct E as [[[[[[[_ E1] E2] E3] E4] E5] E6] E7].
  assert (0 <= y <= 9999) as Hyr.
  { destruct s as [|a [|b [|c [|e s]]]]; try done. unfold year in Hy.
    apply bind_Some in Hy as (y' & Hp & [= -> _]). apply parse_digits_bounds in Hp; [|lia]. simpl in Hp. lia. }
  unfold time_ok. cbn [tm_Year tm_Month tm_Day tm_Hour tm_Min tm_Sec tm_Nsec fst] in *. lia.
Qed.

Lemma ParseInt_range s i : ParseInt s = Some i → in_int64 i.
Proof.
  assert (∀ z, in_range z = Some i → in_int64 i) as Hr.
  { intros z. unfold in_range. case_decide; [|done]. by intros [= <-]. }
  destruct s as [|c s]; [done|].
  destruct (decide (c = "-"%char)) as [->|]; [intros H; apply bind_Some in H as (? & _ & H); eauto|].
  destruct (decide (c = "+"%char)) as [->|]; [intros H; apply bind_Some in H as (? & _ & H); eauto|].
  intros H. rewrite (ParseInt_digits _ c s) in H by done. apply bind_Some in H as (? & _ & H); eauto.
Qed.

Lemma parseValue_ok s : qvalue_ok (parseValue s).
Proof.
  unfold parseValue. destruct (parse_time _) as [t|] eqn:Et; [by eapply parse_time_ok|].
  destruct (ParseInt _) as [i|] eqn:Ei; [by eapply ParseInt_range|done].
Qed.

Lemma Forall_parseValue l : Forall item_ok (filter nonempty_value (parseValue <$> l)).
Proof.
  apply Forall_forall. intros v [Hv Hin]%list_elem_of_filter. split; [|done].
  apply list_elem_of_fmap in Hin as (s & -> & _). apply parseValue_ok.
Qed.

(** A text that ends in another character than it starts with has an inside. *)
Lemma inner_ok c s d : last_char (String c s) = Some d → c ≠ d → ∃ r, inner (String c s) = Ok r.
Proof. destruct s as [|e s]; [intros [= ->]; done|]. simpl. eauto. Qed.

Lemma parseList_ok c s : c = "{"%char ∨ c = "("%char →
  (∃ l, parseList (String c s) c = Ok l ∧ Forall item_ok l) ∨ ∃ m, parseList (String c s) c = Err (PlainError m).
Proof.
  intros Hc. assert (∃ d, c ≠ d ∧ ∀ x y z : result (list qvalue),
    (if bool_decide (c = "{"%char) && negb (bool_decide (last_char (String c s) = Some "}"%char)) then x
     else if bool_decide (c = "("%char) && negb (bool_decide (last_char (String c s) = Some ")"%char)) then y else z)
    = if bool_decide (last_char (String c s) = Some d) then z else if bool_decide (c = "{"%char) then x else y)
    as (d & Hd & Hif).
  { destruct Hc as [-> | ->]; [exists "}"%char|exists ")"%char]; (split; [done|]); intros x y z.
    - rewrite (bool_decide_true ("{"%char = _)), (bool_decide_false ("{"%char = "("%char)) by done. cbn [andb].
      by destruct (bool_decide _).
    - rewrite (bool_decide_false ("("%char = "{"%char)), (bool_decide_true ("("%char = "("%char)) by done. cbn [andb].
      by destruct (bool_decide _). }
  unfold parseList. rewrite Hif. destruct (decide (last_char (String c s) = Some d)) as [El|El].
  - rewrite bool_decide_true by done. destruct (inner_ok _ _ _ El Hd) as [r ->]. left. eauto using Forall_parseValue.
  - rewrite bool_decide_false by done. right. destruct (bool_decide _); eauto.
Qed.

(** A pattern is well-typed, and no text makes the parser panic. *)
Lemma parsePattern_ok value :
  match parsePattern value with Ok p => pattern_ok p | Err (Panic _) => False | Err _ => True end.
Proof.
  destruct value as [|c s]; [by exists EmptyString|]. unfold parsePattern.
  case_bool_decide as E1; [destruct s as [|d s]; simpl; [done|]; by case_bool_decide|].
  case_bool_decide as E2.
  { subst c. unfold parseRange. case_bool_decide as El; cbn [negb orb andb]; [|done]. destruct (_ =? _)%nat; cbn [negb orb andb]; [|done].
    destruct (inner_ok _ _ _ El) as [r ->]; [done|]. destruct (Cut r "~") as [[a b] ?].
    unfold bound. repeat case_bool_decide; simpl; auto using parseValue_ok. }
  case_bool_decide as E3; [subst c; unfold parseOrList|].
  { destruct (parseList_ok "{" s) as [(l & -> & Hl)|(m & ->)]; [by left|done|done]. }
  case_bool_decide as E4; [subst c; unfold parseAndList|].
  { destruct (parseList_ok "(" s) as [(l & -> & Hl)|(m & ->)]; [by right|done|done]. }
  by eexists.
Qed.

Lemma parse_params_ok l : ∀ m,
  map_Forall (λ k p, k ≠ EmptyString ∧ pattern_ok p) m →
  match parse_params l m with
  | Ok m => map_Forall (λ k p, k ≠ EmptyString ∧ pattern_ok p) m
  | Err e => ErrCode e = BadRequestCode
  end.
Proof.
  induction l as [|x l IH]; intros m Hm; [done|]. simpl. unfold parse_param.
  destruct (Cut x "=") as [[k v] found]. destruct (negb found || _ || _) eqn:E; [done|].
  rewrite !orb_false_iff, !bool_decide_eq_false in E. pose proof (parsePattern_ok v) as Hv.
  destruct (parsePattern v) as [p|e].
  - apply IH, map_Forall_insert_2; [|done]. tauto.
  - by destruct e.
Qed.

(** C36 (queries are checked): whatever the text of a query, reading it either is
    refused as a bad request, never with a panic, or yields keywords that are not
    empty with patterns that are well-typed: integers of 64 bits, dates of the
    calendar, ranges with a bound, and no empty entries of lists. *)
Theorem Build_checked q sort pageNumber pageSize :
  match Build q sort pageNumber pageSize with
  | Err e => ErrCode e = BadRequestCode
  | Ok query =>
      map_Forall (λ k p, k ≠ EmptyString ∧ pattern_ok p) (Keywords query) ∧
      PageNumber query = pageNumber ∧ PageSize query = pageSize
  end.
Proof.
  unfold Build, parseKeywords. case_bool_decide; [split; [apply map_Forall_empty|done]|].
  pose proof (parse_params_ok (Split (default q (QueryUnescape q)) ",") ∅ (map_Forall_empty _)) as H'.
  by destruct (parse_params _ _).
Qed.

(** ** The documented grammar *)

(** A value of a query as it is documented: exact match, fuzzy match, range,
    and list, or list. *)
Inductive form :=
  | FExact (s : string)
  | FFuzzy (s : string)
  | FRange (min max : string)
  | FAnd (l : list string)
  | FOr (l : list string).

(** Characters that an exact match escapes at its head. *)
Definition special (c : ascii) : bool :=
  bool_decide (c = "~"%char) || bool_decide (c = "["%char) || bool_decide (c = "{"%char) ||
  bool_decide (c = "("%char) || bool_decide (c = "\"%char).

Definition print_form (f : form) : string :=
  match f with
  | FExact s => match s with
                | EmptyString => "\"
                | String c _ => if special c then String "\" s else s
                end
  | FFuzzy s => "~" +:+ s
  | FRange a b => "[" +:+ (a +:+ "~" +:+ b) +:+ "]"
  | FAnd l => "(" +:+ join_with " " l +:+ ")"
  | FOr l => "{" +:+ join_with " " l +:+ "}"
  end.

Definition items (l : list string) : list qvalue := filter nonempty_value (parseValue <$> l).

(** What a form means. *)
Definition denote (f : form) : pattern :=
  match f with
  | FExact s => Plain (VString s)
  | FFuzzy s => FuzzyMatchValue s
  | FRange a b => Range (bound (TrimSpace a)) (bound (TrimSpace b))
  | FAnd l => AndList (items l)
  | FOr l => OrList (items l)
  end.

Definition form_ok (f : form) : Prop :=
  match f with
  | FExact _ => True
  | FFuzzy s => s ≠ EmptyString
  | FRange a b => no_char "~" a = true ∧ no_char "~" b = true ∧ (TrimSpace a ≠ EmptyString ∨ TrimSpace b ≠ EmptyString)
  | FAnd l | FOr l => Forall (λ s, no_char " " s = true) l
  end.

Lemma Split_join c l : Forall (λ s, no_char c s = true) l → l ≠ [] → Split (join_with (String c EmptyString) l) c = l.
Proof.
  induction 1 as [|x l Hx Hl IH]; [done|]. intros _. destruct l as [|y l]; [by apply Split_one|].
  change (join_with (String c EmptyString) (x :: y :: l)) with (x +:+ String c (join_with (String c EmptyString) (y :: l))).
  rewrite Split_app by done. by rewrite IH.
Qed.

Lemma items_join l : Forall (λ s, no_char " " s = true) l → items (Split (join_with " " l) " ") = items l.
Proof. intros Hl. destruct l as [|x l]; [done|]. by rewrite (Split_join " "). Qed.

Lemma count_no_char c s : no_char c s = true → count_char c s = 0%nat.
Proof.
  unfold no_char. induction s as [|d s IH]; [done|]. cbn [string_forall count_char]. rewrite andb_true_iff.
  intros [H1 H2]. destruct (bool_decide (d = c)); [done|]. by apply IH.
Qed.

Lemma count_app c s t : count_char c (s +:+ t) = (count_char c s + count_char c t)%nat.
Proof. induction s as [|d s IH]; [done|]. change (String d s +:+ t) with (String d (s +:+ t)).
  cbn [count_char]. rewrite IH. lia. Qed.

(** Between a head and a tail of one character. *)
Lemma inner_wrap c s d : inner (String c (s +:+ String d EmptyString)) = Ok s.
Proof. unfold inner. destruct s as [|e s]; [done|]. exact (f_equal Ok (but_last_snoc (String e s) d)). Qed.

Lemma last_wrap c s d : last_char (String c (s +:+ String d EmptyString)) = Some d.
Proof. exact (last_char_snoc (String c s) d). Qed.

Lemma parsePattern_print f : form_ok f → parsePattern (print_form f) = Ok (denote f).
Proof.
  destruct f as [s|s|a b|l|l]; cbn [print_form denote form_ok]; intros Hok.
  - destruct s as [|c s]; [done|]. destruct (special c) eqn:Es; [done|].
    unfold special in Es. rewrite !orb_false_iff, !bool_decide_eq_false in Es. destruct Es as [[[[? ?] ?] ?] ?].
    unfold parsePattern, escapeValue. by rewrite !bool_decide_false.
  - by destruct s.
  - destruct Hok as (Ha & Hb & Hne). set (m := a +:+ "~" +:+ b).
    change (parsePattern ("[" +:+ m +:+ "]")) with (parseRange (String "[" (m +:+ "]"))). unfold parseRange.
    rewrite last_wrap, inner_wrap, bool_decide_true by done.
    assert (count_char "~" (String "[" (m +:+ "]")) = 1%nat) as ->.
    { change (count_char "~" (String "[" ?x)) with (count_char "~" x). unfold m.
      rewrite !count_app, (count_no_char _ a Ha), (count_no_char _ b Hb). done. }
    cbn [negb orb Nat.eqb]. unfold m. change ("~" +:+ b) with (String "~" b). rewrite Cut_app by done.
    destruct (_ && _) eqn:E; [|done]. rewrite andb_true_iff, !bool_decide_eq_true in E. tauto.
  - set (m := join_with " " l). change (parsePattern ("(" +:+ m +:+ ")")) with (parseAndList (String "(" (m +:+ ")"))).
    unfold parseAndList, parseList. rewrite last_wrap, inner_wrap.
    change (bool_decide ("("%char = "{"%char)) with false.
    change (bool_decide ("("%char = "("%char) && negb (bool_decide (Some ")"%char = Some ")"%char))) with false.
    cbn [andb].
    fold (items (Split m " ")). unfold m. by rewrite items_join.
  - set (m := join_with " " l). change (parsePattern ("{" +:+ m +:+ "}")) with (parseOrList (String "{" (m +:+ "}"))).
    unfold parseOrList, parseList. rewrite last_wrap, inner_wrap.
    change (bool_decide ("{"%char = "{"%char) && negb (bool_decide (Some "}"%char = Some "}"%char))) with false.
    change (bool_decide ("{"%char = "("%char)) with false. cbn [andb].
    fold (items (Split m " ")). unfold m. by rewrite items_join.
Qed.

(** A query as a client writes it: settings between commas. *)
Definition print_setting (kf : string * form) : string := fst kf +:+ "=" +:+ print_form (snd kf).
Definition print_query (l : list (string * form)) : string := join_with "," (print_setting <$> l).

(** No comma, which separates the settings, and no equals sign in the key. *)
Definition setting_ok (kf : string * form) : Prop :=
  fst kf ≠ EmptyString ∧ no_char "=" (fst kf) = true ∧ no_char "," (fst kf) = true ∧
  form_ok (snd kf) ∧ no_char "," (print_form (snd kf)) = true.

Definition meaning (l : list (string * form)) : gmap string pattern :=
  foldl (λ m kf, <[fst kf := denote (snd kf)]> m) ∅ l.

Lemma print_form_nonempty f : form_ok f → print_form f ≠ EmptyString.
Proof. destruct f as [[|c s]| | | |]; simpl; try done. by destruct (special c). Qed.

Lemma parse_param_print kf : setting_ok kf → parse_param (print_setting kf) = Ok (fst kf, denote (snd kf)).
Proof.
  destruct kf as [k f]. unfold setting_ok. cbn [fst snd]. intros (Hk & Heq & _ & Hf & _).
  unfold parse_param, print_setting. cbn [fst snd]. change ("=" +:+ print_form f) with (String "=" (print_form f)).
  rewrite Cut_app by done. cbn [negb orb].
  rewrite (bool_decide_false (k = _)), (bool_decide_false (print_form f = _)) by eauto using print_form_nonempty.
  cbn [orb]. by rewrite parsePattern_print.
Qed.

Lemma Split_query l : Forall setting_ok l → l ≠ [] → Split (print_query l) "," = print_setting <$> l.
Proof.
  assert (∀ kf, setting_ok kf → no_char "," (print_setting kf) = true) as Hc.
  { intros [k f] (_ & _ & H1 & _ & H2). unfold print_setting. cbn [fst snd] in *. by rewrite !no_char_app, H1, H2. }
  unfold print_query. induction 1 as [|kf l Hx Hl IH]; [done|]. intros _. destruct l as [|kf' l].
  - by apply Split_one, Hc.
  - rewrite fmap_cons. remember (print_setting <$> kf' :: l) as L eqn:HL. rewrite fmap_cons in HL.
    destruct L as [|x L]; [done|]. change (join_with "," (print_setting kf :: x :: L))
      with (print_setting kf +:+ String "," (join_with "," (x :: L))).
    rewrite Split_app by by apply Hc. by rewrite IH.
Qed.

Lemma parse_params_print l : ∀ m, Forall setting_ok l →
  parse_params (print_setting <$> l) m = Ok (foldl (λ m kf, <[fst kf := denote (snd kf)]> m) m l).
Proof.
  induction l as [|kf l IH]; intros m Hl; [done|]. apply Forall_cons in Hl as [Hx Hl].
  rewrite fmap_cons. cbn [parse_params foldl]. rewrite parse_param_print by done. by apply IH.
Qed.

(** Further property (the grammar of queries): a query that a client writes by the documented
    grammar and escapes is read as what it means: for every key the pattern of
    its last setting. *)
Theorem Build_grammar l sort pageNumber pageSize :
  Forall setting_ok l →
  Build (QueryEscape (print_query l)) sort pageNumber pageSize
  = Ok (mkQuery (meaning l) (parseSorting sort) pageNumber pageSize).
Proof.
  intros Hl. unfold Build, parseKeywords. rewrite QueryUnescape_Escape. cbn [from_option id]. destruct l as [|kf l].
  - done.
  - rewrite bool_decide_false.
    + rewrite Split_query, parse_params_print by done. done.
    + intros E. pose proof (QueryUnescape_Escape (print_query (kf :: l))) as H. rewrite E in H. injection H as H.
      pose proof (Split_query (kf :: l) Hl) as Hs. rewrite <- H in Hs. specialize (Hs ltac:(done)).
      destruct l; [|done]. injection Hs as Hs. destruct kf as [k f]. unfold print_setting in Hs. simpl in Hs. by destruct k.
Qed.

Lemma Build_grammar_witness :
  Build (QueryEscape "name=~app,size=[10~],kind={a 7},owner=\~x") "-name" 1 10
  = Ok (mkQuery (<["owner" := Plain (VString "~x")]> (<["kind" := OrList [VString "a"; VInt 7]]>
          (<["size" := Range (Some (VInt 10)) None]> (<["name" := FuzzyMatchValue "app"]> ∅))))
        [mkSort "name" true] 1 10).
Proof.
  exact (Build_grammar [("name", FFuzzy "app"); ("size", FRange "10" ""); ("kind", FOr ["a"; "7"]%string);
    ("owner", FExact "~x")]%string "-name" 1 10
    ltac:(repeat constructor; vm_compute; (done || (repeat split; (done || discriminate || left; discriminate))))).
Defined.

(** ** Walking over the pages of a listing *)

(** The rows that the bounds of a database query leave. *)
Definition bounded {A} (qs : QuerySeter) (l : list A) : list A :=
  match q_Limit qs with
  | None => l
  | Some n => take (Z.to_nat n) (drop (Z.to_nat (default 0 (q_Offset qs))) l)
  end.

(** A parameter of a request, bound as the interface description says: the last
    value, and none when it is empty. *)
Definition opt_param (raw name : string) : option string :=
  match last (default [] (URL_Query raw !! name)) with
  | Some v => if v == EmptyString then None else Some v
  | None => None
  end.
Definition param (raw name : string) (d : Z) : option Z :=
  match opt_param raw name with Some v => ParseInt v | None => Some d end.

(** The keywords of a request for registries: those of [q], and the name that older
    clients send. *)
Definition with_name (name : option string) (kw : gmap string pattern) : gmap string pattern :=
  match name with Some n => <["Name" := FuzzyMatchValue n]> kw | None => kw end.

(** The list of registries ([src/server/v2.0/handler/registry.go]) after the check
    of the access.  [matching] is the table: the rows of which the conditions hold,
    in the order that is asked for.  They are counted, a page is listed, and the
    answer links to its neighbours. *)
Definition ListRegistries {A} (model : Model) (matching : list (string * list qvalue) → list string → list A) (u : URL)
    : option (list A * list Link) :=
  let raw := u_RawQuery u in
  page ← param raw "page" 1;
  size ← param raw "page_size" 10;
  match BuildQuery (opt_param raw "q") (opt_param raw "sort") (Some page) (Some size) with
  | Err _ => None
  | Ok query =>
      let query := mkQuery (with_name (opt_param raw "name") (Keywords query)) (Sorts query) (PageNumber query) (PageSize query) in
      let kws := map_to_list (Keywords query) in
      let count := QuerySetterForCount model (Some query) kws in
      let total := Z.of_nat (length (matching (q_Conds count) (q_Orders count))) in
      let qs := QuerySetter model (Some query) kws in
      Some (bounded qs (matching (q_Conds qs) (q_Orders qs)), Links u total (PageNumber query) (PageSize query))
  end.

(** A client that follows the links to the next page. *)
Fixpoint walk_pages {A} (fuel : nat) (model : Model) (matching : list (string * list qvalue) → list string → list A) (u : URL)
    : option (list A) :=
  match fuel with
  | O => None
  | S fuel =>
      '(page, links) ← ListRegistries model matching u;
      match filter (λ l, lk_Rel l = "next") links with
      | [] => Some page
      | l :: _ => rest ← walk_pages fuel model matching (url_Parse (lk_URL l)); Some (page ++ rest)
      end
  end.

(** What survives in a link although its query is unescaped as a whole: visible
    characters except for the percent and plus sign, ampersand, semicolon and hash. *)
Definition kept_char (c : ascii) : bool := visible c && bool_decide (c ∉ ["%"; "+"; "&"; ";"; "#"]%char).
Definition plain (s : string) : Prop := string_forall kept_char s = true.
Definition plain_key (k : string) : Prop := plain k ∧ no_char "=" k = true.
Definition plain_values (m : Values) : Prop := map_Forall (λ k vs, plain_key k ∧ Forall plain vs ∧ vs ≠ []) m.

Definition raw_setting (kv : string * string) : string := fst kv +:+ "=" +:+ snd kv.

Lemma unescape_app s t : QueryUnescape (QueryEscape s +:+ t) = (λ r, s +:+ r) <$> QueryUnescape t.
Proof.
  induction s as [|c s IH]; [change (QueryEscape EmptyString +:+ t) with t; by destruct (QueryUnescape t)|]. cbn [QueryEscape].
  assert (escape_char c (QueryEscape s) +:+ t = escape_char c (QueryEscape s +:+ t)) as ->.
  { unfold escape_char. destruct (unreserved c), (byte c =? 32)%N; done. }
  rewrite unescape_char, IH. by destruct (QueryUnescape t).
Qed.

Lemma unescape_setting kv t : QueryUnescape (setting kv +:+ t) = (λ r, raw_setting kv +:+ r) <$> QueryUnescape t.
Proof.
  unfold setting, raw_setting. rewrite <- !append_assoc, unescape_app.
  change (QueryUnescape ("=" +:+ QueryEscape kv.2 +:+ t)) with (String "=" <$> QueryUnescape (QueryEscape kv.2 +:+ t)).
  rewrite unescape_app. destruct (QueryUnescape t); [|done]. simpl. by rewrite <- !append_assoc.
Qed.

(** Unescaping the query as a whole leaves its settings side by side. *)
Lemma unescape_join l : QueryUnescape (join_with "&" (setting <$> l)) = Some (join_with "&" (raw_setting <$> l)).
Proof.
  induction l as [|kv l IH]; [done|]. destruct l as [|kv' l].
  - pose proof (unescape_setting kv EmptyString) as H. cbn [QueryUnescape fmap option_fmap option_map] in H. by rewrite !append_nil in H.
  - change (join_with "&" (setting <$> kv :: kv' :: l)) with (setting kv +:+ String "&" (join_with "&" (setting <$> kv' :: l))).
    rewrite unescape_setting. assert (∀ s, QueryUnescape (String "&" s) = String "&" <$> QueryUnescape s) as -> by done. by rewrite IH.
Qed.

Lemma QueryUnescape_plain s : plain s → QueryUnescape s = Some s.
Proof.
  unfold plain. induction s as [|c s IH]; [done|]. cbn [string_forall]. rewrite andb_true_iff. intros [H1 H2].
  assert (QueryUnescape (String c s) = String c <$> QueryUnescape s) as ->; [|by rewrite IH].
  revert H1. clear. destruct c as [[] [] [] [] [] [] [] []]; vm_compute kept_char; (done || reflexivity).
Qed.

Definition plain_setting (kv : string * string) : Prop := plain_key kv.1 ∧ plain kv.2.

Lemma plain_no_char c s : kept_char c = false → plain s → no_char c s = true.
Proof. intros Hc Hs. by apply (no_char_forall kept_char). Qed.

Lemma raw_setting_no_char c kv : kept_char c = false → plain_setting kv → no_char c (raw_setting kv) = true.
Proof.
  intros Hc [[Hk _] Hv]. unfold raw_setting. by rewrite !no_char_app, !plain_no_char by done.
Qed.

Lemma parse_raw_setting kv : plain_setting kv → parse_setting (raw_setting kv) = Some kv.
Proof.
  intros Hkv. unfold parse_setting, contains_char. rewrite raw_setting_no_char by done. destruct kv as [k v], Hkv as [[Hk He] Hv].
  unfold raw_setting. cbn [negb fst snd] in *. change ("=" +:+ v) with (String "=" v). rewrite Cut_app by done.
  by rewrite !QueryUnescape_plain.
Qed.

(** Plain settings are read as they were written. *)
Lemma URL_Query_raw l : Forall plain_setting l → URL_Query (join_with "&" (raw_setting <$> l)) = foldl add_value ∅ l.
Proof.
  intros Hl. unfold URL_Query. f_equal. destruct l as [|kv l]; [done|]. rewrite (Split_join "&").
  - generalize dependent (kv :: l). clear. intros l. induction 1 as [|kv l Hkv Hl IH]; [done|]. rewrite fmap_cons.
    unfold omap in *. cbn [list_omap]. rewrite bool_decide_false by (unfold raw_setting; by destruct kv as [[] ?]).
    by rewrite parse_raw_setting, IH.
  - rewrite Forall_fmap. eapply Forall_impl; [exact Hl|]. intros x Hx. by apply raw_setting_no_char.
  - done.
Qed.

Lemma settings_plain m : plain_values m → Forall plain_setting (settings m).
Proof.
  intros Hm. apply Forall_forall. intros [k v] Hin. unfold settings in Hin.
  apply list_elem_of_bind in Hin as (k' & Hv & _). apply list_elem_of_fmap in Hv as (v' & [= -> ->] & Hv).
  destruct (m !! k') as [vs|] eqn:E; [|by apply elem_of_nil in Hv]. destruct (Hm _ _ E) as (Hk & Hvs & _).
  rewrite Forall_forall in Hvs. split; simpl in *; auto.
Qed.

Definition raw_text (m : Values) : string := join_with "&" (raw_setting <$> settings m).

Lemma URL_Query_raw_text m : plain_values m → URL_Query (raw_text m) = m.
Proof.
  intros Hm. apply map_eq. intros k. unfold raw_text. rewrite URL_Query_raw by by apply settings_plain.
  rewrite foldl_add_value, values_of_settings, lookup_empty. destruct (m !! k) as [vs|] eqn:E; simpl; [|done].
  destruct vs; [by destruct (Hm _ _ E) as (_ & _ & [])|done].
Qed.

Lemma plain_Set m k v : plain_values m → plain_key k → plain v → plain_values (Values_Set m k v).
Proof. intros Hm Hk Hv. apply map_Forall_insert_2; [|done]. split_and!; [done|by constructor|done]. Qed.

Lemma plain_pretty (z : Z) : plain (pretty z).
Proof.
  unfold plain. eapply string_forall_impl; [|apply (pretty_Z_chars z)].
  intros c. destruct c as [[] [] [] [] [] [] [] []]; vm_compute; congruence.
Qed.

Definition with_page (m : Values) (page size : Z) : Values :=
  Values_Set (Values_Set m "page" (pretty page)) "page_size" (pretty size).

Lemma page_query_plain raw page size :
  plain_values (URL_Query raw) →
  page_query raw page size = raw_text (with_page (URL_Query raw) page size) ∧
  plain_values (with_page (URL_Query raw) page size) ∧
  URL_Query (page_query raw page size) = with_page (URL_Query raw) page size.
Proof.
  intros Hm. assert (plain_values (with_page (URL_Query raw) page size)) as Hp.
  { repeat apply plain_Set; try apply plain_pretty; done. }
  assert (page_query raw page size = raw_text (with_page (URL_Query raw) page size)) as ->.
  { unfold page_query. fold (with_page (URL_Query raw) page size). unfold Encode. by rewrite unescape_join. }
  split_and!; [done|done|]. by apply URL_Query_raw_text.
Qed.

Lemma with_page_twice m p q s : with_page (with_page m p s) q s = with_page m q s.
Proof.
  apply map_eq. intros k. unfold with_page, Values_Set.
  destruct (decide (k = "page_size")) as [->|H1]; [by rewrite !lookup_insert_eq|].
  destruct (decide (k = "page")) as [->|H2].
  - by rewrite !(lookup_insert_ne _ "page_size"), !lookup_insert_eq by done.
  - by rewrite !lookup_insert_ne by congruence.
Qed.

Lemma opt_param_text raw raw' name : URL_Query raw !! name = URL_Query raw' !! name → opt_param raw name = opt_param raw' name.
Proof. unfold opt_param. by intros ->. Qed.

Lemma param_set raw name z d : URL_Query raw !! name = Some [pretty z] → in_int64 z → param raw name d = Some z.
Proof.
  intros Hn Hz. pose proof (ParseInt_pretty z Hz) as Hp. unfold param, opt_param. rewrite Hn. cbn [from_option id last].
  rewrite bool_decide_false; [done|]. intros E. by rewrite E in Hp.
Qed.

Section pages.
Context {A : Type} (model : Model) (matching : list (string * list qvalue) → list string → list A) (path : string) (size : Z).
Hypothesis Hpath : string_forall link_char path = true.
Hypothesis Hsize : 0 < size.
(** Sorting neither adds nor drops a row. *)
Hypothesis Hsorting : ∀ conds o o', matching conds o ≡ₚ matching conds o'.

(** What [q], [sort] and [name] of a request ask for. *)
Definition asked (raw : string) (query : Query) : Prop :=
  BuildQuery (opt_param raw "q") (opt_param raw "sort") (Some 1) (Some size) = Ok query.
Definition selected (raw : string) (query : Query) : list A :=
  let query := mkQuery (with_name (opt_param raw "name") (Keywords query)) (Sorts query) 1 size in
  let qs := QuerySetter model (Some query) (map_to_list (Keywords query)) in
  matching (q_Conds qs) (q_Orders qs).

Lemma int64_small z : 0 <= z <= max_int64 → wrap64 z = z.
Proof. intros. apply wrap64_id. unfold in_int64, min_int64. lia. Qed.

(** The pages of a query change neither its conditions nor its order. *)
Lemma setPages_rows qs query : q_Conds (setPages qs query) = q_Conds qs ∧ q_Orders (setPages qs query) = q_Orders qs.
Proof. unfold setPages. by destruct (0 <? _). Qed.

Lemma setSorts_conds qs query meta : q_Conds (setSorts qs query meta) = q_Conds qs.
Proof. unfold setSorts. set (l := match _ <$> _ with [] => _ | _ => _ end). by destruct l. Qed.

Lemma asked_page raw query page : asked raw query →
  BuildQuery (opt_param raw "q") (opt_param raw "sort") (Some page) (Some size) =
    Ok (mkQuery (Keywords query) (Sorts query) page size).
Proof. unfold asked, BuildQuery, Build. destruct (parseKeywords _); [|done]. by intros [= <-]. Qed.

(** The request for a page that a link names. *)
Lemma ListRegistries_page raw query page : asked raw query →
  param raw "page" 1 = Some page → param raw "page_size" 10 = Some size → 1 <= page →
  Z.of_nat (length (selected raw query)) + 2 * size <= max_int64 → size * (page - 1) <= Z.of_nat (length (selected raw query)) →
  ListRegistries model matching (mkURL path raw) =
    Some (take (Z.to_nat size) (drop (Z.to_nat (size * (page - 1))) (selected raw query)),
          Links (mkURL path raw) (Z.of_nat (length (selected raw query))) page size).
Proof.
  intros Hq Hp Hs Hpage Hmax Hle. unfold ListRegistries. cbn [u_RawQuery]. rewrite Hp, Hs. cbn [mbind option_bind].
  rewrite (asked_page raw query page Hq). cbn [Keywords Sorts PageNumber PageSize].
  set (kw := with_name _ _). set (kws := map_to_list kw). set (meta := parseModel model).
  set (sorted := setSorts (setFilters empty_seter kws meta) (mkQuery kw (Sorts query) 1 size) meta).
  assert (selected raw query = matching (q_Conds (setFilters empty_seter kws meta)) (q_Orders sorted)) as Hsel.
  { unfold selected. cbn [Keywords Sorts]. fold kw kws. unfold QuerySetter. fold meta. destruct (setPages_rows
      (setSorts (setFilters empty_seter kws meta) (mkQuery kw (Sorts query) 1 size) meta) (mkQuery kw (Sorts query) 1 size)) as [-> ->].
    by rewrite setSorts_conds. }
  do 2 f_equal.
  - unfold QuerySetter. fold meta. change (setSorts _ (mkQuery kw (Sorts query) page size) meta) with sorted.
    unfold bounded, setPages. cbn [PageNumber PageSize]. rewrite (proj2 (Z.ltb_lt 0 size)), (proj2 (Z.ltb_lt 0 page)) by lia.
    cbn [q_Limit q_Offset q_Conds q_Orders from_option id]. rewrite int64_small by nia. rewrite Hsel. unfold sorted at 1. by rewrite setSorts_conds.
  - f_equal. f_equal. rewrite Hsel. unfold QuerySetterForCount, QuerySetter. fold meta. cbn [Keywords].
    match goal with |- length (matching (q_Conds (setPages ?a ?b)) _) = _ => destruct (setPages_rows a b) as [-> ->] end.
    rewrite setSorts_conds. apply Permutation_length, Hsorting.
Qed.

Lemma Links_next raw total page :
  plain_values (URL_Query raw) → 1 <= page → total + 2 * size <= max_int64 → size * (page - 1) <= total →
  filter (λ l, lk_Rel l = "next") (Links (mkURL path raw) total page size) =
    if size * page <? total
    then [mkLink (URL_String (mkURL path (raw_text (with_page (URL_Query raw) (page + 1) size)))) "next" ∅] else [].
Proof.
  intros Hraw Hpage Hmax Hle. unfold Links. rewrite (proj2 (Z.eqb_neq _ _)) by lia. cbn [u_Path u_RawQuery].
  assert (Hp : 0 <= (page - 1) * size <= max_int64) by nia. rewrite (int64_small _ Hp).
  rewrite (int64_small (size * page)) by nia.
  assert (page <= max_int64 - 1) by nia.
  rewrite (int64_small (page + 1)) by lia.
  destruct (page_query_plain raw (page - 1) size Hraw) as (_ & Hpl & Hq).
  destruct (page_query_plain raw (page + 1) size Hraw) as (Hn & _ & _).
  destruct ((1 <? page) && _).
  - assert (plain_values (URL_Query (page_query raw (page - 1) size))) as Hraw' by by rewrite Hq.
    destruct (page_query_plain _ (page + 1) size Hraw') as (Hn' & _ & _).
    cbn [app]. rewrite filter_cons_False by done. rewrite Hn', Hq, with_page_twice. by destruct (_ <? _).
  - cbn [app]. rewrite Hn. by destruct (_ <? _).
Qed.

Lemma raw_text_no_hash m : plain_values m → no_char "#" (raw_text m) = true.
Proof.
  intros Hm%settings_plain. unfold raw_text. induction Hm as [|kv l Hkv Hl IH]; [done|]. destruct l as [|kv' l].
  - by apply raw_setting_no_char.
  - change (join_with "&" (raw_setting <$> kv :: kv' :: l)) with (raw_setting kv +:+ "&" +:+ join_with "&" (raw_setting <$> kv' :: l)).
    rewrite !no_char_app, IH, raw_setting_no_char by done. done.
Qed.

Lemma url_Parse_page m : plain_values m → m ≠ ∅ → url_Parse (URL_String (mkURL path (raw_text m))) = mkURL path (raw_text m).
Proof using Hpath.
  intros Hm Hne. pose proof (URL_Query_raw_text m Hm) as Hq.
  assert (raw_text m ≠ EmptyString) as He by (intros E; rewrite E in Hq; by apply Hne).
  unfold URL_String. cbn [u_Path u_RawQuery]. rewrite bool_decide_false by done.
  apply url_Parse_text; [done|by apply raw_text_no_hash].
Qed.

Lemma with_page_ne m p : with_page m p size ≠ ∅.
Proof. unfold with_page, Values_Set. apply insert_non_empty. Qed.

(** A link keeps what the request asks for. *)
Lemma linked_same raw page name : plain_values (URL_Query raw) → name ≠ "page" → name ≠ "page_size" →
  opt_param (page_query raw page size) name = opt_param raw name.
Proof.
  intros Hraw H1 H2. destruct (page_query_plain raw page size Hraw) as (_ & _ & Hq). apply opt_param_text. rewrite Hq.
  unfold with_page, Values_Set. by rewrite !lookup_insert_ne.
Qed.

Lemma walk_from fuel : ∀ raw query page, asked raw query →
  Z.of_nat (length (selected raw query)) + 2 * size <= max_int64 →
  (length (selected raw query) - Z.to_nat (size * (page - 1)) < fuel)%nat →
  plain_values (URL_Query raw) → param raw "page" 1 = Some page → param raw "page_size" 10 = Some size →
  1 <= page → size * (page - 1) <= Z.of_nat (length (selected raw query)) →
  walk_pages fuel model matching (mkURL path raw) = Some (drop (Z.to_nat (size * (page - 1))) (selected raw query)).
Proof.
  induction fuel as [|fuel IH]; intros raw query page Hask Hmax Hf Hraw Hp Hs Hpage Hle; [lia|]. cbn [walk_pages].
  rewrite (ListRegistries_page raw query page) by done. cbn [mbind option_bind]. rewrite Links_next by done.
  destruct (Z.ltb_spec (size * page) (Z.of_nat (length (selected raw query)))) as [Hlt|Hge].
  - destruct (page_query_plain raw (page + 1) size Hraw) as (Hn & Hpl & Hq).
    cbn [lk_URL]. rewrite url_Parse_page by (done || apply with_page_ne). rewrite <- Hn.
    assert (1 <= page + 1 <= max_int64 ∧ 0 < size <= max_int64) as [? ?] by nia.
    assert (selected (page_query raw (page + 1) size) query = selected raw query) as Hsel.
    { unfold selected. by rewrite (linked_same raw (page + 1) "name"). }
    rewrite (IH _ query (page + 1)); rewrite ?Hsel.
    + replace (Z.to_nat (size * (page + 1 - 1))) with (Z.to_nat (size * (page - 1)) + Z.to_nat size)%nat by nia.
      cbn [mbind option_bind]. f_equal. rewrite <- drop_drop. apply take_drop.
    + unfold asked. by rewrite !linked_same.
    + done.
    + replace (size * (page + 1 - 1)) with (size * (page - 1) + size) by lia. lia.
    + by rewrite Hq.
    + apply param_set; [|unfold in_int64, min_int64; lia]. rewrite Hq. unfold with_page, Values_Set.
      by rewrite lookup_insert_ne, lookup_insert_eq.
    + apply param_set; [|unfold in_int64, min_int64; lia]. rewrite Hq. unfold with_page, Values_Set. by rewrite lookup_insert_eq.
    + lia.
    + lia.
  - rewrite take_ge; [done|]. rewrite length_drop. lia.
Qed.
End pages.


(** Registries by name; a condition on the name keeps those that start with it. *)
Definition toy_model : Model := mkModel [mkField "Name" EmptyString EmptyString EmptyString] [] [].
Definition toy_matching (conds : list (string * list qvalue)) (orders : list string) : list string :=
  let l := filter (λ x, forallb (λ c, match c with
    | (k, [VString v]) => if k == "name__icontains"%string then HasPrefix x v else true
    | _ => true end) conds = true) ["hub"; "quay"; "hub2"; "hub3"]%string in
  match orders with "-name"%string :: _ => reverse l | _ => l end.


(** Unescaping the query of the link loses what follows an ampersand. *)
Example link_loses_filter :
  Values_Get (URL_Query "q=name%3D~a%26b") "q" = "name=~a&b" ∧
  Values_Get (URL_Query (page_query "q=name%3D~a%26b" 2 10)) "q" = "name=~a".
Proof. split; vm_compute; reflexivity. Qed.

(** Cloning repeats the sorts. *)
Example clone_repeats_sorts :
  Sorts (MustClone (Some (mkQuery ∅ [mkSort "name" true] 0 0))) = [mkSort "name" true; mkSort "name" true].
Proof. reflexivity. Qed.

(** A page number may make the offset negative. *)
Example offset_overflow :
  q_Offset (QuerySetter (mkModel [] [] []) (Some (mkQuery ∅ [] (10 ^ 18 + 1) 10)) []) = Some (10 ^ 19 - 2 ^ 64).
Proof. reflexivity. Qed.

(** ** The conditions of a database query *)

(** The suffixes that operators add. *)
Definition operators : list string := [""; "__icontains"; "__gte"; "__lte"; "__in"]%string.

Definition cond_ok (meta : metadata) (kws : list (string * pattern)) (c : string * list qvalue) : Prop :=
  ∃ key p op, (key, p) ∈ kws ∧ op ∈ operators ∧ c.1 = key +:+ op ∧ is_Some (lookup_key meta (before_sep key)).

Definition no_funcs (meta : metadata) : Prop := map_Forall (λ _ k, k_FilterFunc k = None) (md_Keys meta).

Lemma lookup_no_func meta k mk : no_funcs meta → lookup_key meta k = Some mk → k_FilterFunc mk = None.
Proof.
  intros Hn. unfold lookup_key, Filterable. destruct (md_Keys meta !! k) eqn:E; [intros [= <-]|]; eauto.
Qed.

Lemma set_filter_conds meta kws qs kv :
  no_funcs meta → kv ∈ kws → Forall (cond_ok meta kws) (q_Conds qs) →
  Forall (cond_ok meta kws) (q_Conds (set_filter meta qs kv)) ∧ q_Orders (set_filter meta qs kv) = q_Orders qs.
Proof.
  intros Hn Hin Hqs. destruct kv as [key p]. unfold set_filter.
  destruct (lookup_key meta (before_sep key)) as [mk|] eqn:E; [|done]. rewrite (lookup_no_func _ _ _ Hn E).
  assert (∀ op v qs, op ∈ operators → Forall (cond_ok meta kws) (q_Conds qs) →
    Forall (cond_ok meta kws) (q_Conds (qs_Filter (key +:+ op) v qs))) as Hadd.
  { intros op v qs' Hop Hqs'. simpl. apply Forall_app. split; [done|]. constructor; [|constructor].
    exists key, p, op. split_and!; [done|done|done|by rewrite E]. }
  assert (key +:+ "" = key) as Hkey.
  { clear. induction key as [|c key IH]; [done|]. exact (f_equal (String c) IH). }
  destruct p as [v|s|[x|] [y|]|l|l]; (split; [|done]).
  - pose proof (Hadd "" [v] qs) as H. rewrite Hkey in H. apply H; [left|done].
  - apply Hadd; [unfold operators; set_solver|done].
  - apply Hadd; [unfold operators; set_solver|]. apply Hadd; [unfold operators; set_solver|done].
  - apply Hadd; [unfold operators; set_solver|done].
  - apply Hadd; [unfold operators; set_solver|done].
  - done.
  - done.
  - apply Hadd; [unfold operators; set_solver|done].
Qed.

(** Further property (queries stay within the model): every condition of the database query is
    a keyword of the caller with an operator, on a key of the model or one whose
    snake case is, and every order is one the caller asked for on a sortable key
    or a default of the model. *)
Theorem QuerySetter_confined model query kws :
  no_funcs (parseModel model) →
  let qs := QuerySetter model (Some query) kws in
  Forall (cond_ok (parseModel model) kws) (q_Conds qs) ∧
  Forall (λ o, (∃ s, s ∈ Sorts query ∧ Sortable (parseModel model) (s_Key s) = true ∧ o = sorting_of s) ∨
               o ∈ sorting_of <$> md_DefaultSorts (parseModel model)) (q_Orders qs).
Proof.
  intros Hn. cbv zeta. set (meta := parseModel model).
  assert (∀ l qs, l ⊆ kws → Forall (cond_ok meta kws) (q_Conds qs) →
    Forall (cond_ok meta kws) (q_Conds (foldl (set_filter meta) qs l)) ∧
    q_Orders (foldl (set_filter meta) qs l) = q_Orders qs) as Hfold.
  { induction l as [|kv l IH]; intros qs Hl Hqs; [done|]. simpl.
    destruct (set_filter_conds meta kws qs kv Hn ltac:(set_solver) Hqs) as [H1 H2].
    destruct (IH (set_filter meta qs kv) ltac:(set_solver) H1) as [H3 H4]. split; [done|congruence]. }
  destruct (Hfold kws empty_seter ltac:(done) ltac:(constructor)) as [Hc Ho].
  unfold QuerySetter. fold meta. unfold setFilters. set (qs := foldl _ _ _) in *.
  assert (∀ q, q_Conds (setPages q query) = q_Conds q ∧ q_Orders (setPages q query) = q_Orders q) as Hp.
  { intros q. unfold setPages. by destruct (0 <? _). }
  destruct (Hp (setSorts qs query meta)) as [-> ->]. unfold setSorts.
  set (asked := sorting_of <$> filter _ (Sorts query)).
  set (l := match asked with [] => _ | _ => _ end).
  assert (Forall (λ o, (∃ s, s ∈ Sorts query ∧ Sortable meta (s_Key s) = true ∧ o = sorting_of s) ∨
               o ∈ sorting_of <$> md_DefaultSorts meta) l) as Hl.
  { subst l. destruct asked as [|o rest] eqn:E; [apply Forall_forall; tauto|]. rewrite <- E. subst asked. clear E.
    apply Forall_forall. intros x (s & -> & Hs)%list_elem_of_fmap. apply list_elem_of_filter in Hs as [? ?]. eauto. }
  destruct l; [split; [done|by rewrite Ho]|done].
Qed.

(** A model without filter methods. *)
Lemma no_methods model : m_Methods model = [] → no_funcs (parseModel model).
Proof.
  intros Hm. unfold parseModel. rewrite Hm. cbn [foldl].
  assert (∀ l m, no_funcs m → no_funcs (foldl parse_field m l)) as H.
  { induction l as [|f l IH]; intros m Hl; [done|]. apply IH. unfold parse_field.
    case_bool_decide; [done|]. destruct (parseSortable f). unfold no_funcs. simpl.
    apply map_Forall_insert_2; [done|]. by apply map_Forall_insert_2. }
  destruct (m_GetDefaultSorts model); apply (H _ (mkMetadata ∅ [])), map_Forall_empty.
Qed.

(** Some fields of the audit log: [src/pkg/audit/model/model.go]. *)
Definition ex_model : Model :=
  mkModel [mkField "ID" "pk;auto;column(id)" "" ""; mkField "Operation" "column(operation)" "" "";
           mkField "OpTime" "column(op_time)" "" "default:desc"] [] [].

Lemma QuerySetter_confined_witness :
  q_Conds (QuerySetter ex_model (Some (mkQuery ∅ [mkSort "secret" false] 0 0))
    [("operation", FuzzyMatchValue "del"); ("secret", Plain (VInt 1))]%string)
  = [("operation__icontains", [VString "del"])]%string ∧
  Forall (λ o, (∃ s, s ∈ [mkSort "secret" false] ∧ Sortable (parseModel ex_model) (s_Key s) = true ∧ o = sorting_of s) ∨
               o ∈ sorting_of <$> md_DefaultSorts (parseModel ex_model)) ["-OpTime"%string].
Proof.
  split; [reflexivity|].
  exact (proj2 (QuerySetter_confined ex_model (mkQuery ∅ [mkSort "secret" false] 0 0)
    [("operation", FuzzyMatchValue "del"); ("secret", Plain (VInt 1))]%string (no_methods ex_model eq_refl))).
Defined.

(** A key in capitals passes the check of the keys and reaches the ORM as it is,
    which has no column of that name. *)
Example unknown_column :
  md_Keys (parseModel ex_model) !! "OP_TIME" = None ∧
  q_Conds (QuerySetter ex_model (Some (NewQuery ∅)) [("OP_TIME", Plain (VInt 1))]%string) = [("OP_TIME", [VInt 1])]%string.
Proof. split; reflexivity. Qed.

(** A field that is annotated as not filterable is filtered. *)
Example filterable_ignored :
  q_Conds (QuerySetter (mkModel [mkField "Secret" "column(secret)" "false" ""] [] []) (Some (NewQuery ∅))
    [("secret", Plain (VInt 1))]%string) = [("secret", [VInt 1])]%string.
Proof. reflexivity. Qed.
