(* ===== verification/Replication.v ===== *)
(** * Replication: resources, filters, policies and destination names

    [src/pkg/reg/model] (resources, filters), [src/pkg/reg/filter] (which
    repositories, artifacts and tags a policy selects), [src/pkg/reg/util]
    (patterns that name a finite set), the policy of
    [src/controller/replication/model/model.go] with its conversion to and from
    the stored one, and the names at the destination of
    [src/controller/replication/flow/stage.go].  Pattern matching is the vendored
    doublestar, the JSON of stored filters and triggers is a parameter.  Metadata
    of resources is never nil. *)

From S2P Require Import Prelude GoErrors GoStrings GoUrl.
From Stdlib Require Import Ascii.
Local Open Scope Z_scope.
Local Open Scope harbor_scope.

Definition BadRequest (msg : string) : error := WithMessage (WithCode (New EmptyString) BadRequestCode) msg.

(** ** [src/pkg/reg/model] *)

Record Credential := mkCredential { cr_Type : string; cr_AccessKey : string; cr_AccessSecret : string }.

Record Registry := mkRegistry {
  rg_ID : Z; rg_Name : string; rg_Description : string; rg_Type : string; rg_URL : string; rg_TokenServiceURL : string;
  rg_Credential : option Credential; rg_Insecure : bool; rg_Status : string;
}.

(** A registry of which only some fields are set. *)
Definition bare_registry (id : Z) (name type url : string) : Registry :=
  mkRegistry id name EmptyString type url EmptyString None false EmptyString.

Record RArtifact := mkRArtifact {
  ra_Type : string;
  ra_Digest : string;
  ra_Labels : list string;
  ra_Tags : list string;
  ra_IsAcc : bool;
  ra_ParentTags : list string;
}.

Record Resource := mkResource {
  rs_Type : string;
  rs_Repository : string;
  rs_RepoMetadata : string;
  rs_Artifacts : list RArtifact;
  rs_Vtags : list string;
  rs_Registry : option Registry;
  rs_ExtendedInfo : string;
  rs_Deleted : bool;
  rs_IsDeleteTag : bool;
  rs_Override : bool;
  rs_Skip : bool;
}.

(** The dynamic types of a filter's value: a string, a slice of strings, a slice
    of anything (a string or something else each), something else. *)
Inductive FilterValue :=
  | FVString (s : string)
  | FVStrings (l : list string)
  | FVItems (l : list (option string))
  | FVOther.

Record Filter := mkFilter { fl_Type : string; fl_Value : FilterValue; fl_Decoration : string }.

Definition FilterTypeResource : string := "resource".
Definition FilterTypeName : string := "name".
Definition FilterTypeTag : string := "tag".
Definition FilterTypeLabel : string := "label".
Definition TriggerTypeManual : string := "manual".
Definition TriggerTypeScheduled : string := "scheduled".
Definition TriggerTypeEventBased : string := "event_based".
Definition Matches : string := "matches".
Definition Excludes : string := "excludes".
Definition ResourceTypeArtifact : string := "artifact".
Definition ResourceTypeImage : string := "image".

Definition check_decoration (f : Filter) : result unit :=
  if negb (fl_Decoration f == EmptyString) && negb (fl_Decoration f == Matches) && negb (fl_Decoration f == Excludes)
  then Err (BadRequest ("invalid filter decoration, :" +:+ fl_Decoration f))
  else Ok tt.

Definition Filter_Validate (f : Filter) : result unit :=
  if (fl_Type f == FilterTypeResource) || (fl_Type f == FilterTypeName) || (fl_Type f == FilterTypeTag)
  then
    match fl_Value f with
    | FVString value =>
        if (fl_Type f == FilterTypeResource) && negb ((value == ResourceTypeArtifact) || (value == ResourceTypeImage))
        then Err (BadRequest ("invalid resource filter: " +:+ value))
        else if ((fl_Type f == FilterTypeName) || (fl_Type f == FilterTypeResource)) && negb (fl_Decoration f == EmptyString)
        then Err (BadRequest "only tag and label filter support decoration")
        else check_decoration f
    | _ => Err (BadRequest "the type of filter value isn't string")
    end
  else if fl_Type f == FilterTypeLabel
  then
    match fl_Value f with
    | FVItems l =>
        if bool_decide (Forall is_Some l) then check_decoration f
        else Err (BadRequest "the type of label filter value isn't string slice")
    | _ => Err (BadRequest "the type of label filter value isn't string slice")
    end
  else Err (BadRequest "invalid filter type").

(** ** [src/pkg/reg/filter] *)

Section filter.
Context (doublestar_Match : string → string → result bool).

(** [util.Match] *)
Definition Match (pattern str : string) : result bool :=
  if pattern == EmptyString then Ok true else doublestar_Match pattern str.

Inductive ArtifactFilter :=
  | artifactLabelFilter (labels : list string) (decoration : string)
  | artifactTagFilter (pattern decoration : string).

Definition type_assertion {A} : result A := Err (Panic "interface conversion").

Fixpoint BuildArtifactFilters (filters : list Filter) : result (list ArtifactFilter) :=
  match filters with
  | [] => Ok []
  | f :: filters =>
      let built :=
        if fl_Type f == FilterTypeLabel
        then match fl_Value f with
             | FVStrings l => Ok [artifactLabelFilter l (fl_Decoration f)]
             | _ => type_assertion
             end
        else if fl_Type f == FilterTypeTag
        then match fl_Value f with
             | FVString s => Ok [artifactTagFilter s (fl_Decoration f)]
             | _ => type_assertion
             end
        else Ok [] in
      match built, BuildArtifactFilters filters with
      | Ok x, Ok l => Ok (x ++ l)
      | Err e, _ => Err e
      | _, Err e => Err e
      end
  end.

(** Whether a match counts, by the decoration. *)
Definition decorated (decoration : string) (match_ : bool) : bool :=
  if decoration == Excludes then negb match_ else match_.

(** The artifacts a function keeps, perhaps changed; the first error ends. *)
Fixpoint keep_each {A} (f : A → result (option A)) (l : list A) : result (list A) :=
  match l with
  | [] => Ok []
  | a :: l =>
      match f a with
      | Err e => Err e
      | Ok o =>
          match keep_each f l with
          | Err e => Err e
          | Ok l => Ok (match o with Some a => a :: l | None => l end)
          end
      end
  end.

(** The tags that pass a pattern. *)
Definition tags_passing (pattern decoration : string) (tags : list string) : result (list string) :=
  keep_each (λ t, match Match pattern t with
                  | Ok m => Ok (if decorated decoration m then Some t else None)
                  | Err e => Err e
                  end) tags.

Definition tag_filter_one (pattern decoration : string) (a : RArtifact) : result (option RArtifact) :=
  let tagsForMatching := if ra_IsAcc a then ra_ParentTags a else ra_Tags a in
  match tagsForMatching with
  | [] =>
      match Match pattern EmptyString with
      | Ok m => Ok (if decorated decoration m then Some a else None)
      | Err e => Err e
      end
  | _ =>
      match tags_passing pattern decoration tagsForMatching with
      | Err e => Err e
      | Ok [] => Ok None
      | Ok tags =>
          Ok (Some (mkRArtifact (ra_Type a) (ra_Digest a) (ra_Labels a)
                      (if ra_IsAcc a then ra_Tags a else tags) false []))
      end
  end.

Definition label_filter_one (labels : list string) (decoration : string) (a : RArtifact) : option RArtifact :=
  if decorated decoration (bool_decide (Forall (λ l, l ∈ ra_Labels a) labels)) then Some a else None.

Definition filter_artifacts (f : ArtifactFilter) (artifacts : list RArtifact) : result (list RArtifact) :=
  match f with
  | artifactLabelFilter labels decoration =>
      if bool_decide (labels = []) then Ok artifacts
      else keep_each (λ a, Ok (label_filter_one labels decoration a)) artifacts
  | artifactTagFilter pattern decoration =>
      if pattern == EmptyString then Ok artifacts
      else keep_each (tag_filter_one pattern decoration) artifacts
  end.

(** [ArtifactFilters.Filter] *)
Fixpoint ArtifactFilters_Filter (fs : list ArtifactFilter) (artifacts : list RArtifact) : result (list RArtifact) :=
  match fs with
  | [] => Ok artifacts
  | f :: fs => match filter_artifacts f artifacts with Ok l => ArtifactFilters_Filter fs l | Err e => Err e end
  end.

Definition DoFilterArtifacts (artifacts : list RArtifact) (filters : list Filter) : result (list RArtifact) :=
  match BuildArtifactFilters filters with
  | Ok fs => ArtifactFilters_Filter fs artifacts
  | Err e => Err e
  end.

(** The patterns of the name filters. *)
Fixpoint BuildRepositoryFilters (filters : list Filter) : result (list string) :=
  match filters with
  | [] => Ok []
  | f :: filters =>
      let built := if fl_Type f == FilterTypeName
                   then match fl_Value f with FVString s => Ok [s] | _ => type_assertion end
                   else Ok [] in
      match built, BuildRepositoryFilters filters with
      | Ok x, Ok l => Ok (x ++ l)
      | Err e, _ => Err e
      | _, Err e => Err e
      end
  end.

Definition repositoryNameFilter (pattern : string) (repositories : list string) : result (list string) :=
  if pattern == EmptyString then Ok repositories
  else keep_each (λ r, match Match pattern r with
                       | Ok m => Ok (if m then Some r else None)
                       | Err e => Err e
                       end) repositories.

Fixpoint RepositoryFilters_Filter (fs : list string) (repositories : list string) : result (list string) :=
  match fs with
  | [] => Ok repositories
  | f :: fs => match repositoryNameFilter f repositories with Ok l => RepositoryFilters_Filter fs l | Err e => Err e end
  end.

Definition DoFilterRepositories (repositories : list string) (filters : list Filter) : result (list string) :=
  match BuildRepositoryFilters filters with
  | Ok fs => RepositoryFilters_Filter fs repositories
  | Err e => Err e
  end.

Definition filter_resource (repoFilters : list string) (artFilters : list ArtifactFilter) (r : Resource)
  : result (option Resource) :=
  match RepositoryFilters_Filter repoFilters [rs_Repository r] with
  | Err e => Err e
  | Ok [] => Ok None
  | Ok (name :: _) =>
      match ArtifactFilters_Filter artFilters (rs_Artifacts r) with
      | Err e => Err e
      | Ok [] => Ok None
      | Ok artifacts =>
          Ok (Some (mkResource (rs_Type r) name (rs_RepoMetadata r) artifacts [] (rs_Registry r) (rs_ExtendedInfo r)
                      (rs_Deleted r) (rs_IsDeleteTag r) (rs_Override r) false))
      end
  end.

Definition DoFilterResources (resources : list Resource) (filters : list Filter) : result (list Resource) :=
  match BuildRepositoryFilters filters with
  | Err e => Err e
  | Ok repoFilters =>
      match BuildArtifactFilters filters with
      | Err e => Err e
      | Ok artFilters => keep_each (filter_resource repoFilters artFilters) resources
      end
  end.
End filter.

(** ** [src/pkg/reg/util/pattern.go] *)

Fixpoint contains_any (p : ascii → bool) (s : string) : bool :=
  match s with EmptyString => false | String c s => p c || contains_any p s end.

Definition wild_char (c : ascii) : bool :=
  bool_decide (c ∈ ["*"; "?"; "["; "\"; "]"; "^"; "/"]%char).
Definition brace_char (c : ascii) : bool := bool_decide (c ∈ ["{"; "}"; ","]%char).

(** Before and after the last occurrence of a character. *)
Fixpoint cut_last (s : string) (c : ascii) : option (string * string) :=
  match s with
  | EmptyString => None
  | String d s =>
      match cut_last s c with
      | Some (a, b) => Some (String d a, b)
      | None => if bool_decide (d = c) then Some (EmptyString, s) else None
      end
  end.

Fixpoint count_of_char (c : ascii) (s : string) : nat :=
  match s with EmptyString => 0 | String d s => (if bool_decide (d = c) then 1 else 0) + count_of_char c s end.

Definition IsSpecificPathComponent (component : string) : option (list string) :=
  if component == EmptyString then None
  else if contains_any wild_char component then None
  else if negb (contains_any brace_char component) then Some [component]
  else if (1 <? count_of_char "{" component)%nat then None
  else
    let '(prefix, rest, found) := Cut component "{" in
    if negb found then None
    else
      match cut_last rest "}" with
      | None => None
      | Some (inside, suffix) => Some ((λ str, prefix +:+ str +:+ suffix) <$> Split inside ",")
      end.

Definition combinationPathComponents (components1 components2 : list string) : list string :=
  if bool_decide (components1 = []) then components2
  else if bool_decide (components2 = []) then components1
  else c1 ← components1; c2 ← components2; [c1 +:+ "/" +:+ c2].

Definition IsSpecificPath (path : string) : option (list string) :=
  if path == EmptyString then None
  else
    components ← mapM IsSpecificPathComponent (Split path "/");
    Some (foldl combinationPathComponents [] components).

(** [ParseRepository] of [util.go]: what precedes the last slash, and the rest. *)
Definition reg_ParseRepository (repository : string) : string * string :=
  match cut_last repository "/" with Some (a, b) => (a, b) | None => (EmptyString, repository) end.

(** ** [src/controller/replication/flow/stage.go] *)

Definition OnlyTwo : string := "ONLY_TWO".
Definition AtLeastTwo : string := "AT_LEAST_TWO".

Definition go_quote (s : string) : string := String dquote (s +:+ String dquote EmptyString).
Definition go_slice (l : list string) : string := "[" +:+ join_with " " l +:+ "]".

Definition replaceNamespace (repository namespace : string) (replaceCount : Z) (dstRepoComponentPathType : string)
  : result string :=
  if namespace == EmptyString then Ok repository
  else
    let srcRepoPathComponents := Split repository "/" in
    let srcLength := Z.of_nat (length srcRepoPathComponents) in
    let init := take (length srcRepoPathComponents - 1) srcRepoPathComponents in
    let dstRepoPrefix :=
      if replaceCount <? 0 then Ok namespace
      else if srcLength - 1 <? replaceCount
      then Err (BadRequest ("the source repository " +:+ go_quote repository +:+ " contains only " +:+ pretty (srcLength - 1)
             +:+ " path components " +:+ go_slice init
             +:+ " excepting the last one, but the destination namespace flattening level is " +:+ pretty replaceCount))
      else Ok (namespace +:+ "/" +:+ join_with "/" (drop (Z.to_nat replaceCount) init)) in
    match dstRepoPrefix with
    | Err e => Err e
    | Ok dstRepoPrefix =>
        let name := default EmptyString (last srcRepoPathComponents) in
        let dstRepo := path_Join [dstRepoPrefix; name] in
        let dstRepoPathComponents := Split dstRepo "/" in
        let dstLength := Z.of_nat (length dstRepoPathComponents) in
        if (dstRepoComponentPathType == OnlyTwo) && negb (dstLength =? 2)
        then Err (BadRequest ("the destination repository " +:+ go_quote dstRepo +:+ " contains " +:+ pretty dstLength
               +:+ " path components " +:+ go_slice dstRepoPathComponents
               +:+ ", but the destination registry only supports 2"))
        else if (dstRepoComponentPathType == AtLeastTwo) && (dstLength <? 2)
        then Err (BadRequest ("the destination repository " +:+ go_quote dstRepo +:+ " contains only " +:+ pretty dstLength
               +:+ " path components " +:+ go_slice dstRepoPathComponents
               +:+ ", but the destination registry requires at least 2"))
        else Ok dstRepo
    end.

Definition count_items (l : list RArtifact) : Z :=
  foldl (λ n a, if bool_decide (ra_Tags a = []) then if ra_Digest a == EmptyString then n else n + 1
                else n + Z.of_nat (length (ra_Tags a))) 0 l.

Definition getResourceName (r : Resource) : string :=
  let n := match rs_Artifacts r with [] => Z.of_nat (length (rs_Vtags r)) | l => count_items l end in
  rs_Repository r +:+ " [" +:+ pretty n +:+ " item(s) in total]".

Definition set_registry (reg : option Registry) (r : Resource) : Resource :=
  mkResource (rs_Type r) (rs_Repository r) (rs_RepoMetadata r) (rs_Artifacts r) (rs_Vtags r) reg (rs_ExtendedInfo r)
    (rs_Deleted r) (rs_IsDeleteTag r) (rs_Override r) (rs_Skip r).

(** ** [src/controller/replication/model/model.go] *)

Record Trigger := mkTrigger { tr_Type : string; tr_Cron : option string }.

Record Policy := mkPolicy {
  po_ID : Z;
  po_Name : string;
  po_Description : string;
  po_Creator : string;
  po_SrcRegistry : option Registry;
  po_DestRegistry : option Registry;
  po_DestNamespace : string;
  po_ReplaceCount : Z;
  po_Filters : list Filter;
  po_Trigger : option Trigger;
  po_ReplicateDeletion : bool;
  po_Override : bool;
  po_Enabled : bool;
  po_Speed : Z;
  po_CopyByChunk : bool;
}.

Definition assembleSourceResources (resources : list Resource) (policy : Policy) : list Resource :=
  set_registry (po_SrcRegistry policy) <$> resources.

Fixpoint assembleDestinationResources (resources : list Resource) (policy : Policy) (pathType : string)
  : result (list Resource) :=
  match resources with
  | [] => Ok []
  | r :: resources =>
      match replaceNamespace (rs_Repository r) (po_DestNamespace policy) (po_ReplaceCount policy) pathType with
      | Err e => Err e
      | Ok name =>
          match assembleDestinationResources resources policy pathType with
          | Err e => Err e
          | Ok l =>
              Ok (mkResource (rs_Type r) name (rs_RepoMetadata r) (rs_Artifacts r) (rs_Vtags r) (po_DestRegistry policy)
                    (rs_ExtendedInfo r) (rs_Deleted r) (rs_IsDeleteTag r) (po_Override policy) (rs_Skip r) :: l)
          end
      end
  end.

Definition IsScheduledTrigger (p : Policy) : bool :=
  po_Enabled p && match po_Trigger p with None => false | Some t => tr_Type t == TriggerTypeScheduled end.

Section policy.
(** [lib.RepositoryNameRe.MatchString], [utils.CronParser().Parse], and the JSON
    of filters and of a trigger. *)
Context (valid_namespace valid_cron : string → bool).

Fixpoint validate_filters (l : list Filter) : result unit :=
  match l with
  | [] => Ok tt
  | f :: l => match Filter_Validate f with Err e => Err e | Ok _ => validate_filters l end
  end.

Definition registry_id (r : option Registry) : Z := match r with Some r => rg_ID r | None => 0 end.

Definition validate_trigger (t : Trigger) : result unit :=
  if (tr_Type t == TriggerTypeManual) || (tr_Type t == TriggerTypeEventBased) then Ok tt
  else if tr_Type t == TriggerTypeScheduled
  then
    let cron := default EmptyString (tr_Cron t) in
    if cron == EmptyString
    then Err (BadRequest ("the cron string cannot be empty when the trigger type is " +:+ TriggerTypeScheduled))
    else if valid_cron cron then Ok tt
    else Err (BadRequest ("invalid cron string for scheduled trigger: " +:+ cron))
  else Err (BadRequest "invalid trigger type").

Definition Policy_Validate (p : Policy) : result unit :=
  if po_Name p == EmptyString then Err (BadRequest "empty name")
  else
    let srcRegistryID := registry_id (po_SrcRegistry p) in
    let dstRegistryID := registry_id (po_DestRegistry p) in
    if negb (srcRegistryID =? 0) && negb (dstRegistryID =? 0) || (srcRegistryID =? 0) && (dstRegistryID =? 0)
    then Err (BadRequest "either src_registry or dest_registry should be empty and the other one shouldn't be empty")
    else
      match validate_filters (po_Filters p) with
      | Err e => Err e
      | Ok _ =>
          if negb (po_DestNamespace p == EmptyString) && negb (valid_namespace (po_DestNamespace p))
          then Err (BadRequest ("invalid destination namespace: " +:+ po_DestNamespace p))
          else match po_Trigger p with None => Ok tt | Some t => validate_trigger t end
      end.

(** What the stored JSON decodes to, with the fields of older versions. *)
Record FilterItem := mkFilterItem {
  it_Type : string; it_Value : option FilterValue; it_Decoration : string; it_Kind : string; it_Pattern : string
}.
Record ScheduleParam := mkScheduleParam { sp_Type : string; sp_Weekday : Z; sp_Offtime : Z }.
Record TriggerItem := mkTriggerItem {
  ti_Type : string; ti_Cron : option string; ti_Kind : string; ti_Param : option ScheduleParam
}.

Context (unmarshal_filters : string → result (list FilterItem)).
Context (unmarshal_trigger : string → result TriggerItem).
Context (marshal_filters : list Filter → string).
Context (marshal_trigger : Trigger → string).

(** [strings.Replace(s, "**", new, 1)] *)
Fixpoint replace_stars (s new : string) : string :=
  match s with
  | String "*" (String "*" s) => new +:+ s
  | String c s => String c (replace_stars s new)
  | EmptyString => EmptyString
  end.

(** The first item that is a name filter gets the repository in place of its stars. *)
Fixpoint merge_repository (repository : string) (items : list FilterItem) : list FilterItem :=
  match items with
  | [] => []
  | it :: items =>
      if it_Type it == FilterTypeName
      then match it_Value it with
           | Some (FVString name) =>
               if name == EmptyString then it :: items
               else mkFilterItem (it_Type it) (Some (FVString (replace_stars name repository))) (it_Decoration it)
                      (it_Kind it) (it_Pattern it) :: items
           | _ => it :: items
           end
      else it :: merge_repository repository items
  end.

(** The value of a filter that is kept: labels become a slice of strings. *)
Definition convert_value (type : string) (v : option FilterValue) : result FilterValue :=
  if type == FilterTypeResource
  then match v with Some (FVString s) => Ok (FVString s) | _ => type_assertion end
  else if type == FilterTypeLabel
  then match v with
       | Some (FVItems l) => match mapM id l with Some l => Ok (FVStrings l) | None => type_assertion end
       | _ => type_assertion
       end
  else Ok (default FVOther v).

(** The item at index [i] of the list, which earlier items may have changed;
    [n] items remain. *)
Fixpoint parse_items (n i : nat) (items : list FilterItem) (acc : list Filter) : result (list Filter) :=
  match n with
  | O => Ok acc
  | S n =>
      match items !! i with
      | None => Ok acc
      | Some it =>
          let keep type value :=
            match convert_value type value with
            | Ok v => parse_items n (S i) items (acc ++ [mkFilter type v (it_Decoration it)])
            | Err e => Err e
            end in
          if it_Type it == EmptyString
          then
            let value := match it_Value it with None => Some (FVString (it_Pattern it)) | v => v end in
            if it_Kind it == "repository"
            then
              match value with
              | Some (FVString repository) =>
                  parse_items n (S i) (if repository == EmptyString then items else merge_repository repository items) acc
              | _ => parse_items n (S i) items acc
              end
            else if it_Kind it == "tag" then keep FilterTypeTag value
            else parse_items n (S i) items acc
          else keep (it_Type it) (it_Value it)
      end
  end.

Definition parseFilters (str : string) : result (list Filter) :=
  if str == EmptyString then Ok []
  else match unmarshal_filters str with
       | Err e => Err e
       | Ok items => parse_items (length items) 0 items []
       end.

(** Quotients and remainders are those of Go, towards zero. *)
Definition parseScheduleParamToCron (param : option ScheduleParam) : string :=
  match param with
  | None => EmptyString
  | Some param =>
      let offtime := Z.rem (sp_Offtime param) (3600 * 24) in
      let hour := Z.quot offtime 3600 in
      let offtime := Z.rem offtime 3600 in
      let minute := Z.quot offtime 60 in
      let second := Z.rem offtime 60 in
      let time := pretty second +:+ " " +:+ pretty minute +:+ " " +:+ pretty hour in
      if sp_Type param == "Weekly" then time +:+ " * * " +:+ pretty (Z.rem (sp_Weekday param) 7)
      else time +:+ " * * *"
  end.

Definition parseTrigger (str : string) : result (option Trigger) :=
  if str == EmptyString then Ok None
  else
    match unmarshal_trigger str with
    | Err e => Err e
    | Ok item =>
        if ti_Type item == EmptyString
        then
          if ti_Kind item == "Manual" then Ok (Some (mkTrigger TriggerTypeManual (ti_Cron item)))
          else if ti_Kind item == "Immediate" then Ok (Some (mkTrigger TriggerTypeEventBased (ti_Cron item)))
          else if ti_Kind item == "Scheduled"
          then Ok (Some (mkTrigger TriggerTypeScheduled (Some (parseScheduleParamToCron (ti_Param item)))))
          else Ok None
        else Ok (Some (mkTrigger (ti_Type item) (ti_Cron item)))
    end.

(** The stored policy: [src/pkg/replication/model/model.go]. *)
Record PolicyRow := mkPolicyRow {
  pr_ID : Z; pr_Name : string; pr_Description : string; pr_Creator : string;
  pr_SrcRegistryID : Z; pr_DestRegistryID : Z; pr_DestNamespace : string; pr_ReplaceCount : Z;
  pr_Filters : string; pr_Trigger : string;
  pr_ReplicateDeletion : bool; pr_Override : bool; pr_Enabled : bool; pr_Speed : Z; pr_CopyByChunk : bool;
}.

Definition only_id (id : Z) : option Registry :=
  if 0 <? id then Some (bare_registry id EmptyString EmptyString EmptyString) else None.

Definition From_row (r : PolicyRow) : result Policy :=
  match parseFilters (pr_Filters r) with
  | Err e => Err e
  | Ok filters =>
      match parseTrigger (pr_Trigger r) with
      | Err e => Err e
      | Ok trigger =>
          Ok (mkPolicy (pr_ID r) (pr_Name r) (pr_Description r) (pr_Creator r) (only_id (pr_SrcRegistryID r))
                (only_id (pr_DestRegistryID r)) (pr_DestNamespace r) (pr_ReplaceCount r) filters trigger
                (pr_ReplicateDeletion r) (pr_Override r) (pr_Enabled r) (pr_Speed r) (pr_CopyByChunk r))
      end
  end.

Definition To_row (p : Policy) : PolicyRow :=
  mkPolicyRow (po_ID p) (po_Name p) (po_Description p) (po_Creator p) (registry_id (po_SrcRegistry p))
    (registry_id (po_DestRegistry p)) (po_DestNamespace p) (po_ReplaceCount p)
    (match po_Filters p with [] => EmptyString | l => marshal_filters l end)
    (match po_Trigger p with None => EmptyString | Some t => marshal_trigger t end)
    (po_ReplicateDeletion p) (po_Override p) (po_Enabled p) (po_Speed p) (po_CopyByChunk p).
End policy.
