(* ===== verification/ReplicationSpec.v ===== *)
(** * What replication selects and how it names it

    The filters against a declarative reading, the destination names as path
    components, and policies stored and read back. *)

From S2P Require Import Prelude GoErrors GoStrings GoUrl Replication.
From Stdlib Require Import Ascii.
Local Open Scope Z_scope.
Local Open Scope harbor_scope.

(** ** Filters *)

Section filters.
Context (doublestar : string → string → result bool).

(** The outcome of a pattern that the matcher accepts. *)
Definition matches (pattern s : string) : bool :=
  match Match doublestar pattern s with Ok b => b | Err _ => false end.

Definition good_pattern (pattern : string) : Prop := ∀ s, is_ok (Match doublestar pattern s) = true.

Lemma good_match p s : good_pattern p → Match doublestar p s = Ok (matches p s).
Proof. intros H. specialize (H s). unfold matches. by destruct (Match doublestar p s). Qed.

Definition good_filter (f : ArtifactFilter) : Prop :=
  match f with artifactTagFilter p _ => good_pattern p | artifactLabelFilter _ _ => True end.

(** Whether a filter admits a tag, the empty one for an untagged artifact. *)
Definition admits_tag (t : string) (f : ArtifactFilter) : Prop :=
  match f with
  | artifactTagFilter p d => p = EmptyString ∨ decorated d (matches p t) = true
  | artifactLabelFilter _ _ => True
  end.

Definition admits_labels (a : RArtifact) (f : ArtifactFilter) : Prop :=
  match f with
  | artifactLabelFilter ls d => ls = [] ∨ decorated d (bool_decide (Forall (λ l, l ∈ ra_Labels a) ls)) = true
  | artifactTagFilter _ _ => True
  end.

#[local] Instance admits_tag_dec t f : Decision (admits_tag t f).
Proof. destruct f; apply _. Defined.
#[local] Instance admits_labels_dec a f : Decision (admits_labels a f).
Proof. destruct f; apply _. Defined.

Definition with_tags (a : RArtifact) (tags : list string) : RArtifact :=
  mkRArtifact (ra_Type a) (ra_Digest a) (ra_Labels a) tags false [].

(** What is left of an artifact: with its labels admitted, the tags that every
    filter admits. *)
Definition selected (fs : list ArtifactFilter) (a : RArtifact) : option RArtifact :=
  if bool_decide (Forall (admits_labels a) fs) then
    match ra_Tags a with
    | [] => if bool_decide (Forall (admits_tag EmptyString) fs) then Some a else None
    | tags =>
        match filter (λ t, Forall (admits_tag t) fs) tags with
        | [] => None
        | tags => Some (with_tags a tags)
        end
    end
  else None.

Definition independent (a : RArtifact) : Prop := ra_IsAcc a = false ∧ ra_ParentTags a = [].

Lemma with_own_tags a : independent a → with_tags a (ra_Tags a) = a.
Proof. destruct a. unfold independent, with_tags. simpl. by intros [-> ->]. Qed.

Lemma keep_each_pure {A} (f : A → result (option A)) (g : A → option A) l :
  (∀ a, a ∈ l → f a = Ok (g a)) → keep_each f l = Ok (omap g l).
Proof.
  induction l as [|a l IH]; intros H; [done|]. simpl. rewrite H by left. rewrite IH by (intros; apply H; by right).
  by destruct (g a).
Qed.

Lemma omap_guard {A} (P : A → Prop) `{!∀ x, Decision (P x)} (b : A → bool) (l : list A) :
  (∀ x, b x = bool_decide (P x)) → omap (λ t, if b t then Some t else None) l = filter P l.
Proof.
  intros Hb. induction l as [|x l IH]; [done|]. rewrite filter_cons. unfold omap in *. cbn [list_omap].
  rewrite Hb, IH. case_bool_decide; [by rewrite decide_True|by rewrite decide_False].
Qed.

Lemma omap_ext_all {A B} (f g : A → option B) (l : list A) : (∀ a, f a = g a) → omap f l = omap g l.
Proof. intros H. induction l as [|a l IH]; [done|]. unfold omap in *. cbn [list_omap]. by rewrite H, IH. Qed.

(** The filters one by one. *)
Lemma label_filter_spec ls d l :
  filter_artifacts doublestar (artifactLabelFilter ls d) l = Ok (filter (λ a, admits_labels a (artifactLabelFilter ls d)) l).
Proof.
  cbn [filter_artifacts]. case_bool_decide as E.
  - rewrite filter_all; [done|]. apply Forall_forall. by left.
  - rewrite (keep_each_pure _ (label_filter_one ls d)) by done. f_equal.
    unfold label_filter_one. apply omap_guard. intros a. simpl.
    destruct (decorated d _); symmetry; [by apply bool_decide_eq_true; right|].
    apply bool_decide_eq_false. naive_solver.
Qed.

Definition tag_selected (f : ArtifactFilter) (a : RArtifact) : option RArtifact :=
  match ra_Tags a with
  | [] => if bool_decide (admits_tag EmptyString f) then Some a else None
  | tags => match filter (λ t, admits_tag t f) tags with [] => None | tags => Some (with_tags a tags) end
  end.

Lemma admits_decorated p d t : p ≠ EmptyString →
  decorated d (matches p t) = bool_decide (admits_tag t (artifactTagFilter p d)).
Proof.
  intros Hp. simpl. destruct (decorated d _); symmetry; [by apply bool_decide_eq_true; right|].
  apply bool_decide_eq_false. naive_solver.
Qed.

Lemma tag_filter_spec p d l :
  good_pattern p → Forall independent l →
  filter_artifacts doublestar (artifactTagFilter p d) l = Ok (omap (tag_selected (artifactTagFilter p d)) l).
Proof.
  intros Hp Hl. cbn [filter_artifacts]. rewrite Forall_forall in Hl. case_bool_decide as E.
  - f_equal. subst p. induction l as [|a l IH]; [done|]. unfold omap in *. cbn [list_omap].
    rewrite <- IH by (intros; apply Hl; by right). unfold tag_selected.
    destruct (ra_Tags a) as [|t tags] eqn:Et; [by rewrite bool_decide_true by by left|].
    rewrite filter_all by (apply Forall_forall; by left). rewrite <- Et, with_own_tags by (apply Hl; by left). done.
  - apply keep_each_pure. intros a Ha. destruct (Hl _ Ha) as [Hacc _]. unfold tag_filter_one, tag_selected. rewrite Hacc.
    destruct (ra_Tags a) as [|t tags] eqn:Et; [by rewrite good_match, admits_decorated|].
    unfold tags_passing. rewrite (keep_each_pure _ (λ t, if decorated d (matches p t) then Some t else None))
      by (intros; by rewrite good_match).
    rewrite (omap_guard (λ t, admits_tag t (artifactTagFilter p d))) by (intros; by apply admits_decorated).
    by destruct (filter _ _).
Qed.

(** Selecting by one more filter. *)
Lemma selected_label ls d fs (l : list RArtifact) :
  omap (selected fs) (filter (λ a, admits_labels a (artifactLabelFilter ls d)) l) = omap (selected (artifactLabelFilter ls d :: fs)) l.
Proof.
  induction l as [|a l IH]; [done|]. rewrite filter_cons. unfold omap in *. cbn [list_omap].
  assert (selected (artifactLabelFilter ls d :: fs) a
    = if decide (admits_labels a (artifactLabelFilter ls d)) then selected fs a else None) as ->.
  { unfold selected. rewrite (bool_decide_ext _ _ (Forall_cons _ _ _)).
    case_decide as E; [|by rewrite bool_decide_false by tauto].
    assert (admits_labels a (artifactLabelFilter ls d) ∧ Forall (admits_labels a) fs ↔ Forall (admits_labels a) fs) as H1 by tauto.
    rewrite (bool_decide_ext _ _ H1). destruct (bool_decide _); [|done].
    destruct (ra_Tags a) as [|t tags].
    - rewrite (bool_decide_ext (Forall _ (_ :: _)) (Forall (admits_tag EmptyString) fs)); [done|].
      rewrite Forall_cons. simpl. tauto.
    - rewrite (filter_ext_in (λ t, Forall (admits_tag t) (_ :: fs)) (λ t, Forall (admits_tag t) fs)); [done|].
      intros x _. rewrite Forall_cons. simpl. tauto. }
  case_decide; cbn [list_omap]; by rewrite IH.
Qed.

Lemma selected_tag p d fs a :
  independent a →
  match tag_selected (artifactTagFilter p d) a with Some a' => selected fs a' | None => None end
  = selected (artifactTagFilter p d :: fs) a ∧
  from_option independent True (tag_selected (artifactTagFilter p d) a).
Proof.
  intros Ha. set (f := artifactTagFilter p d).
  assert (∀ a', ra_Labels a' = ra_Labels a → Forall (admits_labels a) (f :: fs) ↔ Forall (admits_labels a') fs) as Hlab.
  { intros a' Hl. rewrite Forall_cons. simpl. rewrite !Forall_forall.
    assert (∀ g, admits_labels a g ↔ admits_labels a' g) as Hg by (intros []; simpl; by rewrite ?Hl).
    split; [intros [_ H] g Hin|intros H; split; [done|]; intros g Hin]; apply Hg; auto. }
  unfold tag_selected, selected. destruct (ra_Tags a) as [|t tags] eqn:Et.
  - rewrite (bool_decide_ext (Forall (admits_tag _) (f :: fs)) _ (Forall_cons _ _ _)).
    case_bool_decide as E.
    + split; [|done]. rewrite Et, (bool_decide_ext _ _ (Hlab a eq_refl)). destruct (bool_decide _); [|done].
      rewrite (bool_decide_ext (_ ∧ _) (Forall (admits_tag EmptyString) fs)) by tauto. done.
    + split; [|done]. rewrite (bool_decide_false (_ ∧ _)) by tauto. by destruct (bool_decide _).
  - assert (filter (λ t, Forall (admits_tag t) (f :: fs)) (t :: tags)
        = filter (λ t, Forall (admits_tag t) fs) (filter (λ t, admits_tag t f) (t :: tags))) as ->.
    { rewrite list_filter_filter. apply filter_ext_in. intros x _. rewrite Forall_cons. tauto. }
    destruct (filter (λ t, admits_tag t f) (t :: tags)) as [|u us] eqn:Ef.
    + split; [|done]. by destruct (bool_decide _).
    + split; [|done]. cbn [ra_Tags with_tags]. rewrite (bool_decide_ext _ _ (Hlab (with_tags a (u :: us)) eq_refl)). done.
Qed.

Lemma ArtifactFilters_selected fs : ∀ l,
  Forall good_filter fs → Forall independent l →
  ArtifactFilters_Filter doublestar fs l = Ok (omap (selected fs) l).
Proof.
  induction fs as [|f fs IH]; intros l Hfs Hl.
  - simpl. f_equal. induction l as [|a l IHl]; [done|]. apply Forall_cons in Hl as [Ha Hl]. unfold omap in *. cbn [list_omap].
    rewrite <- IHl by done. unfold selected. rewrite bool_decide_true by constructor.
    destruct (ra_Tags a) as [|t tags] eqn:E; [done|]. rewrite filter_all by (apply Forall_forall; constructor).
    by rewrite <- E, with_own_tags.
  - apply Forall_cons in Hfs as [Hf Hfs]. cbn [ArtifactFilters_Filter]. destruct f as [ls d|p d].
    + rewrite label_filter_spec, IH; [by rewrite selected_label|done|].
      apply Forall_forall. intros x [_ Hx]%list_elem_of_filter. rewrite Forall_forall in Hl. auto.
    + rewrite tag_filter_spec by done.
      assert (∀ l : list RArtifact, Forall independent l → Forall independent (omap (tag_selected (artifactTagFilter p d)) l) ∧
        omap (selected fs) (omap (tag_selected (artifactTagFilter p d)) l) = omap (selected (artifactTagFilter p d :: fs)) l) as H.
      { clear l Hl. intros l Hl. induction Hl as [|a l Ha Hl [IH1 IH2]]; [done|]. unfold omap in *. cbn [list_omap].
        destruct (selected_tag p d fs a Ha) as [<- Hi]. destruct (tag_selected _ a) as [a'|]; [|done].
        split; [by constructor|]. cbn [list_omap]. by rewrite IH2. }
      destruct (H l Hl) as [H1 H2]. by rewrite IH, H2.
Qed.

(** ** Policies as a whole *)

(** The value of a filter has the type of its kind. *)
Definition typed_filter (f : Filter) : Prop :=
  (fl_Type f = FilterTypeLabel → ∃ l, fl_Value f = FVStrings l) ∧
  (fl_Type f = FilterTypeTag → ∃ s, fl_Value f = FVString s ∧ good_pattern s) ∧
  (fl_Type f = FilterTypeName → ∃ s, fl_Value f = FVString s ∧ good_pattern s).

Definition artifact_filter (f : Filter) : option ArtifactFilter :=
  match fl_Value f with
  | FVStrings l => if fl_Type f == FilterTypeLabel then Some (artifactLabelFilter l (fl_Decoration f)) else None
  | FVString s => if fl_Type f == FilterTypeTag then Some (artifactTagFilter s (fl_Decoration f)) else None
  | _ => None
  end.

Definition name_filter (f : Filter) : option string :=
  match fl_Value f with FVString s => if fl_Type f == FilterTypeName then Some s else None | _ => None end.

Lemma BuildArtifactFilters_typed filters :
  Forall typed_filter filters → BuildArtifactFilters filters = Ok (omap artifact_filter filters) ∧
  Forall good_filter (omap artifact_filter filters).
Proof.
  induction 1 as [|f l (Hl & Ht & _) _ [IH1 IH2]]; [done|]. unfold omap in *. cbn [BuildArtifactFilters list_omap].
  rewrite IH1. destruct (decide (fl_Type f = FilterTypeLabel)) as [E|E].
  - destruct (Hl E) as [ls Hv]. assert (artifact_filter f = Some (artifactLabelFilter ls (fl_Decoration f))) as ->.
    { unfold artifact_filter. by rewrite Hv, bool_decide_true. }
    rewrite Hv, bool_decide_true by done. split; [done|]. by constructor.
  - rewrite (bool_decide_false _ E). destruct (decide (fl_Type f = FilterTypeTag)) as [E2|E2].
    + destruct (Ht E2) as (s & Hv & Hs). assert (artifact_filter f = Some (artifactTagFilter s (fl_Decoration f))) as ->.
      { unfold artifact_filter. by rewrite Hv, bool_decide_true. }
      rewrite Hv, bool_decide_true by done. split; [done|]. by constructor.
    + assert (artifact_filter f = None) as ->.
      { unfold artifact_filter. rewrite !bool_decide_false by done. by destruct (fl_Value f). }
      by rewrite bool_decide_false.
Qed.

Lemma BuildRepositoryFilters_typed filters :
  Forall typed_filter filters → BuildRepositoryFilters filters = Ok (omap name_filter filters) ∧
  Forall good_pattern (omap name_filter filters).
Proof.
  induction 1 as [|f l (_ & _ & Hn) _ [IH1 IH2]]; [done|]. unfold omap in *. cbn [BuildRepositoryFilters list_omap].
  rewrite IH1. destruct (decide (fl_Type f = FilterTypeName)) as [E|E].
  - destruct (Hn E) as (s & Hv & Hs). assert (name_filter f = Some s) as ->.
    { unfold name_filter. by rewrite Hv, bool_decide_true. }
    rewrite Hv, bool_decide_true by done. split; [done|]. by constructor.
  - assert (name_filter f = None) as ->.
    { unfold name_filter. rewrite !bool_decide_false by done. by destruct (fl_Value f). }
    by rewrite bool_decide_false.
Qed.

Lemma RepositoryFilters_one names r :
  Forall good_pattern names →
  RepositoryFilters_Filter doublestar names [r] = Ok (if bool_decide (Forall (λ p, matches p r = true) names) then [r] else []).
Proof.
  assert (∀ names, RepositoryFilters_Filter doublestar names [] = Ok []) as Hnil.
  { clear. induction names as [|p names IH]; [done|]. cbn. unfold repositoryNameFilter. by destruct (p == EmptyString). }
  induction 1 as [|p names Hp Hn IH]; [done|]. cbn [RepositoryFilters_Filter]. unfold repositoryNameFilter.
  rewrite (bool_decide_ext _ _ (Forall_cons _ _ _)). destruct (decide (p = EmptyString)) as [->|E].
  - rewrite (bool_decide_true (EmptyString = _)), IH by done. by rewrite (bool_decide_ext (matches EmptyString r = true ∧ _) (Forall (λ p, matches p r = true) names))
      by (unfold matches; simpl; tauto).
  - rewrite (bool_decide_false (p = _)) by done. cbn [keep_each]. rewrite good_match by done. destruct (matches p r) eqn:Em.
    + rewrite IH. by rewrite (bool_decide_ext (true = true ∧ _) (Forall (λ p, matches p r = true) names)) by tauto.
    + rewrite Hnil, bool_decide_false; [done|]. by intros [? _].
Qed.

Definition resource_selected (filters : list Filter) (r : Resource) : option Resource :=
  if bool_decide (Forall (λ p, matches p (rs_Repository r) = true) (omap name_filter filters)) then
    match omap (selected (omap artifact_filter filters)) (rs_Artifacts r) with
    | [] => None
    | artifacts =>
        Some (mkResource (rs_Type r) (rs_Repository r) (rs_RepoMetadata r) artifacts [] (rs_Registry r) (rs_ExtendedInfo r)
                (rs_Deleted r) (rs_IsDeleteTag r) (rs_Override r) false)
    end
  else None.

Lemma selected_perm fs fs' a : fs ≡ₚ fs' → selected fs a = selected fs' a.
Proof.
  intros Hp. unfold selected. rewrite (bool_decide_ext _ _ (Forall_Permutation _ _ (λ x, iff_refl _) _ _ Hp)).
  destruct (bool_decide _); [|done]. destruct (ra_Tags a) as [|t tags].
  - by rewrite (bool_decide_ext _ _ (Forall_Permutation _ _ (λ x, iff_refl _) _ _ Hp)).
  - rewrite (filter_ext_in _ (λ t, Forall (admits_tag t) fs')); [done|]. intros x _. by rewrite Hp.
Qed.

Lemma resource_selected_perm filters filters' r : filters ≡ₚ filters' → resource_selected filters r = resource_selected filters' r.
Proof.
  intros Hp. unfold resource_selected.
  rewrite (bool_decide_ext _ (Forall (λ p, matches p (rs_Repository r) = true) (omap name_filter filters')))
    by by rewrite Hp.
  destruct (bool_decide _); [|done].
  rewrite (omap_ext_all _ (selected (omap artifact_filter filters'))); [done|].
  intros a. apply selected_perm. by rewrite Hp.
Qed.

Lemma DoFilterResources_eq resources filters :
  Forall typed_filter filters → Forall (λ r, Forall independent (rs_Artifacts r)) resources →
  DoFilterResources doublestar resources filters = Ok (omap (resource_selected filters) resources).
Proof.
  intros Hf Hr. unfold DoFilterResources.
  destruct (BuildRepositoryFilters_typed _ Hf) as [-> Hn]. destruct (BuildArtifactFilters_typed _ Hf) as [-> Ha].
  apply keep_each_pure. intros r Hin. rewrite Forall_forall in Hr. unfold filter_resource, resource_selected.
  rewrite RepositoryFilters_one by done. destruct (bool_decide _); [|done].
  rewrite ArtifactFilters_selected by auto. by destruct (omap (selected _) (rs_Artifacts r)).
Qed.
End filters.

(** C39 (what a policy selects): of the resources, those are replicated whose
    repository matches every name filter, with the artifacts whose labels every
    label filter admits and with those of their tags that every tag filter
    admits; the order of the filters does not matter.  The filters carry values of
    their type and patterns that can be matched ([typed_filter]), and the artifacts
    are not accessories ([independent]; for those see [accessory_forgotten]). *)
Theorem filters_select doublestar resources filters filters' :
  Forall (typed_filter doublestar) filters → Forall (λ r, Forall independent (rs_Artifacts r)) resources →
  filters' ≡ₚ filters →
  DoFilterResources doublestar resources filters = Ok (omap (resource_selected doublestar filters) resources) ∧
  DoFilterResources doublestar resources filters' = DoFilterResources doublestar resources filters.
Proof.
  intros Hf Hr Hp. assert (Forall (typed_filter doublestar) filters') as Hf' by by rewrite Hp.
  rewrite !DoFilterResources_eq by done. split; [done|]. f_equal. apply omap_ext_all.
  intros r. by apply resource_selected_perm.
Qed.

(** An accessory is matched by the tags of its subject, but the first tag filter
    makes it an artifact like others, so that the second looks at its own tags. *)
Definition ex_match (p s : string) : result bool := Ok (p == s).
Definition ex_signature : RArtifact := mkRArtifact "COSIGN" "sha256:s" [] [] true ["v1"]%string.
Definition ex_tag_filter (p d : string) : Filter := mkFilter FilterTypeTag (FVString p) d.

Example accessory_forgotten :
  DoFilterArtifacts ex_match [ex_signature] [ex_tag_filter "v1" Matches]
  = Ok [mkRArtifact "COSIGN" "sha256:s" [] [] false []] ∧
  DoFilterArtifacts ex_match [ex_signature] [ex_tag_filter "v1" Matches; ex_tag_filter "v1" Matches] = Ok [].
Proof. split; reflexivity. Qed.

Definition ex_image (tags : list string) : RArtifact := mkRArtifact "IMAGE" "sha256:i" [] tags false [].
Definition ex_resource : Resource :=
  mkResource "image" "library/app" EmptyString [ex_image ["v1"; "v2"]%string; ex_image []] [] None EmptyString false false false false.
Definition ex_filters : list Filter :=
  [mkFilter FilterTypeName (FVString "library/app") EmptyString; ex_tag_filter "v1" Excludes; ex_tag_filter "v2" Matches].

Lemma filters_select_witness :
  DoFilterResources ex_match [ex_resource] ex_filters
  = Ok [mkResource "image" "library/app" EmptyString [ex_image ["v2"]%string] [] None EmptyString false false false false].
Proof.
  assert (Forall (typed_filter ex_match) ex_filters) as Hf.
  { assert (∀ p, good_pattern ex_match p) as Hg by (intros p s; unfold Match; by case_bool_decide).
    repeat constructor; simpl; try discriminate; eauto. }
  assert (Forall (λ r, Forall independent (rs_Artifacts r)) [ex_resource]) as Hr by by repeat constructor.
  pose proof (proj1 (filters_select ex_match [ex_resource] ex_filters ex_filters Hf Hr (Permutation_refl _))) as H.
  rewrite H. vm_compute. reflexivity.
Defined.

(** ** Names at the destination *)

(** A component of a repository name. *)
Definition component (c : string) : Prop :=
  c ≠ EmptyString ∧ no_char "/" c = true ∧ c ≠ "." ∧ c ≠ "..".

Lemma Split_app_sep a b sep : Split (a +:+ String sep b) sep = Split a sep ++ Split b sep.
Proof.
  induction a as [|c a IH]; [simpl; by rewrite bool_decide_true|].
  change (String c a +:+ String sep b) with (String c (a +:+ String sep b)). cbn [Split]. rewrite IH.
  case_bool_decide; [done|]. pose proof (Split_nonempty a sep). by destruct (Split a sep).
Qed.

Lemma Split_components l : Forall component l → l ≠ [] → Split (join_with "/" l) "/" = l.
Proof.
  induction 1 as [|x l (_ & Hx & _) Hl IH]; [done|]. intros _. destruct l as [|y l]; [by apply Split_one|].
  change (join_with "/" (x :: y :: l)) with (x +:+ String "/" (join_with "/" (y :: l))).
  rewrite Split_app by done. by rewrite IH.
Qed.

Lemma clean_fold rooted l : ∀ acc, Forall (λ x, x = EmptyString ∨ component x) l →
  foldl (clean_step rooted) acc l = reverse (filter (λ x, x ≠ EmptyString) l) ++ acc.
Proof.
  induction l as [|x l IH]; intros acc Hl; [done|]. apply Forall_cons in Hl as [Hx Hl]. simpl. rewrite IH by done.
  rewrite filter_cons. unfold clean_step. destruct Hx as [->|(H1 & _ & H2 & H3)].
  - rewrite bool_decide_true by done. by rewrite decide_False by by intros [].
  - rewrite !bool_decide_false by done. rewrite decide_True by done. simpl. by rewrite reverse_cons, <- app_assoc.
Qed.

Lemma HasPrefix_component c s : component c → HasPrefix (c +:+ s) "/" = false.
Proof.
  intros (H1 & H2 & _). destruct c as [|d c]; [done|]. unfold no_char in H2. cbn [string_forall] in H2.
  apply andb_true_iff in H2 as [H2 _]. change (String d c +:+ s) with (String d (c +:+ s)). unfold HasPrefix.
  cbn [String.prefix]. destruct (ascii_dec "/" d) as [<-|]; [by rewrite bool_decide_true in H2|done].
Qed.

Lemma path_Join_two p name : p ≠ EmptyString → path_Join [p; name] = path_Clean (p +:+ String "/" name).
Proof.
  intros Hp. unfold path_Join. cbn [join_elems]. rewrite (bool_decide_true (EmptyString = _)), (bool_decide_false (p = _)) by done.
  rewrite bool_decide_false; [done|]. by destruct p.
Qed.

Lemma join_head n0 ns s : component n0 → join_with "/" (n0 :: ns) +:+ s ≠ EmptyString ∧
  HasPrefix (join_with "/" (n0 :: ns) +:+ s) "/" = false.
Proof.
  intros Hc. assert (∃ t, join_with "/" (n0 :: ns) +:+ s = n0 +:+ t) as [t ->].
  { destruct ns as [|n1 ns]; [by eexists|]. eexists. symmetry. apply append_assoc. }
  split; [|by apply HasPrefix_component]. destruct Hc as [? _]. by destruct n0.
Qed.

(** Cleaning a path drops empty components. *)
Lemma path_Clean_components s l :
  Split s "/" = l → HasPrefix s "/" = false → Forall (λ x, x = EmptyString ∨ component x) l →
  filter (λ x, x ≠ EmptyString) l ≠ [] → path_Clean s = join_with "/" (filter (λ x, x ≠ EmptyString) l).
Proof.
  intros Hs Hp Hl Hne. unfold path_Clean. rewrite Hp, Hs, clean_fold, app_nil_r, reverse_involutive by done.
  by destruct (filter _ l).
Qed.

Lemma components_nonempty l : Forall component l → filter (λ x, x ≠ EmptyString) l = l.
Proof. intros Hl. apply filter_all. eapply Forall_impl; [exact Hl|]. by intros ? [? _]. Qed.

(** Joining a namespace, components in between and a name. *)
Lemma path_Join_components n0 ns mid name :
  Forall component (n0 :: ns) → Forall component mid → component name →
  path_Join [join_with "/" (n0 :: ns) +:+ "/" +:+ join_with "/" mid; name] = join_with "/" ((n0 :: ns) ++ mid ++ [name]) ∧
  path_Join [join_with "/" (n0 :: ns); name] = join_with "/" ((n0 :: ns) ++ [name]).
Proof.
  intros Hns Hmid Hname. assert (component n0) as Hc0 by by apply Forall_cons in Hns as [? _].
  assert (∀ l, Forall component l → Forall (λ x, x = EmptyString ∨ component x) l) as Hor.
  { intros l Hl. eapply Forall_impl; [exact Hl|]. by right. }
  change ("/" +:+ join_with "/" mid) with (String "/" (join_with "/" mid)). split.
  - rewrite path_Join_two by by apply join_head.
    assert (filter (λ x, x ≠ EmptyString) (Split (join_with "/" mid) "/") = mid ∧
            Forall (λ x, x = EmptyString ∨ component x) (Split (join_with "/" mid) "/")) as [Hf Hfa].
    { destruct mid as [|m mid]; [split; [done|]; constructor; [by left|constructor]|].
      rewrite Split_components by done. split; [by apply components_nonempty|by apply Hor]. }
    rewrite <- append_assoc, (path_Clean_components _ ((n0 :: ns) ++ Split (join_with "/" mid) "/" ++ [name])).
    + rewrite !filter_app, Hf, (components_nonempty (n0 :: ns) Hns), (components_nonempty [name]); [done|].
      by apply Forall_singleton.
    + rewrite append_assoc, !Split_app_sep, Split_components, (Split_one name) by (done || apply Hname).
      by rewrite <- app_assoc.
    + by apply join_head.
    + apply Forall_app; split; [by apply Hor|]. apply Forall_app; split; [done|]. apply Hor. by constructor.
    + rewrite filter_app, (components_nonempty (n0 :: ns)) by done. done.
  - rewrite path_Join_two by (rewrite <- (append_nil (join_with _ _)); by apply join_head).
    rewrite (path_Clean_components _ ((n0 :: ns) ++ [name])).
    + by rewrite components_nonempty by (apply Forall_app; split; [|constructor]; done).
    + rewrite Split_app_sep, Split_components, (Split_one name) by (done || apply Hname). done.
    + by apply join_head.
    + apply Hor, Forall_app; split; [done|]. by constructor.
    + rewrite filter_app, (components_nonempty (n0 :: ns)) by done. done.
Qed.

(** The components of the destination. *)
Definition destination (ns init : list string) (name : string) (count : Z) : list string :=
  ns ++ (if count <? 0 then [] else drop (Z.to_nat count) init) ++ [name].

(** Whether a registry admits a repository of [n] components. *)
Definition path_admits (pathType : string) (n : nat) : bool :=
  negb ((pathType == OnlyTwo) && negb (Z.of_nat n =? 2)) && negb ((pathType == AtLeastTwo) && (Z.of_nat n <? 2)).

(** Further property (names at the destination): with a destination namespace, as many leading
    components as the policy says are replaced by it, all but the last for a
    negative count; a count beyond the components and a depth that the
    destination does not support are refused as bad requests. *)
Theorem replaceNamespace_spec n0 ns init name count pathType :
  Forall component (n0 :: ns) → Forall component init → component name →
  let dst := destination (n0 :: ns) init name count in
  match replaceNamespace (join_with "/" (init ++ [name])) (join_with "/" (n0 :: ns)) count pathType with
  | Ok repo => repo = join_with "/" dst ∧ count <= Z.of_nat (length init) ∧ path_admits pathType (length dst) = true
  | Err e => ErrCode e = BadRequestCode ∧
             (Z.of_nat (length init) < count ∨ path_admits pathType (length dst) = false)
  end.
Proof.
  intros Hns Hinit Hname. cbv zeta. assert (component n0) as Hc0 by by apply Forall_cons in Hns as [? _].
  assert (Forall component (init ++ [name])) as Hall by (apply Forall_app; split; [done|]; by constructor).
  unfold replaceNamespace. rewrite bool_decide_false
    by (rewrite <- (append_nil (join_with _ _)); by apply join_head).
  rewrite Split_components by (done || by destruct init). rewrite last_snoc, length_app. cbn [length from_option id].
  replace (length init + 1 - 1)%nat with (length init) by lia. rewrite take_app_length.
  assert (∀ p, p = (if count <? 0 then join_with "/" (n0 :: ns)
                   else join_with "/" (n0 :: ns) +:+ "/" +:+ join_with "/" (drop (Z.to_nat count) init)) →
    path_Join [p; name] = join_with "/" (destination (n0 :: ns) init name count)) as Hjoin.
  { intros p ->. unfold destination. destruct (path_Join_components n0 ns (drop (Z.to_nat count) init) name) as [H1 H2];
      [done|by apply Forall_drop|done|]. by destruct (count <? 0). }
  assert (Forall component (destination (n0 :: ns) init name count)) as Hd.
  { unfold destination. apply Forall_app; split; [done|]. apply Forall_app; split; [|by constructor].
    destruct (count <? 0); [constructor|by apply Forall_drop]. }
  set (dst := destination _ _ _ _) in *.
  destruct (Z.ltb_spec count 0) as [Hneg|Hpos].
  - rewrite (Hjoin (join_with "/" (n0 :: ns))) by done. rewrite Split_components by (done || by destruct ns).
    unfold path_admits. destruct ((pathType == OnlyTwo) && _); [split; [done|by right]|].
    destruct ((pathType == AtLeastTwo) && _); [split; [done|by right]|]. split_and!; [done|lia|done].
  - replace (Z.of_nat (length init + 1) - 1) with (Z.of_nat (length init)) by lia.
    destruct (Z.ltb_spec (Z.of_nat (length init)) count); [split; [done|by left]|].
    rewrite Hjoin by done. rewrite Split_components by (done || by destruct ns).
    unfold path_admits. destruct ((pathType == OnlyTwo) && _); [split; [done|by right]|].
    destruct ((pathType == AtLeastTwo) && _); [split; [done|by right]|]. split_and!; [done|lia|done].
Qed.

Lemma replaceNamespace_spec_witness :
  replaceNamespace "a/b/c/image" "n" 2 AtLeastTwo = Ok "n/c/image" ∧ 2 <= Z.of_nat (length ["a"; "b"; "c"]%string).
Proof.
  assert (∀ c, c ∈ ["a"; "b"; "c"; "n"; "image"]%string → component c) as Hc.
  { intros c. rewrite !elem_of_cons, elem_of_nil.
    intros [->|[->|[->|[->|[->|[]]]]]]; (split_and!; [discriminate|reflexivity|discriminate|discriminate]). }
  assert (Forall component ["n"%string] ∧ Forall component ["a"; "b"; "c"]%string ∧ component "image") as (H1 & H2 & H3).
  { split_and!; [..|apply Hc; set_solver]; apply Forall_forall; intros x Hx; apply Hc; set_solver. }
  pose proof (replaceNamespace_spec "n" [] ["a"; "b"; "c"]%string "image" 2 AtLeastTwo H1 H2 H3) as Ha.
  exact (conj eq_refl (proj1 (proj2 Ha))).
Defined.

(** ** Policies stored and read back *)

Section stored.
Context (valid_namespace valid_cron : string → bool).
Context (unmarshal_filters : string → result (list FilterItem)).
Context (unmarshal_trigger : string → result TriggerItem).
Context (marshal_filters : list Filter → string).
Context (marshal_trigger : Trigger → string).

(** What an encoder and a decoder of JSON do: the fields of a filter or trigger
    come back, those of older versions are absent. *)
Definition item_of (f : Filter) : FilterItem :=
  mkFilterItem (fl_Type f) (Some (fl_Value f)) (fl_Decoration f) EmptyString EmptyString.
Definition filters_json (l : list Filter) : Prop :=
  marshal_filters l ≠ EmptyString ∧ unmarshal_filters (marshal_filters l) = Ok (item_of <$> l).
Definition trigger_json (t : Trigger) : Prop :=
  marshal_trigger t ≠ EmptyString ∧
  unmarshal_trigger (marshal_trigger t) = Ok (mkTriggerItem (tr_Type t) (tr_Cron t) EmptyString None).

(** Labels are read as strings. *)
Definition read_filter (f : Filter) : Filter :=
  match fl_Value f with
  | FVItems l => mkFilter (fl_Type f) (FVStrings (omap id l)) (fl_Decoration f)
  | _ => f
  end.

Definition read_registry (r : option Registry) : option Registry := only_id (registry_id r).

Definition read_policy (p : Policy) : Policy :=
  mkPolicy (po_ID p) (po_Name p) (po_Description p) (po_Creator p) (read_registry (po_SrcRegistry p))
    (read_registry (po_DestRegistry p)) (po_DestNamespace p) (po_ReplaceCount p) (read_filter <$> po_Filters p)
    (po_Trigger p) (po_ReplicateDeletion p) (po_Override p) (po_Enabled p) (po_Speed p) (po_CopyByChunk p).

Lemma mapM_items l : Forall is_Some l → mapM id l = Some (omap id l : list string).
Proof. induction 1 as [|o l [x ->] Hl IH]; [done|]. simpl in *. by rewrite IH. Qed.

(** A valid filter is kept by reading. *)
Lemma convert_valid f : Filter_Validate f = Ok tt →
  fl_Type f ≠ EmptyString ∧ convert_value (fl_Type f) (Some (fl_Value f)) = Ok (fl_Value (read_filter f)) ∧
  fl_Type (read_filter f) = fl_Type f ∧ fl_Decoration (read_filter f) = fl_Decoration f.
Proof.
  destruct f as [type value decoration]. unfold Filter_Validate, read_filter, convert_value. cbn [fl_Type fl_Value fl_Decoration].
  destruct ((type == FilterTypeResource) || (type == FilterTypeName) || (type == FilterTypeTag)) eqn:E.
  - rewrite !orb_true_iff, !bool_decide_eq_true in E. destruct value as [s|l|l|]; try done. intros _.
    destruct E as [[->| ->]| ->]; (split_and!; [discriminate|reflexivity..]).
  - destruct (decide (type = FilterTypeLabel)) as [->|Hl]; [|by rewrite (bool_decide_false (type = FilterTypeLabel))].
    destruct value as [s|l|l|]; try done. destruct (decide (Forall is_Some l)) as [Ea|Ea]; [|by rewrite (bool_decide_false (Forall _ _))].
    intros _. rewrite mapM_items by done. split_and!; [discriminate|reflexivity..].
Qed.

Lemma parse_items_valid done_ : ∀ l acc, validate_filters l = Ok tt →
  parse_items (length l) (length done_) (done_ ++ (item_of <$> l)) acc = Ok (acc ++ (read_filter <$> l)).
Proof.
  intros l. revert done_. induction l as [|f l IH]; intros done_ acc Hv; [simpl; by rewrite app_nil_r|].
  cbn [validate_filters] in Hv. destruct (Filter_Validate f) as [[]|] eqn:Ef; [|done].
  destruct (convert_valid f Ef) as (Ht & Hc & H1 & H2). cbn [length parse_items].
  rewrite fmap_cons, list_lookup_middle by done. cbn [item_of it_Type it_Value it_Decoration].
  rewrite bool_decide_false, Hc by done.
  replace (mkFilter (fl_Type f) (fl_Value (read_filter f)) (fl_Decoration f)) with (read_filter f)
    by (rewrite <- H1, <- H2; by destruct (read_filter f)).
  specialize (IH (done_ ++ [item_of f]) (acc ++ [read_filter f]) Hv).
  rewrite length_app, <- !app_assoc in IH. cbn [length app] in IH. rewrite Nat.add_1_r in IH.
  rewrite IH. rewrite <- ?app_assoc. done.
Qed.

(** What is read of a stored policy, when it is valid. *)
Lemma From_To p :
  (po_Filters p ≠ [] → filters_json (po_Filters p)) → (∀ t, po_Trigger p = Some t → trigger_json t) →
  Policy_Validate valid_namespace valid_cron p = Ok tt →
  From_row unmarshal_filters unmarshal_trigger (To_row marshal_filters marshal_trigger p) = Ok (read_policy p).
Proof.
  intros Hjf Hjt Hv. unfold Policy_Validate in Hv. case_bool_decide; [done|]. destruct (_ || _); [done|].
  destruct (validate_filters (po_Filters p)) as [[]|] eqn:Ef; [|done].
  destruct (_ && _); [done|]. unfold From_row, To_row. cbn.
  assert (parseFilters unmarshal_filters (match po_Filters p with [] => EmptyString | l => marshal_filters l end)
    = Ok (read_filter <$> po_Filters p)) as ->.
  { unfold parseFilters. destruct (po_Filters p) as [|f l] eqn:El; [done|].
    destruct Hjf as [Hne Hj]; [done|]. rewrite bool_decide_false, Hj by done.
    rewrite length_fmap. exact (parse_items_valid [] (f :: l) [] Ef). }
  assert (parseTrigger unmarshal_trigger (match po_Trigger p with None => EmptyString | Some t => marshal_trigger t end)
    = Ok (po_Trigger p)) as ->; [|done].
  unfold parseTrigger. destruct (po_Trigger p) as [t|]; [|done]. destruct (Hjt t eq_refl) as [Hne Hj].
  rewrite bool_decide_false, Hj by done. cbn. rewrite bool_decide_false; [by destruct t|].
  intros E. unfold validate_trigger in Hv. rewrite E in Hv. done.
Qed.
End stored.

(** Further property (policies are stored faithfully): a valid policy that is stored and read
    back is the same, with registries by their number and labels as strings;
    exactly one of its registries is another than this Harbor. *)
Theorem policy_roundtrip valid_namespace valid_cron unmarshal_filters unmarshal_trigger marshal_filters marshal_trigger p :
  (po_Filters p ≠ [] → filters_json unmarshal_filters marshal_filters (po_Filters p)) →
  (∀ t, po_Trigger p = Some t → trigger_json unmarshal_trigger marshal_trigger t) →
  Policy_Validate valid_namespace valid_cron p = Ok tt →
  From_row unmarshal_filters unmarshal_trigger (To_row marshal_filters marshal_trigger p) = Ok (read_policy p) ∧
  (registry_id (po_SrcRegistry p) = 0 ↔ registry_id (po_DestRegistry p) ≠ 0).
Proof.
  intros Hf Ht Hv. split; [by eapply From_To|]. unfold Policy_Validate in Hv. case_bool_decide; [done|].
  destruct (_ || _) eqn:E; [done|]. rewrite orb_false_iff, !andb_false_iff, !negb_false_iff in E. lia.
Qed.

Definition nightly_policy : Policy :=
  mkPolicy 3 "nightly" EmptyString "admin" None (Some (bare_registry 7 "mirror" "harbor" "https://mirror")) "library" 1
    [mkFilter FilterTypeName (FVString "library/**") EmptyString;
     mkFilter FilterTypeLabel (FVItems [Some "prod"%string]) Matches]
    (Some (mkTrigger TriggerTypeScheduled (Some "0 0 0 * * *"%string))) false true true 0 false.

Lemma policy_roundtrip_witness :
  Policy_Validate (λ _, true) (λ _, true) nightly_policy = Ok tt ∧
  From_row (λ _, Ok (item_of <$> po_Filters nightly_policy))
    (λ _, Ok (mkTriggerItem TriggerTypeScheduled (Some "0 0 0 * * *"%string) EmptyString None))
    (To_row (λ _, "[]"%string) (λ _, "{}"%string) nightly_policy) = Ok (read_policy nightly_policy).
Proof.
  split; [vm_compute; reflexivity|].
  apply (policy_roundtrip (λ _, true) (λ _, true)).
  - intros _. split; [discriminate|reflexivity].
  - intros t [= <-]. split; [discriminate|reflexivity].
  - vm_compute; reflexivity.
Defined.
