(* ===== verification/RegistryClient.v ===== *)
(** * The registry client

    [src/pkg/registry/client.go]: the requests the client of a registry makes and
    how it reads their answers, with the calls [src/pkg/reg/adapter/native]
    adds.  The HTTP transport, the interceptors and the authorizer are parameters,
    like the manifests and digests of the vendored packages.  A reader is its
    content, or the error with which reading it ends. *)

From S2P Require Import Prelude GoErrors GoStrings GoUrl Orm Table Hoare.
From Stdlib Require Import Ascii.
Local Open Scope Z_scope.
Local Open Scope harbor_scope.

Definition UnAuthorizedCode : string := "UNAUTHORIZED".

(** ** [distribution.Descriptor], manifests and digests *)

Record Descriptor := mkDescriptor { ds_MediaType : string; ds_Size : Z; ds_Digest : string }.

(** What the vendored packages offer: [distribution.UnmarshalManifest], the
    methods of a manifest, and [digest.Parse] (whether the text is a digest). *)
Class Manifests := {
  Manifest : Type;
  References : Manifest → list Descriptor;
  Payload : Manifest → result (string * string);
  UnmarshalManifest : string → string → result Manifest;
  digest_Parse : string → bool;
}.

Definition MediaTypeImageIndex : string := "application/vnd.oci.image.index.v1+json".
Definition MediaTypeManifestList : string := "application/vnd.docker.distribution.manifest.list.v2+json".
Definition MediaTypeImageManifest : string := "application/vnd.oci.image.manifest.v1+json".
Definition schema2_MediaTypeManifest : string := "application/vnd.docker.distribution.manifest.v2+json".
Definition MediaTypeSignedManifest : string := "application/vnd.docker.distribution.manifest.v1+prettyjws".
Definition schema1_MediaTypeManifest : string := "application/vnd.docker.distribution.manifest.v1+json".
Definition MediaTypeForeignLayer : string := "application/vnd.docker.image.rootfs.foreign.diff.tar.gzip".

Definition accepts : list string :=
  [MediaTypeImageIndex; MediaTypeManifestList; MediaTypeImageManifest; schema2_MediaTypeManifest;
   MediaTypeSignedManifest; schema1_MediaTypeManifest].

(** The media types whose content is itself a manifest or an index. *)
Definition is_manifest (mediaType : string) : bool :=
  bool_decide (mediaType ∈ [MediaTypeImageIndex; MediaTypeManifestList; MediaTypeImageManifest;
    schema2_MediaTypeManifest; MediaTypeSignedManifest; schema1_MediaTypeManifest]).

(** ** HTTP *)

Record Request := mkRequest {
  rq_Method : string;
  rq_URL : string;
  rq_Header : list (string * string);
  rq_ContentLength : Z;
  rq_Body : result string;
}.

Record Response := mkResponse {
  rp_StatusCode : Z;
  rp_Header : gmap string string;
  rp_Body : result string;
}.

Definition header (r : Response) (k : string) : string := default EmptyString (rp_Header r !! k).
Definition add_header (r : Request) (k v : string) : Request :=
  mkRequest (rq_Method r) (rq_URL r) (rq_Header r ++ [(k, v)]) (rq_ContentLength r) (rq_Body r).
Definition set_length (r : Request) (n : Z) : Request :=
  mkRequest (rq_Method r) (rq_URL r) (rq_Header r) n (rq_Body r).

(** [net/url]: a URL is refused for a control character; else its scheme (letters,
    digits, [+], [-], [.] after a letter, up to the first colon) tells whether
    it is absolute, and it is printed as it was read. *)
Definition control (c : ascii) : bool := (N_of_ascii c <? 32)%N || (N_of_ascii c =? 127)%N.
Fixpoint any_char (p : ascii → bool) (s : string) : bool :=
  match s with EmptyString => false | String c s => p c || any_char p s end.
Definition letter (c : ascii) : bool :=
  let n := N_of_ascii c in ((65 <=? n) && (n <=? 90) || (97 <=? n) && (n <=? 122))%N.
Definition scheme_char (c : ascii) : bool :=
  let n := N_of_ascii c in (letter c || (48 <=? n) && (n <=? 57) || (n =? 43) || (n =? 45) || (n =? 46))%N.
Fixpoint scheme_rest (s : string) : bool :=
  match s with
  | EmptyString => false
  | String c s => Ascii.eqb c ":" || (scheme_char c && scheme_rest s)
  end.
Definition IsAbs (url : string) : bool :=
  match url with EmptyString => false | String c s => letter c && scheme_rest s end.
Definition url_ok (url : string) : bool := negb (any_char control url).
Definition url_error : error := PlainError "net/url: invalid control character in URL".

(** The URL [location] with its query changed by [f] and encoded again. *)
Definition with_query (f : Values → Values) (location : string) : string :=
  let '(rest, fragment, hash) := Cut location "#" in
  let '(path, raw, _) := Cut rest "?" in
  let q := Encode (f (URL_Query raw)) in
  path +:+ (if q == EmptyString then EmptyString else "?" +:+ q)
       +:+ (if hash then "#" +:+ fragment else EmptyString).

(** ** URLs of the registry API *)

Definition buildPingURL (endpoint : string) : string := endpoint +:+ "/v2/".
Definition buildManifestURL (endpoint repository reference : string) : string :=
  endpoint +:+ "/v2/" +:+ repository +:+ "/manifests/" +:+ reference.
Definition buildBlobURL (endpoint repository reference : string) : string :=
  endpoint +:+ "/v2/" +:+ repository +:+ "/blobs/" +:+ reference.
Definition buildMountBlobURL (endpoint repository digest from : string) : string :=
  endpoint +:+ "/v2/" +:+ repository +:+ "/blobs/uploads/?mount=" +:+ digest +:+ "&from=" +:+ from.
Definition buildInitiateBlobUploadURL (endpoint repository : string) : string :=
  endpoint +:+ "/v2/" +:+ repository +:+ "/blobs/uploads/".

Definition buildChunkBlobUploadURL (endpoint location digest : string) (lastChunk : bool) : result string :=
  if url_ok location then
    let url := with_query (λ q, if lastChunk then Values_Set q "digest" digest else q) location in
    Ok (if IsAbs location then url else endpoint +:+ url)
  else Err url_error.

Definition buildMonolithicBlobUploadURL (endpoint location digest : string) : result string :=
  if url_ok location then
    let url := with_query (λ q, Values_Set q "digest" digest) location in
    Ok (if IsAbs location then url else endpoint +:+ url)
  else Err url_error.

(** ** The client *)

Definition status_code (status : Z) : string :=
  if status =? 401 then UnAuthorizedCode
  else if status =? 403 then ForbiddenCode
  else if status =? 404 then NotFoundCode
  else GeneralCode.

Definition parseContentRange (cr : string) : result (Z * Z) :=
  match Split cr "-" with
  | [a; b] =>
      match ParseInt a with
      | None => Err (PlainError "strconv.ParseInt")
      | Some start =>
          match ParseInt b with
          | None => Err (PlainError "strconv.ParseInt")
          | Some end_ => Ok (start, end_)
          end
      end
  | _ => Err (PlainError ("invalid content range format, " +:+ cr))
  end.

Section client.
Context `{Manifests} {D : Type}.
Context (client_Do : Request → D → result Response * D).
Context (interceptors : list (Request → M D Request)).
Context (authorizer : option (Request → M D Request)).
Context (endpoint : string).

Fixpoint intercept (l : list (Request → M D Request)) (req : Request) : M D Request :=
  match l with
  | [] => mret req
  | i :: l => req ← i req; intercept l req
  end.

(** What [do] makes of a request before it sends it. *)
Definition prepare (req : Request) : M D Request :=
  req ← intercept interceptors req;
  req ← match authorizer with Some modify => modify req | None => mret req end;
  mret (add_header req "User-Agent" "harbor-registry-client").

Definition do (req : Request) : M D Response :=
  req ← prepare req;
  resp ← act (client_Do req);
  if (rp_StatusCode resp <? 200) || (299 <? rp_StatusCode resp)
  then
    body ← of_result (rp_Body resp);
    let message := "http status code: " +:+ pretty (rp_StatusCode resp) +:+ ", body: " +:+ body in
    fail (WithMessage (WithCode (New EmptyString) (status_code (rp_StatusCode resp))) message)
  else mret resp.

(** [http.NewRequest] with the headers the caller sets. *)
Definition NewRequest (method url : string) (headers : list (string * string)) (body : result string) : M D Request :=
  if url_ok url then mret (mkRequest method url headers 0 body) else fail url_error.

Definition request (method url : string) (headers : list (string * string)) (body : result string) : M D Response :=
  req ← NewRequest method url headers body; do req.

Definition Ping : M D unit :=
  _ ← request "GET" (buildPingURL endpoint) [] (Ok EmptyString); mret tt.

Definition accept_headers : list (string * string) := (λ t, ("Accept"%string, t)) <$> accepts.

Definition ManifestExist (repository reference : string) : M D (bool * option Descriptor) :=
  req ← NewRequest "HEAD" (buildManifestURL endpoint repository reference) accept_headers (Ok EmptyString);
  r ← try (do req);
  match r with
  | Err err => if IsErr err NotFoundCode then mret (false, None) else fail err
  | Ok resp =>
      mret (true, Some (mkDescriptor (header resp "Content-Type") (ParseInt_value (header resp "Content-Length"))
                          (header resp "Docker-Content-Digest")))
  end.

Definition PullManifest (repository reference : string) : M D (Manifest * string) :=
  resp ← request "GET" (buildManifestURL endpoint repository reference) accept_headers (Ok EmptyString);
  payload ← of_result (rp_Body resp);
  manifest ← of_result (UnmarshalManifest (header resp "Content-Type") payload);
  mret (manifest, header resp "Docker-Content-Digest").

Definition PushManifest (repository reference mediaType payload : string) : M D string :=
  req ← NewRequest "PUT" (buildManifestURL endpoint repository reference) [("Content-Type"%string, mediaType)] (Ok payload);
  resp ← do (set_length req (Z.of_nat (String.length payload)));
  mret (header resp "Docker-Content-Digest").

Definition DeleteManifest (repository reference : string) : M D unit :=
  reference ←
    (if digest_Parse reference then mret reference
     else
       e ← ManifestExist repository reference;
       if (fst e : bool)
       then match snd e with Some d => mret (ds_Digest d) | None => fail (Panic "nil pointer dereference") end
       else fail (WithMessage (WithCode (New EmptyString) NotFoundCode) (repository +:+ ":" +:+ reference +:+ " not found")));
  _ ← request "DELETE" (buildManifestURL endpoint repository reference) [] (Ok EmptyString);
  mret tt.

Definition BlobExist (repository digest : string) : M D bool :=
  req ← NewRequest "HEAD" (buildBlobURL endpoint repository digest) [] (Ok EmptyString);
  r ← try (do req);
  match r with
  | Err err => if IsErr err NotFoundCode then mret false else fail err
  | Ok _ => mret true
  end.

(** The length the answer declares; 0 when it declares none. *)
Definition content_length (resp : Response) : result Z :=
  let n := header resp "Content-Length" in
  if n == EmptyString then Ok 0
  else match ParseInt n with Some size => Ok size | None => Err (PlainError "strconv.ParseInt") end.

Definition identity_encoding : string * string := ("Accept-Encoding"%string, "identity"%string).

Definition PullBlob (repository digest : string) : M D (Z * result string) :=
  resp ← request "GET" (buildBlobURL endpoint repository digest) [identity_encoding] (Ok EmptyString);
  size ← of_result (content_length resp);
  mret (size, rp_Body resp).

Definition PullBlobChunk (repository digest : string) (blobSize start end_ : Z) : M D (Z * result string) :=
  resp ← request "GET" (buildBlobURL endpoint repository digest)
           [identity_encoding; ("Range"%string, "bytes=" +:+ pretty start +:+ "-" +:+ pretty end_)] (Ok EmptyString);
  size ← of_result (content_length resp);
  mret (size, rp_Body resp).

Definition initiateBlobUpload (repository : string) : M D (string * string) :=
  resp ← request "POST" (buildInitiateBlobUploadURL endpoint repository) [("Content-Length"%string, "0"%string)] (Ok EmptyString);
  mret (header resp "Location", header resp "Docker-Upload-UUID").

Definition monolithicBlobUpload (location digest : string) (size : Z) (data : result string) : M D unit :=
  url ← of_result (buildMonolithicBlobUploadURL endpoint location digest);
  req ← NewRequest "PUT" url [] data;
  _ ← do (set_length req size);
  mret tt.

Definition PushBlob (repository digest : string) (size : Z) (blob : result string) : M D unit :=
  '(location, _) ← initiateBlobUpload repository;
  monolithicBlobUpload location digest size blob.

Definition getUploadStatus (location : string) : M D (string * Z) :=
  resp ← request "GET" location [] (Ok EmptyString);
  '(_, end_) ← of_result (parseContentRange (header resp "Range"));
  mret (header resp "Location", end_).

(** The location, the end of what is uploaded, and the error if any. *)
Definition PushBlobChunk (repository digest : string) (blobSize : Z) (chunk : result string) (start end_ : Z) (location : string)
  : M D (string * Z * option error) :=
  first ← (if start =? 0 then try (initiateBlobUpload repository) else mret (Ok (location, EmptyString)));
  match first with
  | Err err => mret (EmptyString, end_, Some err)
  | Ok (location, _) =>
      let lastChunk := end_ =? wrap64 (blobSize - 1) in
      match buildChunkBlobUploadURL endpoint location digest lastChunk with
      | Err err => mret (location, end_, Some err)
      | Ok url =>
          r ← try (NewRequest (if lastChunk then "PUT" else "PATCH") url
                    [("Content-Length"%string, pretty (wrap64 (end_ - start + 1)));
                     ("Content-Range"%string, pretty start +:+ "-" +:+ pretty end_)] chunk);
          match r with
          | Err err => mret (location, end_, Some err)
          | Ok req =>
              r ← try (do req);
              match r with
              | Ok resp => mret (header resp "Location", end_, None)
              | Err err =>
                  status ← try (getUploadStatus location);
                  match status with
                  | Ok (newLocation, newEnd) => mret (newLocation, newEnd, Some err)
                  | Err err1 =>
                      mret (location, wrap64 (start - 1),
                            Some (PlainError ("failed to get upload status: " +:+ error_string err1)))
                  end
              end
          end
      end
  end.

Definition MountBlob (srcRepository digest dstRepository : string) : M D unit :=
  _ ← request "POST" (buildMountBlobURL endpoint dstRepository digest srcRepository)
        [("Content-Length"%string, "0"%string)] (Ok EmptyString);
  mret tt.

Definition DeleteBlob (repository digest : string) : M D unit :=
  _ ← request "DELETE" (buildBlobURL endpoint repository digest) [] (Ok EmptyString);
  mret tt.

(** One reference of the manifest that is copied; [copy] copies a manifest. *)
Definition copy_reference (copy : string → M D (option unit)) (srcRepo dstRepo : string) (d : Descriptor) : M D (option unit) :=
  if ds_MediaType d == MediaTypeForeignLayer then mret (Some tt)
  else if is_manifest (ds_MediaType d) then copy (ds_Digest d)
  else
    exists_ ← BlobExist dstRepo (ds_Digest d);
    if (exists_ : bool) then mret (Some tt) else fret (MountBlob srcRepo (ds_Digest d) dstRepo).

Fixpoint copy_references (copy : string → M D (option unit)) (srcRepo dstRepo : string) (l : list Descriptor)
  : M D (option unit) :=
  match l with
  | [] => mret (Some tt)
  | d :: l => _ <~ copy_reference copy srcRepo dstRepo d; copy_references copy srcRepo dstRepo l
  end.

(** [Copy]; [None] when the manifests nest deeper than [fuel]. *)
Fixpoint Copy (fuel : nat) (srcRepo srcRef dstRepo dstRef : string) (override : bool) : M D (option unit) :=
  match fuel with
  | O => mret None
  | S fuel =>
      '(manifest, srcDgt) ← PullManifest srcRepo srcRef;
      e ← ManifestExist dstRepo dstRef;
      let exists_ : bool := fst e in let desc := snd e in
      if exists_ && match desc with Some d => srcDgt == ds_Digest d | None => false end then mret (Some tt)
      else if exists_ && negb override
      then fail (WithMessage (WithCode (New EmptyString) PreconditionCode)
             "the same name but different digest artifact exists, but the override is set to false")
      else
        _ <~ copy_references (λ digest, Copy fuel srcRepo digest dstRepo digest false) srcRepo dstRepo (References manifest);
        '(mediaType, payload) ← of_result (Payload manifest);
        _ ← PushManifest dstRepo dstRef mediaType payload;
        mret (Some tt)
  end.

(** [src/pkg/reg/adapter/native/adapter.go] *)
Definition PingSimple : M D unit :=
  r ← try Ping;
  match r with
  | Ok _ => mret tt
  | Err err => if IsErr err UnAuthorizedCode || IsErr err ForbiddenCode then mret tt else fail err
  end.

End client.
