(* ===== verification/Transfer.v ===== *)
(** * Copying and deleting artifacts between registries

    [src/controller/replication/transfer/image/transfer.go]: the work of a
    replication task.  The two registries are instances of [ArtifactRegistry],
    the interface of [src/pkg/reg/adapter/adapter.go]; their state decides how each
    call ends.  Waiting between attempts and the limit of the speed change no
    outcome and are left out. *)

From S2P Require Import Prelude GoErrors GoStrings Orm Table Hoare RegistryClient Replication.
Local Open Scope Z_scope.
Local Open Scope harbor_scope.

(** ** [adapter.ArtifactRegistry] *)

(** A [PushBlobChunk] returns a location and an end beside its error. *)
Class ArtifactRegistry `{Manifests} (R : Type) := {
  ar_ManifestExist : string → string → R → result (bool * option Descriptor) * R;
  ar_PullManifest : string → string → R → result (Manifest * string) * R;
  ar_PushManifest : string → string → string → string → R → result string * R;
  ar_DeleteManifest : string → string → R → result unit * R;
  ar_BlobExist : string → string → R → result bool * R;
  ar_PullBlob : string → string → R → result (Z * result string) * R;
  ar_PullBlobChunk : string → string → Z → Z → Z → R → result (Z * result string) * R;
  ar_PushBlob : string → string → Z → result string → R → result unit * R;
  ar_PushBlobChunk : string → string → Z → result string → Z → Z → string → R → (string * Z * option error) * R;
  ar_MountBlob : string → string → string → R → result unit * R;
  ar_CanBeMount : string → R → result (bool * string) * R;
  ar_DeleteTag : string → string → R → result unit * R;
}.

(** ** The state of a transfer *)

(** The registries and what [isStopped] will answer; [false] when there is no
    more answer. *)
Record Env (S R : Type) := mkEnv { src : S; dst : R; polls : list bool }.
Arguments mkEnv {S R}.
Arguments src {S R}.
Arguments dst {S R}.
Arguments polls {S R}.

Record Options := mkOptions { op_Speed : Z; op_CopyByChunk : bool }.

(** [strconv] results with the error dropped, as [init] reads the environment. *)
Definition defaultChunkSize : Z := 10 * 1024 * 1024.
Definition env_or (env : string) (d : Z) : Z := let n := ParseInt_value env in if n <=? 0 then d else n.

(** [convert]: the repository and its references. *)
Definition convert (r : Resource) : string * list string :=
  let tags :=
    concat ((λ a, if bool_decide (ra_Tags a = []) then (if ra_Digest a == EmptyString then [] else [ra_Digest a])
                  else ra_Tags a) <$> rs_Artifacts r) in
  (rs_Repository r, if bool_decide (tags = []) then rs_Vtags r else tags).

(** How far the copy of a blob by chunks has come. *)
Record Chunks := mkChunks { c_start : Z; c_end : Z; c_location : string }.

Section transfer.
Context `{!Manifests} {S R : Type} `{!ArtifactRegistry S, !ArtifactRegistry R}.
Context (getenv : string → string).
Context (factories : gmap string (Registry → result bool)).
Notation MT := (M (Env S R)).

Definition blobRetryCnt : Z := env_or (getenv "COPY_BLOB_RETRY_COUNT") 5.
Definition chunkRetryCnt : Z := env_or (getenv "COPY_CHUNK_RETRY_COUNT") 5.
Definition replicationChunkSize : Z := env_or (getenv "REPLICATION_CHUNK_SIZE") defaultChunkSize.

Definition on_src {A} (f : S → result A * S) : MT A :=
  act (λ e, let '(r, s) := f (src e) in (r, mkEnv s (dst e) (polls e))).
Definition on_dst {A} (f : R → result A * R) : MT A :=
  act (λ e, let '(r, d) := f (dst e) in (r, mkEnv (src e) d (polls e))).

(** [createRegistry]: the factory of the type makes an adapter, which may lack
    the interface. *)
Definition createRegistry (reg : option Registry) : result unit :=
  match reg with
  | None => Err (Panic "nil pointer dereference")
  | Some reg =>
      match factories !! rg_Type reg with
      | None => Err (PlainError ("adapter factory for " +:+ rg_Type reg +:+ " not found"))
      | Some create =>
          match create reg with
          | Err err => Err err
          | Ok true => Ok tt
          | Ok false => Err (PlainError ("the adapter doesn't implement the " +:+ go_quote "ArtifactRegistry" +:+ " interface"))
          end
      end
  end.

Definition initialize (src dst : Resource) : result unit :=
  match createRegistry (rs_Registry src) with
  | Err err => Err err
  | Ok _ => createRegistry (rs_Registry dst)
  end.

Definition shouldStop : MT bool :=
  act (λ e, (Ok (default false (head (polls e))), mkEnv (src e) (dst e) (tail (polls e)))).

Definition pullManifest (repository reference : string) : MT (Manifest * string) :=
  stop ← shouldStop;
  if (stop : bool) then fail ErrStopped else on_src (ar_PullManifest repository reference).

(** [exist] *)
Definition exist_ (repository tag : string) : MT (bool * string) :=
  e ← on_dst (ar_ManifestExist repository tag);
  mret (fst e, match snd e with Some d => ds_Digest d | None => EmptyString end).

Definition pushManifest (manifest : Manifest) (repository tag : string) : MT unit :=
  stop ← shouldStop;
  if (stop : bool) then fail ErrStopped
  else
    '(mediaType, payload) ← of_result (Payload manifest);
    _ ← on_dst (ar_PushManifest repository tag mediaType payload);
    mret tt.

Definition tryMountBlob (srcRepo dstRepo digest : string) : MT bool :=
  stop ← shouldStop;
  if (stop : bool) then fail ErrStopped
  else
    exists_ ← on_dst (ar_BlobExist dstRepo digest);
    if (exists_ : bool) then mret true
    else
      m ← on_dst (ar_CanBeMount digest);
      if (fst m : bool) then _ ← on_dst (ar_MountBlob (snd m) digest dstRepo); mret true
      else mret false.

Definition copyBlobByMonolithic (srcRepo dstRepo digest : string) (sizeFromDescriptor : Z) : MT unit :=
  b ← on_src (ar_PullBlob srcRepo digest);
  let size := if fst b =? 0 then sizeFromDescriptor else fst b in
  on_dst (ar_PushBlob dstRepo digest size (snd b)).

Definition copyBlob (srcRepo dstRepo digest : string) (sizeFromDescriptor : Z) : MT unit :=
  mounted ← tryMountBlob srcRepo dstRepo digest;
  if (mounted : bool) then mret tt else copyBlobByMonolithic srcRepo dstRepo digest sizeFromDescriptor.

(** The attempts of [copyBlobWithRetry]: [n] are left. *)
Fixpoint blob_attempts (n : nat) (srcRepo dstRepo digest : string) (size : Z) : MT unit :=
  match n with
  | O => mret tt
  | Datatypes.S n =>
      r ← try (copyBlob srcRepo dstRepo digest size);
      match r with
      | Ok _ => mret tt
      | Err err =>
          if bool_decide (n = O) || error_same err ErrStopped then fail err
          else blob_attempts n srcRepo dstRepo digest size
      end
  end.

Definition copyBlobWithRetry (srcRepo dstRepo digest : string) (size : Z) : MT unit :=
  blob_attempts (Z.to_nat blobRetryCnt) srcRepo dstRepo digest size.

(** The loop of [copyBlobByChunk], which updates the caller's variables whether it
    fails or not; [None] when [fuel] chunks are not enough. *)
Definition next_range (endRange : Z) (c : Chunks) : Chunks :=
  let start := wrap64 (c_end c + 1) in
  let end_ := wrap64 (start + replicationChunkSize - 1) in
  mkChunks start (if endRange <=? end_ then endRange else end_) (c_location c).

Fixpoint chunk_loop (fuel : nat) (srcRepo dstRepo digest : string) (size : Z) (c : Chunks)
  : MT (option (Chunks * option error)) :=
  match fuel with
  | O => mret None
  | Datatypes.S fuel =>
      let endRange := wrap64 (size - 1) in
      let c := next_range endRange c in
      r ← try (on_src (ar_PullBlobChunk srcRepo digest size (c_start c) (c_end c)));
      match r with
      | Err err => mret (Some (c, Some err))
      | Ok (_, data) =>
          '(location, failureEnd, err) ←
            on_dst (λ d, let '(x, d) := ar_PushBlobChunk dstRepo digest size data (c_start c) (c_end c) (c_location c) d in (Ok x, d));
          match err with
          | Some err => mret (Some (mkChunks (c_start c) failureEnd location, Some err))
          | None =>
              let c := mkChunks (c_start c) (c_end c) location in
              if c_end c =? endRange then mret (Some (c, None))
              else chunk_loop fuel srcRepo dstRepo digest size c
          end
      end
  end.

Definition copyBlobByChunk (fuel : nat) (srcRepo dstRepo digest : string) (size : Z) (c : Chunks)
  : MT (option (Chunks * option error)) :=
  let outcome (r : result unit) := match r with Ok _ => (c, None) | Err err => (c, Some err) end in
  if size <=? replicationChunkSize
  then r ← try (copyBlobByMonolithic srcRepo dstRepo digest size); mret (Some (outcome r))
  else
    r ← try (tryMountBlob srcRepo dstRepo digest);
    match r with
    | Err err => mret (Some (c, Some err))
    | Ok true => mret (Some (c, None))
    | Ok false => chunk_loop fuel srcRepo dstRepo digest size c
    end.

(** The attempts of [copyChunkWithRetry]: [n] are left. *)
Fixpoint chunk_attempts (n fuel : nat) (srcRepo dstRepo digest : string) (size : Z) (c : Chunks) : MT (option unit) :=
  match n with
  | O => mret (Some tt)
  | Datatypes.S n =>
      x <~ copyBlobByChunk fuel srcRepo dstRepo digest size c;
      let '(c, err) := x in
      match err with
      | None => mret (Some tt)
      | Some err =>
          if bool_decide (n = O) || error_same err ErrStopped then fail err
          else chunk_attempts n fuel srcRepo dstRepo digest size c
      end
  end.

Definition copyChunkWithRetry (fuel : nat) (srcRepo dstRepo digest : string) (size : Z) : MT (option unit) :=
  chunk_attempts (Z.to_nat chunkRetryCnt) fuel srcRepo dstRepo digest size (mkChunks (-1) (-1) EmptyString).

(** [copyContent], with what copies a manifest by its digest. *)
Definition copyContent (copy : string → MT (option unit)) (fuel : nat) (content : Descriptor) (srcRepo dstRepo : string)
    (opts : Options) : MT (option unit) :=
  let digest := ds_Digest content in
  if is_manifest (ds_MediaType content) then copy digest
  else if ds_MediaType content == MediaTypeForeignLayer then mret (Some tt)
  else if op_CopyByChunk opts then copyChunkWithRetry fuel srcRepo dstRepo digest (ds_Size content)
  else fret (copyBlobWithRetry srcRepo dstRepo digest (ds_Size content)).

Fixpoint copy_contents (copy : string → MT (option unit)) (fuel : nat) (l : list Descriptor) (srcRepo dstRepo : string)
    (opts : Options) : MT (option unit) :=
  match l with
  | [] => mret (Some tt)
  | content :: l =>
      _ <~ copyContent copy fuel content srcRepo dstRepo opts;
      copy_contents copy fuel l srcRepo dstRepo opts
  end.

(** [copyArtifact]; [depth] bounds the nesting of manifests, [fuel] the chunks of
    a blob, [None] when one is not enough. *)
Fixpoint copyArtifact (depth fuel : nat) (srcRepo srcRef dstRepo dstRef : string) (override : bool) (opts : Options)
  : MT (option unit) :=
  match depth with
  | O => mret None
  | Datatypes.S depth =>
      '(manifest, digest) ← pullManifest srcRepo srcRef;
      e ← exist_ dstRepo dstRef;
      let '(exists_, digest2) := (e : bool * string) in
      if exists_ && (digest == digest2) then mret (Some tt)
      else if exists_ && negb override then mret (Some tt)
      else
        _ <~ copy_contents (λ digest, copyArtifact depth fuel srcRepo digest dstRepo digest true opts)
               fuel (References manifest) srcRepo dstRepo opts;
        fret (pushManifest manifest dstRepo dstRef)
  end.

Definition failed_transfer : error := PlainError "got error during the whole transfer period, mark the job failure".

(** The loop of [copy] from the [i]th reference on. *)
Fixpoint copy_tags (depth fuel : nat) (srcRepo dstRepo : string) (tags dst_tags : list string) (i : nat) (err : bool)
    (override : bool) (opts : Options) : MT (option unit) :=
  match tags with
  | [] => if err then fail failed_transfer else mret (Some tt)
  | tag :: tags =>
      match dst_tags !! i with
      | None => fail (Panic "index out of range")
      | Some dst_tag =>
          r ← try (copyArtifact depth fuel srcRepo tag dstRepo dst_tag override opts);
          match r with
          | Ok None => mret None
          | Ok (Some _) => copy_tags depth fuel srcRepo dstRepo tags dst_tags (Datatypes.S i) err override opts
          | Err e =>
              if error_same e ErrStopped then mret (Some tt)
              else copy_tags depth fuel srcRepo dstRepo tags dst_tags (Datatypes.S i) true override opts
          end
      end
  end.

Definition copy (depth fuel : nat) (src dst : string * list string) (override : bool) (opts : Options) : MT (option unit) :=
  copy_tags depth fuel (fst src) (fst dst) (snd src) (snd dst) 0 false override opts.

Fixpoint delete_tags (repository : string) (tags : list string) : MT unit :=
  match tags with
  | [] => mret tt
  | tag :: tags =>
      e ← on_dst (ar_ManifestExist repository tag);
      _ ← (if (fst e : bool) then on_dst (ar_DeleteManifest repository tag) else mret tt);
      delete_tags repository tags
  end.

Definition delete (repo : string * list string) : MT unit :=
  stop ← shouldStop;
  if (stop : bool) then mret tt else delete_tags (fst repo) (snd repo).

Fixpoint deleteTag_loop (repository : string) (tags : list string) : MT unit :=
  match tags with
  | [] => mret tt
  | tag :: tags =>
      r ← try (on_dst (ar_DeleteTag repository tag));
      match r with
      | Ok _ => deleteTag_loop repository tags
      | Err err =>
          match err with
          | HttpError code _ => if code =? 404 then deleteTag_loop repository tags else fail err
          | _ => fail err
          end
      end
  end.

Definition deleteTag (res : Resource) : MT unit :=
  stop ← shouldStop;
  if (stop : bool) then mret tt else deleteTag_loop (rs_Repository res) (concat (ra_Tags <$> rs_Artifacts res)).

Definition Transfer (depth fuel : nat) (src dst : Resource) (opts : Options) : MT (option unit) :=
  _ ← of_result (initialize src dst);
  if rs_Deleted dst
  then if rs_IsDeleteTag dst then fret (deleteTag dst) else fret (delete (convert dst))
  else copy depth fuel (convert src) (convert dst) (rs_Override dst) opts.

End transfer.
