(* ===== verification/TransferSpec.v ===== *)
(** * Correctness of transfers

    What a transfer promises about the destination, for every pair of registries
    that keep the laws [Source] and [Destination], under every sequence of
    failures and of requests to stop. *)

From S2P Require Import Prelude GoErrors GoStrings Orm Table Hoare RegistryClient Replication Transfer.
Local Open Scope Z_scope.
Local Open Scope harbor_scope.

(** ** What registries promise *)

(** The digest under which a registry keeps a manifest. *)
Definition man_digest `{!Manifests} (digest_of : string → string) (m : Manifest) : option string :=
  match Payload m with Ok (_, payload) => Some (digest_of payload) | Err _ => None end.

(** [served repo ref m d]: at some time of the transfer, [ref] of [repo] is the
    manifest [m] of digest [d]. *)
Class Source `{!Manifests} (digest_of : string → string) (S : Type) `{!ArtifactRegistry S} := {
  served : string → string → Manifest → string → Prop;
  served_pull repo ref m d s s' : ar_PullManifest repo ref s = (Ok (m, d), s') → served repo ref m d;
  served_digest repo ref m d d' : served repo ref m d → man_digest digest_of m = Some d' → d' = d;
  served_exact repo ref m d : served repo ref m d → digest_Parse ref = true → d = ref;
  served_nonempty repo ref m d : served repo ref m d → d ≠ EmptyString;
  served_references repo ref m d c :
    served repo ref m d → c ∈ References m → is_manifest (ds_MediaType c) = true → digest_Parse (ds_Digest c) = true;
}.

(** A destination answers truthfully about the content it holds, takes content
    only under its digest, and removes nothing while the transfer runs.  Calls that
    fail may have taken effect.  A mount that is answered with success promises
    nothing: the client takes every 2xx answer for one, also the one with which a
    registry starts an upload instead.  [unmounted repo d]: at some time of the
    transfer, the mount of [d] in [repo] is answered so. *)
Section changes.
Context {R : Type} (has_blob : R → string → string → Prop) (resolve : R → string → string → option string).

Definition blobs_kept (r r' : R) : Prop := ∀ repo d, has_blob r repo d → has_blob r' repo d.
Definition no_push (r r' : R) : Prop := blobs_kept r r' ∧ ∀ repo ref, resolve r' repo ref = resolve r repo ref.
Definition pushed (repo ref d : string) (r r' : R) : Prop :=
  blobs_kept r r' ∧
  ∀ repo' x, resolve r' repo' x = if decide (repo' = repo ∧ (x = ref ∨ x = d)) then Some d else resolve r repo' x.
End changes.

Class Destination `{!Manifests} (digest_of : string → string) (R : Type) `{!ArtifactRegistry R} := {
  has_blob : R → string → string → Prop;
  unmounted : string → string → Prop;
  resolve : R → string → string → option string;
  resolve_digest r repo ref d : resolve r repo ref = Some d → digest_Parse d = true;
  resolve_exact r repo ref d : resolve r repo ref = Some d → digest_Parse ref = true → d = ref;
  dest_ManifestExist repo ref r x r' : ar_ManifestExist repo ref r = (x, r') →
    no_push has_blob resolve r r' ∧ ∀ desc, x = Ok (true, Some desc) → resolve r repo ref = Some (ds_Digest desc);
  dest_BlobExist repo d r x r' : ar_BlobExist repo d r = (x, r') →
    no_push has_blob resolve r r' ∧ (x = Ok true → has_blob r repo d);
  dest_CanBeMount d r x r' : ar_CanBeMount d r = (x, r') →
    no_push has_blob resolve r r';
  dest_MountBlob from d repo r x r' : ar_MountBlob from d repo r = (x, r') →
    no_push has_blob resolve r r' ∧ (x = Ok tt → has_blob r' repo d ∨ unmounted repo d);
  dest_PushBlob repo d size data r x r' : ar_PushBlob repo d size data r = (x, r') →
    no_push has_blob resolve r r' ∧ (x = Ok tt → has_blob r' repo d);
  dest_PushBlobChunk repo d size chunk start end_ location r x r' :
    ar_PushBlobChunk repo d size chunk start end_ location r = (x, r') →
    no_push has_blob resolve r r' ∧
    (snd x = None → end_ = wrap64 (size - 1) → has_blob r' repo d) ∧ (snd x ≠ None → -1 <= snd (fst x) < size);
  dest_PushManifest repo ref mt p r x r' : ar_PushManifest repo ref mt p r = (x, r') →
    (no_push has_blob resolve r r' ∧ ¬ is_ok x) ∨ pushed has_blob resolve repo ref (digest_of p) r r';
}.

(** ** Closed repositories *)

Section spec.
Context `{!Manifests} {S R : Type} `{!ArtifactRegistry S, !ArtifactRegistry R}.
Context {digest_of : string → string} `{!Source digest_of S, !Destination digest_of R}.
Context (getenv : string → string).
Notation MT := (M (Env S R)).

(** Manifests of the same digest have the same references: there are no collisions. *)
Definition no_collision : Prop := ∀ m m' d,
  man_digest digest_of m = Some d → man_digest digest_of m' = Some d → References m = References m'.
Hypothesis Hcol : no_collision.

(** The destination holds what [c] describes; foreign layers live elsewhere, and
    blobs may lack whose mount was answered with success and not done. *)
Definition blob_held (r : R) (repo d : string) : Prop := has_blob r repo d ∨ unmounted repo d.
Definition present (r : R) (repo : string) (c : Descriptor) : Prop :=
  if is_manifest (ds_MediaType c) then resolve r repo (ds_Digest c) = Some (ds_Digest c)
  else ds_MediaType c = MediaTypeForeignLayer ∨ blob_held r repo (ds_Digest c).

(** No manifest of the repository lacks something it refers to. *)
Definition closed (r : R) (repo : string) : Prop := ∀ d m c,
  resolve r repo d = Some d → man_digest digest_of m = Some d → c ∈ References m → present r repo c.

Context (repo : string).

(** What is established so far: references that resolve and blobs that are held. *)
Record Facts := mkFacts { f_refs : list (string * string); f_blobs : list string }.
Definition holds (F : Facts) (r : R) : Prop :=
  closed r repo ∧ (∀ t d, (t, d) ∈ f_refs F → resolve r repo t = Some d) ∧ (∀ d, d ∈ f_blobs F → blob_held r repo d).
Definition J (F : Facts) (e : Env S R) : Prop := holds F (dst e).

Definition and_present (c : Descriptor) (F : Facts) : Facts :=
  if is_manifest (ds_MediaType c) then mkFacts ((ds_Digest c, ds_Digest c) :: f_refs F) (f_blobs F)
  else if ds_MediaType c == MediaTypeForeignLayer then F
  else mkFacts (f_refs F) (ds_Digest c :: f_blobs F).
Definition and_ref (t d : string) (F : Facts) : Facts := mkFacts ((t, d) :: f_refs F) (f_blobs F).
Definition and_blob (d : string) (F : Facts) : Facts := mkFacts (f_refs F) (d :: f_blobs F).

Lemma holds_and_ref t d F r : holds (and_ref t d F) r ↔ holds F r ∧ resolve r repo t = Some d.
Proof. clear Hcol getenv. unfold holds. simpl. setoid_rewrite elem_of_cons. naive_solver. Qed.
Lemma holds_and_blob d F r : holds (and_blob d F) r ↔ holds F r ∧ blob_held r repo d.
Proof. clear Hcol getenv. unfold holds. simpl. setoid_rewrite elem_of_cons. naive_solver. Qed.
Lemma holds_and_present c F r : holds (and_present c F) r ↔ holds F r ∧ present r repo c.
Proof.
  unfold and_present, present. destruct (is_manifest _); [apply holds_and_ref|]. case_bool_decide; [tauto|].
  etrans; [apply (holds_and_blob (ds_Digest c) F r)|]. tauto.
Qed.

Lemma blob_held_kept r r' d : blobs_kept has_blob r r' → blob_held r repo d → blob_held r' repo d.
Proof. clear Hcol getenv. intros Hb [?|?]; [left|right]; auto. Qed.

Lemma present_no_push r r' c : no_push has_blob resolve r r' → present r repo c → present r' repo c.
Proof. intros [Hb Hr]. unfold present. rewrite Hr. destruct (is_manifest _); [done|]. intros [?|?]; eauto using blob_held_kept. Qed.

Lemma holds_no_push F r r' : no_push has_blob resolve r r' → holds F r → holds F r'.
Proof.
  intros Hp (Hc & Hf & Hd). pose proof Hp as [Hb Hr]. split_and!.
  - intros d m c. rewrite Hr. intros. eapply present_no_push; [done|]. by eapply Hc.
  - intros t d. rewrite Hr. auto.
  - eauto using blob_held_kept.
Qed.

(** A manifest may be pushed once what it refers to is there; references to other
    manifests stay. *)
Lemma resolve_pushed ref d r r' x y : pushed has_blob resolve repo ref d r r' →
  resolve r repo x = Some y → (x = ref → digest_Parse ref = true) → resolve r' repo x = Some y.
Proof.
  intros [_ Hp] Hx Hr. pose proof (Hp repo x) as E. destruct (decide _) as [[_ [->| ->]]|]; [| |congruence].
  - specialize (Hr eq_refl). pose proof (resolve_exact _ _ _ _ Hx Hr). pose proof (resolve_exact _ _ _ _ E Hr). congruence.
  - pose proof (resolve_digest _ _ _ _ E) as Hd. pose proof (resolve_exact _ _ _ _ Hx Hd). congruence.
Qed.

Lemma holds_pushed F ref d m r r' : pushed has_blob resolve repo ref d r r' → man_digest digest_of m = Some d →
  (∀ c, c ∈ References m → present r repo c) →
  (∀ y, (ref, y) ∈ f_refs F → digest_Parse ref = true) → holds F r → holds (and_ref ref d F) r'.
Proof.
  intros Hp Hm Hpres Hn (Hc & Hf & Hd). pose proof Hp as [Hb Hr].
  assert (∀ x, resolve r repo x = Some x → resolve r' repo x = Some x) as Hself.
  { intros x Hx. eapply resolve_pushed; [done..|]. intros ->. by eapply resolve_digest. }
  assert (∀ c, present r repo c → present r' repo c) as Hkeep.
  { intros c. unfold present. destruct (is_manifest _); [apply Hself|]. intros [?|?]; eauto using blob_held_kept. }
  apply holds_and_ref. split; [split_and!|].
  - intros d0 m0 c H0 Hm0 Hin. apply Hkeep.
    assert (d0 = d ∨ resolve r repo d0 = Some d0) as [->|H1].
    { rewrite Hr in H0. destruct (decide _); [left; congruence|by right]. }
    + apply Hpres. by rewrite (Hcol _ _ _ Hm Hm0).
    + by eapply Hc.
  - intros t y Hin. eapply resolve_pushed; [done|by apply Hf|]. intros ->. by eapply Hn.
  - eauto using blob_held_kept.
  - rewrite Hr, decide_True by auto. done.
Qed.

(** ** The calls *)

Lemma on_src_spec {A} F (f : S → result A * S) (φ : A → Prop) :
  (∀ s a s', f s = (Ok a, s') → φ a) → spec (J F) (on_src f) (λ a e, φ a ∧ J F e) (J F).
Proof.
  intros Hf. apply spec_act. intros e He. destruct (f (src e)) as [[a|err] s'] eqn:E; [|done]. split; [by eapply Hf|done].
Qed.

Lemma on_src_keeps {A} F (f : S → result A * S) : keeps (J F) (on_src f).
Proof. eapply spec_post; [exact (on_src_spec F f (λ _, True) (λ _ _ _ _, I))|]. naive_solver. Qed.

Lemma on_dst_spec {A} F G (f : R → result A * R) :
  (∀ r x r', f r = (x, r') → holds F r → match x with Ok a => holds (G a) r' | Err _ => holds F r' end) →
  spec (J F) (on_dst f) (λ a, J (G a)) (J F).
Proof.
  intros Hf. apply spec_act. intros e He. destruct (f (dst e)) as [x r'] eqn:E.
  specialize (Hf _ _ _ E He). by destruct x.
Qed.

Lemma on_dst_keeps {A} F (f : R → result A * R) :
  (∀ r x r', f r = (x, r') → no_push has_blob resolve r r') → keeps (J F) (on_dst f).
Proof.
  intros Hf. apply (on_dst_spec F (λ _, F)). intros r x r' E Hr.
  destruct x; eapply holds_no_push; [by eapply Hf|done|by eapply Hf|done].
Qed.

Lemma shouldStop_keeps F : keeps (J F) (shouldStop (S := S) (R := R)).
Proof. apply spec_act. intros e He. done. Qed.

(** ** Blobs *)

Lemma tryMountBlob_spec F srcRepo d :
  spec (J F) (tryMountBlob (S := S) srcRepo repo d) (λ b : bool, J (if b then and_blob d F else F)) (J F).
Proof.
  unfold tryMountBlob. eapply (spec_bind _ _ (λ _, J F)); [apply shouldStop_keeps|].
  intros [|]; [by apply spec_fail|]. eapply (spec_bind _ _ (λ b : bool, J (if b then and_blob d F else F))).
  { eapply spec_post; [apply (on_dst_spec F (λ b : bool, if b then and_blob d F else F))|done].
    intros r x r' E Hr. apply dest_BlobExist in E as [Hn Hx]. pose proof (holds_no_push F r r' Hn Hr).
    destruct x as [[|]|]; [|done..]. apply holds_and_blob. split; [done|]. left. apply Hn, Hx. done. }
  intros [|]; [by apply spec_ret|]. eapply (spec_bind _ _ (λ _, J F)).
  { apply on_dst_keeps. intros r x r'. apply dest_CanBeMount. }
  intros [[|] from]; [|by apply spec_ret].
  eapply (spec_bind _ _ (λ _, J (and_blob d F))); [|intros []; by apply spec_ret].
  apply spec_act. intros e He. simpl in *.
  destruct (ar_MountBlob from d repo (dst e)) as [x r'] eqn:E. apply dest_MountBlob in E as [Hn Hx].
  pose proof (holds_no_push F _ r' Hn He). destruct x as [[]|]; [|done]. apply holds_and_blob. split; [done|]. unfold blob_held. auto.
Qed.

Lemma copyBlobByMonolithic_spec F srcRepo d size :
  spec (J F) (copyBlobByMonolithic srcRepo repo d size) (λ _, J (and_blob d F)) (J F).
Proof.
  unfold copyBlobByMonolithic. eapply (spec_bind _ _ (λ _, J F)); [apply on_src_keeps|]. intros [n data].
  apply (on_dst_spec F (λ _, and_blob d F)). intros r x r' E Hr. apply dest_PushBlob in E as [Hn Hx].
  pose proof (holds_no_push F _ r' Hn Hr). destruct x as [[]|]; [|done]. apply holds_and_blob. split; [done|]. unfold blob_held. auto.
Qed.

Lemma copyBlob_spec F srcRepo d size :
  spec (J F) (copyBlob srcRepo repo d size) (λ _, J (and_blob d F)) (J F).
Proof.
  unfold copyBlob. eapply spec_bind; [apply tryMountBlob_spec|]. intros [|]; [by apply spec_ret|].
  apply copyBlobByMonolithic_spec.
Qed.

Lemma blob_attempts_spec F srcRepo d size : ∀ n, (0 < n)%nat →
  spec (J F) (blob_attempts n srcRepo repo d size) (λ _, J (and_blob d F)) (J F).
Proof.
  induction n as [|n IH]; intros Hn; [lia|]. cbn [blob_attempts].
  eapply spec_bind; [eapply spec_try, copyBlob_spec|].
  intros [[]|err]; [by apply spec_ret|]. destruct (_ || _) eqn:E; [by apply spec_fail|].
  apply IH. apply orb_false_iff in E as [E _]. apply bool_decide_eq_false in E. lia.
Qed.

Lemma env_or_pos env d : 0 < d → 0 < env_or env d.
Proof. intros. unfold env_or. destruct (Z.leb_spec (ParseInt_value env) 0); lia. Qed.

Definition copied (d : string) (F : Facts) {A} (o : option (A * option error)) : Env S R → Prop :=
  J (match o with Some (_, None) => and_blob d F | _ => F end).

Lemma chunk_loop_spec F srcRepo d size : ∀ fuel c,
  spec (J F) (chunk_loop getenv fuel srcRepo repo d size c) (copied d F) (J F).
Proof.
  induction fuel as [|fuel IH]; intros c; [by apply spec_ret|]. cbn [chunk_loop].
  generalize (next_range getenv (wrap64 (size - 1)) c). intros c'.
  eapply spec_bind; [eapply spec_try, on_src_keeps|].
  intros [[n data]|err]; [|by apply spec_ret].
  eapply (spec_bind _ _ (λ x e, J F e ∧ (snd x = None → c_end c' = wrap64 (size - 1) → has_blob (dst e) repo d))).
  { apply spec_act. intros e He. destruct (ar_PushBlobChunk _ _ _ _ _ _ _ _) as [x r'] eqn:E.
    apply dest_PushBlobChunk in E as (Hn & Hx & _). split; [by eapply holds_no_push|done]. }
  intros [[location failureEnd] [err|]]; [by apply spec_ret; intros e [He _]|]. simpl.
  destruct (Z.eqb_spec (c_end c') (wrap64 (size - 1))) as [Heq|Hne].
  - apply spec_ret. intros e [He Hb]. apply holds_and_blob. split; [done|]. left. auto.
  - eapply spec_pre; [apply IH|]. intros e [He _]. done.
Qed.

Lemma copyBlobByChunk_spec F srcRepo d size fuel c :
  spec (J F) (copyBlobByChunk getenv fuel srcRepo repo d size c) (copied d F) (J F).
Proof.
  unfold copyBlobByChunk. destruct (size <=? _).
  - eapply spec_bind; [eapply spec_try, copyBlobByMonolithic_spec|].
    intros [[]|err]; by apply spec_ret.
  - eapply spec_bind; [eapply spec_try, tryMountBlob_spec|].
    intros [[|]|err]; [by apply spec_ret| |by apply spec_ret]. apply chunk_loop_spec.
Qed.

Lemma chunk_attempts_spec F srcRepo d size fuel : ∀ n c, (0 < n)%nat →
  spec (J F) (chunk_attempts getenv n fuel srcRepo repo d size c)
    (λ o : option unit, J (if o then and_blob d F else F)) (J F).
Proof.
  induction n as [|n IH]; intros c Hn; [lia|]. cbn [chunk_attempts].
  eapply (spec_fbind _ _ (λ x, copied d F (Some x))).
  { eapply spec_post; [apply copyBlobByChunk_spec|]. intros [[c' [err|]]|] e; done. }
  intros [c' [err|]]; [|by apply spec_ret]. destruct (_ || _) eqn:E; [by apply spec_fail|].
  apply IH. apply orb_false_iff in E as [E _]. apply bool_decide_eq_false in E. lia.
Qed.

(** ** Artifacts *)

Section content.
Context (copy : string → MT (option unit)) (srcRepo : string) (fuel : nat) (opts : Options).
Hypothesis Hcopy : ∀ F d, digest_Parse d = true →
  spec (J F) (copy d) (λ o : option unit, J (if o then and_ref d d F else F)) (J F).

Lemma copyContent_spec F c : (is_manifest (ds_MediaType c) = true → digest_Parse (ds_Digest c) = true) →
  spec (J F) (copyContent getenv copy fuel c srcRepo repo opts)
    (λ o : option unit, J (if o then and_present c F else F)) (J F).
Proof.
  intros Hc. unfold copyContent, and_present. destruct (is_manifest _); [by apply Hcopy, Hc|].
  destruct (ds_MediaType c == _); [by apply spec_ret|]. destruct (op_CopyByChunk opts).
  - apply chunk_attempts_spec. pose proof (env_or_pos (getenv "COPY_CHUNK_RETRY_COUNT") 5). unfold chunkRetryCnt. lia.
  - eapply spec_fret, spec_post; [apply blob_attempts_spec|done].
    pose proof (env_or_pos (getenv "COPY_BLOB_RETRY_COUNT") 5). unfold blobRetryCnt. lia.
Qed.

Lemma copy_contents_spec : ∀ l F,
  (∀ c, c ∈ l → is_manifest (ds_MediaType c) = true → digest_Parse (ds_Digest c) = true) →
  spec (J F) (copy_contents getenv copy fuel l srcRepo repo opts)
    (λ o e, J F e ∧ (o = Some tt → ∀ c, c ∈ l → present (dst e) repo c)) (J F).
Proof.
  induction l as [|c l IH]; intros F Hl; cbn [copy_contents].
  { apply spec_ret. intros e He. split; [done|]. intros _ c Hc. by apply elem_of_nil in Hc. }
  eapply (spec_fbind _ _ (λ _, J (and_present c F))).
  - eapply spec_post; [apply copyContent_spec; intros; apply Hl; [by left|done]|].
    intros [[]|] e; [done|]. intros He. split; [done|discriminate].
  - intros []. eapply spec_conseq; [apply (IH (and_present c F)); intros; apply Hl; [by right|done]|done| |].
    + intros o e [He Ho]. apply holds_and_present in He as [He Hc]. split; [done|].
      intros -> x [->|Hx]%elem_of_cons; [done|]. by apply Ho.
    + intros e He. by apply holds_and_present in He as [He _].
Qed.
End content.

Definition delivered (srcRepo srcRef dstRef : string) (r : R) : Prop :=
  ∃ m d, served (S := S) srcRepo srcRef m d ∧ resolve r repo dstRef = Some d.

Lemma pushManifest_spec F m d dstRef : man_digest digest_of m = Some d ∨ man_digest digest_of m = None →
  (∀ y, (dstRef, y) ∈ f_refs F → digest_Parse dstRef = true) →
  spec (λ e, J F e ∧ ∀ c, c ∈ References m → present (dst e) repo c)
    (pushManifest (S := S) m repo dstRef) (λ _, J (and_ref dstRef d F)) (J F).
Proof.
  intros Hm Hn. unfold pushManifest. set (P := λ e, J F e ∧ _).
  eapply (spec_bind _ _ (λ _, P)); [by apply spec_act|]. intros [|]; [by apply spec_fail; intros e [He _]|].
  unfold man_digest in Hm. destruct (Payload m) as [[mt p]|err] eqn:Ep.
  2:{ eapply (spec_bind _ _ (λ _ _, False)); [apply spec_of_result; [done|by intros e [He _]]|].
      intros a w r w' []. }
  destruct Hm as [[= Hd]|[=]]. eapply (spec_bind _ _ (λ x e, x = (mt, p) ∧ P e)); [apply spec_of_result|].
  { by intros [] e [= <- <-]. } { by intros e [He _]. }
  intros [mt' p']. apply spec_pure. intros [= -> ->].
  eapply (spec_bind _ _ (λ _, J (and_ref dstRef d F))); [|intros; by apply spec_ret].
  apply spec_act. intros e [He Hpres]. destruct (ar_PushManifest _ _ _ _ _) as [x r'] eqn:E.
  apply dest_PushManifest in E as [[Hno Hx]|Hp].
  - pose proof (holds_no_push F _ r' Hno He). by destruct x.
  - rewrite Hd in Hp. pose proof (holds_pushed F dstRef d m _ r' Hp) as Hh.
    assert (holds (and_ref dstRef d F) r') as H' by (apply Hh; [by unfold man_digest; rewrite Ep, Hd|done..]).
    destruct x; [done|]. by apply holds_and_ref in H' as [H' _].
Qed.

Lemma copyArtifact_spec srcRepo fuel opts : ∀ depth F srcRef dstRef override,
  (∀ y, (dstRef, y) ∈ f_refs F → digest_Parse dstRef = true) →
  spec (J F) (copyArtifact getenv depth fuel srcRepo srcRef repo dstRef override opts)
    (λ o e, J F e ∧ (o = Some tt → override = true → delivered srcRepo srcRef dstRef (dst e))) (J F).
Proof.
  induction depth as [|depth IH]; intros F srcRef dstRef override Hn; [by apply spec_ret|]. cbn [copyArtifact].
  eapply (spec_bind _ _ (λ md e, served srcRepo srcRef (fst md) (snd md) ∧ J F e)).
  { unfold pullManifest. eapply (spec_bind _ _ (λ _, J F)); [apply shouldStop_keeps|].
    intros [|]; [by apply spec_fail|]. apply on_src_spec. intros s [m d] s' E. by eapply served_pull. }
  intros [m d]. apply spec_pure. simpl. intros Hs.
  eapply (spec_bind _ _ (λ x e, J F e ∧ (x = (true, d) → resolve (dst e) repo dstRef = Some d))).
  { unfold exist_. eapply (spec_bind _ _ (λ x e, J F e ∧ ∀ desc, x = (true, Some desc) → resolve (dst e) repo dstRef = Some (ds_Digest desc))).
    - apply spec_act. intros e He. destruct (ar_ManifestExist _ _ _) as [x r'] eqn:E.
      apply dest_ManifestExist in E as [Hno Hx]. pose proof (holds_no_push F _ r' Hno He) as H'.
      destruct x as [y|]; [|done]. split; [done|]. intros desc ->. simpl. destruct Hno as [_ ->]. by apply Hx.
    - intros [b desc]. apply spec_ret. intros e [He Hx]. split; [done|]. simpl. intros [= -> Hd].
      destruct desc as [desc|]; [|exfalso; by eapply served_nonempty]. rewrite <- Hd. by apply Hx. }
  intros [b d2]. destruct (b && (d == d2)) eqn:Eb.
  { apply andb_true_iff in Eb as [-> Ed]. apply bool_decide_eq_true in Ed as ->. apply spec_ret.
    intros e [He Hx]. split; [done|]. intros _ _. exists m, d2. auto. }
  destruct (b && negb override) eqn:Eo.
  { apply andb_true_iff in Eo as [-> Eo]. apply negb_true_iff in Eo as ->. apply spec_ret. intros e [He _]. done. }
  eapply (spec_fbind _ _ (λ _ e, J F e ∧ ∀ c, c ∈ References m → present (dst e) repo c)).
  - eapply spec_conseq; [apply copy_contents_spec| |intros [[]|] e [He Hx]|done].
    + intros F' d' Hd'. eapply spec_post; [apply (IH F' d' d' true); auto|].
      intros [[]|] e [He Hx]; [|done]. destruct (Hx eq_refl eq_refl) as (m' & x & Hs' & Hr).
      pose proof (served_exact _ _ _ _ Hs' Hd') as ->. by apply holds_and_ref.
    + intros c Hc Him. by eapply served_references.
    + intros e [He _]. done.
    + split; [done|auto].
    + done.
  - intros []. apply spec_fret. eapply spec_post; [apply (pushManifest_spec F m d)|].
    + destruct (man_digest digest_of m) as [d'|] eqn:Em; [left|by right]. f_equal. by eapply served_digest.
    + done.
    + intros [] e He. apply holds_and_ref in He as [He Hr]. split; [done|]. intros _ _. by exists m, d.
Qed.

(** ** The whole copy *)

Definition no_facts : Facts := mkFacts [] [].

Lemma copy_tags_closed depth fuel srcRepo dst_tags override opts : ∀ tags i err,
  keeps (J no_facts) (copy_tags getenv depth fuel srcRepo repo tags dst_tags i err override opts).
Proof.
  induction tags as [|tag tags IH]; intros i err; cbn [copy_tags]; [by destruct err; [apply spec_fail|apply spec_ret]|].
  destruct (dst_tags !! i) as [dst_tag|]; [|by apply spec_fail].
  eapply spec_bind; [eapply spec_try, copyArtifact_spec; intros y Hy; by apply elem_of_nil in Hy|].
  intros [[[]|]|e]; [eapply spec_pre; [apply IH|by intros e [He _]]|by apply spec_ret; intros e [He _]|].
  destruct (error_same e ErrStopped); [by apply spec_ret|apply IH].
Qed.

Lemma holds_no_facts r : holds no_facts r ↔ closed r repo.
Proof. clear Hcol getenv. unfold holds. simpl. setoid_rewrite elem_of_nil. naive_solver. Qed.

End spec.

(** ** Transfers that nobody stops *)

(** The sentinel of the transfer is its own: registries return other errors. *)
Class NoSentinel `{!Manifests} (R : Type) `{!ArtifactRegistry R} := {
  ns_ManifestExist repo ref r : fst (ar_ManifestExist repo ref r) ≠ Err ErrStopped;
  ns_PullManifest repo ref r : fst (ar_PullManifest repo ref r) ≠ Err ErrStopped;
  ns_PushManifest repo ref mt p r : fst (ar_PushManifest repo ref mt p r) ≠ Err ErrStopped;
  ns_BlobExist repo d r : fst (ar_BlobExist repo d r) ≠ Err ErrStopped;
  ns_PullBlob repo d r : fst (ar_PullBlob repo d r) ≠ Err ErrStopped;
  ns_PullBlobChunk repo d n s e r : fst (ar_PullBlobChunk repo d n s e r) ≠ Err ErrStopped;
  ns_PushBlob repo d n data r : fst (ar_PushBlob repo d n data r) ≠ Err ErrStopped;
  ns_PushBlobChunk repo d n data s e l r : snd (fst (ar_PushBlobChunk repo d n data s e l r)) ≠ Some ErrStopped;
  ns_MountBlob from d repo r : fst (ar_MountBlob from d repo r) ≠ Err ErrStopped;
  ns_CanBeMount d r : fst (ar_CanBeMount d r) ≠ Err ErrStopped;
}.

Section quiet.
Context `{!Manifests} {S R : Type} `{!ArtifactRegistry S, !ArtifactRegistry R, !NoSentinel S, !NoSentinel R}.
Context (payload_error : ∀ m, Payload m ≠ Err ErrStopped).
Context (getenv : string → string).
Notation MT := (M (Env S R)).

(** [quiet m Q]: as long as nobody asks to stop, [m] does not end stopped, and a
    value it returns satisfies [Q]. *)
Definition calm (e : Env S R) : Prop := Forall (eq false) (polls e).
Definition fine {A} (Q : A → Prop) (r : result A) : Prop := match r with Ok a => Q a | Err e => e ≠ ErrStopped end.
Definition quiet {A} (m : MT A) (Q : A → Prop) : Prop :=
  ∀ w r w', calm (db w) → m w = (r, w') → calm (db w') ∧ fine Q r.

Lemma quiet_ret {A} (a : A) (Q : A → Prop) : Q a → quiet (mret a) Q.
Proof. by intros Hq w r w' Hw [= <- <-]. Qed.
Lemma quiet_fail {A} e (Q : A → Prop) : e ≠ ErrStopped → quiet (fail e) Q.
Proof. by intros Hq w r w' Hw [= <- <-]. Qed.
Lemma quiet_bind {A B} (m : MT A) (k : A → MT B) P Q :
  quiet m P → (∀ a, P a → quiet (k a) Q) → quiet (m ≫= k) Q.
Proof.
  intros Hm Hk w r w' Hw Hr. apply bind_cases in Hr as [(e & Hr & ->)|(a & w1 & H1 & Hr)].
  - exact (Hm _ _ _ Hw Hr).
  - destruct (Hm _ _ _ Hw H1) as [Hw1 Ha]. by eapply Hk.
Qed.
Lemma quiet_try {A} (m : MT A) P : quiet m P → quiet (try m) (fine P).
Proof.
  intros Hm w r w' Hw. unfold try. destruct (m w) as [x w1] eqn:E. intros [= <- <-]. exact (Hm _ _ _ Hw E).
Qed.
Lemma quiet_fbind {A B} (m : MT (option A)) (k : A → MT (option B)) P Q :
  quiet m (λ o, match o with Some a => P a | None => Q None end) → (∀ a, P a → quiet (k a) Q) → quiet (fbind m k) Q.
Proof. intros Hm Hk. eapply quiet_bind; [exact Hm|]. intros [a|] Ha; [by apply Hk|by apply quiet_ret]. Qed.
Lemma quiet_fret {A} (m : MT A) : quiet m (λ _, True) → quiet (fret m) (λ _, True).
Proof. intros Hm. eapply quiet_bind; [exact Hm|]. intros. by apply quiet_ret. Qed.
Lemma quiet_on_src {A} (f : S → result A * S) : (∀ s, fst (f s) ≠ Err ErrStopped) → quiet (on_src (R := R) f) (λ _, True).
Proof.
  intros Hf w r w' Hw. unfold on_src, act. specialize (Hf (src (db w))). destruct (f (src (db w))) as [x s].
  intros [= <- <-]. split; [done|]. destruct x; [done|]. intros ->. done.
Qed.
Lemma quiet_on_dst {A} (f : R → result A * R) (Q : A → Prop) :
  (∀ d, fine Q (fst (f d))) → quiet (on_dst (S := S) f) Q.
Proof.
  intros Hf w r w' Hw. unfold on_dst, act. specialize (Hf (dst (db w))). destruct (f (dst (db w))) as [x d].
  intros [= <- <-]. done.
Qed.
Lemma fine_True {A} (r : result A) : r ≠ Err ErrStopped → fine (λ _, True) r.
Proof. destruct r; [done|]. intros Hr ->. done. Qed.
Lemma quiet_shouldStop : quiet (shouldStop (S := S) (R := R)) (λ b, b = false).
Proof.
  intros w r w' Hw. unfold shouldStop, act. intros [= <- <-]. unfold calm in *. cbn.
  destruct Hw as [|b l <- Hl]; [done|]. done.
Qed.
Lemma stopped_same e : e ≠ ErrStopped → error_same e ErrStopped = false.
Proof. by destruct e. Qed.

Lemma quiet_tryMountBlob srcRepo dstRepo d : quiet (tryMountBlob (S := S) (R := R) srcRepo dstRepo d) (λ _, True).
Proof.
  unfold tryMountBlob. eapply quiet_bind; [apply quiet_shouldStop|intros _ ->].
  eapply quiet_bind; [apply quiet_on_dst; intros; apply fine_True, ns_BlobExist|intros [|] _; [by apply quiet_ret|]].
  eapply quiet_bind; [apply quiet_on_dst; intros; apply fine_True, ns_CanBeMount|intros [[|] from] _; [|by apply quiet_ret]].
  eapply quiet_bind; [apply quiet_on_dst; intros; apply fine_True, ns_MountBlob|intros; by apply quiet_ret].
Qed.

Lemma quiet_monolithic srcRepo dstRepo d size : quiet (copyBlobByMonolithic (S := S) (R := R) srcRepo dstRepo d size) (λ _, True).
Proof.
  unfold copyBlobByMonolithic. eapply quiet_bind; [apply quiet_on_src; intros; apply ns_PullBlob|intros].
  apply quiet_on_dst. intros. apply fine_True, ns_PushBlob.
Qed.

Lemma quiet_blob_attempts srcRepo dstRepo d size : ∀ n,
  quiet (blob_attempts (S := S) (R := R) n srcRepo dstRepo d size) (λ _, True).
Proof.
  induction n as [|n IH]; [by apply quiet_ret|]. cbn [blob_attempts].
  eapply quiet_bind; [eapply quiet_try|].
  - unfold copyBlob. eapply quiet_bind; [apply quiet_tryMountBlob|]. intros [|] _; [exact (quiet_ret tt (λ _, True) I)|apply quiet_monolithic].
  - intros [[]|e] He; [by apply quiet_ret|]. rewrite (stopped_same e He), orb_false_r.
    case_bool_decide; [by apply quiet_fail|done].
Qed.

Definition fine_chunks (o : option (Chunks * option error)) : Prop :=
  match o with Some (_, Some e) => e ≠ ErrStopped | _ => True end.

Lemma quiet_chunk_loop srcRepo dstRepo d size : ∀ fuel c,
  quiet (chunk_loop (S := S) (R := R) getenv fuel srcRepo dstRepo d size c) fine_chunks.
Proof.
  induction fuel as [|fuel IH]; intros c; [by apply quiet_ret|]. cbn [chunk_loop]. generalize (next_range getenv (wrap64 (size - 1)) c). intros c'.
  eapply quiet_bind; [apply quiet_try, quiet_on_src; intros; apply ns_PullBlobChunk|].
  intros [[n data]|e] He; [|by apply quiet_ret].
  eapply (quiet_bind _ _ (λ x, snd x ≠ Some ErrStopped)).
  { apply quiet_on_dst. intros r. pose proof (ns_PushBlobChunk dstRepo d size data (c_start c') (c_end c') (c_location c') r) as Hp.
    by destruct (ar_PushBlobChunk _ _ _ _ _ _ _ _). }
  intros [[l f] [e|]] He'; [apply quiet_ret; simpl in *; congruence|].
  destruct (_ =? _); [by apply quiet_ret|apply IH].
Qed.

Lemma quiet_chunk_attempts srcRepo dstRepo d size fuel : ∀ n c,
  quiet (chunk_attempts (S := S) (R := R) getenv n fuel srcRepo dstRepo d size c) (λ _, True).
Proof.
  induction n as [|n IH]; intros c; [by apply quiet_ret|]. cbn [chunk_attempts].
  eapply (quiet_fbind _ _ (λ x, fine_chunks (Some x))).
  - unfold copyBlobByChunk. destruct (size <=? _).
    + eapply quiet_bind; [eapply quiet_try, quiet_monolithic|]. intros [[]|e] He; by apply quiet_ret.
    + eapply quiet_bind; [eapply quiet_try, quiet_tryMountBlob|].
      intros [[|]|e] He; [by apply quiet_ret| |by apply quiet_ret].
      intros w r w' Hw E. destruct (quiet_chunk_loop _ _ _ _ _ _ _ _ _ Hw E) as [? Hr]. split; [done|]. destruct r as [[x|]|]; done.
  - intros [c' [e|]] He; [|by apply quiet_ret]. rewrite (stopped_same e He), orb_false_r.
    case_bool_decide; [by apply quiet_fail|apply IH].
Qed.

Lemma quiet_contents copy fuel srcRepo dstRepo opts : (∀ d, quiet (copy d) (λ _, True)) → ∀ l,
  quiet (copy_contents (S := S) (R := R) getenv copy fuel l srcRepo dstRepo opts) (λ _, True).
Proof.
  intros Hc. induction l as [|c l IH]; [by apply quiet_ret|]. cbn [copy_contents].
  eapply (quiet_fbind _ _ (λ _, True)); [|done]. unfold copyContent.
  assert (∀ m : MT (option unit), quiet m (λ _, True) → quiet m (λ o, match o with Some _ => True | None => True end)) as Hw.
  { intros m Hm w r w' Hw E. destruct (Hm _ _ _ Hw E) as [? Hr]. split; [done|]. destruct r as [[?|]|]; done. }
  apply Hw. destruct (is_manifest _); [done|]. destruct (_ == _); [by apply quiet_ret|].
  destruct (op_CopyByChunk opts); [apply quiet_chunk_attempts|apply quiet_fret, quiet_blob_attempts].
Qed.

Lemma quiet_copyArtifact fuel srcRepo dstRepo opts : ∀ depth srcRef dstRef override,
  quiet (copyArtifact (S := S) (R := R) getenv depth fuel srcRepo srcRef dstRepo dstRef override opts) (λ _, True).
Proof.
  induction depth as [|depth IH]; intros; [by apply quiet_ret|]. cbn [copyArtifact].
  eapply (quiet_bind _ _ (λ _, True)).
  { unfold pullManifest. eapply quiet_bind; [apply quiet_shouldStop|intros _ ->]. apply quiet_on_src. intros. apply ns_PullManifest. }
  intros [m d] _. eapply (quiet_bind _ _ (λ _, True)).
  { unfold exist_. eapply quiet_bind; [apply quiet_on_dst; intros; apply fine_True, ns_ManifestExist|]. intros. by apply quiet_ret. }
  intros [b d2] _. destruct (b && _); [by apply quiet_ret|]. destruct (b && _); [by apply quiet_ret|].
  eapply (quiet_fbind _ _ (λ _, True)).
  - intros w r w' Hw E. apply quiet_contents in E as [? Hr]; [|auto|done]. split; [done|]. destruct r as [[?|]|]; done.
  - intros _ _. apply quiet_fret. unfold pushManifest. eapply quiet_bind; [apply quiet_shouldStop|intros _ ->].
    eapply (quiet_bind _ _ (λ _, True)).
    { intros w r w' Hw [= <- <-]. split; [done|]. apply fine_True, payload_error. }
    intros [mt p] _. eapply quiet_bind; [apply quiet_on_dst; intros; apply fine_True, ns_PushManifest|]. intros. by apply quiet_ret.
Qed.
End quiet.

(** ** Transfers end *)

Section total.
Context `{!Manifests} {S R : Type} `{!ArtifactRegistry S, !ArtifactRegistry R}.
Context {digest_of : string → string} `{!Source digest_of S, !Destination digest_of R}.
Context (getenv : string → string) (fuel : nat) (srcRepo dstRepo : string) (opts : Options).
Notation MT := (M (Env S R)).
Notation chunkSize := (replicationChunkSize getenv).

(** [total m Q]: [m] ends with an error or a value that satisfies [Q]. *)
Definition total {A} (m : MT A) (Q : A → Prop) : Prop := spec (λ _, True) m (λ a _, Q a) (λ _, True).

Lemma total_bind {A B} (m : MT A) (k : A → MT B) Q : (∀ a, total (k a) Q) → total (m ≫= k) Q.
Proof. intros Hk. eapply (spec_bind _ _ (λ _ _, True)); [by intros w [|] w' _ _|done]. Qed.
Lemma total_ret {A} (a : A) (Q : A → Prop) : Q a → total (mret a) Q.
Proof. intros Ha. by apply spec_ret. Qed.
Lemma total_fail {A} e (Q : A → Prop) : total (fail e) Q.
Proof. by apply spec_fail. Qed.
Lemma total_pre {A} P (m : MT A) (Q : A → Prop) : total m Q → spec P m (λ a _, Q a) (λ _, True).
Proof. intros Hm. by eapply spec_pre. Qed.
Lemma total_fbind {A B} (m : MT (option A)) (k : A → MT (option B)) :
  total m (λ o, o ≠ None) → (∀ a, total (k a) (λ o, o ≠ None)) → total (fbind m k) (λ o, o ≠ None).
Proof. intros Hm Hk. eapply spec_bind; [exact Hm|]. intros [a|]; [apply total_pre, Hk|by apply spec_ret]. Qed.

(** A size the code can add a chunk to. *)
Definition small (size : Z) : Prop := size <= 2 ^ 62 ∧ size < Z.of_nat fuel * chunkSize.

Definition in_blob (size : Z) (o : option (Chunks * option error)) : Prop :=
  ∃ c err, o = Some (c, err) ∧ -1 <= c_end c < size.

Lemma chunkSize_pos : 0 < chunkSize.
Proof. by apply env_or_pos. Qed.

Lemma next_range_end size c : chunkSize < size → size <= 2 ^ 62 → -1 <= c_end c < size →
  c_end (next_range getenv (wrap64 (size - 1)) c) = Z.min (size - 1) (c_end c + chunkSize).
Proof.
  intros Hs Hb Hc. pose proof chunkSize_pos. unfold next_range. cbn [c_end].
  rewrite (wrap64_id (size - 1)), (wrap64_id (c_end c + 1)), wrap64_id by int64_lia. destruct (Z.leb_spec (size - 1) (c_end c + 1 + chunkSize - 1)); lia.
Qed.

Lemma chunk_loop_total d size : chunkSize < size → size <= 2 ^ 62 → ∀ n c, -1 <= c_end c < size →
  size - 1 - c_end c < Z.of_nat n * chunkSize →
  total (chunk_loop (S := S) (R := R) getenv n srcRepo dstRepo d size c) (in_blob size).
Proof.
  intros Hs Hb. pose proof chunkSize_pos as Hpos. induction n as [|n IH]; intros c Hc Hn; [lia|]. cbn [chunk_loop].
  pose proof (next_range_end size c Hs Hb Hc) as He. revert He. generalize (next_range getenv (wrap64 (size - 1)) c).
  intros c' He. apply total_bind. intros [[k data]|err]; [|by apply total_ret; exists c', (Some err); split; [done|lia]].
  eapply (spec_bind _ _ (λ x _, snd x ≠ None → -1 <= snd (fst x) < size)).
  { apply spec_act. intros e _. destruct (ar_PushBlobChunk _ _ _ _ _ _ _ _) as [x r'] eqn:E.
    by apply dest_PushBlobChunk in E as (_ & _ & Hx). }
  intros [[location failureEnd] [err|]]; simpl.
  - apply (spec_conseq _ (λ _, -1 <= failureEnd < size) _ _ (λ a _, in_blob size a) _ (λ _, True)); [|naive_solver..].
    apply spec_ret. intros. eexists _, _. split; [done|]. done.
  - apply total_pre. cbn [c_end]. rewrite (wrap64_id (size - 1)) by int64_lia.
    destruct (Z.eqb_spec (c_end c') (size - 1)) as [Heq|Hne].
    + apply total_ret. eexists _, _. split; [done|]. simpl. lia.
    + apply IH; simpl; lia.
Qed.

Lemma chunk_attempts_total d size : small size → ∀ n c, -1 <= c_end c < Z.max size 0 →
  total (chunk_attempts (S := S) (R := R) getenv n fuel srcRepo dstRepo d size c) (λ o, o ≠ None).
Proof.
  intros [Hb Hf]. induction n as [|n IH]; intros c Hc; [by apply total_ret|]. cbn [chunk_attempts].
  eapply (spec_fbind _ _ (λ x _, -1 <= c_end (fst x) < Z.max size 0)).
  - apply (spec_conseq _ (λ _, True) _ _ (λ o _, in_blob (Z.max size 0) o) _ (λ _, True)); [|done| |done].
    + unfold copyBlobByChunk. destruct (Z.leb_spec size chunkSize).
      * apply total_bind. intros [[]|err]; apply total_ret; by eexists _, _.
      * apply total_bind. intros [[|]|err]; [by apply total_ret; eexists _, _| |by apply total_ret; eexists _, _].
        pose proof chunkSize_pos. rewrite Z.max_l in * by lia. apply chunk_loop_total; lia.
    + intros o e (c' & err & -> & Hc'). done.
  - intros [c' [err|]]; [|by apply spec_ret].
    apply (spec_exact _ _ _ _). intros e He. destruct (_ || _); [by apply spec_fail|].
    eapply spec_pre; [apply IH; exact He|done].
Qed.

Context (rank : string → nat).
Hypothesis Hrank : ∀ repo ref m d c, served (S := S) repo ref m d → c ∈ References m →
  is_manifest (ds_MediaType c) = true → (rank (ds_Digest c) < rank d)%nat.
Hypothesis Hsmall : ∀ repo ref m d c, served (S := S) repo ref m d → c ∈ References m → small (ds_Size c).

Lemma copy_contents_total copy : ∀ l,
  (∀ c, c ∈ l → small (ds_Size c)) →
  (∀ c, c ∈ l → is_manifest (ds_MediaType c) = true → total (copy (ds_Digest c)) (λ o, o ≠ None)) →
  total (copy_contents (S := S) (R := R) getenv copy fuel l srcRepo dstRepo opts) (λ o, o ≠ None).
Proof.
  induction l as [|c l IH]; intros Hs Hc; [by apply total_ret|]. cbn [copy_contents].
  apply total_fbind.
  - unfold copyContent. destruct (is_manifest _) eqn:Em; [apply Hc; [by left|done]|].
    destruct (_ == _); [by apply total_ret|]. destruct (op_CopyByChunk opts).
    + unfold copyChunkWithRetry. apply chunk_attempts_total; [apply Hs; by left|cbn; lia].
    + apply total_bind. intros. by apply total_ret.
  - intros []. apply IH; intros; [apply Hs; by right|apply Hc; [by right|done]].
Qed.

Lemma copyArtifact_total : ∀ depth srcRef dstRef override,
  (∀ m d, served (S := S) srcRepo srcRef m d → (rank d < depth)%nat) → (0 < depth)%nat →
  total (copyArtifact (S := S) (R := R) getenv depth fuel srcRepo srcRef dstRepo dstRef override opts) (λ o, o ≠ None).
Proof.
  induction depth as [|depth IH]; intros srcRef dstRef override Hd Hpos; [lia|]. cbn [copyArtifact].
  eapply (spec_bind _ _ (λ md _, served (S := S) srcRepo srcRef (fst md) (snd md))).
  { unfold pullManifest. apply total_bind. intros [|]; [by apply total_fail|]. apply spec_act. intros e _.
    destruct (ar_PullManifest _ _ _) as [[[m d]|] s'] eqn:E; [by eapply served_pull|done]. }
  intros [m d]. apply spec_exact. intros e Hs. simpl in Hs. apply total_pre.
  apply total_bind. intros [b d2]. destruct (b && _); [by apply total_ret|]. destruct (b && _); [by apply total_ret|].
  apply total_fbind.
  - apply copy_contents_total.
    + intros c Hc. by eapply Hsmall.
    + intros c Hc Hm. pose proof (Hrank _ _ _ _ _ Hs Hc Hm). specialize (Hd _ _ Hs).
      apply IH; [|lia]. intros m' d' Hs'. pose proof (served_exact _ _ _ _ Hs') as Hx.
      rewrite Hx; [lia|]. exact (served_references _ _ _ _ _ Hs Hc Hm).
  - intros []. apply total_bind. intros []. by apply total_ret.
Qed.

Lemma copy_tags_total depth dst_tags override : (0 < depth)%nat → ∀ tags i err,
  (∀ t m d, t ∈ tags → served (S := S) srcRepo t m d → (rank d < depth)%nat) →
  total (copy_tags (S := S) (R := R) getenv depth fuel srcRepo dstRepo tags dst_tags i err override opts) (λ o, o ≠ None).
Proof.
  intros Hpos. induction tags as [|t tags IH]; intros i err Ht; cbn [copy_tags].
  { destruct err; [by apply total_fail|by apply total_ret]. }
  destruct (dst_tags !! i) as [dst_tag|]; [|by apply total_fail].
  assert (∀ b, total (copy_tags (S := S) (R := R) getenv depth fuel srcRepo dstRepo tags dst_tags (Datatypes.S i) b override opts)
                 (λ o, o ≠ None)) as Hrest.
  { intros b. apply IH. intros x m d Hx. apply Ht. by right. }
  eapply spec_bind; [eapply spec_try, copyArtifact_total; [intros; eapply Ht; [by left|done]|done]|].
  intros [[[]|]|e]; simpl; [eapply spec_pre; [apply Hrest|done]|by intros w r w' ?| ].
  destruct (error_same e ErrStopped); [by apply spec_ret|apply Hrest].
Qed.
End total.

(** ** Every reference arrives *)

Section delivers.
Context `{HM : !Manifests} {S R : Type} `{!ArtifactRegistry S, !ArtifactRegistry R, !NoSentinel S, !NoSentinel R}.
Context {digest_of : string → string} `{!Source digest_of S, !Destination digest_of R}.
Context (payload_error : ∀ m, Payload m ≠ Err ErrStopped).
Context (Hcol : no_collision (digest_of := digest_of)).
Context (getenv : string → string) (depth fuel : nat) (srcRepo repo : string) (dst_tags : list string) (opts : Options).

(** A later push may move a tag only when it has the same name. *)
Definition safe_facts (i : nat) (F : Facts) : Prop :=
  ∀ t y, (t, y) ∈ f_refs F → t ∈ drop i dst_tags → digest_Parse t = true.

Lemma copy_tags_delivers : ∀ tags i err F (w w' : World (Env S R)), NoDup (drop i dst_tags) → safe_facts i F →
  J (digest_of := digest_of) repo F (db w) → calm (db w) →
  copy_tags getenv depth fuel srcRepo repo tags dst_tags i err true opts w = (Ok (Some tt), w') →
  err = false ∧ J (digest_of := digest_of) repo F (db w') ∧
  ∀ k tag, tags !! k = Some tag → ∃ t, dst_tags !! (i + k)%nat = Some t ∧
    delivered (S := S) (digest_of := digest_of) repo srcRepo tag t (dst (db w')).
Proof.
  induction tags as [|tag tags IH]; intros i err F w w' Hnd Hsafe HJ Hcalm H; cbn [copy_tags] in H.
  { destruct err; [done|]. injection H as <-. done. }
  destruct (dst_tags !! i) as [t|] eqn:Et; [|done]. pose proof (drop_S _ _ _ Et) as Hdrop. rewrite Hdrop in Hnd.
  apply NoDup_cons in Hnd as [Hni Hnd]. apply bind_try_inv in H as (x & w1 & H1 & H).
  assert (∀ y, (t, y) ∈ f_refs F → digest_Parse t = true) as Ht.
  { intros y Hy. eapply Hsafe; [done|]. rewrite Hdrop. by left. }
  pose proof (copyArtifact_spec getenv Hcol repo srcRepo fuel opts depth F tag t true Ht w x w1 HJ H1) as Hspec.
  destruct (quiet_copyArtifact payload_error getenv fuel srcRepo repo opts depth tag t true w x w1 Hcalm H1) as [Hcalm1 Hq].
  destruct x as [[[]|]|e]; [|done|].
  - destruct Hspec as [HJ1 (m & d & Hs & Hr)]; [done..|].
    assert (safe_facts (Datatypes.S i) (and_ref t d F)) as Hsafe1.
    { intros t' y Hin Hin'. apply elem_of_cons in Hin as [[= -> ->]|Hin]; [done|].
      eapply Hsafe; [done|]. rewrite Hdrop. by right. }
    assert (J (digest_of := digest_of) repo (and_ref t d F) (db w1)) as HJ2 by by apply (holds_and_ref (digest_of := digest_of)).
    destruct (IH (Datatypes.S i) err (and_ref t d F) w1 w' Hnd Hsafe1 HJ2 Hcalm1 H) as (-> & HJ' & Hrest).
    destruct (proj1 (holds_and_ref repo t d F (dst (db w'))) HJ') as [HJ'' Hr']. split_and!; [done..|]. intros [|k] tag'; simpl.
    + intros [= <-]. exists t. rewrite Nat.add_0_r. split; [done|]. by exists m, d.
    + intros Hk. destruct (Hrest k tag' Hk) as (t' & Ht' & Hd). exists t'. split; [|done]. by rewrite Nat.add_succ_r.
  - rewrite (stopped_same e Hq) in H. apply (IH (Datatypes.S i) true F) in H as ([=] & _); [done| |done..].
    intros t' y Hin Hin'. eapply Hsafe; [done|]. rewrite Hdrop. by right.
Qed.
End delivers.

(** ** The theorems *)

(** C3 (no dangling content): for a source and a destination that keep the laws
    [Source] and [Destination] and digests without collisions, when a transfer
    copies (and does not delete), a destination repository each of whose manifests
    has all it refers to stays so, whatever calls fail, however often they are tried
    again and whenever the job is stopped.  Foreign layers are excepted, and blobs
    whose mount the destination has answered with success without doing it
    ([unmounted]): the client cannot tell. *)
Theorem transfer_closed `{HM : !Manifests} {S R} `{!ArtifactRegistry S, !ArtifactRegistry R} digest_of
    `{!Source digest_of S, !Destination digest_of R} getenv factories depth fuel srcRes dstRes opts (w w' : World (Env S R)) r :
  no_collision (digest_of := digest_of) → rs_Deleted dstRes = false →
  closed (digest_of := digest_of) (dst (db w)) (rs_Repository dstRes) →
  Transfer getenv factories depth fuel srcRes dstRes opts w = (r, w') →
  closed (digest_of := digest_of) (dst (db w')) (rs_Repository dstRes).
Proof.
  intros Hcol Hdel Hc H. unfold Transfer in H. rewrite Hdel in H.
  apply bind_cases in H as [(e & H & ->)|([] & w1 & H1 & H)]; [by injection H as _ <-|]. injection H1 as _ <-.
  apply (holds_no_facts (rs_Repository dstRes)) in Hc.
  pose proof (copy_tags_closed getenv Hcol (rs_Repository dstRes) depth fuel (rs_Repository srcRes)
    (snd (convert dstRes)) (rs_Override dstRes) opts (snd (convert srcRes)) 0 false _ _ _ Hc H) as Hk.
  apply (proj1 (holds_no_facts (rs_Repository dstRes) _)). by destruct r.
Qed.


(** C30 (transfers end): the loops of a transfer end when manifests nest less than
    [depth] deep and blobs have less than [fuel] chunks. *)
Theorem transfer_returns `{HM : !Manifests} {S R} `{!ArtifactRegistry S, !ArtifactRegistry R} digest_of
    `{!Source digest_of S, !Destination digest_of R} getenv factories depth fuel srcRes dstRes opts rank (w : World (Env S R)) :
  (∀ repo ref m d c, served (S := S) repo ref m d → c ∈ References m →
    is_manifest (ds_MediaType c) = true → (rank (ds_Digest c) < rank d)%nat) →
  (∀ d : string, (rank d < depth)%nat) →
  (∀ repo ref m d c, served (S := S) repo ref m d → c ∈ References m →
    ds_Size c <= 2 ^ 62 ∧ ds_Size c < Z.of_nat fuel * replicationChunkSize getenv) →
  fst (Transfer getenv factories depth fuel srcRes dstRes opts w) ≠ Ok None.
Proof.
  intros Hrank Hdepth Hsmall E. destruct (Transfer _ _ _ _ _ _ _ w) as [r w'] eqn:H. simpl in E. subst r.
  unfold Transfer in H. apply bind_cases in H as [(e & H & ?)|([] & w1 & H1 & H)]; [done|].
  destruct (rs_Deleted dstRes).
  - destruct (rs_IsDeleteTag dstRes); apply fret_cases in H as [(e & _ & [=])|([] & _ & [=])].
  - assert (0 < depth)%nat as Hpos by (specialize (Hdepth EmptyString); lia).
    pose proof (copy_tags_total getenv fuel (rs_Repository srcRes) (rs_Repository dstRes) opts rank Hrank Hsmall depth
      (snd (convert dstRes)) (rs_Override dstRes) Hpos (snd (convert srcRes)) 0 false (λ t m d _ _, Hdepth d) w1 _ w' I H) as Ht.
    by apply Ht.
Qed.

(** ** A registry in memory *)

Module Toy.

Definition digest_of (p : string) : string := "sha256:" +:+ p.

Definition references (p : string) : list Descriptor :=
  if p == "index" then [mkDescriptor MediaTypeImageManifest 5 "sha256:image"]
  else if p == "image" then [mkDescriptor "application/octet-stream" 3 "sha256:abc"; mkDescriptor MediaTypeForeignLayer 9 "sha256:win"]
  else [].

#[export] Instance manifests : Manifests := {|
  Manifest := string;
  References := references;
  Payload p := Ok ("application/json"%string, p);
  UnmarshalManifest _ p := Ok p;
  digest_Parse := String.prefix "sha256:";
|}.

(** Blobs and references by repository, and which of the next pushes of a blob
    fail, half of them after the blob is stored. *)
Record Reg := mkReg { blobs : list (string * string); refs : gmap (string * string) string; failures : list bool }.

Definition contents : list (string * string) := [("latest", "index"); ("sha256:index", "index"); ("sha256:image", "image")]%string.
Definition pull (ref : string) : result (string * string) :=
  match filter (λ c, fst c = ref) contents with
  | (_, p) :: _ => Ok (p, digest_of p)
  | [] => Err (PlainError "not found")
  end.

(** What a reference is; entries no registry has are not seen. *)
Definition find (r : Reg) (repo ref : string) : option string :=
  d ← refs r !! (repo, ref);
  if String.prefix "sha256:" d && (negb (String.prefix "sha256:" ref) || (d == ref)) then Some d else None.

Definition push_blob (repo d : string) (r : Reg) : result unit * Reg :=
  match failures r with
  | true :: l => (Err (PlainError "broken pipe"), mkReg (blobs r) (refs r) l)
  | false :: l => (Err (PlainError "timeout"), mkReg ((repo, d) :: blobs r) (refs r) l)
  | [] => (Ok tt, mkReg ((repo, d) :: blobs r) (refs r) [])
  end.

(** A blob that the registry offers to mount and does not have. *)
Definition lost : string := "sha256:lost".

#[export] Instance registry : ArtifactRegistry Reg := {|
  ar_ManifestExist repo ref r :=
    (Ok match find r repo ref with Some d => (true, Some (mkDescriptor "application/json" 1 d)) | None => (false, None) end, r);
  ar_PullManifest repo ref r := (pull ref, r);
  ar_PushManifest repo ref mt p r :=
    if String.prefix "sha256:" ref && negb (ref == digest_of p) then (Err (PlainError "digest invalid"), r)
    else (Ok (digest_of p), mkReg (blobs r) (<[(repo, ref) := digest_of p]> (<[(repo, digest_of p) := digest_of p]> (refs r))) (failures r));
  ar_DeleteManifest repo ref r := (Ok tt, mkReg (blobs r) (base.delete (repo, ref) (refs r)) (failures r));
  ar_BlobExist repo d r := (Ok (bool_decide ((repo, d) ∈ blobs r)), r);
  ar_PullBlob repo d r := (Ok (0, Ok "abc"%string), r);
  ar_PullBlobChunk repo d n s e r := (Ok (0, Ok "abc"%string), r);
  ar_PushBlob repo d n data r := push_blob repo d r;
  ar_PushBlobChunk repo d n data s e l r :=
    ((l, e, None), if e =? wrap64 (n - 1) then mkReg ((repo, d) :: blobs r) (refs r) (failures r) else r);
  ar_MountBlob from d repo r :=
    if decide ((from, d) ∈ blobs r) then push_blob repo d r
    else if d == lost then (Ok tt, r) else (Err (PlainError "not found"), r);
  ar_CanBeMount d r := (Ok match filter (λ b, snd b = d) (blobs r) with (repo, _) :: _ => (true, repo) | [] => (d == lost, EmptyString) end, r);
  ar_DeleteTag repo tag r := (Ok tt, mkReg (blobs r) (base.delete (repo, tag) (refs r)) (failures r));
|}.

#[export] Instance sentinel : NoSentinel Reg.
Proof.
  split; intros; try done; unfold ar_PullManifest, ar_PushManifest, ar_PushBlob, ar_MountBlob, registry, pull, push_blob.
  - by destruct (filter _ _) as [|[]].
  - by destruct (_ && _).
  - by destruct (failures r) as [|[]].
  - destruct (decide _); [by destruct (failures r) as [|[]]|]. by destruct (_ == _).
Qed.

Definition served (repo ref m d : string) : Prop := pull ref = Ok (m, d).

Lemma pull_cases ref m d : pull ref = Ok (m, d) →
  d = digest_of m ∧ ((m = "index" ∧ (ref = "latest" ∨ ref = "sha256:index")) ∨ (m = "image" ∧ ref = "sha256:image"))%string.
Proof.
  unfold pull, contents. rewrite !filter_cons, filter_nil. simpl.
  repeat case_decide; intros [= <- <-]; subst; naive_solver.
Qed.

#[export] Instance source : Source digest_of Reg.
Proof.
  refine {| TransferSpec.served := served |}; unfold served.
  - intros repo ref m d s s' [= Hp _]. done.
  - intros repo ref m d d' [-> _]%pull_cases [= <-]. done.
  - intros repo ref m d [-> [[-> [->| ->]]|[-> ->]]]%pull_cases; done.
  - intros repo ref m d [-> _]%pull_cases. done.
  - intros repo ref m d c [_ [[-> _]|[-> _]]]%pull_cases Hc Hm; simpl in Hc.
    + apply list_elem_of_singleton in Hc as ->. done.
    + apply elem_of_cons in Hc as [->|Hc]; [done|]. apply list_elem_of_singleton in Hc as ->. done.
Defined.

Definition has_blob (r : Reg) (repo d : string) : Prop := (repo, d) ∈ blobs r.

Lemma no_push_refl r : no_push has_blob find r r.
Proof. by split; [intros ??|]. Qed.

Lemma no_push_blob repo d r l : no_push has_blob find r (mkReg ((repo, d) :: blobs r) (refs r) l).
Proof. split; [|done]. intros repo' d' Hd. by right. Qed.

Lemma prefix_digest p : String.prefix "sha256:" (digest_of p) = true.
Proof. by destruct p. Qed.

Lemma find_pushed repo ref p r : String.prefix "sha256:" ref && negb (ref == digest_of p) = false →
  pushed has_blob find repo ref (digest_of p) r
    (mkReg (blobs r) (<[(repo, ref) := digest_of p]> (<[(repo, digest_of p) := digest_of p]> (refs r))) (failures r)).
Proof.
  intros Hok. split; [by intros ??|]. intros repo' x. unfold find. cbn [refs].
  assert (negb (String.prefix "sha256:" ref) || (digest_of p == ref) = true) as Href.
  { destruct (String.prefix "sha256:" ref); [|done]. simpl in *. apply negb_false_iff, bool_decide_eq_true in Hok as <-.
    by apply bool_decide_true. }
  destruct (decide (repo' = repo ∧ (x = ref ∨ x = digest_of p))) as [[-> [->| ->]]|Hne].
  - rewrite lookup_insert_eq. cbn [mbind option_bind]. by rewrite prefix_digest, Href.
  - destruct (decide (ref = digest_of p)) as [->|Hne]; [rewrite lookup_insert_eq|
      rewrite lookup_insert_ne, lookup_insert_eq by congruence]; cbn [mbind option_bind];
      by rewrite prefix_digest, (bool_decide_true (digest_of p = digest_of p)).
  - rewrite !lookup_insert_ne by naive_solver. done.
Qed.

Lemma push_blob_spec repo d r x r' : push_blob repo d r = (x, r') →
  no_push has_blob find r r' ∧ (x = Ok tt → has_blob r' repo d).
Proof.
  unfold push_blob. destruct (failures r) as [|[|] l]; intros [= <- <-].
  - split; [apply no_push_blob|]. intros _. by left.
  - split; [by split; [intros ??|]|done].
  - split; [apply no_push_blob|done].
Qed.

#[export] Instance destination : Destination digest_of Reg.
Proof.
  refine {| TransferSpec.has_blob := has_blob; TransferSpec.unmounted := λ _ d, d = lost; TransferSpec.resolve := find |}.
  - intros r repo ref d. unfold find. destruct (refs r !! _) as [y|]; [|done]. simpl.
    destruct (String.prefix "sha256:" y) eqn:E; [|done]. destruct (_ || _); [|done]. by intros [= <-].
  - intros r repo ref d. unfold find. destruct (refs r !! _) as [y|]; [|done]. simpl.
    destruct (String.prefix "sha256:" y); [|done]. simpl. intros Hd Hr. rewrite Hr in Hd. simpl in Hd.
    case_bool_decide; [|done]. by injection Hd as <-.
  - intros repo ref r x r' [= <- <-]. split; [apply no_push_refl|]. intros desc. by destruct (find r repo ref); intros [= <-].
  - intros repo d r x r' [= <- <-]. split; [apply no_push_refl|]. intros [= Hd]. by apply bool_decide_eq_true in Hd.
  - intros d r x r' [= <- <-]. apply no_push_refl.
  - intros from d repo r x r'. simpl. case_decide as Hf.
    + intros [Hn Hx]%push_blob_spec. auto.
    + case_bool_decide; intros [= <- <-]; (split; [apply no_push_refl|auto]). done.
  - intros repo d size data r x r'. apply push_blob_spec.
  - intros repo d size chunk start end_ location r x r' [= <- <-]. simpl. destruct (Z.eqb_spec end_ (wrap64 (size - 1))).
    + split_and!; [apply no_push_blob|intros _ _; by left|done].
    + split_and!; [apply no_push_refl|done|done].
  - intros repo ref mt p r x r'. simpl. destruct (_ && _) eqn:E; intros [= <- <-].
    + left. split; [apply no_push_refl|]. by intros ?.
    + right. by apply find_pushed.
Defined.

Lemma collisions : no_collision (digest_of := digest_of).
Proof. intros m m' d [= <-] [= Hd]. simpl in Hd. by simplify_eq. Qed.

(** An index copied under its tag to a registry that has its layer in another
    repository, from where it is mounted at the third attempt. *)
Definition resource (repo tag : string) : Resource :=
  mkResource ResourceTypeImage repo EmptyString [mkRArtifact ResourceTypeImage EmptyString [] [tag] false []] []
    (Some (bare_registry 1 "r" "toy" "https://r")) EmptyString false false true false.
Definition factories : gmap string (Registry → result bool) := {["toy"%string := λ _, Ok true]}.
Definition start : World (Env Reg Reg) := mkWorld (mkEnv (mkReg [] ∅ []) (mkReg [("library/base", "sha256:abc")]%string ∅ [true; true]) []) true [].
Definition run : result (option unit) * World (Env Reg Reg) :=
  Transfer (λ _, EmptyString) factories 2 1 (resource "library/app" "latest") (resource "mirror/app" "v1") (mkOptions 0 false) start.

Lemma closed_empty repo : closed (digest_of := digest_of) (dst (db start)) repo.
Proof. intros d m c Hd. unfold resolve in Hd. simpl in Hd. unfold find in Hd. simpl in Hd. by rewrite lookup_empty in Hd. Qed.
End Toy.
Import (hints) Toy.

Lemma transfer_closed_witness :
  fst Toy.run = Ok (Some tt) ∧ bool_decide (("mirror/app", "sha256:abc")%string ∈ Toy.blobs (dst (db (snd Toy.run)))) = true ∧
  closed (digest_of := Toy.digest_of) (dst (db (snd Toy.run))) "mirror/app".
Proof.
  split; [vm_compute; reflexivity|]. split; [vm_compute; reflexivity|].
  refine (transfer_closed Toy.digest_of (λ _, EmptyString) Toy.factories 2 1 (Toy.resource "library/app" "latest")
    (Toy.resource "mirror/app" "v1") (mkOptions 0 false) Toy.start (snd Toy.run) (fst Toy.run) _ _ _ _).
  - exact Toy.collisions.
  - reflexivity.
  - exact (Toy.closed_empty "mirror/app").
  - unfold Toy.run. apply surjective_pairing.
Defined.


Lemma transfer_returns_witness :
  fst (Transfer (S := Toy.Reg) (R := Toy.Reg) (λ _, EmptyString) Toy.factories 2 1 (Toy.resource "library/app" "latest")
    (Toy.resource "mirror/app" "v1") (mkOptions 0 true) Toy.start) ≠ Ok None.
Proof.
  apply (transfer_returns Toy.digest_of (λ _, EmptyString) Toy.factories 2 1 (Toy.resource "library/app" "latest")
    (Toy.resource "mirror/app" "v1") (mkOptions 0 true) (λ d, if d == "sha256:index" then 1 else 0)%nat Toy.start).
  - intros repo ref m d c Hs Hc Hm. apply Toy.pull_cases in Hs as [-> [[-> _]|[-> _]]]; simpl in Hc.
    + apply list_elem_of_singleton in Hc as ->. vm_compute. lia.
    + exfalso. apply elem_of_cons in Hc as [->|Hc]; [done|]. apply list_elem_of_singleton in Hc as ->. done.
  - intros d. destruct (d == _); lia.
  - intros repo ref m d c Hs Hc. apply Toy.pull_cases in Hs as [-> [[-> _]|[-> _]]]; simpl in Hc.
    + apply list_elem_of_singleton in Hc as ->. vm_compute. split; [discriminate|reflexivity].
    + apply elem_of_cons in Hc as [->|Hc]; [vm_compute; split; [discriminate|reflexivity]|].
      apply list_elem_of_singleton in Hc as ->. vm_compute. split; [discriminate|reflexivity].
Defined.
