(* ===== verification/RegistryClientSpec.v ===== *)
(** * Correctness of the registry client and of copying by chunks

    How the client reads the answers of a registry, and which parts of a blob a
    copy by chunks asks for. *)

From S2P Require Import Prelude GoErrors GoStrings Orm Table Hoare RegistryClient Replication Transfer TransferSpec.
From Stdlib Require Import Ascii.
Local Open Scope Z_scope.
Local Open Scope harbor_scope.

(** ** Answers *)

Definition success (resp : Response) : bool := (200 <=? rp_StatusCode resp) && (rp_StatusCode resp <=? 299).

(** The error for an answer that is no success. *)
Definition answer_error (resp : Response) (body : string) : error :=
  HError None (status_code (rp_StatusCode resp))
    ("http status code: " +:+ pretty (rp_StatusCode resp) +:+ ", body: " +:+ body).

Section answers.
Context `{HM : !Manifests} {D : Type} (client_Do : Request → D → result Response * D).
Context (interceptors : list (Request → M D Request)) (authorizer : option (Request → M D Request)) (endpoint : string).
Notation do := (do client_Do interceptors authorizer).
Notation prepare := (prepare interceptors authorizer).

Lemma do_answer req req' w w1 resp d : prepare req w = (Ok req', w1) → client_Do req' (db w1) = (Ok resp, d) →
  do req w = (if success resp then Ok resp
              else match rp_Body resp with Ok body => Err (answer_error resp body) | Err e => Err e end, with_db w1 d).
Proof.
  intros Hp Hd. unfold RegistryClient.do, mbind, M_bind. rewrite Hp. unfold act. rewrite Hd.
  replace ((rp_StatusCode resp <? 200) || (299 <? rp_StatusCode resp)) with (negb (success resp)) by (unfold success; lia).
  destruct (success resp); [done|]. simpl. unfold of_result. by destruct (rp_Body resp).
Qed.

Lemma do_failure req req' w w1 e d : prepare req w = (Ok req', w1) → client_Do req' (db w1) = (Err e, d) →
  do req w = (Err e, with_db w1 d).
Proof. intros Hp Hd. unfold RegistryClient.do, mbind, M_bind. rewrite Hp. unfold act. by rewrite Hd. Qed.

Lemma answer_not_found resp body : IsErr (answer_error resp body) NotFoundCode = (rp_StatusCode resp =? 404).
Proof.
  unfold IsErr, answer_error, status_code. simpl.
  destruct (Z.eqb_spec (rp_StatusCode resp) 401) as [->|]; [done|].
  destruct (Z.eqb_spec (rp_StatusCode resp) 403) as [->|]; [done|].
  by destruct (rp_StatusCode resp =? 404).
Qed.

Lemma request_ok method url headers body (w : World D) : url_ok url = true →
  NewRequest method url headers body w = (Ok (mkRequest method url headers 0 body), w).
Proof. intros Hu. unfold NewRequest. by rewrite Hu. Qed.

Notation BlobExist := (BlobExist client_Do interceptors authorizer endpoint).
Notation ManifestExist := (ManifestExist client_Do interceptors authorizer endpoint).
Definition blob_head (repo d : string) : Request := mkRequest "HEAD" (buildBlobURL endpoint repo d) [] 0 (Ok EmptyString).
Definition manifest_head (repo ref : string) : Request :=
  mkRequest "HEAD" (buildManifestURL endpoint repo ref) accept_headers 0 (Ok EmptyString).

(** What [BlobExist] and [ManifestExist] make of the outcome of their request. *)
Definition existence {A} (found : Response → A) (missing : A) (r : result Response) : result A :=
  match r with
  | Ok resp => Ok (found resp)
  | Err err => if IsErr err NotFoundCode then Ok missing else Err err
  end.

Lemma BlobExist_do repo d w : url_ok (buildBlobURL endpoint repo d) = true →
  fst (BlobExist repo d w) = existence (λ _, true) false (fst (do (blob_head repo d) w)).
Proof.
  intros Hu. unfold RegistryClient.BlobExist. unfold mbind at 1, M_bind at 1. rewrite request_ok by done.
  unfold mbind, M_bind, try. fold (blob_head repo d). destruct (do (blob_head repo d) w) as [[resp|err] w']; [done|].
  simpl. by destruct (IsErr err NotFoundCode).
Qed.

Definition described (resp : Response) : Descriptor :=
  mkDescriptor (header resp "Content-Type") (ParseInt_value (header resp "Content-Length")) (header resp "Docker-Content-Digest").

Lemma ManifestExist_do repo ref w : url_ok (buildManifestURL endpoint repo ref) = true →
  fst (ManifestExist repo ref w) =
  existence (λ resp, (true, Some (described resp))) (false, None) (fst (do (manifest_head repo ref) w)).
Proof.
  intros Hu. unfold RegistryClient.ManifestExist. unfold mbind at 1, M_bind at 1. rewrite request_ok by done.
  unfold mbind, M_bind, try. fold (manifest_head repo ref). destruct (do (manifest_head repo ref) w) as [[resp|err] w']; [done|].
  simpl. by destruct (IsErr err NotFoundCode).
Qed.

(** The three ways an answer is read. *)
Definition read_answer {A} (found : Response → A) (missing : A) (resp : Response) (body : string) : result A :=
  if success resp then Ok (found resp)
  else if rp_StatusCode resp =? 404 then Ok missing
  else Err (answer_error resp body).

Lemma existence_answer {A} (found : Response → A) missing req req' w w1 resp d body :
  prepare req w = (Ok req', w1) → client_Do req' (db w1) = (Ok resp, d) → rp_Body resp = Ok body →
  existence found missing (fst (do req w)) = read_answer found missing resp body.
Proof.
  intros Hp Hd Hb. rewrite (do_answer _ _ _ _ _ _ Hp Hd), Hb. unfold read_answer. destruct (success resp); [done|].
  cbn [fst existence]. rewrite answer_not_found. by destruct (_ =? 404).
Qed.
End answers.

(** Further property (how existence is read): of a request that is answered, a success means the
    content exists, status 404 that it does not, and any other status is an error
    with the code of that status; a request that fails is an error, so trouble is
    never taken for absence. *)
Theorem existence_answers {D} (client_Do : Request → D → result Response * D) interceptors authorizer endpoint
    (w w1 : World D) repo d req' x d' :
  url_ok (buildBlobURL endpoint repo d) = true →
  prepare interceptors authorizer (blob_head endpoint repo d) w = (Ok req', w1) →
  client_Do req' (db w1) = (x, d') →
  match x with
  | Ok resp => ∀ body, rp_Body resp = Ok body →
      fst (BlobExist client_Do interceptors authorizer endpoint repo d w) = read_answer (λ _, true) false resp body ∧
      (fst (BlobExist client_Do interceptors authorizer endpoint repo d w) = Ok false ↔ rp_StatusCode resp = 404)
  | Err e => IsErr e NotFoundCode = false →
      fst (BlobExist client_Do interceptors authorizer endpoint repo d w) = Err e
  end.
Proof.
  intros Hu Hp Hd. rewrite BlobExist_do by done. destruct x as [resp|e].
  - intros body Hb. erewrite existence_answer by eassumption. split; [done|].
    unfold read_answer, success. destruct (Z.leb_spec 200 (rp_StatusCode resp)); destruct (Z.leb_spec (rp_StatusCode resp) 299);
      simpl; destruct (Z.eqb_spec (rp_StatusCode resp) 404); split; intros; try done; lia.
  - intros He. erewrite do_failure by eassumption. simpl. by rewrite He.
Qed.

(** A registry that answers every request with one status. *)
Definition answering (status : Z) (req : Request) (d : unit) : result Response * unit :=
  (Ok (mkResponse status ∅ (Ok EmptyString)), d).
Definition quiet_world : World unit := mkWorld tt true [].

Lemma existence_answers_witness :
  fst (BlobExist (answering 404) [] None "https://r" "library/app" "sha256:abc" quiet_world) = Ok false ∧
  ¬ is_ok (fst (BlobExist (answering 503) [] None "https://r" "library/app" "sha256:abc" quiet_world)).
Proof.
  pose proof (λ status, existence_answers (answering status) [] None "https://r" quiet_world quiet_world "library/app" "sha256:abc"
    _ _ _ eq_refl eq_refl eq_refl EmptyString eq_refl) as Ha.
  split; [exact (proj2 (proj2 (Ha 404)) eq_refl)|]. rewrite (proj1 (Ha 503)). intros [].
Defined.

(** ** Resuming an upload *)

Lemma Split_pieces sep : ∀ s x, x ∈ Split s sep → no_char sep x = true.
Proof.
  induction s as [|c s IH]; intros x; simpl; [by intros ->%list_elem_of_singleton|].
  case_bool_decide as Hc; [intros [->|Hx]%elem_of_cons; auto|].
  destruct (Split s sep) as [|y l] eqn:E; [by apply Split_nonempty in E|].
  intros [->|Hx]%elem_of_cons; [|apply IH; by right]. unfold no_char. simpl. rewrite bool_decide_false by done. apply IH. by left.
Qed.

Lemma parse_digits_nonneg : ∀ s acc m, 0 <= acc → parse_digits acc s = Some m → 0 <= m.
Proof.
  induction s as [|c s IH]; intros acc m Ha; simpl; [by intros [= <-]|].
  destruct (digit_val c) as [d|] eqn:Ed; [|done]. apply IH. unfold digit_val in Ed. destruct (_ && _) eqn:E; [|done].
  injection Ed as <-. lia.
Qed.

Lemma ParseInt_nonneg s z : no_char "-"%char s = true → ParseInt s = Some z → 0 <= z <= max_int64.
Proof.
  intros Hn Hp. assert (∀ t, (m ← parse_magnitude t; in_range m) = Some z → 0 <= z <= max_int64) as Hm.
  { intros t H. apply bind_Some in H as (m & Hm & Hz). unfold in_range in Hz. case_decide as Hr; [|done]. injection Hz as <-.
    split; [|apply Hr]. unfold parse_magnitude in Hm. destruct t as [|c t]; [done|]. by eapply parse_digits_nonneg in Hm. }
  unfold ParseInt in Hp. destruct s as [|c s]; [exact (Hm _ Hp)|]. simpl in Hn.
  destruct c as [[] [] [] [] [] [] [] []]; solve [exact (Hm _ Hp)|done].
Qed.

Lemma parseContentRange_nonneg cr a b : parseContentRange cr = Ok (a, b) → 0 <= a <= max_int64 ∧ 0 <= b <= max_int64.
Proof.
  unfold parseContentRange. pose proof (Split_pieces "-"%char cr) as Hs. destruct (Split cr _) as [|x [|y [|]]]; try done.
  destruct (ParseInt x) as [p|] eqn:Ex; [|done]. destruct (ParseInt y) as [q|] eqn:Ey; [|done]. intros [= <- <-].
  split; eapply ParseInt_nonneg; try done; apply Hs; [by left|right; by left].
Qed.

(** Further property (where an upload resumes): when a chunk cannot be pushed, the end that is
    returned, from which the next attempt goes on, is a position before a byte of
    the blob or what the registry says it has; it never runs below the start. *)
Theorem PushBlobChunk_end {D} (client_Do : Request → D → result Response * D) interceptors authorizer endpoint
    repository digest blobSize chunk start end_ location (w w' : World D) newLocation newEnd err :
  0 <= start <= end_ → end_ <= max_int64 →
  PushBlobChunk client_Do interceptors authorizer endpoint repository digest blobSize chunk start end_ location w
    = (Ok (newLocation, newEnd, err), w') →
  -1 <= newEnd <= max_int64 ∧
  match err with
  | None => newEnd = end_
  | Some _ => newEnd = end_ ∨ newEnd = start - 1 ∨ ∃ range a, parseContentRange range = Ok (a, newEnd)
  end.
Proof.
  intros Hs He H. unfold PushBlobChunk in H.
  apply bind_ok_inv in H as (first & w1 & _ & H). destruct first as [[l ?]|e]; [|injection H as <- <- <- <-; split; [lia|by left]].
  destruct (buildChunkBlobUploadURL _ _ _ _) as [url|e]; [|injection H as <- <- <- <-; split; [lia|by left]].
  apply bind_ok_inv in H as ([req|e] & w2 & _ & H); [|injection H as <- <- <- <-; split; [lia|by left]].
  apply bind_ok_inv in H as ([resp|e] & w3 & _ & H); [injection H as <- <- <- <-; by split; [lia|]|].
  apply bind_try_inv in H as ([[l' n]|e'] & w4 & H4 & H); injection H as <- <- <- <-.
  - unfold getUploadStatus in H4. apply bind_ok_inv in H4 as (resp & w5 & _ & H4).
    apply bind_ok_inv in H4 as ([a b] & w6 & H6 & H4). injection H6 as H6 _. injection H4 as _ <- _.
    pose proof (parseContentRange_nonneg _ _ _ H6). split; [lia|]. right; right. eauto.
  - rewrite wrap64_id by int64_lia. split; [lia|]. right; by left.
Qed.

Lemma PushBlobChunk_end_witness :
  ∃ l n err w', PushBlobChunk (answering 503) [] None "https://r" "library/app" "sha256:abc" 20 (Ok "x"%string) 10 19 "/u" quiet_world
    = (Ok (l, n, Some err), w') ∧ -1 <= n <= max_int64.
Proof.
  eexists _, _, _, _. split; [vm_compute; reflexivity|].
  refine (proj1 (PushBlobChunk_end (answering 503) [] None "https://r" "library/app" "sha256:abc" 20 (Ok "x"%string) 10 19 "/u"
    quiet_world _ _ _ _ _ _ _)); [lia|unfold max_int64; lia|vm_compute; reflexivity].
Defined.

(** An upload that cannot even be opened counts its first chunk as done: the next
    attempt asks for the second one. *)
Example unopened_upload :
  ∃ err, fst (PushBlobChunk (answering 503) [] None "https://r" "library/app" "sha256:abc" 20 (Ok "x"%string) 0 9 EmptyString quiet_world)
    = Ok (EmptyString, 9, Some err).
Proof. eexists. vm_compute. reflexivity. Qed.

(** A registry that answers a mount with 202 has opened an upload and mounted
    nothing; the client takes it for success. *)
Example mount_accepted :
  fst (MountBlob (answering 202) [] None "https://r" "library/app" "sha256:abc" "mirror/app" quiet_world) = Ok tt.
Proof. vm_compute. reflexivity. Qed.

(** ** Which parts of a blob are copied *)

(** A source that records the ranges it is asked for. *)
Section logged.
Context `{HM : !Manifests} {S : Type} `{!ArtifactRegistry S}.

Definition unlogged {A} (f : S → result A * S) (s : S * list (Z * Z)) : result A * (S * list (Z * Z)) :=
  let '(r, s') := f (fst s) in (r, (s', snd s)).

#[local] Instance logged : ArtifactRegistry (S * list (Z * Z)) := {|
  ar_ManifestExist repo ref := unlogged (ar_ManifestExist repo ref);
  ar_PullManifest repo ref := unlogged (ar_PullManifest repo ref);
  ar_PushManifest repo ref mt p := unlogged (ar_PushManifest repo ref mt p);
  ar_DeleteManifest repo ref := unlogged (ar_DeleteManifest repo ref);
  ar_BlobExist repo d := unlogged (ar_BlobExist repo d);
  ar_PullBlob repo d := unlogged (ar_PullBlob repo d);
  ar_PullBlobChunk repo d n start end_ s :=
    let '(r, s') := ar_PullBlobChunk repo d n start end_ (fst s) in (r, (s', snd s ++ [(start, end_)]));
  ar_PushBlob repo d n data := unlogged (ar_PushBlob repo d n data);
  ar_PushBlobChunk repo d n data start end_ l s :=
    let '(r, s') := ar_PushBlobChunk repo d n data start end_ l (fst s) in (r, (s', snd s));
  ar_MountBlob from d repo := unlogged (ar_MountBlob from d repo);
  ar_CanBeMount d := unlogged (ar_CanBeMount d);
  ar_DeleteTag repo tag := unlogged (ar_DeleteTag repo tag);
|}.

(** The bytes of a list of ranges. *)
Definition bytes_of (l : list (Z * Z)) : list Z := concat ((λ r, seqZ (fst r) (snd r - fst r + 1)) <$> l).

Context {R : Type} `{!ArtifactRegistry R} (getenv : string → string) (srcRepo dstRepo digest : string) (size : Z).
Notation chunkSize := (replicationChunkSize getenv).
Hypothesis Hsize : chunkSize < size <= 2 ^ 62.

Lemma bytes_of_app l l' : bytes_of (l ++ l') = bytes_of l ++ bytes_of l'.
Proof. unfold bytes_of. by rewrite fmap_app, concat_app. Qed.

Definition log (w : World (Env (S * list (Z * Z)) R)) : list (Z * Z) := snd (src (db w)).

Lemma chunk_loop_ranges : ∀ fuel c (w w' : World (Env (S * list (Z * Z)) R)) c' err,
  -1 <= c_end c < size - 1 →
  chunk_loop getenv fuel srcRepo dstRepo digest size c w = (Ok (Some (c', err)), w') →
  ∃ l hi, log w' = log w ++ l ∧ bytes_of l = seqZ (c_end c + 1) (hi - c_end c) ∧ c_end c < hi <= size - 1 ∧
    (err = None → hi = size - 1 ∧ c_end c' = size - 1) ∧ Forall (λ r, 0 < snd r - fst r + 1 <= chunkSize) l.
Proof.
  pose proof (chunkSize_pos getenv) as Hpos.
  induction fuel as [|fuel IH]; intros c w w' c' err' Hc H; [done|]. cbn [chunk_loop] in H.
  pose proof (next_range_end getenv size c ltac:(lia) ltac:(lia) ltac:(lia)) as He.
  assert (c_start (next_range getenv (wrap64 (size - 1)) c) = c_end c + 1) as Hs by (cbn; apply wrap64_id; int64_lia).
  revert He Hs H. generalize (next_range getenv (wrap64 (size - 1)) c). intros x He Hs H.
  apply bind_try_inv in H as (r & w1 & H1 & H).
  assert (log w1 = log w ++ [(c_start x, c_end x)]) as Hl1.
  { revert H1. unfold on_src, act, log. cbn. destruct (ar_PullBlobChunk _ _ _ _ _ _). by intros [= _ <-]. }
  (* A run that ends with this range. *)
  assert (∀ w2, log w2 = log w1 → (err' = None → c_end x = size - 1 ∧ c_end c' = size - 1) →
    ∃ l hi, log w2 = log w ++ l ∧ bytes_of l = seqZ (c_end c + 1) (hi - c_end c) ∧ c_end c < hi <= size - 1 ∧
      (err' = None → hi = size - 1 ∧ c_end c' = size - 1) ∧ Forall (λ r, 0 < snd r - fst r + 1 <= chunkSize) l) as Hends.
  { intros w2 Hl2 Hend. exists [(c_start x, c_end x)], (c_end x). rewrite Hl2, Hl1. split; [done|]. unfold bytes_of. simpl.
    rewrite app_nil_r, Hs. split_and!; [f_equal; lia|lia|lia|exact Hend|]. apply Forall_singleton. simpl. lia. }
  destruct r as [[n data]|e]; [|injection H as <- <- <-; by apply Hends].
  apply bind_ok_inv in H as ([[location f] err] & w2 & H2 & H).
  assert (log w2 = log w1) as Hl2.
  { revert H2. unfold on_dst, act, log. cbn. destruct (ar_PushBlobChunk _ _ _ _ _ _ _ _). by intros [= _ <-]. }
  destruct err; [injection H as <- <- <-; by apply Hends|]. cbn [c_end] in H. rewrite (wrap64_id (size - 1)) in H by int64_lia.
  destruct (Z.eqb_spec (c_end x) (size - 1)) as [Hend|Hne].
  - injection H as <- <- <-. by apply Hends.
  - apply IH in H as (l & hi & Hl & Hb & Hhi & He' & Hf); [|simpl; lia]. cbn [c_end] in Hb, Hhi.
    exists ((c_start x, c_end x) :: l), hi.
    rewrite Hl, Hl2, Hl1, <- app_assoc. split_and!; [done| |lia|lia|exact He'|constructor; [simpl; lia|done]].
    change ((c_start x, c_end x) :: l) with ([(c_start x, c_end x)] ++ l). rewrite bytes_of_app, Hb.
    unfold bytes_of. simpl. rewrite app_nil_r, Hs, He, Z.min_r by lia.
    replace (hi - c_end c) with (chunkSize + (hi - (c_end c + chunkSize))) by lia.
    rewrite (seqZ_app (c_end c + 1) chunkSize) by lia. f_equal; f_equal; lia.
Qed.
End logged.

(** C38 (chunks partition a blob): one run of the loop over the chunks of a blob,
    from the position that it is given, asks the source for consecutive ranges, none
    empty and none larger than the size of a chunk, beginning right behind the
    position, whether it fails or not; a run that succeeds has asked for all bytes
    behind the position and leaves it at the last byte.  The first run begins at -1
    and so makes up the whole blob.  What position a failed run leaves for the next
    one is another matter: see [failed_pull_advances] and [unopened_upload]. *)
Theorem chunks_partition `{HM : !Manifests} {S R} `{!ArtifactRegistry S, !ArtifactRegistry R} getenv srcRepo dstRepo digest size
    fuel c (w w' : World (Env (S * list (Z * Z)) R)) c' err :
  replicationChunkSize getenv < size <= 2 ^ 62 → -1 <= c_end c < size - 1 → log w = [] →
  chunk_loop (ArtifactRegistry0 := logged) getenv fuel srcRepo dstRepo digest size c w = (Ok (Some (c', err)), w') →
  Forall (λ r, 0 < snd r - fst r + 1 <= replicationChunkSize getenv) (log w') ∧
  ∃ hi, bytes_of (log w') = seqZ (c_end c + 1) (hi - c_end c) ∧ c_end c < hi <= size - 1 ∧
    (err = None → hi = size - 1 ∧ c_end c' = size - 1).
Proof.
  intros Hs Hc Hl H. apply chunk_loop_ranges in H as (l & hi & -> & Hb & Hhi & He & Hf); [|done..]. rewrite Hl.
  split; [done|]. by exists hi.
Qed.

Import (hints) Toy.

(** Chunks of two bytes. *)
Definition two_bytes (name : string) : string := if name == "REPLICATION_CHUNK_SIZE" then "2" else EmptyString.

Definition blob_world : World (Env (Toy.Reg * list (Z * Z)) Toy.Reg) :=
  mkWorld (mkEnv (Toy.mkReg [] ∅ [], []) (Toy.mkReg [] ∅ []) []) true [].

Lemma chunks_partition_witness :
  ∃ w', chunk_loop (ArtifactRegistry0 := logged) two_bytes 3 "library/app" "mirror/app" "sha256:abc" 5 (mkChunks (-1) (-1) EmptyString) blob_world
    = (Ok (Some (mkChunks 4 4 EmptyString, None)), w') ∧ bytes_of (log w') = [0; 1; 2; 3; 4].
Proof.
  eexists. split; [vm_compute; reflexivity|].
  edestruct (chunks_partition two_bytes "library/app" "mirror/app" "sha256:abc" 5 3 (mkChunks (-1) (-1) EmptyString) blob_world)
    as (_ & hi & Hb & _ & He); [| | |vm_compute; reflexivity|].
  - vm_compute. split; [reflexivity|discriminate].
  - vm_compute. split; [discriminate|reflexivity].
  - reflexivity.
  - destruct (He eq_refl) as [-> _]. exact Hb.
Defined.

(** A chunk that cannot be pulled is skipped by the next attempt. *)
Lemma failed_pull_advances `{HM : !Manifests} {S R} `{!ArtifactRegistry S, !ArtifactRegistry R} getenv srcRepo dstRepo digest size
    fuel c (w : World (Env S R)) err s :
  ar_PullBlobChunk srcRepo digest size (c_start (next_range getenv (wrap64 (size - 1)) c))
    (c_end (next_range getenv (wrap64 (size - 1)) c)) (src (db w)) = (Err err, s) →
  fst (chunk_loop (R := R) getenv (Datatypes.S fuel) srcRepo dstRepo digest size c w)
    = Ok (Some (next_range getenv (wrap64 (size - 1)) c, Some err)).
Proof. intros H. cbn [chunk_loop]. unfold mbind, M_bind, try, on_src, act. by rewrite H. Qed.
