(* ===== verification/ProjectStore.v ===== *)
(** * Projects, their members, metadata and CVE allowlists

    [src/pkg/project] (manager, dao, metadata), [src/pkg/member], [src/pkg/allowlist],
    [src/controller/project/controller.go] and [src/controller/member/controller.go].
    Users and user groups are tables that other packages fill; onboarding a user
    or a group of an external identity provider is a parameter.  A deleted project
    keeps its row under another name.  Paging, owner names and the counts of
    repositories are not modelled. *)

From S2P Require Import Prelude GoErrors GoStrings Orm Table.
Open Scope Z_scope.
Local Open Scope harbor_scope.

(** ** Models *)

(** [src/pkg/project/models/project.go] *)
Record Project := mkProject {
  j_ProjectID : Z; j_OwnerID : Z; j_Name : string; j_Deleted : bool; j_RegistryID : Z;
  j_CreationTime : Z }.

(** [src/pkg/project/models/member.go] *)
Record Member := mkMember {
  m_ID : Z; m_ProjectID : Z; m_EntityID : Z; m_Role : Z; m_EntityType : string }.

(** [src/pkg/project/metadata/models/metadata.go] *)
Record ProjectMetadata := mkProjectMetadata {
  md_ID : Z; md_ProjectID : Z; md_Name : string; md_Value : string }.

(** [src/pkg/allowlist/models/cve_allowlist.go]: the items by their CVE identifiers,
    [None] for a text that is not a list. *)
Record CVEAllowlist := mkCVEAllowlist {
  wl_ID : Z; wl_ProjectID : Z; wl_ExpiresAt : option Z; wl_Items : option (list string) }.

Record User := mkUser { u_UserID : Z; u_Username : string; u_Deleted : bool }.
Record UserGroup := mkUserGroup {
  g_ID : Z; g_GroupName : string; g_GroupType : Z; g_LdapGroupDN : string }.

Record ProjDB := mkProjDB {
  projects : table Project;
  members : table Member;
  metas : table ProjectMetadata;
  allowlists : table CVEAllowlist;
  users : table User;
  groups : table UserGroup;
  pnow : Z;
}.

Definition set_projects (x : table Project) (d : ProjDB) : ProjDB :=
  mkProjDB x (members d) (metas d) (allowlists d) (users d) (groups d) (pnow d).
Definition set_members (x : table Member) (d : ProjDB) : ProjDB :=
  mkProjDB (projects d) x (metas d) (allowlists d) (users d) (groups d) (pnow d).
Definition set_metas (x : table ProjectMetadata) (d : ProjDB) : ProjDB :=
  mkProjDB (projects d) (members d) x (allowlists d) (users d) (groups d) (pnow d).
Definition set_allowlists (x : table CVEAllowlist) (d : ProjDB) : ProjDB :=
  mkProjDB (projects d) (members d) (metas d) x (users d) (groups d) (pnow d).

Definition pg_unique : error := PgError "23505" "duplicate key value violates unique constraint".
Definition pg_foreign_key : error := PgError "23503" "violates foreign key constraint".

Definition row_not_found {A} (msg : string) : M ProjDB A :=
  fail (WithMessage (NotFoundError None) msg).

Definition map_error {A} (f : error → error) (m : M ProjDB A) : M ProjDB A :=
  r ← try m; match r with Ok a => mret a | Err e => fail (f e) end.

(** ** Names *)

(** [src/lib/truncate.go]; [None] is the panic of a negative slice bound. *)
Definition Truncate (str suffix : string) (n : Z) : option string :=
  let s := str +:+ suffix in
  let len x := Z.of_nat (String.length x) in
  if len s <=? n then Some s
  else
    let k := len str - (len s - n) in
    if k <? 0 then None else Some (String.substring 0 (Z.to_nat k) s +:+ suffix).

Definition alnum (c : Ascii.ascii) : bool :=
  ((97 <=? byte c) && (byte c <=? 122) || (48 <=? byte c) && (byte c <=? 57))%N.
Definition separator (c : Ascii.ascii) : bool :=
  ((byte c =? 46) || (byte c =? 95) || (byte c =? 45))%N.

(** [^[a-z0-9]+(?:[._-][a-z0-9]+)*$]; [open] says that a letter or digit must
    follow. *)
Fixpoint name_rest (open : bool) (s : string) : bool :=
  match s with
  | EmptyString => negb open
  | String c s => if alnum c then name_rest false s else separator c && negb open && name_rest true s
  end.
Definition validProjectName (s : string) : bool := name_rest true s.

(** [utils.IsIllegalLength] of [src/common/utils/utils.go] *)
Definition IsIllegalLength (s : string) (min max : Z) : bool :=
  let len := Z.of_nat (String.length s) in
  if min =? -1 then max <? len
  else if max =? -1 then len <=? min
  else (len <? min) || (max <? len).

(** ** Projects: [src/pkg/project/dao/dao.go] *)

Definition RoleProjectAdmin : Z := 1.
Definition RoleDeveloper : Z := 2.
Definition RoleGuest : Z := 3.
Definition RoleMaintainer : Z := 4.
Definition RoleLimitedGuest : Z := 5.
Definition UserMember : string := "u".
Definition GroupMember : string := "g".

Module project_dao.

Definition with_id (n : Z) (p : Project) : Project :=
  mkProject n (j_OwnerID p) (j_Name p) (j_Deleted p) (j_RegistryID p) (j_CreationTime p).

(** Unique on the name, over deleted projects too; the owner is a user. *)
Definition insert_project (p : Project) (d : ProjDB) : result Z * ProjDB :=
  if decide (select (λ x, j_Name x = j_Name p) (projects d) = [])
  then match rows (users d) !! j_OwnerID p with
       | Some _ => (Ok (next (projects d)), set_projects (add_row (λ n, with_id n p) (projects d)) d)
       | None => (Err pg_foreign_key, d)
       end
  else (Err pg_unique, d).

(** Unique on (project_id, entity_id, entity_type). *)
Definition same_member (m n : Member) : Prop :=
  m_ProjectID m = m_ProjectID n ∧ m_EntityID m = m_EntityID n ∧ m_EntityType m = m_EntityType n.
#[export] Instance same_member_dec m n : Decision (same_member m n).
Proof. unfold same_member. apply _. Defined.

Definition member_with_id (n : Z) (m : Member) : Member :=
  mkMember n (m_ProjectID m) (m_EntityID m) (m_Role m) (m_EntityType m).

Definition insert_member (m : Member) (d : ProjDB) : result Z * ProjDB :=
  if decide (select (same_member m) (members d) = [])
  then (Ok (next (members d)), set_members (add_row (λ n, member_with_id n m) (members d)) d)
  else (Err pg_unique, d).

Definition Create (p : Project) : M ProjDB Z :=
  WithTransaction (
    _ ← FromContext;
    now ← (λ w, (Ok (pnow (db w)), w));
    id ← map_error (λ e, WrapConflictError e ("The project named " +:+ j_Name p +:+ " already exists"))
           (stmt (insert_project (mkProject 0 (j_OwnerID p) (j_Name p) (j_Deleted p) (j_RegistryID p) now)));
    _ ← stmt (insert_member (mkMember 0 id (j_OwnerID p) RoleProjectAdmin UserMember));
    mret id).

Definition live (p : Project) : Prop := j_Deleted p = false.

Definition Get (id : Z) : M ProjDB Project :=
  Read (λ d, p ← rows (projects d) !! id; if j_Deleted p then None else Some p)
    ("project " +:+ pretty id +:+ " not found").

(** [ormer.Read] on two columns: one of the rows that match, [None] without one. *)
Definition GetByName (name : string) : M ProjDB Project :=
  Read (λ d, head (select (λ p, j_Name p = name ∧ j_Deleted p = false) (projects d)))
    ("project " +:+ name +:+ " not found").

Definition renamed (p : Project) (name : string) : Project :=
  mkProject (j_ProjectID p) (j_OwnerID p) name true (j_RegistryID p) (j_CreationTime p).

(** The number of affected rows is not looked at.  The panic of [Truncate] is an
    error that ends the request. *)
Definition Delete (id : Z) : M ProjDB unit :=
  p ← Get id;
  match Truncate (j_Name p) ("#" +:+ pretty (j_ProjectID p)) 255 with
  | None => fail (PlainError "slice bounds out of range")
  | Some name =>
      _ ← FromContext;
      stmt (λ d,
        match rows (projects d) !! id with
        | None => (Ok tt, d)
        | Some q =>
            if decide (select (λ x, j_Name x = name ∧ j_ProjectID x ≠ id) (projects d) = [])
            then (Ok tt, set_projects (put_row id (renamed q name) (projects d)) d)
            else (Err pg_unique, d)
        end)
  end.

Definition Count (P : Project → Prop) `{!∀ p, Decision (P p)} : M ProjDB Z :=
  _ ← FromContext;
  query (λ d, Ok (Z.of_nat (length (select (λ p, P p ∧ j_Deleted p = false) (projects d))))).

Definition List (P : Project → Prop) `{!∀ p, Decision (P p)} : M ProjDB (list Project) :=
  _ ← FromContext; query (λ d, Ok (select (λ p, P p ∧ j_Deleted p = false) (projects d))).

(** Membership of the user or of one of its groups. *)
Definition has_entity (projectID userID : Z) (groupIDs : list Z) (m : Member) : Prop :=
  m_ProjectID m = projectID ∧
  (m_EntityType m = UserMember ∧ m_EntityID m = userID ∨
   m_EntityType m = GroupMember ∧ m_EntityID m ∈ groupIDs).
#[export] Instance has_entity_dec p u g m : Decision (has_entity p u g m).
Proof. unfold has_entity. apply _. Defined.

Definition ListRoles (projectID userID : Z) (groupIDs : list Z) : M ProjDB (list Z) :=
  _ ← FromContext;
  query (λ d, Ok (m_Role <$> select (has_entity projectID userID groupIDs) (members d))).

End project_dao.

(** *** [src/pkg/project/manager.go] *)

(** The parameter [idOrName interface{}]. *)
Inductive id_or_name := ByID (id : Z) | ByName (name : string).

Module project_mgr.

Definition bad_request (msg : string) : error := WithMessage (BadRequestError None) msg.

Definition Create (p : Project) : M ProjDB Z :=
  if j_OwnerID p <=? 0
  then fail (bad_request ("Owner is missing when creating project " +:+ j_Name p))
  else if IsIllegalLength (j_Name p) 1 255
  then fail (bad_request ("Project name " +:+ j_Name p
               +:+ " is illegal in length. (greater than 255 or less than 1)"))
  else if negb (validProjectName (j_Name p))
  then fail (bad_request "project name is not in lower case or contains illegal characters")
  else project_dao.Create p.

Definition Get (x : id_or_name) : M ProjDB Project :=
  match x with
  | ByID id => project_dao.Get id
  | ByName name =>
      if negb (no_char (Ascii.ascii_of_N 32) name) then fail (bad_request ("invalid project name: '" +:+ name +:+ "'"))
      else project_dao.GetByName name
  end.

Definition Delete (id : Z) : M ProjDB unit := project_dao.Delete id.
Definition ListRoles := project_dao.ListRoles.

End project_mgr.

(** ** Metadata: [src/pkg/project/metadata] *)

Module meta_dao.

(** Unique on (project_id, name), of an existing project. *)
Definition Create (projectID : Z) (name value : string) : M ProjDB Z :=
  _ ← FromContext;
  map_error (λ e, default e (AsConflictError e
               ("metadata " +:+ name +:+ " already exists for project " +:+ pretty projectID)))
    (stmt (λ d,
       if decide (select (λ m, md_ProjectID m = projectID ∧ md_Name m = name) (metas d) = [])
       then match rows (projects d) !! projectID with
            | Some _ => (Ok (next (metas d)),
                set_metas (add_row (λ n, mkProjectMetadata n projectID name value) (metas d)) d)
            | None => (Err pg_foreign_key, d)
            end
       else (Err pg_unique, d))).

Definition Delete (P : ProjectMetadata → Prop) `{!∀ m, Decision (P m)} : M ProjDB unit :=
  _ ← FromContext; stmt (λ d, (Ok tt, set_metas (del_rows P (metas d)) d)).

(** An update of the rows that match, if any. *)
Definition set_value (projectID : Z) (name value : string) (m : ProjectMetadata) : ProjectMetadata :=
  if decide (md_ProjectID m = projectID ∧ md_Name m = name)
  then mkProjectMetadata (md_ID m) (md_ProjectID m) (md_Name m) value else m.
Definition Update (projectID : Z) (name value : string) : M ProjDB unit :=
  _ ← FromContext;
  stmt (λ d, (Ok tt, set_metas (mkTable (set_value projectID name value <$> rows (metas d))
                       (seq (metas d))) d)).

Definition List (P : ProjectMetadata → Prop) `{!∀ m, Decision (P m)} : M ProjDB (list ProjectMetadata) :=
  _ ← FromContext; query (λ d, Ok (select P (metas d))).

End meta_dao.

Module meta_mgr.

(** The maps are walked in the order of their keys; Go's order is arbitrary. *)
Fixpoint add_all (projectID : Z) (l : list (string * string)) : M ProjDB unit :=
  match l with
  | [] => mret tt
  | (name, value) :: l => _ ← meta_dao.Create projectID name value; add_all projectID l
  end.
Definition Add (projectID : Z) (meta : gmap string string) : M ProjDB unit :=
  WithTransaction (add_all projectID (map_to_list meta)).

Fixpoint update_all (projectID : Z) (l : list (string * string)) : M ProjDB unit :=
  match l with
  | [] => mret tt
  | (name, value) :: l => _ ← meta_dao.Update projectID name value; update_all projectID l
  end.
Definition Update (projectID : Z) (meta : gmap string string) : M ProjDB unit :=
  if decide (meta = ∅) then mret tt else WithTransaction (update_all projectID (map_to_list meta)).

Definition Delete (projectID : Z) (names : list string) : M ProjDB unit :=
  meta_dao.Delete (λ m, md_ProjectID m = projectID ∧ (names = [] ∨ md_Name m ∈ names)).

Definition Get (projectID : Z) (names : list string) : M ProjDB (gmap string string) :=
  l ← meta_dao.List (λ m, md_ProjectID m = projectID ∧ (names = [] ∨ md_Name m ∈ names));
  mret (foldl (λ acc m, <[md_Name m := md_Value m]> acc) ∅ l).

End meta_mgr.

(** ** Allowlists: [src/pkg/allowlist] *)

Module allowlist.

(** [InsertOrUpdate] on the project. *)
Definition dao_Set (l : CVEAllowlist) : M ProjDB Z :=
  _ ← FromContext;
  stmt (λ d,
    match head (select (λ x, wl_ProjectID x = wl_ProjectID l) (allowlists d)) with
    | Some x =>
        (Ok (wl_ID x), set_allowlists (put_row (wl_ID x) (mkCVEAllowlist (wl_ID x) (wl_ProjectID l)
           (wl_ExpiresAt l) (wl_Items l)) (allowlists d)) d)
    | None =>
        (Ok (next (allowlists d)), set_allowlists (add_row (λ n, mkCVEAllowlist n (wl_ProjectID l)
           (wl_ExpiresAt l) (wl_Items l)) (allowlists d)) d)
    end).

Definition QueryByProjectID (pid : Z) : M ProjDB (option CVEAllowlist) :=
  _ ← FromContext;
  l ← query (λ d, Ok (select (λ x, wl_ProjectID x = pid) (allowlists d)));
  match l with
  | [] => mret None
  | x :: _ => match wl_Items x with
              | Some _ => mret (Some x)
              | None => fail (PlainError "cannot unmarshal the items")
              end
  end.

Definition CreateEmpty (projectID : Z) : M ProjDB unit :=
  _ ← dao_Set (mkCVEAllowlist 0 projectID None (Some [])); mret tt.

Fixpoint Validate (seen : gset string) (items : list string) : result unit :=
  match items with
  | [] => Ok tt
  | it :: items =>
      if decide (it ∈ seen) then Err (PlainError ("duplicate CVE ID in allowlist: " +:+ it))
      else Validate ({[it]} ∪ seen) items
  end.

Definition Set_ (projectID : Z) (expiresAt : option Z) (items : list string) : M ProjDB unit :=
  _ ← of_result (Validate ∅ items);
  _ ← dao_Set (mkCVEAllowlist 0 projectID expiresAt (Some items)); mret tt.

Definition Get (projectID : Z) : M ProjDB CVEAllowlist :=
  o ← QueryByProjectID projectID;
  mret (default (mkCVEAllowlist 0 projectID None (Some [])) o).

Definition SetSys (expiresAt : option Z) (items : list string) : M ProjDB unit := Set_ 0 expiresAt items.
Definition GetSys : M ProjDB CVEAllowlist := Get 0.

Definition CVESet (l : CVEAllowlist) : gset string := list_to_set (default [] (wl_Items l)).

(** [time.Now().Unix() >= *c.ExpiresAt] *)
Definition IsExpired (now : Z) (l : CVEAllowlist) : bool :=
  match wl_ExpiresAt l with None => false | Some t => t <=? now end.

End allowlist.

(** ** The project controller: [src/controller/project/controller.go] *)

Record ProjectOptions := mkProjectOptions {
  WithDetail : bool; WithCVEAllowlist : bool; WithEffectCVEAllowlist : bool; WithMetadata : bool }.
(** The defaults of [newOptions] and the option of [src/controller/project/options.go]
    that asks for the effective allowlist. *)
Definition default_options : ProjectOptions := mkProjectOptions true false false true.
Definition effective_allowlist : ProjectOptions := mkProjectOptions true false true true.

(** A project with its metadata and allowlist. *)
Record ProjectView := mkProjectView {
  pv_Project : Project; pv_Metadata : gmap string string; pv_Allowlist : CVEAllowlist }.

(** Only letters of ASCII have a lower case inside [true] or [1]. *)
Definition lower_char (c : Ascii.ascii) : Ascii.ascii :=
  if ((65 <=? byte c) && (byte c <=? 90))%N then Ascii.ascii_of_N (byte c + 32) else c.
Fixpoint ToLower (s : string) : string :=
  match s with EmptyString => EmptyString | String c s => String (lower_char c) (ToLower s) end.
Definition isTrue (s : string) : bool := (ToLower s == "true") || (ToLower s == "1").

Definition meta_true (key : string) (absent : bool) (p : ProjectView) : bool :=
  match pv_Metadata p !! key with None => absent | Some v => isTrue v end.

Definition IsPublic : ProjectView → bool := meta_true "public" false.
Definition ContentTrustEnabled : ProjectView → bool := meta_true "enable_content_trust" false.
Definition ContentTrustCosignEnabled : ProjectView → bool := meta_true "enable_content_trust_cosign" false.
Definition VulPrevented : ProjectView → bool := meta_true "prevent_vul" false.
Definition ReuseSysCVEAllowlist : ProjectView → bool := meta_true "reuse_sys_cve_allowlist" true.
Definition AutoScan : ProjectView → bool := meta_true "auto_scan" false.
Definition Severity (p : ProjectView) : string :=
  default EmptyString (pv_Metadata p !! "severity"%string).
Definition IsProxy (p : ProjectView) : bool := 0 <? j_RegistryID (pv_Project p).

Module project_ctl.

Definition no_allowlist : CVEAllowlist := mkCVEAllowlist 0 0 None (Some []).

Definition Create (p : Project) (metadata : gmap string string) : M ProjDB Z :=
  WithTransaction (
    id ← project_mgr.Create p;
    _ ← allowlist.CreateEmpty id;
    _ ← (if decide (metadata = ∅) then mret tt else meta_mgr.Add id metadata);
    mret id).

Definition assembleProject (o : ProjectOptions) (p : Project) : M ProjDB ProjectView :=
  if negb (WithDetail o) then mret (mkProjectView p ∅ no_allowlist)
  else
    meta ← (if WithMetadata o then meta_mgr.Get (j_ProjectID p) [] else mret ∅);
    wl ← (if WithEffectCVEAllowlist o
          then if ReuseSysCVEAllowlist (mkProjectView p meta no_allowlist)
               then wl ← allowlist.GetSys;
                    mret (mkCVEAllowlist (wl_ID wl) (j_ProjectID p) (wl_ExpiresAt wl) (wl_Items wl))
               else allowlist.Get (j_ProjectID p)
          else if WithCVEAllowlist o then allowlist.Get (j_ProjectID p)
          else mret no_allowlist);
    mret (mkProjectView p meta wl).

Definition Get (x : id_or_name) (o : ProjectOptions) : M ProjDB ProjectView :=
  p ← project_mgr.Get x; assembleProject o p.

Definition GetByName (name : string) (o : ProjectOptions) : M ProjDB ProjectView :=
  if name == "" then fail (project_mgr.bad_request "project name required")
  else Get (ByName name) o.

Definition Exists (x : id_or_name) : M ProjDB bool :=
  r ← try (project_mgr.Get x);
  match r with
  | Ok _ => mret true
  | Err e => if IsNotFoundErr e then mret false else fail e
  end.

Definition Delete (id : Z) : M ProjDB unit :=
  _ ← Get (ByID id) default_options; project_mgr.Delete id.

(** [wl] is the allowlist of the project that the caller filled in. *)
Definition Update (id : Z) (metadata : gmap string string) (wl : CVEAllowlist) : M ProjDB unit :=
  _ ← (if decide (metadata = ∅) then mret tt
       else
         old ← meta_mgr.Get id [];
         _ ← meta_mgr.Add id (filter (λ kv, old !! kv.1 = None) metadata);
         meta_mgr.Update id (filter (λ kv, old !! kv.1 ≠ None) metadata));
  if wl_ProjectID wl =? id then allowlist.Set_ id (wl_ExpiresAt wl) (default [] (wl_Items wl)) else mret tt.

End project_ctl.

(** ** Members: [src/pkg/member], [src/controller/member/controller.go] *)

(** The table [role] of the schema. *)
Definition role_ids : list Z := [1; 2; 3; 4; 5].

Module member_dao.

(** The name of a member's entity, when it exists: the join with the tables of
    users or groups. *)
Definition entity_name (d : ProjDB) (m : Member) : option string :=
  if m_EntityType m == GroupMember then g_GroupName <$> rows (groups d) !! m_EntityID m
  else if m_EntityType m == UserMember then u_Username <$> rows (users d) !! m_EntityID m
  else None.

(** A filter with an empty or zero field does not restrict. *)
Record MemberQuery := mkMemberQuery {
  mq_ProjectID : Z; mq_Entityname : string; mq_EntityType : string; mq_EntityID : Z; mq_ID : Z }.

Definition matches (q : MemberQuery) (d : ProjDB) (m : Member) : Prop :=
  m_ProjectID m = mq_ProjectID q ∧ m_Role m ∈ role_ids ∧
  (∃ name, entity_name d m = Some name ∧ (mq_Entityname q = EmptyString ∨ name = mq_Entityname q)) ∧
  (String.length (mq_EntityType q) = 1%nat → m_EntityType m = mq_EntityType q) ∧
  (0 < mq_EntityID q → m_EntityID m = mq_EntityID q) ∧ (0 < mq_ID q → m_ID m = mq_ID q).
#[export] Instance matches_dec q d m : Decision (matches q d m).
Proof.
  unfold matches. repeat (apply and_dec; [apply _|]).
  apply and_dec; [|apply _].
  destruct (entity_name d m) as [n|].
  - destruct (decide (mq_Entityname q = EmptyString ∨ n = mq_Entityname q)); [left; eauto|right; naive_solver].
  - right. naive_solver.
Defined.

Definition GetProjectMember (q : MemberQuery) : M ProjDB (list Member) :=
  if mq_ProjectID q =? 0 then fail (PlainError "failed to query project member")
  else _ ← FromContext; query (λ d, Ok (select (matches q d) (members d))).

Definition GetTotalOfProjectMembers (projectID : Z) : M ProjDB Z :=
  if projectID =? 0 then fail (PlainError "failed to get total of project members, project id required")
  else _ ← FromContext;
       query (λ d, Ok (Z.of_nat (length (select (λ m, m_ProjectID m = projectID) (members d))))).

Definition AddProjectMember (m : Member) : M ProjDB Z :=
  _ ← FromContext;
  if m_EntityID m <=? 0 then fail (PlainError "invalid entity_id")
  else if m_ProjectID m <=? 0 then fail (PlainError "invalid project_id")
  else
    _ ← stmt (λ d, (Ok tt, set_members (del_rows (project_dao.same_member m) (members d)) d));
    stmt (project_dao.insert_member m).

Definition set_role (role : Z) (m : Member) : Member :=
  mkMember (m_ID m) (m_ProjectID m) (m_EntityID m) role (m_EntityType m).

Definition UpdateProjectMemberRole (projectID pmID role : Z) : M ProjDB unit :=
  _ ← FromContext;
  stmt (λ d, (Ok tt,
    match rows (members d) !! pmID with
    | Some m => if m_ProjectID m =? projectID
                then set_members (put_row pmID (set_role role m) (members d)) d else d
    | None => d
    end)).

Definition DeleteProjectMemberByID (projectID pmid : Z) : M ProjDB unit :=
  _ ← FromContext;
  stmt (λ d, (Ok tt, set_members (del_rows (λ m, m_ProjectID m = projectID ∧ m_ID m = pmid) (members d)) d)).

Definition DeleteProjectMemberByUserID (uid : Z) : M ProjDB unit :=
  _ ← FromContext;
  stmt (λ d, (Ok tt, set_members (del_rows (λ m, m_EntityType m = UserMember ∧ m_EntityID m = uid)
                       (members d)) d)).

End member_dao.

Definition isValidRole (role : Z) : bool :=
  bool_decide (role ∈ [RoleProjectAdmin; RoleMaintainer; RoleDeveloper; RoleGuest; RoleLimitedGuest]).

(** [Request]: a zero or empty field is an absent one. *)
Record MemberRequest := mkMemberRequest {
  rq_Role : Z; rq_UserID : Z; rq_Username : string;
  rq_GroupID : Z; rq_GroupName : string; rq_GroupType : Z; rq_LdapGroupDN : string }.

Definition LDAPGroupType : Z := 1.

Module member_ctl.
Section member_ctl.
(** [auth.SearchAndOnBoardUser] and [auth.SearchAndOnBoardGroup] ask the identity
    provider and create the user or group. *)
Context (SearchAndOnBoardUser : string → M ProjDB Z) (SearchAndOnBoardGroup : string → string → M ProjDB Z).

Definition ErrDuplicateProjectMember : error :=
  WithMessage (ConflictError None) "The project member specified already exist".
Definition ErrInvalidRole : error :=
  WithMessage (BadRequestError None) "Failed to update project member, role is not in 1,2,3".

(** [userManager.Get] and [GetByName] of [src/pkg/user/manager.go]. *)
Definition user_Get (id : Z) : M ProjDB User :=
  _ ← FromContext;
  l ← query (λ d, Ok (select (λ u, u_UserID u = id ∧ u_Deleted u = false) (users d)));
  match l with u :: _ => mret u | [] => row_not_found ("user " +:+ pretty id +:+ " not found") end.
Definition user_GetByName (name : string) : M ProjDB User :=
  _ ← FromContext;
  l ← query (λ d, Ok (select (λ u, u_Username u = name ∧ u_Deleted u = false) (users d)));
  match l with u :: _ => mret u | [] => row_not_found ("user " +:+ name +:+ " not found") end.
(** [groupManager.Get] and [List] of [src/pkg/usergroup/manager.go]. *)
Definition group_Get (id : Z) : M ProjDB UserGroup :=
  Read (λ d, rows (groups d) !! id) ("user group " +:+ pretty id +:+ " not found").
Definition group_List (P : UserGroup → Prop) `{!∀ g, Decision (P g)} : M ProjDB (list UserGroup) :=
  _ ← FromContext; query (λ d, Ok (select P (groups d))).

(** The entity that the request names: its ID and type. *)
Definition entity_of (req : MemberRequest) : M ProjDB (Z * string) :=
  if 0 <? rq_UserID req
  then r ← try (user_Get (rq_UserID req));
       match r with
       | Err e => fail (project_mgr.bad_request ("Failed to get user " +:+ pretty (rq_UserID req)))
       | Ok _ => mret (rq_UserID req, UserMember)
       end
  else if 0 <? rq_GroupID req
  then r ← try (group_Get (rq_GroupID req));
       match r with
       | Err e => fail (project_mgr.bad_request ("Failed to get group " +:+ pretty (rq_GroupID req)))
       | Ok _ => mret (rq_GroupID req, GroupMember)
       end
  else if negb (rq_Username req == "")
  then r ← try (user_GetByName (rq_Username req));
       match r with
       | Ok u => mret (u_UserID u, UserMember)
       | Err e =>
           if IsNotFoundErr e
           then id ← SearchAndOnBoardUser (rq_Username req); mret (id, UserMember)
           else fail e
       end
  else if negb (rq_LdapGroupDN req == "")
  then l ← group_List (λ g, g_LdapGroupDN g = rq_LdapGroupDN req ∧ g_GroupType g = LDAPGroupType);
       match l with
       | g :: _ => mret (g_ID g, GroupMember)
       | [] => id ← SearchAndOnBoardGroup (rq_LdapGroupDN req) (rq_GroupName req); mret (id, GroupMember)
       end
  else if negb (rq_GroupName req == "")
  then l ← group_List (λ g, g_GroupName g = rq_GroupName req ∧ g_GroupType g = rq_GroupType req);
       match l with
       | g :: _ => mret (g_ID g, GroupMember)
       | [] => id ← SearchAndOnBoardGroup (rq_GroupName req) EmptyString; mret (id, GroupMember)
       end
  else mret (0, GroupMember).

Definition Create (x : id_or_name) (req : MemberRequest) : M ProjDB Z :=
  p ← project_mgr.Get x;
  '(entityID, entityType) ← entity_of req;
  if entityID <=? 0 then fail (PlainError "can not get valid member entity")
  else
    l ← member_dao.GetProjectMember
          (member_dao.mkMemberQuery (j_ProjectID p) EmptyString entityType entityID 0);
    match l with
    | _ :: _ => fail ErrDuplicateProjectMember
    | [] =>
        if negb (isValidRole (rq_Role req)) then fail ErrInvalidRole
        else member_dao.AddProjectMember
               (mkMember 0 (j_ProjectID p) entityID (rq_Role req) entityType)
    end.

Definition Get (x : id_or_name) (memberID : Z) : M ProjDB Member :=
  p ← project_mgr.Get x;
  l ← member_dao.GetProjectMember (member_dao.mkMemberQuery (j_ProjectID p) EmptyString EmptyString 0 memberID);
  match l with
  | m :: _ => mret m
  | [] => row_not_found ("the project member is not found, project id " +:+ pretty (j_ProjectID p)
                           +:+ ", member id " +:+ pretty memberID)
  end.

(** The role is not checked here. *)
Definition UpdateRole (x : id_or_name) (memberID role : Z) : M ProjDB unit :=
  p ← project_mgr.Get x;
  member_dao.UpdateProjectMemberRole (j_ProjectID p) memberID role.

Definition Delete (x : id_or_name) (memberID : Z) : M ProjDB unit :=
  p ← project_mgr.Get x; member_dao.DeleteProjectMemberByID (j_ProjectID p) memberID.

Definition List (x : id_or_name) (entityName : string) : M ProjDB (list Member) :=
  p ← project_mgr.Get x;
  member_dao.GetProjectMember (member_dao.mkMemberQuery (j_ProjectID p) entityName EmptyString 0 0).

Definition Count (x : id_or_name) : M ProjDB Z :=
  p ← project_mgr.Get x; member_dao.GetTotalOfProjectMembers (j_ProjectID p).

End member_ctl.
End member_ctl.
