(* ===== verification/ProjectSpec.v ===== *)
(** * Projects: the invariant of their tables, and names that can be used again

    [proj_ok]: keys, unique constraints and foreign keys, the names of live
    projects, and the marked names of deleted ones.  Every operation of the
    project and member controllers keeps it.  A deletion always goes through and
    frees the name; a project that takes it starts with its owner as the only
    member. *)

From S2P Require Import Prelude GoErrors GoStrings Orm Table Hoare ProjectStore.
Open Scope Z_scope.

Definition hash : Ascii.ascii := Ascii.ascii_of_N 35.

Definition same_project (p q : Project) : Prop := j_Name p = j_Name q.
Definition same_meta (m n : ProjectMetadata) : Prop :=
  md_ProjectID m = md_ProjectID n ∧ md_Name m = md_Name n.
Definition same_allowlist (x y : CVEAllowlist) : Prop := wl_ProjectID x = wl_ProjectID y.

#[export] Instance same_project_sym : Symmetric same_project.
Proof. by intros x y. Qed.
#[export] Instance same_meta_sym : Symmetric same_meta.
Proof. intros x y []. by split. Qed.
#[export] Instance same_allowlist_sym : Symmetric same_allowlist.
Proof. by intros x y. Qed.
#[export] Instance same_member_sym : Symmetric project_dao.same_member.
Proof. intros x y (? & ? & ?). by split_and!. Qed.

(** The name of a deleted project ends with a mark that no other row has. *)
Definition project_valid (p : Project) : Prop :=
  if j_Deleted p
  then ∃ base, no_char hash base = true ∧ j_Name p = base +:+ String hash (pretty (j_ProjectID p))
  else validProjectName (j_Name p) = true ∧ IsIllegalLength (j_Name p) 1 255 = false.

Definition of_project (P : table Project) (id : Z) : Prop := is_Some (rows P !! id).

Record proj_ok (d : ProjDB) : Prop := mk_proj_ok {
  ok_projects : tab_ok j_ProjectID same_project project_valid (projects d);
  ok_members : tab_ok m_ID project_dao.same_member (λ m, of_project (projects d) (m_ProjectID m)) (members d);
  ok_metas : tab_ok md_ID same_meta (λ m, of_project (projects d) (md_ProjectID m)) (metas d);
  ok_allowlists : tab_ok wl_ID same_allowlist (λ _, True) (allowlists d);
}.

(** ** Names *)

Lemma alnum_not_hash c : alnum c = true → c ≠ hash.
Proof. intros H ->. by vm_compute in H. Qed.
Lemma separator_not_hash c : separator c = true → c ≠ hash.
Proof. intros H ->. by vm_compute in H. Qed.

Lemma name_rest_hash s : ∀ b, name_rest b s = true → no_char hash s = true.
Proof.
  induction s as [|c s IH]; intros b H; [done|]. cbn in H |- *. unfold no_char in *; simpl.
  destruct (alnum c) eqn:E.
  - rewrite bool_decide_eq_false_2 by by apply alnum_not_hash. by apply (IH false).
  - apply andb_prop in H as [H Hs]. apply andb_prop in H as [Hc _].
    rewrite bool_decide_eq_false_2 by by apply separator_not_hash. by apply (IH true).
Qed.

Lemma number_no_hash (z : Z) : no_char hash (pretty z) = true.
Proof.
  eapply string_forall_impl; [|apply pretty_Z_chars]. intros c Hc. simpl.
  rewrite bool_decide_eq_false_2; [done|]. intros ->. by vm_compute in Hc.
Qed.

Lemma substring_prefix n : ∀ s t, (n <= String.length s)%nat →
  String.substring 0 n (s +:+ t) = String.substring 0 n s.
Proof.
  induction n as [|n IH]; intros [|c s] t Hn; simpl in *; try lia; try done.
  - by destruct t.
  - f_equal. apply IH. lia.
Qed.

Lemma forall_substring p n : ∀ s, string_forall p s = true → string_forall p (String.substring 0 n s) = true.
Proof.
  induction n as [|n IH]; intros [|c s] H; simpl in *; try done.
  apply andb_prop in H as [-> H]. by apply IH.
Qed.

Lemma length_app_string s t : String.length (s +:+ t) = (String.length s + String.length t)%nat.
Proof. induction s as [|c s IH]; simpl; [done|]. by rewrite IH. Qed.

(** Truncating keeps the suffix and a part of the name in front of it. *)
Lemma Truncate_spec p str suffix n :
  string_forall p str = true →
  match Truncate str suffix n with
  | Some x => ∃ base, x = base +:+ suffix ∧ string_forall p base = true
  | None => n < Z.of_nat (String.length suffix)
  end.
Proof.
  intros Hp. unfold Truncate. destruct (_ <=? n) eqn:E; [by exists str|].
  apply Z.leb_gt in E. rewrite length_app_string in *.
  destruct (_ <? 0) eqn:E2; [apply Z.ltb_lt in E2; lia|]. apply Z.ltb_ge in E2.
  eexists. split; [done|]. rewrite substring_prefix by lia. by apply forall_substring.
Qed.

(** The part after the only mark. *)
Lemma marked_inj b1 : ∀ b2 x y, no_char hash b1 = true → no_char hash b2 = true →
  b1 +:+ String hash x = b2 +:+ String hash y → no_char hash x = true → no_char hash y = true → x = y.
Proof.
  induction b1 as [|c b1 IH]; intros [|c' b2] x y H1 H2 He Hx Hy; simpl in *.
  - by injection He.
  - injection He as <- _. by vm_compute in H2.
  - injection He as -> _. by vm_compute in H1.
  - injection He as <- He. apply andb_prop in H1 as [_ H1]. apply andb_prop in H2 as [_ H2].
    by apply (IH b2 x y).
Qed.

Lemma marked_hash b x : no_char hash (b +:+ String hash x) = false.
Proof.
  unfold no_char. rewrite string_forall_app. by destruct (string_forall _ b).
Qed.

(** No other row has the name that a deletion gives. *)
Lemma mark_fresh P id base q :
  tab_ok j_ProjectID same_project project_valid P → no_char hash base = true →
  rows P !! j_ProjectID q = Some q → j_ProjectID q ≠ id → j_Name q ≠ base +:+ String hash (pretty id).
Proof.
  intros HP Hb Hq Hne He. pose proof (tab_valid _ _ _ _ HP _ _ Hq) as Hv. unfold project_valid in Hv.
  destruct (j_Deleted q).
  - destruct Hv as (b & Hb' & Hn). rewrite Hn in He.
    apply marked_inj in He; auto using number_no_hash. by apply (inj pretty) in He.
  - destruct Hv as [Hv _]. apply name_rest_hash in Hv. rewrite He, marked_hash in Hv. done.
Qed.

(** ** Every operation keeps the invariant *)

(** Rows of projects are never removed. *)
Definition grows (P P' : table Project) : Prop := ∀ id, of_project P id → of_project P' id.

Lemma proj_ok_set_projects P' d :
  proj_ok d → tab_ok j_ProjectID same_project project_valid P' → grows (projects d) P' →
  proj_ok (set_projects P' d).
Proof.
  intros [] HP Hg. split; simpl; try done.
  - eapply tab_ok_mono; [done|]. intros i m _. apply Hg.
  - eapply tab_ok_mono; [done|]. intros i m _. apply Hg.
Qed.

Lemma insert_project_ok p d :
  proj_ok d → j_Deleted p = false → project_valid p →
  match project_dao.insert_project p d with
  | (Ok id, d') => proj_ok d' ∧ of_project (projects d') id
  | (Err _, d') => proj_ok d'
  end.
Proof.
  intros Hok Hl Hv. unfold project_dao.insert_project.
  destruct (decide _) as [Hs|]; [|done]. destruct (rows (users d) !! _); [|done]. split.
  - apply proj_ok_set_projects; [done| |].
    + apply (tab_ok_add _ _ _ _ _ _ (ok_projects d Hok) Hs); [done| |].
      * intros n x Hx. symmetry. exact Hx.
      * unfold project_valid in *. simpl. by rewrite Hl in *.
    + intros i [x Hx]. exists x. eapply lookup_add; [apply (ok_projects d Hok)|done].
  - eexists. simpl. apply lookup_insert_eq.
Qed.

Lemma insert_member_ok m d :
  proj_ok d → of_project (projects d) (m_ProjectID m) → proj_ok (project_dao.insert_member m d).2.
Proof.
  intros Hok Hm. unfold project_dao.insert_member. destruct (decide _) as [Hs|]; [|done].
  destruct Hok. split; simpl; try done.
  by apply (tab_ok_add _ _ _ _ _ _ ok_members0 Hs).
Qed.

Lemma keeps_map_error {A} (I : ProjDB → Prop) f (m : M ProjDB A) : keeps I m → keeps I (map_error f m).
Proof. intros. unfold map_error. keeps_auto. Qed.

Definition legal (p : Project) : Prop := j_Deleted p = false ∧ project_valid p.

Lemma project_Create_keeps p : legal p → keeps proj_ok (project_dao.Create p).
Proof.
  intros [Hl Hv]. unfold project_dao.Create. apply keeps_WithTransaction.
  eapply (spec_bind _ _ (λ _, proj_ok)); [apply keeps_FromContext|intros []].
  eapply (spec_bind _ _ (λ _, proj_ok)); [intros w r w' Hw [= <- <-]; done|intros now].
  eapply (spec_bind _ _ (λ id d, proj_ok d ∧ of_project (projects d) id)).
  - unfold map_error. eapply spec_bind; [apply spec_try; apply (spec_stmt proj_ok _
      (λ id d, proj_ok d ∧ of_project (projects d) id) proj_ok)|].
    + intros d Hd. pose proof (insert_project_ok (mkProject 0 (j_OwnerID p) (j_Name p) (j_Deleted p)
        (j_RegistryID p) now) d Hd Hl ltac:(unfold project_valid in *; simpl; by rewrite Hl in * )) as H.
      by destruct (project_dao.insert_project _ d) as [[]].
    + done.
    + intros [id|e]; [by apply spec_ret|by apply spec_fail].
  - intros id. eapply (spec_bind _ _ (λ _, proj_ok)).
    + apply spec_stmt; [|by intros d []]. intros d [Hd Hid].
      pose proof (insert_member_ok (mkMember 0 id (j_OwnerID p) RoleProjectAdmin UserMember) d Hd Hid) as H.
      by destruct (project_dao.insert_member _ d) as [[]].
    + intros _. apply keeps_ret.
Qed.

Lemma project_mgr_Create_keeps p : j_Deleted p = false → keeps proj_ok (project_mgr.Create p).
Proof.
  intros Hl. unfold project_mgr.Create. destruct (_ <=? 0); [apply keeps_fail|].
  destruct (IsIllegalLength _ _ _) eqn:E1; [apply keeps_fail|].
  destruct (validProjectName _) eqn:E2; [|apply keeps_fail]. apply project_Create_keeps.
  split; [done|]. unfold project_valid. by rewrite Hl.
Qed.

(** A live project that is deleted keeps its number. *)
Lemma put_renamed_ok id q name d :
  proj_ok d → rows (projects d) !! id = Some q →
  select (λ x, j_Name x = name ∧ j_ProjectID x ≠ id) (projects d) = [] →
  (∃ base, no_char hash base = true ∧ name = base +:+ String hash (pretty id)) →
  proj_ok (set_projects (put_row id (project_dao.renamed q name) (projects d)) d).
Proof.
  intros Hok Hq Hs Hn. destruct (tab_keys _ _ _ _ (ok_projects d Hok) _ _ Hq) as [Hid _].
  apply proj_ok_set_projects; [done| |].
  - apply (tab_ok_put_fresh _ _ _ _ id q (project_dao.renamed q name) _ (ok_projects d Hok) Hq Hid Hs).
    + intros y Hy Hne. split; [|done]. symmetry. exact Hy.
    + unfold project_valid. simpl. by rewrite Hid.
  - intros i [x Hx]. simpl. destruct (decide (id = i)) as [<-|].
    + eexists. simpl. apply lookup_insert_eq.
    + exists x. simpl. by rewrite lookup_insert_ne.
Qed.

(** Marks fit into the column: identifiers have at most 254 digits. *)
Definition short (id : Z) : Prop := (String.length (pretty id) <= 254)%nat.

Lemma deleted_name p id :
  project_valid p → j_Deleted p = false →
  match Truncate (j_Name p) ("#" +:+ pretty id) 255 with
  | Some x => ∃ base, no_char hash base = true ∧ x = base +:+ String hash (pretty id)
  | None => ¬ short id
  end.
Proof.
  intros Hv Hl. unfold project_valid in Hv. rewrite Hl in Hv. destruct Hv as [Hv _].
  apply name_rest_hash in Hv.
  pose proof (Truncate_spec _ _ ("#" +:+ pretty id) 255 Hv) as H. destruct (Truncate _ _ _) as [x|].
  - destruct H as (base & -> & Hb). by exists base.
  - rewrite length_app_string in H. unfold short. simpl in H. lia.
Qed.

Lemma project_dao_Delete_keeps id : keeps proj_ok (project_dao.Delete id).
Proof.
  unfold project_dao.Delete, project_dao.Get.
  eapply (spec_bind _ _ (λ p d, proj_ok d ∧ project_valid p ∧ j_Deleted p = false ∧ j_ProjectID p = id)).
  - apply spec_Read; [|done]. intros d p Hd Hp. apply bind_Some in Hp as (q & Hq & Hp).
    destruct (j_Deleted q) eqn:El; [done|]. injection Hp as ->. split_and!; try done.
    + by apply (tab_valid _ _ _ _ (ok_projects d Hd) id).
    + by apply (tab_keys _ _ _ _ (ok_projects d Hd)).
  - intros p. apply (spec_pre _ (λ d, (project_valid p ∧ j_Deleted p = false ∧ j_ProjectID p = id) ∧ proj_ok d));
      [|by intros d (?&?&?&?)].
    apply spec_pure. intros (Hv & Hl & <-). pose proof (deleted_name p (j_ProjectID p) Hv Hl) as Hn.
    destruct (Truncate _ _ _) as [name|]; [|apply keeps_fail].
    apply keeps_bind; [apply keeps_FromContext|intros []]. apply keeps_stmt. intros d Hd.
    destruct (rows (projects d) !! _) as [q|] eqn:Hq; [|done].
    destruct (decide _) as [Hs|]; [|done]. by apply put_renamed_ok.
Qed.

(** *** Metadata and allowlists *)

Lemma proj_ok_set_metas X d :
  proj_ok d → tab_ok md_ID same_meta (λ m, of_project (projects d) (md_ProjectID m)) X → proj_ok (set_metas X d).
Proof. intros []. by split. Qed.
Lemma proj_ok_set_members X d :
  proj_ok d → tab_ok m_ID project_dao.same_member (λ m, of_project (projects d) (m_ProjectID m)) X →
  proj_ok (set_members X d).
Proof. intros []. by split. Qed.
Lemma proj_ok_set_allowlists X d :
  proj_ok d → tab_ok wl_ID same_allowlist (λ _, True) X → proj_ok (set_allowlists X d).
Proof. intros []. by split. Qed.

Lemma meta_Create_keeps id n v : keeps proj_ok (meta_dao.Create id n v).
Proof.
  unfold meta_dao.Create. apply keeps_bind; [apply keeps_FromContext|intros []].
  apply keeps_map_error, keeps_stmt. intros d Hd. destruct (decide _) as [Hs|]; [|done].
  destruct (rows (projects d) !! id) eqn:E; [|done]. simpl. apply proj_ok_set_metas; [done|].
  apply (tab_ok_add _ _ _ _ _ _ (ok_metas d Hd) Hs); [done| |].
  - intros k x []. by split.
  - by eexists.
Qed.

Lemma meta_Update_keeps id n v : keeps proj_ok (meta_dao.Update id n v).
Proof.
  unfold meta_dao.Update. apply keeps_bind; [apply keeps_FromContext|intros []].
  apply keeps_stmt. intros d Hd. apply proj_ok_set_metas; [done|].
  set (f := meta_dao.set_value id n v).
  assert (Hf : ∀ m, md_ID (f m) = md_ID m ∧ md_ProjectID (f m) = md_ProjectID m ∧ md_Name (f m) = md_Name m).
  { intros m. unfold f, meta_dao.set_value. by destruct (decide _). }
  destruct (ok_metas d Hd) as [Hk Hs Hu Hv]. split; simpl; try done.
  - intros i x Hx. simpl in Hx. rewrite lookup_fmap in Hx. apply fmap_Some in Hx as (y & Hy & ->).
    destruct (Hf y) as [-> _]. by apply Hk.
  - intros i j x y Hx Hy. rewrite lookup_fmap in Hx, Hy. apply fmap_Some in Hx as (x' & Hx & ->).
    apply fmap_Some in Hy as (y' & Hy & ->). destruct (Hf x') as (_ & H1 & H2), (Hf y') as (_ & H3 & H4).
    unfold same_meta. rewrite H1, H2, H3, H4. by apply Hu.
  - intros i x Hx. rewrite lookup_fmap in Hx. apply fmap_Some in Hx as (y & Hy & ->).
    destruct (Hf y) as (_ & -> & _). eauto.
Qed.

Lemma meta_Delete_keeps P `{!∀ m, Decision (P m)} : keeps proj_ok (meta_dao.Delete P).
Proof.
  unfold meta_dao.Delete. apply keeps_bind; [apply keeps_FromContext|intros []].
  apply keeps_stmt. intros d Hd. apply proj_ok_set_metas; [done|]. apply tab_ok_dels, (ok_metas d Hd).
Qed.
#[export] Hint Resolve meta_Create_keeps meta_Update_keeps meta_Delete_keeps : keeps.

Lemma add_all_keeps id l : keeps proj_ok (meta_mgr.add_all id l).
Proof. induction l as [|[n v] l IH]; simpl; keeps_auto. Qed.
Lemma update_all_keeps id l : keeps proj_ok (meta_mgr.update_all id l).
Proof. induction l as [|[n v] l IH]; simpl; keeps_auto. Qed.
#[export] Hint Resolve add_all_keeps update_all_keeps : keeps.

Lemma meta_mgr_keeps id m :
  keeps proj_ok (meta_mgr.Add id m) ∧ keeps proj_ok (meta_mgr.Update id m).
Proof. unfold meta_mgr.Add, meta_mgr.Update. split; keeps_auto. Qed.

Lemma meta_Get_keeps id ns : keeps proj_ok (meta_mgr.Get id ns).
Proof. unfold meta_mgr.Get, meta_dao.List. keeps_auto. Qed.

Lemma allowlist_Set_keeps l : keeps proj_ok (allowlist.dao_Set l).
Proof.
  unfold allowlist.dao_Set. apply keeps_bind; [apply keeps_FromContext|intros []].
  apply keeps_stmt. intros d Hd. pose proof (ok_allowlists d Hd) as Ha.
  destruct (head _) as [x|] eqn:E; apply proj_ok_set_allowlists; try done.
  - apply head_Some_elem_of in E. apply (elem_of_select_ok wl_ID) in E as [Hx Hp]; [|apply Ha].
    eapply (tab_ok_put _ _ _ _ x _ _ Ha Hx); try done. intros y Hy. unfold same_allowlist in *.
    simpl in *. congruence.
  - apply head_None in E. apply (tab_ok_add _ _ _ _ _ _ Ha E); try done.
Qed.

Lemma allowlist_keeps id t it :
  keeps proj_ok (allowlist.CreateEmpty id) ∧ keeps proj_ok (allowlist.Set_ id t it) ∧
  keeps proj_ok (allowlist.Get id).
Proof.
  unfold allowlist.CreateEmpty, allowlist.Set_, allowlist.Get, allowlist.QueryByProjectID.
  split_and!; keeps_auto; apply allowlist_Set_keeps.
Qed.

(** *** The controllers *)

Lemma project_mgr_Get_keeps x : keeps proj_ok (project_mgr.Get x).
Proof. unfold project_mgr.Get, project_dao.Get, project_dao.GetByName. keeps_auto. Qed.
#[export] Hint Resolve project_mgr_Get_keeps meta_Get_keeps project_dao_Delete_keeps : keeps.
#[export] Hint Extern 1 (keeps _ (meta_mgr.Add _ _)) => apply meta_mgr_keeps : keeps.
#[export] Hint Extern 1 (keeps _ (meta_mgr.Update _ _)) => apply meta_mgr_keeps : keeps.
#[export] Hint Extern 1 (keeps _ (allowlist.CreateEmpty _)) => apply (allowlist_keeps _ None []) : keeps.
#[export] Hint Extern 1 (keeps _ (allowlist.Set_ _ _ _)) => apply allowlist_keeps : keeps.
#[export] Hint Extern 1 (keeps _ (allowlist.Get _)) => apply (allowlist_keeps _ None []) : keeps.

Lemma project_ctl_Create_keeps p m : j_Deleted p = false → keeps proj_ok (project_ctl.Create p m).
Proof.
  intros Hl. unfold project_ctl.Create. apply keeps_WithTransaction.
  apply keeps_bind; [by apply project_mgr_Create_keeps|]. keeps_auto.
Qed.

Lemma assembleProject_keeps o p : keeps proj_ok (project_ctl.assembleProject o p).
Proof. unfold project_ctl.assembleProject, allowlist.GetSys. keeps_auto. Qed.
#[export] Hint Resolve assembleProject_keeps : keeps.

Lemma project_ctl_Delete_keeps id : keeps proj_ok (project_ctl.Delete id).
Proof. unfold project_ctl.Delete, project_ctl.Get, project_mgr.Delete. keeps_auto. Qed.

Lemma project_ctl_Update_keeps id m wl : keeps proj_ok (project_ctl.Update id m wl).
Proof. unfold project_ctl.Update. keeps_auto. Qed.

(** *** Members *)

(** Onboarding fills the tables of users and groups only. *)
Definition same_proj (d d' : ProjDB) : Prop :=
  projects d' = projects d ∧ members d' = members d ∧ metas d' = metas d ∧ allowlists d' = allowlists d.
#[export] Instance same_proj_preorder : PreOrder same_proj.
Proof. split; [done|]. intros x y z (?&?&?&?) (?&?&?&?). unfold same_proj. split_and!; congruence. Qed.

Lemma proj_ok_same d d' : same_proj d d' → proj_ok d → proj_ok d'.
Proof. intros (Hp & Hm & Hx & Ha) []. split; by rewrite ?Hp, ?Hm, ?Hx, ?Ha. Qed.

(** The project that a request works in. *)
Definition at_project (id : Z) (d : ProjDB) : Prop := proj_ok d ∧ of_project (projects d) id.

Lemma project_mgr_Get_spec x :
  spec proj_ok (project_mgr.Get x) (λ p, at_project (j_ProjectID p)) proj_ok.
Proof.
  unfold project_mgr.Get, project_dao.Get, project_dao.GetByName, at_project, of_project.
  destruct x as [id|name].
  - apply spec_Read; [|done]. intros d p Hd Hp. split; [done|]. apply bind_Some in Hp as (q & Hq & Hp).
    destruct (j_Deleted q); [done|]. injection Hp as ->.
    destruct (tab_keys _ _ _ _ (ok_projects d Hd) _ _ Hq) as [-> _]. eauto.
  - destruct (negb _); [by apply spec_fail|]. apply spec_Read; [|done]. intros d p Hd Hp. split; [done|].
    apply head_Some_elem_of in Hp. apply (elem_of_select_ok j_ProjectID) in Hp as [Hp _];
      [eauto|apply (ok_projects d Hd)].
Qed.

Lemma AddProjectMember_keeps m : keeps (at_project (m_ProjectID m)) (member_dao.AddProjectMember m).
Proof.
  unfold member_dao.AddProjectMember. keeps_auto; apply keeps_stmt; intros d [Hd Hp].
  - split; [|done]. apply proj_ok_set_members; [done|]. apply tab_ok_dels, (ok_members d Hd).
  - pose proof (insert_member_ok m d Hd Hp) as H. split; [done|].
    unfold project_dao.insert_member. by destruct (decide _).
Qed.

Section members.
Context (U : string → M ProjDB Z) (G : string → string → M ProjDB Z).
Context (HU : ∀ s, preserves same_proj (U s)) (HG : ∀ s t, preserves same_proj (G s t)).

Lemma entity_of_same req : preserves same_proj (member_ctl.entity_of U G req).
Proof.
  unfold member_ctl.entity_of, member_ctl.user_Get, member_ctl.user_GetByName, member_ctl.group_Get,
    member_ctl.group_List, row_not_found. frame.
Qed.

Lemma member_Create_keeps x req : keeps proj_ok (member_ctl.Create U G x req).
Proof.
  unfold member_ctl.Create. eapply (spec_bind _ _ _ _ _ _ (project_mgr_Get_spec x)). intros p.
  assert (Hkeep : keeps (at_project (j_ProjectID p)) (member_ctl.entity_of U G req)).
  { intros w r w' [Hd Hp] H. pose proof (entity_of_same req _ _ _ H) as Hs.
    assert (at_project (j_ProjectID p) (db w')); [|by destruct r].
    split; [by eapply proj_ok_same|]. by destruct Hs as (-> & _). }
  apply (spec_conseq _ (at_project (j_ProjectID p)) _ _ (λ _, at_project (j_ProjectID p)) _
           (at_project (j_ProjectID p))); [|done|by intros ? ? []|by intros ? []].
  apply keeps_bind; [done|]. intros [eid ety]. destruct (eid <=? 0); [apply keeps_fail|].
  unfold member_dao.GetProjectMember. keeps_auto.
  apply (AddProjectMember_keeps (mkMember 0 (j_ProjectID p) eid (rq_Role req) ety)).
Qed.

Lemma UpdateRole_keeps x m r : keeps proj_ok (member_ctl.UpdateRole x m r).
Proof.
  unfold member_ctl.UpdateRole, member_dao.UpdateProjectMemberRole. keeps_auto.
  apply keeps_stmt. intros d Hd. simpl. destruct (rows (members d) !! m) as [y|] eqn:E; [|done].
  destruct (_ =? _); [|done]. apply proj_ok_set_members; [done|].
  eapply (tab_ok_put _ _ _ m y _ _ (ok_members d Hd) E); try done.
  exact (tab_valid _ _ _ _ (ok_members d Hd) m y E).
Qed.

Lemma member_Delete_keeps x m : keeps proj_ok (member_ctl.Delete x m).
Proof.
  unfold member_ctl.Delete, member_dao.DeleteProjectMemberByID. keeps_auto.
  apply keeps_stmt. intros d Hd. apply proj_ok_set_members; [done|]. apply tab_ok_dels, (ok_members d Hd).
Qed.

(** ** The machine *)

Inductive op :=
  | CreateProject (owner : Z) (name : string) (registry : Z) (metadata : gmap string string)
  | DeleteProject (id : Z)
  | UpdateProject (id : Z) (metadata : gmap string string) (wl : CVEAllowlist)
  | SetSystemAllowlist (expiresAt : option Z) (items : list string)
  | CreateMember (x : id_or_name) (req : MemberRequest)
  | UpdateMemberRole (x : id_or_name) (memberID role : Z)
  | DeleteMember (x : id_or_name) (memberID : Z).

Definition ignore {A} (m : M ProjDB A) : M ProjDB unit := _ ← m; mret tt.

Definition run (o : op) : M ProjDB unit :=
  match o with
  | CreateProject owner name registry meta =>
      ignore (project_ctl.Create (mkProject 0 owner name false registry 0) meta)
  | DeleteProject id => project_ctl.Delete id
  | UpdateProject id meta wl => project_ctl.Update id meta wl
  | SetSystemAllowlist t items => allowlist.SetSys t items
  | CreateMember x req => ignore (member_ctl.Create U G x req)
  | UpdateMemberRole x m r => member_ctl.UpdateRole x m r
  | DeleteMember x m => member_ctl.Delete x m
  end.

(** Users and groups come and go without touching the other tables. *)
Inductive step : ProjDB → ProjDB → Prop :=
  | step_op o d ctx fs r w : run o (mkWorld d ctx fs) = (r, w) → step d (db w)
  | step_users d d' : same_proj d d' → step d d'.

Lemma run_keeps_proj o : keeps proj_ok (run o).
Proof.
  destruct o; simpl; unfold ignore, allowlist.SetSys; keeps_auto;
    auto using project_ctl_Create_keeps, project_ctl_Delete_keeps, project_ctl_Update_keeps,
      member_Create_keeps, UpdateRole_keeps, member_Delete_keeps.
Qed.

Lemma steps_proj_ok d d' : rtc step d d' → proj_ok d → proj_ok d'.
Proof.
  intros Hr Hi. induction Hr as [|x y z Hs _ IH]; [done|]. apply IH.
  destruct Hs as [o x ctx fs r w H|x y Hs]; [|by eapply proj_ok_same].
  pose proof (run_keeps_proj o (mkWorld x ctx fs) r w Hi H). by destruct r.
Qed.

End members.

(** The rows that the schema starts with. *)
Definition initial : ProjDB :=
  mkProjDB (mkTable {[1 := mkProject 1 1 "library" false 0 0]} 1)
    (mkTable {[1 := mkMember 1 1 1 RoleProjectAdmin UserMember]} 1)
    (mkTable {[1 := mkProjectMetadata 1 1 "public" "true"]} 1)
    (mkTable {[1 := mkCVEAllowlist 1 1 None (Some [])]} 1)
    (mkTable {[1 := mkUser 1 "admin" false]} 1) (mkTable ∅ 0) 0.

Lemma singleton_tab_ok {R} key same (valid : R → Prop) (r : R) :
  key r = 1 → valid r → tab_ok key same valid (mkTable {[1 := r]} 1).
Proof.
  intros Hk Hv. split; simpl.
  - intros i x H. simpl in H. apply lookup_singleton_Some in H as [<- <-]. split; [done|simpl; lia].
  - lia.
  - intros i j x y H1 H2 _. apply lookup_singleton_Some in H1 as [<- _].
    by apply lookup_singleton_Some in H2 as [<- _].
  - intros i x H. by apply lookup_singleton_Some in H as [_ <-].
Qed.

Lemma initial_proj_ok : proj_ok initial.
Proof.
  split; apply singleton_tab_ok; try done; try (by eexists; simpl; apply lookup_singleton_eq).
  all: by vm_compute.
Qed.

(** ** Deleting a project frees its name *)

Local Notation quiet d := (mkWorld d true []).

Lemma Get_quiet id p d :
  rows (projects d) !! id = Some p → j_Deleted p = false →
  project_dao.Get id (quiet d) = (Ok p, quiet d).
Proof. intros Hp Hl. unfold project_dao.Get. rewrite Read_nofault. by rewrite Hp; simpl; rewrite Hl. Qed.

Lemma Delete_quiet d id p :
  proj_ok d → rows (projects d) !! id = Some p → j_Deleted p = false → short id →
  ∃ base, no_char hash base = true ∧
    project_ctl.Delete id (quiet d) = (Ok tt, quiet (set_projects
      (put_row id (project_dao.renamed p (base +:+ String hash (pretty id))) (projects d)) d)).
Proof.
  intros Hok Hp Hl Hs. destruct (tab_keys _ _ _ _ (ok_projects d Hok) _ _ Hp) as [Hid _].
  pose proof (deleted_name p id (tab_valid _ _ _ _ (ok_projects d Hok) _ _ Hp) Hl) as Hn.
  destruct (Truncate _ _ _) as [x|] eqn:ET; [|done]. destruct Hn as (base & Hb & ->).
  exists base. split; [done|].
  unfold project_ctl.Delete, project_ctl.Get, project_mgr.Get, project_mgr.Delete, project_dao.Delete.
  rewrite !bind_eq, (Get_quiet id p) by done. unfold project_ctl.assembleProject. simpl.
  rewrite bind_eq, (Get_quiet id p) by done. rewrite Hid, ET. unfold FromContext. mrun.
  rewrite Hp. rewrite decide_True; [done|]. apply select_nil. intros i q Hi [Hq Hne].
  destruct (tab_keys _ _ _ _ (ok_projects d Hok) _ _ Hi) as [<- _].
  by eapply mark_fresh; [apply (ok_projects d Hok)|..].
Qed.

(** Metadata of a project that has none of these names yet. *)
Lemma add_all_quiet id l : ∀ d,
  proj_ok d → of_project (projects d) id → NoDup l.*1 →
  (∀ i m, rows (metas d) !! i = Some m → md_ProjectID m = id → md_Name m ∉ l.*1) →
  ∃ X, meta_mgr.add_all id l (quiet d) = (Ok tt, quiet (set_metas X d)).
Proof.
  induction l as [|[n v] l IH]; intros d Hok Hp Hnd Hfree; simpl.
  { exists (metas d). by destruct d. }
  apply NoDup_cons in Hnd as [Hn Hnd]. destruct Hp as [q Hq].
  assert (Hrow : meta_dao.Create id n v (quiet d) = (Ok (next (metas d)),
    quiet (set_metas (add_row (λ k, mkProjectMetadata k id n v) (metas d)) d))).
  { unfold meta_dao.Create, FromContext, map_error, try. mrun. rewrite decide_True, Hq; [done|].
    apply select_nil. intros i m Hi [H1 H2]. apply (Hfree i m Hi H1). rewrite H2. left. }
  rewrite bind_eq, Hrow.
  edestruct (IH (set_metas (add_row (λ k, mkProjectMetadata k id n v) (metas d)) d)) as [X HX].
  - pose proof (meta_Create_keeps id n v (quiet d) _ _ Hok Hrow) as H. exact H.
  - by exists q.
  - done.
  - intros i m Hi Hm. simpl in Hi. apply lookup_insert_Some in Hi as [[_ <-]|[_ Hi]]; [done|].
    intros Hl. apply (Hfree i m Hi Hm). by right.
  - exists X. rewrite HX. done.
Qed.

Lemma meta_Add_quiet id meta d :
  proj_ok d → of_project (projects d) id →
  (∀ i m, rows (metas d) !! i = Some m → md_ProjectID m ≠ id) →
  ∃ X, (if decide (meta = ∅) then mret tt else meta_mgr.Add id meta) (quiet d) = (Ok tt, quiet (set_metas X d)).
Proof.
  intros Hok Hp Hnone. destruct (decide _) as [->|]; [by exists (metas d); destruct d|].
  destruct (add_all_quiet id (map_to_list meta) d) as [X HX]; try done.
  - apply NoDup_fst_map_to_list.
  - intros i m Hi Hm. by destruct (Hnone i m Hi).
  - exists X. unfold meta_mgr.Add. by apply WithTransaction_nofault.
Qed.

(** The tables after a project was created. *)
Definition created (owner : Z) (name : string) (d : ProjDB) : ProjDB :=
  set_members (add_row (λ k, mkMember k (next (projects d)) owner RoleProjectAdmin UserMember) (members d))
    (set_projects (add_row (λ k, mkProject k owner name false 0 (pnow d)) (projects d)) d).

Lemma no_row_of_next d : proj_ok d →
  (∀ i m, rows (members d) !! i = Some m → m_ProjectID m ≠ next (projects d)) ∧
  (∀ i m, rows (metas d) !! i = Some m → md_ProjectID m ≠ next (projects d)).
Proof.
  intros Hok. pose proof (lookup_next _ _ (tab_keys _ _ _ _ (ok_projects d Hok))) as Hn.
  split; intros i m Hi He.
  - destruct (tab_valid _ _ _ _ (ok_members d Hok) i m Hi) as [q Hq]. rewrite He in Hq. congruence.
  - destruct (tab_valid _ _ _ _ (ok_metas d Hok) i m Hi) as [q Hq]. rewrite He in Hq. congruence.
Qed.

Lemma Create_quiet owner name meta d :
  proj_ok d → 0 < owner → is_Some (rows (users d) !! owner) →
  validProjectName name = true → IsIllegalLength name 1 255 = false →
  select (λ x, j_Name x = name) (projects d) = [] →
  ∃ d', project_ctl.Create (mkProject 0 owner name false 0 0) meta (quiet d) = (Ok (next (projects d)), quiet d') ∧
    members d' = members (created owner name d).
Proof.
  intros Hok Ho [u Hu] Hv Hl Hfree. set (id := next (projects d)).
  destruct (no_row_of_next d Hok) as [Hnm Hnx].
  assert (Hc : project_mgr.Create (mkProject 0 owner name false 0 0) (quiet d) = (Ok id, quiet (created owner name d))).
  { unfold project_mgr.Create. simpl. rewrite Hl, Hv. destruct (Z.leb_spec owner 0); [lia|]. simpl.
    unfold project_dao.Create. apply WithTransaction_nofault. unfold FromContext, map_error, try. mrun.
    unfold project_dao.insert_project, project_dao.insert_member. simpl.
    rewrite decide_True, Hu by done. mrun. rewrite decide_True; [done|].
    apply select_nil. intros i m Hi (H1 & _). by apply (Hnm i m Hi). }
  pose proof (project_mgr_Create_keeps (mkProject 0 owner name false 0 0) eq_refl (quiet d) _ _ Hok Hc) as Hok1.
  simpl in Hok1.
  destruct (allowlist_keeps id None []) as [Hke _].
  assert (Ha : ∃ W, allowlist.CreateEmpty id (quiet (created owner name d)) =
                 (Ok tt, quiet (set_allowlists W (created owner name d)))).
  { unfold allowlist.CreateEmpty, allowlist.dao_Set, FromContext. mrun.
    destruct (head _); eexists; mrun; done. }
  destruct Ha as [W Ha]. pose proof (Hke (quiet _) _ _ Hok1 Ha) as Hok2. simpl in Hok2.
  destruct (meta_Add_quiet id meta (set_allowlists W (created owner name d)) Hok2) as [X HX]; [| |].
  - eexists. simpl. apply lookup_insert_eq.
  - exact Hnx.
  - eexists. split; [|].
    + unfold project_ctl.Create. apply WithTransaction_nofault.
      rewrite bind_eq, Hc, bind_eq, Ha, bind_eq, HX. done.
    + done.
Qed.

(** The only member of a created project is its owner. *)
Lemma roles_of_created owner name d u gs : proj_ok d →
  m_Role <$> select (project_dao.has_entity (next (projects d)) u gs) (members (created owner name d)) =
  if decide (u = owner) then [RoleProjectAdmin] else [].
Proof.
  intros Hok. destruct (no_row_of_next d Hok) as [Hnm _].
  set (m := mkMember (next (members d)) (next (projects d)) owner RoleProjectAdmin UserMember).
  pose proof (lookup_next _ _ (tab_keys _ _ _ _ (ok_members d Hok))) as Hn.
  assert (Hperm : (map_to_list (rows (members (created owner name d)))).*2 ≡ₚ
                  m :: (map_to_list (rows (members d))).*2).
  { change (m :: (map_to_list (rows (members d))).*2) with
      (((next (members d), m) :: map_to_list (rows (members d))).*2).
    apply fmap_Permutation. by apply map_to_list_insert. }
  assert (Hsel : select (project_dao.has_entity (next (projects d)) u gs) (members (created owner name d)) ≡ₚ
                 if decide (u = owner) then [m] else []).
  { unfold select. rewrite Hperm, filter_cons.
    assert (Hnil : filter (project_dao.has_entity (next (projects d)) u gs)
                     ((map_to_list (rows (members d))).*2) = []).
    { apply filter_nil_iff, Forall_fmap, Forall_map_to_list. intros i x Hx [H _]. by apply (Hnm i x Hx). }
    rewrite Hnil. unfold project_dao.has_entity. simpl.
    destruct (decide (u = owner)) as [->|Hne].
    - rewrite decide_True; [done|]. split; [done|]. by left.
    - rewrite decide_False; [done|]. intros [_ [[_ H]|[H _]]]; [congruence|done]. }
  destruct (decide (u = owner)).
  - by apply Permutation_singleton_r in Hsel as ->.
  - by apply Permutation_nil_r in Hsel as ->.
Qed.

(** Further property (a name can be used again): in every reachable state, and without failing
    statements, deleting a live project succeeds, its name is then unknown, and a
    project created under the same name gets another number and starts with its
    owner as the only member, whatever members, groups or metadata the deleted
    project had. *)
Theorem project_name_reusable U G d id p owner meta :
  (∀ s, preserves same_proj (U s)) → (∀ s t, preserves same_proj (G s t)) →
  rtc (step U G) initial d →
  rows (projects d) !! id = Some p → j_Deleted p = false → short id →
  0 < owner → is_Some (rows (users d) !! owner) →
  ∃ d1 n d2,
    project_ctl.Delete id (quiet d) = (Ok tt, quiet d1) ∧
    project_dao.GetByName (j_Name p) (quiet d1) =
      (Err (WrapNotFoundError ErrNoRows ("project " +:+ j_Name p +:+ " not found")), quiet d1) ∧
    project_ctl.Create (mkProject 0 owner (j_Name p) false 0 0) meta (quiet d1) = (Ok n, quiet d2) ∧
    n ≠ id ∧
    ∀ u gs, project_dao.ListRoles n u gs (quiet d2) =
      (Ok (if decide (u = owner) then [RoleProjectAdmin] else []), quiet d2).
Proof.
  intros HU HG Hr Hp Hl Hs Ho Hu. pose proof (steps_proj_ok U G HU HG _ _ Hr initial_proj_ok) as Hok.
  destruct (Delete_quiet d id p Hok Hp Hl Hs) as (base & Hb & HD).
  set (d1 := set_projects _ d) in HD.
  pose proof (project_ctl_Delete_keeps id (quiet _) _ _ Hok HD) as Hok1. simpl in Hok1.
  pose proof (tab_valid _ _ _ _ (ok_projects d Hok) _ _ Hp) as Hv. unfold project_valid in Hv.
  rewrite Hl in Hv. destruct Hv as [Hv Hlen].
  assert (Hfree : select (λ x, j_Name x = j_Name p) (projects d1) = []).
  { apply select_nil. intros i q Hi Hq. simpl in Hi. apply lookup_insert_Some in Hi as [[<- <-]|[Hne Hi]].
    - simpl in Hq. apply name_rest_hash in Hv. rewrite <- Hq, marked_hash in Hv. done.
    - apply Hne. symmetry. by apply (tab_unique _ _ _ _ (ok_projects d Hok) i id q p). }
  destruct (Create_quiet owner (j_Name p) meta d1 Hok1 Ho Hu Hv Hlen Hfree) as (d2 & HC & Hm).
  exists d1, (next (projects d1)), d2. split_and!; [done| |done| |].
  - unfold project_dao.GetByName. rewrite Read_nofault.
    assert (select (λ x, j_Name x = j_Name p ∧ j_Deleted x = false) (projects d1) = []) as ->; [|done].
    rewrite select_nil in Hfree |- *. intros i q Hi [Hn _]. by apply (Hfree i q Hi).
  - intros He. pose proof (lookup_next _ _ (tab_keys _ _ _ _ (ok_projects d Hok))) as Hn.
    change (next (projects d1)) with (next (projects d)) in He. congruence.
  - intros u gs. unfold project_dao.ListRoles, FromContext. mrun. do 2 f_equal. rewrite Hm.
    exact (roles_of_created owner (j_Name p) d1 u gs Hok1).
Qed.

(** The deletion of [library]; there is no identity provider. *)
Lemma project_name_reusable_witness :
  ∃ d1 n d2,
    project_ctl.Delete 1 (quiet initial) = (Ok tt, quiet d1) ∧
    project_dao.GetByName "library" (quiet d1) =
      (Err (WrapNotFoundError ErrNoRows "project library not found"), quiet d1) ∧
    project_ctl.Create (mkProject 0 1 "library" false 0 0) ∅ (quiet d1) = (Ok n, quiet d2) ∧
    n ≠ 1 ∧
    ∀ u gs, project_dao.ListRoles n u gs (quiet d2) =
      (Ok (if decide (u = 1) then [RoleProjectAdmin] else []), quiet d2).
Proof.
  apply (project_name_reusable (λ _, fail (PlainError "no provider")) (λ _ _, fail (PlainError "no provider"))
           initial 1 (mkProject 1 1 "library" false 0 0) 1 ∅).
  - intros s. apply preserves_fail, _.
  - intros s t. apply preserves_fail, _.
  - apply rtc_refl.
  - reflexivity.
  - reflexivity.
  - vm_compute. repeat constructor.
  - lia.
  - by exists (mkUser 1 "admin" false).
Defined.
