(* ===== verification/RobotStore.v ===== *)
(** * Robot accounts

    [src/pkg/robot], [src/pkg/rbac], [src/controller/robot], the REST handler
    [src/server/v2.0/handler/robot.go] with the access checks of [base.go], the
    deletion of a project by [project.go], and the authentication of a robot in
    [src/server/middleware/security/robot.go].  The hash of secrets, the strings
    drawn at random, the prefix of robot names and the calendar are parameters.
    The context of the request is the record [SecCtx] of the methods that the
    handlers call.  Paging and descriptions of replies are not modelled. *)

From S2P Require Import Prelude GoErrors GoStrings Orm Retry Table Hoare ProjectStore.
From S2P Require Rbac Security.
#[export] Existing Instance Rbac.Policy_eq_dec.
Open Scope Z_scope.
Local Open Scope harbor_scope.

(** ** Models *)

(** [src/pkg/robot/model/model.go] *)
Record RobotRow := mkRobotRow {
  b_ID : Z; b_Name : string; b_Description : string; b_Secret : string; b_Salt : string;
  b_Duration : Z; b_ProjectID : Z; b_ExpiresAt : Z; b_Disabled : bool; b_Visible : bool;
  b_CreationTime : Z }.

(** [src/pkg/rbac/model/model.go] *)
Record RolePermission := mkRolePermission {
  rp_ID : Z; rp_RoleType : string; rp_RoleID : Z; rp_PermissionPolicyID : Z }.
Record PermissionPolicy := mkPermissionPolicy {
  pp_ID : Z; pp_Scope : string; pp_Policy : Rbac.Policy }.

(** [src/controller/robot/model.go] *)
Record Permission := mkPermission {
  pm_Kind : string; pm_Namespace : string; pm_Access : list Rbac.Policy; pm_Scope : string }.
Record Robot := mkRobot {
  rb_Robot : RobotRow; rb_ProjectName : string; rb_Level : string; rb_Editable : bool;
  rb_Permissions : list Permission }.

Definition LEVELSYSTEM : string := "system".
Definition LEVELPROJECT : string := "project".
Definition SCOPESYSTEM : string := "/system".
Definition SCOPEALLPROJECT : string := "/project/*".
Definition ROBOTTYPE : string := "robotaccount".

Record RobotDB := mkRobotDB {
  rproj : ProjDB;
  robots : table RobotRow;
  role_permissions : table RolePermission;
  permission_policies : table PermissionPolicy;
}.
Definition set_rproj (x : ProjDB) (d : RobotDB) : RobotDB :=
  mkRobotDB x (robots d) (role_permissions d) (permission_policies d).
Definition set_robots (x : table RobotRow) (d : RobotDB) : RobotDB :=
  mkRobotDB (rproj d) x (role_permissions d) (permission_policies d).
Definition set_role_permissions (x : table RolePermission) (d : RobotDB) : RobotDB :=
  mkRobotDB (rproj d) (robots d) x (permission_policies d).
Definition set_policies (x : table PermissionPolicy) (d : RobotDB) : RobotDB :=
  mkRobotDB (rproj d) (robots d) (role_permissions d) x.

(** Code of the project packages, on their part of the database. *)
Definition on_projects {A} (m : M ProjDB A) : M RobotDB A := zoom rproj set_rproj m.

(** [time.Now] *)
Definition clock : M RobotDB Z := λ w, (Ok (pnow (rproj (db w))), w).

(** ** [src/pkg/robot/dao/dao.go] *)

Module robot_dao.

Definition with_id (n : Z) (r : RobotRow) : RobotRow :=
  mkRobotRow n (b_Name r) (b_Description r) (b_Secret r) (b_Salt r) (b_Duration r) (b_ProjectID r)
    (b_ExpiresAt r) (b_Disabled r) (b_Visible r) (b_CreationTime r).
Definition created_at (t : Z) (r : RobotRow) : RobotRow :=
  mkRobotRow (b_ID r) (b_Name r) (b_Description r) (b_Secret r) (b_Salt r) (b_Duration r) (b_ProjectID r)
    (b_ExpiresAt r) (b_Disabled r) (b_Visible r) t.

(** Unique on (name, project_id). *)
Definition Create (r : RobotRow) : M RobotDB Z :=
  _ ← FromContext;
  x ← try (stmt (λ d,
    if decide (select (λ x, b_Name x = b_Name r ∧ b_ProjectID x = b_ProjectID r) (robots d) = [])
    then (Ok (next (robots d)),
          set_robots (add_row (λ n, with_id n (created_at (pnow (rproj d)) r)) (robots d)) d)
    else (Err pg_unique, d)));
  match x with
  | Ok id => mret id
  | Err e => fail (WrapConflictError e ("robot account " +:+ pretty (b_ProjectID r) +:+ ":" +:+ b_Name r
                                          +:+ " already exists"))
  end.

(** The columns that the controller names: secret, description, disabled, duration
    and expiresat. *)
Definition updated (old r : RobotRow) : RobotRow :=
  mkRobotRow (b_ID old) (b_Name old) (b_Description r) (b_Secret r) (b_Salt old) (b_Duration r)
    (b_ProjectID old) (b_ExpiresAt r) (b_Disabled r) (b_Visible old) (b_CreationTime old).
Definition Update (r : RobotRow) : M RobotDB unit :=
  affect (λ d, old ← rows (robots d) !! b_ID r;
               Some (Ok (set_robots (put_row (b_ID r) (updated old r) (robots d)) d)))
    ("robot " +:+ pretty (b_ID r) +:+ " not found") id.

Definition Get (i : Z) : M RobotDB RobotRow :=
  Read (λ d, rows (robots d) !! i) ("robot " +:+ pretty i +:+ " not found").

Definition Delete (i : Z) : M RobotDB unit :=
  affect (λ d, _ ← rows (robots d) !! i; Some (Ok (set_robots (del_row i (robots d)) d)))
    ("robot account " +:+ pretty i +:+ " not found") id.

Definition List (P : RobotRow → Prop) `{!∀ r, Decision (P r)} : M RobotDB (list RobotRow) :=
  _ ← FromContext; query (λ d, Ok (select P (robots d))).

Definition Count (P : RobotRow → Prop) `{!∀ r, Decision (P r)} : M RobotDB Z :=
  _ ← FromContext; query (λ d, Ok (Z.of_nat (length (select P (robots d))))).

Definition DeleteByProjectID (projectID : Z) : M RobotDB unit :=
  _ ← FromContext;
  stmt (λ d, (Ok tt, set_robots (del_rows (λ r, b_ProjectID r = projectID) (robots d)) d)).

End robot_dao.

(** ** [src/pkg/rbac/dao/dao.go] *)

Module rbac_dao.

Definition of_role (roleType : string) (roleID : Z) (x : RolePermission) : Prop :=
  rp_RoleType x = roleType ∧ rp_RoleID x = roleID.

(** [InsertOrUpdate]: the key of the row that has these columns already, or of a new
    one. *)
Definition CreatePermission (roleType : string) (roleID policyID : Z) : M RobotDB Z :=
  _ ← FromContext;
  stmt (λ d,
    match head (select (λ x, of_role roleType roleID x ∧ rp_PermissionPolicyID x = policyID)
                  (role_permissions d)) with
    | Some x => (Ok (rp_ID x), d)
    | None => (Ok (next (role_permissions d)),
               set_role_permissions
                 (add_row (λ n, mkRolePermission n roleType roleID policyID) (role_permissions d)) d)
    end).

Definition CreateRbacPolicy (scope : string) (a : Rbac.Policy) : M RobotDB Z :=
  _ ← FromContext;
  stmt (λ d,
    match head (select (λ x, pp_Scope x = scope ∧ pp_Policy x = a) (permission_policies d)) with
    | Some x => (Ok (pp_ID x), d)
    | None => (Ok (next (permission_policies d)),
               set_policies (add_row (λ n, mkPermissionPolicy n scope a) (permission_policies d)) d)
    end).

Definition DeletePermissionsByRole (roleType : string) (roleID : Z) : M RobotDB unit :=
  affect (λ d,
      match select (of_role roleType roleID) (role_permissions d) with
      | [] => None
      | _ => Some (Ok (set_role_permissions (del_rows (of_role roleType roleID) (role_permissions d)) d))
      end)
    ("role permission " +:+ roleType +:+ ":" +:+ pretty roleID +:+ " not found") id.

Definition DeletePermission (i : Z) : M RobotDB unit :=
  affect (λ d, _ ← rows (role_permissions d) !! i;
               Some (Ok (set_role_permissions (del_row i (role_permissions d)) d)))
    ("role permission " +:+ pretty i +:+ " not found") id.

Definition DeleteRbacPolicy (i : Z) : M RobotDB unit :=
  affect (λ d, _ ← rows (permission_policies d) !! i;
               Some (Ok (set_policies (del_row i (permission_policies d)) d)))
    ("rbac policy " +:+ pretty i +:+ " not found") id.

(** The columns of a left join are empty for a policy that does not exist. *)
Definition joined (d : RobotDB) (x : RolePermission) : string * Rbac.Policy :=
  match rows (permission_policies d) !! rp_PermissionPolicyID x with
  | Some p => (pp_Scope p, pp_Policy p)
  | None => (EmptyString, Rbac.mkPolicy EmptyString EmptyString EmptyString)
  end.

Definition GetPermissionsByRole (roleType : string) (roleID : Z) : M RobotDB (list (string * Rbac.Policy)) :=
  _ ← FromContext;
  query (λ d, Ok (joined d <$> select (of_role roleType roleID) (role_permissions d))).

End rbac_dao.

(** ** The controller: [src/controller/robot/controller.go] *)

Definition string_any (f : Ascii.ascii → bool) (s : string) : bool :=
  existsb f (String.list_ascii_of_string s).
Definition between (a b : N) (c : Ascii.ascii) : bool := ((a <=? byte c) && (byte c <=? b))%N.
Definition IsValidSec (secret : string) : bool :=
  (8 <=? Z.of_nat (String.length secret)) && string_any (between 97 122) secret
    && string_any (between 65 90) secret && string_any (between 48 57) secret.

Definition set_row (row : RobotRow) (r : Robot) : Robot :=
  mkRobot row (rb_ProjectName r) (rb_Level r) (rb_Editable r) (rb_Permissions r).

(** Accesses grouped by their scope, in the order in which the scopes appear; the
    order of the Go map is arbitrary. *)
Fixpoint add_access (scope : string) (a : Rbac.Policy) (m : list (string * list Rbac.Policy)) :=
  match m with
  | [] => [(scope, [a])]
  | (s, l) :: m => if decide (s = scope) then (s, l ++ [a]) :: m else (s, l) :: add_access scope a m
  end.
Definition accessMap (l : list (string * Rbac.Policy)) : list (string * list Rbac.Policy) :=
  foldl (λ m '(scope, a), add_access scope a m) [] l.

(** [utils.Encrypt] with a salt, [utils.GenerateRandomString] by the number of the
    draw, the draws that fit into a minute, the configured prefix of robot names and
    the configured lifetime, and the day arithmetic of [time.AddDate]. *)
Class RobotConfig := mkRobotConfig {
  Encrypt : string → string → string;
  random : nat → string;
  budget : nat;
  RobotPrefix : string;
  RobotTokenDuration : Z;
  AddDays : Z → Z → Z;
}.

Section controller.
Context {RC : RobotConfig}.

(** One attempt draws a string; the state is the number of draws and the last one. *)
Definition draw : M (nat * string) unit := λ w,
  let n := (db w).1 in
  let w' := with_db w (S n, random n) in
  if IsValidSec (random n) then (Ok tt, w') else (Err (WithMessage (New "") "invalid secret format"), w').

Definition CreateSec (salt : option string) : result (string * string * string) :=
  match Retry budget draw (mkWorld (O, EmptyString) true []) with
  | (Err e, _) => Err (default e (Wrap (Some e) "failed to generate an valid random secret for robot in one minute, please try again"))
  | (Ok _, w) =>
      let '(n, pwd) := db w in
      let salt := default (random n) salt in
      Ok (Encrypt pwd salt, pwd, salt)
  end.

Definition bad_request (msg : string) : error := WithMessage (BadRequestError None) msg.

Definition toScope (p : Permission) : M RobotDB string :=
  if pm_Kind p == LEVELSYSTEM
  then if negb (pm_Namespace p == "/") then fail (bad_request "unknown namespace") else mret SCOPESYSTEM
  else if pm_Kind p == LEVELPROJECT
  then if pm_Namespace p == "*" then mret SCOPEALLPROJECT
       else pro ← on_projects (project_mgr.Get (ByName (pm_Namespace p)));
            mret ("/project/" +:+ pretty (j_ProjectID pro))
  else fail (bad_request "unknown robot kind").

(** The kind and the namespace of a stored scope. *)
Definition convertScope (scope : string) : M RobotDB (string * string) :=
  if scope == "" then mret (EmptyString, EmptyString)
  else if scope == SCOPESYSTEM then mret (LEVELSYSTEM, "/"%string)
  else if scope == SCOPEALLPROJECT then mret (LEVELPROJECT, "*"%string)
  else match Rbac.project_NamespaceParse scope with
       | Some (Rbac.ProjectNS pid) =>
           pro ← on_projects (project_mgr.Get (ByID pid)); mret (LEVELPROJECT, j_Name pro)
       | _ => fail (New ("got no namespace from the resource " +:+ scope))
       end.

(** [r.Permissions[0]] panics on an empty list, which ends the request. *)
Definition setProject (r : Robot) : M RobotDB Robot :=
  if rb_Level r == LEVELPROJECT
  then match rb_Permissions r with
       | [] => fail (PlainError "index out of range")
       | p :: _ =>
           pro ← on_projects (project_mgr.Get (ByName (pm_Namespace p)));
           let b := rb_Robot r in
           mret (mkRobot (mkRobotRow (b_ID b) (b_Name b) (b_Description b) (b_Secret b) (b_Salt b)
                    (b_Duration b) (j_ProjectID pro) (b_ExpiresAt b) (b_Disabled b) (b_Visible b)
                    (b_CreationTime b)) (j_Name pro) (rb_Level r) (rb_Editable r) (rb_Permissions r))
       end
  else mret r.

Fixpoint create_accesses (robotID : Z) (scope : string) (l : list Rbac.Policy) : M RobotDB unit :=
  match l with
  | [] => mret tt
  | a :: l =>
      policyID ← rbac_dao.CreateRbacPolicy scope a;
      _ ← rbac_dao.CreatePermission ROBOTTYPE robotID policyID;
      create_accesses robotID scope l
  end.
Fixpoint createPermission (robotID : Z) (l : list Permission) : M RobotDB unit :=
  match l with
  | [] => mret tt
  | p :: l =>
      scope ← toScope p;
      _ ← create_accesses robotID scope (pm_Access p);
      createPermission robotID l
  end.

Fixpoint convert_all (l : list (string * list Rbac.Policy)) : M RobotDB (list Permission) :=
  match l with
  | [] => mret []
  | (scope, access) :: l =>
      r ← try (convertScope scope);
      match r with
      | Ok (kind, namespace) => ps ← convert_all l; mret (mkPermission kind namespace access scope :: ps)
      | Err e => if IsNotFoundErr e then convert_all l else fail e
      end
  end.
Definition populatePermissions (i : Z) : M RobotDB (list Permission) :=
  l ← rbac_dao.GetPermissionsByRole ROBOTTYPE i; convert_all (accessMap l).

Definition setLevel (r : RobotRow) : string := if b_ProjectID r =? 0 then LEVELSYSTEM else LEVELPROJECT.
(** The permissions are not loaded yet when this is asked. *)
Definition setEditable (r : RobotRow) : bool := negb (b_Secret r == "").

Definition renamed (name : string) (r : RobotRow) : RobotRow :=
  mkRobotRow (b_ID r) name (b_Description r) (b_Secret r) (b_Salt r) (b_Duration r) (b_ProjectID r)
    (b_ExpiresAt r) (b_Disabled r) (b_Visible r) (b_CreationTime r).

Definition populate (withPermission : bool) (r : RobotRow) : M RobotDB Robot :=
  let editable := setEditable r in
  let row := if editable then renamed (RobotPrefix +:+ b_Name r) r else r in
  ps ← (if withPermission then populatePermissions (b_ID r) else mret []);
  mret (mkRobot row EmptyString (setLevel r) editable ps).

Fixpoint populate_all (withPermission : bool) (l : list RobotRow) : M RobotDB (list Robot) :=
  match l with
  | [] => mret []
  | r :: l => x ← populate withPermission r; xs ← populate_all withPermission l; mret (x :: xs)
  end.

End controller.

Module robot_ctl.
Section robot_ctl.
Context {RC : RobotConfig}.

Definition Get (i : Z) (withPermission : bool) : M RobotDB Robot :=
  r ← robot_dao.Get i; populate withPermission r.

Definition List (P : RobotRow → Prop) `{!∀ r, Decision (P r)} (withPermission : bool) : M RobotDB (list Robot) :=
  l ← robot_dao.List P; populate_all withPermission l.

(** A [Duration] is an [int] on a 64-bit machine, so the conversion of the third
    case does not fail. *)
Definition expiry (duration now : Z) : Z * Z :=
  if duration =? -1 then (duration, -1)
  else if duration =? 0 then (RobotTokenDuration, AddDays now RobotTokenDuration)
  else (duration, AddDays now duration).

Definition Create (r : Robot) : M RobotDB (Z * string) :=
  r ← setProject r;
  now ← clock;
  let b := rb_Robot r in
  let '(duration, expiresAt) := expiry (b_Duration b) now in
  '(secret, pwd, salt) ← of_result (CreateSec None);
  let name := if rb_Level r == LEVELPROJECT then rb_ProjectName r +:+ "+" +:+ b_Name b else b_Name b in
  robotID ← robot_dao.Create (mkRobotRow 0 name (b_Description b) secret salt duration (b_ProjectID b)
              expiresAt false (b_Visible b) 0);
  _ ← createPermission robotID (rb_Permissions r);
  mret (robotID, pwd).

Definition Delete (i : Z) : M RobotDB unit :=
  _ ← robot_dao.Delete i; rbac_dao.DeletePermissionsByRole ROBOTTYPE i.

Definition Update (r : Robot) (withPermission : bool) : M RobotDB unit :=
  _ ← robot_dao.Update (rb_Robot r);
  if withPermission
  then _ ← rbac_dao.DeletePermissionsByRole ROBOTTYPE (b_ID (rb_Robot r));
       createPermission (b_ID (rb_Robot r)) (rb_Permissions r)
  else mret tt.

End robot_ctl.
End robot_ctl.

(** ** Access checks: [src/server/v2.0/handler/base.go] *)

(** The methods of [security.Context] that the handlers call. *)
Record SecCtx := mkSecCtx { IsAuthenticated : bool; GetUsername : string; Can : string → string → bool }.

Definition UnauthorizedError : error := WithCode (New "unauthorized") "UNAUTHORIZED".

Module BaseAPI.
Section base.
(** [None] when the request carries no security context. *)
Context (sc : option SecCtx).

Definition GetSecurityContext : result SecCtx :=
  match sc with Some s => Ok s | None => Err UnauthorizedError end.

Definition HasPermission (action resource : string) : bool :=
  match GetSecurityContext with Ok s => Can s action resource | Err _ => false end.

(** A name that is unknown stands for the project 0, which does not exist. *)
Definition HasProjectPermission (x : id_or_name) (action : string) (sub : list string) : M RobotDB bool :=
  let on id := mret (HasPermission action (Rbac.ns_Resource (Rbac.ProjectNS id) sub)) in
  match x with
  | ByID id => on id
  | ByName name =>
      if name == "" then on 0
      else
        r ← try (on_projects (project_ctl.GetByName name default_options));
        match r with
        | Ok p => on (j_ProjectID (pv_Project p))
        | Err e => if IsNotFoundErr e then on 0 else mret false
        end
  end.

Definition RequireProjectAccess (x : id_or_name) (action : string) (sub : list string) : M RobotDB unit :=
  b ← HasProjectPermission x action sub;
  if b : bool then mret tt
  else s ← of_result GetSecurityContext;
       if negb (IsAuthenticated s) then fail UnauthorizedError else fail (ForbiddenError None).

Definition RequireSystemAccess (action : string) (sub : list string) : M RobotDB unit :=
  s ← of_result GetSecurityContext;
  if negb (IsAuthenticated s) then fail UnauthorizedError
  else if negb (Can s action (Rbac.ns_Resource Rbac.SystemNS sub))
  then fail (WithMessage (ForbiddenError None) (GetUsername s))
  else mret tt.

Definition RequireAuthenticated : M RobotDB unit :=
  s ← of_result GetSecurityContext;
  if negb (IsAuthenticated s) then fail UnauthorizedError else mret tt.

End base.
End BaseAPI.

(** ** The handler: [src/server/v2.0/handler/robot.go] *)

(** The payload of a request. *)
Record RobotParams := mkRobotParams {
  ps_Name : string; ps_Description : string; ps_Duration : Z; ps_Level : string; ps_Disable : bool;
  ps_Permissions : list Permission }.

Module robotAPI.
Section api.
Context {RC : RobotConfig} (sc : option SecCtx).

Definition requireAccess (level : string) (x : id_or_name) (action : string) : M RobotDB unit :=
  if level == LEVELSYSTEM then BaseAPI.RequireSystemAccess sc action [Rbac.ResourceRobot]
  else if level == LEVELPROJECT then BaseAPI.RequireProjectAccess sc x action [Rbac.ResourceRobot]
  else fail (ForbiddenError None).

Definition isValidLevel (l : string) : bool := (l == LEVELSYSTEM) || (l == LEVELPROJECT).
Definition isValidDuration (d : Z) : bool := (-1 <=? d) && (d <? 2147483647).
Definition validateName (name : string) : result unit :=
  if validProjectName name then Ok tt
  else Err (bad_request "robot name is not in lower case or contains illegal characters").

Definition validate (d : Z) (level : string) (permissions : list Permission) : result unit :=
  if negb (isValidDuration d) then Err (bad_request ("bad request error duration input: " +:+ pretty d))
  else if negb (isValidLevel level) then Err (bad_request ("bad request error level input: " +:+ level))
  else match permissions with
       | [] => Err (bad_request "bad request empty permission")
       | _ =>
           if existsb (λ p, match pm_Access p with [] => true | _ => false end) permissions
           then Err (bad_request "bad request empty access")
           else if (level == LEVELPROJECT) && (1 <? Z.of_nat (length permissions))
           then Err (bad_request "bad request permission")
           else Ok tt
       end.

(** The namespace of the first permission; the list is not empty after [validate]. *)
Definition first_namespace (l : list Permission) : string :=
  match l with p :: _ => pm_Namespace p | [] => EmptyString end.

Definition CreateRobot (ps : RobotParams) : M RobotDB (Robot * string) :=
  _ ← of_result (validateName (ps_Name ps));
  _ ← of_result (validate (ps_Duration ps) (ps_Level ps) (ps_Permissions ps));
  _ ← requireAccess (ps_Level ps) (ByName (first_namespace (ps_Permissions ps))) Rbac.ActionCreate;
  '(rid, pwd) ← robot_ctl.Create (mkRobot (mkRobotRow 0 (ps_Name ps) (ps_Description ps) EmptyString
       EmptyString (ps_Duration ps) 0 0 false true 0) EmptyString (ps_Level ps) false (ps_Permissions ps));
  created ← robot_ctl.Get rid false;
  mret (created, pwd).

Definition DeleteRobot (i : Z) : M RobotDB unit :=
  _ ← BaseAPI.RequireAuthenticated sc;
  r ← robot_ctl.Get i false;
  _ ← requireAccess (rb_Level r) (ByID (b_ProjectID (rb_Robot r))) Rbac.ActionDelete;
  x ← try (robot_ctl.Delete i);
  match x with
  | Ok _ => mret tt
  | Err e => if negb (rb_Editable r) && IsNotFoundErr e then mret tt else fail e
  end.

Definition getProjectID (x : id_or_name) : M RobotDB Z :=
  match x with
  | ByName _ => p ← on_projects (project_ctl.Get x (mkProjectOptions true false false false));
                mret (j_ProjectID (pv_Project p))
  | ByID id => mret id
  end.

Definition with_params (ps : RobotParams) (duration expiresAt : Z) (r : Robot) : Robot :=
  let b := rb_Robot r in
  mkRobot (mkRobotRow (b_ID b) (b_Name b) (ps_Description ps) (b_Secret b) (b_Salt b) duration (b_ProjectID b)
      expiresAt (ps_Disable ps) (b_Visible b) (b_CreationTime b))
    (rb_ProjectName r) (rb_Level r) (rb_Editable r)
    (match ps_Permissions ps with [] => rb_Permissions r | l => l end).

Definition updateV2Robot (ps : RobotParams) (r : Robot) : M RobotDB unit :=
  _ ← of_result (validate (ps_Duration ps) (ps_Level ps) (ps_Permissions ps));
  let x := ByName (first_namespace (ps_Permissions ps)) in
  _ ← (if negb (rb_Level r == LEVELSYSTEM)
       then projectID ← getProjectID x;
            if negb (b_ProjectID (rb_Robot r) =? projectID)
            then fail (bad_request "cannot update the project id of robot") else mret tt
       else mret tt);
  _ ← requireAccess (ps_Level ps) x Rbac.ActionUpdate;
  if negb (ps_Level ps == rb_Level r) || negb (ps_Name ps == b_Name (rb_Robot r))
  then fail (bad_request "cannot update the level or name of robot")
  else
    let b := rb_Robot r in
    let '(duration, expiresAt) :=
      if b_Duration b =? ps_Duration ps then (b_Duration b, b_ExpiresAt b)
      else robot_ctl.expiry (ps_Duration ps) (b_CreationTime b) in
    robot_ctl.Update (with_params ps duration expiresAt r) true.

Definition UpdateRobot (i : Z) (ps : RobotParams) : M RobotDB unit :=
  _ ← BaseAPI.RequireAuthenticated sc;
  r ← robot_ctl.Get i true;
  if negb (rb_Editable r) then fail (WithMessage (DeniedError None) "editing of legacy robot is not allowed")
  else updateV2Robot ps r.

Definition with_secret (secret : string) (r : Robot) : Robot :=
  let b := rb_Robot r in
  set_row (mkRobotRow (b_ID b) (b_Name b) (b_Description b) secret (b_Salt b) (b_Duration b) (b_ProjectID b)
             (b_ExpiresAt b) (b_Disabled b) (b_Visible b) (b_CreationTime b)) r.

(** The secret of the reply is empty when the caller chose it. *)
Definition RefreshSec (i : Z) (secret : string) : M RobotDB string :=
  _ ← BaseAPI.RequireAuthenticated sc;
  r ← robot_ctl.Get i false;
  _ ← requireAccess (rb_Level r) (ByID (b_ProjectID (rb_Robot r))) Rbac.ActionUpdate;
  '(hashed, answer) ←
    (if negb (secret == "")
     then if negb (IsValidSec secret)
          then fail (bad_request "the secret must longer than 8 chars with at least 1 uppercase letter, 1 lowercase letter and 1 number")
          else mret (Encrypt secret (b_Salt (rb_Robot r)), EmptyString)
     else '(sec, pwd, _) ← of_result (CreateSec (Some (b_Salt (rb_Robot r)))); mret (sec, pwd));
  _ ← robot_ctl.Update (with_secret hashed r) false;
  mret answer.

(** [projectAPI.DeleteProject] of [src/server/v2.0/handler/project.go] up to the
    deletion of the robots; [deletable] is the check that the project has no
    repositories. *)
Definition DeleteProject (deletable : Z → bool) (x : id_or_name) : M RobotDB unit :=
  _ ← BaseAPI.RequireProjectAccess sc x Rbac.ActionDelete [];
  p ← on_projects (project_ctl.Get x default_options);
  let id := j_ProjectID (pv_Project p) in
  if negb (deletable id) then fail (New "the project contains repositories, can not be deleted")
  else _ ← on_projects (project_ctl.Delete id); robot_dao.DeleteByProjectID id.

End api.
End robotAPI.

(** ** Authentication: [src/server/middleware/security/robot.go] *)

Section authentication.
Context {RC : RobotConfig}.

(** The robot of the security context, as [src/common/security/robot] reads it. *)
Definition to_context (r : Robot) : Security.RobotContext :=
  Security.robot_New (Some (Security.mkRobot (b_Name (rb_Robot r)) (rb_Level r)
    ((λ p, Security.mkPermission (pm_Scope p) (pm_Access p)) <$> rb_Permissions r))).

(** [None] is the nil context of a request that does not authenticate as a robot. *)
Definition Generate (basicAuth : option (string * string)) : M RobotDB (option Security.RobotContext) :=
  match basicAuth with
  | None => mret None
  | Some (name, secret) =>
      if negb (HasPrefix name RobotPrefix) then mret None
      else
        l ← try (robot_ctl.List (λ r, b_Name r = TrimPrefix name RobotPrefix) true);
        now ← clock;
        mret (match l with
              | Err _ | Ok [] => None
              | Ok (r :: _) =>
                  let b := rb_Robot r in
                  if negb (Encrypt secret (b_Salt b) == b_Secret b) then None
                  else if b_Disabled b then None
                  else if negb (b_ExpiresAt b =? -1) && (b_ExpiresAt b <=? now) then None
                  else Some (to_context r)
              end)
  end.

End authentication.
