(* ===== verification/RobotSpec.v ===== *)
(** * Robot accounts: the invariant of their tables, and what a created robot may do

    [robot_db_ok]: keys, unique constraints, the names of robots (a project-level
    robot carries the name of its live project), and permissions that only belong
    to robots that were created.  The requests of the API, each in its transaction,
    keep it.  A project-level robot that was created authenticates with the secret
    of the reply, and its context has exactly the accesses of the request, in its
    project. *)

From S2P Require Import Prelude GoErrors GoStrings Orm Retry Table Hoare ProjectStore ProjectSpec RobotStore.
From S2P Require Rbac Security.
From Stdlib Require Import Ascii.
Open Scope Z_scope.
Local Open Scope harbor_scope.

Definition plus_sign : Ascii.ascii := Ascii.ascii_of_N 43.

Definition same_robot (x y : RobotRow) : Prop := b_Name x = b_Name y ∧ b_ProjectID x = b_ProjectID y.
Definition same_permission (x y : RolePermission) : Prop :=
  rp_RoleType x = rp_RoleType y ∧ rp_RoleID x = rp_RoleID y ∧ rp_PermissionPolicyID x = rp_PermissionPolicyID y.
Definition same_policy (x y : PermissionPolicy) : Prop := pp_Scope x = pp_Scope y ∧ pp_Policy x = pp_Policy y.

#[export] Instance same_robot_sym : Symmetric same_robot.
Proof. intros x y []. by split. Qed.
#[export] Instance same_permission_sym : Symmetric same_permission.
Proof. intros x y (? & ? & ?). by split_and!. Qed.
#[export] Instance same_policy_sym : Symmetric same_policy.
Proof. intros x y []. by split. Qed.

(** The name of a system robot has no plus sign; that of a project robot starts with
    the name of a live project and a plus sign. *)
Definition robot_valid (P : table Project) (r : RobotRow) : Prop :=
  if b_ProjectID r =? 0 then validProjectName (b_Name r) = true
  else ∃ p n, rows P !! b_ProjectID r = Some p ∧ j_Deleted p = false ∧ b_Name r = j_Name p +:+ "+" +:+ n.

Definition permission_valid (last : Z) (pols : table PermissionPolicy) (x : RolePermission) : Prop :=
  rp_RoleID x <= last ∧ is_Some (rows pols !! rp_PermissionPolicyID x).

Record robot_db_ok (d : RobotDB) : Prop := mk_robot_db_ok {
  rk_proj : proj_ok (rproj d);
  rk_robots : tab_ok b_ID same_robot (robot_valid (projects (rproj d))) (robots d);
  rk_permissions : tab_ok rp_ID same_permission
      (permission_valid (seq (robots d)) (permission_policies d)) (role_permissions d);
  rk_policies : tab_ok pp_ID same_policy (λ _, True) (permission_policies d);
}.

(** ** Names *)

Lemma name_rest_plus s : ∀ b, name_rest b s = true → no_char plus_sign s = true.
Proof.
  induction s as [|c s IH]; intros b H; [done|]. cbn in H |- *. unfold no_char in *; simpl.
  destruct (decide (c = plus_sign)) as [->|Hc]; [done|]. rewrite bool_decide_eq_false_2 by exact Hc.
  destruct (alnum c); [by apply (IH false)|]. apply andb_prop in H as [_ H]. by apply (IH true).
Qed.

Lemma plus_prefix_inj a : ∀ b x y, no_char plus_sign a = true → no_char plus_sign b = true →
  a +:+ String plus_sign x = b +:+ String plus_sign y → a = b ∧ x = y.
Proof.
  induction a as [|c a IH]; intros [|c' b] x y Ha Hb He; simpl in *.
  - by injection He.
  - injection He as <- _. by vm_compute in Hb.
  - injection He as -> _. by vm_compute in Ha.
  - injection He as <- He. apply andb_prop in Ha as [_ Ha]. apply andb_prop in Hb as [_ Hb].
    by destruct (IH b x y Ha Hb He) as [-> ->].
Qed.

Lemma no_char_plus a x : no_char plus_sign (a +:+ String plus_sign x) = false.
Proof. unfold no_char. rewrite string_forall_app. by destruct (string_forall _ a). Qed.

(** A name identifies a robot, over all projects. *)
Lemma robot_names_unique d i j x y :
  robot_db_ok d → rows (robots d) !! i = Some x → rows (robots d) !! j = Some y → b_Name x = b_Name y → i = j.
Proof.
  intros Hok Hx Hy Hn. pose proof (rk_robots d Hok) as HR.
  apply (tab_unique _ _ _ _ HR i j x y Hx Hy). split; [done|].
  pose proof (tab_valid _ _ _ _ HR i x Hx) as Vx. pose proof (tab_valid _ _ _ _ HR j y Hy) as Vy.
  unfold robot_valid in Vx, Vy. pose proof (ok_projects _ (rk_proj d Hok)) as HP.
  assert (Hlive : ∀ k p, rows (projects (rproj d)) !! k = Some p → j_Deleted p = false → no_char plus_sign (j_Name p) = true).
  { intros k p Hp Hl. pose proof (tab_valid _ _ _ _ HP k p Hp) as V. unfold project_valid in V. rewrite Hl in V.
    by apply (name_rest_plus _ true), V. }
  destruct (b_ProjectID x =? 0) eqn:Ex, (b_ProjectID y =? 0) eqn:Ey.
  - apply Z.eqb_eq in Ex, Ey. congruence.
  - destruct Vy as (p & n & _ & _ & Hp). apply name_rest_plus in Vx. rewrite Hn, Hp in Vx.
    change ("+" +:+ n) with (String plus_sign n) in Vx. by rewrite no_char_plus in Vx.
  - destruct Vx as (p & n & _ & _ & Hp). apply name_rest_plus in Vy. rewrite <- Hn, Hp in Vy.
    change ("+" +:+ n) with (String plus_sign n) in Vy. by rewrite no_char_plus in Vy.
  - destruct Vx as (p & n & Hp & Lp & Np), Vy as (q & m & Hq & Lq & Nq). rewrite Np, Nq in Hn.
    apply plus_prefix_inj in Hn as [Hn _]; [|eauto..].
    exact (tab_unique _ _ _ _ HP _ _ p q Hp Hq Hn).
Qed.

(** ** Permissions *)

(** The robot [id] has the access [a] in the scope. *)
Definition granted (d : RobotDB) (id : Z) (scope : string) (a : Rbac.Policy) : Prop :=
  ∃ i x, rows (role_permissions d) !! i = Some x ∧ rbac_dao.of_role ROBOTTYPE id x ∧
         rbac_dao.joined d x = (scope, a).

(** Only the permission tables differ. *)
Definition same_accounts (d d' : RobotDB) : Prop := rproj d' = rproj d ∧ robots d' = robots d.

Lemma CreateRbacPolicy_spec scope a d0 : robot_db_ok d0 →
  spec (λ d, d = d0) (rbac_dao.CreateRbacPolicy scope a)
    (λ i d, robot_db_ok d ∧ same_accounts d0 d ∧ role_permissions d = role_permissions d0 ∧
       (∃ p, rows (permission_policies d) !! i = Some p ∧ pp_Scope p = scope ∧ pp_Policy p = a) ∧
       ∀ j p, rows (permission_policies d0) !! j = Some p → rows (permission_policies d) !! j = Some p)
    (λ _, True).
Proof.
  intros Hok. unfold rbac_dao.CreateRbacPolicy.
  eapply spec_bind; [by apply (spec_FromContext _ (λ _ d, d = d0))|intros []].
  apply spec_stmt; [|done]. intros d ->. destruct (head _) as [x|] eqn:E.
  - apply head_Some_elem_of in E. apply (elem_of_select_ok pp_ID) in E as [Hx [Hs Ha]]; [|apply (rk_policies d0 Hok)].
    split_and!; try done. by exists x.
  - apply head_None in E. destruct Hok as [Hp Hr Hm Hl].
    assert (Hg : ∀ j p, rows (permission_policies d0) !! j = Some p →
        rows (add_row (λ n, mkPermissionPolicy n scope a) (permission_policies d0)) !! j = Some p).
    { intros j p Hj. eapply lookup_add; [apply Hl|done]. }
    split_and!; try done; [|eexists; split; [simpl; apply lookup_insert_eq|done]].
    split; simpl; try done.
    + eapply tab_ok_mono; [exact Hm|]. intros i x _ [H1 [p H2]]. split; [done|]. exists p. by apply Hg.
    + apply (tab_ok_add _ _ _ _ _ _ Hl E); try done. by intros n x [].
Qed.

Lemma CreatePermission_spec id pid d0 : robot_db_ok d0 → id <= seq (robots d0) →
  is_Some (rows (permission_policies d0) !! pid) →
  spec (λ d, d = d0) (rbac_dao.CreatePermission ROBOTTYPE id pid)
    (λ _ d, robot_db_ok d ∧ same_accounts d0 d ∧ permission_policies d = permission_policies d0 ∧
       (∃ i, rows (role_permissions d) !! i = Some (mkRolePermission i ROBOTTYPE id pid)) ∧
       (∀ j x, rows (role_permissions d0) !! j = Some x → rows (role_permissions d) !! j = Some x) ∧
       (∀ j x, rows (role_permissions d) !! j = Some x → rows (role_permissions d0) !! j = Some x ∨
          x = mkRolePermission j ROBOTTYPE id pid))
    (λ _, True).
Proof.
  intros Hok Hid Hpid. unfold rbac_dao.CreatePermission.
  eapply spec_bind; [by apply (spec_FromContext _ (λ _ d, d = d0))|intros []].
  apply spec_stmt; [|done]. intros d ->. destruct (head _) as [x|] eqn:E.
  - apply head_Some_elem_of in E.
    apply (elem_of_select_ok rp_ID) in E as [Hx [[Ht Hr] Hp]]; [|apply (rk_permissions d0 Hok)].
    split_and!; try done; [|eauto]. exists (rp_ID x). rewrite Hx. destruct x; simpl in *. by subst.
  - apply head_None in E. destruct Hok as [Hp Hr Hm Hl]. split_and!; try done.
    + split; simpl; try done.
      apply (tab_ok_add _ _ _ _ _ _ Hm E); try done. by intros n x (? & ? & ?).
    + eexists. simpl. apply lookup_insert_eq.
    + intros j x Hj. eapply lookup_add; [apply Hm|done].
    + intros j x Hj. simpl in Hj. apply lookup_insert_Some in Hj as [[<- <-]|[_ Hj]]; eauto.
Qed.

(** Granting one access. *)
Lemma grant_step id pid scope a d d1 d2 p :
  robot_db_ok d → same_accounts d d1 → role_permissions d1 = role_permissions d →
  (∀ j q, rows (permission_policies d) !! j = Some q → rows (permission_policies d1) !! j = Some q) →
  rows (permission_policies d1) !! pid = Some p → pp_Scope p = scope → pp_Policy p = a →
  permission_policies d2 = permission_policies d1 →
  (∃ i, rows (role_permissions d2) !! i = Some (mkRolePermission i ROBOTTYPE id pid)) →
  (∀ j x, rows (role_permissions d1) !! j = Some x → rows (role_permissions d2) !! j = Some x) →
  (∀ j x, rows (role_permissions d2) !! j = Some x → rows (role_permissions d1) !! j = Some x ∨
     x = mkRolePermission j ROBOTTYPE id pid) →
  ∀ s b, granted d2 id s b ↔ granted d id s b ∨ s = scope ∧ b = a.
Proof.
  intros Hok _ Hrp Hg Hp <- <- Hpol [i Hi] Hkeep Hnew s b.
  assert (Hold : ∀ x j, rows (role_permissions d) !! j = Some x → rbac_dao.joined d2 x = rbac_dao.joined d x).
  { intros x j Hx. destruct (tab_valid _ _ _ _ (rk_permissions d Hok) j x Hx) as [_ [q Hq]].
    unfold rbac_dao.joined. rewrite Hpol, Hq. by rewrite (Hg _ _ Hq). }
  assert (Hthis : ∀ j, rbac_dao.joined d2 (mkRolePermission j ROBOTTYPE id pid) = (pp_Scope p, pp_Policy p)).
  { intros j. unfold rbac_dao.joined. simpl. by rewrite Hpol, Hp. }
  split.
  - intros (j & x & Hj & Hr & Hx). destruct (Hnew j x Hj) as [Hj'| ->].
    + left. rewrite Hrp in Hj'. exists j, x. rewrite <- (Hold x j Hj'). done.
    + right. rewrite Hthis in Hx. by injection Hx as -> ->.
  - intros [(j & x & Hj & Hr & Hx)|[-> ->]].
    + exists j, x. split_and!; [apply Hkeep; by rewrite Hrp|done|]. by rewrite (Hold x j Hj).
    + eexists i, _. split_and!; [done|done|apply Hthis].
Qed.

Lemma create_accesses_spec id scope l : ∀ d0, robot_db_ok d0 → id <= seq (robots d0) →
  spec (λ d, d = d0) (create_accesses id scope l)
    (λ _ d, robot_db_ok d ∧ same_accounts d0 d ∧
       ∀ s b, granted d id s b ↔ granted d0 id s b ∨ s = scope ∧ b ∈ l)
    (λ _, True).
Proof.
  induction l as [|a l IH]; intros d0 Hok Hid; simpl.
  { apply spec_ret. intros d ->. split_and!; [done..|]. intros s b. rewrite elem_of_nil. tauto. }
  eapply spec_bind; [by apply CreateRbacPolicy_spec|intros pid].
  apply spec_exact. intros d1 (Hok1 & Hs1 & Hrp & (p & Hp & Hps & Hpa) & Hg).
  assert (Hid1 : id <= seq (robots d1)) by by (destruct Hs1 as [_ ->]).
  eapply spec_bind; [apply CreatePermission_spec; eauto|intros i].
  apply spec_exact. intros d2 (Hok2 & Hs2 & Hpol & Hi & Hkeep & Hnew).
  assert (Hid2 : id <= seq (robots d2)) by by (destruct Hs2 as [_ ->]).
  eapply spec_post; [by apply (IH d2)|]. intros _ d3 (Hok3 & Hs3 & H3). split_and!; [done| |].
  - unfold same_accounts in *. intuition congruence.
  - intros s b. rewrite H3, (grant_step id pid scope a d0 d1 d2 p), elem_of_cons by done. tauto.
Qed.

Lemma toScope_reads p : reads (toScope p).
Proof.
  unfold reads, toScope. frame. apply reads_zoom; [by intros []|].
  unfold reads, project_mgr.Get, project_dao.GetByName. frame.
Qed.

Lemma createPermission_keeps id l : ∀ d0, robot_db_ok d0 → id <= seq (robots d0) →
  spec (λ d, d = d0) (createPermission id l) (λ _ d, robot_db_ok d ∧ same_accounts d0 d) (λ _, True).
Proof.
  induction l as [|p l IH]; intros d0 Hok Hid; simpl.
  { apply spec_ret. by intros d ->. }
  eapply spec_bind; [by apply spec_reads_E; [apply toScope_reads|]|].
  intros scope. eapply spec_bind; [by apply create_accesses_spec|intros u].
  apply spec_exact. intros d1 (Hok1 & Hs1 & _). eapply spec_post; [apply (IH d1); [done|]|].
  - by destruct Hs1 as [_ ->].
  - intros _ d2 [Hok2 Hs2]. split; [done|]. unfold same_accounts in *. intuition congruence.
Qed.

(** ** Creating a robot *)

Section creation.
Context {RC : RobotConfig}.

Lemma CreateSec_secret s secret pwd salt : CreateSec s = Ok (secret, pwd, salt) → secret = Encrypt pwd salt.
Proof. unfold CreateSec. destruct (Retry _ _ _) as [[]]; [|done]. destruct (db w). by intros [= <- <- <-]. Qed.

(** The project that a name stands for. *)
Definition names_project (d : RobotDB) (name : string) (p : Project) : Prop :=
  rows (projects (rproj d)) !! j_ProjectID p = Some p ∧ j_Deleted p = false ∧ j_Name p = name.

Lemma named_unique d name p q :
  proj_ok (rproj d) → names_project d name p → names_project d name q → p = q.
Proof.
  intros Hok (Hp & _ & Np) (Hq & _ & Nq).
  pose proof (tab_unique _ _ _ _ (ok_projects _ Hok) _ _ p q Hp Hq ltac:(by unfold same_project; congruence)) as He.
  congruence.
Qed.

Lemma Get_by_name_spec d0 name : proj_ok (rproj d0) →
  spec (λ d, d = d0) (on_projects (project_mgr.Get (ByName name))) (λ p d, d = d0 ∧ names_project d0 name p)
    (λ _, True).
Proof.
  intros Hok. apply spec_zoom. intros d ->. simpl. destruct (negb _); [by apply spec_fail|].
  unfold project_dao.GetByName. apply spec_Read; [|done]. intros e p -> Hp.
  apply head_Some_elem_of in Hp. apply (elem_of_select_ok j_ProjectID) in Hp as [Hp [Hn Hl]]; [|apply (ok_projects _ Hok)].
  split; [by destruct d0|done].
Qed.

(** What is known of the robot after [setProject]. *)
Definition placed (d : RobotDB) (r r' : Robot) : Prop :=
  rb_Level r' = rb_Level r ∧ rb_Permissions r' = rb_Permissions r ∧ b_Name (rb_Robot r') = b_Name (rb_Robot r) ∧
  b_Duration (rb_Robot r') = b_Duration (rb_Robot r) ∧
  if rb_Level r == LEVELPROJECT
  then ∃ p l pro, rb_Permissions r = p :: l ∧ names_project d (pm_Namespace p) pro ∧
         rb_ProjectName r' = j_Name pro ∧ b_ProjectID (rb_Robot r') = j_ProjectID pro
  else r' = r.

Lemma setProject_spec r d0 : robot_db_ok d0 →
  spec (λ d, d = d0) (setProject r) (λ r' d, d = d0 ∧ placed d0 r r') (λ _, True).
Proof.
  intros Hok. unfold setProject, placed. destruct (rb_Level r == LEVELPROJECT).
  - destruct (rb_Permissions r) as [|p l] eqn:Ep; [by apply spec_fail|].
    eapply spec_bind; [apply Get_by_name_spec, (rk_proj d0 Hok)|intros pro]. apply spec_ret.
    intros d [-> Hp]. split; [done|]. simpl. split_and!; try done. by exists p, l, pro.
  - apply spec_ret. by intros d ->.
Qed.

Lemma dao_Create_spec row d0 : robot_db_ok d0 → robot_valid (projects (rproj d0)) row →
  spec (λ d, d = d0) (robot_dao.Create row)
    (λ id d, robot_db_ok d ∧ rproj d = rproj d0 ∧ id = seq (robots d) ∧
       rows (robots d) !! id = Some (robot_dao.with_id id (robot_dao.created_at (pnow (rproj d0)) row)) ∧
       ∀ s b, ¬ granted d id s b)
    (λ _, True).
Proof.
  intros Hok Hv. unfold robot_dao.Create.
  eapply spec_bind; [by apply (spec_FromContext _ (λ _ d, d = d0))|intros []].
  eapply spec_bind.
  - apply spec_try. apply (spec_stmt _ _ (λ id d, robot_db_ok d ∧ rproj d = rproj d0 ∧ id = seq (robots d) ∧
       rows (robots d) !! id = Some (robot_dao.with_id id (robot_dao.created_at (pnow (rproj d0)) row)) ∧
       ∀ s b, ¬ granted d id s b) (λ _, True)); [|done]. intros d ->.
    destruct (decide _) as [E|]; [|done]. destruct Hok as [Hp Hr Hm Hl]. split_and!; try done.
    + split; simpl; try done.
      * apply (tab_ok_add _ _ _ _ _ _ Hr E); try done. by intros n x [].
      * eapply tab_ok_mono; [exact Hm|]. intros i x _ [H1 H2]. split; [|done]. unfold next. lia.
    + simpl. apply lookup_insert_eq.
    + intros s b (i & x & Hx & [_ Hid] & _). simpl in Hx.
      destruct (tab_valid _ _ _ _ Hm i x Hx) as [Hle _]. unfold next in Hid. lia.
  - intros [id|e]; [by apply spec_ret|by apply spec_fail].
Qed.

(** The row that [Create] makes. *)
Definition new_robot (r' : Robot) (now : Z) (pwd : string) (x : RobotRow) : Prop :=
  b_Name x = (if rb_Level r' == LEVELPROJECT then rb_ProjectName r' +:+ "+" +:+ b_Name (rb_Robot r')
              else b_Name (rb_Robot r')) ∧
  b_ProjectID x = b_ProjectID (rb_Robot r') ∧ b_Secret x = Encrypt pwd (b_Salt x) ∧ b_Disabled x = false ∧
  b_ExpiresAt x = (robot_ctl.expiry (b_Duration (rb_Robot r')) now).2.

Lemma Create_rule r d0 (Q : Z * string → RobotDB → Prop) : robot_db_ok d0 →
  (rb_Level r ≠ LEVELPROJECT → b_ProjectID (rb_Robot r) = 0 ∧ validProjectName (b_Name (rb_Robot r)) = true) →
  (∀ r' id pwd x d1, placed d0 r r' → new_robot r' (pnow (rproj d0)) pwd x → robot_db_ok d1 → rproj d1 = rproj d0 →
     id = seq (robots d1) → rows (robots d1) !! id = Some x → (∀ s b, ¬ granted d1 id s b) →
     spec (λ d, d = d1) (createPermission id (rb_Permissions r)) (λ _, Q (id, pwd)) (λ _, True)) →
  spec (λ d, d = d0) (robot_ctl.Create r) Q (λ _, True).
Proof.
  intros Hok Hsys HQ. unfold robot_ctl.Create.
  eapply spec_bind; [by apply setProject_spec|intros r']. apply spec_exact. intros d [-> Hpl].
  eapply (spec_bind _ _ (λ now d, d = d0 ∧ now = pnow (rproj d0))).
  { intros w x w' Hw [= <- <-]. by rewrite Hw. }
  intros now. apply spec_exact. intros d [-> ->].
  destruct (robot_ctl.expiry _ _) as [duration expiresAt] eqn:Ee.
  eapply (spec_bind _ _ (λ x d, d = d0 ∧ x.1.1 = Encrypt x.1.2 x.2)).
  { apply spec_of_result; [|done]. intros [[secret pwd] salt] d Hx ->. by apply CreateSec_secret in Hx. }
  intros [[secret pwd] salt]. apply spec_exact. intros d [-> Hsec]. simpl in Hsec.
  set (name := if _ : bool then _ else _).
  eapply spec_bind; [apply dao_Create_spec; [done|]|intros id].
  { destruct Hpl as (HL & _ & HN & _ & Hpl). unfold robot_valid. simpl. unfold name. rewrite HL.
    destruct (rb_Level r == LEVELPROJECT) eqn:El.
    - destruct Hpl as (p & l & pro & _ & (Hp & Hlive & Hn) & -> & ->).
      destruct (tab_keys _ _ _ _ (ok_projects _ (rk_proj d0 Hok)) _ _ Hp) as [_ Hpos].
      destruct (j_ProjectID pro =? 0) eqn:E0; [apply Z.eqb_eq in E0; lia|]. by exists pro, (b_Name (rb_Robot r')).
    - subst r'. destruct Hsys as [-> Hs]; [by apply bool_decide_eq_false in El|]. done. }
  apply spec_exact. intros d1 (Hok1 & Hp1 & Hid & Hrow & Hno).
  destruct Hpl as (HL & HP & Hpl'). rewrite HP.
  eapply spec_bind; [eapply (HQ r' id pwd); try done|].
  - split_and!; try done. simpl. by rewrite Ee.
  - intros u. apply spec_ret. by intros d Hd.
Qed.

(** The scope of a permission whose namespace is the name of a project. *)
Lemma toScope_named d0 p pro : robot_db_ok d0 → names_project d0 (pm_Namespace p) pro →
  spec (λ d, d = d0) (toScope p) (λ s d, d = d0 ∧ s = Rbac.project_path (j_ProjectID pro)) (λ _, True).
Proof.
  intros Hok Hp. pose proof (rk_proj d0 Hok) as Hpr.
  assert (Hv : validProjectName (pm_Namespace p) = true).
  { destruct Hp as (Hp & Hl & <-). pose proof (tab_valid _ _ _ _ (ok_projects _ Hpr) _ _ Hp) as V.
    unfold project_valid in V. rewrite Hl in V. apply V. }
  unfold toScope. destruct (pm_Kind p == LEVELSYSTEM).
  { destruct (pm_Namespace p == "/") eqn:E; [|by apply spec_fail].
    apply bool_decide_eq_true in E. rewrite E in Hv. done. }
  destruct (pm_Kind p == LEVELPROJECT); [|by apply spec_fail].
  destruct (pm_Namespace p == "*") eqn:E.
  { apply bool_decide_eq_true in E. rewrite E in Hv. done. }
  eapply spec_bind; [by apply Get_by_name_spec|intros q]. apply spec_ret. intros d [-> Hq].
  by rewrite (named_unique _ _ _ _ Hpr Hp Hq).
Qed.

(** What [Create] leaves for a robot of a project with one permission. *)
Definition robot_created (d0 d : RobotDB) (r : Robot) (p : Permission) (id : Z) (pwd : string) : Prop :=
  robot_db_ok d ∧ rproj d = rproj d0 ∧ ∃ pro x,
    names_project d (pm_Namespace p) pro ∧ rows (robots d) !! id = Some x ∧
    b_Name x = j_Name pro +:+ "+" +:+ b_Name (rb_Robot r) ∧ b_ProjectID x = j_ProjectID pro ∧
    b_Secret x = Encrypt pwd (b_Salt x) ∧ b_Disabled x = false ∧
    b_ExpiresAt x = (robot_ctl.expiry (b_Duration (rb_Robot r)) (pnow (rproj d0))).2 ∧
    ∀ s a, granted d id s a ↔ s = Rbac.project_path (j_ProjectID pro) ∧ a ∈ pm_Access p.

Lemma Create_project_spec r p d0 : robot_db_ok d0 → rb_Level r = LEVELPROJECT → rb_Permissions r = [p] →
  spec (λ d, d = d0) (robot_ctl.Create r) (λ x d, robot_created d0 d r p x.1 x.2) (λ _, True).
Proof.
  intros Hok HL HP. apply Create_rule; [done|congruence|].
  intros r' id pwd x d1 (HL' & HP' & HN & HD & Hpl) (Nx & Px & Sx & Dx & Ex) Hok1 Hpr Hid Hx Hno.
  rewrite HL', HL, bool_decide_true in Nx by done. rewrite HL, bool_decide_true in Hpl by done.
  destruct Hpl as (q & l & pro & HPq & Hpro & HNq & HIq). rewrite HP in HPq. injection HPq as <- <-.
  assert (Hpro1 : names_project d1 (pm_Namespace p) pro) by by (unfold names_project; rewrite Hpr).
  rewrite HP. simpl. eapply spec_bind; [by apply (toScope_named d1)|intros scope].
  apply spec_exact. intros d [-> ->].
  eapply spec_bind; [apply (create_accesses_spec id _ _ d1); [done|lia]|intros u].
  apply spec_ret. intros d (Hok2 & [Hp2 Hr2] & Hg). split_and!; [done|by rewrite Hp2|].
  exists pro, x. split_and!.
  - unfold names_project. by rewrite Hp2.
  - by rewrite Hr2.
  - by rewrite Nx, HNq, HN.
  - by rewrite Px.
  - done.
  - done.
  - by rewrite Ex, HD.
  - intros s a. rewrite Hg. pose proof (Hno s a). tauto.
Qed.

Lemma Create_keeps r d0 : robot_db_ok d0 →
  (rb_Level r ≠ LEVELPROJECT → b_ProjectID (rb_Robot r) = 0 ∧ validProjectName (b_Name (rb_Robot r)) = true) →
  spec (λ d, d = d0) (robot_ctl.Create r) (λ _, robot_db_ok) (λ _, True).
Proof.
  intros Hok Hs. apply Create_rule; [done|done|]. intros r' id pwd x d1 _ _ Hok1 _ Hid _ _.
  eapply spec_post; [apply createPermission_keeps; [done|lia]|]. by intros u d [].
Qed.
End creation.

(** ** Authenticating *)

Lemma add_access_single s l : ∀ acc, (∀ x, x ∈ l → x.1 = s) →
  foldl (λ m '(scope, a), add_access scope a m) [(s, acc)] l = [(s, acc ++ l.*2)].
Proof.
  induction l as [|[t a] l IH]; intros acc Hl; simpl; [by rewrite app_nil_r|].
  assert (t = s) as -> by by apply (Hl (t, a)); left.
  rewrite decide_True by done. rewrite IH; [by rewrite <- app_assoc|]. intros x Hx. apply Hl. by right.
Qed.

Lemma accessMap_single s l : (∀ x, x ∈ l → x.1 = s) →
  accessMap l = match l with [] => [] | _ => [(s, l.*2)] end.
Proof.
  intros Hl. destruct l as [|[t a] l]; [done|]. unfold accessMap. simpl.
  assert (t = s) as -> by by apply (Hl (t, a)); left.
  rewrite add_access_single; [done|]. intros x Hx. apply Hl. by right.
Qed.

Lemma until_slash_no s : no_char "/"%char s = true → Rbac.until_slash s = s.
Proof.
  induction s as [|c s IH]; [done|]. unfold no_char. simpl. intros H. apply andb_prop in H as [Hc Hs].
  apply negb_true_iff in Hc. rewrite Hc. by rewrite IH.
Qed.

Lemma project_path_parse id : in_int64 id →
  Rbac.project_NamespaceParse (Rbac.project_path id) = Some (Rbac.ProjectNS id).
Proof.
  intros Hid. unfold Rbac.project_NamespaceParse, Rbac.project_path.
  rewrite HasPrefix_app, TrimPrefix_app.
  rewrite (until_slash_no _ (Rbac.number_no_slash _ (pretty_Z_chars id))).
  by rewrite ParseInt_pretty.
Qed.

Local Notation quiet d := (mkWorld d true []).

Section authentication.
Context {RC : RobotConfig}.

Lemma convertScope_quiet d pro :
  rows (projects (rproj d)) !! j_ProjectID pro = Some pro → j_Deleted pro = false → in_int64 (j_ProjectID pro) →
  convertScope (Rbac.project_path (j_ProjectID pro)) (quiet d) = (Ok (LEVELPROJECT, j_Name pro), quiet d).
Proof.
  intros Hp Hl Hid. unfold convertScope.
  destruct (Rbac.project_path _ == "") eqn:E1; [by apply bool_decide_eq_true in E1|].
  destruct (Rbac.project_path _ == SCOPESYSTEM) eqn:E2; [by apply bool_decide_eq_true in E2|].
  destruct (Rbac.project_path _ == SCOPEALLPROJECT) eqn:E3.
  { apply bool_decide_eq_true in E3. pose proof (project_path_parse _ Hid) as HH. by rewrite E3 in HH. }
  rewrite project_path_parse by done. unfold on_projects.
  rewrite bind_eq, (zoom_eq _ _ _ d true [] (Ok pro) (rproj d) true []).
  - by destruct d.
  - simpl. by apply Get_quiet.
Qed.

(** What the permission rows of a robot of one project turn into. *)
Lemma populatePermissions_quiet d id pro (accs : list Rbac.Policy) :
  names_project d (j_Name pro) pro → in_int64 (j_ProjectID pro) →
  (∀ s a, granted d id s a ↔ s = Rbac.project_path (j_ProjectID pro) ∧ a ∈ accs) →
  ∃ ps, populatePermissions id (quiet d) = (Ok ps, quiet d) ∧
    (∀ p, p ∈ ps → pm_Scope p = Rbac.project_path (j_ProjectID pro)) ∧
    (∀ a, (∃ p, p ∈ ps ∧ a ∈ pm_Access p) ↔ a ∈ accs).
Proof.
  intros (Hp & Hl & _) Hid Hg. unfold populatePermissions, rbac_dao.GetPermissionsByRole, FromContext. mrun.
  set (l := rbac_dao.joined d <$> _).
  assert (Hel : ∀ s a, (s, a) ∈ l ↔ granted d id s a).
  { intros s a. unfold l. rewrite list_elem_of_fmap. unfold granted. split.
    - intros (x & Hx & Hin). apply elem_of_select in Hin as (i & Hi & Hr). eauto 10.
    - intros (i & x & Hi & Hr & Hx). exists x. split; [done|]. apply elem_of_select. eauto. }
  assert (Hs : ∀ x, x ∈ l → x.1 = Rbac.project_path (j_ProjectID pro)).
  { intros [s a] Hx. by apply Hel, Hg in Hx as [-> _]. }
  rewrite (accessMap_single _ l Hs). destruct l as [|y l'] eqn:El; simpl.
  - exists []. split_and!; [done|by intros p ?%elem_of_nil|]. intros a. split.
    + intros (p & ?%elem_of_nil & _). done.
    + intros Ha. assert (granted d id (Rbac.project_path (j_ProjectID pro)) a) as Ha' by (apply Hg; done).
      apply Hel in Ha'. by apply elem_of_nil in Ha'.
  - unfold try. rewrite bind_eq. rewrite convertScope_quiet by done. simpl. mrun. eexists. split_and!; [done| |].
    + by intros p ->%list_elem_of_singleton.
    + intros a. split.
      * intros (p & ->%list_elem_of_singleton & Ha). simpl in Ha. rewrite <- fmap_cons in Ha.
        apply list_elem_of_fmap in Ha as ([s b] & -> & Hin). by apply Hel, Hg in Hin as [_ ?].
      * intros Ha. eexists. split; [by apply list_elem_of_singleton|]. simpl. rewrite <- fmap_cons.
        apply list_elem_of_fmap. exists (Rbac.project_path (j_ProjectID pro), a). split; [done|]. by apply Hel, Hg.
Qed.

Lemma expiry_later duration now :
  (∀ t n, 0 < n → t < AddDays t n) → 0 < RobotTokenDuration → -1 <= duration →
  let t := (robot_ctl.expiry duration now).2 in negb (t =? -1) && (t <=? now) = false.
Proof.
  intros Hadd Hd Hge. unfold robot_ctl.expiry. destruct (duration =? -1) eqn:E1; [done|].
  apply Z.eqb_neq in E1. destruct (duration =? 0) eqn:E0; simpl.
  - pose proof (Hadd now RobotTokenDuration Hd). destruct (AddDays _ _ <=? now) eqn:E; [lia|by rewrite andb_false_r].
  - apply Z.eqb_neq in E0. pose proof (Hadd now duration ltac:(lia)).
    destruct (AddDays _ _ <=? now) eqn:E; [lia|by rewrite andb_false_r].
Qed.

(** The robot of a name. *)
Lemma List_by_name_quiet d id x :
  robot_db_ok d → rows (robots d) !! id = Some x →
  robot_dao.List (λ r, b_Name r = b_Name x) (quiet d) = (Ok [x], quiet d).
Proof.
  intros Hok Hx. unfold robot_dao.List, FromContext. mrun. do 2 f_equal.
  pose proof (rk_robots d Hok) as HR.
  assert (Hel : ∀ y, y ∈ select (λ r, b_Name r = b_Name x) (robots d) ↔ y = x).
  { intros y. rewrite elem_of_select. split.
    - intros (i & Hi & Hn). pose proof (robot_names_unique d i id y x Hok Hi Hx Hn). congruence.
    - intros ->. eauto. }
  assert (Hnd : NoDup (select (λ r, b_Name r = b_Name x) (robots d))).
  { eapply NoDup_select, tab_keys, HR. }
  destruct (select _ _) as [|y [|z l]].
  - exfalso. assert (x ∈ @nil RobotRow) as H by by apply Hel. by apply elem_of_nil in H.
  - f_equal. apply Hel. left.
  - exfalso. assert (y = x) as -> by (apply Hel; left). assert (z = x) as -> by (apply Hel; right; left).
    apply NoDup_cons in Hnd as [Hn _]. apply Hn. left.
Qed.
End authentication.

(** ** Every request keeps the invariant *)

Lemma project_ctl_Get_reads x o : reads (project_ctl.Get x o).
Proof.
  unfold reads, project_ctl.Get, project_mgr.Get, project_dao.Get, project_dao.GetByName,
    project_ctl.assembleProject, meta_mgr.Get, meta_dao.List, allowlist.GetSys, allowlist.Get,
    allowlist.QueryByProjectID. frame.
Qed.

Lemma on_projects_reads {A} (m : M ProjDB A) : reads m → reads (on_projects m).
Proof. apply reads_zoom. by intros []. Qed.

Lemma on_projects_Get_reads x o : reads (on_projects (project_ctl.Get x o)).
Proof. apply on_projects_reads, project_ctl_Get_reads. Qed.

Lemma on_projects_mgr_Get_reads x : reads (on_projects (project_mgr.Get x)).
Proof.
  apply on_projects_reads. unfold reads, project_mgr.Get, project_dao.Get, project_dao.GetByName. frame.
Qed.

Lemma on_projects_GetByName_reads x o : reads (on_projects (project_ctl.GetByName x o)).
Proof. apply on_projects_reads. unfold reads, project_ctl.GetByName. frame. apply project_ctl_Get_reads. Qed.

Lemma requireAccess_reads sc l x a : reads (robotAPI.requireAccess sc l x a).
Proof.
  unfold reads, robotAPI.requireAccess, BaseAPI.RequireSystemAccess, BaseAPI.RequireProjectAccess,
    BaseAPI.HasProjectPermission. frame. apply on_projects_GetByName_reads.
Qed.

Lemma RequireProjectAccess_reads sc x a l : reads (BaseAPI.RequireProjectAccess sc x a l).
Proof.
  unfold reads, BaseAPI.RequireProjectAccess, BaseAPI.HasProjectPermission. frame.
  apply on_projects_GetByName_reads.
Qed.

Lemma RequireAuthenticated_reads sc : reads (BaseAPI.RequireAuthenticated sc).
Proof. unfold reads, BaseAPI.RequireAuthenticated. frame. Qed.

Section requests.
Context {RC : RobotConfig}.

Lemma convertScope_reads s : reads (convertScope s).
Proof. unfold reads, convertScope. frame. apply on_projects_mgr_Get_reads. Qed.

Lemma convert_all_reads l : reads (convert_all l).
Proof.
  unfold reads. induction l as [|[s a] l IH]; simpl; frame; try done. apply convertScope_reads.
Qed.

Lemma robot_ctl_Get_reads i b : reads (robot_ctl.Get i b).
Proof.
  unfold reads, robot_ctl.Get, robot_dao.Get, populate, populatePermissions, rbac_dao.GetPermissionsByRole.
  frame. apply convert_all_reads.
Qed.

(** Replacing one of the tables. *)
Lemma robot_db_ok_set_robots X d : robot_db_ok d →
  tab_ok b_ID same_robot (robot_valid (projects (rproj d))) X → seq X = seq (robots d) →
  robot_db_ok (set_robots X d).
Proof. intros [] HX Hs. split; simpl; try done. by rewrite Hs. Qed.

Lemma robot_dao_Delete_keeps i : keeps robot_db_ok (robot_dao.Delete i).
Proof.
  unfold robot_dao.Delete. apply keeps_affect. intros d d' Hd H. apply bind_Some in H as (x & Hx & H).
  injection H as <-. apply robot_db_ok_set_robots; [done| |done]. apply tab_ok_del, (rk_robots d Hd).
Qed.

Lemma DeletePermissionsByRole_keeps t i : keeps robot_db_ok (rbac_dao.DeletePermissionsByRole t i).
Proof.
  unfold rbac_dao.DeletePermissionsByRole. apply keeps_affect. intros d d' Hd H.
  destruct (select _ _); [done|]. injection H as <-. destruct Hd. split; simpl; try done. by apply tab_ok_dels.
Qed.

Lemma robot_ctl_Delete_keeps i : keeps robot_db_ok (robot_ctl.Delete i).
Proof.
  unfold robot_ctl.Delete. apply keeps_bind; [apply robot_dao_Delete_keeps|]. intros _.
  apply DeletePermissionsByRole_keeps.
Qed.

Lemma DeleteRobot_keeps sc i : keeps robot_db_ok (robotAPI.DeleteRobot sc i).
Proof.
  unfold robotAPI.DeleteRobot. keeps_auto; try apply robot_ctl_Delete_keeps; apply keeps_reads;
    auto using RequireAuthenticated_reads, robot_ctl_Get_reads, requireAccess_reads.
Qed.

(** [Update] keeps the name and the project, and only succeeds on an existing robot. *)
Lemma robot_dao_Update_spec r d0 : robot_db_ok d0 →
  spec (λ d, d = d0) (robot_dao.Update r) (λ _ d, robot_db_ok d ∧ b_ID r <= seq (robots d)) (λ _, True).
Proof.
  intros Hok. unfold robot_dao.Update. apply spec_affect; [|done]. intros d d' -> H.
  apply bind_Some in H as (x & Hx & H). injection H as <-. pose proof (rk_robots d0 Hok) as HR.
  destruct (tab_keys _ _ _ _ HR _ _ Hx) as [Hk Hle]. split; [|simpl; lia].
  apply robot_db_ok_set_robots; [done| |done].
  apply (tab_ok_put _ _ _ _ x _ _ HR Hx); [done|by intros y []|].
  exact (tab_valid _ _ _ _ HR _ _ Hx).
Qed.

Lemma robot_ctl_Update_keeps r b d0 : robot_db_ok d0 →
  spec (λ d, d = d0) (robot_ctl.Update r b) (λ _, robot_db_ok) (λ _, True).
Proof.
  intros Hok. unfold robot_ctl.Update. eapply spec_bind; [by apply robot_dao_Update_spec|intros u].
  destruct b; [|apply spec_ret; by intros d []].
  eapply (spec_bind _ _ (λ _ d, robot_db_ok d ∧ b_ID (rb_Robot r) <= seq (robots d))).
  - unfold rbac_dao.DeletePermissionsByRole. apply spec_affect; [|done]. intros d d' [Hd Hs] H.
    destruct (select _ _); [done|]. injection H as <-. split; [|done].
    destruct Hd. split; simpl; try done. by apply tab_ok_dels.
  - intros u'. apply spec_exact. intros d [Hd Hs].
    eapply spec_post; [by apply createPermission_keeps|]. by intros ? ? [].
Qed.

Lemma spec_skip {A B} P (m : M RobotDB A) (k : A → M RobotDB B) Q :
  reads m → (∀ a, spec P (k a) Q (λ _, True)) → spec P (m ≫= k) Q (λ _, True).
Proof. intros Hm Hk. eapply spec_bind; [by apply (spec_reads_E _ _ _ Hm)|done]. Qed.

Lemma of_result_reads {A} (x : result A) : reads (of_result x : M RobotDB A).
Proof. unfold reads. frame. Qed.

Lemma UpdateRobot_keeps sc i ps d0 : robot_db_ok d0 →
  spec (λ d, d = d0) (robotAPI.UpdateRobot sc i ps) (λ _, robot_db_ok) (λ _, True).
Proof.
  intros Hok. unfold robotAPI.UpdateRobot, robotAPI.updateV2Robot.
  apply spec_skip; [apply RequireAuthenticated_reads|intros _].
  apply spec_skip; [apply robot_ctl_Get_reads|intros r]. spec_if; [by apply spec_fail|].
  apply spec_skip; [apply of_result_reads|intros _]. apply spec_skip.
  { unfold reads, robotAPI.getProjectID. frame. apply on_projects_Get_reads. }
  intros _. apply spec_skip; [apply requireAccess_reads|intros _]. spec_if; [by apply spec_fail|].
  destruct (if _ : bool then _ else _). by apply robot_ctl_Update_keeps.
Qed.

Lemma RefreshSec_keeps sc i s d0 : robot_db_ok d0 →
  spec (λ d, d = d0) (robotAPI.RefreshSec sc i s) (λ _, robot_db_ok) (λ _, True).
Proof.
  intros Hok. unfold robotAPI.RefreshSec.
  apply spec_skip; [apply RequireAuthenticated_reads|intros _].
  apply spec_skip; [apply robot_ctl_Get_reads|intros r].
  apply spec_skip; [apply requireAccess_reads|intros _].
  apply spec_skip; [unfold reads; frame; by intros []|intros [hashed answer]].
  eapply spec_bind; [by apply robot_ctl_Update_keeps|intros u]. by apply spec_ret.
Qed.

Lemma validate_project d l ps : robotAPI.validate d l ps = Ok tt →
  -1 <= d ∧ (l = LEVELSYSTEM ∨ l = LEVELPROJECT ∧ ∃ p, ps = [p] ∧ pm_Access p ≠ []).
Proof.
  unfold robotAPI.validate, robotAPI.isValidDuration, robotAPI.isValidLevel.
  destruct (_ && _) eqn:E1; [|done]. apply andb_prop in E1 as [E1 _]. apply Z.leb_le in E1. simpl.
  destruct (l == LEVELSYSTEM) eqn:E2; simpl.
  { apply bool_decide_eq_true in E2. auto. }
  destruct (l == LEVELPROJECT) eqn:E3; simpl; [|done]. apply bool_decide_eq_true in E3.
  destruct ps as [|p [|q ps]]; [done| |]; simpl.
  - rewrite orb_false_r. destruct (pm_Access p) eqn:Ea; [done|]. intros _. split; [done|]. right.
    split; [done|]. exists p. by rewrite Ea.
  - destruct (_ || _); [done|]. destruct (1 <? _) eqn:E; [done|]. apply Z.ltb_ge in E. lia.
Qed.

Lemma CreateRobot_keeps sc ps d0 : robot_db_ok d0 →
  spec (λ d, d = d0) (robotAPI.CreateRobot sc ps) (λ _, robot_db_ok) (λ _, True).
Proof.
  intros Hok. unfold robotAPI.CreateRobot.
  eapply (spec_bind _ _ (λ _ d, d = d0 ∧ validProjectName (ps_Name ps) = true)).
  { apply spec_of_result; [|done]. intros [] d H ->. unfold robotAPI.validateName in H. by destruct (validProjectName _). }
  intros []. apply spec_exact. intros d [-> Hn].
  eapply (spec_bind _ _ (λ _ d, d = d0 ∧ (ps_Level ps = LEVELSYSTEM ∨ ps_Level ps = LEVELPROJECT))).
  { apply spec_of_result; [|done]. intros [] d H ->. apply validate_project in H as [_ H]. naive_solver. }
  intros []. apply spec_exact. intros d [-> Hl].
  apply spec_skip; [apply requireAccess_reads|intros _].
  eapply spec_bind; [apply Create_keeps; [done|]|].
  - by intros _.
  - intros [id pwd]. apply spec_skip; [apply robot_ctl_Get_reads|intros r]. by apply spec_ret.
Qed.

(** Deleting a project leaves the rows of the others. *)
Definition others (id : Z) (e e' : ProjDB) : Prop :=
  ∀ i p, i ≠ id → rows (projects e) !! i = Some p → rows (projects e') !! i = Some p.
#[local] Instance others_preorder id : PreOrder (others id).
Proof. split; [by intros e i p|]. intros e1 e2 e3 H1 H2 i p Hi Hp. auto. Qed.

Lemma project_Delete_others id : preserves (others id) (project_ctl.Delete id).
Proof.
  unfold project_ctl.Delete, project_mgr.Delete, project_dao.Delete, project_dao.Get. frame.
  - eapply preserves_weaken; [|apply project_ctl_Get_reads]. intros e e' ->. reflexivity.
  - apply preserves_stmt; [apply _|]. intros e. destruct (rows (projects e) !! id); [|reflexivity].
    destruct (decide _); [|reflexivity]. intros i q Hi Hq. simpl. by rewrite lookup_insert_ne.
Qed.

Lemma DeleteProject_keeps sc f x d0 : robot_db_ok d0 →
  spec (λ d, d = d0) (robotAPI.DeleteProject sc f x) (λ _, robot_db_ok) (λ _, True).
Proof.
  intros Hok. unfold robotAPI.DeleteProject.
  apply spec_skip; [apply RequireProjectAccess_reads|intros _].
  apply spec_skip; [apply on_projects_Get_reads|intros p]. spec_if; [by apply spec_fail|].
  set (id := j_ProjectID (pv_Project p)).
  eapply (spec_bind _ _ (λ _ d, ∃ e, d = set_rproj e d0 ∧ proj_ok e ∧ others id (rproj d0) e)).
  - intros w r w' Hw H. destruct r; [|done]. apply zoom_inv in H as (w1 & Hm & ->). rewrite Hw in *.
    exists (db w1). split_and!; [done| |].
    + exact (project_ctl_Delete_keeps id (mkWorld _ _ _) _ _ (rk_proj d0 Hok) Hm).
    + exact (project_Delete_others id _ _ _ Hm).
  - intros u. apply spec_exact. intros d (e & -> & He & Ho). unfold robot_dao.DeleteByProjectID.
    eapply spec_bind; [by apply (spec_FromContext _ (λ _ d, d = set_rproj e d0))|intros []].
    apply spec_stmt; [|done]. intros d ->. destruct Hok as [Hp Hr Hm Hl]. split; simpl; try done.
    eapply tab_ok_mono; [by apply tab_ok_dels|]. intros i r Hi Hv. apply lookup_dels in Hi as [Hi Hne].
    unfold robot_valid in *. destruct (_ =? 0); [done|]. destruct Hv as (q & n & Hq & Hlive & Hn).
    exists q, n. split_and!; try done. by apply Ho.
Qed.
End requests.

(** ** The machine *)

Inductive request :=
  | CreateRobot (ps : RobotParams)
  | DeleteRobot (i : Z)
  | UpdateRobot (i : Z) (ps : RobotParams)
  | RefreshSec (i : Z) (secret : string)
  | DeleteProject (deletable : Z → bool) (x : id_or_name).

Section machine.
Context {RC : RobotConfig}.

(** Requests run in a transaction that an error reply rolls back. *)
Definition serve (sc : option SecCtx) (q : request) : M RobotDB unit :=
  WithTransaction
    match q with
    | CreateRobot ps => _ ← robotAPI.CreateRobot sc ps; mret tt
    | DeleteRobot i => robotAPI.DeleteRobot sc i
    | UpdateRobot i ps => robotAPI.UpdateRobot sc i ps
    | RefreshSec i s => _ ← robotAPI.RefreshSec sc i s; mret tt
    | DeleteProject f x => robotAPI.DeleteProject sc f x
    end.

(** What else happens to the tables of projects keeps their invariant and the rows
    of live projects. *)
Definition project_change (e e' : ProjDB) : Prop :=
  proj_ok e' ∧ ∀ i p, rows (projects e) !! i = Some p → j_Deleted p = false → rows (projects e') !! i = Some p.

Inductive robot_step : RobotDB → RobotDB → Prop :=
  | step_request sc q d ctx fs r w : serve sc q (mkWorld d ctx fs) = (r, w) → robot_step d (db w)
  | step_project d e : project_change (rproj d) e → robot_step d (set_rproj e d).

Lemma serve_keeps sc q d0 : robot_db_ok d0 → spec (λ d, d = d0) (serve sc q) (λ _, robot_db_ok) robot_db_ok.
Proof.
  intros Hok. apply (spec_WithTransaction _ _ _ _ (λ _, True)); [|by intros d ->]. destruct q.
  - eapply spec_bind; [by apply CreateRobot_keeps|intros a]. by apply spec_ret.
  - eapply spec_conseq; [apply DeleteRobot_keeps| | |]; simpl; [by intros d ->|done|done].
  - by apply UpdateRobot_keeps.
  - eapply spec_bind; [by apply RefreshSec_keeps|intros a]. by apply spec_ret.
  - by apply DeleteProject_keeps.
Qed.

Lemma robot_steps_ok d d' : rtc robot_step d d' → robot_db_ok d → robot_db_ok d'.
Proof.
  induction 1 as [|x y z Hs _ IH]; [done|]. intros Hx. apply IH.
  destruct Hs as [sc q x ctx fs r w H|x e [He Hk]].
  - pose proof (serve_keeps sc q x Hx (mkWorld x ctx fs) _ _ eq_refl H). by destruct r.
  - destruct Hx as [Hp Hr Hm Hl]. split; simpl; try done.
    eapply tab_ok_mono; [exact Hr|]. intros i r _ Hv. unfold robot_valid in *. destruct (_ =? 0); [done|].
    destruct Hv as (p & n & H1 & H2 & H3). exists p, n. split_and!; auto.
Qed.

Definition initial_robots : RobotDB := mkRobotDB initial empty_table empty_table empty_table.

Lemma initial_robots_ok : robot_db_ok initial_robots.
Proof. split; [apply initial_proj_ok|apply empty_ok..]. Qed.

(** ** A robot that was created *)

Local Notation quiet d := (mkWorld d true []).

Lemma GetByName_quiet d name pro : proj_ok (rproj d) → names_project d name pro →
  ∃ v, on_projects (project_ctl.GetByName name default_options) (quiet d) = (Ok v, quiet d) ∧ pv_Project v = pro.
Proof.
  intros Hok Hp. destruct Hp as (Hp & Hl & Hn).
  pose proof (tab_valid _ _ _ _ (ok_projects _ Hok) _ _ Hp) as V. unfold project_valid in V. rewrite Hl in V.
  rewrite Hn in V. destruct V as [V VL].
  assert (Hne : name == "" = false) by (apply bool_decide_eq_false; by intros ->).
  assert (Hsp : no_char (Ascii.ascii_of_N 32) name = true).
  { clear -V. unfold validProjectName in V. revert V. generalize true at 1. induction name as [|c s IH]; intros b V; [done|].
    cbn in V. unfold no_char in *. simpl. destruct (decide (c = Ascii.ascii_of_N 32)) as [->|Hc]; [done|].
    rewrite bool_decide_eq_false_2 by exact Hc. destruct (alnum c); [by apply (IH false)|].
    apply andb_prop in V as [_ V]. by apply (IH true). }
  assert (Hsel : head (select (λ p, j_Name p = name ∧ j_Deleted p = false) (projects (rproj d))) = Some pro).
  { destruct (head _) as [q|] eqn:E.
    - apply head_Some_elem_of, (elem_of_select_ok j_ProjectID) in E as [Hq [Hq1 Hq2]]; [|apply (ok_projects _ Hok)].
      f_equal. apply (named_unique d name); [done|done|]. done.
    - apply head_None in E. rewrite select_nil in E. by destruct (E _ _ Hp). }
  assert (∃ v, project_ctl.GetByName name default_options (quiet (rproj d)) = (Ok v, quiet (rproj d)) ∧ pv_Project v = pro)
    as (v & Hv & Hpv).
  { eexists. split.
    - unfold project_ctl.GetByName, project_ctl.Get, project_mgr.Get, project_dao.GetByName. rewrite Hne, Hsp. simpl.
      rewrite bind_eq, Read_nofault, Hsel. unfold project_ctl.assembleProject, meta_mgr.Get, meta_dao.List, FromContext.
      simpl. mrun. reflexivity.
    - done. }
  exists v. split; [|done]. unfold on_projects. rewrite (zoom_eq _ _ _ d true [] _ _ _ _ Hv). by destruct d.
Qed.

(** Access to a project that exists was asked of the security context. *)
Lemma project_access_granted sc d name pro a w :
  proj_ok (rproj d) → names_project d name pro → name ≠ EmptyString →
  robotAPI.requireAccess sc LEVELPROJECT (ByName name) a (quiet d) = (Ok tt, w) →
  ∃ s, sc = Some s ∧ Can s a (Rbac.ns_Resource (Rbac.ProjectNS (j_ProjectID pro)) [Rbac.ResourceRobot]) = true.
Proof.
  intros Hok Hp Hne. unfold robotAPI.requireAccess, BaseAPI.RequireProjectAccess, BaseAPI.HasProjectPermission. simpl.
  destruct (name == "") eqn:E; [by apply bool_decide_eq_true in E|]. unfold try.
  destruct (GetByName_quiet d name pro Hok Hp) as (v & Hv & <-). rewrite !bind_eq, Hv. simpl.
  unfold BaseAPI.HasPermission, BaseAPI.GetSecurityContext. destruct sc as [s|]; [|done].
  destruct (Can s a _) eqn:Ec; [by exists s|]. simpl. rewrite bind_eq. simpl. by destruct (IsAuthenticated s).
Qed.

(** The accesses of a context. *)
Lemma elem_accesses ctx x : x ∈ Security.accesses ctx ↔
  ∃ p a, p ∈ Security.Permissions ctx ∧ a ∈ Security.Access p ∧
    x = Rbac.mkPolicy (Security.Scope p +:+ "/" +:+ Rbac.Resource a) (Rbac.Action a) (Rbac.Effect a).
Proof.
  unfold Security.accesses. rewrite list_elem_of_In, in_flat_map. split.
  - intros (p & Hp & Hx). apply in_map_iff in Hx as (a & <- & Ha). exists p, a. by rewrite !list_elem_of_In.
  - intros (p & a & Hp & Ha & ->). exists p. rewrite <- list_elem_of_In. split; [done|].
    apply in_map_iff. exists a. by rewrite <- list_elem_of_In.
Qed.

(** The reply only depends on the row. *)
Lemma robot_Get_row id w rb w' : robot_ctl.Get id false w = (Ok rb, w') →
  ∃ x, rows (robots (db w)) !! id = Some x ∧
    rb = mkRobot (if setEditable x then renamed (RobotPrefix +:+ b_Name x) x else x) EmptyString (setLevel x) (setEditable x) [].
Proof.
  unfold robot_ctl.Get, robot_dao.Get. intros H. apply bind_ok_inv in H as (x & w1 & H1 & H).
  apply Read_inv in H1 as [_ H1]. exists x. split; [by apply H1|]. unfold populate in H. by injection H as <- _.
Qed.

Lemma Generate_created d d0 r p id pwd :
  (∀ s t, Encrypt s t ≠ EmptyString) → (∀ t n, 0 < n → t < AddDays t n) → 0 < RobotTokenDuration →
  -1 <= b_Duration (rb_Robot r) → robot_created d0 d r p id pwd →
  (∀ i q, rows (projects (rproj d)) !! i = Some q → in_int64 i) →
  ∃ pro ctx rb, names_project d (pm_Namespace p) pro ∧
    robot_ctl.Get id false (quiet d) = (Ok rb, quiet d) ∧
    Generate (Some (b_Name (rb_Robot rb), pwd)) (quiet d) = (Ok (Some (Security.robot_New (Some ctx))), quiet d) ∧
    (∀ s, Encrypt s (b_Salt (rb_Robot rb)) ≠ Encrypt pwd (b_Salt (rb_Robot rb)) →
       Generate (Some (b_Name (rb_Robot rb), s)) (quiet d) = (Ok None, quiet d)) ∧
    Security.Level ctx = LEVELPROJECT ∧
    ∀ x, x ∈ Security.accesses ctx ↔ ∃ a, a ∈ pm_Access p ∧
      x = Rbac.mkPolicy (Rbac.project_path (j_ProjectID pro) +:+ "/" +:+ Rbac.Resource a) (Rbac.Action a) (Rbac.Effect a).
Proof.
  intros Henc Hadd Hdur Hge (Hok & Hpr & pro & x & Hpro & Hx & Nx & Px & Sx & Dx & Ex & Hg) Hint.
  destruct (Hpro) as (Hp & Hl & Hn). destruct (tab_keys _ _ _ _ (ok_projects _ (rk_proj d Hok)) _ _ Hp) as [_ Hpos].
  destruct (tab_keys _ _ _ _ (rk_robots d Hok) _ _ Hx) as [Hid _].
  assert (Hed : setEditable x = true).
  { unfold setEditable. apply negb_true_iff, bool_decide_eq_false. rewrite Sx. apply Henc. }
  assert (Hlv : setLevel x = LEVELPROJECT).
  { unfold setLevel. rewrite Px. destruct (_ =? 0) eqn:E; [apply Z.eqb_eq in E; lia|done]. }
  destruct (populatePermissions_quiet d id pro (pm_Access p)) as (ps & Hps & Hsc & Hacc); [by split_and!|eauto|done|].
  set (row := renamed (RobotPrefix +:+ b_Name x) x).
  assert (Hgen : ∀ s, Generate (Some (b_Name row, s)) (quiet d) =
    (Ok (if Encrypt s (b_Salt x) == b_Secret x then Some (to_context (mkRobot row EmptyString LEVELPROJECT true ps)) else None), quiet d)).
  { intros s. unfold Generate. simpl. rewrite HasPrefix_app, TrimPrefix_app. simpl. rewrite bind_eq. unfold try.
    unfold robot_ctl.List. rewrite bind_eq, (List_by_name_quiet d id x Hok Hx). simpl. unfold populate.
    rewrite bind_eq, Hed, Hlv, Hid, bind_eq, Hps. simpl. unfold clock. mrun.
    destruct (_ == b_Secret x); [|done]. simpl. rewrite Dx, Ex, Hpr. by rewrite expiry_later. }
  exists pro, (Security.mkRobot (b_Name row) LEVELPROJECT
    ((λ p, Security.mkPermission (pm_Scope p) (pm_Access p)) <$> ps)),
    (mkRobot row EmptyString LEVELPROJECT true []). split_and!; try done.
  - unfold robot_ctl.Get, robot_dao.Get. rewrite bind_eq, Read_nofault, Hx. unfold populate. rewrite Hed, Hlv. by mrun.
  - rewrite Hgen. by rewrite bool_decide_true.
  - intros s Hs. rewrite Hgen. simpl in Hs. rewrite bool_decide_false; [done|]. by rewrite Sx.
  - intros y. rewrite elem_accesses. simpl. setoid_rewrite list_elem_of_fmap. split.
    + intros (q & a & (q' & -> & Hq) & Ha & ->). simpl in *. exists a. rewrite (Hsc q' Hq). split; [|done].
      apply Hacc. eauto.
    + intros (a & Ha & ->). apply Hacc in Ha as (q & Hq & Ha). eexists _, a.
      split_and!; [by exists q|done|]. simpl. by rewrite (Hsc q Hq).
Qed.

(** C31 (what a created robot may do): in every reachable state, a request that
    creates a robot of a project succeeds only for a caller who may create robots in
    exactly that project.  Whoever then presents the name and the secret of the reply
    becomes a context of the project level whose accesses are those of the request,
    each inside that project; a secret with another hash is refused. *)
Theorem created_robot_context sc ps d rb pwd w :
  (∀ s t, Encrypt s t ≠ EmptyString) → (∀ t n, 0 < n → t < AddDays t n) → 0 < RobotTokenDuration →
  rtc robot_step initial_robots d → (∀ i q, rows (projects (rproj d)) !! i = Some q → in_int64 i) →
  ps_Level ps = LEVELPROJECT →
  robotAPI.CreateRobot sc ps (quiet d) = (Ok (rb, pwd), w) →
  ∃ s p pro ctx, sc = Some s ∧ ps_Permissions ps = [p] ∧ names_project d (pm_Namespace p) pro ∧
    Can s Rbac.ActionCreate (Rbac.ns_Resource (Rbac.ProjectNS (j_ProjectID pro)) [Rbac.ResourceRobot]) = true ∧
    Generate (Some (b_Name (rb_Robot rb), pwd)) (quiet (db w)) =
      (Ok (Some (Security.robot_New (Some ctx))), quiet (db w)) ∧
    (∀ s, Encrypt s (b_Salt (rb_Robot rb)) ≠ Encrypt pwd (b_Salt (rb_Robot rb)) →
       Generate (Some (b_Name (rb_Robot rb), s)) (quiet (db w)) = (Ok None, quiet (db w))) ∧
    Security.Level ctx = LEVELPROJECT ∧
    ∀ x, x ∈ Security.accesses ctx ↔ ∃ a, a ∈ pm_Access p ∧
      x = Rbac.mkPolicy (Rbac.project_path (j_ProjectID pro) +:+ "/" +:+ Rbac.Resource a) (Rbac.Action a) (Rbac.Effect a).
Proof.
  intros Henc Hadd Hdur Hr Hint HL H. pose proof (robot_steps_ok _ _ Hr initial_robots_ok) as Hok.
  unfold robotAPI.CreateRobot in H.
  apply bind_ok_inv in H as ([] & w0 & H0 & H). unfold of_result in H0. injection H0 as H0 <-.
  apply bind_ok_inv in H as ([] & w0 & H1 & H). unfold of_result in H1. injection H1 as H1 <-.
  apply validate_project in H1 as [Hd [Hl|(_ & p & HP & Hne)]]; [by rewrite HL in Hl|].
  apply bind_ok_inv in H as ([] & w1 & H2 & H). rewrite HL, HP in H2. simpl in H2.
  pose proof (requireAccess_reads _ _ _ _ _ _ _ H2) as Hd1. simpl in Hd1.
  apply bind_ok_inv in H as ([id pw] & w2 & H3 & H).
  set (r := mkRobot _ _ _ _ _) in H3.
  pose proof (Create_project_spec r p d Hok HL HP w1 _ _ (eq_sym Hd1) H3) as Hc. simpl in Hc.
  apply bind_ok_inv in H as (rb' & w3 & H4 & H). injection H as -> -> ->.
  pose proof (robot_ctl_Get_reads _ _ _ _ _ H4) as Hd3.
  destruct (Generate_created (db w2) d r p id pwd Henc Hadd Hdur Hd Hc) as (pro & ctx & rb2 & Hpro & HG & Hgen & Hno & Hlv & Hacc).
  { destruct Hc as (_ & Hpr & _). by rewrite Hpr. }
  assert (rb2 = rb) as ->.
  { apply robot_Get_row in HG as (x & Hx & ->), H4 as (y & Hy & ->). simpl in Hx. by simplify_eq. }
  assert (Hpro' : names_project d (pm_Namespace p) pro).
  { destruct Hc as (_ & Hpr & _). unfold names_project in *. by rewrite <- Hpr. }
  destruct (project_access_granted sc d (pm_Namespace p) pro Rbac.ActionCreate w1 (rk_proj d Hok) Hpro') as (s & -> & Hcan); [|done|].
  { destruct Hpro' as (Hp & Hlive & Hn). pose proof (tab_valid _ _ _ _ (ok_projects _ (rk_proj d Hok)) _ _ Hp) as V.
    unfold project_valid in V. rewrite Hlive, Hn in V. destruct V as [V _]. intros E. by rewrite E in V. }
  exists s, p, pro, ctx. rewrite <- Hd3. split_and!; done.
Qed.

End machine.

(** A robot of [library]; the hash only prepends a letter, and every draw is valid. *)
Definition ex_config : RobotConfig :=
  mkRobotConfig (λ pwd salt, "h" +:+ pwd +:+ salt) (λ _, "Secret123"%string) 1 "robot$" 30 (λ t n, t + 86400 * n).
Definition ex_caller : option SecCtx := Some (mkSecCtx true "admin" (λ _ _, true)).
Definition ex_params : RobotParams :=
  mkRobotParams "ci" EmptyString 7 "project" false
    [mkPermission "project" "library" [Rbac.policy Rbac.ResourceRepository Rbac.ActionPush] EmptyString].

Lemma created_robot_context_witness :
  ∃ rb pwd w ctx, robotAPI.CreateRobot (RC := ex_config) ex_caller ex_params (mkWorld initial_robots true []) = (Ok (rb, pwd), w) ∧
    Generate (RC := ex_config) (Some (b_Name (rb_Robot rb), pwd)) (mkWorld (db w) true []) =
      (Ok (Some (Security.robot_New (Some ctx))), mkWorld (db w) true []) ∧
    Rbac.mkPolicy "/project/1/repository" Rbac.ActionPush EmptyString ∈ Security.accesses ctx.
Proof.
  destruct (robotAPI.CreateRobot (RC := ex_config) ex_caller ex_params (mkWorld initial_robots true []))
    as [[[rb pwd]|e] w] eqn:E; [|by vm_compute in E].
  destruct (created_robot_context (RC := ex_config) ex_caller ex_params initial_robots rb pwd w)
    as (s & p & pro & ctx & Hs & Hp & Hn & Hcan & HG & _ & _ & Hacc).
  - done.
  - intros t n Hn. simpl. lia.
  - done.
  - apply rtc_refl.
  - intros i q Hq. simpl in Hq. apply lookup_singleton_Some in Hq as [<- _]. by vm_compute.
  - reflexivity.
  - exact E.
  - exists rb, pwd, w, ctx. split; [done|]. split; [done|]. apply Hacc. simpl in Hp. injection Hp as <-.
    eexists. split; [left|]. destruct Hn as (Hn & _ & _). simpl in Hn.
    apply lookup_singleton_Some in Hn as [Hid _]. by rewrite <- Hid.
Defined.
