(* ===== verification/Encrypt.v ===== *)
(** * Reversible encryption of secrets: [src/common/utils/encrypt.go]

    AES in the CFB mode behind a header and base64.  The block cipher is a
    parameter: a key of 16, 24 or 32 bytes and a block give a block.  The
    initialization vector is what the source of randomness returned. *)

From S2P Require Import Prelude GoErrors GoStrings.
From Stdlib Require Import Ascii.

(** ** [encoding/base64.StdEncoding]

    Encoding with padding; decoding skips line ends, wants complete groups of four
    characters and padding only at the end. *)
Module Base64.
Local Open Scope N_scope.

Definition alphabet : string := "ABCDEFGHIJKLMNOPQRSTUVWXYZabcdefghijklmnopqrstuvwxyz0123456789+/".
Definition pad : ascii := "="%char.

Definition enc_char (n : N) : ascii := default pad (String.get (N.to_nat n) alphabet).
Definition dec_char (c : ascii) : option N :=
  let x := byte c in
  if (65 <=? x) && (x <=? 90) then Some (x - 65)
  else if (97 <=? x) && (x <=? 122) then Some (x - 71)
  else if (48 <=? x) && (x <=? 57) then Some (x + 4)
  else if x =? 43 then Some 62
  else if x =? 47 then Some 63
  else None.

Fixpoint EncodeToString (s : string) : string :=
  match s with
  | EmptyString => EmptyString
  | String a EmptyString =>
      let a := byte a in
      String (enc_char (a / 4)) (String (enc_char (a mod 4 * 16)) (String pad (String pad EmptyString)))
  | String a (String b EmptyString) =>
      let a := byte a in let b := byte b in
      String (enc_char (a / 4)) (String (enc_char (a mod 4 * 16 + b / 16))
        (String (enc_char (b mod 16 * 4)) (String pad EmptyString)))
  | String a (String b (String c s)) =>
      let a := byte a in let b := byte b in let c := byte c in
      String (enc_char (a / 4)) (String (enc_char (a mod 4 * 16 + b / 16))
        (String (enc_char (b mod 16 * 4 + c / 64)) (String (enc_char (c mod 64)) (EncodeToString s))))
  end.

Fixpoint skip_ends (s : string) : string :=
  match s with
  | EmptyString => EmptyString
  | String c s => if (byte c =? 10) || (byte c =? 13) then skip_ends s else String c (skip_ends s)
  end.

Definition char (n : N) : ascii := ascii_of_N n.

Fixpoint decode_groups (s : string) : option string :=
  match s with
  | EmptyString => Some EmptyString
  | String c0 (String c1 (String c2 (String c3 rest))) =>
      v0 ← dec_char c0; v1 ← dec_char c1;
      if bool_decide (c2 = pad)
      then if bool_decide (c3 = pad ∧ rest = EmptyString)
           then Some (String (char (v0 * 4 + v1 / 16)) EmptyString) else None
      else
        v2 ← dec_char c2;
        if bool_decide (c3 = pad)
        then if bool_decide (rest = EmptyString)
             then Some (String (char (v0 * 4 + v1 / 16)) (String (char (v1 mod 16 * 16 + v2 / 4)) EmptyString))
             else None
        else
          v3 ← dec_char c3; tail ← decode_groups rest;
          Some (String (char (v0 * 4 + v1 / 16)) (String (char (v1 mod 16 * 16 + v2 / 4))
                  (String (char (v2 mod 4 * 64 + v3)) tail)))
  | _ => None
  end.

Definition DecodeString (s : string) : option string := decode_groups (skip_ends s).

(** ** Round trip *)

Lemma char_byte c : char (byte c) = c.
Proof. apply ascii_N_embedding. Qed.

Definition char_ok (n : N) : bool :=
  bool_decide (dec_char (enc_char n) = Some n) && negb (bool_decide (enc_char n = pad))
    && negb ((byte (enc_char n) =? 10) || (byte (enc_char n) =? 13)).

Lemma enc_char_ok n : n < 64 → char_ok n = true.
Proof.
  intros Hn. assert (Hall : forallb (λ k, char_ok (N.of_nat k)) (List.seq 0 64) = true) by (vm_compute; reflexivity).
  rewrite forallb_forall in Hall. rewrite <- (N2Nat.id n). apply Hall, in_seq. lia.
Qed.

Lemma enc_char_spec n : n < 64 →
  dec_char (enc_char n) = Some n ∧ bool_decide (enc_char n = pad) = false ∧
  (byte (enc_char n) =? 10) || (byte (enc_char n) =? 13) = false.
Proof.
  intros Hn. pose proof (enc_char_ok n Hn) as H. unfold char_ok in H.
  apply andb_prop in H as [H H3]. apply andb_prop in H as [H1 H2].
  apply bool_decide_eq_true in H1. apply negb_true_iff in H2, H3. done.
Qed.

(** The six-bit digits of a group. *)
Lemma digit0 a (Ha : a < 256) : a / 4 < 64. Proof. apply N.Div0.div_lt_upper_bound. lia. Qed.
Lemma digit1 a b (Hb : b < 256) : a mod 4 * 16 + b / 16 < 64.
Proof. pose proof (N.mod_lt a 4). pose proof (N.Div0.div_lt_upper_bound b 16 16). lia. Qed.
Lemma digit1' a : a mod 4 * 16 < 64. Proof. pose proof (N.mod_lt a 4). lia. Qed.
Lemma digit2 b c (Hc : c < 256) : b mod 16 * 4 + c / 64 < 64.
Proof. pose proof (N.mod_lt b 16). pose proof (N.Div0.div_lt_upper_bound c 64 4). lia. Qed.
Lemma digit2' b : b mod 16 * 4 < 64. Proof. pose proof (N.mod_lt b 16). lia. Qed.
Lemma digit3 c : c mod 64 < 64. Proof. apply N.mod_lt. lia. Qed.

Lemma byte0 a b (Ha : a < 256) (Hb : b < 256) : a / 4 * 4 + (a mod 4 * 16 + b / 16) / 16 = a.
Proof.
  rewrite N.add_comm, N.div_add_l by lia. rewrite (N.div_small (b / 16) 16) by (apply N.Div0.div_lt_upper_bound; lia).
  pose proof (N.Div0.div_mod a 4). lia.
Qed.
Lemma byte0' a (Ha : a < 256) : a / 4 * 4 + (a mod 4 * 16) / 16 = a.
Proof. rewrite N.div_mul by lia. pose proof (N.Div0.div_mod a 4). lia. Qed.
Lemma byte1 a b c (Hb : b < 256) (Hc : c < 256) : (a mod 4 * 16 + b / 16) mod 16 * 16 + (b mod 16 * 4 + c / 64) / 4 = b.
Proof.
  rewrite N.add_comm, (N.add_comm (a mod 4 * 16)), N.Div0.mod_add.
  rewrite (N.mod_small (b / 16)) by (apply N.Div0.div_lt_upper_bound; lia).
  rewrite N.div_add_l by lia. rewrite (N.div_small (c / 64) 4) by (apply N.Div0.div_lt_upper_bound; lia).
  pose proof (N.Div0.div_mod b 16). lia.
Qed.
Lemma byte1' a b (Hb : b < 256) : (a mod 4 * 16 + b / 16) mod 16 * 16 + (b mod 16 * 4) / 4 = b.
Proof.
  rewrite N.add_comm, (N.add_comm (a mod 4 * 16)), N.Div0.mod_add.
  rewrite (N.mod_small (b / 16)) by (apply N.Div0.div_lt_upper_bound; lia).
  rewrite N.div_mul by lia. pose proof (N.Div0.div_mod b 16). lia.
Qed.
Lemma byte2 b c (Hc : c < 256) : (b mod 16 * 4 + c / 64) mod 4 * 64 + c mod 64 = c.
Proof.
  rewrite (N.add_comm (b mod 16 * 4)), N.Div0.mod_add.
  rewrite (N.mod_small (c / 64)) by (apply N.Div0.div_lt_upper_bound; lia).
  pose proof (N.Div0.div_mod c 64). lia.
Qed.

Ltac digits := auto using digit0, digit1, digit1', digit2, digit2', digit3, byte_bound.
Ltac enc n := let H1 := fresh in let H2 := fresh in let H3 := fresh in
  destruct (enc_char_spec n) as (H1 & H2 & H3); [solve [digits]|]; rewrite ?H1, ?H2, ?H3; clear H1 H2 H3.

Lemma pad_kept : ((byte pad =? 10) || (byte pad =? 13)) = false.
Proof. reflexivity. Qed.

(** The text of a group. *)
Lemma skip_group a b c d s : skip_ends (String a (String b (String c (String d s)))) =
  skip_ends (String a (String b (String c (String d EmptyString)))) +:+ skip_ends s.
Proof. simpl. by repeat destruct (_ || _). Qed.

Theorem Decode_Encode s : DecodeString (EncodeToString s) = Some s.
Proof.
  unfold DecodeString. remember (String.length s) as n eqn:En. revert s En.
  induction n as [n IH] using lt_wf_ind. intros s ->.
  destruct s as [|a [|b [|c s]]]; [done| | |].
  - cbn [EncodeToString skip_ends]. rewrite pad_kept.
    enc (byte a / 4). enc (byte a mod 4 * 16). cbn [decode_groups].
    enc (byte a / 4). enc (byte a mod 4 * 16). cbn.
    by rewrite byte0', char_byte by apply byte_bound.
  - cbn [EncodeToString skip_ends]. rewrite pad_kept.
    enc (byte a / 4). enc (byte a mod 4 * 16 + byte b / 16). enc (byte b mod 16 * 4). cbn [decode_groups].
    enc (byte a / 4). enc (byte a mod 4 * 16 + byte b / 16). enc (byte b mod 16 * 4). cbn.
    rewrite byte0, byte1' by apply byte_bound. by rewrite !char_byte.
  - cbn [EncodeToString skip_ends].
    enc (byte a / 4). enc (byte a mod 4 * 16 + byte b / 16). enc (byte b mod 16 * 4 + byte c / 64).
    enc (byte c mod 64). cbn [decode_groups].
    enc (byte a / 4). enc (byte a mod 4 * 16 + byte b / 16). enc (byte b mod 16 * 4 + byte c / 64).
    enc (byte c mod 64). cbn.
    rewrite (IH (String.length s)); [|simpl; lia|done]. cbn.
    rewrite byte0, byte1, byte2 by apply byte_bound. by rewrite !char_byte.
Qed.
End Base64.
Export Base64.

Local Open Scope harbor_scope.

(** ** AES in the CFB mode *)

Definition BlockSize : nat := 16.
Definition EncryptHeaderV1 : string := "<enc-v1>".

Notation bytes := (list ascii).
Definition bytes_of_string : string → bytes := String.list_ascii_of_string.
Definition string_of_bytes : bytes → string := String.string_of_list_ascii.

Definition xor_byte (a b : ascii) : ascii := ascii_of_N (N.lxor (N_of_ascii a) (N_of_ascii b)).
Definition xor_bytes (a b : bytes) : bytes := zip_with xor_byte a b.

Section cfb.
(** [block.Encrypt] for a key. *)
Context (E : bytes → bytes).

(** [XORKeyStream]: the key stream of a block is the encryption of the block of
    cipher text before it; [n] bounds the number of blocks. *)
Fixpoint XORKeyStream (decrypt : bool) (n : nat) (prev l : bytes) : bytes :=
  match n with
  | O => []
  | S n =>
      match l with
      | [] => []
      | _ =>
          let out := xor_bytes (take BlockSize l) (E prev) in
          out ++ XORKeyStream decrypt n (if decrypt then take BlockSize l else out) (drop BlockSize l)
      end
  end.

Definition cfb (decrypt : bool) (iv l : bytes) : bytes := XORKeyStream decrypt (length l) iv l.
End cfb.

Section aes.
Context (AES : bytes → bytes → bytes).

(** [aes.NewCipher] *)
Definition NewCipher (key : bytes) : result (bytes → bytes) :=
  if bool_decide (length key ∈ [16; 24; 32]%nat) then Ok (AES key)
  else Err (PlainError ("crypto/aes: invalid key size " +:+ pretty (Z.of_nat (length key)))).

Definition maxLength : N := 64 * 1024 * 1024.

Definition ReversibleEncrypt (random : result bytes) (str key : string) : result string :=
  match NewCipher (bytes_of_string key) with
  | Err e => Err e
  | Ok block =>
      if (maxLength <? N.of_nat (String.length str))%N then Err (PlainError "str value too large")
      else match random with
           | Err e => Err e
           | Ok iv =>
               Ok (EncryptHeaderV1 +:+ EncodeToString (string_of_bytes (iv ++ cfb block false iv (bytes_of_string str))))
           end
  end.

Definition base64_error : error := PlainError "illegal base64 data".

Definition decodeB64 (str : string) : result string :=
  match DecodeString str with Some s => Ok s | None => Err base64_error end.

Definition decryptAES (str key : string) : result string :=
  match NewCipher (bytes_of_string key) with
  | Err e => Err e
  | Ok block =>
      match DecodeString str with
      | None => Err base64_error
      | Some cipherText =>
          let cipherText := bytes_of_string cipherText in
          if (length cipherText <? BlockSize)%nat then Err (PlainError "cipherText too short")
          else Ok (string_of_bytes (cfb block true (take BlockSize cipherText) (drop BlockSize cipherText)))
      end
  end.

Definition ReversibleDecrypt (str key : string) : result string :=
  if HasPrefix str EncryptHeaderV1 then decryptAES (drop_chars (String.length EncryptHeaderV1) str) key
  else decodeB64 str.
End aes.

(** ** Decryption undoes encryption *)

Lemma log2_byte a : (N.log2 (N_of_ascii a) < 8)%N.
Proof.
  destruct (N.eq_dec (N_of_ascii a) 0%N) as [->|Hn]; [vm_compute; reflexivity|].
  apply N.log2_lt_pow2; [lia|apply byte_bound].
Qed.

Lemma xor_byte_twice a b : xor_byte (xor_byte a b) b = a.
Proof.
  unfold xor_byte. assert ((N.lxor (N_of_ascii a) (N_of_ascii b) < 256)%N) as Hb.
  { destruct (N.eq_dec (N.lxor (N_of_ascii a) (N_of_ascii b)) 0%N) as [->|Hz]; [lia|].
    apply (N.log2_lt_pow2 _ 8%N); [lia|]. eapply N.le_lt_trans; [apply N.log2_lxor|].
    apply N.max_lub_lt; apply log2_byte. }
  rewrite N_ascii_embedding by exact Hb. rewrite N.lxor_assoc, N.lxor_nilpotent, N.lxor_0_r. apply ascii_N_embedding.
Qed.

Lemma xor_bytes_twice : ∀ l k, (length l <= length k)%nat → xor_bytes (xor_bytes l k) k = l.
Proof.
  induction l as [|a l IH]; intros [|b k] Hk; simpl in *; [done..|lia|]. f_equal; [apply xor_byte_twice|]. apply IH. lia.
Qed.

Section roundtrip.
Context (E : bytes → bytes) (HE : ∀ b, length (E b) = BlockSize).

Lemma length_xor l prev : (length l <= BlockSize)%nat → length (xor_bytes l (E prev)) = length l.
Proof. intros Hl. unfold xor_bytes. rewrite length_zip_with, HE. lia. Qed.

Lemma XORKeyStream_step decrypt n prev l : l ≠ [] → XORKeyStream E decrypt (S n) prev l =
  let out := xor_bytes (take BlockSize l) (E prev) in
  out ++ XORKeyStream E decrypt n (if decrypt then take BlockSize l else out) (drop BlockSize l).
Proof. by destruct l. Qed.

Lemma XORKeyStream_nil decrypt n prev : XORKeyStream E decrypt n prev [] = [].
Proof. by destruct n. Qed.

Lemma cfb_roundtrip : ∀ n prev l, (length l <= n)%nat →
  length (XORKeyStream E false n prev l) = length l ∧
  ∀ m, (length l <= m)%nat → XORKeyStream E true m prev (XORKeyStream E false n prev l) = l.
Proof.
  induction n as [|n IH]; intros prev l Hn.
  { destruct l; [|simpl in Hn; lia]. split; [done|]. intros m _. apply XORKeyStream_nil. }
  destruct (decide (l = [])) as [->|Hl]; [split; [done|]; intros m _; apply XORKeyStream_nil|].
  assert (0 < length l)%nat as Hpos by (destruct l; [done|simpl; lia]).
  rewrite XORKeyStream_step by done. cbv zeta iota. set (out := xor_bytes (take BlockSize l) (E prev)).
  assert (length out = Nat.min BlockSize (length l)) as Hout.
  { unfold out. rewrite length_xor; rewrite length_take; lia. }
  destruct (IH out (drop BlockSize l)) as [Hlen Hrec]; [rewrite length_drop; unfold BlockSize; lia|].
  split; [rewrite length_app, Hlen, Hout, length_drop; lia|].
  intros [|m] Hm; [lia|]. rewrite XORKeyStream_step.
  2:{ intros Eq. apply (f_equal length) in Eq. rewrite length_app, Hout in Eq. unfold BlockSize in Eq. cbn [length] in Eq. lia. }
  cbv zeta iota. destruct (Nat.le_gt_cases BlockSize (length l)) as [Hbig|Hsmall].
  - rewrite take_app_length', drop_app_length' by lia. rewrite Hrec by (rewrite length_drop; unfold BlockSize in *; lia).
    unfold out. rewrite xor_bytes_twice by (rewrite length_take, HE; lia). apply take_drop.
  - rewrite (drop_ge l) by lia. rewrite XORKeyStream_nil, app_nil_r. rewrite (take_ge out), (drop_ge out) by lia.
    rewrite XORKeyStream_nil, app_nil_r. unfold out. rewrite xor_bytes_twice by (rewrite length_take, HE; lia). apply take_ge. lia.
Qed.
End roundtrip.

(** Further property (secrets come back): what is encrypted with a key of a valid size is
    decrypted to itself with the same key, for every cipher on blocks and every
    initialization vector. *)
Theorem decrypt_encrypt AES iv s key :
  (∀ k b, length (AES k b) = BlockSize) → length iv = BlockSize →
  (length (bytes_of_string key) ∈ [16; 24; 32])%nat → (N.of_nat (String.length s) <= maxLength)%N →
  ∃ e, ReversibleEncrypt AES (Ok iv) s key = Ok e ∧ ReversibleDecrypt AES e key = Ok s.
Proof.
  intros HA Hiv Hkey Hs. unfold ReversibleEncrypt, NewCipher. rewrite bool_decide_true by done.
  destruct (N.ltb_spec maxLength (N.of_nat (String.length s))); [lia|]. eexists. split; [reflexivity|].
  unfold ReversibleDecrypt. rewrite HasPrefix_app, drop_chars_app. unfold decryptAES, NewCipher.
  rewrite bool_decide_true by done. rewrite Decode_Encode. unfold bytes_of_string, string_of_bytes in *.
  rewrite String.list_ascii_of_string_of_list_ascii. set (E := AES (String.list_ascii_of_string key)).
  destruct (Nat.ltb_spec (length (iv ++ cfb E false iv (String.list_ascii_of_string s))) BlockSize) as [Hlt|_].
  { rewrite length_app in Hlt. lia. }
  rewrite take_app_length', drop_app_length' by lia.
  destruct (cfb_roundtrip E (HA _) (length (String.list_ascii_of_string s)) iv (String.list_ascii_of_string s)) as [Hlen Hr]; [done|].
  unfold cfb at 1. rewrite Hr; [|by unfold cfb; rewrite Hlen]. by rewrite String.string_of_list_ascii_of_string.
Qed.

Lemma decrypt_encrypt_witness :
  ∃ e, ReversibleEncrypt (λ _ b, repeat "a"%char 16) (Ok (repeat "i"%char 16)) "s3cret" "1234567890123456" = Ok e ∧
       ReversibleDecrypt (λ _ b, repeat "a"%char 16) e "1234567890123456" = Ok "s3cret"%string.
Proof.
  apply (decrypt_encrypt (λ _ b, repeat "a"%char 16) (repeat "i"%char 16) "s3cret" "1234567890123456").
  - intros k b. reflexivity.
  - reflexivity.
  - apply list_elem_of_here.
  - vm_compute. discriminate.
Defined.
