(* ===== verification/VulnReport.v ===== *)
(** * Vulnerability reports: [src/pkg/scan/vuln], [src/pkg/scan/report]

    Severities, vulnerability items, merging of reports and of summaries, and the
    identifiers of merged reports.  A list of items keeps one item per key, in the
    order of their addition; its index is the search for a key.  Items are values:
    the sharing of items between a list and its sources only shows in the artifact
    digests, which are appended to the item that is kept.  The stored text of a
    report is a decoded document, nothing, or a text that is not a report. *)

From S2P Require Import Prelude GoErrors GoStrings Encrypt JobStatus.
Open Scope Z_scope.
Local Open Scope harbor_scope.

(** ** [severity.go] *)

Definition None_ : string := "None".
Definition Unknown : string := "Unknown".
Definition Negligible : string := "Negligible".
Definition Low : string := "Low".
Definition Medium : string := "Medium".
Definition High : string := "High".
Definition Critical : string := "Critical".

Definition SevCode (s : string) : Z :=
  if (s == None_) || (s == Unknown) then 0
  else if s == Negligible then 1
  else if s == Low then 2
  else if s == Medium then 3
  else if s == High then 4
  else if s == Critical then 5
  else 99.

(** [title] is [cases.Title(language.Und).String]. *)
Definition ParseSeverityVersion3 (title : string → string) (str : string) : string :=
  let severity := title str in
  if bool_decide (severity ∈ [None_; Low; Medium; High; Critical]) then severity
  else if severity == Negligible then None_
  else Unknown.

(** ** [report.go] *)

(** Scores are only copied. *)
Record CVSS := mkCVSS { ScoreV3 : option Z; ScoreV2 : option Z; VectorV3 : string; VectorV2 : string }.

Record VulnerabilityItem := mkItem {
  i_ID : string; i_Package : string; i_Version : string; i_FixVersion : string; i_Severity : string;
  i_Description : string; i_Links : list string; i_ArtifactDigests : list string; i_CVSS : CVSS;
  i_CWEIds : list string; i_VendorAttributes : string }.

Definition Key (i : VulnerabilityItem) : string := i_ID i +:+ "-" +:+ i_Package i +:+ "-" +:+ i_Version i.

Definition with_digests (ds : list string) (i : VulnerabilityItem) : VulnerabilityItem :=
  mkItem (i_ID i) (i_Package i) (i_Version i) (i_FixVersion i) (i_Severity i) (i_Description i)
    (i_Links i) ds (i_CVSS i) (i_CWEIds i) (i_VendorAttributes i).

(** [VulnerabilityItemList.Add] of one item. *)
Fixpoint add_item (l : list VulnerabilityItem) (item : VulnerabilityItem) : list VulnerabilityItem :=
  match l with
  | [] => [item]
  | v :: l =>
      if Key v == Key item then with_digests (i_ArtifactDigests v ++ i_ArtifactDigests item) v :: l
      else v :: add_item l item
  end.
Definition Add (l items : list VulnerabilityItem) : list VulnerabilityItem := foldl add_item l items.

Definition GetItem (l : list VulnerabilityItem) (key : string) : option VulnerabilityItem :=
  head (filter (λ v, Key v = key) l).

(** Lists that are absent do not count; [None] when none is present. *)
Definition NewVulnerabilityItemList (lists : list (option (list VulnerabilityItem))) : option (list VulnerabilityItem) :=
  match omap id lists with
  | [] => None
  | ls => Some (foldl Add [] ls)
  end.

Record VulnerabilitySummary := mkVulnerabilitySummary {
  Total : Z; Fixable : Z; Summary : gmap string Z }.

Definition summary_step (acc : string * VulnerabilitySummary) (v : VulnerabilityItem) : string * VulnerabilitySummary :=
  let '(severity, sum) := acc in
  let counts := <[i_Severity v := default 0 (Summary sum !! i_Severity v) + 1]> (Summary sum) in
  let severity := if SevCode severity <? SevCode (i_Severity v) then i_Severity v else severity in
  let fixable := if 0 <? Z.of_nat (String.length (i_FixVersion v)) then Fixable sum + 1 else Fixable sum in
  (severity, mkVulnerabilitySummary (Total sum) fixable counts).

(** The severity is the empty one for an absent list. *)
Definition GetSeveritySummary (l : option (list VulnerabilityItem)) : string * option VulnerabilitySummary :=
  match l with
  | None => (EmptyString, None)
  | Some l =>
      let '(severity, sum) :=
        foldl summary_step (None_, mkVulnerabilitySummary (Z.of_nat (length l)) 0 ∅) l in
      (severity, Some sum)
  end.

(** The field [vulnerabilityItemList] is [None] until it is asked for. *)
Record Report := mkReport {
  GeneratedAt : string; Scanner : option string; r_Severity : string;
  Vulnerabilities : list VulnerabilityItem; itemList : option (list VulnerabilityItem) }.

Definition GetVulnerabilityItemList (r : Report) : list VulnerabilityItem :=
  match itemList r with Some l => l | None => Add [] (Vulnerabilities r) end.

(** [util.go] *)
Definition mergeSeverity (s1 s2 : string) : string :=
  let value s := if s == "" then -1 else SevCode s in
  if value s2 <? value s1 then s1 else s2.

Definition Merge (report another : Report) : Report :=
  let newer := String.ltb (GeneratedAt report) (GeneratedAt another) in
  let l := Add (GetVulnerabilityItemList report) (Vulnerabilities another) in
  mkReport (if newer then GeneratedAt another else GeneratedAt report)
    (if newer then Scanner another else Scanner report)
    (mergeSeverity (r_Severity report) (r_Severity another)) l (Some l).

Definition WithArtifactDigest (digest : string) (r : Report) : Report :=
  mkReport (GeneratedAt r) (Scanner r) (r_Severity r) (with_digests [digest] <$> Vulnerabilities r) (itemList r).

(** ** [util.go] *)

Definition reportIDSeparator : Ascii.ascii := Ascii.ascii_of_N 124.

Definition decoded (s : string) : string := default s (DecodeString s).

Definition ParseReportIDs (s : string) : list string := Split (decoded s) reportIDSeparator.

Definition mergeReportID (r1 r2 : string) : string :=
  EncodeToString (decoded r1 +:+ String reportIDSeparator r2).

Definition MergeScanStatus (s1 s2 : string) : string :=
  if (s1 == RunningStatus) || (s2 == RunningStatus) then RunningStatus
  else if (s1 == StoppedStatus) || (s2 == StoppedStatus) then StoppedStatus
  else if (s1 == SuccessStatus) || (s2 == SuccessStatus) then SuccessStatus
  else if After s1 s2 then s1 else s2.

(** ** [summary.go] *)

Record NativeReportSummary := mkSummary {
  ReportID : string; ScanStatus : string; s_Severity : string; Duration : Z;
  s_Summary : option VulnerabilitySummary; StartTime : Z; EndTime : Z; s_Scanner : option string;
  CompletePercent : Z; TotalCount : Z; CompleteCount : Z;
  s_List : option (list VulnerabilityItem) }.

(** The division panics when no report was counted, which does not happen: every
    generated summary counts one. *)
Definition MergeNativeSummary (sum another : NativeReportSummary) : NativeReportSummary :=
  let start := if StartTime sum <? StartTime another then StartTime sum else StartTime another in
  let end_ := if EndTime sum <? EndTime another then EndTime another else EndTime sum in
  let total := TotalCount sum + TotalCount another in
  let complete := CompleteCount sum + CompleteCount another in
  let status := MergeScanStatus (ScanStatus sum) (ScanStatus another) in
  let l := if status == RunningStatus then None else NewVulnerabilityItemList [s_List sum; s_List another] in
  let '(severity, summary) := if status == RunningStatus then (EmptyString, None) else GetSeveritySummary l in
  mkSummary (mergeReportID (ReportID sum) (ReportID another)) status severity (end_ - start) summary start end_
    (if StartTime another <? StartTime sum then s_Scanner sum else s_Scanner another)
    (Z.quot (complete * 100) total) total complete l.

(** ** Stored reports: [src/pkg/scan/report] *)

Definition MimeTypeNativeReport : string := "application/vnd.scanner.adapter.vuln.report.harbor+json; version=1.0".
Definition MimeTypeGenericVulnerabilityReport : string := "application/vnd.security.vulnerability.report; version=1.1".

Inductive ReportText := NoText | Doc (r : Report) | Garbage.

(** [scan.Report] of [src/pkg/scan/dao/scan/model.go]: the columns, and the status
    and the times that are filled in from the task. *)
Record ScanReport := mkScanReport {
  sr_ID : Z; sr_UUID : string; sr_Digest : string; sr_RegistrationUUID : string; sr_MimeType : string;
  sr_Report : ReportText; sr_Status : string; sr_StartTime : Z; sr_EndTime : Z }.

Definition SupportedMimes (m : string) : bool :=
  (m == MimeTypeNativeReport) || (m == MimeTypeGenericVulnerabilityReport).

(** [supported_mimes.go]: [None] for a mime type that is not resolved. *)
Definition ResolveData (mime : string) (text : ReportText) (digest : string) : result (option Report) :=
  if negb (SupportedMimes mime) then Ok None
  else match text with
       | NoText => Err (New "empty JSON data")
       | Garbage => Err (PlainError "invalid character")
       | Doc r => Ok (Some (if digest == "" then r else WithArtifactDigest digest r))
       end.

(** [Reports.ResolveData] of [report.go]. *)
Fixpoint resolve_from (mimeType : string) (acc : option Report) (l : list ScanReport) : result (option Report) :=
  match l with
  | [] => Ok acc
  | rp :: l =>
      match sr_Report rp with
      | NoText => resolve_from mimeType acc l
      | text =>
          if negb (sr_MimeType rp == mimeType) then resolve_from mimeType acc l
          else
            match ResolveData (sr_MimeType rp) text (sr_Digest rp) with
            | Err e => Err e
            | Ok vrp =>
                match acc, vrp with
                | None, _ => resolve_from mimeType vrp l
                | Some r, Some r' =>
                    if SupportedMimes (sr_MimeType rp) then resolve_from mimeType (Some (Merge r r')) l
                    else Err (New ("no report merger bound with mime type " +:+ sr_MimeType rp))
                | Some _, None => Err (New "native report required")
                end
            end
      end
  end.
Definition Reports_ResolveData (mimeType : string) (l : list ScanReport) : result (option Report) :=
  resolve_from mimeType None l.

(** [GenerateSummary] and [GenerateNativeSummary] of [summary.go]. *)
Definition GenerateSummary (r : ScanReport) : result NativeReportSummary :=
  if negb (SupportedMimes (sr_MimeType r))
  then Err (New ("no generator bound with mime type " +:+ sr_MimeType r))
  else
    let duration := Z.max 0 (sr_EndTime r - sr_StartTime r) in
    let status := if Code (sr_Status r) =? -1 then ErrorStatus else sr_Status r in
    if negb (sr_Status r == SuccessStatus)
    then Ok (mkSummary (sr_UUID r) status EmptyString duration None (sr_StartTime r) (sr_EndTime r) None 0 1 0 None)
    else match sr_Report r with
         | NoText => Err (New ("no report data for " +:+ sr_UUID r +:+ ", status is: " +:+ status))
         | text =>
             match ResolveData (sr_MimeType r) text EmptyString with
             | Err e => Err e
             | Ok None => Err (New "type mismatch")
             | Ok (Some rp) =>
                 let l := GetVulnerabilityItemList rp in
                 let '(severity, summary) := GetSeveritySummary (Some l) in
                 Ok (mkSummary (sr_UUID r) status severity duration summary (sr_StartTime r) (sr_EndTime r)
                       (Scanner rp) 100 1 1 (Some l))
             end
         end.

(** [MergeSummary]: the summaries of one mime type, merged in the order of the
    reports (the loop of [GetSummary] of the scan controller). *)
Fixpoint merge_summaries (acc : gmap string NativeReportSummary) (l : list ScanReport)
    : result (gmap string NativeReportSummary) :=
  match l with
  | [] => Ok acc
  | rp :: l =>
      match GenerateSummary rp with
      | Err e => Err e
      | Ok sum =>
          merge_summaries (<[sr_MimeType rp :=
            match acc !! sr_MimeType rp with Some s => MergeNativeSummary s sum | None => sum end]> acc) l
      end
  end.

(** ** Item lists *)

(** Items up to the digests of their artifacts. *)
Definition same_vulnerability (u v : VulnerabilityItem) : Prop := with_digests [] u = with_digests [] v.
#[export] Instance same_vulnerability_equiv : Equivalence same_vulnerability.
Proof. split; [done|by intros u v|]. intros u v w. unfold same_vulnerability. congruence. Qed.

Lemma same_vulnerability_fields u v : same_vulnerability u v →
  i_ID u = i_ID v ∧ Key u = Key v ∧ i_Severity u = i_Severity v ∧ i_FixVersion u = i_FixVersion v.
Proof.
  intros H. unfold same_vulnerability, with_digests in H. injection H as H1 H2 H3 H4 H5 _ _ _ _ _.
  unfold Key. by rewrite H1, H2, H3, H4, H5.
Qed.

Lemma with_digests_same ds u : same_vulnerability (with_digests ds u) u.
Proof. done. Qed.

(** Adding an item keeps the list and adds the item unless its key is there. *)
Lemma add_item_spec l i :
  (∃ u, u ∈ l ∧ Key u = Key i ∧ Forall2 same_vulnerability (add_item l i) l) ∨
  ((∀ u, u ∈ l → Key u ≠ Key i) ∧ add_item l i = l ++ [i]).
Proof.
  induction l as [|v l IH]; simpl.
  - right. split; [by intros u ?%elem_of_nil|done].
  - destruct (Key v == Key i) eqn:E.
    + apply bool_decide_eq_true in E. left. exists v. split_and!; [left|done|].
      constructor; [done|]. by apply (reflexivity (R := Forall2 same_vulnerability)).
    + apply bool_decide_eq_false in E. destruct IH as [(u & Hu & Hk & HF)|[Hn ->]].
      * left. exists u. split_and!; [by right|done|]. by constructor.
      * right. split; [|done]. intros u [->|Hu]%elem_of_cons; auto.
Qed.

Lemma same_keys l l' : Forall2 same_vulnerability l l' → Key <$> l = Key <$> l'.
Proof.
  induction 1 as [|u v l l' Huv _ IH]; [done|]. apply same_vulnerability_fields in Huv as (_ & Hk & _).
  rewrite !fmap_cons. by f_equal.
Qed.

Lemma add_item_keys l i : Key <$> add_item l i = if decide (Key i ∈ Key <$> l) then Key <$> l else (Key <$> l) ++ [Key i].
Proof.
  destruct (add_item_spec l i) as [(u & Hu & Hk & HF)|[Hn ->]].
  - rewrite decide_True; [by apply same_keys|]. rewrite <- Hk. by apply list_elem_of_fmap_2.
  - rewrite decide_False; [by rewrite fmap_app|]. intros (u & Hk & Hu)%list_elem_of_fmap. by apply (Hn u Hu).
Qed.

Lemma Add_keys_NoDup items : ∀ l, NoDup (Key <$> l) → NoDup (Key <$> Add l items).
Proof.
  induction items as [|i items IH]; intros l Hl; [done|]. simpl. apply IH. rewrite add_item_keys.
  case_decide; [done|]. apply NoDup_app. split_and!; [done| |apply NoDup_singleton].
  by intros k Hk ->%list_elem_of_singleton.
Qed.

(** Every added item has a representative with its key, and every item of the list
    is one that was added. *)
Lemma Add_elem items : ∀ l k, k ∈ Key <$> Add l items ↔ k ∈ Key <$> l ∨ k ∈ Key <$> items.
Proof.
  induction items as [|i items IH]; intros l k; simpl; [rewrite elem_of_nil; tauto|].
  rewrite IH, add_item_keys, elem_of_cons. case_decide.
  - naive_solver.
  - rewrite elem_of_app, list_elem_of_singleton. naive_solver.
Qed.

Lemma Add_origin items : ∀ l v, v ∈ Add l items → ∃ u, (u ∈ l ∨ u ∈ items) ∧ same_vulnerability v u.
Proof.
  induction items as [|i items IH]; intros l v Hv; simpl in Hv; [exists v; split; [by left|done]|].
  apply IH in Hv as (u & [Hu|Hu] & Huv); [|exists u; rewrite elem_of_cons; tauto].
  destruct (add_item_spec l i) as [(x & _ & _ & HF)|[_ He]].
  - apply list_elem_of_lookup in Hu as [n Hn]. destruct (Forall2_lookup_l _ _ _ n u HF Hn) as (y & Hy & Huy).
    exists y. split; [left; by eapply list_elem_of_lookup_2|]. by etrans.
  - rewrite He in Hu. apply elem_of_app in Hu as [Hu|Hu%list_elem_of_singleton].
    + exists u. tauto.
    + subst u. exists i. rewrite elem_of_cons. tauto.
Qed.

(** ** The severity of a list *)

Lemma summary_fold l : ∀ s sum,
  let r := foldl summary_step (s, sum) l in
  SevCode s <= SevCode r.1 ∧ (∀ v, v ∈ l → SevCode (i_Severity v) <= SevCode r.1) ∧
  (r.1 = s ∨ ∃ v, v ∈ l ∧ r.1 = i_Severity v).
Proof.
  induction l as [|v l IH]; intros s sum; simpl.
  { split_and!; [lia|by intros v ?%elem_of_nil|by left]. }
  destruct (IH (if SevCode s <? SevCode (i_Severity v) then i_Severity v else s)
    (mkVulnerabilitySummary (Total sum) (if 0 <? Z.of_nat (String.length (i_FixVersion v)) then Fixable sum + 1 else Fixable sum)
       (<[i_Severity v := default 0 (Summary sum !! i_Severity v) + 1]> (Summary sum)))) as (H1 & H2 & H3).
  set (r := foldl _ _ l) in *. destruct (SevCode s <? SevCode (i_Severity v)) eqn:E.
  - apply Z.ltb_lt in E. split_and!; [lia| |].
    + intros x [->|Hx]%elem_of_cons; [done|by apply H2].
    + right. destruct H3 as [->|(x & Hx & ->)]; [exists v; split; [left|done]|exists x; split; [by right|done]].
  - apply Z.ltb_ge in E. split_and!; [lia| |].
    + intros x [->|Hx]%elem_of_cons; [lia|by apply H2].
    + destruct H3 as [->|(x & Hx & ->)]; [by left|right; exists x; split; [by right|done]].
Qed.

(** ** The status of merged scans *)

Definition known_status (s : string) : Prop := Code s ≠ -1.
Definition status_rank (s : string) : Z :=
  if s == RunningStatus then 6 else if s == StoppedStatus then 5 else if s == SuccessStatus then 4 else Code s.

Definition all_statuses : list string :=
  [PendingStatus; ScheduledStatus; RunningStatus; StoppedStatus; ErrorStatus; SuccessStatus].

Lemma known_cases s : known_status s → s ∈ all_statuses.
Proof.
  intros Hk. destruct (decide (s ∈ all_statuses)) as [|Hn]; [done|]. destruct Hk. unfold Code.
  rewrite !bool_decide_false; [done|intros ->; apply Hn; by apply (bool_decide_unpack _)..].
Qed.

(** A check of all pairs of known statuses. *)
Lemma known_pairs (P : string → string → bool) :
  forallb (λ s, forallb (P s) all_statuses) all_statuses = true →
  ∀ s t, known_status s → known_status t → P s t = true.
Proof.
  intros H s t Hs%known_cases Ht%known_cases. rewrite forallb_forall in H.
  specialize (H s). rewrite forallb_forall in H. apply H; by apply list_elem_of_In.
Qed.

Definition rank_distinct (s t : string) : bool := negb (status_rank s =? status_rank t) || (s == t).
Definition merge_is_max (s t : string) : bool :=
  negb (Code (MergeScanStatus s t) =? -1)
    && (status_rank (MergeScanStatus s t) =? Z.max (status_rank s) (status_rank t)).

Lemma status_rank_inj s t : known_status s → known_status t → status_rank s = status_rank t → s = t.
Proof.
  intros Hs Ht He. pose proof (known_pairs rank_distinct ltac:(vm_compute; reflexivity) s t Hs Ht) as H.
  unfold rank_distinct in H. rewrite He, Z.eqb_refl in H. by apply bool_decide_eq_true in H.
Qed.

Lemma MergeScanStatus_max s t : known_status s → known_status t →
  known_status (MergeScanStatus s t) ∧ status_rank (MergeScanStatus s t) = Z.max (status_rank s) (status_rank t).
Proof.
  intros Hs Ht. pose proof (known_pairs merge_is_max ltac:(vm_compute; reflexivity) s t Hs Ht) as H.
  apply andb_prop in H as [H1 H2]. apply negb_true_iff, Z.eqb_neq in H1. apply Z.eqb_eq in H2. done.
Qed.

(** The status of merged scans does not depend on their order. *)
Lemma merge_statuses_perm l l' s : l ≡ₚ l' → known_status s → Forall known_status l →
  foldl MergeScanStatus s l = foldl MergeScanStatus s l'.
Proof.
  assert (Hstep : ∀ l s, known_status s → Forall known_status l → known_status (foldl MergeScanStatus s l)).
  { induction l0 as [|x l0 IH]; intros s0 Hs Hl; [done|]. apply Forall_cons in Hl as [Hx Hl]. simpl.
    apply IH; [|done]. by apply MergeScanStatus_max. }
  intros Hp. revert s. induction Hp as [|x l l' _ IH|x y l|l1 l2 l3 H12 IH1 H23 IH2]; intros s Hs Hl; simpl.
  - done.
  - apply Forall_cons in Hl as [Hx Hl]. apply IH; [|done]. by apply MergeScanStatus_max.
  - apply Forall_cons in Hl as [Hy Hl]. apply Forall_cons in Hl as [Hx Hl]. f_equal.
    destruct (MergeScanStatus_max s x Hs Hx) as [K1 R1], (MergeScanStatus_max s y Hs Hy) as [K2 R2].
    destruct (MergeScanStatus_max _ y K1 Hy) as [K3 R3], (MergeScanStatus_max _ x K2 Hx) as [K4 R4].
    apply status_rank_inj; [done..|]. rewrite R3, R4, R1, R2. lia.
  - rewrite IH1 by done. apply IH2; [done|]. by rewrite <- H12.
Qed.

(** ** Identifiers of merged reports *)

Definition dash : Ascii.ascii := Ascii.ascii_of_N 45.

Lemma no_char_false c a s : no_char c (String a s) = false ↔ a = c ∨ no_char c s = false.
Proof. unfold no_char. simpl. rewrite andb_false_iff, negb_false_iff, bool_decide_eq_true. tauto. Qed.

Lemma dash_not_digit x : x = dash → dec_char x = None ∧ x ≠ pad.
Proof. by intros ->. Qed.

Lemma decode_groups_dash n : ∀ s, (String.length s <= n)%nat → no_char dash s = false → decode_groups s = None.
Proof.
  induction n as [|n IH]; intros [|a [|b [|c [|d s]]]] Hl Hd; simpl in Hl; try lia; try done.
  cbn [decode_groups]. rewrite !no_char_false in Hd.
  destruct Hd as [Ha|[Hb|[Hc|[Hd|Hs]]]].
  - by destruct (dash_not_digit a Ha) as [-> _].
  - destruct (dash_not_digit b Hb) as [-> _]. by destruct (dec_char a).
  - destruct (dash_not_digit c Hc) as [-> Hp]. rewrite bool_decide_false by done.
    by destruct (dec_char a), (dec_char b).
  - destruct (dash_not_digit d Hd) as [-> Hp]. rewrite (bool_decide_false (d = pad)) by done.
    rewrite (bool_decide_false (d = pad ∧ _)) by tauto.
    destruct (dec_char a), (dec_char b); try done. simpl. destruct (bool_decide (c = pad)); [done|]. by destruct (dec_char c).
  - rewrite IH by first [lia|done]. assert (s ≠ EmptyString) as Hne by by intros ->.
    rewrite (bool_decide_false (s = EmptyString)) by done. rewrite (bool_decide_false (d = pad ∧ _)) by tauto.
    destruct (dec_char a), (dec_char b); try done. simpl. destruct (bool_decide (c = pad)); [done|].
    destruct (dec_char c); [|done]. simpl. destruct (bool_decide (d = pad)); [done|]. by destruct (dec_char d).
Qed.

Lemma skip_ends_dash s : no_char dash s = false → no_char dash (skip_ends s) = false.
Proof.
  unfold no_char. induction s as [|c s IH]; [done|]. simpl. destruct (decide (c = dash)) as [->|Hc]; [done|].
  rewrite bool_decide_eq_false_2 by exact Hc. simpl. intros H. destruct (_ || _); [auto|]. simpl.
  rewrite bool_decide_eq_false_2 by exact Hc. simpl. auto.
Qed.

(** A UUID has a dash and is not a text of the encoding. *)
Lemma uuid_not_encoded s : no_char dash s = false → decoded s = s.
Proof.
  intros H. unfold decoded, DecodeString. by rewrite (decode_groups_dash _ _ (le_n _) (skip_ends_dash s H)).
Qed.

Definition plain_id (s : string) : Prop := no_char dash s = false ∧ no_char reportIDSeparator s = true.

Lemma decoded_merged us : ∀ u, decoded (foldl mergeReportID u us) = foldl (λ x y, x +:+ String reportIDSeparator y) (decoded u) us.
Proof.
  induction us as [|v us IH]; intros u; [done|]. simpl. rewrite IH. unfold mergeReportID.
  unfold decoded at 1. by rewrite Decode_Encode.
Qed.

Lemma Split_snoc_id y s : no_char reportIDSeparator y = true →
  Split (s +:+ String reportIDSeparator y) reportIDSeparator = Split s reportIDSeparator ++ [y].
Proof.
  intros Hy. induction s as [|c s IH]; simpl; [by rewrite Split_one|].
  case_bool_decide as E; [by rewrite IH|]. rewrite IH. by destruct (Split s _) eqn:Es; [destruct (Split_nonempty s _ Es)|].
Qed.

Lemma Split_joined us : ∀ x, Forall (λ y, no_char reportIDSeparator y = true) us →
  Split (foldl (λ x y, x +:+ String reportIDSeparator y) x us) reportIDSeparator = Split x reportIDSeparator ++ us.
Proof.
  induction us as [|v us IH]; intros x Hus; simpl; [by rewrite app_nil_r|]. apply Forall_cons in Hus as [Hv Hus].
  rewrite IH by done. rewrite (Split_snoc_id v x Hv). by rewrite <- app_assoc.
Qed.

(** Further property (round trip): the identifier of a merged summary decodes to the identifiers of
    the reports that were merged, in their order. *)
Theorem report_ids_roundtrip u us :
  plain_id u → Forall (λ y, no_char reportIDSeparator y = true) us →
  ParseReportIDs (foldl mergeReportID u us) = u :: us.
Proof.
  intros [Hd Hu] Hus. unfold ParseReportIDs. rewrite decoded_merged, uuid_not_encoded by done.
  by rewrite Split_joined, Split_one.
Qed.

Lemma report_ids_roundtrip_witness :
  ParseReportIDs (foldl mergeReportID "3f2504e0-4f89-11d3-9a0c-0305e82c3301"%string
    ["3f2504e0-4f89-11d3-9a0c-0305e82c3302"; "3f2504e0-4f89-11d3-9a0c-0305e82c3303"]%string) =
  ["3f2504e0-4f89-11d3-9a0c-0305e82c3301"; "3f2504e0-4f89-11d3-9a0c-0305e82c3302"; "3f2504e0-4f89-11d3-9a0c-0305e82c3303"]%string.
Proof. apply report_ids_roundtrip; [by split|by repeat constructor]. Defined.
