(* ===== verification/ScanStore.v ===== *)
(** * Scanners, scan reports and vulnerability records

    [src/pkg/scan/dao/scanner], [src/pkg/scan/scanner], [src/pkg/scan/dao/scan],
    [src/pkg/scan/report/manager.go] and the converter of
    [src/pkg/scan/postprocessors/report_converters.go], which stores the
    vulnerabilities of a report as records that the reports of one scanner share.
    New UUIDs are arguments.  Authentication settings and health of a scanner are
    not modelled. *)

From S2P Require Import Prelude GoErrors GoStrings Orm Table Hoare VulnReport.
Open Scope Z_scope.
Local Open Scope harbor_scope.

(** ** Models *)

(** [v1.ScannerCapability] *)
Record Capability := mkCapability { ConsumesMimeTypes : list string; ProducesMimeTypes : list string }.

(** The columns of [src/pkg/scan/dao/scanner/model.go]. *)
Record Registration := mkRegistration {
  g_ID : Z; g_UUID : string; g_Name : string; g_URL : string; g_Disabled : bool; g_IsDefault : bool;
  g_UseInternalAddr : bool; g_Immutable : bool; g_CreateTime : Z;
  g_Metadata : option (list Capability) }.

(** [HasCapability], [GetProducesMimeTypes]; the metadata is what the scanner
    answered, [None] when it did not answer. *)
Definition HasCapability (r : Registration) (manifestMimeType : string) : bool :=
  match g_Metadata r with
  | None => false
  | Some cs => bool_decide (filter (λ c, manifestMimeType ∈ ConsumesMimeTypes c) cs ≠ [])
  end.
Definition GetProducesMimeTypes (r : Registration) (mimeType : string) : list string :=
  match g_Metadata r with
  | None => []
  | Some cs => match filter (λ c, mimeType ∈ ConsumesMimeTypes c) cs with c :: _ => ProducesMimeTypes c | [] => [] end
  end.

(** [src/pkg/scan/dao/scan/model.go] *)
Record VulnerabilityRecord := mkRecord {
  vr_ID : Z; vr_CVEID : string; vr_RegistrationUUID : string; vr_Package : string; vr_PackageVersion : string;
  vr_PackageType : string; vr_Severity : string; vr_Fix : string; vr_URLs : string; vr_CVSS : CVSS;
  vr_Description : string; vr_CWEIDs : string; vr_VendorAttributes : string }.
Definition record_Key (r : VulnerabilityRecord) : string :=
  vr_CVEID r +:+ "-" +:+ vr_Package r +:+ "-" +:+ vr_PackageVersion r.

Record ReportVulnerabilityRecord := mkRVR { rv_ID : Z; rv_Report : string; rv_VulnRecordID : Z }.

Record ScanDB := mkScanDB {
  registrations : table Registration;
  sreports : table ScanReport;
  vulns : table VulnerabilityRecord;
  report_vulns : table ReportVulnerabilityRecord;
}.
Definition set_registrations (x : table Registration) (d : ScanDB) : ScanDB :=
  mkScanDB x (sreports d) (vulns d) (report_vulns d).
Definition set_sreports (x : table ScanReport) (d : ScanDB) : ScanDB :=
  mkScanDB (registrations d) x (vulns d) (report_vulns d).
Definition set_vulns (x : table VulnerabilityRecord) (d : ScanDB) : ScanDB :=
  mkScanDB (registrations d) (sreports d) x (report_vulns d).
Definition set_report_vulns (x : table ReportVulnerabilityRecord) (d : ScanDB) : ScanDB :=
  mkScanDB (registrations d) (sreports d) (vulns d) x.

Definition dup_key : error := PgError "23505" "duplicate key value violates unique constraint".
Definition bad_reference : error := PgError "23503" "violates foreign key constraint".

(** A link to a record of the scanner. *)
Definition of_scanner (registration : string) (d : ScanDB) (x : ReportVulnerabilityRecord) : bool :=
  match rows (vulns d) !! rv_VulnRecordID x with
  | Some v => vr_RegistrationUUID v == registration
  | None => false
  end.

(** ** Scanners: [src/pkg/scan/dao/scanner/registration.go] *)

Module scanner_dao.

Definition with_id (n : Z) (r : Registration) : Registration :=
  mkRegistration n (g_UUID r) (g_Name r) (g_URL r) (g_Disabled r) (g_IsDefault r) (g_UseInternalAddr r)
    (g_Immutable r) (g_CreateTime r) None.

Definition AddRegistration (r : Registration) : M ScanDB Z :=
  _ ← FromContext;
  x ← try (stmt (λ d,
    if decide (select (λ x, g_UUID x = g_UUID r ∨ g_Name x = g_Name r ∨ g_URL x = g_URL r) (registrations d) = [])
    then (Ok (next (registrations d)), set_registrations (add_row (λ n, with_id n r) (registrations d)) d)
    else (Err dup_key, d)));
  match x with
  | Ok id => mret id
  | Err e => fail (WrapConflictError e "registration name or url already exists")
  end.

(** [None] is the nil registration of a UUID that does not exist. *)
Definition GetRegistration (uuid : string) : M ScanDB (option Registration) :=
  _ ← FromContext; query (λ d, Ok (head (select (λ r, g_UUID r = uuid) (registrations d)))).

Definition GetDefaultRegistration : M ScanDB (option Registration) :=
  _ ← FromContext; query (λ d, Ok (head (select (λ r, g_IsDefault r = true) (registrations d)))).

Definition UpdateRegistration (r : Registration) : M ScanDB unit :=
  _ ← FromContext;
  n ← stmt (λ d,
    match rows (registrations d) !! g_ID r with
    | Some _ => (Ok 1, set_registrations (put_row (g_ID r) (with_id (g_ID r) r) (registrations d)) d)
    | None => (Ok 0, d)
    end);
  if n =? 0 then fail (New ("no item with UUID " +:+ g_UUID r +:+ " is updated")) else mret tt.

(** Reports do not refer to the table of scanners; vulnerability records do and go
    with it, and the links of those records. *)
Definition DeleteRegistration (uuid : string) : M ScanDB unit :=
  _ ← FromContext;
  n ← stmt (λ d,
    match select (λ r, g_UUID r = uuid) (registrations d) with
    | [] => (Ok 0, d)
    | _ =>
        (Ok 1, mkScanDB (del_rows (λ r, g_UUID r = uuid) (registrations d)) (sreports d)
                 (del_rows (λ v, vr_RegistrationUUID v = uuid) (vulns d))
                 (del_rows (λ x, of_scanner uuid d x = true) (report_vulns d)))
    end);
  if n =? 0 then fail (New ("no item with UUID " +:+ uuid +:+ " is deleted")) else mret tt.

Definition mark (b : bool) (r : Registration) : Registration :=
  mkRegistration (g_ID r) (g_UUID r) (g_Name r) (g_URL r) (g_Disabled r) b (g_UseInternalAddr r)
    (g_Immutable r) (g_CreateTime r) (g_Metadata r).
Definition update_where (P : Registration → bool) (f : Registration → Registration) (t : table Registration)
    : table Registration :=
  mkTable ((λ r, if P r then f r else r) <$> rows t) (seq t).

Definition SetDefaultRegistration (uuid : string) : M ScanDB unit :=
  WithTransaction (
    _ ← FromContext;
    n ← stmt (λ d,
      let P r := (g_UUID r == uuid) && negb (g_Disabled r) in
      (Ok (length (select (λ r, P r = true) (registrations d))),
       set_registrations (update_where P (mark true) (registrations d)) d));
    if bool_decide (n = 0%nat)
    then fail (WithMessage (NotFoundError None) ("registration " +:+ uuid +:+ " not found"))
    else stmt (λ d, (Ok tt, set_registrations
           (update_where (λ r, negb (g_UUID r == uuid) && g_IsDefault r) (mark false) (registrations d)) d))).

End scanner_dao.

(** ** Reports: [src/pkg/scan/dao/scan/report.go], [src/pkg/scan/report/manager.go] *)

Module report_dao.

Definition with_id (n : Z) (r : ScanReport) : ScanReport :=
  mkScanReport n (sr_UUID r) (sr_Digest r) (sr_RegistrationUUID r) (sr_MimeType r) (sr_Report r) EmptyString 0 0.

(** Unique on the UUID and on (digest, registration_uuid, mime_type).  Only the error
    of the context is turned into a conflict. *)
Definition Create (r : ScanReport) : M ScanDB Z :=
  x ← try FromContext;
  match x with
  | Err e => fail (WrapConflictError e ("a previous scan report found for artifact " +:+ sr_Digest r))
  | Ok _ =>
      stmt (λ d,
        if decide (select (λ x, sr_UUID x = sr_UUID r ∨
             sr_Digest x = sr_Digest r ∧ sr_RegistrationUUID x = sr_RegistrationUUID r ∧ sr_MimeType x = sr_MimeType r)
             (sreports d) = [])
        then (Ok (next (sreports d)), set_sreports (add_row (λ n, with_id n r) (sreports d)) d)
        else (Err dup_key, d))
  end.

(** The links to vulnerability records go with a report. *)
Definition DeleteMany (P : ScanReport → Prop) `{!∀ r, Decision (P r)} : M ScanDB Z :=
  _ ← FromContext;
  stmt (λ d, let gone := select P (sreports d) in
    (Ok (Z.of_nat (length gone)),
     set_report_vulns (del_rows (λ x, rv_Report x ∈ sr_UUID <$> gone) (report_vulns d))
       (set_sreports (del_rows P (sreports d)) d))).

Definition List (P : ScanReport → Prop) `{!∀ r, Decision (P r)} : M ScanDB (list ScanReport) :=
  _ ← FromContext; query (λ d, Ok (select P (sreports d))).

Definition set_text (t : ReportText) (r : ScanReport) : ScanReport :=
  mkScanReport (sr_ID r) (sr_UUID r) (sr_Digest r) (sr_RegistrationUUID r) (sr_MimeType r) t (sr_Status r)
    (sr_StartTime r) (sr_EndTime r).
Definition UpdateReportData (uuid : string) (t : ReportText) : M ScanDB unit :=
  _ ← FromContext;
  stmt (λ d, (Ok tt, set_sreports (mkTable ((λ r, if sr_UUID r == uuid then set_text t r else r) <$> rows (sreports d))
                                     (seq (sreports d))) d)).

End report_dao.

(** ** Vulnerability records: [src/pkg/scan/dao/scan/vulnerability.go] *)

Module vuln_dao.

Definition same_record (x y : VulnerabilityRecord) : Prop :=
  vr_CVEID x = vr_CVEID y ∧ vr_RegistrationUUID x = vr_RegistrationUUID y ∧
  vr_Package x = vr_Package y ∧ vr_PackageVersion x = vr_PackageVersion y.
#[export] Instance same_record_dec x y : Decision (same_record x y).
Proof. unfold same_record. apply _. Defined.

Definition with_id (n : Z) (r : VulnerabilityRecord) : VulnerabilityRecord :=
  mkRecord n (vr_CVEID r) (vr_RegistrationUUID r) (vr_Package r) (vr_PackageVersion r) (vr_PackageType r)
    (vr_Severity r) (vr_Fix r) (vr_URLs r) (vr_CVSS r) (vr_Description r) (vr_CWEIDs r) (vr_VendorAttributes r).

(** [orm.ReadOrCreate] of [src/lib/orm/orm.go], on the unique columns. *)
Definition read (r : VulnerabilityRecord) : M ScanDB Z :=
  query (λ d, match head (select (same_record r) (vulns d)) with
              | Some x => Ok (vr_ID x)
              | None => Err ErrNoRows
              end).
Definition insert (r : VulnerabilityRecord) (d : ScanDB) : result Z * ScanDB :=
  if decide (select (same_record r) (vulns d) = [])
  then if decide (select (λ g, g_UUID g = vr_RegistrationUUID r) (registrations d) = [])
       then (Err bad_reference, d)
       else (Ok (next (vulns d)), set_vulns (add_row (λ n, with_id n r) (vulns d)) d)
  else (Err dup_key, d).
Definition Create (r : VulnerabilityRecord) : M ScanDB Z :=
  _ ← FromContext;
  x ← try (read r);
  match x with
  | Ok id => mret id
  | Err e =>
      if negb (Is_NoRows e) then fail e
      else
        y ← try (WithTransaction (_ ← FromContext; stmt (insert r)));
        match y with
        | Ok id => mret id
        | Err e => if IsDuplicateKeyError e then read r else fail e
        end
  end.

Definition List (P : VulnerabilityRecord → Prop) `{!∀ r, Decision (P r)} : M ScanDB (list VulnerabilityRecord) :=
  _ ← FromContext; query (λ d, Ok (select P (vulns d))).

(** [Update] of the column [severity]; the number of rows is not looked at. *)
Definition set_severity (s : string) (r : VulnerabilityRecord) : VulnerabilityRecord :=
  mkRecord (vr_ID r) (vr_CVEID r) (vr_RegistrationUUID r) (vr_Package r) (vr_PackageVersion r) (vr_PackageType r)
    s (vr_Fix r) (vr_URLs r) (vr_CVSS r) (vr_Description r) (vr_CWEIDs r) (vr_VendorAttributes r).
Definition Update (id : Z) (severity : string) : M ScanDB unit :=
  _ ← FromContext;
  stmt (λ d, (Ok tt, match rows (vulns d) !! id with
                     | Some r => set_vulns (put_row id (set_severity severity r) (vulns d)) d
                     | None => d
                     end)).

(** [InsertMulti]: each row refers to an existing report and record, and no pair
    occurs twice. *)
Definition insert_link (uuid : string) (id : Z) (d : ScanDB) : option ScanDB :=
  if decide (select (λ x, rv_Report x = uuid ∧ rv_VulnRecordID x = id) (report_vulns d) = [] ∧
             select (λ r, sr_UUID r = uuid) (sreports d) ≠ [] ∧ is_Some (rows (vulns d) !! id))
  then Some (set_report_vulns (add_row (λ n, mkRVR n uuid id) (report_vulns d)) d)
  else None.
Fixpoint insert_links (uuid : string) (ids : list Z) (d : ScanDB) : option ScanDB :=
  match ids with
  | [] => Some d
  | id :: ids => d' ← insert_link uuid id d; insert_links uuid ids d'
  end.
Definition InsertForReport (uuid : string) (ids : list Z) : M ScanDB unit :=
  match ids with
  | [] => mret tt
  | _ =>
      WithTransaction (
        _ ← FromContext;
        stmt (λ d, match insert_links uuid (remove_dups ids) d with
                   | Some d' => (Ok tt, d')
                   | None => (Err dup_key, d)
                   end))
  end.

Definition DeleteForReport (uuid : string) : M ScanDB unit :=
  _ ← FromContext;
  stmt (λ d, (Ok tt, set_report_vulns (del_rows (λ x, rv_Report x = uuid) (report_vulns d)) d)).

(** The inner join. *)
Definition GetForReport (uuid : string) : M ScanDB (list VulnerabilityRecord) :=
  _ ← FromContext;
  query (λ d, Ok (omap (λ x, rows (vulns d) !! rv_VulnRecordID x)
                    (select (λ x, rv_Report x = uuid) (report_vulns d)))).

Definition DeleteForDigests (digests : list string) : M ScanDB unit :=
  l ← report_dao.List (λ r, sr_Digest r ∈ digests);
  (fix go (l : list ScanReport) : M ScanDB unit :=
     match l with [] => mret tt | r :: l => _ ← DeleteForReport (sr_UUID r); go l end) l.

Definition DeleteForScanner (registration : string) : M ScanDB unit :=
  _ ← FromContext;
  stmt (λ d, (Ok tt, set_report_vulns
    (del_rows (λ x, of_scanner registration d x = true) (report_vulns d))
    (set_vulns (del_rows (λ v, vr_RegistrationUUID v = registration) (vulns d)) d))).

End vuln_dao.

Module report_mgr.

(** [uuid] is the result of [uuid.New]. *)
Definition Create (uuid : string) (r : ScanReport) : M ScanDB string :=
  if (sr_Digest r == "") || (sr_RegistrationUUID r == "") || (sr_MimeType r == "")
  then fail (New "malformed scan report object")
  else _ ← report_dao.Create (mkScanReport 0 uuid (sr_Digest r) (sr_RegistrationUUID r) (sr_MimeType r) (sr_Report r)
             EmptyString 0 0);
       mret uuid.

Definition Delete (uuid : string) : M ScanDB unit :=
  _ ← vuln_dao.DeleteForReport uuid;
  count ← report_dao.DeleteMany (λ r, sr_UUID r = uuid);
  if count =? 0 then fail (New ("no report with uuid " +:+ uuid +:+ " deleted")) else mret tt.

Definition GetBy (digest registration : string) (mimeTypes : list string) : M ScanDB (list ScanReport) :=
  if digest == "" then fail (New "empty digest to get report data")
  else report_dao.List (λ r, sr_Digest r = digest ∧ (registration = EmptyString ∨ sr_RegistrationUUID r = registration) ∧
                             (mimeTypes = [] ∨ sr_MimeType r ∈ mimeTypes)).

Definition UpdateReportData (uuid : string) (t : ReportText) : M ScanDB unit :=
  if uuid == "" then fail (New "missing uuid")
  else match t with
       | NoText => fail (New "missing report JSON data")
       | _ => report_dao.UpdateReportData uuid t
       end.

Definition DeleteByDigests (digests : list string) : M ScanDB unit :=
  match digests with
  | [] => mret tt
  | _ => _ ← vuln_dao.DeleteForDigests digests;
         _ ← report_dao.DeleteMany (λ r, sr_Digest r ∈ digests);
         mret tt
  end.

End report_mgr.

(** ** The converter: [src/pkg/scan/postprocessors/report_converters.go] *)

Module converter.
Section converter.
Context (title : string → string).

Definition toVulnerabilityRecord (item : VulnerabilityItem) (registration : string) : VulnerabilityRecord :=
  mkRecord 0 (i_ID item) registration (i_Package item) (i_Version item) "Unknown" (i_Severity item)
    (i_FixVersion item) (String.concat "|" (i_Links item)) (i_CVSS item) (i_Description item)
    (String.concat "," (i_CWEIds item)) (i_VendorAttributes item).

Definition toVulnerabilityItem (digest : string) (r : VulnerabilityRecord) : VulnerabilityItem :=
  mkItem (vr_CVEID r) (vr_Package r) (vr_PackageVersion r) (vr_Fix r) (ParseSeverityVersion3 title (vr_Severity r))
    (vr_Description r) (Split (vr_URLs r) (Ascii.ascii_of_N 124)) [digest] (vr_CVSS r)
    (Split (vr_CWEIDs r) (Ascii.ascii_of_N 44)) (vr_VendorAttributes r).

Definition normalized (i : VulnerabilityItem) : VulnerabilityItem :=
  mkItem (i_ID i) (i_Package i) (i_Version i) (i_FixVersion i) (ParseSeverityVersion3 title (i_Severity i))
    (i_Description i) (i_Links i) (i_ArtifactDigests i) (i_CVSS i) (i_CWEIds i) (i_VendorAttributes i).

(** The loop over the records that are there: their keys, their numbers, and the
    severities to change. *)
Fixpoint existing (l : list VulnerabilityItem) (records : list VulnerabilityRecord)
    : gset string * list Z * list (Z * string) :=
  match records with
  | [] => (∅, [], [])
  | r :: records =>
      let '(s, ids, changed) := existing l records in
      match GetItem l (record_Key r) with
      | None => (s, ids, changed)
      | Some v =>
          ({[record_Key r]} ∪ s, vr_ID r :: ids,
           if vr_Severity r == i_Severity v then changed else (vr_ID r, i_Severity v) :: changed)
      end
  end.

Fixpoint update_severities (l : list (Z * string)) : M ScanDB unit :=
  match l with
  | [] => mret tt
  | (id, s) :: l => _ ← vuln_dao.Update id s; update_severities l
  end.

Fixpoint create_records (registration : string) (l : list VulnerabilityItem) : M ScanDB (list Z) :=
  match l with
  | [] => mret []
  | v :: l => id ← vuln_dao.Create (toVulnerabilityRecord v registration);
              ids ← create_records registration l; mret (id :: ids)
  end.

Definition toSchema (reportUUID registration : string) (r : Report) : M ScanDB unit :=
  let items := normalized <$> Vulnerabilities r in
  records ← vuln_dao.List (λ x, vr_CVEID x ∈ i_ID <$> items ∧ vr_RegistrationUUID x = registration);
  let '(s, ids, changed) := existing (Add [] items) records in
  _ ← update_severities changed;
  new ← create_records registration (filter (λ v, Key v ∉ s) items);
  vuln_dao.InsertForReport reportUUID (ids ++ new).

Definition ToRelationalSchema (reportUUID registration : string) (t : ReportText) : M ScanDB ReportText :=
  match t with
  | NoText => mret NoText
  | Garbage => fail (PlainError "Error when toSchema V1 report to V2")
  | Doc r =>
      _ ← toSchema reportUUID registration r;
      mret (Doc (mkReport (GeneratedAt r) (Scanner r) (r_Severity r) [] None))
  end.

Definition FromRelationalSchema (reportUUID digest : string) (t : ReportText) : M ScanDB ReportText :=
  records ← vuln_dao.GetForReport reportUUID;
  match t with
  | NoText => mret NoText
  | Garbage => fail (PlainError "invalid character")
  | Doc r =>
      match records with
      | [] => mret (Doc r)
      | _ => mret (Doc (mkReport (GeneratedAt r) (Scanner r) (r_Severity r) (toVulnerabilityItem digest <$> records) None))
      end
  end.

End converter.
End converter.
