(* ===== verification/ScanSpec.v ===== *)
(** * Reports in the database: no vulnerability is lost

    A report is stored as a text without its vulnerabilities and a set of records
    that the reports of a scanner share; reading it back assembles it again.  The
    invariant [scan_ok] has the keys and unique constraints of the tables.  The
    round trip keeps every vulnerability with its severity, as long as the texts
    that [Key] makes of different vulnerabilities differ. *)

From S2P Require Import Prelude GoErrors GoStrings Orm Table Hoare VulnReport ScanStore.
Open Scope Z_scope.
Local Open Scope harbor_scope.

Definition same_link (x y : ReportVulnerabilityRecord) : Prop :=
  rv_Report x = rv_Report y ∧ rv_VulnRecordID x = rv_VulnRecordID y.
#[export] Instance same_link_sym : Symmetric same_link.
Proof. intros x y []. by split. Qed.
#[export] Instance same_record_sym : Symmetric vuln_dao.same_record.
Proof. intros x y (? & ? & ? & ?). by split_and!. Qed.

Record scan_ok (d : ScanDB) : Prop := mk_scan_ok {
  ok_vulns : tab_ok vr_ID vuln_dao.same_record (λ _, True) (vulns d);
  ok_links : tab_ok rv_ID same_link (λ x, is_Some (rows (vulns d) !! rv_VulnRecordID x)) (report_vulns d);
}.

(** The columns that identify a vulnerability of a scanner. *)
Definition record_of (reg : string) (v : VulnerabilityItem) (x : VulnerabilityRecord) : Prop :=
  vr_CVEID x = i_ID v ∧ vr_RegistrationUUID x = reg ∧ vr_Package x = i_Package v ∧ vr_PackageVersion x = i_Version v.
Definition same_columns (u v : VulnerabilityItem) : Prop :=
  i_ID u = i_ID v ∧ i_Package u = i_Package v ∧ i_Version u = i_Version v.

Lemma record_of_key reg v x : record_of reg v x → record_Key x = Key v.
Proof. intros (H1 & _ & H2 & H3). unfold record_Key, Key. by rewrite H1, H2, H3. Qed.

(** ** The first item of a key stands for it *)

Definition option_same (o p : option VulnerabilityItem) : Prop :=
  match o, p with Some u, Some v => same_vulnerability u v | None, None => True | _, _ => False end.

Lemma head_filter_app {A} (P : A → Prop) `{!∀ x, Decision (P x)} l l' :
  head (filter P (l ++ l')) = match head (filter P l) with Some x => Some x | None => head (filter P l') end.
Proof. rewrite filter_app. by destruct (filter P l). Qed.

Lemma head_filter_same k l l' : Forall2 same_vulnerability l l' →
  option_same (head (filter (λ v, Key v = k) l)) (head (filter (λ v, Key v = k) l')).
Proof.
  induction 1 as [|u v l l' Huv _ IH]; [done|]. rewrite !filter_cons.
  pose proof (same_vulnerability_fields _ _ Huv) as (_ & Hk & _). rewrite Hk. by case_decide.
Qed.

#[export] Instance option_same_refl : Reflexive option_same.
Proof. by intros [v|]. Qed.

Lemma option_same_trans o p q : option_same o p → option_same p q → option_same o q.
Proof. destruct o, p, q; simpl; try done. by intros -> ->. Qed.

Lemma GetItem_Add items : ∀ l k, option_same (GetItem (Add l items) k) (head (filter (λ v, Key v = k) (l ++ items))).
Proof.
  induction items as [|i items IH]; intros l k; simpl.
  { rewrite app_nil_r. reflexivity. }
  eapply option_same_trans; [apply IH|]. rewrite !head_filter_app.
  destruct (add_item_spec l i) as [(u & Hu & Hk & HF)|[Hn ->]].
  - pose proof (head_filter_same k _ _ HF) as Hs.
    destruct (head (filter _ (add_item l i))) as [x|], (head (filter _ l)) as [y|] eqn:El; try done.
    rewrite filter_cons. case_decide as Hi; [|reflexivity].
    exfalso. apply head_None in El. rewrite filter_nil_iff, Forall_forall in El. apply (El u Hu). congruence.
  - rewrite head_filter_app, (filter_cons _ i items), (filter_cons _ i []).
    destruct (head (filter _ l)); [reflexivity|]. by case_decide.
Qed.

Lemma GetItem_Some l k v : GetItem l k = Some v → v ∈ l ∧ Key v = k.
Proof. unfold GetItem. intros H%head_Some_elem_of%list_elem_of_filter. tauto. Qed.

Lemma GetItem_unique l v : NoDup (Key <$> l) → v ∈ l → GetItem l (Key v) = Some v.
Proof.
  intros Hn Hv. unfold GetItem. destruct (head _) as [u|] eqn:E.
  - apply head_Some_elem_of, list_elem_of_filter in E as [Hk Hu]. f_equal.
    apply list_elem_of_lookup in Hu as [i Hi], Hv as [j Hj].
    assert (i = j) as ->; [|congruence]. eapply (NoDup_lookup _ i j (Key v) Hn); rewrite list_lookup_fmap.
    + by rewrite Hi, <- Hk.
    + by rewrite Hj.
  - apply head_None, filter_nil_iff in E. rewrite Forall_forall in E. by destruct (E v Hv).
Qed.

(** ** The loops of the converter *)

Lemma existing_spec l R :
  let '(s, ids, changed) := converter.existing l R in
  (∀ k, k ∈ s ↔ ∃ x, x ∈ R ∧ record_Key x = k ∧ is_Some (GetItem l k)) ∧
  (∀ id, id ∈ ids ↔ ∃ x, x ∈ R ∧ vr_ID x = id ∧ is_Some (GetItem l (record_Key x))) ∧
  (∀ id sv, (id, sv) ∈ changed → ∃ x v, x ∈ R ∧ vr_ID x = id ∧ GetItem l (record_Key x) = Some v ∧ sv = i_Severity v) ∧
  (∀ x v, x ∈ R → GetItem l (record_Key x) = Some v → vr_Severity x = i_Severity v ∨ (vr_ID x, i_Severity v) ∈ changed).
Proof.
  induction R as [|r R IH]; simpl.
  { split_and!; [| |by intros ? ? ?%elem_of_nil|by intros ? ? ?%elem_of_nil].
    - intros k. split; [set_solver|]. by intros (x & ?%elem_of_nil & _).
    - intros k. split; [by intros ?%elem_of_nil|]. by intros (x & ?%elem_of_nil & _). }
  destruct (converter.existing l R) as [[s ids] changed]. destruct IH as (I1 & I2 & I3 & I4).
  destruct (GetItem l (record_Key r)) as [v|] eqn:E.
  - split_and!.
    + intros k. rewrite elem_of_union, elem_of_singleton, I1. setoid_rewrite elem_of_cons. split.
      * intros [->|(x & Hx & H)]; [exists r; rewrite E; eauto 10|exists x; tauto].
      * intros (x & [->|Hx] & Hk & H); [by left|right; eauto].
    + intros id. rewrite elem_of_cons, I2. setoid_rewrite elem_of_cons. split.
      * intros [->|(x & Hx & H)]; [exists r; rewrite E; eauto 10|exists x; tauto].
      * intros (x & [->|Hx] & Hk & H); [by left|right; eauto].
    + intros id sv Hc. destruct (vr_Severity r == i_Severity v).
      * apply I3 in Hc as (x & u & Hx & H). exists x, u. rewrite elem_of_cons. tauto.
      * apply elem_of_cons in Hc as [[= -> ->]|Hc].
        -- exists r, v. rewrite elem_of_cons. tauto.
        -- apply I3 in Hc as (x & u & Hx & H). exists x, u. rewrite elem_of_cons. tauto.
    + intros x u [->|Hx]%elem_of_cons Hu.
      * rewrite E in Hu. injection Hu as <-. destruct (vr_Severity r == i_Severity v) eqn:Es.
        -- left. by apply bool_decide_eq_true in Es.
        -- right. left.
      * destruct (I4 x u Hx Hu) as [H|H]; [by left|right]. destruct (_ == _); [done|]. by right.
  - split_and!; try done.
    + intros k. rewrite I1. setoid_rewrite elem_of_cons. split; [intros (x & Hx & H); exists x; tauto|].
      intros (x & [->|Hx] & Hk & H); [|eauto]. rewrite <- Hk, E in H. by destruct H.
    + intros k. rewrite I2. setoid_rewrite elem_of_cons. split; [intros (x & Hx & H); exists x; tauto|].
      intros (x & [->|Hx] & Hk & H); [|eauto]. rewrite E in H. by destruct H.
    + intros id sv (x & u & Hx & H)%I3. exists x, u. rewrite elem_of_cons. tauto.
    + intros x u [->|Hx]%elem_of_cons Hu; [congruence|eauto].
Qed.

(** Only severities differ, as the list says. *)
Definition updated (changed : list (Z * string)) (V V' : table VulnerabilityRecord) : Prop :=
  seq V' = seq V ∧
  (∀ i x, rows V !! i = Some x → ∃ x', rows V' !! i = Some x') ∧
  (∀ i x', rows V' !! i = Some x' → ∃ x, rows V !! i = Some x ∧
     ((∃ sv, (i, sv) ∈ changed ∧ x' = vuln_dao.set_severity sv x) ∨ (∀ sv, (i, sv) ∉ changed) ∧ x' = x)).

(** The other tables. *)
Definition rest_same (d d' : ScanDB) : Prop :=
  registrations d' = registrations d ∧ sreports d' = sreports d ∧ report_vulns d' = report_vulns d.

Lemma update_severities_spec changed : ∀ d0,
  spec (λ d, d = d0) (converter.update_severities changed)
    (λ _ d, rest_same d0 d ∧ updated changed (vulns d0) (vulns d)) (λ _, True).
Proof.
  induction changed as [|[i s] changed IH]; intros d0; simpl.
  { apply spec_ret. intros d ->. split; [done|]. split_and!; [done|eauto|]. intros i x Hx. exists x.
    split; [done|]. right. split; [by intros sv ?%elem_of_nil|done]. }
  eapply (spec_bind _ _ (λ _ d, rest_same d0 d ∧ vulns d = match rows (vulns d0) !! i with
      Some x => put_row i (vuln_dao.set_severity s x) (vulns d0) | None => vulns d0 end)).
  { unfold vuln_dao.Update. eapply spec_bind; [by apply (spec_FromContext _ (λ _ d, d = d0))|intros []].
    apply spec_stmt; [|done]. intros d ->. by destruct (rows (vulns d0) !! i). }
  intros u. apply spec_exact. intros d1 [Hr1 Hv1]. eapply spec_post; [apply (IH d1)|].
  intros u' d2 [Hr2 (Hs & Hfw & Hbw)]. split.
  { unfold rest_same in *. intuition congruence. }
  rewrite Hv1 in *. destruct (rows (vulns d0) !! i) as [x0|] eqn:E0.
  - split_and!; [done| |].
    + intros j x Hj. destruct (decide (i = j)) as [<-|Hne]; eapply Hfw; simpl;
        [by rewrite lookup_insert_eq|by rewrite lookup_insert_ne].
    + intros j x' Hj. destruct (Hbw j x' Hj) as (x & Hx & Hc). simpl in Hx.
      apply lookup_insert_Some in Hx as [[<- <-]|[Hne Hx]].
      * exists x0. split; [done|]. left. destruct Hc as [(sv & Hsv & ->)|[_ ->]].
        -- exists sv. split; [by right|done].
        -- exists s. split; [left|done].
      * exists x. split; [done|]. destruct Hc as [(sv & Hsv & ->)|[Hn ->]]; [left|right].
        -- exists sv. split; [by right|done].
        -- split; [|done]. intros sv [[= -> _]|Hsv]%elem_of_cons; [done|by apply (Hn sv)].
  - split_and!; [done|done|]. intros j x' Hj. destruct (Hbw j x' Hj) as (x & Hx & Hc). exists x. split; [done|].
    destruct Hc as [(sv & Hsv & ->)|[Hn ->]]; [left; exists sv; split; [by right|done]|right].
    split; [|done]. intros sv [[= -> _]|Hsv]%elem_of_cons; [congruence|by apply (Hn sv)].
Qed.

(** ** Creating records *)

(** A statement of [ReadOrCreate]: the record was there or is the new one. *)
Definition made (r : VulnerabilityRecord) (id : Z) (d0 d : ScanDB) : Prop :=
  scan_ok d ∧ rest_same d0 d ∧
  ((d = d0 ∧ ∃ x, rows (vulns d0) !! id = Some x ∧ vuln_dao.same_record r x) ∨
   (select (vuln_dao.same_record r) (vulns d0) = [] ∧ vulns d = add_row (λ n, vuln_dao.with_id n r) (vulns d0) ∧
    id = next (vulns d0))).

Lemma scan_ok_add r d : scan_ok d → select (vuln_dao.same_record r) (vulns d) = [] →
  scan_ok (set_vulns (add_row (λ n, vuln_dao.with_id n r) (vulns d)) d).
Proof.
  intros [Hv Hl] Hs. split; simpl.
  - by apply (tab_ok_add _ _ _ _ _ _ Hv Hs).
  - eapply tab_ok_mono; [exact Hl|]. intros i x _ [y Hy]. exists y. exact (lookup_add _ (λ n, vuln_dao.with_id n r) _ _ _ (tab_keys _ _ _ _ Hv) Hy).
Qed.

Lemma read_spec r d0 : scan_ok d0 → spec (λ d, d = d0) (vuln_dao.read r) (λ id d, made r id d0 d) (λ d, d = d0).
Proof.
  intros Hok. unfold vuln_dao.read. apply spec_query; [|done]. intros d id -> H.
  destruct (head _) as [x|] eqn:E; [|done]. injection H as <-.
  apply head_Some_elem_of, (elem_of_select_ok vr_ID) in E as [Hx Hs]; [|apply (ok_vulns d0 Hok)].
  split_and!; try done. left. eauto.
Qed.

Lemma vuln_Create_spec r d0 : scan_ok d0 → spec (λ d, d = d0) (vuln_dao.Create r) (λ id d, made r id d0 d) (λ _, True).
Proof.
  intros Hok. unfold vuln_dao.Create.
  eapply spec_bind; [by apply (spec_FromContext _ (λ _ d, d = d0))|intros []].
  eapply spec_bind; [apply spec_try, read_spec, Hok|intros [id|e]]; [by apply spec_ret|].
  spec_if; [by apply spec_fail|]. eapply spec_bind.
  - apply spec_try. apply (spec_WithTransaction _ _ (λ id d, made r id d0 d) (λ d, d = d0) (λ _, True)); [|done].
    eapply spec_bind; [by apply (spec_FromContext _ (λ _ d, d = d0))|intros []].
    apply spec_stmt; [|done]. intros d ->. unfold vuln_dao.insert.
    destruct (decide _) as [Hs|]; [|done]. destruct (decide _); [done|]. split; [by apply scan_ok_add|]. split; [done|].
    right. done.
  - intros [id|e']; [by apply spec_ret|]. spec_if; [|by apply spec_fail].
    eapply spec_conseq; [apply (read_spec r d0 Hok)|done|done|done].
Qed.

Section store.
Context (reg : string) (items : list VulnerabilityItem).
Let L := Add [] items.

(** Keys tell the vulnerabilities of the report apart, also from the scanner's
    records. *)
Definition keys_distinct (V : table VulnerabilityRecord) : Prop :=
  (∀ u v, u ∈ items → v ∈ items → Key u = Key v → same_columns u v) ∧
  (∀ i x v, rows V !! i = Some x → vr_RegistrationUUID x = reg → v ∈ items → record_Key x = Key v → record_of reg v x).

(** The scanner's record of a vulnerability of the report has its severity. *)
Definition settled (V : table VulnerabilityRecord) : Prop :=
  ∀ i x v, rows V !! i = Some x → vr_RegistrationUUID x = reg → GetItem L (record_Key x) = Some v →
    vr_Severity x = i_Severity v ∧ record_of reg v x.

Lemma listed_origin k v : GetItem L k = Some v → ∃ u, u ∈ items ∧ same_vulnerability v u ∧ Key u = k.
Proof.
  intros [Hv Hk]%GetItem_Some. apply Add_origin in Hv as (u & [Hu|Hu] & Huv); [by apply elem_of_nil in Hu|].
  exists u. split_and!; try done. apply same_vulnerability_fields in Huv as (_ & HK & _). congruence.
Qed.

Lemma same_vulnerability_columns u v : same_vulnerability u v → same_columns u v.
Proof. unfold same_vulnerability, with_digests. intros H. injection H as H1 H2 H3 _ _ _ _ _ _ _. done. Qed.

Lemma record_of_columns u v x : same_columns u v → record_of reg u x → record_of reg v x.
Proof. intros (H1 & H2 & H3) (R1 & R2 & R3 & R4). split_and!; congruence. Qed.

(** One item: the record is found, or the first item of its key makes it. *)
Lemma create_step (s : gset string) before v rest d0 id d :
  keys_distinct (vulns d0) → settled (vulns d0) →
  filter (λ v, Key v ∉ s) items = before ++ v :: rest →
  (∀ u, u ∈ before → ∃ i x, rows (vulns d0) !! i = Some x ∧ record_of reg u x) →
  made (converter.toVulnerabilityRecord v reg) id d0 d →
  keys_distinct (vulns d) ∧ settled (vulns d) ∧ ∃ x, rows (vulns d) !! id = Some x ∧ record_of reg v x.
Proof.
  intros Hk Hset Hf Hdone (Hok & _ & Hm).
  assert (Hv : v ∈ items).
  { assert (v ∈ filter (λ v, Key v ∉ s) items) as Hin by (rewrite Hf; apply elem_of_app; right; left).
    by apply list_elem_of_filter in Hin as [_ ?]. }
  destruct Hm as [(-> & x & Hx & Hs)|(Hno & Hadd & ->)].
  { split_and!; try done. exists x. split; [done|]. destruct Hs as (H1 & H2 & H3 & H4). by split_and!. }
  rewrite select_nil in Hno. rewrite Hadd. set (row := vuln_dao.with_id (next (vulns d0)) (converter.toVulnerabilityRecord v reg)).
  assert (Hrow : record_of reg v row) by done.
  assert (Hfirst : head (filter (λ u, Key u = Key v) items) = Some v).
  { assert (Hns : Key v ∉ s).
    { assert (v ∈ filter (λ v, Key v ∉ s) items) as Hin by (rewrite Hf; apply elem_of_app; right; left).
      by apply list_elem_of_filter in Hin as [? _]. }
    assert (Heq : filter (λ u, Key u = Key v) items = filter (λ u, Key u = Key v) (before ++ v :: rest)).
    { rewrite <- Hf, list_filter_filter. apply list_filter_iff. intros u. split; [|tauto]. intros ->. done. }
    rewrite Heq, filter_app. assert (filter (λ u, Key u = Key v) before = []) as ->.
    { apply filter_nil_iff, Forall_forall. intros u Hu HK. destruct (Hdone u Hu) as (i & x & Hx & Hr).
      assert (u ∈ items) as Hui.
      { assert (u ∈ filter (λ v, Key v ∉ s) items) as Hin by (rewrite Hf; apply elem_of_app; by left).
        by apply list_elem_of_filter in Hin as [_ ?]. }
      destruct Hk as [Hk1 _]. destruct (Hk1 u v Hui Hv HK) as (E1 & E2 & E3), Hr as (R1 & R2 & R3 & R4).
      apply (Hno i x Hx). split_and!; simpl; congruence. }
    simpl. rewrite filter_cons, decide_True; done. }
  assert (Hsev : ∀ u, GetItem L (Key v) = Some u → same_vulnerability u v).
  { intros u Hu. pose proof (GetItem_Add items [] (Key v)) as HA. simpl in HA. fold L in HA. by rewrite Hu, Hfirst in HA. }
  split_and!.
  - destruct Hk as [Hk1 Hk2]. split; [done|]. intros i x u Hx Hreg Hu HK. simpl in Hx.
    apply lookup_insert_Some in Hx as [[<- <-]|[_ Hx]]; [|by eapply Hk2].
    apply (record_of_columns v); [|done]. apply Hk1; [done..|]. rewrite <- HK. exact (eq_sym (record_of_key reg v row Hrow)).
  - intros i x u Hx Hreg HG. simpl in Hx. apply lookup_insert_Some in Hx as [[<- <-]|[_ Hx]]; [|by eapply Hset].
    change (GetItem L (record_Key row) = Some u) in HG. rewrite (record_of_key reg v row Hrow) in HG.
    pose proof (Hsev u HG) as Huv.
    split; [by apply same_vulnerability_fields in Huv as (_ & _ & -> & _)|].
    apply (record_of_columns v); [|done]. symmetry in Huv. by apply same_vulnerability_columns.
  - exists row. split; [simpl; apply lookup_insert_eq|done].
Qed.

Lemma made_keeps r id d0 d i x : scan_ok d0 → made r id d0 d → rows (vulns d0) !! i = Some x → rows (vulns d) !! i = Some x.
Proof.
  intros Hok (_ & _ & [(-> & _)|(_ & -> & _)]) Hx; [done|]. eapply lookup_add; [apply (ok_vulns d0 Hok)|done].
Qed.

Lemma create_records_spec (s : gset string) rest : ∀ before d0,
  scan_ok d0 → keys_distinct (vulns d0) → settled (vulns d0) →
  filter (λ v, Key v ∉ s) items = before ++ rest →
  (∀ u, u ∈ before → ∃ i x, rows (vulns d0) !! i = Some x ∧ record_of reg u x) →
  spec (λ d, d = d0) (converter.create_records reg rest)
    (λ ids d, scan_ok d ∧ rest_same d0 d ∧ settled (vulns d) ∧
       (∀ i x, rows (vulns d0) !! i = Some x → rows (vulns d) !! i = Some x) ∧
       (∀ v, v ∈ rest → ∃ id x, id ∈ ids ∧ rows (vulns d) !! id = Some x ∧ record_of reg v x) ∧
       (∀ id, id ∈ ids → ∃ v x, v ∈ rest ∧ rows (vulns d) !! id = Some x ∧ record_of reg v x))
    (λ _, True).
Proof.
  induction rest as [|v rest IH]; intros before d0 Hok Hk Hset Hf Hdone; simpl.
  { apply spec_ret. intros d ->. split_and!; try done; [by intros v ?%elem_of_nil|by intros v ?%elem_of_nil]. }
  eapply spec_bind; [by apply vuln_Create_spec|intros id]. apply spec_exact. intros d1 Hm.
  pose proof (create_step s before v rest d0 id d1 Hk Hset Hf Hdone Hm) as (Hk1 & Hset1 & x & Hx & Hrx).
  pose proof Hm as (Hok1 & Hr1 & _).
  eapply spec_bind; [apply (IH (before ++ [v]) d1); try done|].
  - by rewrite <- app_assoc.
  - intros u [Hu|Hu%list_elem_of_singleton]%elem_of_app; [|subst u; eauto].
    destruct (Hdone u Hu) as (i & y & Hy & Hr). exists i, y. split; [exact (made_keeps _ _ _ _ _ _ Hok Hm Hy)|done].
  - intros ids. apply spec_ret. intros d2 (Hok2 & Hr2 & Hset2 & Hgrow & Hall & Hids). split_and!; try done.
    + unfold rest_same in *. intuition congruence.
    + intros i y Hy. apply Hgrow. exact (made_keeps _ _ _ _ _ _ Hok Hm Hy).
    + intros u [->|Hu]%elem_of_cons; [exists id, x; split_and!; [left|by apply Hgrow|done]|].
      destruct (Hall u Hu) as (i & y & Hi & H). exists i, y. split; [by right|done].
    + intros i [->|Hi]%elem_of_cons; [exists v, x; split_and!; [left|by apply Hgrow|done]|].
      destruct (Hids i Hi) as (u & y & Hu & H). exists u, y. split; [by right|done].
Qed.
End store.

(** ** Links *)

Definition linked (d : ScanDB) (uuid : string) (id : Z) : Prop :=
  ∃ i x, rows (report_vulns d) !! i = Some x ∧ rv_Report x = uuid ∧ rv_VulnRecordID x = id.

Lemma insert_links_spec uuid ids : ∀ d d', scan_ok d → vuln_dao.insert_links uuid ids d = Some d' →
  scan_ok d' ∧ vulns d' = vulns d ∧ (∀ id, linked d' uuid id ↔ linked d uuid id ∨ id ∈ ids).
Proof.
  induction ids as [|id ids IH]; intros d d' Hok H; simpl in H.
  { injection H as <-. split_and!; [done..|]. intros id. rewrite elem_of_nil. tauto. }
  apply bind_Some in H as (d1 & H1 & H). unfold vuln_dao.insert_link in H1.
  destruct (decide _) as [(Hs & _ & Hv)|]; [|done]. injection H1 as <-.
  apply IH in H as (Hok' & Hv' & Hl).
  - split_and!; [done..|]. intros i. rewrite Hl, elem_of_cons. unfold linked. simpl. split.
    + intros [(j & x & Hj & Hu & Hx)|H]; [|tauto]. apply lookup_insert_Some in Hj as [[<- <-]|[_ Hj]]; [|eauto 10].
      simpl in Hx. right. by left.
    + intros [(j & x & Hj & H)|[->|H]]; [| |tauto].
      * left. exists j, x. split; [|done].
        exact (lookup_add _ (λ n, mkRVR n uuid id) _ _ _ (tab_keys _ _ _ _ (ok_links d Hok)) Hj).
      * left. eexists _, _. split; [apply lookup_insert_eq|done].
  - destruct Hok as [Hvs Hls]. split; simpl; [done|]. apply (tab_ok_add _ _ _ _ _ _ Hls Hs); [done| |done]. intros n x [H1 H2]. by simpl in *.
Qed.

Lemma InsertForReport_spec uuid ids d0 : scan_ok d0 →
  spec (λ d, d = d0) (vuln_dao.InsertForReport uuid ids)
    (λ _ d, scan_ok d ∧ vulns d = vulns d0 ∧ ∀ id, linked d uuid id ↔ linked d0 uuid id ∨ id ∈ ids) (λ _, True).
Proof.
  intros Hok. unfold vuln_dao.InsertForReport. destruct ids as [|i ids].
  { apply spec_ret. intros d ->. split_and!; [done..|]. intros id. rewrite elem_of_nil. tauto. }
  apply (spec_WithTransaction _ _ _ _ (λ _, True)); [|done].
  eapply spec_bind; [by apply (spec_FromContext _ (λ _ d, d = d0))|intros []].
  apply spec_stmt; [|done]. intros d ->. destruct (vuln_dao.insert_links _ _ _) as [d'|] eqn:E; [|done].
  apply insert_links_spec in E as (H1 & H2 & H3); [|done]. split_and!; [done..|]. intros id. rewrite H3.
  by rewrite elem_of_remove_dups.
Qed.

(** ** The round trip *)

Section roundtrip.
Context (title : string → string).
(** Names of severities are titles already. *)
Context (Htitle : ∀ s, s ∈ [None_; Unknown; Low; Medium; High; Critical] → title s = s).

Lemma parse_severity_in s : ParseSeverityVersion3 title s ∈ [None_; Unknown; Low; Medium; High; Critical].
Proof.
  clear Htitle. unfold ParseSeverityVersion3. case_bool_decide as H; [set_solver|]. destruct (_ == _); set_solver.
Qed.

Lemma parse_severity_idem s : ParseSeverityVersion3 title (ParseSeverityVersion3 title s) = ParseSeverityVersion3 title s.
Proof.
  pose proof (parse_severity_in s) as H. unfold ParseSeverityVersion3 at 1. rewrite Htitle by done.
  revert H. generalize (ParseSeverityVersion3 title s). clear s. intros s H.
  assert (Hc : ∀ t, t ∈ [None_; Unknown; Low; Medium; High; Critical] →
    (if bool_decide (t ∈ [None_; Low; Medium; High; Critical]) then t else if t == Negligible then None_ else Unknown) = t).
  { apply Forall_forall. by repeat constructor. }
  by apply Hc.
Qed.

Definition normal_items (r : Report) : list VulnerabilityItem := converter.normalized title <$> Vulnerabilities r.

Lemma listed_normal r v : v ∈ Add [] (normal_items r) → ParseSeverityVersion3 title (i_Severity v) = i_Severity v.
Proof.
  intros (u & [Hu|Hu] & Huv)%Add_origin; [by apply elem_of_nil in Hu|].
  apply same_vulnerability_fields in Huv as (_ & _ & -> & _). apply list_elem_of_fmap in Hu as (w & -> & _).
  apply parse_severity_idem.
Qed.

(** The state after the vulnerabilities of a report were stored. *)
Definition report_stored (reg uuid : string) (r : Report) (d : ScanDB) : Prop :=
  scan_ok d ∧ settled reg (normal_items r) (vulns d) ∧
  (∀ v, v ∈ Add [] (normal_items r) → ∃ id x, linked d uuid id ∧ rows (vulns d) !! id = Some x ∧ record_of reg v x) ∧
  (∀ id, linked d uuid id → ∃ v x, v ∈ Add [] (normal_items r) ∧ rows (vulns d) !! id = Some x ∧ record_of reg v x).

Lemma settled_after reg r V V' R s ids changed :
  tab_ok vr_ID vuln_dao.same_record (λ _, True) V →
  keys_distinct reg (normal_items r) V →
  (∀ x, x ∈ R ↔ rows V !! vr_ID x = Some x ∧ vr_CVEID x ∈ i_ID <$> normal_items r ∧ vr_RegistrationUUID x = reg) →
  converter.existing (Add [] (normal_items r)) R = (s, ids, changed) →
  updated changed V V' → keys_distinct reg (normal_items r) V' ∧ settled reg (normal_items r) V'.
Proof.
  intros HV Hk HR He (_ & _ & Hbw). pose proof (existing_spec (Add [] (normal_items r)) R) as Hex. rewrite He in Hex.
  destruct Hex as (_ & _ & E3 & E4). destruct Hk as [Hk1 Hk2]. split.
  - split; [done|]. intros i x' v Hx' Hreg Hv HK. destruct (Hbw i x' Hx') as (x & Hx & Hc).
    assert (record_of reg v x) as Hr.
    { destruct Hc as [(sv & _ & ->)|[_ ->]]; by apply (Hk2 i x v Hx). }
    by destruct Hc as [(sv & _ & ->)|[_ ->]].
  - intros i x' v Hx' Hreg HG. destruct (Hbw i x' Hx') as (x & Hx & Hc).
    assert (Hkey : record_Key x' = record_Key x ∧ vr_RegistrationUUID x = reg).
    { by destruct Hc as [(sv & _ & ->)|[_ ->]]. }
    destruct Hkey as [Hkey Hreg']. rewrite Hkey in HG.
    destruct (listed_origin (normal_items r) _ v HG) as (u & Hu & Huv & HKu).
    pose proof (Hk2 i x u Hx Hreg' Hu (eq_sym HKu)) as Hrx.
    assert (Hrv : record_of reg v x).
    { apply (record_of_columns reg u); [|done]. symmetry in Huv. by apply same_vulnerability_columns. }
    destruct (tab_keys _ _ _ _ HV i x Hx) as [Hid _].
    assert (Hin : x ∈ R).
    { apply HR. rewrite Hid. split_and!; [done| |done]. destruct Hrx as (-> & _). by apply list_elem_of_fmap_2. }
    destruct Hc as [(sv & Hsv & ->)|[Hn ->]].
    + split; [|done]. simpl. destruct (E3 i sv Hsv) as (y & w & Hy & Hyi & Hw & ->). apply HR in Hy as (Hy & _).
      rewrite Hyi in Hy. assert (y = x) as -> by congruence. congruence.
    + split; [|done]. destruct (E4 x v Hin HG) as [?|Hc]; [done|]. rewrite Hid in Hc. by destruct (Hn _ Hc).
Qed.

Lemma updated_scan_ok changed d d' : scan_ok d → rest_same d d' → updated changed (vulns d) (vulns d') → scan_ok d'.
Proof.
  intros [Hv Hl] (_ & _ & Hlinks) (Hs & Hfw & Hbw). split.
  - destruct Hv as [Hk Hseq Hu _]. split.
    + intros i x' Hx'. destruct (Hbw i x' Hx') as (x & Hx & Hc). rewrite Hs.
      destruct Hc as [(sv & _ & ->)|[_ ->]]; by apply (Hk i x).
    + by rewrite Hs.
    + intros i j x' y' Hx Hy Hsame. destruct (Hbw i x' Hx) as (x & Hx0 & Hcx), (Hbw j y' Hy) as (y & Hy0 & Hcy).
      apply (Hu i j x y Hx0 Hy0). destruct Hcx as [(? & _ & ->)|[_ ->]], Hcy as [(? & _ & ->)|[_ ->]]; exact Hsame.
    + done.
  - rewrite Hlinks. eapply tab_ok_mono; [exact Hl|]. intros i x _ [y Hy]. by apply (Hfw _ y).
Qed.

Lemma toSchema_spec reg uuid r d0 : scan_ok d0 → (∀ id, ¬ linked d0 uuid id) → keys_distinct reg (normal_items r) (vulns d0) →
  spec (λ d, d = d0) (converter.toSchema title uuid reg r) (λ _ d, report_stored reg uuid r d) (λ _, True).
Proof.
  intros Hok Hno Hk. unfold converter.toSchema. fold (normal_items r).
  eapply (spec_bind _ _ (λ R d, d = d0 ∧ ∀ x, x ∈ R ↔ rows (vulns d0) !! vr_ID x = Some x ∧
    vr_CVEID x ∈ i_ID <$> normal_items r ∧ vr_RegistrationUUID x = reg)).
  { unfold vuln_dao.List. eapply spec_bind; [by apply (spec_FromContext _ (λ _ d, d = d0))|intros []].
    apply spec_query; [|done]. intros d R -> [= <-]. split; [done|]. intros x.
    by apply (elem_of_select_ok vr_ID), (ok_vulns d0 Hok). }
  intros R. apply spec_exact. intros d [-> HR].
  destruct (converter.existing _ R) as [[s ids] changed] eqn:He.
  pose proof (existing_spec (Add [] (normal_items r)) R) as Hex. rewrite He in Hex. destruct Hex as (E1 & E2 & _ & _).
  eapply spec_bind; [apply update_severities_spec|intros u]. apply spec_exact. intros d1 [Hr1 Hup].
  destruct (settled_after reg r _ _ R s ids changed (ok_vulns d0 Hok) Hk HR He Hup) as [Hk1 Hset1].
  pose proof (updated_scan_ok _ _ _ Hok Hr1 Hup) as Hok1.
  eapply spec_bind; [apply (create_records_spec reg (normal_items r) s _ [] d1 Hok1 Hk1 Hset1);
    [done|by intros v ?%elem_of_nil]|intros new].
  apply spec_exact. intros d2 (Hok2 & Hr2 & Hset2 & Hgrow & Hall & Hnew).
  eapply spec_post; [by apply InsertForReport_spec|]. intros u' d3 (Hok3 & Hv3 & Hlink).
  assert (Hl3 : ∀ id, linked d3 uuid id ↔ id ∈ ids ∨ id ∈ new).
  { intros id. rewrite Hlink, elem_of_app. assert (¬ linked d2 uuid id); [|tauto].
    unfold linked. destruct Hr1 as (_ & _ & Hr1), Hr2 as (_ & _ & Hr2). rewrite Hr2, Hr1. apply Hno. }
  assert (Hkept : ∀ x v, x ∈ R → GetItem (Add [] (normal_items r)) (record_Key x) = Some v →
    ∃ x', rows (vulns d3) !! vr_ID x = Some x' ∧ record_of reg v x').
  { intros x v Hx HG. apply HR in Hx as (Hx & _ & Hreg). destruct Hup as (_ & Hfw & Hbw).
    destruct (Hfw _ _ Hx) as [x' Hx']. exists x'. rewrite Hv3. split; [by apply Hgrow|].
    destruct (Hbw _ _ Hx') as (y & Hy & Hc). assert (y = x) as -> by congruence.
    apply (Hset1 _ x' v Hx'); destruct Hc as [(sv & _ & ->)|[_ ->]]; done. }
  split_and!; [done|by rewrite Hv3| |].
  - intros v Hv. pose proof (GetItem_unique _ v (Add_keys_NoDup (normal_items r) [] (NoDup_nil_2)) Hv) as HG.
    destruct (decide (Key v ∈ s)) as [Hin|Hin].
    + apply E1 in Hin as (x & Hx & HKx & _). rewrite <- HKx in HG. destruct (Hkept x v Hx HG) as (x' & Hx' & Hr).
      exists (vr_ID x), x'. split_and!; [|done..]. apply Hl3. left. apply E2. exists x. rewrite HG. eauto.
    + destruct (listed_origin _ _ v HG) as (u0 & Hu0 & Hvu & HKu).
      destruct (Hall u0) as (id & x & Hid & Hx & Hr).
      { apply list_elem_of_filter. by rewrite HKu. }
      exists id, x. rewrite Hv3. split_and!; [apply Hl3; by right|done|].
      apply (record_of_columns reg u0); [|done]. symmetry in Hvu. by apply same_vulnerability_columns.
  - intros id [Hid|Hid]%Hl3.
    + apply E2 in Hid as (x & Hx & <- & [v HG]). destruct (Hkept x v Hx HG) as (x' & Hx' & Hr).
      exists v, x'. split_and!; [by apply GetItem_Some in HG as [? _]|done..].
    + destruct (Hnew id Hid) as (u0 & x & Hu0 & Hx & Hr). apply list_elem_of_filter in Hu0 as [_ Hu0].
      assert (Key u0 ∈ Key <$> Add [] (normal_items r)) as HKu by (apply Add_elem; right; by apply list_elem_of_fmap_2).
      apply list_elem_of_fmap in HKu as (v & HKv & Hv). exists v, x. rewrite Hv3. split_and!; [done..|].
      pose proof (GetItem_unique _ v (Add_keys_NoDup (normal_items r) [] (NoDup_nil_2)) Hv) as HG.
      apply (Hset2 id x v Hx); [by destruct Hr as (_ & ? & _)|]. by rewrite (record_of_key reg u0 x Hr), HKv.
Qed.

(** What identifies a vulnerability, with its severity. *)
Definition shows (v v' : VulnerabilityItem) : Prop := same_columns v v' ∧ i_Severity v = i_Severity v'.

(** C33 (round trip): a report that a scan job stores and that is read back, under
    any schedule of faults as long as both succeed, has exactly the vulnerabilities
    of the original as identifier, package and version, with the severity of the
    first item of the key, brought to the scale of CVSS 3; the
    severity of the report is that of the original.  The report has no record
    linked yet, and no two different vulnerabilities of the report, and none of
    the report and one of an earlier report of the scanner, share a key (the key
    joins the three columns with dashes; [colliding_key_drops_item] shows what a
    collision does). *)
Theorem converter_roundtrip reg uuid digest r w t w1 w2 t' w3 :
  scan_ok (db w) → (∀ id, ¬ linked (db w) uuid id) → keys_distinct reg (normal_items r) (vulns (db w)) →
  converter.ToRelationalSchema title uuid reg (Doc r) w = (Ok t, w1) → db w2 = db w1 →
  converter.FromRelationalSchema title uuid digest t w2 = (Ok t', w3) →
  ∃ r', t' = Doc r' ∧ r_Severity r' = r_Severity r ∧
    (∀ v, v ∈ Add [] (normal_items r) → ∃ v', v' ∈ Vulnerabilities r' ∧ shows v v') ∧
    (∀ v', v' ∈ Vulnerabilities r' → ∃ v, v ∈ Add [] (normal_items r) ∧ shows v v').
Proof.
  intros Hok Hno Hk HT Hw HF. simpl in HT. apply bind_ok_inv in HT as (u & w1' & HT & Hr). injection Hr as <- <-.
  pose proof (toSchema_spec reg uuid r (db w) Hok Hno Hk w _ _ eq_refl HT) as (Hok1 & Hset & Hfw & Hbw).
  unfold converter.FromRelationalSchema in HF. apply bind_ok_inv in HF as (R & w2' & HR & HF).
  assert (HRel : ∀ x, x ∈ R ↔ ∃ id, linked (db w1') uuid id ∧ rows (vulns (db w1')) !! id = Some x).
  { unfold vuln_dao.GetForReport in HR. apply bind_ok_inv in HR as ([] & w2'' & H0 & HR).
    apply FromContext_cases in H0 as [-> _]. apply query_cases in HR as (_ & _ & HR).
    destruct HR as [[? [=]]|HR]. injection HR as ->. rewrite Hw. intros x. rewrite list_elem_of_omap. unfold linked.
    setoid_rewrite elem_of_select. split; [naive_solver|]. intros (id & (i & y & Hy & Hu & <-) & Hx). eauto 10. }
  assert (Hitem : ∀ id x v, rows (vulns (db w1')) !! id = Some x → v ∈ Add [] (normal_items r) → record_of reg v x →
    shows v (converter.toVulnerabilityItem title digest x)).
  { intros id x v Hx Hv Hr. destruct (Hset id x v Hx) as [Hs _].
    - by destruct Hr as (_ & ? & _).
    - rewrite (record_of_key reg v x Hr). by apply GetItem_unique; [apply Add_keys_NoDup; constructor|].
    - destruct Hr as (R1 & R2 & R3 & R4). split; [by split_and!|]. simpl. rewrite Hs. symmetry. by apply (listed_normal r). }
  assert (Hres : ∃ r', t' = Doc r' ∧ r_Severity r' = r_Severity r ∧
    Vulnerabilities r' = converter.toVulnerabilityItem title digest <$> R).
  { destruct R; injection HF as <- _; eexists; split; try done. }
  destruct Hres as (r' & -> & Hsr & Hvr). exists r'. split_and!; try done; rewrite Hvr.
  - intros v Hv. destruct (Hfw v Hv) as (id & x & Hl & Hx & Hr). eexists. split; [|by eapply Hitem].
    apply list_elem_of_fmap_2, HRel. eauto.
  - intros v' (x & -> & Hx)%list_elem_of_fmap. apply HRel in Hx as (id & Hl & Hx).
    destruct (Hbw id Hl) as (v & y & Hv & Hy & Hr). assert (y = x) as -> by congruence. exists v. split; [done|by eapply Hitem].
Qed.
End roundtrip.

(** A report whose vulnerability the scanner rated lower before. *)
Definition ex_cvss : CVSS := mkCVSS None None EmptyString EmptyString.
Definition ex_vuln : VulnerabilityItem :=
  mkItem "CVE-2017-8283" "dpkg" "1.17.27" "1.18.0" "Critical" EmptyString [] [] ex_cvss [] EmptyString.
Definition ex_scan_report : Report := mkReport "2023-01-01T00:00:00Z" None "Critical" [ex_vuln] None.
Definition ex_scan_db : ScanDB :=
  mkScanDB (mkTable {[1 := mkRegistration 1 "reg" "scanner" "http://scanner" false true false false 0 None]} 1)
    (mkTable {[1 := mkScanReport 1 "uuid" "sha256:1" "reg" MimeTypeNativeReport NoText EmptyString 0 0]} 1)
    (mkTable {[1 := mkRecord 1 "CVE-2017-8283" "reg" "dpkg" "1.17.27" "Unknown" "Low" EmptyString EmptyString ex_cvss
       EmptyString EmptyString EmptyString]} 1)
    empty_table.

Lemma ex_scan_ok : scan_ok ex_scan_db.
Proof.
  split; simpl; [|apply empty_ok]. split; simpl; [|lia| |done].
  - intros i x H. simpl in H. apply lookup_singleton_Some in H as [<- <-]. split; [done|simpl; lia].
  - intros i j x y H1 H2 _. apply lookup_singleton_Some in H1 as [<- _]. by apply lookup_singleton_Some in H2 as [<- _].
Qed.

Lemma converter_roundtrip_witness :
  ∃ t w1 r' w3,
    converter.ToRelationalSchema id "uuid" "reg" (Doc ex_scan_report) (mkWorld ex_scan_db true []) = (Ok t, w1) ∧
    converter.FromRelationalSchema id "uuid" "sha256:1" t w1 = (Ok (Doc r'), w3) ∧
    ∃ v', v' ∈ Vulnerabilities r' ∧ i_ID v' = "CVE-2017-8283"%string ∧ i_Severity v' = "Critical"%string.
Proof.
  destruct (converter.ToRelationalSchema id "uuid" "reg" (Doc ex_scan_report) (mkWorld ex_scan_db true []))
    as [[t|e] w1] eqn:E1; [|by vm_compute in E1].
  destruct (converter.FromRelationalSchema id "uuid" "sha256:1" t w1) as [[t'|e] w3] eqn:E2.
  - destruct (converter_roundtrip id ltac:(done) "reg" "uuid" "sha256:1" ex_scan_report (mkWorld ex_scan_db true []) t w1 w1 t' w3)
      as (r' & -> & _ & Hfw & _); [apply ex_scan_ok| | |exact E1|done|exact E2|].
    + intros i (j & x & Hx & _). simpl in Hx. by rewrite lookup_empty in Hx.
    + split.
      * intros u v Hu Hv _. apply list_elem_of_singleton in Hu as ->. by apply list_elem_of_singleton in Hv as ->.
      * intros i x v Hx _ Hv _. simpl in Hx. apply lookup_singleton_Some in Hx as [_ <-].
        by apply list_elem_of_singleton in Hv as ->.
    + exists t, w1, r', w3. split_and!; [done|done|].
      destruct (Hfw (converter.normalized id ex_vuln)) as (v' & Hv' & (H1 & _ & _) & H2); [vm_compute; left|].
      exists v'. split_and!; [done|by rewrite <- H1|by rewrite <- H2].
  - exfalso. vm_compute in E1. injection E1 as <- <-. by vm_compute in E2.
Defined.

(** The key of package [a-1] at version [2] is that of package [a] at [1-2]: when
    an earlier report left the second one, a report with the first one alone is
    read back with the second one in its place. *)
Example colliding_key_drops_item :
  let item := mkItem "CVE-1" "a-1" "2" EmptyString "High" EmptyString [] [] ex_cvss [] EmptyString in
  let record := mkRecord 1 "CVE-1" "reg" "a" "1-2" "Unknown" "Low" EmptyString EmptyString ex_cvss EmptyString EmptyString EmptyString in
  let d := mkScanDB (registrations ex_scan_db) (sreports ex_scan_db) (mkTable {[1 := record]} 1) empty_table in
  ∃ t w1 r' w3,
    converter.ToRelationalSchema id "uuid" "reg" (Doc (mkReport EmptyString None "High" [item] None)) (mkWorld d true []) = (Ok t, w1) ∧
    converter.FromRelationalSchema id "uuid" "sha256:1" t w1 = (Ok (Doc r'), w3) ∧
    (λ v, (i_Package v, i_Version v)) <$> Vulnerabilities r' = [("a", "1-2")]%string.
Proof. do 4 eexists. split_and!; vm_compute; reflexivity. Qed.
