(* ===== verification/ScanCtl.v ===== *)
(** * The scanner and scan controllers

    [src/controller/scanner/base_controller.go], [src/pkg/scan/scanner/manager.go],
    [src/controller/scan] (controller, checker, callbacks) and the storing of reports
    by the job of [src/pkg/scan/job.go], over the stores of artifacts, projects,
    robots, scan reports and tasks.  The answers of the scanners, the job service,
    the JSON of the attributes of tasks and executions, URLs and the configuration
    are parameters.  Goroutines that only read run one after the other. *)

From S2P Require Import Prelude GoErrors GoStrings Orm Table Hoare JobStatus.
From S2P Require Import ArtifactStore ArtifactCtl VulnReport ScanStore.
From S2P Require ProjectStore RobotStore TaskStore Rbac.
#[export] Existing Instance TaskStore.newer_dec.
Open Scope Z_scope.
Local Open Scope harbor_scope.

(** ** The database *)

(** [uuids] counts the identifiers that were drawn. *)
Record HarborDB := mkHarborDB {
  hart : ArtDB; hrob : RobotStore.RobotDB; hscan : ScanDB; htask : TaskStore.TaskDB; uuids : nat }.
Definition set_hart (x : ArtDB) (d : HarborDB) : HarborDB := mkHarborDB x (hrob d) (hscan d) (htask d) (uuids d).
Definition set_hrob (x : RobotStore.RobotDB) (d : HarborDB) : HarborDB :=
  mkHarborDB (hart d) x (hscan d) (htask d) (uuids d).
Definition set_hscan (x : ScanDB) (d : HarborDB) : HarborDB := mkHarborDB (hart d) (hrob d) x (htask d) (uuids d).
Definition set_htask (x : TaskStore.TaskDB) (d : HarborDB) : HarborDB :=
  mkHarborDB (hart d) (hrob d) (hscan d) x (uuids d).

Definition on_art {A} (m : M ArtDB A) : M HarborDB A := zoom hart set_hart m.
Definition on_robots {A} (m : M RobotStore.RobotDB A) : M HarborDB A := zoom hrob set_hrob m.
Definition on_proj {A} (m : M ProjectStore.ProjDB A) : M HarborDB A :=
  on_robots (zoom RobotStore.rproj RobotStore.set_rproj m).
Definition on_scan {A} (m : M ScanDB A) : M HarborDB A := zoom hscan set_hscan m.
Definition on_task {A} (m : M TaskStore.TaskDB A) : M HarborDB A := zoom htask set_htask m.

Definition wrap {A} (msg : string) (m : M HarborDB A) : M HarborDB A :=
  r ← try m; match r with Ok a => mret a | Err e => fail (default e (Wrap (Some e) msg)) end.

(** [orm.Clone]: a read by another session.  In a transaction it sees what was
    committed before, [tx]. *)
Definition clone {A} (tx : option HarborDB) (m : M HarborDB A) : M HarborDB A := λ w,
  let '(r, w') := m (mkWorld (default (db w) tx) true (faults w)) in
  (r, mkWorld (db w) (ctx_orm w) (faults w')).

(** ** Parameters *)

(** [v1.ScannerAdapterMetadata] of [src/pkg/scan/rest/v1/models.go] *)
Record ScannerInfo := mkScannerInfo { sn_Name : string; sn_Vendor : string; sn_Version : string }.
Record AdapterMetadata := mkAdapterMetadata { md_Scanner : option ScannerInfo; md_Capabilities : list Capability }.

(** The attributes of the task of a scan, and the identifiers [u] whose keys
    [report:u] are set to 1. *)
Record ScanAttrs := mkScanAttrs {
  x_ArtifactID : Z; x_Tag : string; x_RobotID : Z; x_ReportUUIDs : list string; x_Marks : list string }.

(** The attributes of the execution of a scan. *)
Record ExecAttrs := mkExecAttrs {
  xe_ArtifactID : Z; xe_ProjectID : Z; xe_Repository : string; xe_Digest : string; xe_Registration : Z * string }.

(** The counters of a scan of all artifacts. *)
Record AllSummary := mkAllSummary {
  TotalCount_ : Z; SubmitCount : Z; ConflictCount : Z; PreconditionCount : Z; UnsupportCount : Z; UnknowCount : Z }.

Class ScanConfig := mkScanConfig {
  scan_sv : Services;
  scan_rc : RobotStore.RobotConfig;
  scan_js : TaskStore.JsClient;
  uuid : nat → string;
  client_GetMetadata : Registration → result AdapterMetadata;
  ValidateHTTPURL : string → result string;
  registry_address : bool → result string;      (* internal or external *)
  ScannerRobotPrefix : string;
  attrs_text : ScanAttrs → string;
  attrs_of : string → option ScanAttrs;
  exec_text : ExecAttrs → string;
  exec_of : string → option ExecAttrs;
  summary_text : AllSummary → string;
  title : string → string;
  error_text : error → string;
}.

Definition new_uuid `{ScanConfig} : M HarborDB string := λ w,
  let d := db w in
  (Ok (uuid (uuids d)), with_db w (mkHarborDB (hart d) (hrob d) (hscan d) (htask d) (S (uuids d)))).

Definition ArtifactTypeImage : string := "IMAGE".
Definition ArtifactTypeCNAB : string := "CNAB".

(** ** Scanners *)

Definition MimeTypeDockerArtifact : string := "application/vnd.docker.distribution.manifest.v2+json".

Definition valid_capability (c : Capability) : bool :=
  bool_decide (MimeTypeDockerArtifact ∈ ConsumesMimeTypes c) &&
  bool_decide (MimeTypeNativeReport ∈ ProducesMimeTypes c ∨ MimeTypeGenericVulnerabilityReport ∈ ProducesMimeTypes c).
Definition metadata_Validate (md : AdapterMetadata) : result unit :=
  match md_Scanner md with
  | None => Err (New "invalid scanner in metadata")
  | Some s =>
      if (sn_Name s == "") || (sn_Version s == "") || (sn_Vendor s == "") then Err (New "invalid scanner in metadata")
      else match md_Capabilities md with
           | [] => Err (New "invalid capabilities in metadata")
           | cs => if forallb valid_capability cs then Ok tt else Err (New "missing mime types in metadata")
           end
  end.

Module scanner_mgr.
Section mgr.
Context `{ScanConfig}.

Definition with_url (uid url : string) (r : Registration) : Registration :=
  mkRegistration (g_ID r) uid (g_Name r) url (g_Disabled r) (g_IsDefault r) (g_UseInternalAddr r)
    (g_Immutable r) (g_CreateTime r) (g_Metadata r).

(** [Registration.Validate] of [src/pkg/scan/dao/scanner/model.go], without the
    authentication settings; the URL is normalized. *)
Definition Validate (checkUUID : bool) (r : Registration) : result Registration :=
  if checkUUID && (g_UUID r == "") then Err (New "malformed endpoint")
  else if g_Name r == "" then Err (New "missing registration name")
  else match ValidateHTTPURL (g_URL r) with
       | Ok url => Ok (with_url (g_UUID r) url r)
       | Err e => Err (default e (Wrap (Some e) "scanner registration validate"))
       end.

Definition Create (r : Registration) : M HarborDB string :=
  uid ← new_uuid;
  r ← wrap "create registration" (of_result (Validate true (with_url uid (g_URL r) r)));
  _ ← wrap "dao: create registration" (on_scan (scanner_dao.AddRegistration r));
  mret uid.

Definition Get (uid : string) : M HarborDB (option Registration) :=
  if uid == "" then fail (New "empty uuid of registration") else on_scan (scanner_dao.GetRegistration uid).

Definition Update (r : Registration) : M HarborDB unit :=
  r ← wrap "update registration" (of_result (Validate true r));
  on_scan (scanner_dao.UpdateRegistration r).

Definition Delete (uid : string) : M HarborDB unit :=
  if uid == "" then fail (New "empty UUID to delete") else on_scan (scanner_dao.DeleteRegistration uid).

Definition SetAsDefault (uid : string) : M HarborDB unit :=
  if uid == "" then fail (New "empty UUID to set default") else on_scan (scanner_dao.SetDefaultRegistration uid).

Definition GetDefault : M HarborDB (option Registration) := on_scan scanner_dao.GetDefaultRegistration.

(** [List] for the question whether there is a registration. *)
Definition List_any : M HarborDB (list Registration) :=
  on_scan (_ ← FromContext; query (λ d, Ok (take 1 (select (λ _, True) (registrations d))))).

End mgr.
End scanner_mgr.

Module scanner_ctl.
Section ctl.
Context `{ScanConfig}.

Definition proScannerMetaKey : string := "projectScanner".
Definition isReservedName (name : string) : bool := name == "Trivy".
Definition reserved (name : string) : error :=
  WithMessage (BadRequestError None) ("name " +:+ name +:+ " is reserved, please try a different name").

(** The answer of the scanner; a cached answer is at most thirty seconds old. *)
Definition Ping (r : Registration) : result AdapterMetadata :=
  match client_GetMetadata r with
  | Err e => Err (default e (Wrap (Some e) "scanner controller: ping"))
  | Ok md => match metadata_Validate md with Ok _ => Ok md | Err e => Err e end
  end.

Definition CreateRegistration (r : Registration) : M HarborDB string :=
  if isReservedName (g_Name r) then fail (reserved (g_Name r))
  else
    _ ← wrap "api controller: create registration" (of_result (Ping r));
    l ← wrap "api controller: create registration" scanner_mgr.List_any;
    scanner_mgr.Create (if bool_decide (l = []) then scanner_dao.mark true r else r).

Definition GetRegistration (uid : string) : M HarborDB (option Registration) :=
  wrap "api controller: get registration" (scanner_mgr.Get uid).

Definition RegistrationExists (uid : string) : M HarborDB bool :=
  r ← try (scanner_mgr.Get uid);
  mret (match r with Ok None => false | _ => true end).

Definition UpdateRegistration (r : Registration) : M HarborDB unit :=
  if g_IsDefault r && g_Disabled r
  then fail (New ("default registration " +:+ g_UUID r +:+ " can not be marked to deactivated"))
  else if isReservedName (g_Name r) then fail (reserved (g_Name r))
  else scanner_mgr.Update r.

Definition DeleteRegistration (uid : string) : M HarborDB (option Registration) :=
  o ← wrap "api controller: delete registration" (scanner_mgr.Get uid);
  match o with
  | None => mret None
  | Some r => _ ← wrap "api controller: delete registration" (scanner_mgr.Delete uid); mret (Some r)
  end.

Definition SetDefaultRegistration (uid : string) : M HarborDB unit := scanner_mgr.SetAsDefault uid.

Definition SetRegistrationByProject (projectID : Z) (uid : string) : M HarborDB unit :=
  if projectID =? 0 then fail (New "invalid project ID")
  else if uid == "" then fail (New "missing scanner UUID")
  else
    m ← wrap "api controller: set project scanner" (on_proj (ProjectStore.meta_mgr.Get projectID [proScannerMetaKey]));
    if decide (m = ∅)
    then wrap "api controller: set project scanner"
           (on_proj (ProjectStore.meta_mgr.Add projectID {[proScannerMetaKey := uid]}))
    else if uid == default EmptyString (m !! proScannerMetaKey) then mret tt
    else wrap "api controller: set project scanner"
           (on_proj (ProjectStore.meta_mgr.Update projectID (<[proScannerMetaKey := uid]> m))).

Definition with_metadata (md : option (list Capability)) (r : Registration) : Registration :=
  mkRegistration (g_ID r) (g_UUID r) (g_Name r) (g_URL r) (g_Disabled r) (g_IsDefault r) (g_UseInternalAddr r)
    (g_Immutable r) (g_CreateTime r) md.

(** The scanner of the project metadata; a reference to a deleted one is removed. *)
Definition configured (projectID : Z) (m : gmap string string) : M HarborDB (option Registration) :=
  let uid := default EmptyString (m !! proScannerMetaKey) in
  if uid == "" then mret None
  else
    o ← wrap "api controller: get project scanner" (scanner_mgr.Get uid);
    match o with
    | Some r => mret (Some r)
    | None =>
        _ ← wrap "api controller: get project scanner"
              (on_proj (ProjectStore.meta_mgr.Delete projectID [proScannerMetaKey]));
        mret None
    end.

(** With the default option, which pings: an unhealthy scanner has no metadata. *)
Definition pinged (r : Registration) : Registration :=
  with_metadata (match Ping r with Ok md => Some (md_Capabilities md) | Err _ => None end) r.

Definition GetRegistrationByProject (projectID : Z) : M HarborDB (option Registration) :=
  if projectID =? 0 then fail (New "invalid project ID")
  else
    m ← wrap "api controller: get project scanner" (on_proj (ProjectStore.meta_mgr.Get projectID [proScannerMetaKey]));
    o ← configured projectID m;
    o ← (match o with
         | Some r => mret (Some r)
         | None => wrap "api controller: get project scanner" scanner_mgr.GetDefault
         end);
    mret (pinged <$> o).

Definition GetMetadata (uid : string) : M HarborDB AdapterMetadata :=
  if uid == "" then fail (New "empty registration uuid")
  else
    o ← wrap "scanner controller: get metadata" (scanner_mgr.Get uid);
    match o with
    | None => fail (WithMessage (NotFoundError None) ("registration " +:+ uid +:+ " not found"))
    | Some r => of_result (Ping r)
    end.

End ctl.
End scanner_ctl.

(** ** Scanning *)

Record Vulnerable := mkVulnerable {
  VulnerabilitiesCount : Z; vb_ScanStatus : string; vb_Severity : option string; CVEBypassed : list string }.
Definition IsScanSuccess (v : Vulnerable) : bool := vb_ScanStatus v == SuccessStatus.

(** [launchScanJobParam] *)
Record LaunchParam := mkLaunchParam {
  lp_Registration : Registration; lp_Artifact : ArtView; lp_Tag : string; lp_Reports : list ScanReport }.

(** [None] is the exhaustion of the fuel of the walk. *)
Notation "x <~~ m ; k" := (fbind m (λ x, k)) (at level 100, m at level 90, k at level 200, right associativity).

Section scan.
Context `{SC : ScanConfig} (tx : option HarborDB).

(** [src/controller/scan/checker.go] *)
Definition hasCapability (r : Registration) (v : ArtView) : bool :=
  (a_Type (v_row v) == ArtifactTypeImage) && HasCapability r (a_ManifestMediaType (v_row v)).

Definition isAccessory (v : ArtView) : M ArtDB bool :=
  l ← accessory_mgr.List (λ c, c_ArtifactID c = a_ID (v_row v) ∧ c_Digest c = a_Digest (v_row v));
  mret (negb (bool_decide (l = []))).

Definition scannable_walk (r : Registration) (v : ArtView) (scannable : bool)
    : M ArtDB (artifact_ctl.walk_result * bool) :=
  acc ← isAccessory v;
  if acc : bool then mret (artifact_ctl.WalkOn, scannable)
  else if hasCapability r v then mret (artifact_ctl.ErrBreak, true)
  else mret (artifact_ctl.WalkOn, scannable).

(** A checker keeps the registrations it has asked for. *)
Definition IsScannable (fuel : nat) (registrations : gmap Z Registration) (v : ArtView)
    : M HarborDB (option (bool * gmap Z Registration)) :=
  let projectID := a_ProjectID (v_row v) in
  o ← (match registrations !! projectID with
       | Some r => mret (Some r)
       | None => scanner_ctl.GetRegistrationByProject projectID
       end);
  match o with
  | None => mret (Some (false, registrations))
  | Some r =>
      s <~~ on_art (artifact_ctl.Walk scan_sv (scannable_walk r) None fuel v false);
      mret (Some (s, <[projectID := r]> registrations))
  end.

(** [src/controller/scan/base_controller.go] *)
Definition collect_walk (r : Registration) (v : ArtView) (s : bool * list ArtView)
    : M ArtDB (artifact_ctl.walk_result * (bool * list ArtView)) :=
  acc ← isAccessory v;
  if acc : bool then mret (artifact_ctl.WalkOn, s)
  else
    let supported := hasCapability r v in
    if negb supported && IsImageIndex (v_row v) then mret (artifact_ctl.WalkOn, s)
    else if supported then mret (artifact_ctl.ErrSkip, (true, s.2 ++ [v]))
    else mret (artifact_ctl.WalkOn, (s.1, s.2 ++ [v])).

Definition collectScanningArtifacts (fuel : nat) (r : Registration) (v : ArtView)
    : M HarborDB (option (bool * list ArtView)) :=
  on_art (artifact_ctl.Walk scan_sv (collect_walk r) None fuel v (false, [])).

(** *** The tasks of reports *)

Definition getReportUUIDs (t : TaskStore.Task) : list string :=
  match attrs_of (TaskStore.t_ExtraAttrs t) with Some a => x_ReportUUIDs a | None => [] end.
Definition getRobotID (t : TaskStore.Task) : Z :=
  match attrs_of (TaskStore.t_ExtraAttrs t) with Some a => x_RobotID a | None => 0 end.
Definition getArtifactID (t : TaskStore.Task) : Z :=
  match attrs_of (TaskStore.t_ExtraAttrs t) with Some a => x_ArtifactID a | None => 0 end.
Definition getArtifactTag (t : TaskStore.Task) : string :=
  match attrs_of (TaskStore.t_ExtraAttrs t) with Some a => x_Tag a | None => EmptyString end.

(** The tasks whose attributes have the key of the report, newest first. *)
Definition marks (u : string) (t : TaskStore.Task) : bool :=
  match attrs_of (TaskStore.t_ExtraAttrs t) with Some a => bool_decide (u ∈ x_Marks a) | None => false end.
Definition later_task (s t : TaskStore.Task) : Prop :=
  default 0 (TaskStore.t_StartTime t) < default 0 (TaskStore.t_StartTime s) ∨
  default 0 (TaskStore.t_StartTime t) = default 0 (TaskStore.t_StartTime s) ∧ TaskStore.t_ID t <= TaskStore.t_ID s.
#[export] Instance later_task_dec : RelDecision later_task.
Proof. intros s t. unfold later_task. apply _. Defined.

Definition getScanTask (u : string) : M HarborDB TaskStore.Task :=
  l ← clone tx (on_task (TaskStore.taskDAO.List_by (λ t, marks u t = true)));
  match merge_sort later_task l with
  | [] => fail (WithMessage (NotFoundError None) ("task for report " +:+ u +:+ " not found"))
  | t :: _ => mret t
  end.

(** Errors other than an absent task are returned once all reads are done. *)
Fixpoint scan_tasks (l : list string) : M HarborDB (list TaskStore.Task * option error) :=
  match l with
  | [] => mret ([], None)
  | u :: l =>
      r ← try (getScanTask u);
      '(ts, e) ← scan_tasks l;
      mret (match r with
            | Ok t => (t :: ts, e)
            | Err e' => (ts, if IsNotFoundErr e' then e else Some e')
            end)
  end.
Definition listScanTasks (l : list string) : M HarborDB (list TaskStore.Task) :=
  '(ts, e) ← scan_tasks l; match e with Some e => fail e | None => mret ts end.

Definition task_index (ts : list TaskStore.Task) : gmap string TaskStore.Task :=
  foldl (λ m t, foldl (λ m u, <[u := t]> m) m (getReportUUIDs t)) ∅ ts.

Definition with_status (o : option TaskStore.Task) (rp : ScanReport) : ScanReport :=
  match o with
  | Some t => mkScanReport (sr_ID rp) (sr_UUID rp) (sr_Digest rp) (sr_RegistrationUUID rp) (sr_MimeType rp)
                (sr_Report rp) (TaskStore.t_Status t) (default 0 (TaskStore.t_StartTime t))
                (default 0 (TaskStore.t_EndTime t))
  | None => mkScanReport (sr_ID rp) (sr_UUID rp) (sr_Digest rp) (sr_RegistrationUUID rp) (sr_MimeType rp)
              (sr_Report rp) ErrorStatus (sr_StartTime rp) (sr_EndTime rp)
  end.

Fixpoint assemble_all (m : gmap string TaskStore.Task) (l : list ScanReport) : M HarborDB (list ScanReport) :=
  match l with
  | [] => mret []
  | rp :: l =>
      let rp := with_status (m !! sr_UUID rp) rp in
      text ← on_scan (converter.FromRelationalSchema title (sr_UUID rp) (sr_Digest rp) (sr_Report rp));
      rps ← assemble_all m l;
      mret (report_dao.set_text text rp :: rps)
  end.
Definition assembleReports (l : list ScanReport) : M HarborDB (list ScanReport) :=
  ts ← listScanTasks (sr_UUID <$> l);
  assemble_all (task_index ts) l.

(** *** Reports of an artifact *)

(** A group that cannot be read is empty. *)
Fixpoint report_groups (uid : string) (mimes : list string) (l : list ArtView) : M HarborDB (list (list ScanReport)) :=
  match l with
  | [] => mret []
  | v :: l =>
      r ← try (clone tx (on_scan (report_mgr.GetBy (a_Digest (v_row v)) uid mimes)));
      gs ← report_groups uid mimes l;
      mret ((match r with Ok rps => rps | Err _ => [] end) :: gs)
  end.

Definition GetReport (fuel : nat) (v : ArtView) (mimeTypes : list string) : M HarborDB (option (list ScanReport)) :=
  let mimes := match mimeTypes with
               | [] => [MimeTypeNativeReport; MimeTypeGenericVulnerabilityReport]
               | _ => mimeTypes
               end in
  o ← wrap "scan controller: get report" (scanner_ctl.GetRegistrationByProject (a_ProjectID (v_row v)));
  match o with
  | None => fail (WithMessage (NotFoundError None) ("no scanner registration configured for project: "
                    +:+ pretty (a_ProjectID (v_row v))))
  | Some r =>
      c <~~ collectScanningArtifacts fuel r v;
      if negb c.1
      then fail (WithMessage (NotFoundError None) ("report not found for " +:+ a_RepositoryName (v_row v)
                   +:+ "@" +:+ a_Digest (v_row v)))
      else
        groups ← report_groups (g_UUID r) mimes c.2;
        if bool_decide (Exists (λ g, g = []) groups) then mret (Some [])
        else
          match mjoin groups with
          | [] => mret (Some [])
          | reports => fret (assembleReports reports)
          end
  end.

Definition GetSummary (fuel : nat) (v : ArtView) (mimeTypes : list string)
    : M HarborDB (option (gmap string NativeReportSummary)) :=
  rps <~~ GetReport fuel v mimeTypes; fret (of_result (merge_summaries ∅ rps)).

(** The severity, the bypassed identifiers and the number of the others. *)
Fixpoint judge (allowlist : gset string) (l : list VulnerabilityItem) (severity : string) (bypassed : list string) (n : Z)
    : string * list string * Z :=
  match l with
  | [] => (severity, bypassed, n)
  | i :: l =>
      if bool_decide (i_ID i ∈ allowlist) then judge allowlist l severity (bypassed ++ [i_ID i]) (n - 1)
      else judge allowlist l
             (if (severity == "") || (SevCode severity <? SevCode (i_Severity i)) then i_Severity i else severity)
             bypassed n
  end.

Definition vulnerable_of (allowlist : gset string) (status : string) (rp : Report) : Vulnerable :=
  match GetVulnerabilityItemList rp with
  | [] => mkVulnerable 0 status None []
  | l =>
      let '(severity, bypassed, n) := judge allowlist l EmptyString [] (Z.of_nat (length l)) in
      mkVulnerable n status (if severity == "" then None else Some severity) bypassed
  end.

(** The first mime type that has reports. *)
Fixpoint first_reports (fuel : nat) (v : ArtView) (mimes : list string) : M HarborDB (option (string * list ScanReport)) :=
  match mimes with
  | [] => mret (Some (EmptyString, []))
  | m :: mimes =>
      rps <~~ GetReport fuel v [m];
      match rps with
      | [] => first_reports fuel v mimes
      | _ => mret (Some (m, rps))
      end
  end.

Definition GetVulnerable (fuel : nat) (v : ArtView) (allowlist : gset string) : M HarborDB (option Vulnerable) :=
  x <~~ first_reports fuel v [MimeTypeNativeReport; MimeTypeGenericVulnerabilityReport];
  match x.2 with
  | [] => fail (WithMessage (NotFoundError None) "report not found")
  | rp :: _ =>
      let status := foldl (λ s rp, MergeScanStatus s (sr_Status rp)) (sr_Status rp) x.2 in
      if negb (status == SuccessStatus) then mret (Some (mkVulnerable 0 status None []))
      else
        raw ← of_result (Reports_ResolveData x.1 x.2);
        mret (Some (match raw with
                    | None => mkVulnerable 0 status None []
                    | Some rp => vulnerable_of allowlist status rp
                    end))
  end.

Definition DeleteReports (digests : list string) : M HarborDB unit :=
  wrap "scan controller: delete reports" (on_scan (report_mgr.DeleteByDigests digests)).

(** *** Starting a scan *)

Definition ImageScanJobVendorType : string := "IMAGE_SCAN".
Definition VendorTypeScanAll : string := "SCAN_ALL".

Definition getLatestTagOfArtifact (id : Z) : M HarborDB string :=
  l ← on_art (tag_ctl.List scan_sv (λ t, t_ArtifactID t = id) None);
  mret (match l with [] => EmptyString | t :: _ => t_Name (tv_Tag t) end).

Fixpoint delete_reports (l : list ScanReport) : M HarborDB unit :=
  match l with
  | [] => mret tt
  | rp :: l => _ ← on_scan (report_mgr.Delete (sr_UUID rp)); delete_reports l
  end.

Fixpoint create_placeholders (r : Registration) (digest : string) (mimes : list string) : M HarborDB (list ScanReport) :=
  match mimes with
  | [] => mret []
  | m :: mimes =>
      uid ← new_uuid;
      let rp := mkScanReport 0 EmptyString digest (g_UUID r) m NoText EmptyString 0 0 in
      uid ← WithTransaction (on_scan (report_mgr.Create uid rp));
      rps ← create_placeholders r digest mimes;
      mret (mkScanReport 0 uid digest (g_UUID r) m NoText EmptyString 0 0 :: rps)
  end.

Definition makeReportPlaceholder (r : Registration) (v : ArtView) : M HarborDB (list ScanReport) :=
  let mimeTypes := GetProducesMimeTypes r (a_ManifestMediaType (v_row v)) in
  old ← clone tx (on_scan (report_mgr.GetBy (a_Digest (v_row v)) (g_UUID r) mimeTypes));
  old ← assembleReports old;
  match filter (λ rp, Final (sr_Status rp) = false) old with
  | rp :: _ => fail (WithMessage (ConflictError None) ("a previous scan process is " +:+ sr_Status rp))
  | [] =>
      _ ← delete_reports old;
      create_placeholders r (a_Digest (v_row v)) mimeTypes
  end.

(** The part of a repository name before its first slash. *)
Definition project_of (repository : string) : string := default EmptyString (head (Split repository (Ascii.ascii_of_N 47))).

Definition scan_accesses : list Rbac.Policy :=
  [Rbac.mkPolicy Rbac.ResourceRepository Rbac.ActionPull EmptyString;
   Rbac.mkPolicy Rbac.ResourceRepository Rbac.ActionScannerPull EmptyString].

(** The robot and its secret. *)
Definition makeRobotAccount (projectID : Z) (repository : string) (r : Registration)
    : M HarborDB (RobotStore.Robot * string) :=
  uid ← new_uuid;
  let req := RobotStore.mkRobot
    (RobotStore.mkRobotRow 0 (ScannerRobotPrefix +:+ "-" +:+ g_Name r +:+ "-" +:+ uid) "for scan" EmptyString
       EmptyString 0 projectID 0 false false 0) EmptyString RobotStore.LEVELPROJECT false
    [RobotStore.mkPermission "project" (project_of repository) scan_accesses EmptyString] in
  '(rid, pwd) ← wrap "scan controller: make robot account"
                  (on_robots (RobotStore.robot_ctl.Create (RC := scan_rc) req));
  rb ← wrap "scan controller: make robot account" (on_robots (RobotStore.robot_ctl.Get (RC := scan_rc) rid false));
  mret (rb, pwd).

(** The parameters of the job are handed to the job service. *)
Definition launchScanJob (executionID : Z) (p : LaunchParam) : M HarborDB unit :=
  let r := lp_Registration p in
  let a := v_row (lp_Artifact p) in
  if negb (hasCapability r (lp_Artifact p)) then mret tt
  else
    _ ← wrap "scan controller: launch scan job" (of_result (registry_address (g_UseInternalAddr r)));
    '(robot, _) ← wrap "scan controller: launch scan job" (makeRobotAccount (a_ProjectID a) (a_RepositoryName a) r);
    let reportUUIDs := sr_UUID <$> lp_Reports p in
    let extras := mkScanAttrs (a_ID a) (lp_Tag p) (RobotStore.b_ID (RobotStore.rb_Robot robot)) reportUUIDs reportUUIDs in
    _ ← on_task (TaskStore.task_Create scan_js executionID ImageScanJobVendorType (attrs_text extras));
    mret tt.

(** The loop over the artifacts to scan: what to launch, and the conflicts. *)
Fixpoint prepare (r : Registration) (root : ArtView) (tag : string) (l : list ArtView)
    : M HarborDB (list LaunchParam * list error) :=
  match l with
  | [] => mret ([], [])
  | v :: l =>
      x ← try (makeReportPlaceholder r v);
      match x with
      | Err e =>
          if negb (IsConflictErr e) then fail e
          else
            let own := if a_Digest (v_row v) == a_Digest (v_row root) then tag else EmptyString in
            _ ← (if own == "" then getLatestTagOfArtifact (a_ID (v_row v)) else mret own);
            '(ps, es) ← prepare r root tag l;
            mret (ps, e :: es)
      | Ok reports =>
          let own := if a_Digest (v_row v) == a_Digest (v_row root) then tag else EmptyString in
          t ← (if own == "" then getLatestTagOfArtifact (a_ID (v_row v)) else mret own);
          '(ps, es) ← prepare r root tag l;
          mret (if bool_decide (reports = []) then ps else mkLaunchParam r v t reports :: ps, es)
      end
  end.

(** The number of jobs that could not be launched. *)
Fixpoint launch_all (executionID : Z) (l : list LaunchParam) : M HarborDB nat :=
  match l with
  | [] => mret O
  | p :: l =>
      x ← try (launchScanJob executionID p);
      n ← launch_all executionID l;
      mret (match x with Ok _ => n | Err _ => S n end)
  end.

Definition launch_in (executionID : Z) (r : Registration) (a : Artifact) (ps : list LaunchParam) : M HarborDB unit :=
  executionID ←
    (if executionID =? 0
     then on_task (TaskStore.Create ImageScanJobVendorType (g_ID r) "MANUAL"
            (exec_text (mkExecAttrs (a_ID a) (a_ProjectID a) (a_RepositoryName a) (a_Digest a) (g_ID r, g_Name r))))
     else mret executionID);
  failed ← launch_all executionID ps;
  if bool_decide (failed = length ps)
  then fail (PlainError ("scan artifact " +:+ a_RepositoryName a +:+ "@" +:+ a_Digest a +:+ " failed"))
  else mret tt.

(** The execution 0 asks for a new one. *)
Definition Scan (fuel : nat) (v : ArtView) (executionID : Z) (tag : string) : M HarborDB (option unit) :=
  let a := v_row v in
  o ← wrap "scan controller: scan" (scanner_ctl.GetRegistrationByProject (a_ProjectID a));
  match o with
  | None => fail (WithMessage (WithCode (New "precondition failed") GoErrors.PreconditionCode)
                    ("no available scanner for project: " +:+ pretty (a_ProjectID a)))
  | Some r =>
      if g_Disabled r
      then fail (WithMessage (WithCode (New "precondition failed") GoErrors.PreconditionCode) ("scanner " +:+ g_Name r +:+ " is deactivated"))
      else
        c <~~ collectScanningArtifacts fuel r v;
        if negb c.1
        then fail (WithMessage (BadRequestError None) ("the configured scanner " +:+ g_Name r
                     +:+ " does not support scanning artifact with mime type " +:+ a_ManifestMediaType a))
        else
          '(ps, conflicts) ← prepare r v tag c.2;
          match conflicts with
          | e :: _ =>
              if bool_decide (length conflicts = length c.2) then fail e
              else fret (launch_in executionID r a ps)
          | [] => fret (launch_in executionID r a ps)
          end
  end.

(** The executions of the artifact, newest first. *)
Definition exec_for (digest : string) (e : TaskStore.Execution) : bool :=
  match exec_of (TaskStore.e_ExtraAttrs e) with Some a => xe_Digest a == digest | None => false end.
Definition Stop (v : ArtView) : M HarborDB unit :=
  let digest := a_Digest (v_row v) in
  l ← on_task (_ ← FromContext; query (λ d, Ok (merge_sort TaskStore.newer
         (filter (λ e, exec_for digest e = true) ((map_to_list (TaskStore.execs d)).*2)))));
  match l with
  | [] => fail (WithMessage (BadRequestError None) ("no scan job for artifact digest=" +:+ digest))
  | e :: _ => on_task (TaskStore.Stop scan_js (TaskStore.e_ID e))
  end.

(** *** Logs *)

Definition scanTaskForArtifacts (ids : list Z) (t : TaskStore.Task) : bool :=
  negb (getArtifactID t =? 0) && bool_decide (getArtifactID t ∈ ids).

(** [GetLog] of the task manager asks the job service. *)
Section logs.
Context (GetLog : Z → result string).

Definition log_of (m : gmap string TaskStore.Task) (u : string) : option (result string) :=
  (λ t, GetLog (TaskStore.t_ID t)) <$> m !! u.

(** The logs that are not empty, each under its heading when there are several. *)
Definition log_heading (u : string) : string :=
  "---------- Logs of report " +:+ u +:+ " ----------" +:+ String (Ascii.ascii_of_N 10) EmptyString.
Definition newlines4 : string := String.string_of_list_ascii (replicate 4 (Ascii.ascii_of_N 10)).
Fixpoint join_logs (many : bool) (l : list (string * string)) (b : string) : string :=
  match l with
  | [] => b
  | (u, log) :: l =>
      if log == "" then join_logs many l b
      else join_logs many l
             (b +:+ (if many then (if b == "" then EmptyString else newlines4) +:+ log_heading u else EmptyString) +:+ log)
  end.

Definition find_log (u : string) (logs : list (string * string)) : option (string * string) :=
  head (filter (λ x, x.1 = u) logs).

(** [None] for no log.  The logs and errors are kept by identifier, so a repeated one
    counts once. *)
Definition collect_logs (reportUUIDs : list string) (m : gmap string TaskStore.Task) : M HarborDB (option string) :=
  let answers := omap (λ u, (λ r, (u, r)) <$> log_of m u) (remove_dups reportUUIDs) in
  let errs := omap (λ '(_, r), match r with Err e => Some e | Ok _ => None end) answers in
  let logs := omap (λ '(u, r), match r with Ok log => Some (u, log) | Err _ => None end) answers in
  match reportUUIDs with
  | [u] => match errs with e :: _ => fail e | [] => mret (snd <$> head logs) end
  | _ =>
      match errs with
      | e :: _ => if bool_decide (length errs = length reportUUIDs) then fail e
                  else mret (Some (join_logs (bool_decide (1 < length logs)%nat)
                         (omap (λ u, find_log u logs) reportUUIDs) EmptyString))
      | [] => mret (Some (join_logs (bool_decide (1 < length logs)%nat)
                     (omap (λ u, find_log u logs) reportUUIDs) EmptyString))
      end
  end.

(** Without a scanner the nil registration is dereferenced, at the first image of
    the walk; other artifacts of such a project are not told apart here. *)
Definition GetScanLog (fuel : nat) (v : ArtView) (uid : string) : M HarborDB (option (option string)) :=
  if uid == "" then fail (New "empty uuid to get scan log")
  else
    o ← scanner_ctl.GetRegistrationByProject (a_ProjectID (v_row v));
    match o with
    | None => fail (PlainError "nil pointer dereference")
    | Some r =>
        c <~~ collectScanningArtifacts fuel r v;
        let reportUUIDs := ParseReportIDs uid in
        ts ← listScanTasks reportUUIDs;
        match ts with
        | [] => mret (Some None)
        | _ =>
            if forallb (scanTaskForArtifacts ((λ v, a_ID (v_row v)) <$> c.2)) ts
            then fret (collect_logs reportUUIDs (task_index ts))
            else fail (WithMessage (NotFoundError None) ("scan log with uuid: " +:+ uid +:+ " not found"))
        end
    end.
End logs.

End scan.

(** ** Scanning all artifacts *)

Section scan_all.
Context `{SC : ScanConfig}.

(** A context of its own. *)
Definition fresh_ctx {A} (m : M HarborDB A) : M HarborDB A := λ w,
  let '(r, w') := m (mkWorld (db w) true (faults w)) in (r, mkWorld (db w') (ctx_orm w) (faults w')).

(** [ar.Iterator] of [src/controller/artifact/helper.go]: pages until a short one; an
    error ends the iteration. *)
Definition page {A} (size n : nat) (l : list A) : list A := take size (drop (size * n) l).
Fixpoint Iterator (fuel chunkSize n : nat) : M HarborDB (option (list ArtView)) :=
  match fuel with
  | O => mret None
  | S fuel =>
      r ← try (on_art (artifact_ctl.List scan_sv None None));
      match r with
      | Err _ => mret (Some [])
      | Ok l =>
          let artifacts := page chunkSize n l in
          if bool_decide (length artifacts < chunkSize)%nat then mret (Some artifacts)
          else rest <~~ Iterator fuel chunkSize (S n); mret (Some (artifacts ++ rest))
      end
  end.

Definition count_outcome (r : result unit) (s : AllSummary) : AllSummary :=
  let '(mkAllSummary t n c p u k) := s in
  match r with
  | Ok _ => mkAllSummary (t + 1) (n + 1) c p u k
  | Err e =>
      let code := ErrCode e in
      if code == GoErrors.ConflictCode then mkAllSummary (t + 1) n (c + 1) p u k
      else if code == GoErrors.PreconditionCode then mkAllSummary (t + 1) n c (p + 1) u k
      else if code == BadRequestCode then mkAllSummary (t + 1) n c p (u + 1) k
      else mkAllSummary (t + 1) n c p u (k + 1)
  end.

(** Each artifact in a transaction of its own. *)
Fixpoint scan_each (fuel : nat) (executionID : Z) (l : list ArtView) (s : AllSummary) : M HarborDB (option AllSummary) :=
  match l with
  | [] => mret (Some s)
  | v :: l =>
      before ← (λ w, (Ok (db w), w));
      r ← try (fresh_ctx (WithTransaction (Scan (Some before) fuel v executionID EmptyString)));
      match r with
      | Ok None => mret None
      | Ok (Some u) => scan_each fuel executionID l (count_outcome (Ok u) s)
      | Err e => scan_each fuel executionID l (count_outcome (Err e) s)
      end
  end.

Definition when (b : bool) (s : string) : string := if b then s else EmptyString.

Definition done_message (s : AllSummary) : string :=
  pretty (TotalCount_ s) +:+ " artifact(s) found"
    +:+ when (0 <? UnsupportCount s) (", " +:+ pretty (UnsupportCount s) +:+ " artifact(s) not scannable")
    +:+ when (0 <? ConflictCount s) (", " +:+ pretty (ConflictCount s)
          +:+ " artifact(s) have a previous ongoing scan process")
    +:+ ", but no scan job submitted to the job service".
Definition error_message (s : AllSummary) : string :=
  pretty (TotalCount_ s) +:+ " artifact(s) found"
    +:+ when (0 <? PreconditionCount s) (", scanner not found or deactivated for " +:+ pretty (PreconditionCount s)
          +:+ " of them")
    +:+ when (0 <? UnknowCount s) (", internal error happened for " +:+ pretty (UnknowCount s) +:+ " of them")
    +:+ ", but no scan job submitted to the job service".

Definition startScanAll (fuel : nat) (executionID : Z) : M HarborDB (option unit) :=
  l <~~ Iterator fuel 50 0;
  s <~~ scan_each fuel executionID l (mkAllSummary 0 0 0 0 0 0);
  _ ← on_task (TaskStore.UpdateExtraAttrs executionID (summary_text s));
  fret (if 0 <? SubmitCount s then mret tt
        else if TotalCount_ s =? 0 then on_task (TaskStore.MarkDone executionID "no artifact found")
        else if PreconditionCount s + UnknowCount s =? 0
        then on_task (TaskStore.MarkDone executionID (done_message s))
        else on_task (TaskStore.MarkError executionID (error_message s))).

(** The synchronous case; the asynchronous one runs [startScanAll] in another goroutine
    once the execution can be read. *)
Definition ScanAll (fuel : nat) (trigger : string) : M HarborDB (option Z) :=
  executionID ← on_task (TaskStore.Create VendorTypeScanAll 0 trigger EmptyString);
  _ <~~ startScanAll fuel executionID;
  mret (Some executionID).

(** [src/controller/scan/callback.go]: the robot of a finished task is deleted, and its
    artifact is announced. *)
Record ScanEvent := mkScanEvent { se_Artifact : Artifact; se_Tag : string; se_Status : string }.
Definition scanTaskStatusChange (taskID : Z) (status : string) : M HarborDB (option ScanEvent) :=
  if negb (Final status) then mret None
  else
    t ← on_task (TaskStore.taskDAO.Get taskID);
    _ ← (if 0 <? getRobotID t
         then _ ← try (on_robots (RobotStore.robot_ctl.Delete (getRobotID t))); mret tt
         else mret tt);
    if 0 <? getArtifactID t
    then
      r ← try (on_art (artifact_ctl.Get scan_sv (getArtifactID t) None));
      mret (match r with
            | Ok v => Some (mkScanEvent (v_row v) (getArtifactTag t) status)
            | Err _ => None
            end)
    else mret None.

(** [Job.Run] of [src/pkg/scan/job.go], once the scanner has answered: for every mime
    type the raw report is stored. *)
Fixpoint store_reports (digest registration : string) (l : list (string * ReportText)) : M HarborDB unit :=
  match l with
  | [] => mret tt
  | (mimeType, raw) :: l =>
      rps ← on_scan (report_mgr.GetBy digest registration [mimeType]);
      match rps with
      | [] => fail (WithMessage (NotFoundError None) "no report found to update data")
      | rp :: _ =>
          text ← on_scan (converter.ToRelationalSchema title (sr_UUID rp) (sr_RegistrationUUID rp) raw);
          _ ← on_scan (report_mgr.UpdateReportData (sr_UUID rp) text);
          store_reports digest registration l
      end
  end.

(** What happens to the loop that asks for one report: the timer fires, when the job is
    told to stop or the scanner answers; or the system ends the job; or no timer fires
    for half an hour, a period that every answer starts anew. *)
Inductive Answer := NotReady | Got (t : ReportText) | Failed (e : error).
Inductive PollEvent := Tick (stop : bool) (a : Answer) | SystemDone | CheckTimeout.

Definition wrap_error (e : error) (msg : string) : error := default e (Wrap (Some e) msg).

(** [None] while the loop goes on. *)
Fixpoint poll (mimeType : string) (l : list PollEvent) : option (result ReportText) :=
  match l with
  | [] => None
  | SystemDone :: _ | Tick true _ :: _ => Some (Ok NoText)
  | CheckTimeout :: _ => Some (Err (New "check scan report timeout"))
  | Tick false NotReady :: l => poll mimeType l
  | Tick false (Failed e) :: _ => Some (Err (wrap_error e ("check scan report with mime type " +:+ mimeType)))
  | Tick false (Got t) :: _ =>
      match ResolveData mimeType t EmptyString with
      | Ok _ => Some (Ok t)
      | Err e => Some (Err (wrap_error e "scan job: resolve report data"))
      end
  end.

(** The errors of the goroutines, the last one outermost. *)
Definition merge_errors (l : list (result ReportText)) : option error :=
  foldl (λ acc r, match r, acc with
                  | Ok _, _ => acc
                  | Err e, Some e' => Some (wrap_error e (error_text e'))
                  | Err e, None => Some e
                  end) None l.

(** The answers to the questions whether to stop, the client, the submission and the
    events of every report. *)
Record JobEnv := mkJobEnv {
  je_Stop1 : bool; je_Client : result unit; je_TokenService : result unit; je_Stop2 : bool;
  je_Submit : result unit; je_Events : string → list PollEvent; je_Stop3 : bool }.

Definition Run (env : JobEnv) (digest registration : string) (mimeTypes : list string) : M HarborDB (option unit) :=
  if je_Stop1 env then mret (Some tt)
  else
    _ ← wrap "scan job: get client" (of_result (je_Client env));
    _ ← wrap "scan job: get token service endpoint" (of_result (je_TokenService env));
    if je_Stop2 env then mret (Some tt)
    else
      _ ← wrap "scan job: submit scan request" (of_result (je_Submit env));
      match mapM (λ m, poll m (je_Events env m)) mimeTypes with
      | None => mret None
      | Some answers =>
          if je_Stop3 env then mret (Some tt)
          else match merge_errors answers with
               | Some e => fail e
               | None =>
                   fret (store_reports digest registration
                     (zip mimeTypes ((λ r, match r with Ok t => t | Err _ => NoText end) <$> answers)))
               end
      end.

End scan_all.
