(* ===== verification/ScanCtlSpec.v ===== *)
(** * What the lookups of the scan controller return

    The pure functions of the database that the lookups of artifacts, projects, scanners
    and reports compute, and the answer of [GetVulnerable] for an artifact that the
    scanner of its project supports. *)

From S2P Require Import Prelude GoErrors GoStrings Orm Table Hoare JobStatus.
From S2P Require Import ArtifactStore ArtifactCtl ArtifactInv VulnReport ScanStore ScanSpec ScanCtl.
From S2P Require ProjectStore RobotStore TaskStore RobotSpec Rbac.
Open Scope Z_scope.
Local Open Scope harbor_scope.

(** A reader that only returns a value of the program. *)
#[local] Hint Resolve assembleTags_keeps : keeps.
Ltac kept := apply keeps_all_reads; intros ?I; keeps_auto.

(** ** Lookups *)

Section lookups.
Context (sv : Services).

(** The artifact of a reference. *)
Definition artifact_at (d : ArtDB) (repository reference : string) : option Artifact :=
  if digest_Parse sv reference
  then head (order_desc artifact_dao.GetDefaultSorts
         (select (λ a, a_RepositoryName a = repository ∧ a_Digest a = reference) (arts d)))
  else
    repo ← head (order_desc repo_mgr.GetDefaultSorts (select (λ p, p_Name p = repository) (repos d)));
    t ← head (order_desc tag_dao.GetDefaultSorts
          (select (λ t, t_RepositoryID t = p_RepositoryID repo ∧ t_Name t = reference) (tags d)));
    rows (arts d) !! t_ArtifactID t.

Lemma assemble_reading a : reading (artifact_mgr.assemble a) (λ _ v, ar_row v = a).
Proof.
  unfold artifact_mgr.assemble. destruct (IsImageIndex a).
  - apply reading_skip; [unfold artifact_mgr.ListReferences; kept|].
    intros rs. eapply reading_conseq; [apply reading_ret|by intros ?? ->].
  - eapply reading_conseq; [apply reading_ret|by intros ?? ->].
Qed.

(** Accessories of the artifact, from the table. *)
Definition accessories_in (d : ArtDB) (id : Z) (l : list Accessory) : Prop :=
  ∀ c, c ∈ l → ∃ i, rows (accs d) !! i = Some c ∧ c_SubjectArtifactID c = id.

Lemma accessory_List_reading P `{!∀ c, Decision (P c)} : reading (accessory_mgr.List P) (λ d l, l = select P (accs d)).
Proof.
  unfold accessory_mgr.List, accessory_dao.List.
  eapply reading_conseq; [eapply reading_bind; [apply reading_skip; [unfold reads; frame|intros []; apply reading_query]|]|].
  - intros l. instantiate (1 := λ l _ x, x = l). simpl. destruct (find _ l); [apply reading_fail|apply reading_ret].
  - intros d l (x & [= <-] & ->). done.
Qed.

Lemma populateAccessories_reading id :
  reading (artifact_ctl.populateAccessories id) (λ d l, accessories_in d id l).
Proof.
  unfold artifact_ctl.populateAccessories.
  eapply reading_conseq; [eapply reading_bind; [apply reading_try, accessory_List_reading|]|].
  - intros r. apply reading_ret.
  - intros d l (r & Hr & ->) c Hc. destruct r as [l|e]; simpl in Hc; [|by apply elem_of_nil in Hc].
    rewrite (Hr l eq_refl) in Hc. apply elem_of_select in Hc as (i & Hi & Hs). eauto.
Qed.

Lemma assembleArtifact_reading a o :
  reading (artifact_ctl.assembleArtifact sv a o)
    (λ d v, v_row v = ar_row a ∧ accessories_in d (a_ID (ar_row a)) (v_Accessories v)).
Proof.
  unfold artifact_ctl.assembleArtifact, artifact_ctl.assemble_with. eapply reading_conseq; [eapply reading_bind; [|intros x; apply reading_ret]|].
  2:{ intros d v (x & Hx & ->). exact Hx. }
  destruct o as [o|].
  2:{ eapply reading_conseq; [apply reading_ret|]. intros d v ->. split; [done|]. by intros c ?%elem_of_nil. }
  apply reading_skip; [unfold artifact_ctl.populateTags, tag_ctl.list_with; kept|intros ts].
  apply reading_skip; [unfold artifact_ctl.populateLabels, label_dao.ListByArtifact; kept|intros ls].
  eapply reading_conseq; [eapply reading_bind; [|intros cs; apply reading_ret]|].
  - instantiate (1 := λ d cs, accessories_in d (a_ID (ar_row a)) cs). destruct (WithAccessory o).
    + apply populateAccessories_reading.
    + eapply reading_conseq; [apply reading_ret|]. intros d l -> c ?%elem_of_nil. done.
  - intros d v (cs & Hcs & ->). done.
Qed.

Lemma dao_GetByDigest_reading repository digest :
  reading (artifact_dao.GetByDigest repository digest) (λ d a,
    head (order_desc artifact_dao.GetDefaultSorts
      (select (λ a, a_RepositoryName a = repository ∧ a_Digest a = digest) (arts d))) = Some a).
Proof.
  unfold artifact_dao.GetByDigest. apply reading_skip; [unfold reads; frame|intros []].
  eapply reading_conseq; [eapply reading_bind; [apply reading_query|]|].
  - intros l. instantiate (1 := λ l _ a, head l = Some a). destruct l; [apply reading_fail|].
    eapply reading_conseq; [apply reading_ret|by intros ?? ->].
  - intros d a (l & [= <-] & Ha). done.
Qed.

Lemma repo_GetByName_reading name :
  reading (repo_mgr.GetByName name)
    (λ d p, head (order_desc repo_mgr.GetDefaultSorts (select (λ p, p_Name p = name) (repos d))) = Some p).
Proof.
  unfold repo_mgr.GetByName, repo_mgr.List.
  eapply reading_conseq; [eapply reading_bind; [apply reading_skip; [unfold reads; frame|intros []; apply reading_query]|]|].
  - intros l. instantiate (1 := λ l _ p, head l = Some p). destruct l; [apply reading_fail|].
    eapply reading_conseq; [apply reading_ret|by intros ?? ->].
  - intros d a (l & [= <-] & Ha). done.
Qed.

Lemma assembleTags_none l : reading (tag_ctl.assembleTags sv l None) (λ _ x, tv_Tag <$> x.1 = l).
Proof.
  induction l as [|t l IH]; simpl; [eapply reading_conseq; [apply reading_ret|by intros ?? ->]|].
  unfold tag_ctl.assembleTag.
  eapply reading_conseq; [eapply reading_bind; [apply reading_ret|]|].
  - intros [v o]. instantiate (1 := λ vo d x, vo.2 = None → tv_Tag vo.1 = t → tv_Tag <$> x.1 = t :: l). simpl.
    destruct o; [intros w r w' H; split; [|done]|].
    + symmetry. revert H. apply keeps_all_reads. intros. keeps_auto.
    + eapply reading_conseq; [eapply reading_bind; [exact IH|]|].
      * intros [vs o]. instantiate (1 := λ x _ y, y = (v :: x.1, x.2)). apply reading_ret.
      * intros d x ([vs o] & Hv & ->) _ Hx. cbn [fst] in *. by rewrite fmap_cons, Hv, Hx.
  - intros d vs (vo & -> & H). by apply H.
Qed.

Lemma GetByReference_reading repository reference o :
  reading (artifact_ctl.GetByReference sv repository reference o) (λ d v,
    artifact_at d repository reference = Some (v_row v) ∧ accessories_in d (a_ID (v_row v)) (v_Accessories v)).
Proof.
  unfold artifact_ctl.GetByReference, artifact_at. destruct (digest_Parse sv reference).
  - unfold artifact_ctl.getByDigest, artifact_mgr.GetByDigest.
    eapply reading_conseq; [eapply reading_bind; [eapply reading_bind; [apply dao_GetByDigest_reading|]|]|].
    + intros a. apply assemble_reading.
    + intros a. apply assembleArtifact_reading.
    + intros d v (x & (a & Ha & Hx) & Hr & Hc). rewrite Hr, Hx in *. done.
  - unfold artifact_ctl.getByTag.
    eapply reading_conseq; [eapply reading_bind; [apply repo_GetByName_reading|]|].
    + intros p. eapply reading_bind; [unfold tag_ctl.List, tag_ctl.list_with, tag_dao.List; eapply reading_bind; [eapply reading_bind|]|].
      * apply reading_skip; [unfold reads; frame|intros []; apply reading_query].
      * intros l. apply assembleTags_none.
      * intros x. apply reading_ret.
      * intros vs. instantiate (1 := λ vs d v, ∃ x, head vs = Some x ∧ rows (arts d) !! t_ArtifactID (tv_Tag x) = Some (v_row v) ∧
          accessories_in d (a_ID (v_row v)) (v_Accessories v)). simpl.
        destruct vs as [|x vs]; [apply reading_fail|]. unfold artifact_ctl.Get, artifact_mgr.Get, artifact_dao.Get.
        eapply reading_conseq; [eapply reading_bind; [eapply reading_bind; [apply reading_Read|]|]|].
        -- intros a. apply assemble_reading.
        -- intros a. apply assembleArtifact_reading.
        -- intros d v (y & (a & Ha & Hy) & Hr & Hc). exists x. rewrite Hr, Hy in *. done.
    + intros d v (p & Hp & vs & ([vs' o'] & (l & [= <-] & Hl) & ->) & x & Hx & Ha & Hc). cbn [fst] in *. rewrite Hp. simpl. split; [|done].
      destruct vs' as [|y vs]; [done|]. injection Hx as ->. simpl in Hl. rewrite <- Hl. done.
Qed.

End lookups.

(** The project of a name, its metadata, and the identifiers that its allowlist, or the
    one of the system, exempts. *)
Definition live_project (d : ProjectStore.ProjDB) (name : string) : option ProjectStore.Project :=
  head (select (λ p, ProjectStore.j_Name p = name ∧ ProjectStore.j_Deleted p = false) (ProjectStore.projects d)).
Definition metadata (d : ProjectStore.ProjDB) (pid : Z) (names : list string) : gmap string string :=
  foldl (λ acc m, <[ProjectStore.md_Name m := ProjectStore.md_Value m]> acc) ∅
    (select (λ m, ProjectStore.md_ProjectID m = pid ∧ (names = [] ∨ ProjectStore.md_Name m ∈ names))
       (ProjectStore.metas d)).
Definition cves (d : ProjectStore.ProjDB) (pid : Z) : gset string :=
  match head (select (λ x, ProjectStore.wl_ProjectID x = pid) (ProjectStore.allowlists d)) with
  | Some x => list_to_set (default [] (ProjectStore.wl_Items x))
  | None => ∅
  end.
Definition exempted (d : ProjectStore.ProjDB) (p : ProjectStore.ProjectView) : gset string :=
  cves d (if ProjectStore.ReuseSysCVEAllowlist p then 0 else ProjectStore.j_ProjectID (ProjectStore.pv_Project p)).

Lemma meta_Get_reading pid names : reading (ProjectStore.meta_mgr.Get pid names) (λ d m, m = metadata d pid names).
Proof.
  unfold ProjectStore.meta_mgr.Get, ProjectStore.meta_dao.List.
  eapply reading_conseq; [eapply reading_bind; [apply reading_skip; [unfold reads; frame|intros []; apply reading_query]|]|].
  - intros l. apply reading_ret.
  - intros d m (l & [= <-] & ->). done.
Qed.

Lemma allowlist_Get_reading pid :
  reading (ProjectStore.allowlist.Get pid) (λ d l, ProjectStore.allowlist.CVESet l = cves d pid).
Proof.
  unfold ProjectStore.allowlist.Get, ProjectStore.allowlist.QueryByProjectID.
  eapply reading_conseq; [eapply reading_bind; [apply reading_skip; [unfold reads; frame|intros []]|]|].
  - eapply reading_bind; [apply reading_query|]. intros l.
    instantiate (1 := λ l d o, o = head l). simpl. destruct l as [|x l].
    + eapply reading_conseq; [apply reading_ret|by intros ?? ->].
    + destruct (ProjectStore.wl_Items x); [|apply reading_fail].
      eapply reading_conseq; [apply reading_ret|by intros ?? ->].
  - intros o. apply reading_ret.
  - intros d l (o & (x & [= <-] & ->) & ->). unfold cves, ProjectStore.allowlist.CVESet.
    by destruct (head _) as [y|].
Qed.

(** What a view shows of its project. *)
Definition shows (o : ProjectStore.ProjectOptions) (d : ProjectStore.ProjDB) (pv : ProjectStore.ProjectView) : Prop :=
  (ProjectStore.WithDetail o = true → ProjectStore.WithMetadata o = true →
   ProjectStore.pv_Metadata pv = metadata d (ProjectStore.j_ProjectID (ProjectStore.pv_Project pv)) []) ∧
  (ProjectStore.WithDetail o = true → ProjectStore.WithEffectCVEAllowlist o = true →
   ProjectStore.allowlist.CVESet (ProjectStore.pv_Allowlist pv) = exempted d pv).
Definition shows_project (o : ProjectStore.ProjectOptions) (d : ProjectStore.ProjDB) (name : string)
    (pv : ProjectStore.ProjectView) : Prop :=
  live_project d name = Some (ProjectStore.pv_Project pv) ∧ shows o d pv.

Lemma assembleProject_reading o p :
  reading (ProjectStore.project_ctl.assembleProject o p) (λ d pv, ProjectStore.pv_Project pv = p ∧ shows o d pv).
Proof.
  unfold ProjectStore.project_ctl.assembleProject, shows. destruct (ProjectStore.WithDetail o) eqn:E1; simpl.
  2:{ eapply reading_conseq; [apply reading_ret|]. intros d pv ->. split_and!; done. }
  eapply reading_conseq; [eapply (reading_bind _ _
    (λ d m, ProjectStore.WithMetadata o = true → m = metadata d (ProjectStore.j_ProjectID p) []))|].
  - destruct (ProjectStore.WithMetadata o); [eapply reading_conseq; [apply meta_Get_reading|by intros ?? ->]|].
    eapply reading_conseq; [apply reading_ret|done].
  - intros m. apply (reading_bind _ _ (λ d l, ProjectStore.WithEffectCVEAllowlist o = true →
      ProjectStore.allowlist.CVESet l = exempted d (ProjectStore.mkProjectView p m ProjectStore.project_ctl.no_allowlist))
      (λ l _ pv, pv = ProjectStore.mkProjectView p m l)); [|intros l; apply reading_ret].
    unfold exempted. destruct (ProjectStore.WithEffectCVEAllowlist o).
    + simpl. destruct (ProjectStore.ReuseSysCVEAllowlist _).
      * eapply reading_conseq; [eapply reading_bind; [apply allowlist_Get_reading|intros x; apply reading_ret]|].
        intros d l (x & Hx & ->) _. done.
      * eapply reading_conseq; [apply allowlist_Get_reading|done].
    + destruct (ProjectStore.WithCVEAllowlist o).
      * eapply reading_conseq; [apply allowlist_Get_reading|done].
      * eapply reading_conseq; [apply reading_ret|done].
  - intros d pv (m & Hm & l & Hl & ->). simpl. split_and!; [done|by intros _ H; rewrite Hm|]. intros _ He. rewrite (Hl He). done.
Qed.

Lemma project_Get_reading name o :
  reading (ProjectStore.project_ctl.Get (ProjectStore.ByName name) o) (λ d pv, shows_project o d name pv).
Proof.
  unfold ProjectStore.project_ctl.Get, ProjectStore.project_mgr.Get. destruct (no_char _ name); simpl.
  - eapply reading_conseq; [eapply reading_bind; [apply reading_Read|intros p; apply assembleProject_reading]|].
    intros d pv (p & Hp & <- & Hs). by split.
  - eapply reading_conseq; [eapply reading_bind; [apply (reading_fail _ (λ _ _, False))|intros p; apply assembleProject_reading]|].
    naive_solver.
Qed.

Lemma project_GetByID_reading id o :
  reading (ProjectStore.project_ctl.Get (ProjectStore.ByID id) o) (λ d pv,
    rows (ProjectStore.projects d) !! id = Some (ProjectStore.pv_Project pv) ∧
    ProjectStore.j_Deleted (ProjectStore.pv_Project pv) = false ∧ shows o d pv).
Proof.
  unfold ProjectStore.project_ctl.Get, ProjectStore.project_mgr.Get, ProjectStore.project_dao.Get.
  eapply reading_conseq; [eapply reading_bind; [apply reading_Read|intros p; apply assembleProject_reading]|].
  intros d pv (p & Hp & <- & Hs). destruct (rows _ !! id) as [q|]; [|done]. simpl in Hp.
  destruct (ProjectStore.j_Deleted q) eqn:E; [done|]. injection Hp as ->. by split_and!.
Qed.

Lemma project_GetByName_reading name o :
  reading (ProjectStore.project_ctl.GetByName name o) (λ d pv, shows_project o d name pv).
Proof.
  unfold ProjectStore.project_ctl.GetByName. destruct (name == ""); [apply reading_fail|apply project_Get_reading].
Qed.

(** ** The parts of the database *)

Definition hproj (d : HarborDB) : ProjectStore.ProjDB := RobotStore.rproj (hrob d).

Lemma on_art_reading {A} (m : M ArtDB A) φ : reading m φ → reading (on_art m) (λ d, φ (hart d)).
Proof. apply reading_zoom. by intros []. Qed.
Lemma on_proj_reading {A} (m : M ProjectStore.ProjDB A) φ : reading m φ → reading (on_proj m) (λ d, φ (hproj d)).
Proof.
  intros Hm. apply (reading_zoom hrob set_hrob _ (λ x, φ (RobotStore.rproj x))); [by intros []|].
  apply reading_zoom; [by intros []|done].
Qed.
Lemma on_scan_reading {A} (m : M ScanDB A) φ : reading m φ → reading (on_scan m) (λ d, φ (hscan d)).
Proof. apply reading_zoom. by intros []. Qed.
Lemma on_task_reading {A} (m : M TaskStore.TaskDB A) φ : reading m φ → reading (on_task m) (λ d, φ (htask d)).
Proof. apply reading_zoom. by intros []. Qed.

Lemma clone_reading {A} (m : M HarborDB A) φ : reading m φ → reading (clone None m) φ.
Proof.
  intros Hm w r w'. unfold clone. simpl. destruct (m _) as [x w1] eqn:E. intros [= <- <-].
  split; [done|]. destruct (Hm _ _ _ E) as [_ Ha]. exact Ha.
Qed.

Lemma wrap_reading {A} msg (m : M HarborDB A) φ : reading m φ → reading (wrap msg m) φ.
Proof.
  intros Hm. unfold wrap. eapply reading_conseq; [eapply reading_bind; [by apply reading_try|]|].
  - intros r. instantiate (1 := λ r _ a, r = Ok a). destruct r; [|apply reading_fail].
    eapply reading_conseq; [apply reading_ret|by intros ?? ->].
  - intros d a (r & Hr & ->). by apply Hr.
Qed.

(** ** The scanner of a project *)

Section scanner.
Context `{SC : ScanConfig}.

Definition project_scanner (d : HarborDB) (pid : Z) : option Registration :=
  let uid := default EmptyString (metadata (hproj d) pid [scanner_ctl.proScannerMetaKey] !! scanner_ctl.proScannerMetaKey) in
  let named := if uid == "" then None else head (select (λ r, g_UUID r = uid) (registrations (hscan d))) in
  match named with
  | Some r => Some r
  | None => head (select (λ r, g_IsDefault r = true) (registrations (hscan d)))
  end.

(** A lookup may remove a stale reference from the metadata, which changes nothing of
    what scans read. *)
Definition same_scan (pid : Z) (d d' : HarborDB) : Prop :=
  hart d' = hart d ∧ hscan d' = hscan d ∧ htask d' = htask d ∧ project_scanner d' pid = project_scanner d pid.
#[export] Instance same_scan_preorder pid : PreOrder (same_scan pid).
Proof.
  split; [by intros d|]. intros d1 d2 d3 (? & ? & ? & ?) (? & ? & ? & ?). split_and!; by etrans.
Qed.

Definition set_hproj (e : ProjectStore.ProjDB) (d : HarborDB) : HarborDB :=
  set_hrob (RobotStore.set_rproj e (hrob d)) d.

Lemma spec_on_proj {A} P (m : M ProjectStore.ProjDB A) (Q : A → HarborDB → Prop) F :
  (∀ d, P d → spec (λ e, e = hproj d) m (λ a e, Q a (set_hproj e d)) (λ e, F (set_hproj e d))) →
  spec P (on_proj m) Q F.
Proof.
  intros H. apply spec_zoom. intros d Hd. apply spec_zoom. intros x ->. exact (H d Hd).
Qed.

Lemma scanner_Get_reading uid :
  reading (scanner_mgr.Get uid) (λ d o, o = head (select (λ r, g_UUID r = uid) (registrations (hscan d)))).
Proof.
  unfold scanner_mgr.Get. destruct (uid == ""); [apply reading_fail|].
  apply (on_scan_reading _ (λ d o, o = head (select (λ r, g_UUID r = uid) (registrations d)))).
  unfold scanner_dao.GetRegistration. apply reading_skip; [unfold reads; frame|intros []].
  eapply reading_conseq; [apply reading_query|]. by intros d a [= <-].
Qed.

Lemma scanner_GetDefault_reading :
  reading scanner_mgr.GetDefault (λ d o, o = head (select (λ r, g_IsDefault r = true) (registrations (hscan d)))).
Proof.
  apply (on_scan_reading _ (λ d o, o = head (select (λ r, g_IsDefault r = true) (registrations d)))).
  unfold scanner_dao.GetDefaultRegistration. apply reading_skip; [unfold reads; frame|intros []].
  eapply reading_conseq; [apply reading_query|]. by intros d a [= <-].
Qed.

(** Removing the reference leaves no reference. *)
Lemma metadata_deleted pid names e : names ≠ [] →
  metadata (ProjectStore.set_metas (del_rows (λ m, ProjectStore.md_ProjectID m = pid ∧
     (names = [] ∨ ProjectStore.md_Name m ∈ names)) (ProjectStore.metas e)) e) pid names = ∅.
Proof.
  intros Hn. unfold metadata. simpl.
  match goal with |- foldl _ _ ?l = _ => assert (l = []) as -> end; [|done].
  apply select_nil. intros i r Hi. simpl in Hi. apply map_lookup_filter_Some in Hi as [_ Hi]. done.
Qed.

Lemma configured_spec pid d :
  spec (λ x, x = d) (scanner_ctl.configured pid (metadata (hproj d) pid [scanner_ctl.proScannerMetaKey]))
    (λ o d', same_scan pid d d' ∧
       (∀ r, o = Some r → project_scanner d pid = Some r) ∧
       (o = None → project_scanner d pid = head (select (λ r, g_IsDefault r = true) (registrations (hscan d)))))
    (same_scan pid d).
Proof.
  unfold scanner_ctl.configured.
  set (uid := default EmptyString _). destruct (uid == "") eqn:Eu.
  { apply spec_ret. intros x ->. split_and!; [done|done|]. intros _. unfold project_scanner. fold uid. by rewrite Eu. }
  eapply spec_read_bind; [apply wrap_reading, scanner_Get_reading|done|]. intros o Ho. destruct o as [r|].
  { apply spec_ret. intros x ->. split_and!; [done| |done]. intros r' [= <-]. unfold project_scanner. fold uid.
    by rewrite Eu, <- Ho. }
  assert (Hd : project_scanner d pid = head (select (λ r, g_IsDefault r = true) (registrations (hscan d)))).
  { unfold project_scanner. fold uid. by rewrite Eu, <- Ho. }
  apply (spec_bind _ _ (λ _, same_scan pid d)).
  2:{ intros _. apply spec_ret. intros x Hx. by split_and!. }
  unfold wrap. eapply spec_bind; [apply (spec_try _ _ (λ _, same_scan pid d) (same_scan pid d))|].
  2:{ intros [[]|e]; [by apply spec_ret|by apply spec_fail]. }
  apply spec_on_proj. intros x ->. unfold ProjectStore.meta_mgr.Delete, ProjectStore.meta_dao.Delete.
  apply (spec_bind _ _ (λ _ e, e = hproj d)).
  { apply spec_FromContext; [done|]. intros e ->. by destruct d as [? []]. }
  intros []. apply spec_stmt; [|intros e ->; by destruct d as [? []]].
  intros e ->. split_and!; [done|done|done|]. rewrite Hd. unfold project_scanner, set_hproj, hproj. simpl.
  rewrite metadata_deleted by done. by rewrite lookup_empty.
Qed.

Lemma GetRegistrationByProject_spec pid d :
  spec (λ x, x = d) (scanner_ctl.GetRegistrationByProject pid)
    (λ o d', same_scan pid d d' ∧ o = scanner_ctl.pinged <$> project_scanner d pid) (same_scan pid d).
Proof.
  unfold scanner_ctl.GetRegistrationByProject. destruct (pid =? 0); [by apply spec_fail; intros x ->|].
  eapply spec_read_bind; [apply wrap_reading, on_proj_reading, meta_Get_reading|done|]. intros m ->.
  eapply spec_bind; [apply configured_spec|]. intros o.
  apply (spec_bind _ _ (λ o d', same_scan pid d d' ∧ o = project_scanner d pid)).
  2:{ intros o'. apply spec_ret. by intros x [? ->]. }
  destruct o as [r|].
  - apply spec_ret. intros x (Hs & Hr & _). split; [done|]. symmetry. by apply Hr.
  - apply spec_exact. intros x (Hs & _ & Hr). eapply spec_read; [apply wrap_reading, scanner_GetDefault_reading|done|].
    intros o ->. split; [done|]. rewrite (Hr eq_refl). by destruct Hs as (_ & -> & _).
Qed.

End scanner.

(** ** The walk of an artifact that the scanner supports *)

Section supported.
Context `{SC : ScanConfig}.

Definition accessory_rows (d : ArtDB) (a : Artifact) : list Accessory :=
  select (λ c, c_ArtifactID c = a_ID a ∧ c_Digest c = a_Digest a) (accs d).

Lemma isAccessory_reading v :
  reading (isAccessory v) (λ d b, b = negb (bool_decide (accessory_rows d (v_row v) = []))).
Proof.
  unfold isAccessory, accessory_rows. eapply reading_conseq;
    [eapply reading_bind; [apply accessory_List_reading|intros l; apply reading_ret]|].
  intros d b (l & -> & ->). done.
Qed.

Lemma Walk_stops {S} (walkFn : ArtView → S → M ArtDB (artifact_ctl.walk_result * S)) o fuel v s s1 d :
  spec (λ x, x = d) (walkFn v s) (λ y x, x = d ∧ y.1 ≠ artifact_ctl.WalkOn ∧ y.2 = s1) (λ x, x = d) →
  spec (λ x, x = d) (artifact_ctl.Walk scan_sv walkFn o fuel v s) (λ y x, x = d ∧ (y = None ∨ y = Some s1)) (λ x, x = d).
Proof.
  intros Hw. unfold artifact_ctl.Walk. destruct fuel as [|fuel]; simpl; [apply spec_ret; naive_solver|].
  eapply spec_bind; [exact Hw|]. intros [res s']. simpl.
  apply (spec_pre _ (λ x, (res ≠ artifact_ctl.WalkOn ∧ s' = s1) ∧ x = d)); [|naive_solver].
  apply spec_pure. intros [Hr ->]. destruct res; [done|apply spec_ret; naive_solver|].
  destruct fuel; simpl; apply spec_ret; naive_solver.
Qed.

Lemma spec_on_art {A} (m : M ArtDB A) (Q : A → Prop) d :
  spec (λ x, x = hart d) m (λ a x, x = hart d ∧ Q a) (λ x, x = hart d) →
  spec (λ x, x = d) (on_art m) (λ a x, x = d ∧ Q a) (λ x, x = d).
Proof.
  intros Hm. apply spec_zoom. intros x ->. eapply spec_conseq; [exact Hm|done| |]; simpl.
  - intros a e [-> Hq]. split; [by destruct d|done].
  - intros e ->. by destruct d.
Qed.

Context (d : HarborDB) (v : ArtView) (r : Registration).
Hypothesis Hr : project_scanner d (a_ProjectID (v_row v)) = Some r.
Hypothesis Hcap : hasCapability (scanner_ctl.pinged r) v = true.
Hypothesis Hacc : accessory_rows (hart d) (v_row v) = [].

Lemma IsScannable_supported fuel d1 : same_scan (a_ProjectID (v_row v)) d d1 →
  spec (λ x, x = d1) (IsScannable fuel ∅ v) (λ o x, same_scan (a_ProjectID (v_row v)) d x ∧ ∀ y, o = Some y → y.1 = true) (same_scan (a_ProjectID (v_row v)) d).
Proof.
  intros H1. unfold IsScannable. rewrite lookup_empty.
  eapply spec_bind; [eapply spec_conseq; [apply (GetRegistrationByProject_spec _ d1)|intros ? H; exact H|intros ?? H; exact H|]|].
  { intros x Hx. by etrans. }
  intros o. apply (spec_pre _ (λ x, o = Some (scanner_ctl.pinged r) ∧ same_scan (a_ProjectID (v_row v)) d x)).
  2:{ intros x [Hx ->]. split; [|by etrans]. destruct H1 as (_ & _ & _ & ->). by rewrite Hr. }
  apply spec_pure. intros ->. apply spec_exact. intros d2 H2. unfold fbind.
  eapply spec_bind.
  - eapply spec_conseq; [apply (spec_on_art _ (λ y, y = None ∨ y = Some true))|intros ? H; exact H|intros ?? H; exact H|by intros x ->].
    apply Walk_stops. unfold scannable_walk. destruct H2 as (Ha & _). rewrite Ha.
    eapply spec_read_bind; [apply isAccessory_reading|done|]. intros b ->. rewrite Hacc, bool_decide_true by done. simpl.
    rewrite Hcap. apply spec_ret. naive_solver.
  - intros [s|]; apply spec_ret; [|intros x [-> _]; done].
    intros x [-> Hs]. split; [done|]. intros y [= <-]. simpl. naive_solver.
Qed.

Lemma collect_supported fuel d1 : same_scan (a_ProjectID (v_row v)) d d1 →
  spec (λ x, x = d1) (collectScanningArtifacts fuel (scanner_ctl.pinged r) v)
    (λ o x, x = d1 ∧ (o = None ∨ o = Some (true, [v]))) (λ x, x = d1).
Proof.
  intros (Ha & _). unfold collectScanningArtifacts. apply (spec_on_art _ (λ o, o = None ∨ o = Some (true, [v]))).
  apply Walk_stops. unfold collect_walk. rewrite Ha.
  eapply spec_read_bind; [apply isAccessory_reading|done|]. intros b ->. rewrite Hacc, bool_decide_true by done. simpl.
  rewrite Hcap. simpl. apply spec_ret. naive_solver.
Qed.

End supported.

(** ** Assembled reports *)

Section reports.
Context `{SC : ScanConfig}.

(** A task of the report with the identifier [u]. *)
Definition task_of (d : HarborDB) (u : string) (t : TaskStore.Task) : Prop :=
  (∃ i, TaskStore.tasks (htask d) !! i = Some t) ∧ u ∈ getReportUUIDs t.

Lemma getScanTask_reading u :
  reading (getScanTask None u) (λ d t, ∃ i, TaskStore.tasks (htask d) !! i = Some t).
Proof.
  unfold getScanTask, TaskStore.taskDAO.List_by. eapply reading_conseq; [eapply reading_bind|].
  - apply clone_reading, on_task_reading, reading_skip; [unfold reads; frame|intros []; apply reading_query].
  - intros l. instantiate (1 := λ l _ t, t ∈ l). simpl.
    destruct (merge_sort later_task l) as [|t l'] eqn:E; [apply reading_fail|].
    eapply reading_conseq; [apply reading_ret|]. intros d ? ->.
    rewrite <- (merge_sort_Permutation later_task l), E. by left.
  - intros d t (l & [= <-] & Ht). apply list_elem_of_filter in Ht as [_ Ht].
    apply list_elem_of_fmap in Ht as ([i t'] & -> & Ht). apply elem_of_map_to_list in Ht. eauto.
Qed.

Lemma scan_tasks_reading l :
  reading (scan_tasks None l) (λ d x, ∀ t, t ∈ x.1 → ∃ i, TaskStore.tasks (htask d) !! i = Some t).
Proof.
  induction l as [|u l IH]; simpl.
  - eapply reading_conseq; [apply reading_ret|]. intros d x -> t ?%elem_of_nil. done.
  - eapply reading_conseq; [eapply reading_bind; [apply reading_try, getScanTask_reading|]|].
    + intros r. eapply reading_bind; [exact IH|]. intros [ts e].
      instantiate (1 := λ x _ y, y = match r with
        | Ok t => (t :: x.1, x.2) | Err e' => (x.1, if IsNotFoundErr e' then x.2 else Some e') end). apply reading_ret.
    + intros d x (r & Hr & [ts e] & Hts & ->) t Ht. destruct r as [t'|e']; simpl in Ht; [|by apply Hts].
      apply elem_of_cons in Ht as [->|Ht]; [by apply Hr|by apply Hts].
Qed.

Lemma listScanTasks_reading l :
  reading (listScanTasks None l) (λ d ts, ∀ t, t ∈ ts → ∃ i, TaskStore.tasks (htask d) !! i = Some t).
Proof.
  unfold listScanTasks. eapply reading_conseq; [eapply reading_bind; [apply scan_tasks_reading|]|].
  - intros [ts e]. instantiate (1 := λ x _ y, y = x.1). destruct e; [apply reading_fail|apply reading_ret].
  - intros d ts (x & Hx & ->). exact Hx.
Qed.

Lemma task_index_spec ts u t : task_index ts !! u = Some t → t ∈ ts ∧ u ∈ getReportUUIDs t.
Proof.
  assert (Hin : ∀ (t : TaskStore.Task) us (m : gmap string TaskStore.Task) u x, foldl (λ m u, <[u := t]> m) m us !! u = Some x → m !! u = Some x ∨ x = t ∧ u ∈ us).
  { intros t0 us. induction us as [|u0 us IH]; intros m u' x H; simpl in H; [by left|].
    apply IH in H as [H|[-> H]]; [|right; split; [done|by right]].
    apply lookup_insert_Some in H as [[<- <-]|[_ H]]; [right; split; [done|left]|by left]. }
  unfold task_index. assert (∀ m : gmap string TaskStore.Task, foldl (λ m t, foldl (λ m u, <[u := t]> m) m (getReportUUIDs t)) m ts !! u = Some t →
    m !! u = Some t ∨ t ∈ ts ∧ u ∈ getReportUUIDs t) as Hf.
  { induction ts as [|t0 ts IH]; intros m H; simpl in H; [by left|]. apply IH in H as [H|[H ?]].
    - apply Hin in H as [H|[-> H]]; [by left|]. right. split; [left|done].
    - right. split; [by right|done]. }
  intros H. apply Hf in H as [H|H]; [by rewrite lookup_empty in H|done].
Qed.

(** The records of a report, and the text that they complete. *)
Definition records_of (d : ScanDB) (u : string) : list VulnerabilityRecord :=
  omap (λ x, rows (vulns d) !! rv_VulnRecordID x) (select (λ x, rv_Report x = u) (report_vulns d)).
Definition complete (d : ScanDB) (u digest : string) (t : ReportText) : ReportText :=
  match t with
  | Doc r => match records_of d u with
             | [] => Doc r
             | l => Doc (mkReport (GeneratedAt r) (Scanner r) (r_Severity r)
                      (converter.toVulnerabilityItem title digest <$> l) None)
             end
  | t => t
  end.

Lemma FromRelationalSchema_reading u digest t :
  reading (converter.FromRelationalSchema title u digest t) (λ d t', t' = complete d u digest t).
Proof.
  unfold converter.FromRelationalSchema, vuln_dao.GetForReport, complete, records_of.
  eapply reading_conseq; [eapply reading_bind; [apply reading_skip; [unfold reads; frame|intros []; apply reading_query]|]|].
  - intros l. instantiate (1 := λ l d t', t' = match t with
      | Doc r => match l with [] => Doc r | _ => Doc (mkReport (GeneratedAt r) (Scanner r) (r_Severity r)
                      (converter.toVulnerabilityItem title digest <$> l) None) end | t => t end). simpl.
    destruct t as [|r|]; [apply reading_ret| |apply reading_fail]. destruct l; apply reading_ret.
  - intros d t' (l & [= <-] & ->). destruct t; [done| |done]. by destruct (omap _ _).
Qed.

(** What is assembled of a row. *)
Definition assembled (d : HarborDB) (rp rp' : ScanReport) : Prop :=
  (sr_Status rp' = SuccessStatus → ∃ t, task_of d (sr_UUID rp) t ∧ TaskStore.t_Status t = SuccessStatus) ∧
  sr_Digest rp' = sr_Digest rp ∧ sr_MimeType rp' = sr_MimeType rp ∧
  sr_Report rp' = complete (hscan d) (sr_UUID rp) (sr_Digest rp) (sr_Report rp).

Lemma assembleReports_reading l : reading (assembleReports None l) (λ d l', Forall2 (assembled d) l l').
Proof.
  unfold assembleReports. eapply reading_conseq; [eapply reading_bind; [apply listScanTasks_reading|]|].
  - intros ts. instantiate (1 := λ ts d l', (∀ t, t ∈ ts → ∃ i, TaskStore.tasks (htask d) !! i = Some t) →
      Forall2 (assembled d) l l'). simpl.
    induction l as [|rp l IH]; simpl; [eapply reading_conseq; [apply reading_ret|by intros ?? -> _; constructor]|].
    eapply reading_conseq; [eapply reading_bind; [apply on_scan_reading, FromRelationalSchema_reading|]|].
    + intros text. eapply reading_bind; [exact IH|intros rps; apply reading_ret].
    + intros d l' (text & -> & rps & Hr & ->) Ht. constructor; [|by apply Hr].
      destruct (task_index ts !! sr_UUID rp) as [t|] eqn:E; simpl.
      * apply task_index_spec in E as [Hin Hu]. split_and!; [|done|done|done]. intros Hs. exists t. split; [|done].
        split; [by apply Ht|done].
      * by split_and!.
  - intros d l' (ts & Hts & H). by apply H.
Qed.

End reports.

(** ** Judging vulnerabilities *)

(** Everything that is not exempted is at most as severe as the outcome. *)
Lemma judge_spec (allowlist : gset string) l : ∀ severity bypassed n,
  Forall (λ i, i_Severity i ≠ EmptyString) l →
  let '(s, _, _) := judge allowlist l severity bypassed n in
  (severity ≠ EmptyString → s ≠ EmptyString ∧ SevCode severity <= SevCode s) ∧
  ∀ i, i ∈ l → i_ID i ∈ allowlist ∨ s ≠ EmptyString ∧ SevCode (i_Severity i) <= SevCode s.
Proof.
  induction l as [|i l IH]; intros severity bypassed n Hl; simpl.
  { split; [done|]. by intros i ?%elem_of_nil. }
  apply Forall_cons in Hl as [Hi Hl]. case_bool_decide as Ha.
  - specialize (IH severity (bypassed ++ [i_ID i]) (n - 1) Hl). destruct (judge _ _ _ _ _) as [[s b] m].
    destruct IH as [H1 H2]. split; [done|]. intros j [->|Hj]%elem_of_cons; [by left|by apply H2].
  - set (s1 := if (severity == "") || (SevCode severity <? SevCode (i_Severity i)) then i_Severity i else severity).
    specialize (IH s1 bypassed n Hl).
    assert (H1 : s1 ≠ EmptyString ∧ SevCode (i_Severity i) <= SevCode s1 ∧ (severity ≠ EmptyString → SevCode severity <= SevCode s1)).
    { subst s1. case_bool_decide as E; simpl; [naive_solver lia|].
      destruct (SevCode severity <? SevCode (i_Severity i)) eqn:L; simpl; split_and!; try done; intros; lia. }
    destruct (judge _ _ _ _ _) as [[s b] m]. destruct H1 as (Hs1 & Hle & Hsev), IH as [H1 H2].
    specialize (H1 Hs1) as [Hs Hs1s]. split.
    + intros He. specialize (Hsev He). split; [done|]. lia.
    + intros j [->|Hj]%elem_of_cons; [|by apply H2]. right. split; [done|]. lia.
Qed.

(** ** The report of a supported artifact *)

Lemma select_unique {R} (P : R → Prop) `{!∀ r, Decision (P r)} (t : table R) :
  (∀ i j x y, rows t !! i = Some x → rows t !! j = Some y → P x → P y → i = j) →
  select P t = [] ∨ ∃ r, select P t = [r].
Proof.
  intros Hu. unfold select.
  assert (Hl : ∀ p q, p ∈ map_to_list (rows t) → q ∈ map_to_list (rows t) → P p.2 → P q.2 → p.1 = q.1).
  { intros [i x] [j y] Hp Hq. apply elem_of_map_to_list in Hp, Hq. by apply Hu. }
  pose proof (NoDup_fst_map_to_list (rows t)) as Hn. revert Hn Hl. generalize (map_to_list (rows t)).
  induction l as [|[i x] l IH]; intros Hn Hl; [by left|].
  rewrite fmap_cons in Hn. apply NoDup_cons in Hn as [Hi Hn]. rewrite fmap_cons, filter_cons. simpl.
  case_decide as Hx; [|apply IH; [done|]; intros p q Hp Hq; apply Hl; by right].
  right. exists x. f_equal. apply filter_nil_iff, Forall_forall. intros y Hy HPy.
  apply list_elem_of_fmap in Hy as ([j y'] & -> & Hy). apply Hi. apply list_elem_of_fmap. exists (j, y'). split; [|done].
  exact (Hl (i, x) (j, y') ltac:(left) ltac:(by right) Hx HPy).
Qed.

(** Reports are unique, their texts have no vulnerabilities of their own, and every
    scanner has an identifier. *)
Record scans_ok (d : ScanDB) : Prop := mk_scans_ok {
  reports_unique : ∀ i j x y, rows (sreports d) !! i = Some x → rows (sreports d) !! j = Some y →
    sr_Digest x = sr_Digest y → sr_RegistrationUUID x = sr_RegistrationUUID y → sr_MimeType x = sr_MimeType y → i = j;
  texts_stripped : ∀ i x r, rows (sreports d) !! i = Some x → sr_Report x = Doc r →
    Vulnerabilities r = [] ∧ itemList r = None;
  scanners_named : ∀ i r, rows (registrations d) !! i = Some r → g_UUID r ≠ EmptyString;
}.

Section supported_report.
Context `{SC : ScanConfig}.
Context (d : HarborDB) (v : ArtView) (r : Registration).
Hypothesis Hr : project_scanner d (a_ProjectID (v_row v)) = Some r.
Hypothesis Hcap : hasCapability (scanner_ctl.pinged r) v = true.
Hypothesis Hacc : accessory_rows (hart d) (v_row v) = [].
Hypothesis Hok : scans_ok (hscan d).

Definition report_rows (m : string) : list ScanReport :=
  select (λ x, sr_Digest x = a_Digest (v_row v) ∧ (g_UUID r = EmptyString ∨ sr_RegistrationUUID x = g_UUID r) ∧
               ([m] = [] ∨ sr_MimeType x ∈ [m])) (sreports (hscan d)).

Lemma project_scanner_row : ∃ i, rows (registrations (hscan d)) !! i = Some r.
Proof.
  clear Hcap Hacc Hok. revert Hr. unfold project_scanner.
  assert (Hh : ∀ P `{!∀ r, Decision (P r)}, head (select P (registrations (hscan d))) = Some r →
    ∃ i, rows (registrations (hscan d)) !! i = Some r).
  { intros P ? Hh. apply head_Some_elem_of, elem_of_select in Hh as (i & Hi & _). eauto. }
  case_bool_decide; [apply Hh|]. destruct (head (select (λ r, g_UUID r = _) _)) as [r'|] eqn:E; [|apply Hh].
  intros [= ->]. exact (Hh _ _ E).
Qed.

Lemma report_row m rp : rp ∈ report_rows m →
  ∃ i, rows (sreports (hscan d)) !! i = Some rp ∧ sr_Digest rp = a_Digest (v_row v) ∧
       sr_RegistrationUUID rp = g_UUID r ∧ sr_MimeType rp = m.
Proof.
  intros H. apply elem_of_select in H as (i & Hi & Hd & Hg & Hm). exists i. split_and!; [done|done| |].
  - destruct Hg as [Hg|Hg]; [|done]. destruct project_scanner_row as [j Hj]. by destruct (scanners_named _ Hok j r Hj).
  - destruct Hm as [Hm|Hm]; [done|]. by apply list_elem_of_singleton in Hm.
Qed.

Lemma report_rows_one m : report_rows m = [] ∨ ∃ rp, report_rows m = [rp].
Proof.
  apply select_unique. intros i j x y Hx Hy Px Py.
  destruct (report_row m x) as (_ & _ & Hx1 & Hx2 & Hx3); [apply elem_of_select; eauto|].
  destruct (report_row m y) as (_ & _ & Hy1 & Hy2 & Hy3); [apply elem_of_select; eauto|].
  apply (reports_unique _ Hok i j x y); [done|done|congruence..].
Qed.

Lemma report_groups_reading m :
  reading (report_groups None (g_UUID r) [m] [v]) (λ x gs, hscan x = hscan d → gs = [[]] ∨ gs = [report_rows m]).
Proof.
  simpl. eapply reading_conseq; [eapply reading_bind; [apply reading_try, clone_reading, on_scan_reading|]|].
  - unfold report_mgr.GetBy. instantiate (1 := λ e l, e = hscan d → l = report_rows m). destruct (_ == ""); [apply reading_fail|].
    unfold report_dao.List. apply reading_skip; [unfold reads; frame|intros []].
    eapply reading_conseq; [apply reading_query|]. intros e l [= <-] ->. done.
  - intros x. eapply reading_bind; [apply reading_ret|intros gs; apply reading_ret].
  - intros x gs (l & Hl & gs' & -> & ->) Hx. destruct l as [l|e]; [|by left]. right. by rewrite (Hl l eq_refl Hx).
Qed.

Lemma GetReport_supported fuel m d1 : same_scan (a_ProjectID (v_row v)) d d1 →
  spec (λ x, x = d1) (GetReport None fuel v [m])
    (λ o x, same_scan (a_ProjectID (v_row v)) d x ∧
       ∀ rps, o = Some rps → rps = [] ∨ ∃ rp rp', report_rows m = [rp] ∧ rps = [rp'] ∧ assembled d rp rp')
    (same_scan (a_ProjectID (v_row v)) d).
Proof.
  intros H1. unfold GetReport. eapply spec_bind.
  { unfold wrap. eapply spec_bind; [apply (spec_try _ _ (λ o x, same_scan (a_ProjectID (v_row v)) d x ∧ o = Some (scanner_ctl.pinged r))
      (same_scan (a_ProjectID (v_row v)) d))|].
    - eapply spec_conseq; [apply GetRegistrationByProject_spec|intros ? H; exact H| |intros x Hx; by etrans].
      intros o x [Hx ->]. split; [by etrans|]. destruct H1 as (_ & _ & _ & ->). by rewrite Hr.
    - intros [o|e]; [apply spec_ret; intros x Hx; exact Hx|by apply spec_fail]. }
  intros o. simpl. apply (spec_pre _ (λ x, o = Some (scanner_ctl.pinged r) ∧ same_scan (a_ProjectID (v_row v)) d x)); [|naive_solver].
  apply spec_pure. intros ->. apply spec_exact. intros d2 H2. unfold fbind at 1. eapply spec_bind.
  { eapply spec_conseq; [by apply (collect_supported d v r)|intros ? H; exact H|intros ?? H; exact H|by intros x ->]. }
  intros o. apply (spec_pre _ (λ x, (o = None ∨ o = Some (true, [v])) ∧ x = d2)); [|naive_solver].
  apply spec_pure. intros [->| ->]; [apply spec_ret; intros x ->; split; [done|naive_solver]|]. cbn [fst snd negb].
  eapply spec_read_bind; [apply (report_groups_reading m)|done|]. intros gs Hgs.
  assert (Hs2 : hscan d2 = hscan d) by apply H2. assert (Ht2 : htask d2 = htask d) by apply H2. specialize (Hgs Hs2).
  case_bool_decide as Hex; [apply spec_ret; intros x ->; split; [done|naive_solver]|].
  destruct Hgs as [->| ->]; [by destruct Hex; left|].
  destruct (report_rows_one m) as [E|[rp E]]; rewrite E in *; [by destruct Hex; left|].
  simpl. unfold fret. eapply spec_read_bind; [apply assembleReports_reading|done|].
  intros l Hl. apply spec_ret. intros x ->. split; [done|]. intros ? [= <-]. right.
  inversion Hl as [|? rp' ? ? Ha Hn]; subst. inversion Hn; subst. exists rp, rp'. split_and!; [done|done|].
  unfold assembled, task_of in *. by rewrite Hs2, Ht2 in Ha.
Qed.

Lemma first_reports_supported fuel mimes : ∀ d1, same_scan (a_ProjectID (v_row v)) d d1 →
  spec (λ x, x = d1) (first_reports None fuel v mimes)
    (λ o x, same_scan (a_ProjectID (v_row v)) d x ∧
       ∀ y, o = Some y → y.2 = [] ∨ ∃ rp rp', y.1 ∈ mimes ∧ report_rows y.1 = [rp] ∧ y.2 = [rp'] ∧ assembled d rp rp')
    (same_scan (a_ProjectID (v_row v)) d).
Proof.
  induction mimes as [|m mimes IH]; intros d1 H1; simpl.
  { apply spec_ret. intros x ->. split; [done|]. intros y [= <-]. by left. }
  unfold fbind. eapply spec_bind; [by apply (GetReport_supported fuel m)|]. intros [rps|].
  2:{ apply spec_ret. intros x [Hx _]. split; [done|naive_solver]. }
  apply spec_exact. intros d2 [H2 Hrp]. destruct (Hrp rps eq_refl) as [->|(rp & rp' & E & -> & Ha)].
  - eapply spec_post; [by apply IH|]. intros o x [Hx Ho]. split; [done|]. intros y ->.
    destruct (Ho y eq_refl) as [?|(rp & rp' & ? & ?)]; [by left|]. right. exists rp, rp'. split; [by right|done].
  - apply spec_ret. intros x ->. split; [done|]. intros y [= <-]. right. exists rp, rp'. split_and!; [left|done..].
Qed.

Lemma merge_status_self s : MergeScanStatus s s = s.
Proof.
  unfold MergeScanStatus. repeat (case_bool_decide; simpl; [by subst|]). by destruct (After s s).
Qed.

(** Every record of the report, up to records of the same key, is exempted or at most
    as severe as [s]. *)
Definition bounded (allow : gset string) (s : option string) (u : string) : Prop :=
  ∀ x, x ∈ records_of (hscan d) u → ∃ y, y ∈ records_of (hscan d) u ∧ record_Key y = record_Key x ∧
    (vr_CVEID y ∈ allow ∨ ∃ s', s = Some s' ∧ SevCode (ParseSeverityVersion3 title (vr_Severity y)) <= SevCode s').

Lemma vulnerable_of_bounded allow status u dg r1 :
  Vulnerabilities r1 = with_digests [dg] <$> (converter.toVulnerabilityItem title dg <$> records_of (hscan d) u) ∨
  Vulnerabilities r1 = converter.toVulnerabilityItem title dg <$> records_of (hscan d) u →
  itemList r1 = None → bounded allow (vb_Severity (vulnerable_of allow status r1)) u.
Proof.
  intros Hv Hl x Hx. set (items := Vulnerabilities r1).
  assert (Hfrom : ∀ i, i ∈ items → ∃ y, y ∈ records_of (hscan d) u ∧ Key i = record_Key y ∧ i_ID i = vr_CVEID y ∧
    i_Severity i = ParseSeverityVersion3 title (vr_Severity y)).
  { intros i Hi. subst items. destruct Hv as [Hv|Hv]; rewrite Hv in Hi.
    - apply list_elem_of_fmap in Hi as (i' & -> & (y & -> & Hy)%list_elem_of_fmap). by exists y.
    - apply list_elem_of_fmap in Hi as (y & -> & Hy). by exists y. }
  assert (Hto : record_Key x ∈ Key <$> items).
  { subst items. destruct Hv as [Hv|Hv]; rewrite Hv; apply list_elem_of_fmap.
    - exists (with_digests [dg] (converter.toVulnerabilityItem title dg x)). split; [done|].
      by apply list_elem_of_fmap_2, list_elem_of_fmap_2.
    - exists (converter.toVulnerabilityItem title dg x). split; [done|]. by apply list_elem_of_fmap_2. }
  assert (Hadd : ∀ i, i ∈ Add [] items → ∃ y, y ∈ records_of (hscan d) u ∧ Key i = record_Key y ∧ i_ID i = vr_CVEID y ∧
    i_Severity i = ParseSeverityVersion3 title (vr_Severity y)).
  { intros i (i' & [Hi|Hi] & Hs)%Add_origin; [by apply elem_of_nil in Hi|]. destruct (Hfrom i' Hi) as (y & Hy & Hk & Hid & Hsev).
    exists y. injection Hs as H1 H2 H3 H4 H5. unfold Key in *. by rewrite H1, H2, H3, H5. }
  assert (Hin : record_Key x ∈ Key <$> Add [] items) by (apply Add_elem; by right).
  apply list_elem_of_fmap in Hin as (i & Hi & Hiin).
  pose proof (judge_spec allow (Add [] items) EmptyString [] (Z.of_nat (length (Add [] items)))) as HJ.
  unfold vulnerable_of, GetVulnerabilityItemList. rewrite Hl. fold items.
  destruct (Add [] items) as [|i0 l] eqn:E; [by apply elem_of_nil in Hiin|]. rewrite <- E in *.
  destruct (judge _ _ _ _ _) as [[s b] n]. simpl. destruct HJ as [_ HJ].
  { apply Forall_forall. intros j Hj. destruct (Hadd j Hj) as (y & _ & _ & _ & ->).
    intros Hn. pose proof (parse_severity_in title (vr_Severity y)) as Hp. rewrite Hn in Hp.
    apply list_elem_of_In in Hp. simpl in Hp. naive_solver. }
  destruct (Hadd i Hiin) as (y & Hy & Hk & Hid & Hsev). exists y. split_and!; [done|congruence|].
  destruct (HJ i Hiin) as [Ha|[Hs Hle]]; [left; by rewrite <- Hid|right]. exists s.
  rewrite bool_decide_false by done. split; [done|]. by rewrite <- Hsev.
Qed.

(** What an answer of [GetVulnerable] is based on. *)
Definition verdict (allow : gset string) (vb : Vulnerable) : Prop :=
  ∃ m rp, m ∈ [MimeTypeNativeReport; MimeTypeGenericVulnerabilityReport] ∧ report_rows m = [rp] ∧
    (IsScanSuccess vb = true →
     (∃ t, task_of d (sr_UUID rp) t ∧ TaskStore.t_Status t = SuccessStatus) ∧
     (sr_Report rp = NoText ∨ bounded allow (vb_Severity vb) (sr_UUID rp))).

Lemma complete_doc m rp r0 : rp ∈ report_rows m → complete (hscan d) (sr_UUID rp) (sr_Digest rp) (sr_Report rp) = Doc r0 →
  Vulnerabilities r0 = converter.toVulnerabilityItem title (sr_Digest rp) <$> records_of (hscan d) (sr_UUID rp) ∧
  itemList r0 = None.
Proof.
  intros Hin. destruct (report_row m rp Hin) as (i & Hi & _). unfold complete. destruct (sr_Report rp) as [|r1|] eqn:E; [done| |done].
  destruct (texts_stripped _ Hok i rp r1 Hi E) as [Hv Hl].
  destruct (records_of _ _) as [|x l] eqn:Er; intros [= <-]; by split.
Qed.

Lemma ResolveData_one m rp rp' : m ∈ [MimeTypeNativeReport; MimeTypeGenericVulnerabilityReport] → report_rows m = [rp] →
  assembled d rp rp' → ∀ o allow, Reports_ResolveData m [rp'] = Ok o →
  sr_Report rp = NoText ∨ ∃ r1, o = Some r1 ∧ ∀ status, bounded allow (vb_Severity (vulnerable_of allow status r1)) (sr_UUID rp).
Proof.
  intros Hm Hrow (_ & Hdg & Hmime & Htext) o allow. assert (Hin : rp ∈ report_rows m) by (rewrite Hrow; left).
  destruct (report_row m rp Hin) as (i & Hi & _ & _ & Hmt).
  unfold Reports_ResolveData, resolve_from. rewrite Hmime, Hmt, bool_decide_true by done. cbn [negb].
  assert (HS : SupportedMimes m = true).
  { clear -Hm. apply list_elem_of_In in Hm. destruct Hm as [<-|[<-|[]]]; vm_compute; reflexivity. }
  destruct (sr_Report rp') as [|r0|] eqn:E.
  - intros _. left. revert Htext. unfold complete. destruct (sr_Report rp); [done| |done]. by destruct (records_of _ _).
  - unfold ResolveData. rewrite HS. cbn [negb]. intros [= <-]. right. eexists. split; [done|]. intros status.
    destruct (complete_doc m rp r0 Hin (eq_sym Htext)) as [Hv Hl].
    case_bool_decide as Hd0.
    + apply (vulnerable_of_bounded _ _ _ (sr_Digest rp)); [by right|done].
    + apply (vulnerable_of_bounded _ _ _ (sr_Digest rp)); [|done]. left. simpl. by rewrite Hv, Hdg.
  - unfold ResolveData. by rewrite HS.
Qed.

Lemma GetVulnerable_supported fuel allow d1 : same_scan (a_ProjectID (v_row v)) d d1 →
  spec (λ x, x = d1) (GetVulnerable None fuel v allow)
    (λ o x, same_scan (a_ProjectID (v_row v)) d x ∧ ∀ vb, o = Some vb → verdict allow vb)
    (same_scan (a_ProjectID (v_row v)) d).
Proof.
  intros H1. unfold GetVulnerable, fbind. eapply spec_bind; [by apply first_reports_supported|].
  intros [[m l]|]; [|apply spec_ret; intros x [Hx _]; split; [done|naive_solver]].
  apply spec_exact. intros d2 [H2 Hl]. simpl. destruct (Hl _ eq_refl) as [E|(rp & rp' & Hm & Hrow & E & Ha)]; simpl in *; subst l.
  { by apply spec_fail; intros x ->. }
  simpl. rewrite merge_status_self. case_bool_decide as Hs; cbn [negb].
  2:{ apply spec_ret. intros x ->. split; [done|]. intros vb [= <-]. exists m, rp. split_and!; [done|done|].
      unfold IsScanSuccess. simpl. by rewrite bool_decide_false. }
  eapply spec_read_bind; [apply reading_of_result|done|]. intros o Ho. apply spec_ret. intros x ->. split; [done|].
  intros vb [= <-]. exists m, rp. split_and!; [done|done|]. intros _. split; [by apply Ha|].
  destruct (ResolveData_one m rp rp' Hm Hrow Ha o allow Ho) as [?|(r1 & -> & Hb)]; [by left|right; apply Hb].
Qed.

End supported_report.
