(* ===== verification/Pull.v ===== *)
(** * Pulling and pushing manifests through the middlewares

    [src/server/middleware/artifactinfo], [v2auth], [repoproxy] (for projects that are
    not proxies), [contenttrust], [vulnerable], [util], [immutable], [readonly], and the
    handler [getManifest] of [src/server/registry/manifest.go], composed as
    [src/server/registry/route.go] composes them.  What the regular expressions of
    [src/lib/patterns.go] match in the path is part of the request; the token service's
    URL, the proxying of remote registries and the backend registry are parameters. *)

From S2P Require Import Prelude GoErrors GoStrings Orm Table Hoare JobStatus.
From S2P Require Import ArtifactStore ArtifactCtl VulnReport ScanStore ScanCtl.
From S2P Require ProjectStore RobotStore Rbac.
Open Scope Z_scope.
Local Open Scope harbor_scope.

(** ** Requests *)

(** [lib.ArtifactInfo] of [src/lib/context.go] *)
Record ArtifactInfo := mkArtifactInfo {
  af_Repository : string; af_Reference : string; af_ProjectName : string; af_Digest : string; af_Tag : string;
  af_BlobMountRepository : string; af_BlobMountProjectName : string; af_BlobMountDigest : string }.

Inductive url_kind := ManifestURL | TagListURL | BlobUploadURL | BlobURL.

(** The groups of the pattern that matched. *)
Record UrlMatch := mkUrlMatch {
  um_Kind : url_kind; um_Repository : string; um_Reference : option string; um_Digest : option string }.

(** [security.Context] with its name. *)
Record Security := mkSecurity { sx_Name : string; sx_Ctx : RobotStore.SecCtx }.

Record Request := mkRequest {
  rq_Method : string; rq_Path : string; rq_Authorization : string; rq_UserAgent : string; rq_IfNoneMatch : list string;
  rq_Match : option UrlMatch; rq_IsCatalog : bool; rq_Mount : string; rq_From : string;
  rq_Security : option Security }.

(** ** [src/server/middleware/artifactinfo/artifact_info.go] *)

Definition slash : Ascii.ascii := Ascii.ascii_of_N 47.

Section info.
Context (IsDigest IsTag : string → bool).

Definition projectNameFromRepo (repo : string) : result string :=
  match Split repo slash with
  | name :: _ :: _ => Ok name
  | _ => Err (PlainError ("invalid repository name: " +:+ repo))
  end.

(** The digest and the tag that a reference stands for. *)
Definition parse_reference (m : UrlMatch) : result (option string * option string) :=
  match um_Reference m with
  | None | Some EmptyString => Ok (um_Digest m, None)
  | Some ref =>
      if IsDigest ref then Ok (Some ref, None)
      else if IsTag ref then Ok (um_Digest m, Some ref)
      else Err (WithCode (New "invalid reference format") NotFoundCode)
  end.

(** [None] when the request is passed on without information. *)
Definition artifact_info (r : Request) : result (option ArtifactInfo) :=
  match rq_Match r with
  | None => Ok None
  | Some m =>
      match parse_reference m with
      | Err e => Err e
      | Ok (digest, tag) =>
          match projectNameFromRepo (um_Repository m) with
          | Err e => Err (BadRequestError (Some e))
          | Ok pn =>
              let info repo project d :=
                mkArtifactInfo (um_Repository m) (default EmptyString (um_Reference m)) pn
                  (default EmptyString digest) (default EmptyString tag) repo project d in
              match um_Kind m with
              | BlobUploadURL =>
                  if rq_From r == "" then Ok (Some (info EmptyString EmptyString EmptyString))
                  else match projectNameFromRepo (rq_From r) with
                       | Err e => Err (BadRequestError (Some e))
                       | Ok bmp => Ok (Some (info (rq_From r) bmp (rq_Mount r)))
                       end
              | _ => Ok (Some (info EmptyString EmptyString EmptyString))
              end
          end
      end
  end.
End info.

(** ** [src/server/middleware/v2auth] *)

Inductive target := login | catalog | repository.
Record access := mkAccess { ac_target : target; ac_name : string; ac_action : string }.

Definition getAction (method : string) : string :=
  if (method == "POST") || (method == "PATCH") || (method == "PUT") then Rbac.ActionPush
  else if (method == "GET") || (method == "HEAD") then Rbac.ActionPull
  else if method == "DELETE" then Rbac.ActionDelete
  else EmptyString.

Definition scopeStr (a : access) : string :=
  match ac_target a with
  | repository =>
      let act := if ac_action a == Rbac.ActionPull then "pull"%string
                 else if ac_action a == Rbac.ActionPush then "pull,push"%string
                 else if ac_action a == Rbac.ActionDelete then "delete"%string
                 else EmptyString in
      if act == "" then EmptyString else "repository:" +:+ ac_name a +:+ ":" +:+ act
  | _ => EmptyString
  end.

Definition accessList (r : Request) (info : option ArtifactInfo) : list access :=
  if rq_Path r == "/v2/" then [mkAccess login EmptyString EmptyString]
  else if rq_IsCatalog r then [mkAccess catalog EmptyString EmptyString]
  else match info with
       | None => []
       | Some a =>
           let action := getAction (rq_Method r) in
           if action == "" then []
           else mkAccess repository (af_Repository a) action
                :: (if (rq_Method r == "POST") && negb (af_BlobMountRepository a == "")
                    then [mkAccess repository (af_BlobMountRepository a) Rbac.ActionPull] else [])
       end.

Section auth.
(** The URL of the token service for the host of the request. *)
Context (tokenSvc : string).

Fixpoint scopes (l : list access) (scope : string) : string :=
  match l with
  | [] => scope
  | a :: l => scopes l (scope +:+ (if scope == "" then EmptyString else " "%string) +:+ scopeStr a)
  end.
Definition quoted (s : string) : string :=
  String (Ascii.ascii_of_N 34) (s +:+ String (Ascii.ascii_of_N 34) EmptyString).
Definition getChallenge (r : Request) (al : list access) : string :=
  if negb (rq_Authorization r == "") || rq_IsCatalog r then "Basic realm=" +:+ quoted "harbor"
  else
    let scope := scopes al EmptyString in
    "Bearer realm=" +:+ quoted (tokenSvc +:+ "/service/token") +:+ ",service=" +:+ quoted "harbor-registry"
      +:+ (if scope == "" then EmptyString else ",scope=" +:+ quoted scope).

(** A refusal carries a challenge. *)
Definition project_id (name : string) : M HarborDB Z :=
  p ← on_proj (ProjectStore.project_ctl.Get (ProjectStore.ByName name) ProjectStore.default_options);
  mret (ProjectStore.j_ProjectID (ProjectStore.pv_Project p)).

Definition repository_resource (pid : Z) : string := Rbac.ns_Resource (Rbac.ProjectNS pid) [Rbac.ResourceRepository].

(** The loop of [check]: [None] when all accesses are granted. *)
Fixpoint check_all (r : Request) (s : Security) (al l : list access) : M HarborDB (option (string * string)) :=
  match l with
  | [] => mret None
  | a :: l =>
      match ac_target a with
      | login =>
          if negb (RobotStore.IsAuthenticated (sx_Ctx s)) then mret (Some (getChallenge r al, "unauthorized"%string))
          else check_all r s al l
      | catalog =>
          if negb (RobotStore.Can (sx_Ctx s) Rbac.ActionRead (Rbac.ns_Resource Rbac.SystemNS [Rbac.ResourceCatalog]))
          then mret (Some (getChallenge r al, "unauthorized to list catalog"%string))
          else check_all r s al l
      | repository =>
          if (rq_Authorization r == "") && ((rq_Method r == "HEAD") || (rq_Method r == "GET"))
          then mret (Some (getChallenge r al, "authorize header needed to send HEAD to repository"%string))
          else
            x ← try (project_id (default EmptyString (head (Split (ac_name a) slash))));
            match x with
            | Err _ => mret (Some (EmptyString, "project"%string))
            | Ok pid =>
                if negb (RobotStore.Can (sx_Ctx s) (ac_action a) (repository_resource pid))
                then mret (Some (getChallenge r al, "unauthorized to access repository: " +:+ ac_name a
                                   +:+ ", action: " +:+ ac_action a))
                else check_all r s al l
            end
      end
  end.

Definition check (r : Request) (info : option ArtifactInfo) : M HarborDB (option (string * string)) :=
  match rq_Security r with
  | None => mret (Some (EmptyString, "the security context got from request is nil"%string))
  | Some s =>
      match accessList r info with
      | [] => mret (Some (EmptyString, "un-recognized request: " +:+ rq_Method r +:+ " " +:+ rq_Path r))
      | al => check_all r s al al
      end
  end.

(** The challenge goes into the header of the reply. *)
Definition v2auth (r : Request) (info : option ArtifactInfo) : M HarborDB unit :=
  x ← check r info;
  match x with
  | None => mret tt
  | Some (_, msg) => fail (WithMessage RobotStore.UnauthorizedError msg)
  end.
End auth.

(** ** [src/server/middleware/readonly/readonly.go] *)

Definition safeMethod (m : string) : bool := (m == "GET") || (m == "HEAD") || (m == "OPTIONS").
Definition readonly (readOnly : bool) (r : Request) : result unit :=
  if negb (safeMethod (rq_Method r)) && readOnly
  then Err (WithMessage (WithCode (New EmptyString) DENIED)
              "The system is in read only mode. Any modification is prohibited.")
  else Ok tt.

(** ** Policies of a pull *)

Definition PROJECTPOLICYVIOLATION : string := "PROJECTPOLICYVIOLATION".
Definition violation {A} (msg : string) : M HarborDB A :=
  fail (WithMessage (WithCode (New EmptyString) PROJECTPOLICYVIOLATION) msg).
Definition no_info {A} : M HarborDB A :=
  fail (WithCode (New "artifactinfo middleware required before this middleware") NotFoundCode).

(** [strings.Contains] *)
Fixpoint Contains (s sub : string) : bool :=
  HasPrefix s sub || match s with EmptyString => false | String _ s => Contains s sub end.

Section policies.
Context `{SC : ScanConfig}.

(** [src/server/middleware/util/util.go] *)
Definition token_bypass (r : Request) (projectID : Z) : bool :=
  match rq_Security r with
  | Some s =>
      (sx_Name s == "v2token") &&
      (RobotStore.Can (sx_Ctx s) Rbac.ActionScannerPull (repository_resource projectID)
       || RobotStore.Can (sx_Ctx s) Rbac.ActionPush (repository_resource projectID)
          && Contains (rq_UserAgent r) "cosign")
  | None => false
  end.
Definition SkipPolicyChecking (r : Request) (projectID artID : Z) : M HarborDB bool :=
  if token_bypass r projectID then mret true
  else
    accs ← on_art (accessory_mgr.List (λ c, c_ArtifactID c = artID));
    mret (match accs with c :: _ => c_Type c == TypeCosignSignature | [] => false end).

(** [Checker.IsArtifactSigned] of [src/pkg/signature/manager.go] *)
Definition IsArtifactSigned (signatures : gmap string string) (digest : string) : bool :=
  existsb (λ kv, kv.2 == digest) (map_to_list signatures).

Definition isArtifactSigned (a : ArtifactInfo) : result bool :=
  match GetCheckerByRepo scan_sv (af_Repository a) with
  | Err e => Err e
  | Ok signatures =>
      Ok (if af_Tag a == "" then IsArtifactSigned signatures (af_Digest a)
          else IsTagSigned signatures (af_Tag a) (af_Digest a))
  end.

Definition with_digest (digest : string) (a : ArtifactInfo) : ArtifactInfo :=
  mkArtifactInfo (af_Repository a) (af_Reference a) (af_ProjectName a) digest (af_Tag a) (af_BlobMountRepository a)
    (af_BlobMountProjectName a) (af_BlobMountDigest a).

(** [src/server/middleware/contenttrust/notary.go] *)
Definition Notary (r : Request) (info : option ArtifactInfo) : M HarborDB unit :=
  match info with
  | None => no_info
  | Some af =>
      pro ← on_proj (ProjectStore.project_ctl.GetByName (af_ProjectName af) ProjectStore.default_options);
      if negb (ProjectStore.ContentTrustEnabled pro) then mret tt
      else
        art ← on_art (artifact_ctl.GetByReference scan_sv (af_Repository af) (af_Reference af) None);
        ok ← SkipPolicyChecking r (ProjectStore.j_ProjectID (ProjectStore.pv_Project pro)) (a_ID (v_row art));
        if ok : bool then mret tt
        else
          matched ← of_result (isArtifactSigned
            (if af_Digest af == "" then with_digest (a_Digest (v_row art)) af else af));
          if matched : bool then mret tt else violation "The image is not signed in Notary."
  end.

(** [src/server/middleware/contenttrust/cosign.go] *)
Definition with_accessories : option Option := Some (mkOption false None false true).
Definition Cosign (r : Request) (info : option ArtifactInfo) : M HarborDB unit :=
  match info with
  | None => no_info
  | Some af =>
      pro ← on_proj (ProjectStore.project_ctl.GetByName (af_ProjectName af) ProjectStore.default_options);
      if negb (ProjectStore.ContentTrustCosignEnabled pro) then mret tt
      else
        art ← on_art (artifact_ctl.GetByReference scan_sv (af_Repository af) (af_Reference af) with_accessories);
        ok ← SkipPolicyChecking r (ProjectStore.j_ProjectID (ProjectStore.pv_Project pro)) (a_ID (v_row art));
        if ok : bool then mret tt
        else if existsb (λ c, c_Type c == TypeCosignSignature) (v_Accessories art) then mret tt
        else violation "The image is not signed in Cosign."
  end.

(** [src/server/middleware/vulnerable/vulnerable.go]; the messages name the severity of
    the project. *)
Definition prevent_message (what severity : string) : string :=
  what +:+ " cannot be pulled due to configured policy in 'Prevent images with vulnerability severity of "
    +:+ severity +:+ " or higher from running.'".

Definition threshold (pro : ProjectStore.ProjectView) : string :=
  ParseSeverityVersion3 title (ProjectStore.Severity pro).

Definition judgement (pro : ProjectStore.ProjectView) (art : ArtView) (v : Vulnerable) : M HarborDB unit :=
  let a := v_row art in
  let sev := threshold pro in
  if IsImageIndex a && ((a_Type a == ArtifactTypeImage) || (a_Type a == ArtifactTypeCNAB)) then mret tt
  else if negb (IsScanSuccess v)
  then violation (prevent_message ("current image with " +:+ vb_ScanStatus v +:+ " status of vulnerability scanning") sev)
  else match vb_Severity v with
       | Some s =>
           if SevCode sev <=? SevCode s
           then violation (prevent_message ("current image with " +:+ pretty (VulnerabilitiesCount v)
                  +:+ (if 1 <? VulnerabilitiesCount v then " vulnerabilities"%string else " vulnerability"%string)) sev)
           else mret tt
       | None => mret tt
       end.

Definition check_vulnerable (fuel : nat) (pro : ProjectStore.ProjectView) (art : ArtView) : M HarborDB (option unit) :=
  r ← try (GetVulnerable None fuel art (ProjectStore.allowlist.CVESet (ProjectStore.pv_Allowlist pro)));
  match r with
  | Err e =>
      if IsNotFoundErr e
      then violation (prevent_message "current image without vulnerability scanning" (threshold pro))
      else fail e
  | Ok None => mret None
  | Ok (Some v) => fret (judgement pro art v)
  end.

Definition vulnerable (fuel : nat) (r : Request) (info : option ArtifactInfo) : M HarborDB (option unit) :=
  match info with
  | None => no_info
  | Some af =>
      pro ← on_proj (ProjectStore.project_ctl.Get (ProjectStore.ByName (af_ProjectName af)) ProjectStore.effective_allowlist);
      if negb (ProjectStore.VulPrevented pro) then mret (Some tt)
      else
        art ← on_art (artifact_ctl.GetByReference scan_sv (af_Repository af) (af_Reference af) None);
        ok ← SkipPolicyChecking r (ProjectStore.j_ProjectID (ProjectStore.pv_Project pro)) (a_ID (v_row art));
        if ok : bool then mret (Some tt)
        else
          x <~~ IsScannable fuel ∅ art;
          if negb x.1 then mret (Some tt) else check_vulnerable fuel pro art
  end.

(** ** [src/server/middleware/repoproxy/proxy.go] *)

(** [proxied] is what becomes of a request to a proxy project: served or redirected, or
    passed on. *)
Inductive proxy_action := ProxyServed | ProxyNext | ProxyFailed (e : error).

Definition handleManifest (proxied : ArtifactInfo → ProjectStore.Project → proxy_action) (info : option ArtifactInfo)
    : M HarborDB proxy_action :=
  match info with
  | None => mret (ProxyFailed (WithCode (New "artifactinfo is not found") NotFoundCode))
  | Some af =>
      x ← try (on_proj (ProjectStore.project_ctl.GetByName (af_ProjectName af)
                 (ProjectStore.mkProjectOptions true false false false)));
      match x with
      | Err e => mret (ProxyFailed e)
      | Ok p =>
          let pro := ProjectStore.pv_Project p in
          mret (if ProjectStore.j_RegistryID pro <? 1 then ProxyNext else proxied af pro)
      end
  end.

(** Whether the request was answered; an error other than a missing project or tag
    falls back to the local registry. *)
Definition ManifestMiddleware (proxied : ArtifactInfo → ProjectStore.Project → proxy_action) (info : option ArtifactInfo)
    : M HarborDB bool :=
  a ← handleManifest proxied info;
  match a with
  | ProxyServed => mret true
  | ProxyNext => mret false
  | ProxyFailed e => if IsNotFoundErr e then fail e else mret false
  end.

(** ** [getManifest] of [src/server/registry/manifest.go] *)

(** [proxy.ServeHTTP] and the cache of manifests are the backend; the reply is the
    artifact whose digest is asked for, or none when the client has it. *)
Definition etagMatch (r : Request) (etag : string) : bool :=
  bool_decide (etag ∈ rq_IfNoneMatch r) || bool_decide (quoted etag ∈ rq_IfNoneMatch r).

Inductive Reply := NotModified | Served (digest : string) | FromProxy.

Definition getManifest (r : Request) (repository reference : string) : M HarborDB Reply :=
  art ← on_art (artifact_ctl.GetByReference scan_sv repository reference None);
  mret (if etagMatch r (a_Digest (v_row art)) then NotModified else Served (a_Digest (v_row art))).

(** The route of a pull: the middlewares in the order in which they are registered. *)
Definition pull (tokenSvc : string) (proxied : ArtifactInfo → ProjectStore.Project → proxy_action) (fuel : nat)
    (IsDigest IsTag : string → bool) (r : Request) : M HarborDB (option Reply) :=
  info ← of_result (artifact_info IsDigest IsTag r);
  _ ← v2auth tokenSvc r info;
  served ← ManifestMiddleware proxied info;
  if served : bool then mret (Some FromProxy)
  else
    _ ← Notary r info;
    _ ← Cosign r info;
    _ <~~ vulnerable fuel r info;
    match info with
    | None => fail (PlainError "no route")
    | Some af => fret (getManifest r (af_Repository af) (af_Reference af))
    end.

(** ** Pushing *)

(** [src/server/middleware/immutable/pushmf.go]; a failed lookup lets the push pass. *)
Definition immutable_option : option Option := Some (mkOption true (Some (mkTagOption true false None)) false false).
Definition handlePush (info : option ArtifactInfo) : M HarborDB unit :=
  match info with
  | None => fail (WithCode (New "cannot get the manifest information from request context") NotFoundCode)
  | Some art =>
      x ← try (on_art (artifact_ctl.GetByReference scan_sv (af_Repository art) (af_Tag art) immutable_option));
      match x with
      | Err _ => mret tt
      | Ok v =>
          if existsb (λ t, (t_Name (tv_Tag t) == af_Tag art) && tv_Immutable t) (v_Tags v)
          then fail (WithCode (New ("Failed to process request due to " +:+ af_Repository art +:+ ":" +:+ af_Tag art
                                      +:+ " configured as immutable.")) PreconditionCode)
          else mret tt
      end
  end.

(** [DisableBlobAndManifestUploadMiddleware]; [proxycachesecret.ProxyCacheService] is
    the user of the proxy's own pushes. *)
Definition disable_upload (r : Request) (info : option ArtifactInfo) : M HarborDB unit :=
  p ← on_proj (ProjectStore.project_ctl.GetByName (match info with Some a => af_ProjectName a | None => EmptyString end)
        ProjectStore.default_options);
  let own := match rq_Security r with
             | Some s => RobotStore.GetUsername (sx_Ctx s) == "harbor#proxy-cache-service"
             | None => false
             end in
  if ProjectStore.IsProxy p && negb own
  then fail (DeniedError (Some (New ("can not push artifact to a proxy project: "
               +:+ ProjectStore.j_Name (ProjectStore.pv_Project p)))))
  else mret tt.

End policies.
