(* ===== verification/PullSpec.v ===== *)
(** * What a pull is checked against

    The policies that hold of every manifest that the route of a pull serves. *)

From S2P Require Import Prelude GoErrors GoStrings Orm Table Hoare JobStatus.
From S2P Require Import ArtifactStore ArtifactCtl ArtifactInv VulnReport ScanStore ScanSpec ScanCtl ScanCtlSpec Pull.
From S2P Require ProjectStore RobotStore TaskStore RobotSpec BlobStore Rbac.
Open Scope Z_scope.
Local Open Scope harbor_scope.

(** ** Nothing of a pull changes the artifacts *)

Section frames.
Context `{SC : ScanConfig}.

Definition same_art (d d' : HarborDB) : Prop := hart d' = hart d.
#[local] Instance same_art_preorder : PreOrder same_art.
Proof. split; [by intros d|]. unfold same_art. intros ????. by etrans. Qed.

Lemma reads_same_art {A} (m : M HarborDB A) : reads m → preserves same_art m.
Proof. intros Hm w r w' H. unfold same_art. by rewrite <- (Hm _ _ _ H). Qed.

Lemma Registration_same_art pid : preserves same_art (scanner_ctl.GetRegistrationByProject pid).
Proof.
  intros w r w' H. pose proof (GetRegistrationByProject_spec pid (db w) w r w' eq_refl H) as Hs.
  destruct r; [destruct Hs as [Hs _]|]; apply Hs.
Qed.

Lemma accessory_artifacts_keeps I o l : keeps I (artifact_ctl.accessory_artifacts scan_sv o l).
Proof. induction l; simpl; keeps_auto. Qed.
#[local] Hint Resolve accessory_artifacts_keeps : keeps.
Lemma child_artifacts_keeps I o l : keeps I (artifact_ctl.child_artifacts scan_sv o l).
Proof. induction l; simpl; keeps_auto. Qed.
#[local] Hint Resolve child_artifacts_keeps : keeps.
Lemma successors_keeps I o v : keeps I (artifact_ctl.successors scan_sv o v).
Proof. unfold artifact_ctl.successors. keeps_auto. Qed.
#[local] Hint Resolve successors_keeps : keeps.

Lemma Walk_reads {S} (walkFn : ArtView → S → M ArtDB (artifact_ctl.walk_result * S)) o fuel v s :
  (∀ v s, reads (walkFn v s)) → reads (artifact_ctl.Walk scan_sv walkFn o fuel v s).
Proof.
  intros Hw. apply keeps_all_reads. intros I. unfold artifact_ctl.Walk. generalize [v], (@nil string). clear v.
  revert s. induction fuel as [|fuel IH]; intros s q walked; destruct q as [|v q]; simpl; keeps_auto.
  by apply keeps_reads.
Qed.

Lemma scannable_walk_reads r v s : reads (scannable_walk r v s).
Proof.
  unfold scannable_walk, reads. eapply (preserves_bind eq); [by eapply reading_reads, isAccessory_reading|].
  intros b. frame.
Qed.
Lemma collect_walk_reads r v s : reads (collect_walk r v s).
Proof.
  unfold collect_walk, reads. eapply (preserves_bind eq); [by eapply reading_reads, isAccessory_reading|].
  intros b. frame.
Qed.

Lemma on_art_reads {A} (m : M ArtDB A) : reads m → reads (on_art m).
Proof. apply reads_zoom. by intros []. Qed.

Lemma IsScannable_same_art fuel m v : preserves same_art (IsScannable fuel m v).
Proof.
  unfold IsScannable. apply preserves_bind; [apply _| |].
  - destruct (m !! _); [apply preserves_mret; apply _|apply Registration_same_art].
  - intros [r|]; [|apply preserves_mret; apply _]. unfold fbind. apply preserves_bind; [apply _| |].
    + apply reads_same_art, on_art_reads, Walk_reads. intros. apply scannable_walk_reads.
    + intros [s|]; apply preserves_mret; apply _.
Qed.

Lemma report_groups_reads uid mimes l : reads (report_groups None uid mimes l).
Proof.
  unfold reads. induction l as [|v l IH]; simpl; [apply preserves_mret; apply _|].
  apply preserves_bind; [apply _| |].
  - apply preserves_try. eapply reading_reads, clone_reading, reads_reading. apply reads_zoom; [by intros []|].
    unfold reads, report_mgr.GetBy, report_dao.List. frame.
  - intros x. apply preserves_bind; [apply _|exact IH|]. intros gs. apply preserves_mret; apply _.
Qed.

(** A relation that the lookup of the scanner respects. *)
Section report_frames.
Context (R : relation HarborDB) `{!PreOrder R} (pid : Z).
Hypothesis HR : preserves R (scanner_ctl.GetRegistrationByProject pid).

Lemma reads_frame {A} (m : M HarborDB A) : reads m → preserves R m.
Proof. intros Hm w r w' H. by rewrite <- (Hm _ _ _ H). Qed.

Lemma GetReport_frame fuel v mimes : a_ProjectID (v_row v) = pid → preserves R (GetReport None fuel v mimes).
Proof.
  intros <-. unfold GetReport, wrap. apply preserves_bind; [apply _| |].
  - apply preserves_bind; [apply _|apply preserves_try, HR|].
    intros [o|e]; [apply preserves_mret|apply preserves_fail]; apply _.
  - intros [r|]; [|apply preserves_fail; apply _]. unfold fbind, collectScanningArtifacts.
    apply preserves_bind; [apply _|apply reads_frame, on_art_reads, Walk_reads; intros; apply collect_walk_reads|].
    intros [c|]; [|apply preserves_mret; apply _]. destruct (negb c.1); [apply preserves_fail; apply _|].
    apply preserves_bind; [apply _|apply reads_frame, report_groups_reads|]. intros gs.
    destruct (bool_decide _); [apply preserves_mret; apply _|].
    destruct (mjoin gs); [apply preserves_mret; apply _|]. unfold fret.
    apply preserves_bind; [apply _|eapply reads_frame, reading_reads, assembleReports_reading|].
    intros x. apply preserves_mret. apply _.
Qed.

Lemma first_reports_frame fuel v mimes : a_ProjectID (v_row v) = pid → preserves R (first_reports None fuel v mimes).
Proof.
  intros Hv. induction mimes as [|m mimes IH]; simpl; [apply preserves_mret; apply _|]. unfold fbind.
  apply preserves_bind; [apply _|by apply GetReport_frame|]. intros [[|x l]|]; [exact IH|apply preserves_mret; apply _..].
Qed.

Lemma GetVulnerable_frame fuel v allow : a_ProjectID (v_row v) = pid → preserves R (GetVulnerable None fuel v allow).
Proof.
  intros Hv. unfold GetVulnerable, fbind. apply preserves_bind; [apply _|by apply first_reports_frame|].
  intros [[m [|rp l]]|]; simpl; [apply preserves_fail; apply _| |apply preserves_mret; apply _].
  destruct (negb _); [apply preserves_mret; apply _|].
  apply preserves_bind; [apply _|apply preserves_of_result; apply _|]. intros o. apply preserves_mret. apply _.
Qed.

End report_frames.

Lemma GetVulnerable_same_art fuel v allow : preserves same_art (GetVulnerable None fuel v allow).
Proof. by eapply GetVulnerable_frame; [apply _|apply Registration_same_art|]. Qed.

Lemma GetVulnerable_same_scan fuel v allow : preserves (same_scan (a_ProjectID (v_row v))) (GetVulnerable None fuel v allow).
Proof.
  eapply GetVulnerable_frame; [apply _| |done]. intros w r w' H.
  pose proof (GetRegistrationByProject_spec _ (db w) w r w' eq_refl H) as Hs. destruct r; [apply Hs|exact Hs].
Qed.

Lemma check_vulnerable_same_art fuel pro v : preserves same_art (check_vulnerable fuel pro v).
Proof.
  unfold check_vulnerable, violation. apply preserves_bind; [apply _|apply preserves_try, GetVulnerable_same_art|].
  intros [[vb|]|e]; [|apply preserves_mret; apply _|case_match; apply preserves_fail; apply _].
  unfold fret, judgement, violation. apply preserves_bind; [apply _| |intros []; apply preserves_mret; apply _].
  repeat case_match; first [apply preserves_mret; apply _|apply preserves_fail; apply _].
Qed.

End frames.

(** ** The policies of a pull *)

Section policies.
Context `{SC : ScanConfig}.

(** The settings of a project. *)
Definition settings (d : HarborDB) (p : ProjectStore.Project) : ProjectStore.ProjectView :=
  ProjectStore.mkProjectView p (metadata (hproj d) (ProjectStore.j_ProjectID p) []) ProjectStore.project_ctl.no_allowlist.

(** A scanner or cosign with its token, or the pull of a signature. *)
Definition bypasses (d : HarborDB) (r : Request) (pid artID : Z) : Prop :=
  token_bypass r pid = true ∨
  ∃ c l, select (λ c, c_ArtifactID c = artID) (accs (hart d)) = c :: l ∧ c_Type c = TypeCosignSignature.

Lemma bypasses_dec d r pid artID : bypasses d r pid artID ∨ ¬ bypasses d r pid artID.
Proof.
  unfold bypasses. destruct (token_bypass r pid); [by left; left|]. destruct (select _ _) as [|c l]; [right; naive_solver|].
  destruct (decide (c_Type c = TypeCosignSignature)); [left; right; eauto|right; naive_solver].
Qed.

Lemma SkipPolicyChecking_reading r pid artID :
  reading (SkipPolicyChecking r pid artID) (λ d b, b = true → bypasses d r pid artID).
Proof.
  unfold SkipPolicyChecking, bypasses. destruct (token_bypass r pid).
  - eapply reading_conseq; [apply reading_ret|]. intros. by left.
  - eapply reading_conseq; [eapply reading_bind; [apply on_art_reading, accessory_List_reading|intros l; apply reading_ret]|].
    intros d b (l & -> & ->) Hb. right. destruct (select _ _) as [|c l]; [done|]. apply bool_decide_eq_true in Hb. eauto.
Qed.

(** What the middlewares find for the request. *)
Definition resolves (d : HarborDB) (af : ArtifactInfo) (p : ProjectStore.Project) (a : Artifact) : Prop :=
  live_project (hproj d) (af_ProjectName af) = Some p ∧
  artifact_at scan_sv (hart d) (af_Repository af) (af_Reference af) = Some a.

Definition signed (af : ArtifactInfo) (a : Artifact) : Prop :=
  isArtifactSigned (if af_Digest af == "" then with_digest (a_Digest a) af else af) = Ok true.

Lemma Notary_reading r af :
  reading (Notary r (Some af)) (λ d _, is_Some (live_project (hproj d) (af_ProjectName af)) ∧
    ∀ p a, resolves d af p a → ProjectStore.ContentTrustEnabled (settings d p) = true →
    bypasses d r (ProjectStore.j_ProjectID p) (a_ID a) ∨ signed af a).
Proof.
  unfold Notary. eapply reading_conseq; [eapply reading_bind; [apply on_proj_reading, project_GetByName_reading|]|].
  - intros pro. instantiate (1 := λ pro d _, ProjectStore.ContentTrustEnabled pro = true → ∃ v,
      artifact_at scan_sv (hart d) (af_Repository af) (af_Reference af) = Some (v_row v) ∧
      (bypasses d r (ProjectStore.j_ProjectID (ProjectStore.pv_Project pro)) (a_ID (v_row v)) ∨ signed af (v_row v))). simpl.
    destruct (ProjectStore.ContentTrustEnabled pro); simpl; [|eapply reading_conseq; [apply reading_ret|done]].
    eapply reading_conseq; [eapply reading_bind; [apply on_art_reading, GetByReference_reading|]|].
    + intros v. eapply reading_bind; [apply SkipPolicyChecking_reading|]. intros b.
      instantiate (1 := λ b d _, b = true ∨ signed af (v_row v)). destruct b; [eapply reading_conseq; [apply reading_ret|by left]|].
      eapply reading_conseq; [eapply reading_bind; [apply reading_of_result|]|].
      * intros ok. instantiate (1 := λ ok _ _, ok = true). destruct ok; [|apply reading_fail].
        eapply reading_conseq; [apply reading_ret|done].
      * intros d u (ok & Hok & ->). by right.
    + intros d u (v & [Ha _] & b & Hb & Hu) _. exists v. split; [done|]. destruct Hu as [->|Hu]; [left; by apply Hb|by right].
  - intros d u (pro & (Hp & Hm & _) & Hc). split; [rewrite Hp; eauto|]. intros p a [Hp' Ha] Ht.
    assert (p = ProjectStore.pv_Project pro) as -> by congruence. destruct Hc as (v & Hv & Hb).
    { revert Ht. unfold ProjectStore.ContentTrustEnabled, ProjectStore.meta_true. by rewrite (Hm eq_refl eq_refl). }
    assert (a = v_row v) as -> by congruence. done.
Qed.

Definition cosigned (d : HarborDB) (a : Artifact) : Prop :=
  ∃ i c, rows (accs (hart d)) !! i = Some c ∧ c_SubjectArtifactID c = a_ID a ∧ c_Type c = TypeCosignSignature.

Lemma Cosign_reading r af :
  reading (Cosign r (Some af)) (λ d _, ∀ p a, resolves d af p a →
    ProjectStore.ContentTrustCosignEnabled (settings d p) = true →
    bypasses d r (ProjectStore.j_ProjectID p) (a_ID a) ∨ cosigned d a).
Proof.
  unfold Cosign. eapply reading_conseq; [eapply reading_bind; [apply on_proj_reading, project_GetByName_reading|]|].
  - intros pro. instantiate (1 := λ pro d _, ProjectStore.ContentTrustCosignEnabled pro = true → ∃ v,
      artifact_at scan_sv (hart d) (af_Repository af) (af_Reference af) = Some (v_row v) ∧
      (bypasses d r (ProjectStore.j_ProjectID (ProjectStore.pv_Project pro)) (a_ID (v_row v)) ∨ cosigned d (v_row v))). simpl.
    destruct (ProjectStore.ContentTrustCosignEnabled pro); simpl; [|eapply reading_conseq; [apply reading_ret|done]].
    eapply reading_conseq; [eapply reading_bind; [apply on_art_reading, GetByReference_reading|]|].
    + intros v. eapply reading_bind; [apply SkipPolicyChecking_reading|]. intros b.
      instantiate (1 := λ b d _, b = true ∨ existsb (λ c, c_Type c == TypeCosignSignature) (v_Accessories v) = true).
      destruct b; [eapply reading_conseq; [apply reading_ret|by left]|].
      destruct (existsb _ _); [|apply reading_fail]. eapply reading_conseq; [apply reading_ret|by right].
    + intros d u (v & [Ha Hc] & b & Hb & Hu) _. exists v. split; [done|]. destruct Hu as [->|Hu]; [left; by apply Hb|right].
      apply existsb_exists in Hu as (c & Hin & Ht). apply bool_decide_eq_true in Ht.
      destruct (Hc c) as (i & Hi & Hs); [by apply list_elem_of_In|]. by exists i, c.
  - intros d u (pro & (Hp & Hm & _) & Hc) p a [Hp' Ha] Ht. assert (p = ProjectStore.pv_Project pro) as -> by congruence.
    destruct Hc as (v & Hv & Hb).
    { revert Ht. unfold ProjectStore.ContentTrustCosignEnabled, ProjectStore.meta_true. by rewrite (Hm eq_refl eq_refl). }
    assert (a = v_row v) as -> by congruence. done.
Qed.

(** The scanner's report on the artifact: its task has succeeded, and what is neither
    exempted nor below the bar is not in it.  Records with the same key count as one. *)
Definition scanned_below (d : HarborDB) (p : ProjectStore.Project) (a : Artifact) (rg : Registration) (bar : Z) : Prop :=
  ∃ i rp t, rows (sreports (hscan d)) !! i = Some rp ∧ sr_Digest rp = a_Digest a ∧ sr_RegistrationUUID rp = g_UUID rg ∧
    task_of d (sr_UUID rp) t ∧ TaskStore.t_Status t = SuccessStatus ∧
    (sr_Report rp = NoText ∨
     ∀ x, x ∈ records_of (hscan d) (sr_UUID rp) → ∃ y, y ∈ records_of (hscan d) (sr_UUID rp) ∧ record_Key y = record_Key x ∧
       (vr_CVEID y ∈ exempted (hproj d) (settings d p) ∨ SevCode (ParseSeverityVersion3 title (vr_Severity y)) < bar)).
(** The bar of a pull is the threshold of the project. *)
Definition harmless (d : HarborDB) (p : ProjectStore.Project) (a : Artifact) (rg : Registration) : Prop :=
  scanned_below d p a rg (SevCode (threshold (settings d p))).

Definition supports (d : HarborDB) (a : Artifact) (rg : Registration) : Prop :=
  project_scanner d (a_ProjectID a) = Some rg ∧ a_Type a = ArtifactTypeImage ∧
  HasCapability (scanner_ctl.pinged rg) (a_ManifestMediaType a) = true ∧ accessory_rows (hart d) a = [].

Lemma verdict_below d pro v rg vb bar : scans_ok (hscan d) → project_scanner d (a_ProjectID (v_row v)) = Some rg →
  ProjectStore.pv_Metadata pro = metadata (hproj d) (ProjectStore.j_ProjectID (ProjectStore.pv_Project pro)) [] →
  ProjectStore.allowlist.CVESet (ProjectStore.pv_Allowlist pro) = exempted (hproj d) pro →
  verdict d v rg (ProjectStore.allowlist.CVESet (ProjectStore.pv_Allowlist pro)) vb → IsScanSuccess vb = true →
  (∀ s, vb_Severity vb = Some s → SevCode s < bar) → scanned_below d (ProjectStore.pv_Project pro) (v_row v) rg bar.
Proof.
  intros Hok Hr Hmeta Hallow (m & rp & Hm & Hrow & Hs) Es Hlt.
  assert (Hin : rp ∈ report_rows d v rg m) by (rewrite Hrow; left).
  destruct (report_row d v rg Hr Hok m rp Hin) as (i & Hi & Hdg & Hreg & _).
  destruct Hs as [(t & Ht & Hst) Hb]; [done|].
  exists i, rp, t. split_and!; try done. destruct Hb as [?|Hb]; [by left|right]. intros x Hx.
  destruct (Hb x Hx) as (y & Hy & Hk & Hyy). exists y. split_and!; [done|done|].
  destruct Hyy as [Ha|(s & Hs & Hle)].
  - left. rewrite Hallow in Ha. unfold exempted, ProjectStore.ReuseSysCVEAllowlist, ProjectStore.meta_true in *.
    by rewrite Hmeta in Ha.
  - right. specialize (Hlt s Hs). lia.
Qed.

Lemma check_vulnerable_supported d fuel pro v rg d1 : scans_ok (hscan d) → supports d (v_row v) rg →
  IsImageIndex (v_row v) = false → same_scan (a_ProjectID (v_row v)) d d1 →
  ProjectStore.pv_Metadata pro = metadata (hproj d) (ProjectStore.j_ProjectID (ProjectStore.pv_Project pro)) [] →
  ProjectStore.allowlist.CVESet (ProjectStore.pv_Allowlist pro) = exempted (hproj d) pro →
  spec (λ x, x = d1) (check_vulnerable fuel pro v)
    (λ o _, o = Some tt → harmless d (ProjectStore.pv_Project pro) (v_row v) rg) (λ _, True).
Proof.
  intros Hok (Hr & Hty & Hcap & Hacc) Hidx H1 Hmeta Hallow. unfold check_vulnerable.
  assert (Hc : hasCapability (scanner_ctl.pinged rg) v = true).
  { unfold hasCapability. by rewrite Hty, Hcap, bool_decide_true. }
  eapply spec_bind; [apply (spec_try _ _ _ _ _ (GetVulnerable_supported d v rg Hr Hc Hacc Hok fuel _ d1 H1))|].
  intros [[vb|]|e]; [|apply spec_ret; done|destruct (IsNotFoundErr e); by apply spec_fail].
  apply spec_exact. intros d2 [_ Hv]. specialize (Hv vb eq_refl). unfold fret, judgement. rewrite Hidx. cbn [andb].
  destruct (IsScanSuccess vb) eqn:Es; cbn [negb]; [|apply (spec_bind _ _ (λ _ _, False)); [by apply spec_fail|intros []; by apply spec_ret]].
  assert (Hdone : (∀ s, vb_Severity vb = Some s → SevCode s < SevCode (threshold pro)) →
    harmless d (ProjectStore.pv_Project pro) (v_row v) rg).
  { intros Hlt. apply (verdict_below d pro v rg vb); try done. intros s Hs. specialize (Hlt s Hs).
    unfold threshold, ProjectStore.Severity in *. rewrite Hmeta in Hlt. simpl. lia. }
  destruct (vb_Severity vb) as [s|] eqn:Ev.
  - destruct (_ <=? _) eqn:L; [apply (spec_bind _ _ (λ _ _, False)); [by apply spec_fail|intros []; by apply spec_ret]|].
    apply (spec_bind _ _ (λ _ _, True)); [by apply spec_ret|]. intros []. apply spec_ret. intros _ _ _. apply Hdone.
    intros ? [= <-]. lia.
  - apply (spec_bind _ _ (λ _ _, True)); [by apply spec_ret|]. intros []. apply spec_ret. intros _ _ _. by apply Hdone.
Qed.

Lemma vulnerable_policy fuel r af w w' : scans_ok (hscan (db w)) → vulnerable fuel r (Some af) w = (Ok (Some tt), w') →
  hart (db w') = hart (db w) ∧ ∀ p a, resolves (db w) af p a → ProjectStore.VulPrevented (settings (db w) p) = true →
    bypasses (db w) r (ProjectStore.j_ProjectID p) (a_ID a) ∨
    ∀ rg, supports (db w) a rg → IsImageIndex a = false → harmless (db w) p a rg.
Proof.
  intros Hok H. unfold vulnerable in H. mbind_inv H. rename a into pro.
  destruct (on_proj_reading _ _ (project_Get_reading _ _) _ _ _ Hm) as [Hd1 Hp]. specialize (Hp pro eq_refl) as (Hp & Hmeta & Hallow).
  specialize (Hmeta eq_refl eq_refl). specialize (Hallow eq_refl eq_refl). rewrite <- Hd1. clear Hm.
  rewrite <- Hd1 in Hok, Hp, Hmeta, Hallow. clear Hd1 w. rename w0 into w.
  assert (Hset : ∀ p, live_project (hproj (db w)) (af_ProjectName af) = Some p → ProjectStore.pv_Project pro = p ∧
    ProjectStore.VulPrevented pro = ProjectStore.VulPrevented (settings (db w) p)).
  { intros p Hp'. assert (p = ProjectStore.pv_Project pro) as -> by congruence. split; [done|].
    unfold ProjectStore.VulPrevented, ProjectStore.meta_true. by rewrite Hmeta. }
  destruct (ProjectStore.VulPrevented pro) eqn:Ev; cbn [negb] in H.
  2:{ injection H as <-. split; [done|]. intros p a [Hp' _] Hv. destruct (Hset p Hp') as [_ Hx]. congruence. }
  mbind_inv H. rename a into v. destruct (on_art_reading _ _ (GetByReference_reading _ _ _ _) _ _ _ Hm) as [Hd1 Ha].
  specialize (Ha v eq_refl) as [Ha _]. rewrite <- Hd1 in *. clear Hm Hd1 w. rename w0 into w.
  mbind_inv H. destruct (SkipPolicyChecking_reading _ _ _ _ _ _ Hm) as [Hd1 Hb]. specialize (Hb _ eq_refl).
  rewrite <- Hd1 in *. clear Hm Hd1 w. rename w0 into w.
  destruct a; [injection H as <-; split; [done|]|].
  { intros p a [Hp' Ha'] _. destruct (Hset p Hp') as [Hpp _]. left. assert (a = v_row v) as -> by congruence.
    rewrite <- Hpp. by apply Hb. }
  unfold fbind in H. mbind_inv H. pose proof (IsScannable_same_art _ _ _ _ _ _ Hm) as Ha1. unfold same_art in Ha1.
  destruct a as [[sc regs]|]; [|done]. simpl in H. split.
  { destruct sc; cbn [negb] in H; [|by injection H as <-].
    pose proof (check_vulnerable_same_art _ _ _ _ _ _ H) as Ha2. unfold same_art in Ha2. congruence. }
  intros p a [Hp' Ha'] _. destruct (Hset p Hp') as [Hpp _]. right. intros rg Hsup Hidx.
  assert (a = v_row v) as -> by congruence. pose proof Hsup as (Hr & Hty & Hcap & Hacc).
  assert (Hc : hasCapability (scanner_ctl.pinged rg) v = true).
  { unfold hasCapability. by rewrite Hty, Hcap, bool_decide_true. }
  destruct (IsScannable_supported (db w) v rg Hr Hc Hacc fuel (db w) (reflexivity _) _ _ _ eq_refl Hm) as [Hsame Hy].
  specialize (Hy _ eq_refl). simpl in Hy. subst sc. cbn [negb] in H.
  rewrite <- Hpp. exact (check_vulnerable_supported (db w) fuel pro v rg _ Hok Hsup Hidx Hsame Hmeta Hallow _ _ _ eq_refl H eq_refl).
Qed.

(** *** Authorization *)

(** The first component of a repository's name names the project. *)
Definition granted (d : HarborDB) (s : Security) (a : access) : Prop :=
  ∀ p, live_project (hproj d) (default EmptyString (head (Split (ac_name a) slash))) = Some p →
    RobotStore.Can (sx_Ctx s) (ac_action a) (repository_resource (ProjectStore.j_ProjectID p)) = true.

Lemma project_id_reading name :
  reading (project_id name) (λ d id, ∃ p, live_project (hproj d) name = Some p ∧ id = ProjectStore.j_ProjectID p).
Proof.
  unfold project_id. eapply reading_conseq;
    [eapply reading_bind; [apply on_proj_reading, project_Get_reading|intros p; apply reading_ret]|].
  intros d id (pv & (Hp & _) & ->). eauto.
Qed.

Lemma check_all_reading tokenSvc r s al l :
  reading (check_all tokenSvc r s al l) (λ d o, o = None → ∀ a, a ∈ l → ac_target a = repository → granted d s a).
Proof.
  induction l as [|a l IH]; simpl; [eapply reading_conseq; [apply reading_ret|]; by intros ?? _ _ ? ?%elem_of_nil|].
  assert (Hrest : ac_target a ≠ repository → reading (check_all tokenSvc r s al l)
    (λ d o, o = None → ∀ x, x ∈ a :: l → ac_target x = repository → granted d s x)).
  { intros Hn. eapply reading_conseq; [exact IH|]. intros d o Ho HN x [->|Hx]%elem_of_cons Ht; [done|by apply Ho]. }
  assert (Hno : ∀ x : string * string, reading (mret (Some x) : M HarborDB _)
    (λ d o, o = None → ∀ y, y ∈ a :: l → ac_target y = repository → granted d s y)).
  { intros x. eapply reading_conseq; [apply reading_ret|]. by intros d o -> [=]. }
  destruct (ac_target a) eqn:E.
  - destruct (negb _); [apply Hno|by apply Hrest].
  - destruct (negb _); [apply Hno|by apply Hrest].
  - destruct (_ && _); [apply Hno|].
    eapply reading_conseq; [eapply reading_bind; [apply reading_try, project_id_reading|]|].
    + intros x. instantiate (1 := λ x d o, o = None → ∃ pid, x = Ok pid ∧
        RobotStore.Can (sx_Ctx s) (ac_action a) (repository_resource pid) = true ∧
        ∀ y, y ∈ l → ac_target y = repository → granted d s y). simpl.
      destruct x as [pid|e]; [|eapply reading_conseq; [apply reading_ret|by intros d o -> [=]]].
      destruct (RobotStore.Can _ _ _) eqn:Ec; simpl; [|eapply reading_conseq; [apply reading_ret|by intros d o -> [=]]].
      eapply reading_conseq; [exact IH|]. intros d o Ho HN. exists pid. split_and!; [done|done|by apply Ho].
    + intros d o (x & Hx & Ho) HN y [->|Hy]%elem_of_cons Ht; destruct (Ho HN) as (pid & -> & Hc & Hl); [|by apply Hl].
      destruct (Hx pid eq_refl) as (p & Hp & ->). intros p' Hp'. by assert (p' = p) as -> by congruence.
Qed.

(** A request to a repository is granted its own action. *)
Lemma v2auth_granted tokenSvc r af w w' : v2auth tokenSvc r (Some af) w = (Ok tt, w') →
  db w' = db w ∧ ∃ s, rq_Security r = Some s ∧
    (rq_Path r ≠ "/v2/" → rq_IsCatalog r = false →
     granted (db w) s (mkAccess repository (af_Repository af) (getAction (rq_Method r)))).
Proof.
  unfold v2auth. intros H. mbind_inv H. destruct a as [[c msg]|]; [done|]. injection H as <-.
  unfold check in Hm. destruct (rq_Security r) as [s|]; [|by injection Hm].
  destruct (accessList r (Some af)) as [|a al] eqn:E; [by injection Hm|].
  destruct (check_all_reading _ _ _ _ _ _ _ _ Hm) as [Hd Hg]. specialize (Hg None eq_refl eq_refl).
  split; [done|]. exists s. split; [done|]. intros Hp Hc.
  unfold accessList in E. rewrite bool_decide_false in E by done. rewrite Hc in E. simpl in E.
  case_bool_decide; [done|]. injection E as <- <-. apply Hg; [left|done].
Qed.

Lemma artifact_info_project IsDigest IsTag r af : artifact_info IsDigest IsTag r = Ok (Some af) →
  default EmptyString (head (Split (af_Repository af) slash)) = af_ProjectName af.
Proof.
  unfold artifact_info. destruct (rq_Match r) as [m|]; [|done]. destruct (parse_reference _ _ m) as [[g t]|]; [|done].
  destruct (projectNameFromRepo (um_Repository m)) as [pn|] eqn:E; [|done].
  assert (Hpn : default EmptyString (head (Split (um_Repository m) slash)) = pn).
  { revert E. unfold projectNameFromRepo. destruct (Split _ _) as [|x [|y l]]; by intros [=]. }
  destruct (um_Kind m); try (intros Ha; injection Ha as <-; exact Hpn).
  case_bool_decide; [intros Ha; injection Ha as <-; exact Hpn|].
  destruct (projectNameFromRepo (rq_From r)); [intros Ha; injection Ha as <-; exact Hpn|done].
Qed.

Lemma ManifestMiddleware_reading proxied info : reading (ManifestMiddleware proxied info) (λ _ _, True).
Proof.
  unfold ManifestMiddleware, handleManifest. apply reads_reading. unfold reads. apply preserves_bind; [apply _| |].
  - destruct info as [af|]; [|apply preserves_mret; apply _].
    apply preserves_bind; [apply _|apply preserves_try; eapply reading_reads, on_proj_reading, project_GetByName_reading|].
    intros [p|e]; apply preserves_mret; apply _.
  - intros []; [apply preserves_mret; apply _..|]. destruct (IsNotFoundErr e); [apply preserves_fail|apply preserves_mret]; apply _.
Qed.

End policies.


(** ** An example *)

(** The image [sha256:a] of [library] with the tag [v1], in a project that keeps images
    with vulnerabilities of severity high or above from being pulled, and a report with
    one vulnerability of the severity [sev]. *)
Definition ex_capability : Capability := mkCapability [MimeTypeDockerArtifact] [MimeTypeNativeReport].
Definition ex_scan_config (up : bool) : ScanConfig := {|
  scan_sv := mkServices (λ p s, Ok (p == s)) (λ _, Ok []) (λ _, Ok ∅) (λ s, HasPrefix s "sha256:")
    (λ _ _, Err (PlainError "none")) (λ _ _ _, Ok tt) (λ _ _ _, Ok (EmptyString, EmptyString)) (λ _, "IMAGE"%string) (λ _, Ok 1);
  scan_rc := RobotSpec.ex_config;
  scan_js := TaskStore.mkJsClient (λ _ _, mret "job"%string) (λ _, mret tt);
  uuid := λ n, pretty (Z.of_nat n);
  client_GetMetadata := λ _, if up then Ok (mkAdapterMetadata (Some (mkScannerInfo "scanner" "vendor" "1")) [ex_capability])
                             else Err (PlainError "connection refused");
  ValidateHTTPURL := λ s, Ok s;
  registry_address := λ _, Ok "http://core"%string;
  ScannerRobotPrefix := "scanner"%string;
  attrs_text := λ a, default EmptyString (head (x_ReportUUIDs a));
  attrs_of := λ s, Some (mkScanAttrs 1 EmptyString 0 [s] [s]);
  exec_text := λ _, EmptyString;
  exec_of := λ _, None;
  summary_text := λ _, EmptyString;
  title := λ s, if s == "high" then "High"%string else s;
  error_text := λ _, EmptyString;
|}.

Definition ex_image : Artifact :=
  mkArtifact 1 "IMAGE" EmptyString MimeTypeDockerArtifact 1 1 "library/app" "sha256:a" 10 EmptyString 0 None EmptyString EmptyString.
Definition ex_pull_db (sev : string) : HarborDB :=
  mkHarborDB
    (mkArtDB (mkTable {[1 := ex_image]} 1) empty_table (mkTable {[1 := mkTag 1 1 1 "v1" 0 None]} 1) empty_table empty_table
       empty_table empty_table (mkTable {[1 := mkRepoRecord 1 "library/app" 1 EmptyString 0 0 0]} 1)
       (BlobStore.mkBlobDB ∅ ∅ ∅ [] 0 0) [])
    (RobotStore.mkRobotDB
       (ProjectStore.mkProjDB (mkTable {[1 := ProjectStore.mkProject 1 1 "library" false 0 0]} 1) empty_table
          (mkTable (<[1 := ProjectStore.mkProjectMetadata 1 1 "prevent_vul" "true"]>
                     {[2 := ProjectStore.mkProjectMetadata 2 1 "severity" "high"]}) 2)
          empty_table empty_table empty_table 0) empty_table empty_table empty_table)
    (mkScanDB (mkTable {[1 := mkRegistration 1 "reg" "scanner" "http://scanner" false true false false 0 None]} 1)
       (mkTable {[1 := mkScanReport 1 "u1" "sha256:a" "reg" MimeTypeNativeReport
                    (Doc (mkReport "2023" None sev [] None)) EmptyString 0 0]} 1)
       (mkTable {[1 := mkRecord 1 "CVE-1" "reg" "dpkg" "1.0" "Unknown" sev EmptyString EmptyString ex_cvss EmptyString
                    EmptyString EmptyString]} 1)
       (mkTable {[1 := mkRVR 1 "u1" 1]} 1))
    (TaskStore.mkTaskDB ∅ {[1 := TaskStore.mkTask 1 "IMAGE_SCAN" 1 "job" SuccessStatus 3 1 1 "u1" (Some 1) (Some 2) (Some 2)]} 1 1 5)
    0.
Definition ex_request : Request :=
  mkRequest "GET" "/v2/library/app/manifests/v1" "Bearer t" "docker" []
    (Some (mkUrlMatch ManifestURL "library/app" (Some "v1"%string) None)) false EmptyString EmptyString
    (Some (mkSecurity "v2token" (RobotStore.mkSecCtx true "dev" (λ a _, a == Rbac.ActionPull)))).
Definition ex_pull (up : bool) (sev : string) : result (option Reply) :=
  (pull (SC := ex_scan_config up) "http://core" (λ _ _, ProxyNext) 5 (λ s, HasPrefix s "sha256:") (λ _, true) ex_request
     (mkWorld (ex_pull_db sev) true [])).1.

Definition is_violation (r : result (option Reply)) : bool :=
  match r with Err e => IsErr e PROJECTPOLICYVIOLATION | Ok _ => false end.

(** The vulnerability decides; but a scanner that does not answer supports nothing, and
    then nothing is prevented. *)
Example prevention_needs_scanner :
  ex_pull true "Low" = Ok (Some (Served "sha256:a")) ∧
  is_violation (ex_pull true "Critical") = true ∧
  ex_pull false "Critical" = Ok (Some (Served "sha256:a")).
Proof. vm_compute. done. Qed.

Lemma ex_scans_ok sev : scans_ok (hscan (ex_pull_db sev)).
Proof.
  split; simpl.
  - intros i j x y H1 H2 _ _ _. apply lookup_singleton_Some in H1 as [<- _]. by apply lookup_singleton_Some in H2 as [<- _].
  - intros i x r H. apply lookup_singleton_Some in H as [_ <-]. by intros [= <-].
  - intros i r H. by apply lookup_singleton_Some in H as [_ <-].
Qed.

