(* ===== verification/Scheduler.v ===== *)
(** * Schedules: [src/pkg/scheduler]

    A schedule runs a registered callback at the times of a cron expression.  Its
    row belongs to a vendor (a replication policy, the garbage collection, ...);
    an execution with one periodic task of the job service stands for it, and
    each check-in of that task triggers the callback.  [rest] is what else the
    callbacks work on.  The parser of cron expressions and the encoding of JSON
    are parameters. *)

From S2P Require Import Prelude GoErrors Orm Table Hoare JobStatus TaskStore Replication.
Local Open Scope Z_scope.
Local Open Scope harbor_scope.

Record Schedule := mkSchedule {
  sd_ID : Z; sd_VendorType : string; sd_VendorID : Z; sd_CRONType : string; sd_CRON : string; sd_Revision : Z;
  sd_ExtraAttrs : string; sd_CallbackFuncName : string; sd_CallbackFuncParam : string;
  sd_CreationTime : Z; sd_UpdateTime : Z }.

Record SchedDB (X : Type) := mkSchedDB { tdb : TaskDB; schedules : table Schedule; rest : X }.
Arguments mkSchedDB {X}.
Arguments tdb {X}.
Arguments schedules {X}.
Arguments rest {X}.

Definition JobNameScheduler : string := "SCHEDULER".
Definition ExecutionTriggerManual : string := "MANUAL".
Definition ExecutionTriggerSchedule : string := "SCHEDULE".

(** What [Schedule] of the interface shows of a row. *)
Record ScheduleInfo := mkInfo {
  si_ID : Z; si_VendorType : string; si_VendorID : Z; si_CRONType : string; si_CRON : string; si_ExtraAttrs : string;
  si_Status : string; si_CreationTime : Z; si_UpdateTime : Z }.

Section scheduler.
Context {X : Type}.
Notation MS := (M (SchedDB X)).

Definition set_tdb (t : TaskDB) (d : SchedDB X) : SchedDB X := mkSchedDB t (schedules d) (rest d).
Definition set_schedules (t : table Schedule) (d : SchedDB X) : SchedDB X := mkSchedDB (tdb d) t (rest d).
Definition set_rest (x : X) (d : SchedDB X) : SchedDB X := mkSchedDB (tdb d) (schedules d) x.

Definition on_tasks {A} (m : M TaskDB A) : MS A := zoom tdb set_tdb m.
Definition on_rest {A} (m : M X A) : MS A := zoom rest set_rest m.

(** ** [src/pkg/scheduler/dao.go] *)

(** At most one schedule for a vendor. *)
Definition same_vendor (a b : Schedule) : Prop := sd_VendorType a = sd_VendorType b ∧ sd_VendorID a = sd_VendorID b.

Definition insert_schedule (row : Z → Schedule) (d : SchedDB X) : result Z * SchedDB X :=
  let t := schedules d in
  if decide (select (λ s, sd_VendorType s = sd_VendorType (row 0) ∧ sd_VendorID s = sd_VendorID (row 0)) t = [])
  then (Ok (next t), set_schedules (add_row row t) d)
  else (Err (PgError "23505" "duplicate key value violates unique constraint"), d).

Definition dao_Create (row : Z → Schedule) : MS Z :=
  _ ← FromContext;
  r ← try (stmt (insert_schedule row));
  match r with
  | Ok id => mret id
  | Err e => fail (WrapConflictError e ("schedule with vendor type: " +:+ sd_VendorType (row 0) +:+ " vendor ID: "
               +:+ pretty (sd_VendorID (row 0)) +:+ " already exists"))
  end.

Definition dao_List (P : Schedule → Prop) `{!∀ s, Decision (P s)} : MS (list Schedule) :=
  _ ← FromContext; query (λ d, Ok (select P (schedules d))).

Definition dao_Count (P : Schedule → Prop) `{!∀ s, Decision (P s)} : MS Z :=
  _ ← FromContext; query (λ d, Ok (Z.of_nat (length (select P (schedules d))))).

Definition dao_Get (id : Z) : MS Schedule :=
  Read (λ d, rows (schedules d) !! id) ("schedule " +:+ pretty id +:+ " not found").

Definition dao_Delete (id : Z) : MS unit :=
  affect (λ d, match rows (schedules d) !! id with
               | Some _ => Some (Ok (set_schedules (del_row id (schedules d)) d))
               | None => None
               end) ("schedule " +:+ pretty id +:+ " not found") (λ e, e).

(** [... set revision = ? where id = ? and revision < ?]: the affected rows. *)
Definition set_revision (rev : Z) (s : Schedule) : Schedule :=
  mkSchedule (sd_ID s) (sd_VendorType s) (sd_VendorID s) (sd_CRONType s) (sd_CRON s) rev (sd_ExtraAttrs s)
    (sd_CallbackFuncName s) (sd_CallbackFuncParam s) (sd_CreationTime s) (sd_UpdateTime s).

Definition UpdateRevision (id revision : Z) : MS Z :=
  _ ← FromContext;
  stmt (λ d, match rows (schedules d) !! id with
             | Some s => if sd_Revision s <? revision
                         then (Ok 1, set_schedules (put_row id (set_revision revision s) (schedules d)) d)
                         else (Ok 0, d)
             | None => (Ok 0, d)
             end).

(** ** [src/pkg/scheduler/scheduler.go] *)

Context (js : JsClient) (valid_cron : string → bool) (object_of : string → string).
Context (callbacks : gmap string (string → MS unit)).
(** How long [StopAndWait] waits, and what happens meanwhile. *)
Context (polls : nat) (env : M TaskDB unit).

(** The executions of a schedule, newest first. *)
Definition schedule_execs (id : Z) : MS (list Execution) :=
  on_tasks (_ ← FromContext; query (λ d, Ok (candidates JobNameScheduler id None d))).

Definition schedule_row (vendorType : string) (vendorID : Z) (cronType cron callback params extras : string) (now id : Z) : Schedule :=
  mkSchedule id vendorType vendorID cronType cron 0 extras callback params now now.

Definition Schedule_ (vendorType : string) (vendorID : Z) (cronType cron callbackFuncName : string)
    (callbackFuncParams extraAttrs : result string) : MS Z :=
  if vendorType == EmptyString then fail (PlainError "empty vendor type")
  else if negb (valid_cron cron) then fail (BadRequest ("invalid cron " +:+ cron))
  else if bool_decide (callbacks !! callbackFuncName = None)
  then fail (PlainError ("callback function " +:+ callbackFuncName +:+ " not found"))
  else
    now ← on_tasks now_;
    paramsData ← of_result callbackFuncParams;
    extrasData ← of_result extraAttrs;
    id ← dao_Create (schedule_row vendorType vendorID cronType cron callbackFuncName paramsData extrasData now);
    execID ← on_tasks (Create JobNameScheduler id ExecutionTriggerManual (object_of paramsData));
    taskID ← on_tasks (task_Create js execID JobNameScheduler "{}");
    r ← try (task ← on_tasks (taskDAO.Get taskID);
             if t_Status task == ErrorStatus
             then fail (PlainError ("failed to create the schedule: the task status is " +:+ ErrorStatus))
             else mret id);
    match r with
    | Ok id => mret id
    | Err e => _ ← try (on_tasks (task_Stop js taskID)); fail e
    end.

Definition UnScheduleByID (id : Z) : MS unit :=
  executions ← schedule_execs id;
  _ ← match executions with
      | [] => mret tt
      | e :: _ =>
          r ← try (on_tasks (StopAndWait js polls env (e_ID e)));
          _ ← match r with
              | Ok _ => mret tt
              | Err err => match err with ErrTimeOut => mret tt | _ => fail err end
              end;
          on_tasks (Delete (e_ID e))
      end;
  dao_Delete id.

Fixpoint unschedule_all (l : list Schedule) : MS unit :=
  match l with
  | [] => mret tt
  | s :: l => _ ← UnScheduleByID (sd_ID s); unschedule_all l
  end.

Definition of_vendor (vendorType : string) (vendorID : Z) (s : Schedule) : Prop :=
  sd_VendorType s = vendorType ∧ (vendorID <= 0 ∨ sd_VendorID s = vendorID).

#[export] Instance of_vendor_dec vendorType vendorID s : Decision (of_vendor vendorType vendorID s).
Proof. unfold of_vendor. apply _. Defined.

Definition UnScheduleByVendor (vendorType : string) (vendorID : Z) : MS unit :=
  l ← dao_List (of_vendor vendorType vendorID);
  unschedule_all l.

Definition convertSchedule (s : Schedule) : MS ScheduleInfo :=
  executions ← schedule_execs (sd_ID s);
  mret (mkInfo (sd_ID s) (sd_VendorType s) (sd_VendorID s) (sd_CRONType s) (sd_CRON s) (sd_ExtraAttrs s)
    match executions with [] => ErrorStatus | e :: _ => e_Status e end (sd_CreationTime s) (sd_UpdateTime s)).

Definition GetSchedule (id : Z) : MS ScheduleInfo := s ← dao_Get id; convertSchedule s.

Fixpoint convert_all (l : list Schedule) : MS (list ScheduleInfo) :=
  match l with
  | [] => mret []
  | s :: l => i ← convertSchedule s; infos ← convert_all l; mret (i :: infos)
  end.

Definition ListSchedules (P : Schedule → Prop) `{!∀ s, Decision (P s)} : MS (list ScheduleInfo) :=
  l ← dao_List P; convert_all l.

(** ** [src/pkg/scheduler/callback.go] *)

(** [triggerCallback] for a check-in at [checkInAt] of a task of [executionID]. *)
Definition triggerCallback (executionID checkInAt : Z) : MS unit :=
  execution ← on_tasks (executionDAO.Get executionID);
  if negb (e_VendorType execution == JobNameScheduler)
  then fail (PlainError ("the vendor type of execution " +:+ pretty executionID +:+ " isn't " +:+ JobNameScheduler
         +:+ ": " +:+ e_VendorType execution))
  else
    schedule ← dao_Get (e_VendorID execution);
    n ← UpdateRevision (sd_ID schedule) checkInAt;
    if n =? 0 then mret tt
    else match callbacks !! sd_CallbackFuncName schedule with
         | None => fail (PlainError ("callback function " +:+ sd_CallbackFuncName schedule +:+ " not found"))
         | Some callback => callback (sd_CallbackFuncParam schedule)
         end.

(** The request that brings a check-in ([src/server/handler/job_status_hook.go] in
    the transaction of [src/server/middleware/transaction]): when the callback
    fails the response is an error and all is rolled back, the revision of the
    schedule too. *)
Definition deliverCheckIn (executionID checkInAt : Z) : MS unit :=
  WithTransaction (triggerCallback executionID checkInAt).

End scheduler.

(** [RegisterCallbackFunc] *)
Definition RegisterCallbackFunc {F} (registry : gmap string F) (name : string) (callbackFunc : option F) : result (gmap string F) :=
  if name == EmptyString then Err (PlainError "empty name")
  else match callbackFunc with
       | None => Err (PlainError "callback function is nil")
       | Some f => if bool_decide (is_Some (registry !! name))
                   then Err (PlainError ("callback function " +:+ name +:+ " already exists"))
                   else Ok (<[name := f]> registry)
       end.
