(* ===== verification/SchedulerSpec.v ===== *)
(** * Correctness of schedules *)

From S2P Require Import Prelude GoErrors Orm Table Hoare JobStatus TaskStore Replication Scheduler.
Local Open Scope Z_scope.
Local Open Scope harbor_scope.

Section spec.
Context {X : Type}.
Notation DB := (SchedDB X).
Notation MS := (M DB).
Implicit Types (d : DB) (t : table Schedule).

(** Calls on the tasks leave schedules and the rest alone. *)
Definition sched_of (t : table Schedule) (x : X) : DB → Prop := λ d, schedules d = t ∧ rest d = x.

Lemma on_tasks_keeps {A} (m : M TaskDB A) (I : DB → Prop) :
  (∀ d tk, I d → I (set_tdb tk d)) → keeps I (on_tasks m).
Proof. intros HI. apply spec_zoom. intros d Hd w [a|e] w' _ _; by apply HI. Qed.

Lemma spec_on_rest {A} (m : M X A) t x (Q : A → X → Prop) (E : X → Prop) :
  spec (λ y, y = x) m Q E →
  spec (sched_of t x) (on_rest m) (λ a d, schedules d = t ∧ Q a (rest d)) (λ d, schedules d = t ∧ E (rest d)).
Proof. intros Hm. apply spec_zoom. intros d [<- <-]. eapply spec_conseq; [exact Hm|done|done|done]. Qed.

Lemma on_rest_reading {A} (m : M X A) φ : reading m φ → reading (on_rest m) (λ d : DB, φ (rest d)).
Proof. apply reading_zoom. by intros []. Qed.

Lemma on_tasks_sched {A} (m : M TaskDB A) t x : keeps (sched_of t x) (on_tasks m).
Proof. apply on_tasks_keeps. done. Qed.

Lemma on_tasks_frame {A} t x (m : M TaskDB A) E : (∀ d, sched_of t x d → E d) → spec (sched_of t x) (on_tasks m) (λ _, sched_of t x) E.
Proof. apply keeps_spec, on_tasks_sched. Qed.

(** ** Removing schedules *)

Context (js : JsClient) (polls : nat) (env : M TaskDB unit).

Lemma dao_Delete_spec id t x : spec (sched_of t x) (dao_Delete id)
  (λ _ d, rows t !! id ≠ None ∧ sched_of (del_row id t) x d) (sched_of t x).
Proof.
  apply spec_affect; [|done]. intros d d' [<- <-]. destruct (rows (schedules d) !! id) eqn:E; [|done].
  by intros [= <-].
Qed.

Lemma UnScheduleByID_spec id t x : spec (sched_of t x) (UnScheduleByID js polls env id)
  (λ _, sched_of (del_row id t) x) (sched_of t x).
Proof.
  unfold UnScheduleByID. eapply (spec_bind _ _ (λ _, sched_of t x)); [by apply on_tasks_frame|].
  intros es. eapply (spec_bind _ _ (λ _, sched_of t x)); [|intros []; eapply spec_post; [apply dao_Delete_spec|naive_solver]].
  destruct es as [|e es]; [by apply spec_ret|].
  eapply (spec_bind _ _ (λ _, sched_of t x)).
  { eapply spec_post; [apply keeps_try, on_tasks_sched|done]. }
  intros r. eapply (spec_bind _ _ (λ _, sched_of t x)); [|intros []; by apply on_tasks_frame].
  destruct r as [|[]]; first [by apply spec_ret|by apply spec_fail].
Qed.

(** Rows with the ids of [l] are gone. *)
Definition without (l : list Schedule) (t : table Schedule) : table Schedule := foldl (λ t s, del_row (sd_ID s) t) t l.

Lemma rows_without l t i : rows (without l t) !! i = if decide (i ∈ sd_ID <$> l) then None else rows t !! i.
Proof.
  unfold without. revert t. induction l as [|s l IH]; intros t; cbn [foldl].
  { rewrite decide_False; [done|apply not_elem_of_nil]. }
  rewrite IH. rewrite fmap_cons. destruct (decide (i ∈ sd_ID <$> l)) as [Hi|Hi].
  - rewrite decide_True; [done|by right].
  - cbn [rows del_row]. destruct (decide (i = sd_ID s)) as [->|Hne].
    + rewrite lookup_delete_eq, decide_True; [done|by left].
    + rewrite lookup_delete_ne by done. rewrite decide_False; [done|]. rewrite elem_of_cons. tauto.
Qed.

Lemma seq_without l t : seq (without l t) = seq t.
Proof. unfold without. revert t. induction l as [|s l IH]; intros t; [done|]. simpl. by rewrite IH. Qed.

Lemma unschedule_all_spec : ∀ l t x, spec (sched_of t x) (unschedule_all js polls env l)
  (λ _, sched_of (without l t) x) (λ d, ∃ l', l' `prefix_of` l ∧ sched_of (without l' t) x d).
Proof.
  induction l as [|s l IH]; intros t x; cbn [unschedule_all]; [by apply spec_ret|].
  eapply (spec_bind _ _ (λ _, sched_of (del_row (sd_ID s) t) x)).
  - eapply spec_conseq; [apply UnScheduleByID_spec|done|done|]. intros d Hd. exists []. split; [apply prefix_nil|done].
  - intros []. eapply spec_conseq; [apply IH|done|done|]. intros d (l' & Hl & Hd). exists (s :: l'). split; [by apply prefix_cons|done].
Qed.

Lemma without_select vt vid t : table_ok sd_ID t → without (select (of_vendor vt vid) t) t = del_rows (of_vendor vt vid) t.
Proof.
  intros Hok. assert (rows (without (select (of_vendor vt vid) t) t) = rows (del_rows (of_vendor vt vid) t)) as Hr.
  { apply map_eq. intros i. rewrite rows_without. apply option_eq. intros s. rewrite lookup_dels.
    case_decide as Hi.
    - split; [done|]. intros [Hs Hn]. exfalso. apply list_elem_of_fmap in Hi as (s' & -> & Hs').
      apply (elem_of_select_ok sd_ID) in Hs' as [Hs' Hv]; [|done]. congruence.
    - split; [|by intros [? _]]. intros Hs. split; [done|]. intros Hv. apply Hi. destruct (Hok _ _ Hs) as [<- _].
      apply list_elem_of_fmap. exists s. split; [done|]. by apply (elem_of_select_ok sd_ID). }
  destruct (without _ _) as [r q] eqn:E. pose proof (seq_without (select (of_vendor vt vid) t) t) as Hq. rewrite E in Hq.
  simpl in *. unfold del_rows in *. simpl in *. by subst.
Qed.

(** What a failure leaves: schedules of other vendors are untouched, and nothing
    is added. *)
Definition others_kept (vt : string) (vid : Z) (t : table Schedule) (d : DB) : Prop :=
  rows (schedules d) ⊆ rows t ∧ ∀ i s, rows t !! i = Some s → ¬ of_vendor vt vid s → rows (schedules d) !! i = Some s.

Lemma without_others vt vid t l : table_ok sd_ID t → l `prefix_of` select (of_vendor vt vid) t →
  rows (without l t) ⊆ rows t ∧ ∀ i s, rows t !! i = Some s → ¬ of_vendor vt vid s → rows (without l t) !! i = Some s.
Proof.
  intros Hok Hl. split.
  - apply map_subseteq_spec. intros i s. rewrite rows_without. by case_decide.
  - intros i s Hs Hn. rewrite rows_without. rewrite decide_False; [done|]. intros Hi.
    apply list_elem_of_fmap in Hi as (s' & -> & Hs'). destruct Hl as [k Hl].
    assert (s' ∈ select (of_vendor vt vid) t) as Hin by (rewrite Hl; set_solver).
    apply (elem_of_select_ok sd_ID) in Hin as [Hin Hv]; [|done]. congruence.
Qed.

Lemma UnScheduleByVendor_spec vt vid t x : table_ok sd_ID t →
  spec (sched_of t x) (UnScheduleByVendor js polls env vt vid)
    (λ _, sched_of (del_rows (of_vendor vt vid) t) x) (λ d, others_kept vt vid t d ∧ rest d = x).
Proof.
  intros Hok. unfold UnScheduleByVendor.
  assert (∀ d, sched_of t x d → others_kept vt vid t d ∧ rest d = x) as Hid.
  { intros d [<- <-]. split; [|done]. split; [done|auto]. }
  eapply (spec_bind _ _ (λ l d, l = select (of_vendor vt vid) t ∧ sched_of t x d)).
  - unfold dao_List. eapply (spec_bind _ _ (λ _, sched_of t x)); [by apply spec_FromContext|intros []].
    apply spec_query; [|done]. intros d l [<- <-] [= <-]. done.
  - intros l. apply spec_pure. intros ->. eapply spec_conseq; [apply unschedule_all_spec|done| |].
    + intros [] d. by rewrite without_select.
    + intros d (l' & Hl & [Hd Hx]). split; [|done]. unfold others_kept. rewrite Hd. by apply without_others.
Qed.

(** ** Adding a schedule *)

Context (valid_cron : string → bool) (object_of : string → string) (callbacks : gmap string (string → MS unit)).

Definition no_schedule (vt : string) (vid : Z) (t : table Schedule) : Prop :=
  select (λ s, sd_VendorType s = vt ∧ sd_VendorID s = vid) t = [].

(** The rows a call of [Schedule] may add. *)
Definition new_schedule (vt : string) (vid : Z) (cronType cron callback params : string) (row : Z → Schedule) : Prop :=
  ∃ extras now, row = schedule_row vt vid cronType cron callback params extras now.

Lemma Schedule_spec vt vid cronType cron callback params extras t x :
  spec (sched_of t x) (Schedule_ js valid_cron object_of callbacks vt vid cronType cron callback (Ok params) extras)
    (λ id d, id = next t ∧ valid_cron cron = true ∧ is_Some (callbacks !! callback) ∧ no_schedule vt vid t ∧
       ∃ row, new_schedule vt vid cronType cron callback params row ∧ sched_of (add_row row t) x d)
    (λ d, sched_of t x d ∨ no_schedule vt vid t ∧
       ∃ row, new_schedule vt vid cronType cron callback params row ∧ sched_of (add_row row t) x d).
Proof.
  unfold Schedule_. destruct (vt == EmptyString); [by apply spec_fail; left|].
  destruct (valid_cron cron); [|by apply spec_fail; left]. simpl negb. cbv iota.
  destruct (decide (callbacks !! callback = None)) as [Hc|Hc]; [rewrite bool_decide_true by done; by apply spec_fail; left|].
  rewrite bool_decide_false by done. apply not_eq_None_Some in Hc.
  eapply (spec_bind _ _ (λ _, sched_of t x)); [by apply on_tasks_frame; left|]. intros now.
  eapply (spec_bind _ _ (λ p d, p = params ∧ sched_of t x d)); [apply spec_of_result; [by intros a d [= <-]|by left]|].
  intros p. apply spec_pure. intros ->.
  eapply (spec_bind _ _ (λ _, sched_of t x)); [apply spec_of_result; [done|by left]|]. intros ex.
  set (row := schedule_row vt vid cronType cron callback params ex now).
  set (Q := λ d, no_schedule vt vid t ∧ sched_of (add_row row t) x d).
  assert (∀ d, Q d → sched_of t x d ∨ no_schedule vt vid t ∧ ∃ row, new_schedule vt vid cronType cron callback params row ∧
    sched_of (add_row row t) x d) as HE.
  { intros d [Hn Hd]. right. split; [done|]. exists row. split; [by exists ex, now|done]. }
  assert (∀ d tk, Q d → Q (set_tdb tk d)) as HQ by done.
  eapply (spec_bind _ _ (λ id d, id = next t ∧ Q d)).
  { unfold dao_Create. eapply (spec_bind _ _ (λ _, sched_of t x)); [apply spec_FromContext; [done|by left]|intros []].
    eapply (spec_bind _ _ (λ r d, match r with Ok id => id = next t ∧ Q d | Err _ => sched_of t x d end)).
    - apply (spec_try _ _ (λ id d, id = next t ∧ Q d) (sched_of t x)). apply spec_stmt; [|done]. intros d [<- <-]. unfold insert_schedule.
      case_decide as Hn; [|done]. split; [done|]. split; [exact Hn|done].
    - intros [id|e]; [by apply spec_ret|by apply spec_fail; left]. }
  intros id. apply spec_pure. intros ->.
  eapply (spec_bind _ _ (λ _, Q)); [apply keeps_spec; [by apply on_tasks_keeps|done]|]. intros execID.
  eapply (spec_bind _ _ (λ _, Q)); [apply keeps_spec; [by apply on_tasks_keeps|done]|]. intros taskID.
  eapply (spec_bind _ _ (λ r d, Q d ∧ ∀ id, r = Ok id → id = next t)).
  { eapply spec_post; [eapply (spec_try _ _ (λ id d, id = next t ∧ Q d) Q)|intros [id|e] d; [naive_solver|done]].
    eapply (spec_bind _ _ (λ _, Q)); [by apply on_tasks_keeps|]. intros task.
    destruct (t_Status task == ErrorStatus); [by apply spec_fail|by apply spec_ret]. }
  intros [id|e].
  - apply spec_ret. intros d [Hd Hid]. rewrite (Hid id eq_refl). destruct Hd as [Hn Hd].
    split_and!; try done. exists row. split; [by exists ex, now|done].
  - eapply (spec_bind _ _ (λ _, Q)); [|intros; by apply spec_fail].
    eapply spec_pre; [apply keeps_spec; [apply keeps_try; by apply on_tasks_keeps|done]|by intros d [? _]].
Qed.

(** ** The schedules of a vendor *)

#[export] Instance same_vendor_symm : Symmetric same_vendor.
Proof. intros a b [? ?]. by split. Qed.

Section vendor.
Context (vt callback : string) (param : Z → string).

Definition has_schedule (t : table Schedule) (id : Z) (cron : string) : Prop :=
  ∃ i s, rows t !! i = Some s ∧ sd_VendorType s = vt ∧ sd_VendorID s = id ∧ sd_CRON s = cron.

(** A schedule of the vendor runs its callback on the object it belongs to. *)
Definition calls_back (s : Schedule) : Prop :=
  sd_VendorType s = vt → sd_CallbackFuncName s = callback ∧ sd_CallbackFuncParam s = param (sd_VendorID s).
Definition schedules_ok (t : table Schedule) : Prop := tab_ok sd_ID same_vendor calls_back t.

Lemma has_dels t k id c : 0 < k → has_schedule (del_rows (of_vendor vt k) t) id c ↔ id ≠ k ∧ has_schedule t id c.
Proof.
  intros Hk. unfold has_schedule. split.
  - intros (i & s & Hs & Hv & <- & <-). apply lookup_dels in Hs as [Hs Hn]. split; [|by exists i, s].
    intros E. apply Hn. split; [done|]. by right.
  - intros (Hne & i & s & Hs & Hv & <- & <-). exists i, s. split; [|done]. apply lookup_dels. split; [done|].
    intros [_ [?|?]]; [lia|done].
Qed.

Lemma has_add t row id c : rows t !! next t = None →
  has_schedule (add_row row t) id c ↔ has_schedule t id c ∨
    sd_VendorType (row (next t)) = vt ∧ sd_VendorID (row (next t)) = id ∧ sd_CRON (row (next t)) = c.
Proof.
  intros Hf. unfold has_schedule. simpl. split.
  - intros (i & s & Hs & Hr). apply lookup_insert_Some in Hs as [[_ <-]|[_ Hs]]; [by right|left; eauto].
  - intros [(i & s & Hs & Hr)|Hr]; [|exists (next t), (row (next t)); by rewrite lookup_insert_eq].
    exists i, s. split; [|done]. rewrite lookup_insert_ne; [done|congruence].
Qed.

Lemma has_unique t id c c' : schedules_ok t → has_schedule t id c → has_schedule t id c' → c = c'.
Proof.
  intros Ht (i & s & Hs & Hv & Hid & <-) (j & s' & Hs' & Hv' & Hid' & <-).
  assert (i = j) as -> by (apply (tab_unique _ _ _ _ Ht _ _ _ _ Hs Hs'); split; congruence). congruence.
Qed.

Lemma unschedule_drops k t x : 0 < k → schedules_ok t →
  spec (sched_of t x) (UnScheduleByVendor js polls env vt k)
    (λ _ d, rest d = x ∧ schedules_ok (schedules d) ∧ ∀ id c, has_schedule (schedules d) id c ↔ id ≠ k ∧ has_schedule t id c) (λ _, True).
Proof.
  intros Hk Ht. eapply spec_conseq; [apply UnScheduleByVendor_spec, Ht|done| |done].
  intros [] d [-> Hx]. split_and!; [done|by apply tab_ok_dels|]. intros id c. by apply has_dels.
Qed.

Lemma schedule_adds k cron extras t x : schedules_ok t →
  spec (sched_of t x) (Schedule_ js valid_cron object_of callbacks vt k EmptyString cron callback (Ok (param k)) extras)
    (λ _ d, rest d = x ∧ valid_cron cron = true ∧ schedules_ok (schedules d) ∧
       ∀ id c, has_schedule (schedules d) id c ↔ has_schedule t id c ∨ id = k ∧ c = cron) (λ _, True).
Proof.
  intros Ht. eapply spec_conseq; [apply Schedule_spec|done| |done].
  intros i d (-> & Hc & _ & Hn & row & (ex & now & ->) & [Hd Hx]). rewrite Hd. split_and!; [done|done| |].
  - apply (tab_ok_add _ _ _ (λ s, sd_VendorType s = vt ∧ sd_VendorID s = k)); [done|exact Hn|done|by intros n s [<- <-]|done].
  - intros id c. rewrite has_add by (eapply lookup_next, Ht). cbn. naive_solver.
Qed.
End vendor.
End spec.

(** Policies with a schedule: [cron] says at which expression a stored policy runs. *)
Section policies.
Context {R : Type} (cron : R → option string).

Definition wants_schedule (P : table R) (id : Z) (c : string) : Prop := ∃ row, rows P !! id = Some row ∧ cron row = Some c.

Lemma wants_put P k row id c :
  wants_schedule (put_row k row P) id c ↔ if decide (id = k) then cron row = Some c else wants_schedule P id c.
Proof.
  unfold wants_schedule. simpl. case_decide as E.
  - subst. rewrite lookup_insert_eq. naive_solver.
  - by rewrite lookup_insert_ne.
Qed.
Lemma wants_del P k id c : wants_schedule (del_row k P) id c ↔ id ≠ k ∧ wants_schedule P id c.
Proof. unfold wants_schedule. simpl. setoid_rewrite lookup_delete_Some. naive_solver. Qed.
Lemma wants_add P row id c : rows P !! next P = None →
  wants_schedule (add_row row P) id c ↔ wants_schedule P id c ∨ id = next P ∧ cron (row (next P)) = Some c.
Proof.
  intros Hn. unfold wants_schedule. simpl. split.
  - intros (r & Hr & Hc). apply lookup_insert_Some in Hr as [[<- <-]|[Hne Hr]]; [by right|left; eauto].
  - intros [(r & Hr & Hc)|[-> Hc]]; [|eexists; by rewrite lookup_insert_eq]. exists r. split; [|done].
    rewrite lookup_insert_ne; [done|congruence].
Qed.
End policies.

(** ** Check-ins trigger once *)

Section checkins.
Context {Y : Type} (id : Z) (name : string).
Notation DB := (SchedDB (list Z * Y)).
(** The callback of the schedule: any code on the database that may fail. *)
Context (callback : string → M DB unit).

(** The callback, with a note in the database at which revision of the schedule it runs. *)
Definition revision (d : DB) : Z := default 0 (sd_Revision <$> rows (schedules d) !! id).
Definition runs (d : DB) : list Z := fst (rest d).
Definition recording (param : string) : M DB unit :=
  _ ← act (λ d, (Ok tt, set_rest (runs d ++ [revision d], snd (rest d)) d)); callback param.
Definition recorders : gmap string (string → M DB unit) := {[name := recording]}.

(** The requests of the hook arrive one after the other, a check-in repeated and
    in any order; the list says how each was answered. *)
Fixpoint check_in_all (l : list (Z * Z)) : M DB (list (result unit)) :=
  match l with
  | [] => mret []
  | (executionID, at_) :: l =>
      r ← try (deliverCheckIn recorders executionID at_);
      rs ← check_in_all l;
      mret (r :: rs)
  end.

(** The check-ins that are newer than every one before. *)
Fixpoint records (r : Z) (l : list Z) : list Z :=
  match l with
  | [] => []
  | c :: l => if r <? c then c :: records c l else records r l
  end.

(** The check-ins that were answered with success. *)
Fixpoint acknowledged (l : list (Z * Z)) (rs : list (result unit)) : list Z :=
  match l, rs with
  | (_, c) :: l, Ok _ :: rs => c :: acknowledged l rs
  | _ :: l, Err _ :: rs => acknowledged l rs
  | _, _ => []
  end.

Lemma records_bound l : ∀ r, Forall (λ x, r < x) (records r l).
Proof.
  induction l as [|c l IH]; intros r; simpl; [constructor|]. destruct (Z.ltb_spec r c); [|done].
  constructor; [done|]. eapply Forall_impl; [apply IH|]. simpl. lia.
Qed.

Lemma records_sorted l : ∀ r, StronglySorted Z.lt (records r l).
Proof.
  induction l as [|c l IH]; intros r; simpl; [constructor|]. destruct (r <? c); [|done].
  constructor; [done|apply records_bound].
Qed.

(** The execution [ex] belongs to the schedule. *)
Definition scheduled (d : DB) (ex : Z) : Prop :=
  ∃ e, execs (tdb d) !! ex = Some e ∧ e_VendorType e = JobNameScheduler ∧ e_VendorID e = id.

(** What is asked of a callback that succeeds: the schedules, the notes and the
    executions of this schedule stay. *)
Definition callback_frames : Prop := ∀ param d0,
  spec (λ d, d = d0) (callback param)
    (λ _ d, schedules d = schedules d0 ∧ runs d = runs d0 ∧ ∀ ex, scheduled d0 ex → scheduled d ex) (λ _, True).

Context (frames : callback_frames).

Lemma triggerCallback_runs s0 c ex d0 : rows (schedules d0) !! id = Some s0 → sd_ID s0 = id → scheduled d0 ex →
  spec (λ d, d = d0) (triggerCallback recorders ex c)
    (λ _ d, (∀ ex, scheduled d0 ex → scheduled d ex) ∧
            if sd_Revision s0 <? c
            then rows (schedules d) !! id = Some (set_revision c s0) ∧ runs d = runs d0 ++ [c]
            else d = d0) (λ _, True).
Proof.
  intros Hrow Hid (e0 & He0 & Hv0 & Hvid0). unfold triggerCallback.
  eapply (spec_bind _ _ (λ e d, e = e0 ∧ d = d0)).
  { apply spec_zoom. intros d ->. unfold executionDAO.Get.
    assert (set_tdb (tdb d0) d0 = d0) as Hsame by by destruct d0.
    eapply (spec_bind _ _ (λ _ y, y = tdb d0)); [by apply spec_FromContext|intros []].
    eapply (spec_bind _ _ (λ r y, y = tdb d0 ∧ match r with Ok e => e = e0 | Err _ => True end)).
    - eapply spec_post; [apply (spec_try _ _ (λ e y, y = tdb d0 ∧ e = e0) (λ y, y = tdb d0))|intros [e|e] y; naive_solver].
      apply spec_query; [|done]. intros y e ->. rewrite He0. by intros [= <-].
    - intros [e|e]; [|by apply spec_fail]. apply spec_ret. intros y [-> ->]. by rewrite Hsame. }
  intros e. apply spec_pure. intros ->. rewrite Hv0, bool_decide_true by done. cbv beta iota delta [negb]. rewrite Hvid0.
  eapply (spec_bind _ _ (λ s d, s = s0 ∧ d = d0)).
  { apply spec_Read; [|done]. intros d s -> Hs. split; [congruence|done]. }
  intros s. apply spec_pure. intros ->. rewrite Hid.
  set (d1 := set_schedules (put_row id (set_revision c s0) (schedules d0)) d0).
  eapply (spec_bind _ _ (λ n d, if sd_Revision s0 <? c then n = 1 ∧ d = d1 else n = 0 ∧ d = d0)).
  { unfold UpdateRevision. eapply (spec_bind _ _ (λ _ d, d = d0)); [by apply spec_FromContext|intros []].
    apply spec_stmt; [|done]. intros d ->. rewrite Hrow. by destruct (sd_Revision s0 <? c). }
  intros n. destruct (sd_Revision s0 <? c).
  2:{ apply spec_pure. intros ->. by apply spec_ret; intros d ->. }
  apply spec_pure. intros ->. cbn [Z.eqb].
  destruct (recorders !! _) as [cb|] eqn:Ecb; [|by apply spec_fail].
  assert (cb = recording) as -> by (unfold recorders in Ecb; apply lookup_singleton_Some in Ecb as [_ <-]; done).
  set (d2 := set_rest (runs d1 ++ [c], snd (rest d1)) d1).
  eapply (spec_bind _ _ (λ _ d, d = d2)).
  { apply spec_act. intros d ->. unfold d2, revision, d1. simpl. by rewrite lookup_insert_eq. }
  intros _. eapply spec_post; [apply frames|]. intros _ d (Hs & Hr & Hx). split; [exact Hx|]. rewrite Hs, Hr. split; [|done].
  apply (lookup_insert_eq (rows (schedules d0))).
Qed.

Lemma check_in_all_runs : ∀ l s0 d0, rows (schedules d0) !! id = Some s0 → sd_ID s0 = id → Forall (λ ec, scheduled d0 ec.1) l →
  spec (λ d, d = d0) (check_in_all l)
    (λ rs d, length rs = length l ∧ runs d = runs d0 ++ records (sd_Revision s0) (acknowledged l rs)) (λ _, False).
Proof.
  induction l as [|[ex c] l IH]; intros s0 d0 Hrow Hid Hl; cbn [check_in_all].
  { apply spec_ret. intros d ->. split; [done|]. by rewrite app_nil_r. }
  apply Forall_cons in Hl as [Hx Hl].
  set (R := λ d, (∀ ex, scheduled d0 ex → scheduled d ex) ∧
            if sd_Revision s0 <? c
            then rows (schedules d) !! id = Some (set_revision c s0) ∧ runs d = runs d0 ++ [c]
            else d = d0).
  eapply (spec_bind _ _ (λ r d, match r with Ok _ => R d | Err _ => d = d0 end)).
  { apply (spec_try _ _ (λ _, R) (λ d, d = d0)). unfold deliverCheckIn.
    eapply spec_WithTransaction; [by apply triggerCallback_runs|done]. }
  intros [[]|e]; apply spec_exact; intros d1 Hd1.
  - destruct Hd1 as [Hs Hd1].
    assert (Forall (λ ec, scheduled d1 ec.1) l) as Hl1 by (eapply Forall_impl; [exact Hl|]; simpl; eauto).
    destruct (sd_Revision s0 <? c) eqn:E.
    + destruct Hd1 as [Hrow1 Hr1]. eapply spec_bind; [apply (IH (set_revision c s0) d1); [exact Hrow1|done|done]|].
      intros rs. apply spec_ret. intros d [Hn Hr]. simpl. split; [by rewrite Hn|]. rewrite E, Hr, Hr1, <- app_assoc. done.
    + subst d1. eapply spec_bind; [apply (IH s0 d0); done|].
      intros rs. apply spec_ret. intros d [Hn Hr]. simpl. split; [by rewrite Hn|]. by rewrite E.
  - subst d1. eapply spec_bind; [apply (IH s0 d0); done|].
    intros rs. apply spec_ret. intros d [Hn Hr]. simpl. split; [by rewrite Hn|]. done.
Qed.

(** A callback that succeeds on every database when no statement fails. *)
Definition callback_succeeds : Prop := ∀ param d,
  ∃ d', callback param (mkWorld d true []) = (Ok tt, mkWorld d' true []).

Lemma deliverCheckIn_nofault s0 ex c d : callback_succeeds → rows (schedules d) !! id = Some s0 → sd_ID s0 = id →
  sd_CallbackFuncName s0 = name → scheduled d ex →
  ∃ d', deliverCheckIn recorders ex c (mkWorld d true []) = (Ok tt, mkWorld d' true []).
Proof.
  intros Hcb Hrow Hid Hname (e & He & Hv & Hvid).
  enough (∃ d', triggerCallback recorders ex c (mkWorld d true []) = (Ok tt, mkWorld d' true [])) as [d' Hd'].
  { exists d'. by apply WithTransaction_nofault. }
  unfold triggerCallback. rewrite bind_eq.
  assert (on_tasks (executionDAO.Get ex) (mkWorld d true []) = (Ok e, mkWorld d true [])) as ->.
  { unfold on_tasks, zoom, executionDAO.Get. simpl. unfold mbind, M_bind, FromContext, try, query, stmt. simpl. rewrite He. simpl.
    by destruct d. }
  cbv beta iota. rewrite Hv. rewrite (bool_decide_true (JobNameScheduler = JobNameScheduler)) by done. cbv beta iota delta [negb].
  rewrite bind_eq, Hvid. unfold dao_Get. rewrite Read_nofault, Hrow. cbv beta iota. rewrite bind_eq.
  unfold UpdateRevision, FromContext. rewrite bind_eq. cbn [ctx_orm]. cbv beta iota. rewrite stmt_nofault, Hid, Hrow.
  destruct (sd_Revision s0 <? c); cbn [fst snd Z.eqb]; [|eexists; done]. rewrite Hname.
  unfold recorders. rewrite lookup_singleton_eq. unfold recording. rewrite bind_eq. unfold act. cbv beta iota zeta. cbn [with_db ctx_orm faults]. apply Hcb.
Qed.

(** What the deliveries leave for those to come. *)
Lemma deliverCheckIn_keeps s0 ex c d w' r : rows (schedules d) !! id = Some s0 → sd_ID s0 = id → scheduled d ex →
  deliverCheckIn recorders ex c (mkWorld d true []) = (r, w') →
  (∃ r, rows (schedules (db w')) !! id = Some (set_revision r s0)) ∧ ∀ ex, scheduled d ex → scheduled (db w') ex.
Proof.
  intros Hrow Hid Hx H. assert (set_revision (sd_Revision s0) s0 = s0) as E by by destruct s0.
  pose proof (spec_WithTransaction _ _ _ (λ x, x = d) _ (triggerCallback_runs s0 c ex d Hrow Hid Hx) ltac:(done)) as Hs.
  specialize (Hs (mkWorld d true []) r w' eq_refl H). destruct r as [[]|e].
  - destruct Hs as [Hk Hs]. split; [|exact Hk]. destruct (_ <? _); [destruct Hs as [-> _]; eauto|subst; rewrite Hrow; exists (sd_Revision s0); by rewrite E].
  - subst. split; [|done]. rewrite Hrow. exists (sd_Revision s0). by rewrite E.
Qed.

Lemma check_in_all_nofault : callback_succeeds → ∀ l s0 d, rows (schedules d) !! id = Some s0 → sd_ID s0 = id →
  sd_CallbackFuncName s0 = name → Forall (λ ec, scheduled d ec.1) l →
  ∃ d', check_in_all l (mkWorld d true []) = (Ok (replicate (length l) (Ok tt)), mkWorld d' true []).
Proof.
  intros Hcb. induction l as [|[ex c] l IH]; intros s0 d Hrow Hid Hname Hl; cbn [check_in_all]; [by eexists|].
  apply Forall_cons in Hl as [Hx Hl]. destruct (deliverCheckIn_nofault s0 ex c d Hcb Hrow Hid Hname Hx) as [d1 H1].
  destruct (deliverCheckIn_keeps s0 ex c d _ _ Hrow Hid Hx H1) as [[r Hr] Hk].
  edestruct (IH (set_revision r s0) d1) as [d' Hd']; [exact Hr|done|done| |].
  { eapply Forall_impl; [exact Hl|]. simpl. eauto. }
  exists d'. rewrite bind_eq. unfold try. rewrite H1. cbv beta iota. rewrite bind_eq, Hd'. done.
Qed.
End checkins.

(** C17 (a check-in triggers once): the callback of a schedule is any code that
    may fail and that leaves the schedules alone, and each check-in comes in a
    request of its own with its transaction.  Whatever check-ins arrive one after
    the other, repeated, late or out of order, and whatever faults happen in which
    of them: the runs of the callback that are committed are exactly those for the
    check-ins that are answered with success and newer than all answered with
    success before, so that there is at most one for a check-in, at strictly
    increasing ones.  A check-in that is not answered with success, because the
    callback, a statement or the commit fails, leaves no run and no revision
    behind, and the callback runs again when it is delivered again.  When neither
    statements nor the callback fail every check-in is answered with success. *)
Theorem checkins_trigger_once {Y} id name callback s0 l (w w' : World (SchedDB (list Z * Y))) r :
  callback_frames id callback →
  rows (schedules (db w)) !! id = Some s0 → sd_ID s0 = id → sd_CallbackFuncName s0 = name → runs (db w) = [] →
  Forall (λ ec, scheduled id (db w) ec.1) l →
  check_in_all id name callback l w = (r, w') →
  ∃ rs, r = Ok rs ∧ length rs = length l ∧
    runs (db w') = records (sd_Revision s0) (acknowledged l rs) ∧
    StronglySorted Z.lt (runs (db w')) ∧
    (callback_succeeds callback → ctx_orm w = true → faults w = [] → rs = replicate (length l) (Ok tt)).
Proof.
  intros Hf Hrow Hid Hname Hrest Hl H.
  pose proof (check_in_all_runs id name callback Hf l s0 (db w) Hrow Hid Hl w r w' eq_refl H) as Hs.
  destruct r as [rs|e]; [|done]. destruct Hs as [Hn Hr]. rewrite Hrest in Hr. simpl in Hr. exists rs. rewrite Hr.
  split_and!; [done..|apply records_sorted|]. intros Hcb Hc Hfs. destruct w as [d c fs]. simpl in *. subst c fs.
  destruct (check_in_all_nofault id name callback Hf Hcb l s0 d) as [d' Hd']; [done..|]. rewrite H in Hd'. by simplify_eq.
Qed.

(** A schedule with its execution, and a callback of one statement that counts. *)
Definition nightly : Schedule := schedule_row "REPLICATION" 3 EmptyString "0 0 0 * * *" "CB" "3" "{}" 1 1.
Definition nightly_db : SchedDB (list Z * nat) :=
  mkSchedDB (mkTaskDB {[7 := mkExec 7 JobNameScheduler 1 RunningStatus EmptyString ExecutionTriggerManual "{}" 1 1 None 0]} ∅ 7 0 1)
    (mkTable {[1 := nightly]} 1) ([], 0%nat).
Definition counting (_ : string) : M (SchedDB (list Z * nat)) unit :=
  stmt (λ d, (Ok tt, set_rest (fst (rest d), S (snd (rest d))) d)).

(** The first delivery meets a callback that fails, after begin, three statements
    and the update of the revision; the second one, of the same check-in, runs it. *)
Definition nightly_faults : list (option error) := [None; None; None; None; Some (New "callback failed")].

Lemma checkins_trigger_once_witness :
  let l := [(7, 5); (7, 5); (7, 5); (7, 3); (7, 9)] in
  ∃ w', check_in_all 1 "CB" counting l (mkWorld nightly_db true nightly_faults) =
      (Ok [Err (New "callback failed"); Ok tt; Ok tt; Ok tt; Ok tt], w') ∧
    runs (db w') = [5; 9] ∧ snd (rest (db w')) = 2%nat.
Proof.
  intros l. eexists. split; [vm_compute; reflexivity|]. split; [|reflexivity].
  assert (callback_frames 1 counting) as Hf.
  { intros p d0. apply spec_stmt; [|done]. by intros d ->. }
  edestruct (checkins_trigger_once 1 "CB" counting nightly l (mkWorld nightly_db true nightly_faults))
    as (rs & Hrs & _ & Hr & _); [exact Hf|reflexivity..| |vm_compute; reflexivity|].
  - repeat constructor; eexists; (split; [vm_compute; reflexivity|split; reflexivity]).
  - injection Hrs as <-. exact Hr.
Defined.
