(* ===== verification/ReplicationCtl.v ===== *)
(** * Registries and replication: managers and controllers

    [src/pkg/reg] (registries, with encrypted secrets), [src/pkg/replication]
    (policies), [src/controller/registry], [src/controller/replication] and its
    flows, and the conversions of [src/server/v2.0/handler/replication.go].  The
    adapters of foreign registries are values the factories return: what they
    answer is a parameter. *)

From S2P Require Import Prelude GoErrors GoStrings Orm Table Hoare JobStatus TaskStore Retry Replication Encrypt Scheduler.
From Stdlib Require Import Ascii.
Local Open Scope Z_scope.
Local Open Scope harbor_scope.

(** ** The tables *)

Record RegRow := mkRegRow {
  gr_ID : Z; gr_URL : string; gr_Name : string; gr_CredentialType : string; gr_AccessKey : string; gr_AccessSecret : string;
  gr_Type : string; gr_Insecure : bool; gr_Description : string; gr_Status : string;
}.

(** [r_proxied]: the registry of each project that has one. *)
Record RepRest := mkRest { r_registries : table RegRow; r_policies : table PolicyRow; r_proxied : list Z }.
Definition set_registries (t : table RegRow) (x : RepRest) : RepRest := mkRest t (r_policies x) (r_proxied x).
Definition set_policies (t : table PolicyRow) (x : RepRest) : RepRest := mkRest (r_registries x) t (r_proxied x).

Notation RepDB := (SchedDB RepRest).
Notation MR := (M RepDB).

(** ** [src/pkg/reg/dao/dao.go] *)

Module reg_dao.

Definition with_id (id : Z) (r : RegRow) : RegRow :=
  mkRegRow id (gr_URL r) (gr_Name r) (gr_CredentialType r) (gr_AccessKey r) (gr_AccessSecret r) (gr_Type r) (gr_Insecure r)
    (gr_Description r) (gr_Status r).

Definition conflict (r : RegRow) (e : error) : error := WrapConflictError e ("registry " +:+ gr_Name r +:+ " already exists").
Definition duplicate : error := PgError "23505" "duplicate key value violates unique constraint".

Definition Create (r : RegRow) : M RepRest Z :=
  _ ← FromContext;
  x ← try (stmt (λ d, let t := r_registries d in
        if decide (select (λ y, gr_Name y = gr_Name r) t = [])
        then (Ok (next t), set_registries (add_row (λ id, with_id id r) t) d)
        else (Err duplicate, d)));
  match x with Ok id => mret id | Err e => fail (conflict r e) end.

Definition List_ (P : RegRow → Prop) `{!∀ r, Decision (P r)} : M RepRest (list RegRow) :=
  _ ← FromContext; query (λ d, Ok (select P (r_registries d))).

Definition Count (P : RegRow → Prop) `{!∀ r, Decision (P r)} : M RepRest Z :=
  _ ← FromContext; query (λ d, Ok (Z.of_nat (length (select P (r_registries d))))).

Definition Get (id : Z) : M RepRest RegRow :=
  Read (λ d, rows (r_registries d) !! id) ("registry " +:+ pretty id +:+ " not found").

(** Without [props] every column is written; [Status] is the only other use. *)
Definition Update (r : RegRow) (only_status : bool) : M RepRest unit :=
  affect (λ d, let t := r_registries d in
    match rows t !! gr_ID r with
    | None => None
    | Some y =>
        let r' := if only_status
                  then mkRegRow (gr_ID y) (gr_URL y) (gr_Name y) (gr_CredentialType y) (gr_AccessKey y) (gr_AccessSecret y)
                         (gr_Type y) (gr_Insecure y) (gr_Description y) (gr_Status r)
                  else r in
        if decide (select (λ z, gr_Name z = gr_Name r' ∧ gr_ID z ≠ gr_ID r) t = [])
        then Some (Ok (set_registries (put_row (gr_ID r) r' t) d)) else Some (Err duplicate)
    end) ("registry " +:+ pretty (gr_ID r) +:+ " not found") (conflict r).

Definition Delete (id : Z) : M RepRest unit :=
  affect (λ d, match rows (r_registries d) !! id with
               | Some _ => Some (Ok (set_registries (del_row id (r_registries d)) d))
               | None => None
               end) ("registry " +:+ pretty id +:+ " not found") (λ e, e).
End reg_dao.

(** ** [src/pkg/reg/manager.go] *)

Definition Healthy : string := "healthy".
Definition Unhealthy : string := "unhealthy".
Definition RegistryTypeHarbor : string := "harbor".
Definition CredentialTypeBasic : string := "basic".
Definition CredentialTypeSecret : string := "secret".

(** The configuration a manager reads. *)
Record Config := mkConfig {
  cf_SecretKey : result string;
  cf_InternalCoreURL : string; cf_InternalTokenServiceEndpoint : string; cf_JobserviceSecret : string; cf_InternalTLS : bool;
}.

Record FilterStyle := mkStyle { fs_Type : string; fs_Style : string; fs_Values : list string }.
Record RegistryInfo := mkRegistryInfo {
  ri_Type : string; ri_Description : string; ri_ResourceTypes : list string; ri_Filters : list FilterStyle;
  ri_Triggers : list string; ri_PathComponentType : string; ri_CopyByChunk : bool;
}.

(** An adapter, by what its calls return; [ad_FetchArtifacts] is absent when it is
    no artifact registry, [ad_PrepareForPush] returns the resources as it leaves them. *)
Record Adapter := mkAdapter {
  ad_Info : result RegistryInfo;
  ad_HealthCheck : result string;
  ad_FetchArtifacts : option (list Filter → result (list Resource));
  ad_PrepareForPush : list Resource → result (list Resource);
}.

Section manager.
Context (cfg : Config).
Context (AES : list ascii → list ascii → list ascii) (random : result (list ascii)).
Context (factories : gmap string (Registry → result Adapter)).

Definition decrypt (secret : string) : result string :=
  if secret == EmptyString then Ok EmptyString
  else match cf_SecretKey cfg with
       | Err _ => Ok EmptyString
       | Ok key => ReversibleDecrypt AES secret key
       end.

Definition encrypt (secret : string) : result string :=
  if secret == EmptyString then Ok secret
  else match cf_SecretKey cfg with
       | Err _ => Ok EmptyString
       | Ok key => ReversibleEncrypt AES random secret key
       end.

Definition fromDaoModel (r : RegRow) : result Registry :=
  let reg cred := mkRegistry (gr_ID r) (gr_Name r) (gr_Description r) (gr_Type r) (gr_URL r) EmptyString (Some cred)
                    (gr_Insecure r) (gr_Status r) in
  if gr_AccessKey r == EmptyString then Ok (reg (mkCredential EmptyString EmptyString EmptyString))
  else
    let type := if gr_CredentialType r == EmptyString then CredentialTypeBasic else gr_CredentialType r in
    match decrypt (gr_AccessSecret r) with
    | Err e => Err e
    | Ok decrypted => Ok (reg (mkCredential type (gr_AccessKey r) decrypted))
    end.

Definition toDaoModel (r : Registry) : result RegRow :=
  let row type key secret := mkRegRow (rg_ID r) (rg_URL r) (rg_Name r) type key secret (rg_Type r) (rg_Insecure r)
                               (rg_Description r) (rg_Status r) in
  match rg_Credential r with
  | None => Ok (row EmptyString EmptyString EmptyString)
  | Some c =>
      if cr_AccessKey c == EmptyString then Ok (row EmptyString EmptyString EmptyString)
      else
        let type := if cr_Type c == EmptyString then CredentialTypeBasic else cr_Type c in
        match encrypt (cr_AccessSecret c) with
        | Err e => Err e
        | Ok encrypted => Ok (row type (cr_AccessKey c) encrypted)
        end
  end.

Definition getLocalRegistry : Registry :=
  mkRegistry 0 "Local" EmptyString RegistryTypeHarbor (cf_InternalCoreURL cfg) (cf_InternalTokenServiceEndpoint cfg)
    (Some (mkCredential CredentialTypeSecret EmptyString (cf_JobserviceSecret cfg))) (negb (cf_InternalTLS cfg)) Healthy.

Definition reg_Create (r : Registry) : M RepRest Z := row ← of_result (toDaoModel r); reg_dao.Create row.

Fixpoint from_all (l : list RegRow) : result (list Registry) :=
  match l with
  | [] => Ok []
  | r :: l => match fromDaoModel r with
              | Err e => Err e
              | Ok x => match from_all l with Err e => Err e | Ok xs => Ok (x :: xs) end
              end
  end.

Definition reg_List (P : RegRow → Prop) `{!∀ r, Decision (P r)} : M RepRest (list Registry) :=
  l ← reg_dao.List_ P; of_result (from_all l).

Definition reg_Get (id : Z) : M RepRest Registry :=
  if id =? 0 then mret getLocalRegistry else row ← reg_dao.Get id; of_result (fromDaoModel row).

Definition reg_Update (r : Registry) (only_status : bool) : M RepRest unit :=
  row ← of_result (toDaoModel r); reg_dao.Update row only_status.

Definition reg_Delete (id : Z) : M RepRest unit := reg_dao.Delete id.

(** [adapter.GetFactory] and [CreateAdapter] *)
Definition GetFactory (type : string) : result (Registry → result Adapter) :=
  match factories !! type with
  | Some f => Ok f
  | None => Err (PlainError ("adapter factory for " +:+ type +:+ " not found"))
  end.

Definition CreateAdapter (r : Registry) : result Adapter :=
  match GetFactory (rg_Type r) with Err e => Err e | Ok f => f r end.

(** ** [src/pkg/replication/dao/dao.go] *)

Definition policy_with_id (id : Z) (p : PolicyRow) : PolicyRow :=
  mkPolicyRow id (pr_Name p) (pr_Description p) (pr_Creator p) (pr_SrcRegistryID p) (pr_DestRegistryID p) (pr_DestNamespace p)
    (pr_ReplaceCount p) (pr_Filters p) (pr_Trigger p) (pr_ReplicateDeletion p) (pr_Override p) (pr_Enabled p) (pr_Speed p)
    (pr_CopyByChunk p).

Definition policy_conflict (p : PolicyRow) (e : error) : error :=
  WrapConflictError e ("replication policy " +:+ pr_Name p +:+ " already exists").

Definition policy_Create (p : PolicyRow) : M RepRest Z :=
  _ ← FromContext;
  x ← try (stmt (λ d, let t := r_policies d in
        if decide (select (λ y, pr_Name y = pr_Name p) t = [])
        then (Ok (next t), set_policies (add_row (λ id, policy_with_id id p) t) d)
        else (Err reg_dao.duplicate, d)));
  match x with Ok id => mret id | Err e => fail (policy_conflict p e) end.

Definition policy_Get (id : Z) : M RepRest PolicyRow :=
  Read (λ d, rows (r_policies d) !! id) ("replication policy " +:+ pretty id +:+ " not found").

Definition policy_List (P : PolicyRow → Prop) `{!∀ p, Decision (P p)} : M RepRest (list PolicyRow) :=
  _ ← FromContext; query (λ d, Ok (select P (r_policies d))).

Definition policy_Count (P : PolicyRow → Prop) `{!∀ p, Decision (P p)} : M RepRest Z :=
  _ ← FromContext; query (λ d, Ok (Z.of_nat (length (select P (r_policies d))))).

(** Every column is written: the callers name none. *)
Definition policy_Update (p : PolicyRow) : M RepRest unit :=
  affect (λ d, let t := r_policies d in
    match rows t !! pr_ID p with
    | None => None
    | Some _ =>
        if decide (select (λ z, pr_Name z = pr_Name p ∧ pr_ID z ≠ pr_ID p) t = [])
        then Some (Ok (set_policies (put_row (pr_ID p) p t) d)) else Some (Err reg_dao.duplicate)
    end) ("replication policy " +:+ pretty (pr_ID p) +:+ " not found") (policy_conflict p).

Definition policy_Delete (id : Z) : M RepRest unit :=
  affect (λ d, match rows (r_policies d) !! id with
               | Some _ => Some (Ok (set_policies (del_row id (r_policies d)) d))
               | None => None
               end) ("replication policy " +:+ pretty id +:+ " not found") (λ e, e).

(** ** [src/controller/registry/controller.go] *)

(** [net/url]: scheme, host and path. *)
Context (url_Parse : string → result (string * string * string)).

(** [lib.ValidateHTTPURL] *)
Definition ValidateHTTPURL (s : string) : result string :=
  let s := trim_right_by (λ c, bool_decide (c = "/"%char)) (Trim s (λ c, bool_decide (c = " "%char))) in
  if s == EmptyString then Err (BadRequest "empty string")
  else
    let s := if Contains s "://" then s else "http://" +:+ s in
    match url_Parse s with
    | Err err => Err (BadRequest ("invalid URL: " +:+ error_string err))
    | Ok (scheme, host, path) =>
        if negb (scheme == "http") && negb (scheme == "https") then Err (BadRequest ("invalid HTTP scheme: " +:+ scheme))
        else Ok (scheme +:+ "://" +:+ host +:+ path)
    end.

Definition IsHealthy (r : Registry) : result bool :=
  match CreateAdapter r with
  | Err e => Err e
  | Ok ad => match ad_HealthCheck ad with Err e => Err e | Ok status => Ok (status == Healthy) end
  end.

Definition with_url (url : string) (r : Registry) : Registry :=
  mkRegistry (rg_ID r) (rg_Name r) (rg_Description r) (rg_Type r) url (rg_TokenServiceURL r) (rg_Credential r) (rg_Insecure r) (rg_Status r).
Definition with_health (status : string) (r : Registry) : Registry :=
  mkRegistry (rg_ID r) (rg_Name r) (rg_Description r) (rg_Type r) (rg_URL r) (rg_TokenServiceURL r) (rg_Credential r) (rg_Insecure r) status.

(** [validate] returns the registry it has changed. *)
Definition validate (r : Registry) : result Registry :=
  if rg_Name r == EmptyString then Err (BadRequest "name cannot be empty")
  else if (64 <? Z.of_nat (String.length (rg_Name r))) then Err (BadRequest "the max length of name is 64")
  else
    match ValidateHTTPURL (rg_URL r) with
    | Err e => Err e
    | Ok url =>
        let r := with_url url r in
        match IsHealthy r with
        | Err e => Err e
        | Ok false => Err (BadRequest "the registry is unhealthy")
        | Ok true => Ok (with_health Healthy r)
        end
    end.

Definition registry_Create (r : Registry) : M RepRest Z := r ← of_result (validate r); reg_Create r.
Definition registry_Update (r : Registry) : M RepRest unit := r ← of_result (validate r); reg_Update r false.

Definition referenced (id : Z) (by_ : string) : error :=
  WithMessage (WithCode (New EmptyString) PreconditionCode)
    ("the registry " +:+ pretty id +:+ " is referenced by " +:+ by_ +:+ ", cannot delete it").

Definition registry_Delete (id : Z) : M RepRest unit :=
  n ← policy_Count (λ p, pr_SrcRegistryID p = id);
  if 0 <? n then fail (referenced id "replication policies")
  else
    n ← policy_Count (λ p, pr_DestRegistryID p = id);
    if 0 <? n then fail (referenced id "replication policies")
    else
      n ← (_ ← FromContext; query (λ d, Ok (Z.of_nat (length (filter (λ i, i = id) (r_proxied d))))));
      if 0 <? n then fail (referenced id "proxy cache project")
      else reg_Delete id.

(** One registry of a round of [StartRegularHealthCheck]; failures are logged. *)
Definition check_health (r : Registry) : M RepRest unit :=
  match IsHealthy r with
  | Err _ => mret tt
  | Ok isHealthy =>
      let status := if isHealthy then Healthy else Unhealthy in
      if rg_Status r == status then mret tt
      else _ ← try (reg_Update (with_health status r) true); mret tt
  end.

Fixpoint check_all (l : list Registry) : M RepRest unit :=
  match l with
  | [] => mret tt
  | r :: l => _ ← check_health r; check_all l
  end.

Definition health_round : M RepRest unit :=
  l ← try (reg_List (λ _, True));
  match l with Err _ => mret tt | Ok l => check_all l end.

Definition FilterStyleTypeRadio : string := "radio".

(** [process] *)
Definition process (info : RegistryInfo) : RegistryInfo :=
  mkRegistryInfo (ri_Type info) (ri_Description info) []
    (filter (λ f, fs_Type f ≠ FilterTypeResource) (ri_Filters info)
       ++ [mkStyle FilterTypeResource FilterStyleTypeRadio (ri_ResourceTypes info)])
    (ri_Triggers info) EmptyString (ri_CopyByChunk info).

Definition GetInfo (id : Z) : M RepRest RegistryInfo :=
  r ← reg_Get id;
  ad ← of_result (CreateAdapter r);
  info ← of_result (ad_Info ad);
  let info := if id =? 0
              then mkRegistryInfo (ri_Type info) (ri_Description info) (ri_ResourceTypes info) (ri_Filters info)
                     (ri_Triggers info ++ [TriggerTypeEventBased]) (ri_PathComponentType info) (ri_CopyByChunk info)
              else info in
  mret (process info).

End manager.

(** ** [src/controller/replication] *)

Definition ReplicationVendorType : string := "REPLICATION".
Definition callbackFuncName : string := "REPLICATION_CALLBACK".

Section replication.
Context (cfg : Config).
Context (AES : list ascii → list ascii → list ascii).
Context (factories : gmap string (Registry → result Adapter)).
Context (valid_namespace valid_cron : string → bool).
Context (unmarshal_filters : string → result (list FilterItem)) (unmarshal_trigger : string → result TriggerItem).
Context (marshal_filters : list Filter → string) (marshal_trigger : Trigger → string).
Context (marshal_resource : Resource → result string) (marshal_attrs : list (string * string) → string).
Context (js : JsClient) (object_of : string → string) (callbacks : gmap string (string → MR unit)).
Context (polls budget : nat) (env : M TaskDB unit).

Notation get_registry id := (on_rest (reg_Get cfg AES id)).

(** *** [policy.go] *)

Definition validatePolicy (p : Policy) : MR unit :=
  _ ← of_result (Policy_Validate valid_namespace valid_cron p);
  _ ← match po_SrcRegistry p with Some r => _ ← get_registry (rg_ID r); mret tt | None => mret tt end;
  match po_DestRegistry p with Some r => _ ← get_registry (rg_ID r); mret tt | None => mret tt end.

(** The schedule of a policy that has one. *)
Definition schedule_policy (p : Policy) (id : Z) : MR unit :=
  if IsScheduledTrigger p
  then match po_Trigger p ≫= tr_Cron with
       | None => fail (Panic "nil pointer dereference")
       | Some cron =>
           _ ← Schedule_ js valid_cron object_of callbacks ReplicationVendorType id EmptyString cron callbackFuncName
                 (Ok (pretty id)) (Ok "{}"%string);
           mret tt
       end
  else mret tt.

Definition CreatePolicy (p : Policy) : MR Z :=
  _ ← validatePolicy p;
  id ← on_rest (policy_Create (To_row marshal_filters marshal_trigger p));
  _ ← schedule_policy p id;
  mret id.

Definition UpdatePolicy (p : Policy) : MR unit :=
  _ ← validatePolicy p;
  _ ← UnScheduleByVendor js polls env ReplicationVendorType (po_ID p);
  _ ← on_rest (policy_Update (To_row marshal_filters marshal_trigger p));
  schedule_policy p (po_ID p).

Definition DeletePolicy (id : Z) : MR unit :=
  _ ← on_tasks (DeleteByVendor ReplicationVendorType id);
  _ ← UnScheduleByVendor js polls env ReplicationVendorType id;
  on_rest (policy_Delete id).

Definition with_registries (src dst : Registry) (p : Policy) : Policy :=
  mkPolicy (po_ID p) (po_Name p) (po_Description p) (po_Creator p) (Some src) (Some dst) (po_DestNamespace p) (po_ReplaceCount p)
    (po_Filters p) (po_Trigger p) (po_ReplicateDeletion p) (po_Override p) (po_Enabled p) (po_Speed p) (po_CopyByChunk p).

Definition populateRegistry (row : PolicyRow) : MR Policy :=
  p ← of_result (From_row unmarshal_filters unmarshal_trigger row);
  ids ← match po_SrcRegistry p with
        | Some r => if negb (rg_ID r =? 0) then mret (rg_ID r, 0)
                    else match po_DestRegistry p with
                         | Some d => mret (0, rg_ID d)
                         | None => fail (Panic "nil pointer dereference")
                         end
        | None => match po_DestRegistry p with
                  | Some d => mret (0, rg_ID d)
                  | None => fail (Panic "nil pointer dereference")
                  end
        end;
  src ← get_registry (fst ids);
  dst ← get_registry (snd ids);
  mret (with_registries src dst p).

Definition GetPolicy (id : Z) : MR Policy := row ← on_rest (policy_Get id); populateRegistry row.

Fixpoint populate_all (l : list PolicyRow) : MR (list Policy) :=
  match l with
  | [] => mret []
  | row :: l => p ← populateRegistry row; ps ← populate_all l; mret (p :: ps)
  end.

Definition ListPolicies (P : PolicyRow → Prop) `{!∀ p, Decision (P p)} : MR (list Policy) :=
  l ← on_rest (policy_List P); populate_all l.

(** *** [flow] *)

(** [initialize] of [stage.go]: the adapters of source and destination. *)
Definition new_adapter (which : string) (r : option Registry) : result Adapter :=
  match r with
  | None => Err (Panic "nil pointer dereference")
  | Some r =>
      match GetFactory factories (rg_Type r) with
      | Err err => Err (PlainError ("failed to get adapter factory for registry type " +:+ rg_Type r +:+ ": " +:+ error_string err))
      | Ok create =>
          match create r with
          | Err err => Err (PlainError ("failed to create adapter for " +:+ which +:+ " registry " +:+ rg_URL r +:+ ": " +:+ error_string err))
          | Ok ad => Ok ad
          end
      end
  end.

Definition flow_initialize (p : Policy) : result (Adapter * Adapter) :=
  match new_adapter "source" (po_SrcRegistry p) with
  | Err e => Err e
  | Ok src => match new_adapter "destination" (po_DestRegistry p) with Err e => Err e | Ok dst => Ok (src, dst) end
  end.

Definition fetchResources (ad : Adapter) (p : Policy) : result (list Resource) :=
  match ad_FetchArtifacts ad with
  | None => Err (PlainError "the adapter doesn't implement the ArtifactRegistry interface")
  | Some fetch => match fetch (po_Filters p) with
                  | Err err => Err (PlainError ("failed to fetch artifacts: " +:+ error_string err))
                  | Ok l => Ok l
                  end
  end.

Definition prepareForPush (ad : Adapter) (l : list Resource) : result (list Resource) :=
  match ad_PrepareForPush ad l with
  | Err err => Err (PlainError ("failed to do the prepare work for pushing/uploading resources: " +:+ error_string err))
  | Ok l => Ok l
  end.

Definition attrs (operation : string) (src dst : Resource) : string :=
  marshal_attrs [("operation"%string, operation); ("resource_type"%string, rs_Type src);
    ("source_resource"%string, getResourceName src); ("destination_resource"%string, getResourceName dst)].

(** The loop of the copy flow's [createTasks]: how many tasks it creates, and the
    error that ends it. *)
Fixpoint copy_tasks (executionID : Z) (src dst : list Resource) (n : nat) : MR (nat * option error) :=
  match src with
  | [] => mret (n, None)
  | s :: src =>
      match dst with
      | [] => mret (n, Some (Panic "index out of range"))
      | d :: dst =>
          if rs_Skip d then copy_tasks executionID src dst n
          else match marshal_resource s, marshal_resource d with
               | Err e, _ => mret (n, Some e)
               | _, Err e => mret (n, Some e)
               | Ok _, Ok _ =>
                   r ← try (on_tasks (task_Create js executionID ReplicationVendorType (attrs "copy" s d)));
                   match r with
                   | Err e => mret (n, Some e)
                   | Ok _ => copy_tasks executionID src dst (S n)
                   end
               end
      end
  end.

Definition no_resources : string := "no resources need to be replicated".

Definition copy_createTasks (executionID : Z) (src dst : list Resource) : MR unit :=
  x ← copy_tasks executionID src dst 0;
  _ ← (if bool_decide (fst x = O) then _ ← try (on_tasks (MarkDone executionID no_resources)); mret tt else mret tt);
  match snd x with Some e => fail e | None => mret tt end.

Definition copy_Run (executionID : Z) (p : Policy) (resources : list Resource) : MR unit :=
  ads ← of_result (flow_initialize p);
  srcResources ← of_result (match resources with [] => fetchResources (fst ads) p | l => Ok l end);
  execution ← on_tasks (executionDAO.Get executionID);
  if e_Status execution == StoppedStatus then mret tt
  else
    match srcResources with
    | [] => _ ← try (on_tasks (MarkDone executionID no_resources)); mret tt
    | _ =>
        let srcResources := assembleSourceResources srcResources p in
        info ← of_result (ad_Info (snd ads));
        dstResources ← of_result (assembleDestinationResources srcResources p (ri_PathComponentType info));
        dstResources ← of_result (prepareForPush (snd ads) dstResources);
        copy_createTasks executionID srcResources dstResources
    end.

Fixpoint deletion_tasks (executionID : Z) (src dst : list Resource) : MR unit :=
  match src with
  | [] => mret tt
  | s :: src =>
      match dst with
      | [] => fail (Panic "index out of range")
      | d :: dst =>
          _ ← of_result (marshal_resource s);
          _ ← of_result (marshal_resource d);
          _ ← on_tasks (task_Create js executionID ReplicationVendorType
                (attrs (if rs_IsDeleteTag d then "tag deletion" else "deletion") s d));
          deletion_tasks executionID src dst
      end
  end.

Definition deletion_Run (executionID : Z) (p : Policy) (resources : list Resource) : MR unit :=
  ads ← of_result (flow_initialize p);
  let srcResources := assembleSourceResources resources p in
  info ← of_result (ad_Info (snd ads));
  dstResources ← of_result (assembleDestinationResources srcResources p (ri_PathComponentType info));
  deletion_tasks executionID srcResources dstResources.

Definition flow_Start (executionID : Z) (p : Policy) (resource : option Resource) : MR unit :=
  match resource with
  | Some r => if rs_Deleted r then deletion_Run executionID p [r] else copy_Run executionID p [r]
  | None => copy_Run executionID p []
  end.

(** *** [execution.go] *)

Definition markError (executionID : Z) (err : error) : MR unit :=
  _ ← try (on_tasks (StopAndWait js polls env executionID));
  _ ← try (on_tasks (MarkError executionID (error_string err)));
  mret tt.

(** The record [Start] creates before it returns. *)
Definition Start (p : Policy) (trigger : string) : MR Z :=
  if negb (po_Enabled p)
  then fail (WithMessage (WithCode (New EmptyString) PreconditionCode) ("the policy " +:+ pretty (po_ID p) +:+ " is disabled"))
  else on_tasks (TaskStore.Create ReplicationVendorType (po_ID p) trigger "{}").

(** The goroutine [Start] leaves behind: a panic is recovered. *)
Definition start_flow (id : Z) (p : Policy) (resource : option Resource) : MR unit :=
  r ← try (Retry budget (_ ← on_tasks (executionDAO.Get id); mret tt));
  match r with
  | Err err => markError id (PlainError ("failed to wait the execution record to be inserted: " +:+ error_string err))
  | Ok _ =>
      r ← try (flow_Start id p resource);
      match r with
      | Ok _ => mret tt
      | Err (Panic _) => markError id (PlainError "panic during the process")
      | Err err => markError id err
      end
  end.

Definition get_execution (id : Z) : M TaskDB Execution :=
  l ← (_ ← FromContext; query (λ d, Ok (filter (λ e, e_ID e = id ∧ e_VendorType e = ReplicationVendorType) ((map_to_list (execs d)).*2))));
  match l with
  | [] => fail (WithMessage (WithCode (New EmptyString) NotFoundCode) ("replication execution " +:+ pretty id +:+ " not found"))
  | e :: _ => mret e
  end.

Definition GetExecution (id : Z) : MR Execution := on_tasks (get_execution id).

Definition replication_Stop (id : Z) : MR unit := _ ← GetExecution id; on_tasks (Stop js id).

Definition get_task (id : Z) : M TaskDB Task :=
  l ← taskDAO.List_by (λ t, t_ID t = id ∧ t_VendorType t = ReplicationVendorType);
  match l with
  | [] => fail (WithMessage (WithCode (New EmptyString) NotFoundCode) ("replication task " +:+ pretty id +:+ " not found"))
  | t :: _ => mret t
  end.

Definition GetTask (id : Z) : MR Task := on_tasks (get_task id).

(** The callback of the schedules of policies; the flow it leaves runs afterwards. *)
Definition replication_callback (param : string) : MR unit :=
  match ParseInt param with
  | None => fail (PlainError "strconv.ParseInt")
  | Some policyID =>
      p ← GetPolicy policyID;
      _ ← Start p ExecutionTriggerSchedule;
      mret tt
  end.

End replication.

(** ** [src/server/v2.0/handler/replication.go] *)

(** The policy of a request. *)
Record PolicyBody := mkBody {
  pb_Name : string; pb_Description : string; pb_SrcRegistry : option Z; pb_DestRegistry : option Z; pb_DestNamespace : string;
  pb_ReplaceCount : option Z; pb_Filters : list Filter; pb_Trigger : option Trigger; pb_Deletion : bool; pb_Override : bool;
  pb_Enabled : bool; pb_Speed : option Z; pb_CopyByChunk : option bool;
}.

Definition body_registry (id : option Z) : option Registry :=
  (λ id, bare_registry id EmptyString EmptyString EmptyString) <$> id.

Definition body_policy (id : Z) (creator : string) (b : PolicyBody) : Policy :=
  mkPolicy id (pb_Name b) (pb_Description b) creator (body_registry (pb_SrcRegistry b)) (body_registry (pb_DestRegistry b))
    (pb_DestNamespace b) (default (-1) (pb_ReplaceCount b)) (pb_Filters b) (pb_Trigger b) (pb_Deletion b) (pb_Override b)
    (pb_Enabled b) (match pb_Speed b with Some s => if s <? 0 then 0 else s | None => 0 end) (default false (pb_CopyByChunk b)).

(** [CreateReplicationPolicy] and [UpdateReplicationPolicy], after the check of access. *)
Definition create_request (username : string) (b : PolicyBody) : Policy := body_policy 0 username b.
Definition update_request (id : Z) (b : PolicyBody) : Policy := body_policy id EmptyString b.
