(* ===== verification/ReplicationCtlSpec.v ===== *)
(** * Correctness of registries and replication policies *)

From S2P Require Import Prelude GoErrors GoStrings Orm Table Hoare JobStatus TaskStore Replication ReplicationSpec Encrypt Scheduler SchedulerSpec ReplicationCtl.
From Stdlib Require Import Ascii.
Local Open Scope Z_scope.
Local Open Scope harbor_scope.

(** ** The invariant *)

Section invariant.
Context (unmarshal_trigger : string → result TriggerItem).

(** The cron expression at which a stored policy has to run. *)
Definition row_cron (row : PolicyRow) : option string :=
  if pr_Enabled row
  then match parseTrigger unmarshal_trigger (pr_Trigger row) with
       | Ok (Some t) => if tr_Type t == TriggerTypeScheduled then tr_Cron t else None
       | _ => None
       end
  else None.

Notation wants := (wants_schedule row_cron).
Notation has := (has_schedule ReplicationVendorType).
Notation replication_calls := (calls_back ReplicationVendorType callbackFuncName (pretty : Z → string)).

Definition known (R : table RegRow) (id : Z) : Prop := id ≠ 0 → is_Some (rows R !! id).

Definition refers (R : table RegRow) (p : PolicyRow) : Prop :=
  (pr_SrcRegistryID p = 0 ↔ pr_DestRegistryID p ≠ 0) ∧ known R (pr_SrcRegistryID p) ∧ known R (pr_DestRegistryID p).

Definition same_policy (p q : PolicyRow) : Prop := pr_Name p = pr_Name q.
Definition same_registry (p q : RegRow) : Prop := gr_Name p = gr_Name q.

Record rep_ok (t : table Schedule) (x : RepRest) : Prop := {
  ok_schedules : tab_ok sd_ID same_vendor replication_calls t;
  ok_registries : tab_ok gr_ID same_registry (λ _, True) (r_registries x);
  ok_policies : tab_ok pr_ID same_policy (refers (r_registries x)) (r_policies x);
  ok_agrees : ∀ id c, has t id c ↔ wants (r_policies x) id c;
}.

(** Policy [k] apart, schedules agree with policies, and [k] has none. *)
Definition agrees_but (k : Z) (t : table Schedule) (P : table PolicyRow) : Prop :=
  ∀ id c, has t id c ↔ id ≠ k ∧ wants P id c.

(** What the registries of other tables may do. *)
Lemma refers_mono R R' p : (∀ i, is_Some (rows R !! i) → is_Some (rows R' !! i)) → refers R p → refers R' p.
Proof. unfold refers, known. naive_solver. Qed.

#[local] Instance same_policy_symm : Symmetric same_policy.
Proof. intros a b ?. by symmetry. Qed.
#[local] Instance same_registry_symm : Symmetric same_registry.
Proof. intros a b ?. by symmetry. Qed.

(** ** Scheduling restores agreement *)

Context (valid_namespace valid_cron : string → bool) (marshal_filters : list Filter → string) (marshal_trigger : Trigger → string).
Context (js : JsClient) (object_of : string → string) (callbacks : gmap string (string → MR unit)).
Context (polls : nat) (env : M TaskDB unit).
Notation row_of p := (To_row marshal_filters marshal_trigger p).

Definition policy_cron (p : Policy) : option string := if IsScheduledTrigger p then po_Trigger p ≫= tr_Cron else None.

Lemma row_cron_To p : (∀ t, po_Trigger p = Some t → trigger_json unmarshal_trigger marshal_trigger t) →
  Policy_Validate valid_namespace valid_cron p = Ok tt → row_cron (row_of p) = policy_cron p.
Proof.
  intros Hj Hv. unfold row_cron, policy_cron, IsScheduledTrigger, To_row. cbn. destruct (po_Enabled p); [|done].
  unfold Policy_Validate in Hv. case_bool_decide; [done|]. destruct (_ || _); [done|]. destruct (validate_filters _) as [[]|]; [|done].
  destruct (_ && _); [done|]. unfold parseTrigger. destruct (po_Trigger p) as [t|]; [|done].
  destruct (Hj t eq_refl) as [Hne Hu]. rewrite bool_decide_false, Hu by done. cbn.
  rewrite (bool_decide_false (tr_Type t = EmptyString)); [done|]. intros E. unfold validate_trigger in Hv. by rewrite E in Hv.
Qed.

Lemma schedule_policy_agrees p k t x : tab_ok sd_ID same_vendor replication_calls t → agrees_but k t (r_policies x) →
  (∀ c, policy_cron p = Some c ↔ wants (r_policies x) k c) →
  spec (sched_of t x) (schedule_policy valid_cron js object_of callbacks p k)
    (λ _ d, rest d = x ∧ tab_ok sd_ID same_vendor replication_calls (schedules d) ∧ ∀ id c, has (schedules d) id c ↔ wants (r_policies x) id c)
    (λ _, True).
Proof.
  intros Ht Hb Hp. unfold schedule_policy, policy_cron in *.
  assert (∀ id c, id ≠ k → has t id c ↔ wants (r_policies x) id c) as Hother by (intros; rewrite (Hb id c); naive_solver).
  destruct (IsScheduledTrigger p).
  - destruct (po_Trigger p ≫= tr_Cron) as [cron|]; [|by apply spec_fail].
    eapply spec_bind; [by apply schedule_adds|].
    intros i. apply spec_ret. intros d (-> & _ & Hd & Hh). split_and!; [done..|]. intros id c. rewrite (Hh id c), (Hb id c).
    destruct (decide (id = k)) as [->|Hne]; [rewrite <- (Hp c); naive_solver|naive_solver].
  - apply spec_ret. intros d [<- <-]. split_and!; [done..|]. intros id c. rewrite (Hb id c).
    destruct (decide (id = k)) as [->|Hne]; [rewrite <- (Hp c)|]; naive_solver.
Qed.

(** ** Policies *)

Context (cfg : Config) (AES : list ascii → list ascii → list ascii).

Lemma reading_registry id : reading (on_rest (reg_Get cfg AES id) : MR Registry) (λ d _, known (r_registries (rest d)) id).
Proof.
  apply (reading_zoom rest set_rest _ (λ x _, known (r_registries x) id)); [by intros []|]. unfold reg_Get, known.
  destruct (Z.eqb_spec id 0) as [->|Hne]; [eapply reading_conseq; [apply reading_ret|done]|].
  eapply reading_conseq; [eapply reading_bind; [apply reading_Read|intros row; apply reading_of_result]|].
  intros x r (row & Hrow & _) _. by eexists.
Qed.

Lemma reading_validate p : reading (validatePolicy cfg AES valid_namespace valid_cron p)
  (λ d _, Policy_Validate valid_namespace valid_cron p = Ok tt ∧ refers (r_registries (rest d)) (row_of p)).
Proof.
  unfold validatePolicy.
  assert (∀ o, reading (match o with Some r => _ ← on_rest (reg_Get cfg AES (rg_ID r)); mret tt | None => mret tt end)
    (λ d _, known (r_registries (rest d)) (registry_id o))) as Hr.
  { intros [r|]; [|eapply reading_conseq; [apply reading_ret|intros d [] _ H; by destruct H]].
    eapply reading_conseq; [eapply reading_bind; [apply reading_registry|intros ?; apply reading_ret]|]. intros d [] (? & H & _). exact H. }
  eapply reading_conseq.
  { eapply reading_bind; [apply reading_of_result|intros ?]. eapply reading_bind; [apply Hr|intros ?]. apply Hr. }
  intros d [] ([] & Hv & [] & Hs & Hd). split; [done|]. split; [|done]. cbn. clear -Hv. unfold Policy_Validate in Hv.
  case_bool_decide; [done|]. destruct (_ || _) eqn:E; [done|]. rewrite orb_false_iff, !andb_false_iff, !negb_false_iff in E. lia.
Qed.

Lemma tasks_sched {A} (m : M TaskDB A) t x : spec (sched_of t x) (on_tasks m) (λ _, sched_of t x) (λ _ : RepDB, True).
Proof. by apply on_tasks_frame. Qed.

(** A call on registries and policies. *)
Lemma validate_step {B} p (k : unit → MR B) t x Q :
  (Policy_Validate valid_namespace valid_cron p = Ok tt → refers (r_registries x) (row_of p) → spec (sched_of t x) (k tt) Q (λ _, True)) →
  spec (sched_of t x) (validatePolicy cfg AES valid_namespace valid_cron p ≫= k) Q (λ _, True).
Proof.
  intros Hk. apply spec_exact. intros d [<- <-]. eapply spec_read_bind; [apply reading_validate|done|]. intros [] [Hv Hr].
  eapply spec_pre; [by apply Hk|by intros y ->].
Qed.

Lemma policy_Create_spec row x : spec (λ y, y = x) (policy_Create row)
  (λ id y, id = next (r_policies x) ∧ select (λ p, pr_Name p = pr_Name row) (r_policies x) = [] ∧
     y = set_policies (add_row (λ id, policy_with_id id row) (r_policies x)) x) (λ y, y = x).
Proof.
  unfold policy_Create. eapply (spec_bind _ _ (λ _ y, y = x)); [by apply spec_FromContext|intros []].
  eapply spec_bind.
  - apply (spec_try _ _ (λ id y, id = next (r_policies x) ∧ select (λ p, pr_Name p = pr_Name row) (r_policies x) = [] ∧
     y = set_policies (add_row (λ id, policy_with_id id row) (r_policies x)) x) (λ y, y = x)).
    apply spec_stmt; [|done]. intros y ->. by case_decide.
  - intros [id|e]; [by apply spec_ret|by apply spec_fail].
Qed.

Lemma CreatePolicy_ok p t x : (∀ t, po_Trigger p = Some t → trigger_json unmarshal_trigger marshal_trigger t) → rep_ok t x →
  spec (sched_of t x) (CreatePolicy cfg AES valid_namespace valid_cron marshal_filters marshal_trigger js object_of callbacks p)
    (λ _ d, rep_ok (schedules d) (rest d)) (λ _, True).
Proof.
  intros Hj [Ht Hr Hp Ha]. unfold CreatePolicy. apply validate_step. intros Hv Href.
  set (n := next (r_policies x)). set (P' := add_row (λ id, policy_with_id id (row_of p)) (r_policies x)).
  assert (rows (r_policies x) !! n = None) as Hnew by (eapply lookup_next, Hp).
  eapply (spec_bind _ _ (λ id d, id = n ∧ tab_ok pr_ID same_policy (refers (r_registries x)) P' ∧ sched_of t (set_policies P' x) d)).
  { eapply spec_conseq; [apply spec_on_rest, policy_Create_spec|done| |done]. intros id d (? & -> & Hs & ?). split_and!; [done| |done].
    by apply (tab_ok_add _ _ _ (λ q, pr_Name q = pr_Name (row_of p))). }
  intros id. do 2 (apply spec_pure; intros ?). subst id.
  eapply spec_bind; [apply (schedule_policy_agrees p n t (set_policies P' x)); [done| |]|].
  - intros id c. rewrite (Ha id c). unfold wants_schedule. cbn. fold n. split.
    + intros (row & Hrow & Hc). split; [congruence|]. exists row. rewrite lookup_insert_ne by congruence. done.
    + intros (Hne & row & Hrow & Hc). rewrite lookup_insert_ne in Hrow by done. eauto.
  - intros c. unfold wants_schedule. cbn. fold n. rewrite lookup_insert_eq. rewrite <- (row_cron_To p) by done. split.
    + intros Hc. eexists. split; [reflexivity|exact Hc].
    + by intros (row & [= <-] & Hc).
  - intros []. apply spec_ret. intros d (-> & Hs & Hh). by split.
Qed.

Lemma UpdatePolicy_ok p t x : (∀ t, po_Trigger p = Some t → trigger_json unmarshal_trigger marshal_trigger t) → rep_ok t x →
  spec (sched_of t x) (UpdatePolicy cfg AES valid_namespace valid_cron marshal_filters marshal_trigger js object_of callbacks polls env p)
    (λ _ d, rep_ok (schedules d) (rest d)) (λ _, True).
Proof.
  intros Hj [Ht Hr Hp Ha]. unfold UpdatePolicy. apply validate_step. intros Hv Href.
  set (k := po_ID p). set (t' := del_rows (of_vendor ReplicationVendorType k) t). set (P' := put_row k (row_of p) (r_policies x)).
  eapply (spec_bind _ _ (λ _, sched_of t' x)).
  { eapply spec_conseq; [apply UnScheduleByVendor_spec, Ht|done..]. }
  intros []. eapply (spec_bind _ _ (λ _ d, 0 < k ∧ tab_ok pr_ID same_policy (refers (r_registries x)) P' ∧ sched_of t' (set_policies P' x) d)).
  { eapply spec_conseq; [apply (spec_on_rest _ t' x (λ _ y, 0 < k ∧ tab_ok pr_ID same_policy (refers (r_registries x)) P' ∧ y = set_policies P' x) (λ _, True))|done| |done].
    - apply spec_affect; [|done]. intros y y' ->. cbn. fold k. destruct (rows (r_policies x) !! k) as [old|] eqn:Ek; [|done].
      case_decide as Hs; [|done]. intros [= <-]. split_and!; [by destruct (tab_keys _ _ _ _ Hp _ _ Ek) as [_ [? _]]| |done].
      apply (tab_ok_put_fresh _ _ _ (λ z, pr_Name z = po_Name p ∧ pr_ID z ≠ k) _ old); [done..| |done]. by intros y <-.
    - by intros [] d (? & ? & ? & ?). }
  intros []. do 2 (apply spec_pure; intros ?). fold k. unfold t'.
  eapply spec_post; [apply (schedule_policy_agrees p k _ (set_policies P' x)); [by apply tab_ok_dels| |]|].
  - intros id c. rewrite has_dels, (Ha id c) by done. unfold P'. cbn. rewrite wants_put. case_decide; naive_solver.
  - intros c. unfold P'. cbn. rewrite wants_put, decide_True by done. by rewrite (row_cron_To p).
  - intros [] d (-> & Hs & Hh). by split.
Qed.

Lemma DeletePolicy_ok id t x : rep_ok t x →
  spec (sched_of t x) (DeletePolicy js polls env id) (λ _ d, rep_ok (schedules d) (rest d)) (λ _, True).
Proof.
  intros [Ht Hr Hp Ha]. unfold DeletePolicy. eapply spec_bind; [apply tasks_sched|intros []].
  set (t' := del_rows (of_vendor ReplicationVendorType id) t).
  eapply (spec_bind _ _ (λ _, sched_of t' x)); [eapply spec_conseq; [apply UnScheduleByVendor_spec, Ht|done..]|intros []].
  eapply spec_conseq; [apply (spec_on_rest _ t' x (λ _ y, 0 < id ∧ y = set_policies (del_row id (r_policies x)) x) (λ _, True))|done| |done].
  - apply spec_affect; [|done]. intros y y' ->. destruct (rows (r_policies x) !! id) as [old|] eqn:Ek; [|done].
    intros [= <-]. split; [|done]. by destruct (tab_keys _ _ _ _ Hp _ _ Ek) as [_ [? _]].
  - intros [] d (-> & Hid & ->). split; cbn; [by apply tab_ok_dels|done|by apply tab_ok_del|].
    intros i c. unfold t'. by rewrite has_dels, wants_del, (Ha i c).
Qed.

(** ** Registries *)

Context (url_Parse : string → result (string * string * string)).

Lemma rep_ok_registries t x R : rep_ok t x → tab_ok gr_ID same_registry (λ _, True) R →
  (∀ i, is_Some (rows (r_registries x) !! i) → is_Some (rows R !! i)) → rep_ok t (set_registries R x).
Proof.
  intros [Ht Hr Hp Ha] HR Hm. split; [done|done| |done]. eapply tab_ok_mono; [exact Hp|]. intros i q _. by apply refers_mono.
Qed.

Lemma reg_Create_ok random r t : keeps (rep_ok t) (reg_Create cfg AES random r).
Proof.
  unfold reg_Create, reg_dao.Create. keeps_auto. apply keeps_stmt. intros x Hx. case_decide as Hs; [|done]. simpl.
  apply rep_ok_registries; [done| |].
  - by apply (tab_ok_add _ _ _ (λ y, gr_Name y = gr_Name a)); [apply Hx|..].
  - intros i Hi. simpl. destruct (decide (i = next (r_registries x))) as [->|]; [by rewrite lookup_insert_eq|by rewrite lookup_insert_ne].
Qed.

Lemma reg_Update_ok random r b t : keeps (rep_ok t) (reg_Update cfg AES random r b).
Proof.
  unfold reg_Update, reg_dao.Update. apply keeps_bind; [apply keeps_of_result|]. intros row. apply keeps_affect. intros x x' Hx.
  destruct (rows (r_registries x) !! gr_ID row) as [y|] eqn:Ey; [|done]. case_decide as Hs; [|done]. intros [= <-].
  pose proof (ok_registries _ _ Hx) as HR. destruct (tab_keys _ _ _ _ HR _ _ Ey) as [Hk _].
  set (r' := if b then _ else _) in *. assert (gr_ID r' = gr_ID row) as Hid by by unfold r'; destruct b.
  apply rep_ok_registries; [done| |].
  - apply (tab_ok_put_fresh _ _ _ (λ z, gr_Name z = gr_Name r' ∧ gr_ID z ≠ gr_ID row) _ y); [done..| |done].
    intros z Hz Hn. by split.
  - intros i Hi. simpl. destruct (decide (i = gr_ID row)) as [->|]; [by rewrite lookup_insert_eq|by rewrite lookup_insert_ne].
Qed.

Lemma count_none (P : PolicyRow → Prop) `{!∀ p, Decision (P p)} (T : table PolicyRow) :
  (0 <? Z.of_nat (length (select P T))) = false → select P T = [].
Proof. intros Hn. apply Z.ltb_ge in Hn. destruct (select P T); [done|simpl in Hn; lia]. Qed.

Lemma reading_count (P : PolicyRow → Prop) `{!∀ p, Decision (P p)} :
  reading (policy_Count P) (λ x n, n = Z.of_nat (length (select P (r_policies x)))).
Proof. eapply reading_conseq; [eapply reading_skip; [by intros ? ? ? [-> _]%FromContext_cases|intros ?; apply reading_query]|]. by intros x n [= ->]. Qed.

(** A registry is deleted only when no policy refers to it. *)
Lemma registry_Delete_ok id t : keeps (rep_ok t) (registry_Delete id).
Proof.
  apply spec_exact. intros x Hx. unfold registry_Delete. eapply spec_read_bind; [apply reading_count|done|]. intros n ->.
  spec_if; [by apply spec_fail; intros y ->|]. rename Heqb into H1. apply count_none in H1.
  eapply spec_read_bind; [apply reading_count|done|]. intros n ->.
  spec_if; [by apply spec_fail; intros y ->|]. rename Heqb into H2. apply count_none in H2.
  eapply spec_bind; [apply (spec_reads_E (λ y, y = x)); [|by intros y ->]|].
  { intros w r w' H. apply bind_cases in H as [(e & H & ->)|([] & w1 & H1' & H)].
    - by apply FromContext_cases in H as [-> _].
    - apply FromContext_cases in H1' as [-> _]. by apply query_cases in H as [-> _]. }
  intros n. spec_if; [by apply spec_fail; intros y ->|]. apply spec_affect; [|by intros y ->].
  intros y y' ->. destruct (rows (r_registries x) !! id) eqn:Er; [|done]. intros [= <-].
  destruct Hx as [Ht Hr Hp Ha]. split; [done|by apply tab_ok_del| |done]. cbn. eapply tab_ok_mono; [exact Hp|].
  rewrite select_nil in H1, H2. intros i q Hq (Hz & Hs & Hd). split; [done|]. unfold known. cbn.
  split; intros Hne; rewrite lookup_delete_ne; auto; intros E; [by apply (H1 _ _ Hq)|by apply (H2 _ _ Hq)].
Qed.

Lemma health_round_ok random factories t : keeps (rep_ok t) (health_round cfg AES random factories).
Proof.
  unfold health_round, reg_List, reg_dao.List_. apply keeps_bind; [by keeps_auto|]. intros [l|e]; [|apply keeps_ret].
  induction l as [|r l IH]; cbn [check_all]; [apply keeps_ret|].
  apply keeps_bind; [|by intros []]. unfold check_health. pose proof reg_Update_ok. by keeps_auto.
Qed.

(** ** Requests *)

(** The requests of a history, each in its transaction, and the rounds of the
    health check; what a factory builds and the randomness are those of the moment. *)
Inductive rep_op :=
| OpCreatePolicy (p : Policy)
| OpUpdatePolicy (p : Policy)
| OpDeletePolicy (id : Z)
| OpCreateRegistry (factories : gmap string (Registry → result Adapter)) (random : result (list ascii)) (r : Registry)
| OpUpdateRegistry (factories : gmap string (Registry → result Adapter)) (random : result (list ascii)) (r : Registry)
| OpDeleteRegistry (id : Z)
| OpHealth (factories : gmap string (Registry → result Adapter)) (random : result (list ascii)).

Definition rep_run (o : rep_op) : MR unit :=
  match o with
  | OpCreatePolicy p => WithTransaction (_ ← CreatePolicy cfg AES valid_namespace valid_cron marshal_filters marshal_trigger js object_of callbacks p; mret tt)
  | OpUpdatePolicy p => WithTransaction (UpdatePolicy cfg AES valid_namespace valid_cron marshal_filters marshal_trigger js object_of callbacks polls env p)
  | OpDeletePolicy id => WithTransaction (DeletePolicy js polls env id)
  | OpCreateRegistry factories random r => WithTransaction (on_rest (_ ← registry_Create cfg AES random factories url_Parse r; mret tt))
  | OpUpdateRegistry factories random r => WithTransaction (on_rest (registry_Update cfg AES random factories url_Parse r))
  | OpDeleteRegistry id => WithTransaction (on_rest (registry_Delete id))
  | OpHealth factories random => on_rest (health_round cfg AES random factories)
  end.

Fixpoint rep_history (l : list rep_op) : MR unit :=
  match l with
  | [] => mret tt
  | o :: l => _ ← try (rep_run o); rep_history l
  end.

(** The JSON of the triggers of a history is read as it was written. *)
Definition op_json (o : rep_op) : Prop :=
  match o with
  | OpCreatePolicy p | OpUpdatePolicy p => ∀ t, po_Trigger p = Some t → trigger_json unmarshal_trigger marshal_trigger t
  | _ => True
  end.

Definition db_ok (d : RepDB) : Prop := rep_ok (schedules d) (rest d).

Lemma in_transaction {A} (m : MR A) : (∀ t x, rep_ok t x → spec (sched_of t x) m (λ _, db_ok) (λ _, True)) →
  keeps db_ok (WithTransaction m).
Proof.
  intros Hm. eapply spec_WithTransaction; [|done]. apply spec_exact. intros d Hd. eapply spec_pre; [by apply Hm|]. by intros y ->.
Qed.

Lemma on_rest_ok {A} (m : M RepRest A) : (∀ t, keeps (rep_ok t) m) → keeps db_ok (on_rest m).
Proof. intros Hm. apply spec_zoom. intros d Hd. eapply spec_conseq; [apply (Hm (schedules d))|by intros x ->|done|done]. Qed.

Lemma rep_run_ok o : op_json o → keeps db_ok (rep_run o).
Proof.
  intros Hj. destruct o; cbn [rep_run].
  - apply in_transaction. intros t x Hx. eapply spec_bind; [by apply CreatePolicy_ok|]. intros ?. by apply spec_ret.
  - apply in_transaction. intros t x Hx. by apply UpdatePolicy_ok.
  - apply in_transaction. intros t x Hx. by apply DeletePolicy_ok.
  - apply keeps_WithTransaction, on_rest_ok. intros t. unfold registry_Create. pose proof reg_Create_ok. by keeps_auto.
  - apply keeps_WithTransaction, on_rest_ok. intros t. unfold registry_Update. pose proof reg_Update_ok. by keeps_auto.
  - apply keeps_WithTransaction, on_rest_ok. apply registry_Delete_ok.
  - apply on_rest_ok, health_round_ok.
Qed.

Lemma rep_history_ok l : Forall op_json l → keeps db_ok (rep_history l).
Proof.
  induction 1 as [|o l Ho Hl IH]; cbn [rep_history]; [apply keeps_ret|].
  apply keeps_bind; [by apply keeps_try, rep_run_ok|by intros ?].
Qed.
End invariant.

(** C4 (replication state is coherent): over any history of requests on policies
    and registries and of health checks, with any faults, every enabled policy
    that is scheduled has exactly one schedule, at its cron expression and for the
    callback on it, no other schedule of replication exists, and each policy
    has exactly one foreign registry, which exists. *)
Theorem replication_coherent unmarshal_trigger valid_namespace valid_cron marshal_filters marshal_trigger js object_of callbacks
    polls env cfg AES url_Parse l w r w' :
  Forall (op_json unmarshal_trigger marshal_trigger) l → db_ok unmarshal_trigger (db w) →
  rep_history valid_namespace valid_cron marshal_filters marshal_trigger js object_of callbacks polls env cfg AES url_Parse l w = (r, w') →
  db_ok unmarshal_trigger (db w').
Proof. intros Hl Hw H. pose proof (rep_history_ok unmarshal_trigger valid_namespace valid_cron marshal_filters marshal_trigger js
  object_of callbacks polls env cfg AES url_Parse l Hl w r w' Hw H) as Hok. by destruct r. Qed.

(** ** A small deployment *)

Definition toy_js : JsClient := mkJsClient (λ _ _, mret "job"%string) (λ _, mret tt).
Definition toy_config : Config := mkConfig (Ok "1234567890123456"%string) "http://core" "http://core/token" "secret" false.
Definition toy_aes (_ _ : list ascii) : list ascii := repeat "a"%char 16.
Definition toy_adapter : Adapter :=
  mkAdapter (Err (PlainError "none")) (Ok Healthy) None (λ l, Ok l).
Definition toy_factories : gmap string (Registry → result Adapter) := {["harbor"%string := λ _, Ok toy_adapter]}.
Definition toy_url (_ : string) : result (string * string * string) := Ok ("https"%string, "mirror"%string, EmptyString).
Definition mirror : Registry :=
  mkRegistry 0 "mirror" EmptyString "harbor" "https://mirror" EmptyString (Some (mkCredential EmptyString "robot" "s3cret")) false EmptyString.
Definition mirrored (cron : string) : Policy :=
  mkPolicy 1 "nightly" EmptyString "admin" None (Some (bare_registry 1 EmptyString EmptyString EmptyString)) "library" 1 []
    (Some (mkTrigger TriggerTypeScheduled (Some cron))) false true true 0 false.

(** A trigger is written as its type and its cron expression. *)
Definition toy_marshal (t : Trigger) : string := default EmptyString (tr_Cron t).
Definition toy_unmarshal (s : string) : result TriggerItem := Ok (mkTriggerItem TriggerTypeScheduled (Some s) EmptyString None).

Definition toy_history : list rep_op :=
  [OpCreateRegistry toy_factories (Ok (repeat "i"%char 16)) mirror; OpCreatePolicy (mirrored "0 0 0 * * *");
   OpUpdatePolicy (mirrored "0 0 1 * * *"); OpDeleteRegistry 1; OpDeletePolicy 0; OpHealth toy_factories (Ok [])].
Definition toy_run : MR unit :=
  rep_history (λ _, true) (λ _, true) (λ _, "[]"%string) toy_marshal toy_js (λ s, s) {[callbackFuncName := λ _, mret tt]} 1 (mret tt)
    toy_config toy_aes toy_url toy_history.
Definition empty_deployment : RepDB := mkSchedDB (mkTaskDB ∅ ∅ 0 0 1) empty_table (mkRest empty_table empty_table []).

Lemma replication_coherent_witness :
  ∃ w', toy_run (mkWorld empty_deployment true []) = (Ok tt, w') ∧
    (sd_VendorID <$> (map_to_list (rows (schedules (db w')))).*2) = [1] ∧ db_ok toy_unmarshal (db w').
Proof.
  eexists. split; [vm_compute; reflexivity|]. split; [vm_compute; reflexivity|].
  eapply (replication_coherent toy_unmarshal (λ _, true) (λ _, true) (λ _, "[]"%string) toy_marshal toy_js (λ s, s)
    {[callbackFuncName := λ _, mret tt]} 1 (mret tt) toy_config toy_aes toy_url toy_history (mkWorld empty_deployment true [])).
  - unfold toy_history. repeat apply Forall_cons_2; try apply Forall_nil_2; try exact I; intros t [= <-]; (split; [discriminate|reflexivity]).
  - split; [apply empty_ok..|]. intros id c. unfold has_schedule, wants_schedule. cbn. setoid_rewrite lookup_empty. naive_solver.
  - vm_compute. reflexivity.
Defined.

(** ** Registries are read as they were stored *)

(** Credentials without an access key are dropped, those without a type are basic. *)
Definition kept_credential (c : option Credential) : Credential :=
  match c with
  | Some c => if cr_AccessKey c == EmptyString then mkCredential EmptyString EmptyString EmptyString
              else mkCredential (if cr_Type c == EmptyString then CredentialTypeBasic else cr_Type c) (cr_AccessKey c) (cr_AccessSecret c)
  | None => mkCredential EmptyString EmptyString EmptyString
  end.
Definition kept_registry (id : Z) (r : Registry) : Registry :=
  mkRegistry id (rg_Name r) (rg_Description r) (rg_Type r) (rg_URL r) EmptyString (Some (kept_credential (rg_Credential r)))
    (rg_Insecure r) (rg_Status r).
Definition secret_of (r : Registry) : string := default EmptyString (cr_AccessSecret <$> rg_Credential r).

Section stored.
Context (cfg : Config) (AES : list ascii → list ascii → list ascii) (iv : list ascii) (key : string).
Context (Hcfg : cf_SecretKey cfg = Ok key) (HAES : ∀ k b, length (AES k b) = BlockSize) (Hiv : length iv = BlockSize).
Context (Hkey : (length (bytes_of_string key) ∈ [16; 24; 32])%nat).

Lemma encrypt_kept s : (N.of_nat (String.length s) <= maxLength)%N →
  ∃ e, encrypt cfg AES (Ok iv) s = Ok e ∧ decrypt cfg AES e = Ok s.
Proof using Hcfg HAES Hiv Hkey.
  intros Hs. unfold encrypt, decrypt. case_bool_decide as He; [subst; by eexists|]. rewrite Hcfg.
  destruct (decrypt_encrypt AES iv s key HAES Hiv Hkey Hs) as (e & Henc & Hdec). exists e. split; [done|].
  rewrite bool_decide_false; [done|]. intros ->. unfold ReversibleEncrypt in Henc. destruct (NewCipher _ _); [|done]. by destruct (_ <? _)%N.
Qed.

Lemma dao_roundtrip r : (N.of_nat (String.length (secret_of r)) <= maxLength)%N →
  ∃ row, toDaoModel cfg AES (Ok iv) r = Ok row ∧ gr_Name row = rg_Name r ∧
    ∀ id, fromDaoModel cfg AES (reg_dao.with_id id row) = Ok (kept_registry id r).
Proof using Hcfg HAES Hiv Hkey.
  unfold toDaoModel, fromDaoModel, kept_registry, secret_of. destruct (rg_Credential r) as [c|]; cbn; [|by eexists].
  intros Hs. destruct (decide (cr_AccessKey c = EmptyString)) as [Ek|Ek].
  { rewrite !(bool_decide_true (cr_AccessKey c = EmptyString)) by done. by eexists. }
  rewrite !(bool_decide_false (cr_AccessKey c = EmptyString)) by done.
  destruct (encrypt_kept (cr_AccessSecret c) Hs) as (e & -> & He). eexists. split; [reflexivity|]. split; [done|]. intros id. cbn.
  rewrite bool_decide_false, He by done. by destruct (decide (cr_Type c = EmptyString)) as [->|Ht];
    [|rewrite !(bool_decide_false (cr_Type c = EmptyString)) by done; rewrite ?bool_decide_false by done].
Qed.
End stored.

(** C34 (what is kept of a registry): a registry with a fresh name is created and
    read back, without faults, with its name, description, type, URL, status and
    the flag for insecure connections.  A credential with an access key comes back
    with key and secret, the secret decrypted, and of type basic when none was
    given, whatever the block cipher and the vector, for a key of a length that AES
    takes and a secret of at most 64 MB.  Of a credential without an
    access key nothing is kept, the secret neither, and the URL of the token
    service is not kept. *)
Theorem registry_roundtrip cfg AES iv key r x :
  cf_SecretKey cfg = Ok key → (∀ k b, length (AES k b) = BlockSize) → length iv = BlockSize →
  (length (bytes_of_string key) ∈ [16; 24; 32])%nat → (N.of_nat (String.length (secret_of r)) <= maxLength)%N →
  0 <= seq (r_registries x) → select (λ y, gr_Name y = rg_Name r) (r_registries x) = [] →
  ∃ x' r', reg_Create cfg AES (Ok iv) r (mkWorld x true []) = (Ok (next (r_registries x)), mkWorld x' true []) ∧
    reg_Get cfg AES (next (r_registries x)) (mkWorld x' true []) = (Ok r', mkWorld x' true []) ∧
    rg_ID r' = next (r_registries x) ∧ rg_Name r' = rg_Name r ∧ rg_Description r' = rg_Description r ∧
    rg_Type r' = rg_Type r ∧ rg_URL r' = rg_URL r ∧ rg_Insecure r' = rg_Insecure r ∧ rg_Status r' = rg_Status r ∧
    rg_TokenServiceURL r' = EmptyString ∧
    match rg_Credential r with
    | Some c =>
        (cr_AccessKey c ≠ EmptyString →
           rg_Credential r' = Some (mkCredential (if cr_Type c == EmptyString then CredentialTypeBasic else cr_Type c)
                                      (cr_AccessKey c) (cr_AccessSecret c))) ∧
        (cr_AccessKey c = EmptyString → rg_Credential r' = Some (mkCredential EmptyString EmptyString EmptyString))
    | None => rg_Credential r' = Some (mkCredential EmptyString EmptyString EmptyString)
    end.
Proof.
  intros Hcfg HA Hiv Hkey Hs Hseq Hn. destruct (dao_roundtrip cfg AES iv key Hcfg HA Hiv Hkey r Hs) as (row & Hto & Hname & Hfrom).
  exists (set_registries (add_row (λ id, reg_dao.with_id id row) (r_registries x)) x), (kept_registry (next (r_registries x)) r).
  split; [|split; [|split_and!; [done..|]]].
  - unfold reg_Create, reg_dao.Create. rewrite Hto, bind_eq. cbn [of_result]. rewrite bind_eq, FromContext_ok by done.
    rewrite bind_eq. unfold try. rewrite stmt_nofault, Hname. by rewrite decide_True.
  - unfold reg_Get, reg_dao.Get. destruct (Z.eqb_spec (next (r_registries x)) 0) as [E|_]; [unfold next in E; lia|].
    rewrite bind_eq, Read_nofault. cbn. rewrite lookup_insert_eq. cbn. by rewrite Hfrom.
  - unfold kept_registry, kept_credential. destruct (rg_Credential r) as [c|]; [|done]. cbn [rg_Credential].
    split; intros E; [by rewrite (bool_decide_false (cr_AccessKey c = EmptyString))|by rewrite bool_decide_true].
Qed.

Lemma registry_roundtrip_witness :
  ∃ x' r', reg_Create toy_config toy_aes (Ok (repeat "i"%char 16)) mirror (mkWorld (rest empty_deployment) true []) = (Ok 1, mkWorld x' true []) ∧
    reg_Get toy_config toy_aes 1 (mkWorld x' true []) = (Ok r', mkWorld x' true []) ∧
    rg_URL r' = rg_URL mirror ∧ rg_Credential r' = Some (mkCredential CredentialTypeBasic "robot" "s3cret").
Proof.
  destruct (registry_roundtrip toy_config toy_aes (repeat "i"%char 16) "1234567890123456" mirror (rest empty_deployment))
    as (x' & r' & Hc & Hg & _ & _ & _ & _ & Hu & _ & _ & _ & Hk & _); try reflexivity; [apply list_elem_of_here|vm_compute; discriminate..|].
  exists x', r'. split_and!; [exact Hc|exact Hg|exact Hu|by apply Hk].
Defined.

(** A secret without an access key is not stored, without an error. *)
Example keyless_secret_dropped :
  let r := mkRegistry 0 "mirror" EmptyString "harbor" "https://mirror" EmptyString (Some (mkCredential "oauth" EmptyString "s3cret")) false EmptyString in
  ∃ x', reg_Create toy_config toy_aes (Ok (repeat "i"%char 16)) r (mkWorld (rest empty_deployment) true []) = (Ok 1, mkWorld x' true []) ∧
    fst (reg_Get toy_config toy_aes 1 (mkWorld x' true [])) =
      Ok (mkRegistry 1 "mirror" EmptyString "harbor" "https://mirror" EmptyString (Some (mkCredential EmptyString EmptyString EmptyString)) false EmptyString).
Proof. eexists. split; vm_compute; reflexivity. Qed.
