(* ===== verification/TokenService.v ===== *)
(** * The token service: [src/core/service/token], [src/pkg/token] and the
    generator of [src/server/middleware/security/v2_token.go]

    A client of the registry is sent to the token service, which issues a signed
    token with what the caller may do; the token then is the caller's security
    context.  Reading of key files, signing and parsing of tokens belong to the
    operating system and to packages outside the repository: they are the class
    [Jwt]. *)

From S2P Require Import Prelude GoErrors GoStrings Orm Table Hoare ProjectStore.
From S2P Require Rbac Security RobotStore.
From Stdlib Require Import Ascii.
Open Scope Z_scope.
Local Open Scope harbor_scope.

Notation ResourceActions := Security.ResourceActions.
Notation mkRA := Security.mkRA.
Notation ra_Type := Security.ra_Type.
Notation ra_Name := Security.ra_Name.
Notation ra_Actions := Security.ra_Actions.

(** What the service asks of the security context of the caller. *)
Record Caller := mkCaller { ca_Ctx : RobotStore.SecCtx; ca_IsSysAdmin : bool }.

Definition Registry : string := "harbor-registry".
Definition Notary : string := "harbor-notary".

(** ** [authutils.go] *)

(** [items[1:length-1]] joined, and the last item. *)
Definition resource_actions (s : string) : ResourceActions :=
  match Split s ":"%char with
  | [] => mkRA EmptyString EmptyString []
  | [type] => mkRA type EmptyString []
  | [type; name] => mkRA type name []
  | type :: items =>
      let last_item := default EmptyString (last items) in
      mkRA type (join_with ":" (take (length items - 1) items))
        (if last_item == EmptyString then [] else Split last_item ","%char)
  end.

Definition GetResourceActions (scopes : list string) : list ResourceActions :=
  map resource_actions (filter (λ s, s ≠ EmptyString) scopes).

Definition set_actions (l : list string) (a : ResourceActions) : ResourceActions := mkRA (ra_Type a) (ra_Name a) l.

(** ** [creator.go] *)

(** [strings.SplitN(s, sep, 2)] *)
Fixpoint SplitN2 (s : string) (sep : ascii) : list string :=
  match s with
  | EmptyString => [EmptyString]
  | String c s =>
      if bool_decide (c = sep) then [EmptyString; s]
      else match SplitN2 s sep with
           | x :: l => String c x :: l
           | [] => [String c EmptyString]
           end
  end.

Record image := mkImage { im_namespace : string; im_repo : string; im_tag : string }.

Definition parseImg (s : string) : result image :=
  match SplitN2 s "/"%char with
  | namespace :: rest :: _ =>
      match SplitN2 rest ":"%char with
      | repo :: tag :: _ => Ok (mkImage namespace repo tag)
      | repo :: _ => Ok (mkImage namespace repo EmptyString)
      | [] => Ok (mkImage namespace EmptyString EmptyString)
      end
  | _ => Err (PlainError ("unable to parse image from string: " +:+ s))
  end.

Inductive imageParser := basicParser | endpointParser (endpoint : string).

Definition parse (p : imageParser) (s : string) : result image :=
  match p with
  | basicParser => parseImg s
  | endpointParser endpoint =>
      match SplitN2 s "/"%char with
      | host :: rest :: _ =>
          if host == endpoint then parseImg rest
          else Err (PlainError ("mismatch endpoint from string: " +:+ s +:+ ", expected endpoint: " +:+ endpoint))
      | _ => Err (PlainError ("unable to parse image from string: " +:+ s))
      end
  end.

Inductive accessFilter := registryFilter | repositoryFilter (parser : imageParser).

Definition actionScopeMap : list (string * string) :=
  [(Rbac.ActionPull, "pull"%string); (Rbac.ActionPush, "push"%string); (Rbac.ActionDelete, "delete"%string);
   (Rbac.ActionScannerPull, "scanner-pull"%string)].

Section service.
Context (caller : option Caller).

(** Without a security context [sCtx] is nil. *)
Definition caller_can (action resource : string) : bool :=
  match caller with Some c => RobotStore.Can (ca_Ctx c) action resource | None => false end.

Definition resourceScopes (rc : string) : gset string :=
  let res : gset string := list_to_set (map snd (filter (λ x, caller_can (fst x) rc = true) actionScopeMap)) in
  if bool_decide ("push"%string ∈ res) && bool_decide ("pull"%string ∈ res) && bool_decide ("delete"%string ∈ res)
  then {["*"%string]} ∪ res else res.

(** The filter leaves the access it is given changed; the order of the actions is
    that of a Go map. *)
Definition filter_ (f : accessFilter) (a : ResourceActions) : M ProjDB ResourceActions :=
  match f with
  | registryFilter =>
      if negb (ra_Name a == "catalog")
      then fail (PlainError ("unable to handle, type: " +:+ ra_Type a +:+ ", name: " +:+ ra_Name a))
      else mret (if match caller with Some c => ca_IsSysAdmin c | None => false end then a else set_actions [] a)
  | repositoryFilter parser =>
      img ← of_result (parse parser (ra_Name a));
      r ← try (project_ctl.GetByName (im_namespace img) default_options);
      match r with
      | Err e => if IsNotFoundErr e then mret (set_actions [] a) else fail e
      | Ok p =>
          let resource := Rbac.ns_Resource (Rbac.ProjectNS (j_ProjectID (pv_Project p))) [Rbac.ResourceRepository] in
          mret (set_actions (elements (resourceScopes resource)) a)
      end
  end.

Fixpoint filter_each (filters : gmap string accessFilter) (access : list ResourceActions) : M ProjDB (list ResourceActions) :=
  match access with
  | [] => mret []
  | a :: access =>
      a' ← match filters !! ra_Type a with
           | None => mret (set_actions [] a)
           | Some f => r ← try (filter_ f a); mret (match r with Ok a' => a' | Err _ => set_actions [] a end)
           end;
      l ← filter_each filters access;
      mret (a' :: l)
  end.

Definition filterAccess (access : list ResourceActions) (filters : gmap string accessFilter) : M ProjDB (list ResourceActions) :=
  match caller with
  | None => fail (PlainError "failed to  get security context from request")
  | Some _ => filter_each filters access
  end.

Definition registryFilterMap : gmap string accessFilter :=
  <["repository"%string := repositoryFilter basicParser]> {["registry"%string := registryFilter]}.
Definition notaryFilterMap (ext : string) : gmap string accessFilter := {["repository"%string := repositoryFilter (endpointParser ext)]}.

(** [InitCreators]: services with their filters. *)
Definition creatorMap (ExtURL : result string) : gmap string (gmap string accessFilter) :=
  <[Registry := registryFilterMap]>
    match ExtURL with Err _ => ∅ | Ok ext => {[Notary := notaryFilterMap ext]} end.

Definition parseScopes (scope : list string) : list string := concat (map (λ s, Split s " "%char) scope).
End service.

(** ** Tokens *)

(** [v2.Claims] *)
Record Claims := mkClaims {
  cl_Issuer : string; cl_Subject : string; cl_Audience : list string; cl_ExpiresAt : Z; cl_NotBefore : Z; cl_IssuedAt : Z;
  cl_ID : string; cl_Access : list ResourceActions }.

Definition Issuer : string := "harbor-token-issuer".
Definition defaultIssuer : string := "harbor-token-defaultIssuer".
Definition RS256 : string := "RS256".

(** Keys, and the functions of the JWT package: the validity of registered claims at a
    time, signing with a method, and parsing, which asks for the key of the method
    of the token and checks the claims with the function it is given. *)
Class Jwt := {
  PrivateKey : Type;
  PublicKey : Type;
  public_part : PrivateKey → PublicKey;
  exponent : PublicKey → Z;
  modulus : PublicKey → Z;
  ParseRSAPrivateKeyFromPEM : string → result PrivateKey;
  ParseRSAPublicKeyFromPEM : string → result PublicKey;
  KeyID : string → result string;
  registered_Valid : Z → Claims → result unit;
  is_rsa : string → bool;
  SignedString : string → string → PrivateKey → Claims → result string;
  ParseWithClaims : string → (string → result PublicKey) → (Claims → result unit) → result Claims;
  VerifyAudience : Claims → string → bool;
}.

(** [Options] *)
Record Options := mkOptions { op_SignMethod : string; op_PublicKey : string; op_PrivateKey : string; op_Issuer : string }.

Section tokens.
Context {J : Jwt}.

(** What [GetKey] returns: [interface{}]. *)
Inductive key := PrivKey (k : PrivateKey) | PubKey (k : PublicKey).

Definition optional {A} (s : string) (parse_ : string → result A) : result (option A) :=
  if s == EmptyString then Ok None else match parse_ s with Ok k => Ok (Some k) | Err e => Err e end.

Definition GetKey (o : Options) : result key :=
  if negb (is_rsa (op_SignMethod o)) then Err (PlainError ("unsupported sign method, " +:+ op_SignMethod o))
  else
    match optional (op_PrivateKey o) ParseRSAPrivateKeyFromPEM with
    | Err e => Err e
    | Ok private =>
        match optional (op_PublicKey o) ParseRSAPublicKeyFromPEM with
        | Err e => Err e
        | Ok public =>
            match private, public with
            | None, Some p => Ok (PubKey p)
            | None, None => Err (PlainError "key is provided")
            | Some k, Some p =>
                if negb (exponent p =? exponent (public_part k)) && negb (modulus p =? modulus (public_part k))
                then Err (PlainError "the public key and private key are not match")
                else Ok (PrivKey k)
            | Some k, None => Ok (PrivKey k)
            end
        end
    end.

(** [NewOptions] with what reading the file gave. *)
Definition NewOptions (file : result string) (sm iss : string) : result Options :=
  match file with Err e => Err e | Ok pk => Ok (mkOptions sm EmptyString pk iss) end.

Definition Claims_Valid (now : Z) (c : Claims) : result unit :=
  match registered_Valid now c with
  | Err e => Err e
  | Ok _ => if cl_Issuer c == Issuer then Ok tt else Err (PlainError ("invalid token issuer: " +:+ cl_Issuer c))
  end.

(** [New] gives the claims back when they are valid. *)
Definition token_New (now : Z) (c : Claims) : result Claims :=
  match Claims_Valid now c with Err e => Err e | Ok _ => Ok c end.

(** [Raw], after the key identifier [kid] was put into the header. *)
Definition Raw (o : Options) (kid : string) (c : Claims) : result string :=
  match GetKey o with
  | Err _ => Ok EmptyString
  | Ok (PubKey _) => Err (PlainError "key is of invalid type")
  | Ok (PrivKey k) => SignedString (op_SignMethod o) kid k c
  end.

Definition Parse (o : Options) (raw : string) (valid : Claims → result unit) : result Claims :=
  match GetKey o with
  | Err e => Err e
  | Ok k =>
      ParseWithClaims raw
        (λ alg, if negb (alg == op_SignMethod o) then Err (PlainError "invalid signing method")
                else match k with PrivKey k => Ok (public_part k) | PubKey p => Ok p end)
        valid
  end.

(** [models.Token] *)
Record Token := mkToken { tk_Token : string; tk_ExpiresIn : Z; tk_IssuedAt : Z }.

(** What a request finds: the file of the key, the lifetime of tokens in minutes, the
    time and a random identifier. *)
Record Env := mkEnv { en_KeyFile : result string; en_Expiration : Z; en_Now : Z; en_Random : string }.

Definition claims_for (e : Env) (username service : string) (access : list ResourceActions) : Claims :=
  mkClaims Issuer username [service] (en_Now e + en_Expiration e * 60) (en_Now e) (en_Now e) (en_Random e) access.

Definition MakeToken (e : Env) (username service : string) (access : list ResourceActions) : result Token :=
  match NewOptions (en_KeyFile e) RS256 Issuer with
  | Err er => Err er
  | Ok options =>
      match token_New (en_Now e) (claims_for e username service access) with
      | Err er => Err er
      | Ok tok =>
          match KeyID (op_PrivateKey options) with
          | Err er => Err er
          | Ok kid =>
              match Raw options kid tok with
              | Err er => Err er
              | Ok raw => Ok (mkToken raw (en_Expiration e * 60) (en_Now e))
              end
          end
      end
  end.

(** [generalCreator.Create]; [unauthorizedError] is an error of its own type. *)
Definition unauthorizedError : error := PlainError "Unauthorized".
Definition is_unauthorized (e : error) : bool := match e with PlainError msg => msg == "Unauthorized" | _ => false end.

Definition Create (e : Env) (caller : option Caller) (service : string) (filterMap : gmap string accessFilter) (scope : list string)
  : M ProjDB Token :=
  let scopes := parseScopes scope in
  match caller with
  | None => fail (PlainError "failed to  get security context from request")
  | Some c =>
      if negb (RobotStore.IsAuthenticated (ca_Ctx c)) && bool_decide (scopes = []) then fail unauthorizedError
      else
        access ← filterAccess caller (GetResourceActions scopes) filterMap;
        of_result (MakeToken e (RobotStore.GetUsername (ca_Ctx c)) service access)
  end.

(** [Handler.Get]: the status of the reply, with the token when it is one. *)
Definition token_Get (e : Env) (ExtURL : result string) (caller : option Caller) (service : string) (scope : list string)
  : M ProjDB (Z * option Token) :=
  match creatorMap ExtURL !! service with
  | None => mret (400, None)
  | Some filterMap =>
      r ← try (Create e caller service filterMap scope);
      mret match r with
           | Ok t => (200, Some t)
           | Err er => if is_unauthorized er then (401, None) else (500, None)
           end
  end.

(** ** [v2_token.go] *)

(** The parts around the first occurrence. *)
Fixpoint cut_at (sep s : string) : option (string * string) :=
  if HasPrefix s sep then Some (EmptyString, drop_chars (String.length sep) s)
  else match s with
       | EmptyString => None
       | String c s => match cut_at sep s with Some (a, b) => Some (String c a, b) | None => None end
       end.

(** [bearerToken]: [strings.Split(h, "Bearer")[1]] *)
Definition bearerToken (authorization : string) : string :=
  match cut_at "Bearer" authorization with
  | None => EmptyString
  | Some (_, rest) => TrimSpace (match cut_at "Bearer" rest with Some (a, _) => a | None => rest end)
  end.

Definition v2TokenClaims_Valid (now : Z) (c : Claims) : result unit :=
  match Claims_Valid now c with
  | Err e => Err e
  | Ok _ => if VerifyAudience c Registry then Ok tt else Err (PlainError "invalid token audience")
  end.

(** [None] when the request carries no valid token for the registry. *)
Definition v2Token_Generate (e : Env) (path authorization : string) : option Security.TokenContext :=
  if negb (HasPrefix path "/v2") then None
  else
    let tokenStr := bearerToken authorization in
    if tokenStr == EmptyString then None
    else match NewOptions (en_KeyFile e) RS256 defaultIssuer with
         | Err _ => None
         | Ok opt =>
             match Parse opt tokenStr (v2TokenClaims_Valid (en_Now e)) with
             | Err _ => None
             | Ok claims =>
                 match v2TokenClaims_Valid (en_Now e) claims with
                 | Err _ => None
                 | Ok _ => Some (Security.token_New (cl_Subject claims) (cl_Access claims))
                 end
             end
         end.
End tokens.
