(* ===== verification/TokenSpec.v ===== *)
(** * Correctness of the token service

    A client that is refused by the registry asks the token service with the scope of
    the challenge and repeats its request with the token.  The theorem follows the
    whole exchange. *)

From S2P Require Import Prelude GoErrors GoStrings Orm Table Hoare ProjectStore ScanCtl TokenService.
From S2P Require Rbac Security RobotStore Pull PullSpec.
From Stdlib Require Import Ascii.
Open Scope Z_scope.
Local Open Scope harbor_scope.

(** ** Scopes *)

(** Names of repositories have neither blanks nor colons. *)
Definition plain_name (s : string) : Prop := no_char " "%char s = true ∧ no_char ":"%char s = true.

(** The actions of a challenge. *)
Definition scope_actions (action : string) : string :=
  if action == Rbac.ActionPull then "pull"%string else if action == Rbac.ActionPush then "pull,push"%string else "delete"%string.

Definition known_action (action : string) : Prop := action ∈ [Rbac.ActionPull; Rbac.ActionPush; Rbac.ActionDelete].

Lemma scopeStr_repository name action : known_action action →
  Pull.scopeStr (Pull.mkAccess Pull.repository name action) = "repository:" +:+ name +:+ ":" +:+ scope_actions action.
Proof. intros H. unfold known_action in H. repeat (apply elem_of_cons in H as [->|H]; [reflexivity|]). by apply not_elem_of_nil in H. Qed.

Lemma scope_actions_plain action : plain_name (scope_actions action) ∧ scope_actions action ≠ EmptyString.
Proof. unfold scope_actions. destruct (action == _); [done|]. by destruct (action == _). Qed.

(** The service reads the access that the challenge names. *)
Lemma resource_actions_scope name action : plain_name name → known_action action →
  resource_actions (Pull.scopeStr (Pull.mkAccess Pull.repository name action)) =
  mkRA "repository" name (Split (scope_actions action) ","%char).
Proof.
  intros [_ Hn] Ha. rewrite scopeStr_repository by done. destruct (scope_actions_plain action) as [[_ Hc] Hne].
  unfold resource_actions. change ("repository:" +:+ name +:+ ":" +:+ scope_actions action)
    with ("repository"%string +:+ String ":" (name +:+ String ":" (scope_actions action))).
  rewrite !Split_app, Split_one by done. cbn. by rewrite bool_decide_false.
Qed.

(** Challenges list their scopes with blanks between them. *)
Fixpoint tail_scopes (l : list Pull.access) : string :=
  match l with [] => EmptyString | a :: l => String " " (Pull.scopeStr a +:+ tail_scopes l) end.

Lemma scopes_tail l : ∀ s, s ≠ EmptyString → Pull.scopes l s = s +:+ tail_scopes l.
Proof.
  induction l as [|a l IH]; intros s Hs; cbn [Pull.scopes tail_scopes].
  { by rewrite append_nil. }
  rewrite bool_decide_false by done. rewrite IH by by destruct s.
  rewrite <- !append_assoc. done.
Qed.

Lemma Split_tail l : ∀ s, no_char " "%char s = true → Forall (λ a, no_char " "%char (Pull.scopeStr a) = true) l →
  Split (s +:+ tail_scopes l) " "%char = s :: map Pull.scopeStr l.
Proof.
  induction l as [|a l IH]; intros s Hs Hl; cbn [tail_scopes map].
  - rewrite append_nil. by apply Split_one.
  - apply Forall_cons in Hl as [Ha Hl]. rewrite Split_app by done. by rewrite IH.
Qed.

(** An access on a repository with a known action. *)
Definition repo_access (a : Pull.access) : Prop :=
  Pull.ac_target a = Pull.repository ∧ plain_name (Pull.ac_name a) ∧ known_action (Pull.ac_action a).

Lemma repo_access_scope a : repo_access a →
  no_char " "%char (Pull.scopeStr a) = true ∧ Pull.scopeStr a ≠ EmptyString ∧
  resource_actions (Pull.scopeStr a) = mkRA "repository" (Pull.ac_name a) (Split (scope_actions (Pull.ac_action a)) ","%char).
Proof.
  destruct a as [t n x]. intros (Ht & Hn & Ha). cbn in *. subst t. rewrite resource_actions_scope by done.
  rewrite scopeStr_repository by done. split_and!; [|done|done].
  rewrite !no_char_app. destruct Hn as [-> _]. by destruct (scope_actions_plain x) as [[-> _] _].
Qed.

(** The accesses of a challenge, as the service reads them. *)
Lemma challenge_scopes al : al ≠ [] → Forall repo_access al →
  GetResourceActions (parseScopes [Pull.scopes al EmptyString]) =
  map (λ a, mkRA "repository" (Pull.ac_name a) (Split (scope_actions (Pull.ac_action a)) ","%char)) al.
Proof.
  intros Hne Hal. assert (Forall repo_access al) as Hall by done.
  assert (Split (Pull.scopes al EmptyString) " "%char = map Pull.scopeStr al) as Hsplit.
  2:{ unfold parseScopes, GetResourceActions. cbn [map concat]. rewrite app_nil_r, Hsplit. clear -Hall.
      induction Hall as [|b l Hb Hl IH]; [done|]. cbn [map]. destruct (repo_access_scope b Hb) as (_ & Hn & Hr).
      rewrite filter_cons_True by exact Hn. cbn [map]. rewrite Hr. f_equal. exact IH. }
  destruct al as [|a al]; [done|].
  apply Forall_cons in Hal as [Ha Hal]. destruct (repo_access_scope a Ha) as (Hs & Hnz & _).
  change (Pull.scopes (a :: al) EmptyString) with (Pull.scopes al (Pull.scopeStr a)). rewrite scopes_tail by exact Hnz.
  apply Split_tail; [done|]. eapply Forall_impl; [exact Hal|]. intros b Hb. by destruct (repo_access_scope b Hb).
Qed.

(** ** What the filters grant *)

Definition project_of (name : string) : string := default EmptyString (head (Split name "/"%char)).

Lemma SplitN2_spec sep : ∀ s, ∃ x, head (Split s sep) = Some x ∧ head (SplitN2 s sep) = Some x ∧
  (length (SplitN2 s sep) = if no_char sep s then 1 else 2)%nat.
Proof.
  induction s as [|c s (x & H1 & H2 & H3)]; [by exists EmptyString|]. cbn [Split SplitN2]. unfold no_char in *. cbn [string_forall].
  case_bool_decide as Hc; [by exists EmptyString|]. destruct (Split s sep) as [|y l]; [done|]. destruct (SplitN2 s sep) as [|z k]; [done|].
  cbn in *. exists (String c x). split_and!; [congruence..|done].
Qed.

(** Names with a slash have an image in the project of their first component. *)
Lemma parseImg_project name : no_char "/"%char name = false → ∃ img, parseImg name = Ok img ∧ im_namespace img = project_of name.
Proof.
  intros Hn. unfold parseImg, project_of. destruct (SplitN2_spec "/"%char name) as (x & -> & H2 & H3). rewrite Hn in H3.
  destruct (SplitN2 name "/"%char) as [|y [|z l]]; try done. injection H2 as ->.
  destruct (SplitN2 z ":"%char) as [|a [|b k]]; eexists; (split; [reflexivity|done]).
Qed.

(** The live project of a name. *)
Definition live (d : ProjDB) (name : string) : option Project :=
  head (select (λ p, j_Name p = name ∧ j_Deleted p = false) (projects d)).

Lemma Get_live_quiet d name : name ≠ EmptyString → no_char " "%char name = true →
  match live d name with
  | Some p => ∃ v, project_ctl.Get (ByName name) default_options (mkWorld d true []) = (Ok v, mkWorld d true []) ∧ pv_Project v = p
  | None => ∃ e, project_ctl.Get (ByName name) default_options (mkWorld d true []) = (Err e, mkWorld d true []) ∧ IsNotFoundErr e = true
  end.
Proof.
  intros Hne Hb. unfold project_ctl.Get, project_mgr.Get. rewrite bind_eq.
  change (Ascii.ascii_of_N 32) with " "%char. rewrite Hb. cbn [negb]. unfold project_dao.GetByName. rewrite Read_nofault. fold (live d name).
  destruct (live d name) as [p|]; [|by eexists].
  unfold project_ctl.assembleProject, meta_mgr.Get, meta_dao.List. cbn. unfold mbind, M_bind, FromContext. simpl.
  by eexists.
Qed.

Section granted.
Context (c : Caller) (d : ProjDB).

(** What the caller may do in the repositories of a project. *)
Definition granted (project : string) : list string :=
  match live d project with
  | Some p => elements (resourceScopes (Some c) (Rbac.ns_Resource (Rbac.ProjectNS (j_ProjectID p)) [Rbac.ResourceRepository]))
  | None => []
  end.

Definition slashed (name : string) : Prop :=
  plain_name name ∧ no_char "/"%char name = false ∧ project_of name ≠ EmptyString.

Lemma no_blank_head s x l : no_char " "%char s = true → Split s "/"%char = x :: l → no_char " "%char x = true.
Proof.
  revert x l. induction s as [|a s IH]; intros x l Hs; cbn [Split]; [intros ?; by simplify_eq|].
  unfold no_char in *. cbn [string_forall] in Hs. apply andb_true_iff in Hs as [Ha Hs].
  destruct (bool_decide (a = "/"%char)); [intros ?; by simplify_eq|].
  destruct (Split s "/"%char) as [|y k]; intros ?; simplify_eq; cbn [string_forall]; rewrite Ha; [done|]. by eapply IH.
Qed.

Lemma project_of_plain name : plain_name name → no_char " "%char (project_of name) = true.
Proof.
  intros [Hb _]. unfold project_of. destruct (Split name "/"%char) as [|x l] eqn:E; [done|]. cbn. by eapply no_blank_head.
Qed.

Lemma filter_repository name l : slashed name →
  filter_ (Some c) (repositoryFilter basicParser) (mkRA "repository" name l) (mkWorld d true []) =
  (Ok (mkRA "repository" name (granted (project_of name))), mkWorld d true []).
Proof.
  intros (Hp & Hs & Hne). destruct (parseImg_project name Hs) as (img & Himg & Hns). unfold filter_. rewrite bind_eq.
  cbn [parse ra_Name]. unfold of_result. rewrite Himg. cbv beta iota. rewrite bind_eq, Hns. unfold try, project_ctl.GetByName.
  rewrite bool_decide_false by done. pose proof (Get_live_quiet d (project_of name) Hne (project_of_plain name Hp)) as H.
  unfold granted. destruct (live d (project_of name)) as [p|].
  - destruct H as (v & -> & <-). done.
  - destruct H as (e & -> & He). cbv beta iota. by rewrite He.
Qed.

Lemma filterAccess_repositories (names : list (string * list string)) : Forall (λ x, slashed x.1) names →
  filterAccess (Some c) (map (λ x, mkRA "repository" x.1 x.2) names) registryFilterMap (mkWorld d true []) =
  (Ok (map (λ x, mkRA "repository" x.1 (granted (project_of x.1))) names), mkWorld d true []).
Proof.
  unfold filterAccess. induction 1 as [|[n l] names Hn Hl IH]; [done|]. cbn [map filter_each].
  rewrite bind_eq. cbn [ra_Type]. unfold registryFilterMap at 1. rewrite lookup_insert_eq. rewrite bind_eq. unfold try.
  rewrite filter_repository by done. cbv beta iota. rewrite mret_eq. rewrite bind_eq, IH. done.
Qed.
End granted.

(** ** The context of a token *)

Lemma elem_resourceScopes c rc s : s ∈ resourceScopes (Some c) rc ↔
  (∃ a, (a, s) ∈ actionScopeMap ∧ RobotStore.Can (ca_Ctx c) a rc = true) ∨
  s = "*"%string ∧ ∀ a, known_action a → RobotStore.Can (ca_Ctx c) a rc = true.
Proof.
  unfold resourceScopes. cbn [caller_can]. set (res := list_to_set _ : gset string).
  assert (∀ s, s ∈ res ↔ ∃ a, (a, s) ∈ actionScopeMap ∧ RobotStore.Can (ca_Ctx c) a rc = true) as Hres.
  { intros x. unfold res. rewrite elem_of_list_to_set, list_elem_of_fmap. split.
    - intros ([a y] & -> & [Ha Hin]%list_elem_of_filter). by exists a.
    - intros (a & Hin & Ha). exists (a, x). split; [done|]. by apply list_elem_of_filter. }
  assert (∀ a, known_action a → a ∈ res ↔ RobotStore.Can (ca_Ctx c) a rc = true) as Hk.
  { intros a Ha. rewrite Hres. unfold known_action in Ha. unfold actionScopeMap. set_unfold in Ha. set_unfold. naive_solver. }
  destruct (_ && _ && _) eqn:E.
  - rewrite !andb_true_iff, !bool_decide_eq_true in E. rewrite elem_of_union, elem_of_singleton, Hres.
    assert (∀ a, known_action a → RobotStore.Can (ca_Ctx c) a rc = true); [|tauto].
    intros a Ha. apply Hk; [done|]. unfold known_action in Ha. set_unfold in Ha. naive_solver.
  - rewrite Hres. split; [by left|]. intros [?|[_ Hall]]; [done|]. exfalso. apply not_true_iff_false in E. apply E.
    rewrite !andb_true_iff, !bool_decide_eq_true. split_and!; apply Hk; try apply Hall; unfold known_action; set_solver.
Qed.

Lemma action_set_scope a s : (a, s) ∈ actionScopeMap → Security.action_set s = {[a]}.
Proof. unfold actionScopeMap. intros H. set_unfold in H. destruct H as [[= -> ->]|[[= -> ->]|[[= -> ->]|[[= -> ->]|[]]]]]; reflexivity. Qed.

Lemma granted_action c action rc : known_action action →
  bool_decide (action ∈ ⋃ map Security.action_set (elements (resourceScopes (Some c) rc))) = RobotStore.Can (ca_Ctx c) action rc.
Proof.
  intros Ha. apply eq_true_iff_eq. rewrite bool_decide_eq_true, elem_of_union_list. split.
  - intros (X & HX & Hin). apply list_elem_of_fmap in HX as (s & -> & Hs). apply elem_of_elements, elem_resourceScopes in Hs.
    destruct Hs as [(a & Hm & Hc)|[-> Hall]]; [|by apply Hall].
    rewrite (action_set_scope _ _ Hm) in Hin. by apply elem_of_singleton in Hin as ->.
  - intros Hc. assert ((action, action) ∈ actionScopeMap) as Hm.
    { unfold known_action in Ha. unfold actionScopeMap. set_unfold in Ha. set_unfold. naive_solver. }
    exists (Security.action_set action). split; [|rewrite (action_set_scope _ _ Hm); by apply elem_of_singleton].
    apply list_elem_of_fmap_2, elem_of_elements, elem_resourceScopes. left. by exists action.
Qed.

Lemma HasSuffix_app s p : HasSuffix (s +:+ p) p = true.
Proof.
  induction s as [|c s IH].
  - change (EmptyString +:+ p) with p. destruct p; cbn [HasSuffix]; by rewrite bool_decide_true.
  - change (String c s +:+ p) with (String c (s +:+ p)). cbn [HasSuffix]. rewrite IH. apply orb_true_r.
Qed.

Lemma until_slash_app s t : no_char "/"%char s = true → Rbac.until_slash (s +:+ String "/" t) = s.
Proof.
  unfold no_char. induction s as [|c s IH]; [done|]. cbn [string_forall]. rewrite andb_true_iff, negb_true_iff. intros [Hc Hs].
  change (String c s +:+ String "/" t) with (String c (s +:+ String "/" t)). cbn [Rbac.until_slash]. rewrite Hc. by rewrite IH.
Qed.

Lemma repository_resource_parse pid : in_int64 pid →
  HasSuffix (Pull.repository_resource pid) Rbac.ResourceRepository = true ∧
  Rbac.project_NamespaceParse (Pull.repository_resource pid) = Some (Rbac.ProjectNS pid).
Proof.
  intros Hid. unfold Pull.repository_resource. rewrite Rbac.ns_Resource_below by done. unfold Rbac.below.
  rewrite bool_decide_false by done. change ("/" +:+ Rbac.ResourceRepository) with (String "/" Rbac.ResourceRepository). split.
  - change (String "/" Rbac.ResourceRepository) with ("/" +:+ Rbac.ResourceRepository). rewrite append_assoc. apply HasSuffix_app.
  - unfold Rbac.project_NamespaceParse, Rbac.project_path. rewrite <- append_assoc, HasPrefix_app, TrimPrefix_app.
    rewrite until_slash_app by apply Rbac.number_no_slash, pretty_Z_chars. by rewrite ParseInt_pretty.
Qed.

(** The projects, as the context of a token finds them. *)
Definition snapshot (d : ProjDB) (pid : Z) : option Rbac.Project :=
  p ← rows (projects d) !! pid; if j_Deleted p then None else Some (Rbac.mkProject pid (j_Name p) ∅).

Definition token_ctx (d : ProjDB) (t : Security.TokenContext) : RobotStore.SecCtx :=
  RobotStore.mkSecCtx (negb (Security.t_name t == EmptyString)) (Security.t_name t)
    (λ action resource, match fst (Security.token_Can (snapshot d) t (Security.mkQ 0 action resource)) with
                        | Rbac.Done b => b
                        | _ => false
                        end).

Lemma live_row d name p : table_ok j_ProjectID (projects d) → live d name = Some p →
  rows (projects d) !! j_ProjectID p = Some p ∧ j_Name p = name ∧ j_Deleted p = false.
Proof.
  intros Hok H. unfold live in H. destruct (select _ _) as [|q l] eqn:E; [done|]. injection H as ->.
  assert (p ∈ select (λ p, j_Name p = name ∧ j_Deleted p = false) (projects d)) as Hin by (rewrite E; by left).
  by apply (elem_of_select_ok j_ProjectID) in Hin as [? [? ?]].
Qed.

Section context.
Context (c : Caller) (d : ProjDB) (Hok : table_ok j_ProjectID (projects d)) (Hseq : in_int64 (seq (projects d))).

Lemma live_id name p : live d name = Some p → in_int64 (j_ProjectID p).
Proof using Hok Hseq.
  intros H. destruct (live_row d name p Hok H) as (Hr & _). apply Hok in Hr as [_ Hb]. int64_lia.
Qed.

(** The actions of a token in a project are those the caller has there. *)
Lemma token_actions user names project : (∃ x, x ∈ names ∧ project_of x = project) →
  Security.accessMap (Security.token_New user (map (λ x, mkRA "repository" x (granted c d (project_of x))) names)) !! project =
  Some (⋃ map Security.action_set (granted c d project)).
Proof.
  intros (x & Hx & Hp). rewrite Security.token_New_lookup. unfold Security.last_access.
  set (F := λ x, mkRA "repository" x (granted c d (project_of x))).
  assert (F x ∈ filter (λ ac, ra_Type ac = "repository"%string ∧ head (Split (ra_Name ac) "/"%char) = Some project) (map F names)) as Hin.
  { apply list_elem_of_filter. split; [|by apply list_elem_of_fmap_2]. split; [done|]. cbn. unfold project_of in Hp.
    destruct (Split x "/"%char) eqn:E; [by apply Split_nonempty in E|]. cbn in *. by rewrite Hp. }
  destruct (last (filter _ _)) as [ac|] eqn:E.
  - apply last_Some_elem_of in E. apply list_elem_of_filter in E as [[_ Hh] Hm]. apply list_elem_of_fmap in Hm as (y & -> & _).
    cbn in *. unfold project_of. by rewrite Hh.
  - apply last_None in E. rewrite E in Hin. by apply not_elem_of_nil in Hin.
Qed.

Lemma token_ctx_Can user names a p : a ∈ names → live d (project_of a) = Some p → ∀ action, known_action action →
  RobotStore.Can (token_ctx d (Security.token_New user (map (λ x, mkRA "repository" x (granted c d (project_of x))) names)))
    action (Pull.repository_resource (j_ProjectID p)) =
  RobotStore.Can (ca_Ctx c) action (Pull.repository_resource (j_ProjectID p)).
Proof using Hok Hseq.
  intros Ha Hp action Hact. destruct (repository_resource_parse (j_ProjectID p) (live_id _ _ Hp)) as [Hs Hns].
  destruct (live_row d _ p Hok Hp) as (Hrow & Hname & Hlive).
  unfold token_ctx, Security.token_Can. cbn [RobotStore.Can fst Security.q_resource Security.q_action]. rewrite Hs, Hns. cbn [negb].
  unfold snapshot. rewrite Hrow. cbn. rewrite Hlive. cbn. rewrite Hname.
  change (foldl _ ∅ (map ?f names)) with (Security.accessMap (Security.token_New user (map f names))).
  rewrite token_actions by eauto. unfold granted. rewrite Hp. by apply granted_action.
Qed.
End context.

(** ** The exchange *)

(** Accesses of a request on repositories. *)
Definition requested (a : Pull.access) : Prop :=
  Pull.ac_target a = Pull.repository ∧ slashed (Pull.ac_name a) ∧ known_action (Pull.ac_action a).

(** The caller may do it: the project exists and its context grants the action. *)
Definition may (c : Caller) (d : ProjDB) (a : Pull.access) : Prop :=
  ∃ p, live d (project_of (Pull.ac_name a)) = Some p ∧
    RobotStore.Can (ca_Ctx c) (Pull.ac_action a) (Pull.repository_resource (j_ProjectID p)) = true.

(** The request repeated with a token. *)
Definition with_token (authorization : string) (s : RobotStore.SecCtx) (r : Pull.Request) : Pull.Request :=
  Pull.mkRequest (Pull.rq_Method r) (Pull.rq_Path r) authorization (Pull.rq_UserAgent r) (Pull.rq_IfNoneMatch r) (Pull.rq_Match r)
    (Pull.rq_IsCatalog r) (Pull.rq_Mount r) (Pull.rq_From r) (Some (Pull.mkSecurity "v2token" s)).

Notation proj_of d := (RobotStore.rproj (hrob d)).

Lemma project_id_quiet (d : HarborDB) name : name ≠ EmptyString → no_char " "%char name = true →
  match live (proj_of d) name with
  | Some p => Pull.project_id name (mkWorld d true []) = (Ok (j_ProjectID p), mkWorld d true [])
  | None => ∃ e, Pull.project_id name (mkWorld d true []) = (Err e, mkWorld d true [])
  end.
Proof.
  intros Hn Hb. pose proof (Get_live_quiet (proj_of d) name Hn Hb) as H. unfold Pull.project_id. rewrite bind_eq.
  unfold on_proj, on_robots, zoom. cbn [db ctx_orm faults].
  destruct (live _ name) as [p|].
  - destruct H as (v & -> & <-). cbn. by destruct d as [? [] ? ? ?].
  - destruct H as (e & -> & _). exists e. cbn. by destruct d as [? [] ? ? ?].
Qed.

Lemma check_all_token svc r s c (d : HarborDB) al : Pull.rq_Authorization r ≠ EmptyString →
  (∀ a p, a ∈ al → live (proj_of d) (project_of (Pull.ac_name a)) = Some p →
     RobotStore.Can (Pull.sx_Ctx s) (Pull.ac_action a) (Pull.repository_resource (j_ProjectID p)) =
     RobotStore.Can (ca_Ctx c) (Pull.ac_action a) (Pull.repository_resource (j_ProjectID p))) →
  ∀ l, l ⊆ al → Forall requested l →
  ∃ res, Pull.check_all svc r s al l (mkWorld d true []) = (Ok res, mkWorld d true []) ∧ (res = None ↔ Forall (may c (proj_of d)) l).
Proof.
  intros Hauth Hcan. induction l as [|a l IH]; intros Hl Hreq; [by exists None|].
  apply Forall_cons in Hreq as [(Ht & Hs & Ha) Hreq]. cbn [Pull.check_all]. rewrite Ht. rewrite bool_decide_false by done. cbn [andb].
  change (default EmptyString (head (Split (Pull.ac_name a) Pull.slash))) with (project_of (Pull.ac_name a)).
  destruct Hs as (Hpl & _ & Hne). pose proof (project_id_quiet d _ Hne (project_of_plain _ Hpl)) as Hid.
  rewrite bind_eq. unfold try. destruct (live (proj_of d) (project_of (Pull.ac_name a))) as [p|] eqn:Ep.
  - rewrite Hid. cbv beta iota. rewrite (Hcan a p) by (set_solver || done). destruct (RobotStore.Can (ca_Ctx c) _ _) eqn:Ec; cbn [negb].
    + destruct IH as (res & Hres & Hiff); [set_solver|done|]. exists res. split; [done|]. rewrite Hiff, Forall_cons.
      split; [|tauto]. intros H. split; [|done]. by exists p.
    + eexists. split; [reflexivity|]. split; [done|]. rewrite Forall_cons. intros [(p' & Hp' & Hc) _]. rewrite Ep in Hp'. congruence.
  - destruct Hid as [e ->]. cbv beta iota. eexists. split; [reflexivity|]. split; [done|]. rewrite Forall_cons. intros [(p' & Hp' & _) _]. congruence.
Qed.

(** What the JWT package is documented to do: parsing a signed token with the
    matching key gives its claims back when they are valid. *)
Class JwtLaws (J : Jwt) : Prop := {
  rs256_is_rsa : is_rsa RS256 = true;
  parse_signed alg kid k cl raw keyfunc valid : SignedString alg kid k cl = Ok raw → keyfunc alg = Ok (public_part k) →
    valid cl = Ok tt → ParseWithClaims raw keyfunc valid = Ok cl;
  audience_member cl s : s ∈ cl_Audience cl → VerifyAudience cl s = true;
}.

(** A token that fits into a header. *)
Definition header_safe (raw : string) : Prop :=
  raw ≠ EmptyString ∧ string_forall visible raw = true ∧ cut_at "Bearer" raw = None.

Lemma bearerToken_safe raw : header_safe raw → bearerToken ("Bearer " +:+ raw) = raw.
Proof.
  intros (_ & Hv & Hc). unfold bearerToken. change ("Bearer " +:+ raw) with ("Bearer" +:+ String " " raw).
  assert (cut_at "Bearer" ("Bearer" +:+ String " " raw) = Some (EmptyString, String " " raw)) as -> by reflexivity.
  assert (cut_at "Bearer" (String " " raw) = None) as ->.
  { cbn [cut_at]. change (HasPrefix (String " " raw) "Bearer") with false. cbv iota. by rewrite Hc. }
  rewrite TrimSpace_space. by apply TrimSpace_visible.
Qed.

Section exchange.
Context {J : Jwt} {JL : JwtLaws J}.
Context (pem kid : string) (k : PrivateKey) (e e' : Env) (Hfile : en_KeyFile e = Ok pem) (Hfile' : en_KeyFile e' = Ok pem).
Context (Hpem : pem ≠ EmptyString) (Hk : ParseRSAPrivateKeyFromPEM pem = Ok k) (Hkid : KeyID pem = Ok kid).

Lemma GetKey_file iss : GetKey (mkOptions RS256 EmptyString pem iss) = Ok (PrivKey k).
Proof using JL Hpem Hk. unfold GetKey, optional. cbn. rewrite rs256_is_rsa. cbn. by rewrite bool_decide_false, Hk. Qed.

Definition valid_at (e : Env) (cl : Claims) : Prop := registered_Valid (en_Now e) cl = Ok tt.

Lemma MakeToken_ok user access raw : let cl := claims_for e user Registry access in
  valid_at e cl → SignedString RS256 kid k cl = Ok raw → 
  MakeToken e user Registry access = Ok (mkToken raw (en_Expiration e * 60) (en_Now e)).
Proof using JL Hpem Hk Hfile Hkid.
  intros cl Hv Hs. assert (token_New (en_Now e) cl = Ok cl) as Hnew by (unfold token_New, Claims_Valid; by rewrite Hv).
  unfold MakeToken, NewOptions. rewrite Hfile. cbv beta iota. fold cl. rewrite Hnew. cbn [op_PrivateKey]. rewrite Hkid.
  unfold Raw. rewrite GetKey_file. cbn [op_SignMethod]. by rewrite Hs.
Qed.

Lemma Generate_ok path user access raw : let cl := claims_for e user Registry access in
  HasPrefix path "/v2" = true → valid_at e' cl → SignedString RS256 kid k cl = Ok raw → header_safe raw →
  v2Token_Generate e' path ("Bearer " +:+ raw) = Some (Security.token_New user access).
Proof using JL Hpem Hk Hfile'.
  intros cl Hp Hv Hs Hsafe. unfold v2Token_Generate. rewrite Hp, bearerToken_safe by done. cbn [negb].
  rewrite bool_decide_false by apply Hsafe. unfold NewOptions. rewrite Hfile'. unfold Parse. rewrite GetKey_file.
  assert (v2TokenClaims_Valid (en_Now e') cl = Ok tt) as Hvalid.
  { unfold v2TokenClaims_Valid, Claims_Valid. rewrite Hv. cbn. by rewrite audience_member by by left. }
  rewrite (parse_signed RS256 kid k cl) by done. by rewrite Hvalid.
Qed.
End exchange.

(** C5 (a challenge leads to the caller's own rights): a client that is challenged for
    a request on repositories gets a token for the scope of the challenge, the
    token is taken as its security context, and the repeated request is granted exactly
    when the caller itself may do all that the request needs. *)
Theorem challenge_exchange {J : Jwt} {JL : JwtLaws J} pem kid k e e' (c : Caller) (d : HarborDB) r info svc raw :
  let al := Pull.accessList r (Some info) in
  let cl := claims_for e (RobotStore.GetUsername (ca_Ctx c)) Registry
    (map (λ a, mkRA "repository" (Pull.ac_name a) (granted c (proj_of d) (project_of (Pull.ac_name a)))) al) in
  en_KeyFile e = Ok pem → en_KeyFile e' = Ok pem → pem ≠ EmptyString →
  ParseRSAPrivateKeyFromPEM pem = Ok k → KeyID pem = Ok kid →
  valid_at e cl → valid_at e' cl → SignedString RS256 kid k cl = Ok raw → header_safe raw →
  table_ok j_ProjectID (projects (proj_of d)) → in_int64 (seq (projects (proj_of d))) →
  al ≠ [] → Forall requested al → HasPrefix (Pull.rq_Path r) "/v2" = true →
  ∃ tok t res,
    Create e (Some c) Registry registryFilterMap [Pull.scopes al EmptyString] (mkWorld (proj_of d) true []) =
      (Ok tok, mkWorld (proj_of d) true []) ∧
    v2Token_Generate e' (Pull.rq_Path r) ("Bearer " +:+ tk_Token tok) = Some t ∧
    Pull.check svc (with_token ("Bearer " +:+ tk_Token tok) (token_ctx (proj_of d) t) r) (Some info) (mkWorld d true []) =
      (Ok res, mkWorld d true []) ∧
    (res = None ↔ Forall (may c (proj_of d)) al).
Proof.
  intros al cl Hf Hf' Hpem Hk Hkid Hv Hv' Hs Hsafe Hok Hseq Hne Hreq Hpath.
  set (names := map Pull.ac_name al).
  assert (map (λ a, mkRA "repository" (Pull.ac_name a) (granted c (proj_of d) (project_of (Pull.ac_name a)))) al =
    map (λ x, mkRA "repository" x (granted c (proj_of d) (project_of x))) names) as Hmap by (unfold names; by rewrite map_map).
  set (t := Security.token_New (RobotStore.GetUsername (ca_Ctx c)) (cl_Access cl)).
  assert (Forall repo_access al) as Hra.
  { eapply Forall_impl; [exact Hreq|]. intros a (? & (? & _) & ?). done. }
  edestruct (check_all_token svc (with_token ("Bearer " +:+ raw) (token_ctx (proj_of d) t) r)
    (Pull.mkSecurity "v2token" (token_ctx (proj_of d) t)) c d al) with (l := al) as (res & Hres & Hiff); [done| |done|done|].
  { intros a p Ha Hp. unfold t. cbn [cl_Access cl claims_for Pull.sx_Ctx]. rewrite Hmap.
    apply (token_ctx_Can c (proj_of d) Hok Hseq _ _ (Pull.ac_name a)); [by apply list_elem_of_fmap_2|done|].
    rewrite Forall_forall in Hreq. by apply Hreq. }
  exists (mkToken raw (en_Expiration e * 60) (en_Now e)), t, res.
  split_and!; [|by apply (Generate_ok pem kid k e e')| |exact Hiff].
  - unfold Create. rewrite (bool_decide_false (parseScopes _ = [])).
    2:{ unfold parseScopes. cbn. rewrite app_nil_r. apply Split_nonempty. }
    rewrite andb_false_r. rewrite bind_eq, challenge_scopes by done.
    pose proof (filterAccess_repositories c (proj_of d) (map (λ a, (Pull.ac_name a, Split (scope_actions (Pull.ac_action a)) ","%char)) al)) as HF.
    rewrite !map_map in HF. cbn [fst snd] in HF. rewrite HF.
    2:{ apply Forall_fmap. eapply Forall_impl; [exact Hreq|]. by intros a (_ & ? & _). }
    cbv beta iota. unfold of_result. erewrite (MakeToken_ok pem kid k e); done.
  - unfold Pull.check. cbn [Pull.rq_Security with_token]. fold al.
    change (Pull.accessList (with_token _ _ r) (Some info)) with al. destruct al; [done|]. exact Hres.
Qed.

(** ** An upload that mounts a blob *)

#[local] Instance ResourceActions_eq_dec : EqDecision ResourceActions.
Proof. solve_decision. Defined.
#[local] Instance Claims_eq_dec : EqDecision Claims.
Proof. solve_decision. Defined.

Definition dev : Caller :=
  mkCaller (RobotStore.mkSecCtx true "dev" (λ action _, (action == Rbac.ActionPull) || (action == Rbac.ActionPush))) false.
Definition mount_info : Pull.ArtifactInfo :=
  Pull.mkArtifactInfo "library/app" EmptyString "library" EmptyString EmptyString "library/base" "library" "sha256:a".
Definition mount_request : Pull.Request :=
  Pull.mkRequest "POST" "/v2/library/app/blobs/uploads/" EmptyString "docker" []
    (Some (Pull.mkUrlMatch Pull.BlobUploadURL "library/app" None None)) false "sha256:a" "library/base" None.
Definition library_db : HarborDB := PullSpec.ex_pull_db "Low".
Definition now_env : Env := mkEnv (Ok "PEM"%string) 30 1000 "id".
Definition later_env : Env := mkEnv (Ok "PEM"%string) 30 1060 "id2".
Definition dev_claims : Claims :=
  claims_for now_env "dev" Registry
    (map (λ a, mkRA "repository" (Pull.ac_name a) (granted dev (proj_of library_db) (project_of (Pull.ac_name a))))
       (Pull.accessList mount_request (Some mount_info))).

(** A package that signs one token. *)
Definition toy_sign (alg kid : string) (k : string) (cl : Claims) : result string :=
  if bool_decide (alg = RS256) && bool_decide (cl = dev_claims) then Ok "head.body.sig"%string else Err (PlainError "sign").
Definition toy_parse (raw : string) (keyfunc : string → result string) (valid : Claims → result unit) : result Claims :=
  match keyfunc RS256, valid dev_claims with
  | Ok _, Ok _ => if raw == "head.body.sig" then Ok dev_claims else Err (PlainError "token")
  | Err e, _ => Err e
  | _, Err e => Err e
  end.
Definition toy_jwt : Jwt :=
  {| PrivateKey := string; PublicKey := string; public_part := λ k, k; exponent := λ _, 65537; modulus := λ _, 1;
     ParseRSAPrivateKeyFromPEM := λ s, Ok s; ParseRSAPublicKeyFromPEM := λ s, Ok s; KeyID := λ _, Ok "kid"%string;
     registered_Valid := λ now cl, if cl_ExpiresAt cl <? now then Err (PlainError "expired") else Ok tt;
     is_rsa := λ m, m == RS256; SignedString := toy_sign; ParseWithClaims := toy_parse;
     VerifyAudience := λ cl s, bool_decide (s ∈ cl_Audience cl) |}.

Lemma toy_jwt_laws : JwtLaws toy_jwt.
Proof.
  split.
  - reflexivity.
  - cbn. intros alg kid k cl raw keyfunc valid Hs Hk Hv. unfold toy_sign in Hs. unfold toy_parse.
    destruct (decide (alg = RS256)) as [->|Ha]; [|by rewrite (bool_decide_false (alg = RS256)) in Hs].
    destruct (decide (cl = dev_claims)) as [->|Hc]; [|by rewrite (bool_decide_false (cl = dev_claims)), andb_false_r in Hs].
    rewrite !bool_decide_true in Hs by done. injection Hs as <-. by rewrite Hk, Hv.
  - cbn. intros cl s Hs. by apply bool_decide_eq_true.
Qed.

Lemma challenge_exchange_witness :
  ∃ tok t res,
    Create (J := toy_jwt) now_env (Some dev) Registry registryFilterMap
      ["repository:library/app:pull,push repository:library/base:pull"%string] (mkWorld (proj_of library_db) true []) =
      (Ok tok, mkWorld (proj_of library_db) true []) ∧
    v2Token_Generate (J := toy_jwt) later_env (Pull.rq_Path mount_request) ("Bearer " +:+ tk_Token tok) = Some t ∧
    Pull.check "http://core" (with_token ("Bearer " +:+ tk_Token tok) (token_ctx (proj_of library_db) t) mount_request)
      (Some mount_info) (mkWorld library_db true []) = (Ok res, mkWorld library_db true []) ∧
    (res = None ↔ Forall (may dev (proj_of library_db)) (Pull.accessList mount_request (Some mount_info))).
Proof.
  apply (challenge_exchange (J := toy_jwt) (JL := toy_jwt_laws) "PEM" "kid" "PEM" now_env later_env dev library_db mount_request
    mount_info "http://core" "head.body.sig"); try reflexivity; try discriminate.
  - split; [discriminate|]. split; reflexivity.
  - intros i p. cbn. intros [<- <-]%lookup_singleton_Some. by split.
  - vm_compute. split; discriminate.
  - repeat (apply Forall_cons_2 || apply Forall_nil_2); (split; [reflexivity|]); (split; [split; [split; reflexivity|split; [reflexivity|discriminate]]|]);
      [right; left|left].
Defined.
