(* ===== verification/Users.v ===== *)
(** * Users: [src/pkg/user], [src/pkg/oidc/metamanager.go], [src/controller/user],
    [src/server/v2.0/handler/user.go] and the login of [src/core/auth]

    The hash of passwords, the random salts, the checksum of deleted data and the
    patterns of email addresses are parameters.  The times of creation and update
    are left out. *)

From S2P Require Import Prelude GoErrors GoStrings Orm Table Hoare Encrypt.
From S2P Require ProjectStore RobotStore Rbac.
From Stdlib Require Import Ascii.
Open Scope Z_scope.
Local Open Scope harbor_scope.

(** ** Models *)

(** The row: [src/pkg/user/dao/user.go]. *)
Record Account := mkAccount {
  ac_ID : Z; ac_Username : string; ac_Email : option string; ac_Password : string; ac_PasswordVersion : string;
  ac_Realname : string; ac_Comment : string; ac_Deleted : bool; ac_SysAdminFlag : bool; ac_ResetUUID : string; ac_Salt : string }.

(** [src/common/models/user.go] *)
Record User := mkUser {
  us_ID : Z; us_Username : string; us_Email : string; us_Password : string; us_PasswordVersion : string;
  us_Realname : string; us_Comment : string; us_Deleted : bool; us_SysAdminFlag : bool; us_ResetUUID : string; us_Salt : string;
  us_AdminRoleInAuth : bool; us_GroupIDs : list Z }.

(** [src/common/models/oidc_user.go] *)
Record OIDCUser := mkOIDCUser { ou_ID : Z; ou_UserID : Z; ou_Secret : string; ou_SubIss : string; ou_Token : string }.

(** [src/pkg/usergroup/model/model.go] *)
Record UserGroup := mkUserGroup { ug_ID : Z; ug_GroupName : string; ug_GroupType : Z; ug_LdapGroupDN : string }.

Record UserDB := mkUserDB {
  accounts : table Account; oidc_users : table OIDCUser; memberships : table ProjectStore.Member; user_groups : table UserGroup }.
Definition set_accounts (t : table Account) (d : UserDB) : UserDB := mkUserDB t (oidc_users d) (memberships d) (user_groups d).
Definition set_oidc_users (t : table OIDCUser) (d : UserDB) : UserDB := mkUserDB (accounts d) t (memberships d) (user_groups d).
Definition set_memberships (t : table ProjectStore.Member) (d : UserDB) : UserDB := mkUserDB (accounts d) (oidc_users d) t (user_groups d).
Definition set_user_groups (t : table UserGroup) (d : UserDB) : UserDB := mkUserDB (accounts d) (oidc_users d) (memberships d) t.

Definition not_found {A} (msg : string) : M UserDB A := fail (WithMessage (NotFoundError None) msg).

Definition toDBUser (u : User) : Account :=
  mkAccount (us_ID u) (us_Username u) (if us_Email u == EmptyString then None else Some (us_Email u)) (us_Password u)
    (us_PasswordVersion u) (us_Realname u) (us_Comment u) (us_Deleted u) (us_SysAdminFlag u) (us_ResetUUID u) (us_Salt u).

Definition toCommonUser (a : Account) : User :=
  mkUser (ac_ID a) (ac_Username a) (default EmptyString (ac_Email a)) (ac_Password a) (ac_PasswordVersion a) (ac_Realname a)
    (ac_Comment a) (ac_Deleted a) (ac_SysAdminFlag a) (ac_ResetUUID a) (ac_Salt a) false [].

(** ** [src/pkg/user/dao/dao.go] *)

Module user_dao.

Definition with_id (id : Z) (a : Account) : Account :=
  mkAccount id (ac_Username a) (ac_Email a) (ac_Password a) (ac_PasswordVersion a) (ac_Realname a) (ac_Comment a) (ac_Deleted a)
    (ac_SysAdminFlag a) (ac_ResetUUID a) (ac_Salt a).

(** Usernames are unique, and emails that are not null. *)
Definition clash (a b : Account) : Prop := ac_Username a = ac_Username b ∨ (ac_Email a ≠ None ∧ ac_Email a = ac_Email b).

#[export] Instance clash_dec a b : Decision (clash a b).
Proof. unfold clash. apply _. Defined.

Definition Create (u : User) : M UserDB Z :=
  if 0 <? us_ID u then fail (WithMessage (BadRequestError None) ("user ID is set when creating user: " +:+ pretty (us_ID u)))
  else
    _ ← FromContext;
    x ← try (stmt (λ d, let t := accounts d in
          if decide (select (clash (toDBUser u)) t = [])
          then (Ok (next t), set_accounts (add_row (λ id, with_id id (toDBUser u)) t) d)
          else (Err ProjectStore.pg_unique, d)));
    match x with
    | Ok id => mret id
    | Err e => fail (WrapConflictError e ("user " +:+ us_Username u +:+ " or email " +:+ us_Email u +:+ " already exists"))
    end.

(** The columns that callers name. *)
Inductive column := CUsername | CEmail | CRealname | CComment | CDeleted | CPassword | CSysAdmin.

#[export] Instance column_eq_dec : EqDecision column.
Proof. solve_decision. Defined.

Definition write (cols : list column) (new old : Account) : Account :=
  let pick {A} (c : column) (f : Account → A) := if decide (c ∈ cols) then f new else f old in
  mkAccount (ac_ID old) (pick CUsername ac_Username) (pick CEmail ac_Email) (pick CPassword ac_Password)
    (pick CPassword ac_PasswordVersion) (pick CRealname ac_Realname) (pick CComment ac_Comment) (pick CDeleted ac_Deleted)
    (pick CSysAdmin ac_SysAdminFlag) (ac_ResetUUID old) (pick CPassword ac_Salt).

Definition Update (u : User) (cols : list column) : M UserDB unit :=
  affect (λ d, let t := accounts d in
    match rows t !! us_ID u with
    | None => None
    | Some old =>
        let a := write cols (toDBUser u) old in
        if decide (select (λ b, clash a b ∧ ac_ID b ≠ us_ID u) t = [])
        then Some (Ok (set_accounts (put_row (us_ID u) a t) d)) else Some (Err ProjectStore.pg_unique)
    end) ("user with id " +:+ pretty (us_ID u) +:+ " not found") (λ e, e).

Definition Delete (id : Z) : M UserDB unit :=
  _ ← FromContext; stmt (λ d, (Ok tt, set_accounts (del_row id (accounts d)) d)).

Definition List_ (P : Account → Prop) `{!∀ a, Decision (P a)} : M UserDB (list User) :=
  _ ← FromContext; query (λ d, Ok (map toCommonUser (select (λ a, P a ∧ ac_Deleted a = false) (accounts d)))).

Definition Count (P : Account → Prop) `{!∀ a, Decision (P a)} : M UserDB Z :=
  _ ← FromContext; query (λ d, Ok (Z.of_nat (length (select (λ a, P a ∧ ac_Deleted a = false) (accounts d))))).
End user_dao.
Import (hints) user_dao.

(** ** [src/pkg/user/manager.go] *)

Definition SHA256 : string := "sha256".

(** [utils.Encrypt], [checkSum], and a random string. *)
Class UserConfig := {
  hash : string → string → string → string;
  checkSum : string → string;
}.

Section users.
Context {UC : UserConfig}.

Definition set_id (id : Z) (u : User) : User :=
  mkUser id (us_Username u) (us_Email u) (us_Password u) (us_PasswordVersion u) (us_Realname u) (us_Comment u) (us_Deleted u)
    (us_SysAdminFlag u) (us_ResetUUID u) (us_Salt u) (us_AdminRoleInAuth u) (us_GroupIDs u).

Definition injectPasswd (salt : string) (password : string) (u : User) : User :=
  mkUser (us_ID u) (us_Username u) (us_Email u) (hash password salt SHA256) SHA256 (us_Realname u) (us_Comment u) (us_Deleted u)
    (us_SysAdminFlag u) (us_ResetUUID u) salt (us_AdminRoleInAuth u) (us_GroupIDs u).

(** A user with nothing but its number. *)
Definition only_user_id (id : Z) : User :=
  mkUser id EmptyString EmptyString EmptyString EmptyString EmptyString EmptyString false false EmptyString EmptyString false [].

Definition user_Create (salt : string) (u : User) : M UserDB Z := user_dao.Create (injectPasswd salt (us_Password u) u).

Definition user_Get (id : Z) : M UserDB User :=
  l ← user_dao.List_ (λ a, ac_ID a = id);
  match l with u :: _ => mret u | [] => not_found ("user " +:+ pretty id +:+ " not found") end.

Definition user_GetByName (name : string) : M UserDB User :=
  l ← user_dao.List_ (λ a, ac_Username a = name);
  match l with u :: _ => mret u | [] => not_found ("user " +:+ name +:+ " not found") end.

(** [excludeDefaultAdmin]; [named] when the query names users by number. *)
Definition user_List (named : bool) (P : Account → Prop) `{!∀ a, Decision (P a)} : M UserDB (list User) :=
  if named then user_dao.List_ P else user_dao.List_ (λ a, P a ∧ 1 < ac_ID a).
Definition user_Count (include_admin : bool) (P : Account → Prop) `{!∀ a, Decision (P a)} : M UserDB Z :=
  if include_admin then user_dao.Count P else user_dao.Count (λ a, P a ∧ 1 < ac_ID a).

Definition Onboard (salt : string) (user : User) : M UserDB User :=
  r ← try (user_GetByName (us_Username user));
  match r with
  | Ok u => mret (mkUser (us_ID u) (us_Username user) (us_Email u) (us_Password user) (us_PasswordVersion user) (us_Realname u)
                    (us_Comment user) (us_Deleted user) (us_SysAdminFlag u) (us_ResetUUID user) (us_Salt user)
                    (us_AdminRoleInAuth user) (us_GroupIDs user))
  | Err e => if negb (IsNotFoundErr e) then fail e
             else id ← user_Create salt user; mret (set_id id (injectPasswd salt (us_Password user) user))
  end.

Definition renamed (u : User) (username email realname : string) : User :=
  mkUser (us_ID u) username email (us_Password u) (us_PasswordVersion u) realname (us_Comment u) true (us_SysAdminFlag u)
    (us_ResetUUID u) (us_Salt u) (us_AdminRoleInAuth u) (us_GroupIDs u).

(** The panic of [Truncate] is an error that ends the request. *)
Definition user_Delete (id : Z) : M UserDB unit :=
  u ← user_Get id;
  let suffix := "#" +:+ pretty (us_ID u) in
  match ProjectStore.Truncate (us_Username u) suffix 255, ProjectStore.Truncate (us_Email u) suffix 255 with
  | Some username, Some email =>
      user_dao.Update (renamed u username email (us_Realname u)) [user_dao.CUsername; user_dao.CEmail; user_dao.CDeleted]
  | _, _ => fail (PlainError "slice bounds out of range")
  end.

Definition DeleteGDPR (id : Z) : M UserDB unit :=
  u ← user_Get id;
  let mark s := checkSum s +:+ "#" +:+ pretty (us_ID u) in
  user_dao.Update (renamed u (mark (us_Username u)) (mark (us_Email u)) (mark (us_Realname u)))
    [user_dao.CUsername; user_dao.CEmail; user_dao.CRealname; user_dao.CDeleted].

Definition match_password (password : string) (u : User) : bool := hash password (us_Salt u) (us_PasswordVersion u) == us_Password u.

(** [FilterByUsernameOrEmail] *)
Definition named_by (x : string) (a : Account) : Prop := ac_Username a = x ∨ ac_Email a = Some x.

#[export] Instance named_by_dec x a : Decision (named_by x a).
Proof. unfold named_by. apply _. Defined.

Definition clear_password (u : User) : User :=
  mkUser (us_ID u) (us_Username u) (us_Email u) EmptyString (us_PasswordVersion u) (us_Realname u) (us_Comment u) (us_Deleted u)
    (us_SysAdminFlag u) (us_ResetUUID u) (us_Salt u) (us_AdminRoleInAuth u) (us_GroupIDs u).

Definition MatchLocalPassword (usernameOrEmail password : string) : M UserDB (option User) :=
  l ← user_dao.List_ (named_by usernameOrEmail);
  mret (clear_password <$> head (List.filter (match_password password) l)).

Definition UpdateProfile (u : User) (cols : list user_dao.column) : M UserDB unit :=
  user_dao.Update u (match cols with [] => [user_dao.CEmail; user_dao.CRealname; user_dao.CComment] | _ => cols end).

Definition UpdatePassword (salt : string) (id : Z) (password : string) : M UserDB unit :=
  user_dao.Update (injectPasswd salt password (only_user_id id)) [user_dao.CPassword].

Definition with_admin (admin : bool) (u : User) : User :=
  mkUser (us_ID u) (us_Username u) (us_Email u) (us_Password u) (us_PasswordVersion u) (us_Realname u) (us_Comment u) (us_Deleted u)
    admin (us_ResetUUID u) (us_Salt u) (us_AdminRoleInAuth u) (us_GroupIDs u).

Definition SetSysAdminFlag (id : Z) (admin : bool) : M UserDB unit :=
  user_dao.Update (with_admin admin (only_user_id id)) [user_dao.CSysAdmin].

(** ** [src/pkg/oidc]: the records that bind users to an identity provider *)

Context (AES : list ascii → list ascii → list ascii) (random : result (list ascii)) (encryptKey : result string).

Definition oidc_List (P : OIDCUser → Prop) `{!∀ o, Decision (P o)} : M UserDB (list OIDCUser) :=
  _ ← FromContext; query (λ d, Ok (select P (oidc_users d))).

Definition oidc_with_id (id : Z) (o : OIDCUser) : OIDCUser := mkOIDCUser id (ou_UserID o) (ou_Secret o) (ou_SubIss o) (ou_Token o).

(** The subject with the issuer is unique, and the user exists. *)
Definition oidc_Create (o : OIDCUser) : M UserDB Z :=
  _ ← FromContext;
  x ← try (stmt (λ d, let t := oidc_users d in
        if decide (select (λ y, ou_SubIss y = ou_SubIss o) t = [])
        then match rows (accounts d) !! ou_UserID o with
             | Some _ => (Ok (next t), set_oidc_users (add_row (λ id, oidc_with_id id o) t) d)
             | None => (Err ProjectStore.pg_foreign_key, d)
             end
        else (Err ProjectStore.pg_unique, d)));
  match x with
  | Ok id => mret id
  | Err e => fail (default e (AsConflictError e ("The OIDC info for user " +:+ pretty (ou_UserID o) +:+ " exists, subissuer: "
                                                   +:+ ou_SubIss o)))
  end.

Definition GetBySubIss (sub iss : string) : M UserDB OIDCUser :=
  l ← oidc_List (λ o, ou_SubIss o = sub +:+ iss);
  match l with
  | o :: _ => mret o
  | [] => not_found ("oidc info for user with issuer " +:+ iss +:+ ", subject " +:+ sub +:+ " not found")
  end.

(** The record and the secret in clear. *)
Definition oidc_GetByUserID (uid : Z) : M UserDB (OIDCUser * string) :=
  l ← oidc_List (λ o, ou_UserID o = uid);
  match l with
  | [] => not_found ("oidc info for user " +:+ pretty uid +:+ " not found")
  | o :: _ =>
      key ← of_result encryptKey;
      plain ← of_result (ReversibleDecrypt AES (ou_Secret o) key);
      mret (o, plain)
  end.

Definition oidc_Update (id : Z) (f : OIDCUser → OIDCUser) : M UserDB unit :=
  affect (λ d, match rows (oidc_users d) !! id with
               | Some o => Some (Ok (set_oidc_users (put_row id (f o) (oidc_users d)) d))
               | None => None
               end) ("oidc user data with id " +:+ pretty id +:+ " not found") (λ e, e).

Definition set_secret (s : string) (o : OIDCUser) : OIDCUser := mkOIDCUser (ou_ID o) (ou_UserID o) s (ou_SubIss o) (ou_Token o).
Definition set_secret_token (s t : string) (o : OIDCUser) : OIDCUser := mkOIDCUser (ou_ID o) (ou_UserID o) s (ou_SubIss o) t.

Definition SetCliSecretByUserID (uid : Z) (secret : string) : M UserDB unit :=
  ou ← oidc_GetByUserID uid;
  key ← of_result encryptKey;
  s ← of_result (ReversibleEncrypt AES random secret key);
  oidc_Update (ou_ID (fst ou)) (set_secret s).

Definition oidc_DeleteByUserID (uid : Z) : M UserDB unit :=
  _ ← FromContext; stmt (λ d, (Ok tt, set_oidc_users (del_rows (λ o, ou_UserID o = uid) (oidc_users d)) d)).

(** ** [src/controller/user/controller.go] *)

(** The user of a local security context. *)
Context (me : option User).

Definition WithUnknown (e : error) (msg : string) : error := WithMessage (WithCode (WithCause (New EmptyString) (Some e)) GeneralCode) msg.

Definition UpdateOIDCMeta (o : OIDCUser) : M UserDB unit := oidc_Update (ou_ID o) (set_secret_token (ou_Secret o) (ou_Token o)).

Definition wrapped {A} (msg : string) (m : M UserDB A) : M UserDB A :=
  r ← try m; match r with Ok a => mret a | Err e => fail (default e (Wrap (Some e) msg)) end.

Definition OnboardOIDCUser (salt : string) (u : User) (meta : option OIDCUser) : M UserDB (User * OIDCUser) :=
  match meta with
  | None => fail (WithMessage (BadRequestError None) "OIDC meta of the user model is empty")
  | Some o =>
      uid ← wrapped "failed to create user record" (user_Create salt u);
      let o := mkOIDCUser (ou_ID o) uid (ou_Secret o) (ou_SubIss o) (ou_Token o) in
      mid ← wrapped "failed to create OIDC metadata record" (oidc_Create o);
      mret (set_id uid (injectPasswd salt (us_Password u) u), oidc_with_id mid o)
  end.

Definition with_admin_role (b : bool) (u : User) : User :=
  mkUser (us_ID u) (us_Username u) (us_Email u) (us_Password u) (us_PasswordVersion u) (us_Realname u) (us_Comment u) (us_Deleted u)
    (us_SysAdminFlag u) (us_ResetUUID u) (us_Salt u) b (us_GroupIDs u).

(** With the record of the identity provider when it is asked for. *)
Definition ctl_Get (id : Z) (withOIDCInfo : bool) : M UserDB (User * option (OIDCUser * string)) :=
  u ← user_Get id;
  let u := match me with
           | Some m => if us_ID m =? id then with_admin_role (us_AdminRoleInAuth m) u else u
           | None => u
           end in
  if withOIDCInfo
  then r ← try (oidc_GetByUserID id);
       match r with
       | Ok o => mret (u, Some o)
       | Err e => fail (WithUnknown e EmptyString)
       end
  else mret (u, None).

Definition ctl_GetBySubIss (sub iss : string) : M UserDB User :=
  o ← GetBySubIss sub iss; x ← ctl_Get (ou_UserID o) false; mret (fst x).

Definition VerifyPassword (usernameOrEmail password : string) : M UserDB bool :=
  r ← MatchLocalPassword usernameOrEmail password; mret (bool_decide (is_Some r)).

Definition DeleteMemberByUserID (uid : Z) : M UserDB unit :=
  _ ← FromContext;
  stmt (λ d, (Ok tt, set_memberships (del_rows (λ m, ProjectStore.m_EntityType m = ProjectStore.UserMember ∧ ProjectStore.m_EntityID m = uid)
                       (memberships d)) d)).

Definition unknown_on_error (msg : string) (m : M UserDB unit) : M UserDB unit :=
  r ← try m; match r with Ok _ => mret tt | Err e => fail (WithUnknown e msg) end.

(** [gdpr]: the setting, when it can be read. *)
Definition ctl_Delete (oidc_auth : bool) (gdpr : result bool) (id : Z) : M UserDB unit :=
  _ ← unknown_on_error ("delete user failed, user id: " +:+ pretty id +:+ ", cannot delete project user member")
        (DeleteMemberByUserID id);
  _ ← (if oidc_auth
       then unknown_on_error ("delete user failed, user id: " +:+ pretty id +:+ ", cannot delete oidc user") (oidc_DeleteByUserID id)
       else mret tt);
  match gdpr with
  | Err e => fail (WithUnknown e "failed to load GDPR setting")
  | Ok true => DeleteGDPR id
  | Ok false => user_Delete id
  end.
End users.
