(* ===== verification/UserApi.v ===== *)
(** * The users of the API and their login

    [src/server/v2.0/handler/user.go] with its access checks, and [src/core/auth]:
    the registered authenticators, the lock after a failed login and the
    authenticator of the local database. *)

From S2P Require Import Prelude GoErrors GoStrings Orm Table Hoare Encrypt Retry Users.
From S2P Require ProjectStore RobotStore Rbac.
From Stdlib Require Import Ascii.
Open Scope Z_scope.
Local Open Scope harbor_scope.

Definition DBAuth : string := "db_auth".
Definition OIDCAuth : string := "oidc_auth".
Definition HTTPAuth : string := "http_auth".

(** ** [handler/user.go] *)

Definition has_char (p : ascii → bool) (s : string) : bool := negb (string_forall (λ c, negb (p c)) s).
Definition between (lo hi : N) (c : ascii) : bool := ((lo <=? byte c) && (byte c <=? hi))%N.

Definition requireValidSecret (s : string) : result unit :=
  if (8 <=? Z.of_nat (String.length s)) && has_char (between 97 122) s && has_char (between 65 90) s && has_char (between 48 57) s
  then Ok tt
  else Err (WithMessage (BadRequestError None) "the password or secret must be longer than 8 chars with at least 1 uppercase letter, 1 lowercase letter and 1 number").

(** [utils.IsContainIllegalChar] *)
Definition IsContainIllegalChar (s : string) (illegal : list string) : bool := existsb (Contains s) illegal.

Section handler.
Context {UC : UserConfig}.
Context (AES : list ascii → list ascii → list ascii) (random : result (list ascii)) (encryptKey : result string).

(** What the request finds: the mode of authentication, the setting of self registration,
    whether a session came with it, and the security context with the user of a
    local one. *)
Context (auth : result string) (self_registration : result bool) (carry_session : bool) (gdpr : result bool).
Context (sc : option RobotStore.SecCtx) (me : option User).
Context (valid_email : string → bool).

Definition bad (msg : string) : error := WithMessage (BadRequestError None) msg.
Definition forbidden (msg : string) : error := WithMessage (ForbiddenError None) msg.

Definition validateUserProfile (u : User) : result unit :=
  if us_Email u == EmptyString then Err (bad "email can't be empty")
  else if negb (valid_email (us_Email u)) then Err (bad "email with illegal format")
  else if ProjectStore.IsIllegalLength (us_Realname u) 1 255 then Err (bad "realname with illegal length")
  else if IsContainIllegalChar (us_Realname u) [","; "~"; "#"; "$"; "%"]%string then Err (bad "realname contains illegal characters")
  else if ProjectStore.IsIllegalLength (us_Comment u) (-1) 30 then Err (bad "comment with illegal length")
  else Ok tt.

Definition userResource : string := Rbac.ns_Resource Rbac.SystemNS [Rbac.ResourceUser].

Definition matchUserID (id : Z) : bool := match me with Some m => us_ID m =? id | None => false end.

(** The security context of an authenticated caller. *)
Definition authenticated : result RobotStore.SecCtx :=
  match sc with
  | Some s => if RobotStore.IsAuthenticated s then Ok s else Err RobotStore.UnauthorizedError
  | None => Err RobotStore.UnauthorizedError
  end.

Definition RequireSystemAccess (action : string) : result unit :=
  match authenticated with
  | Err e => Err e
  | Ok s => if RobotStore.Can s action userResource then Ok tt else Err (forbidden (RobotStore.GetUsername s))
  end.

Definition requireForCLISecret (id : Z) : result unit :=
  match auth with
  | Err e => Err e
  | Ok a =>
      if negb (a == OIDCAuth)
      then Err (WithMessage (WithCode (New EmptyString) PreconditionCode) ("unable to update CLI secret under authmode: " +:+ a))
      else match authenticated with
           | Err e => Err e
           | Ok s => if negb (matchUserID id) && negb (RobotStore.Can s Rbac.ActionUpdate userResource)
                     then Err (forbidden ("Not authorized to update the CLI secret for user: " +:+ pretty id)) else Ok tt
           end
  end.

Definition requireCreatable : result unit :=
  match auth with
  | Err e => Err e
  | Ok a =>
      if negb (a == DBAuth) then Err (forbidden ("creating local user is not allowed under auth mode: " +:+ a))
      else match self_registration with
           | Err e => Err e
           | Ok sr =>
               let access := RequireSystemAccess Rbac.ActionCreate in
               if negb sr then access
               else if negb (is_ok access) && negb carry_session
                    then Err (forbidden "self-registration cannot be triggered via API") else Ok tt
           end
  end.

Definition requireReadable (id : Z) : result unit :=
  match authenticated with
  | Err e => Err e
  | Ok s => if negb (matchUserID id) && negb (RobotStore.Can s Rbac.ActionRead userResource)
            then Err (forbidden ("Not authorized to read user: " +:+ pretty id)) else Ok tt
  end.

Definition requireDeletable (id : Z) : result unit :=
  match authenticated with
  | Err e => Err e
  | Ok s =>
      if negb (RobotStore.Can s Rbac.ActionDelete userResource) then Err (forbidden "Not authorized to delete users")
      else if matchUserID id || (id =? 1) then Err (forbidden ("User with ID " +:+ pretty id +:+ " cannot be deleted")) else Ok tt
  end.

Definition modifiable (authMode : string) (s : RobotStore.SecCtx) (id : Z) : bool :=
  if authMode == DBAuth then RobotStore.Can s Rbac.ActionUpdate userResource || matchUserID id
  else (id =? 1) && RobotStore.Can s Rbac.ActionUpdate userResource.

Definition requireModifiable (id : Z) : result unit :=
  match auth with
  | Err e => Err e
  | Ok a =>
      match authenticated with
      | Err e => Err e
      | Ok s => if modifiable a s id then Ok tt else Err (forbidden ("User with ID " +:+ pretty id +:+ " can't be updated"))
      end
  end.

(** [getRandomSecret]: strings are drawn until one is valid. *)
Fixpoint getRandomSecret (draws : list string) : result string :=
  match draws with
  | [] => Err (WithMessage (New EmptyString) "failed to generate an valid random secret for cli in one minute, please try again")
  | s :: draws => match requireValidSecret s with Ok _ => Ok s | Err _ => getRandomSecret draws end
  end.

Definition api_SetCliSecret (draws : list string) (id : Z) (secret : string) : M UserDB unit :=
  _ ← of_result (requireForCLISecret id);
  secret ← of_result (if secret == EmptyString then getRandomSecret draws else Ok secret);
  _ ← of_result (requireValidSecret secret);
  SetCliSecretByUserID AES random encryptKey id secret.

Definition profile (id : Z) (username password realname email comment : string) : User :=
  mkUser id username email password EmptyString realname comment false false EmptyString EmptyString false [].

Definition api_CreateUser (salt username password realname email comment : string) : M UserDB Z :=
  _ ← of_result requireCreatable;
  _ ← of_result (requireValidSecret password);
  let m := profile 0 username password realname email comment in
  _ ← of_result (validateUserProfile m);
  user_Create salt m.

Definition api_DeleteUser (id : Z) : M UserDB unit :=
  _ ← of_result (requireDeletable id);
  ctl_Delete (match auth with Ok a => a == OIDCAuth | Err _ => false end) gdpr id.

Definition getUserByID (id : Z) : M UserDB User :=
  a ← of_result auth;
  x ← ctl_Get AES encryptKey me id ((a == OIDCAuth) && (1 <? id));
  mret (fst x).

Definition api_GetUser (id : Z) : M UserDB User := _ ← of_result (requireReadable id); getUserByID id.

Definition api_UpdateUserProfile (id : Z) (realname email comment : string) : M UserDB unit :=
  _ ← of_result (requireModifiable id);
  let m := profile id EmptyString EmptyString realname email comment in
  _ ← of_result (validateUserProfile m);
  UpdateProfile m [].

Definition unknown (msg : string) : error := WithMessage (WithCode (New EmptyString) GeneralCode) msg.

Definition verify (name password : string) : M UserDB bool :=
  r ← try (VerifyPassword name password);
  match r with Ok b => mret b | Err _ => fail (unknown "Failed to verify password") end.

(** A failed update is answered with the nil of the check before it. *)
Definition api_UpdateUserPassword (salt : string) (id : Z) (old new : string) : M UserDB unit :=
  _ ← of_result (requireModifiable id);
  _ ← (if matchUserID id
       then ok ← verify (match sc with Some s => RobotStore.GetUsername s | None => EmptyString end) old;
            if ok : bool then mret tt else fail (forbidden "Current password is incorrect")
       else mret tt);
  _ ← of_result (requireValidSecret new);
  user ← getUserByID id;
  ok ← verify (us_Username user) new;
  if ok : bool then fail (bad "New password is identical to old password")
  else r ← try (UpdatePassword salt id new);
       match r with Ok _ => mret tt | Err _ => fail (unknown "internal server error") end.

Definition api_SetUserSysAdmin (id : Z) (flag : bool) : M UserDB unit :=
  _ ← of_result (RequireSystemAccess Rbac.ActionUpdate);
  SetSysAdminFlag id flag.
End handler.

(** ** [src/core/auth] *)

(** [UserLock]: when a name failed last; times are in nanoseconds. *)
Record UserLock := mkUserLock { failures : gmap string Z; freeze : Z }.

(** A name that never failed has the zero time, long ago. *)
Definition IsLocked (now : Z) (l : UserLock) (username : string) : bool :=
  match failures l !! username with Some t => now - t <=? freeze l | None => false end.
Definition Lock (now : Z) (l : UserLock) (username : string) : UserLock := mkUserLock (<[username := now]> (failures l)) (freeze l).

Definition frozenTime : Z := 1500000000.

(** A failure is the caller's ([ErrAuth]) or another. *)
Inductive auth_error := ErrAuth (details : string) | OtherError (e : error).

(** [AuthenticateHelper], as far as the login goes; [PostAuthenticate] fills in
    the user it is given. *)
Record AuthenticateHelper := mkHelper {
  h_Authenticate : string → string → M UserDB (User + auth_error);
  h_PostAuthenticate : User → M UserDB (User * option error);
}.

Section login.
Context {UC : UserConfig}.

(** [db.Auth] *)
Definition db_Authenticate (principal password : string) : M UserDB (User + auth_error) :=
  r ← try (MatchLocalPassword principal password);
  mret match r with
       | Err e => inr (OtherError e)
       | Ok None => inr (ErrAuth "Invalid credentials")
       | Ok (Some u) => inl u
       end.
Definition db_helper : AuthenticateHelper := mkHelper db_Authenticate (λ u, mret (u, None)).

(** [Register]: the first registration stays. *)
Definition Register (name : string) (h : AuthenticateHelper) (registry : gmap string AuthenticateHelper) : gmap string AuthenticateHelper :=
  match registry !! name with Some _ => registry | None => <[name := h]> registry end.

Definition IsSuperUser (username : string) : M UserDB bool :=
  r ← try (user_GetByName username);
  mret (match r with Ok u => us_ID u =? 1 | Err _ => false end).

(** The outcome of a login: a user, nothing when the name is locked, or an error. *)
Inductive login_result := LoggedIn (u : User) | Locked | Failed (e : auth_error).

(** The parts of [Login] between which other logins run: the choice of the
    authenticator; after the test of the lock, the calls of the authenticator, which
    end the login or refuse it with the details that [Login] locks the name for. *)
Definition login_start (auth_mode : result string) (registry : gmap string AuthenticateHelper) (principal : string)
  : M UserDB (login_result + AuthenticateHelper) :=
  match auth_mode with
  | Err e => mret (inl (Failed (OtherError e)))
  | Ok mode =>
      super ← (if mode == EmptyString then mret true else IsSuperUser principal);
      let mode := if super : bool then DBAuth else mode in
      mret match registry !! mode with
           | None => inl (Failed (OtherError (PlainError ("unrecognized auth_mode: " +:+ mode))))
           | Some h => inr h
           end
  end.

Definition login_authenticate (h : AuthenticateHelper) (principal password : string) : M UserDB (login_result + string) :=
  r ← h_Authenticate h principal password;
  match r with
  | inr (ErrAuth d) => mret (inr d)
  | inr (OtherError e) => mret (inl (Failed (OtherError e)))
  | inl u =>
      p ← h_PostAuthenticate h u;
      mret (inl (match p.2 with None => LoggedIn p.1 | Some e => Failed (OtherError e) end))
  end.

(** [Login], run alone at a time, with the lock it leaves; after a failure it sleeps. *)
Definition Login (auth_mode : result string) (registry : gmap string AuthenticateHelper) (now : Z) (l : UserLock) (principal password : string)
  : M UserDB (login_result * UserLock) :=
  s ← login_start auth_mode registry principal;
  match s with
  | inl r => mret (r, l)
  | inr h =>
      if IsLocked now l principal then mret (Locked, l)
      else
        a ← login_authenticate h principal password;
        mret match a with
             | inl r => (r, l)
             | inr d => (Failed (ErrAuth d), Lock now l principal)
             end
  end.
End login.
