(* ===== verification/UserSpec.v ===== *)
(** * Correctness of users and of their login *)

From S2P Require Import Prelude GoErrors GoStrings Orm Table Hoare Encrypt Users UserApi.
From S2P Require ProjectStore RobotStore Rbac.
From Stdlib Require Import Ascii.
Open Scope Z_scope.
Local Open Scope harbor_scope.
Import user_dao.

(** ** The table of users *)

#[local] Instance clash_symm : Symmetric clash.
Proof. intros a b [H|[H1 H2]]; [by left|right]. split; congruence. Qed.

Definition accounts_ok (d : UserDB) : Prop := tab_ok ac_ID clash (λ _, True) (accounts d).

(** ** What a request may do to accounts *)

(** What of an account is for its owner to change. *)
Definition owned (a a' : Account) : Prop :=
  ac_ID a' = ac_ID a ∧ ac_Username a' = ac_Username a ∧ ac_Deleted a' = ac_Deleted a ∧ ac_SysAdminFlag a' = ac_SysAdminFlag a.

Definition admin_changed (a a' : Account) : Prop :=
  ∃ flag, a' = mkAccount (ac_ID a) (ac_Username a) (ac_Email a) (ac_Password a) (ac_PasswordVersion a) (ac_Realname a) (ac_Comment a)
    (ac_Deleted a) flag (ac_ResetUUID a) (ac_Salt a).

(** A deleted account keeps its rights and its password, under another name. *)
Definition removed (a a' : Account) : Prop :=
  ac_Deleted a' = true ∧ ac_ID a' = ac_ID a ∧ ac_SysAdminFlag a' = ac_SysAdminFlag a ∧ ac_Password a' = ac_Password a.

Section authorised.
Context (auth : result string) (self_registration : result bool) (carry_session : bool).
Context (sc : option RobotStore.SecCtx) (me : option User).

(** The caller is authenticated and has an action on users. *)
Definition has_right (action : string) : Prop :=
  ∃ s, sc = Some s ∧ RobotStore.IsAuthenticated s = true ∧ RobotStore.Can s action userResource = true.
Definition is_me (id : Z) : Prop := ∃ m, me = Some m ∧ us_ID m = id.

(** The changes of one account that the rights of the caller allow. *)
Inductive authorised (i : Z) : option Account → option Account → Prop :=
| au_same o : authorised i o o
| au_create a : auth = Ok DBAuth → has_right Rbac.ActionCreate ∨ (self_registration = Ok true ∧ carry_session = true) →
    ac_SysAdminFlag a = false → ac_Deleted a = false → authorised i None (Some a)
| au_own a a' : owned a a' → auth = Ok DBAuth ∧ (has_right Rbac.ActionUpdate ∨ is_me i) ∨ i = 1 ∧ has_right Rbac.ActionUpdate →
    authorised i (Some a) (Some a')
| au_admin a a' : admin_changed a a' → has_right Rbac.ActionUpdate → authorised i (Some a) (Some a')
| au_remove a a' : removed a a' → has_right Rbac.ActionDelete → ¬ is_me i → i ≠ 1 → authorised i (Some a) (Some a').

Definition within (d d' : UserDB) : Prop := ∀ i, authorised i (rows (accounts d) !! i) (rows (accounts d') !! i).

Lemma within_refl d : within d d.
Proof. intros i. constructor. Qed.

Lemma within_put d d' i a a' : rows (accounts d) !! i = Some a → authorised i (Some a) (Some a') →
  accounts d' = put_row i a' (accounts d) → within d d'.
Proof.
  intros Ha Hau Hd j. rewrite Hd. simpl. destruct (decide (j = i)) as [->|Hne]; [by rewrite lookup_insert_eq, Ha|].
  rewrite lookup_insert_ne by done. constructor.
Qed.
End authorised.

(** A program that leaves the accounts alone. *)
Definition same_accounts (d0 d : UserDB) : Prop := accounts d = accounts d0.

Lemma reading_List P `{!∀ a, Decision (P a)} :
  reading (List_ P) (λ d l, l = map toCommonUser (select (λ a, P a ∧ ac_Deleted a = false) (accounts d))).
Proof.
  eapply reading_conseq; [eapply reading_skip; [by intros ? ? ? [-> _]%FromContext_cases|intros ?; apply reading_query]|].
  by intros d l [= ->].
Qed.

Section api.
Context {UC : UserConfig}.

Lemma reading_Get id : reading (user_Get id)
  (λ d u, ∃ i a, rows (accounts d) !! i = Some a ∧ ac_ID a = id ∧ ac_Deleted a = false ∧ u = toCommonUser a).
Proof.
  unfold user_Get, not_found. eapply reading_conseq.
  - eapply (reading_bind _ _ _ (λ l _ u, match l with x :: _ => u = x | [] => False end)); [apply reading_List|].
    intros [|x l]; [apply reading_fail|apply reading_ret].
  - intros d u (l & -> & Hl). destruct (select _ _) as [|a k] eqn:E; [done|]. simpl in Hl.
    assert (a ∈ select (λ a, ac_ID a = id ∧ ac_Deleted a = false) (accounts d)) as Hin by (rewrite E; by left).
    apply elem_of_select in Hin as (i & Hi & Hid & Hd). by exists i, a.
Qed.

(** ** The statements *)

Lemma Update_spec u cols d0 : accounts_ok d0 →
  spec (same_accounts d0) (Update u cols)
    (λ _ d, accounts_ok d ∧ ∃ old, rows (accounts d0) !! us_ID u = Some old ∧
       accounts d = put_row (us_ID u) (write cols (toDBUser u) old) (accounts d0)) (same_accounts d0).
Proof.
  intros Hok. apply spec_affect; [|done]. intros d d' Hd. cbv zeta. rewrite Hd. destruct (rows (accounts d0) !! us_ID u) as [old|] eqn:Eo; [|done].
  case_decide as Hs; [|done]. intros [= <-]. destruct (tab_keys _ _ _ _ Hok _ _ Eo) as [Hid _]. split; [|by exists old].
  unfold accounts_ok. simpl. set (a := write cols (toDBUser u) old) in *.
  apply (tab_ok_put_fresh _ _ _ (λ b, clash a b ∧ ac_ID b ≠ us_ID u) _ old); [done..| |done]. by split.
Qed.

Lemma account_Create_spec u d0 : accounts_ok d0 →
  spec (same_accounts d0) (user_dao.Create u)
    (λ n d, n = next (accounts d0) ∧ accounts_ok d ∧ accounts d = add_row (λ id, with_id id (toDBUser u)) (accounts d0))
    (same_accounts d0).
Proof.
  intros Hok. unfold user_dao.Create. destruct (0 <? us_ID u); [by apply spec_fail|].
  eapply (spec_bind _ _ (λ _, same_accounts d0)); [by apply spec_FromContext|intros []].
  set (Q := λ n (d : UserDB), n = next (accounts d0) ∧ accounts_ok d ∧ accounts d = add_row (λ id, with_id id (toDBUser u)) (accounts d0)).
  eapply (spec_bind _ _ (λ r d, match r with Ok n => Q n d | Err _ => same_accounts d0 d end)).
  - apply spec_try. apply spec_stmt; [|done]. intros d Hd. cbv zeta. rewrite Hd. case_decide as Hs; [|done].
    split_and!; [done| |by simpl].
    unfold accounts_ok. simpl. apply (tab_ok_add _ _ _ (clash (toDBUser u))); [done..| |done]. by intros n x Hx.
  - intros [id|e]; [by apply spec_ret|by apply spec_fail].
Qed.

(** Calls that leave accounts alone. *)
Lemma spec_frame {A} d0 (m : M UserDB A) : keeps (same_accounts d0) m → spec (same_accounts d0) m (λ _, same_accounts d0) (λ _, True).
Proof. intros H. by apply keeps_spec. Qed.

Lemma spec_check {A B} d0 (x : result A) (k : A → M UserDB B) Q :
  (∀ a, x = Ok a → spec (same_accounts d0) (k a) Q (λ _, True)) → spec (same_accounts d0) (of_result x ≫= k) Q (λ _, True).
Proof.
  intros Hk. eapply (spec_bind _ _ (λ a d, x = Ok a ∧ same_accounts d0 d)); [by apply spec_of_result|].
  intros a. apply spec_pure. apply Hk.
Qed.

Lemma Get_frame id d0 : keeps (same_accounts d0) (user_Get id).
Proof. eapply keeps_reads, reading_reads, reading_Get. Qed.

Lemma Match_frame x p d0 : keeps (same_accounts d0) (MatchLocalPassword x p).
Proof. unfold MatchLocalPassword. apply keeps_bind; [eapply keeps_reads, reading_reads, reading_List|intros; apply keeps_ret]. Qed.

Lemma users_keeps {A} (m : M UserDB A) d0 : reads m → spec (same_accounts d0) m (λ _, same_accounts d0) (λ _, True).
Proof. intros. by apply spec_frame, keeps_reads. Qed.

(** ** Requests *)

Context (AES : list ascii → list ascii → list ascii) (random : result (list ascii)) (encryptKey : result string).
Context (auth : result string) (self_registration : result bool) (carry_session : bool) (gdpr : result bool).
Context (sc : option RobotStore.SecCtx) (me : option User) (valid_email : string → bool).

Notation allowed := (within auth self_registration carry_session sc me).
Notation right := (has_right sc).

Lemma authenticated_right s action : authenticated sc = Ok s → RobotStore.Can s action userResource = true → right action.
Proof. unfold authenticated. destruct sc as [s'|]; [|done]. destruct (RobotStore.IsAuthenticated s') eqn:E; [|done]. intros [= ->] Hc. by exists s. Qed.

Lemma matchUserID_me id : matchUserID me id = true ↔ is_me me id.
Proof. unfold matchUserID, is_me. destruct me as [m|]; [rewrite Z.eqb_eq|]; naive_solver. Qed.

Lemma modifiable_right id : requireModifiable auth sc me id = Ok tt →
  auth = Ok DBAuth ∧ (right Rbac.ActionUpdate ∨ is_me me id) ∨ id = 1 ∧ right Rbac.ActionUpdate.
Proof.
  unfold requireModifiable. destruct auth as [a|]; [|done]. destruct (authenticated sc) as [s|] eqn:Es; [|done].
  destruct (modifiable me a s id) eqn:Em; [|done]. intros _. unfold modifiable in Em. case_bool_decide as Ea.
  - subst a. left. split; [done|]. apply orb_true_iff in Em as [Hc|Hm]; [left; by eapply authenticated_right|right; by apply matchUserID_me].
  - right. apply andb_true_iff in Em as [->%Z.eqb_eq Hc]. split; [done|]. by eapply authenticated_right.
Qed.

(** What a request ends with. *)
Definition served (d0 d : UserDB) : Prop := accounts_ok d ∧ allowed d0 d.

Lemma served_same d0 d : accounts_ok d0 → same_accounts d0 d → served d0 d.
Proof. intros Hok Hd. unfold served, accounts_ok, within. rewrite Hd. split; [done|]. intros i. constructor. Qed.

Lemma served_update d0 d u cols i : i = us_ID u → (∀ old, ac_ID old = i → authorised auth self_registration carry_session sc me i (Some old)
     (Some (write cols (toDBUser u) old))) →
  accounts_ok d0 → accounts_ok d ∧ (∃ old, rows (accounts d0) !! us_ID u = Some old ∧
     accounts d = put_row (us_ID u) (write cols (toDBUser u) old) (accounts d0)) → served d0 d.
Proof.
  intros -> Hau Hok [Hd (old & Ho & Ha)]. split; [done|]. eapply within_put; [exact Ho| |exact Ha]. apply Hau.
  by apply (tab_keys _ _ _ _ Hok) in Ho as [? _].
Qed.

Lemma Update_served u cols d0 : accounts_ok d0 →
  (∀ old, ac_ID old = us_ID u → authorised auth self_registration carry_session sc me (us_ID u) (Some old) (Some (write cols (toDBUser u) old))) →
  spec (same_accounts d0) (Update u cols) (λ _, served d0) (λ _, True).
Proof. intros Hok Hau. eapply spec_conseq; [by apply Update_spec|done| |done]. intros [] d. by eapply served_update. Qed.

Lemma create_served salt username password realname email comment d0 : accounts_ok d0 →
  spec (same_accounts d0) (api_CreateUser auth self_registration carry_session sc valid_email salt username password realname email comment)
    (λ _, served d0) (λ _, True).
Proof.
  intros Hok. unfold api_CreateUser. apply spec_check. intros [] Hc. apply spec_check. intros [] _. apply spec_check. intros [] _.
  unfold user_Create. eapply spec_conseq; [by apply account_Create_spec|done| |done].
  intros id d (_ & Hd & Ha). split; [done|]. intros i. rewrite Ha. simpl.
  destruct (decide (i = next (accounts d0))) as [->|Hne]; [|rewrite lookup_insert_ne by done; constructor].
  rewrite lookup_insert_eq. rewrite (lookup_next ac_ID) by apply Hok. unfold requireCreatable in Hc.
  destruct auth as [a|]; [|done]. destruct (decide (a = DBAuth)) as [->|Hne]; [|by rewrite bool_decide_false in Hc].
  rewrite bool_decide_true in Hc by done. destruct self_registration as [sr|]; [|done]. simpl in Hc. constructor; [done| |done|done].
  assert (RequireSystemAccess sc Rbac.ActionCreate = Ok tt → right Rbac.ActionCreate) as Hright.
  { unfold RequireSystemAccess. destruct (authenticated sc) as [s|] eqn:Es; [|done].
    destruct (RobotStore.Can s _ _) eqn:Ec; [|done]. intros _. by eapply authenticated_right. }
  destruct sr; simpl in Hc; [|left; by apply Hright]. destruct (RequireSystemAccess sc Rbac.ActionCreate) as [[]|]; [left; by apply Hright|].
  right. by destruct carry_session.
Qed.

Lemma delete_served id d0 : accounts_ok d0 →
  spec (same_accounts d0) (api_DeleteUser auth gdpr sc me id) (λ _, served d0) (λ _, True).
Proof.
  intros Hok. unfold api_DeleteUser. apply spec_check. intros [] Hdel. unfold requireDeletable in Hdel.
  destruct (authenticated sc) as [s|] eqn:Es; [|done]. destruct (RobotStore.Can s _ _) eqn:Ec; [|done].
  simpl in Hdel. destruct (matchUserID me id) eqn:Em; [done|]. destruct (Z.eqb_spec id 1); [done|].
  assert (right Rbac.ActionDelete) as Hr by by eapply authenticated_right.
  assert (¬ is_me me id) as Hme by (rewrite <- matchUserID_me; congruence).
  assert (∀ u username email realname cols, us_ID u = id → CDeleted ∈ cols → CPassword ∉ cols → CSysAdmin ∉ cols →
    spec (same_accounts d0) (Update (renamed u username email realname) cols) (λ _, served d0) (λ _, True)) as Hupd.
  { intros u username email realname cols <- Hc Hp Hs. apply Update_served; [done|]. intros old Ho. apply au_remove; [|done..].
    unfold removed, write. simpl. rewrite (decide_True (P := CDeleted ∈ cols)), !(decide_False (P := CSysAdmin ∈ cols)),
      !(decide_False (P := CPassword ∈ cols)) by done. done. }
  assert (∀ k : User → M UserDB unit, (∀ u, us_ID u = id → spec (same_accounts d0) (k u) (λ _, served d0) (λ _, True)) →
    spec (same_accounts d0) (user_Get id ≫= k) (λ _, served d0) (λ _, True)) as Hget.
  { intros k Hk. apply spec_exact. intros d1 Hd1. eapply spec_read_bind; [apply reading_Get|done|]. intros u (i & a & _ & Ha & _ & ->).
    eapply spec_pre; [by apply Hk|]. by intros ? ->. }
  unfold ctl_Delete. eapply (spec_bind _ _ (λ _, same_accounts d0)).
  { apply spec_frame. unfold unknown_on_error, DeleteMemberByUserID. keeps_auto. by apply keeps_stmt. }
  intros []. eapply (spec_bind _ _ (λ _, same_accounts d0)).
  { apply spec_frame. unfold unknown_on_error, oidc_DeleteByUserID. destruct (match auth with Ok _ => _ | Err _ => _ end); keeps_auto. by apply keeps_stmt. }
  intros []. destruct gdpr as [[]|]; [| |by apply spec_fail].
  - unfold DeleteGDPR. apply Hget. intros u Hu. apply Hupd; [done|set_solver..].
  - unfold user_Delete. apply Hget. intros u Hu. cbv zeta.
    destruct (ProjectStore.Truncate _ _ _); [|by apply spec_fail]. destruct (ProjectStore.Truncate _ _ _); [|by apply spec_fail].
    apply Hupd; [done|set_solver..].
Qed.

(** Updates of what its owner may change. *)
Lemma owner_served u cols d0 : accounts_ok d0 → CUsername ∉ cols → CDeleted ∉ cols → CSysAdmin ∉ cols →
  requireModifiable auth sc me (us_ID u) = Ok tt → spec (same_accounts d0) (Update u cols) (λ _, served d0) (λ _, True).
Proof.
  intros Hok Hu Hd Hs Hm. apply Update_served; [done|]. intros old Ho. apply au_own; [|by apply modifiable_right].
  unfold owned, write. simpl. rewrite (decide_False (P := CUsername ∈ cols)), (decide_False (P := CDeleted ∈ cols)),
    (decide_False (P := CSysAdmin ∈ cols)) by done. done.
Qed.

Lemma profile_served id realname email comment d0 : accounts_ok d0 →
  spec (same_accounts d0) (api_UpdateUserProfile auth sc me valid_email id realname email comment) (λ _, served d0) (λ _, True).
Proof.
  intros Hok. unfold api_UpdateUserProfile. apply spec_check. intros [] Hm. cbv zeta. apply spec_check. intros [] _.
  apply owner_served; [done|set_solver..|done].
Qed.

Lemma verify_frame name password d0 : spec (same_accounts d0) (verify name password) (λ _, same_accounts d0) (λ _, True).
Proof.
  apply spec_frame. unfold verify, VerifyPassword. apply keeps_bind; [|by keeps_auto].
  apply keeps_try, keeps_bind; [apply Match_frame|intros ?; apply keeps_ret].
Qed.

Lemma getUserByID_frame id d0 : spec (same_accounts d0) (getUserByID AES encryptKey auth me id) (λ _, same_accounts d0) (λ _, True).
Proof.
  apply spec_frame. unfold getUserByID, ctl_Get, oidc_GetByUserID, oidc_List, not_found. pose proof (Get_frame id d0).
  keeps_auto.
Qed.

Lemma password_served salt id old new d0 : accounts_ok d0 →
  spec (same_accounts d0) (api_UpdateUserPassword AES encryptKey auth sc me salt id old new) (λ _, served d0) (λ _, True).
Proof.
  intros Hok. unfold api_UpdateUserPassword. apply spec_check. intros [] Hm.
  eapply (spec_bind _ _ (λ _, same_accounts d0)).
  { destruct (matchUserID me id); [|by apply spec_ret]. eapply spec_bind; [apply verify_frame|]. intros []; [by apply spec_ret|by apply spec_fail]. }
  intros []. apply spec_check. intros [] _. eapply spec_bind; [apply getUserByID_frame|]. intros user.
  eapply spec_bind; [apply verify_frame|]. intros []; [by apply spec_fail|].
  eapply (spec_bind _ _ (λ r d, is_ok r = true → served d0 d)).
  - eapply spec_post; [apply (spec_try _ _ (λ _, served d0) (λ _, True))|by intros [a|e] d].
    unfold UpdatePassword. apply owner_served; [done|set_solver..|done].
  - intros [[]|e]; [apply spec_ret; by intros d Hd; apply Hd|by apply spec_fail].
Qed.

Lemma admin_served id flag d0 : accounts_ok d0 →
  spec (same_accounts d0) (api_SetUserSysAdmin sc id flag) (λ _, served d0) (λ _, True).
Proof.
  intros Hok. unfold api_SetUserSysAdmin. apply spec_check. intros [] Hr. unfold RequireSystemAccess in Hr.
  destruct (authenticated sc) as [s|] eqn:Es; [|done]. destruct (RobotStore.Can s _ _) eqn:Ec; [|done].
  apply Update_served; [done|]. intros old Ho. apply au_admin; [|by eapply authenticated_right]. by exists flag.
Qed.

Lemma cli_served draws id secret d0 : accounts_ok d0 →
  spec (same_accounts d0) (api_SetCliSecret AES random encryptKey auth sc me draws id secret) (λ _, served d0) (λ _, True).
Proof.
  intros Hok. eapply spec_post; [apply spec_frame|intros [] d Hd; by apply served_same].
  unfold api_SetCliSecret, SetCliSecretByUserID, oidc_GetByUserID, oidc_List, not_found. keeps_auto.
  all: unfold oidc_Update; apply keeps_affect; intros d d' Hd; destruct (rows (oidc_users d) !! _); [|done]; by intros [= <-].
Qed.

Lemma get_served id d0 : accounts_ok d0 →
  spec (same_accounts d0) (api_GetUser AES encryptKey auth sc me id) (λ _, served d0) (λ _, True).
Proof.
  intros Hok. unfold api_GetUser. apply spec_check. intros [] _.
  eapply spec_post; [apply getUserByID_frame|]. intros u d Hd. by apply served_same.
Qed.

Inductive user_request :=
| RqCreate (salt username password realname email comment : string)
| RqGet (id : Z)
| RqProfile (id : Z) (realname email comment : string)
| RqPassword (salt : string) (id : Z) (old new : string)
| RqSysAdmin (id : Z) (flag : bool)
| RqCliSecret (draws : list string) (id : Z) (secret : string)
| RqDelete (id : Z).

(** A request runs in a transaction. *)
Definition serve_user (q : user_request) : M UserDB unit :=
  WithTransaction
    match q with
    | RqCreate salt username password realname email comment =>
        _ ← api_CreateUser auth self_registration carry_session sc valid_email salt username password realname email comment; mret tt
    | RqGet id => _ ← api_GetUser AES encryptKey auth sc me id; mret tt
    | RqProfile id realname email comment => api_UpdateUserProfile auth sc me valid_email id realname email comment
    | RqPassword salt id old new => api_UpdateUserPassword AES encryptKey auth sc me salt id old new
    | RqSysAdmin id flag => api_SetUserSysAdmin sc id flag
    | RqCliSecret draws id secret => api_SetCliSecret AES random encryptKey auth sc me draws id secret
    | RqDelete id => api_DeleteUser auth gdpr sc me id
    end.

Lemma serve_user_served q d0 : accounts_ok d0 → spec (λ d, d = d0) (serve_user q) (λ _, served d0) (served d0).
Proof.
  intros Hok. apply (spec_WithTransaction _ _ _ _ (λ _, True)); [|intros d ->; by apply served_same].
  eapply (spec_pre _ (same_accounts d0)); [|by intros d ->]. destruct q.
  - eapply spec_bind; [by apply create_served|intros ?; by apply spec_ret].
  - eapply spec_bind; [by apply get_served|intros ?; by apply spec_ret].
  - by apply profile_served.
  - by apply password_served.
  - by apply admin_served.
  - by apply cli_served.
  - by apply delete_served.
Qed.
End api.

(** C7 (accounts change only with the right to): whatever the request and whatever fails, names
    and emails stay unique, and every change of an account is one that the caller may make: new
    accounts come from callers who may create them or from a self registration and are never
    administrators; names and flags are untouched by owners; the flag of administrators
    needs the right to update users, and deletion the right to delete them, never of oneself or of
    the first user. *)
Theorem accounts_authorised {UC : UserConfig} AES random encryptKey auth self_registration carry_session gdpr sc me valid_email q w r w' :
  accounts_ok (db w) →
  serve_user AES random encryptKey auth self_registration carry_session gdpr sc me valid_email q w = (r, w') →
  accounts_ok (db w') ∧ within auth self_registration carry_session sc me (db w) (db w').
Proof.
  intros Hok H.
  pose proof (serve_user_served AES random encryptKey auth self_registration carry_session gdpr sc me valid_email q (db w) Hok w r w' eq_refl H) as Hs.
  by destruct r.
Qed.

(** A user that sets a password of its own. *)
#[local] Instance toy_users : UserConfig := {| hash := λ p s v, v +:+ ":" +:+ s +:+ ":" +:+ p; checkSum := λ _, "00000000"%string |}.
Definition alice : Account :=
  mkAccount 3 "alice" (Some "alice@example.com"%string) "sha256:salt:Passw0rd" SHA256 "Alice" EmptyString false false EmptyString "salt".
Definition root : Account := mkAccount 1 "admin" None EmptyString SHA256 "admin" EmptyString false true EmptyString EmptyString.
Definition two_users : UserDB := mkUserDB (mkTable {[1 := root; 3 := alice]} 3) empty_table empty_table empty_table.
Definition as_alice : option RobotStore.SecCtx := Some (RobotStore.mkSecCtx true "alice" (λ _ _, false)).

Lemma two_users_ok : accounts_ok two_users.
Proof.
  assert (∀ i a, rows (accounts two_users) !! i = Some a → i = 1 ∧ a = root ∨ i = 3 ∧ a = alice) as Hrows.
  { intros i a. simpl. intros [[<- <-]|[_ [<- <-]%lookup_singleton_Some]]%lookup_insert_Some; tauto. }
  split; [|simpl; lia| |done].
  - intros i a H. apply Hrows in H as [[-> ->]|[-> ->]]; simpl; lia.
  - intros i j a b H1 H2. apply Hrows in H1 as [[-> ->]|[-> ->]], H2 as [[-> ->]|[-> ->]]; try done; by intros [?|[? ?]].
Qed.

Lemma accounts_authorised_witness :
  ∃ w', serve_user (λ _ b, b) (Ok []) (Ok EmptyString) (Ok DBAuth) (Ok false) true (Ok false) as_alice (Some (toCommonUser alice)) (λ _, true)
      (RqPassword "new" 3 "Passw0rd" "Passw0rd2") (mkWorld two_users true []) = (Ok tt, w') ∧
    ac_Password <$> rows (accounts (db w')) !! 3 = Some "sha256:new:Passw0rd2"%string ∧
    accounts_ok (db w') ∧ within (Ok DBAuth) (Ok false) true as_alice (Some (toCommonUser alice)) two_users (db w').
Proof.
  eexists. split; [vm_compute; reflexivity|]. split; [vm_compute; reflexivity|].
  eapply (accounts_authorised (λ _ b, b) (Ok []) (Ok EmptyString) (Ok DBAuth) (Ok false) true (Ok false) as_alice
    (Some (toCommonUser alice)) (λ _, true) (RqPassword "new" 3 "Passw0rd" "Passw0rd2") (mkWorld two_users true [])); [|vm_compute; reflexivity].
  apply two_users_ok.
Defined.
