(* ===== verification/LoginConc.v ===== *)
(** * Logins that overlap: [src/core/auth/authenticator.go], [lock.go]

    Requests log in side by side: between the choice of the authenticator, the test
    of the lock, the calls of the authenticator and the lock after a refusal, other
    logins and other requests run and time passes.  A name is looked at only when it
    is not frozen, but as many logins as have passed the test together are refused
    together. *)

From S2P Require Import Prelude GoErrors GoStrings Orm Table Users UserApi UserSpec.
Local Open Scope Z_scope.
Local Open Scope harbor_scope.

(** ** The state of a login *)

Inductive login_pc :=
  | AtTest (h : AuthenticateHelper)
  | AtAuthenticate (h : AuthenticateHelper)
  | AtLock (details : string)
  | Ended (r : login_result).

Record login := mkLogin { lg_principal : string; lg_password : string; lg_pc : login_pc }.
Definition goes_on (g : login) (pc : login_pc) : login := mkLogin (lg_principal g) (lg_password g) pc.

(** The clock, the shared lock, the logins by request, the world of the database,
    and the names that were refused, with the times at which they were locked. *)
Record logins := mkLogins {
  now : Z; lock : UserLock; running : gmap nat login; world : World UserDB; refused : list (string * Z) }.

(** What happens next: time passes, other requests change the database, a login
    begins, or one does its next part. *)
Inductive event :=
  | Passes (t : Z)
  | Other (w : World UserDB)
  | Begins (i : nat) (principal password : string)
  | Proceeds (i : nat).

Section step.
Context {UC : UserConfig} (auth_mode : result string) (registry : gmap string AuthenticateHelper).

Definition begins (i : nat) (principal password : string) (s : logins) : logins :=
  let '(r, w) := login_start auth_mode registry principal (world s) in
  let run := match r with
             | Ok (inl x) => <[i := mkLogin principal password (Ended x)]> (running s)
             | Ok (inr h) => <[i := mkLogin principal password (AtTest h)]> (running s)
             | Err _ => running s
             end in
  mkLogins (now s) (lock s) run w (refused s).

(** A login that breaks off is gone.  After the lock it sleeps and ends. *)
Definition proceeds (i : nat) (g : login) (s : logins) : logins :=
  match lg_pc g with
  | AtTest h =>
      let pc := if IsLocked (now s) (lock s) (lg_principal g) then Ended Locked else AtAuthenticate h in
      mkLogins (now s) (lock s) (<[i := goes_on g pc]> (running s)) (world s) (refused s)
  | AtAuthenticate h =>
      let '(r, w) := login_authenticate h (lg_principal g) (lg_password g) (world s) in
      let run := match r with
                 | Ok (inl x) => <[i := goes_on g (Ended x)]> (running s)
                 | Ok (inr d) => <[i := goes_on g (AtLock d)]> (running s)
                 | Err _ => base.delete i (running s)
                 end in
      mkLogins (now s) (lock s) run w (refused s)
  | AtLock d =>
      mkLogins (now s) (Lock (now s) (lock s) (lg_principal g)) (<[i := goes_on g (Ended (Failed (ErrAuth d)))]> (running s))
        (world s) (refused s ++ [(lg_principal g, now s)])
  | Ended _ => s
  end.

Definition happens (e : event) (s : logins) : option logins :=
  match e with
  | Passes t => if now s <=? t then Some (mkLogins t (lock s) (running s) (world s) (refused s)) else None
  | Other w => Some (mkLogins (now s) (lock s) (running s) w (refused s))
  | Begins i principal password => match running s !! i with None => Some (begins i principal password s) | Some _ => None end
  | Proceeds i => match running s !! i with Some g => Some (proceeds i g s) | None => None end
  end.

(** The logins of a name that have passed the test and may still be refused. *)
Definition busy (name : string) (g : login) : bool :=
  (lg_principal g == name) && match lg_pc g with AtAuthenticate _ | AtLock _ => true | _ => false end.
Definition in_progress (name : string) (m : gmap nat login) : Z := Z.of_nat (size (filter (λ kg, busy name kg.2 = true) m)).

(** At most [n] logins of the name are in progress at a time. *)
Definition step_within (n : Z) (name : string) (s s' : logins) : Prop :=
  (∃ e, happens e s = Some s') ∧ in_progress name (running s') <= n.

(** The refusals of the name between two times. *)
Definition refusals_in (name : string) (lo hi : Z) (s : logins) : Z :=
  Z.of_nat (length (filter (λ x, x.1 = name ∧ lo <= x.2 <= hi) (refused s))).
End step.

(** ** Counting *)

Definition one (b : bool) : Z := if b then 1 else 0.

Lemma in_progress_insert name i g m : in_progress name (<[i := g]> m) = one (busy name g) + in_progress name (base.delete i m).
Proof.
  unfold in_progress. rewrite <-insert_delete_eq, map_filter_insert. case_decide as H; simpl in H.
  - rewrite map_size_insert_None; [rewrite H; simpl; lia|]. apply map_lookup_filter_None. left. apply lookup_delete_eq.
  - rewrite delete_delete_eq. destruct (busy name g); [done|]. simpl. lia.
Qed.

Lemma in_progress_delete name i g m : m !! i = Some g → in_progress name m = one (busy name g) + in_progress name (base.delete i m).
Proof. intros Hi. by rewrite <-in_progress_insert, insert_id. Qed.

Lemma in_progress_pos name m : 0 <= in_progress name m.
Proof. unfold in_progress. lia. Qed.

(** ** The invariant *)

Section bound.
Context {UC : UserConfig} (auth_mode : result string) (registry : gmap string AuthenticateHelper).
Context (name : string) (n lo hi f : Z) (Hf : 0 <= f) (Hlo : lo <= hi).

(** Refusals come in rounds: the logins that may still be refused in a round have
    passed the test together, and the next round begins after the frozen time.
    [c] is the number of refusals so far and [p] of logins in progress. *)
Inductive rounds (c p t : Z) (last : option Z) : Prop :=
  | round_open e : 0 <= e → c <= n * e → e = 0 ∨ lo + e * f <= t → rounds c p t last
  | round_closed e t0 : 0 <= e → c + p <= n * e + n → lo + e * f <= t0 <= t → last = Some t0 → rounds c p t last.

Record bounded (s : logins) : Prop := {
  b_freeze : freeze (lock s) = f;
  b_progress : in_progress name (running s) <= n;
  b_rounds : now s <= hi →
    rounds (refusals_in name lo hi s) (in_progress name (running s)) (now s) (failures (lock s) !! name);
  b_after : hi < now s → refusals_in name lo hi s * f <= n * (hi - lo + f);
}.

Lemma rounds_bound c p t last : 0 <= p <= n → t <= hi → rounds c p t last → c * f <= n * (hi - lo + f).
Proof. intros Hp Ht [e He Hc Hle|e t0 He Hc Hle _]; [destruct Hle as [->|Hle]|]; nia. Qed.

(** Fewer logins in progress, and more time. *)
Lemma rounds_mono c p p' t t' last : p' <= p → t <= t' → rounds c p t last → rounds c p' t' last.
Proof.
  intros Hp Ht [e He Hc Hle|e t0 He Hc Hle Hl].
  - apply (round_open _ _ _ _ e); [done..|]. destruct Hle; [by left|right; lia].
  - apply (round_closed _ _ _ _ e t0); [done|lia|lia|done].
Qed.

(** A test passes only when the name is not frozen. *)
Lemma rounds_test c p p' t l : freeze l = f → IsLocked t l name = false → 0 <= p →
  rounds c p t (failures l !! name) → rounds c p' t (failures l !! name).
Proof.
  intros Hl Ht Hp [e He Hc Hle|e t0 He Hc Hle Hlast]; [by apply (round_open _ _ _ _ e)|].
  unfold IsLocked in Ht. rewrite Hlast, Hl in Ht. apply Z.leb_gt in Ht.
  apply (round_open _ _ _ _ (e + 1)); [lia|lia|]. right. lia.
Qed.

(** A refusal takes one login out of progress. *)
Lemma rounds_refused c p t last : 0 <= p → p + 1 <= n → lo <= t →
  rounds c (p + 1) t last → rounds (c + 1) p t (Some t).
Proof.
  intros Hp Hn Ht [e He Hc Hle|e t0 He Hc Hle _]; apply (round_closed _ _ _ _ e t); try done; lia.
Qed.

(** Before the interval nothing counts. *)
Lemma rounds_early c p p' t last last' : 0 <= p → t < lo → rounds c p t last → rounds c p' t last'.
Proof.
  intros Hp Ht [e He Hc Hle|e t0 He Hc Hle _]; [|nia]. apply (round_open _ _ _ _ 0); [lia| |by left].
  destruct Hle as [->|Hle]; [lia|nia].
Qed.

(** A change that refuses nobody and leaves the lock alone. *)
Lemma bounded_quiet s s' : bounded s → in_progress name (running s') <= n →
  now s <= now s' → lock s' = lock s → refused s' = refused s →
  in_progress name (running s') <= in_progress name (running s) → bounded s'.
Proof.
  intros [Hfr Hp Hr Ha] Hn Ht Hl Hre Hle. assert (refusals_in name lo hi s' = refusals_in name lo hi s) as E.
  { unfold refusals_in. by rewrite Hre. }
  split; rewrite ?Hl, ?E; [done|done| |].
  - intros Hh. eapply rounds_mono; [exact Hle|exact Ht|]. apply Hr. lia.
  - intros Hh. destruct (decide (hi < now s)) as [?|?]; [by apply Ha|].
    pose proof (in_progress_pos name (running s)). apply (rounds_bound _ (in_progress name (running s)) (now s) (failures (lock s) !! name)); [lia|lia|].
    apply Hr. lia.
Qed.

Lemma bounded_begins i principal password s : bounded s → running s !! i = None → bounded (begins auth_mode registry i principal password s).
Proof.
  intros Hb Hi. unfold begins. destruct (login_start _ _ _ _) as [r w].
  assert (∀ pc, busy name (mkLogin principal password pc) = false →
    in_progress name (<[i := mkLogin principal password pc]> (running s)) = in_progress name (running s)) as Hsame.
  { intros pc Hpc. rewrite in_progress_insert, Hpc, delete_id by done. simpl. lia. }
  pose proof (b_progress _ Hb). apply (bounded_quiet s); simpl; [done| |lia|done|done|];
    destruct r as [[x|h]|e]; rewrite ?Hsame; try lia; unfold busy; simpl; by rewrite andb_false_r.
Qed.

Lemma bounded_test i g h s : bounded s → running s !! i = Some g → lg_pc g = AtTest h →
  in_progress name (running (proceeds i g s)) <= n → bounded (proceeds i g s).
Proof.
  intros Hb Hi Hpc. unfold proceeds. rewrite Hpc. simpl. intros Hn. pose proof (in_progress_pos name (base.delete i (running s))).
  assert (busy name g = false) as Hg by (unfold busy; rewrite Hpc; by rewrite andb_false_r).
  pose proof (in_progress_delete name i g _ Hi) as Hp. rewrite Hg in Hp. simpl in Hp.
  destruct (busy name (goes_on g (if IsLocked (now s) (lock s) (lg_principal g) then Ended Locked else AtAuthenticate h))) eqn:Ebusy.
  - unfold busy in Ebusy. simpl in Ebusy. apply andb_true_iff in Ebusy as [En El]. apply bool_decide_eq_true in En.
    destruct (IsLocked (now s) (lock s) (lg_principal g)) eqn:Elock; [done|]. rewrite En in Elock.
    destruct Hb as [Hfr Hpr Hr Ha]. split; simpl; [done|done| |done].
    intros Hh. eapply rounds_test; [done|exact Elock| |by apply Hr]. lia.
  - apply (bounded_quiet s); simpl; [done|done|lia|done|done|]. rewrite in_progress_insert, Ebusy. simpl. lia.
Qed.

Lemma bounded_authenticate i g h s : bounded s → running s !! i = Some g → lg_pc g = AtAuthenticate h →
  bounded (proceeds i g s).
Proof.
  intros Hb Hi Hpc. unfold proceeds. rewrite Hpc. destruct (login_authenticate _ _ _ _) as [r w].
  pose proof (in_progress_delete name i g _ Hi) as Hp. pose proof (b_progress _ Hb).
  assert (busy name g = (lg_principal g == name)) as Hg by (unfold busy; rewrite Hpc; by rewrite andb_true_r).
  assert (in_progress name match r with
    | Ok (inl x) => <[i:=goes_on g (Ended x)]> (running s) | Ok (inr d) => <[i:=goes_on g (AtLock d)]> (running s)
    | Err _ => base.delete i (running s) end <= in_progress name (running s)) as Hle.
  { assert (0 <= one (busy name g)) by (unfold one; destruct (busy name g); lia).
    destruct r as [[x|d]|e]; rewrite ?in_progress_insert, Hp; [|replace (busy name (goes_on g (AtLock d))) with (busy name g)|]; [|lia| |lia].
    - unfold busy at 1. simpl. rewrite andb_false_r. simpl. lia.
    - rewrite Hg. unfold busy. simpl. by rewrite andb_true_r. }
  apply (bounded_quiet s); simpl; [done|lia|lia|done|done|done].
Qed.

Lemma refusals_in_snoc s t nm x : refusals_in name lo hi (mkLogins t (lock x) (running x) (world x) (refused s ++ [(nm, t)])) =
  refusals_in name lo hi s + one (bool_decide (nm = name ∧ lo <= t <= hi)).
Proof.
  unfold refusals_in. simpl. rewrite filter_app, length_app, filter_cons. simpl. rewrite filter_nil.
  case_decide as H; [rewrite bool_decide_true by done|rewrite bool_decide_false by done]; simpl; lia.
Qed.

Lemma bounded_lock i g d s : bounded s → running s !! i = Some g → lg_pc g = AtLock d → bounded (proceeds i g s).
Proof.
  intros Hb Hi Hpc. unfold proceeds. rewrite Hpc.
  pose proof (in_progress_delete name i g _ Hi) as Hp. destruct Hb as [Hfr Hpr Hr Ha].
  set (s' := mkLogins _ _ _ _ _).
  pose proof (refusals_in_snoc s (now s) (lg_principal g) s') as Hc. change (mkLogins _ _ _ _ _) with s' in Hc.
  assert (in_progress name (running s') = in_progress name (base.delete i (running s))) as Hp'.
  { simpl. rewrite in_progress_insert. unfold busy. simpl. rewrite andb_false_r. simpl. lia. }
  pose proof (in_progress_pos name (base.delete i (running s))) as Hpos.
  assert (busy name g = (lg_principal g == name)) as Hg by (unfold busy; rewrite Hpc; by rewrite andb_true_r).
  rewrite Hg in Hp. destruct (decide (lg_principal g = name)) as [En|En].
  - rewrite (bool_decide_true (lg_principal g = name)) in Hp by done. cbn [one] in Hp. split; [done|lia| |].
    + intros Hh. rewrite Hp', Hc. cbn [lock s' failures Lock now]. rewrite En, lookup_insert_eq. simpl in Hh.
      destruct (decide (lo <= now s)) as [Hl|Hl].
      * rewrite bool_decide_true by done. eapply rounds_refused; [lia|lia|done|]. replace (_ + 1) with (in_progress name (running s)) by lia. by apply Hr.
      * rewrite bool_decide_false by naive_solver lia. rewrite Z.add_0_r. eapply rounds_early; [|lia|by apply Hr]. lia.
    + intros Hh. rewrite Hc, bool_decide_false by (simpl in Hh; naive_solver lia). rewrite Z.add_0_r. by apply Ha.
  - rewrite (bool_decide_false (lg_principal g = name)) in Hp by done. cbn [one] in Hp.
    rewrite bool_decide_false, Z.add_0_r in Hc by naive_solver. split; [done|lia| |].
    + intros Hh. rewrite Hp', Hc. cbn [lock s' failures Lock now]. rewrite lookup_insert_ne by done. rewrite Z.add_0_l in Hp. rewrite <-Hp. by apply Hr.
    + intros Hh. rewrite Hc. by apply Ha.
Qed.

Lemma bounded_step s s' : bounded s → step_within auth_mode registry n name s s' → bounded s'.
Proof.
  intros Hb [[e He] Hn]. destruct e as [t|w|i principal password|i]; simpl in He.
  - destruct (Z.leb_spec (now s) t); [|done]. injection He as <-. apply (bounded_quiet s); done || lia.
  - injection He as <-. apply (bounded_quiet s); done || lia.
  - destruct (running s !! i) eqn:Hi; [done|]. injection He as <-. by apply bounded_begins.
  - destruct (running s !! i) as [g|] eqn:Hi; [|done]. injection He as <-. destruct (lg_pc g) as [h|h|d|r] eqn:Hpc.
    + by eapply bounded_test.
    + by eapply bounded_authenticate.
    + by eapply bounded_lock.
    + unfold proceeds. by rewrite Hpc.
Qed.
End bound.

(** ** The bound *)


(** *** Two guesses at once *)

#[local] Existing Instance toy_users.

(** The events of a run, one after the other. *)
Fixpoint happen {UC : UserConfig} (auth_mode : result string) (registry : gmap string AuthenticateHelper) (n : Z) (name : string)
    (es : list event) (s : logins) : option logins :=
  match es with
  | [] => Some s
  | e :: es => match happens auth_mode registry e s with
               | Some s' => if in_progress name (running s') <=? n then happen auth_mode registry n name es s' else None
               | None => None
               end
  end.

Lemma happen_sound {UC : UserConfig} auth_mode registry n name es : ∀ s s',
  happen auth_mode registry n name es s = Some s' → rtc (step_within auth_mode registry n name) s s'.
Proof.
  induction es as [|e es IH]; intros s s'; simpl; [by intros [= ->]|]. destruct (happens _ _ e s) as [s1|] eqn:E; [|done].
  destruct (Z.leb_spec (in_progress name (running s1)) n); [|done]. intros Hs. eapply rtc_l; [split; [by exists e|done]|by apply IH].
Qed.

(** Two requests pass the test together, and both guesses are looked at; the third
    one, within the frozen time, is not, and the fourth, after it, is. *)
Definition guesses : list event :=
  [Begins 0 "alice" "one"; Begins 1 "alice" "two"; Proceeds 0; Proceeds 1; Proceeds 0; Proceeds 1; Proceeds 0; Passes 1000000; Proceeds 1;
   Passes 500000000; Begins 2 "alice" "three"; Proceeds 2; Passes 1600000000; Begins 3 "alice" "four"; Proceeds 3; Proceeds 3; Proceeds 3].
Definition db_registry : gmap string AuthenticateHelper := {[DBAuth := db_helper]}.
Definition nobody : logins := mkLogins 0 (mkUserLock ∅ frozenTime) ∅ (mkWorld two_users true []) [].


(** The lock is on the name as it was typed: with the email address the same account is tried again. *)
Example email_evades_lock :
  refused <$> happen (Ok DBAuth) db_registry 1 "alice"
    [Begins 0 "alice" "wrong"; Proceeds 0; Proceeds 0; Proceeds 0; Passes 1000000;
     Begins 1 "alice@example.com" "wrong"; Proceeds 1; Proceeds 1; Proceeds 1] nobody =
  Some [("alice", 0); ("alice@example.com", 1000000)]%string.
Proof. vm_compute. reflexivity. Qed.
