(* ===== verification/UserGroups.v ===== *)
(** * User groups: [src/pkg/usergroup], [src/controller/usergroup]

    The groups of users that an external authentication service reports.  Lower
    case is that of ASCII letters, and the times of the rows are left out. *)

From S2P Require Import Prelude GoErrors GoStrings Orm Table Hoare Users.
From S2P Require ProjectStore.

Open Scope Z_scope.
Local Open Scope harbor_scope.

Definition LDAPGroupType : Z := 1.
Definition HTTPGroupType : Z := 2.
Definition OIDCGroupType : Z := 3.

(** [utils.TrimLower] *)
Definition TrimLower (s : string) : string := TrimSpace (ProjectStore.ToLower s).

Definition ErrDupUserGroup : error := PlainError "duplicated user group name found".
Definition is_dup_group (e : error) : bool :=
  match e with PlainError s => s == "duplicated user group name found" | _ => false end.
Definition ErrGroupNameDup : error := WithMessage (ConflictError None) "duplicated user group name".

(** [UserGroupsFromName] *)
Definition UserGroupsFromName (groupNames : list string) (groupType : Z) : list UserGroup :=
  map (λ name, mkUserGroup 0 name groupType EmptyString) groupNames.

Definition group_with_id (id : Z) (g : UserGroup) : UserGroup :=
  mkUserGroup id (ug_GroupName g) (ug_GroupType g) (ug_LdapGroupDN g).
Definition with_dn (dn : string) (g : UserGroup) : UserGroup :=
  mkUserGroup (ug_ID g) (ug_GroupName g) (ug_GroupType g) dn.
Definition with_name (name : string) (g : UserGroup) : UserGroup :=
  mkUserGroup (ug_ID g) name (ug_GroupType g) (ug_LdapGroupDN g).

(** ** [src/pkg/usergroup/dao/dao.go] *)

Module group_dao.

(** Names of groups are unique, whatever their types. *)
Definition insert (g : UserGroup) (d : UserDB) : result Z * UserDB :=
  let t := user_groups d in
  if decide (select (λ x, ug_GroupName x = ug_GroupName g) t = [])
  then (Ok (next t), set_user_groups (add_row (λ id, group_with_id id g) t) d)
  else (Err ProjectStore.pg_unique, d).

Definition Query (P : UserGroup → Prop) `{!∀ g, Decision (P g)} : M UserDB (list UserGroup) :=
  _ ← FromContext; query (λ d, Ok (select P (user_groups d))).

Definition Count (P : UserGroup → Prop) `{!∀ g, Decision (P g)} : M UserDB Z :=
  _ ← FromContext; query (λ d, Ok (Z.of_nat (length (select P (user_groups d))))).

(** A failing query is reported as a duplicate. *)
Definition Add (g : UserGroup) : M UserDB Z :=
  r ← try (Query (λ x, ug_GroupName x = ug_GroupName g ∧ ug_GroupType x = HTTPGroupType));
  match r with
  | Err _ => fail ErrGroupNameDup
  | Ok (_ :: _) => fail ErrGroupNameDup
  | Ok [] => _ ← FromContext; stmt (insert (with_dn (TrimLower (ug_LdapGroupDN g)) g))
  end.

Definition Get (id : Z) : M UserDB (option UserGroup) :=
  l ← Query (λ x, ug_ID x = id); mret (head l).

(** The memberships of the group go with it. *)
Definition Delete (id : Z) : M UserDB unit :=
  _ ← FromContext;
  _ ← stmt (λ d, (Ok tt, set_user_groups (del_row id (user_groups d)) d));
  stmt (λ d, (Ok tt, set_memberships (del_rows (λ m, ProjectStore.m_EntityID m = id ∧
                       ProjectStore.m_EntityType m = ProjectStore.GroupMember) (memberships d)) d)).

Definition UpdateName (id : Z) (name : string) : M UserDB unit :=
  _ ← FromContext;
  stmt (λ d, match rows (user_groups d) !! id with
             | None => (Ok tt, d)
             | Some g =>
                 if decide (select (λ x, ug_GroupName x = name ∧ ug_ID x ≠ id) (user_groups d) = [])
                 then (Ok tt, set_user_groups (put_row id (with_name name g) (user_groups d)) d)
                 else (Err ProjectStore.pg_unique, d)
             end).

(** The attribute that identifies a group together with its type. *)
Inductive key := ByGroupName | ByLdapGroupDN.
Definition same (k : key) (g x : UserGroup) : Prop :=
  ug_GroupType x = ug_GroupType g ∧
  match k with ByGroupName => ug_GroupName x = ug_GroupName g | ByLdapGroupDN => ug_LdapGroupDN x = ug_LdapGroupDN g end.

#[export] Instance same_dec k g x : Decision (same k g x).
Proof. unfold same. destruct k; apply _. Defined.

(** [orm.ReadOrCreate] of beego: a read by the attributes, then an insert. *)
Definition ReadOrCreate (g : UserGroup) (k : key) : M UserDB (bool * Z) :=
  _ ← FromContext;
  r ← query (λ d, Ok (head (select (same k g) (user_groups d))));
  match r with
  | Some x => mret (false, ug_ID x)
  | None => id ← stmt (insert g); mret (true, id)
  end.
End group_dao.
Import (hints) group_dao.

(** ** [src/pkg/usergroup/manager.go] *)

Definition group_Create (g : UserGroup) : M UserDB Z :=
  l ← group_dao.Query (λ x, ug_GroupName x = ug_GroupName g ∧ ug_GroupType x = ug_GroupType g);
  match l with [] => group_dao.Add g | _ => fail ErrDupUserGroup end.

(** A group that is deleted between the two reads is a nil pointer. *)
Definition onBoardCommonUserGroup (g : UserGroup) (k : group_dao.key) : M UserDB UserGroup :=
  let g := with_dn (TrimLower (ug_LdapGroupDN g)) g in
  '(created, id) ← group_dao.ReadOrCreate g k;
  if created : bool then mret (group_with_id id g)
  else
    prev ← group_dao.Get id;
    match prev with
    | Some p => mret p
    | None => fail (PlainError "invalid memory address or nil pointer dereference")
    end.

Definition onBoardLdapUserGroup (g : UserGroup) : M UserDB UserGroup :=
  let g := with_dn (TrimLower (ug_LdapGroupDN g)) g in
  l ← group_dao.Query (λ x, ug_GroupName x = ug_GroupName g ∧ ug_GroupType x = ug_GroupType g);
  match l with
  | x :: _ =>
      if ug_LdapGroupDN g == ug_LdapGroupDN x then mret (group_with_id (ug_ID x) g)
      else
        let dn := ug_LdapGroupDN g in
        onBoardCommonUserGroup (with_name (if (String.length dn <=? 255)%nat then dn else String.substring 0 254 dn) g)
          group_dao.ByLdapGroupDN
  | [] => onBoardCommonUserGroup g group_dao.ByLdapGroupDN
  end.

Definition group_Onboard (g : UserGroup) : M UserDB UserGroup :=
  if ug_GroupType g =? LDAPGroupType then onBoardLdapUserGroup g
  else onBoardCommonUserGroup g group_dao.ByGroupName.

(** A group that cannot be onboarded is logged and left out. *)
Fixpoint Populate (l : list UserGroup) : M UserDB (list Z) :=
  match l with
  | [] => mret []
  | g :: l =>
      r ← try (group_Onboard g);
      ids ← Populate l;
      mret (match r with Ok g' => if 0 <? ug_ID g' then ug_ID g' :: ids else ids | Err _ => ids end)
  end.

(** ** [src/controller/usergroup/controller.go] *)

Section controller.
(** [auth.SearchGroup] of the configured authenticator. *)
Context (SearchGroup : string → M UserDB (option UserGroup)).

Definition group_ctl_Update (id : Z) (name : string) : M UserDB unit :=
  l ← group_dao.Query (λ x, ug_ID x = id);
  match l with
  | [] => fail (WithMessage (NotFoundError None) ("the user group with id " +:+ pretty id +:+ " is not found"))
  | _ => group_dao.UpdateName id name
  end.

(** An error of the search comes without a group, so that the branch for its
    absence is taken first, whatever the error is. *)
Definition group_ctl_Create (g : UserGroup) : M UserDB Z :=
  r ← (if ug_GroupType g =? LDAPGroupType then try (SearchGroup (ug_LdapGroupDN g)) else mret (Ok (Some g)));
  match r with
  | Err _ | Ok None =>
      fail (WithMessage (BadRequestError None) ("LDAP Group DN is not found: DN:" +:+ ug_LdapGroupDN g))
  | Ok (Some _) =>
      x ← try (group_Create g);
      match x with
      | Ok id => mret id
      | Err e =>
          if is_dup_group e
          then fail (WithMessage (ConflictError None)
                 ("duplicate user group, group name:" +:+ ug_GroupName g +:+ ", group type: " +:+ pretty (ug_GroupType g) +:+
                  ", ldap group DN: " +:+ ug_LdapGroupDN g))
          else fail e
      end
  end.
End controller.
