(* ===== verification/Ldap.v ===== *)
(** * LDAP: [src/pkg/ldap], [src/controller/ldap]

    The client library (filters, distinguished names, the connection) is the
    class [Goldap]; the file holds what Harbor does with it: filters from names,
    users and groups from entries. *)

From S2P Require Import Prelude GoErrors GoStrings Orm Users.
From S2P Require ProjectStore.

Open Scope Z_scope.
Local Open Scope harbor_scope.

(** ** The library *)

(** An entry of a search result: its name and its attributes. *)
Record Entry := mkEntry { en_DN : string; en_Attributes : list (string * list string) }.

Class Goldap := {
  Filter : Type;
  CompileFilter : string → option Filter;
  DecompileFilter : Filter → result string;
  FilterAnd : Filter → Filter → Filter;
  FilterOr : Filter → Filter → Filter;
  EscapeFilter : string → string;
  DN : Type;
  ParseDN : string → result DN;
  AncestorOf : DN → DN → bool;
  DN_Equal : DN → DN → bool;
  (** The server: connecting, binding, searching below a name. *)
  Dial : option error;
  ldap_Bind : string → string → option error;
  ldap_Search : string → string → list string → result (list Entry);
  IsNetworkError : error → bool;
  IsInvalidCredentials : error → bool;
  IsNoSuchObject : error → bool;
}.

(** ** Settings and results *)

Record LdapConf := mkLdapConf {
  lc_SearchDn : string; lc_SearchPassword : string; lc_BaseDn : string; lc_Filter : string; lc_UID : string }.
Record GroupConf := mkGroupConf {
  gc_BaseDN : string; gc_Filter : string; gc_NameAttribute : string; gc_AdminDN : string; gc_MembershipAttribute : string }.
Definition empty_group_conf : GroupConf := mkGroupConf EmptyString EmptyString EmptyString EmptyString EmptyString.

(** [src/pkg/ldap/model/ldap.go] *)
Record LdapUser := mkLdapUser {
  lu_Username : string; lu_Email : string; lu_Realname : string; lu_DN : string; lu_GroupDNList : list string }.
Record LdapGroup := mkLdapGroup { lg_Name : string; lg_Dn : string }.

Definition ErrNotFound : error := PlainError "entity not found".
Definition ErrEmptyPassword : error := PlainError "empty password".
Definition ErrInvalidCredential : error := PlainError "invalid credential".
Definition ErrLDAPServerTimeout : error := PlainError "ldap server network timeout".
Definition ErrLDAPPingFail : error := PlainError "fail to ping LDAP server".
Definition ErrDNSyntax : error := PlainError "invalid DN syntax".
Definition ErrInvalidFilter : error := PlainError "invalid filter syntax".
Definition ErrEmptySearchDN : error := PlainError "empty search dn".

Section ldap.
Context {G : Goldap}.

(** ** Filters: [filter.go] *)

Definition FilterBuilder : Type := option Filter.

Definition filter_And (f g : FilterBuilder) : FilterBuilder :=
  match f, g with None, _ => g | _, None => f | Some a, Some b => Some (FilterAnd a b) end.
Definition filter_Or (f g : FilterBuilder) : FilterBuilder :=
  match f, g with None, _ => g | _, None => f | Some a, Some b => Some (FilterOr a b) end.
Definition filter_String (f : FilterBuilder) : result string :=
  match f with None => Ok EmptyString | Some p => DecompileFilter p end.

Definition normalizeFilter (filter : string) : string :=
  let nor := TrimSpace filter in
  if nor == EmptyString then nor
  else if HasPrefix nor "(" && HasSuffix nor ")" then nor
  else "(" +:+ nor +:+ ")".

Definition NewFilterBuilder (filter : string) : result FilterBuilder :=
  let f := normalizeFilter filter in
  if TrimSpace f == EmptyString then Ok None
  else match CompileFilter f with Some p => Ok (Some p) | None => Err ErrInvalidFilter end.

(** The filter of the settings, and an attribute that has a value; an empty value
    is any. *)
Definition search_filter (orig attr value : string) : result string :=
  match NewFilterBuilder orig with
  | Err e => Err e
  | Ok o =>
      match NewFilterBuilder ("(" +:+ attr +:+ "=" +:+ (if value == EmptyString then "*" else value) +:+ ")") with
      | Err e => Err e
      | Ok u => filter_String (filter_And o u)
      end
  end.

Definition createUserSearchFilter (origFilter ldapUID username : string) : result string :=
  search_filter origFilter ldapUID (EscapeFilter username).

Definition createGroupSearchFilter (baseFilter groupName groupNameAttr : string) : result string :=
  search_filter baseFilter (EscapeFilter (if groupNameAttr == EmptyString then "cn" else groupNameAttr)) (EscapeFilter groupName).

(** ** Sessions: [ldap.go] *)

Section session.
Context (basicCfg : LdapConf) (groupCfg : GroupConf).

(** Every search binds the account of the settings first. *)
Definition SearchLdapAttribute (baseDN filter : string) (attributes : list string) : result (list Entry) :=
  match ldap_Bind (lc_SearchDn basicCfg) (lc_SearchPassword basicCfg) with
  | Some e => Err (PlainError ("can not bind search dn, error: " +:+ error_string e))
  | None =>
      let filter := normalizeFilter filter in
      if filter == EmptyString then Err ErrInvalidFilter
      else match CompileFilter filter with
           | None => Err ErrInvalidFilter
           | Some _ => ldap_Search baseDN filter attributes
           end
  end.

Definition SearchLdap (filter : string) : result (list Entry) :=
  let lowerUID := ProjectStore.ToLower (lc_UID basicCfg) in
  let base := ["uid"; "cn"; "mail"; "email"] in
  let attributes := if bool_decide (lowerUID ∈ base) then base else base ++ [lc_UID basicCfg] in
  SearchLdapAttribute (lc_BaseDn basicCfg) filter (attributes ++ [TrimSpace (gc_MembershipAttribute groupCfg)]).

(** One attribute of an entry: the first case that its name matches. *)
Definition read_attribute (u : LdapUser) (attr : string * list string) : LdapUser :=
  match attr.2 with
  | [] => u
  | v :: _ =>
      let val := TrimSpace v in
      let name := ProjectStore.ToLower attr.1 in
      if name == ProjectStore.ToLower (lc_UID basicCfg)
      then mkLdapUser val (lu_Email u) (lu_Realname u) (lu_DN u) (lu_GroupDNList u)
      else if (name == "uid") || (name == "cn")
      then mkLdapUser (lu_Username u) (lu_Email u) val (lu_DN u) (lu_GroupDNList u)
      else if (name == "mail") || (name == "email")
      then mkLdapUser (lu_Username u) val (lu_Realname u) (lu_DN u) (lu_GroupDNList u)
      else if name == ProjectStore.ToLower (gc_MembershipAttribute groupCfg)
      then mkLdapUser (lu_Username u) (lu_Email u) (lu_Realname u) (lu_DN u) (lu_GroupDNList u ++ map TrimSpace attr.2)
      else u
  end.

Definition user_of_entry (e : Entry) : LdapUser :=
  let u := foldl read_attribute (mkLdapUser EmptyString EmptyString EmptyString EmptyString []) (en_Attributes e) in
  mkLdapUser (lu_Username u) (lu_Email u) (lu_Realname u) (en_DN e) (lu_GroupDNList u).

Definition SearchUser (username : string) : result (list LdapUser) :=
  match createUserSearchFilter (lc_Filter basicCfg) (lc_UID basicCfg) username with
  | Err e => Err e
  | Ok filter => match SearchLdap filter with Err e => Err e | Ok es => Ok (map user_of_entry es) end
  end.

Definition groupBaseDN : string := if gc_BaseDN groupCfg == EmptyString then lc_BaseDn basicCfg else gc_BaseDN groupCfg.

Definition UnderBaseDN (baseDN childDN : string) : result bool :=
  match ParseDN (ProjectStore.ToLower baseDN), ParseDN (ProjectStore.ToLower childDN) with
  | Err e, _ => Err e
  | _, Err e => Err e
  | Ok b, Ok c => Ok (AncestorOf b c || DN_Equal b c)
  end.

(** The first entry, named by its first attribute. *)
Definition group_of_entries (groupDN : string) (es : list Entry) : list LdapGroup :=
  match es with
  | [] => []
  | e :: _ => [mkLdapGroup (match en_Attributes e with (_, v :: _) :: _ => v | _ => groupDN end) (en_DN e)]
  end.

Definition searchGroup (groupDN filter gName groupNameAttribute : string) : result (list LdapGroup) :=
  match UnderBaseDN groupBaseDN groupDN with
  | Err e => Err e
  | Ok false => Ok []
  | Ok true =>
      match createGroupSearchFilter filter gName groupNameAttribute with
      | Err e => Err e
      | Ok f => match SearchLdapAttribute groupDN f [groupNameAttribute] with
                | Err e => Err e
                | Ok es => Ok (group_of_entries groupDN es)
                end
      end
  end.

Definition SearchGroupByName (groupName : string) : result (list LdapGroup) :=
  searchGroup (gc_BaseDN groupCfg) (gc_Filter groupCfg) groupName (gc_NameAttribute groupCfg).

Definition SearchGroupByDN (groupDN : string) : result (list LdapGroup) :=
  match ParseDN groupDN with
  | Err _ => Err ErrDNSyntax
  | Ok _ =>
      match searchGroup groupDN (gc_Filter groupCfg) EmptyString (gc_NameAttribute groupCfg) with
      | Err e => if IsNoSuchObject e then Err ErrNotFound else Err e
      | Ok l => Ok l
      end
  end.
End session.

(** [TestConfig]: an error of the bind other than wrong credentials is ignored. *)
Definition TestConfig (cfg : LdapConf) : result unit :=
  match Dial with
  | Some e => Err (if IsNetworkError e then ErrLDAPServerTimeout else ErrLDAPPingFail)
  | None =>
      if lc_SearchDn cfg == EmptyString then Err ErrEmptySearchDN
      else match ldap_Bind (lc_SearchDn cfg) (lc_SearchPassword cfg) with
           | Some e => if IsInvalidCredentials e then Err ErrInvalidCredential else Ok tt
           | None => Ok tt
           end
  end.

(** ** [src/controller/ldap/controller.go] and [src/pkg/ldap/manager.go] *)

Section controller.
Context (LDAPConf_ : result LdapConf) (LDAPGroupConf : result GroupConf).

(** Without group settings a session has empty ones. *)
Definition ldapConfigs : result (LdapConf * GroupConf) :=
  match LDAPConf_ with
  | Err e => Err e
  | Ok cfg => Ok (cfg, match LDAPGroupConf with Ok g => g | Err _ => empty_group_conf end)
  end.

Definition opened {A} (f : LdapConf → GroupConf → result A) : result A :=
  match ldapConfigs with
  | Err e => Err e
  | Ok (cfg, groupCfg) => match Dial with Some e => Err e | None => f cfg groupCfg end
  end.

(** The names of the entries are left out. *)
Definition ldap_ctl_SearchUser (username : string) : result (list LdapUser) :=
  opened (λ cfg groupCfg,
    match SearchUser cfg groupCfg username with
    | Err e => Err e
    | Ok l => Ok (map (λ u, mkLdapUser (lu_Username u) (lu_Email u) (lu_Realname u) EmptyString (lu_GroupDNList u)) l)
    end).

Definition ldap_ctl_SearchGroup (groupName groupDN : string) : result (list LdapGroup) :=
  opened (λ cfg groupCfg,
    if negb (groupName == EmptyString) then SearchGroupByName cfg groupCfg groupName
    else if negb (groupDN == EmptyString)
    then match ParseDN groupDN with
         | Err e => Err (PlainError ("invalid DN: " +:+ error_string e))
         | Ok _ => SearchGroupByDN cfg groupCfg groupDN
         end
    else Ok []).

(** [Ping]: the stored password when none is given. *)
Definition defaultPassword (auth_mode : result string) : result string :=
  match auth_mode with
  | Err e => Err e
  | Ok mode =>
      if mode == "ldap_auth"
      then match LDAPConf_ with
           | Err e => Err e
           | Ok c => if lc_SearchPassword c == EmptyString then Err ErrEmptyPassword else Ok (lc_SearchPassword c)
           end
      else Err ErrEmptyPassword
  end.

Definition ldap_ctl_Ping (auth_mode : result string) (cfg : LdapConf) : result unit :=
  if lc_SearchPassword cfg == EmptyString
  then match defaultPassword auth_mode with
       | Err e => Err e
       | Ok pwd => if pwd == EmptyString then Err ErrEmptyPassword
                   else TestConfig (mkLdapConf (lc_SearchDn cfg) pwd (lc_BaseDn cfg) (lc_Filter cfg) (lc_UID cfg))
       end
  else TestConfig cfg.

(** One name to import: what is reported when it fails. *)
Definition import_one (cfg : LdapConf) (groupCfg : GroupConf) (OnBoardUser : User → M UserDB User) (uid : string)
  : M UserDB (option (string * string)) :=
  if uid == EmptyString then mret (Some (uid, "empty_uid"))
  else match SearchUser cfg groupCfg uid with
       | Err _ => mret (Some (uid, "failed_search_user"))
       | Ok [] => mret (Some (uid, "unknown_user"))
       | Ok (lu :: _) =>
           r ← try (OnBoardUser (mkUser 0 (lu_Username lu) (lu_Email lu) EmptyString EmptyString (lu_Realname lu) EmptyString
                      false false EmptyString EmptyString false []));
           mret (match r with
                 | Ok u => if us_ID u <=? 0 then Some (uid, "failed to import user: " +:+ uid) else None
                 | Err _ => Some (uid, "failed to import user: " +:+ uid)
                 end)
       end.

Fixpoint import_all (cfg : LdapConf) (groupCfg : GroupConf) (OnBoardUser : User → M UserDB User) (l : list string)
  : M UserDB (list (string * string)) :=
  match l with
  | [] => mret []
  | uid :: l =>
      r ← import_one cfg groupCfg OnBoardUser uid;
      rest ← import_all cfg groupCfg OnBoardUser l;
      mret (match r with Some f => f :: rest | None => rest end)
  end.

Definition ImportUser (OnBoardUser : User → M UserDB User) (l : list string) : M UserDB (list (string * string)) :=
  match opened (λ cfg groupCfg, Ok (cfg, groupCfg)) with
  | Err e => fail e
  | Ok (cfg, groupCfg) => import_all cfg groupCfg OnBoardUser l
  end.
End controller.
End ldap.
