(* ===== verification/AuthProviders.v ===== *)
(** * Authenticators: [src/core/auth/ldap], [src/core/auth/uaa],
    [src/core/auth/authproxy], [src/core/auth/oidc], [src/pkg/authproxy]

    The services that are asked are the classes [Goldap], [UaaClient] and
    [AuthProxy].  A nil pointer that is followed ends the request with an error. *)

From S2P Require Import Prelude GoErrors GoStrings Orm Table Hoare Users UserApi UserGroups Ldap.
From S2P Require ProjectStore.
From Stdlib Require Import Ascii.

Open Scope Z_scope.
Local Open Scope harbor_scope.

Definition LDAPAuth : string := "ldap_auth".
Definition UAAAuth : string := "uaa_auth".
Definition HTTPAuth : string := "http_auth".
Definition OIDCAuth : string := "oidc_auth".

Definition ErrNotSupported : error := PlainError "not supported".
Definition ErrInvalidLDAPGroupDN : error := PlainError "the LDAP group DN is invalid".
Definition ErrDuplicateLDAPGroup : error := PlainError "a LDAP user group with same DN already exist".
Definition ErrorGroupNotExist : error := PlainError "group does not exist".
Definition nil_pointer : error := Panic "invalid memory address or nil pointer dereference".

(** ** Changes of a user *)

Definition with_email (email : string) (u : User) : User :=
  mkUser (us_ID u) (us_Username u) email (us_Password u) (us_PasswordVersion u) (us_Realname u) (us_Comment u) (us_Deleted u)
    (us_SysAdminFlag u) (us_ResetUUID u) (us_Salt u) (us_AdminRoleInAuth u) (us_GroupIDs u).
Definition with_realname (realname : string) (u : User) : User :=
  mkUser (us_ID u) (us_Username u) (us_Email u) (us_Password u) (us_PasswordVersion u) realname (us_Comment u) (us_Deleted u)
    (us_SysAdminFlag u) (us_ResetUUID u) (us_Salt u) (us_AdminRoleInAuth u) (us_GroupIDs u).
Definition with_source (username password comment : string) (u : User) : User :=
  mkUser (us_ID u) username (us_Email u) password (us_PasswordVersion u) (us_Realname u) comment (us_Deleted u)
    (us_SysAdminFlag u) (us_ResetUUID u) (us_Salt u) (us_AdminRoleInAuth u) (us_GroupIDs u).
Definition with_groups (ids : list Z) (u : User) : User :=
  mkUser (us_ID u) (us_Username u) (us_Email u) (us_Password u) (us_PasswordVersion u) (us_Realname u) (us_Comment u) (us_Deleted u)
    (us_SysAdminFlag u) (us_ResetUUID u) (us_Salt u) (us_AdminRoleInAuth u) ids.
Definition new_user (username email realname : string) : User :=
  mkUser 0 username email EmptyString EmptyString realname EmptyString false false EmptyString EmptyString false [].

(** ** The interface: [AuthenticateHelper] and its default *)

Record Provider := mkProvider {
  pr_login : AuthenticateHelper;
  pr_OnBoardUser : User → M UserDB User;
  pr_SearchUser : string → M UserDB (option User);
  pr_SearchGroup : string → M UserDB (option UserGroup);
  pr_OnBoardGroup : UserGroup → string → M UserDB UserGroup;
}.

Definition unsupported_search {A} (key : string) : M UserDB A :=
  fail (WithMessage (NotFoundError (Some ErrNotSupported)) (key +:+ " not found")).

Definition DefaultAuthenticateHelper : Provider :=
  mkProvider (mkHelper (λ _ _, mret (inr (OtherError ErrNotSupported))) (λ u, mret (u, None)))
    (λ _, fail ErrNotSupported) unsupported_search unsupported_search (λ _ _, fail ErrNotSupported).

Section providers.
Context {UC : UserConfig}.
(** The salt of the next account. *)
Context (salt : string).

(** ** LDAP *)

Section ldap.
Context {G : Goldap} (LDAPConf_ : result LdapConf) (LDAPGroupConf : result GroupConf).

(** Failures leave the flag unset. *)
Definition syncUserInfoFromDB (u : User) : M UserDB User :=
  r ← try (user_GetByName (us_Username u));
  mret (match r with Ok d => with_admin (us_SysAdminFlag d) u | Err _ => u end).

(** The groups of the entry that the directory knows. *)
Fixpoint ldap_groups (cfg : LdapConf) (groupCfg : GroupConf) (dns : list string) : list UserGroup :=
  match dns with
  | [] => []
  | dn :: dns =>
      match SearchGroupByDN cfg groupCfg dn with
      | Ok (g :: _) => mkUserGroup 0 (lg_Name g) LDAPGroupType dn :: ldap_groups cfg groupCfg dns
      | _ => ldap_groups cfg groupCfg dns
      end
  end.

(** The settings of groups are read again; when that fails they are a nil
    pointer, and the request panics. *)
Definition attachLDAPGroup (lu : LdapUser) (u : User) (cfg : LdapConf) (sessionGroupCfg : GroupConf) : M UserDB User :=
  match LDAPGroupConf with
  | Err _ => fail nil_pointer
  | Ok groupCfg =>
      let adminDN := TrimLower (gc_AdminDN groupCfg) in
      let u := if negb (adminDN == EmptyString) && existsb (λ dn, adminDN == TrimLower dn) (lu_GroupDNList lu)
               then with_admin_role true u else u in
      if gc_Filter groupCfg == EmptyString then mret u
      else ids ← Populate (ldap_groups cfg sessionGroupCfg (lu_GroupDNList lu)); mret (with_groups ids u)
  end.

Definition ldap_Authenticate (principal password : string) : M UserDB (User + auth_error) :=
  if TrimSpace principal == EmptyString then mret (inr (ErrAuth "Empty user id"))
  else
    match ldapConfigs LDAPConf_ LDAPGroupConf with
    | Err e => mret (inr (OtherError (PlainError ("can not load system ldap config: " +:+ error_string e))))
    | Ok (cfg, groupCfg) =>
        match Dial with
        | Some e => mret (inr (OtherError e))
        | None =>
            match SearchUser cfg groupCfg principal with
            | Err e => mret (inr (OtherError e))
            | Ok [] => mret (inr (ErrAuth "Not found an entry"))
            | Ok [lu] =>
                match ldap_Bind (lu_DN lu) password with
                | Some e => mret (inr (ErrAuth (error_string e)))
                | None =>
                    u ← syncUserInfoFromDB (new_user (lu_Username lu) (TrimSpace (lu_Email lu)) (lu_Realname lu));
                    u ← attachLDAPGroup lu u cfg groupCfg;
                    mret (inl u)
                end
            | Ok _ => mret (inr (ErrAuth "Multiple entries found"))
            end
        end
    end.

Definition ldap_OnBoardUser (u : User) : M UserDB User :=
  let u := if (us_Email u == EmptyString) && Contains (us_Username u) "@" then with_email (us_Username u) u else u in
  Onboard salt (with_source (us_Username u) "12345678AbC" "from LDAP." u).

(** The pattern [^[a-z0-9._%+\-]+@[a-z0-9.\-]+\.[a-z]{2,4}$]: one at sign, and a
    last label of two to four letters. *)
Definition label_char (extra : string) (c : ascii) : bool :=
  let n := byte c in
  ((97 <=? n) && (n <=? 122))%N || ((48 <=? n) && (n <=? 57))%N || Contains extra (String c EmptyString).
Definition letter (c : ascii) : bool := let n := byte c in ((97 <=? n) && (n <=? 122))%N.
Definition ldap_email (s : string) : bool :=
  match Split s "@"%char with
  | [l; d] =>
      let labels := Split d "."%char in
      let tld := default EmptyString (last labels) in
      let pre := join_with "." (removelast labels) in
      negb (l == EmptyString) && string_forall (label_char "._%+-") l &&
      (2 <=? length labels)%nat && negb (pre == EmptyString) && string_forall (label_char ".-") pre &&
      string_forall letter tld && (2 <=? String.length tld)%nat && (String.length tld <=? 4)%nat
  | _ => false
  end.

(** The email of the account follows the directory. *)
Definition sync_email (d u : User) : M UserDB User :=
  if (us_Email d == us_Email u) || negb (ldap_email (us_Email u)) then mret u
  else r ← try (UpdateProfile u [user_dao.CEmail]);
       mret (match r with Ok _ => u | Err _ => with_email (us_Email d) u end).

(** [auth_OnBoardUser] is that of the configured authenticator. *)
Definition ldap_PostAuthenticate (auth_OnBoardUser : User → M UserDB User) (u : User) : M UserDB (User * option error) :=
  r ← try (user_Count false (λ a, ac_Username a = us_Username u));
  match r with
  | Err e => mret (u, Some e)
  | Ok n =>
      if 0 <? n then
        r ← try (user_GetByName (us_Username u));
        match r with
        | Err e => mret (u, if IsNotFoundErr e then None else Some e)
        | Ok d => u ← sync_email d (set_id (us_ID d) u); mret (u, None)
        end
      else
        r ← try (auth_OnBoardUser u);
        match r with
        | Err e => mret (u, Some e)
        | Ok u => mret (u, if us_ID u <=? 0 then Some (PlainError "cannot OnBoardUser") else None)
        end
  end.

Definition ldap_SearchUser (username : string) : M UserDB (option User) :=
  match ldapConfigs LDAPConf_ LDAPGroupConf with
  | Err e => fail e
  | Ok (cfg, groupCfg) =>
      match Dial with
      | Some e => fail (PlainError ("failed to load system ldap config, " +:+ error_string e))
      | None =>
          match SearchUser cfg groupCfg username with
          | Err _ => fail (PlainError "failed to search user in ldap")
          | Ok [] => fail (WithMessage (NotFoundError None) ("no user found: " +:+ username))
          | Ok (lu :: _) => mret (Some (new_user (TrimSpace (lu_Username lu)) (TrimSpace (lu_Email lu)) (TrimSpace (lu_Realname lu))))
          end
      end
  end.

Definition ldap_SearchGroup (groupKey : string) : M UserDB (option UserGroup) :=
  match ParseDN groupKey with
  | Err _ => fail ErrInvalidLDAPGroupDN
  | Ok _ =>
      match ldapConfigs LDAPConf_ LDAPGroupConf with
      | Err e => fail (PlainError ("can not load system ldap config: " +:+ error_string e))
      | Ok (cfg, groupCfg) =>
          match Dial with
          | Some e => fail e
          | None =>
              match SearchGroupByDN cfg groupCfg groupKey with
              | Err e => fail e
              | Ok [] => fail (WithMessage (NotFoundError None) ("failed to searh ldap group with groupDN:" +:+ groupKey))
              | Ok (g :: _) => mret (Some (mkUserGroup 0 (lg_Name g) 0 (lg_Dn g)))
              end
          end
      end
  end.

Definition ldap_OnBoardGroup (g : UserGroup) (altGroupName : string) : M UserDB UserGroup :=
  match ParseDN (ug_LdapGroupDN g) with
  | Err _ => fail ErrInvalidLDAPGroupDN
  | Ok _ =>
      let g := mkUserGroup (ug_ID g) (if altGroupName == EmptyString then ug_GroupName g else altGroupName) LDAPGroupType (ug_LdapGroupDN g) in
      l ← group_dao.Query (λ x, ug_LdapGroupDN x = ug_LdapGroupDN g);
      match l with [] => group_Onboard g | _ => fail ErrDuplicateLDAPGroup end
  end.

Definition ldap_provider : Provider :=
  mkProvider (mkHelper ldap_Authenticate (ldap_PostAuthenticate ldap_OnBoardUser)) ldap_OnBoardUser ldap_SearchUser
    ldap_SearchGroup ldap_OnBoardGroup.
End ldap.

(** ** UAA *)

(** [uaa.Client]: a password for a token, what the token tells (email and name),
    and the emails of the accounts of a name. *)
Class UaaClient := {
  ensureClient : option error;
  PasswordAuth : string → string → result string;
  GetUserInfo : string → result (string * string);
  uaa_Search : string → result (list (list string));
}.

Section uaa.
Context {U : UaaClient}.

Definition uaa_Authenticate (principal password : string) : M UserDB (User + auth_error) :=
  mret match ensureClient with
       | Some e => inr (OtherError e)
       | None =>
           match PasswordAuth principal password with
           | Err e => inr (ErrAuth (error_string e))
           | Ok token =>
               match GetUserInfo token with
               | Err _ => inl (new_user principal EmptyString EmptyString)
               | Ok (email, name) => inl (new_user principal email name)
               end
           end
       end.

Definition fillEmailRealName (u : User) : User :=
  let u := if us_Realname u == EmptyString then with_realname (us_Username u) u else u in
  if (us_Email u == EmptyString) && Contains (us_Username u) "@" then with_email (us_Username u) u else u.

Definition uaa_OnBoardUser (u : User) : M UserDB User :=
  let username := TrimSpace (us_Username u) in
  if username == EmptyString then fail (PlainError "the Username is empty")
  else Onboard salt (fillEmailRealName
         (with_source username (if us_Password u == EmptyString then "1234567ab" else us_Password u) "From UAA" u)).

(** The account keeps its flag; its email and name follow the service. *)
Definition uaa_PostAuthenticate (u : User) : M UserDB (User * option error) :=
  r ← try (user_GetByName (us_Username u));
  match r with
  | Err e =>
      if IsNotFoundErr e
      then r ← try (uaa_OnBoardUser u); mret (match r with Ok u => (u, None) | Err e => (u, Some e) end)
      else mret (u, Some e)
  | Ok d =>
      let u := fillEmailRealName (with_admin (us_SysAdminFlag d) (set_id (us_ID d) u)) in
      _ ← try (UpdateProfile u [user_dao.CEmail; user_dao.CRealname]);
      mret (u, None)
  end.

Definition uaa_SearchUser (username : string) : M UserDB (option User) :=
  match ensureClient with
  | Some e => fail e
  | None =>
      match uaa_Search username with
      | Err e => fail e
      | Ok [] => mret None
      | Ok [emails] => mret (Some (new_user username (default EmptyString (head emails)) EmptyString))
      | Ok _ => fail (PlainError ("multiple entries found for username: " +:+ username))
      end
  end.

Definition uaa_provider : Provider :=
  mkProvider (mkHelper uaa_Authenticate uaa_PostAuthenticate) uaa_OnBoardUser uaa_SearchUser unsupported_search
    (λ _ _, fail ErrNotSupported).
End uaa.

(** ** HTTP auth proxy *)

(** [TokenReviewStatus] *)
Record ReviewStatus := mkReview { rs_Authenticated : bool; rs_Username : string; rs_Groups : list string; rs_Error : string }.

Record HTTPAuthProxy := mkHTTPAuthProxy { hp_AdminGroups : list string; hp_AdminUsernames : list string }.

(** The settings; the error of [ensure] when no endpoint is known, and the field
    [SkipSearch] it loaded last; the answer of the endpoint (its status, and its
    body unless reading failed), the session in a body, and the review service. *)
Class AuthProxy := {
  proxy_ensure : option error;
  proxy_SkipSearch : bool;
  proxy_settings : result HTTPAuthProxy;
  proxy_Post : string → string → result (Z * option string);
  session_id : string → result string;
  TokenReview : string → result ReviewStatus;
}.

Section authproxy.
Context {AP : AuthProxy}.

(** [UserFromReviewStatus] *)
Definition UserFromReviewStatus (s : ReviewStatus) (adminGroups adminUsernames : list string) : M UserDB User :=
  if negb (rs_Authenticated s) then fail (PlainError ("failed to authenticate the token, error in status: " +:+ rs_Error s))
  else
    let u := new_user (rs_Username s) EmptyString EmptyString in
    let u := with_admin_role (bool_decide (rs_Username s ∈ adminUsernames)) u in
    match rs_Groups s with
    | [] => mret u
    | groups =>
        ids ← Populate (UserGroupsFromName groups HTTPGroupType);
        let admin := us_AdminRoleInAuth u || existsb (λ g, bool_decide (g ∈ adminGroups)) groups in
        mret (with_admin_role admin (with_groups ids u))
    end.

Definition tokenReview (sessionID : string) : M UserDB User :=
  match proxy_settings with
  | Err e => fail e
  | Ok s =>
      match TokenReview sessionID with
      | Err e => fail e
      | Ok status => UserFromReviewStatus status (hp_AdminGroups s) (hp_AdminUsernames s)
      end
  end.

(** A failure of [ensure] matters when no endpoint was ever loaded. *)
Definition proxy_Authenticate (principal password : string) : M UserDB (User + auth_error) :=
  match proxy_ensure with
  | Some e => mret (inr (OtherError (PlainError ("failed to initialize HTTP Auth Proxy Authenticator, error: " +:+ error_string e))))
  | None =>
  match proxy_Post principal password with
  | Err e => mret (inr (OtherError e))
  | Ok (_, None) => mret (inr (ErrAuth EmptyString))
  | Ok (status, Some data) =>
      if status =? 200 then
        match session_id data with
        | Err e => mret (inr (ErrAuth ("failed to read session " +:+ error_string e)))
        | Ok sid =>
            r ← try (tokenReview sid);
            mret (match r with
                  | Ok u => inl u
                  | Err e => inr (ErrAuth ("failed to do token review, error: " +:+ error_string e))
                  end)
        end
      else if status =? 401 then mret (inr (ErrAuth data))
      else mret (inr (OtherError (PlainError ("failed to authenticate, status code: " +:+ pretty status))))
  end end.

Definition fillInModel (u : User) : result User :=
  if TrimSpace (us_Username u) == EmptyString then Err (PlainError "username cannot be empty")
  else
    let u := with_realname (us_Username u) (with_source (us_Username u) "1234567ab" "By Authproxy" u) in
    Ok (if Contains (us_Username u) "@" then with_email (us_Username u) u else u).

Definition proxy_OnBoardUser (u : User) : M UserDB User := Onboard salt u.

(** Nothing is done for a user that exists. *)
Definition proxy_PostAuthenticate (u : User) : M UserDB (User * option error) :=
  r ← try (user_GetByName (us_Username u));
  match r with
  | Ok _ => mret (u, None)
  | Err e =>
      if IsNotFoundErr e
      then match fillInModel u with
           | Err e => mret (u, Some e)
           | Ok u => r ← try (proxy_OnBoardUser u); mret (match r with Ok u => (u, None) | Err e => (u, Some e) end)
           end
      else mret (u, Some e)
  end.

Definition proxy_SearchUser (username : string) : M UserDB (option User) :=
  if proxy_SkipSearch
  then match fillInModel (new_user username EmptyString EmptyString) with Ok u => mret (Some u) | Err e => fail e end
  else mret None.

Definition proxy_SearchGroup (groupKey : string) : M UserDB (option UserGroup) :=
  mret (if proxy_SkipSearch then Some (mkUserGroup 0 groupKey HTTPGroupType EmptyString) else None).

Definition proxy_OnBoardGroup (g : UserGroup) (altGroupName : string) : M UserDB UserGroup :=
  if ug_GroupName g == EmptyString then fail (PlainError "should provide a group name")
  else group_Onboard (mkUserGroup (ug_ID g) (ug_GroupName g) HTTPGroupType (ug_LdapGroupDN g)).

Definition proxy_provider : Provider :=
  mkProvider (mkHelper proxy_Authenticate proxy_PostAuthenticate) proxy_OnBoardUser proxy_SearchUser proxy_SearchGroup
    proxy_OnBoardGroup.
End authproxy.

(** ** OIDC *)

Definition oidc_OnBoardGroup (g : UserGroup) (altGroupName : string) : M UserDB UserGroup :=
  if (ug_GroupName g == EmptyString) || negb (ug_GroupType g =? OIDCGroupType)
  then fail (PlainError "invalid input group for OIDC mode") else group_Onboard g.

Definition oidc_provider : Provider :=
  mkProvider (pr_login DefaultAuthenticateHelper) (pr_OnBoardUser DefaultAuthenticateHelper) unsupported_search
    (λ key, mret (Some (mkUserGroup 0 key OIDCGroupType EmptyString))) oidc_OnBoardGroup.

(** ** Database *)

Definition db_provider : Provider :=
  mkProvider db_helper (λ u, mret u)
    (λ username, r ← try (user_GetByName username);
       match r with Ok u => mret (Some u) | Err e => if IsNotFoundErr e then mret None else fail e end)
    unsupported_search (λ _ _, fail ErrNotSupported).

(** ** Dispatch: [src/core/auth/authenticator.go] *)

Section dispatch.
Context (AuthMode : result string) (registry : gmap string Provider).

Definition getHelper : result Provider :=
  match AuthMode with
  | Err e => Err e
  | Ok mode => match registry !! mode with
               | Some p => Ok p
               | None => Err (PlainError ("can not get authenticator, authmode: " +:+ mode))
               end
  end.

Definition with_helper {A} (f : Provider → M UserDB A) : M UserDB A :=
  match getHelper with Ok p => f p | Err e => fail e end.

Definition auth_OnBoardUser (u : User) : M UserDB User := with_helper (λ p, pr_OnBoardUser p u).
Definition auth_SearchUser (username : string) : M UserDB (option User) := with_helper (λ p, pr_SearchUser p username).
Definition auth_OnBoardGroup (g : UserGroup) (alt : string) : M UserDB UserGroup := with_helper (λ p, pr_OnBoardGroup p g alt).
Definition auth_SearchGroup (key : string) : M UserDB (option UserGroup) := with_helper (λ p, pr_SearchGroup p key).

Definition SearchAndOnBoardUser (username : string) : M UserDB Z :=
  u ← auth_SearchUser username;
  match u with
  | None => fail (WithMessage (NotFoundError None) ("user " +:+ username +:+ " is not found"))
  | Some u => u ← auth_OnBoardUser u; mret (us_ID u)
  end.

Definition SearchAndOnBoardGroup (groupKey altGroupName : string) : M UserDB Z :=
  g ← auth_SearchGroup groupKey;
  match g with
  | None => fail ErrorGroupNotExist
  | Some g => g ← auth_OnBoardGroup g altGroupName; mret (ug_ID g)
  end.
End dispatch.
End providers.
