(* ===== verification/Oidc.v ===== *)
(** * OIDC: [src/pkg/oidc/helper.go], [src/pkg/oidc/secret.go]

    The provider, the library that verifies its tokens and the encodings are the
    class [OidcProvider]; the file holds how Harbor turns what they say into a
    user and its groups, and how the secret of the command line is verified. *)

From S2P Require Import Prelude GoErrors GoStrings Orm Table Hoare Encrypt Users UserGroups AuthProviders.

Open Scope Z_scope.
Local Open Scope harbor_scope.

(** ** What a token says *)

Record UserInfo := mkUserInfo {
  ui_Issuer : string; ui_Subject : string; ui_Username : string; ui_Email : string; ui_Groups : list string;
  ui_AdminGroupMember : bool; ui_autoOnboardUsername : string; ui_hasGroupClaim : bool }.

(** A value of a claim, as far as it is looked at. *)
Inductive Claim := CString (s : string) | CList (l : list (option string)) | COther.

Record OIDCSetting := mkOIDCSetting {
  os_GroupsClaim : string; os_AdminGroup : string; os_GroupFilter : string; os_UserClaim : string }.

(** [provider.get] with the settings it loaded, the verification of an ID token
    (with or without its audience and expiry), the userinfo endpoint, the
    refresh of a token, the decoding of claims, and tokens as they are stored. *)
Class OidcProvider := {
  claims : Type;
  oauth_token : Type;
  RawIDToken : oauth_token → string;
  id_token_only : string → oauth_token;
  provider_get : result OIDCSetting;
  OIDCSetting_ : result OIDCSetting;
  verifier_Verify : bool → string → result claims;
  provider_UserInfo : oauth_token → result claims;
  oauth_Refresh : oauth_token → result oauth_token;
  token_Valid : oauth_token → bool;
  Claims_info : claims → result UserInfo;
  Claims_map : claims → result (gmap string Claim);
  token_Unmarshal : string → result oauth_token;
  token_Marshal : oauth_token → result string;
  regexp_Compile : string → option (string → bool);
}.

Section oidc.
Context {OP : OidcProvider} {UC : UserConfig}.

(** ** [helper.go] *)

(** [strict]: the audience and the expiry are checked. *)
Definition verifyTokenWithConfig (strict : bool) (raw : string) : result claims :=
  match provider_get with Err e => Err e | Ok _ => verifier_Verify strict raw end.
Definition VerifyToken (raw : string) : result claims := verifyTokenWithConfig true raw.
Definition parseIDToken (raw : string) : result claims := verifyTokenWithConfig false raw.

Definition refreshToken (t : oauth_token) : result oauth_token :=
  match provider_get with Err e => Err e | Ok _ => oauth_Refresh t end.

(** Elements that are not strings are left out. *)
Definition groupsFromClaims (c : claims) (k : string) : list string * bool :=
  match Claims_map c with
  | Err _ => ([], false)
  | Ok m => match m !! k with Some (CList l) => (omap id l, true) | _ => ([], false) end
  end.

Definition userInfoFromClaims (c : claims) (setting : OIDCSetting) : result UserInfo :=
  match Claims_info c with
  | Err e => Err e
  | Ok res =>
      match (if os_UserClaim setting == EmptyString then Ok None
             else match Claims_map c with
                  | Err e => Err e
                  | Ok m => Ok (match m !! os_UserClaim setting with Some (CString s) => Some s | _ => None end)
                  end) with
      | Err e => Err e
      | Ok username =>
          let '(groups, has) := groupsFromClaims c (os_GroupsClaim setting) in
          Ok (mkUserInfo (ui_Issuer res) (ui_Subject res) (default (ui_Username res) username) (ui_Email res) groups
                (ui_AdminGroupMember res || (negb (os_AdminGroup setting == EmptyString) && bool_decide (os_AdminGroup setting ∈ groups)))
                (default (ui_autoOnboardUsername res) username) has)
      end
  end.

Definition UserInfoFromIDToken (t : oauth_token) (setting : OIDCSetting) : result (option UserInfo) :=
  if RawIDToken t == EmptyString then Ok None
  else match parseIDToken (RawIDToken t) with
       | Err e => Err e
       | Ok c => match userInfoFromClaims c setting with Err e => Err e | Ok i => Ok (Some i) end
       end.

Definition userInfoFromRemote (t : oauth_token) (setting : OIDCSetting) : result UserInfo :=
  match provider_get with
  | Err e => Err e
  | Ok _ => match provider_UserInfo t with Err e => Err e | Ok c => userInfoFromClaims c setting end
  end.

Definition mergeUserInfo (remote local : UserInfo) : UserInfo :=
  let username := if negb (ui_autoOnboardUsername local == EmptyString) then ui_autoOnboardUsername local
                  else if negb (ui_Username remote == EmptyString) then ui_Username remote else ui_Username local in
  let '(groups, admin, has) :=
    if ui_hasGroupClaim remote then (ui_Groups remote, ui_AdminGroupMember remote, true)
    else if ui_hasGroupClaim local then (ui_Groups local, ui_AdminGroupMember local, true)
    else ([], false, false) in
  mkUserInfo (ui_Issuer local) (ui_Subject local) username (ui_Email remote) groups admin EmptyString has.

(** A failure of the endpoint is logged; the ID token is enough. *)
Definition UserInfoFromToken (t : oauth_token) : result UserInfo :=
  match provider_get with
  | Err e => Err e
  | Ok setting =>
      match UserInfoFromIDToken t setting with
      | Err e => Err e
      | Ok local =>
          match userInfoFromRemote t setting, local with
          | Ok remote, Some local =>
              if ui_Subject remote == ui_Subject local then Ok (mergeUserInfo remote local)
              else Err (PlainError "the subject from userinfo does not match the subject from ID token, probably a security attack happened")
          | Ok remote, None => Ok remote
          | Err _, Some local => Ok local
          | Err _, None => Err (PlainError "failed to get userinfo from both remote and ID token")
          end
      end
  end.

(** An invalid filter is no filter. *)
Definition filterGroup (groupNames : list string) (filter_ : string) : list string :=
  if filter_ == EmptyString then groupNames
  else match regexp_Compile filter_ with None => groupNames | Some p => filter (λ n, p n = true) groupNames end.

Definition populateGroupsDB (groupNames : list string) : M UserDB (list Z) :=
  match OIDCSetting_ with
  | Err e => fail e
  | Ok cfg => Populate (UserGroupsFromName (filterGroup groupNames (os_GroupFilter cfg)) OIDCGroupType)
  end.

Definition InjectGroupsToUser (info : option UserInfo) (u : User) : M UserDB User :=
  match info with
  | None => mret u
  | Some i =>
      r ← try (populateGroupsDB (ui_Groups i));
      let u := match r with Ok ids => with_groups ids u | Err _ => u end in
      mret (with_admin_role (ui_AdminGroupMember i) u)
  end.

(** ** [secret.go] *)

Section secret.
Context (AES : bytes → bytes → bytes) (encryptKey : result string) (random : result bytes).

(** [metaDAO.GetByUsername]: the record of the account of the name. *)
Definition oidc_GetByUsername (username : string) : M UserDB OIDCUser :=
  _ ← FromContext;
  query (λ d, match head (select (λ o, ac_Username <$> rows (accounts d) !! ou_UserID o = Some username) (oidc_users d)) with
              | Some o => Ok o
              | None => Err ErrNoRows
              end).

Definition verifyError (msg : string) : error := PlainError ("failed to verify the secret: " +:+ msg).

(** The token that is stored, refreshed when it is no longer valid; the new one is
    written back, and failing to do so is logged.  A token that cannot be
    encrypted is stored as the empty text. *)
Definition refreshed (o : OIDCUser) (key : string) (t : oauth_token) : M UserDB oauth_token :=
  if token_Valid t then mret t
  else match refreshToken t with
       | Err e => fail (PlainError ("failed to refresh token, error: " +:+ error_string e))
       | Ok t' =>
           match token_Marshal t' with
           | Err e => fail (PlainError ("failed to encode the refreshed token, error: " +:+ error_string e))
           | Ok tb =>
               let enc := match ReversibleEncrypt AES random tb key with Ok s => s | Err _ => EmptyString end in
               _ ← try (oidc_Update (ou_ID o) (λ x, set_secret_token (ou_Secret x) enc x));
               mret t'
           end
       end.

Definition VerifySecret (username secret : string) : M UserDB UserInfo :=
  r ← try (oidc_GetByUsername username);
  match r with
  | Err e => fail (PlainError ("failed to get oidc user info, error: " +:+ error_string e))
  | Ok o =>
      match encryptKey with
      | Err e => fail (PlainError ("failed to load the key for encryption/decryption: " +:+ error_string e))
      | Ok key =>
          match ReversibleDecrypt AES (ou_Secret o) key with
          | Err e => fail (PlainError ("failed to decrypt secret from DB: " +:+ error_string e))
          | Ok plain =>
              if negb (secret == plain) then fail (verifyError ("secret mismatch, username: " +:+ username))
              else
                match ReversibleDecrypt AES (ou_Token o) key with
                | Err e => fail (verifyError (error_string e))
                | Ok tokenStr =>
                    match token_Unmarshal tokenStr with
                    | Err e => fail (verifyError (error_string e))
                    | Ok t =>
                        t ← refreshed o key t;
                        match UserInfoFromToken t with Err e => fail (verifyError (error_string e)) | Ok i => mret i end
                    end
                end
          end
      end
  end.
End secret.
End oidc.
