(* ===== verification/ProxySecret.v ===== *)
(** * One-time secrets of the proxy cache: [src/pkg/proxy/secret/manager.go]

    The proxy pushes what it pulled from a remote registry to Harbor itself and
    authorizes these requests with secrets that a manager keeps in memory.  The
    manager is shared by all requests of a process: the file models the calls as
    threads whose steps are the atomic operations of the code (one access to the
    [sync.Map], one atomic instruction, one acquisition of the mutex), and shows
    what holds under every interleaving. *)

From S2P Require Import Prelude GoStrings.

Open Scope Z_scope.

(** ** The manager *)

(** [targetRepository]; times are nanoseconds since Go's zero time. *)
Record targetRepository := mkTarget { name : string; expiresAt : Z }.

#[global] Instance targetRepository_eq_dec : EqDecision targetRepository.
Proof. solve_decision. Defined.

(** [mgr]; the flags hold 0 or 1. *)
Record mgr := mkMgr {
  gcFlag : bool;
  gcScheduleFlag : bool;
  gcInterval : Z;
  lastGC : Z;
  size_ : Z;
  cap : Z;
  m : gmap string targetRepository;
  lock : bool;
  exp : Z
}.

Definition set_m (g : mgr) (x : gmap string targetRepository) : mgr :=
  mkMgr (gcFlag g) (gcScheduleFlag g) (gcInterval g) (lastGC g) (size_ g) (cap g) x (lock g) (exp g).
Definition set_size (g : mgr) (n : Z) : mgr :=
  mkMgr (gcFlag g) (gcScheduleFlag g) (gcInterval g) (lastGC g) n (cap g) (m g) (lock g) (exp g).
Definition set_lock (g : mgr) (b : bool) : mgr :=
  mkMgr (gcFlag g) (gcScheduleFlag g) (gcInterval g) (lastGC g) (size_ g) (cap g) (m g) b (exp g).
Definition set_gcFlag (g : mgr) (b : bool) : mgr :=
  mkMgr b (gcScheduleFlag g) (gcInterval g) (lastGC g) (size_ g) (cap g) (m g) (lock g) (exp g).
Definition set_gcScheduleFlag (g : mgr) (b : bool) : mgr :=
  mkMgr (gcFlag g) b (gcInterval g) (lastGC g) (size_ g) (cap g) (m g) (lock g) (exp g).
Definition set_lastGC (g : mgr) (z : Z) : mgr :=
  mkMgr (gcFlag g) (gcScheduleFlag g) (gcInterval g) z (size_ g) (cap g) (m g) (lock g) (exp g).

(** Wrap-around of an [uint64]: the size is changed by adding 1 or the
    complement of 0. *)
Definition wrap_u64 (z : Z) : Z := z mod 2 ^ 64.

Definition createManager (d c interval : Z) : mgr := mkMgr false false interval 0 0 c ∅ false d.

Definition second : Z := 10 ^ 9.
Definition defaultExpiration : Z := 15 * second.
Definition defaultGCInterval : Z := 10 * second.
Definition defaultCap : Z := 1024 * 1024.

(** ** Threads *)

(** Who called [gc]: [Generate] for a repository, or the goroutine a previous
    collection scheduled. *)
Inductive gc_caller := CGen (rn : string) | CSched.

(** Who called [delete]: [Verify] with its result, or the [Range] loop. *)
Inductive del_caller :=
  | KVerify (p : targetRepository) (b : bool)
  | KRange (g : gc_caller) (snap visited : gset string).

(** Where [delete] is: before its first load, at the lock, and inside. *)
Inductive del_pc := DLoad | DLock | DCheck | DDelete | DAdd | DUnlock.

(** What a call returned. *)
Inductive outcome := Secret (s : string) | Verified (sec rn : string) (b : bool) | Exited.

Inductive pc :=
  | GenLoad (rn : string)
  | GenRandom (rn : string)
  | GenStore (s : string) (t : targetRepository)
  | GenAdd (s : string)
  | VerLoad (sec rn : string)
  | VerTime (sec : string) (p : targetRepository)
  | Del (d : del_pc) (sec : string) (k : del_caller)
  | GcGrab (g : gc_caller)
  | GcTime (g : gc_caller)
  | GcRange (g : gc_caller) (snap visited : gset string)
  | GcCheck (g : gc_caller) (snap visited : gset string) (k : string) (t : targetRepository)
  | GcLast (g : gc_caller)
  | GcSize (g : gc_caller)
  | GcSchedule (g : gc_caller)
  | GcRelease (g : gc_caller)
  | SchedSleep (until : Z)
  | SchedRelease
  | Done (o : outcome).

Definition gc_return (g : gc_caller) : pc := match g with CGen rn => GenRandom rn | CSched => Done Exited end.

Definition del_return (sec : string) (k : del_caller) : pc :=
  match k with
  | KVerify p b => Done (Verified sec (name p) b)
  | KRange g snap visited => GcRange g snap visited
  end.

(** What the environment chooses: the random string, or the next key of [Range],
    or that the loop ends. *)
Inductive choice := Pick (s : string) | Next.

(** *** [delete] *)
Definition step_delete (g : mgr) (d : del_pc) (sec : string) (k : del_caller) : option (mgr * pc) :=
  match d with
  | DLoad => Some (g, if bool_decide (is_Some (m g !! sec)) then Del DLock sec k else del_return sec k)
  | DLock => if lock g then None else Some (set_lock g true, Del DCheck sec k)
  | DCheck => Some (g, Del (if bool_decide (is_Some (m g !! sec)) then DDelete else DUnlock) sec k)
  | DDelete => Some (set_m g (delete sec (m g)), Del DAdd sec k)
  | DAdd => Some (set_size g (wrap_u64 (size_ g + (2 ^ 64 - 1))), Del DUnlock sec k)
  | DUnlock => Some (set_lock g false, del_return sec k)
  end.

(** *** [Verify]: the expiration is compared with the clock after the load, and
    the deferred [delete] runs before the call returns. *)
Definition step_verify (g : mgr) (now : Z) (sec rn : string) : pc :=
  match m g !! sec with
  | None => Done (Verified sec rn false)
  | Some p => if bool_decide (name p = rn) then VerTime sec p else Done (Verified sec rn false)
  end.

(** *** [gc] and the goroutine it schedules.  [Range] visits a key at most once,
    and every key that stays in the map for the whole loop. *)
Definition step_gc (g : mgr) (now : Z) (p : pc) (c : choice) : option (mgr * pc * option pc) :=
  match p with
  | GcGrab r => Some (if gcFlag g then (g, gc_return r, None) else (set_gcFlag g true, GcTime r, None))
  | GcTime r => Some (g, if now <? lastGC g + gcInterval g then GcSize r else GcRange r (dom (m g)) ∅, None)
  | GcRange r snap visited =>
      match c with
      | Pick k =>
          if bool_decide (k ∈ visited) then None
          else match m g !! k with
               | Some t => Some (g, GcCheck r snap ({[k]} ∪ visited) k t, None)
               | None => None
               end
      | Next => if bool_decide (snap ∩ dom (m g) ⊆ visited) then Some (g, GcLast r, None) else None
      end
  | GcCheck r snap visited k t =>
      Some (g, if expiresAt t <? now then Del DLoad k (KRange r snap visited) else GcRange r snap visited, None)
  | GcLast r => Some (set_lastGC g now, GcSize r, None)
  | GcSize r => Some (g, if cap g <? size_ g then GcSchedule r else GcRelease r, None)
  | GcSchedule r =>
      Some (if gcScheduleFlag g then (g, GcRelease r, None)
            else (set_gcScheduleFlag g true, GcRelease r, Some (SchedSleep (now + gcInterval g))))
  | GcRelease r => Some (set_gcFlag g false, gc_return r, None)
  | SchedSleep until => if now <? until then None else Some (g, SchedRelease, None)
  | SchedRelease => Some (set_gcScheduleFlag g false, GcGrab CSched, None)
  | _ => None
  end.

(** *** One atomic step of a thread, with the thread it starts *)
Definition step_pc (g : mgr) (now : Z) (p : pc) (c : choice) : option (mgr * pc * option pc) :=
  match p with
  | GenLoad rn => Some (g, if cap g <? size_ g then GcGrab (CGen rn) else GenRandom rn, None)
  | GenRandom rn =>
      match c with Pick s => Some (g, GenStore s (mkTarget rn (now + exp g)), None) | Next => None end
  | GenStore s t => Some (set_m g (<[s := t]> (m g)), GenAdd s, None)
  | GenAdd s => Some (set_size g (wrap_u64 (size_ g + 1)), Done (Secret s), None)
  | VerLoad sec rn => Some (g, step_verify g now sec rn, None)
  | VerTime sec p => Some (g, Del DLoad sec (KVerify p (now <? expiresAt p)), None)
  | Del d sec k => '(g', p') ← step_delete g d sec k; Some (g', p', None)
  | Done _ => None
  | _ => step_gc g now p c
  end.

(** ** A call without interference: what [Verify] returns and leaves *)
Definition Verify_alone (now : Z) (sec rn : string) (g : mgr) : bool * mgr :=
  match m g !! sec with
  | Some p => if bool_decide (name p = rn)
              then (now <? expiresAt p, set_size (set_m g (delete sec (m g))) (wrap_u64 (size_ g + (2 ^ 64 - 1))))
              else (false, g)
  | None => (false, g)
  end.

(** ** The system *)

(** The manager, the clock and the threads, with a record of what was issued,
    of the secrets that were presented for their repository, and of what was
    accepted, when. *)
Record State := mkState {
  man : mgr;
  now : Z;
  threads : gmap nat pc;
  issued : list (string * targetRepository);
  presented : gset string;
  accepted : list (string * string * Z)
}.

Definition initial (d c interval t0 : Z) : State := mkState (createManager d c interval) t0 ∅ [] ∅ [].

Inductive action :=
  | Generate (t : nat) (rn : string)
  | Verify (t : nat) (sec rn : string)
  | Tick (n : Z)
  | Go (t : nat) (c : choice) (spawn : nat).

Definition start (w : State) (t : nat) (p : pc) : option State :=
  match threads w !! t with
  | Some _ => None
  | None => Some (mkState (man w) (now w) (<[t := p]> (threads w)) (issued w) (presented w) (accepted w))
  end.

(** The record of a step. *)
Definition issue (p : pc) (l : list (string * targetRepository)) : list (string * targetRepository) :=
  match p with GenStore s t => (s, t) :: l | _ => l end.
Definition present (p' : pc) (l : gset string) : gset string :=
  match p' with VerTime sec _ => {[sec]} ∪ l | _ => l end.
Definition accept (z : Z) (p p' : pc) (l : list (string * string * Z)) : list (string * string * Z) :=
  match p, p' with VerTime sec t, Del _ _ (KVerify _ true) => (sec, name t, z) :: l | _, _ => l end.

Definition spawn_in (w : gmap nat pc) (t : nat) (p : option pc) : option (gmap nat pc) :=
  match p with
  | None => Some w
  | Some p => match w !! t with Some _ => None | None => Some (<[t := p]> w) end
  end.

Definition exec (w : State) (a : action) : option State :=
  match a with
  | Generate t rn => start w t (GenLoad rn)
  | Verify t sec rn => start w t (VerLoad sec rn)
  | Tick n => if 0 <=? n then Some (mkState (man w) (now w + n) (threads w) (issued w) (presented w) (accepted w)) else None
  | Go t c t' =>
      p ← threads w !! t;
      '(g, p', q) ← step_pc (man w) (now w) p c;
      ths ← spawn_in (<[t := p']> (threads w)) t' q;
      Some (mkState g (now w) ths (issue p (issued w)) (present p' (presented w)) (accept (now w) p p' (accepted w)))
  end.

Definition run (w : State) (l : list action) : option State := foldl (λ o a, w ← o; exec w a) (Some w) l.
