(* ===== verification/ProxySecretSpec.v ===== *)
(** * What the secrets of the proxy cache guarantee

    The invariant of [ProxySecret] under every interleaving, and its
    consequences for the callers. *)

From S2P Require Import Prelude GoStrings ProxySecret.

Open Scope Z_scope.

(** ** Counting threads *)

Definition count (P : pc → bool) (ths : gmap nat pc) : Z :=
  Z.of_nat (size (filter (λ kv : nat * pc, P kv.2 = true) ths)).

Lemma count_new P ths t p : ths !! t = None → count P (<[t := p]> ths) = count P ths + Z.b2z (P p).
Proof.
  intros Ht. unfold count. destruct (P p) eqn:E.
  - rewrite map_filter_insert_True by done. rewrite map_size_insert_None.
    + simpl. lia.
    + rewrite map_lookup_filter_None. by left.
  - rewrite map_filter_insert_False by (simpl; congruence). rewrite delete_id by done. simpl. lia.
Qed.

Lemma count_put P ths t p p' : ths !! t = Some p →
  count P (<[t := p']> ths) = count P ths - Z.b2z (P p) + Z.b2z (P p').
Proof.
  intros Ht. rewrite <-(insert_delete_id ths t p) at 2 by done.
  rewrite <-insert_delete_eq, !count_new by apply lookup_delete_eq. lia.
Qed.

Lemma count_nonneg P ths : 0 ≤ count P ths.
Proof. unfold count. lia. Qed.

Lemma secrets_count_pos P ths t p : ths !! t = Some p → P p = true → 1 ≤ count P ths.
Proof.
  intros Ht Hp. rewrite <-(insert_delete_id ths t p) by done.
  rewrite count_new by apply lookup_delete_eq. rewrite Hp. pose proof (count_nonneg P (delete t ths)). simpl. lia.
Qed.

Lemma secrets_count_none P ths : (∀ i p, ths !! i = Some p → P p = false) → count P ths = 0.
Proof.
  intros H. unfold count. enough (filter (λ kv : nat * pc, P kv.2 = true) ths = ∅) as -> by done.
  apply map_eq. intros i. rewrite lookup_empty, map_lookup_filter_None. right. intros p Hp. simpl.
  by rewrite (H _ _ Hp).
Qed.

(** Two threads of which only one may be there are one thread. *)
Lemma count_unique P ths t1 t2 p1 p2 : count P ths ≤ 1 →
  ths !! t1 = Some p1 → ths !! t2 = Some p2 → P p1 = true → P p2 = true → t1 = t2.
Proof.
  intros Hc H1 H2 Hp1 Hp2. destruct (decide (t1 = t2)) as [|Hne]; [done|]. exfalso.
  rewrite <-(insert_delete_id ths t1 p1) in Hc by done. rewrite count_new in Hc by apply lookup_delete_eq.
  assert (delete t1 ths !! t2 = Some p2) as H by (by rewrite lookup_delete_ne by done).
  pose proof (secrets_count_pos P _ _ _ H Hp2). rewrite Hp1 in Hc. simpl in Hc. lia.
Qed.

(** ** Where a thread is *)

(** Holding the mutex. *)
Definition in_critical (p : pc) : bool :=
  match p with Del (DCheck | DDelete | DAdd | DUnlock) _ _ => true | _ => false end.

(** Holding the flag of the collection. *)
Definition in_gc (p : pc) : bool :=
  match p with
  | GcTime _ | GcRange _ _ _ | GcCheck _ _ _ _ _ | GcLast _ | GcSize _ | GcSchedule _ | GcRelease _
  | Del _ _ (KRange _ _ _) => true
  | _ => false
  end.

(** A scheduled collection that has not begun. *)
Definition is_scheduled (p : pc) : bool := match p with SchedSleep _ | SchedRelease => true | _ => false end.

(** Between a change of the map and that of the size. *)
Definition stored_not_counted (p : pc) : bool := match p with GenAdd _ => true | _ => false end.
Definition deleted_not_counted (p : pc) : bool := match p with Del DAdd _ _ => true | _ => false end.

(** What a thread knows. *)
Definition pc_ok (w : State) (p : pc) : Prop :=
  match p with
  | VerTime sec t => (sec, t) ∈ issued w ∧ sec ∈ presented w
  | Del d sec k =>
      (∃ t, (sec, t) ∈ issued w ∧
        match k with KVerify p _ => p = t ∧ sec ∈ presented w | KRange _ _ _ => expiresAt t < now w end) ∧
      match d with DDelete => is_Some (m (man w) !! sec) | DAdd | DUnlock => m (man w) !! sec = None | _ => True end
  | GcCheck _ _ _ k t => (k, t) ∈ issued w
  | Done (Verified sec rn true) => (∃ t, (sec, t) ∈ issued w ∧ name t = rn) ∧ m (man w) !! sec = None
  | _ => True
  end.

Record inv (w : State) : Prop := {
  i_lock : count in_critical (threads w) = Z.b2z (lock (man w));
  i_gc : count in_gc (threads w) = Z.b2z (gcFlag (man w));
  i_sched : count is_scheduled (threads w) = Z.b2z (gcScheduleFlag (man w));
  i_size : size_ (man w) = wrap_u64 (Z.of_nat (size (m (man w)))
             - count stored_not_counted (threads w) + count deleted_not_counted (threads w));
  i_issued : ∀ s t, m (man w) !! s = Some t → (s, t) ∈ issued w;
  i_live : ∀ s t, (s, t) ∈ issued w → s ∉ presented w → now w ≤ expiresAt t → m (man w) !! s = Some t;
  i_accepted : ∀ s rn z, (s, rn, z) ∈ accepted w → s ∈ presented w ∧ ∃ t, (s, t) ∈ issued w ∧ name t = rn ∧ z < expiresAt t;
  i_pc : ∀ i p, threads w !! i = Some p → pc_ok w p
}.

Lemma inv_initial d c interval t0 : inv (initial d c interval t0).
Proof. by split; try (intros; set_solver). Qed.

(** ** Preservation *)

(** What a thread knows survives a step of another: issued and presented secrets
    are remembered, time goes on, no secret comes back, and only the thread in
    the critical section deletes. *)
Record later (w w' : State) : Prop := {
  l_issued : issued w ⊆ issued w';
  l_presented : presented w ⊆ presented w';
  l_now : now w ≤ now w';
  l_gone : ∀ s t, (s, t) ∈ issued w → m (man w) !! s = None → m (man w') !! s = None
}.

Lemma pc_ok_later w w' p : later w w' → pc_ok w p →
  (∀ sec k, p = Del DDelete sec k → is_Some (m (man w) !! sec) → is_Some (m (man w') !! sec)) → pc_ok w' p.
Proof.
  intros [Hi Hp Hn Hg] Hok Hd. destruct p; simpl in *; try done.
  - set_solver.
  - destruct Hok as [(t & Ht & Hk) Hm]. split.
    + exists t. split; [by apply Hi|]. destruct k; [set_solver|lia].
    + destruct d; try done; eauto.
  - by apply Hi.
  - destruct o as [| ? ? []|]; try done. destruct Hok as [(t & Ht & Hn') Hm]. split; [|eauto].
    exists t. split; [by apply Hi|done].
Qed.

Lemma later_refl w : later w w.
Proof. split; auto; lia. Qed.

(** Case analysis of a step of a thread. *)
Ltac step_cases p H :=
  destruct p as [| | | | | |[] ? []| | | | | | | | | | |];
  unfold step_pc, step_delete, step_verify, step_gc, gc_return in H; simpl in H;
  repeat (first [progress simplify_eq/= | case_match]).

(** The flags and the lock move with the threads that hold them. *)
Lemma step_flags g z p c g' p' q : step_pc g z p c = Some (g', p', q) →
  (in_critical p = true → lock g = true) → (in_gc p = true → gcFlag g = true) →
  (is_scheduled p = true → gcScheduleFlag g = true) →
  Z.b2z (lock g') = Z.b2z (lock g) - Z.b2z (in_critical p) + Z.b2z (in_critical p') ∧
  Z.b2z (gcFlag g') = Z.b2z (gcFlag g) - Z.b2z (in_gc p) + Z.b2z (in_gc p') ∧
  Z.b2z (gcScheduleFlag g') = Z.b2z (gcScheduleFlag g) - Z.b2z (is_scheduled p) + Z.b2z (is_scheduled p')
    + Z.b2z (match q with Some _ => true | None => false end) ∧
  (∀ q0, q = Some q0 → is_scheduled q0 = true ∧ in_gc q0 = false ∧ in_critical q0 = false ∧
     stored_not_counted q0 = false ∧ deleted_not_counted q0 = false ∧ ∀ w, pc_ok w q0).
Proof.
  intros H Hc Hg Hs. step_cases p H; rewrite ?Hc, ?Hg, ?Hs by done; split_and!;
    try (intros; simplify_eq; done); try lia;
    repeat match goal with E : _ = true |- _ => rewrite E | E : _ = false |- _ => rewrite E end; done.
Qed.

Lemma wrap_u64_add a b : wrap_u64 (wrap_u64 a + b) = wrap_u64 (a + b).
Proof. unfold wrap_u64. by rewrite Z.add_mod_idemp_l by lia. Qed.

Lemma wrap_u64_pred a : wrap_u64 (a + (2 ^ 64 - 1)) = wrap_u64 (a + -1).
Proof. unfold wrap_u64. replace (a + (2 ^ 64 - 1)) with (a + -1 + 1 * 2 ^ 64) by lia. by rewrite Z.mod_add by lia. Qed.

Lemma size_delete {A} (x : gmap string A) k : is_Some (x !! k) → Z.of_nat (size (delete k x)) = Z.of_nat (size x) - 1.
Proof.
  intros [a Ha]. rewrite <-(insert_delete_id x k a) at 2 by done.
  rewrite map_size_insert_None by apply lookup_delete_eq. lia.
Qed.

(** The size follows the map, up to the threads that are about to count. *)
Lemma step_size g z p c g' p' q x : step_pc g z p c = Some (g', p', q) →
  (∀ s t, p = GenStore s t → m g !! s = None) → (∀ sec k, p = Del DDelete sec k → is_Some (m g !! sec)) →
  size_ g = wrap_u64 (Z.of_nat (size (m g)) + x) →
  size_ g' = wrap_u64 (Z.of_nat (size (m g')) + x
    + Z.b2z (stored_not_counted p) - Z.b2z (stored_not_counted p')
    - Z.b2z (deleted_not_counted p) + Z.b2z (deleted_not_counted p')).
Proof.
  intros H Hs Hd Hx. step_cases p H; rewrite ?Hx, ?wrap_u64_pred, ?wrap_u64_add; try (f_equal; lia).
  - rewrite map_size_insert_None by (by eapply Hs). f_equal. lia.
  - rewrite size_delete by (by eapply Hd). f_equal. lia.
  - rewrite size_delete by (by eapply Hd). f_equal. lia.
Qed.

(** What the thread that moved knows. *)
Lemma step_pc_ok w t p c g' p' q iss prs acc ths : threads w !! t = Some p → pc_ok w p →
  (∀ s x, m (man w) !! s = Some x → (s, x) ∈ issued w) →
  step_pc (man w) (now w) p c = Some (g', p', q) →
  iss = issue p (issued w) → prs = present p' (presented w) →
  pc_ok (mkState g' (now w) ths iss prs acc) p'.
Proof.
  intros Ht Hok Hiss H -> ->. step_cases p H; simpl in *; try done.
  all: repeat match goal with
    | H : _ ∧ _ |- _ => destruct H | H : ∃ _, _ |- _ => destruct H
    | E : bool_decide (is_Some _) = true |- _ => apply bool_decide_eq_true in E
    | E : bool_decide (is_Some _) = false |- _ => apply bool_decide_eq_false, eq_None_not_Some in E
    | E : (_ <? _) = true |- _ => apply Z.ltb_lt in E end; simplify_eq; rewrite ?lookup_delete_eq.
  all: try (split; [|done || set_solver]); eauto 6.
Qed.

(** The map changes where a secret is stored or deleted only. *)
Lemma step_map g z p c g' p' q : step_pc g z p c = Some (g', p', q) →
  (m g' = m g ∧ ∀ l, issue p l = l) ∨ (∃ s t, p = GenStore s t ∧ m g' = <[s := t]> (m g)) ∨
  (∃ sec k, p = Del DDelete sec k ∧ m g' = delete sec (m g)).
Proof. intros H. step_cases p H; eauto 8. Qed.

(** A step of a thread as a change of the state. *)
Lemma exec_go w t c t' w' : exec w (Go t c t') = Some w' → ∃ p g' p' q ths,
  threads w !! t = Some p ∧ step_pc (man w) (now w) p c = Some (g', p', q) ∧
  spawn_in (<[t := p']> (threads w)) t' q = Some ths ∧
  w' = mkState g' (now w) ths (issue p (issued w)) (present p' (presented w)) (accept (now w) p p' (accepted w)).
Proof.
  cbn [exec]. intros H. destruct (threads w !! t) as [p|] eqn:Ep; [|done]. simpl in H.
  destruct (step_pc _ _ p c) as [[[g' p'] q]|] eqn:E; [|done]. simpl in H.
  destruct (spawn_in _ _ _) as [ths|] eqn:Es; [|done]. simplify_eq/=. by repeat eexists.
Qed.

Lemma spawn_count P ths t p p' t' q ths' : ths !! t = Some p → spawn_in (<[t := p']> ths) t' q = Some ths' →
  count P ths' = count P ths - Z.b2z (P p) + Z.b2z (P p') + match q with Some q => Z.b2z (P q) | None => 0 end.
Proof.
  intros Ht H. destruct q as [q|]; simpl in H; [|simplify_eq; rewrite (count_put _ _ _ p) by done; lia].
  destruct (<[t:=p']> ths !! t') eqn:E; simplify_eq. rewrite count_new, (count_put _ _ _ p) by done. lia.
Qed.

Lemma spawn_lookup ths t p' t' q ths' i x : spawn_in (<[t := p']> ths) t' q = Some ths' → ths' !! i = Some x →
  (i = t ∧ x = p') ∨ (i ≠ t ∧ ths !! i = Some x) ∨ q = Some x.
Proof.
  intros H Hx. destruct q as [q|]; simpl in H.
  - destruct (<[t:=p']> ths !! t') eqn:E; simplify_eq.
    apply lookup_insert_Some in Hx as [[<- <-]|[_ Hx]]; [auto|].
    apply lookup_insert_Some in Hx as [[<- <-]|[? Hx]]; auto.
  - simplify_eq. apply lookup_insert_Some in Hx as [[<- <-]|[? Hx]]; auto.
Qed.

Lemma step_accept g z p c g' p' q l : step_pc g z p c = Some (g', p', q) →
  accept z p p' l = l ∨ ∃ sec t, p = VerTime sec t ∧ accept z p p' l = (sec, name t, z) :: l ∧ z < expiresAt t.
Proof.
  intros H. step_cases p H; eauto. destruct (z <? expiresAt p) eqn:E; [|by left].
  right. exists sec, p. split_and!; [done..|]. by apply Z.ltb_lt.
Qed.

(** A thread that holds a flag finds it set. *)
Lemma held P w t p b : threads w !! t = Some p → count P (threads w) = Z.b2z b → P p = true → b = true.
Proof. intros Ht Hc Hp. pose proof (secrets_count_pos _ _ _ _ Ht Hp). destruct b; [done|]. simpl in Hc. lia. Qed.

Lemma issue_sub p l : l ⊆ issue p l.
Proof. destruct p; set_solver. Qed.

Lemma present_sub p l : l ⊆ present p l.
Proof. destruct p; set_solver. Qed.

Lemma issued_fresh (s : string) (t x : targetRepository) l : NoDup (((s, t) :: l).*1) → (s, x) ∉ l.
Proof.
  rewrite fmap_cons, NoDup_cons. intros [H _] Hx. apply H. simpl. change s with (fst (s, x)). by apply list_elem_of_fmap_2.
Qed.

Lemma issued_unique l (s : string) (t x : targetRepository) : NoDup (l.*1) → (s, t) ∈ l → (s, x) ∈ l → t = x.
Proof.
  induction l as [|[s' y] l IH]; [set_solver|]. intros Hn Ht Hx. pose proof Hn as Hn'.
  rewrite fmap_cons, NoDup_cons in Hn'. destruct Hn' as [_ Hn'].
  apply elem_of_cons in Ht as [[= -> ->]|Ht]; apply elem_of_cons in Hx as [[= <-]|Hx]; simplify_eq; auto.
  - by destruct (issued_fresh _ _ _ _ Hn Hx).
  - by destruct (issued_fresh _ _ _ _ Hn Ht).
Qed.

Section go.
Context (w : State) (t t' : nat) (c : choice) (p p' : pc) (q : option pc) (g' : mgr) (ths : gmap nat pc).
Context (Hinv : inv w) (Ht : threads w !! t = Some p) (Hstep : step_pc (man w) (now w) p c = Some (g', p', q)).
Context (Hspawn : spawn_in (<[t := p']> (threads w)) t' q = Some ths).
Context (Hnd : NoDup ((issue p (issued w)).*1)).

Let w' := mkState g' (now w) ths (issue p (issued w)) (present p' (presented w)) (accept (now w) p p' (accepted w)).

Lemma go_later : later w w'.
Proof.
  split; simpl; [apply issue_sub|apply present_sub|lia|]. intros s x Hs Hm.
  destruct (step_map _ _ _ _ _ _ _ Hstep) as [[-> _]|[(s0 & x0 & -> & ->)|(sec & k & -> & ->)]]; [done| |].
  - rewrite lookup_insert_ne; [done|]. intros ->. by destruct (issued_fresh _ _ _ _ Hnd Hs).
  - apply lookup_delete_None. by right.
Qed.

Lemma go_stored s x : p = GenStore s x → m (man w) !! s = None.
Proof.
  intros ->. destruct (m (man w) !! s) as [y|] eqn:E; [|done].
  destruct (issued_fresh _ _ _ _ Hnd (i_issued _ Hinv _ _ E)).
Qed.

Lemma go_pc i x : ths !! i = Some x → pc_ok w' x.
Proof.
  intros Hx. destruct (spawn_lookup _ _ _ _ _ _ _ _ Hspawn Hx) as [[-> ->]|[[Hne Hi]|Hq]].
  - eapply step_pc_ok; eauto using i_issued, i_pc.
  - eapply pc_ok_later; [apply go_later|by eapply i_pc|]. intros sec k -> Hm. simpl.
    destruct (step_map _ _ _ _ _ _ _ Hstep) as [[-> _]|[(s0 & x0 & -> & ->)|(sec0 & k0 & Hp & ->)]]; [done| |].
    + rewrite lookup_insert_is_Some'. auto.
    + exfalso. apply Hne. eapply (count_unique in_critical); [|eassumption|exact Ht|done|by subst p].
      rewrite (i_lock _ Hinv). by destruct (lock _).
  - destruct (step_flags _ _ _ _ _ _ _ Hstep) as (_ & _ & _ & Hs);
      eauto using held, i_lock, i_gc, i_sched. subst q. by apply Hs.
Qed.

Lemma go_inv : inv w'.
Proof.
  destruct (step_flags _ _ _ _ _ _ _ Hstep) as (Hl & Hg & Hs & Hq);
    [eauto using held, i_lock..|eauto using held, i_gc|eauto using held, i_sched|].
  split; simpl; try rewrite !(spawn_count _ _ _ _ _ _ _ _ Ht Hspawn).
  - rewrite Hl, (i_lock _ Hinv). destruct q; [|lia]. destruct (Hq _ eq_refl) as (_ & _ & -> & _). simpl. lia.
  - rewrite Hg, (i_gc _ Hinv). destruct q; [|lia]. destruct (Hq _ eq_refl) as (_ & -> & _). simpl. lia.
  - rewrite Hs, (i_sched _ Hinv). destruct q; [|simpl; lia]. destruct (Hq _ eq_refl) as (-> & _). simpl. lia.
  - rewrite (step_size _ _ _ _ _ _ _ (count deleted_not_counted (threads w) - count stored_not_counted (threads w)) Hstep).
    + destruct q; [destruct (Hq _ eq_refl) as (_ & _ & _ & -> & -> & _); simpl|]; f_equal; lia.
    + apply go_stored.
    + intros sec k ->. apply (i_pc _ Hinv _ _ Ht).
    + rewrite (i_size _ Hinv). f_equal. lia.
  - intros s x Hx. destruct (step_map _ _ _ _ _ _ _ Hstep) as [[E ->]|[(s0 & x0 & Hp & E)|(sec & k & Hp & E)]]; rewrite E in Hx.
    + by apply i_issued.
    + subst p. simpl. apply lookup_insert_Some in Hx as [[-> ->]|[_ Hx]]; [left|right; by apply i_issued].
    + subst p. apply lookup_delete_Some in Hx as [_ Hx]. by apply i_issued.
  - intros s x Hx Hp Hn. assert (s ∉ presented w) by (intros ?; by apply Hp, present_sub).
    destruct (step_map _ _ _ _ _ _ _ Hstep) as [[-> E]|[(s0 & x0 & E & ->)|(sec & k & E & ->)]].
    + rewrite E in Hx. by apply i_live.
    + subst p. simpl in Hx. apply elem_of_cons in Hx as [[= -> ->]|Hx]; [apply lookup_insert_eq|].
      rewrite lookup_insert_ne; [by apply i_live|]. intros ->. by destruct (issued_fresh _ _ _ _ Hnd Hx).
    + subst p. simpl in Hx, Hnd. rewrite lookup_delete_ne; [by apply i_live|]. intros ->.
      destruct (i_pc _ Hinv _ _ Ht) as [(y & Hy & Hk) _]. pose proof (issued_unique _ _ _ _ Hnd Hx Hy) as <-.
      destruct k; [naive_solver|lia].
  - intros s rn z Hz. destruct (step_accept _ _ _ _ _ _ _ (accepted w) Hstep) as [E|(sec & x & Hp & E & Hlt)]; rewrite E in Hz.
    + destruct (i_accepted _ Hinv _ _ _ Hz) as (Hs' & x & Hx & ?).
      split; [by apply present_sub|]. exists x. split; [by apply issue_sub|done].
    + apply elem_of_cons in Hz as [[= -> -> ->]|Hz].
      * subst p. destruct (i_pc _ Hinv _ _ Ht) as [Hx Hsec]. split; [by apply present_sub|]. eauto.
      * destruct (i_accepted _ Hinv _ _ _ Hz) as (Hs' & y & Hy & ?).
        split; [by apply present_sub|]. exists y. split; [by apply issue_sub|done].
  - apply go_pc.
Qed.

End go.

(** The invariant is kept by every action. *)
Lemma exec_inv w a w' : inv w → exec w a = Some w' → NoDup ((issued w').*1) → inv w' ∧ later w w'.
Proof.
  intros Hinv H Hn. destruct a as [t rn|t sec rn|n|t c t'].
  1,2: cbn [exec] in H; unfold start in H; destruct (threads w !! t) as [?|] eqn:E; simplify_eq; destruct Hinv;
    split; [|by split; simpl; auto; lia]; split; simpl; rewrite ?count_new by done; simpl; rewrite ?Z.add_0_r; auto;
    intros i p Hp; apply lookup_insert_Some in Hp as [[<- <-]|[_ Hp]]; [done|]; by eapply i_pc0.
  - cbn [exec] in H. destruct (0 <=? n) eqn:E; simplify_eq. apply Z.leb_le in E.
    assert (L : later w (mkState (man w) (now w + n) (threads w) (issued w) (presented w) (accepted w)))
      by (split; simpl; auto; lia).
    split; [|done]. destruct Hinv. split; simpl; auto.
    + intros. apply i_live0; auto. lia.
    + intros i p Hp. eapply pc_ok_later; [exact L|by eapply i_pc0|done].
  - apply exec_go in H as (p & g' & p' & q & ths & Ht & Hs & Hsp & ->). simpl in Hn. eauto using go_inv, go_later.
Qed.

Lemma run_cons w a l w' : run w (a :: l) = Some w' ↔ ∃ w1, exec w a = Some w1 ∧ run w1 l = Some w'.
Proof.
  unfold run. cbn [foldl]. change (Some w ≫= λ w, exec w a) with (exec w a).
  destruct (exec w a) as [w1|]; [naive_solver|].
  split; [|naive_solver]. intros H. exfalso. induction l; [done|]. by apply IHl.
Qed.

Lemma exec_issued w a w' : exec w a = Some w' → issued w `suffix_of` issued w'.
Proof.
  destruct a as [t rn|t sec rn|n|t c t']; intros H.
  1,2: cbn [exec] in H; unfold start in H; destruct (threads w !! t); by simplify_eq.
  - cbn [exec] in H. case_match; by simplify_eq.
  - apply exec_go in H as (p & g' & p' & q & ths & _ & _ & _ & ->). simpl.
    destruct p; simpl; try reflexivity. by apply suffix_cons_r.
Qed.

Lemma run_issued l w w' : run w l = Some w' → issued w `suffix_of` issued w'.
Proof.
  revert w. induction l as [|a l IH]; intros w H; [unfold run in H; by simplify_eq/=|].
  apply run_cons in H as (w1 & H1 & H). etrans; [by eapply exec_issued|by apply IH].
Qed.

Lemma suffix_NoDup_fst (l l' : list (string * targetRepository)) : l `suffix_of` l' → NoDup (l'.*1) → NoDup (l.*1).
Proof. intros [k ->]. rewrite fmap_app. apply NoDup_app. Qed.

Lemma run_inv l w w' : inv w → run w l = Some w' → NoDup ((issued w').*1) → inv w' ∧ later w w'.
Proof.
  revert w. induction l as [|a l IH]; intros w Hinv H Hn; [unfold run in H; simplify_eq/=; auto using later_refl|].
  apply run_cons in H as (w1 & H1 & H).
  destruct (exec_inv _ _ _ Hinv H1) as [Hinv1 [I1 P1 N1 G1]].
  { eapply suffix_NoDup_fst; [by eapply run_issued|done]. }
  destruct (IH _ Hinv1 H Hn) as [Hinv' [I2 P2 N2 G2]]. split; [done|].
  split; [set_solver|set_solver|lia|]. intros s x Hs Hm. eauto.
Qed.

(** ** A secret that was spent *)

(** The verification of a secret that is gone, where it is. *)
Definition refusing (j : nat) (s rn : string) (w : State) : Prop :=
  m (man w) !! s = None ∧ (∃ x, (s, x) ∈ issued w) ∧
  (threads w !! j = Some (VerLoad s rn) ∨ threads w !! j = Some (Done (Verified s rn false))).

Lemma exec_refusing j s rn w a w' : inv w → exec w a = Some w' → NoDup ((issued w').*1) →
  refusing j s rn w → refusing j s rn w'.
Proof.
  intros Hinv H Hn (Hm & [x Hx] & Hj). destruct (exec_inv _ _ _ Hinv H Hn) as [_ [I _ _ G]].
  split; [by eapply G|]. split; [exists x; by apply I|]. destruct a as [t r|t sec r|n|t c t'].
  1,2: cbn [exec] in H; unfold start in H; destruct (threads w !! t) eqn:E; simplify_eq; simpl;
    rewrite lookup_insert_ne; [done|]; intros ->; naive_solver.
  - cbn [exec] in H. case_match; by simplify_eq.
  - apply exec_go in H as (p & g' & p' & q & ths & Ht & Hs & Hsp & ->). simpl.
    assert (Hths : ∀ y, <[t := p']> (threads w) !! j = Some y → ths !! j = Some y).
    { intros y Hy. unfold spawn_in in Hsp. destruct q; [|by simplify_eq]. case_match; simplify_eq.
      rewrite lookup_insert_ne; [done|]. intros ->. congruence. }
    destruct (decide (t = j)) as [->|Hne].
    + destruct Hj as [Hj|Hj]; rewrite Ht in Hj; simplify_eq/=. right. apply Hths. rewrite lookup_insert_eq.
      unfold step_verify. by rewrite Hm.
    + destruct Hj as [Hj|Hj]; [left|right]; apply Hths; by rewrite lookup_insert_ne.
Qed.

Lemma run_refusing j s rn l w w' : inv w → run w l = Some w' → NoDup ((issued w').*1) →
  refusing j s rn w → refusing j s rn w'.
Proof.
  revert w. induction l as [|a l IH]; intros w Hinv H Hn Hr; [unfold run in H; by simplify_eq/=|].
  apply run_cons in H as (w1 & H1 & H).
  assert (Hn1 : NoDup ((issued w1).*1)) by (eapply suffix_NoDup_fst; [by eapply run_issued|done]).
  eapply IH; [by eapply exec_inv|done|done|by eapply exec_refusing].
Qed.

(** ** What the callers may rely on *)

(** C26 (invariant). The secrets of the proxy cache under every interleaving of
    the manager's calls, as long as the random strings do not repeat (no secret is
    issued twice): the map holds issued secrets only; a verification is accepted only for the repository the secret was generated
    for and before it expires; a secret that has not been presented for its
    repository stays valid until it expires, whatever is collected meanwhile; once
    a verification has returned true, the secret is not in the map and every verification that starts later
    returns false; the size counts the secrets that are kept when no call is
    between changing the map and counting; and at most one collection runs, and
    at most one is scheduled. *)
Theorem proxy_secrets d c interval t0 l w :
  run (initial d c interval t0) l = Some w → NoDup ((issued w).*1) →
  (∀ s t, m (man w) !! s = Some t → (s, t) ∈ issued w) ∧
  (∀ s rn z, (s, rn, z) ∈ accepted w → ∃ t, (s, t) ∈ issued w ∧ name t = rn ∧ z < expiresAt t) ∧
  (∀ i s t, (s, t) ∈ issued w → s ∉ presented w → now w ≤ expiresAt t → threads w !! i = Some (VerLoad s (name t)) →
     ∃ w', exec w (Go i Next 0) = Some w' ∧ threads w' !! i = Some (VerTime s t)) ∧
  (∀ i s rn, threads w !! i = Some (Done (Verified s rn true)) → m (man w) !! s = None ∧
     ∀ j rn' l' w', run w (Verify j s rn' :: l') = Some w' → NoDup ((issued w').*1) →
       threads w' !! j = Some (VerLoad s rn') ∨ threads w' !! j = Some (Done (Verified s rn' false))) ∧
  ((∀ i p, threads w !! i = Some p → stored_not_counted p = false ∧ deleted_not_counted p = false) →
     size_ (man w) = wrap_u64 (Z.of_nat (size (m (man w))))) ∧
  count in_gc (threads w) ≤ 1 ∧ count is_scheduled (threads w) ≤ 1.
Proof.
  intros H Hn. destruct (run_inv _ _ _ (inv_initial _ _ _ _) H Hn) as [Hinv _]. split_and!.
  - exact (i_issued _ Hinv).
  - intros s rn z Hz. by apply (i_accepted _ Hinv).
  - intros i s t Ht Hp Hlt Hi. eexists. cbn [exec]. rewrite Hi. simpl. unfold step_verify.
    rewrite (i_live _ Hinv _ _ Ht Hp Hlt), bool_decide_true by done. simpl. split; [done|]. apply lookup_insert_eq.
  - intros i s rn Hi. split; [by destruct (i_pc _ Hinv _ _ Hi) as [_ Hm]|]. intros j rn' l' w' Hr Hn'. apply run_cons in Hr as (w1 & H1 & Hr).
    assert (Hn1 : NoDup ((issued w1).*1)) by (eapply suffix_NoDup_fst; [by eapply run_issued|done]).
    eapply run_refusing; [by eapply exec_inv|done|done|].
    destruct (i_pc _ Hinv _ _ Hi) as [(x & Hx & _) Hm].
    cbn [exec] in H1. unfold start in H1. destruct (threads w !! j); simplify_eq.
    split; [done|]. split; [by exists x|]. left. apply lookup_insert_eq.
  - intros Hq. rewrite (i_size _ Hinv), !secrets_count_none by (intros ? ? ?; by eapply Hq). f_equal. lia.
  - rewrite (i_gc _ Hinv). by destruct (gcFlag _).
  - rewrite (i_sched _ Hinv). by destruct (gcScheduleFlag _).
Qed.

(** *** A run *)

(** The steps of a call that runs alone; steps that need no choice get none. *)
Definition goes (t : nat) (cs : list choice) : list action := (λ c, Go t c 100) <$> cs.

(** A secret is generated, time passes, it is verified. *)
Definition ex_generate (t : nat) (s rn : string) : list action := Generate t rn :: goes t [Next; Pick s; Next; Next].
Definition ex_verify (t : nat) (s rn : string) : list action := Verify t s rn :: goes t (replicate 8 Next).

Definition ex_run : list action :=
  ex_generate 1 "s3cret" "library/ubuntu" ++ [Tick 5] ++ ex_generate 2 "other" "library/nginx" ++
  ex_verify 3 "s3cret" "library/ubuntu".

Lemma proxy_secrets_witness : ∃ w,
  run (initial defaultExpiration defaultCap defaultGCInterval 1000) ex_run = Some w ∧
  threads w !! 3%nat = Some (Done (Verified "s3cret" "library/ubuntu" true)) ∧ size_ (man w) = 1 ∧
  ∀ w', run w (ex_verify 4 "s3cret" "library/ubuntu") = Some w' → NoDup ((issued w').*1) →
    threads w' !! 4%nat = Some (VerLoad "s3cret" "library/ubuntu") ∨
    threads w' !! 4%nat = Some (Done (Verified "s3cret" "library/ubuntu" false)).
Proof.
  destruct (run (initial defaultExpiration defaultCap defaultGCInterval 1000) ex_run) as [w|] eqn:E; [|by vm_compute in E].
  assert (H3 : threads w !! 3%nat = Some (Done (Verified "s3cret" "library/ubuntu" true))) by (vm_compute in E; by simplify_eq).
  exists w. split_and!; [done|done|by vm_compute in E; simplify_eq|].
  destruct (proxy_secrets _ _ _ _ _ _ E) as (_ & _ & _ & Hspent & _).
  { vm_compute in E. simplify_eq. simpl. repeat constructor; set_solver. }
  intros w' Hr. by apply (proj2 (Hspent 3%nat _ _ H3) 4%nat _ _ _ Hr).
Defined.

(** A verification that is not interrupted. *)
Definition is_at (w : State) (t : nat) (p : pc) (g : mgr) (z : Z) : Prop :=
  threads w !! t = Some p ∧ man w = g ∧ now w = z.

Fixpoint walks (n : nat) (g : mgr) (z : Z) (p : pc) : option (mgr * pc) :=
  match n with
  | O => Some (g, p)
  | S n => match step_pc g z p Next with Some (g', p', None) => walks n g' z p' | _ => None end
  end.

Lemma walks_run n w t p g z g' p' : is_at w t p g z → walks n g z p = Some (g', p') →
  ∃ w', run w (goes t (replicate n Next)) = Some w' ∧ is_at w' t p' g' z.
Proof.
  revert w p g. induction n as [|n IH]; intros w p g Hw H; [simpl in H; simplify_eq; by exists w|]. simpl in H.
  destruct (step_pc g z p Next) as [[[g1 p1] [|]]|] eqn:E; try done. destruct Hw as (Ht & Hg & Hz).
  assert (He : exec w (Go t Next 100) = Some (mkState g1 (now w) (<[t := p1]> (threads w)) (issue p (issued w))
    (present p1 (presented w)) (accept (now w) p p1 (accepted w)))).
  { cbn [exec]. rewrite Ht. simpl. by rewrite Hg, Hz, E. }
  destruct (IH (mkState g1 (now w) (<[t := p1]> (threads w)) (issue p (issued w))
    (present p1 (presented w)) (accept (now w) p p1 (accepted w))) p1 g1) as (w' & Hr & Hw'); [|done|].
  { split; [apply lookup_insert_eq|done]. }
  exists w'. split; [|done]. change (goes t (replicate (S n) Next)) with (Go t Next 100 :: goes t (replicate n Next)).
  apply run_cons. eauto.
Qed.

Lemma verify_alone_runs w t sec rn : threads w !! t = None → lock (man w) = false →
  ∃ n w', run w (Verify t sec rn :: goes t (replicate n Next)) = Some w' ∧
    is_at w' t (Done (Verified sec rn (Verify_alone (now w) sec rn (man w)).1)) (Verify_alone (now w) sec rn (man w)).2 (now w).
Proof.
  intros Ht Hl.
  set (w1 := mkState (man w) (now w) (<[t := VerLoad sec rn]> (threads w)) (issued w) (presented w) (accepted w)).
  assert (H1 : exec w (Verify t sec rn) = Some w1) by (cbn [exec]; unfold start; by rewrite Ht).
  assert (Hat : is_at w1 t (VerLoad sec rn) (man w) (now w)) by (split; [apply lookup_insert_eq|done]).
  enough (∃ n, walks n (man w) (now w) (VerLoad sec rn) = Some ((Verify_alone (now w) sec rn (man w)).2,
    Done (Verified sec rn (Verify_alone (now w) sec rn (man w)).1))) as [n Hn].
  { destruct (walks_run _ _ _ _ _ _ _ _ Hat Hn) as (w' & Hr & Hw'). exists n, w'. split; [|done]. apply run_cons. eauto. }
  unfold Verify_alone. destruct (m (man w) !! sec) as [p|] eqn:E; [destruct (decide (name p = rn)) as [<-|Hne]|].
  - exists 8%nat. cbn. unfold step_verify. rewrite E. rewrite !bool_decide_true by done.
    repeat (cbn; rewrite ?E, ?Hl, ?bool_decide_true by done). destruct (man w); simpl in *. by subst.
  - exists 1%nat. cbn. unfold step_verify. by rewrite E, !bool_decide_false by done.
  - exists 1%nat. cbn. unfold step_verify. by rewrite E.
Qed.

(** Two verifications that overlap: both load the secret before either deletes
    it, and both are accepted. *)
Example secret_accepted_twice :
  (λ w, (threads w !! 2%nat, threads w !! 3%nat, size_ (man w))) <$>
    run (initial defaultExpiration defaultCap defaultGCInterval 1000)
      (ex_generate 1 "s3cret" "library/ubuntu" ++
       [Verify 2 "s3cret" "library/ubuntu"; Verify 3 "s3cret" "library/ubuntu"; Go 2 Next 100; Go 3 Next 100] ++
       goes 2 (replicate 7 Next) ++ goes 3 [Next; Next])
  = Some (Some (Done (Verified "s3cret" "library/ubuntu" true)), Some (Done (Verified "s3cret" "library/ubuntu" true)), 0).
Proof. vm_compute. reflexivity. Qed.

(** A random string that repeats replaces the first secret and is counted twice:
    the size stays one above the number of secrets for good. *)
Example repeated_secret_counted_twice :
  (λ w, (size_ (man w), size (m (man w)))) <$>
    run (initial defaultExpiration defaultCap defaultGCInterval 1000)
      (ex_generate 1 "s3cret" "library/ubuntu" ++ ex_generate 2 "s3cret" "library/nginx" ++
       ex_verify 3 "s3cret" "library/nginx")
  = Some (1, 0%nat).
Proof. vm_compute. reflexivity. Qed.
