(* ===== verification/AuthChain.v ===== *)
(** * Who a request comes from: [src/server/middleware/security],
    [src/common/secret/request.go], [src/pkg/proxy/secret/authorizer.go]

    The chain of generators that turn the credentials of a request into a security
    context.  Sessions are looked up by the web framework: a request carries what
    its session holds. *)

From S2P Require Import Prelude GoErrors GoStrings GoUrl Orm Table Hoare Encrypt Users UserApi.
From S2P Require Import UserGroups Ldap AuthProviders Oidc ProxySecret.
From S2P Require ProjectStore RobotStore Security TokenService.
From Stdlib Require Import Ascii.
Open Scope Z_scope.
Local Open Scope harbor_scope.

(** ** Requests and contexts *)

(** What [SessionStart] and [Get] of the session give. *)
Inductive session_value := NoSession | NoUser | NotUser | SessionUser (u : User).

(** [rq_Artifact] is the repository of the artifact information, when there is
    any. *)
Record Request := mkRequest {
  rq_Method : string; rq_Path : string; rq_Authorization : string; rq_VendorType : string;
  rq_Artifact : option string; rq_Session : session_value }.

Inductive Context :=
  | SecretCtx (c : Security.SecretContext)
  | LocalCtx (u : option User)
  | TokenCtx (c : Security.TokenContext)
  | RobotCtx (c : Security.RobotContext)
  | ProxyCacheCtx (c : Security.ProxyCacheContext).

(** The user of a local context, as permissions read it. *)
Definition as_security_user (u : User) : Security.User :=
  Security.mkUser (us_ID u) (us_Username u) (us_SysAdminFlag u) (us_AdminRoleInAuth u).

Definition ProxyCacheService : string := "harbor#proxy-cache-service".

Definition GetUsername (secret_store : option (gmap string string)) (c : Context) : string :=
  match c with
  | SecretCtx s => match secret_store with Some st => Security.store_GetUsername st (Security.s_secret s) | None => EmptyString end
  | LocalCtx u => match u with Some u => us_Username u | None => EmptyString end
  | TokenCtx t => Security.t_name t
  | RobotCtx r => match Security.robot r with Some r => Security.r_Name r | None => EmptyString end
  | ProxyCacheCtx _ => ProxyCacheService
  end.

(** ** Credentials *)

(** [http.Request.BasicAuth] *)
Definition BasicAuth (authorization : string) : option (string * string) :=
  if HasPrefix (ProjectStore.ToLower (String.substring 0 6 authorization)) "basic "
  then c ← DecodeString (drop_chars 6 authorization); TokenService.cut_at ":" c
  else None.

Definition HeaderPrefix : string := "Harbor-Secret ".

(** [commonsecret.FromRequest] and [AddToRequest] *)
Definition secret_FromRequest (authorization : string) : string :=
  if HasPrefix authorization HeaderPrefix then TrimPrefix authorization HeaderPrefix else EmptyString.
Definition secret_AddToRequest (secret : string) : string := HeaderPrefix +:+ secret.

Definition secretPrefix : string := "Proxy-Cache-Secret".

(** [GetSecret], and the header that [Modify] sets for a repository *)
Definition proxy_GetSecret (authorization : string) : string :=
  if HasPrefix authorization secretPrefix then TrimSpace (TrimPrefix authorization secretPrefix) else EmptyString.
Definition proxy_header (secret : string) : string := secretPrefix +:+ " " +:+ secret.

(** ** The state of the generators *)

Record AuthDB := mkAuthDB { ad_users : UserDB; ad_robots : RobotStore.RobotDB; ad_lock : UserLock; ad_secrets : mgr }.
Definition set_ad_users (u : UserDB) (d : AuthDB) : AuthDB := mkAuthDB u (ad_robots d) (ad_lock d) (ad_secrets d).
Definition set_ad_robots (r : RobotStore.RobotDB) (d : AuthDB) : AuthDB := mkAuthDB (ad_users d) r (ad_lock d) (ad_secrets d).
Definition set_ad_lock (l : UserLock) (d : AuthDB) : AuthDB := mkAuthDB (ad_users d) (ad_robots d) l (ad_secrets d).
Definition set_ad_secrets (g : mgr) (d : AuthDB) : AuthDB := mkAuthDB (ad_users d) (ad_robots d) (ad_lock d) g.

Definition on_users {A} (x : M UserDB A) : M AuthDB A := zoom ad_users set_ad_users x.
Definition on_robots {A} (x : M RobotStore.RobotDB A) : M AuthDB A := zoom ad_robots set_ad_robots x.

(** Memory, which no statement reads: it does not fail. *)
Definition in_memory {A} (f : AuthDB → A * AuthDB) : M AuthDB A := λ w,
  let '(a, d) := f (db w) in (Ok a, with_db w d).

(** An error of a generator is logged, and the request goes on without its
    context. *)
Definition quietly {A} (x : M AuthDB (option A)) : M AuthDB (option A) :=
  r ← try x; mret (match r with Ok o => o | Err _ => None end).

Section generators.
Context {UC : UserConfig} {RC : RobotStore.RobotConfig} {J : TokenService.Jwt} {OP : OidcProvider} {AP : AuthProxy}.
Context (AES : bytes → bytes → bytes) (encryptKey : result string) (random : result bytes).
(** The secrets of the components, the keys of tokens, the authenticators, the
    clock and the configured mode. *)
Context (SecretStore : option (gmap string string)) (token_env : TokenService.Env) (registry : gmap string Provider)
  (now : Z) (AuthMode : result string) (token_claims : claims → string * string).

(** [lib.GetAuthMode]: nothing when the mode could not be read. *)
Definition mode : option string := match AuthMode with Ok m => Some m | Err _ => None end.

(** *** [secret.go] *)
Definition secret_Generate (r : Request) : M AuthDB (option Context) :=
  let sec := secret_FromRequest (rq_Authorization r) in
  mret (if sec == EmptyString then None else Some (SecretCtx (Security.mkSecret sec SecretStore))).

(** *** [oidc_cli.go] *)

Definition base : string := "/api/v2.0".

(** The pieces occur one after the other. *)
Fixpoint in_order (pieces : list string) (s : string) : bool :=
  match pieces with
  | [] => true
  | p :: pieces => match TokenService.cut_at p s with Some (_, rest) => in_order pieces rest | None => false end
  end.

Definition TrimSuffix (s x : string) : string :=
  if HasSuffix s x then String.substring 0 (String.length s - String.length x) s else s.

Definition newline : ascii := ascii_of_N 10.

(** The patterns of the paths below [/projects/]: what follows the prefix, up to
    the suffix, has the pieces in order; a dot is no line break. *)
Definition below_projects (pieces : list string) (suffix path : string) : bool :=
  let prefix := base +:+ "/projects/" in
  no_char newline path && HasPrefix path prefix &&
  let rest := TrimPrefix path prefix in
  HasSuffix rest suffix && in_order pieces (TrimSuffix rest suffix).

Definition reposAPIRe (path : string) : bool := below_projects [] "/repositories" path.
Definition artifactsAPIRe (path : string) : bool := below_projects ["/repositories/"] "/artifacts" path.
Definition tagsAPIRe (path : string) : bool := below_projects ["/repositories/"; "/artifacts/"; "/tags/"] EmptyString path.

Definition oidc_valid (r : Request) : bool :=
  let path := TrimSuffix (rq_Path r) "/" in
  (path == "/service/token") || HasPrefix path "/v2" ||
  ((rq_Method r == "POST") && (path == base +:+ "/projects")) ||
  ((rq_Method r == "GET") &&
     ((path == base +:+ "/projects") || (path == base +:+ "/systeminfo") || (path == "/api/version") ||
      (path == base +:+ "/labels") || reposAPIRe path || artifactsAPIRe path)) ||
  ((rq_Method r == "DELETE") && tagsAPIRe path).

Definition oidcCli_Generate (r : Request) : M AuthDB (option Context) :=
  if negb (bool_decide (mode = Some OIDCAuth)) then mret None
  else match BasicAuth (rq_Authorization r) with
       | None => mret None
       | Some (username, secret) =>
           if negb (oidc_valid r) then mret None
           else quietly (on_users (
                  info ← VerifySecret AES encryptKey random username secret;
                  u ← user_GetByName username;
                  u ← InjectGroupsToUser (Some info) u;
                  mret (Some (LocalCtx (Some u)))))
       end.

(** *** [v2_token.go] *)
Definition v2Token_Generate (r : Request) : M AuthDB (option Context) :=
  mret (TokenCtx <$> TokenService.v2Token_Generate token_env (rq_Path r) (rq_Authorization r)).

(** *** [idtoken.go]; [token_claims] are the subject and the issuer of a token, and
    no context is there yet. *)
Definition idToken_Generate (r : Request) : M AuthDB (option Context) :=
  if negb (bool_decide (mode = Some OIDCAuth)) then mret None
  else if negb (HasPrefix (rq_Path r) "/api") && negb (rq_Path r == "/service/token") then mret None
  else
    let token := TokenService.bearerToken (rq_Authorization r) in
    if token == EmptyString then mret None
    else match VerifyToken token with
         | Err _ => mret None
         | Ok c =>
             quietly (on_users (
               u ← ctl_GetBySubIss AES encryptKey None (token_claims c).1 (token_claims c).2;
               match OIDCSetting_ with
               | Err _ => mret None
               | Ok setting =>
                   match UserInfoFromIDToken (id_token_only token) setting with
                   | Err _ => mret None
                   | Ok info => u ← InjectGroupsToUser info u; mret (Some (LocalCtx (Some u)))
                   end
               end))
         end.

(** *** [auth_proxy.go] *)

Definition AuthProxyUserNamePrefix : string := "tokenreview$".

(** [strings.Replace] of every occurrence. *)
Fixpoint remove_all (fuel : nat) (old s : string) : string :=
  match fuel with
  | O => s
  | S fuel => match TokenService.cut_at old s with Some (a, b) => a +:+ remove_all fuel old b | None => s end
  end.

Definition matchAuthProxyUserName (name : string) : option string :=
  if HasPrefix name AuthProxyUserNamePrefix
  then Some (remove_all (String.length name) AuthProxyUserNamePrefix name) else None.

(** An account is made for a name that is unknown before the review is looked at. *)
Definition proxy_account (name : string) (status : ReviewStatus) (s : HTTPAuthProxy) : M UserDB (option Context) :=
  r ← try (user_GetByName name);
  user ← match r with
         | Ok u => mret u
         | Err e => if IsNotFoundErr e
                    then uid ← SearchAndOnBoardUser AuthMode registry name; user_Get uid
                    else fail e
         end;
  u2 ← UserFromReviewStatus status (hp_AdminGroups s) (hp_AdminUsernames s);
  mret (Some (LocalCtx (Some (with_admin_role (us_AdminRoleInAuth u2) (with_groups (us_GroupIDs u2) user))))).

Definition authProxy_Generate (r : Request) : M AuthDB (option Context) :=
  if negb (bool_decide (mode = Some HTTPAuth)) then mret None
  else if negb (HasPrefix (rq_Path r) "/v2") then mret None
  else match BasicAuth (rq_Authorization r) with
       | None => mret None
       | Some (proxyUserName, proxyPwd) =>
           match matchAuthProxyUserName proxyUserName, proxy_settings with
           | Some rawUserName, Ok s =>
               match TokenReview proxyPwd with
               | Err _ => mret None
               | Ok status =>
                   if negb (rawUserName == rs_Username status) then mret None
                   else quietly (on_users (proxy_account rawUserName status s))
               end
           | _, _ => mret None
           end
       end.

(** *** [robot.go] *)
Definition robot_Generate (r : Request) : M AuthDB (option Context) :=
  c ← on_robots (RobotStore.Generate (BasicAuth (rq_Authorization r))); mret (RobotCtx <$> c).

(** *** [basic_auth.go]; a locked name gets no user and no error.  An error is
    logged; nothing recovers from a panic. *)
Definition basicAuth_Generate (r : Request) : M AuthDB (option Context) :=
  match BasicAuth (rq_Authorization r) with
  | None => mret None
  | Some (username, password) =>
      l ← in_memory (λ d, (ad_lock d, d));
      x ← try (on_users (Login AuthMode (pr_login <$> registry) now l username password));
      match x with
      | Err (Panic msg) => fail (Panic msg)
      | Err _ => mret None
      | Ok (res, l') =>
          _ ← in_memory (λ d, (tt, set_ad_lock l' d));
          mret (match res with LoggedIn u => Some (LocalCtx (Some u)) | Locked | Failed _ => None end)
      end
  end.

(** *** [session.go] *)
Definition session_Generate (r : Request) : M AuthDB (option Context) :=
  mret (match rq_Session r with SessionUser u => Some (LocalCtx (Some u)) | _ => None end).

(** *** [proxy_cache_secret.go] *)
Definition proxyCacheSecret_Generate (r : Request) : M AuthDB (option Context) :=
  match rq_Artifact r with
  | None => mret None
  | Some repository =>
      ok ← in_memory (λ d, let '(b, g) := Verify_alone now (proxy_GetSecret (rq_Authorization r)) repository (ad_secrets d) in
                           (b, set_ad_secrets g d));
      mret (if ok : bool then Some (ProxyCacheCtx (Security.mkProxyCache repository)) else None)
  end.

(** ** The middlewares: [security.go] *)

Definition generators : list (Request → M AuthDB (option Context)) :=
  [secret_Generate; oidcCli_Generate; v2Token_Generate; idToken_Generate; authProxy_Generate; robot_Generate;
   basicAuth_Generate; session_Generate; proxyCacheSecret_Generate].

(** The first generator that knows the request. *)
Fixpoint first_context (gs : list (Request → M AuthDB (option Context))) (r : Request) : M AuthDB (option Context) :=
  match gs with
  | [] => mret None
  | g :: gs => c ← g r; match c with Some c => mret (Some c) | None => first_context gs r end
  end.

Definition Middleware (r : Request) : M AuthDB (option Context) := first_context generators r.

Definition unauthorized_Generate : Context := LocalCtx None.

(** The context the handlers see. *)
Definition UnauthorizedMiddleware (c : option Context) : Context := match c with Some c => c | None => unauthorized_Generate end.

(** *** [utils.go] *)
Definition FromJobservice (c : option Context) : bool :=
  match c with Some c => GetUsername SecretStore c == Security.JobserviceUser | None => false end.
Definition FromJobRetention (r : Request) : bool := rq_VendorType r == "RETENTION".
End generators.
