(* ===== verification/AuthSpec.v ===== *)
(** * Who a request may act as

    The promise of an authenticator to the login, its instances, and the security
    context of a request. *)

From S2P Require Import Prelude GoErrors GoStrings GoUrl Orm Table Hoare Encrypt Users UserApi UserSpec.
From S2P Require Import UserGroups Ldap AuthProviders Oidc ProxySecret AuthChain.
From S2P Require ProjectStore RobotStore Security TokenService.
From Stdlib Require Import Ascii.
Open Scope Z_scope.
Local Open Scope harbor_scope.
Import user_dao.

(** ** The account of a user *)

Definition account_of (d : UserDB) (u : User) : Prop :=
  ∃ a, rows (accounts d) !! us_ID u = Some a ∧ ac_Username a = us_Username u ∧ ac_Deleted a = false.

(** A user with a number is the account of its name, and no user is an
    administrator whose account is not. *)
Definition identity (d : UserDB) (u : User) : Prop :=
  us_Deleted u = false ∧ (us_ID u ≠ 0 → account_of d u) ∧
  (us_SysAdminFlag u = true →
     ∃ i a, rows (accounts d) !! i = Some a ∧ ac_Username a = us_Username u ∧ ac_SysAdminFlag a = true).

(** Only the accounts matter. *)
Lemma identity_same d d' u : accounts d' = accounts d → identity d u → identity d' u.
Proof. intros E. unfold identity, account_of. by rewrite E. Qed.

Lemma identity_new d name email realname : identity d (new_user name email realname).
Proof. by split_and!. Qed.

(** Changes that leave the number, the name and the flag. *)
Definition same_person (u u' : User) : Prop :=
  us_ID u' = us_ID u ∧ us_Username u' = us_Username u ∧ us_SysAdminFlag u' = us_SysAdminFlag u ∧ us_Deleted u' = us_Deleted u.

Lemma identity_person d u u' : same_person u u' → identity d u → identity d u'.
Proof. intros (Hi & Hn & Hf & Hd). unfold identity, account_of. by rewrite Hi, Hn, Hf, Hd. Qed.

Definition identified (d : UserDB) (u : User) : Prop := accounts_ok d ∧ identity d u.

Lemma identified_person d u u' : same_person u u' → identified d u → identified d u'.
Proof. intros Hp [Hok Hu]. split; [done|]. by eapply identity_person. Qed.

(** ** The interface of an authenticator *)

Class Honest (h : AuthenticateHelper) : Prop := {
  authenticate_honest p pw : spec accounts_ok (h_Authenticate h p pw)
    (λ r d, accounts_ok d ∧ match r with inl u => identity d u | inr _ => True end) (λ _, True);
  post_honest u : spec (λ d, identified d u) (h_PostAuthenticate h u) (λ p d, identified d p.1) (λ _, True);
}.

(** ** What the stores do *)

Section stores.
Context {UC : UserConfig}.

Lemma reading_GetByName name : reading (user_GetByName name)
  (λ d u, ∃ i a, rows (accounts d) !! i = Some a ∧ ac_Username a = name ∧ ac_Deleted a = false ∧ u = toCommonUser a).
Proof.
  unfold user_GetByName, not_found. eapply reading_conseq.
  - eapply (reading_bind _ _ _ (λ l _ u, match l with x :: _ => u = x | [] => False end)); [apply reading_List|].
    intros [|x l]; [apply reading_fail|apply reading_ret].
  - intros d u (l & -> & Hl). destruct (select _ _) as [|a k] eqn:E; [done|]. simpl in Hl.
    assert (a ∈ select (λ a, ac_Username a = name ∧ ac_Deleted a = false) (accounts d)) as Hin by (rewrite E; by left).
    apply elem_of_select in Hin as (i & Hi & Hn & Hd). by exists i, a.
Qed.

Lemma identity_row d i a : accounts_ok d → rows (accounts d) !! i = Some a → ac_Deleted a = false →
  identity d (toCommonUser a).
Proof.
  intros Hok Hi Hd. destruct (tab_keys _ _ _ _ Hok _ _ Hi) as [Hid _]. split_and!; [done| |].
  - intros _. exists a. split_and!; [by rewrite <-Hid in Hi|done|done].
  - intros Hf. by exists i, a.
Qed.

(** The account that was found takes over. *)
Lemma identity_found d u i a flag : accounts_ok d → rows (accounts d) !! i = Some a → ac_Deleted a = false →
  ac_Username a = us_Username u → us_Deleted u = false → (flag = true → ac_SysAdminFlag a = true) →
  identity d (with_admin flag (set_id (ac_ID a) u)).
Proof.
  intros Hok Hi Hd Hn Hu Hf. destruct (tab_keys _ _ _ _ Hok _ _ Hi) as [Hid _]. split_and!; [done| |].
  - intros _. exists a. simpl. rewrite Hid. done.
  - intros Ht. exists i, a. split_and!; [done|done|by apply Hf].
Qed.

(** What an insert adds is the account of the user. *)
Lemma identity_created d d' u : accounts d' = add_row (λ id, with_id id (toDBUser u)) (accounts d) → us_Deleted u = false →
  identity d' (set_id (next (accounts d)) u).
Proof.
  intros E Hd. split_and!; [done| |].
  - intros _. eexists. rewrite E. simpl. rewrite lookup_insert_eq. split_and!; [done|done|done].
  - intros Hf. simpl in Hf. exists (next (accounts d)). eexists. rewrite E. simpl. rewrite lookup_insert_eq.
    split_and!; [done|done|done].
Qed.

Lemma identified_same d d' u : same_accounts d d' → identified d u → identified d' u.
Proof. intros E [Hok Hu]. split; [unfold accounts_ok; by rewrite E|by eapply identity_same]. Qed.

Lemma Onboard_honest salt u d : accounts_ok d → us_Deleted u = false →
  spec (same_accounts d) (Onboard salt u) (λ u' d', identified d' u') (same_accounts d).
Proof.
  intros Hok Hdel. apply spec_exact. intros d0 E0. assert (Hok0 : accounts_ok d0) by (unfold accounts_ok; by rewrite E0).
  unfold Onboard. eapply spec_read_bind; [apply reading_try, reading_GetByName|by intros|].
  intros [x|e] Hx.
  - destruct (Hx x eq_refl) as (i & a & Hi & Hn & Hd & ->). apply spec_ret. intros ? ->. split; [done|].
    eapply identity_person; [|by apply (identity_found d0 u i a (ac_SysAdminFlag a))]. done.
  - spec_if; [apply spec_fail; by intros ? ->|].
    eapply spec_bind; [eapply spec_conseq; [apply (account_Create_spec _ d0 Hok0)|by intros ? ->|done|]|].
    + intros d' E. unfold same_accounts in *. congruence.
    + intros id. apply spec_ret. intros d' (-> & Hok' & E). split; [done|].
      eapply identity_person; [|by eapply identity_created]. done.
Qed.

(** An account is made or found; on a failure the user stays as it was. *)
Lemma onboarding x u : (∀ d, accounts_ok d → spec (same_accounts d) x (λ u' d', identified d' u') (same_accounts d)) →
  spec (λ d, identified d u) x (λ u' d, identified d u') (λ d, identified d u).
Proof.
  intros H. apply spec_exact. intros d Hd. eapply spec_conseq; [apply (H d); by destruct Hd|by intros ? ->|done|].
  intros d' E. by eapply identified_same.
Qed.
End stores.

(** Groups are kept apart from accounts. *)
Lemma group_Onboard_frame g (P : table Account → table OIDCUser → Prop) : keeps (λ d, P (accounts d) (oidc_users d)) (group_Onboard g).
Proof.
  unfold group_Onboard, onBoardLdapUserGroup, onBoardCommonUserGroup, group_dao.ReadOrCreate, group_dao.Get, group_dao.Query.
  cbv zeta. keeps_auto; apply keeps_stmt; intros d Hd; unfold group_dao.insert; by case_decide.
Qed.

Lemma Populate_frame l (P : table Account → table OIDCUser → Prop) : keeps (λ d, P (accounts d) (oidc_users d)) (Populate l).
Proof.
  induction l as [|g l IH]; [apply keeps_ret|]. simpl. apply keeps_bind; [apply keeps_try, group_Onboard_frame|intros r].
  apply keeps_bind; [done|intros ids; apply keeps_ret].
Qed.

Lemma Populate_identified l u : keeps (λ d, identified d u) (Populate l).
Proof.
  apply spec_exact. intros d Hd.
  eapply spec_conseq; [apply (Populate_frame l (λ a _, a = accounts d))|by intros ? ->| |];
    intros; (eapply identified_same; [|exact Hd]); done.
Qed.

(** A profile is not a name, a deletion or a right. *)
Lemma UpdateProfile_identified u cols : cols ≠ [] → Forall (λ c, c = CEmail ∨ c = CRealname) cols →
  keeps (λ d, identified d u) (UpdateProfile u cols).
Proof.
  intros Hne Hcols. apply spec_exact. intros d [Hok Hu].
  assert (Hcol : ∀ c, c ∈ cols → c = CEmail ∨ c = CRealname) by (intros c Hc; rewrite Forall_forall in Hcols; by apply Hcols).
  unfold UpdateProfile. replace (match cols with [] => _ | _ => cols end) with cols by (by destruct cols).
  eapply spec_conseq; [apply (Update_spec u cols d Hok)|by intros ? ->| |].
  - intros [] d' [Hok' (old & Ho & E)]. split; [done|].
    assert (Hw : ac_Username (write cols (toDBUser u) old) = ac_Username old ∧
      ac_Deleted (write cols (toDBUser u) old) = ac_Deleted old ∧
      ac_SysAdminFlag (write cols (toDBUser u) old) = ac_SysAdminFlag old).
    { unfold write. cbn [ac_Username ac_Deleted ac_SysAdminFlag].
      rewrite !decide_False by (intros Hc; by destruct (Hcol _ Hc)). done. }
    destruct Hw as (Hwn & Hwd & Hwf). destruct Hu as (Hdel & Hacc & Hflag). split_and!; [done| |].
    + intros Hid. destruct (Hacc Hid) as (a & Ha & Hn & Hd). rewrite Ho in Ha. simplify_eq.
      exists (write cols (toDBUser u) a). rewrite E. cbn [rows put_row]. by rewrite lookup_insert_eq, Hwn, Hwd.
    + intros Hf. destruct (Hflag Hf) as (i & a & Ha & Hn & Ht). exists i. rewrite E. cbn [rows put_row].
      destruct (decide (i = us_ID u)) as [->|Hi]; [|rewrite lookup_insert_ne by done; eauto].
      rewrite lookup_insert_eq. rewrite Ho in Ha. simplify_eq. eexists. split; [done|]. by rewrite Hwn, Hwf.
  - intros d' E. split; [unfold accounts_ok; by rewrite E|by eapply identity_same].
Qed.

(** ** The authenticators keep the promise *)

Section instances.
Context {UC : UserConfig} (salt : string).

Lemma spec_ignored {A} P (x : M UserDB A) Q : keeps P x → (∀ r d, P d → Q r d) → spec P (try x) Q (λ _, True).
Proof.
  intros H HQ. eapply spec_post; [eapply spec_try; exact H|]. intros [a|e] d Hd; by apply HQ.
Qed.

(** A password matches an account that has the name or the email. *)
Lemma reading_db_Authenticate p pw : reading (db_Authenticate p pw) (λ d r, match r with
  | inl u => ∃ i a, rows (accounts d) !! i = Some a ∧ named_by p a ∧ ac_Deleted a = false ∧
      match_password pw (toCommonUser a) = true ∧ u = clear_password (toCommonUser a)
  | inr _ => True end).
Proof.
  unfold db_Authenticate, MatchLocalPassword. eapply reading_conseq; [eapply reading_bind; [apply reading_try;
    eapply (reading_bind _ _ _ (λ l _ o, o = clear_password <$> head (List.filter (match_password pw) l)));
    [apply reading_List|intros l; apply reading_ret]|intros r; apply reading_ret]|].
  intros d r ([[u|]|e] & Hr & ->); [|done..]. destruct (Hr _ eq_refl) as (l & -> & Hu).
  destruct (head (List.filter (match_password pw) _)) as [x|] eqn:E; [|done]. injection Hu as ->.
  assert (Hin : In x (List.filter (match_password pw) (map toCommonUser
    (select (λ a, named_by p a ∧ ac_Deleted a = false) (accounts d))))).
  { destruct (List.filter _ _); [done|]. simpl in E. injection E as ->. by left. }
  apply List.filter_In in Hin as [Hin Hm]. apply in_map_iff in Hin as (a & <- & Hin).
  apply list_elem_of_In, elem_of_select in Hin as (i & Hi & Hn & Hd). by exists i, a.
Qed.

#[export] Instance db_honest : Honest db_helper.
Proof.
  split; [|intros u; apply spec_ret; by intros d Hd].
  intros p pw. apply spec_exact. intros d Hok. eapply spec_read; [apply reading_db_Authenticate|done|].
  intros [u|e] Hr; (split; [done|]); [|done]. destruct Hr as (i & a & Hi & _ & Hd & _ & ->).
  eapply identity_person; [|by apply (identity_row d i a)]. done.
Qed.

#[export] Instance oidc_honest : Honest (pr_login oidc_provider).
Proof. split; [intros; by apply spec_ret|intros; by apply spec_ret]. Qed.

(** *** LDAP *)

Lemma sync_identified u : spec (λ d, identified d u) (syncUserInfoFromDB u) (λ u' d, identified d u') (λ _, True).
Proof.
  apply spec_exact. intros d [Hok Hu]. unfold syncUserInfoFromDB.
  eapply spec_read_bind; [apply reading_try, reading_GetByName|done|].
  intros [x|e] Hx; apply spec_ret; intros ? ->; (split; [done|]); [|done].
  destruct (Hx x eq_refl) as (i & a & Hi & Hn & Hd & ->). destruct Hu as (Hdel & Hacc & _).
  split_and!; [done|done|]. intros Hf. by exists i, a.
Qed.

Context {G : Goldap} (LDAPConf_ : result LdapConf) (LDAPGroupConf : result GroupConf).

Lemma attach_identified lu u cfg groupCfg :
  spec (λ d, identified d u) (attachLDAPGroup LDAPGroupConf lu u cfg groupCfg) (λ u' d, identified d u') (λ _, True).
Proof.
  unfold attachLDAPGroup. destruct LDAPGroupConf as [gc|]; [|by apply spec_fail]. cbv zeta.
  match goal with |- context [with_groups _ ?x] => set (u' := x) end.
  assert (Hp : same_person u u') by (unfold u'; by case_match).
  assert (Hpre : ∀ d, identified d u → identified d u') by (intros d; by apply identified_person).
  spec_if; [apply spec_ret; apply Hpre|].
  eapply spec_bind; [eapply spec_conseq; [apply (Populate_identified _ u')|done|done|done]|].
  intros ids. apply spec_ret. intros d. by apply identified_person.
Qed.

Lemma ldap_Authenticate_honest p pw : spec accounts_ok (ldap_Authenticate LDAPConf_ LDAPGroupConf p pw)
  (λ r d, accounts_ok d ∧ match r with inl u => identity d u | inr _ => True end) (λ _, True).
Proof.
  unfold ldap_Authenticate. spec_if; [by apply spec_ret|].
  destruct (ldapConfigs _ _) as [[cfg groupCfg]|]; [|by apply spec_ret].
  destruct Dial; [by apply spec_ret|]. destruct (SearchUser _ _ _) as [[|lu [|]]|]; try (by apply spec_ret).
  destruct (ldap_Bind _ _); [by apply spec_ret|].
  eapply spec_bind; [eapply spec_pre; [apply sync_identified|intros d Hd; by split; [|apply identity_new]]|].
  intros u. eapply spec_bind; [apply attach_identified|]. intros u'. by apply spec_ret.
Qed.

Lemma sync_email_identified d u : spec (λ x, identified x u) (sync_email d u) (λ u' x, identified x u') (λ _, True).
Proof.
  unfold sync_email. spec_if; [by apply spec_ret|].
  eapply (spec_bind _ _ (λ _ x, identified x u)).
  - apply (spec_ignored (λ x, identified x u)); [|done]. apply UpdateProfile_identified; [done|]. by repeat constructor.
  - intros [r|e]; apply spec_ret; [done|]. intros x. by apply identified_person.
Qed.

Lemma ldap_OnBoard_honest u d : accounts_ok d → us_Deleted u = false →
  spec (same_accounts d) (ldap_OnBoardUser salt u) (λ u' d', identified d' u') (same_accounts d).
Proof. intros. unfold ldap_OnBoardUser. cbv zeta. apply Onboard_honest; [done|]. by case_match. Qed.

Lemma reading_user_Count b P `{!∀ a, Decision (P a)} : reading (user_Count b P) (λ _ _, True).
Proof.
  unfold user_Count, Count. case_match; (eapply reading_skip; [by intros ? ? ? [-> _]%FromContext_cases|intros ?;
    eapply reading_conseq; [apply reading_query|done]]).
Qed.

Lemma ldap_Post_honest u : spec (λ d, identified d u) (ldap_PostAuthenticate (ldap_OnBoardUser salt) u)
  (λ p d, identified d p.1) (λ _, True).
Proof.
  apply spec_exact. intros d Hd. unfold ldap_PostAuthenticate.
  eapply spec_read_bind; [apply reading_try, reading_user_Count|done|].
  intros [n|e] _; [|apply spec_ret; by intros ? ->]. spec_if.
  - eapply spec_read_bind; [apply reading_try, reading_GetByName|done|].
    intros [x|e] Hx; [|apply spec_ret; by intros ? ->].
    destruct (Hx x eq_refl) as (i & a & Hi & Hn & Hdl & ->). destruct Hd as [Hok Hu].
    eapply (spec_bind _ _ (λ u' y, identified y u')); [|intros u'; by apply spec_ret].
    eapply spec_pre; [apply sync_email_identified|]. intros ? ->. split; [done|].
    destruct (tab_keys _ _ _ _ Hok _ _ Hi) as [Hid _]. destruct Hu as (Hdel & _ & Hf). split_and!; [done| |done].
    intros _. exists a. simpl. by rewrite Hid.
  - eapply (spec_bind _ _ (λ r y, match r with Ok u' => identified y u' | Err _ => identified y u end)).
    + eapply spec_pre; [eapply spec_try, onboarding; intros; apply ldap_OnBoard_honest; [done|apply Hd]|by intros ? ->].
    + intros [u'|e]; by apply spec_ret.
Qed.

#[export] Instance ldap_honest : Honest (pr_login (ldap_provider salt LDAPConf_ LDAPGroupConf)).
Proof. split; [apply ldap_Authenticate_honest|apply ldap_Post_honest]. Qed.

(** *** UAA *)

Context {U : UaaClient}.

Lemma fill_person u : same_person u (fillEmailRealName u).
Proof. unfold fillEmailRealName. cbv zeta. by repeat case_match. Qed.

Lemma uaa_OnBoard_honest u d : accounts_ok d → us_Deleted u = false →
  spec (same_accounts d) (uaa_OnBoardUser salt u) (λ u' d', identified d' u') (same_accounts d).
Proof.
  intros Hok Hd. unfold uaa_OnBoardUser. cbv zeta. spec_if; [by apply spec_fail|]. apply Onboard_honest; [done|].
  match goal with |- us_Deleted (fillEmailRealName ?x) = _ => by destruct (fill_person x) as (_ & _ & _ & ->) end.
Qed.

#[export] Instance uaa_honest : Honest (pr_login (uaa_provider salt)).
Proof.
  split.
  - intros p pw. apply spec_ret. intros d Hok. split; [done|]. repeat case_match; simplify_eq; try done; apply identity_new.
  - intros u. apply spec_exact. intros d [Hok Hu]. simpl. unfold uaa_PostAuthenticate.
    eapply spec_read_bind; [apply reading_try, reading_GetByName|done|]. intros [x|e] Hx.
    + destruct (Hx x eq_refl) as (i & a & Hi & Hn & Hd & ->). cbv zeta.
      set (u' := fillEmailRealName _).
      assert (Hu' : identity d u').
      { eapply identity_person; [apply fill_person|]. apply (identity_found d u i a (ac_SysAdminFlag a)); auto. by destruct Hu. }
      eapply (spec_bind _ _ (λ _ y, identified y u')); [|intros r; by apply spec_ret].
      eapply spec_pre; [apply (spec_ignored (λ y, identified y u')); [|done]|by intros ? ->].
      apply UpdateProfile_identified; [done|]. constructor; [by left|constructor; [by right|constructor]].
    + spec_if; [|apply spec_ret; by intros ? ->].
      eapply (spec_bind _ _ (λ r y, match r with Ok u' => identified y u' | Err _ => identified y u end)).
      * eapply spec_pre; [eapply spec_try, onboarding; intros; apply uaa_OnBoard_honest; [done|apply Hu]|by intros ? ->].
      * intros [u'|e']; by apply spec_ret.
Qed.

(** *** HTTP auth proxy *)

Context {AP : AuthProxy}.

Lemma review_identified s ags aus : spec accounts_ok (UserFromReviewStatus s ags aus) (λ u d, identified d u) accounts_ok.
Proof.
  unfold UserFromReviewStatus. spec_if; [by apply spec_fail|]. cbv zeta.
  assert (Hnew : ∀ d, accounts_ok d → identified d (with_admin_role (bool_decide (rs_Username s ∈ aus)) (new_user (rs_Username s) EmptyString EmptyString))).
  { intros d Hok. eapply identified_person; [|split; [done|apply identity_new]]. done. }
  destruct (rs_Groups s) as [|g gs]; [by apply spec_ret|].
  eapply spec_bind; [eapply spec_conseq; [apply (Populate_identified _ (new_user (rs_Username s) EmptyString EmptyString))| |done|by intros ? [? _]]|].
  - intros d Hok. split; [done|apply identity_new].
  - intros ids. apply spec_ret. intros d. by apply identified_person.
Qed.

Lemma fillInModel_person u u' : fillInModel u = Ok u' → same_person u u'.
Proof. unfold fillInModel. case_match; [done|]. cbv zeta. intros [= <-]. by case_match. Qed.

#[export] Instance proxy_honest : Honest (pr_login (proxy_provider salt)).
Proof.
  split.
  - intros p pw. simpl. unfold proxy_Authenticate. destruct proxy_ensure; [by apply spec_ret|].
    destruct (proxy_Post p pw) as [[status [data|]]|]; [|by apply spec_ret..]. spec_if; [|spec_if; by apply spec_ret].
    destruct (session_id data) as [sid|]; [|by apply spec_ret]. eapply spec_bind; [eapply spec_try|].
    + unfold tokenReview. destruct proxy_settings; [|by apply spec_fail]. destruct (TokenReview sid); [|by apply spec_fail].
      apply review_identified.
    + intros [u|e]; apply spec_ret; by intros d Hd.
  - intros u. apply spec_exact. intros d [Hok Hu]. simpl. unfold proxy_PostAuthenticate.
    eapply spec_read_bind; [apply reading_try, reading_GetByName|done|].
    intros [x|e] _; [apply spec_ret; by intros ? ->|]. spec_if; [|apply spec_ret; by intros ? ->].
    destruct (fillInModel u) as [u1|] eqn:Ef; [|apply spec_ret; by intros ? ->]. apply fillInModel_person in Ef.
    assert (H1 : identified d u1) by (by eapply identified_person).
    eapply (spec_bind _ _ (λ r y, match r with Ok u' => identified y u' | Err _ => identified y u1 end)).
    + eapply spec_pre; [eapply spec_try, onboarding; intros; apply Onboard_honest; [done|apply H1]|by intros ? ->].
    + intros [u'|e']; by apply spec_ret.
Qed.
End instances.

(** ** Users with a number *)

Section numbered.
Context {UC : UserConfig} (salt : string).

Lemma reading_GetByName_number name d : accounts_ok d →
  spec (λ x, x = d) (user_GetByName name) (λ u _, 0 < us_ID u) (λ x, x = d).
Proof.
  intros Hok. eapply spec_read; [apply reading_GetByName|done|].
  intros u (i & a & Hi & _ & _ & ->). simpl. by destruct (tab_keys _ _ _ _ Hok _ _ Hi) as [-> [? _]].
Qed.

Lemma Onboard_number u : spec accounts_ok (Onboard salt u) (λ u' _, 0 < us_ID u') (λ _, True).
Proof.
  apply spec_exact. intros d Hok. unfold Onboard.
  eapply spec_bind; [eapply spec_try, reading_GetByName_number, Hok|]. intros [x|e]; [by apply spec_ret|]. simpl.
  spec_if; [by apply spec_fail|].
  eapply spec_bind; [eapply spec_conseq; [apply (account_Create_spec _ d Hok)|by intros ? ->|done|done]|].
  intros id. apply spec_ret. intros d' (-> & _). simpl. unfold next. pose proof (tab_seq _ _ _ _ Hok). lia.
Qed.

Context {U : UaaClient}.

Lemma uaa_Post_number u : spec accounts_ok (uaa_PostAuthenticate salt u) (λ p _, p.2 = None → 0 < us_ID p.1) (λ _, True).
Proof.
  apply spec_exact. intros d Hok. unfold uaa_PostAuthenticate.
  eapply spec_bind; [eapply spec_try, reading_GetByName_number, Hok|]. intros [x|e].
  - cbv zeta. simpl. set (u' := fillEmailRealName _).
    assert (Hid : us_ID u' = us_ID x) by (exact (proj1 (fill_person _))).
    eapply (spec_bind _ _ (λ _ _, 0 < us_ID x)); [|intros; apply spec_ret; intros ? ?; simpl; by rewrite Hid].
    eapply (spec_ignored (λ _, 0 < us_ID x)); [|done]. intros w r w' Hx _. by case_match.
  - simpl. spec_if; [|by apply spec_ret].
    eapply (spec_bind _ _ (λ r _, match r with Ok u' => 0 < us_ID u' | Err _ => True end)).
    + apply (spec_try _ _ (λ u' _, 0 < us_ID u') (λ _, True)). unfold uaa_OnBoardUser. cbv zeta.
      spec_if; [by apply spec_fail|]. eapply spec_pre; [apply Onboard_number|by intros ? ->].
    + intros [u'|e']; apply spec_ret; by intros.
Qed.

Lemma db_Authenticate_number p pw : spec accounts_ok (db_Authenticate p pw)
  (λ r _, match r with inl u => 0 < us_ID u | inr _ => True end) (λ _, True).
Proof.
  apply spec_exact. intros d Hok. eapply spec_read; [apply reading_db_Authenticate|done|].
  intros [u|e]; [|done]. intros (i & a & Hi & _ & _ & _ & ->). simpl.
  by destruct (tab_keys _ _ _ _ Hok _ _ Hi) as [-> [? _]].
Qed.
End numbered.

(** ** The login *)

(** Every authenticator that is registered keeps the promise. *)
Definition honest_registry (registry : gmap string AuthenticateHelper) : Prop := map_Forall (λ _, Honest) registry.

Section login.
Context {UC : UserConfig} (auth_mode : result string) (registry : gmap string AuthenticateHelper).

(** A login is the two calls of one authenticator. *)
Lemma Login_calls now l principal password w u l' w' :
  Login auth_mode registry now l principal password w = (Ok (LoggedIn u, l'), w') →
  ∃ mode h w1 u0 w2, registry !! mode = Some h ∧ (mode = DBAuth ∨ auth_mode = Ok mode) ∧ db w1 = db w ∧
    h_Authenticate h principal password w1 = (Ok (inl u0), w2) ∧ h_PostAuthenticate h u0 w2 = (Ok (u, None), w').
Proof.
  unfold Login, login_start. destruct auth_mode as [mode|]; [|done]. intros H. mbind_inv H. mbind_inv Hm.
  assert (Hw : db w1 = db w).
  { destruct (mode == EmptyString); [by injection Hm0 as _ <-|]. unfold IsSuperUser in Hm0. mbind_inv Hm0.
    injection Hm0 as _ <-. by destruct (reading_try _ _ (reading_GetByName principal) _ _ _ Hm1). }
  injection Hm as Hs <-. set (mode' := if a0 then DBAuth else mode) in Hs. destruct (registry !! mode') as [h|] eqn:Eh; [|by subst a].
  subst a. destruct (IsLocked _ _ _); [done|]. mbind_inv H. destruct a as [x|d]; [|done]. injection H as -> _ <-.
  unfold login_authenticate in Hm. mbind_inv Hm. destruct a as [u0|[]]; [|done..]. mbind_inv Hm.
  destruct a as [u1 [e|]]; [done|]. injection Hm as <- <-. eexists mode', h, _, u0, _. split_and!; [done| |exact Hw|done|done].
  unfold mode'. destruct a0; auto.
Qed.
End login.

(** ** The registered authenticators *)

Section registered.
Context {UC : UserConfig} {G : Goldap} {U : UaaClient} {AP : AuthProxy}.
Context (salt : string) (LDAPConf_ : result LdapConf) (LDAPGroupConf : result GroupConf).

(** The [init] functions. *)
Definition providers : gmap string Provider :=
  <[OIDCAuth := oidc_provider]> (<[HTTPAuth := proxy_provider salt]> (<[UAAAuth := uaa_provider salt]>
    (<[LDAPAuth := ldap_provider salt LDAPConf_ LDAPGroupConf]> {[DBAuth := db_provider]}))).

Lemma providers_cases mode p : providers !! mode = Some p →
  (mode = OIDCAuth ∧ p = oidc_provider) ∨ (mode = HTTPAuth ∧ p = proxy_provider salt) ∨
  (mode = UAAAuth ∧ p = uaa_provider salt) ∨ (mode = LDAPAuth ∧ p = ldap_provider salt LDAPConf_ LDAPGroupConf) ∨
  (mode = DBAuth ∧ p = db_provider).
Proof.
  unfold providers. rewrite !lookup_insert_Some, lookup_singleton_Some. naive_solver.
Qed.

Lemma providers_honest mode h : (pr_login <$> providers) !! mode = Some h → Honest h.
Proof.
  rewrite lookup_fmap_Some. intros (p & <- & Hp).
  apply providers_cases in Hp as [[_ ->]|[[_ ->]|[[_ ->]|[[_ ->]|[_ ->]]]]]; apply _.
Qed.

(** C18 (safety). Who a login returns, whichever authenticator is configured and
    whatever fails: a user with a number is the live account of that name, and a
    user is an administrator only where the account of that name is one.  With
    the database or UAA as authenticator every user that is returned has a
    number. *)
Theorem login_identity auth_mode now l principal password w u l' w' :
  accounts_ok (db w) →
  Login auth_mode (pr_login <$> providers) now l principal password w = (Ok (LoggedIn u, l'), w') →
  (us_ID u ≠ 0 → ∃ a, rows (accounts (db w')) !! us_ID u = Some a ∧ ac_Username a = us_Username u ∧ ac_Deleted a = false) ∧
  (us_SysAdminFlag u = true →
     ∃ i a, rows (accounts (db w')) !! i = Some a ∧ ac_Username a = us_Username u ∧ ac_SysAdminFlag a = true) ∧
  (auth_mode = Ok DBAuth ∨ auth_mode = Ok UAAAuth → 0 < us_ID u).
Proof.
  intros Hok H. apply Login_calls in H as (mode & h & w1 & u0 & w2 & Hh & Hmode & Hw & Ha & Hp).
  pose proof (providers_honest _ _ Hh) as [Hauth Hpost]. rewrite <-Hw in Hok.
  pose proof (Hauth _ _ _ _ _ Hok Ha) as [Hok2 Hu0]. pose proof (Hpost u0 _ _ _ (conj Hok2 Hu0) Hp) as [_ (_ & H1 & H2)].
  split_and!; [done|done|]. intros Hm. apply lookup_fmap_Some in Hh as (p & <- & Hp').
  assert (mode = DBAuth ∨ mode = UAAAuth) as Hm' by naive_solver. clear Hm Hmode.
  apply providers_cases in Hp' as [[-> ->]|[[-> ->]|[[-> ->]|[[-> ->]|[-> ->]]]]]; try (by destruct Hm').
  - exact (uaa_Post_number salt u0 _ _ _ Hok2 Hp eq_refl).
  - injection Hp as <- _. exact (db_Authenticate_number _ _ _ _ _ Hok Ha).
Qed.
End registered.

(** *** Logins *)

#[local] Instance toy_users : UserConfig := {| hash := λ p s v, v +:+ ":" +:+ s +:+ ":" +:+ p; checkSum := λ _, "00000000"%string |}.

(** A directory with one entry, [uid=admin], whose password is [letmein]; as in
    LDAP, the attribute is compared without regard to case. *)
#[local] Instance toy_ldap : Goldap := {|
  Filter := string; CompileFilter := Some; DecompileFilter := Ok; FilterAnd := λ a b, "(&" +:+ a +:+ b +:+ ")";
  FilterOr := λ a b, "(|" +:+ a +:+ b +:+ ")"; EscapeFilter := λ s, s; DN := string; ParseDN := Ok;
  AncestorOf := λ _ _, false; DN_Equal := λ a b, a == b; Dial := None;
  ldap_Bind := λ dn pw, if (dn == "uid=admin") && negb (pw == "letmein") then Some (PlainError "invalid credentials") else None;
  ldap_Search := λ _ filter _, Ok (if ProjectStore.ToLower filter == "(uid=admin)"
                                   then [mkEntry "uid=admin" [("uid"%string, ["admin"%string])]] else []);
  IsNetworkError := λ _, false; IsInvalidCredentials := λ _, false; IsNoSuchObject := λ _, false |}.

#[local] Instance toy_uaa : UaaClient := {|
  ensureClient := None; PasswordAuth := λ u p, if p == u +:+ "!" then Ok u else Err (PlainError "unauthorized");
  GetUserInfo := λ t, Ok (t +:+ "@example.com", t); uaa_Search := λ _, Ok [] |}.

(** A proxy that accepts everyone. *)
#[local] Instance toy_proxy : AuthProxy := {|
  proxy_ensure := None; proxy_SkipSearch := true; proxy_settings := Ok (mkHTTPAuthProxy [] []);
  proxy_Post := λ u _, Ok (200, Some u); session_id := Ok;
  TokenReview := λ t, Ok (mkReview true t [] EmptyString) |}.

Definition toy_conf : result LdapConf := Ok (mkLdapConf EmptyString EmptyString EmptyString EmptyString "uid").
Definition toy_login (mode principal password : string) (d : UserDB) :=
  Login (Ok mode) (pr_login <$> providers "salt" toy_conf (Ok empty_group_conf)) 0 (mkUserLock ∅ frozenTime) principal password
    (mkWorld d true []).

Definition who (r : result (login_result * UserLock) * World UserDB) : option (Z * string * bool) :=
  match r.1 with Ok (LoggedIn u, _) => Some (us_ID u, us_Username u, us_SysAdminFlag u) | _ => None end.

Lemma login_identity_witness : ∃ u l w',
  toy_login UAAAuth "alice" "alice!" two_users = (Ok (LoggedIn u, l), w') ∧ us_ID u = 3 ∧
  (us_ID u ≠ 0 → ∃ a, rows (accounts (db w')) !! us_ID u = Some a ∧ ac_Username a = us_Username u ∧ ac_Deleted a = false).
Proof.
  eexists _, _, _. split; [vm_compute; reflexivity|]. split; [reflexivity|].
  eapply (login_identity (G := toy_ldap) "salt" toy_conf (Ok empty_group_conf) (Ok UAAAuth) 0 (mkUserLock ∅ frozenTime) "alice" "alice!"
    (mkWorld two_users true [])); [apply two_users_ok|vm_compute; reflexivity].
Defined.

(** With an auth proxy, an account that exists logs in without its number. *)
Example authproxy_known_user :
  who (toy_login HTTPAuth "alice" "any" two_users) = Some (0, "alice"%string, false) ∧
  who (toy_login HTTPAuth "bob" "any" two_users) = Some (4, "bob"%string, false).
Proof. split; vm_compute; reflexivity. Qed.

(** The administrator logs in with the password of the database: with its own
    name, the directory is not asked.  Under a name that the directory takes for
    the same, the entry [admin] of the directory becomes the administrator. *)
Example directory_admin :
  who (toy_login LDAPAuth "admin" "letmein" two_users) = None ∧
  who (toy_login LDAPAuth "Admin" "letmein" two_users) = Some (1, "admin"%string, true).
Proof. split; vm_compute; reflexivity. Qed.
