(* ===== verification/AuthChainSpec.v ===== *)
(** * The security context of a request is vouched for

    What the chain of generators proves about the caller before it hands out a
    context. *)

From S2P Require Import Prelude GoErrors GoStrings GoUrl Orm Table Hoare Encrypt Users UserApi UserSpec.
From S2P Require Import UserGroups Ldap AuthProviders Oidc ProxySecret AuthChain AuthSpec.
From S2P Require ProjectStore RobotStore RobotSpec Security TokenService TokenSpec.
From Stdlib Require Import Ascii.
Open Scope Z_scope.
Local Open Scope harbor_scope.
Import user_dao.

(** ** Programs that do not fail *)

Definition never {D} : D → Prop := λ _, False.

Lemma spec_never_try {D A} (P : D → Prop) (x : M D A) Q E : spec P x Q E →
  spec P (try x) (λ r d, match r with Ok a => Q a d | Err _ => E d end) never.
Proof. apply spec_try. Qed.

Lemma spec_in_memory {A} (P : AuthDB → Prop) (f : AuthDB → A * AuthDB) Q :
  (∀ d, P d → Q (f d).1 (f d).2) → spec P (in_memory f) Q never.
Proof.
  intros H w r w' HP. unfold in_memory. specialize (H _ HP). destruct (f (db w)) as [a d]. by intros [= <- <-].
Qed.

Lemma spec_quietly {A} (P : AuthDB → Prop) (x : M AuthDB (option A)) Q E :
  spec P x Q E → (∀ d, E d → Q None d) → spec P (quietly x) Q never.
Proof.
  intros Hx HE. unfold quietly. eapply spec_bind; [eapply spec_never_try, Hx|].
  intros [o|e]; apply spec_ret; auto.
Qed.

(** A program on the users alone. *)
Lemma spec_users {A} (P : UserDB → Prop) (x : M UserDB A) Q E : spec P x Q E →
  spec (λ d, P (ad_users d)) (on_users x) (λ a d, Q a (ad_users d)) (λ d, E (ad_users d)).
Proof.
  intros Hx. apply spec_zoom. intros d Hd. eapply spec_pre; [|intros e ->; exact Hd]. exact Hx.
Qed.

(** ** Robots *)

(** What a robot is checked by. *)
Definition same_login (r b : RobotStore.RobotRow) : Prop :=
  RobotStore.b_Secret b = RobotStore.b_Secret r ∧ RobotStore.b_Salt b = RobotStore.b_Salt r ∧
  RobotStore.b_Disabled b = RobotStore.b_Disabled r ∧ RobotStore.b_ExpiresAt b = RobotStore.b_ExpiresAt r.

Section robots.
Context {RC : RobotStore.RobotConfig}.

Lemma populate_login wp r : reading (RobotStore.populate wp r) (λ _ x, same_login r (RobotStore.rb_Robot x)).
Proof.
  unfold RobotStore.populate. cbv zeta. eapply reading_skip.
  - destruct wp; [|intros ? ? ? [= _ <-]; done].
    unfold RobotStore.populatePermissions, RobotStore.rbac_dao.GetPermissionsByRole, reads. frame.
    apply RobotSpec.convert_all_reads.
  - intros ps. eapply reading_conseq; [apply reading_ret|]. intros d x ->. simpl. by case_match.
Qed.

Lemma populate_all_login wp l : reading (RobotStore.populate_all wp l)
  (λ _ xs, Forall2 (λ r x, same_login r (RobotStore.rb_Robot x)) l xs).
Proof.
  induction l as [|r l IH]; simpl; [eapply reading_conseq; [apply reading_ret|intros ? ? ->; constructor]|].
  eapply reading_conseq; [eapply reading_bind; [apply populate_login|intros x;
    eapply reading_bind; [apply IH|intros xs; apply reading_ret]]|].
  simpl. intros d ys (x & Hx & xs & Hxs & ->). by constructor.
Qed.

(** The caller knows the secret of a robot that is enabled and has not expired. *)
Definition robot_vouched (d : RobotStore.RobotDB) (ba : option (string * string)) : Prop :=
  ∃ name secret i row, ba = Some (name, secret) ∧ rows (RobotStore.robots d) !! i = Some row ∧
    HasPrefix name RobotStore.RobotPrefix = true ∧ RobotStore.b_Name row = TrimPrefix name RobotStore.RobotPrefix ∧
    RobotStore.Encrypt secret (RobotStore.b_Salt row) = RobotStore.b_Secret row ∧ RobotStore.b_Disabled row = false ∧
    (RobotStore.b_ExpiresAt row = -1 ∨ ProjectStore.pnow (RobotStore.rproj d) < RobotStore.b_ExpiresAt row).

Lemma reading_clock : reading RobotStore.clock (λ d n, n = ProjectStore.pnow (RobotStore.rproj d)).
Proof. intros w r w' [= <- <-]. split; [done|]. by intros a [= <-]. Qed.

Lemma Generate_vouched ba : reading (RobotStore.Generate ba)
  (λ d c, match c with Some _ => robot_vouched d ba | None => True end).
Proof.
  unfold RobotStore.Generate. destruct ba as [[name secret]|]; [|eapply reading_conseq; [apply reading_ret|by intros ? ? ->]].
  destruct (HasPrefix name _) eqn:Hp; [|eapply reading_conseq; [apply reading_ret|by intros ? ? ->]]. simpl.
  eapply reading_conseq; [eapply reading_bind; [apply reading_try; unfold RobotStore.robot_ctl.List, RobotStore.robot_dao.List;
    eapply reading_bind; [eapply reading_skip; [by intros ? ? ? [-> _]%FromContext_cases|intros ?; apply reading_query]
                         |intros l; apply populate_all_login]
    |intros l; eapply reading_bind; [apply reading_clock|intros n; apply reading_ret]]|].
  simpl. intros d c ([[|x xs]|e] & Hl & n & -> & ->); [done| |done].
  destruct (Hl _ eq_refl) as (rs & [= Hrs] & H2). destruct rs as [|row rs]; [by inversion H2|]. apply Forall2_cons in H2 as [Hrow _].
  assert (Hin : row ∈ select (λ r, RobotStore.b_Name r = TrimPrefix name RobotStore.RobotPrefix) (RobotStore.robots d)) by (rewrite Hrs; left).
  apply elem_of_select in Hin as (i & Hi & Hn). destruct Hrow as (Hs & Hsa & Hd & He). rewrite Hs, Hsa, Hd, He.
  destruct (RobotStore.Encrypt secret _ == _) eqn:E1; [|done]. destruct (RobotStore.b_Disabled row) eqn:E2; [done|]. simpl.
  destruct (negb _ && _) eqn:E3; [done|]. exists name, secret, i, row. split_and!; try done; [by apply bool_decide_eq_true in E1|].
  apply andb_false_iff in E3 as [E3|E3]; [left; apply negb_false_iff in E3; lia|right; lia].
Qed.
End robots.

(** ** Local users *)

Section chain.
Context {UC : UserConfig} {RC : RobotStore.RobotConfig} {J : TokenService.Jwt} {OP : OidcProvider} {G : Goldap} {U : UaaClient} {AP : AuthProxy}.
Context (AES : bytes → bytes → bytes) (encryptKey : result string) (random : result bytes).
Context (salt : string) (LDAPConf_ : result LdapConf) (LDAPGroupConf : result GroupConf).
Context (SecretStore : option (gmap string string)) (token_env : TokenService.Env)
  (now : Z) (AuthMode : result string) (token_claims : claims → string * string).

Notation registry := (providers salt LDAPConf_ LDAPGroupConf).
Notation auth_mode := (mode AuthMode).

(** What makes the caller of a request the user, other than a session: the secret
    of the command line, an ID token, a token the proxy reviewed, or a login. *)
Inductive proven (d : UserDB) (r : Request) (u : User) : Prop :=
| proven_cli username secret i o a key :
    auth_mode = Some OIDCAuth → BasicAuth (rq_Authorization r) = Some (username, secret) → oidc_valid r = true →
    rows (oidc_users d) !! i = Some o → rows (accounts d) !! ou_UserID o = Some a → ac_Username a = username →
    encryptKey = Ok key → ReversibleDecrypt AES (ou_Secret o) key = Ok secret → us_Username u = username → proven d r u
| proven_id_token c i o :
    auth_mode = Some OIDCAuth → VerifyToken (TokenService.bearerToken (rq_Authorization r)) = Ok c →
    rows (oidc_users d) !! i = Some o → ou_SubIss o = (token_claims c).1 +:+ (token_claims c).2 → us_ID u = ou_UserID o → proven d r u
| proven_review name pwd status :
    auth_mode = Some HTTPAuth → BasicAuth (rq_Authorization r) = Some (name, pwd) → TokenReview pwd = Ok status →
    rs_Authenticated status = true → us_Username u = rs_Username status → proven d r u
| proven_login name pwd l l' w w' :
    BasicAuth (rq_Authorization r) = Some (name, pwd) →
    Login AuthMode (pr_login <$> registry) now l name pwd w = (Ok (LoggedIn u, l'), w') → proven d r u.

(** *** The secret of the command line *)

Lemma reading_GetByUsername username : reading (oidc_GetByUsername username)
  (λ d o, ∃ i a, rows (oidc_users d) !! i = Some o ∧ rows (accounts d) !! ou_UserID o = Some a ∧ ac_Username a = username).
Proof.
  unfold oidc_GetByUsername. eapply reading_conseq;
    [eapply reading_skip; [by intros ? ? ? [-> _]%FromContext_cases|intros ?; apply reading_query]|].
  intros d o H. simpl in H. destruct (select _ _) as [|x l] eqn:E; [done|]. simpl in H. injection H as ->.
  assert (Hin : o ∈ select (λ o, ac_Username <$> rows (accounts d) !! ou_UserID o = Some username) (oidc_users d)) by (rewrite E; left).
  apply elem_of_select in Hin as (i & Hi & Ha). apply fmap_Some in Ha as (a & Ha & ->). by exists i, a.
Qed.

(** The records of the provider, up to the token that is kept. *)
Definition cli_fact (username secret : string) (d : UserDB) : Prop :=
  ∃ i o a key, rows (oidc_users d) !! i = Some o ∧ rows (accounts d) !! ou_UserID o = Some a ∧ ac_Username a = username ∧
    encryptKey = Ok key ∧ ReversibleDecrypt AES (ou_Secret o) key = Ok secret.

Lemma oidc_Update_token id enc username secret d0 :
  keeps (λ d, same_accounts d0 d ∧ cli_fact username secret d) (oidc_Update id (λ x, set_secret_token (ou_Secret x) enc x)).
Proof.
  apply keeps_affect. intros d d' [Hd (i & o & a & key & Ho & Ha & Hn & Hk & Hs)] H. split.
  - destruct (rows (oidc_users d) !! id); simplify_eq/=. done.
  - destruct (rows (oidc_users d) !! id) as [x|] eqn:Ex; simplify_eq/=.
    destruct (decide (i = id)) as [->|Hne].
    + rewrite Ho in Ex. simplify_eq. eexists id, _, a, key. simpl. rewrite lookup_insert_eq. done.
    + exists i, o, a, key. simpl. rewrite lookup_insert_ne by done. done.
Qed.

Lemma refreshed_cli o key t username secret d0 :
  keeps (λ d, same_accounts d0 d ∧ cli_fact username secret d) (refreshed AES random o key t).
Proof.
  unfold refreshed. destruct (token_Valid t); [apply keeps_ret|]. destruct (refreshToken t); [|apply keeps_fail].
  destruct (token_Marshal _); [|apply keeps_fail]. cbv zeta. apply keeps_bind; [apply keeps_try, oidc_Update_token|intros; apply keeps_ret].
Qed.

Lemma VerifySecret_cli username secret d0 : spec (λ d, d = d0) (VerifySecret AES encryptKey random username secret)
  (λ _ d, same_accounts d0 d ∧ cli_fact username secret d) (same_accounts d0).
Proof.
  unfold VerifySecret. eapply spec_read_bind; [apply reading_try, reading_GetByUsername|done|].
  intros [o|e] Ho; [|apply spec_fail; by intros ? ->]. destruct (Ho o eq_refl) as (i & a & Hi & Ha & Hn).
  destruct encryptKey as [key|] eqn:Ek; [|apply spec_fail; by intros ? ->].
  destruct (ReversibleDecrypt AES (ou_Secret o) key) as [plain|] eqn:Ed; [|apply spec_fail; by intros ? ->].
  destruct (negb (secret == plain)) eqn:Es; [apply spec_fail; by intros ? ->|].
  apply negb_false_iff, bool_decide_eq_true in Es as <-.
  destruct (ReversibleDecrypt AES (ou_Token o) key) as [ts|]; [|apply spec_fail; by intros ? ->].
  destruct (token_Unmarshal ts) as [t|]; [|apply spec_fail; by intros ? ->].
  eapply spec_bind; [eapply spec_conseq; [apply (refreshed_cli o key t username secret d0)| |by intros ? ? H; exact H|by intros ? [? _]]|].
  - intros ? ->. split; [done|]. by exists i, o, a, key.
  - intros t'. destruct (UserInfoFromToken t'); [by apply spec_ret|by apply spec_fail; intros ? [? _]].
Qed.

(** Groups are injected into the same person. *)
Lemma Inject_person info u (P : table Account → table OIDCUser → Prop) :
  spec (λ d, P (accounts d) (oidc_users d)) (InjectGroupsToUser info u)
    (λ u' d, P (accounts d) (oidc_users d) ∧ same_person u u') (λ d, P (accounts d) (oidc_users d)).
Proof.
  unfold InjectGroupsToUser. destruct info as [i|]; [|by apply spec_ret]. unfold populateGroupsDB.
  eapply (spec_bind _ _ (λ _ d, P (accounts d) (oidc_users d))); [apply keeps_try|].
  - destruct OIDCSetting_; [apply Populate_frame|apply keeps_fail].
  - intros r. cbv zeta. apply spec_ret. intros d Hd. split; [done|]. by destruct r.
Qed.

Definition users_vouched (r : Request) (c : option Context) (d : UserDB) : Prop :=
  accounts_ok d ∧ match c with
    | Some (LocalCtx (Some u)) => identity d u ∧ proven d r u
    | Some _ => False
    | None => True
    end.

Lemma spec_no_user r : spec (λ d, accounts_ok (ad_users d)) (mret None) (λ c d, users_vouched r c (ad_users d)) never.
Proof. apply spec_ret. intros d Hd. by split. Qed.

Lemma oidcCli_vouched r : spec (λ d, accounts_ok (ad_users d))
  (oidcCli_Generate AES encryptKey random AuthMode r) (λ c d, users_vouched r c (ad_users d)) never.
Proof.
  unfold oidcCli_Generate. destruct (decide (auth_mode = Some OIDCAuth)) as [Hm|Hm];
    [rewrite bool_decide_true by done|rewrite bool_decide_false by done; apply spec_no_user]. simpl.
  destruct (BasicAuth _) as [[username secret]|] eqn:Eb; [|apply spec_no_user].
  destruct (oidc_valid r) eqn:Ev; [|apply spec_no_user]. simpl.
  eapply spec_quietly; [eapply spec_users|intros d Hd; split; [exact Hd|done]].
  apply spec_exact. intros d0 Hok.
  assert (Hok' : ∀ d, same_accounts d0 d → accounts_ok d) by (intros d E; unfold accounts_ok; by rewrite E).
  eapply spec_bind; [eapply spec_conseq; [apply (VerifySecret_cli username secret d0)|by intros ? ->|by intros ? ? H; exact H|exact Hok']|].
  intros info. apply spec_exact. intros d [Hd (i & o & a & key & Hi & Ha & Hn & Hk & Hs)].
  eapply spec_read_bind; [apply reading_GetByName|by apply Hok'|]. intros u (j & b & Hj & Hbn & Hbd & ->).
  eapply spec_bind; [eapply spec_conseq; [apply (Inject_person (Some info) (toCommonUser b) (λ A O, A = accounts d ∧ O = oidc_users d))|
    by intros ? ->|by intros ? ? H; exact H|]|].
  - intros d' [E _]. apply Hok'. unfold same_accounts in *. congruence.
  - intros u. apply spec_ret. intros d' [[EA EO] Hp]. split; [apply Hok'; unfold same_accounts in *; congruence|].
    split; [eapply identity_person; [exact Hp|]; eapply identity_same; [exact EA|]; by eapply identity_row, Hbd; [apply Hok'|]|].
    eapply (proven_cli _ _ _ username secret i o a key); [done|done|done|by rewrite EO|by rewrite EA|done|done|done|].
    destruct Hp as (_ & -> & _). simpl. congruence.
Qed.

(** *** ID tokens *)

Lemma reading_GetBySubIss sub iss : reading (GetBySubIss sub iss)
  (λ d o, ∃ i, rows (oidc_users d) !! i = Some o ∧ ou_SubIss o = sub +:+ iss).
Proof.
  unfold GetBySubIss, oidc_List, not_found. eapply reading_conseq.
  - eapply (reading_bind _ _ _ (λ l _ u, match l with x :: _ => u = x | [] => False end)).
    + eapply reading_skip; [by intros ? ? ? [-> _]%FromContext_cases|intros ?; apply reading_query].
    + intros [|x l]; [apply reading_fail|apply reading_ret].
  - intros d o (l & [= <-] & Hl). destruct (select _ _) as [|x k] eqn:E; [done|]. subst x.
    assert (o ∈ select (λ o, ou_SubIss o = sub +:+ iss) (oidc_users d)) as Hin by (rewrite E; left).
    apply elem_of_select in Hin as (i & Hi & Hs). eauto.
Qed.

Lemma reading_ctl_GetBySubIss sub iss : reading (ctl_GetBySubIss AES encryptKey None sub iss)
  (λ d u, ∃ i o j a, rows (oidc_users d) !! i = Some o ∧ ou_SubIss o = sub +:+ iss ∧
     rows (accounts d) !! j = Some a ∧ ac_ID a = ou_UserID o ∧ ac_Deleted a = false ∧ u = toCommonUser a).
Proof.
  unfold ctl_GetBySubIss, ctl_Get. eapply reading_conseq.
  - eapply reading_bind; [apply reading_GetBySubIss|intros o]. eapply reading_bind; [|intros x; apply reading_ret].
    eapply reading_bind; [apply reading_Get|intros u; cbv zeta; apply reading_ret].
  - simpl. intros d u (o & (i & Hi & Hs) & x & (u' & (j & a & Hj & Hid & Hd & ->) & ->) & ->). by exists i, o, j, a.
Qed.

Lemma idToken_vouched r : spec (λ d, accounts_ok (ad_users d))
  (idToken_Generate AES encryptKey AuthMode token_claims r) (λ c d, users_vouched r c (ad_users d)) never.
Proof.
  unfold idToken_Generate. destruct (decide (auth_mode = Some OIDCAuth)) as [Hm|Hm];
    [rewrite bool_decide_true by done|rewrite bool_decide_false by done; apply spec_no_user]. simpl.
  spec_if; [apply spec_no_user|]. cbv zeta. spec_if; [apply spec_no_user|].
  destruct (VerifyToken _) as [c|] eqn:Ev; [|apply spec_no_user].
  eapply spec_quietly; [eapply spec_users|intros d Hd; split; [exact Hd|done]].
  apply spec_exact. intros d Hok. eapply spec_read_bind; [apply reading_ctl_GetBySubIss|done|].
  intros u (i & o & j & a & Hi & Hs & Hj & Hid & Hd & ->).
  destruct OIDCSetting_ as [setting|]; [|apply spec_ret; intros ? ->; by split].
  destruct (UserInfoFromIDToken _ setting) as [info|]; [|apply spec_ret; intros ? ->; by split].
  eapply spec_bind; [eapply spec_conseq; [apply (Inject_person info (toCommonUser a) (λ A O, A = accounts d ∧ O = oidc_users d))|
    by intros ? ->|by intros ? ? H; exact H|]|].
  - intros d' [E _]. unfold accounts_ok. by rewrite E.
  - intros u. apply spec_ret. intros d' [[EA EO] Hp]. split; [unfold accounts_ok; by rewrite EA|].
    split; [eapply identity_person; [exact Hp|]; eapply identity_same; [exact EA|]; by eapply identity_row|].
    eapply (proven_id_token _ _ _ c i o); [done|done|by rewrite EO|done|]. by destruct Hp as (-> & _).
Qed.

(** *** Tokens that the proxy reviews *)

Lemma review_frame s ags aus (P : table Account → table OIDCUser → Prop) :
  spec (λ d, P (accounts d) (oidc_users d)) (UserFromReviewStatus s ags aus)
    (λ _ d, rs_Authenticated s = true ∧ P (accounts d) (oidc_users d)) (λ d, P (accounts d) (oidc_users d)).
Proof.
  unfold UserFromReviewStatus. destruct (rs_Authenticated s); [|by apply spec_fail]. cbn [negb]. cbv zeta.
  destruct (rs_Groups s); [by apply spec_ret|]. eapply spec_bind; [apply (Populate_frame _ P)|]. intros. by apply spec_ret.
Qed.

Lemma Onboard_name u : spec (λ _, True) (Onboard salt u) (λ u' _, us_Username u' = us_Username u) (λ _, True).
Proof.
  unfold Onboard. eapply (spec_bind _ _ (λ _ _, True)); [apply (spec_ignored (λ _, True)); [by intros ? [] ?|done]|].
  intros [x|e]; [by apply spec_ret|]. spec_if; [by apply spec_fail|].
  eapply (spec_bind _ _ (λ _ _, True)); [by intros ? [] ?|]. intros id. by apply spec_ret.
Qed.

(** The account that is made for a name. *)
Lemma onboarded_account name : auth_mode = Some HTTPAuth →
  spec accounts_ok (uid ← SearchAndOnBoardUser AuthMode registry name; user_Get uid)
    (λ u d, identified d u ∧ us_Username u = name) accounts_ok.
Proof.
  intros Hm. unfold SearchAndOnBoardUser, auth_SearchUser, auth_OnBoardUser, with_helper, getHelper.
  unfold mode in Hm. destruct AuthMode as [m|]; [|done]. injection Hm as ->.
  change (registry !! HTTPAuth) with (Some (proxy_provider salt)). simpl. unfold proxy_SearchUser.
  eapply (spec_bind _ _ (λ uid d, accounts_ok d ∧ ∃ a, rows (accounts d) !! uid = Some a ∧ ac_Username a = name ∧ ac_Deleted a = false)).
  - eapply (spec_bind _ _ (λ o d, accounts_ok d ∧ ∀ u, o = Some u → us_Username u = name ∧ us_Deleted u = false)).
    + destruct proxy_SkipSearch; [|by apply spec_ret].
      destruct (fillInModel _) as [u|] eqn:Ef; [|by apply spec_fail]. apply spec_ret. intros d Hd. split; [done|].
      intros ? [= <-]. by destruct (fillInModel_person _ _ Ef) as (_ & -> & _ & ->).
    + intros [u|]; [|apply spec_fail; by intros d [? _]]. apply spec_exact. intros d [Hok Hu].
      destruct (Hu u eq_refl) as [Hn Hd].
      eapply (spec_bind _ _ (λ u' d', (identified d' u' ∧ us_Username u' = name) ∧ 0 < us_ID u')).
      * eapply spec_conseq; [eapply spec_and; [eapply spec_and; [apply (Onboard_honest salt u d Hok Hd)|apply (Onboard_name u)]|apply (Onboard_number salt u)]| | |].
        -- intros ? ->. done.
        -- intros u' d' [[? ->] ?]. done.
        -- intros d' [[E _] _]. unfold accounts_ok. by rewrite E.
      * intros u'. apply spec_ret. intros d' [[[Hok' (_ & Hacc & _)] Hn'] Hpos]. split; [done|].
        destruct (Hacc ltac:(lia)) as (a & Ha & Han & Had). exists a. split_and!; [done|congruence|done].
  - intros uid. apply spec_exact. intros d [Hok (a & Ha & Hn & Hd)].
    eapply spec_read; [apply reading_Get|done|]. intros u (i & b & Hi & Hid & Hbd & ->).
    destruct (tab_keys _ _ _ _ Hok _ _ Hi) as [Hk _]. assert (i = uid) as -> by congruence. simplify_eq.
    split; [|done]. split; [done|]. by eapply identity_row.
Qed.

Lemma authProxy_vouched r : spec (λ d, accounts_ok (ad_users d))
  (authProxy_Generate registry AuthMode r) (λ c d, users_vouched r c (ad_users d)) never.
Proof.
  unfold authProxy_Generate. destruct (decide (auth_mode = Some HTTPAuth)) as [Hm|Hm];
    [rewrite bool_decide_true by done|rewrite bool_decide_false by done; apply spec_no_user]. simpl.
  spec_if; [apply spec_no_user|]. destruct (BasicAuth _) as [[pn pwd]|] eqn:Eb; [|apply spec_no_user].
  destruct (matchAuthProxyUserName pn) as [name|]; [|apply spec_no_user]. destruct proxy_settings as [s|]; [|apply spec_no_user].
  destruct (TokenReview pwd) as [status|] eqn:Et; [|apply spec_no_user].
  destruct (name == rs_Username status) eqn:En; [|apply spec_no_user]. apply bool_decide_eq_true in En. simpl.
  eapply spec_quietly; [eapply spec_users|intros d Hd; split; [exact Hd|done]]. unfold proxy_account.
  eapply (spec_bind _ _ (λ res d, accounts_ok d ∧ ∀ u, res = Ok u → identity d u ∧ us_Username u = name)).
  - apply spec_exact. intros d Hok. eapply spec_read; [apply reading_try, reading_GetByName|done|].
    intros res Hres. split; [done|]. intros u ->. destruct (Hres u eq_refl) as (i & a & Hi & Hn & Hd & ->).
    split; [by eapply identity_row|done].
  - intros res. eapply (spec_bind _ _ (λ u d, identified d u ∧ us_Username u = name)).
    + destruct res as [u|e]; [apply spec_ret; intros d [Hok Hu]; destruct (Hu u eq_refl); by split|].
      spec_if; [eapply spec_pre; [by apply onboarded_account|by intros d [? _]]|apply spec_fail; by intros d [? _]].
    + intros u. apply spec_exact. intros d [[Hok Hu] Hn].
      eapply spec_bind; [eapply spec_conseq; [apply (review_frame status _ _ (λ A O, A = accounts d ∧ O = oidc_users d))|by intros ? ->|by intros ? ? H; exact H|]|].
      * intros d' [E _]. unfold accounts_ok. by rewrite E.
      * intros u2. apply spec_ret. intros d' [Ha [E _]]. split; [unfold accounts_ok; by rewrite E|].
        split; [eapply identity_person; [|eapply identity_same; [exact E|exact Hu]]; done|].
        eapply (proven_review _ _ _ pn pwd status); [done|done|done|done|]. simpl. congruence.
Qed.

(** *** Logins *)

Lemma basicAuth_vouched r : spec (λ d, accounts_ok (ad_users d)) (basicAuth_Generate registry now AuthMode r)
  (λ c d, match c with Some (LocalCtx (Some u)) => identity (ad_users d) u ∧ proven (ad_users d) r u | Some _ => False | None => True end)
  (λ _, True).
Proof.
  unfold basicAuth_Generate. destruct (BasicAuth _) as [[name pwd]|] eqn:Eb; [|by apply spec_ret].
  eapply (spec_bind _ _ (λ l d, accounts_ok (ad_users d))); [by intros w x w' Hok [= <- <-]|]. intros l.
  eapply (spec_bind _ _ (λ x d, ∀ u l', x = Ok (LoggedIn u, l') → identity (ad_users d) u ∧ proven (ad_users d) r u)).
  - intros w x w' Hok H. unfold try in H. destruct (on_users _ w) as [y w1] eqn:Ey. injection H as <- <-.
    intros u l' ->. apply zoom_inv in Ey as (w2 & Hl & Hd).
    assert (Hr : honest_registry (pr_login <$> registry)) by (intros k h Hh; by eapply providers_honest).
    pose proof (Login_calls _ _ _ _ _ _ _ _ _ _ Hl) as (mode & h & w3 & u0 & w4 & Hh & _ & Hw & Ha & Hp).
    destruct (Hr _ _ Hh) as [Hauth Hpost]. simpl in Hw.
    assert (Hok3 : accounts_ok (db w3)) by (by rewrite Hw).
    pose proof (Hauth _ _ _ _ _ Hok3 Ha) as [Hok4 Hu0]. pose proof (Hpost u0 _ _ _ (conj Hok4 Hu0) Hp) as [_ Hu].
    rewrite Hd. simpl. split; [exact Hu|]. by eapply proven_login.
  - intros [[res l']|e]; [|destruct e; first [by apply spec_ret|by apply spec_fail]].
    eapply (spec_bind _ _ (λ _ d, ∀ u, res = LoggedIn u → identity (ad_users d) u ∧ proven (ad_users d) r u)).
    + intros w x w' Hd [= <- <-] u ->. by apply (Hd u l').
    + intros _. apply spec_ret. intros d Hd. destruct res as [u| |]; [by apply Hd|done|done].
Qed.

(** ** The chain *)

Definition vouched (d d' : AuthDB) (r : Request) (c : Context) : Prop :=
  match c with
  | SecretCtx s =>
      rq_Authorization r = HeaderPrefix +:+ Security.s_secret s ∧ Security.s_secret s ≠ EmptyString ∧
      ∀ q, Security.answer s q = Rbac.Done true → ∃ st name, SecretStore = Some st ∧
        st !! Security.s_secret s = Some name ∧ (name = Security.JobserviceUser ∨ name = Security.CoreUser)
  | TokenCtx t =>
      HasPrefix (rq_Path r) "/v2" = true ∧ ∃ opt c,
        TokenService.NewOptions (TokenService.en_KeyFile token_env) TokenService.RS256 TokenService.defaultIssuer = Ok opt ∧
        TokenService.Parse opt (TokenService.bearerToken (rq_Authorization r))
          (TokenService.v2TokenClaims_Valid (TokenService.en_Now token_env)) = Ok c ∧
        TokenService.v2TokenClaims_Valid (TokenService.en_Now token_env) c = Ok tt ∧
        t = Security.token_New (TokenService.cl_Subject c) (TokenService.cl_Access c)
  | RobotCtx _ => robot_vouched (ad_robots d') (BasicAuth (rq_Authorization r))
  | ProxyCacheCtx p =>
      rq_Artifact r = Some (Security.pc_repository p) ∧
      ∃ t, m (ad_secrets d) !! proxy_GetSecret (rq_Authorization r) = Some t ∧ name t = Security.pc_repository p ∧
        now < expiresAt t ∧ m (ad_secrets d') !! proxy_GetSecret (rq_Authorization r) = None
  | LocalCtx None => False
  | LocalCtx (Some u) => rq_Session r = SessionUser u ∨ (identity (ad_users d') u ∧ proven (ad_users d') r u)
  end.

(** Programs on other parts leave the secrets of the proxy alone. *)
Lemma on_users_secrets {A} g (x : M UserDB A) : keeps (λ d, ad_secrets d = g) (on_users x).
Proof. intros w r w' Hg H. apply zoom_inv in H as (w1 & _ & ->). by destruct r. Qed.

Lemma on_robots_secrets {A} g (x : M RobotStore.RobotDB A) : keeps (λ d, ad_secrets d = g) (on_robots x).
Proof. intros w r w' Hg H. apply zoom_inv in H as (w1 & _ & ->). by destruct r. Qed.

Lemma quietly_secrets {A} g (x : M UserDB (option A)) : keeps (λ d, ad_secrets d = g) (quietly (on_users x)).
Proof. unfold quietly. keeps_auto. apply on_users_secrets. Qed.

(** The state between two generators: nothing found yet, and the secrets are those
    of the beginning. *)
Definition pending (g : mgr) (d : AuthDB) : Prop := accounts_ok (ad_users d) ∧ ad_secrets d = g.

(** A generator in the chain: what it finds is vouched for. *)
Definition vouching (P Q : AuthDB → Prop) (gen : Request → M AuthDB (option Context)) : Prop :=
  ∀ r d0, spec (λ d, P d ∧ ad_secrets d = ad_secrets d0) (gen r)
    (λ c d, match c with Some c => vouched d0 d r c | None => Q d ∧ ad_secrets d = ad_secrets d0 end) (λ _, True).

Lemma chain_vouching P Q R gen gs : vouching P Q gen →
  (∀ r d0, spec (λ d, Q d ∧ ad_secrets d = ad_secrets d0) (first_context gs r)
     (λ c d, match c with Some c => vouched d0 d r c | None => R d end) (λ _, True)) →
  ∀ r d0, spec (λ d, P d ∧ ad_secrets d = ad_secrets d0) (first_context (gen :: gs) r)
     (λ c d, match c with Some c => vouched d0 d r c | None => R d end) (λ _, True).
Proof.
  intros Hg Hgs r d0. simpl. eapply spec_bind; [apply (Hg r d0)|]. intros [c|]; [by apply spec_ret|apply Hgs].
Qed.

Notation ok_users := (λ d : AuthDB, accounts_ok (ad_users d)).

(** The generators of local users, by what is known about them and their frame. *)
Lemma users_vouching gen : (∀ r, spec ok_users (gen r) (λ c d, users_vouched r c (ad_users d)) never) →
  (∀ r g, keeps (λ d, ad_secrets d = g) (gen r)) → vouching ok_users ok_users gen.
Proof.
  intros Hg Hs r d0. eapply spec_conseq; [apply spec_and; [apply Hg|apply (Hs r (ad_secrets d0))]|done| |done].
  intros c d [[Hok Hc] Hd]. destruct c as [[|[u|]| | |]|]; try done. by right.
Qed.

Lemma secret_vouching : vouching ok_users ok_users (secret_Generate SecretStore).
Proof.
  intros r d0. apply spec_ret. intros d [Hok Hd]. unfold secret_FromRequest.
  destruct (HasPrefix (rq_Authorization r) HeaderPrefix) eqn:Hp; [|done].
  destruct (decide (TrimPrefix (rq_Authorization r) HeaderPrefix = EmptyString)) as [E|E];
    [by rewrite bool_decide_true|rewrite bool_decide_false by done]. simpl. split_and!; [|done|].
  { unfold TrimPrefix. rewrite Hp. by apply HasPrefix_split. }
  intros q [= Hc]. destruct SecretStore as [st|]; [|done]. exists st. unfold Security.store_GetUsername in Hc.
  destruct (st !! _) as [n|]; [|done]. exists n. simpl in Hc. apply orb_true_iff in Hc as [Hc|Hc]; apply bool_decide_eq_true in Hc; auto.
Qed.

Lemma v2Token_vouching : vouching ok_users ok_users (v2Token_Generate token_env).
Proof.
  intros r d0. apply spec_ret. intros d [Hok Hd]. unfold TokenService.v2Token_Generate.
  destruct (HasPrefix (rq_Path r) "/v2") eqn:Hp; [|done]. simpl. destruct (_ == EmptyString); [done|].
  destruct (TokenService.NewOptions _ _ _) as [opt|] eqn:Eo; [|done].
  destruct (TokenService.Parse _ _ _) as [c|] eqn:Ep; [|done].
  destruct (TokenService.v2TokenClaims_Valid _ c) as [[]|] eqn:Ec; [|done]. simpl. split; [done|]. by exists opt, c.
Qed.

Lemma Generate_total ba : spec (λ _, True) (RobotStore.Generate ba) (λ _ _, True) never.
Proof.
  unfold RobotStore.Generate. destruct ba as [[name secret]|]; [|by apply spec_ret]. spec_if; [by apply spec_ret|].
  eapply spec_bind; [eapply (spec_never_try _ _ (λ _ _, True) (λ _, True)); by intros ? [] ?|]. intros l.
  eapply (spec_bind _ _ (λ _ _, True)); [by intros ? ? ? _ [= <- <-]|]. intros n. by apply spec_ret.
Qed.

Lemma robot_vouching : vouching ok_users ok_users robot_Generate.
Proof.
  intros r d0. unfold robot_Generate. apply spec_exact. intros d Hd.
  eapply (spec_bind _ _ (λ c x, x = d ∧
    match c with Some _ => robot_vouched (ad_robots d) (BasicAuth (rq_Authorization r)) | None => True end)).
  - intros w c w' Hw H. pose proof (reading_zoom ad_robots set_ad_robots _ _ ltac:(by intros []) (Generate_vouched (BasicAuth (rq_Authorization r))) _ _ _ H) as [Hd' Hc].
    destruct c as [c|e].
    + split; [by rewrite Hd'|]. rewrite <-Hw. by apply Hc.
    + done.
  - intros c. apply spec_ret. intros ? [-> Hc]. by destruct c.
Qed.

Lemma oidcCli_vouching : vouching ok_users ok_users (oidcCli_Generate AES encryptKey random AuthMode).
Proof.
  apply users_vouching; [apply oidcCli_vouched|]. intros r g. unfold oidcCli_Generate.
  repeat case_match; first [apply keeps_ret | apply quietly_secrets].
Qed.

Lemma idToken_vouching : vouching ok_users ok_users (idToken_Generate AES encryptKey AuthMode token_claims).
Proof.
  apply users_vouching; [apply idToken_vouched|]. intros r g. unfold idToken_Generate. cbv zeta.
  repeat case_match; first [apply keeps_ret | apply quietly_secrets].
Qed.

Lemma authProxy_vouching : vouching ok_users ok_users (authProxy_Generate registry AuthMode).
Proof.
  apply users_vouching; [apply authProxy_vouched|]. intros r g. unfold authProxy_Generate.
  repeat case_match; first [apply keeps_ret | apply quietly_secrets].
Qed.

Lemma in_memory_secrets {A} g (f : AuthDB → A * AuthDB) : (∀ d, ad_secrets (f d).2 = ad_secrets d) →
  keeps (λ d, ad_secrets d = g) (in_memory f).
Proof.
  intros Hf w r w' Hg. unfold in_memory. specialize (Hf (db w)). destruct (f (db w)) as [a d]. intros [= <- <-]. simpl in *. congruence.
Qed.

Lemma basicAuth_vouching : vouching ok_users (λ _, True) (basicAuth_Generate registry now AuthMode).
Proof.
  intros r d0. eapply spec_conseq; [apply spec_and; [apply basicAuth_vouched|]| |  |].
  - instantiate (1 := λ d, ad_secrets d = ad_secrets d0). instantiate (1 := λ _ d, ad_secrets d = ad_secrets d0).
    instantiate (1 := λ d, ad_secrets d = ad_secrets d0).
    change (keeps (λ d, ad_secrets d = ad_secrets d0) (basicAuth_Generate registry now AuthMode r)).
    unfold basicAuth_Generate. case_match; [case_match|apply keeps_ret].
    apply keeps_bind; [by apply in_memory_secrets|intros l]. apply keeps_bind; [apply keeps_try, on_users_secrets|intros x].
    repeat case_match; first [apply keeps_ret|apply keeps_fail|apply keeps_bind; [by apply in_memory_secrets|intros; apply keeps_ret]].
  - done.
  - intros c d [Hc Hd]. destruct c as [[|[u|]| | |]|]; try done. by right.
  - done.
Qed.

Lemma session_vouching : vouching (λ _, True) (λ _, True) session_Generate.
Proof.
  intros r d0. apply spec_ret. intros d [_ Hd]. destruct (rq_Session r) eqn:E; try done. by left.
Qed.

Lemma proxyCacheSecret_vouching r d0 : spec (λ d, True ∧ ad_secrets d = ad_secrets d0)
  (first_context [proxyCacheSecret_Generate now] r) (λ c d, match c with Some c => vouched d0 d r c | None => True end) (λ _, True).
Proof.
  simpl. unfold proxyCacheSecret_Generate.
  eapply (spec_bind _ _ (λ c d, match c with Some c => vouched d0 d r c | None => True end)); [|intros [c|]; by apply spec_ret].
  destruct (rq_Artifact r) as [repo|] eqn:Ea; [|by apply spec_ret].
  eapply (spec_bind _ _ (λ b d, b = true → vouched d0 d r (ProxyCacheCtx (Security.mkProxyCache repo)))).
  - eapply spec_conseq; [apply spec_in_memory with (P := λ d, True ∧ ad_secrets d = ad_secrets d0)|done|by intros ? ? H; exact H|done].
    intros d [_ Hd]. rewrite Hd. unfold Verify_alone.
    destruct (m (ad_secrets d0) !! _) as [t|] eqn:Et; [|done].
    destruct (decide (name t = repo)) as [Hn|Hn]; [rewrite bool_decide_true by done|by rewrite bool_decide_false].
    simpl. intros Hlt. split; [done|]. exists t. split_and!; [done|done|lia|apply lookup_delete_eq].
  - intros b. apply spec_ret. intros d Hb. destruct b; [by apply Hb|done].
Qed.

(** ** Panics *)

(** [x] breaks off only by following the nil pointer, and only if [φ]. *)
Definition panics_only {D A} (φ : Prop) (x : M D A) : Prop := ∀ w e w', x w = (Err e, w') → e = nil_pointer ∧ φ.

Lemma panics_ret {D A} φ (a : A) : panics_only φ (mret a : M D A).
Proof. by intros w e w' ?. Qed.
Lemma panics_try {D A} φ (x : M D A) : panics_only φ (try x).
Proof. intros w e w'. unfold try. by destruct (x w). Qed.
Lemma panics_bind {D A B} φ (x : M D A) (k : A → M D B) : panics_only φ x → (∀ a, panics_only φ (k a)) → panics_only φ (x ≫= k).
Proof. intros Hx Hk w e w' H. apply bind_cases in H as [(e' & H & [= ->])|(a & w1 & _ & H)]; [by eapply Hx|by eapply Hk]. Qed.
Lemma panics_memory {A} φ (f : AuthDB → A * AuthDB) : panics_only φ (in_memory f).
Proof. intros w e w'. unfold in_memory. by destruct (f (db w)). Qed.

Ltac panics := repeat first [apply panics_ret|apply panics_try|apply panics_memory|apply panics_bind; [|intros]|case_match].

Lemma panics_Populate φ l : panics_only φ (Populate l).
Proof. induction l; simpl; panics; done. Qed.

(** The settings of the groups of the directory cannot be read. *)
Definition no_group_settings : Prop := AuthMode = Ok LDAPAuth ∧ ∃ e, LDAPGroupConf = Err e.

Lemma panics_ldap name pwd :
  panics_only (∃ e, LDAPGroupConf = Err e) (ldap_Authenticate LDAPConf_ LDAPGroupConf name pwd).
Proof.
  unfold ldap_Authenticate, syncUserInfoFromDB. panics. unfold attachLDAPGroup.
  destruct LDAPGroupConf as [gc|e] eqn:Eg; [panics; apply panics_Populate|]. intros ? ? ? [= <- _]. split; [done|by exists e].
Qed.

Lemma panics_authenticate mode h name pwd : registry !! mode = Some h → mode = DBAuth ∨ AuthMode = Ok mode →
  panics_only no_group_settings (login_authenticate (pr_login h) name pwd).
Proof.
  intros Hh Hm. unfold login_authenticate. apply panics_bind.
  - apply providers_cases in Hh as [[-> ->]|[[-> ->]|[[-> ->]|[[-> ->]|[-> ->]]]]]; simpl.
    all: try (unfold db_Authenticate, uaa_Authenticate, proxy_Authenticate; panics).
    intros w e w' H. apply panics_ldap in H as [-> He]. split; [done|]. destruct Hm as [[=]|Hm]. by split.
  - intros [u|[d|e]]; [|panics..]. apply panics_bind; [|intros; panics].
    apply providers_cases in Hh as [[-> ->]|[[-> ->]|[[-> ->]|[[-> ->]|[-> ->]]]]]; simpl.
    all: unfold ldap_PostAuthenticate, sync_email, uaa_PostAuthenticate, proxy_PostAuthenticate; panics.
Qed.

Lemma panics_Login l name pwd : panics_only no_group_settings (Login AuthMode (pr_login <$> registry) now l name pwd).
Proof.
  intros w e w' H. unfold Login in H.
  assert (Hs : ∀ s w1, login_start AuthMode (pr_login <$> registry) name w = (s, w1) →
    match s with
    | Ok (inr h) => ∃ mode p, registry !! mode = Some p ∧ h = pr_login p ∧ (mode = DBAuth ∨ AuthMode = Ok mode)
    | Ok (inl _) => True | Err _ => False end).
  { intros s w1. unfold login_start. destruct AuthMode as [mode|]; [|by intros [= <- _]]. intros Hs.
    apply bind_cases in Hs as [(e' & Hs & ->)|(super & w2 & _ & [= <- _])].
    - assert (panics_only False (if mode == EmptyString then mret true else IsSuperUser name)) as Hp by (unfold IsSuperUser; panics).
      by apply Hp in Hs as [_ []].
    - rewrite lookup_fmap. destruct (registry !! _) as [p|] eqn:Ep; [|done]. simpl. exists (if super then DBAuth else mode), p.
      destruct super; auto. }
  apply bind_cases in H as [(e' & H & _)|([x|h] & w1 & H1 & H)]; [by apply Hs in H|done|].
  apply Hs in H1 as (mode & p & Hp & -> & Hm). destruct (IsLocked now l name); [done|].
  revert H. apply panics_bind; [by eapply panics_authenticate|intros; panics].
Qed.

Lemma panics_basicAuth r : panics_only (is_Some (BasicAuth (rq_Authorization r)) ∧ no_group_settings)
  (basicAuth_Generate registry now AuthMode r).
Proof.
  unfold basicAuth_Generate. destruct (BasicAuth _) as [[name pwd]|]; [|apply panics_ret].
  apply panics_bind; [apply panics_memory|]. intros l w e w' H. apply bind_try_inv in H as (x & w1 & Hx & H).
  destruct x as [[res l']|e']; [revert H; panics|]. apply zoom_inv in Hx as (w2 & Hx & _).
  apply panics_Login in Hx as [-> Hn]. injection H as <- _. by split.
Qed.

(** The chain breaks off only in the login. *)
Lemma panics_chain r : panics_only (is_Some (BasicAuth (rq_Authorization r)) ∧ no_group_settings)
  (Middleware AES encryptKey random SecretStore token_env registry now AuthMode token_claims r).
Proof.
  assert (Hf : ∀ gs, Forall (λ g, panics_only (is_Some (BasicAuth (rq_Authorization r)) ∧ no_group_settings) (g r)) gs →
    panics_only (is_Some (BasicAuth (rq_Authorization r)) ∧ no_group_settings) (first_context gs r)).
  { induction 1 as [|g gs Hg _ IH]; [apply panics_ret|]. apply panics_bind; [done|]. intros [c|]; [apply panics_ret|done]. }
  apply Hf. unfold generators. repeat (apply Forall_cons; split); [..|by apply Forall_nil].
  - apply panics_ret.
  - unfold oidcCli_Generate, quietly. panics.
  - apply panics_ret.
  - unfold idToken_Generate, quietly. cbv zeta. panics.
  - unfold authProxy_Generate, quietly. panics.
  - unfold robot_Generate. apply panics_bind; [|intros; apply panics_ret].
    intros w e w' H. apply zoom_inv in H as (w1 & H & _). by apply (Generate_total _ _ _ _ I) in H.
  - apply panics_basicAuth.
  - apply panics_ret.
  - unfold proxyCacheSecret_Generate. panics.
Qed.

(** Without a header every generator but that of the session gives up at once. *)
Lemma anonymous r w c w' :
  rq_Authorization r = EmptyString → (∀ u, rq_Session r ≠ SessionUser u) → rq_Artifact r = None →
  Middleware AES encryptKey random SecretStore token_env registry now AuthMode token_claims r w = (Ok c, w') → c = None ∧ db w' = db w.
Proof.
  intros Ha Hs Hr.
  assert (Hg : Forall (λ g, g r w = (Ok None, w)) (generators AES encryptKey random SecretStore token_env registry now AuthMode token_claims)).
  { unfold generators. repeat (apply Forall_cons; split); [..|by apply Forall_nil].
    - unfold secret_Generate. by rewrite Ha.
    - unfold oidcCli_Generate. rewrite Ha. by case_match.
    - unfold v2Token_Generate, TokenService.v2Token_Generate. rewrite Ha. by case_match.
    - unfold idToken_Generate. rewrite Ha. by repeat case_match.
    - unfold authProxy_Generate. rewrite Ha. by repeat case_match.
    - unfold robot_Generate, on_robots. rewrite Ha. by destruct w as [[]].
    - unfold basicAuth_Generate. by rewrite Ha.
    - unfold session_Generate. destruct (rq_Session r) as [| | |u]; [done|done|done|by destruct (Hs u)].
    - unfold proxyCacheSecret_Generate. by rewrite Hr. }
  unfold Middleware. intros H. enough (∀ gs, Forall (λ g, g r w = (Ok None, w)) gs → first_context gs r w = (Ok None, w)) as Hf.
  { rewrite (Hf _ Hg) in H. by simplify_eq. }
  clear H Hg. induction 1 as [|g gs Hg _ IH]; [done|]. simpl. by rewrite bind_eq, Hg.
Qed.

(** C6 (safety). The security context of a request.  Whatever the statements and
    the services do, the middleware decides, except that it panics on a nil pointer
    when basic credentials are sent in the LDAP mode and the settings of the groups
    cannot be read ([no_group_settings]).  A context that it hands out is vouched
    for.  That of a component carries the secret of the header, unchecked, and
    allows something only if the store knows it as the job service's or the core's.
    Else the caller sent a registry token that verifies, or the secret of a robot
    that is enabled and has not expired, or a secret that the proxy cache issued for
    the very repository and that is spent now, or it has a session, or it is proven
    to be a user whose number and rights are those of the account of that name.  A
    request without a header and without a session that names no artifact gets no
    context and changes nothing. *)
Theorem request_context r w :
  accounts_ok (ad_users (db w)) →
  ∃ x w', Middleware AES encryptKey random SecretStore token_env registry now AuthMode token_claims r w = (x, w') ∧
    match x with
    | Ok c => (∀ ctx, c = Some ctx → vouched (db w) (db w') r ctx) ∧
        (rq_Authorization r = EmptyString → (∀ u, rq_Session r ≠ SessionUser u) → rq_Artifact r = None → c = None ∧ db w' = db w)
    | Err e => e = nil_pointer ∧ is_Some (BasicAuth (rq_Authorization r)) ∧ no_group_settings
    end.
Proof.
  intros Hok. destruct (Middleware _ _ _ _ _ _ _ _ _ r w) as [x w'] eqn:E.
  assert (Hs : spec (λ d, accounts_ok (ad_users d) ∧ ad_secrets d = ad_secrets (db w))
    (first_context (generators AES encryptKey random SecretStore token_env registry now AuthMode token_claims) r)
    (λ c d, match c with Some c => vouched (db w) d r c | None => True end) (λ _, True)).
  { repeat (eapply chain_vouching; [first [apply secret_vouching|apply oidcCli_vouching|apply v2Token_vouching|apply idToken_vouching
      |apply authProxy_vouching|apply robot_vouching|apply basicAuth_vouching|apply session_vouching]|]; intros).
    apply proxyCacheSecret_vouching. }
  exists x, w'. split; [done|]. pose proof (Hs w x w' (conj Hok eq_refl) E) as Hx. destruct x as [c|e]; [split|].
  - intros ctx ->. exact Hx.
  - intros Ha Hses Hart. by apply (anonymous r w c w').
  - exact (panics_chain _ _ _ _ E).
Qed.
End chain.

(** *** A request of a user of the database *)

#[local] Instance chain_users : UserConfig := {| hash := λ p s v, v +:+ ":" +:+ s +:+ ":" +:+ p; checkSum := λ _, "00000000"%string |}.
#[local] Instance no_ldap : Goldap := {|
  Filter := string; CompileFilter := Some; DecompileFilter := Ok; FilterAnd := λ a b, a +:+ b; FilterOr := λ a b, a +:+ b;
  EscapeFilter := λ s, s; DN := string; ParseDN := Ok; AncestorOf := λ _ _, false; DN_Equal := λ a b, a == b; Dial := None;
  ldap_Bind := λ _ _, None; ldap_Search := λ _ _ _, Ok []; IsNetworkError := λ _, false; IsInvalidCredentials := λ _, false;
  IsNoSuchObject := λ _, false |}.
#[local] Instance no_uaa : UaaClient := {|
  ensureClient := None; PasswordAuth := λ _ _, Err (PlainError "unauthorized");
  GetUserInfo := λ _, Err (PlainError "unauthorized"); uaa_Search := λ _, Ok [] |}.
#[local] Instance no_proxy : AuthProxy := {|
  proxy_ensure := None; proxy_SkipSearch := true; proxy_settings := Err (PlainError "no proxy");
  proxy_Post := λ _ _, Err (PlainError "no proxy"); session_id := Ok; TokenReview := λ _, Err (PlainError "no proxy") |}.
#[local] Instance no_oidc : OidcProvider := {|
  claims := unit; oauth_token := unit; RawIDToken := λ _, EmptyString; id_token_only := λ _, tt;
  provider_get := Err (PlainError "no provider"); OIDCSetting_ := Err (PlainError "no provider");
  verifier_Verify := λ _ _, Err (PlainError "no provider"); provider_UserInfo := λ _, Err (PlainError "no provider");
  oauth_Refresh := λ _, Err (PlainError "no provider"); token_Valid := λ _, false; Claims_info := λ _, Err (PlainError "no claims");
  Claims_map := λ _, Err (PlainError "no claims"); token_Unmarshal := λ _, Err (PlainError "no token");
  token_Marshal := λ _, Err (PlainError "no token"); regexp_Compile := λ _, None |}.

Definition chain_db : AuthDB :=
  mkAuthDB two_users RobotSpec.initial_robots (mkUserLock ∅ frozenTime) (mkMgr false false 10 0 0 100 ∅ false 3600).
Definition as_basic (authorization : string) : Request := mkRequest "GET" "/api/v2.0/users" authorization EmptyString None NoUser.
Definition chain_run (r : Request) :=
  Middleware (J := TokenSpec.toy_jwt) (RC := RobotSpec.ex_config) (λ _ _, []) (Ok EmptyString) (Ok []) None TokenSpec.now_env
    (providers "salt" (Err (PlainError "no directory")) (Err (PlainError "no directory"))) 0 (Ok DBAuth) (λ _, (EmptyString, EmptyString)) r
    (mkWorld chain_db true []).

Lemma request_context_witness : ∃ c w',
  chain_run (as_basic "Basic YWxpY2U6UGFzc3cwcmQ=") = (Ok c, w') ∧
  (∃ u, c = Some (LocalCtx (Some u)) ∧ us_Username u = "alice"%string) ∧
  (∀ ctx, c = Some ctx → vouched (RC := RobotSpec.ex_config) (J := TokenSpec.toy_jwt) (λ _ _, []) (Ok EmptyString)
     "salt" (Err (PlainError "no directory")) (Err (PlainError "no directory")) None TokenSpec.now_env 0 (Ok DBAuth)
     (λ _, (EmptyString, EmptyString)) chain_db (db w') (as_basic "Basic YWxpY2U6UGFzc3cwcmQ=") ctx).
Proof.
  destruct (request_context (RC := RobotSpec.ex_config) (J := TokenSpec.toy_jwt) (λ _ _, []) (Ok EmptyString) (Ok [])
    "salt" (Err (PlainError "no directory")) (Err (PlainError "no directory")) None TokenSpec.now_env 0 (Ok DBAuth)
    (λ _, (EmptyString, EmptyString)) (as_basic "Basic YWxpY2U6UGFzc3cwcmQ=") (mkWorld chain_db true []) two_users_ok)
    as (x & w' & E & Hx). destruct x as [c|e]; [|vm_compute in E; discriminate E].
  exists c, w'. split; [exact E|]. split; [|exact (proj1 Hx)].
  vm_compute in E. injection E as <- _. eexists. split; reflexivity.
Defined.

(** The wrong password, and no credentials at all. *)
Example refused_requests :
  (chain_run (as_basic "Basic YWxpY2U6cGFzcw==")).1 = Ok None ∧ (chain_run (as_basic EmptyString)).1 = Ok None.
Proof. split; vm_compute; reflexivity. Qed.

(** A login to the directory panics when the settings of its groups cannot be
    read, although the code means to let it pass. *)
Example group_settings_panic :
  (Middleware (J := TokenSpec.toy_jwt) (RC := RobotSpec.ex_config) (λ _ _, []) (Ok EmptyString) (Ok []) None TokenSpec.now_env
    (providers (G := toy_ldap) "salt" toy_conf (Err (PlainError "no settings"))) 0 (Ok LDAPAuth) (λ _, (EmptyString, EmptyString))
    (as_basic "Basic QWRtaW46bGV0bWVpbg==") (mkWorld chain_db true [])).1 = Err nil_pointer.
Proof. vm_compute. reflexivity. Qed.
