(* ===== verification/Cached.v ===== *)
(** * Caches in front of the managers: [src/pkg/cached], [src/lib/cache]

    The managers of artifacts, repositories, projects, project metadata and
    manifests with a cache in Redis.  Each call of the cache ends as its schedule
    says: an entry [Some e] is a failure, [None] lets it run.  An entry that has
    expired is one whose fetches fail.  The codec (msgpack) is a parameter. *)

From S2P Require Import Prelude GoErrors GoStrings Orm Table Hoare Retry ArtifactStore.
From S2P Require ProjectStore.
Open Scope Z_scope.
Local Open Scope harbor_scope.

(** ** The cache: [src/lib/cache/redis/redis.go], [src/lib/cache/helper.go] *)

Class Codec (data V : Type) := { Encode : V → result data; Decode : data → result V }.

Definition ErrNotFound : error := PlainError "key not found".
Definition is_ErrNotFound (e : error) : bool := match e with PlainError s => s == "key not found" | _ => false end.

(** [opts.Key] with the prefix of [Initialize]. *)
Definition Prefix : string := "cache:".
Definition Key (key : string) : string := Prefix +:+ key.

Section cache.
Context {data : Type}.

Record Cache := mkCache {
  store : gmap string data;
  fetch_faults : list (option error);
  save_faults : list (option error);
  delete_faults : list (option error);
  keys_faults : list (option error) }.

(** The next entry of a schedule. *)
Definition next_fault (l : list (option error)) : option error * list (option error) :=
  match l with [] => (None, []) | e :: l => (e, l) end.

(** Every failure of a fetch is turned into [ErrNotFound]. *)
Definition cache_Fetch {V} `{!Codec data V} (key : string) (c : Cache) : result V * Cache :=
  let '(f, l) := next_fault (fetch_faults c) in
  let c' := mkCache (store c) l (save_faults c) (delete_faults c) (keys_faults c) in
  (match f with
   | Some _ => Err ErrNotFound
   | None => match store c !! Key key with None => Err ErrNotFound | Some x => Decode x end
   end, c').

Definition cache_Save {V} `{!Codec data V} (key : string) (v : V) (c : Cache) : result unit * Cache :=
  match Encode v with
  | Err e => (Err e, c)
  | Ok x =>
      let '(f, l) := next_fault (save_faults c) in
      match f with
      | Some e => (Err e, mkCache (store c) (fetch_faults c) l (delete_faults c) (keys_faults c))
      | None => (Ok tt, mkCache (<[Key key := x]> (store c)) (fetch_faults c) l (delete_faults c) (keys_faults c))
      end
  end.

Definition cache_Delete (key : string) (c : Cache) : result unit * Cache :=
  let '(f, l) := next_fault (delete_faults c) in
  match f with
  | Some e => (Err e, mkCache (store c) (fetch_faults c) (save_faults c) l (keys_faults c))
  | None => (Ok tt, mkCache (delete (Key key) (store c)) (fetch_faults c) (save_faults c) l (keys_faults c))
  end.

(** [Keys] with one prefix, which has none of the characters that are special in
    a pattern. *)
Definition cache_Keys (prefix : string) (c : Cache) : result (list string) * Cache :=
  let '(f, l) := next_fault (keys_faults c) in
  (match f with
   | Some e => Err e
   | None => Ok ((λ k, TrimPrefix k Prefix) <$> filter (λ k, HasPrefix k (Key prefix) = true) (elements (dom (store c))))
   end, mkCache (store c) (fetch_faults c) (save_faults c) (delete_faults c) l).

(** ** The database with the cache in front of it *)

Record Cached (D : Type) := mkCached { base : D; cache : Cache }.
Arguments mkCached {D}.
Arguments base {D}.
Arguments cache {D}.

Definition set_base {D} (d : D) (c : Cached D) : Cached D := mkCached d (cache c).

Definition on_base {D A} (m : M D A) : M (Cached D) A := zoom base set_base m.
Definition on_cache {D A} (f : Cache → result A * Cache) : M (Cached D) A :=
  act (λ c, let '(r, k) := f (cache c) in (r, mkCached (base c) k)).

(** [FetchOrSave], under the lock of the key. *)
Definition FetchOrSave {D V} `{!Codec data V} (key : string) (builder : M (Cached D) V) : M (Cached D) V :=
  r ← try (on_cache (cache_Fetch key));
  match r with
  | Ok v => mret v
  | Err e =>
      if negb (is_ErrNotFound e) then fail e
      else
        r ← try (on_cache (cache_Fetch key));
        match r with
        | Ok v => mret v
        | Err e =>
            if negb (is_ErrNotFound e) then fail e
            else
              v ← builder;
              s ← try (on_cache (cache_Save key v));
              match s with
              | Err _ => x ← of_result (Encode v); of_result (Decode x)
              | Ok _ => on_cache (cache_Fetch key)
              end
        end
  end.

(** ** [src/pkg/cached/base_manager.go], [src/pkg/cached/manager.go] *)

(** An argument of [Format]. *)
Inductive arg := AInt (z : Z) | AStr (s : string) | AOther.

(** Pairs of a key and a value, each with a colon before it. *)
Fixpoint format_pairs (s : string) (args : list arg) : result string :=
  match args with
  | [] => Ok s
  | k :: v :: args =>
      match k with
      | AStr k =>
          match v with
          | AInt z => format_pairs (s +:+ ":" +:+ k +:+ ":" +:+ pretty z) args
          | AStr x => format_pairs (s +:+ ":" +:+ k +:+ ":" +:+ x) args
          | AOther => Err (New "unsupported value type")
          end
      | _ => Err (New "key must be string, invalid key type")
      end
  | [_] => Err (New "invalid keysAndValues")
  end.

Definition Format (namespace : string) (args : list arg) : result string :=
  if Nat.odd (length args) then Err (New "invalid keysAndValues") else format_pairs namespace args.

Definition ResourceTypeArtifact : string := "artifact".
Definition ResourceTypeProject : string := "project".
Definition ResourceTypeProjectMeta : string := "project_metadata".
Definition ResourceTypeRepository : string := "repository".
Definition ResourceTypeManifest : string := "manifest".

(** What a request knows: whether it runs in the transaction of the middleware,
    and how many attempts the timer of [Retry] allows. *)
Section managers.
Context (in_tx : bool) (budget : nat).

(** Nothing is saved within a transaction, which may be rolled back. *)
Definition client_Save {D V} `{!Codec data V} (key : string) (v : V) : M (Cached D) unit :=
  if in_tx then mret tt else on_cache (cache_Save key v).

Fixpoint delete_keys {D} (keys : list string) (errs : list error) : M (Cached D) (list error) :=
  match keys with
  | [] => mret errs
  | k :: keys =>
      r ← try (on_cache (cache_Delete k));
      delete_keys keys (match r with Ok _ => errs | Err e => errs ++ [e] end)
  end.

Definition CountCache {D} (resourceType : string) : M (Cached D) Z :=
  keys ← on_cache (cache_Keys resourceType); mret (Z.of_nat (length keys)).
Definition DeleteCache {D} (key : string) : M (Cached D) unit := on_cache (cache_Delete key).
Definition FlushAll {D} (resourceType : string) : M (Cached D) unit :=
  keys ← on_cache (cache_Keys resourceType);
  errs ← delete_keys keys [];
  match errs with [] => mret tt | e :: _ => fail e end.

(** The shape of every read: the cache first, then the manager, whose answer is
    saved; an error of the cache is only logged. *)
Definition read_through {D V} `{!Codec data V} (key : result string) (keep : V → bool) (get : M D V) : M (Cached D) V :=
  key ← of_result key;
  r ← try (on_cache (cache_Fetch key));
  match r with
  | Ok v => mret v
  | Err _ =>
      v ← on_base get;
      _ ← (if keep v then _ ← try (client_Save key v); mret tt else mret tt);
      mret v
  end.

(** Removal of a key with retries; what fails is only logged. *)
Definition clean {D} (key : result string) : M (Cached D) unit :=
  match key with
  | Err _ => mret tt
  | Ok key => _ ← try (Retry budget (on_cache (cache_Delete key))); mret tt
  end.

(** ** [src/pkg/cached/artifact/redis/manager.go] *)

Section artifacts.
Context `{!Codec data ArtifactRefs}.

Definition artifact_id_key (id : Z) : result string := Format ResourceTypeArtifact [AStr "id"; AInt id].
Definition artifact_digest_key (repository digest : string) : result string :=
  Format ResourceTypeArtifact [AStr "repository"; AStr repository; AStr "digest"; AStr digest].

Definition artifact_Get (id : Z) : M (Cached ArtDB) ArtifactRefs :=
  read_through (artifact_id_key id) (λ _, true) (artifact_mgr.Get id).
Definition artifact_GetByDigest (repository digest : string) : M (Cached ArtDB) ArtifactRefs :=
  read_through (artifact_digest_key repository digest) (λ _, true) (artifact_mgr.GetByDigest repository digest).

Definition artifact_cleanUp (a : Artifact) : M (Cached ArtDB) unit :=
  _ ← clean (artifact_id_key (a_ID a));
  clean (artifact_digest_key (a_RepositoryName a) (a_Digest a)).

Definition artifact_refreshCache (a : Artifact) : M (Cached ArtDB) unit :=
  _ ← artifact_cleanUp a;
  _ ← try (artifact_Get (a_ID a));
  _ ← try (artifact_GetByDigest (a_RepositoryName a) (a_Digest a));
  mret tt.

Definition artifact_Create (a : ArtifactRefs) : M (Cached ArtDB) Z := on_base (artifact_mgr.Create a).
Definition artifact_DeleteReference (id : Z) : M (Cached ArtDB) unit := on_base (artifact_mgr.DeleteReference id).

Definition artifact_Delete (id : Z) : M (Cached ArtDB) unit :=
  a ← artifact_Get id;
  _ ← on_base (artifact_mgr.Delete id);
  artifact_cleanUp (ar_row a).

(** [f] overwrites the columns named by the properties. *)
Definition artifact_Update (a : Artifact) (f : Artifact → Artifact) : M (Cached ArtDB) unit :=
  _ ← on_base (artifact_mgr.Update (a_ID a) f);
  artifact_cleanUp a.

Definition artifact_UpdatePullTime (id pullTime : Z) : M (Cached ArtDB) unit :=
  a ← artifact_Get id;
  _ ← on_base (artifact_mgr.UpdatePullTime id pullTime);
  artifact_refreshCache (ar_row a).
End artifacts.

(** ** [src/pkg/cached/repository/redis/manager.go] *)

Section repositories.
Context `{!Codec data RepoRecord}.

Definition repository_id_key (id : Z) : result string := Format ResourceTypeRepository [AStr "id"; AInt id].
Definition repository_name_key (name : string) : result string := Format ResourceTypeRepository [AStr "name"; AStr name].

Definition repository_Get (id : Z) : M (Cached ArtDB) RepoRecord :=
  read_through (repository_id_key id) (λ _, true) (repo_mgr.Get id).
Definition repository_GetByName (name : string) : M (Cached ArtDB) RepoRecord :=
  read_through (repository_name_key name) (λ _, true) (repo_mgr.GetByName name).

Definition repository_cleanUp (p : RepoRecord) : M (Cached ArtDB) unit :=
  _ ← clean (repository_id_key (p_RepositoryID p));
  clean (repository_name_key (p_Name p)).

Definition repository_refreshCache (p : RepoRecord) : M (Cached ArtDB) unit :=
  _ ← repository_cleanUp p;
  _ ← try (repository_Get (p_RepositoryID p));
  _ ← try (repository_GetByName (p_Name p));
  mret tt.

Definition repository_Create (name : string) (projectID : Z) : M (Cached ArtDB) Z := on_base (repo_mgr.Create name projectID).

Definition repository_Delete (id : Z) : M (Cached ArtDB) unit :=
  p ← repository_Get id;
  _ ← on_base (repo_mgr.Delete id);
  repository_cleanUp p.

Definition repository_Update (p : RepoRecord) (f : RepoRecord → RepoRecord) : M (Cached ArtDB) unit :=
  _ ← on_base (repo_mgr.Update (p_RepositoryID p) f);
  repository_cleanUp p.

Definition repository_AddPullCount (id count : Z) : M (Cached ArtDB) unit :=
  p ← repository_Get id;
  _ ← on_base (repo_mgr.AddPullCount id count);
  repository_refreshCache p.
End repositories.

(** ** [src/pkg/cached/project/redis/manager.go] *)

Section projects.
Import ProjectStore.
Context `{!Codec data Project}.

(** [ParseProjectIDOrName] gives a number or a name; the number 0 and the empty
    name give the empty key. *)
Definition project_key (x : id_or_name) : result string :=
  match x with
  | ByID id => if id =? 0 then Ok EmptyString else Format ResourceTypeProject [AStr "id"; AInt id]
  | ByName name => if name == EmptyString then Ok EmptyString else Format ResourceTypeProject [AStr "name"; AStr name]
  end.

Definition project_Get (x : id_or_name) : M (Cached ProjDB) Project :=
  read_through (project_key x) (λ _, true) (project_mgr.Get x).

Definition project_cleanUp (p : Project) : M (Cached ProjDB) unit :=
  _ ← clean (Format ResourceTypeProject [AStr "id"; AInt (j_ProjectID p)]);
  clean (Format ResourceTypeProject [AStr "name"; AStr (j_Name p)]).

Definition project_Create (p : Project) : M (Cached ProjDB) Z := on_base (project_mgr.Create p).

Definition project_Delete (id : Z) : M (Cached ProjDB) unit :=
  p ← project_Get (ByID id);
  _ ← on_base (project_mgr.Delete id);
  project_cleanUp p.
End projects.

(** ** [src/pkg/cached/project_metadata/redis/manager.go] *)

Section metadata.
Import ProjectStore.
Context `{!Codec data (gmap string string)}.

Definition meta_key (projectID : Z) (meta : list string) : result string :=
  Format ResourceTypeProjectMeta [AStr "projectID"; AInt projectID; AStr "meta"; AStr (join_with "," meta)].

Definition meta_cleanUp (projectID : Z) (meta : list string) : M (Cached ProjDB) unit := clean (meta_key projectID meta).

Definition meta_Add (projectID : Z) (meta : gmap string string) : M (Cached ProjDB) unit :=
  _ ← on_base (meta_mgr.Add projectID meta); meta_cleanUp projectID [].

(** Only a result with attributes is saved. *)
Definition meta_Get (projectID : Z) (meta : list string) : M (Cached ProjDB) (gmap string string) :=
  read_through (meta_key projectID meta) (λ m, negb (bool_decide (m = ∅))) (meta_mgr.Get projectID meta).

Definition meta_Delete (projectID : Z) (meta : list string) : M (Cached ProjDB) unit :=
  _ ← on_base (meta_mgr.Delete projectID meta); meta_cleanUp projectID meta.

Fixpoint clean_all {D} (keys : list string) : M (Cached D) unit :=
  match keys with [] => mret tt | k :: keys => _ ← clean (Ok k); clean_all keys end.

Definition meta_Update (projectID : Z) (meta : gmap string string) : M (Cached ProjDB) unit :=
  _ ← on_base (meta_mgr.Update projectID meta);
  prefix ← of_result (Format ResourceTypeProjectMeta [AStr "projectID"; AInt projectID]);
  keys ← on_cache (cache_Keys prefix);
  clean_all keys.
End metadata.

(** ** [src/pkg/cached/manifest/redis/manager.go] *)

Section manifests.
Context `{!Codec data string}.

Definition manifest_key (digest : string) : result string := Format ResourceTypeManifest [AStr "digest"; AStr digest].

Definition manifest_Save {D} (digest manifest : string) : M (Cached D) unit :=
  key ← of_result (manifest_key digest); client_Save key manifest.
Definition manifest_Get {D} (digest : string) : M (Cached D) string :=
  key ← of_result (manifest_key digest); on_cache (cache_Fetch key).
Definition manifest_Delete {D} (digest : string) : M (Cached D) unit :=
  key ← of_result (manifest_key digest); Retry budget (on_cache (cache_Delete key)).
End manifests.
End managers.
End cache.
Arguments Cache : clear implicits.
Arguments Cached : clear implicits.
Arguments mkCached {data D}.
Arguments base {data D}.
Arguments cache {data D}.

(** *** [src/server/middleware/transaction]: the request in a transaction, which is
    one of the database only *)
Definition request_tx {data D A} (f : M (Cached data D) A) : M (Cached data D) A := λ w,
  match (_ ← FromContext; query (λ _, Ok tt)) w with
  | (Err e, w1) => (Err e, w1)
  | (Ok _, w1) =>
      let '(r, w2) := f w1 in
      let '(c, w3) := query (λ _, Ok tt) w2 in
      match r, c with
      | Ok a, Ok _ => (Ok a, w3)
      | Err e, Ok _ => (Err e, with_db w3 (set_base (base (db w1)) (db w3)))
      | _, Err e => (Err e, with_db w3 (set_base (base (db w1)) (db w3)))
      end
  end.
