(* ===== verification/CachedSpec.v ===== *)
(** * The caches of artifacts and repositories cannot be observed

    A client of the cached managers of [Cached] gets answers that the managers
    behind them could give, whatever the faults of the database and of the cache,
    as long as the removal of a key succeeds within the attempts of [Retry]. *)

From S2P Require Import Prelude GoErrors GoStrings Orm Table Hoare Retry ArtifactStore ArtifactInv Cached.
From S2P Require ProjectStore ProjectSpec ArtifactSpec.
From Stdlib Require Import Ascii.
Open Scope Z_scope.
Local Open Scope harbor_scope.

(** ** Programs by their outcome *)

(** From a database with [P], the program ends with a result and a database that
    satisfy [Q]. *)
Definition ends {D A} (P : D → Prop) (m : M D A) (Q : result A → D → Prop) : Prop :=
  ∀ w r w', P (db w) → m w = (r, w') → Q r (db w').

Section ends.
Context {D : Type}.

Lemma ends_conseq {A} (P P' : D → Prop) (m : M D A) (Q Q' : result A → D → Prop) :
  ends P' m Q' → (∀ d, P d → P' d) → (∀ r d, Q' r d → Q r d) → ends P m Q.
Proof. intros H HP HQ w r w' Hw E. eauto. Qed.

Lemma ends_exact {A} (P : D → Prop) (m : M D A) Q : (∀ d, P d → ends (λ x, x = d) m Q) → ends P m Q.
Proof. intros H w r w' Hw E. exact (H _ Hw w r w' eq_refl E). Qed.

Lemma ends_of_result {A} (P : D → Prop) (x : result A) (Q : result A → D → Prop) : (∀ d, P d → Q x d) → ends P (of_result x) Q.
Proof. intros H w r w' Hw [= <- <-]. auto. Qed.

Lemma ends_ret {A} (P : D → Prop) (a : A) (Q : result A → D → Prop) : (∀ d, P d → Q (Ok a) d) → ends P (mret a) Q.
Proof. intros H w r w' Hw [= <- <-]. auto. Qed.

Lemma ends_bind {A B} (P : D → Prop) (m : M D A) R (k : A → M D B) Q :
  ends P m R → (∀ a, ends (R (Ok a)) (k a) Q) → (∀ e d, R (Err e) d → Q (Err e) d) → ends P (m ≫= k) Q.
Proof.
  intros Hm Hk He w r w' Hw H. apply bind_cases in H as [(e & H & ->)|(a & w1 & H1 & H)]; [apply He; by eapply Hm|].
  eapply Hk; [|exact H]. by eapply Hm.
Qed.

Lemma ends_try {A} (P : D → Prop) (m : M D A) Q : ends P m Q → ends P (try m) (λ r d, ∃ x, r = Ok x ∧ Q x d).
Proof. intros Hm w r w' Hw. unfold try. destruct (m w) as [x w1] eqn:E. intros [= <- <-]. eauto. Qed.

Lemma ends_try_bind {A B} (P : D → Prop) (m : M D A) R (k : result A → M D B) Q :
  ends P m R → (∀ x, ends (R x) (k x) Q) → ends P (try m ≫= k) Q.
Proof.
  intros Hm Hk w r w' Hw H. apply bind_try_inv in H as (x & w1 & H1 & H). eapply Hk; [|exact H]. by eapply Hm.
Qed.

Lemma ends_act {A} (P : D → Prop) (f : D → result A * D) (Q : result A → D → Prop) :
  (∀ d, P d → Q (f d).1 (f d).2) → ends P (act f) Q.
Proof. intros H w r w' Hw. unfold act. specialize (H _ Hw). destruct (f (db w)). by intros [= <- <-]. Qed.

Lemma ends_spec {A} (P : D → Prop) (m : M D A) Q E :
  spec P m Q E → ends P m (λ r d, match r with Ok a => Q a d | Err _ => E d end).
Proof. intros H w r w' Hw Hr. exact (H _ _ _ Hw Hr). Qed.
End ends.

(** What a program can do to a database, in some context and under some schedule. *)
Definition may {D A} (m : M D A) (d : D) (r : result A) (d' : D) : Prop :=
  ∃ o fs w', m (mkWorld d o fs) = (r, w') ∧ db w' = d'.

Lemma may_ends {D A} (P : D → Prop) (m : M D A) Q d r d' : ends P m Q → P d → may m d r d' → Q r d'.
Proof. intros Hm Hd (o & fs & w' & H & <-). exact (Hm (mkWorld d o fs) _ _ Hd H). Qed.

Section on_base.
Context {data D : Type}.

Lemma ends_base {A} (m : M D A) (c : Cached data D) :
  ends (λ x, x = c) (on_base m) (λ r x, x = mkCached (base x) (cache c) ∧ may m (base c) r (base x)).
Proof.
  intros w r w' Hw H. apply zoom_inv in H as (w1 & H & ->). rewrite Hw in *. simpl. split; [done|]. by eexists _, _, _.
Qed.

Lemma ends_cache {A} (f : Cache data → result A * Cache data) (c : Cached data D) :
  ends (λ x, x = c) (on_cache f) (λ r x, r = (f (cache c)).1 ∧ x = mkCached (base c) (f (cache c)).2).
Proof. apply ends_act. intros x ->. by destruct (f (cache c)). Qed.

(** *** Removal of a key succeeds *)

(** No run of as many failures as there are attempts. *)
Definition patient (budget : nat) (l : list (option error)) : Prop :=
  (∀ e, Some e ∈ l → AsAbort e = None) ∧
  ∀ l', l' `suffix_of` l → ∃ n, (n < budget)%nat ∧ (l' !! n = None ∨ l' !! n = Some None).

Lemma patient_suffix budget l l' : patient budget l → l' `suffix_of` l → patient budget l'.
Proof.
  intros [Ha Hl] Hs. split.
  - intros e He. apply Ha. destruct Hs as [k ->]. apply elem_of_app. by right.
  - intros l2 H2. apply Hl. by etrans.
Qed.

(** The schedule of deletions is used up to the first success. *)
Lemma Retry_deletes key : ∀ n b err (w : World (Cached data D)),
  (n < b)%nat → (∀ e, Some e ∈ delete_faults (cache (db w)) → AsAbort e = None) →
  (delete_faults (cache (db w)) !! n = None ∨ delete_faults (cache (db w)) !! n = Some None) →
  ∃ w', Retry_loop b (on_cache (cache_Delete key)) err w = (Ok tt, w') ∧ base (db w') = base (db w) ∧
    store (cache (db w')) = delete (Key key) (store (cache (db w))) ∧
    delete_faults (cache (db w')) `suffix_of` delete_faults (cache (db w)).
Proof.
  induction n as [|n IH]; intros b err [[d [st ff sf df kf]] o fs] Hlt Ha Hn; (destruct b as [|b]; [lia|]); simpl in Ha, Hn.
  all: destruct df as [|[e|] df]; [by eexists; split_and!| |eexists; split; [done|]; simpl; split_and!; try done; by apply suffix_cons_r].
  - destruct Hn as [?|?]; done.
  - change (Retry_loop (S b) (on_cache (cache_Delete key)) err (mkWorld (mkCached d (mkCache st ff sf (Some e :: df) kf)) o fs))
      with (match AsAbort e with
            | Some (Some cause) => (Err cause, mkWorld (mkCached d (mkCache st ff sf df kf)) o fs)
            | Some None => (Ok tt, mkWorld (mkCached d (mkCache st ff sf df kf)) o fs)
            | None => Retry_loop b (on_cache (cache_Delete key)) (Some e) (mkWorld (mkCached d (mkCache st ff sf df kf)) o fs)
            end).
    rewrite (Ha e) by left.
    destruct (IH b (Some e) (mkWorld (mkCached d (mkCache st ff sf df kf)) o fs)) as (w' & -> & Hb & Hs & Hd); simpl; try done; [lia| |].
    { intros e' He'. apply Ha. by right. }
    eexists. split; [done|]. simpl in *. split_and!; try done. by apply suffix_cons_r.
Qed.

Lemma ends_clean budget key (c : Cached data D) : patient budget (delete_faults (cache c)) →
  ends (λ x, x = c) (clean budget (Ok key))
    (λ r x, r = Ok tt ∧ base x = base c ∧ store (cache x) = delete (Key key) (store (cache c)) ∧
            patient budget (delete_faults (cache x))).
Proof.
  intros Hp w r w' Hw H. unfold clean in H. apply bind_try_inv in H as (x & w1 & H1 & [= <- <-]). subst c.
  pose proof Hp as [Ha Hl]. destruct (Hl _ (reflexivity _)) as (n & Hn & Hs).
  destruct (Retry_deletes key n budget None w Hn Ha Hs) as (w2 & H2 & Hb & Hst & Hd).
  unfold Retry in H1. rewrite H1 in H2. simplify_eq. split_and!; try done. by eapply patient_suffix.
Qed.
End on_base.

(** ** What the keys stand for *)

Inductive index := AId (id : Z) | ADg (repository digest : string) | RId (id : Z) | RName (name : string).

(** The name of a repository has no colon. *)
Definition plain_name (s : string) : Prop := no_char ":" s = true.

Definition proper (i : index) : Prop := match i with ADg r _ => plain_name r | _ => True end.

Definition ikey (i : index) : string :=
  match i with
  | AId id => "artifact:id:" +:+ pretty id
  | ADg r g => "artifact:repository:" +:+ (r +:+ String ":" ("digest:" +:+ g))
  | RId id => "repository:id:" +:+ pretty id
  | RName n => "repository:name:" +:+ n
  end.

Lemma artifact_keys id r g :
  artifact_id_key id = Ok (ikey (AId id)) ∧ artifact_digest_key r g = Ok (ikey (ADg r g)).
Proof. split; [done|]. unfold artifact_digest_key, Format. simpl. by rewrite <-!append_assoc. Qed.

Lemma repository_keys id n : repository_id_key id = Ok (ikey (RId id)) ∧ repository_name_key n = Ok (ikey (RName n)).
Proof. done. Qed.

Lemma cut_eq c a b x y : no_char c a = true → no_char c b = true → a +:+ String c x = b +:+ String c y → a = b ∧ x = y.
Proof.
  unfold no_char. revert b. induction a as [|u a IH]; intros [|v b]; simpl; intros Ha Hb H.
  - by injection H as ->.
  - injection H as -> _. apply andb_true_iff in Hb as [Hb _]. by rewrite bool_decide_true in Hb.
  - injection H as -> _. apply andb_true_iff in Ha as [Ha _]. by rewrite bool_decide_true in Ha.
  - injection H as -> H. apply andb_true_iff in Ha as [_ Ha], Hb as [_ Hb]. by destruct (IH b Ha Hb H) as [-> ->].
Qed.

Lemma Key_inj i j : proper i → proper j → Key (ikey i) = Key (ikey j) → i = j.
Proof.
  unfold Key. intros Hi Hj H. destruct i as [id|r g|id|n], j as [id'|r' g'|id'|n']; simpl in *; try done.
  - injection H as H. by apply (pretty_Z_inj id id') in H as ->.
  - injection H as H. apply (cut_eq ":"%char r r' _ _ Hi Hj) in H as [-> H]. injection H as H. change (g = g') in H. by subst g.
  - injection H as H. by apply (pretty_Z_inj id id') in H as ->.
  - injection H as H. change (n = n') in H. by subst n.
Qed.

(** ** Coherence *)

Section coherence.
Context {data : Type} `{CA : !Codec data ArtifactRefs, CR : !Codec data RepoRecord}.
(** The number of the repository of a name. *)
Context (rid : string → Z) (budget : nat).
(** The numbers of the references that are deleted one by one: the cached manager
    does not look for the artifacts that show them. *)
Context (gone : Z → Prop).
Definition all_gone (l : list Reference) : Prop := Forall (λ r, gone (r_ID r)) l.

(** Rows of a table come in no particular order. *)
Definition sees_art (d : ArtDB) (v : ArtifactRefs) : Prop :=
  rows (arts d) !! a_ID (ar_row v) = Some (ar_row v) ∧
  if IsImageIndex (ar_row v)
  then ∃ l, ar_References v ≡ₚ select (λ r, r_ParentID r = a_ID (ar_row v)) (refs d) ++ l ∧ all_gone l
  else ar_References v = [].
Definition sees_repo (d : ArtDB) (p : RepoRecord) : Prop := rows (repos d) !! p_RepositoryID p = Some p.

Definition of_index_art (i : index) (a : Artifact) : Prop :=
  match i with AId id => a_ID a = id | ADg r g => a_RepositoryName a = r ∧ a_Digest a = g | _ => False end.
Definition of_index_repo (i : index) (p : RepoRecord) : Prop :=
  match i with RId id => p_RepositoryID p = id | RName n => p_Name p = n | _ => False end.

Definition is_art (i : index) : bool := match i with AId _ | ADg _ _ => true | _ => false end.

Definition holds (d : ArtDB) (i : index) (x : data) : Prop :=
  if is_art i then ∃ v : ArtifactRefs, Decode x = Ok v ∧ sees_art d v ∧ of_index_art i (ar_row v)
  else ∃ p : RepoRecord, Decode x = Ok p ∧ sees_repo d p ∧ of_index_repo i p.

Definition coherent (d : ArtDB) (s : gmap string data) : Prop :=
  ∀ i x, proper i → s !! Key (ikey i) = Some x → holds d i x.

(** The rows that coherence relies on. *)
Definition named (a : Artifact) : Prop := plain_name (a_RepositoryName a) ∧ a_RepositoryID a = rid (a_RepositoryName a).
Record tables_ok (d : ArtDB) : Prop := mk_tables_ok {
  tk_arts : tab_ok a_ID artifact_dao.same_artifact named (arts d);
  tk_refs : table_ok r_ID (refs d);
  tk_seq : 0 <= seq (refs d);
  tk_repos : tab_ok p_RepositoryID same_repo (λ _, True) (repos d) }.

(** Every entry that is no longer right belongs to [T]. *)
Definition stable (T : index → Prop) (d d' : ArtDB) : Prop := ∀ i x, proper i → holds d i x → T i ∨ holds d' i x.

Lemma stable_refl d : stable (λ _, False) d d.
Proof. by right. Qed.

Lemma coherent_sub d s s' : coherent d s → s' ⊆ s → coherent d s'.
Proof. intros Hc Hs i x Hi Hx. apply Hc; [done|]. by eapply lookup_weaken. Qed.

Lemma coherent_insert d s i x : proper i → holds d i x → coherent d s → coherent d (<[Key (ikey i) := x]> s).
Proof.
  intros Hi Hx Hc j y Hj Hy. apply lookup_insert_Some in Hy as [[E <-]|[_ Hy]]; [|by apply Hc].
  by rewrite <-(Key_inj i j Hi Hj E).
Qed.

Lemma coherent_clean2 d d' s i j : proper i → proper j → coherent d s → stable (λ k, k = i ∨ k = j) d d' →
  coherent d' (delete (Key (ikey j)) (delete (Key (ikey i)) s)).
Proof.
  intros Hi Hj Hc Hst k x Hk Hx. apply lookup_delete_Some in Hx as [Hne1 Hx]. apply lookup_delete_Some in Hx as [Hne2 Hx].
  destruct (Hst k x Hk (Hc k x Hk Hx)) as [[->| ->]|]; done.
Qed.

Lemma coherent_stable d d' s : coherent d s → stable (λ _, False) d d' → coherent d' s.
Proof. intros Hc Hst i x Hi Hx. by destruct (Hst i x Hi (Hc i x Hi Hx)). Qed.

(** *** Changes of rows *)

Lemma stable_art d d' id a : rows (arts d) !! id = Some a → a_ID a = id → repos d' = repos d →
  (∀ v, sees_art d v → a_ID (ar_row v) ≠ id → sees_art d' v) →
  stable (λ k, k = AId (a_ID a) ∨ k = ADg (a_RepositoryName a) (a_Digest a)) d d'.
Proof.
  intros Ha Hid Hr Hs i x Hi Hx. unfold holds in *. destruct (is_art i) eqn:Ei.
  - destruct Hx as (v & Hv & Hsee & Hof). destruct (decide (a_ID (ar_row v) = id)) as [E|E]; [|right; eauto].
    left. destruct Hsee as [Hrow _]. rewrite E, Ha in Hrow. injection Hrow as ->.
    destruct i; simpl in *; try done; [left|right]; naive_solver.
  - right. destruct Hx as (p & Hp & Hsee & Hof). exists p. split; [done|]. split; [|done]. unfold sees_repo. by rewrite Hr.
Qed.

Lemma stable_repo d d' id p : rows (repos d) !! id = Some p → p_RepositoryID p = id → arts d' = arts d → refs d' = refs d →
  (∀ q, sees_repo d q → p_RepositoryID q ≠ id → sees_repo d' q) →
  stable (λ k, k = RId (p_RepositoryID p) ∨ k = RName (p_Name p)) d d'.
Proof.
  intros Hp Hid Ha Hf Hs i x Hi Hx. unfold holds in *. destruct (is_art i) eqn:Ei.
  - right. destruct Hx as (v & Hv & [Hrow Hrefs] & Hof). exists v. split; [done|]. split; [|done]. split; [by rewrite Ha|by rewrite Hf].
  - destruct Hx as (q & Hq & Hsee & Hof). destruct (decide (p_RepositoryID q = id)) as [E|E]; [|right; eauto].
    left. unfold sees_repo in Hsee. rewrite E, Hp in Hsee. injection Hsee as ->. destruct i; simpl in *; try done; [left|right]; naive_solver.
Qed.

Lemma stable_grow d d' : (∀ v, sees_art d v → sees_art d' v) → (∀ p, sees_repo d p → sees_repo d' p) → stable (λ _, False) d d'.
Proof.
  intros Ha Hr i x Hi Hx. right. unfold holds in *. destruct (is_art i).
  - destruct Hx as (v & Hv & Hs & Ho). eauto.
  - destruct Hx as (v & Hv & Hs & Ho). eauto.
Qed.

(** *** What readers of the database see *)

Lemma refs_perm d d' id : table_ok r_ID (refs d) → table_ok r_ID (refs d') →
  (∀ i r, r_ParentID r = id → rows (refs d) !! i = Some r ↔ rows (refs d') !! i = Some r) →
  select (λ r, r_ParentID r = id) (refs d) ≡ₚ select (λ r, r_ParentID r = id) (refs d').
Proof.
  intros Hd Hd' H. apply NoDup_Permutation; [by eapply NoDup_select|by eapply NoDup_select|].
  intros r. rewrite !elem_of_select. split; intros (i & Hi & Hp); exists i; (split; [by apply H|done]).
Qed.

Lemma sees_art_mono d d' v : sees_art d v → table_ok r_ID (refs d) → table_ok r_ID (refs d') →
  rows (arts d') !! a_ID (ar_row v) = Some (ar_row v) →
  (∀ i r, r_ParentID r = a_ID (ar_row v) → rows (refs d) !! i = Some r ↔ rows (refs d') !! i = Some r) → sees_art d' v.
Proof.
  intros [_ Hr] Hd Hd' Hrow H. split; [done|]. destruct (IsImageIndex _); [|done].
  destruct Hr as (l & Hr & Hl). exists l. split; [|done]. by rewrite Hr, (refs_perm d d').
Qed.

Definition assembled (d : ArtDB) (v : ArtifactRefs) : Prop :=
  if IsImageIndex (ar_row v) then ar_References v = select (λ r, r_ParentID r = a_ID (ar_row v)) (refs d) else ar_References v = [].

Lemma reading_assemble a : reading (artifact_mgr.assemble a) (λ d v, ar_row v = a ∧ assembled d v).
Proof.
  unfold artifact_mgr.assemble, assembled. destruct (IsImageIndex a) eqn:E.
  - unfold artifact_mgr.ListReferences, artifact_dao.ListReferences.
    eapply reading_conseq; [eapply reading_bind; [eapply reading_skip; [by intros ? ? ? [-> _]%FromContext_cases|intros ?; apply reading_query]
      |intros rs; apply reading_ret]|]. intros d v (rs & [= <-] & ->). simpl. by rewrite E.
  - eapply reading_conseq; [apply reading_ret|]. intros d v ->. simpl. by rewrite E.
Qed.

Definition art_get (i : index) : M ArtDB ArtifactRefs :=
  match i with AId id => artifact_mgr.Get id | ADg r g => artifact_mgr.GetByDigest r g | _ => fail ErrNotFound end.
Definition repo_get (i : index) : M ArtDB RepoRecord :=
  match i with RId id => repo_mgr.Get id | RName n => repo_mgr.GetByName n | _ => fail ErrNotFound end.

Lemma reading_art_get i : reading (art_get i) (λ d v, ∃ k, rows (arts d) !! k = Some (ar_row v) ∧ assembled d v ∧
  match i with AId id => k = id | ADg r g => a_RepositoryName (ar_row v) = r ∧ a_Digest (ar_row v) = g | _ => False end).
Proof.
  destruct i as [id|r g|id|n]; simpl; [| |apply reading_fail|apply reading_fail].
  - unfold artifact_mgr.Get, artifact_dao.Get.
    eapply reading_conseq; [eapply reading_bind; [apply reading_Read|intros a; apply reading_assemble]|].
    simpl. intros d v (a & Ha & Hv & Has). exists id. subst a. done.
  - unfold artifact_mgr.GetByDigest. eapply reading_conseq; [eapply reading_bind; [|intros a; apply reading_assemble]|].
    + instantiate (1 := λ d a, ∃ k, rows (arts d) !! k = Some a ∧ a_RepositoryName a = r ∧ a_Digest a = g).
      unfold artifact_dao.GetByDigest. eapply reading_skip; [by intros ? ? ? [-> _]%FromContext_cases|intros ?].
      eapply reading_conseq; [eapply (reading_bind _ _ _ (λ l _ a, head l = Some a)); [apply reading_query|]|].
      * intros [|x l]; [apply reading_fail|]. eapply reading_conseq; [apply reading_ret|]. by intros ? ? ->.
      * simpl. intros d y (l & [= <-] & Hl). apply head_Some_elem_of in Hl. unfold order_desc in Hl. rewrite merge_sort_Permutation in Hl.
        by apply elem_of_select in Hl.
    + simpl. intros d v (a & (k & Hk & Hn & Hg) & Hv & Has). exists k. subst a. done.
Qed.

Lemma reading_repo_get i : reading (repo_get i) (λ d p, ∃ k, rows (repos d) !! k = Some p ∧
  match i with RId id => k = id | RName n => p_Name p = n | _ => False end).
Proof.
  destruct i as [id|r g|id|n]; simpl; [apply reading_fail|apply reading_fail| |].
  - eapply reading_conseq; [apply reading_Read|]. simpl. eauto.
  - unfold repo_mgr.GetByName, repo_mgr.List.
    eapply reading_conseq; [eapply (reading_bind _ _ _ (λ l _ a, head l = Some a)); [eapply reading_skip; [by intros ? ? ? [-> _]%FromContext_cases|intros ?; apply reading_query]|]|].
    + intros [|x l]; [apply reading_fail|]. eapply reading_conseq; [apply reading_ret|]. by intros ? ? ->.
    + simpl. intros d p (l & [= <-] & Hl). apply head_Some_elem_of in Hl. unfold order_desc in Hl. rewrite merge_sort_Permutation in Hl.
      by apply elem_of_select in Hl.
Qed.

Lemma may_reading {A} (m : M ArtDB A) φ d r d' : reading m φ → may m d r d' → d' = d ∧ ∀ a, r = Ok a → φ d a.
Proof. intros Hm (o & fs & w' & H & <-). exact (Hm _ _ _ H). Qed.

Lemma art_key_row d k a : tables_ok d → rows (arts d) !! k = Some a → a_ID a = k ∧ named a.
Proof.
  intros Hd Hk. split; [by destruct (tab_keys _ _ _ _ (tk_arts d Hd) _ _ Hk)|exact (tab_valid _ _ _ _ (tk_arts d Hd) _ _ Hk)].
Qed.

Lemma repo_key_row d k p : tables_ok d → rows (repos d) !! k = Some p → p_RepositoryID p = k.
Proof. intros Hd Hk. by destruct (tab_keys _ _ _ _ (tk_repos d Hd) _ _ Hk). Qed.

Lemma may_art_get i d r d' : tables_ok d → may (art_get i) d r d' →
  d' = d ∧ ∀ v, r = Ok v → sees_art d v ∧ of_index_art i (ar_row v).
Proof.
  intros Hd H. destruct (may_reading _ _ _ _ _ (reading_art_get i) H) as [-> Hv]. split; [done|].
  intros v ->. destruct (Hv v eq_refl) as (k & Hk & Has & Hi). destruct (art_key_row _ _ _ Hd Hk) as [Hid _]. split.
  - split; [by rewrite Hid|]. unfold assembled in Has. destruct (IsImageIndex _); [|done].
    exists []. split; [by rewrite Has, app_nil_r|apply Forall_nil_2].
  - destruct i; simpl; try done. congruence.
Qed.

Lemma may_repo_get i d r d' : tables_ok d → may (repo_get i) d r d' →
  d' = d ∧ ∀ p, r = Ok p → sees_repo d p ∧ of_index_repo i p.
Proof.
  intros Hd H. destruct (may_reading _ _ _ _ _ (reading_repo_get i) H) as [-> Hv]. split; [done|].
  intros p ->. destruct (Hv p eq_refl) as (k & Hk & Hi). pose proof (repo_key_row _ _ _ Hd Hk) as Hid. split.
  - unfold sees_repo. by rewrite Hid.
  - destruct i; simpl; try done. congruence.
Qed.

(** Artifacts that differ in the order of their references, and in references that
    are deleted one by one. *)
Definition same_refs (v v' : ArtifactRefs) : Prop :=
  ar_row v = ar_row v' ∧ ∃ l, ar_References v ≡ₚ ar_References v' ++ l ∧ all_gone l.

Lemma assemble_runs d a : ∃ v, artifact_mgr.assemble a (mkWorld d true []) = (Ok v, mkWorld d true []) ∧ ar_row v = a ∧ assembled d v.
Proof.
  unfold artifact_mgr.assemble, assembled. destruct (IsImageIndex a) eqn:E; eexists; (split; [reflexivity|]); simpl; by rewrite E.
Qed.

Lemma sees_art_may i d v : tables_ok d → proper i → sees_art d v → of_index_art i (ar_row v) →
  ∃ v', may (art_get i) d (Ok v') d ∧ same_refs v v'.
Proof.
  intros Hd Hi [Hrow Hrefs] Hof. destruct (assemble_runs d (ar_row v)) as (v' & Hrun & Hr & Has). exists v'. split.
  - exists true, [], (mkWorld d true []). split; [|done]. destruct i as [id|r g|id|n]; simpl in *; try done.
    + subst id. unfold artifact_mgr.Get, artifact_dao.Get, Read, FromContext, try, query, stmt, mbind, M_bind. simpl. rewrite Hrow. exact Hrun.
    + destruct Hof as [Hn Hg]. unfold artifact_mgr.GetByDigest, artifact_dao.GetByDigest, FromContext, query, stmt, mbind, M_bind. simpl.
      set (l := order_desc _ _).
      assert (Hl : ∀ a, a ∈ l ↔ ∃ k, rows (arts d) !! k = Some a ∧ a_RepositoryName a = r ∧ a_Digest a = g).
      { intros a. unfold l, order_desc. rewrite merge_sort_Permutation. by rewrite elem_of_select. }
      clearbody l. destruct l as [|a t]; [exfalso; apply (not_elem_of_nil (ar_row v)), Hl; eauto|].
      destruct (proj1 (Hl a) ltac:(left)) as (k & Hk & Hna & Hga).
      destruct (art_key_row _ _ _ Hd Hk) as [_ [_ Hra]]. destruct (art_key_row _ _ _ Hd Hrow) as [_ [_ Hrv]].
      assert (k = a_ID (ar_row v)) as ->.
      { apply (tab_unique _ _ _ _ (tk_arts d Hd) _ _ _ _ Hk Hrow). split; [rewrite Hra, Hrv; congruence|congruence]. }
      rewrite Hrow in Hk. injection Hk as Hk. rewrite <-Hk. exact Hrun.
  - split; [done|]. unfold assembled in Has. rewrite Hr in Has. destruct (IsImageIndex _).
    + destruct Hrefs as (l & Hl & Hg). exists l. by rewrite Hl, Has.
    + exists []. rewrite Hrefs, Has. split; [done|apply Forall_nil_2].
Qed.

Lemma sees_repo_may i d p : tables_ok d → sees_repo d p → of_index_repo i p → may (repo_get i) d (Ok p) d.
Proof.
  intros Hd Hrow Hof. exists true, [], (mkWorld d true []). split; [|done]. unfold sees_repo in Hrow. destruct i as [id|r g|id|n]; simpl in *; try done.
  - subst id. unfold repo_mgr.Get, Read, FromContext, try, query, stmt, mbind, M_bind. simpl. by rewrite Hrow.
  - unfold repo_mgr.GetByName, repo_mgr.List, FromContext, query, stmt, mbind, M_bind. simpl. set (l := order_desc _ _).
    assert (Hl : ∀ q, q ∈ l ↔ ∃ k, rows (repos d) !! k = Some q ∧ p_Name q = n).
    { intros q. unfold l, order_desc. rewrite merge_sort_Permutation. by rewrite elem_of_select. }
    clearbody l. destruct l as [|q t]; [exfalso; apply (not_elem_of_nil p), Hl; eauto|].
    destruct (proj1 (Hl q) ltac:(left)) as (k & Hk & Hnq).
    assert (k = p_RepositoryID p) as ->.
    { apply (tab_unique _ _ _ _ (tk_repos d Hd) _ _ _ _ Hk Hrow). unfold same_repo. congruence. }
    rewrite Hrow in Hk. by injection Hk as <-.
Qed.

(** *** What writers change *)

(** What was seen in [d] is seen in [d']. *)
Definition extends (d d' : ArtDB) : Prop :=
  tables_ok d' ∧ (∀ v, sees_art d v → sees_art d' v) ∧ (∀ p, sees_repo d p → sees_repo d' p).

(** Everything but one artifact is as before. *)
Definition changes_art (id : Z) (d d' : ArtDB) : Prop :=
  tables_ok d' ∧ repos d' = repos d ∧ ∀ v, sees_art d v → a_ID (ar_row v) ≠ id → sees_art d' v.

(** Everything but one repository is as before. *)
Definition changes_repo (id : Z) (d d' : ArtDB) : Prop :=
  tables_ok d' ∧ arts d' = arts d ∧ refs d' = refs d ∧ ∀ p, sees_repo d p → p_RepositoryID p ≠ id → sees_repo d' p.

Ltac unfold_split := unfold extends, changes_art, changes_repo; split_and!.

Lemma extends_refl d : tables_ok d → extends d d.
Proof. intros. by unfold_split. Qed.

Lemma extends_stable d d' : extends d d' → tables_ok d' ∧ stable (λ _, False) d d'.
Proof. intros (? & ? & ?). split; [done|by apply stable_grow]. Qed.

Lemma create_references_extend d id l : rows (arts d) !! id = None →
  keeps (extends d) (artifact_mgr.create_references id l).
Proof.
  intros Hid. induction l as [|r l IH]; [apply keeps_ret|]. simpl. apply keeps_bind; [|by intros _].
  unfold artifact_dao.CreateReference. keeps_auto. apply keeps_wrap_err, keeps_stmt. intros d' Hext.
  unfold artifact_dao.insert_reference. case_decide; [|exact Hext]. repeat case_match; try exact Hext. simpl.
  destruct Hext as ([HA HR HS HP] & Ha & Hp).
  assert (Hrefs : table_ok r_ID (add_row (λ n, mkReference n id (r_ChildID r) (r_ChildDigest r) (r_Platform r) (r_URLs r) (r_Annotations r)) (refs d'))).
  { by apply table_ok_add. }
  split; [split; [done|exact Hrefs|simpl; unfold next; lia|done]|]. split; [|done].
  intros v Hv. pose proof (Ha v Hv) as Hv'. eapply sees_art_mono; [exact Hv'|done|exact Hrefs|apply Hv'|].
  intros i x Hx. simpl. rewrite lookup_insert_Some. split.
  - intros Hi. right. split; [|done]. intros <-. destruct (HR _ _ Hi) as [_ Hle]. unfold next in Hle. lia.
  - intros [[_ <-]|[_ Hi]]; [|done]. simpl in Hx. destruct Hv as [Hrow _]. rewrite <-Hx, Hid in Hrow. done.
Qed.

Lemma artifact_Create_effect a d : tables_ok d → named (ar_row a) →
  spec (λ x, x = d) (artifact_mgr.Create a) (λ _, extends d) (extends d).
Proof.
  intros Hd Hn. unfold artifact_mgr.Create, artifact_dao.Create.
  eapply (spec_bind _ _ (λ id d', extends d d' ∧ rows (arts d) !! id = None)).
  - eapply (spec_bind _ _ (λ _ d', d' = d)); [apply spec_FromContext; [done|by intros ? ->; apply extends_refl]|intros []].
    apply spec_wrap_err, spec_stmt; [|by intros ? ->; apply extends_refl]. intros ? ->. unfold artifact_dao.insert_artifact.
    case_decide as Hsel; [|by apply extends_refl]. pose proof (tk_arts d Hd) as HA.
    assert (Hfresh : rows (arts d) !! next (arts d) = None) by (eapply lookup_next; apply HA).
    split; [|done]. destruct Hd as [_ HR HS HP]. unfold_split.
    + split; [|done|done|done]. by eapply (tab_ok_add _ _ _ _ _ _ HA Hsel).
    + intros v Hv. eapply sees_art_mono; [exact Hv|done|done| |done]. simpl. rewrite lookup_insert_ne; [apply Hv|].
      intros E. destruct Hv as [Hrow _]. by rewrite <-E, Hfresh in Hrow.
    + done.
  - intros id. apply spec_exact. intros d1 [Hext Hid].
    eapply (spec_bind _ _ (λ _, extends d)); [|intros _; by apply spec_ret].
    eapply spec_pre; [by apply (create_references_extend d)|]. by intros ? ->.
Qed.

(** A reference that is deleted may still be shown. *)
Lemma select_del (P : Reference → Prop) `{!∀ r, Decision (P r)} t id r : table_ok r_ID t → table_ok r_ID (del_row id t) →
  rows t !! id = Some r → P r → select P t ≡ₚ select P (del_row id t) ++ [r].
Proof.
  intros Ht Ht' Hr Hp. apply NoDup_Permutation; [by eapply NoDup_select| |].
  - apply NoDup_app. split_and!; [by eapply NoDup_select| |apply NoDup_singleton].
    intros x Hx Hxr. apply list_elem_of_singleton in Hxr as ->. apply elem_of_select in Hx as (j & Hj & _).
    simpl in Hj. apply lookup_delete_Some in Hj as [Hne Hj]. apply Hne. destruct (Ht _ _ Hj), (Ht _ _ Hr). congruence.
  - intros x. rewrite elem_of_app, !elem_of_select, list_elem_of_singleton. simpl. split.
    + intros (j & Hj & Hx). destruct (decide (j = id)) as [->|Hne]; [right; congruence|]. left. exists j.
      by rewrite lookup_delete_ne.
    + intros [(j & Hj & Hx)| ->]; [|by exists id]. apply lookup_delete_Some in Hj as [_ Hj]. by exists j.
Qed.

Lemma DeleteReference_gone id d : tables_ok d → gone id →
  spec (λ x, x = d) (artifact_mgr.DeleteReference id) (λ _, extends d) (extends d).
Proof.
  intros Hd Hg. apply spec_affect; [|by intros ? ->; apply extends_refl]. intros ? d' ->.
  destruct (rows (refs d) !! id) as [r|] eqn:Er; [|done]. intros [= <-]. pose proof Hd as [HA HR HS HP].
  assert (HR' : table_ok r_ID (del_row id (refs d))) by (by apply table_ok_del).
  unfold_split; [by split| |done]. intros v [Hrow Hv]. split; [done|]. destruct (IsImageIndex _); [|done].
  destruct Hv as (l & Hl & Hall). simpl. destruct (decide (r_ParentID r = a_ID (ar_row v))) as [Hp|Hp].
  - exists (r :: l). split; [|constructor; [by destruct (HR _ _ Er) as [-> _]|done]].
    by rewrite Hl, (select_del _ _ id r HR HR' Er Hp), <-app_assoc.
  - exists l. split; [|done]. rewrite Hl. f_equiv. apply (refs_perm d (set_refs (del_row id (refs d)) d)); [done|done|].
    intros i x Hx. simpl. rewrite lookup_delete_Some. split; [|by intros [_ ?]]. intros Hi. split; [|done]. intros <-. congruence.
Qed.

Lemma changes_art_refl id d : tables_ok d → changes_art id d d.
Proof. intros. by unfold_split. Qed.

Lemma artifact_Delete_effect id d : tables_ok d →
  spec (λ x, x = d) (artifact_mgr.Delete id) (λ _, changes_art id d) (λ _, True).
Proof.
  intros Hd. unfold artifact_mgr.Delete, artifact_dao.DeleteReferences.
  eapply (spec_bind _ _ (λ _, changes_art id d)).
  - eapply (spec_bind _ _ (λ _ x, x = d)); [by apply spec_Read|intros a].
    eapply (spec_bind _ _ (λ _ x, x = d)); [by apply spec_FromContext|intros []].
    apply spec_stmt; [|done]. intros ? ->. simpl. destruct Hd as [HA HR HS HP].
    assert (HR' : table_ok r_ID (del_rows (λ r, r_ParentID r = id) (refs d))) by (by apply table_ok_dels).
    unfold_split; [by split|done|]. intros v Hv Hne. eapply sees_art_mono; [exact Hv|done|exact HR'|apply Hv|].
    intros i r Hr. cbn [refs set_refs]. rewrite lookup_dels. split; [intros Hi; split; [done|congruence]|by intros [? _]].
  - intros _. apply spec_affect; [|done]. intros d1 d' (Hd1 & Hrep & Hs) H. unfold artifact_dao.delete_artifact in H.
    destruct (rows (arts d1) !! id) eqn:E; [|done]. case_decide; [done|]. injection H as <-.
    destruct Hd1 as [HA HR HS HP]. unfold_split; [|done|].
    + split; [by apply tab_ok_del|done|done|done].
    + intros v Hv Hne. pose proof (Hs v Hv Hne) as Hv1. eapply sees_art_mono; [exact Hv1|done|done| |done].
      simpl. rewrite lookup_delete_ne by done. apply Hv1.
Qed.

(** A new version of a row that keeps its names. *)
Lemma put_artifact_changes id a a' d : tables_ok d → rows (arts d) !! id = Some a →
  a_ID a' = id → a_RepositoryName a' = a_RepositoryName a → a_RepositoryID a' = a_RepositoryID a → a_Digest a' = a_Digest a →
  changes_art id d (set_arts (put_row id a' (arts d)) d).
Proof.
  intros Hd Ha Hid Hn Hr Hg. destruct (art_key_row _ _ _ Hd Ha) as [Hida Hna]. destruct Hd as [HA HR HS HP]. unfold_split; [|done|].
  - split; [|done|done|done]. eapply (tab_ok_put _ _ _ _ _ _ _ HA Ha); [congruence| |].
    + intros y [Hy1 Hy2]. split; congruence.
    + unfold named in *. by rewrite Hn, Hr.
  - intros v Hv Hne. eapply sees_art_mono; [exact Hv|done|done| |done]. simpl. rewrite lookup_insert_ne by done. apply Hv.
Qed.

Definition keeps_names (f : Artifact → Artifact) : Prop := ∀ a,
  a_RepositoryName (f a) = a_RepositoryName a ∧ a_RepositoryID (f a) = a_RepositoryID a ∧ a_Digest (f a) = a_Digest a.

Lemma artifact_Update_effect id f d : tables_ok d → keeps_names f →
  spec (λ x, x = d) (artifact_mgr.Update id f) (λ _, changes_art id d) (λ x, x = d).
Proof.
  intros Hd Hf. apply spec_affect; [|done]. intros ? d' ->. destruct (rows (arts d) !! id) as [a|] eqn:E; [|done].
  intros [= <-]. destruct (Hf a) as (H1 & H2 & H3). by apply (put_artifact_changes id a).
Qed.

Lemma artifact_UpdatePullTime_effect id t d : tables_ok d →
  spec (λ x, x = d) (artifact_mgr.UpdatePullTime id t) (λ _, changes_art id d) (λ x, x = d).
Proof.
  intros Hd. unfold artifact_mgr.UpdatePullTime, artifact_dao.UpdatePullTime.
  eapply (spec_bind _ _ (λ _ x, x = d)); [by apply spec_FromContext|intros []]. apply spec_stmt; [|done]. intros ? ->. simpl.
  destruct (rows (arts d) !! id) as [a|] eqn:E; [|by apply changes_art_refl].
  case_match; [|by apply changes_art_refl]. destruct (art_key_row _ _ _ Hd E) as [Hid _]. by apply (put_artifact_changes id a).
Qed.

Lemma repository_Create_effect n pid d : tables_ok d → spec (λ x, x = d) (repo_mgr.Create n pid) (λ _, extends d) (extends d).
Proof.
  intros Hd. unfold repo_mgr.Create.
  eapply (spec_bind _ _ (λ _ x, x = d)); [apply spec_FromContext; [done|by intros ? ->; apply extends_refl]|intros []].
  apply spec_wrap_err, spec_stmt; [|by intros ? ->; apply extends_refl]. intros ? ->. case_decide as Hsel; [|by apply extends_refl].
  pose proof Hd as [HA HR HS HP]. unfold_split; [|done|].
  - split; [done|done|done|]. by eapply (tab_ok_add _ _ _ _ _ _ HP Hsel).
  - intros p Hp. unfold sees_repo in *. eapply lookup_add; [apply HP|done].
Qed.

Lemma repository_Delete_effect id d : tables_ok d →
  spec (λ x, x = d) (repo_mgr.Delete id) (λ _, changes_repo id d) (λ x, x = d).
Proof.
  intros Hd. apply spec_affect; [|done]. intros ? d' ->. destruct (rows (repos d) !! id) as [p|] eqn:E; [|done]. intros [= <-].
  destruct Hd as [HA HR HS HP]. unfold_split; [|done|done|].
  - split; [done|done|done|by apply tab_ok_del].
  - intros q Hq Hne. unfold sees_repo. simpl. by rewrite lookup_delete_ne.
Qed.

Lemma put_repo_changes id p p' d : tables_ok d → rows (repos d) !! id = Some p → p_RepositoryID p' = id → p_Name p' = p_Name p →
  changes_repo id d (set_repos (put_row id p' (repos d)) d).
Proof.
  intros Hd Hp Hid Hn. pose proof (repo_key_row _ _ _ Hd Hp) as Hidp. destruct Hd as [HA HR HS HP]. unfold_split; [|done|done|].
  - split; [done|done|done|]. eapply (tab_ok_put _ _ _ _ _ _ _ HP Hp); [congruence| |done]. unfold same_repo. congruence.
  - intros q Hq Hne. unfold sees_repo. simpl. by rewrite lookup_insert_ne.
Qed.

Lemma repository_Update_effect id f d : tables_ok d → (∀ p, p_Name (f p) = p_Name p) →
  spec (λ x, x = d) (repo_mgr.Update id f) (λ _, changes_repo id d) (λ x, x = d).
Proof.
  intros Hd Hf. apply spec_affect; [|done]. intros ? d' ->. destruct (rows (repos d) !! id) as [p|] eqn:E; [|done].
  cbv zeta. case_decide; [|done]. intros [= <-]. apply (put_repo_changes id p); [done|done|done|apply Hf].
Qed.

Lemma AddPullCount_effect id n d : tables_ok d →
  ends (λ x, x = d) (repo_mgr.AddPullCount id n) (λ r x, match r with Ok _ => changes_repo id d x | Err _ => x = d end).
Proof.
  intros Hd. unfold repo_mgr.AddPullCount.
  eapply (ends_bind _ _ (λ _ x, x = d)); [by intros w r w' Hw [-> _]%FromContext_cases|intros _|done].
  eapply (ends_bind _ _ (λ r x, match r with Ok k => if k =? 0 then x = d else changes_repo id d x | Err _ => x = d end)).
  - apply ends_spec, spec_stmt; [|done]. intros ? ->. destruct (rows (repos d) !! id) as [p|] eqn:E; [|done].
    destruct (_ <? _); [|done]. simpl. by apply (put_repo_changes id p).
  - intros k. destruct (k =? 0); [apply ends_of_result; by intros ? ->|by apply ends_ret].
  - done.
Qed.

(** ** Calls of the cached managers *)

Context (art_codec : ∀ (v : ArtifactRefs) (x : data), Encode v = Ok x → Decode x = Ok v).
Context (repo_codec : ∀ (p : RepoRecord) (x : data), Encode p = Ok x → Decode x = Ok p).

Notation state := (Cached data ArtDB).

Definition Inv (c : state) : Prop :=
  tables_ok (base c) ∧ coherent (base c) (store (cache c)) ∧ patient budget (delete_faults (cache c)).

(** Within a transaction nothing is added to the cache. *)
Definition shrinks (tx : bool) (c c' : state) : Prop := tx = true → store (cache c') ⊆ store (cache c).

Lemma cache_shrinks_refl tx c : shrinks tx c c.
Proof. by intros _. Qed.
Lemma cache_shrinks_trans tx c c1 c2 : shrinks tx c c1 → shrinks tx c1 c2 → shrinks tx c c2.
Proof. intros H1 H2 Ht. etrans; [by apply H2|by apply H1]. Qed.

Definition upto {V} (same : V → V → Prop) (r r' : result V) : Prop :=
  match r, r' with Ok v, Ok v' => same v v' | Err e, Err e' => e = e' | _, _ => False end.

Lemma upto_refl {V} (same : V → V → Prop) `{!Reflexive same} r : upto same r r.
Proof. by destruct r; simpl. Qed.

Lemma cache_Fetch_spec {V} `{!Codec data V} key (k : Cache data) :
  store (cache_Fetch key k : result V * _).2 = store k ∧ delete_faults (cache_Fetch key k : result V * _).2 = delete_faults k ∧
  ∀ v : V, (cache_Fetch key k).1 = Ok v → ∃ x, store k !! Key key = Some x ∧ Decode x = Ok v.
Proof.
  unfold cache_Fetch. destruct (next_fault _) as [f l]. simpl. split_and!; try done.
  intros v. destruct f; [done|]. destruct (store k !! Key key) as [x|]; [|done]. eauto.
Qed.

Lemma cache_Save_spec {V} `{!Codec data V} key (v : V) (k : Cache data) :
  delete_faults (cache_Save key v k).2 = delete_faults k ∧
  (store (cache_Save key v k).2 = store k ∨ ∃ x, Encode v = Ok x ∧ store (cache_Save key v k).2 = <[Key key := x]> (store k)).
Proof.
  unfold cache_Save. destruct (Encode v) as [x|e]; [|by split; [|left]]. destruct (next_fault _) as [[f|] l]; simpl; eauto.
Qed.

(** A read gives what the manager could give, and saves only that. *)
Lemma reader_ends {V} `{!Codec data V} tx i (get : M ArtDB V) (same : V → V → Prop) `{!Reflexive same} (sees : V → Prop) (c : state) :
  (∀ (v : V) (x : data), Encode v = Ok x → Decode x = Ok v) → Inv c → proper i →
  (∀ x, holds (base c) i x ↔ ∃ v : V, Decode x = Ok v ∧ sees v) →
  (∀ r d', may get (base c) r d' → d' = base c ∧ ∀ v, r = Ok v → sees v) →
  (∀ v, sees v → ∃ v', may get (base c) (Ok v') (base c) ∧ same v v') →
  ends (λ x, x = c) (read_through tx (Ok (ikey i)) (λ _, true) get)
    (λ r x, Inv x ∧ base x = base c ∧ shrinks tx c x ∧ (∀ v, r = Ok v → sees v) ∧
       ∃ r', may get (base c) r' (base c) ∧ upto same r r').
Proof.
  intros Hcod (Ht & Hc & Hp) Hi Hh Hget Hsee. unfold read_through.
  eapply (ends_bind _ _ (λ r x, r = Ok (ikey i) ∧ x = c)); [by apply ends_of_result|intros k|by intros e d [? _]].
  apply ends_exact. intros ? [[= ->] ->].
  destruct (cache_Fetch_spec (V := V) (ikey i) (cache c)) as (Hst & Hdf & Hv).
  eapply ends_try_bind; [apply ends_cache|]. intros r. apply ends_exact. intros ? [-> ->].
  set (c1 := mkCached (base c) _). assert (HI1 : Inv c1) by (unfold Inv; simpl; by rewrite Hst, Hdf).
  assert (Hsh : shrinks tx c c1) by (intros _; simpl; by rewrite Hst).
  destruct (cache_Fetch (ikey i) (cache c)).1 as [v|e] eqn:Ef.
  - apply ends_ret. intros ? ->. destruct (Hv v eq_refl) as (x & Hx & Hdec).
    destruct (proj1 (Hh x) (Hc i x Hi Hx)) as (v0 & Hdec0 & Hs0). rewrite Hdec in Hdec0. injection Hdec0 as <-.
    destruct (Hsee v Hs0) as (v' & Hm & Hsame). split_and!; try done; [by intros ? [= <-]|]. by exists (Ok v').
  - eapply ends_bind; [apply ends_base| |].
    + intros v. apply ends_exact. intros c2 [-> Hm]. simpl in Hm. destruct (Hget _ _ Hm) as [E Hsv]. rewrite E in Hm.
      specialize (Hsv v eq_refl). rewrite E. change (mkCached (base c) (cache c1)) with c1.
      assert (Hdone : ∀ c3 : state, Inv c3 ∧ base c3 = base c ∧ shrinks tx c c3 →
        Inv c3 ∧ base c3 = base c ∧ shrinks tx c c3 ∧ (∀ u, Ok v = Ok u → sees u) ∧ ∃ r', may get (base c) r' (base c) ∧ upto same (Ok v) r').
      { intros c3 (? & ? & ?). split_and!; try done; [by intros ? [= <-]|]. exists (Ok v). split; [done|]. by apply upto_refl. }
      eapply (ends_bind _ _ (λ r x, r = Ok tt ∧ Inv x ∧ base x = base c ∧ shrinks tx c x)); [|intros []; apply ends_ret|by intros ? ? [? _]].
      * simpl. unfold client_Save. destruct tx; [by apply ends_ret; intros ? ->|].
        eapply ends_try_bind; [apply ends_cache|]. intros x. apply ends_ret. intros ? [-> ->].
        destruct (cache_Save_spec (ikey i) v (cache c1)) as (Hdf' & Hst'). destruct HI1 as (Ht1 & Hc1 & Hp1).
        split; [done|]. split; [|done]. split; [done|].
        split; [|change (patient budget (delete_faults (cache_Save (ikey i) v (cache c1)).2)); by rewrite Hdf'].
        change (coherent (base c) (store (cache_Save (ikey i) v (cache c1)).2)). destruct Hst' as [-> |(y & Hy & ->)]; [done|]. apply coherent_insert; [done| |done]. apply Hh. eauto.
      * intros d3 (_ & H). by apply Hdone.
    + intros e0 c2 [-> Hm]. simpl in Hm. destruct (Hget _ _ Hm) as [E _]. rewrite E in *. change (mkCached (base c) (cache c1)) with c1.
      split_and!; try done. by exists (Err e0).
Qed.

Definition art_read (tx : bool) (i : index) : M state ArtifactRefs := read_through tx (Ok (ikey i)) (λ _, true) (art_get i).
Definition repo_read (tx : bool) (i : index) : M state RepoRecord := read_through tx (Ok (ikey i)) (λ _, true) (repo_get i).

#[local] Instance same_refs_refl : Reflexive same_refs.
Proof. intros v. split; [done|]. exists []. rewrite app_nil_r. split; [done|apply Forall_nil_2]. Qed.

Lemma art_read_ends tx i c : is_art i = true → Inv c → proper i →
  ends (λ x, x = c) (art_read tx i)
    (λ r x, Inv x ∧ base x = base c ∧ shrinks tx c x ∧ (∀ v, r = Ok v → sees_art (base c) v ∧ of_index_art i (ar_row v)) ∧
       ∃ r', may (art_get i) (base c) r' (base c) ∧ upto same_refs r r').
Proof.
  intros Hi HI Hp. pose proof HI as (Ht & _ & _).
  apply (reader_ends tx i _ same_refs (λ v, sees_art (base c) v ∧ of_index_art i (ar_row v)) c); [exact art_codec|done|done| | |].
  - intros x. unfold holds. by rewrite Hi.
  - intros r d'. by apply may_art_get.
  - intros v [Hs Ho]. by apply sees_art_may.
Qed.

Lemma repo_read_ends tx i c : is_art i = false → Inv c →
  ends (λ x, x = c) (repo_read tx i)
    (λ r x, Inv x ∧ base x = base c ∧ shrinks tx c x ∧ (∀ v, r = Ok v → sees_repo (base c) v ∧ of_index_repo i v) ∧
       ∃ r', may (repo_get i) (base c) r' (base c) ∧ upto eq r r').
Proof.
  intros Hi HI. pose proof HI as (Ht & _ & _).
  apply (reader_ends tx i _ eq (λ v, sees_repo (base c) v ∧ of_index_repo i v) c); [exact repo_codec|done|by destruct i| | |].
  - intros x. unfold holds. by rewrite Hi.
  - intros r d'. by apply may_repo_get.
  - intros v [Hs Ho]. exists v. split; [by apply sees_repo_may|done].
Qed.

(** *** Removing the two keys of a row that has changed *)

Lemma clean2_ends d i j (c : state) : tables_ok (base c) → patient budget (delete_faults (cache c)) → proper i → proper j →
  coherent d (store (cache c)) → stable (λ k, k = i ∨ k = j) d (base c) →
  ends (λ x, x = c) (_ ← clean budget (Ok (ikey i)); clean budget (Ok (ikey j)))
    (λ r x, r = Ok tt ∧ Inv x ∧ base x = base c ∧ store (cache x) ⊆ store (cache c)).
Proof.
  intros Ht Hp Hi Hj Hc Hst. eapply ends_bind; [by apply ends_clean| |by intros e x [? _]].
  intros []. apply ends_exact. intros c1 (_ & Hb1 & Hs1 & Hp1).
  eapply ends_conseq; [by apply ends_clean|done|]. intros r x (-> & Hb & Hs & Hpx). rewrite Hs, Hs1. split; [done|]. split; [|split].
  - split; [by rewrite Hb, Hb1|]. split; [|done]. rewrite Hs, Hs1, Hb, Hb1. by apply (coherent_clean2 d).
  - congruence.
  - etrans; [apply delete_subseteq|apply delete_subseteq].
Qed.

Lemma art_cleanUp_ends a d (c : state) : tables_ok d → rows (arts d) !! a_ID a = Some a → changes_art (a_ID a) d (base c) →
  coherent d (store (cache c)) → patient budget (delete_faults (cache c)) →
  ends (λ x, x = c) (artifact_cleanUp budget a) (λ r x, r = Ok tt ∧ Inv x ∧ base x = base c ∧ store (cache x) ⊆ store (cache c)).
Proof.
  intros Hd Ha (Ht & Hr & Hs) Hc Hp. unfold artifact_cleanUp. rewrite (proj1 (artifact_keys (a_ID a) EmptyString EmptyString)).
  rewrite (proj2 (artifact_keys 0 (a_RepositoryName a) (a_Digest a))). destruct (art_key_row _ _ _ Hd Ha) as [_ [Hn _]].
  apply (clean2_ends d); [done|done|done|exact Hn|done|]. by apply (stable_art d (base c) (a_ID a) a).
Qed.

Lemma repo_cleanUp_ends p d (c : state) : tables_ok d → rows (repos d) !! p_RepositoryID p = Some p → changes_repo (p_RepositoryID p) d (base c) →
  coherent d (store (cache c)) → patient budget (delete_faults (cache c)) →
  ends (λ x, x = c) (repository_cleanUp budget p) (λ r x, r = Ok tt ∧ Inv x ∧ base x = base c ∧ store (cache x) ⊆ store (cache c)).
Proof.
  intros Hd Hp (Ht & Ha & Hf & Hs) Hc Hpat. apply (clean2_ends d (RId (p_RepositoryID p)) (RName (p_Name p))); [done..|].
  by apply (stable_repo d (base c) (p_RepositoryID p) p).
Qed.

(** Two reads whose answers are dropped. *)
Lemma try_read_ends {V} tx (m : M state V) (k : result V → M state unit) (c0 c : state) :
  (∀ c : state, Inv c → ends (λ x, x = c) m (λ _ x, Inv x ∧ base x = base c ∧ shrinks tx c x)) →
  (∀ r c, Inv c ∧ base c = base c0 ∧ shrinks tx c0 c →
     ends (λ x, x = c) (k r) (λ r x, r = Ok tt ∧ Inv x ∧ base x = base c0 ∧ shrinks tx c0 x)) →
  Inv c → base c = base c0 → shrinks tx c0 c →
  ends (λ x, x = c) (try m ≫= k) (λ r x, r = Ok tt ∧ Inv x ∧ base x = base c0 ∧ shrinks tx c0 x).
Proof.
  intros Hm Hk Hc Hb Hs. eapply ends_try_bind; [by apply Hm|]. intros r. apply ends_exact. intros c1 (Hc1 & Hb1 & Hs1).
  apply Hk. split_and!; [done|congruence|by eapply cache_shrinks_trans].
Qed.

Lemma art_refresh_ends tx a d (c : state) : tables_ok d → rows (arts d) !! a_ID a = Some a → changes_art (a_ID a) d (base c) →
  coherent d (store (cache c)) → patient budget (delete_faults (cache c)) →
  ends (λ x, x = c) (artifact_refreshCache tx budget a) (λ r x, r = Ok tt ∧ Inv x ∧ base x = base c ∧ shrinks tx c x).
Proof.
  intros Hd Ha Hch Hc Hp. unfold artifact_refreshCache. destruct (art_key_row _ _ _ Hd Ha) as [_ [Hn _]].
  eapply ends_bind; [by apply (art_cleanUp_ends a d)| |by intros ? ? [? _]]. intros []. apply ends_exact. intros c1 (_ & HI & Hb & Hs).
  assert (shrinks tx c c1) by (by intros _). unfold artifact_Get, artifact_GetByDigest.
  rewrite (proj1 (artifact_keys (a_ID a) EmptyString EmptyString)), (proj2 (artifact_keys 0 (a_RepositoryName a) (a_Digest a))).
  apply (try_read_ends tx (art_read tx (AId (a_ID a)))); [| |done|done|done].
  - intros c2 H2. eapply ends_conseq; [by apply (art_read_ends tx (AId (a_ID a)))|done|]. by intros r x (? & ? & ? & _).
  - intros _ c2 (H2 & Hb2 & Hs2). apply (try_read_ends tx (art_read tx (ADg (a_RepositoryName a) (a_Digest a)))); [| |done|done|done].
    + intros c3 H3. eapply ends_conseq; [by apply (art_read_ends tx (ADg (a_RepositoryName a) (a_Digest a)))|done|]. by intros r x (? & ? & ? & _).
    + intros _ c3 H3. by apply ends_ret; intros ? ->.
Qed.

Lemma repo_refresh_ends tx p d (c : state) : tables_ok d → rows (repos d) !! p_RepositoryID p = Some p → changes_repo (p_RepositoryID p) d (base c) →
  coherent d (store (cache c)) → patient budget (delete_faults (cache c)) →
  ends (λ x, x = c) (repository_refreshCache tx budget p) (λ r x, r = Ok tt ∧ Inv x ∧ base x = base c ∧ shrinks tx c x).
Proof.
  intros Hd Ha Hch Hc Hp. unfold repository_refreshCache.
  eapply ends_bind; [by apply (repo_cleanUp_ends p d)| |by intros ? ? [? _]]. intros []. apply ends_exact. intros c1 (_ & HI & Hb & Hs).
  assert (shrinks tx c c1) by (by intros _).
  apply (try_read_ends tx (repo_read tx (RId (p_RepositoryID p)))); [| |done|done|done].
  - intros c2 H2. eapply ends_conseq; [by apply (repo_read_ends tx (RId (p_RepositoryID p)))|done|]. by intros r x (? & ? & ? & _).
  - intros _ c2 (H2 & Hb2 & Hs2). apply (try_read_ends tx (repo_read tx (RName (p_Name p)))); [| |done|done|done].
    + intros c3 H3. eapply ends_conseq; [by apply (repo_read_ends tx (RName (p_Name p)))|done|]. by intros r x (? & ? & ? & _).
    + intros _ c3 H3. by apply ends_ret; intros ? ->.
Qed.

(** ** Clients *)

(** Calls of the managers of artifacts and repositories.  An update overwrites
    columns of what was read. *)
Inductive op : Type → Type :=
  | ArtGet (id : Z) : op ArtifactRefs
  | ArtGetByDigest (repository digest : string) : op ArtifactRefs
  | ArtCreate (a : ArtifactRefs) : op Z
  | ArtDelete (id : Z) : op unit
  | ArtUpdate (id : Z) (f : Artifact → Artifact) : op unit
  | ArtUpdatePullTime (id pullTime : Z) : op unit
  | ArtDeleteReference (id : Z) : op unit
  | RepoGet (id : Z) : op RepoRecord
  | RepoGetByName (name : string) : op RepoRecord
  | RepoCreate (name : string) (projectID : Z) : op Z
  | RepoDelete (id : Z) : op unit
  | RepoUpdate (id : Z) (f : RepoRecord → RepoRecord) : op unit
  | RepoAddPullCount (id count : Z) : op unit.

Definition cached_op (tx : bool) {B} (o : op B) : M state B :=
  match o with
  | ArtGet id => artifact_Get tx id
  | ArtGetByDigest r g => artifact_GetByDigest tx r g
  | ArtCreate a => artifact_Create a
  | ArtDelete id => artifact_Delete tx budget id
  | ArtUpdate id f => v ← artifact_Get tx id; artifact_Update budget (ar_row v) f
  | ArtUpdatePullTime id t => artifact_UpdatePullTime tx budget id t
  | ArtDeleteReference id => artifact_DeleteReference id
  | RepoGet id => repository_Get tx id
  | RepoGetByName n => repository_GetByName tx n
  | RepoCreate n pid => repository_Create n pid
  | RepoDelete id => repository_Delete tx budget id
  | RepoUpdate id f => p ← repository_Get tx id; repository_Update budget p f
  | RepoAddPullCount id n => repository_AddPullCount tx budget id n
  end.

(** What the managers without a cache may do: a read answers up to the order of
    references, a write first reads. *)
Definition may_read {V} (same : V → V → Prop) (m : M ArtDB V) (d : ArtDB) (r : result V) (d' : ArtDB) : Prop :=
  d' = d ∧ ∃ r', may m d r' d ∧ upto same r r'.
Definition may_after {V} (get : M ArtDB V) (m : V → M ArtDB unit) (d : ArtDB) (r : result unit) (d' : ArtDB) : Prop :=
  (∃ e, r = Err e ∧ may get d (Err e) d ∧ d' = d) ∨ (∃ v, may get d (Ok v) d ∧ may (m v) d r d').

Definition plain_op {B} (o : op B) (d : ArtDB) (r : result B) (d' : ArtDB) : Prop :=
  match o in op B return result B → Prop with
  | ArtGet id => λ r, may_read same_refs (artifact_mgr.Get id) d r d'
  | ArtGetByDigest n g => λ r, may_read same_refs (artifact_mgr.GetByDigest n g) d r d'
  | ArtCreate a => λ r, may (artifact_mgr.Create a) d r d'
  | ArtDelete id => λ r, may_after (artifact_mgr.Get id) (λ _, artifact_mgr.Delete id) d r d'
  | ArtUpdate id f => λ r, may_after (artifact_mgr.Get id) (λ v, artifact_mgr.Update (a_ID (ar_row v)) f) d r d'
  | ArtUpdatePullTime id t => λ r, may_after (artifact_mgr.Get id) (λ _, artifact_mgr.UpdatePullTime id t) d r d'
  | ArtDeleteReference id => λ r, may (artifact_mgr.DeleteReference id) d r d'
  | RepoGet id => λ r, may_read eq (repo_mgr.Get id) d r d'
  | RepoGetByName n => λ r, may_read eq (repo_mgr.GetByName n) d r d'
  | RepoCreate n pid => λ r, may (repo_mgr.Create n pid) d r d'
  | RepoDelete id => λ r, may_after (repo_mgr.Get id) (λ _, repo_mgr.Delete id) d r d'
  | RepoUpdate id f => λ r, may_after (repo_mgr.Get id) (λ p, repo_mgr.Update (p_RepositoryID p) f) d r d'
  | RepoAddPullCount id n => λ r, may_after (repo_mgr.Get id) (λ _, repo_mgr.AddPullCount id n) d r d'
  end r.

(** Names have no colon and stand for one repository; updates keep the names. *)
Definition fair {B} (o : op B) : Prop :=
  match o with
  | ArtGetByDigest r _ => plain_name r
  | ArtCreate a => named (ar_row a)
  | ArtUpdate _ f => keeps_names f
  | ArtDeleteReference id => gone id
  | RepoUpdate _ f => ∀ p, p_Name (f p) = p_Name p
  | _ => True
  end.

(** A deletion of an artifact is two statements, which may fail in between. *)
Definition halfway {B} (o : op B) (r : result B) : Prop :=
  match o with ArtDelete _ => ∃ e, r = Err e | _ => False end.

(** After the read of a write: the statement, then the cache. *)
Lemma write_ends {V} tx (get : M ArtDB V) (same : V → V → Prop) (sees : V → Prop) (read : M state V) (m : V → M ArtDB unit)
    (tidy : V → M state unit) (loose : Prop) (c : state) :
  Inv c →
  ends (λ x, x = c) read (λ r x, Inv x ∧ base x = base c ∧ shrinks tx c x ∧ (∀ v, r = Ok v → sees v) ∧
    ∃ r', may get (base c) r' (base c) ∧ upto same r r') →
  (∀ v v', sees v → same v v' → m v' = m v) →
  (∀ v c1, sees v → Inv c1 → base c1 = base c →
     ends (λ x, x = c1) (on_base (m v)) (λ r x, cache x = cache c1 ∧ may (m v) (base c) r (base x) ∧
       match r with
       | Ok _ => ends (λ y, y = x) (tidy v) (λ r y, r = Ok tt ∧ Inv y ∧ base y = base x ∧ shrinks tx x y)
       | Err _ => Inv x ∨ loose
       end)) →
  ends (λ x, x = c) (v ← read; _ ← on_base (m v); tidy v)
    (λ r x, may_after get m (base c) r (base x) ∧ shrinks tx c x ∧ patient budget (delete_faults (cache x)) ∧
       (Inv x ∨ (∃ e, r = Err e) ∧ loose)).
Proof.
  intros HI Hread Hsame Hm. eapply ends_bind; [exact Hread| |].
  - intros v. apply ends_exact. intros c1 (HI1 & Hb1 & Hs1 & Hv & r' & Hget & Hup). specialize (Hv v eq_refl).
    destruct r' as [v'|]; [|done]. simpl in Hup. eapply ends_bind; [by apply (Hm v c1)| |].
    + intros []. apply ends_exact. intros c2 (Hk & Hmay & Htidy). eapply ends_conseq; [exact Htidy|done|].
      intros r x (-> & HIx & Hbx & Hsx). split_and!.
      * right. exists v'. split; [done|]. by rewrite (Hsame v v' Hv Hup), Hbx.
      * intros Ht. etrans; [by apply Hsx|]. rewrite Hk. by apply Hs1.
      * apply HIx.
      * by left.
    + intros e c2 (Hk & Hmay & Hf). split_and!.
      * right. exists v'. split; [done|]. by rewrite (Hsame v v' Hv Hup).
      * intros Ht. rewrite Hk. by apply Hs1.
      * rewrite Hk. apply HI1.
      * destruct Hf as [Hf|Hf]; [by left|right; eauto].
  - intros e c1 (HI1 & Hb1 & Hs1 & _ & r' & Hget & Hup). destruct r' as [|e']; [done|]. simpl in Hup. subst e'. split_and!; try done.
    + left. exists e. by rewrite Hb1.
    + apply HI1.
    + by left.
Qed.

(** A statement that fails without effect keeps the invariant. *)
Lemma on_base_ends (m : M ArtDB unit) (c1 : state) (Q : ArtDB → Prop) (E : ArtDB → Prop) :
  Inv c1 → ends (λ d, d = base c1) m (λ r d, match r with Ok _ => Q d | Err _ => E d end) →
  ends (λ x, x = c1) (on_base m) (λ r x, cache x = cache c1 ∧ may m (base c1) r (base x) ∧
    match r with Ok _ => Q (base x) | Err _ => E (base x) end).
Proof.
  intros HI Hm. eapply ends_conseq; [apply (ends_base m c1)|done|]. intros r x [-> Hmay]. simpl. split; [done|]. split; [done|].
  exact (may_ends _ _ _ _ _ _ Hm eq_refl Hmay).
Qed.

Lemma same_state (c1 x : state) : Inv c1 → cache x = cache c1 → base x = base c1 → Inv x.
Proof. intros HI Hk Hb. unfold Inv. by rewrite Hk, Hb. Qed.

(** The write of an artifact that was read. *)
Lemma art_write_ends tx id (m : ArtifactRefs → M ArtDB unit) (tidy : ArtifactRefs → M state unit) (loose : Prop) c :
  Inv c → (∀ v v', ar_row v = ar_row v' → m v' = m v) →
  (∀ v d, tables_ok d → sees_art d v → a_ID (ar_row v) = id →
     ends (λ x, x = d) (m v) (λ r x, match r with Ok _ => changes_art id d x | Err _ => x = d ∨ loose end)) →
  (∀ v d c, tables_ok d → rows (arts d) !! a_ID (ar_row v) = Some (ar_row v) → changes_art (a_ID (ar_row v)) d (base c) →
     coherent d (store (cache c)) → patient budget (delete_faults (cache c)) →
     ends (λ x, x = c) (tidy v) (λ r x, r = Ok tt ∧ Inv x ∧ base x = base c ∧ shrinks tx c x)) →
  ends (λ x, x = c) (v ← artifact_Get tx id; _ ← on_base (m v); tidy v)
    (λ r x, may_after (artifact_mgr.Get id) m (base c) r (base x) ∧ shrinks tx c x ∧ patient budget (delete_faults (cache x)) ∧
       (Inv x ∨ (∃ e, r = Err e) ∧ loose)).
Proof.
  intros HI Hsame Hm Htidy. pose proof HI as (Ht & _ & _).
  apply (write_ends tx _ same_refs (λ v, sees_art (base c) v ∧ a_ID (ar_row v) = id)); [done|by apply (art_read_ends tx (AId id))| |].
  - intros v v' _ [Hr _]. by apply Hsame.
  - intros v c1 [Hs Hid] HI1 Hb1. pose proof HI1 as (_ & Hc1 & Hp1).
    eapply ends_conseq; [eapply on_base_ends; [exact HI1|rewrite Hb1; by apply Hm]|done|].
    simpl. intros r x (Hk & Hmay & Hr). rewrite Hb1 in Hmay. split; [done|]. split; [done|]. destruct r as [[]|e].
    + apply (Htidy v (base c)); [done|apply Hs|by rewrite Hid|by rewrite Hk, <-Hb1|by rewrite Hk].
    + destruct Hr as [Hr|Hr]; [left|by right]. apply (same_state c1); [done|done|congruence].
Qed.

Lemma repo_write_ends tx id (m : RepoRecord → M ArtDB unit) (tidy : RepoRecord → M state unit) c :
  Inv c →
  (∀ p d, tables_ok d → sees_repo d p → p_RepositoryID p = id →
     ends (λ x, x = d) (m p) (λ r x, match r with Ok _ => changes_repo id d x | Err _ => x = d end)) →
  (∀ p d c, tables_ok d → rows (repos d) !! p_RepositoryID p = Some p → changes_repo (p_RepositoryID p) d (base c) →
     coherent d (store (cache c)) → patient budget (delete_faults (cache c)) →
     ends (λ x, x = c) (tidy p) (λ r x, r = Ok tt ∧ Inv x ∧ base x = base c ∧ shrinks tx c x)) →
  ends (λ x, x = c) (p ← repository_Get tx id; _ ← on_base (m p); tidy p)
    (λ r x, may_after (repo_mgr.Get id) m (base c) r (base x) ∧ shrinks tx c x ∧ patient budget (delete_faults (cache x)) ∧
       (Inv x ∨ (∃ e, r = Err e) ∧ False)).
Proof.
  intros HI Hm Htidy. pose proof HI as (Ht & _ & _).
  apply (write_ends tx _ eq (λ p, sees_repo (base c) p ∧ p_RepositoryID p = id)); [done|by apply (repo_read_ends tx (RId id))|by intros v v' _ ->|].
  intros v c1 [Hs Hid] HI1 Hb1. pose proof HI1 as (_ & Hc1 & Hp1).
  eapply ends_conseq; [eapply on_base_ends; [exact HI1|rewrite Hb1; by apply Hm]|done|].
  simpl. intros r x (Hk & Hmay & Hr). rewrite Hb1 in Hmay. split; [done|]. split; [done|]. destruct r as [[]|e].
  + apply (Htidy v (base c)); [done|apply Hs|by rewrite Hid|by rewrite Hk, <-Hb1|by rewrite Hk].
  + left. apply (same_state c1); [done|done|congruence].
Qed.

Lemma create_ends {A} tx (m : M ArtDB A) (c : state) : Inv c →
  spec (λ x, x = base c) m (λ _, extends (base c)) (extends (base c)) →
  ends (λ x, x = c) (on_base m) (λ r x, may m (base c) r (base x) ∧ shrinks tx c x ∧ patient budget (delete_faults (cache x)) ∧ Inv x).
Proof.
  intros (Ht & Hc & Hp) Hm. eapply ends_conseq; [apply (ends_base m c)|done|]. intros r x [-> Hmay]. simpl in *.
  pose proof (may_ends _ _ _ _ _ _ (ends_spec _ _ _ _ Hm) eq_refl Hmay) as Hext.
  assert (Hext' : extends (base c) (base x)) by (by destruct r). apply extends_stable in Hext' as [Ht' Hst].
  split_and!; [done|by intros _|done|]. split_and!; [done|by eapply coherent_stable|done].
Qed.

Lemma read_op {V} tx (same : V → V → Prop) (get : M ArtDB V) (m : M state V) (sees : V → Prop) c :
  ends (λ x, x = c) m (λ r x, Inv x ∧ base x = base c ∧ shrinks tx c x ∧ (∀ v, r = Ok v → sees v) ∧
    ∃ r', may get (base c) r' (base c) ∧ upto same r r') →
  ends (λ x, x = c) m (λ r x, may_read same get (base c) r (base x) ∧ shrinks tx c x ∧ patient budget (delete_faults (cache x)) ∧ Inv x).
Proof. intros H. eapply ends_conseq; [exact H|done|]. intros r x (HI & Hb & Hs & _ & Hr). split_and!; try done. apply HI. Qed.

Lemma shrinks_weaken tx (m : M state unit) (c : state) :
  ends (λ x, x = c) m (λ r x, r = Ok tt ∧ Inv x ∧ base x = base c ∧ store (cache x) ⊆ store (cache c)) →
  ends (λ x, x = c) m (λ r x, r = Ok tt ∧ Inv x ∧ base x = base c ∧ shrinks tx c x).
Proof. intros H. eapply ends_conseq; [exact H|done|]. intros r x (? & ? & ? & ?). split_and!; try done. by intros _. Qed.

(** Every call is one that the manager without a cache could make. *)
Lemma op_ends tx {B} (o : op B) c : Inv c → fair o →
  ends (λ x, x = c) (cached_op tx o) (λ r x, plain_op o (base c) r (base x) ∧ shrinks tx c x ∧
    patient budget (delete_faults (cache x)) ∧ (¬ halfway o r → Inv x)).
Proof.
  intros HI Hf. pose proof HI as (Ht & _ & _). destruct o; simpl in *.
  - eapply ends_conseq; [eapply read_op, (art_read_ends tx (AId id) c); done|done|]. naive_solver.
  - unfold artifact_GetByDigest. rewrite (proj2 (artifact_keys 0 repository digest)).
    eapply ends_conseq; [eapply read_op, (art_read_ends tx (ADg repository digest) c); done|done|]. naive_solver.
  - eapply ends_conseq; [apply (create_ends tx _ c); [done|by apply artifact_Create_effect]|done|]. naive_solver.
  - eapply ends_conseq; [apply (art_write_ends tx id (λ _, artifact_mgr.Delete id) (λ v, artifact_cleanUp budget (ar_row v)) True c)|done|]; [done|done| | |].
    + intros v d Hd _ _. eapply ends_conseq; [apply ends_spec; by apply artifact_Delete_effect|done|]. intros [] ?; [done|by right].
    + intros. apply shrinks_weaken. by eapply art_cleanUp_ends.
    + intros r x (? & ? & ? & Hx). split_and!; try done. naive_solver.
  - eapply ends_conseq; [apply (art_write_ends tx id (λ v, artifact_mgr.Update (a_ID (ar_row v)) f) (λ v, artifact_cleanUp budget (ar_row v)) False c)|done|];
      [done|by intros v v' ->| | |].
    + intros v d Hd _ <-. eapply ends_conseq; [apply ends_spec; by apply artifact_Update_effect|done|]. intros [] ?; [done|by left].
    + intros. apply shrinks_weaken. by eapply art_cleanUp_ends.
    + intros r x (? & ? & ? & Hx). split_and!; try done. naive_solver.
  - eapply ends_conseq; [apply (art_write_ends tx id (λ _, artifact_mgr.UpdatePullTime id pullTime) (λ v, artifact_refreshCache tx budget (ar_row v)) False c)|done|];
      [done|done| | |].
    + intros v d Hd _ _. eapply ends_conseq; [apply ends_spec; by apply artifact_UpdatePullTime_effect|done|]. intros [] ?; [done|by left].
    + intros. by eapply art_refresh_ends.
    + intros r x (? & ? & ? & Hx). split_and!; try done. naive_solver.
  - eapply ends_conseq; [apply (create_ends tx _ c); [done|by apply DeleteReference_gone]|done|]. naive_solver.
  - eapply ends_conseq; [eapply read_op, (repo_read_ends tx (RId id) c); done|done|]. naive_solver.
  - eapply ends_conseq; [eapply read_op, (repo_read_ends tx (RName name) c); done|done|]. naive_solver.
  - eapply ends_conseq; [apply (create_ends tx _ c); [done|by apply repository_Create_effect]|done|]. naive_solver.
  - eapply ends_conseq; [apply (repo_write_ends tx id (λ _, repo_mgr.Delete id) (λ p, repository_cleanUp budget p) c)|done|]; [done| | |].
    + intros v d Hd _ _. eapply ends_conseq; [apply ends_spec; by apply repository_Delete_effect|done|]. by intros [].
    + intros. apply shrinks_weaken. by eapply repo_cleanUp_ends.
    + intros r x (? & ? & ? & Hx). split_and!; try done. naive_solver.
  - eapply ends_conseq; [apply (repo_write_ends tx id (λ p, repo_mgr.Update (p_RepositoryID p) f) (λ p, repository_cleanUp budget p) c)|done|]; [done| | |].
    + intros v d Hd _ <-. eapply ends_conseq; [apply ends_spec; by apply repository_Update_effect|done|]. by intros [].
    + intros. apply shrinks_weaken. by eapply repo_cleanUp_ends.
    + intros r x (? & ? & ? & Hx). split_and!; try done. naive_solver.
  - eapply ends_conseq; [apply (repo_write_ends tx id (λ _, repo_mgr.AddPullCount id count) (λ p, repository_refreshCache tx budget p) c)|done|]; [done| | |].
    + intros v d Hd _ _. by apply AddPullCount_effect.
    + intros. by eapply repo_refresh_ends.
    + intros r x (? & ? & ? & Hx). split_and!; try done. naive_solver.
Qed.

(** A client is a program that calls the managers and goes on with what they
    answer, errors included. *)
Context {answer : Type}.
Inductive client := Return (r : result answer) | Call {B} (o : op B) (k : result B → client).

Fixpoint run_client (tx : bool) (c : client) : M state answer :=
  match c with
  | Return r => of_result r
  | Call o k => r ← try (cached_op tx o); run_client tx (k r)
  end.

Inductive plain_client : client → ArtDB → result answer → ArtDB → Prop :=
  | plain_return r d : plain_client (Return r) d r d
  | plain_call {B} (o : op B) k d x d1 r d2 : plain_op o d x d1 → plain_client (k x) d1 r d2 → plain_client (Call o k) d r d2.

(** A client whose deletion of an artifact fails gives up, as the transaction is
    lost then. *)
Fixpoint fair_client (c : client) : Prop :=
  match c with
  | Return _ => True
  | Call o k => fair o ∧ (∀ r, halfway o r → ∃ e, k r = Return (Err e)) ∧ ∀ r, fair_client (k r)
  end.

(** Without a transaction artifacts are not deleted. *)
Fixpoint no_deletion (c : client) : Prop :=
  match c with Return _ => True | Call o k => (∀ r, ¬ halfway o r) ∧ ∀ r, no_deletion (k r) end.

Lemma client_ends tx c : ∀ s, Inv s → fair_client c →
  ends (λ x, x = s) (run_client tx c) (λ r x, plain_client c (base s) r (base x) ∧ shrinks tx s x ∧
    patient budget (delete_faults (cache x)) ∧ (no_deletion c ∨ (∃ a, r = Ok a) → Inv x)).
Proof.
  induction c as [r|B o k IH]; intros s HI Hf; simpl in *.
  - apply ends_of_result. intros ? ->. split_and!; [constructor|apply cache_shrinks_refl|apply HI|done].
  - destruct Hf as (Hfo & Hhalf & Hfk). eapply ends_try_bind; [by apply op_ends|]. intros x. apply ends_exact.
    intros s1 (Hop & Hsh & Hpat & HI1).
    assert (Hcase : Inv s1 ∨ halfway o x).
    { destruct o; try solve [left; apply HI1; intros []]. destruct x as [u|e]; [left; apply HI1; intros [? ?]; done|right; simpl; eauto]. }
    destruct Hcase as [HIs|Hh].
    + eapply ends_conseq; [by apply (IH x s1)|done|]. intros r y (Hpl & Hsh2 & Hpat2 & HI2). split_and!; try done.
      * by econstructor.
      * by eapply cache_shrinks_trans.
      * intros [[_ Hno]|Hok]; apply HI2; [by left|by right].
    + destruct (Hhalf x Hh) as (e & He). rewrite He. apply ends_of_result. intros ? ->. split_and!; try done.
      * econstructor; [exact Hop|]. rewrite He. constructor.
      * intros [[Hno _]|[a [=]]]. by destruct (Hno x).
Qed.

(** *** Requests *)

Inductive request := InTx (c : client) | Direct (c : client).

Definition serve (q : request) : M state answer :=
  match q with InTx c => request_tx (run_client true c) | Direct c => run_client false c end.

Fixpoint serve_all (qs : list request) : M state (list (result answer)) :=
  match qs with
  | [] => mret []
  | q :: qs => r ← try (serve q); rs ← serve_all qs; mret (r :: rs)
  end.

Definition fair_request (q : request) : Prop :=
  match q with InTx c => fair_client c | Direct c => fair_client c ∧ no_deletion c end.

(** A request in a transaction succeeds as a whole or changes nothing. *)
Inductive served (d : ArtDB) : request → result answer → ArtDB → Prop :=
  | served_commit c a d' : plain_client c d (Ok a) d' → served d (InTx c) (Ok a) d'
  | served_rollback c e : served d (InTx c) (Err e) d
  | served_direct c r d' : plain_client c d r d' → served d (Direct c) r d'.

Inductive all_served : ArtDB → list request → list (result answer) → ArtDB → Prop :=
  | all_served_nil d : all_served d [] [] d
  | all_served_cons d q qs r rs d1 d2 : served d q r d1 → all_served d1 qs rs d2 → all_served d (q :: qs) (r :: rs) d2.

Lemma query_keeps_db {A} (f : state → result A) w r w' : query f w = (r, w') → db w' = db w.
Proof. intros H. by apply query_cases in H as [-> _]. Qed.

Lemma begin_keeps_db (w : World state) r w' : (_ ← FromContext; query (λ _, Ok tt)) w = (r, w') → db w' = db w.
Proof.
  intros H. apply bind_cases in H as [(e & H & _)|([] & w0 & H0 & H)]; [by apply FromContext_cases in H as [-> _]|].
  apply FromContext_cases in H0 as [-> _]. by apply query_keeps_db in H.
Qed.

Lemma serve_ends q s : Inv s → fair_request q → ends (λ x, x = s) (serve q) (λ r x, served (base s) q r (base x) ∧ Inv x).
Proof.
  intros HI Hf. destruct q as [c|c]; simpl in *.
  - intros w r w' <- H. unfold request_tx in H.
    destruct ((_ ← FromContext; query (λ _, Ok tt)) w) as [[[]|e] w1] eqn:E1; apply begin_keeps_db in E1.
    2: { injection H as <- <-. rewrite E1. split; [constructor|done]. }
    destruct (run_client true c w1) as [x w2] eqn:E2. destruct (query _ w2) as [y w3] eqn:E3. apply query_keeps_db in E3.
    pose proof (client_ends true c (db w) HI Hf w1 x w2 E1 E2) as (Hpl & Hsh & Hpat & HI2). rewrite <-E3 in *. rewrite E1 in H.
    assert (Hback : Inv (set_base (base (db w)) (db w3))).
    { destruct HI as (Ht & Hc & _). split_and!; [done| |done]. by eapply coherent_sub, Hsh. }
    destruct x as [a|e], y as [u2|e2]; injection H as <- <-; simpl; (split; [constructor|]); try done. apply HI2. eauto.
  - destruct Hf as [Hf Hn]. eapply ends_conseq; [by apply (client_ends false c s)|done|]. intros r x (Hpl & _ & _ & HIx).
    split; [by constructor|]. apply HIx. by left.
Qed.

(** C16 (refinement). The cached managers of artifacts and repositories can hardly
    be told from the managers behind them.  A sequence of requests that do not
    overlap, each of them a program that calls the managers, in a transaction or
    directly, gets answers that the managers alone could give from the same
    database, and leaves the database that they would leave; the cache agrees with
    it again.  Answers are equal up to the order of references and to references
    that the requests delete one by one ([gone]): an artifact may still show them
    (see [deleted_reference_served]); without such deletions [gone] is empty.  An
    update of a row overwrites columns of what its request has read, and names have
    no colon.  Artifacts are deleted in transactions, by requests that give up when
    the deletion fails.  Statements, fetches and saves may fail at any time; the
    removal of a key must succeed within the attempts of the retry. *)
Theorem cache_transparent qs w : Inv (db w) → Forall fair_request qs →
  ∃ rs w', serve_all qs w = (Ok rs, w') ∧ all_served (base (db w)) qs rs (base (db w')) ∧
    coherent (base (db w')) (store (cache (db w'))).
Proof.
  intros HI Hf. revert w HI. induction Hf as [|q qs Hq _ IH]; intros w HI; simpl.
  - exists [], w. split_and!; [done|constructor|apply HI].
  - destruct (serve q w) as [r w1] eqn:E. destruct (serve_ends q (db w) HI Hq w r w1 eq_refl E) as [Hs HI1].
    destruct (IH w1 HI1) as (rs & w' & H & Hall & Hc). exists (r :: rs), w'. split_and!; [|by econstructor|done].
    unfold mbind, M_bind, try. rewrite E. unfold mbind, M_bind in H. by rewrite H.
Qed.
End coherence.

(** ** A run *)

Definition entry : Type := ArtifactRefs + RepoRecord.
#[local] Instance art_entry : Codec entry ArtifactRefs :=
  {| Encode v := Ok (inl v); Decode x := match x with inl v => Ok v | inr _ => Err ErrNotFound end |}.
#[local] Instance repo_entry : Codec entry RepoRecord :=
  {| Encode p := Ok (inr p); Decode x := match x with inr p => Ok p | inl _ => Err ErrNotFound end |}.

Lemma art_entry_reads (v : ArtifactRefs) (x : entry) : Encode v = Ok x → Decode x = Ok v.
Proof. simpl. by intros [= <-]. Qed.
Lemma repo_entry_reads (p : RepoRecord) (x : entry) : Encode p = Ok x → Decode x = Ok p.
Proof. simpl. by intros [= <-]. Qed.

Definition no_rows : ArtDB := ArtifactSpec.initial ArtifactSpec.ex_blobs.
(** The first removal of a key fails once. *)
Definition cold : Cached entry ArtDB := mkCached no_rows (mkCache ∅ [] [] [Some ErrNotFound] []).

Definition app : Artifact :=
  mkArtifact 0 "IMAGE" "m" "application/vnd.oci.image.manifest.v1+json" 1 1 "library/app" "sha256:1" 10 EmptyString 0 None EmptyString EmptyString.

(** An index of the image, the first reference. *)
Definition app_index : ArtifactRefs := mkArtifactRefs
  (mkArtifact 0 "IMAGE" "m" "application/vnd.oci.image.index.v1+json" 1 1 "library/app" "sha256:2" 10 EmptyString 0 None EmptyString EmptyString)
  [mkReference 0 0 1 "sha256:1" EmptyString EmptyString EmptyString].

Lemma cold_ok : Inv (λ _, 1) 2 (λ i, i = 1) cold.
Proof.
  split; [split; [apply empty_ok|by intros ? ?|done|apply empty_ok]|]. split; [by intros i x _ H|].
  split.
  - intros e He. apply list_elem_of_singleton in He as [= ->]. done.
  - intros l [k Hk]. destruct k as [|? [|? k]]; simplify_eq/=; [exists 1%nat|exists 0%nat]; (split; [lia|by left]).
Qed.

(** Create, read twice, read the pull time that was just written; create an index,
    read it, delete its reference, which is still shown; delete the image, read. *)
Definition pull_time (r : result ArtifactRefs) : client :=
  Return (match r with Ok v => Ok (a_PullTime (ar_row v)) | Err e => Err e end).
Definition done_with {B} (r : result B) : @client (option Z) := Return (match r with Ok _ => Ok None | Err e => Err e end).
Definition references (r : result ArtifactRefs) : client :=
  Return (match r with Ok v => Ok (Some (Z.of_nat (length (ar_References v)))) | Err e => Err e end).
Definition day : list (@request (option Z)) :=
  [InTx (Call (ArtCreate (mkArtifactRefs app [])) done_with);
   Direct (Call (ArtGet 1) pull_time);
   Direct (Call (ArtUpdatePullTime 1 7) done_with);
   Direct (Call (ArtGetByDigest "library/app" "sha256:1") pull_time);
   InTx (Call (ArtCreate app_index) done_with);
   Direct (Call (ArtGet 2) references);
   InTx (Call (ArtDeleteReference 1) done_with);
   Direct (Call (ArtGet 2) references);
   InTx (Call (ArtDelete 1) done_with);
   Direct (Call (ArtGet 1) pull_time)].

Lemma cache_transparent_witness : ∃ rs w',
  serve_all 2 day (mkWorld cold true []) = (Ok rs, w') ∧ all_served (λ i, i = 1) no_rows day rs (base (db w')) ∧
  take 8 rs = [Ok None; Ok None; Ok None; Ok (Some 7); Ok None; Ok (Some 1); Ok None; Ok (Some 1)] ∧ (∃ e, last rs = Some (Err e) ∧ IsNotFoundErr e = true).
Proof.
  destruct (cache_transparent (λ _, 1) 2 (λ i, i = 1) art_entry_reads repo_entry_reads day (mkWorld cold true []) cold_ok)
    as (rs & w' & E & Hall & _).
  - repeat (apply Forall_cons; split); [..|by apply Forall_nil].
    all: simpl; repeat split; try done; try (by intros ? []); intros r; try (by intros [e ->]; exists e).
  - exists rs, w'. split; [exact E|]. split; [exact Hall|]. vm_compute in E. injection E as <- _. split; [reflexivity|]. eexists. split; reflexivity.
Defined.

(** ** Where the caches go wrong *)

#[local] Instance meta_entry : Codec (gmap string string) (gmap string string) := {| Encode := Ok; Decode := Ok |}.
Definition warm : Cached (gmap string string) ProjectStore.ProjDB := mkCached ProjectSpec.initial (mkCache ∅ [] [] [] []).
Definition answer_of {D A} (m : M D A) (d : D) : option A := match (m (mkWorld d true [])).1 with Ok a => Some a | Err _ => None end.

(** Deleting one attribute leaves the entry with all of them, so that a read of all
    of them still shows it. *)
Example deleted_metadata_served :
  answer_of (_ ← meta_Get false 1 []; _ ← meta_Delete 2 1 ["public"%string]; meta_Get false 1 []) warm = Some {["public"%string := "true"%string]} ∧
  answer_of (_ ← meta_Delete 2 1 ["public"%string]; meta_Get false 1 []) warm = Some ∅.
Proof. split; vm_compute; reflexivity. Qed.

(** Adding an attribute leaves the entries of reads that asked for it by name. *)
Example added_metadata_missing :
  answer_of (_ ← meta_Get false 1 ["public"; "severity"]%string; _ ← meta_Add 2 1 {["severity"%string := "high"%string]};
             meta_Get false 1 ["public"; "severity"]%string) warm = Some {["public"%string := "true"%string]} ∧
  answer_of (_ ← meta_Add 2 1 {["severity"%string := "high"%string]}; meta_Get false 1 ["public"; "severity"]%string) warm =
    Some {["public"%string := "true"%string; "severity"%string := "high"%string]}.
Proof. split; vm_compute; reflexivity. Qed.

(** A reference that is deleted stays in the artifact that was read before. *)
Definition warm_art : Cached entry ArtDB := mkCached ArtifactSpec.ex_db (mkCache ∅ [] [] [] []).
Example deleted_reference_served :
  (λ v, length (ar_References v)) <$> answer_of (_ ← artifact_Get false 3; _ ← artifact_DeleteReference 1; artifact_Get false 3) warm_art = Some 2%nat ∧
  (λ v, length (ar_References v)) <$> answer_of (_ ← artifact_DeleteReference 1; artifact_Get false 3) warm_art = Some 1%nat.
Proof. split; vm_compute; reflexivity. Qed.

(** A read that found nothing in the cache saves what it read before the update of
    another request: the old row is served from then on. *)
Example overtaken_read_saved :
  a_PullTime ∘ ar_row <$>
    answer_of (v ← on_base (artifact_mgr.Get 1); _ ← artifact_UpdatePullTime false 2 1 7;
               _ ← client_Save false (ikey (AId 1)) v; artifact_Get false 1) warm_art = Some None ∧
  a_PullTime ∘ ar_row <$> answer_of (_ ← artifact_UpdatePullTime false 2 1 7; artifact_Get false 1) warm_art = Some (Some 7).
Proof. split; vm_compute; reflexivity. Qed.
