(* ===== verification/Preheat.v ===== *)
(** * Preheating: policies, filters, providers and the enforcer

    [src/pkg/p2p/preheat] (models, daos, managers, filter, drivers and the job),
    [src/controller/p2p/preheat] (controller and enforcer) and the event handler
    [src/controller/event/handler/p2p].  A policy selects images of a project by
    filters and sends them to the network of a provider.  The stores of artifacts,
    projects, scans and tasks are those of the other files.  JSON texts, the HTTP
    exchange with a provider, URLs and the tokens are parameters; a filter that is
    null in the JSON, on which the code panics, is not modelled. *)

From S2P Require Import Prelude GoErrors GoStrings Orm Table Hoare JobStatus TaskStore Scheduler.
From S2P Require Import Security Retention ArtifactStore ArtifactCtl VulnReport ScanStore ScanCtl.
From S2P Require ProjectStore RobotStore Encrypt.
From Stdlib Require Import Ascii.
Open Scope Z_scope.
Local Open Scope harbor_scope.

(** ** Models *)

(** What [json.Unmarshal] puts into an [interface{}], and [int].  Of a number only the
    conversion to [int] is used. *)
Inductive value := VNil | VString (s : string) | VBool (b : bool) | VInt (n : Z) | VFloat (n : Z) | VList (l : list value) | VMap.

(** [reflect.TypeOf(v).Name()]: a slice or a map has no name. *)
Definition type_name (v : value) : string :=
  match v with
  | VString _ => "string" | VBool _ => "bool" | VInt _ => "int" | VFloat _ => "float64" | VNil | VList _ | VMap => ""
  end.

Record Filter := mkFilter { fl_Type : string; fl_Value : value }.
Record Trigger := mkTrigger { tg_Type : string; tg_Cron : string }.

Definition FilterTypeRepository : string := "repository".
Definition FilterTypeTag : string := "tag".
Definition FilterTypeSignature : string := "signature".
Definition FilterTypeVulnerability : string := "vulnerability".
Definition FilterTypeLabel : string := "label".
Definition TriggerTypeManual : string := "manual".
Definition TriggerTypeScheduled : string := "scheduled".
Definition TriggerTypeEventBased : string := "event_based".

(** The columns of [p2p_preheat_policy], and the schema with what they decode to. *)
Record PolicyRow := mkPolicyRow {
  pp_ID : Z; pp_Name : string; pp_Description : string; pp_ProjectID : Z; pp_ProviderID : Z;
  pp_FiltersStr : string; pp_TriggerStr : string; pp_Enabled : bool; pp_CreatedAt : Z; pp_UpdatedTime : Z }.
Record Schema := mkSchema { sc_Row : PolicyRow; sc_Filters : list Filter; sc_Trigger : option Trigger }.

(** [provider.Instance]; [in_AuthInfo] and [in_Status] have no column, [in_AuthData] is
    not in the JSON. *)
Record Instance_ := mkInstance {
  in_ID : Z; in_Name : string; in_Description : string; in_Vendor : string; in_Endpoint : string; in_AuthMode : string;
  in_AuthInfo : option (gmap string string); in_AuthData : string; in_Status : string; in_Enabled : bool;
  in_Default : bool; in_Insecure : bool; in_SetupTimestamp : Z }.

Record PreheatImage := mkPreheatImage {
  pi_Type : string; pi_URL : string; pi_Headers : list (string * string); pi_ImageName : string; pi_Tag : string;
  pi_Digest : string }.

(** What the parameters are: the JSON of filters, triggers, images and instances, the
    attributes of executions and tasks, the parser of URLs. *)
Class PreheatConfig := mkPreheatConfig {
  unmarshal_filters : string → result (list Filter);
  marshal_filters : list Filter → string;
  unmarshal_trigger : string → result Trigger;
  marshal_trigger : Trigger → string;
  marshal_image : PreheatImage → result string;
  unmarshal_image : string → result PreheatImage;
  marshal_instance : Instance_ → result string;
  unmarshal_instance : string → result Instance_;
  marshal_auth : gmap string string → string;
  unmarshal_auth : string → result (gmap string string);
  attrs_json : list (string * value) → string;
  url_Parse : string → result unit;
  ExtEndpoint : result string;
  registry_token : string → result string;         (* a token to pull a repository *)
  preheat_cron : string → bool;
  trigger_param : Z → string;                      (* the JSON of [TriggerParam] *)
  param_of : string → result Z;
}.

Section models.
Context `{PreheatConfig}.

Definition missing (what : string) : error := New ("missing " +:+ what +:+ " in preheat policy schema").

(** [strconv.ParseInt(s, 10, 32)] *)
Definition ParseInt32 (s : string) : result Z :=
  match ParseInt s with
  | Some n => if (- 2 ^ 31 <=? n) && (n <? 2 ^ 31) then Ok n else Err (PlainError "value out of range")
  | None => Err (PlainError "invalid syntax")
  end.

Definition convert_value (f : Filter) : result Filter :=
  if fl_Type f == FilterTypeVulnerability
  then match fl_Value f with
       | VString s =>
           match ParseInt32 s with
           | Ok sev => Ok (mkFilter (fl_Type f) (VInt sev))
           | Err e => Err (default e (Wrap (Some e) "parse filters"))
           end
       | VFloat n => Ok (mkFilter (fl_Type f) (VInt n))
       | _ => Ok f
       end
  else Ok f.

Fixpoint convert_values (l : list Filter) : result (list Filter) :=
  match l with
  | [] => Ok []
  | f :: l =>
      match convert_value f with
      | Err e => Err e
      | Ok f => match convert_values l with Ok l => Ok (f :: l) | Err e => Err e end
      end
  end.

Definition decodeFilters (filterStr : string) : result (list Filter) :=
  if filterStr == "" then Err (missing "filters")
  else match unmarshal_filters filterStr with Err e => Err e | Ok fs => convert_values fs end.

Definition decodeTrigger (triggerStr : string) : result Trigger :=
  if triggerStr == "" then Err (missing "trigger settings") else unmarshal_trigger triggerStr.

Definition Decode (r : PolicyRow) : result Schema :=
  match decodeFilters (pp_FiltersStr r) with
  | Err e => Err e
  | Ok fs => match decodeTrigger (pp_TriggerStr r) with Err e => Err e | Ok t => Ok (mkSchema r fs (Some t)) end
  end.

(** [Encode]; a slice that is nil is not marshalled, but [Decode] never leaves one. *)
Definition Encode (s : Schema) : PolicyRow :=
  let r := sc_Row s in
  mkPolicyRow (pp_ID r) (pp_Name r) (pp_Description r) (pp_ProjectID r) (pp_ProviderID r) (marshal_filters (sc_Filters s))
    (match sc_Trigger s with Some t => marshal_trigger t | None => pp_TriggerStr r end)
    (pp_Enabled r) (pp_CreatedAt r) (pp_UpdatedTime r).

Definition is_string (v : value) : bool := match v with VString _ => true | _ => false end.

(** The errors that [Valid] sets, key and text. *)
Definition filter_errors (f : Filter) : list (string * string) :=
  if bool_decide (fl_Type f ∈ [FilterTypeRepository; FilterTypeTag; FilterTypeVulnerability])
  then match fl_Value f with VString _ => [] | _ => [("filters", "the type of filter value isn't string")] end
  else if fl_Type f == FilterTypeSignature
  then match fl_Value f with VBool _ => [] | _ => [("filers", "the type of signature filter value isn't bool")] end
  else if fl_Type f == FilterTypeLabel
  then match fl_Value f with
       | VList l => if forallb is_string l then [] else [("filters", "the type of label filter value isn't string slice")]
       | _ => [("filters", "the type of label filter value isn't string slice")]
       end
  else [("filters", "invalid filter type")].

Definition trigger_errors (t : Trigger) : list (string * string) :=
  if bool_decide (tg_Type t ∈ [TriggerTypeManual; TriggerTypeEventBased]) then []
  else if tg_Type t == TriggerTypeScheduled
  then if tg_Cron t == "" then [("trigger", "the cron string cannot be empty when the trigger type is scheduled")]
       else if preheat_cron (tg_Cron t) then []
       else [("trigger", "invalid cron string for scheduled trigger: " +:+ tg_Cron t)]
  else [("trigger", "invalid trigger type")].

Definition Valid (s : Schema) : list (string * string) :=
  (if pp_Name (sc_Row s) == "" then [("name", "cannot be empty")] else [])
  ++ mjoin (filter_errors <$> sc_Filters s)
  ++ match sc_Trigger s with Some t => trigger_errors t | None => [] end.

End models.

(** ** Stores *)

(** The state: tasks and schedules are those of [SchedDB], the rest is here. *)
Record PreRest := mkPreRest {
  x_art : ArtDB; x_rob : RobotStore.RobotDB; x_scan : ScanDB; x_uuids : nat;
  x_policies : table PolicyRow; x_instances : table Instance_ }.
Definition set_x_policies (t : table PolicyRow) (x : PreRest) : PreRest :=
  mkPreRest (x_art x) (x_rob x) (x_scan x) (x_uuids x) t (x_instances x).
Definition set_x_instances (t : table Instance_) (x : PreRest) : PreRest :=
  mkPreRest (x_art x) (x_rob x) (x_scan x) (x_uuids x) (x_policies x) t.
Notation PreDB := (SchedDB PreRest).
Notation MP := (M PreDB).

(** The part the controllers of artifacts, projects and scans work on. *)
Definition harbor_of (d : PreDB) : HarborDB :=
  mkHarborDB (x_art (rest d)) (x_rob (rest d)) (x_scan (rest d)) (tdb d) (x_uuids (rest d)).
Definition set_harbor (h : HarborDB) (d : PreDB) : PreDB :=
  mkSchedDB (htask h) (schedules d)
    (mkPreRest (hart h) (hrob h) (hscan h) (uuids h) (x_policies (rest d)) (x_instances (rest d))).
Definition on_harbor {A} (m : M HarborDB A) : MP A := zoom harbor_of set_harbor m.

Definition duplicate : error := PgError "23505" "duplicate key value violates unique constraint".

(** [src/pkg/p2p/preheat/dao/policy/dao.go] *)
Module policy_dao.

Definition with_id (id : Z) (r : PolicyRow) : PolicyRow :=
  mkPolicyRow id (pp_Name r) (pp_Description r) (pp_ProjectID r) (pp_ProviderID r) (pp_FiltersStr r) (pp_TriggerStr r)
    (pp_Enabled r) (pp_CreatedAt r) (pp_UpdatedTime r).

Definition not_found (id : Z) : string := "policy " +:+ pretty id +:+ " not found".

(** Names are unique in a project. *)
Definition same_name (r s : PolicyRow) : Prop := pp_Name s = pp_Name r ∧ pp_ProjectID s = pp_ProjectID r.

Definition Count (P : PolicyRow → Prop) `{!∀ r, Decision (P r)} : M PreRest Z :=
  _ ← FromContext; query (λ d, Ok (Z.of_nat (length (select P (x_policies d))))).

Definition Create (r : PolicyRow) : M PreRest Z :=
  _ ← FromContext;
  x ← try (stmt (λ d, let t := x_policies d in
        if decide (select (λ y, pp_Name y = pp_Name r ∧ pp_ProjectID y = pp_ProjectID r) t = [])
        then (Ok (next t), set_x_policies (add_row (λ id, with_id id r) t) d)
        else (Err duplicate, d)));
  match x with
  | Ok id => mret id
  | Err e => fail (default e (AsConflictError e ("policy " +:+ pp_Name r +:+ " already exists")))
  end.

(** [only_trigger] is the only column a caller names. *)
Definition Update (r : PolicyRow) (only_trigger : bool) : M PreRest unit :=
  affect (λ d, let t := x_policies d in
    match rows t !! pp_ID r with
    | None => None
    | Some y =>
        let r' := if only_trigger
                  then mkPolicyRow (pp_ID y) (pp_Name y) (pp_Description y) (pp_ProjectID y) (pp_ProviderID y)
                         (pp_FiltersStr y) (pp_TriggerStr r) (pp_Enabled y) (pp_CreatedAt y) (pp_UpdatedTime y)
                  else r in
        if decide (select (λ z, pp_Name z = pp_Name r' ∧ pp_ProjectID z = pp_ProjectID r' ∧ pp_ID z ≠ pp_ID r) t = [])
        then Some (Ok (set_x_policies (put_row (pp_ID r) r' t) d)) else Some (Err duplicate)
    end) (not_found (pp_ID r)) (λ e, e).

Definition Get (id : Z) : M PreRest PolicyRow := Read (λ d, rows (x_policies d) !! id) (not_found id).

Definition GetByName (projectID : Z) (name : string) : M PreRest PolicyRow :=
  Read (λ d, head (select (λ r, pp_Name r = name ∧ pp_ProjectID r = projectID) (x_policies d)))
    ("policy " +:+ name +:+ " not found").

Definition Delete (id : Z) : M PreRest unit :=
  affect (λ d, match rows (x_policies d) !! id with
               | Some _ => Some (Ok (set_x_policies (del_row id (x_policies d)) d))
               | None => None
               end) (not_found id) (λ e, e).

Definition List_ (P : PolicyRow → Prop) `{!∀ r, Decision (P r)} : M PreRest (list PolicyRow) :=
  _ ← FromContext; query (λ d, Ok (select P (x_policies d))).

End policy_dao.

(** [src/pkg/p2p/preheat/policy/manager.go] *)
Module policy_mgr.
Section mgr.
Context `{PreheatConfig}.

Definition Create (s : Schema) : M PreRest Z := policy_dao.Create (sc_Row s).
Definition Update (s : Schema) (only_trigger : bool) : M PreRest unit := policy_dao.Update (sc_Row s) only_trigger.
Definition Get (id : Z) : M PreRest Schema := r ← policy_dao.Get id; of_result (Decode r).
Definition GetByName (projectID : Z) (name : string) : M PreRest Schema :=
  r ← policy_dao.GetByName projectID name; of_result (Decode r).
Definition Delete (id : Z) : M PreRest unit := policy_dao.Delete id.

Fixpoint decode_all (l : list PolicyRow) : result (list Schema) :=
  match l with
  | [] => Ok []
  | r :: l =>
      match Decode r with
      | Err e => Err e
      | Ok s => match decode_all l with Ok ss => Ok (s :: ss) | Err e => Err e end
      end
  end.

Definition ListPolicies (P : PolicyRow → Prop) `{!∀ r, Decision (P r)} : M PreRest (list Schema) :=
  l ← policy_dao.List_ P; of_result (decode_all l).

Definition ListPoliciesByProject (project : Z) : M PreRest (list Schema) := ListPolicies (λ r, pp_ProjectID r = project).

End mgr.
End policy_mgr.

(** [src/pkg/p2p/preheat/dao/instance/dao.go]; the manager only forwards. *)
Module instance_dao.

(** What a row keeps of an instance. *)
Definition stored (id : Z) (i : Instance_) : Instance_ :=
  mkInstance id (in_Name i) (in_Description i) (in_Vendor i) (in_Endpoint i) (in_AuthMode i) None (in_AuthData i)
    EmptyString (in_Enabled i) (in_Default i) (in_Insecure i) (in_SetupTimestamp i).

Definition Create (i : Instance_) : M PreRest Z :=
  _ ← FromContext;
  x ← try (stmt (λ d, let t := x_instances d in
        if decide (select (λ y, in_Name y = in_Name i) t = [])
        then (Ok (next t), set_x_instances (add_row (λ id, stored id i) t) d)
        else (Err duplicate, d)));
  match x with
  | Ok id => mret id
  | Err e => fail (default e (AsConflictError e ("instance " +:+ in_Name i +:+ " already exists")))
  end.

Definition Get (id : Z) : M PreRest Instance_ :=
  Read (λ d, rows (x_instances d) !! id) ("instance " +:+ pretty id +:+ " not found").

Definition GetByName (name : string) : M PreRest Instance_ :=
  Read (λ d, head (select (λ i, in_Name i = name) (x_instances d))) ("instance " +:+ name +:+ " not found").

Definition not_default (i : Instance_) : Instance_ :=
  mkInstance (in_ID i) (in_Name i) (in_Description i) (in_Vendor i) (in_Endpoint i) (in_AuthMode i) (in_AuthInfo i)
    (in_AuthData i) (in_Status i) (in_Enabled i) false (in_Insecure i) (in_SetupTimestamp i).

(** The callers name no columns; a row that is missing is not an error. *)
Definition Update (i : Instance_) : M PreRest unit :=
  WithTransaction (
    _ ← FromContext;
    _ ← (if in_Default i
         then stmt (λ d, (Ok tt, set_x_instances (mkTable
                (map_imap (λ k y, Some (if decide (k = in_ID i) then y else not_default y)) (rows (x_instances d)))
                (seq (x_instances d))) d))
         else mret tt);
    stmt (λ d, let t := x_instances d in
      match rows t !! in_ID i with
      | None => (Ok tt, d)
      | Some _ =>
          if decide (select (λ z, in_Name z = in_Name i ∧ in_ID z ≠ in_ID i) t = [])
          then (Ok tt, set_x_instances (put_row (in_ID i) (stored (in_ID i) i) t) d) else (Err duplicate, d)
      end)).

Definition Delete (id : Z) : M PreRest unit :=
  _ ← FromContext; stmt (λ d, (Ok tt, set_x_instances (del_row id (x_instances d)) d)).

Definition Count (P : Instance_ → Prop) `{!∀ i, Decision (P i)} : M PreRest Z :=
  _ ← FromContext; query (λ d, Ok (Z.of_nat (length (select P (x_instances d))))).

Definition List_ (P : Instance_ → Prop) `{!∀ i, Decision (P i)} : M PreRest (list Instance_) :=
  _ ← FromContext; query (λ d, Ok (select P (x_instances d))).

End instance_dao.

(** ** The filter of a policy: [src/pkg/p2p/preheat/policy/filter.go] *)

Definition filterOrder (t : string) : nat :=
  if t == FilterTypeRepository then 0
  else if t == FilterTypeTag then 1
  else if t == FilterTypeLabel then 2
  else if t == FilterTypeSignature then 3
  else if t == FilterTypeVulnerability then 4
  else 5.

(** [sort.SliceStable] by the order of the types *)
Fixpoint insert_filter (f : Filter) (l : list Filter) : list Filter :=
  match l with
  | [] => [f]
  | g :: l' => if (filterOrder (fl_Type g) <? filterOrder (fl_Type f))%nat then g :: insert_filter f l' else f :: l
  end.
Definition sort_filters (l : list Filter) : list Filter := foldr insert_filter [] l.

Definition invalid_format (what : string) (f : Filter) : error :=
  New ("invalid " +:+ what +:+ " pattern format(" +:+ type_name (fl_Value f) +:+ ") for filter: " +:+ fl_Type f).

(** The selector packages' constructors; [uint] wraps a negative severity. *)
Definition label_New (decoration labelText : string) : Selector :=
  LabelSelector decoration (if labelText == "" then [] else Split labelText ","%char).
Definition severity_New (decoration : string) (sev : Z) : Selector := SeveritySelector decoration (sev mod 2 ^ 64).

Definition buildFilter (f : Filter) : result Selector :=
  let t := fl_Type f in
  match fl_Value f with
  | VNil => Err (New ("pattern value is missing for filter: " +:+ t))
  | v =>
      if bool_decide (t ∈ [FilterTypeRepository; FilterTypeTag; FilterTypeLabel])
      then match v with
           | VString s =>
               Ok (if t == FilterTypeRepository then doublestar_New "repoMatches" s None
                   else if t == FilterTypeTag then doublestar_New "matches" s None
                   else label_New "withLabels" s)
           | _ => Err (invalid_format "string" f)
           end
      else if t == FilterTypeSignature
      then match v with VBool b => Ok (SignatureSelector "all" b) | _ => Err (invalid_format "boolean" f) end
      else if t == FilterTypeVulnerability
      then match v with VInt n => Ok (severity_New "lt" n) | _ => Err (invalid_format "integer" f) end
      else Err (New ("unknown filter type: " +:+ t))
  end.

(** The selectors that were built, and the error of the first filter that was not. *)
Fixpoint build_selectors (l : list Filter) (selectors : list Selector) : list Selector * option error :=
  match l with
  | [] => (selectors, None)
  | f :: l =>
      match buildFilter f with
      | Ok sl => build_selectors l (selectors ++ [sl])
      | Err e => (selectors, Some (default e (Wrap (Some e) "build filter error")))
      end
  end.
Definition BuildFrom (filters : list Filter) : list Selector * option error :=
  build_selectors (sort_filters filters) [].

Section filter.
Context (doublestar_Match : string → string → result bool).

Fixpoint do_filters (l : list Selector) (filtered : list Candidate) : result (list Candidate) :=
  match l with
  | [] => Ok filtered
  | sl :: l =>
      match Select doublestar_Match sl filtered with
      | Err e => Err (default e (Wrap (Some e) "do filter error"))
      | Ok [] => Ok []
      | Ok filtered => do_filters l filtered
      end
  end.

Definition Filter_ (df : list Selector * option error) (candidates : list Candidate) : result (list Candidate) :=
  match df with
  | ([], _) => Err (New "no underlying filters")
  | (_, Some e) => Err e
  | (selectors, None) => do_filters selectors candidates
  end.

End filter.

(** ** Providers: [src/pkg/p2p/preheat/provider] *)

Definition DriverStatusHealthy : string := "Healthy".
Definition PreheatingStatusPending : string := "PENDING".
Definition PreheatingStatusRunning : string := "RUNNING".
Definition PreheatingStatusSuccess : string := "SUCCESS".
Definition PreheatingStatusFail : string := "FAIL".

Definition AuthModeNone : string := "NONE".
Definition AuthModeBasic : string := "BASIC".
Definition AuthModeOAuth : string := "OAUTH".
Definition AuthModeCustom : string := "CUSTOM".

(** The headers that [Authorize] of a handler sets: [auth/*_handler.go].  The first key
    of a map is some key of it. *)
Definition base_Authorize (data : option (gmap string string)) : result (gmap string string) :=
  match data with None => Err (New "no credential data provided") | Some m => Ok m end.
Definition first_entry (m : gmap string string) : option (string * string) := head (map_to_list m).

Definition Authorize (mode : string) (data : option (gmap string string)) : result (list (string * string)) :=
  if mode == AuthModeNone then Ok []
  else if mode == AuthModeBasic
  then match base_Authorize data with
       | Err e => Err e
       | Ok m =>
           match first_entry m with
           | None => Err (New "missing username and/or password")
           | Some (key, v) => Ok [("Authorization"%string, "Basic " +:+ Encrypt.Base64.EncodeToString (key +:+ ":" +:+ v))]
           end
       end
  else if mode == AuthModeCustom
  then match base_Authorize data with
       | Err e => Err e
       | Ok m => match first_entry m with None => Err (New "missing custom token/key data") | Some kv => Ok [kv] end
       end
  else if mode == AuthModeOAuth
  then match base_Authorize data with
       | Err e => Err e
       | Ok m =>
           match m !! "token"%string with
           | None => Err (New "missing OAuth token")
           | Some t => Ok [("Authorization"%string, "Bearer " +:+ t)]
           end
       end
  else Err (PlainError ("no auth handler registered for mode: " +:+ mode)).

Record HttpRequest := mkHttpRequest {
  hr_Method : string; hr_Insecure : bool; hr_URL : string; hr_Headers : list (string * string); hr_Body : string }.

Record PreheatingStatus := mkPreheatingStatus { ps_TaskID : string; ps_Status : string; ps_StartTime : string; ps_FinishTime : string }.
Record DragonflyInfo := mkDragonflyInfo { df_StartTime : string; df_FinishTime : string; df_ErrorMsg : string; df_Status : string }.

(** A driver, by what its calls return. *)
Record Driver := mkDriver {
  GetHealth : result string;
  d_Preheat : PreheatImage → result PreheatingStatus;
  CheckProgress : string → result PreheatingStatus }.

Section drivers.
Context `{PreheatConfig} `{ScanConfig}.
(** The exchange, the replies of Dragonfly, and the event of Kraken with its identifier. *)
Context (Do : HttpRequest → result (Z * string)).
Context (created_of : string → result string) (info_of : string → result DragonflyInfo).
Context (event_id now_text : string) (event_json : string → PreheatImage → string).

(** [src/pkg/p2p/preheat/provider/client/http_client.go] *)
Definition send (method : string) (insecure : bool) (url : string) (mode : string) (data : option (gmap string string))
    (body : string) : result (Z * string) :=
  if url == "" then Err (New "empty url")
  else match Authorize mode data with
       | Err e => Err e
       | Ok headers =>
           match Do (mkHttpRequest method insecure url headers body) with
           | Err e => Err e
           | Ok (code, bytes) =>
               if code / 100 =? 2 then Ok (code, bytes)
               else Err (New (method +:+ " " +:+ url +:+ " error: " +:+ pretty code +:+ " " +:+ bytes))
           end
       end.
Definition http_get (i : Instance_) (url : string) : result string :=
  match send "GET" (in_Insecure i) url (in_AuthMode i) (in_AuthInfo i) EmptyString with
  | Ok (_, bytes) => Ok bytes | Err e => Err e end.

(** The body, and whether the status is [StatusAlreadyReported]. *)
Definition http_post (i : Instance_) (url body : string) : result (string * bool) :=
  match send "POST" (in_Insecure i) url (in_AuthMode i) (in_AuthInfo i) body with
  | Ok (code, bytes) => Ok (bytes, code =? 208) | Err e => Err e end.

Definition TrimSuffix_slash (s : string) : string :=
  if HasSuffix s "/" then String.substring 0 (String.length s - 1) s else s.

(** [GetHealth] of both drivers *)
Definition driver_GetHealth (path : string) (i : Instance_) : result string :=
  match ValidateHTTPURL (TrimSuffix_slash (in_Endpoint i) +:+ path) with
  | Err e => Err e
  | Ok url => match http_get i url with Err e => Err e | Ok _ => Ok DriverStatusHealthy end
  end.

(** [dragonfly.go] *)
Definition dragonfly_Preheat (i : Instance_) (img : PreheatImage) : result PreheatingStatus :=
  match marshal_image img with
  | Err e => Err (PlainError ("only JSON data supported: " +:+ error_string e))
  | Ok body =>
      match http_post i (TrimSuffix_slash (in_Endpoint i) +:+ "/preheats") body with
      | Err e => Err e
      | Ok (bytes, reported) =>
          match created_of bytes with
          | Err e => Err e
          | Ok id => Ok (mkPreheatingStatus id (if reported : bool then PreheatingStatusSuccess else PreheatingStatusPending)
                           EmptyString EmptyString)
          end
      end
  end.

Definition getProgressStatus (i : Instance_) (taskID : string) : result DragonflyInfo :=
  if taskID == "" then Err (New "no task ID")
  else match http_get i (TrimSuffix_slash (in_Endpoint i) +:+ "/preheats/" +:+ taskID) with
       | Err e => Err e
       | Ok bytes => info_of bytes
       end.

(** [strings.Index] and [strings.LastIndex] *)
Fixpoint Index (s sub : string) : option nat :=
  if HasPrefix s sub then Some 0%nat
  else match s with EmptyString => None | String _ s => S <$> Index s sub end.
Fixpoint LastIndex (s sub : string) : option nat :=
  match s with
  | EmptyString => if HasPrefix s sub then Some 0%nat else None
  | String _ s' => match LastIndex s' sub with
                   | Some n => Some (S n)
                   | None => if HasPrefix s sub then Some 0%nat else None
                   end
  end.

Definition task_exists : string := "preheat task already exists, id:".
Definition quote_brace : string := String (ascii_of_N 34) "}".
Definition getTaskExistedFromErrMsg (msg : string) : result string :=
  let begin := match Index msg task_exists with Some n => Z.of_nat n + 32 | None => 31 end in
  let fin := match LastIndex msg quote_brace with Some n => Z.of_nat n | None => -1 end in
  if fin - begin <=? 0 then Err (New ("can't find existed task id by error msg:" +:+ msg))
  else Ok (String.substring (Z.to_nat begin) (Z.to_nat (fin - begin)) msg).

Definition dragonfly_CheckProgress (i : Instance_) (taskID : string) : result PreheatingStatus :=
  match getProgressStatus i taskID with
  | Err e => Err e
  | Ok status =>
      match
        match Index (df_ErrorMsg status) task_exists with
        | None => Ok (taskID, status)
        | Some _ =>
            match getTaskExistedFromErrMsg (df_ErrorMsg status) with
            | Err e => Err e
            | Ok taskID => match getProgressStatus i taskID with Err e => Err e | Ok status => Ok (taskID, status) end
            end
        end
      with
      | Err e => Err e
      | Ok (taskID, status) =>
          Ok (mkPreheatingStatus taskID
                (if df_Status status == "WAITING" then PreheatingStatusPending
                 else if df_Status status == "FAILED" then PreheatingStatusFail
                 else df_Status status)
                (df_StartTime status) (df_FinishTime status))
      end
  end.

(** [kraken.go]: an answer is the end of a preheating. *)
Definition kraken_done (taskID : string) : PreheatingStatus :=
  mkPreheatingStatus taskID PreheatingStatusSuccess EmptyString now_text.
Definition kraken_Preheat (i : Instance_) (img : PreheatImage) : result PreheatingStatus :=
  match http_post i (TrimSuffix_slash (in_Endpoint i) +:+ "/registry/notifications") (event_json event_id img) with
  | Err e => Err e
  | Ok (_, reported) =>
      if reported : bool then Err (PlainError "status already reported") else Ok (kraken_done event_id)
  end.

(** [known_drivers.go] and [factory.go]; a factory does not fail. *)
Definition GetProvider (vendor : string) : option (Instance_ → Driver) :=
  if vendor == "dragonfly"
  then Some (λ i, mkDriver (driver_GetHealth "/_ping" i) (dragonfly_Preheat i) (dragonfly_CheckProgress i))
  else if vendor == "kraken"
  then Some (λ i, mkDriver (driver_GetHealth "/health" i) (kraken_Preheat i) (λ t, Ok (kraken_done t)))
  else None.

(** [checkProviderHealthy] of the enforcer, and [CheckHealth] of the controller *)
Definition unhealthy (i : Instance_) : error :=
  New ("preheat provider instance " +:+ in_Vendor i +:+ "-" +:+ in_Name i +:+ ":" +:+ in_Endpoint i +:+ " is not healthy").
Definition checkProviderHealthy (i : Instance_) : result unit :=
  match GetProvider (in_Vendor i) with
  | None => Err (New ("no driver registered for provider " +:+ in_Vendor i))
  | Some fac =>
      match GetHealth (fac i) with
      | Err e => Err e
      | Ok st => if st == DriverStatusHealthy then Ok tt else Err (unhealthy i)
      end
  end.

(** ** The job: [src/pkg/p2p/preheat/job.go] *)

Definition bad_parameter (e : error) : error := default e (Wrap (Some e) "parse job parameter error").

(** [parseStrValue]; a parameter that is not a text is [None] here. *)
Definition parseStrValue (params : gmap string (option string)) (key : string) : result string :=
  match params !! key with
  | None => Err (New ("missing job parameter '" +:+ key +:+ "'"))
  | Some None => Err (New ("bad job parameter '" +:+ key +:+ "'"))
  | Some (Some data) => if data == "" then Err (New ("bad job parameter '" +:+ key +:+ "'")) else Ok data
  end.

Definition image_Validate (img : PreheatImage) : result unit :=
  if negb (pi_Type img == "image") then Err (New ("unsupported type '" +:+ pi_Type img +:+ "'"))
  else if (pi_ImageName img == "") || (pi_Tag img == "") then Err (New "missing image repository or tag")
  else match pi_Headers img with
       | [] => Err (New "missing required headers")
       | _ => match url_Parse (pi_URL img) with
              | Err e => Err (default e (Wrap (Some e) "malformed registry URL"))
              | Ok _ => Ok tt
              end
       end.

Definition parseParamProvider (params : gmap string (option string)) : result Instance_ :=
  match parseStrValue params "provider" with
  | Err e => Err e
  | Ok data =>
      match unmarshal_instance data with
      | Err e => Err (bad_parameter e)
      | Ok i =>
          if in_Vendor i == "" then Err (New "missing vendor of preheat provider")
          else if negb (in_AuthMode i == AuthModeNone) && bool_decide (default ∅ (in_AuthInfo i) = ∅)
          then Err (New ("missing auth info for '" +:+ in_AuthMode i +:+ "' auth mode"))
          else if in_Endpoint i == "" then Err (New "missing endpoint of preheat provider")
          else Ok i
      end
  end.

Definition parseParamImage (params : gmap string (option string)) : result PreheatImage :=
  match parseStrValue params "image" with
  | Err e => Err e
  | Ok data =>
      match unmarshal_image data with
      | Err e => Err (bad_parameter e)
      | Ok img => match image_Validate img with Err e => Err (bad_parameter e) | Ok _ => Ok img end
      end
  end.

Definition Validate (params : gmap string (option string)) : result unit :=
  match parseParamProvider params with
  | Err e => Err e
  | Ok _ => match parseParamImage params with Err e => Err e | Ok _ => Ok tt end
  end.

Definition running_error (e : error) : error := default e (Wrap (Some e) "preheat job running error").

(** What the loop waits for: a tick, with the answer on the progress and whether the
    job is then asked to stop, or the timeout. *)
Inductive wait_event := Tick (answer : result PreheatingStatus) (stop : bool) | CheckTimeout.
Fixpoint wait_progress (l : list wait_event) : option (result unit) :=
  match l with
  | [] => None
  | CheckTimeout :: _ => Some (Err (running_error (New "status check timeout: 30m1s")))
  | Tick (Err e) _ :: _ => Some (Err (running_error e))
  | Tick (Ok s) stop :: l =>
      if ps_Status s == PreheatingStatusFail
      then Some (Err (running_error (New ("preheat failed: " +:+ ps_TaskID s))))
      else if ps_Status s == PreheatingStatusSuccess then Some (Ok tt)
      else if stop : bool then Some (Ok tt)
      else wait_progress l
  end.

(** [stops] are the answers of [shouldStop] before the loop. *)
Definition Run (stops : bool * bool * bool) (p : Instance_) (pi : PreheatImage) (progress : string → list wait_event)
    : option (result unit) :=
  let '(s1, s2, s3) := stops in
  if s1 : bool then Some (Ok tt)
  else match GetProvider (in_Vendor p) with
       | None => Some (Err (running_error (New ("No driver registered for provider " +:+ in_Vendor p))))
       | Some fac =>
           match GetHealth (fac p) with
           | Err e => Some (Err (running_error e))
           | Ok h =>
               if negb (h == DriverStatusHealthy)
               then Some (Err (running_error (New ("unhealthy target preheat provider: " +:+ in_Vendor p))))
               else if s2 : bool then Some (Ok tt)
               else match d_Preheat (fac p) pi with
                    | Err e => Some (Err (running_error e))
                    | Ok st =>
                        if ps_Status st == PreheatingStatusSuccess then Some (Ok tt)
                        else if ps_Status st == PreheatingStatusFail then Some (Err (running_error (New "preheating is failed")))
                        else if bool_decide (ps_Status st ∈ [PreheatingStatusPending; PreheatingStatusRunning])
                        then if s3 : bool then Some (Ok tt) else wait_progress (progress (ps_TaskID st))
                        else Some (Err (running_error (New ("unknown status '" +:+ ps_Status st +:+ "' returned by the preheat provider "
                               +:+ in_Vendor p +:+ "-" +:+ in_Name p +:+ ":" +:+ in_Endpoint p))))
                    end
           end
       end.

End drivers.
