(* ===== verification/PreheatCtl.v ===== *)
(** * Preheating: the enforcer, the controller, the events and the API

    [src/controller/p2p/preheat/enforcer.go] and [controller.go],
    [src/controller/event/handler/p2p/preheat.go], the callback of the schedules
    ([src/core/api/base.go]) and [src/server/v2.0/handler/preheat.go]. *)

From S2P Require Import Prelude GoErrors GoStrings Orm Table Hoare JobStatus TaskStore Scheduler.
From S2P Require Import Security Retention ArtifactStore ArtifactCtl VulnReport ScanStore ScanCtl Preheat.
From S2P Require ProjectStore RobotStore Rbac.
From Stdlib Require Import Ascii.
Open Scope Z_scope.
Local Open Scope harbor_scope.

Definition P2PPreheatVendorType : string := "P2P_PREHEAT".
Definition SchedulerCallback : string := "P2PPreheatCallback".
Definition SupportedType : string := "image".
Definition defaultSeverityCode : Z := 99.

Definition enforceError (e : error) : error := default e (Wrap (Some e) "enforce policy error").
Definition enforceErrorExt (a : Artifact) (e : error) : error :=
  default e (Wrap (Some e) ("enforce policy for given artifact error: " +:+ a_RepositoryName a +:+ "@" +:+ a_Digest a)).
Definition wrapping {A} (f : error → error) (m : MP A) : MP A :=
  r ← try m; match r with Ok a => mret a | Err e => fail (f e) end.

Definition pureRepository (ns r : string) : string := TrimPrefix r (ns +:+ "/").

Section enforcer.
Context `{PreheatConfig} `{SC : ScanConfig}.
(** The health of a provider, and the job service with the parameters of a job. *)
Context (healthy : Instance_ → result unit) (preheat_js : string → string → JsClient).

(** [overrideSecuritySettings]: the filters of the policy afterwards. *)
Definition security_filter (f : Filter) : bool :=
  (fl_Type f == FilterTypeSignature) || (fl_Type f == FilterTypeVulnerability).
Definition severity_bar (m : gmap string string) : option Z :=
  if bool_decide (m !! "prevent_vul"%string = Some "true"%string)
  then match m !! "severity"%string with
       | Some se => if se == "" then None else Some (SevCode (title (ProjectStore.ToLower se)))
       | None => None
       end
  else None.
Definition override (m : gmap string string) (fs : list Filter) : list Filter :=
  List.filter (λ f, negb (security_filter f)) fs
  ++ (if bool_decide (m !! "enable_content_trust"%string = Some "true"%string)
      then [mkFilter FilterTypeSignature (VBool true)] else [])
  ++ match severity_bar m with Some code => [mkFilter FilterTypeVulnerability (VInt code)] | None => [] end.
Definition overrideSecuritySettings (s : Schema) (pro : ProjectStore.ProjectView) : Schema :=
  mkSchema (sc_Row s) (override (ProjectStore.pv_Metadata pro) (sc_Filters s)) (sc_Trigger s).

Definition getProject (id : Z) : MP ProjectStore.ProjectView :=
  on_harbor (on_proj (ProjectStore.project_ctl.Get (ProjectStore.ByID id) ProjectStore.effective_allowlist)).

(** [None] is a walk that ran out of fuel. *)
Definition getVulnerabilitySev (fuel : nat) (pro : ProjectStore.ProjectView) (v : ArtView) : MP (option Z) :=
  r ← try (on_harbor (GetVulnerable None fuel v (ProjectStore.allowlist.CVESet (ProjectStore.pv_Allowlist pro))));
  match r with
  | Err e => if IsNotFoundErr e then mret (Some defaultSeverityCode)
             else fail (default e (Wrap (Some e) "get vulnerability severity"))
  | Ok None => mret None
  | Ok (Some vb) =>
      mret (Some (if negb (IsScanSuccess vb) then defaultSeverityCode
                  else match vb_Severity vb with Some s => SevCode s | None => SevCode None_ end))
  end.

Definition candidate_of (pro : ProjectStore.Project) (v : ArtView) (sev : Z) (t : TagView) : Candidate :=
  mkCandidate (ProjectStore.j_ProjectID pro) (ProjectStore.j_Name pro)
    (pureRepository (ProjectStore.j_Name pro) (a_RepositoryName (v_row v))) SupportedType [t_Name (tv_Tag t)]
    (a_Digest (v_row v)) 0 0 0 (l_Name <$> v_Labels v) sev {[ t_Name (tv_Tag t) := tv_Signed t ]}.

Fixpoint toCandidates (fuel : nat) (pro : ProjectStore.ProjectView) (arts : list ArtView) : MP (option (list Candidate)) :=
  match arts with
  | [] => mret (Some [])
  | v :: arts =>
      sev <~~ getVulnerabilitySev fuel pro v;
      cs <~~ toCandidates fuel pro arts;
      mret (Some ((candidate_of (ProjectStore.pv_Project pro) v sev <$> v_Tags v) ++ cs))
  end.

Definition image_query (projectID : Z) : option ArtQuery :=
  Some (mkArtQuery (λ a, (a_ProjectID a =? projectID) && (a_Type a == "IMAGE")) None None None).
Definition candidate_option : option Option := Some (mkOption true (Some (mkTagOption false true None)) true false).

Definition getCandidates (fuel : nat) (ps : Schema) (pro : ProjectStore.ProjectView) : MP (option (list Candidate)) :=
  arts ← on_harbor (on_art (artifact_ctl.List scan_sv (image_query (pp_ProjectID (sc_Row ps))) candidate_option));
  toCandidates fuel pro arts.

(** The image of a candidate; a candidate has one tag. *)
Definition image_name (c : Candidate) : string := Namespace c +:+ "/" +:+ Repository c.
Definition first_tag (c : Candidate) : string := default EmptyString (head (Tags c)).

Definition fullURLGetter (c : Candidate) : result string :=
  match ExtEndpoint with
  | Err e => Err e
  | Ok edp => Ok (edp +:+ "/v2/" +:+ image_name c +:+ "/manifests/" +:+ first_tag c)
  end.
Definition credMaker (c : Candidate) : result string :=
  match registry_token (image_name c) with Err e => Err e | Ok t => Ok ("Bearer " +:+ t) end.

Definition preheat_image (c : Candidate) : result PreheatImage :=
  match fullURLGetter c with
  | Err e => Err e
  | Ok u =>
      match credMaker c with
      | Err e => Err e
      | Ok cred => Ok (mkPreheatImage SupportedType u [("Authorization"%string, cred)] (image_name c) (first_tag c) (Digest c))
      end
  end.

Definition startTask (executionID : Z) (c : Candidate) (instance : string) : MP Z :=
  pi ← of_result (preheat_image c);
  piData ← of_result (marshal_image pi);
  on_tasks (task_Create (preheat_js instance piData) executionID P2PPreheatVendorType
    (attrs_json [("artifact"%string, VString (pi_ImageName pi +:+ ":" +:+ pi_Tag pi)); ("digest"%string, VString (Digest c));
                 ("kind"%string, VString (pi_Type pi))])).

(** The number of tasks that were started. *)
Fixpoint start_tasks (executionID : Z) (l : list Candidate) (instance : string) : MP nat :=
  match l with
  | [] => mret 0%nat
  | c :: l =>
      r ← try (startTask executionID c instance);
      n ← start_tasks executionID l instance;
      mret (match r with Ok _ => S n | Err _ => n end)
  end.

(** [Instance.ToJSON]: the data of the credentials is not in it. *)
Definition visible (i : Instance_) : Instance_ :=
  mkInstance (in_ID i) (in_Name i) (in_Description i) (in_Vendor i) (in_Endpoint i) (in_AuthMode i) (in_AuthInfo i)
    EmptyString (in_Status i) (in_Enabled i) (in_Default i) (in_Insecure i) (in_SetupTimestamp i).
Definition ToJSON (i : Instance_) : result string :=
  match marshal_instance (visible i) with
  | Ok data => Ok data | Err e => Err (default e (Wrap (Some e) "encode preheat instance error")) end.

(** The execution exists also when an error is returned. *)
Definition launchExecutions (cs : list Candidate) (pl : Schema) (inst : Instance_) : MP Z :=
  match sc_Trigger pl with
  | None => fail (Panic "nil pointer dereference")
  | Some tr =>
      let row := sc_Row pl in
      let setting := if negb (tg_Type tr == TriggerTypeScheduled) then "-"%string else tg_Cron tr in
      eid ← on_tasks (TaskStore.Create P2PPreheatVendorType (pp_ID row) (tg_Type tr)
        (attrs_json [("totalCount"%string, VInt (Z.of_nat (length cs))); ("trigger"%string, VString (tg_Type tr));
                     ("triggerSetting"%string, VString setting)]));
      match cs with
      | [] => _ ← on_tasks (MarkDone eid "no artifacts to preheat"); mret eid
      | _ =>
          match ToJSON inst with
          | Err err =>
              r ← try (on_tasks (MarkError eid (error_string err)));
              match r with Ok _ => mret eid | Err er => fail (default er (Wrap (Some er) (error_string err))) end
          | Ok insData =>
              count ← start_tasks eid cs insData;
              if bool_decide (count = length cs) then mret eid
              else fail (New ("some errors occurred when enforcing policy '" +:+ pp_Name row +:+ "(" +:+ pretty (pp_ID row)
                     +:+ ")' but execution '" +:+ pretty eid +:+ "' is still available"))
          end
      end
  end.

(** What is chosen before anything is launched: the policy, the provider and the candidates. *)
Definition select_images (fuel : nat) (policyID : Z) : MP (option (Schema * Instance_ * list Candidate)) :=
  pl ← on_rest (policy_mgr.Get policyID);
  if negb (pp_Enabled (sc_Row pl))
  then fail (New ("policy " +:+ pretty (pp_ID (sc_Row pl)) +:+ ":" +:+ pp_Name (sc_Row pl) +:+ " is not enabled"))
  else
    inst ← on_rest (instance_dao.Get (pp_ProviderID (sc_Row pl)));
    _ ← of_result (healthy inst);
    pro ← getProject (pp_ProjectID (sc_Row pl));
    candidates <~~ getCandidates fuel pl pro;
    let pl := overrideSecuritySettings pl pro in
    filtered ← of_result (Filter_ (doublestar_Match scan_sv) (BuildFrom (sc_Filters pl)) candidates);
    mret (Some (pl, inst, filtered)).

Definition EnforcePolicy (fuel : nat) (policyID : Z) : MP (option Z) :=
  wrapping enforceError (
    x <~~ select_images fuel policyID;
    fret (launchExecutions x.2 x.1.1 x.1.2)).

(** The policies that match the candidates, with what they select. *)
Fixpoint matched_policies (pro : ProjectStore.ProjectView) (candidates : list Candidate) (l : list Schema)
    : list (Schema * list Candidate) :=
  match l with
  | [] => []
  | pl :: l =>
      let rest := matched_policies pro candidates l in
      if negb (pp_Enabled (sc_Row pl)) then rest
      else if negb (bool_decide (tg_Type <$> sc_Trigger pl = Some TriggerTypeEventBased)) then rest
      else
        let pl := overrideSecuritySettings pl pro in
        match Filter_ (doublestar_Match scan_sv) (BuildFrom (sc_Filters pl)) candidates with
        | Err _ | Ok [] => rest
        | Ok filtered => (pl, filtered) :: rest
        end
  end.

Fixpoint launch_matched (l : list (Schema * list Candidate)) : MP (list Z) :=
  match l with
  | [] => mret []
  | (pl, filtered) :: l =>
      r ← try (inst ← on_rest (instance_dao.Get (pp_ProviderID (sc_Row pl)));
               _ ← of_result (healthy inst);
               launchExecutions filtered pl inst);
      ids ← launch_matched l;
      mret (match r with Ok eid => eid :: ids | Err _ => ids end)
  end.

Definition match_artifact (fuel : nat) (art : ArtView) : MP (option (list (Schema * list Candidate))) :=
  p ← getProject (a_ProjectID (v_row art));
  candidates <~~ toCandidates fuel p [art];
  l ← on_rest (policy_mgr.ListPoliciesByProject (a_ProjectID (v_row art)));
  mret (Some (matched_policies p candidates l)).

Definition PreheatArtifact (fuel : nat) (art : ArtView) : MP (option (list Z)) :=
  wrapping (enforceErrorExt (v_row art)) (
    matched <~~ match_artifact fuel art;
    ids ← launch_matched matched;
    if bool_decide (length matched = length ids) then mret (Some ids)
    else fail (New (pretty (Z.of_nat (length matched)) +:+ " policies matched but only " +:+ pretty (Z.of_nat (length ids))
                      +:+ " successfully enforced"))).

(** ** Events: [src/controller/event/handler/p2p/preheat.go] *)

Inductive Event :=
| PushArtifactEvent (a : Artifact) (tags : list string)
| ScanImageEvent (repository digest : string)
| ArtifactLabeledEvent (artifactID : Z).

Definition event_option : option Option := Some (mkOption true None true false).
Definition with_tags (ts : list TagView) (v : ArtView) : ArtView := mkArtView (v_Art v) ts (v_Labels v) (v_Accessories v).

Definition preheat_it (fuel : nat) (v : ArtView) : MP (option unit) := _ <~~ PreheatArtifact fuel v; mret (Some tt).

Definition handlePushArtifact (fuel : nat) (a : Artifact) (tags : list string) : MP (option unit) :=
  if negb (a_Type a == ArtifactTypeImage) then mret (Some tt)
  else match tags with
       | [] => mret (Some tt)
       | tag :: _ =>
           art ← on_harbor (on_art (artifact_ctl.Get scan_sv (a_ID a) event_option));
           preheat_it fuel (with_tags (option_list (List.find (λ t, t_Name (tv_Tag t) == tag) (v_Tags art))) art)
       end.

Definition handleImageScanned (fuel : nat) (repository digest : string) : MP (option unit) :=
  art ← on_harbor (on_art (artifact_ctl.GetByReference scan_sv repository digest event_option));
  preheat_it fuel art.

Definition handleArtifactLabeled (fuel : nat) (artifactID : Z) : MP (option unit) :=
  art ← on_harbor (on_art (artifact_ctl.Get scan_sv artifactID event_option));
  if negb (a_Type (v_row art) == ArtifactTypeImage) then mret (Some tt) else preheat_it fuel art.

Definition Handle (fuel : nat) (e : Event) : MP (option unit) :=
  match e with
  | PushArtifactEvent a tags => handlePushArtifact fuel a tags
  | ScanImageEvent repository digest => handleImageScanned fuel repository digest
  | ArtifactLabeledEvent id => handleArtifactLabeled fuel id
  end.

(** The callback of the schedules: [Init] of [src/core/api/base.go] *)
Definition preheat_callback (fuel : nat) (param : string) : MP (option unit) :=
  match param_of param with
  | Err e => fail (PlainError ("failed to unmarshal the param: " +:+ error_string e))
  | Ok policyID => _ <~~ EnforcePolicy fuel policyID; mret (Some tt)
  end.

End enforcer.

(** ** [src/controller/p2p/preheat/controller.go] *)

Definition ErrorConflict : error := New "resource conflict".

Section controller.
Context `{PreheatConfig}.
Context (js : JsClient) (object_of : string → string) (callbacks : gmap string (string → MP unit)).
Context (polls : nat) (env : M TaskDB unit).
Context (now : Z).

Definition in_use (name what : string) : error :=
  WithMessage (WithCode (New EmptyString) PreconditionCode)
    ("Provider [" +:+ name +:+ "] cannot be " +:+ what +:+ " as some preheat policies are using it").

Definition set_up (i : Instance_) : Instance_ :=
  mkInstance (in_ID i) (in_Name i) (in_Description i) (in_Vendor i) (in_Endpoint i) (in_AuthMode i) (in_AuthInfo i)
    (in_AuthData i) (in_Status i) (in_Enabled i) (in_Default i) (in_Insecure i) now.

Definition CreateInstance (i : Instance_) : MP Z :=
  num ← on_rest (instance_dao.Count (λ y, in_Endpoint y = in_Endpoint i));
  if 0 <? num then fail ErrorConflict else on_rest (instance_dao.Create (set_up i)).

(** The policies of a provider; one that does not decode is an error. *)
Definition policies_of (id : Z) : MP (list Schema) := on_rest (policy_mgr.ListPolicies (λ r, pp_ProviderID r = id)).

Definition DeleteInstance (id : Z) : MP unit :=
  ins ← on_rest (instance_dao.Get id);
  policies ← policies_of id;
  match policies with
  | _ :: _ => fail (in_use (in_Name ins) "deleted")
  | [] => on_rest (instance_dao.Delete id)
  end.

Definition UpdateInstance (i : Instance_) : MP unit :=
  oldIns ← on_rest (instance_dao.Get (in_ID i));
  _ ← (if in_Enabled i then mret tt
       else policies ← policies_of (in_ID i);
            match policies with [] => mret tt | _ => fail (in_use (in_Name oldIns) "disabled") end);
  if negb (in_Vendor oldIns == in_Vendor i) then fail (New ("provider [" +:+ in_Name oldIns +:+ "] vendor cannot be changed"))
  else on_rest (instance_dao.Update i).

Definition Schedule_policy (id : Z) (cron : string) : MP unit :=
  _ ← Schedule_ js preheat_cron object_of callbacks P2PPreheatVendorType id EmptyString cron SchedulerCallback
        (Ok (trigger_param id)) (Ok "{}"%string);
  mret tt.

Definition stamped (created : bool) (r : PolicyRow) : PolicyRow :=
  mkPolicyRow (pp_ID r) (pp_Name r) (pp_Description r) (pp_ProjectID r) (pp_ProviderID r) (pp_FiltersStr r) (pp_TriggerStr r)
    (pp_Enabled r) (if created then now else pp_CreatedAt r) now.

(** The cron expression a policy is scheduled at. *)
Definition schedule_of (s : Schema) : option string :=
  match sc_Trigger s with
  | Some t => if (tg_Type t == TriggerTypeScheduled) && negb (tg_Cron t == "") then Some (tg_Cron t) else None
  | None => None
  end.

Definition CreatePolicy (r : PolicyRow) : MP Z :=
  schema ← of_result (Decode (stamped true r));
  id ← on_rest (policy_mgr.Create schema);
  let schema := mkSchema (policy_dao.with_id id (sc_Row schema)) (sc_Filters schema) (sc_Trigger schema) in
  match schedule_of schema with
  | None => mret id
  | Some cron =>
      _ ← Schedule_policy id cron;
      x ← try (on_rest (policy_dao.Update (Encode schema) true));
      match x with
      | Ok _ => mret id
      | Err err =>
          y ← try (UnScheduleByVendor js polls env P2PPreheatVendorType id);
          match y with
          | Err e => fail (default e (Wrap (Some e) (error_string err)))
          | Ok _ => fail err
          end
      end
  end.

Definition UpdatePolicy (r : PolicyRow) : MP unit :=
  s0 ← on_rest (policy_mgr.Get (pp_ID r));
  match sc_Trigger s0 with
  | None => fail (New ("missing trigger settings in preheat policy " +:+ pp_Name (sc_Row s0)))
  | Some t0 =>
      schema ← of_result (Decode r);
      match sc_Trigger schema with
      | None => fail (Panic "nil pointer dereference")
      | Some t =>
          let cron := tg_Cron t in
          let oldCron := tg_Cron t0 in
          let was := (tg_Type t0 == TriggerTypeScheduled) && negb (oldCron == "") in
          let is_ := (tg_Type t == TriggerTypeScheduled) && negb (cron == "") in
          let '(needUn, needSch) :=
            if negb (tg_Type t0 == tg_Type t) then (was, is_)
            else if (tg_Type t == TriggerTypeScheduled) && negb (oldCron == cron)
                 then (negb (oldCron == ""), negb (cron == "")) else (false, false) in
          _ ← (if needUn : bool then UnScheduleByVendor js polls env P2PPreheatVendorType (pp_ID r) else mret tt);
          _ ← (if needSch : bool then Schedule_policy (pp_ID r) cron else mret tt);
          x ← try (on_rest (policy_dao.Update (stamped false r) false));
          match x with
          | Ok _ => mret tt
          | Err e => fail (if needSch || needUn then default e (Wrap (Some e) "Update failed, but not rollback scheduler") else e)
          end
      end
  end.

Fixpoint delete_each (l : list Execution) : MP unit :=
  match l with
  | [] => mret tt
  | e :: l => _ ← on_tasks (TaskStore.Delete (e_ID e)); delete_each l
  end.
Definition executions_of (policyID : Z) : MP (list Execution) :=
  on_tasks (_ ← FromContext; query (λ d, Ok (candidates P2PPreheatVendorType policyID None d))).
Definition deleteExecs (vendorID : Z) : MP unit := l ← executions_of vendorID; delete_each l.

Definition DeletePolicy (id : Z) : MP unit :=
  s ← on_rest (policy_mgr.Get id);
  _ ← match schedule_of s with
      | Some _ => UnScheduleByVendor js polls env P2PPreheatVendorType id
      | None => mret tt
      end;
  _ ← deleteExecs id;
  on_rest (policy_mgr.Delete id).

Fixpoint delete_policies (l : list Schema) : MP unit :=
  match l with
  | [] => mret tt
  | p :: l => _ ← DeletePolicy (pp_ID (sc_Row p)); delete_policies l
  end.
Definition DeletePoliciesOfProject (project : Z) : MP unit :=
  policies ← on_rest (policy_mgr.ListPoliciesByProject project); delete_policies policies.

End controller.

(** ** [src/server/v2.0/handler/preheat.go] *)

(** [nameRegex]: letters and digits, in pieces joined by one dot, underscore or dash. *)
Definition alnum (c : ascii) : bool :=
  let n := N_of_ascii c in
  ((48 <=? n) && (n <=? 57) || (65 <=? n) && (n <=? 90) || (97 <=? n) && (n <=? 122))%N.
Definition separator (c : ascii) : bool := bool_decide (c ∈ ["."%char; "_"%char; "-"%char]).
Fixpoint name_rest (after_alnum : bool) (s : string) : bool :=
  match s with
  | EmptyString => after_alnum
  | String c s => if alnum c then name_rest true s else separator c && after_alnum && name_rest false s
  end.
Definition valid_name (s : string) : bool := name_rest false s.
Definition invalid_name (s : string) : error := PlainError ("name " +:+ s +:+ " is invalid").

Module preheatAPI.
Section api.
Context `{PreheatConfig} `{SC : ScanConfig}.
Context (healthy : Instance_ → result unit) (preheat_js : string → string → JsClient).
Context (js : JsClient) (object_of : string → string) (callbacks : gmap string (string → MP unit)).
Context (polls : nat) (env : M TaskDB unit) (now : Z).
(** The caller. *)
Context (sc : option RobotStore.SecCtx).

Definition RequireSystemAccess (action : string) : MP unit :=
  on_harbor (on_robots (RobotStore.BaseAPI.RequireSystemAccess sc action [Rbac.ResourcePreatInstance])).
Definition RequireProjectAccess (project action : string) : MP unit :=
  on_harbor (on_robots (RobotStore.BaseAPI.RequireProjectAccess sc (ProjectStore.ByName project) action [Rbac.ResourcePreatPolicy])).
Definition project_by_name (name : string) : MP Z :=
  p ← on_harbor (on_proj (ProjectStore.project_ctl.GetByName name ProjectStore.default_options));
  mret (ProjectStore.j_ProjectID (ProjectStore.pv_Project p)).

(** The payload of an instance: [in_AuthInfo] is set, [in_AuthData] is not. *)
Definition convertParamInstanceToModelInstance (m : Instance_) : result Instance_ :=
  if negb (valid_name (in_Name m)) then Err (invalid_name (in_Name m))
  else Ok (mkInstance (in_ID m) (in_Name m) (in_Description m) (in_Vendor m) (in_Endpoint m) (in_AuthMode m) None
             (marshal_auth (default ∅ (in_AuthInfo m))) (in_Status m) (in_Enabled m) (in_Default m) (in_Insecure m)
             (in_SetupTimestamp m)).
Definition convertInstanceToPayload (i : Instance_) : result Instance_ :=
  match unmarshal_auth (in_AuthData i) with
  | Err e => Err e
  | Ok info => Ok (mkInstance (in_ID i) (in_Name i) (in_Description i) (in_Vendor i) (in_Endpoint i) (in_AuthMode i)
                     (Some info) EmptyString "Unknown" (in_Enabled i) (in_Default i) (in_Insecure i) (in_SetupTimestamp i))
  end.

Definition convertParamPolicyToModelPolicy (r : PolicyRow) : result PolicyRow :=
  if negb (valid_name (pp_Name r)) then Err (invalid_name (pp_Name r)) else Ok r.

Definition CreateInstance (m : Instance_) : MP unit :=
  _ ← RequireSystemAccess Rbac.ActionCreate;
  i ← of_result (convertParamInstanceToModelInstance m);
  _ ← PreheatCtl.CreateInstance now i;
  mret tt.

Definition DeleteInstance (name : string) : MP unit :=
  _ ← RequireSystemAccess Rbac.ActionDelete;
  i ← on_rest (instance_dao.GetByName name);
  PreheatCtl.DeleteInstance (in_ID i).

Definition GetInstance (name : string) : MP Instance_ :=
  _ ← RequireSystemAccess Rbac.ActionRead;
  i ← on_rest (instance_dao.GetByName name);
  of_result (convertInstanceToPayload i).

Fixpoint instance_payloads (l : list Instance_) : result (list Instance_) :=
  match l with
  | [] => Ok []
  | i :: l =>
      match convertInstanceToPayload i with
      | Err e => Err e
      | Ok i => match instance_payloads l with Ok l => Ok (i :: l) | Err e => Err e end
      end
  end.
Definition ListInstances (P : Instance_ → Prop) `{!∀ i, Decision (P i)} (page : list Instance_ → list Instance_)
    : MP (Z * list Instance_) :=
  _ ← RequireSystemAccess Rbac.ActionList;
  total ← on_rest (instance_dao.Count P);
  l ← on_rest (instance_dao.List_ P);
  payload ← of_result (instance_payloads (page l));
  mret (total, payload).

Definition UpdateInstance (m : Instance_) : MP unit :=
  _ ← RequireSystemAccess Rbac.ActionUpdate;
  i ← of_result (convertParamInstanceToModelInstance m);
  PreheatCtl.UpdateInstance i.

Definition PingInstances (m : Instance_) : MP unit :=
  _ ← RequireSystemAccess Rbac.ActionRead;
  i ← (if 0 <? in_ID m then on_rest (instance_dao.Get (in_ID m))
       else if in_Endpoint m == "" then fail (WithCode (New EmptyString) BadRequestCode)
       else of_result (convertParamInstanceToModelInstance m));
  of_result (healthy i).

Definition GetPolicy (project name : string) : MP (PolicyRow * string) :=
  _ ← RequireProjectAccess project Rbac.ActionRead;
  pid ← project_by_name project;
  p ← on_rest (policy_mgr.GetByName pid name);
  i ← on_rest (instance_dao.Get (pp_ProviderID (sc_Row p)));
  mret (sc_Row p, in_Name i).

Definition in_project (pid : Z) (r : PolicyRow) : PolicyRow :=
  mkPolicyRow (pp_ID r) (pp_Name r) (pp_Description r) pid (pp_ProviderID r) (pp_FiltersStr r) (pp_TriggerStr r)
    (pp_Enabled r) (pp_CreatedAt r) (pp_UpdatedTime r).

Definition CreatePolicy (project : string) (m : PolicyRow) : MP unit :=
  _ ← RequireProjectAccess project Rbac.ActionCreate;
  r ← of_result (convertParamPolicyToModelPolicy m);
  pid ← project_by_name project;
  _ ← on_rest (instance_dao.Get (pp_ProviderID r));
  _ ← PreheatCtl.CreatePolicy js object_of callbacks polls env now (in_project pid r);
  mret tt.

Definition requirePolicyAccess (r : PolicyRow) : MP unit :=
  if pp_ID r =? 0 then mret tt
  else
    p ← on_rest (policy_mgr.Get (pp_ID r));
    if pp_ProjectID (sc_Row p) =? pp_ProjectID r then mret tt
    else fail (NotFoundError (Some (New ("project id " +:+ pretty (pp_ProjectID r) +:+ " does not match")))).

Definition UpdatePolicy (project : string) (m : PolicyRow) : MP unit :=
  _ ← RequireProjectAccess project Rbac.ActionUpdate;
  r ← of_result (convertParamPolicyToModelPolicy m);
  pid ← project_by_name project;
  let r := in_project pid r in
  _ ← requirePolicyAccess r;
  _ ← on_rest (instance_dao.Get (pp_ProviderID r));
  PreheatCtl.UpdatePolicy js object_of callbacks polls env now r.

Definition DeletePolicy (project name : string) : MP unit :=
  _ ← RequireProjectAccess project Rbac.ActionDelete;
  pid ← project_by_name project;
  p ← on_rest (policy_mgr.GetByName pid name);
  l ← executions_of (pp_ID (sc_Row p));
  match List.find (λ e, e_Status e == RunningStatus) l with
  | Some e => fail (WithCode (New ("execution " +:+ pretty (e_ID e) +:+ " under the policy " +:+ pp_Name (sc_Row p)
                +:+ " is running, stop it and retry")) PreconditionCode)
  | None => PreheatCtl.DeletePolicy js polls env (pp_ID (sc_Row p))
  end.

Fixpoint with_providers (l : list Schema) : MP (list (PolicyRow * string)) :=
  match l with
  | [] => mret []
  | p :: l =>
      i ← on_rest (instance_dao.Get (pp_ProviderID (sc_Row p)));
      rest ← with_providers l;
      mret ((sc_Row p, in_Name i) :: rest)
  end.
Definition ListPolicies (project : string) (P : PolicyRow → Prop) `{!∀ r, Decision (P r)} (page : list Schema → list Schema)
    : MP (Z * list (PolicyRow * string)) :=
  _ ← RequireProjectAccess project Rbac.ActionList;
  pid ← project_by_name project;
  total ← on_rest (policy_dao.Count (λ r, P r ∧ pp_ProjectID r = pid));
  l ← on_rest (policy_mgr.ListPolicies (λ r, P r ∧ pp_ProjectID r = pid));
  payload ← with_providers (page l);
  mret (total, payload).

Definition ManualPreheat (fuel : nat) (project name : string) : MP (option Z) :=
  _ ← RequireProjectAccess project Rbac.ActionRead;
  pid ← project_by_name project;
  p ← on_rest (policy_mgr.GetByName pid name);
  EnforcePolicy healthy preheat_js fuel (pp_ID (sc_Row p)).

(** [getProjectID] of [util.go], for a name *)
Definition getProjectID (name : string) : MP Z :=
  p ← on_harbor (on_proj (ProjectStore.project_ctl.Get (ProjectStore.ByName name) (ProjectStore.mkProjectOptions true false false false)));
  mret (ProjectStore.j_ProjectID (ProjectStore.pv_Project p)).

Definition execution_in (pid : Z) (name : string) (executionID : Z) : MP unit :=
  plc ← on_rest (policy_mgr.GetByName pid name);
  exec ← on_tasks (executionDAO.Get executionID);
  if (e_VendorType exec == P2PPreheatVendorType) && (e_VendorID exec =? pp_ID (sc_Row plc)) then mret tt
  else fail (NotFoundError (Some (PlainError ("project id " +:+ pretty pid +:+ ", execution id " +:+ pretty executionID
               +:+ " not found")))).
Definition requireExecutionInProject (project name : string) (executionID : Z) : MP unit :=
  pid ← getProjectID project; execution_in pid name executionID.

Definition requireTaskInProject (project name : string) (executionID taskID : Z) : MP unit :=
  pid ← getProjectID project;
  _ ← execution_in pid name executionID;
  t ← on_tasks (taskDAO.Get taskID);
  if t_ExecutionID t =? executionID then mret tt
  else fail (NotFoundError (Some (PlainError ("project id " +:+ pretty pid +:+ ", task id " +:+ pretty taskID +:+ " not found")))).

Definition GetExecution (project name : string) (executionID : Z) : MP Execution :=
  _ ← RequireProjectAccess project Rbac.ActionRead;
  _ ← requireExecutionInProject project name executionID;
  on_tasks (executionDAO.Get executionID).

Definition ListExecutions (project name : string) (page : list Execution → list Execution) : MP (Z * list Execution) :=
  _ ← RequireProjectAccess project Rbac.ActionList;
  pid ← project_by_name project;
  p ← on_rest (policy_mgr.GetByName pid name);
  total ← executions_of (pp_ID (sc_Row p));
  l ← executions_of (pp_ID (sc_Row p));
  mret (Z.of_nat (length total), page l).

Definition StopExecution (project name : string) (executionID : Z) (status : string) : MP unit :=
  _ ← RequireProjectAccess project Rbac.ActionUpdate;
  _ ← requireExecutionInProject project name executionID;
  if status == "Stopped" then on_tasks (TaskStore.Stop js executionID)
  else fail (PlainError ("param status invalid: " +:+ status)).

Definition ListTasks (project name : string) (executionID : Z) (page : list Task → list Task) : MP (Z * list Task) :=
  _ ← RequireProjectAccess project Rbac.ActionList;
  _ ← requireExecutionInProject project name executionID;
  total ← on_tasks (taskDAO.List_by (λ t, t_ExecutionID t = executionID));
  l ← on_tasks (taskDAO.List_by (λ t, t_ExecutionID t = executionID));
  mret (Z.of_nat (length total), page l).

(** The log of a job is kept by the job service. *)
Definition GetPreheatLog (job_log : string → result string) (project name : string) (executionID taskID : Z) : MP string :=
  _ ← RequireProjectAccess project Rbac.ActionRead;
  _ ← requireTaskInProject project name executionID taskID;
  t ← on_tasks (taskDAO.Get taskID);
  of_result (job_log (t_JobID t)).

Definition ListProvidersUnderProject (project : string) : MP (list (Z * string * bool * bool)) :=
  _ ← RequireProjectAccess project Rbac.ActionList;
  l ← on_rest (instance_dao.List_ (λ _, True));
  mret ((λ i, (in_ID i, in_Vendor i +:+ " " +:+ in_Name i +:+ "-" +:+ in_Endpoint i, in_Default i, in_Enabled i)) <$> l).

End api.
End preheatAPI.
