(* ===== verification/PreheatSpec.v ===== *)
(** * What is preheated

    The filters of a policy select exactly the candidates that pass all of them, and
    every image that the enforcer hands to the job service is a tagged image of the
    policy's project that passes the filters and the security settings of the
    project. *)

From S2P Require Import Prelude GoErrors GoStrings Orm Table Hoare JobStatus TaskStore Scheduler SchedulerSpec.
From S2P Require Import Security Retention ArtifactStore ArtifactCtl ArtifactInv VulnReport ScanStore ScanSpec ScanCtl ScanCtlSpec.
From S2P Require Import Pull PullSpec Preheat PreheatCtl.
From S2P Require ProjectStore RobotStore BlobStore Rbac.
From Stdlib Require Import Ascii.
Open Scope Z_scope.
Local Open Scope harbor_scope.

(** ** The filter *)

Section filters.
Context (dm : string → string → result bool).

Definition passes (f : Filter) (c : Candidate) : Prop := ∃ sl, buildFilter f = Ok sl ∧ select_one dm sl c = Ok true.

Lemma insert_filter_perm f l : insert_filter f l ≡ₚ f :: l.
Proof.
  induction l as [|g l IH]; simpl; [done|]. destruct (_ <? _)%nat; [|done]. rewrite IH. apply Permutation_swap.
Qed.
Lemma sort_filters_perm l : sort_filters l ≡ₚ l.
Proof. induction l as [|f l IH]; simpl; [done|]. by rewrite insert_filter_perm, IH. Qed.

Lemma build_selectors_ok l : ∀ acc sls, build_selectors l acc = (sls, None) →
  ∃ l', sls = acc ++ l' ∧ Forall2 (λ f sl, buildFilter f = Ok sl) l l'.
Proof.
  induction l as [|f l IH]; intros acc sls; simpl.
  - intros [= <-]. exists []. by rewrite app_nil_r.
  - destruct (buildFilter f) as [sl|e] eqn:E; [|done]. intros H. destruct (IH _ _ H) as (l' & -> & Hl).
    exists (sl :: l'). rewrite <- app_assoc. split; [done|by constructor].
Qed.

Lemma elem_of_Select s l out c : Select dm s l = Ok out → c ∈ out ↔ c ∈ l ∧ select_one dm s c = Ok true.
Proof.
  revert out. induction l as [|x l IH]; intros out; simpl; [intros [= <-]; by rewrite elem_of_nil; naive_solver|].
  destruct (select_one dm s x) as [b|e] eqn:Ex; [|done]. destruct (Select dm s l) as [o|e]; [|done].
  intros [= <-]. specialize (IH o eq_refl). destruct b; rewrite ?elem_of_cons, IH; [naive_solver|].
  split; [naive_solver|]. intros [[->|?] Hc]; [congruence|done].
Qed.

Lemma elem_of_do_filters sls : ∀ cs out c, do_filters dm sls cs = Ok out →
  c ∈ out ↔ c ∈ cs ∧ ∀ sl, sl ∈ sls → select_one dm sl c = Ok true.
Proof.
  induction sls as [|sl sls IH]; intros cs out c; simpl.
  - intros [= <-]. split; [|naive_solver]. intros Hc. split; [done|]. by intros ? ?%elem_of_nil.
  - destruct (Select dm sl cs) as [o|e] eqn:E; [|done]. pose proof (elem_of_Select sl cs o c E) as Ho.
    assert (Hout : (if o is [] then Ok [] else do_filters dm sls o) = Ok out →
      c ∈ out ↔ c ∈ o ∧ ∀ sl, sl ∈ sls → select_one dm sl c = Ok true).
    { destruct o as [|x o]; [intros [= <-]; rewrite elem_of_nil; naive_solver|by apply IH]. }
    intros H. rewrite Hout by (by destruct o). rewrite Ho. setoid_rewrite elem_of_cons. naive_solver.
Qed.

(** What a policy's filter selects is what passes each of its filters, whatever their
    order. *)
Lemma filter_exact fs cs out c : Filter_ dm (BuildFrom fs) cs = Ok out →
  fs ≠ [] ∧ (c ∈ out ↔ c ∈ cs ∧ ∀ f, f ∈ fs → passes f c).
Proof.
  unfold Filter_, BuildFrom. destruct (build_selectors _ _) as [sls o] eqn:E. destruct sls as [|sl sls]; [done|].
  destruct o as [e|]; [done|]. intros H. destruct (build_selectors_ok _ _ _ E) as (l' & Hl & Hf). simpl in Hl. subst l'.
  split; [intros ->; by inversion Hf|]. rewrite (elem_of_do_filters _ _ _ _ H). apply and_iff_compat_l. split.
  - intros Hs f Hin. rewrite <- sort_filters_perm in Hin. apply list_elem_of_lookup in Hin as [i Hi].
    destruct (Forall2_lookup_l _ _ _ _ _ Hf Hi) as (s & Hs' & Hb). exists s. split; [done|]. by apply Hs, (list_elem_of_lookup_2 _ i).
  - intros Hp s Hin. apply list_elem_of_lookup in Hin as [i Hi].
    destruct (Forall2_lookup_r _ _ _ _ _ Hf Hi) as (f & Hi' & Hb).
    destruct (Hp f) as (s' & Hs' & Hsel); [rewrite <- sort_filters_perm; by apply (list_elem_of_lookup_2 _ i)|]. congruence.
Qed.

(** What it means for a candidate to pass. *)
Lemma passes_signature c t : Tags c = [t] → passes (mkFilter FilterTypeSignature (VBool true)) c → Signatures c !! t = Some true.
Proof.
  intros Ht (sl & Hb & Hs). vm_compute in Hb. injection Hb as <-. simpl in Hs. injection Hs as Hs. unfold signature_one in Hs.
  rewrite Ht in Hs. simpl in Hs. destruct (Signatures c !! t) as [[]|]; done.
Qed.

Lemma passes_vulnerability c n : 0 <= n < 2 ^ 64 → passes (mkFilter FilterTypeVulnerability (VInt n)) c → VulnerabilitySeverity c < n.
Proof.
  intros Hn (sl & Hb & Hs). assert (sl = severity_New "lt" n) as -> by (by injection Hb).
  unfold severity_New in Hs. rewrite Z.mod_small in Hs by done. simpl in Hs. injection Hs as Hs. unfold severity_one in Hs. simpl in Hs. lia.
Qed.

End filters.

(** ** What the views of artifacts show *)

Section views.
Context (sv : Services).
#[local] Hint Resolve assembleTags_keeps list_with_keeps assemble_with_keeps : keeps.

(** The checker of signatures comes from a repository of the project. *)
Definition checker_of (d : ArtDB) (pid : Z) (chk : gmap string string) : Prop :=
  ∃ i b, rows (arts d) !! i = Some b ∧ a_ProjectID b = pid ∧ GetCheckerByRepo sv (a_RepositoryName b) = Ok chk.
Definition signed_in (d : ArtDB) (pid : Z) (t : Tag) (a : Artifact) : Prop :=
  ∃ chk, checker_of d pid chk ∧ IsTagSigned chk (t_Name t) (a_Digest a) = true.
Definition opt_from (d : ArtDB) (pid : Z) (o : option TagOption) : Prop :=
  ∀ x chk, o = Some x → SignatureChecker x = Some chk → checker_of d pid chk.

Definition attached (d : ArtDB) (id : Z) (l : Label) : Prop :=
  ∃ k lr, rows (labelrefs d) !! k = Some lr ∧ lr_ArtifactID lr = id ∧ rows (labels d) !! lr_LabelID lr = Some l.

Lemma art_Get_reading id : reading (artifact_mgr.Get id) (λ d x, rows (arts d) !! id = Some (ar_row x)).
Proof.
  unfold artifact_mgr.Get, artifact_dao.Get.
  eapply reading_conseq; [eapply reading_bind; [apply reading_Read|intros a; apply assemble_reading]|].
  intros d x (a & Ha & ->). done.
Qed.

(** A tag of the artifact [a] of the project: the option stays from the project, and a
    tag shown as signed is. *)
Definition tag_shown (d : ArtDB) (t : Tag) (o : option TagOption) (v : TagView) (o' : option TagOption) : Prop :=
  tv_Tag v = t ∧ (o = None → o' = None ∧ tv_Signed v = false) ∧
  ∀ a, rows (arts d) !! t_ArtifactID t = Some a → opt_from d (a_ProjectID a) o →
    opt_from d (a_ProjectID a) o' ∧ (tv_Signed v = true → signed_in d (a_ProjectID a) t a).

Lemma populateImmutableStatus_reading v : reading (tag_ctl.populateImmutableStatus sv v)
  (λ _ v', tv_Tag v' = tv_Tag v ∧ tv_Signed v' = tv_Signed v).
Proof.
  unfold tag_ctl.populateImmutableStatus. apply reading_skip; [kept|]. intros [a|e].
  - destruct (tag_ctl.immutable _ _ _); (eapply reading_conseq; [apply reading_ret|by intros ?? ->]).
  - eapply reading_conseq; [apply reading_ret|by intros ?? ->].
Qed.

Lemma populateTagSignature_reading v o : reading (tag_ctl.populateTagSignature sv v o)
  (λ d x, tv_Signed v = false → tag_shown d (tv_Tag v) (Some o) x.1 (Some x.2)).
Proof.
  assert (Hsame : ∀ d, tv_Signed v = false → tag_shown d (tv_Tag v) (Some o) v (Some o)).
  { intros d Hv. split_and!; [done|done|]. intros a Ha Ho. split; [done|]. by rewrite Hv. }
  unfold tag_ctl.populateTagSignature.
  eapply reading_conseq; [eapply reading_bind; [apply reading_try, art_Get_reading|]|].
  - intros r. instantiate (1 := λ r d x, (∀ a, r = Ok a → rows (arts d) !! t_ArtifactID (tv_Tag v) = Some (ar_row a)) →
      tv_Signed v = false → tag_shown d (tv_Tag v) (Some o) x.1 (Some x.2)). simpl.
    destruct r as [a|e]; [|eapply reading_conseq; [apply reading_ret|by intros ?? -> _; apply Hsame]].
    destruct (match SignatureChecker o with Some chk => Ok chk | None => _ end) as [chk|e] eqn:E;
      [|eapply reading_conseq; [apply reading_ret|by intros ?? -> _; apply Hsame]].
    eapply reading_conseq; [apply reading_ret|]. intros d x -> Hr _. specialize (Hr a eq_refl). split_and!; [done|done|].
    intros b Hb Ho. assert (b = ar_row a) as -> by (rewrite Hr in Hb; by injection Hb).
    assert (Hc : checker_of d (a_ProjectID (ar_row a)) chk).
    { destruct (SignatureChecker o) as [c|] eqn:Eo; [injection E as <-; by apply (Ho o)|]. by exists (t_ArtifactID (tv_Tag v)), (ar_row a). }
    split; [by intros y c [= <-] [= <-]|]. intros Hs. by exists chk.
  - intros d x (r & Hr & Hx). by apply Hx.
Qed.

Lemma assembleTag_reading t o : reading (tag_ctl.assembleTag sv t o) (λ d x, tag_shown d t o x.1 x.2).
Proof.
  unfold tag_ctl.assembleTag. destruct o as [o|].
  2:{ eapply reading_conseq; [apply reading_ret|]. intros d x ->. split_and!; [done|done|]. by intros a _ Ho. }
  eapply reading_conseq; [eapply (reading_bind _ _ (λ _ v, tv_Tag v = t ∧ tv_Signed v = false))|].
  - destruct (WithImmutableStatus o).
    + eapply reading_conseq; [apply populateImmutableStatus_reading|]. by intros d v [-> ->].
    + eapply reading_conseq; [apply reading_ret|by intros ?? ->].
  - intros v. instantiate (1 := λ v d x, tv_Tag v = t → tv_Signed v = false → tag_shown d t (Some o) x.1 x.2). simpl.
    destruct (WithSignature o).
    + eapply reading_conseq; [eapply reading_bind; [apply populateTagSignature_reading|]|].
      * intros [v' o']. instantiate (1 := λ y d x, x = (y.1, Some y.2)). apply reading_ret.
      * intros d x (y & Hy & ->) <- Hs. by apply Hy.
    + eapply reading_conseq; [apply reading_ret|]. intros d x -> <- Hs. split_and!; [done|done|].
      intros a Ha Ho. split; [done|]. simpl. by rewrite Hs.
  - intros d x (v & [Ht Hs] & Hx). by apply Hx.
Qed.

(** The tags of one artifact. *)
Definition tags_shown (d : ArtDB) (l : list Tag) (o : option TagOption) (vs : list TagView) (o' : option TagOption) : Prop :=
  tv_Tag <$> vs = l ∧ (o = None → o' = None ∧ ∀ v, v ∈ vs → tv_Signed v = false) ∧
  ∀ a, (∀ t, t ∈ l → rows (arts d) !! t_ArtifactID t = Some a) → opt_from d (a_ProjectID a) o →
    opt_from d (a_ProjectID a) o' ∧ ∀ v, v ∈ vs → tv_Signed v = true → signed_in d (a_ProjectID a) (tv_Tag v) a.

Lemma assembleTags_reading l : ∀ o, reading (tag_ctl.assembleTags sv l o) (λ d x, tags_shown d l o x.1 x.2).
Proof.
  induction l as [|t l IH]; intros o; cbn [tag_ctl.assembleTags].
  { eapply reading_conseq; [apply reading_ret|]. intros d x ->. split_and!; [done| |].
    - intros ->. split; [done|]. by intros v ?%elem_of_nil.
    - intros a _ Ho. split; [done|]. by intros v ?%elem_of_nil. }
  eapply reading_conseq; [eapply reading_bind; [apply assembleTag_reading|]|].
  - intros [v o1]. instantiate (1 := λ y d x, ∃ vs, x.1 = y.1 :: vs ∧ tags_shown d l y.2 vs x.2). simpl.
    eapply reading_conseq; [eapply reading_bind; [apply IH|]|].
    + intros [vs o2]. instantiate (1 := λ y d x, x = (v :: y.1, y.2)). apply reading_ret.
    + intros d x ([vs o2] & Hl & ->). by exists vs.
  - intros d [vs' o2] ([v o1] & (Ht & Hn & Hs) & vs & Hvs & Hl & Hn' & Hs'). simpl in *. subst vs'. split_and!.
    + by rewrite fmap_cons, Ht, Hl.
    + intros Ho. destruct (Hn Ho) as [H1 H2]. destruct (Hn' H1) as [H3 H4]. split; [done|].
      intros x [->|Hx]%elem_of_cons; [done|by apply H4].
    + intros a Ha Ho. destruct (Hs a) as [H1 H2]; [apply Ha; left|done|].
      destruct (Hs' a) as [H3 H4]; [intros; apply Ha; by right|done|]. split; [done|].
      intros x [->|Hx]%elem_of_cons Hsg; [rewrite Ht; by apply H2|by apply H4].
Qed.

(** A view: its row, its tags with their signatures, and its labels. *)
Definition view_shown (d : ArtDB) (v : ArtView) (sg : Tag → Prop) : Prop :=
  (∀ x, x ∈ v_Tags v → (∃ j, rows (tags d) !! j = Some (tv_Tag x)) ∧ t_ArtifactID (tv_Tag x) = a_ID (v_row v) ∧
    (tv_Signed x = true → sg (tv_Tag x))) ∧
  (∀ l, l ∈ v_Labels v → attached d (a_ID (v_row v)) l).

Definition tag_option (o : option Option) : option TagOption := o ≫= TagOption_.

Lemma populateTags_reading id o : reading (artifact_ctl.populateTags sv id o) (λ d x,
  (∀ y, y ∈ x.1 → (∃ j, rows (tags d) !! j = Some (tv_Tag y)) ∧ t_ArtifactID (tv_Tag y) = id) ∧
  (o = None → x.2 = None ∧ ∀ y, y ∈ x.1 → tv_Signed y = false) ∧
  ∀ a, rows (arts d) !! id = Some a → opt_from d (a_ProjectID a) o →
    opt_from d (a_ProjectID a) x.2 ∧ ∀ y, y ∈ x.1 → tv_Signed y = true → signed_in d (a_ProjectID a) (tv_Tag y) a).
Proof.
  unfold artifact_ctl.populateTags, tag_ctl.list_with, tag_dao.List.
  eapply reading_conseq; [eapply reading_bind; [apply reading_try; eapply reading_bind|intros r; apply reading_ret]|].
  - apply reading_skip; [unfold reads; frame|intros []; apply reading_query].
  - intros l. apply assembleTags_reading.
  - intros d x (r & Hr & ->). destruct r as [[vs o']|e]; simpl.
    2:{ split_and!; [by intros y ?%elem_of_nil|intros ->; split; [done|by intros y ?%elem_of_nil]|].
        intros a _ Ho. split; [done|]. by intros y ?%elem_of_nil. }
    destruct (Hr _ eq_refl) as (l & [= <-] & Hl & Hn & Hs). simpl in *.
    assert (Hin : ∀ t, t ∈ order_desc tag_dao.GetDefaultSorts (select (λ t, t_ArtifactID t = id) (tags d)) →
      (∃ j, rows (tags d) !! j = Some t) ∧ t_ArtifactID t = id).
    { intros t Ht. rewrite order_desc_perm in Ht. apply elem_of_select in Ht as (j & Hj & Hid). eauto. }
    split_and!; [|done|].
    + intros y Hy. apply Hin. rewrite <- Hl. by apply list_elem_of_fmap_2.
    + intros a Ha Ho. apply Hs; [|done]. intros t Ht. destruct (Hin t Ht) as [_ ->]. done.
Qed.

Lemma populateLabels_reading id : reading (artifact_ctl.populateLabels id) (λ d ls, ∀ l, l ∈ ls → attached d id l).
Proof.
  unfold artifact_ctl.populateLabels, label_dao.ListByArtifact.
  eapply reading_conseq; [eapply reading_bind;
    [apply reading_try; apply reading_skip; [unfold reads; frame|intros []; apply reading_query]|intros r; apply reading_ret]|].
  intros d ls (r & Hr & ->) l Hl. destruct r as [ls|e]; simpl in Hl; [|by apply elem_of_nil in Hl].
  specialize (Hr _ eq_refl). injection Hr as <-. apply list_elem_of_omap in Hl as (lr & Hlr & Hl).
  apply elem_of_select in Hlr as (k & Hk & Hid). by exists k, lr.
Qed.

(** The option of a view that is assembled with tags. *)
Lemma assemble_with_shown a o : reading (artifact_ctl.assemble_with sv a o) (λ d x,
  v_row x.1 = ar_row a ∧ (tag_option o = None → tag_option x.2 = None ∧ view_shown d x.1 (λ _, False)) ∧
  (rows (arts d) !! a_ID (ar_row a) = Some (ar_row a) → opt_from d (a_ProjectID (ar_row a)) (tag_option o) →
   opt_from d (a_ProjectID (ar_row a)) (tag_option x.2) ∧
   view_shown d x.1 (λ t, signed_in d (a_ProjectID (ar_row a)) t (ar_row a)))).
Proof.
  unfold artifact_ctl.assemble_with. destruct o as [o|].
  2:{ eapply reading_conseq; [apply reading_ret|]. intros d x ->.
      assert (Hv : ∀ sg, view_shown d (mkArtView a [] [] []) sg) by (intros sg; split; by intros ? ?%elem_of_nil). done. }
  set (φ := λ d (x : list TagView * option TagOption),
    (∀ y, y ∈ x.1 → (∃ j, rows (tags d) !! j = Some (tv_Tag y)) ∧ t_ArtifactID (tv_Tag y) = a_ID (ar_row a)) ∧
    (TagOption_ o = None → x.2 = None ∧ ∀ y, y ∈ x.1 → tv_Signed y = false) ∧
    ∀ b, rows (arts d) !! a_ID (ar_row a) = Some b → opt_from d (a_ProjectID b) (TagOption_ o) →
      opt_from d (a_ProjectID b) x.2 ∧ ∀ y, y ∈ x.1 → tv_Signed y = true → signed_in d (a_ProjectID b) (tv_Tag y) b).
  eapply reading_conseq; [eapply (reading_bind _ _ φ)|].
  - destruct (WithTag o); [apply populateTags_reading|]. eapply reading_conseq; [apply reading_ret|]. intros d x ->.
    split_and!; [by intros y ?%elem_of_nil|intros ->; split; [done|by intros y ?%elem_of_nil]|].
    intros b _ Ho. split; [done|]. by intros y ?%elem_of_nil.
  - intros ts. apply (reading_bind _ _ (λ d ls, ∀ l, l ∈ ls → attached d (a_ID (ar_row a)) l)
      (λ ls _ x, ∃ cs, x = (mkArtView a ts.1 ls cs, Some (mkOption (WithTag o) ts.2 (WithLabel o) (WithAccessory o))))).
    + destruct (WithLabel o); [apply populateLabels_reading|].
      eapply reading_conseq; [apply reading_ret|]. by intros d ls -> l ?%elem_of_nil.
    + intros ls. apply reading_skip; [unfold artifact_ctl.populateAccessories; kept|]. intros cs.
      eapply reading_conseq; [apply reading_ret|]. intros d x ->. by exists cs.
  - intros d x (ts & (Ht & Hn & Hs) & ls & Hls & cs & ->). cbn [fst snd]. unfold v_row. simpl. split_and!; [done| |].
    + intros Ho. destruct (Hn Ho) as [-> Hf]. split; [done|]. split; [|done]. intros y Hy. destruct (Ht y Hy) as [Hj Hid].
      split_and!; [done|done|]. by rewrite (Hf y Hy).
    + intros Ha Ho. destruct (Hs _ Ha Ho) as [Ho' Hsg]. split; [done|]. split; [|done].
      intros y Hy. destruct (Ht y Hy) as [Hj Hid]. split_and!; [done|done|by apply Hsg].
Qed.

Lemma assembleArtifacts_shown pid l : ∀ o, reading (artifact_ctl.assembleArtifacts sv l o) (λ d vs,
  (∀ x, x ∈ l → a_ProjectID (ar_row x) = pid ∧ rows (arts d) !! a_ID (ar_row x) = Some (ar_row x)) →
  opt_from d pid (tag_option o) →
  ∀ v, v ∈ vs → v_row v ∈ ar_row <$> l ∧ view_shown d v (λ t, signed_in d pid t (v_row v))).
Proof.
  induction l as [|a l IH]; intros o; cbn [artifact_ctl.assembleArtifacts].
  { eapply reading_conseq; [apply reading_ret|]. by intros d vs -> _ _ v ?%elem_of_nil. }
  eapply reading_conseq; [eapply reading_bind; [apply assemble_with_shown|]|].
  - intros x. eapply reading_bind; [apply (IH x.2)|intros vs; apply reading_ret].
  - intros d vs ([v o1] & (Hr & _ & Hs) & vs' & Hvs & ->) Hl Ho. simpl in *.
    destruct (Hl a) as [<- Ha]; [left|]. destruct (Hs Ha Ho) as [Ho1 Hv]. intros y [->|Hy]%elem_of_cons.
    + rewrite Hr. split; [left|done].
    + destruct (Hvs) with (v := y) as [Hin Hy']; [intros; apply Hl; by right|done|done|].
      split; [by right|done].
Qed.

Lemma assemble_all_reading l : reading (artifact_mgr.assemble_all l) (λ _ xs, ar_row <$> xs = l).
Proof.
  induction l as [|a l IH]; simpl; [eapply reading_conseq; [apply reading_ret|by intros ?? ->]|].
  eapply reading_conseq; [eapply reading_bind; [apply assemble_reading|intros x; eapply reading_bind; [exact IH|intros xs; apply reading_ret]]|].
  intros d xs (x & Hx & xs' & Hxs & ->). by rewrite fmap_cons, Hx, Hxs.
Qed.

(** The images of a project, as the enforcer lists them. *)
Lemma images_reading pid : reading (artifact_ctl.List sv (image_query pid) candidate_option) (λ d vs,
  table_ok a_ID (arts d) → ∀ v, v ∈ vs →
    rows (arts d) !! a_ID (v_row v) = Some (v_row v) ∧ a_ProjectID (v_row v) = pid ∧ a_Type (v_row v) = "IMAGE"%string ∧
    view_shown d v (λ t, signed_in d pid t (v_row v))).
Proof.
  unfold artifact_ctl.List, artifact_mgr.List, artifact_dao.List, artifact_dao.All.
  eapply reading_conseq; [eapply reading_bind; [eapply reading_bind; [eapply reading_bind|]|]|].
  - unfold artifact_dao.querySetter. apply reading_skip; [unfold reads; frame|intros _]. simpl.
    instantiate (1 := λ _ qs, ∀ d a, artifact_dao.qs_filter qs d a = true →
      (a_ProjectID a =? pid) && (a_Type a == "IMAGE") = true).
    eapply reading_conseq; [apply reading_ret|]. intros d qs -> d' a Hq. simpl in Hq. by do 4 apply andb_true_iff in Hq as [Hq _].
  - intros qs. apply reading_query.
  - intros l. apply assemble_all_reading.
  - intros xs. apply (assembleArtifacts_shown pid).
  - intros d vs (xs & (l & (qs & Hq & Hl) & Hxs) & Hvs) Hok v Hv.
    destruct (artifact_dao.qs_err qs); [done|]. injection Hl as <-.
    assert (Hrow : ∀ a, a ∈ ar_row <$> xs → rows (arts d) !! a_ID a = Some a ∧ a_ProjectID a = pid ∧ a_Type a = "IMAGE"%string).
    { intros a Ha. rewrite Hxs, order_desc_perm in Ha. apply elem_of_select in Ha as (i & Hi & Hf).
      destruct (Hok _ _ Hi) as [-> _]. apply Hq, andb_true_iff in Hf as [H1 H2]. apply bool_decide_eq_true in H2. split_and!; [done|lia|done]. }
    destruct (Hvs) with (v := v) as [Hin Hs]; [| |done|].
    + intros x Hx. destruct (Hrow (ar_row x)) as (? & ? & ?); [by apply list_elem_of_fmap_2|]. done.
    + intros x chk [= <-] [=].
    + destruct (Hrow _ Hin) as (? & ? & ?). done.
Qed.

(** An artifact of an event: no tag of it is shown as signed. *)
Lemma event_view a : reading (artifact_ctl.assembleArtifact sv a event_option)
  (λ d v, v_row v = ar_row a ∧ view_shown d v (λ _, False)).
Proof.
  unfold artifact_ctl.assembleArtifact.
  eapply reading_conseq; [eapply reading_bind; [apply assemble_with_shown|intros x; apply reading_ret]|].
  intros d v (x & (Hr & Hn & _) & ->). split; [done|]. by apply Hn.
Qed.

Lemma event_Get_reading id : reading (artifact_ctl.Get sv id event_option)
  (λ d v, rows (arts d) !! id = Some (v_row v) ∧ view_shown d v (λ _, False)).
Proof.
  unfold artifact_ctl.Get.
  eapply reading_conseq; [eapply reading_bind; [apply art_Get_reading|intros a; apply event_view]|].
  intros d v (a & Ha & Hr & Hv). by rewrite Hr.
Qed.

Lemma event_GetByReference_reading repository digest : reading (artifact_ctl.GetByReference sv repository digest event_option)
  (λ d v, (∃ i, rows (arts d) !! i = Some (v_row v)) ∧ view_shown d v (λ _, False)).
Proof.
  unfold artifact_ctl.GetByReference. destruct (digest_Parse sv digest).
  - unfold artifact_ctl.getByDigest, artifact_mgr.GetByDigest.
    eapply reading_conseq; [eapply reading_bind; [eapply reading_bind; [apply dao_GetByDigest_reading|intros a; apply assemble_reading]|]|].
    + intros a. apply event_view.
    + intros d v (x & (a & Ha & Hx) & Hr & Hv). split; [|done]. rewrite Hr, Hx.
      apply head_Some_elem_of in Ha. rewrite order_desc_perm in Ha. apply elem_of_select in Ha as (i & Hi & _). eauto.
  - unfold artifact_ctl.getByTag. apply reading_skip; [kept|intros p].
    apply reading_skip; [kept|intros l]. destruct l as [|x l]; [apply reading_fail|].
    eapply reading_conseq; [apply event_Get_reading|]. intros d v [Ha Hv]. eauto.
Qed.

End views.

(** ** Candidates *)

Lemma SevCode_range s : 0 <= SevCode s <= 99.
Proof. unfold SevCode. repeat case_match; lia. Qed.

Section enforcing.
Context `{PC : PreheatConfig} `{SC : ScanConfig}.

(** What the enforcer changes before it launches anything: a reference to a scanner
    that is gone. *)
Definition looked (pid : Z) (d d' : PreDB) : Prop :=
  same_scan pid (harbor_of d) (harbor_of d') ∧ schedules d' = schedules d ∧
  x_policies (rest d') = x_policies (rest d) ∧ x_instances (rest d') = x_instances (rest d).
#[local] Instance looked_preorder pid : PreOrder (looked pid).
Proof.
  split; [intros d; by split_and!|]. intros d1 d2 d3 (? & ? & ? & ?) (? & ? & ? & ?). split_and!; by etrans.
Qed.

Lemma harbor_set h d : harbor_of (set_harbor h d) = h.
Proof. by destruct h. Qed.
Lemma set_harbor_id d : set_harbor (harbor_of d) d = d.
Proof. by destruct d as [? ? []]. Qed.

Lemma on_harbor_reading {A} (m : M HarborDB A) φ : reading m φ → reading (on_harbor m) (λ d, φ (harbor_of d)).
Proof. apply reading_zoom, set_harbor_id. Qed.
Lemma on_harbor_looked {A} pid (m : M HarborDB A) (Q : A → Prop) d d1 : looked pid d d1 →
  spec (λ h, h = harbor_of d1) m (λ a h, same_scan pid (harbor_of d) h ∧ Q a) (same_scan pid (harbor_of d)) →
  spec (λ x, x = d1) (on_harbor m) (λ a x, looked pid d x ∧ Q a) (looked pid d).
Proof.
  intros (_ & H1 & H2 & H3) Hm. apply spec_zoom. intros x ->.
  assert (Hl : ∀ h, same_scan pid (harbor_of d) h → looked pid d (set_harbor h d1)).
  { intros h Hh. split_and!; simpl; [by rewrite harbor_set|done..]. }
  eapply spec_conseq; [apply Hm|done| |]; [intros a h [? ?]; split; [by apply Hl|done]|exact Hl].
Qed.

(** The severity of an artifact that a scanner supports. *)
Definition rated (d : PreDB) (pro : ProjectStore.ProjectView) (a : Artifact) (sev : Z) : Prop :=
  ∀ bar rg, bar <= defaultSeverityCode → sev < bar → supports (harbor_of d) a rg →
    scanned_below (harbor_of d) (ProjectStore.pv_Project pro) a rg bar.

Section project.
Context (d : PreDB) (pro : ProjectStore.ProjectView).
Hypothesis Hok : scans_ok (x_scan (rest d)).
Hypothesis Hshow : shows ProjectStore.effective_allowlist (hproj (harbor_of d)) pro.

Lemma getVulnerabilitySev_spec fuel v d1 : looked (a_ProjectID (v_row v)) d d1 →
  spec (λ x, x = d1) (getVulnerabilitySev fuel pro v)
    (λ o x, looked (a_ProjectID (v_row v)) d x ∧ ∀ sev, o = Some sev → rated d pro (v_row v) sev)
    (looked (a_ProjectID (v_row v)) d).
Proof.
  intros H1. destruct Hshow as [Hmeta Hallow]. specialize (Hmeta eq_refl eq_refl). specialize (Hallow eq_refl eq_refl).
  set (allow := ProjectStore.allowlist.CVESet (ProjectStore.pv_Allowlist pro)).
  set (Q := λ o : option Vulnerable, ∀ rg vb, supports (harbor_of d) (v_row v) rg → o = Some vb → verdict (harbor_of d) v rg allow vb).
  assert (Hvul : spec (λ x, x = d1) (on_harbor (GetVulnerable None fuel v allow))
    (λ o x, looked (a_ProjectID (v_row v)) d x ∧ Q o) (looked (a_ProjectID (v_row v)) d)).
  { apply on_harbor_looked; [done|]. intros w r w' Hw H. pose proof (GetVulnerable_same_scan _ _ _ _ _ _ H) as Hs.
    rewrite Hw in Hs. destruct H1 as [Hd1 _].
    assert (Hs' : same_scan (a_ProjectID (v_row v)) (harbor_of d) (db w')) by (by etrans). destruct r as [o|e]; [|done]. split; [done|].
    intros rg vb (Hr & Hty & Hcap & Hacc) ->.
    assert (Hc : hasCapability (scanner_ctl.pinged rg) v = true) by (unfold hasCapability; by rewrite Hty, Hcap, bool_decide_true).
    destruct (GetVulnerable_supported (harbor_of d) v rg Hr Hc Hacc Hok fuel allow _ Hd1 _ _ _ Hw H) as [_ Hv]. by apply Hv. }
  unfold getVulnerabilitySev. fold allow. eapply spec_bind; [apply (spec_try _ _ _ _ _ Hvul)|].
  assert (H99 : ∀ sev, Some defaultSeverityCode = Some sev → rated d pro (v_row v) sev).
  { intros sev [= <-] bar rg Hb Hlt. unfold defaultSeverityCode in *. lia. }
  intros [[vb|]|e].
  - apply spec_ret. intros x [Hx HQ]. split; [done|]. intros sev [= <-]. destruct (IsScanSuccess vb) eqn:Es; cbn [negb]; [|by apply H99].
    intros bar rg _ Hlt Hsup. apply (verdict_below _ pro v rg vb); try done; [apply Hsup|by apply HQ|].
    intros s Hs. by rewrite Hs in Hlt.
  - apply spec_ret. by intros x [Hx _].
  - destruct (IsNotFoundErr e); [|by apply spec_fail]. apply spec_ret. intros x Hx. by split.
Qed.

(** A candidate comes from a tag of an artifact of the list. *)
Definition drawn (arts : list ArtView) (c : Candidate) : Prop :=
  ∃ v tv sev, v ∈ arts ∧ tv ∈ v_Tags v ∧ c = candidate_of (ProjectStore.pv_Project pro) v sev tv ∧ rated d pro (v_row v) sev.

Lemma toCandidates_spec fuel pid arts : ∀ d1, (∀ v, v ∈ arts → a_ProjectID (v_row v) = pid) → looked pid d d1 →
  spec (λ x, x = d1) (toCandidates fuel pro arts)
    (λ o x, looked pid d x ∧ ∀ cs, o = Some cs → ∀ c, c ∈ cs → drawn arts c) (looked pid d).
Proof.
  induction arts as [|v arts IH]; intros d1 Hp H1; cbn [toCandidates].
  { apply spec_ret. intros x ->. split; [done|]. by intros cs [= <-] c ?%elem_of_nil. }
  pose proof (Hp v ltac:(left)) as Hv. unfold fbind.
  eapply spec_bind; [rewrite <- Hv; apply getVulnerabilitySev_spec; by rewrite Hv|].
  intros [sev|]; [|apply spec_ret; intros x [Hx _]; rewrite Hv in Hx; by split].
  apply spec_exact. intros d2 [H2 Hsev]. rewrite Hv in H2. specialize (Hsev sev eq_refl).
  eapply spec_bind; [apply IH; [intros; apply Hp; by right|exact H2]|].
  intros [cs|]; [|apply spec_ret; intros x [Hx _]; by split].
  apply spec_ret. intros x [Hx Hcs]. split; [done|]. intros l [= <-] c [Hc|Hc]%elem_of_app.
  - apply list_elem_of_fmap in Hc as (tv & -> & Htv). exists v, tv, sev. split_and!; [left|done..].
  - destruct (Hcs cs eq_refl c Hc) as (y & tv & s & Hy & ?). exists y, tv, s. split; [by right|done].
Qed.

End project.

(** ** Images that may be preheated *)

Inductive demand := ByPolicy (id : Z) | ByEvent (e : Event).

(** The labels a text names. *)
Definition wanted (s : string) : list string := if s == "" then [] else Split s ","%char.

(** What a filter of the policy, other than those on security, says of an image. *)
Definition filter_holds (f : Filter) (repository tag : string) (labels : list string) : Prop :=
  ∃ s, fl_Value f = VString s ∧
    (fl_Type f = FilterTypeRepository ∧ match_ (doublestar_Match scan_sv) s repository = Ok true ∨
     fl_Type f = FilterTypeTag ∧ match_ (doublestar_Match scan_sv) s tag = Ok true ∨
     fl_Type f = FilterTypeLabel ∧ ∀ l, l ∈ wanted s → l ∈ labels).

Lemma passes_holds f c t : Tags c = [t] → security_filter f = false → passes (doublestar_Match scan_sv) f c →
  filter_holds f (Repository c) t (Labels c).
Proof.
  intros Ht Hsec (sl & Hb & Hs). unfold security_filter in Hsec. apply orb_false_iff in Hsec as [Hn1 Hn2].
  apply bool_decide_eq_false in Hn1, Hn2. unfold buildFilter in Hb.
  destruct (fl_Value f) as [|s|b|n|n|l|] eqn:Ev; try done.
  all: rewrite (bool_decide_false (fl_Type f = FilterTypeSignature)), (bool_decide_false (fl_Type f = FilterTypeVulnerability)) in Hb by done.
  all: case_bool_decide as Hin; try done. exists s. split; [done|]. injection Hb as <-.
  repeat (apply elem_of_cons in Hin as [Hin|Hin]); [| | |by apply elem_of_nil in Hin]; rewrite Hin in Hs; simpl in Hs.
  - left. split; [done|]. unfold doublestar_one in Hs. simpl in Hs. unfold value_select in Hs. destruct (bool_decide (Repository c = _)); [done|].
    destruct (match_ _ s _) as [[]|]; done.
  - right. left. split; [done|]. unfold doublestar_one in Hs. simpl in Hs. unfold tagSelectMatch in Hs. rewrite Ht in Hs. simpl in Hs.
    destruct (match_ _ s t) as [[]|]; done.
  - right. right. split; [done|]. injection Hs as Hs. intros l Hl. unfold isMatched in Hs.
    rewrite forallb_forall in Hs. specialize (Hs l (proj1 (list_elem_of_In _ _) Hl)). apply andb_true_iff in Hs as [_ Hs].
    simpl in Hs. case_bool_decide; done.
Qed.

(** The project prevents vulnerable images and names the severity with this code. *)
Definition bar_of (m : gmap string string) (bar : Z) : Prop :=
  ∃ se, m !! "prevent_vul"%string = Some "true"%string ∧ m !! "severity"%string = Some se ∧ se ≠ ""%string ∧
    bar = SevCode (title (ProjectStore.ToLower se)).
Lemma bar_severity m bar : bar_of m bar → severity_bar m = Some bar.
Proof.
  intros (se & Hp & Hs & Hne & ->). unfold severity_bar. rewrite bool_decide_true by done. rewrite Hs.
  by rewrite bool_decide_false.
Qed.

(** The policy, the project, the artifact and the tag behind a candidate, and what holds
    of them.  An event never finds a signature. *)
Definition eligible (d : PreDB) (q : demand) (c : Candidate) : Prop :=
  ∃ k r s p i a j t, let h := harbor_of d in
    rows (x_policies (rest d)) !! k = Some r ∧ Decode r = Ok s ∧ pp_Enabled r = true ∧
    rows (ProjectStore.projects (hproj h)) !! pp_ProjectID r = Some p ∧ ProjectStore.j_Deleted p = false ∧
    rows (arts (hart h)) !! i = Some a ∧ a_ProjectID a = pp_ProjectID r ∧
    rows (tags (hart h)) !! j = Some t ∧ t_ArtifactID t = a_ID a ∧
    (Namespace c = ProjectStore.j_Name p ∧ Repository c = pureRepository (ProjectStore.j_Name p) (a_RepositoryName a) ∧
     Tags c = [t_Name t] ∧ Digest c = a_Digest a) ∧
    (∀ f, f ∈ sc_Filters s → security_filter f = false →
       ∃ ls, filter_holds f (Repository c) (t_Name t) (l_Name <$> ls) ∧ ∀ l, l ∈ ls → attached (hart h) (a_ID a) l) ∧
    (let m := ProjectStore.pv_Metadata (settings h p) in
     (m !! "enable_content_trust"%string = Some "true"%string →
        match q with ByPolicy _ => signed_in scan_sv (hart h) (a_ProjectID a) t a | ByEvent _ => False end) ∧
     (∀ bar, bar_of m bar → ∀ rg, supports h a rg → scanned_below h p a rg bar)) ∧
    match q with
    | ByPolicy id => k = id ∧ a_Type a = "IMAGE"%string
    | ByEvent _ => tg_Type <$> sc_Trigger s = Some TriggerTypeEventBased
    end.

Definition sign_of (d : PreDB) (q : demand) (a : Artifact) (t : Tag) : Prop :=
  match q with ByPolicy _ => signed_in scan_sv (hart (harbor_of d)) (a_ProjectID a) t a | ByEvent _ => False end.

(** A candidate that passes the filters with the settings of the project in place. *)
Lemma filtered_eligible d q k r s pro (arts_ : list ArtView) c :
  rows (x_policies (rest d)) !! k = Some r → Decode r = Ok s → pp_Enabled r = true →
  rows (ProjectStore.projects (hproj (harbor_of d))) !! pp_ProjectID r = Some (ProjectStore.pv_Project pro) →
  ProjectStore.j_Deleted (ProjectStore.pv_Project pro) = false →
  ProjectStore.pv_Metadata pro = metadata (hproj (harbor_of d)) (ProjectStore.j_ProjectID (ProjectStore.pv_Project pro)) [] →
  (∀ v, v ∈ arts_ → (∃ i, rows (arts (hart (harbor_of d))) !! i = Some (v_row v)) ∧ a_ProjectID (v_row v) = pp_ProjectID r ∧
    view_shown (hart (harbor_of d)) v (sign_of d q (v_row v)) ∧
    match q with ByPolicy id => k = id ∧ a_Type (v_row v) = "IMAGE"%string
               | ByEvent _ => tg_Type <$> sc_Trigger s = Some TriggerTypeEventBased end) →
  drawn d pro arts_ c →
  (∀ f, f ∈ sc_Filters (overrideSecuritySettings s pro) → passes (doublestar_Match scan_sv) f c) → eligible d q c.
Proof.
  intros Hk Hdec Hen Hp Hlive Hmeta Hv (v & tv & sev & Hin & Htv & -> & Hrated) Hpass.
  destruct (Hv v Hin) as ((i & Hi) & Hpid & (Hts & Hls) & Hq). destruct (Hts tv Htv) as ((j & Hj) & Hid & Hsg).
  exists k, r, s, (ProjectStore.pv_Project pro), i, (v_row v), j, (tv_Tag tv). cbv zeta.
  assert (Hsig : ProjectStore.pv_Metadata pro !! "enable_content_trust"%string = Some "true"%string → sign_of d q (v_row v) (tv_Tag tv)).
  { intros Hm. apply Hsg. assert (Hf : mkFilter FilterTypeSignature (VBool true) ∈ sc_Filters (overrideSecuritySettings s pro)).
    { unfold overrideSecuritySettings, override. simpl. rewrite bool_decide_true by done. set_solver. }
    assert (Hx := Hpass _ Hf). apply (passes_signature _ _ (t_Name (tv_Tag tv))) in Hx; [|done]. simpl in Hx.
    rewrite lookup_singleton_eq in Hx. by injection Hx. }
  assert (Hbar : ∀ bar, severity_bar (ProjectStore.pv_Metadata pro) = Some bar → ∀ rg, supports (harbor_of d) (v_row v) rg →
    scanned_below (harbor_of d) (ProjectStore.pv_Project pro) (v_row v) rg bar).
  { intros bar Hb rg Hsup. assert (Hr : 0 <= bar <= 99).
    { unfold severity_bar in Hb. repeat case_match; simplify_eq; apply SevCode_range. }
    assert (Hf : mkFilter FilterTypeVulnerability (VInt bar) ∈ sc_Filters (overrideSecuritySettings s pro)).
    { unfold overrideSecuritySettings, override. simpl. rewrite Hb. set_solver. }
    assert (Hlt := Hpass _ Hf). apply passes_vulnerability in Hlt; [|lia]. simpl in Hlt.
    apply (Hrated bar rg); [unfold defaultSeverityCode; lia|done|done]. }
  split_and!; try done.
  - intros f Hf Hsec. exists (v_Labels v). split; [|done].
    eapply (passes_holds f (candidate_of _ v sev tv) (t_Name (tv_Tag tv)) eq_refl Hsec), Hpass. unfold overrideSecuritySettings, override. simpl.
    apply elem_of_app. left. apply list_elem_of_In, filter_In. split; [by apply list_elem_of_In|]. by rewrite Hsec.
  - intros Hm. simpl in Hm. rewrite <- Hmeta in Hm. specialize (Hsig Hm). by destruct q.
  - intros bar Hb. simpl in Hb. rewrite <- Hmeta in Hb. by apply Hbar, bar_severity.
Qed.

(** ** The selection *)

Lemma policy_Get_reading id : reading (on_rest (policy_mgr.Get id)) (λ d : PreDB, λ s,
  ∃ r, rows (x_policies (rest d)) !! id = Some r ∧ Decode r = Ok s).
Proof.
  apply (on_rest_reading _ (λ x s, ∃ r, rows (x_policies x) !! id = Some r ∧ Decode r = Ok s)). unfold policy_mgr.Get, policy_dao.Get.
  eapply reading_conseq; [eapply reading_bind; [apply reading_Read|intros r; apply reading_of_result]|].
  intros d s (r & Hr & Hs). eauto.
Qed.

Lemma Decode_row r s : Decode r = Ok s → sc_Row s = r.
Proof. unfold Decode. destruct (decodeFilters _); [|done]. destruct (decodeTrigger _); [|done]. by intros [= <-]. Qed.

Lemma decode_all_rows l ss : policy_mgr.decode_all l = Ok ss → ∀ s, s ∈ ss → ∃ r, r ∈ l ∧ Decode r = Ok s.
Proof.
  revert ss. induction l as [|r l IH]; intros ss; simpl; [intros [= <-] s ?%elem_of_nil; done|].
  destruct (Decode r) as [x|e] eqn:E; [|done]. destruct (policy_mgr.decode_all l) as [xs|e]; [|done].
  intros [= <-] s [->|Hs]%elem_of_cons; [exists r; by split; [left|]|].
  destruct (IH xs eq_refl s Hs) as (r' & Hr & Hd). exists r'. split; [by right|done].
Qed.

Lemma policies_reading (P : PolicyRow → Prop) `{!∀ r, Decision (P r)} :
  reading (on_rest (policy_mgr.ListPolicies P)) (λ d : PreDB, λ ss,
    ∀ s, s ∈ ss → ∃ k r, rows (x_policies (rest d)) !! k = Some r ∧ P r ∧ Decode r = Ok s).
Proof.
  apply (on_rest_reading _ (λ x ss, ∀ s, s ∈ ss → ∃ k r, rows (x_policies x) !! k = Some r ∧ P r ∧ Decode r = Ok s)).
  unfold policy_mgr.ListPolicies, policy_dao.List_.
  eapply reading_conseq; [eapply reading_bind; [apply reading_skip; [unfold reads; frame|intros []; apply reading_query]|
    intros l; apply reading_of_result]|].
  intros d ss (l & [= <-] & Hss) s Hs. destruct (decode_all_rows _ _ Hss s Hs) as (r & Hr & Hd).
  apply elem_of_select in Hr as (k & Hk & HP). eauto.
Qed.

Lemma getProject_reading id : reading (getProject id) (λ d pro,
  rows (ProjectStore.projects (hproj (harbor_of d))) !! id = Some (ProjectStore.pv_Project pro) ∧
  ProjectStore.j_Deleted (ProjectStore.pv_Project pro) = false ∧
  shows ProjectStore.effective_allowlist (hproj (harbor_of d)) pro).
Proof.
  apply (on_harbor_reading _ (λ h pro, rows (ProjectStore.projects (hproj h)) !! id = Some (ProjectStore.pv_Project pro) ∧
    ProjectStore.j_Deleted (ProjectStore.pv_Project pro) = false ∧ shows ProjectStore.effective_allowlist (hproj h) pro)).
  apply (on_proj_reading _ (λ x pro, rows (ProjectStore.projects x) !! id = Some (ProjectStore.pv_Project pro) ∧
    ProjectStore.j_Deleted (ProjectStore.pv_Project pro) = false ∧ shows ProjectStore.effective_allowlist x pro)).
  apply project_GetByID_reading.
Qed.

Context (healthy : Instance_ → result unit).

Lemma select_images_eligible fuel id d : table_ok a_ID (arts (x_art (rest d))) → scans_ok (x_scan (rest d)) →
  spec (λ x, x = d) (select_images healthy fuel id)
    (λ o x, ∀ y, o = Some y → ∀ c, c ∈ y.2 → eligible d (ByPolicy id) c) (λ _, True).
Proof.
  intros Hart Hok. unfold select_images. eapply spec_read_bind; [apply policy_Get_reading|done|].
  intros s (r & Hr & Hdec). pose proof (Decode_row _ _ Hdec) as Hrow. rewrite Hrow.
  destruct (pp_Enabled r) eqn:Hen; cbn [negb]; [|by apply spec_fail].
  eapply spec_read_bind; [apply on_rest_reading; unfold instance_dao.Get; apply reading_Read|done|]. intros inst _.
  eapply spec_read_bind; [apply reading_of_result|done|]. intros _ _.
  eapply spec_read_bind; [apply getProject_reading|done|]. intros pro (Hp & Hlive & Hshow). unfold fbind, getCandidates. rewrite Hrow.
  apply (spec_bind _ _ (λ o _, ∀ cs, o = Some cs → ∃ l, (∀ v, v ∈ l → (∃ i, rows (arts (hart (harbor_of d))) !! i = Some (v_row v)) ∧
    a_ProjectID (v_row v) = pp_ProjectID r ∧ view_shown (hart (harbor_of d)) v (sign_of d (ByPolicy id) (v_row v)) ∧
    id = id ∧ a_Type (v_row v) = "IMAGE"%string) ∧ ∀ c, c ∈ cs → drawn d pro l c)).
  - eapply spec_read_bind; [apply on_harbor_reading, on_art_reading, images_reading|done|]. intros l Hl. specialize (Hl Hart).
    eapply spec_conseq; [apply (toCandidates_spec d pro Hok Hshow fuel (pp_ProjectID r) l d); [by intros v Hv; apply Hl|done]|done| |done].
    intros o x [_ Ho] cs ->. exists l. split; [|by apply Ho]. intros v Hv. destruct (Hl v Hv) as (Hi & Hpid & Hty & Hs).
    split_and!; [eauto|done| |done|done]. unfold sign_of. by rewrite Hpid.
  - intros [cs|]; [|apply spec_ret; naive_solver]. apply spec_exact. intros x Hcs. specialize (Hcs cs eq_refl) as (l & Hl & Hdr).
    eapply spec_read_bind; [apply reading_of_result|done|]. intros out Hout. apply spec_ret. intros _ _ y [= <-] c Hc. simpl in Hc.
    destruct (filter_exact _ _ _ _ c Hout) as [_ He]. apply He in Hc as [Hin Hpass].
    destruct Hshow as [Hmeta _]. eapply filtered_eligible; try done; [by apply Hmeta|by apply Hdr].
Qed.

Lemma elem_of_matched pro cs l x : x ∈ matched_policies pro cs l → ∃ pl, pl ∈ l ∧ pp_Enabled (sc_Row pl) = true ∧
  tg_Type <$> sc_Trigger pl = Some TriggerTypeEventBased ∧
  Filter_ (doublestar_Match scan_sv) (BuildFrom (sc_Filters (overrideSecuritySettings pl pro))) cs = Ok x.2.
Proof.
  induction l as [|pl l IH]; cbn [matched_policies]; [by intros ?%elem_of_nil|].
  assert (Hrest : x ∈ matched_policies pro cs l → ∃ pl0, pl0 ∈ pl :: l ∧ pp_Enabled (sc_Row pl0) = true ∧
    tg_Type <$> sc_Trigger pl0 = Some TriggerTypeEventBased ∧
    Filter_ (doublestar_Match scan_sv) (BuildFrom (sc_Filters (overrideSecuritySettings pl0 pro))) cs = Ok x.2).
  { intros Hx. destruct (IH Hx) as (y & Hy & ?). exists y. split; [by right|done]. }
  destruct (pp_Enabled (sc_Row pl)) eqn:Hen; cbn [negb]; [|done]. case_bool_decide as Ht; cbn [negb]; [|done].
  destruct (Filter_ _ _ _) as [[|c out]|e] eqn:E; [done| |done].
  intros [->|Hx]%elem_of_cons; [|by apply Hrest]. exists pl. split_and!; [left|done..].
Qed.

Lemma match_artifact_eligible fuel e v d : (∃ i, rows (arts (x_art (rest d))) !! i = Some (v_row v)) →
  view_shown (x_art (rest d)) v (λ _, False) → scans_ok (x_scan (rest d)) →
  spec (λ x, x = d) (match_artifact fuel v)
    (λ o _, ∀ l, o = Some l → ∀ x c, x ∈ l → c ∈ x.2 → eligible d (ByEvent e) c) (λ _, True).
Proof.
  intros Hi Hv Hok. unfold match_artifact.
  eapply spec_read_bind; [apply getProject_reading|done|]. intros pro (Hp & Hlive & Hshow). unfold fbind.
  eapply spec_bind; [eapply spec_conseq;
    [apply (toCandidates_spec d pro Hok Hshow fuel (a_ProjectID (v_row v)) [v] d);
       [by intros y ->%list_elem_of_singleton|done]|done|intros o x H; exact H|done]|].
  intros [cs|]; [|apply spec_ret; naive_solver]. apply spec_exact. intros d2 [(_ & _ & Hpol & _) Hcs]. specialize (Hcs cs eq_refl).
  eapply spec_read_bind; [apply policies_reading|done|]. intros ss Hss. cbv beta in Hss; rewrite Hpol in Hss.
  apply spec_ret. intros _ _ l [= <-] x c Hx Hc.
  apply elem_of_matched in Hx as (pl & Hin & Hen & Ht & Hf). destruct (Hss pl Hin) as (k & r & Hk & Hpid & Hdec).
  pose proof (Decode_row _ _ Hdec) as Hrow. rewrite Hrow in Hen.
  destruct (filter_exact _ _ _ _ c Hf) as [_ He]. apply He in Hc as [Hc Hpass]. destruct Hshow as [Hmeta _].
  rewrite <- Hpid in Hp. apply (filtered_eligible d (ByEvent e) k r pl pro [v]); try done; [by apply Hmeta| |by apply Hcs].
  intros y ->%list_elem_of_singleton. split_and!; done.
Qed.

(** ** Launching *)

(** Two job services that treat the images that satisfy [E] alike. *)
Definition agree (E : Candidate → Prop) (js js' : string → string → JsClient) : Prop :=
  ∀ ins c pi data, E c → preheat_image c = Ok pi → marshal_image pi = Ok data → js ins data = js' ins data.

Section launch.
Context (E : Candidate → Prop) (js js' : string → string → JsClient).
Hypothesis Hjs : agree E js js'.

Lemma bind_cong {D A B} (m m' : M D A) (k k' : A → M D B) w : m w = m' w → (∀ a w', k a w' = k' a w') → (m ≫= k) w = (m' ≫= k') w.
Proof. intros Hm Hk. rewrite !bind_eq, Hm. destruct (m' w) as [[a|e] w']; [apply Hk|done]. Qed.
Lemma try_cong {D A} (m m' : M D A) w : m w = m' w → try m w = try m' w.
Proof. unfold try. by intros ->. Qed.

Lemma startTask_agree eid c ins w : E c → startTask js eid c ins w = startTask js' eid c ins w.
Proof.
  intros Hc. unfold startTask, of_result. rewrite !bind_eq. destruct (preheat_image c) as [pi|e] eqn:E1; [|done].
  rewrite !bind_eq. destruct (marshal_image pi) as [data|e] eqn:E2; [|done]. by rewrite (Hjs ins c pi data).
Qed.

Lemma start_tasks_agree eid ins l : ∀ w, (∀ c, c ∈ l → E c) → start_tasks js eid l ins w = start_tasks js' eid l ins w.
Proof.
  induction l as [|c l IH]; intros w Hl; cbn [start_tasks]; [done|].
  apply bind_cong; [apply try_cong, startTask_agree, Hl; left|]. intros r w1.
  apply bind_cong; [apply IH; intros; apply Hl; by right|done].
Qed.

Lemma launchExecutions_agree cs pl inst w : (∀ c, c ∈ cs → E c) → launchExecutions js cs pl inst w = launchExecutions js' cs pl inst w.
Proof.
  intros Hcs. unfold launchExecutions. destruct (sc_Trigger pl) as [tr|]; [|done]. apply bind_cong; [done|]. intros eid w1.
  destruct cs as [|c cs]; [done|]. destruct (ToJSON inst) as [ins|e]; [|done].
  apply bind_cong; [by apply start_tasks_agree|done].
Qed.

Lemma launch_matched_agree l : ∀ w, (∀ x c, x ∈ l → c ∈ x.2 → E c) → launch_matched healthy js l w = launch_matched healthy js' l w.
Proof.
  induction l as [|[pl cs] l IH]; intros w Hl; cbn [launch_matched]; [done|].
  apply bind_cong.
  - apply try_cong. apply bind_cong; [done|]. intros inst w1. apply bind_cong; [done|]. intros _ w2. apply launchExecutions_agree.
    intros c Hc. apply (Hl (pl, cs)); [left|done].
  - intros r w1. apply bind_cong; [|done]. apply IH. intros x c Hx. apply Hl. by right.
Qed.

End launch.

Definition enforce (js : string → string → JsClient) (fuel : nat) (q : demand) : MP (option unit) :=
  match q with
  | ByPolicy id => _ <~~ EnforcePolicy healthy js fuel id; mret (Some tt)
  | ByEvent e => Handle healthy js fuel e
  end.

Lemma wrapping_cong {A} f (m m' : MP A) w : m w = m' w → wrapping f m w = wrapping f m' w.
Proof. intros Hm. apply bind_cong; [by apply try_cong|done]. Qed.

Lemma EnforcePolicy_agree js js' fuel id w : table_ok a_ID (arts (x_art (rest (db w)))) → scans_ok (x_scan (rest (db w))) →
  agree (eligible (db w) (ByPolicy id)) js js' → EnforcePolicy healthy js fuel id w = EnforcePolicy healthy js' fuel id w.
Proof.
  intros Hart Hok Hjs. apply wrapping_cong. unfold fbind. rewrite !(bind_eq (select_images _ _ _)).
  destruct (select_images healthy fuel id w) as [[[x|]|e] w1] eqn:Es; [|done|done].
  pose proof (select_images_eligible fuel id (db w) Hart Hok w _ _ eq_refl Es x eq_refl) as He.
  apply bind_cong; [|done]. by apply (launchExecutions_agree _ _ _ Hjs).
Qed.

Lemma preheat_it_agree js js' fuel e v w : (∃ i, rows (arts (x_art (rest (db w)))) !! i = Some (v_row v)) →
  view_shown (x_art (rest (db w))) v (λ _, False) → scans_ok (x_scan (rest (db w))) →
  agree (eligible (db w) (ByEvent e)) js js' → preheat_it healthy js fuel v w = preheat_it healthy js' fuel v w.
Proof.
  intros Hi Hv Hok Hjs. apply bind_cong; [|done]. apply wrapping_cong. unfold fbind. rewrite !(bind_eq (match_artifact _ _)).
  destruct (match_artifact fuel v w) as [[[l|]|er] w1] eqn:Es; [|done|done].
  pose proof (match_artifact_eligible fuel e v (db w) Hi Hv Hok w _ _ eq_refl Es l eq_refl) as He.
  apply bind_cong; [|done]. by apply (launch_matched_agree _ _ _ Hjs).
Qed.

(** The read of the event's artifact comes first. *)
Lemma event_agree {A} (m : M ArtDB A) (φ : ArtDB → A → Prop) (k k' : A → MP (option unit)) w : reading m φ →
  (∀ a w1, db w1 = db w → φ (x_art (rest (db w))) a → k a w1 = k' a w1) →
  (a ← on_harbor (on_art m); k a) w = (a ← on_harbor (on_art m); k' a) w.
Proof.
  intros Hm Hk. rewrite !bind_eq. destruct (on_harbor (on_art m) w) as [[a|e] w1] eqn:E; [|done].
  destruct (on_harbor_reading _ _ (on_art_reading _ _ Hm) _ _ _ E) as [Hd Ha]. apply Hk; [done|by apply Ha].
Qed.

Lemma view_shown_tags d v sg ts : ts ⊆ v_Tags v → view_shown d v sg → view_shown d (with_tags ts v) sg.
Proof. intros Hts [Ht Hl]. split; [|done]. intros x Hx. by apply Ht, Hts. Qed.

Lemma Handle_agree js js' fuel e w : scans_ok (x_scan (rest (db w))) →
  agree (eligible (db w) (ByEvent e)) js js' → Handle healthy js fuel e w = Handle healthy js' fuel e w.
Proof.
  intros Hok Hjs. destruct e as [a ts|repository digest|id]; cbn [Handle].
  - unfold handlePushArtifact. destruct (negb _); [done|]. destruct ts as [|t ts]; [done|].
    apply (event_agree _ _ _ _ _ (event_Get_reading _ _)). intros v w1 Hd [Hi Hv]. rewrite <- Hd in *.
    apply preheat_it_agree with (PushArtifactEvent a (t :: ts)); [eauto| |done|done]. apply view_shown_tags; [|done].
    intros x Hx. destruct (List.find _ _) as [y|] eqn:Ef; simpl in Hx; [|by apply elem_of_nil in Hx].
    apply list_elem_of_singleton in Hx as ->. apply find_some in Ef as [Hin _]. by apply list_elem_of_In.
  - apply (event_agree _ _ _ _ _ (event_GetByReference_reading _ _ _)). intros v w1 Hd [Hi Hv]. rewrite <- Hd in *.
    by apply preheat_it_agree with (ScanImageEvent repository digest).
  - apply (event_agree _ _ _ _ _ (event_Get_reading _ _)). intros v w1 Hd [Hi Hv]. rewrite <- Hd in *.
    destruct (negb _); [done|]. apply preheat_it_agree with (ArtifactLabeledEvent id); [eauto|done..].
Qed.

End enforcing.

(** C10 (safety). Only images that the policies admit reach the job service.  Whether a
    policy is enforced by hand or on its schedule, or an artifact was pushed, scanned or
    labelled: two job services that treat alike the images of enabled policies of
    their project, with a tag that the filters on repository, tag and labels match,
    signed when the project demands content trust, and without a vulnerability at or above the
    project's bar when it prevents vulnerable images and a scanner supports them,
    cannot be told apart.  The filters of the policy itself on signature and severity
    play no part: the code drops them (see [own_security_filter_dropped]).  This holds
    under every schedule of faults. *)
Theorem preheats_admitted `{PC : PreheatConfig} `{SC : ScanConfig} healthy js js' fuel q w :
  table_ok a_ID (arts (x_art (rest (db w)))) → scans_ok (x_scan (rest (db w))) → agree (eligible (db w) q) js js' →
  enforce healthy js fuel q w = enforce healthy js' fuel q w.
Proof.
  intros Hart Hok Hjs. destruct q as [id|e]; cbn [enforce]; [|by apply Handle_agree].
  apply bind_cong; [|done]. by apply EnforcePolicy_agree.
Qed.

(** ** An example *)

(** The image of the example of pulls, a policy for the tag [v1] and a provider. *)
#[local] Instance ex_preheat : PreheatConfig := {|
  unmarshal_filters := λ s, if s == "label" then Ok [mkFilter FilterTypeLabel (VList [VString "prod"])]
    else if s == "security" then Ok [mkFilter FilterTypeVulnerability (VString "3")]
    else Ok [mkFilter FilterTypeTag (VString s)];
  marshal_filters := λ _, "f"%string;
  unmarshal_trigger := λ s, Ok (mkTrigger s EmptyString); marshal_trigger := tg_Type;
  marshal_image := λ pi, Ok (pi_ImageName pi +:+ ":" +:+ pi_Tag pi); unmarshal_image := λ _, Err (PlainError "none");
  marshal_instance := λ i, Ok (in_Name i); unmarshal_instance := λ _, Err (PlainError "none");
  marshal_auth := λ m, if decide (m = ∅) then "{}"%string else "secret"%string;
  unmarshal_auth := λ s, Ok (if s == "secret" then {["admin"%string := "pass"%string]} else ∅);
  attrs_json := λ l, match l with (_, VString s) :: _ => s | _ => "{}"%string end;
  url_Parse := λ _, Ok tt; ExtEndpoint := Ok "https://harbor"%string; registry_token := λ _, Ok "t"%string;
  preheat_cron := λ _, true; trigger_param := λ n, pretty n; param_of := λ _, Err (PlainError "none") |}.
#[local] Instance ex_scanner : ScanConfig := ex_scan_config true.

Definition ex_policy (filters trigger : string) : PolicyRow := mkPolicyRow 1 "warm" EmptyString 1 1 filters trigger true 0 0.
Definition ex_provider : Instance_ :=
  mkInstance 1 "cdn" EmptyString "kraken" "http://cdn" AuthModeNone None "{}" EmptyString true true false 0.
Definition ex_preheat_db (sev filters trigger : string) : PreDB :=
  let h := ex_pull_db sev in
  mkSchedDB (htask h) empty_table (mkPreRest (hart h) (hrob h) (hscan h) 0
    (mkTable {[1 := ex_policy filters trigger]} 1) (mkTable {[1 := ex_provider]} 1)).

Definition accepting : JsClient := mkJsClient (λ _ _, mret "job"%string) (λ _, mret tt).
Definition refusing : JsClient := mkJsClient (λ _ _, fail (PlainError "refused")) (λ _, mret tt).
Definition ex_enforce (js : string → string → JsClient) (q : demand) (d : PreDB) : result (option unit) * list string :=
  let x := enforce (λ _, Ok tt) js 5 q (mkWorld d true []) in
  (x.1, t_ExtraAttrs <$> filter (λ t, t_VendorType t = P2PPreheatVendorType) ((map_to_list (tasks (tdb (db x.2)))).*2)).

(** A vulnerability below the bar of the project lets the image through, one above
    does not; a policy that the pattern does not match selects nothing. *)
Example preheat_settings :
  ex_enforce (λ _ _, accepting) (ByPolicy 1) (ex_preheat_db "Low" "v1" "manual") = (Ok (Some tt), ["library/app:v1"%string]) ∧
  ex_enforce (λ _ _, accepting) (ByPolicy 1) (ex_preheat_db "Critical" "v1" "manual") = (Ok (Some tt), []) ∧
  ex_enforce (λ _ _, accepting) (ByPolicy 1) (ex_preheat_db "Low" "v2" "manual") = (Ok (Some tt), []) ∧
  ex_enforce (λ _ _, accepting) (ByEvent (ArtifactLabeledEvent 1)) (ex_preheat_db "Low" "v1" "event_based")
    = (Ok (Some tt), ["library/app:v1"%string]).
Proof. vm_compute. done. Qed.

Lemma preheats_admitted_witness :
  ex_enforce (λ _ data, if data == "library/app:v1" then accepting else refusing) (ByPolicy 1) (ex_preheat_db "Low" "v1" "manual")
  = (Ok (Some tt), ["library/app:v1"%string]).
Proof.
  unfold ex_enforce. erewrite <- (preheats_admitted (λ _, Ok tt) (λ _ _, accepting)); [vm_compute; reflexivity| | |].
  - intros i a H. simpl in H. apply lookup_singleton_Some in H as [<- <-]. simpl. lia.
  - apply (ex_scans_ok "Low").
  - intros ins c pi data (k & r & s & p & i & a & j & t & Hk & Hdec & _ & Hp & _ & Ha & _ & Ht & _ & (Hns & Hrepo & Htag & _) & _) Hpi Hdata.
    simpl in Hk, Hp, Ha, Ht.
    apply lookup_singleton_Some in Hk as [_ <-]. apply lookup_singleton_Some in Hp as [_ <-].
    apply lookup_singleton_Some in Ha as [_ <-]. apply lookup_singleton_Some in Ht as [_ <-].
    unfold preheat_image, fullURLGetter, credMaker, image_name, first_tag in Hpi. rewrite Hns, Hrepo, Htag in Hpi.
    injection Hpi as <-. injection Hdata as <-. vm_compute. reflexivity.
Defined.

(** ** Where preheating goes wrong *)

(** A provider with credentials: a row keeps only their text, and no driver can
    authorize a request without the map, so that the check of its health fails. *)
Lemma stored_credentials_unusable Do created_of info_of event_id now_text event_json id i :
  in_AuthMode i ≠ AuthModeNone →
  ∃ e, checkProviderHealthy Do created_of info_of event_id now_text event_json (instance_dao.stored id i) = Err e.
Proof.
  intros Hm. assert (Hauth : ∃ e, Authorize (in_AuthMode i) None = Err e).
  { unfold Authorize. rewrite (bool_decide_false (in_AuthMode i = AuthModeNone)) by done. simpl. repeat case_bool_decide; eauto. }
  destruct Hauth as [e He]. assert (Hget : ∀ url, ∃ e, http_get Do (instance_dao.stored id i) url = Err e).
  { intros url. unfold http_get, send. simpl. rewrite He. case_bool_decide; eauto. }
  assert (Hh : ∀ path, ∃ e, driver_GetHealth Do path (instance_dao.stored id i) = Err e).
  { intros path. unfold driver_GetHealth. destruct (ValidateHTTPURL _) as [url|er]; [|eauto]. destruct (Hget url) as [er ->]. eauto. }
  unfold checkProviderHealthy, GetProvider. simpl. repeat case_bool_decide; simpl; eauto.
  - destruct (Hh "/_ping"%string) as [er ->]. eauto.
  - destruct (Hh "/health"%string) as [er ->]. eauto.
Qed.

(** The policy's own filter on vulnerabilities is dropped although the project sets
    nothing, and a policy with no other filter is then an error. *)
Example own_security_filter_dropped :
  override ∅ [mkFilter FilterTypeVulnerability (VInt 3)] = [] ∧
  Filter_ (λ _ _, Ok true) (BuildFrom (override ∅ [mkFilter FilterTypeVulnerability (VInt 3)])) []
    = Err (New "no underlying filters").
Proof. split; reflexivity. Qed.

(** The error of the first filter that cannot be built is not reported. *)
Example first_build_error_lost :
  Filter_ (λ _ _, Ok true) (BuildFrom [mkFilter FilterTypeTag (VBool true)]) [] = Err (New "no underlying filters").
Proof. reflexivity. Qed.

(** [Valid] asks for a list of labels, the filter for a text; of the vulnerability [Valid]
    asks for a text, but what the filter uses is the number it decodes to. *)
Example label_filter_formats :
  filter_errors (mkFilter FilterTypeLabel (VList [VString "prod"])) = [] ∧
  (∃ e, buildFilter (mkFilter FilterTypeLabel (VList [VString "prod"])) = Err e) ∧
  filter_errors (mkFilter FilterTypeLabel (VString "prod")) ≠ [] ∧
  buildFilter (mkFilter FilterTypeLabel (VString "prod")) = Ok (LabelSelector "withLabels" ["prod"%string]).
Proof. split_and!; [reflexivity|eexists; reflexivity|discriminate|reflexivity]. Qed.

(** A project that demands content trust, with a signed image in each of two
    repositories. *)
Definition ex_other : Artifact :=
  mkArtifact 2 "IMAGE" EmptyString MimeTypeDockerArtifact 1 2 "library/web" "sha256:b" 10 EmptyString 0 None EmptyString EmptyString.
Definition ex_trust_db (trigger : string) : PreDB :=
  let h := ex_pull_db "Low" in
  mkSchedDB (htask h) empty_table (mkPreRest
    (mkArtDB (mkTable (<[2 := ex_other]> {[1 := ex_image]}) 2) empty_table
       (mkTable (<[2 := mkTag 2 2 2 "v1" 0 None]> {[1 := mkTag 1 1 1 "v1" 0 None]}) 2) empty_table empty_table empty_table empty_table
       (mkTable (<[2 := mkRepoRecord 2 "library/web" 1 EmptyString 0 0 0]> {[1 := mkRepoRecord 1 "library/app" 1 EmptyString 0 0 0]}) 2)
       (BlobStore.mkBlobDB ∅ ∅ ∅ [] 0 0) [])
    (RobotStore.mkRobotDB
       (ProjectStore.mkProjDB (mkTable {[1 := ProjectStore.mkProject 1 1 "library" false 0 0]} 1) empty_table
          (mkTable {[1 := ProjectStore.mkProjectMetadata 1 1 "enable_content_trust" "true"]} 1)
          empty_table empty_table empty_table 0) empty_table empty_table empty_table)
    (hscan h) 0 (mkTable {[1 := ex_policy "v1" trigger]} 1) (mkTable {[1 := ex_provider]} 1)).
Definition ex_notary : Services :=
  let sv := scan_sv (ScanConfig := ex_scan_config true) in
  mkServices (doublestar_Match sv) (immutable_rules sv)
    (λ repo, Ok {["v1"%string := if repo == "library/app" then "sha256:a"%string else "sha256:b"%string]})
    (digest_Parse sv) (PullManifest sv) (regCli_Copy sv) (proc_AbstractMetadata sv) (proc_GetArtifactType sv) (proMgr_Get sv).
Definition ex_signing : ScanConfig :=
  let c := ex_scan_config true in
  mkScanConfig ex_notary (@scan_rc c) (@scan_js c) (@uuid c) (@client_GetMetadata c) (@ValidateHTTPURL c)
    (@registry_address c) (@ScannerRobotPrefix c) (@attrs_text c) (@attrs_of c) (@exec_text c)
    (@exec_of c) (@summary_text c) (@title c) (@error_text c).
Definition ex_trusted (q : demand) (trigger : string) : list string :=
  let x := enforce (SC := ex_signing) (λ _, Ok tt) (λ _ _, accepting) 5 q (mkWorld (ex_trust_db trigger) true []) in
  t_ExtraAttrs <$> filter (λ t, t_VendorType t = P2PPreheatVendorType) ((map_to_list (tasks (tdb (db x.2)))).*2).

(** The checker of the first repository is kept in the option that all artifacts of the
    list share: the image of the other repository counts as not signed.  An event asks for no
    signatures, so that a signed image is never preheated on one. *)
Example signed_image_skipped :
  ex_trusted (ByPolicy 1) "manual" = ["library/web:v1"%string] ∧
  ex_trusted (ByEvent (ArtifactLabeledEvent 1)) "event_based" = [].
Proof. vm_compute. done. Qed.
