(* ===== verification/RetentionCtl.v ===== *)
(** * Retention policies: store, launcher, job, controller and API

    [src/pkg/retention] (dao, manager, launcher, job, the client of the core and the
    check-in of its tasks), [src/controller/retention], and the handlers of
    retention policies and of project metadata ([src/server/v2.0/handler]), which keep
    the number of the policy of a project in its metadata.  What a rule retains is
    in [Retention] and [RetentionConc].  JSON texts and the artifacts that the core
    answers with are parameters. *)

From S2P Require Import Prelude GoErrors GoStrings Orm Table Hoare ArtifactStore JobStatus TaskStore Scheduler.
From S2P Require Import Security VulnReport Retention RetentionConc.
From S2P Require ProjectStore RobotStore Rbac.
From Stdlib Require Import Ascii.
Open Scope Z_scope.
Local Open Scope harbor_scope.

(** ** Models *)

(** What a setting of a trigger decodes to: a text, a time that the manager adds, or
    another value.  Values that Go cannot compare are left out. *)
Inductive setting := SString (s : string) | STime (t : Z) | SOther (n : Z).
#[export] Instance setting_dec : EqDecision setting.
Proof. solve_decision. Defined.

Record Trigger := mkTrigger { tg_Kind : string; tg_Settings : gmap string setting }.
Record Scope := mkScope { so_Level : string; so_Reference : Z }.

(** [rule.Metadata]; [rl_Meta] is the part that the job uses. *)
Record Rule := mkFullRule {
  rl_ID : Z; rl_Priority : Z; rl_Disabled : bool; rl_Meta : RuleMeta; rl_ScopeSelectors : gmap string (list SelectorMeta) }.

Record Metadata := mkMetadata {
  pm_ID : Z; pm_Algorithm : string; pm_Rules : list Rule; pm_Trigger : option Trigger; pm_Scope : option Scope }.

Definition TriggerKindSchedule : string := "Schedule".
Definition RetentionVendorType : string := "RETENTION".
Definition RetentionCallback : string := "RETENTION".

(** [dao/models.RetentionPolicy] *)
Record RetRow := mkRetRow {
  rr_ID : Z; rr_ScopeLevel : string; rr_ScopeReference : Z; rr_TriggerKind : string; rr_Data : string;
  rr_CreateTime : Z; rr_UpdateTime : Z }.

(** [selector.Repository] *)
Record Repository_ := mkRepository { re_NamespaceID : Z; re_Namespace : string; re_Name : string; re_Kind : string }.
#[export] Instance Repository_dec : EqDecision Repository_.
Proof. solve_decision. Defined.

(** The JSON codecs, the parser of cron expressions, the attributes of executions and
    tasks, and the order in which a map is walked. *)
Class RetentionConfig := mkRetentionConfig {
  marshal : Metadata → string;
  unmarshal : string → result Metadata;
  marshal_rule : Rule → string;
  retention_cron : string → bool;
  NextSchedule : string → Z;
  trigger_param : Z → string → string;
  param_of : string → result (Z * string);
  repository_json : Repository_ → result string;
  lite_json : string → list Rule → result string;
  execution_attrs : bool → string;
  task_attrs : string → bool → string;
  dry_run_of : string → option bool;
  text_attr : string → string → string;
  number_attr : string → string → Z;
  counted_attrs : string → Z → Z → string;
  range_order : list (Repository_ * list Rule) → list (Repository_ * list Rule);
  range_perm : ∀ l, range_order l ≡ₚ l;
}.

(** ** The store *)

Record RetRest := mkRetRest { y_rob : RobotStore.RobotDB; y_art : ArtDB; y_policies : table RetRow }.
Definition set_y_rob (r : RobotStore.RobotDB) (x : RetRest) : RetRest := mkRetRest r (y_art x) (y_policies x).
Definition set_y_art (a : ArtDB) (x : RetRest) : RetRest := mkRetRest (y_rob x) a (y_policies x).
Definition set_y_policies (t : table RetRow) (x : RetRest) : RetRest := mkRetRest (y_rob x) (y_art x) t.
Notation RetDB := (SchedDB RetRest).
Notation MT := (M RetDB).
Definition on_robots {A} (m : M RobotStore.RobotDB A) : MT A := on_rest (zoom y_rob set_y_rob m).
Definition on_projects {A} (m : M ProjectStore.ProjDB A) : MT A :=
  on_robots (zoom RobotStore.rproj RobotStore.set_rproj m).
Definition on_artifacts {A} (m : M ArtDB A) : MT A := on_rest (zoom y_art set_y_art m).

(** [src/pkg/retention/dao/retention.go]: neither an update nor a deletion looks at the
    number of rows. *)
Module retention_dao.

Definition with_id (id : Z) (r : RetRow) : RetRow :=
  mkRetRow id (rr_ScopeLevel r) (rr_ScopeReference r) (rr_TriggerKind r) (rr_Data r) (rr_CreateTime r) (rr_UpdateTime r).

Definition CreatePolicy (r : RetRow) : M RetRest Z :=
  _ ← FromContext;
  stmt (λ d, (Ok (next (y_policies d)), set_y_policies (add_row (λ id, with_id id r) (y_policies d)) d)).

(** The columns of the scope's level, of the kind, of the data and of the time. *)
Definition updated (r old : RetRow) : RetRow :=
  mkRetRow (rr_ID old) (rr_ScopeLevel r) (rr_ScopeReference old) (rr_TriggerKind r) (rr_Data r) (rr_CreateTime old) (rr_UpdateTime r).
Definition UpdatePolicy (r : RetRow) : M RetRest unit :=
  _ ← FromContext;
  stmt (λ d, (Ok tt, match rows (y_policies d) !! rr_ID r with
                     | Some old => set_y_policies (put_row (rr_ID r) (updated r old) (y_policies d)) d
                     | None => d
                     end)).

Definition DeletePolicy (id : Z) : M RetRest unit :=
  _ ← FromContext; stmt (λ d, (Ok tt, set_y_policies (del_row id (y_policies d)) d)).

Definition GetPolicy (id : Z) : M RetRest (option RetRow) :=
  _ ← FromContext; query (λ d, Ok (rows (y_policies d) !! id)).

End retention_dao.

Section retention.
Context `{RetentionConfig}.
Context (dm : string → string → result bool).
(** The job service, with the parameters of a job where they matter. *)
Context (js : JsClient) (retention_js : string → string → bool → JsClient).
Context (object_of : string → string) (callbacks : gmap string (string → MT unit)).
Context (polls : nat) (env : M TaskDB unit) (now : Z).

(** ** [src/pkg/retention/manager.go] *)

Definition nil_dereference {A} : result A := Err (Panic "invalid memory address or nil pointer dereference").
(** [v.(string)] *)
Definition as_string (v : option setting) : result string :=
  match v with Some (SString s) => Ok s | _ => Err (Panic "interface conversion") end.
Definition cron_setting (t : Trigger) : option setting := tg_Settings t !! "cron"%string.
Definition with_ID (id : Z) (p : Metadata) : Metadata := mkMetadata id (pm_Algorithm p) (pm_Rules p) (pm_Trigger p) (pm_Scope p).

Definition row_of (p : Metadata) (created : Z) (data : string) : result RetRow :=
  match pm_Scope p, pm_Trigger p with
  | Some s, Some t => Ok (mkRetRow (pm_ID p) (so_Level s) (so_Reference s) (tg_Kind t) data created now)
  | _, _ => nil_dereference
  end.

Definition manager_CreatePolicy (p : Metadata) : M RetRest Z :=
  r ← of_result (row_of p now (marshal p)); retention_dao.CreatePolicy r.
Definition manager_UpdatePolicy (p : Metadata) : M RetRest unit :=
  r ← of_result (row_of p 0 (marshal (with_ID 0 p))); retention_dao.UpdatePolicy r.

(** The time of the next run is added to the settings. *)
Definition next_run (p : Metadata) : result Metadata :=
  match pm_Trigger p with
  | None => nil_dereference
  | Some t =>
      if tg_Kind t == TriggerKindSchedule
      then match cron_setting t with
           | None => Ok p
           | Some v =>
               match as_string (Some v) with
               | Err e => Err e
               | Ok cron =>
                   if cron == "" then Ok p
                   else Ok (mkMetadata (pm_ID p) (pm_Algorithm p) (pm_Rules p)
                              (Some (mkTrigger (tg_Kind t) (<["next_scheduled_time"%string := STime (NextSchedule cron)]> (tg_Settings t))))
                              (pm_Scope p))
               end
           end
      else Ok p
  end.
Definition GetPolicy (id : Z) : M RetRest Metadata :=
  r ← retention_dao.GetPolicy id;
  match r with
  | None => fail (PlainError ("no such Retention policy with id " +:+ pretty id))
  | Some row => p ← of_result (unmarshal (rr_Data row)); of_result (next_run (with_ID id p))
  end.

(** ** [src/pkg/retention/launcher.go] *)

Definition launcherError (e : error) : error := default e (Wrap (Some e) "launcher").
Definition launching {A} (m : MT A) : MT A := r ← try m; match r with Ok a => mret a | Err e => fail (launcherError e) end.

Definition namespace (id : Z) (name : string) : Candidate := mkCandidate id name EmptyString EmptyString [] EmptyString 0 0 0 [] 0 ∅.
Definition getProjects : MT (list Candidate) :=
  l ← on_projects (ProjectStore.project_dao.List (λ _, True));
  mret ((λ p, namespace (ProjectStore.j_ProjectID p) (ProjectStore.j_Name p)) <$> l).

(** [utils.ParseRepository], the part before the rest. *)
Definition repository_project (repository : string) : string :=
  let repository := TrimRight_slash (TrimLeft_slash repository) in
  match Split repository "/"%char with p :: _ :: _ => p | _ => EmptyString end.
Definition repository_candidate (projectID : Z) (r : RepoRecord) : Candidate :=
  mkCandidate projectID (repository_project (p_Name r)) (repository_rest (p_Name r)) "image" [] EmptyString 0 0 0 [] 0 ∅.
Definition getRepositories (projectID : Z) : MT (list Candidate) :=
  l ← on_artifacts (repo_mgr.List (λ r, p_ProjectID r = projectID));
  mret (repository_candidate projectID <$> l).
Fixpoint get_repositories (l : list Candidate) : MT (list Candidate) :=
  match l with
  | [] => mret []
  | c :: l => rs ← getRepositories (NamespaceID c); rest ← get_repositories l; mret (rs ++ rest)
  end.

(** The selectors of a scope, one after the other; those of projects get no extras. *)
Fixpoint select_scope (extras : bool) (l : list SelectorMeta) (cands : list Candidate) : result (list Candidate) :=
  match l with
  | [] => Ok cands
  | m :: l =>
      match meta_select dm m (if extras then s_Extras m else None) cands with
      | Err e => Err e
      | Ok cands => select_scope extras l cands
      end
  end.
Definition scope_selectors (which : string) (r : Rule) : list SelectorMeta := default [] (rl_ScopeSelectors r !! which).

Definition repository_of (c : Candidate) : Repository_ := mkRepository (NamespaceID c) (Namespace c) (Repository c) (Kind c).
(** The map from repositories to their rules, as the list of its entries. *)
Fixpoint add_rule (k : Repository_) (r : Rule) (m : list (Repository_ * list Rule)) : list (Repository_ * list Rule) :=
  match m with
  | [] => [(k, [r])]
  | (k', rs) :: m => if decide (k' = k) then (k', rs ++ [r]) :: m else (k', rs) :: add_rule k r m
  end.
Definition add_rules (r : Rule) (cands : list Candidate) (m : list (Repository_ * list Rule)) : list (Repository_ * list Rule) :=
  foldl (λ m c, add_rule (repository_of c) r m) m cands.

Definition rule_repositories (s : Scope) (allProjects : list Candidate) (r : Rule) : MT (list Candidate) :=
  projectCandidates ← of_result (
    if so_Level s == "system" then select_scope false (scope_selectors "project" r) allProjects
    else if so_Level s == "project" then Ok (allProjects ++ [namespace (so_Reference s) EmptyString])
    else Ok allProjects);
  repositories ← get_repositories projectCandidates;
  of_result (select_scope true (scope_selectors "repository" r) repositories).

Fixpoint collect_rules (s : Scope) (allProjects : list Candidate) (rules : list Rule) (m : list (Repository_ * list Rule))
    : MT (list (Repository_ * list Rule)) :=
  match rules with
  | [] => mret m
  | r :: rules =>
      if rl_Disabled r then collect_rules s allProjects rules m
      else cands ← rule_repositories s allProjects r; collect_rules s allProjects rules (add_rules r cands m)
  end.

Record jobData := mkJobData { jd_Repository : Repository_; jd_RepoJSON : string; jd_MetaJSON : string; jd_DryRun : bool }.
Fixpoint create_jobs (algorithm : string) (isDryRun : bool) (l : list (Repository_ * list Rule)) : result (list jobData) :=
  match l with
  | [] => Ok []
  | (k, rs) :: l =>
      match repository_json k with
      | Err e => Err e
      | Ok rj =>
          match lite_json algorithm rs with
          | Err e => Err e
          | Ok mj => match create_jobs algorithm isDryRun l with Err e => Err e | Ok js => Ok (mkJobData k rj mj isDryRun :: js) end
          end
      end
  end.
Definition createJobs (algorithm : string) (m : list (Repository_ * list Rule)) (isDryRun : bool) : result (list jobData) :=
  create_jobs algorithm isDryRun (range_order m).

Fixpoint submitTasks (executionID : Z) (l : list jobData) : MT unit :=
  match l with
  | [] => mret tt
  | j :: l =>
      _ ← on_tasks (task_Create (retention_js (jd_RepoJSON j) (jd_MetaJSON j) (jd_DryRun j)) executionID RetentionVendorType
            (task_attrs (re_Name (jd_Repository j)) (jd_DryRun j)));
      submitTasks executionID l
  end.

(** The jobs of a policy. *)
Definition plan (ply : Metadata) (isDryRun : bool) : MT (list jobData) :=
  match pm_Scope ply with
  | None => fail (PlainError "the scope of policy is nil")
  | Some s =>
      allProjects ← (if so_Level s == "system" then getProjects else mret []);
      m ← collect_rules s allProjects (pm_Rules ply) [];
      of_result (createJobs (pm_Algorithm ply) m isDryRun)
  end.
Definition Launch (ply : Metadata) (executionID : Z) (isDryRun : bool) : MT Z :=
  match pm_Rules ply with
  | [] => mret 0
  | _ => launching (jobs ← plan ply isDryRun; _ ← submitTasks executionID jobs; mret (Z.of_nat (length jobs)))
  end.

Definition launcher_Stop (executionID : Z) : MT unit :=
  if executionID <=? 0 then fail (launcherError (PlainError ("invalid execution ID: " +:+ pretty executionID)))
  else on_tasks (Stop js executionID).

(** ** [src/controller/retention/controller.go] *)

Definition schedule_retention (id : Z) (cron : string) : MT unit :=
  _ ← Schedule_ js retention_cron object_of callbacks RetentionVendorType id EmptyString cron RetentionCallback
        (Ok (trigger_param id "Schedule")) (Ok "{}"%string);
  mret tt.

Definition CreateRetention (p : Metadata) : MT Z :=
  id ← on_rest (manager_CreatePolicy p);
  t ← of_result (match pm_Trigger p with Some t => Ok t | None => nil_dereference end);
  _ ← (if tg_Kind t == TriggerKindSchedule
       then match cron_setting t with
            | None => mret tt
            | Some v => cron ← of_result (as_string (Some v)); if cron == "" then mret tt else schedule_retention id cron
            end
       else mret tt);
  mret id.

(** Which of the old and the new schedule have to go and to come. *)
Definition needed (t0 t : Trigger) : result (bool * bool) :=
  if negb (tg_Kind t0 == tg_Kind t) then Ok (tg_Kind t0 == TriggerKindSchedule, tg_Kind t == TriggerKindSchedule)
  else if tg_Kind t == TriggerKindSchedule
  then if bool_decide (cron_setting t0 = cron_setting t) then Ok (false, false)
       else match as_string (cron_setting t0) with
            | Err e => Err e
            | Ok old => match as_string (cron_setting t) with
                        | Err e => Err e
                        | Ok new => Ok (negb (old == ""), negb (new == ""))
                        end
            end
  else if tg_Kind t == "" then Ok (false, false)
  else Err (PlainError ("not support Trigger " +:+ tg_Kind t)).

Definition UpdateRetention (p : Metadata) : MT unit :=
  p0 ← on_rest (GetPolicy (pm_ID p));
  match pm_Trigger p0, pm_Trigger p with
  | Some t0, Some t =>
      need ← of_result (needed t0 t);
      _ ← on_rest (manager_UpdatePolicy p);
      _ ← (if fst need : bool then UnScheduleByVendor js polls env RetentionVendorType (pm_ID p) else mret tt);
      if snd need : bool then cron ← of_result (as_string (cron_setting t)); schedule_retention (pm_ID p) cron else mret tt
  | _, _ => of_result nil_dereference
  end.

Fixpoint delete_each (l : list Execution) : MT unit :=
  match l with
  | [] => mret tt
  | e :: l => _ ← on_tasks (TaskStore.Delete (e_ID e)); delete_each l
  end.
Definition executions_of (policyID : Z) : MT (list Execution) :=
  on_tasks (_ ← FromContext; query (λ d, Ok (candidates RetentionVendorType policyID None d))).
Definition deleteExecs (vendorID : Z) : MT unit := l ← executions_of vendorID; delete_each l.

Definition DeleteRetention (id : Z) : MT unit :=
  p ← on_rest (GetPolicy id);
  t ← of_result (match pm_Trigger p with Some t => Ok t | None => nil_dereference end);
  _ ← (if tg_Kind t == TriggerKindSchedule
       then cron ← of_result (as_string (cron_setting t));
            if cron == "" then mret tt else UnScheduleByVendor js polls env RetentionVendorType id
       else mret tt);
  _ ← deleteExecs id;
  on_rest (retention_dao.DeletePolicy id).

(** The error of creating the execution is looked at only after the launch. *)
Definition TriggerRetentionExec (policyID : Z) (trigger : string) (dryRun : bool) : MT Z :=
  p ← on_rest (GetPolicy policyID);
  c ← try (on_tasks (TaskStore.Create RetentionVendorType policyID trigger (execution_attrs dryRun)));
  let id := match c with Ok id => id | Err _ => 0 end in
  r ← try (Launch p id dryRun);
  match r with
  | Err e =>
      _ ← try (on_tasks (StopAndWait js polls env id));
      _ ← try (on_tasks (MarkError id (error_string e)));
      fail e
  | Ok num =>
      _ ← (if num =? 0 then _ ← try (on_tasks (MarkDone id "no resources for retention")); mret tt else mret tt);
      match c with Ok id => mret id | Err e => fail e end
  end.

Definition OperateRetentionExec (eid : Z) (action : string) : MT unit :=
  _ ← on_tasks (executionDAO.Get eid);
  if action == "stop" then launcher_Stop eid else fail (PlainError ("not support action " +:+ action)).

(** [retention.Execution] and [retention.Task] *)
Record RetExecution := mkRetExecution { rx_ID : Z; rx_PolicyID : Z; rx_Status : string; rx_Trigger : string; rx_DryRun : bool; rx_Type : string }.
Record RetTask := mkRetTask {
  rt_ID : Z; rt_ExecutionID : Z; rt_Repository : string; rt_JobID : string; rt_Status : string; rt_StatusCode : Z;
  rt_Total : Z; rt_Retained : Z }.

(** The attribute is taken as a boolean whatever the execution is of. *)
Definition convertExecution (e : Execution) : result RetExecution :=
  match dry_run_of (e_ExtraAttrs e) with
  | None => Err (Panic "interface conversion")
  | Some b => Ok (mkRetExecution (e_ID e) (e_VendorID e) (e_Status e) (e_Trigger e) b (e_VendorType e))
  end.
Definition convertTask (t : Task) : RetTask :=
  mkRetTask (t_ID t) (t_ExecutionID t) (text_attr "repository" (t_ExtraAttrs t)) (t_JobID t) (t_Status t) (Code (t_Status t))
    (number_attr "total" (t_ExtraAttrs t)) (number_attr "retained" (t_ExtraAttrs t)).

Definition GetRetentionExec (executionID : Z) : MT RetExecution :=
  e ← on_tasks (executionDAO.Get executionID); of_result (convertExecution e).
Fixpoint convert_executions (l : list Execution) : result (list RetExecution) :=
  match l with
  | [] => Ok []
  | e :: l => match convertExecution e with
              | Err e => Err e
              | Ok x => match convert_executions l with Ok xs => Ok (x :: xs) | Err e => Err e end
              end
  end.
Definition ListRetentionExecs (policyID : Z) (page : list Execution → list Execution) : MT (list RetExecution) :=
  l ← executions_of policyID; of_result (convert_executions (page l)).
Definition GetTotalOfRetentionExecs (policyID : Z) : MT Z :=
  l ← executions_of policyID; mret (Z.of_nat (length l)).
Definition retention_tasks (executionID : Z) (t : Task) : Prop := t_VendorType t = RetentionVendorType ∧ t_ExecutionID t = executionID.
#[local] Instance retention_tasks_dec e t : Decision (retention_tasks e t).
Proof. unfold retention_tasks. apply _. Defined.
Definition ListRetentionExecTasks (executionID : Z) (page : list Task → list Task) : MT (list RetTask) :=
  l ← on_tasks (taskDAO.List_by (retention_tasks executionID)); mret (convertTask <$> page l).
Definition GetTotalOfRetentionExecTasks (executionID : Z) : MT Z :=
  l ← on_tasks (taskDAO.List_by (retention_tasks executionID)); mret (Z.of_nat (length l)).
Definition GetRetentionExecTask (taskID : Z) : MT RetTask := t ← on_tasks (taskDAO.Get taskID); mret (convertTask t).

(** [callback.go] *)
Definition retentionCallback (p : string) : MT unit :=
  match param_of p with
  | Err e => fail (PlainError ("failed to unmarshal the param: " +:+ error_string e))
  | Ok (policyID, trigger) => _ ← TriggerRetentionExec policyID trigger false; mret tt
  end.

End retention.

(** ** The job: [src/pkg/retention/job.go], [src/pkg/retention/dep/client.go] *)

(** An artifact as the API of the core shows it; times are in nanoseconds. *)
Record CoreTag := mkCoreTag { ct_Name : string; ct_PullTime : Z; ct_PushTime : Z }.
Record CoreArtifact := mkCoreArtifact {
  ca_Digest : string; ca_PushTime : Z; ca_PullTime : Z; ca_Labels : list string; ca_Tags : list CoreTag }.
Definition Unix (t : Z) : Z := t / 1000000000.

Definition core_candidate (r : Repository_) (a : CoreArtifact) : Candidate :=
  let pulled := foldl (λ t g, if t <? ct_PullTime g then ct_PullTime g else t) (ca_PullTime a) (ca_Tags a) in
  let pushed := foldl (λ t g, if t <? ct_PushTime g then ct_PushTime g else t) (ca_PushTime a) (ca_Tags a) in
  mkCandidate (re_NamespaceID r) (re_Namespace r) (re_Name r) "image" (ct_Name <$> ca_Tags a) (ca_Digest a)
    (Unix pushed) (Unix pulled) (Unix (ca_PushTime a)) (ca_Labels a) 0 ∅.
Fixpoint core_candidates (r : Repository_) (l : list CoreArtifact) : result (list Candidate) :=
  match l with
  | [] => Ok []
  | a :: l =>
      if ca_Digest a == "" then Err (PlainError ("lack digest of candidate for " +:+ re_Namespace r +:+ "/" +:+ re_Name r))
      else match core_candidates r l with Err e => Err e | Ok cs => Ok (core_candidate r a :: cs) end
  end.
Definition GetCandidates (ListAllArtifacts : string → string → result (list CoreArtifact)) (r : Repository_) : result (list Candidate) :=
  if re_Kind r == "image"
  then match ListAllArtifacts (re_Namespace r) (re_Name r) with Err e => Err e | Ok l => core_candidates r l end
  else Err (PlainError ("unsupported repository kind: " +:+ re_Kind r)).
Definition client_Delete (DeleteArtifact : string → string → string → option error) (c : Candidate) : option error :=
  if Kind c == "image" then DeleteArtifact (Namespace c) (Repository c) (Digest c)
  else Some (PlainError ("unsupported candidate kind: " +:+ Kind c)).

(** The parameters of a job; [None] is a value of another type. *)
Record JobParams := mkJobParams { jp_Repo : option (option string); jp_Meta : option (option string); jp_DryRun : option (option bool) }.
Section params.
Context (repository_of_json : string → result Repository_) (lite_of_json : string → result (string * list RuleMeta)).
Definition get_param {A} (name : string) (v : option (option A)) : result A :=
  match v with
  | None => Err (New ("missing parameter: " +:+ name))
  | Some None => Err (New ("invalid parameter: " +:+ name))
  | Some (Some a) => Ok a
  end.
Definition parsing {A} (what : string) (r : result A) : result A :=
  match r with Ok a => Ok a | Err e => Err (default e (Wrap (Some e) what)) end.
Definition getParamRepo (p : JobParams) : result Repository_ :=
  match get_param "repository" (jp_Repo p) with Err e => Err e | Ok s => parsing "parse repository from JSON" (repository_of_json s) end.
Definition getParamMeta (p : JobParams) : result (string * list RuleMeta) :=
  match get_param "liteMeta" (jp_Meta p) with Err e => Err e | Ok s => parsing "parse retention policy from JSON" (lite_of_json s) end.
Definition getParamDryRun (p : JobParams) : result bool := get_param "dryRun" (jp_DryRun p).
Definition Validate (p : JobParams) : result unit :=
  match getParamRepo p with
  | Err e => Err e
  | Ok _ => match getParamMeta p with
            | Err e => Err e
            | Ok _ => match getParamDryRun p with Err e => Err e | Ok _ => Ok tt end
            end
  end.
End params.

(** What the job checks in, the deletions it asked for and the projects whose quota it
    refreshes. *)
Record RetainObj := mkRetainObj { ro_Total : Z; ro_Retained : Z; ro_DryRun : bool; ro_Deleted : list Result }.
Definition realDelete (results : list Result) : list Result := List.filter (λ r, bool_decide (Error r = None)) results.
Definition retain_obj (results : list Result) (all : list Candidate) (isDryRun : bool) : RetainObj :=
  mkRetainObj (Z.of_nat (length all)) (Z.of_nat (length all) - Z.of_nat (length (realDelete results))) isDryRun (realDelete results).
Definition refresh_projects (results : list Result) : gset Z := list_to_set ((λ r, NamespaceID (Target r)) <$> results).

(** [logResults]: the mark of each candidate *)
Definition action_mark (results : list Result) (c : Candidate) : string :=
  match (list_to_map (reverse ((λ r, (Hash (Target r), Error r)) <$> results)) : gmap string (option result_error)) !! Hash c with
  | Some (Some ImmutableError) => "IMMUTABLE"
  | Some (Some _) => "ERR"
  | Some None => "DEL"
  | None => "RETAIN"
  end.

Definition job_error (e : error) : error := default e (Wrap (Some e) "retention job").

Section job.
Context {Hsort : SortSlice} (dm : string → string → result bool) (now : Z) (immutables : Z → result (list ImmutableRule)).
Context (ListAllArtifacts : string → string → result (list CoreArtifact)) (DeleteArtifact : string → string → string → option error).

(** The outcomes of a run under some schedule of the processor; [None] is a job that
    was stopped before it did anything. *)
Inductive Run (stop1 stop2 : bool) (repo : Repository_) (algorithm : string) (rules : list RuleMeta) (isDryRun : bool)
    : result (option (RetainObj * list Candidate * gset Z)) → Prop :=
  | run_stopped : stop1 = true → Run stop1 stop2 repo algorithm rules isDryRun (Ok None)
  | run_no_candidates e : stop1 = false → GetCandidates ListAllArtifacts repo = Err e →
      Run stop1 stop2 repo algorithm rules isDryRun (Err (job_error e))
  | run_not_built e all : stop1 = false → GetCandidates ListAllArtifacts repo = Ok all → Build algorithm rules = Err e →
      Run stop1 stop2 repo algorithm rules isDryRun (Err (job_error e))
  | run_stopped_late all ps : stop1 = false → GetCandidates ListAllArtifacts repo = Ok all → Build algorithm rules = Ok ps →
      stop2 = true → Run stop1 stop2 repo algorithm rules isDryRun (Ok None)
  | run_failed all ps e : stop1 = false → GetCandidates ListAllArtifacts repo = Ok all → Build algorithm rules = Ok ps →
      stop2 = false → Process_run dm now immutables (client_Delete DeleteArtifact) ps isDryRun all (Err e) →
      Run stop1 stop2 repo algorithm rules isDryRun (Err (job_error e))
  | run_done all ps results deleted : stop1 = false → GetCandidates ListAllArtifacts repo = Ok all → Build algorithm rules = Ok ps →
      stop2 = false → Process_run dm now immutables (client_Delete DeleteArtifact) ps isDryRun all (Ok (results, deleted)) →
      Run stop1 stop2 repo algorithm rules isDryRun
        (Ok (Some (retain_obj results all isDryRun, deleted, if isDryRun then ∅ else refresh_projects results))).
End job.

(** [retentionTaskCheckInProcessor] of [src/pkg/retention/callback.go]; the update of the
    attributes resets the time of the last update. *)
Definition retentionTaskCheckInProcessor `{RetentionConfig} (counts_of : string → result (Z * Z)) (t : Task) (checkIn : string) : M TaskDB unit :=
  if checkIn == "" then mret tt
  else
    c ← of_result (counts_of checkIn);
    row ← taskDAO.Get (t_ID t);
    taskDAO.Update (t_ID t) (λ x, mkTask (t_ID x) (t_VendorType x) (t_ExecutionID x) (t_JobID x) (t_Status x) (t_StatusCode x)
      (t_StatusRevision x) (t_RunCount x) (counted_attrs (t_ExtraAttrs row) (fst c) (snd c)) (t_StartTime x) None (t_EndTime x)).

(** ** [src/server/v2.0/handler/retention.go] *)

Definition retention_id : string := "retention_id".

Module retentionAPI.
Section api.
Context `{RetentionConfig}.
Context (dm : string → string → result bool) (js : JsClient) (retention_js : string → string → bool → JsClient).
Context (object_of : string → string) (callbacks : gmap string (string → MT unit)).
Context (polls : nat) (env : M TaskDB unit) (now : Z).
(** The caller. *)
Context (sc : option RobotStore.SecCtx).

Definition Prepare : MT unit := on_robots (RobotStore.BaseAPI.RequireAuthenticated sc).

Definition requireAccess (p : Metadata) (action : string) : MT unit :=
  match pm_Scope p with
  | None => of_result nil_dereference
  | Some s =>
      if so_Level s == "project"
      then on_robots (RobotStore.BaseAPI.RequireProjectAccess sc (ProjectStore.ByID (so_Reference s)) action [Rbac.ResourceTagRetention])
      else on_robots (RobotStore.BaseAPI.RequireSystemAccess sc action [Rbac.ResourceTagRetention])
  end.

Definition project_policy (projectID : Z) : MT (gmap string string) :=
  on_projects (ProjectStore.meta_mgr.Get projectID [retention_id]).

(** The number of the policy is the one in the metadata of the project. *)
Definition requirePolicyAccess (p : Metadata) : MT unit :=
  match pm_Scope p with
  | None => of_result nil_dereference
  | Some s =>
      meta ← project_policy (so_Reference s);
      if bool_decide (meta !! retention_id = Some (pretty (pm_ID p))) then mret tt
      else fail (NotFoundError (Some (New ("the retention policy id " +:+ pretty (pm_ID p) +:+ " does not match"))))
  end.

Definition no_execution (p : Metadata) (executionID : Z) : error :=
  WithCode (WithMessage (New EmptyString) ("project: " +:+ pretty (default 0 (so_Reference <$> pm_Scope p)) +:+ ", execution id "
    +:+ pretty executionID +:+ " not found")) NotFoundCode.
Definition requireExecutionInProject (p : Metadata) (executionID : Z) : MT unit :=
  e ← GetRetentionExec executionID;
  if (rx_PolicyID e =? pm_ID p) && (rx_Type e == RetentionVendorType) then mret tt else fail (no_execution p executionID).
Definition requireTaskInProject (p : Metadata) (executionID taskID : Z) : MT unit :=
  _ ← requireExecutionInProject p executionID;
  t ← GetRetentionExecTask taskID;
  if rt_ExecutionID t =? executionID then mret tt else fail (no_execution p executionID).

(** Two rules that differ in their numbers only. *)
Definition rule_key (r : Rule) : string := marshal_rule (mkFullRule 0 (rl_Priority r) (rl_Disabled r) (rl_Meta r) (rl_ScopeSelectors r)).
Fixpoint rule_conflict (n : Z) (seen : gmap string Z) (l : list Rule) : result unit :=
  match l with
  | [] => Ok tt
  | r :: l =>
      match seen !! rule_key r with
      | Some old => Err (PlainError ("rule " +:+ pretty n +:+ " is conflict with rule " +:+ pretty old))
      | None => rule_conflict (n + 1) (<[rule_key r := n]> seen) l
      end
  end.
Definition checkRuleConflict (p : Metadata) : result unit := rule_conflict 0 ∅ (pm_Rules p).
Definition bad_request (msg : string) : error := BadRequestError (Some (PlainError msg)).
Definition check_rules (p : Metadata) : result unit :=
  if 15 <? Z.of_nat (length (pm_Rules p)) then Err (bad_request "only 15 rules are allowed at most")
  else match checkRuleConflict p with Err e => Err (ConflictError (Some e)) | Ok _ => Ok tt end.

Definition GetRetention (id : Z) : MT Metadata :=
  _ ← Prepare; p ← on_rest (GetPolicy id); _ ← requireAccess p Rbac.ActionRead; mret p.

(** The scope must be a project that exists. *)
Definition check_scope (p : Metadata) : MT Scope :=
  match pm_Scope p with
  | None => of_result nil_dereference
  | Some s =>
      if so_Level s == "project"
      then if so_Reference s <=? 0 then fail (bad_request ("invalid Project id " +:+ pretty (so_Reference s)))
           else
             r ← try (on_projects (ProjectStore.project_ctl.Get (ProjectStore.ByID (so_Reference s)) ProjectStore.default_options));
             match r with
             | Ok _ => mret s
             | Err e => if IsNotFoundErr e then fail (bad_request ("invalid Project id " +:+ pretty (so_Reference s)))
                        else fail (BadRequestError (Some e))
             end
      else fail (bad_request ("scope " +:+ so_Level s +:+ " is not support"))
  end.

Definition CreateRetention (p : Metadata) : MT Z :=
  _ ← Prepare;
  _ ← of_result (check_rules p);
  _ ← requireAccess p Rbac.ActionCreate;
  s ← check_scope p;
  old ← project_policy (so_Reference s);
  match old !! retention_id with
  | Some id => fail (bad_request ("project " +:+ pretty (so_Reference s) +:+ " already has retention policy " +:+ id))
  | None =>
      id ← RetentionCtl.CreateRetention js object_of callbacks now p;
      _ ← on_projects (ProjectStore.meta_mgr.Add (so_Reference s) {[retention_id := pretty id]});
      mret id
  end.

Definition UpdateRetention (id : Z) (p : Metadata) : MT unit :=
  _ ← Prepare;
  let p := with_ID id p in
  _ ← of_result (check_rules p);
  _ ← requireAccess p Rbac.ActionUpdate;
  _ ← requirePolicyAccess p;
  RetentionCtl.UpdateRetention js object_of callbacks polls env now p.

(** An unknown policy is a bad request in the handlers that follow. *)
Definition found (id : Z) : MT Metadata :=
  r ← try (on_rest (GetPolicy id)); match r with Ok p => mret p | Err e => fail (BadRequestError (Some e)) end.

Definition DeleteRetention (id : Z) : MT unit :=
  _ ← Prepare;
  p ← found id;
  _ ← requireAccess p Rbac.ActionDelete;
  RetentionCtl.DeleteRetention js polls env id.

Definition TriggerRetentionExecution (id : Z) (dryRun : bool) : MT Z :=
  _ ← Prepare;
  p ← found id;
  _ ← requireAccess p Rbac.ActionUpdate;
  TriggerRetentionExec dm js retention_js polls env id "MANUAL" dryRun.

Definition OperateRetentionExecution (id eid : Z) (action : string) : MT unit :=
  _ ← Prepare;
  if negb (action == "stop") then fail (bad_request "action should be 'stop'")
  else
    p ← found id;
    _ ← requireAccess p Rbac.ActionUpdate;
    _ ← requirePolicyAccess p;
    _ ← requireExecutionInProject p eid;
    OperateRetentionExec js eid action.

Definition ListRetentionExecutions (id : Z) (page : list Execution → list Execution) : MT (list RetExecution * Z) :=
  _ ← Prepare;
  p ← found id;
  _ ← requireAccess p Rbac.ActionList;
  l ← ListRetentionExecs id page;
  total ← GetTotalOfRetentionExecs id;
  mret (l, total).

Definition ListRetentionTasks (id eid : Z) (page : list Task → list Task) : MT (list RetTask * Z) :=
  _ ← Prepare;
  p ← found id;
  _ ← requireAccess p Rbac.ActionList;
  _ ← requirePolicyAccess p;
  _ ← requireExecutionInProject p eid;
  l ← ListRetentionExecTasks eid page;
  total ← GetTotalOfRetentionExecTasks eid;
  mret (l, total).

Definition GetRetentionTaskLog (task_log : Z → M TaskDB string) (id eid tid : Z) : MT string :=
  _ ← Prepare;
  p ← found id;
  _ ← requireAccess p Rbac.ActionRead;
  _ ← requirePolicyAccess p;
  _ ← requireTaskInProject p eid tid;
  on_tasks (task_log tid).

End api.
End retentionAPI.

(** ** [src/server/v2.0/handler/project_metadata.go] *)

Module projectMetadataAPI.
Section api.
Context (title : string → string) (sc : option RobotStore.SecCtx).
Notation MB := (M RobotStore.RobotDB).

Definition ParseBool (v : string) : option bool :=
  if bool_decide (v ∈ ["1"; "t"; "T"; "TRUE"; "true"; "True"]%string) then Some true
  else if bool_decide (v ∈ ["0"; "f"; "F"; "FALSE"; "false"; "False"]%string) then Some false
  else None.
Definition FormatBool (b : bool) : string := if b then "true" else "false".
Definition bool_keys : list string :=
  ["public"; "enable_content_trust"; "enable_content_trust_cosign"; "prevent_vul"; "auto_scan"; "reuse_sys_cve_allowlist"]%string.
Definition invalid (msg : string) : error := WithMessage (WithCode (New EmptyString) BadRequestCode) msg.

Definition validate (metas : gmap string string) : result (gmap string string) :=
  match map_to_list metas with
  | [(key, value)] =>
      if bool_decide (key ∈ bool_keys)
      then match ParseBool value with
           | Some v => Ok {[key := FormatBool v]}
           | None => Err (invalid ("invalid value: " +:+ value))
           end
      else if key == "severity"
      then let severity := ParseSeverityVersion3 title (ProjectStore.ToLower value) in
           if severity == Unknown then Err (invalid ("invalid value: " +:+ value))
           else Ok {["severity"%string := ProjectStore.ToLower severity]}
      else Err (invalid ("invalid key: " +:+ key))
  | _ => Err (invalid "only allow one key/value pair")
  end.

Definition access (x : ProjectStore.id_or_name) (action : string) : MB unit :=
  RobotStore.BaseAPI.RequireProjectAccess sc x action [Rbac.ResourceMetadata].
Definition project_of (x : ProjectStore.id_or_name) : MB Z :=
  p ← RobotStore.on_projects (ProjectStore.project_ctl.Get x ProjectStore.default_options);
  mret (ProjectStore.j_ProjectID (ProjectStore.pv_Project p)).

Definition AddProjectMetadatas (x : ProjectStore.id_or_name) (metas : gmap string string) : MB unit :=
  _ ← access x Rbac.ActionCreate;
  m ← of_result (validate metas);
  pid ← project_of x;
  RobotStore.on_projects (ProjectStore.meta_mgr.Add pid m).

Definition ListProjectMetadatas (x : ProjectStore.id_or_name) : MB (gmap string string) :=
  _ ← access x Rbac.ActionList;
  pid ← project_of x;
  RobotStore.on_projects (ProjectStore.meta_mgr.Get pid []).

(** The name is not validated. *)
Definition DeleteProjectMetadata (x : ProjectStore.id_or_name) (name : string) : MB unit :=
  _ ← access x Rbac.ActionDelete;
  pid ← project_of x;
  RobotStore.on_projects (ProjectStore.meta_mgr.Delete pid [name]).

Definition GetProjectMetadata (x : ProjectStore.id_or_name) (name : string) : MB (gmap string string) :=
  _ ← access x Rbac.ActionRead;
  pid ← project_of x;
  RobotStore.on_projects (ProjectStore.meta_mgr.Get pid [name]).

Definition UpdateProjectMetadata (x : ProjectStore.id_or_name) (name : string) (metas : gmap string string) : MB unit :=
  _ ← access x Rbac.ActionUpdate;
  m ← of_result (validate {[name := default EmptyString (metas !! name)]});
  pid ← project_of x;
  RobotStore.on_projects (ProjectStore.meta_mgr.Update pid m).

End api.
End projectMetadataAPI.
