(* ===== verification/RetentionCtlSpec.v ===== *)
(** * Correctness of retention policies: what is launched and deleted, who may change a
    policy, and that schedules and projects agree with the policies *)

From S2P Require Import Prelude GoErrors GoStrings Orm Table Hoare ArtifactStore ArtifactInv JobStatus TaskStore Scheduler SchedulerSpec.
From S2P Require Import Retention RetentionConc ScanCtlSpec RetentionCtl.
From S2P Require ProjectStore RobotStore RobotSpec Rbac.
Local Open Scope Z_scope.
Local Open Scope harbor_scope.

(** ** The scope of a rule *)

Section launch.
Context `{RetentionConfig} (dm : string → string → result bool).

Definition admits (m : SelectorMeta) (extras : option bool) (c : Candidate) : bool :=
  match selector_Get (s_Kind m) (s_Decoration m) (s_Pattern m) extras with
  | Ok s => match select_one dm s c with Ok b => b | Err _ => false end
  | Err _ => false
  end.
Definition scope_admits (extras : bool) (l : list SelectorMeta) (c : Candidate) : bool :=
  forallb (λ m, admits m (if extras then s_Extras m else None) c) l.

Lemma Select_filter s l out : Select dm s l = Ok out →
  out = List.filter (λ c, match select_one dm s c with Ok b => b | Err _ => false end) l.
Proof.
  revert out. induction l as [|x l IH]; intros out; simpl; [by intros [= <-]|].
  destruct (select_one dm s x) as [b|e]; [|done]. destruct (Select dm s l) as [o|e]; [|done].
  intros [= <-]. rewrite (IH o eq_refl). by destruct b.
Qed.

Lemma filter_filter (P Q : Candidate → bool) l : List.filter P (List.filter Q l) = List.filter (λ c, Q c && P c) l.
Proof. induction l as [|x l IH]; simpl; [done|]. destruct (Q x); simpl; [destruct (P x)|]; by rewrite IH. Qed.

Lemma select_scope_filter extras l : ∀ cands out, select_scope dm extras l cands = Ok out → out = List.filter (scope_admits extras l) cands.
Proof.
  induction l as [|m l IH]; intros cands out; simpl.
  - intros [= <-]. induction cands as [|c cands IHc]; simpl; congruence.
  - unfold meta_select. destruct (selector_Get _ _ _ _) as [s|e] eqn:Es; [|done].
    destruct (Select dm s cands) as [o|e] eqn:E; [|done]. intros Ho. apply IH in Ho as ->. rewrite (Select_filter _ _ _ E), filter_filter.
    apply filter_ext. intros c. simpl. unfold admits. by rewrite Es.
Qed.

(** The repositories of a project, the projects of a scope, and the repositories of a
    rule, as the tables have them. *)
Definition project_repos (d : RetDB) (pid : Z) : list Candidate :=
  repository_candidate pid <$> order_desc repo_mgr.GetDefaultSorts (select (λ r, p_ProjectID r = pid) (repos (y_art (rest d)))).
Definition live_projects (d : RetDB) : list Candidate :=
  (λ p, namespace (ProjectStore.j_ProjectID p) (ProjectStore.j_Name p)) <$>
    select (λ p, True ∧ ProjectStore.j_Deleted p = false) (ProjectStore.projects (RobotStore.rproj (y_rob (rest d)))).
Definition scope_projects (d : RetDB) (s : Scope) (r : Rule) : list Candidate :=
  if so_Level s == "system" then List.filter (scope_admits false (scope_selectors "project" r)) (live_projects d)
  else if so_Level s == "project" then [namespace (so_Reference s) EmptyString]
  else [].
Definition rule_targets (d : RetDB) (s : Scope) (r : Rule) : list Candidate :=
  List.filter (scope_admits true (scope_selectors "repository" r))
    (mjoin ((λ c, project_repos d (NamespaceID c)) <$> scope_projects d s r)).

(** The rules of the policy that apply to a repository, in their order. *)
Definition applies (d : RetDB) (s : Scope) (k : Repository_) (r : Rule) : bool :=
  negb (rl_Disabled r) && bool_decide (k ∈ repository_of <$> rule_targets d s r).
Definition matched (d : RetDB) (s : Scope) (rules : list Rule) (k : Repository_) : list Rule := List.filter (applies d s k) rules.

(** ** Reading the scope *)

Lemma on_artifacts_reading {A} (m : M ArtDB A) φ : reading m φ → reading (on_artifacts m) (λ d, φ (y_art (rest d))).
Proof. intros Hm. apply (on_rest_reading _ (λ x, φ (y_art x))), (reading_zoom _ _ _ φ); [by intros []|done]. Qed.
Lemma on_robots_reading {A} (m : M RobotStore.RobotDB A) φ : reading m φ → reading (on_robots m) (λ d, φ (y_rob (rest d))).
Proof. intros Hm. apply (on_rest_reading _ (λ x, φ (y_rob x))), (reading_zoom _ _ _ φ); [by intros []|done]. Qed.
Lemma on_projects_reading {A} (m : M ProjectStore.ProjDB A) φ :
  reading m φ → reading (on_projects m) (λ d, φ (RobotStore.rproj (y_rob (rest d)))).
Proof. intros Hm. apply (on_robots_reading _ (λ x, φ (RobotStore.rproj x))), (reading_zoom _ _ _ φ); [by intros []|done]. Qed.

Lemma getRepositories_reading pid : reading (getRepositories pid) (λ d l, l = project_repos d pid).
Proof.
  unfold getRepositories. eapply reading_conseq.
  { eapply reading_bind; [apply on_artifacts_reading; unfold repo_mgr.List; apply reading_skip;
      [unfold reads; frame|intros []; apply reading_query]|intros l; apply reading_ret]. }
  by intros d l (x & [= <-] & ->).
Qed.

Lemma get_repositories_reading l : reading (get_repositories l) (λ d rs, rs = mjoin ((λ c, project_repos d (NamespaceID c)) <$> l)).
Proof.
  induction l as [|c l IH]; simpl; [eapply reading_conseq; [apply reading_ret|by intros ?? ->]|].
  eapply reading_conseq; [eapply reading_bind; [apply getRepositories_reading|intros rs; eapply reading_bind; [apply IH|intros x; apply reading_ret]]|].
  by intros d rs (a & -> & b & -> & ->).
Qed.

Lemma getProjects_reading : reading getProjects (λ d l, l = live_projects d).
Proof.
  unfold getProjects. eapply reading_conseq.
  { eapply reading_bind; [apply on_projects_reading; unfold ProjectStore.project_dao.List; apply reading_skip;
      [unfold reads; frame|intros []; apply reading_query]|intros l; apply reading_ret]. }
  by intros d l (x & [= <-] & ->).
Qed.

Definition all_projects (d : RetDB) (s : Scope) : list Candidate := if so_Level s == "system" then live_projects d else [].

Lemma rule_repositories_reading s all r : reading (rule_repositories dm s all r)
  (λ d l, all = all_projects d s → l = rule_targets d s r).
Proof.
  unfold rule_repositories. eapply reading_conseq.
  { eapply reading_bind; [apply reading_of_result|intros ps]. eapply reading_bind; [apply get_repositories_reading|intros rs]. apply reading_of_result. }
  intros d l (ps & Hps & rs & -> & Hl) ->. apply select_scope_filter in Hl as ->. unfold rule_targets, scope_projects, all_projects in *.
  f_equal. f_equal. f_equal. destruct (so_Level s == "system"); [by apply select_scope_filter in Hps|].
  destruct (so_Level s == "project"); by injection Hps as <-.
Qed.

(** ** Grouping rules by repository *)

Definition rules_at (m : list (Repository_ * list Rule)) (k : Repository_) : list Rule :=
  default [] (snd <$> List.find (λ x, bool_decide (fst x = k)) m).

Definition grouped (m : list (Repository_ * list Rule)) : Prop := NoDup m.*1 ∧ Forall (λ x, snd x ≠ []) m.

Lemma rules_at_notin m k : k ∉ m.*1 → rules_at m k = [].
Proof.
  unfold rules_at. induction m as [|[k' rs] m IH]; simpl; [done|]. intros Hn. rewrite bool_decide_false; [apply IH|]; set_solver.
Qed.

Lemma elem_add_rule k r m k' : k' ∈ (add_rule k r m).*1 ↔ k' = k ∨ k' ∈ m.*1.
Proof.
  induction m as [|[k1 rs] m IH]; simpl; [set_solver|]. case_decide; subst; simpl; rewrite ?elem_of_cons, ?IH; naive_solver.
Qed.

Lemma rules_at_add k r m k' : rules_at (add_rule k r m) k' = if decide (k' = k) then rules_at m k' ++ [r] else rules_at m k'.
Proof.
  unfold rules_at. induction m as [|[k1 rs] m IH]; simpl.
  - case_bool_decide; case_decide; subst; done.
  - destruct (decide (k1 = k)) as [->|E]; simpl; case_bool_decide as E'; subst.
    + by rewrite decide_True.
    + by rewrite decide_False by congruence.
    + by rewrite decide_False.
    + apply IH.
Qed.

Lemma grouped_add k r m : grouped m → grouped (add_rule k r m).
Proof.
  intros [Hk Hf]. split; induction m as [|[k1 rs] m IH]; simpl.
  - by repeat constructor; set_solver.
  - apply NoDup_cons in Hk as [Hn Hk]. apply Forall_cons in Hf as [_ Hf]. destruct (decide (k1 = k)) as [->|E]; simpl; [by constructor|].
    constructor; [|by apply IH]. rewrite elem_add_rule. set_solver.
  - by repeat constructor.
  - apply NoDup_cons in Hk as [Hn Hk]. apply Forall_cons in Hf as [Hr Hf]. destruct (decide (k1 = k)) as [->|E]; simpl; constructor; auto.
    simpl. by destruct rs.
Qed.

Lemma rules_at_in m k rs : NoDup m.*1 → (k, rs) ∈ m → rules_at m k = rs.
Proof.
  unfold rules_at. induction m as [|[k1 rs1] m IH]; simpl; [by intros _ ?%elem_of_nil|].
  intros [Hn Hk]%NoDup_cons [[= -> ->]|Hin]%elem_of_cons; [by rewrite bool_decide_true|].
  rewrite bool_decide_false; [by apply IH|]. intros ->. apply Hn. by apply (list_elem_of_fmap_2 fst _ (k, rs)).
Qed.

Lemma grouped_adds r cands : ∀ m, grouped m → grouped (add_rules r cands m).
Proof. induction cands as [|c cands IH]; simpl; intros m Hm; [done|]. apply (IH (add_rule _ _ _)), grouped_add, Hm. Qed.

Lemma rules_at_adds r k cands : ∀ m, NoDup (repository_of <$> cands) →
  rules_at (add_rules r cands m) k = rules_at m k ++ if bool_decide (k ∈ repository_of <$> cands) then [r] else [].
Proof.
  induction cands as [|c cands IH]; simpl; intros m Hn; [by rewrite app_nil_r|].
  apply NoDup_cons in Hn as [Hc Hn]. change (add_rules r (c :: cands) m) with (add_rules r cands (add_rule (repository_of c) r m)).
  rewrite IH by done. rewrite rules_at_add. destruct (decide (k = repository_of c)) as [->|E].
  - rewrite bool_decide_false by done. rewrite bool_decide_true by (by left). by rewrite app_nil_r.
  - f_equal. repeat case_bool_decide; set_solver.
Qed.

(** Names of repositories have a project and a rest, and are unique. *)
Definition plain_name (name : string) : Prop := name = repository_project name +:+ "/" +:+ repository_rest name.
Record scope_ok (d : RetDB) : Prop := {
  so_repos : tab_ok p_RepositoryID same_repo (λ r, plain_name (p_Name r)) (repos (y_art (rest d)));
  so_projects : table_ok ProjectStore.j_ProjectID (ProjectStore.projects (RobotStore.rproj (y_rob (rest d)))) }.

Lemma project_repos_nodup d pid : scope_ok d → NoDup (repository_of <$> project_repos d pid).
Proof.
  intros [Hr _]. unfold project_repos. rewrite <- list_fmap_compose. apply NoDup_fmap_2_strong.
  - intros x y Hx Hy [= Hp Hn]. rewrite order_desc_perm in Hx, Hy. apply elem_of_select in Hx as (i & Hi & _), Hy as (j & Hj & _).
    assert (p_Name x = p_Name y) as Hxy.
    { pose proof (tab_valid _ _ _ _ Hr _ _ Hi) as Vx. pose proof (tab_valid _ _ _ _ Hr _ _ Hj) as Vy. simpl in Vx, Vy.
      rewrite Vx, Vy. unfold plain_name in *. congruence. }
    pose proof (tab_unique _ _ _ _ Hr _ _ _ _ Hi Hj Hxy). congruence.
  - rewrite order_desc_perm. eapply NoDup_select, Hr.
Qed.

Lemma project_repos_id d pid c : c ∈ project_repos d pid → NamespaceID c = pid.
Proof. unfold project_repos. intros (r & -> & _)%list_elem_of_fmap. done. Qed.

Lemma NoDup_fmap_filter {A B} (f : A → B) (P : A → bool) l : NoDup (f <$> l) → NoDup (f <$> List.filter P l).
Proof.
  induction l as [|x l IH]; simpl; [done|]. intros [Hn Hl]%NoDup_cons. destruct (P x); [|by apply IH]. simpl. constructor; [|by apply IH].
  intros (y & Hy & Hin)%list_elem_of_fmap. apply Hn. apply list_elem_of_In in Hin. apply filter_In in Hin as [Hin _].
  apply list_elem_of_fmap. exists y. split; [done|by apply list_elem_of_In].
Qed.

Lemma scope_projects_nodup d s r : scope_ok d → NoDup (NamespaceID <$> scope_projects d s r).
Proof.
  intros [_ Hp]. unfold scope_projects. destruct (so_Level s == "system"); [|destruct (so_Level s == "project"); repeat constructor; set_solver].
  apply NoDup_fmap_filter. unfold live_projects. rewrite <- list_fmap_compose. apply NoDup_fmap_2_strong; [|by eapply NoDup_select].
  intros x y Hx Hy Hxy. apply elem_of_select in Hx as (i & Hi & _), Hy as (j & Hj & _). simpl in Hxy.
  destruct (Hp _ _ Hi) as [<- _]. destruct (Hp _ _ Hj) as [<- _]. congruence.
Qed.

Lemma rule_targets_nodup d s r : scope_ok d → NoDup (repository_of <$> rule_targets d s r).
Proof.
  intros Hd. unfold rule_targets. apply NoDup_fmap_filter.
  pose proof (scope_projects_nodup d s r Hd) as Hp. induction (scope_projects d s r) as [|c l IH]; simpl; [constructor|].
  apply NoDup_cons in Hp as [Hn Hp]. rewrite fmap_app. apply NoDup_app. split; [by apply project_repos_nodup|]. split; [|by apply IH].
  intros k (x & -> & Hx)%list_elem_of_fmap (y & Hy & Hin)%list_elem_of_fmap. apply project_repos_id in Hx.
  apply list_elem_of_join in Hin as (rs & Hin & (c' & -> & Hc)%list_elem_of_fmap). apply project_repos_id in Hin.
  apply Hn, list_elem_of_fmap. exists c'. split; [|done]. injection Hy as Hy _. congruence.
Qed.

Lemma matched_cons d s r rules k :
  matched d s (r :: rules) k = if applies d s k r then r :: matched d s rules k else matched d s rules k.
Proof. done. Qed.

Lemma collect_rules_reading s all rules : ∀ m, reading (collect_rules dm s all rules m)
  (λ d m', scope_ok d → all = all_projects d s → grouped m → grouped m' ∧ ∀ k, rules_at m' k = rules_at m k ++ matched d s rules k).
Proof.
  induction rules as [|r rules IH]; intros m; cbn [collect_rules].
  - eapply reading_conseq; [apply reading_ret|]. intros d m' -> _ _ Hm. split; [done|]. intros k. by rewrite app_nil_r.
  - destruct (rl_Disabled r) eqn:Er.
    + eapply reading_conseq; [apply IH|]. intros d m' Hm' Hd Ha Hm. destruct (Hm' Hd Ha Hm) as [Hg Hr]. split; [done|].
      intros k. rewrite (Hr k), matched_cons. unfold applies. by rewrite Er.
    + eapply reading_conseq; [eapply reading_bind; [apply rule_repositories_reading|intros cands; apply IH]|].
      intros d m' (cands & Hc & Hm') Hd Ha Hm. rewrite (Hc Ha) in Hm'. destruct (Hm' Hd Ha (grouped_adds _ _ _ Hm)) as [Hg Hr].
      split; [done|]. intros k. rewrite (Hr k), rules_at_adds by (by apply rule_targets_nodup). rewrite <- app_assoc. f_equal.
      rewrite matched_cons. unfold applies. rewrite Er. by case_bool_decide.
Qed.

(** ** The jobs *)

Lemma create_jobs_spec alg dry l jobs : create_jobs alg dry l = Ok jobs →
  jd_Repository <$> jobs = l.*1 ∧ ∀ j, j ∈ jobs → jd_DryRun j = dry ∧
    repository_json (jd_Repository j) = Ok (jd_RepoJSON j) ∧ ∃ rs, (jd_Repository j, rs) ∈ l ∧ lite_json alg rs = Ok (jd_MetaJSON j).
Proof.
  revert jobs. induction l as [|[k rs] l IH]; intros jobs; simpl; [intros [= <-]; split; [done|by intros ? ?%elem_of_nil]|].
  destruct (repository_json k) as [rj|e] eqn:Er; [|done]. destruct (lite_json alg rs) as [mj|e] eqn:Em; [|done].
  destruct (create_jobs alg dry l) as [js|e]; [|done]. intros [= <-]. destruct (IH js eq_refl) as [Hk Hj]. simpl. split; [by f_equal|].
  intros j [->|Hin]%elem_of_cons; [simpl; split_and!; [done|done|]; exists rs; split; [left|done]|].
  destruct (Hj j Hin) as (? & ? & rs' & Hin' & ?). split_and!; [done..|]. exists rs'. split; [by right|done].
Qed.

(** One job for each repository to which a rule applies, with the rules that do. *)
Definition planned (d : RetDB) (ply : Metadata) (dry : bool) (jobs : list jobData) : Prop :=
  ∃ s, pm_Scope ply = Some s ∧ NoDup (jd_Repository <$> jobs) ∧
    (∀ k, k ∈ jd_Repository <$> jobs ↔ matched d s (pm_Rules ply) k ≠ []) ∧
    ∀ j, j ∈ jobs → jd_DryRun j = dry ∧ repository_json (jd_Repository j) = Ok (jd_RepoJSON j) ∧
      lite_json (pm_Algorithm ply) (matched d s (pm_Rules ply) (jd_Repository j)) = Ok (jd_MetaJSON j).

Lemma plan_reading ply dry : reading (plan dm ply dry) (λ d jobs, scope_ok d → planned d ply dry jobs).
Proof.
  unfold plan. destruct (pm_Scope ply) as [s|] eqn:Es; [|apply reading_fail].
  eapply reading_conseq.
  { eapply (reading_bind _ _ (λ d l, l = all_projects d s)).
    - unfold all_projects. destruct (so_Level s == "system"); [apply getProjects_reading|]. eapply reading_conseq; [apply reading_ret|by intros ?? ->].
    - intros all. eapply reading_bind; [apply collect_rules_reading|intros m; apply reading_of_result]. }
  intros d jobs (all & Hall & m & Hm & Hjobs) Hd. destruct (Hm Hd Hall) as [[Hk Hf] Hr]; [by split; constructor|].
  unfold createJobs in Hjobs. apply create_jobs_spec in Hjobs as [Hkeys Hj]. pose proof (range_perm m) as Hp.
  assert (Hkp : (range_order m).*1 ≡ₚ m.*1) by (by rewrite Hp). assert (Hr' : ∀ k, rules_at m k = matched d s (pm_Rules ply) k) by (intros k; by rewrite Hr).
  exists s. split; [done|]. rewrite Hkeys. split; [by rewrite Hkp|]. split.
  - intros k. rewrite Hkp, <- Hr'. split.
    + intros ([k' rs] & -> & Hin)%list_elem_of_fmap. simpl. rewrite (rules_at_in _ _ _ Hk Hin). rewrite Forall_forall in Hf. by apply (Hf (k', rs)).
    + intros Hne. destruct (decide (k ∈ m.*1)) as [|Hn]; [done|]. by rewrite rules_at_notin in Hne.
  - intros j Hin. destruct (Hj j Hin) as (? & ? & rs & Hrs & Hl). split_and!; [done..|]. rewrite Hp in Hrs.
    by rewrite <- Hr', (rules_at_in _ _ _ Hk Hrs).
Qed.

End launch.

(** ** What a policy deletes *)

Section enforced.
Context `{RetentionConfig} {Hsort : SortSlice} (dm : string → string → result bool).

(** A rule of the policy, enabled and for the repository, keeps the artifact. *)
Definition rule_retains (now : Z) (all : list Candidate) (r : RuleMeta) (c : Candidate) : Prop :=
  ∃ p l c', build_params [r] = Ok [p] ∧ p_selectors p ≠ [] ∧ rule_outcome dm now all p = Ok l ∧ c' ∈ l ∧ Hash c' = Hash c.

Lemma build_params_each rules ps : build_params rules = Ok ps → Forall2 (λ r p, build_params [r] = Ok [p]) rules ps.
Proof.
  revert ps. induction rules as [|r rules IH]; intros ps; simpl; [by intros [= <-]|].
  destruct (rule_Get _ _) as [ev|e] eqn:E1; [|done]. destruct (action_Get _) eqn:E2; [done|].
  destruct (build_selectors _) as [sl|e] eqn:E3; [|done]. destruct (build_params rules) as [ps'|e]; [|done]. intros [= <-].
  constructor; [|by apply IH]. simpl. by rewrite E1, E2, E3.
Qed.

Lemma elem_of_kept p ps : p ∈ kept ps ↔ p ∈ ps ∧ p_selectors p ≠ [].
Proof.
  unfold kept. rewrite list_elem_of_In, filter_In, <- list_elem_of_In. f_equiv. rewrite negb_true_iff, bool_decide_eq_false.
  by rewrite length_zero_iff_nil.
Qed.

Lemma retained_by_rules now all alg rules ps c : Build alg rules = Ok ps →
  retained_by dm now ps all c ↔ ∃ r, r ∈ rules ∧ rule_retains now all r c.
Proof.
  unfold Build. destruct (build_params rules) as [ps'|e] eqn:E; [|done]. destruct (alg == "or"); [|done]. intros [= ->].
  apply build_params_each in E. unfold retained_by, rule_retains. setoid_rewrite elem_of_kept. split.
  - intros (p & l & c' & [Hp Hsel] & Hl & Hc & Hh). apply list_elem_of_lookup in Hp as [i Hi].
    destruct (Forall2_lookup_r _ _ _ _ _ E Hi) as (r & Hr & Hb). exists r. split; [by eapply list_elem_of_lookup_2|eauto 10].
  - intros (r & Hr & p & l & c' & Hb & Hsel & Hl & Hc & Hh). apply list_elem_of_lookup in Hr as [i Hi].
    destruct (Forall2_lookup_l _ _ _ _ _ E Hi) as (p' & Hp' & Hb'). rewrite Hb in Hb'. injection Hb' as <-.
    exists p, l, c'. split_and!; [by eapply list_elem_of_lookup_2|done..].
Qed.

(** The job of one repository. *)
Lemma job_deletes now immutables core_list core_delete repo alg rules dry all ps :
  GetCandidates core_list repo = Ok all → Build alg rules = Ok ps → errs (outcomes dm now ps all) = [] →
  (∃ r, Run dm now immutables core_list core_delete false false repo alg rules dry r) ∧
  ∀ r, Run dm now immutables core_list core_delete false false repo alg rules dry r →
    ∃ o deleted q, r = Ok (Some (o, deleted, q)) ∧
      ∀ c, c ∈ deleted ↔ dry = false ∧ kept ps ≠ [] ∧ c ∈ all ∧ ¬ protected dm immutables all c ∧
        ¬ ∃ r, r ∈ rules ∧ rule_retains now all r c.
Proof.
  intros Hc Hb Herr. destruct (retention_deletes dm now immutables (client_Delete core_delete) ps dry all Herr) as [(x & Hx) Hall].
  split.
  - destruct (Hall x Hx) as (results & deleted & -> & _). eexists. by eapply run_done.
  - intros r Hr. inversion Hr as [|e _ Hc'|e a _ Hc' Hb'|a p _ _ _ Hs|a p e _ Hc' Hb' _ Hp|a p results deleted _ Hc' Hb' _ Hp]; subst;
      try congruence; rewrite Hc in Hc'; rewrite Hb in Hb'; try congruence; injection Hc' as <-; injection Hb' as <-.
    + destruct (Hall _ Hp) as (? & ? & ? & _). done.
    + destruct (Hall _ Hp) as (results' & deleted' & [= <- <-] & Hd). do 3 eexists. split; [reflexivity|]. intros c. rewrite (Hd c).
      unfold to_delete. rewrite (retained_by_rules _ _ _ _ _ _ Hb). naive_solver.
Qed.
End enforced.

Lemma launching_inv {A} (m : MT A) w a w' : launching m w = (Ok a, w') → m w = (Ok a, w').
Proof. unfold launching. rewrite bind_eq. unfold try. destruct (m w) as [[x|e] w1]; [by intros [= <- <-]|done]. Qed.

Lemma Launch_inv `{RetentionConfig} dm retention_js ply eid dry w n w' :
  Launch dm retention_js ply eid dry w = (Ok n, w') → scope_ok (db w) →
  ∃ jobs w1, db w1 = db w ∧ submitTasks retention_js eid jobs w1 = (Ok tt, w') ∧ n = Z.of_nat (length jobs) ∧
    (pm_Rules ply = [] ∧ jobs = [] ∨ planned dm (db w) ply dry jobs).
Proof.
  unfold Launch. destruct (pm_Rules ply) as [|r0 rules] eqn:Er; [intros [= <- <-] _; exists [], w; eauto 10|].
  intros Hl Hd. apply launching_inv in Hl. rewrite bind_eq in Hl. destruct (plan dm ply dry w) as [[jobs|e] w1] eqn:Ep; [|done].
  rewrite bind_eq in Hl. destruct (submitTasks retention_js eid jobs w1) as [[[]|e] w2] eqn:Es; [|done]. injection Hl as <- <-.
  destruct (plan_reading dm ply dry _ _ _ Ep) as [Hw Hp]. exists jobs, w1. split_and!; [done..|]. right. by apply Hp.
Qed.

(** C13 (functional). What launching a policy leads to.  A launch that succeeds submits
    one job for each repository that the scope of an enabled rule selects, and for
    no other; the job carries these rules in the order of the policy.  When such a job
    is not stopped, lists the artifacts of its repository, can build its rules and no
    rule fails, it ends under every schedule of the processor and asks for the deletion
    of exactly the artifacts that no immutability rule protects and that none of its
    rules retains; in a dry run, or when none of its rules has a tag selector
    ([kept]), of none.  Protection is what the code makes of the rules: it reads the
    name of a nested repository without its first parts. *)
Theorem retention_enforced `{RetentionConfig} {Hsort : SortSlice} dm retention_js lite_of_json ply eid dry w n w' :
  scope_ok (db w) → (∀ alg rs text, lite_json alg rs = Ok text → lite_of_json text = Ok (alg, rl_Meta <$> rs)) →
  Launch dm retention_js ply eid dry w = (Ok n, w') →
  ∃ jobs w1, db w1 = db w ∧ submitTasks retention_js eid jobs w1 = (Ok tt, w') ∧ n = Z.of_nat (length jobs) ∧
    NoDup (jd_Repository <$> jobs) ∧
    (∀ k, k ∈ jd_Repository <$> jobs ↔ ∃ s r, pm_Scope ply = Some s ∧ r ∈ pm_Rules ply ∧ applies dm (db w) s k r = true) ∧
    ∀ j, j ∈ jobs → ∃ s, pm_Scope ply = Some s ∧ jd_DryRun j = dry ∧
      let rules := rl_Meta <$> List.filter (applies dm (db w) s (jd_Repository j)) (pm_Rules ply) in
      lite_of_json (jd_MetaJSON j) = Ok (pm_Algorithm ply, rules) ∧
      ∀ now immutables core_list core_delete all ps,
        GetCandidates core_list (jd_Repository j) = Ok all → Build (pm_Algorithm ply) rules = Ok ps → errs (outcomes dm now ps all) = [] →
        (∃ r, Run dm now immutables core_list core_delete false false (jd_Repository j) (pm_Algorithm ply) rules dry r) ∧
        ∀ r, Run dm now immutables core_list core_delete false false (jd_Repository j) (pm_Algorithm ply) rules dry r →
          ∃ o deleted q, r = Ok (Some (o, deleted, q)) ∧
            ∀ c, c ∈ deleted ↔ dry = false ∧ kept ps ≠ [] ∧ c ∈ all ∧ ¬ protected dm immutables all c ∧
              ¬ ∃ rule, rule ∈ pm_Rules ply ∧ applies dm (db w) s (jd_Repository j) rule = true ∧ rule_retains dm now all (rl_Meta rule) c.
Proof.
  intros Hd Hjson Hl. destruct (Launch_inv dm _ _ _ _ _ _ _ Hl Hd) as (jobs & w1 & Hw & Hsub & Hn & Hp).
  exists jobs, w1. split_and!; try done; destruct Hp as [[Hnil ->]|(s & Hs & Hnd & Hk & Hj)]; try done; try by constructor.
  - intros k. rewrite Hnil. simpl. split; [by intros ?%elem_of_nil|]. by intros (s & r & _ & ?%elem_of_nil & _).
  - intros k. rewrite Hk. unfold matched. split.
    + intros Hne. destruct (List.filter _ _) as [|r rs] eqn:E; [done|]. assert (Hin : In r (r :: rs)) by by left. rewrite <- E in Hin.
      apply filter_In in Hin as [Hin Ha]. exists s, r. split_and!; [done|by apply list_elem_of_In|done].
    + intros (s' & r & Hs' & Hin & Ha) E. rewrite Hs in Hs'. injection Hs' as <-. apply list_elem_of_In in Hin.
      assert (Hf : In r (List.filter (applies dm (db w) s k) (pm_Rules ply))) by (by apply filter_In). by rewrite E in Hf.
  - by intros j ?%elem_of_nil.
  - intros j Hin. destruct (Hj j Hin) as (Hdry & _ & Hlite). apply Hjson in Hlite.
    exists s. split; [done|]. split; [done|]. split; [exact Hlite|]. intros now immutables core_list core_delete all ps Hc Hb Herr.
    destruct (job_deletes dm now immutables core_list core_delete _ _ _ dry _ _ Hc Hb Herr) as [Hex Hall]. split; [done|].
    intros r Hr. destruct (Hall r Hr) as (o & deleted & q & -> & Hdel). do 3 eexists. split; [done|]. intros c. rewrite (Hdel c).
    unfold matched. setoid_rewrite list_elem_of_fmap. setoid_rewrite list_elem_of_In. setoid_rewrite filter_In. setoid_rewrite <- list_elem_of_In.
    split; intros (? & ? & ? & ? & Hno); split_and!; try done; intros (x & Hx); apply Hno; naive_solver.
Qed.

(** ** Policies, their schedules and their projects *)

Section policies.
Context `{RetentionConfig}.
Context (no_empty_cron : retention_cron EmptyString = false).
Notation param := (λ id, trigger_param id "Schedule").
Notation has := (has_schedule RetentionVendorType).

Definition trigger_cron (t : Trigger) : option string :=
  if tg_Kind t == TriggerKindSchedule
  then match cron_setting t with Some (SString c) => if c == "" then None else Some c | _ => None end
  else None.
(** When a stored policy has to run, and the project that it is for. *)
Definition row_cron (r : RetRow) : option string :=
  match unmarshal (rr_Data r) with Ok p => pm_Trigger p ≫= trigger_cron | Err _ => None end.
Definition row_owner (r : RetRow) : option Z :=
  match unmarshal (rr_Data r) with Ok p => so_Reference <$> pm_Scope p | Err _ => None end.

Notation wants := (wants_schedule row_cron).

(** The policy that the metadata of a project names is for that project. *)
Definition owned (M : table ProjectStore.ProjectMetadata) (P : table RetRow) : Prop :=
  ∀ i m, rows M !! i = Some m → ProjectStore.md_Name m = retention_id →
    ∃ id, ProjectStore.md_Value m = pretty id ∧ id <= seq P ∧
      ∀ row, rows P !! id = Some row → row_owner row = Some (ProjectStore.md_ProjectID m).

Notation metas_of x := (ProjectStore.metas (RobotStore.rproj (y_rob x))).
Record ret_ok (t : table Schedule) (x : RetRest) : Prop := {
  ro_schedules : schedules_ok RetentionVendorType RetentionCallback param t;
  ro_policies : tab_ok rr_ID (λ _ _, False) (λ _, True) (y_policies x);
  ro_agrees : ∀ id c, has t id c ↔ wants (y_policies x) id c;
  ro_owned : owned (metas_of x) (y_policies x) }.

#[local] Instance no_row_symm : Symmetric (λ _ _ : RetRow, False).
Proof. by intros a b []. Qed.


Definition json_ok (p : Metadata) : Prop := unmarshal (marshal p) = Ok p.

Lemma owned_add M P row : tab_ok rr_ID (λ _ _, False) (λ _, True) P → owned M P → owned M (add_row row P).
Proof.
  intros HP Ho i m Hm Hn. destruct (Ho i m Hm Hn) as (id & Hv & Hid & Hr). exists id. simpl. unfold next.
  split_and!; [done|lia|]. intros r. rewrite lookup_insert_ne by lia. apply Hr.
Qed.

Lemma owned_put M P k row : owned M P → (∀ i m, rows M !! i = Some m → ProjectStore.md_Name m = retention_id →
  ProjectStore.md_Value m = pretty k → row_owner row = Some (ProjectStore.md_ProjectID m)) → owned M (put_row k row P).
Proof.
  intros Ho Hk i m Hm Hn. destruct (Ho i m Hm Hn) as (id & Hv & Hid & Hr). exists id. split_and!; [done..|].
  simpl. intros r [[<- <-]|[_ Hl]]%lookup_insert_Some; [by eapply Hk|by apply Hr].
Qed.

Lemma owned_del M P k : owned M P → owned M (del_row k P).
Proof.
  intros Ho i m Hm Hn. destruct (Ho i m Hm Hn) as (id & Hv & Hid & Hr). exists id. split_and!; [done..|].
  simpl. intros r [_ Hl]%lookup_delete_Some. by apply Hr.
Qed.

(** The metadata may lose rows and get others that do not name a policy. *)
Lemma owned_metas M M' P : owned M P →
  (∀ i m, rows M' !! i = Some m → ProjectStore.md_Name m = retention_id → ∃ j, rows M !! j = Some m) → owned M' P.
Proof. intros Ho Hm i m Hi Hn. destruct (Hm i m Hi Hn) as [j Hj]. by eapply Ho. Qed.

Context (js : JsClient) (object_of : string → string) (callbacks : gmap string (string → MT unit)).
Context (polls : nat) (env : M TaskDB unit) (now : Z).

Definition agrees (t : table Schedule) (P : table RetRow) : Prop :=
  schedules_ok RetentionVendorType RetentionCallback param t ∧ ∀ id c, has t id c ↔ wants P id c.

Lemma schedule_agrees k cron t x P : schedules_ok RetentionVendorType RetentionCallback param t →
  (∀ id c, wants P id c ↔ has t id c ∨ id = k ∧ c = cron) →
  spec (sched_of t x) (schedule_retention js object_of callbacks k cron) (λ _ d, rest d = x ∧ agrees (schedules d) P) (λ _, True).
Proof.
  intros Ht Hw. unfold schedule_retention. eapply spec_bind; [apply (schedule_adds js retention_cron object_of callbacks _ _ param), Ht|].
  intros i. apply spec_ret. intros d (-> & _ & Hd & Hh). split; [done|]. split; [done|]. intros id c. by rewrite Hh, Hw.
Qed.

Lemma no_change_agrees t x P : agrees t P → spec (sched_of t x) (mret tt : MT unit) (λ _ d, rest d = x ∧ agrees (schedules d) P) (λ _, True).
Proof. intros Ha. apply spec_ret. by intros d [-> ->]. Qed.

Lemma of_result_bind {A B} (r : result A) (k : A → MT B) P Q :
  (∀ a, r = Ok a → spec P (k a) Q (λ _, True)) → spec P (of_result r ≫= k) Q (λ _, True).
Proof.
  intros Hk. destruct r as [a|e].
  - eapply spec_bind; [eapply (spec_of_result _ _ (λ b d, b = a ∧ P d)); [|done]|]; [by intros b d [= <-] Hd|].
    intros b. apply spec_pure. intros ->. by apply Hk.
  - eapply (spec_bind _ _ (λ _ _, False)); [by apply spec_of_result|]. by intros a w r w' [].
Qed.

(** ** The controller *)

Lemma row_of_owner p q created r : row_of now p created (marshal q) = Ok r → json_ok q →
  pm_Trigger q = pm_Trigger p → pm_Scope q = pm_Scope p →
  ∃ t s, pm_Trigger p = Some t ∧ pm_Scope p = Some s ∧ rr_ID r = pm_ID p ∧
    row_cron r = trigger_cron t ∧ row_owner r = Some (so_Reference s).
Proof.
  unfold row_of, row_cron, row_owner. destruct (pm_Scope p) as [s|] eqn:Es; [|done]. destruct (pm_Trigger p) as [t|] eqn:Et; [|done].
  intros [= <-] Hj Hqt Hqs. simpl. rewrite Hj. exists t, s. split_and!; try done; by rewrite ?Hqt, ?Hqs.
Qed.

Lemma CreateRetention_ok p t x : json_ok p → ret_ok t x →
  spec (sched_of t x) (CreateRetention js object_of callbacks now p)
    (λ id d, id = next (y_policies x) ∧ ret_ok (schedules d) (rest d) ∧ y_rob (rest d) = y_rob x ∧
       ∃ row, row_owner row = so_Reference <$> pm_Scope p ∧ rows (y_policies (rest d)) = <[id := row]> (rows (y_policies x)) ∧
         seq (y_policies (rest d)) = id)
    (λ _, True).
Proof.
  intros Hj [Ht Hp Ha Ho]. unfold CreateRetention, manager_CreatePolicy. set (n := next (y_policies x)).
  assert (Hnew : rows (y_policies x) !! n = None) by (eapply lookup_next, Hp).
  eapply (spec_bind _ _ (λ id d, id = n ∧ ∃ r, row_of now p now (marshal p) = Ok r ∧
    sched_of t (set_y_policies (add_row (λ id, retention_dao.with_id id r) (y_policies x)) x) d)).
  { eapply spec_conseq; [apply (spec_on_rest _ t x (λ id y, id = n ∧ ∃ r, row_of now p now (marshal p) = Ok r ∧
      y = set_y_policies (add_row (λ id, retention_dao.with_id id r) (y_policies x)) x) (λ _, True))|done| |done].
    - eapply (spec_bind _ _ (λ r y, row_of now p now (marshal p) = Ok r ∧ y = x)); [by apply spec_of_result|].
      intros r. apply spec_pure. intros Hr. unfold retention_dao.CreatePolicy.
      eapply (spec_bind _ _ (λ _ y, y = x)); [by apply spec_FromContext|intros []]. apply spec_stmt; [|done]. intros y ->. eauto.
    - intros id d (Hs & -> & r & Hr & Hd). split; [done|]. exists r. done. }
  intros id. apply spec_pure. intros ->. apply spec_ex. intros r. apply spec_pure. intros Hr.
  destruct (row_of_owner _ _ _ _ Hr Hj eq_refl eq_refl) as (tr & s & Htr & Hs & _ & Hcron & Howner). rewrite Htr.
  apply of_result_bind. intros tr' [= <-].
  set (P' := add_row (λ id, retention_dao.with_id id r) (y_policies x)).
  assert (Hrc : row_cron (retention_dao.with_id n r) = trigger_cron tr) by exact Hcron.
  assert (Hw : ∀ id c, wants P' id c ↔ has t id c ∨ id = n ∧ trigger_cron tr = Some c).
  { intros id c. unfold P'. rewrite wants_add by done. fold n. by rewrite Hrc, Ha. }
  eapply (spec_bind _ _ (λ _ d, rest d = set_y_policies P' x ∧ agrees (schedules d) P')).
  - assert (Hnone : trigger_cron tr = None → agrees t P').
    { intros Hn. split; [done|]. intros id c. rewrite Hw, Hn. naive_solver. }
    unfold trigger_cron in Hnone, Hw. destruct (tg_Kind tr == TriggerKindSchedule); [|apply no_change_agrees, Hnone; done].
    destruct (cron_setting tr) as [v|]; [|apply no_change_agrees, Hnone; done]. apply of_result_bind.
    intros cron Hc. destruct v as [c'| |]; try done. injection Hc as ->. destruct (cron == "") eqn:Ec; [apply no_change_agrees, Hnone; done|].
    apply schedule_agrees; [done|]. intros id c. rewrite Hw. naive_solver.
  - intros []. apply spec_ret. intros d (-> & Hsch & Hagr). split; [done|]. split; [split; simpl|].
    + done.
    + apply (tab_ok_add _ _ _ (λ _, False)); try done. by apply select_nil; intros i z _ [].
    + done.
    + by apply owned_add.
    + split; [done|]. exists (retention_dao.with_id n r). by rewrite Hs.
Qed.

(** What [GetPolicy] returns of a row: its trigger and scope are those stored. *)
Lemma GetPolicy_reading id : reading (GetPolicy id) (λ x p, ∃ row t, rows (y_policies x) !! id = Some row ∧ pm_ID p = id ∧
  pm_Trigger p = Some t ∧ row_cron row = trigger_cron t ∧ row_owner row = so_Reference <$> pm_Scope p).
Proof.
  unfold GetPolicy, retention_dao.GetPolicy.
  eapply (reading_conseq _ (λ x p, ∃ o, rows (y_policies x) !! id = o ∧ match o with Some row =>
    ∃ p0, unmarshal (rr_Data row) = Ok p0 ∧ next_run (with_ID id p0) = Ok p | None => False end)).
  - eapply reading_conseq.
    { eapply reading_bind; [apply reading_skip; [unfold reads; frame|intros []; apply reading_query]|].
      intros o. instantiate (1 := λ o x p, match o with Some row => ∃ p0, unmarshal (rr_Data row) = Ok p0 ∧ next_run (with_ID id p0) = Ok p | None => False end).
      destruct o as [row|]; [|apply reading_fail]. eapply reading_bind; [apply reading_of_result|intros p0; apply reading_of_result]. }
    intros x p (o & [= <-] & Ho). eauto.
  - intros x p ([row|] & Hrow & Ho); [|done]. destruct Ho as (p0 & Hu & Hn). unfold next_run in Hn. simpl in Hn.
    assert (Hro : row_owner row = so_Reference <$> pm_Scope p0) by (unfold row_owner; by rewrite Hu).
    destruct (pm_Trigger p0) as [t|] eqn:Et; [|done]. simpl.
    assert (Hrc : row_cron row = trigger_cron t) by (unfold row_cron; by rewrite Hu, Et).
    destruct (tg_Kind t == TriggerKindSchedule) eqn:Ek; [|injection Hn as <-; by exists row, t].
    destruct (cron_setting t) as [v|] eqn:Ec; [|injection Hn as <-; by exists row, t].
    destruct v as [c| |]; try done. simpl in Hn. destruct (c == ""); [injection Hn as <-; by exists row, t|].
    injection Hn as <-. eexists row, _. split_and!; [done|done|reflexivity| |done]. rewrite Hrc. unfold trigger_cron. simpl. rewrite Ek.
    unfold cron_setting in *. simpl. rewrite lookup_insert_ne by done. by rewrite Ec.
Qed.

Lemma needed_spec t0 t un sch : needed t0 t = Ok (un, sch) →
  (un = false → trigger_cron t0 = None ∨ sch = false ∧ trigger_cron t0 = trigger_cron t) ∧
  (sch = false → trigger_cron t = None ∨ un = false ∧ trigger_cron t0 = trigger_cron t) ∧
  (sch = true → tg_Kind t = TriggerKindSchedule).
Proof.
  unfold needed, trigger_cron. destruct (tg_Kind t0 == tg_Kind t) eqn:Ek; simpl.
  - apply bool_decide_eq_true in Ek. rewrite Ek. destruct (tg_Kind t == TriggerKindSchedule) eqn:Es.
    + apply bool_decide_eq_true in Es. case_bool_decide as Ec; [intros [= <- <-]; rewrite Ec; naive_solver|].
      destruct (cron_setting t0) as [[o| |]|]; try done. destruct (cron_setting t) as [[n| |]|]; try done. simpl.
      intros [= <- <-]. destruct (o == ""), (n == ""); naive_solver.
    + destruct (tg_Kind t == ""); [|done]. intros [= <- <-]. naive_solver.
  - intros [= <- <-]. destruct (tg_Kind t0 == TriggerKindSchedule) eqn:E0, (tg_Kind t == TriggerKindSchedule) eqn:E1; try naive_solver.
    + apply bool_decide_eq_true in E1. naive_solver.
    + apply bool_decide_eq_true in E1. naive_solver.
Qed.

Lemma read_step {A B} (m : MT A) φ (k : A → MT B) t x Q : reading m φ →
  (∀ d a, sched_of t x d → φ d a → spec (sched_of t x) (k a) Q (λ _, True)) → spec (sched_of t x) (m ≫= k) Q (λ _, True).
Proof.
  intros Hm Hk. apply spec_exact. intros d Hd. eapply spec_read_bind; [exact Hm|done|]. intros a Ha.
  eapply spec_pre; [by eapply Hk|by intros y ->].
Qed.

(** What the two decisions of an update do to the schedules. *)
Lemma reschedule t0 t un sch k (h h' w : Z → string → Prop) : needed t0 t = Ok (un, sch) →
  (∀ c, h k c ↔ trigger_cron t0 = Some c) → (∀ id c, h' id c ↔ (un = false ∨ id ≠ k) ∧ h id c) →
  (∀ id c, w id c ↔ if decide (id = k) then trigger_cron t = Some c else h id c) →
  (sch = false → ∀ id c, h' id c ↔ w id c) ∧
  (sch = true → ∀ cron, trigger_cron t = Some cron → ∀ id c, w id c ↔ h' id c ∨ id = k ∧ c = cron).
Proof.
  intros (Hun & Hsch & _)%needed_spec Hk Hh Hw. split.
  - intros -> id c. rewrite Hh, Hw. case_decide as E; [subst id; rewrite Hk|tauto].
    destruct (Hsch eq_refl) as [Hn|[-> ->]]; [|tauto]. rewrite Hn. destruct un; [naive_solver|].
    destruct (Hun eq_refl) as [->|[_ ->]]; [naive_solver|]. rewrite Hn. naive_solver.
  - intros -> cron Hc id c. rewrite Hh, Hw, Hc. case_decide as E; [subst id; rewrite Hk|tauto].
    destruct un; [naive_solver|]. destruct (Hun eq_refl) as [->|[? _]]; [|done]. naive_solver.
Qed.

Lemma manager_UpdatePolicy_spec p old x : json_ok (with_ID 0 p) → rows (y_policies x) !! pm_ID p = Some old →
  spec (λ y, y = x) (manager_UpdatePolicy now p) (λ _ y, ∃ row tr s, pm_Trigger p = Some tr ∧ pm_Scope p = Some s ∧ rr_ID row = rr_ID old ∧
    row_cron row = trigger_cron tr ∧ row_owner row = Some (so_Reference s) ∧
    y = set_y_policies (put_row (pm_ID p) row (y_policies x)) x) (λ _, True).
Proof.
  intros Hj Hold. unfold manager_UpdatePolicy.
  eapply (spec_bind _ _ (λ r y, row_of now p 0 (marshal (with_ID 0 p)) = Ok r ∧ y = x)); [by apply spec_of_result|].
  intros r. apply spec_pure. intros Hr. destruct (row_of_owner _ _ _ _ Hr Hj eq_refl eq_refl) as (tr & s & Htr & Hs & Hid & Hcron & Hown).
  unfold retention_dao.UpdatePolicy. eapply (spec_bind _ _ (λ _ y, y = x)); [by apply spec_FromContext|intros []].
  apply spec_stmt; [|done]. intros y ->. rewrite Hid, Hold. by exists (retention_dao.updated r old), tr, s.
Qed.

Lemma UpdateRetention_ok p t x : json_ok (with_ID 0 p) → ret_ok t x →
  (∀ row s, rows (y_policies x) !! pm_ID p = Some row → pm_Scope p = Some s → row_owner row = Some (so_Reference s)) →
  spec (sched_of t x) (UpdateRetention js object_of callbacks polls env now p)
    (λ _ d, ret_ok (schedules d) (rest d) ∧ y_rob (rest d) = y_rob x ∧ ∃ old row, rows (y_policies x) !! pm_ID p = Some old ∧
       rows (y_policies (rest d)) = <[pm_ID p := row]> (rows (y_policies x)) ∧ row_owner row = row_owner old) (λ _, True).
Proof.
  intros Hj [Ht Hp Ha Ho] Hown. unfold UpdateRetention. set (k := pm_ID p) in *.
  apply (read_step _ _ _ _ _ _ (on_rest_reading _ _ (GetPolicy_reading k))).
  intros d0 p0 [_ ->] (old & t0 & Hold & _ & -> & Hc0 & _). destruct (tab_keys _ _ _ _ Hp _ _ Hold) as [_ [Hk _]].
  destruct (pm_Trigger p) as [tr|] eqn:Etr; [|by apply spec_of_result]. apply of_result_bind. intros [un sch] Hneed. cbn [fst snd].
  eapply spec_bind; [eapply spec_conseq; [apply spec_on_rest, (manager_UpdatePolicy_spec _ _ _ Hj Hold)|done|intros a d Hd; exact Hd|done]|].
  intros []. apply spec_exact. intros d1 (Hs1 & row & tr' & s & Htr & Hs & Hid & Hcron & Hro & Hx1). rewrite Etr in Htr. injection Htr as <-.
  fold k in Hx1. set (P' := put_row k row (y_policies x)) in *. eapply (spec_pre _ (sched_of t (set_y_policies P' x))); [|by intros y ->].
  assert (Hw : ∀ id c, wants P' id c ↔ if decide (id = k) then trigger_cron tr = Some c else has t id c).
  { intros id c. unfold P'. rewrite wants_put, Hcron. by case_decide; rewrite ?Ha. }
  assert (Hk0 : ∀ c, has t k c ↔ trigger_cron t0 = Some c).
  { intros c. rewrite Ha, <- Hc0. unfold wants_schedule. rewrite Hold. split; [by intros (r & [= <-] & ?)|eauto]. }
  eapply (spec_bind _ _ (λ _ d, rest d = set_y_policies P' x ∧ schedules_ok RetentionVendorType RetentionCallback param (schedules d) ∧
    ∀ id c, has (schedules d) id c ↔ (un = false ∨ id ≠ k) ∧ has t id c)).
  { destruct un; [eapply spec_post; [apply (unschedule_drops js polls env _ _ _ k t _ Hk Ht)|]|apply spec_ret; intros d [-> ->]; naive_solver].
    intros [] d (? & ? & Hh). split_and!; [done..|]. intros id c. rewrite Hh. naive_solver. }
  intros []. apply spec_exact. intros d2 (Hd2 & Hsok & Hh).
  destruct (reschedule _ _ _ _ k _ _ _ Hneed Hk0 Hh Hw) as [Hkeep Hadd]. apply needed_spec in Hneed as (_ & _ & Hkind).
  eapply (spec_pre _ (sched_of (schedules d2) (set_y_policies P' x))); [|by intros y ->].
  eapply (spec_post _ _ _ (λ _ d, rest d = set_y_policies P' x ∧ agrees (schedules d) P')).
  - destruct sch; [|apply no_change_agrees; split; [done|by apply Hkeep]]. apply of_result_bind. intros cron Hcr.
    destruct (decide (cron = EmptyString)) as [->|Hne].
    + unfold schedule_retention. eapply (spec_bind _ _ (λ _ _, False)); [|by intros ? ? ? ? []].
      unfold Schedule_. rewrite no_empty_cron. by apply spec_fail.
    + apply schedule_agrees; [done|]. apply Hadd; [done|]. unfold trigger_cron. rewrite (Hkind eq_refl). simpl.
      destruct (cron_setting tr) as [[c'| |]|]; try done. injection Hcr as ->. by rewrite bool_decide_false.
  - intros [] d [-> [Hsok' Hagr]]. pose proof (Hown _ _ Hold Hs) as Hoo. split; [split; simpl|split; [done|exists old, row; by rewrite Hro, Hoo]].
    + done.
    + by apply (tab_ok_put _ _ _ _ old).
    + done.
    + apply owned_put; [done|]. intros i m Hm Hn Hv. destruct (Ho i m Hm Hn) as (id & Hv' & _ & Hr'). rewrite Hv in Hv'.
      apply (inj pretty) in Hv' as <-. rewrite Hro, <- (Hr' _ Hold). by symmetry.
Qed.

Lemma tasks_step {A B} (m : M TaskDB A) (k : A → MT B) t x Q :
  (∀ a, spec (sched_of t x) (k a) Q (λ _, True)) → spec (sched_of t x) (on_tasks m ≫= k) Q (λ _, True).
Proof. intros Hk. eapply spec_bind; [by apply on_tasks_frame|exact Hk]. Qed.

Lemma delete_each_frame l t x : spec (sched_of t x) (delete_each l) (λ _, sched_of t x) (λ _, True).
Proof. induction l as [|e l IH]; simpl; [by apply spec_ret|]. apply tasks_step. by intros []. Qed.

Lemma DeleteRetention_ok id t x : ret_ok t x →
  spec (sched_of t x) (DeleteRetention js polls env id)
    (λ _ d, ret_ok (schedules d) (rest d) ∧ y_rob (rest d) = y_rob x ∧ rows (y_policies (rest d)) = base.delete id (rows (y_policies x))) (λ _, True).
Proof.
  intros [Ht Hp Ha Ho]. unfold DeleteRetention. apply (read_step _ _ _ _ _ _ (on_rest_reading _ _ (GetPolicy_reading id))).
  intros d0 p [_ ->] (old & tr & Hold & _ & -> & Hc & _). destruct (tab_keys _ _ _ _ Hp _ _ Hold) as [_ [Hk _]].
  apply of_result_bind. intros ? [= <-].
  eapply (spec_bind _ _ (λ _ d, rest d = x ∧ schedules_ok RetentionVendorType RetentionCallback param (schedules d) ∧
    ∀ i c, has (schedules d) i c ↔ i ≠ id ∧ has t i c)).
  - assert (Hnone : trigger_cron tr = None → ∀ i c, has t i c ↔ i ≠ id ∧ has t i c).
    { intros Hn i c. split; [|by intros []]. intros Hh. split; [|done]. intros ->. apply Ha in Hh as (r & Hr & Hrc).
      rewrite Hold in Hr. injection Hr as <-. congruence. }
    unfold trigger_cron in Hnone. destruct (tg_Kind tr == TriggerKindSchedule).
    + apply of_result_bind. intros cron Hcr. destruct (cron_setting tr) as [[c'| |]|]; try done. injection Hcr as ->.
      destruct (cron == ""); [apply spec_ret; intros d [-> ->]; split_and!; try done; by apply Hnone|].
      by apply unschedule_drops.
    + apply spec_ret. intros d [-> ->]. split_and!; try done. by apply Hnone.
  - intros []. apply spec_exact. intros d1 (Hx & Hsok & Hh). eapply (spec_pre _ (sched_of (schedules d1) x)); [|by intros y ->].
    unfold deleteExecs, executions_of. eapply (spec_bind _ _ (λ _, sched_of (schedules d1) x)).
    { apply tasks_step. intros l. apply delete_each_frame. }
    intros []. eapply spec_conseq; [apply (spec_on_rest _ (schedules d1) x (λ _ y, y = set_y_policies (del_row id (y_policies x)) x) (λ _, True))|done| |done].
    + unfold retention_dao.DeletePolicy. eapply (spec_bind _ _ (λ _ y, y = x)); [by apply spec_FromContext|intros []]. apply spec_stmt; [|done].
      by intros y ->.
    + intros [] d [Hs ->]. split; [|done]. rewrite Hs. split; simpl; [done|by apply tab_ok_del| |by apply owned_del].
      intros i c. by rewrite Hh, wants_del, Ha.
Qed.

(** Executions leave policies, metadata and schedules alone. *)
Lemma reading_keeps {A} (m : MT A) φ t x : reading m φ → keeps (sched_of t x) m.
Proof. intros Hm. eapply keeps_reads, reading_reads, Hm. Qed.

Lemma submitTasks_keeps retention_js eid l t x : keeps (sched_of t x) (submitTasks retention_js eid l).
Proof. induction l as [|j l IH]; simpl; [apply keeps_ret|]. apply keeps_bind; [apply on_tasks_sched|by intros ?]. Qed.

Lemma Launch_keeps dm retention_js p eid dry t x : keeps (sched_of t x) (Launch dm retention_js p eid dry).
Proof.
  unfold Launch, launching. destruct (pm_Rules p); [apply keeps_ret|]. apply keeps_bind; [apply keeps_try|by intros [a|e]; [apply keeps_ret|apply keeps_fail]].
  apply keeps_bind; [eapply reading_keeps, plan_reading|]. intros jobs. apply keeps_bind; [apply submitTasks_keeps|intros ?; apply keeps_ret].
Qed.

Lemma Trigger_keeps dm retention_js id trigger dry t x : keeps (sched_of t x) (TriggerRetentionExec dm js retention_js polls env id trigger dry).
Proof.
  unfold TriggerRetentionExec. apply keeps_bind; [eapply reading_keeps, on_rest_reading, GetPolicy_reading|]. intros p.
  apply keeps_bind; [apply keeps_try, on_tasks_sched|]. intros c. apply keeps_bind; [apply keeps_try, Launch_keeps|]. intros [num|e].
  - apply keeps_bind; [destruct (num =? 0); [|apply keeps_ret]; apply keeps_bind; [apply keeps_try, on_tasks_sched|intros ?; apply keeps_ret]|].
    intros []. destruct c; [apply keeps_ret|apply keeps_fail].
  - apply keeps_bind; [apply keeps_try, on_tasks_sched|intros ?]. apply keeps_bind; [apply keeps_try, on_tasks_sched|intros ?; apply keeps_fail].
Qed.

(** ** The API *)

Context (sc : option RobotStore.SecCtx).
Definition may (ctx : RobotStore.SecCtx) (action : string) (pid : Z) : Prop :=
  RobotStore.Can ctx action (Rbac.ns_Resource (Rbac.ProjectNS pid) [Rbac.ResourceTagRetention]) = true ∨
  RobotStore.Can ctx action (Rbac.ns_Resource Rbac.SystemNS [Rbac.ResourceTagRetention]) = true.

Lemma requireAccess_reading p action : reading (retentionAPI.requireAccess sc p action)
  (λ _ _, ∃ s ctx, pm_Scope p = Some s ∧ sc = Some ctx ∧ may ctx action (so_Reference s)).
Proof.
  unfold retentionAPI.requireAccess. destruct (pm_Scope p) as [s|]; [|eapply reading_conseq; [apply reading_of_result|done]].
  destruct (so_Level s == "project"); apply (on_robots_reading _ (λ _ _, ∃ s' ctx, Some s = Some s' ∧ sc = Some ctx ∧ may ctx action (so_Reference s'))).
  - unfold RobotStore.BaseAPI.RequireProjectAccess. eapply reading_conseq.
    { eapply reading_bind; [unfold RobotStore.BaseAPI.HasProjectPermission; apply reading_ret|].
      intros b. instantiate (1 := λ b _ _, b = true). destruct b; [eapply reading_conseq; [apply reading_ret|done]|].
      eapply reading_conseq; [eapply reading_bind; [apply reading_of_result|intros c; destruct (negb _); apply (reading_fail _ (λ _ _, False))]|naive_solver]. }
    intros d [] (b & -> & Hb). unfold RobotStore.BaseAPI.HasPermission, RobotStore.BaseAPI.GetSecurityContext in Hb.
    destruct sc as [ctx|]; [|done]. exists s, ctx. split_and!; [done..|]. by left.
  - unfold RobotStore.BaseAPI.RequireSystemAccess. eapply reading_conseq.
    { eapply reading_bind; [apply reading_of_result|]. intros c.
      instantiate (1 := λ c _ _, RobotStore.Can c action (Rbac.ns_Resource Rbac.SystemNS [Rbac.ResourceTagRetention]) = true).
      destruct (negb (RobotStore.IsAuthenticated c)); [apply reading_fail|]. destruct (RobotStore.Can c _ _) eqn:Ec; [|apply reading_fail].
      eapply reading_conseq; [apply reading_ret|done]. }
    intros d [] (c & Hc & Hcan). unfold RobotStore.BaseAPI.GetSecurityContext in Hc. destruct sc as [ctx|]; [|done]. injection Hc as ->.
    exists s, c. split_and!; [done..|]. by right.
Qed.

Lemma Prepare_reading : reading (retentionAPI.Prepare sc) (λ _ _, True).
Proof.
  apply (on_robots_reading _ (λ _ _, True)). unfold RobotStore.BaseAPI.RequireAuthenticated.
  eapply reading_conseq; [eapply reading_bind; [apply reading_of_result|]|done].
  intros c. instantiate (1 := λ _ _ _, True). destruct (negb _); [apply reading_fail|eapply reading_conseq; [apply reading_ret|done]].
Qed.

Lemma metadata_in d pid names n v : metadata d pid names !! n = Some v →
  ∃ i m, rows (ProjectStore.metas d) !! i = Some m ∧ ProjectStore.md_ProjectID m = pid ∧ ProjectStore.md_Name m = n ∧ ProjectStore.md_Value m = v.
Proof.
  unfold metadata. set (l := select _ _).
  assert (Hl : ∀ m, m ∈ l → ∃ i, rows (ProjectStore.metas d) !! i = Some m ∧ ProjectStore.md_ProjectID m = pid).
  { intros m Hm. apply elem_of_select in Hm as (i & Hi & Hp & _). eauto. }
  clearbody l. intros Hf. assert (Hm : ∃ m, m ∈ l ∧ ProjectStore.md_Name m = n ∧ ProjectStore.md_Value m = v).
  { clear Hl. revert Hf. induction l as [|m l IH] using rev_ind; simpl; [done|]. rewrite foldl_app. simpl.
    intros [[<- <-]|[_ Hf]]%lookup_insert_Some; [exists m; set_solver|]. destruct (IH Hf) as (m' & ? & ?). exists m'. set_solver. }
  destruct Hm as (m & Hin & Hn & Hv). destruct (Hl m Hin) as (i & Hi & Hp). by exists i, m.
Qed.

Lemma requirePolicyAccess_reading p : reading (retentionAPI.requirePolicyAccess p)
  (λ d _, ∃ s, pm_Scope p = Some s ∧ ∃ i m, rows (metas_of (rest d)) !! i = Some m ∧ ProjectStore.md_ProjectID m = so_Reference s ∧
     ProjectStore.md_Name m = retention_id ∧ ProjectStore.md_Value m = pretty (pm_ID p)).
Proof.
  unfold retentionAPI.requirePolicyAccess. destruct (pm_Scope p) as [s|]; [|eapply reading_conseq; [apply reading_of_result|done]].
  eapply reading_conseq.
  { eapply reading_bind; [apply on_projects_reading, meta_Get_reading|]. intros m.
    instantiate (1 := λ m _ _, m !! retention_id = Some (pretty (pm_ID p))). case_bool_decide; [|apply reading_fail].
    eapply reading_conseq; [apply reading_ret|done]. }
  intros d [] (m & -> & Hm). exists s. split; [done|]. apply metadata_in in Hm as (i & x & Hx & ? & ? & ?). by exists i, x.
Qed.

(** The policy that the metadata names belongs to the project. *)
Lemma owned_scope t x p s i m row : ret_ok t x → rows (metas_of x) !! i = Some m → ProjectStore.md_Name m = retention_id →
  ProjectStore.md_Value m = pretty (pm_ID p) → ProjectStore.md_ProjectID m = so_Reference s →
  rows (y_policies x) !! pm_ID p = Some row → row_owner row = Some (so_Reference s).
Proof.
  intros [_ _ _ Ho] Hm Hn Hv Hpid Hrow. destruct (Ho i m Hm Hn) as (id & Hv' & _ & Hr). rewrite Hv in Hv'. apply (inj pretty) in Hv' as <-.
  rewrite (Hr _ Hrow). by rewrite Hpid.
Qed.

(** What a request may do to the policies. *)
Definition authorised (action : string) (x : RetRest) (d : RetDB) : Prop :=
  ret_ok (schedules d) (rest d) ∧ ∀ k, rows (y_policies (rest d)) !! k ≠ rows (y_policies x) !! k →
    ∃ ctx pid, sc = Some ctx ∧ may ctx action pid ∧
      ∀ row, rows (y_policies x) !! k = Some row ∨ rows (y_policies (rest d)) !! k = Some row → row_owner row = Some pid.

Lemma unchanged_authorised action t x d : ret_ok t x → schedules d = t → rest d = x → authorised action x d.
Proof. intros Hx <- <-. by split. Qed.

Lemma API_Update_ok id p t x : json_ok (with_ID 0 p) → ret_ok t x →
  spec (sched_of t x) (retentionAPI.UpdateRetention js object_of callbacks polls env now sc id p) (λ _, authorised Rbac.ActionUpdate x) (λ _, True).
Proof.
  intros Hj Hx. unfold retentionAPI.UpdateRetention. apply (read_step _ _ _ _ _ _ Prepare_reading). intros d0 [] _ _.
  apply of_result_bind. intros [] _. apply (read_step _ _ _ _ _ _ (requireAccess_reading _ _)).
  intros d1 [] _ (s & ctx & Hs & Hctx & Hmay). apply (read_step _ _ _ _ _ _ (requirePolicyAccess_reading _)).
  intros d2 [] [_ ->] (s' & Hs' & i & m & Hm & Hpid & Hn & Hv). rewrite Hs in Hs'. injection Hs' as <-. cbn [pm_ID with_ID] in *.
  eapply spec_post; [apply UpdateRetention_ok; [exact Hj|exact Hx|]|].
  - intros row s' Hrow Hs'. rewrite Hs in Hs'. injection Hs' as <-. by eapply (owned_scope t x (with_ID id p)).
  - intros [] d (Hok & _ & old & row & Hold & Hrows & How). split; [done|]. intros k Hk. rewrite Hrows in Hk |- *.
    destruct (decide (k = id)) as [->|Hne]; [|by rewrite lookup_insert_ne in Hk]. rewrite lookup_insert_eq.
    assert (Hoo : row_owner old = Some (so_Reference s)) by (by eapply (owned_scope t x (with_ID id p))).
    exists ctx, (so_Reference s). split_and!; [done..|]. cbn [pm_ID with_ID] in Hold. intros r [Hr|[= <-]]; congruence.
Qed.

(** Adding one attribute. *)
Lemma meta_Add_spec pid name v e : spec (λ y, y = e) (ProjectStore.meta_mgr.Add pid {[name := v]})
  (λ _ y, y = ProjectStore.set_metas (add_row (λ n, ProjectStore.mkProjectMetadata n pid name v) (ProjectStore.metas e)) e) (λ _, True).
Proof.
  unfold ProjectStore.meta_mgr.Add. rewrite map_to_list_singleton. eapply (spec_WithTransaction _ _ _ _ (λ _, True)); [|done]. simpl.
  eapply spec_bind; [|intros ?; apply spec_ret; intros y Hy; exact Hy].
  unfold ProjectStore.meta_dao.Create. eapply (spec_bind _ _ (λ _ y, y = e)); [by apply spec_FromContext|intros []].
  unfold ProjectStore.map_error. eapply spec_bind.
  - apply (spec_try _ _ (λ _ y, y = ProjectStore.set_metas (add_row (λ n, ProjectStore.mkProjectMetadata n pid name v) (ProjectStore.metas e)) e) (λ _, True)).
    apply spec_stmt; [|done]. intros y ->. case_decide; [|done]. by destruct (_ !! _).
  - intros [a|er]; [by apply spec_ret|by apply spec_fail].
Qed.

Lemma spec_on_projects {A} (m : M ProjectStore.ProjDB A) t x (Q : A → ProjectStore.ProjDB → Prop) :
  spec (λ y, y = RobotStore.rproj (y_rob x)) m Q (λ _, True) →
  spec (sched_of t x) (on_projects m)
    (λ a d, schedules d = t ∧ ∃ e, Q a e ∧ rest d = set_y_rob (RobotStore.set_rproj e (y_rob x)) x) (λ _, True).
Proof.
  intros Hm. eapply spec_conseq; [apply (spec_on_rest _ t x (λ a y, ∃ e, Q a e ∧ y = set_y_rob (RobotStore.set_rproj e (y_rob x)) x) (λ _, True))|done..].
  apply spec_zoom. intros y ->. apply spec_zoom. intros z ->. eapply spec_conseq; [exact Hm|done| |done]. eauto.
Qed.

(** The metadata of a state change; policies and schedules do not. *)
Lemma ret_ok_metas t x e : ret_ok t x → owned (ProjectStore.metas e) (y_policies x) → ret_ok t (set_y_rob (RobotStore.set_rproj e (y_rob x)) x).
Proof. intros [Ht Hp Ha _] Ho. by split. Qed.

Lemma API_Create_ok p t x : json_ok p → ret_ok t x →
  spec (sched_of t x) (retentionAPI.CreateRetention js object_of callbacks now sc p) (λ _, authorised Rbac.ActionCreate x) (λ _, True).
Proof.
  intros Hj Hx. unfold retentionAPI.CreateRetention. apply (read_step _ _ _ _ _ _ Prepare_reading). intros d0 [] _ _.
  apply of_result_bind. intros [] _. apply (read_step _ _ _ _ _ _ (requireAccess_reading _ _)).
  intros d1 [] _ (s & ctx & Hs & Hctx & Hmay). eapply (read_step _ (λ _ s', s' = s)).
  { unfold retentionAPI.check_scope. rewrite Hs. destruct (_ == _); [|apply reading_fail]. destruct (_ <=? _); [apply reading_fail|].
    eapply reading_conseq; [eapply (reading_bind _ _ (λ _ _, True)); [|intros r; instantiate (1 := λ _ _ s', s' = s)]|naive_solver].
    - eapply reading_conseq; [apply reading_try, on_projects_reading, project_GetByID_reading|done].
    - destruct r as [v|e]; [apply reading_ret|]. destruct (IsNotFoundErr e); apply reading_fail. }
  intros d2 ? _ ->. eapply read_step; [apply on_projects_reading, meta_Get_reading|]. intros d3 old _ _.
  destruct (old !! retention_id); [by apply spec_fail|].
  eapply spec_bind; [by apply CreateRetention_ok|]. intros id. apply spec_exact.
  intros d4 (-> & Hok & Hrob & row & How & Hrows & Hseq). rewrite Hs in How. simpl in How. set (n := next (y_policies x)) in *.
  eapply (spec_pre _ (sched_of (schedules d4) (rest d4))); [|by intros y ->].
  eapply spec_bind; [apply spec_on_projects, meta_Add_spec|]. intros []. apply spec_ret. intros d (Hsch & e & -> & Hrest).
  split.
  - rewrite Hsch, Hrest. apply ret_ok_metas; [done|]. intros i m Hm Hn. simpl in Hm.
    apply lookup_insert_Some in Hm as [[<- <-]|[_ Hm]]; [|by eapply (ro_owned _ _ Hok)]. simpl. exists n.
    split_and!; [done|lia|]. intros r. rewrite Hrows, lookup_insert_eq. by intros [= <-].
  - intros k Hk. rewrite Hrest in Hk |- *. simpl in *. rewrite Hrows in Hk |- *. exists ctx, (so_Reference s). split_and!; [done..|].
    destruct (decide (k = n)) as [->|Hne]; [|by rewrite lookup_insert_ne in Hk]. rewrite lookup_insert_eq.
    assert (Hnew : rows (y_policies x) !! n = None) by (eapply lookup_next, (ro_policies _ _ Hx)). intros r [Hr|[= <-]]; [congruence|done].
Qed.

Lemma found_reading id : reading (retentionAPI.found id) (λ d p, ∃ row, rows (y_policies (rest d)) !! id = Some row ∧
  row_owner row = so_Reference <$> pm_Scope p).
Proof.
  unfold retentionAPI.found. eapply reading_conseq.
  { eapply reading_bind; [apply reading_try, on_rest_reading, (GetPolicy_reading id)|]. intros r.
    instantiate (1 := λ r _ p, r = Ok p). destruct r as [p|e]; [eapply reading_conseq; [apply reading_ret|by intros ?? ->]|apply reading_fail]. }
  intros d p (r & Hr & ->). destruct (Hr p eq_refl) as (row & t & ? & _ & _ & _ & ?). by exists row.
Qed.

Lemma API_Delete_ok id t x : ret_ok t x →
  spec (sched_of t x) (retentionAPI.DeleteRetention js polls env sc id) (λ _, authorised Rbac.ActionDelete x) (λ _, True).
Proof.
  intros Hx. unfold retentionAPI.DeleteRetention. apply (read_step _ _ _ _ _ _ Prepare_reading). intros d0 [] _ _.
  apply (read_step _ _ _ _ _ _ (found_reading id)). intros d1 p [_ ->] (row & Hrow & How).
  apply (read_step _ _ _ _ _ _ (requireAccess_reading _ _)). intros d2 [] _ (s & ctx & Hs & Hctx & Hmay).
  eapply spec_post; [by apply DeleteRetention_ok|]. intros [] d (Hok & _ & Hrows). split; [done|]. intros k Hk. rewrite Hrows in Hk |- *.
  destruct (decide (k = id)) as [->|Hne]; [|by rewrite lookup_delete_ne in Hk]. rewrite lookup_delete_eq. rewrite Hs in How. simpl in How.
  exists ctx, (so_Reference s). split_and!; [done..|]. intros r [Hr|?]; [congruence|done].
Qed.

(** ** Project metadata *)

Context (title : string → string).

Lemma validate_key metas m : projectMetadataAPI.validate title metas = Ok m → ∃ key v, m = {[key := v]} ∧ key ≠ retention_id.
Proof.
  unfold projectMetadataAPI.validate. destruct (map_to_list metas) as [|[key value] [|]]; [done| |done].
  case_bool_decide as Hk.
  - destruct (projectMetadataAPI.ParseBool value) as [b|]; [|done]. intros [= <-]. eexists key, _. split; [done|]. intros ->.
    assert (E : bool_decide (retention_id ∈ projectMetadataAPI.bool_keys) = false) by reflexivity. by apply bool_decide_eq_false in E.
  - destruct (key == "severity"); [|done]. destruct (_ == _); [done|]. intros [= <-]. by eexists _, _.
Qed.

(** Rows that name a policy are rows that were there. *)
Definition names_kept (e e' : ProjectStore.ProjDB) : Prop :=
  ∀ i m, rows (ProjectStore.metas e') !! i = Some m → ProjectStore.md_Name m = retention_id → ∃ j, rows (ProjectStore.metas e) !! j = Some m.

Lemma meta_Add_kept pid key v e : key ≠ retention_id →
  spec (λ y, y = e) (ProjectStore.meta_mgr.Add pid {[key := v]}) (λ _, names_kept e) (λ _, True).
Proof.
  intros Hk. eapply spec_post; [apply meta_Add_spec|]. intros [] y -> i m Hm Hn. simpl in Hm.
  apply lookup_insert_Some in Hm as [[_ <-]|[_ Hm]]; [done|eauto].
Qed.

Lemma meta_Update_kept pid key v e : key ≠ retention_id →
  spec (λ y, y = e) (ProjectStore.meta_mgr.Update pid {[key := v]}) (λ _, names_kept e) (λ _, True).
Proof.
  intros Hk. unfold ProjectStore.meta_mgr.Update. case_decide as E; [by apply spec_ret; intros y -> i m Hm _; eauto|].
  rewrite map_to_list_singleton. eapply (spec_WithTransaction _ _ _ _ (λ _, True)); [|done]. simpl.
  eapply (spec_bind _ _ (λ _, names_kept e)); [|intros []; by apply spec_ret].
  unfold ProjectStore.meta_dao.Update. eapply (spec_bind _ _ (λ _ y, y = e)); [by apply spec_FromContext|intros []].
  apply spec_stmt; [|done]. intros y -> i m Hm Hn. simpl in Hm. rewrite lookup_fmap in Hm.
  destruct (rows (ProjectStore.metas e) !! i) as [m'|] eqn:Em; [|done]. injection Hm as <-. exists i. rewrite Em. f_equal.
  unfold ProjectStore.meta_dao.set_value in *. case_decide as Ed; [|done]. destruct Ed as [_ <-]. by simpl in Hn.
Qed.

Lemma meta_Delete_kept pid names e : spec (λ y, y = e) (ProjectStore.meta_mgr.Delete pid names) (λ _, names_kept e) (λ _, True).
Proof.
  unfold ProjectStore.meta_mgr.Delete, ProjectStore.meta_dao.Delete. eapply (spec_bind _ _ (λ _ y, y = e)); [by apply spec_FromContext|intros []].
  apply spec_stmt; [|done]. intros y -> i m Hm Hn. apply lookup_dels in Hm as [Hm _]. eauto.
Qed.

Lemma robots_spec {A} (m : M RobotStore.RobotDB A) t x : ret_ok t x →
  spec (λ y, y = y_rob x) m (λ _ y, names_kept (RobotStore.rproj (y_rob x)) (RobotStore.rproj y)) (λ _, True) →
  spec (sched_of t x) (on_robots m) (λ _, authorised EmptyString x) (λ _, True).
Proof.
  intros Hx Hm. eapply spec_conseq; [apply (spec_on_rest _ t x (λ _ y, ∃ r, y = set_y_rob r x ∧
    names_kept (RobotStore.rproj (y_rob x)) (RobotStore.rproj r)) (λ _, True))|done| |done].
  - apply spec_zoom. intros y ->. eapply spec_conseq; [exact Hm|done| |done]. eauto.
  - intros a d (<- & r & Hr & Hk). unfold authorised. rewrite Hr. split; [|done]. destruct Hx as [Ht Hp Ha Ho]. split; try done. simpl.
    eapply owned_metas; [exact Ho|exact Hk].
Qed.

Lemma meta_request {A} (m : M RobotStore.RobotDB unit) (check : result A) x (k : A → Z → M ProjectStore.ProjDB unit) r : reads m →
  (∀ a pid e, check = Ok a → spec (λ y, y = e) (k a pid) (λ _, names_kept e) (λ _, True)) →
  spec (λ y, y = r) (_ ← m; a ← of_result check; pid ← projectMetadataAPI.project_of x; RobotStore.on_projects (k a pid))
    (λ _ y, names_kept (RobotStore.rproj r) (RobotStore.rproj y)) (λ _, True).
Proof.
  intros Hm Hk. eapply (spec_bind _ _ (λ _ y, y = r)); [by apply spec_reads_E|intros []].
  eapply (spec_bind _ _ (λ a y, check = Ok a ∧ y = r)); [by apply spec_of_result|]. intros a. apply spec_pure. intros Ha.
  eapply (spec_bind _ _ (λ _ y, y = r)).
  { apply spec_reads_E; [|done]. unfold reads, projectMetadataAPI.project_of. frame. apply RobotSpec.on_projects_Get_reads. }
  intros pid. apply spec_zoom. intros y ->. eapply spec_conseq; [apply (Hk a pid (RobotStore.rproj r) Ha)|done|intros [] e He; exact He|done].
Qed.

(** ** Requests *)

Inductive ret_req :=
| RqCreate (p : Metadata)
| RqUpdate (id : Z) (p : Metadata)
| RqDelete (id : Z)
| RqTrigger (id : Z) (dryRun : bool)
| RqOperate (id eid : Z) (action : string)
| RqAddMetadata (x : ProjectStore.id_or_name) (metas : gmap string string)
| RqUpdateMetadata (x : ProjectStore.id_or_name) (name : string) (metas : gmap string string)
| RqDeleteMetadata (x : ProjectStore.id_or_name) (name : string)
| RqCallback (p : string).

Context (dm : string → string → result bool) (retention_js : string → string → bool → JsClient).

(** A request runs in a transaction, the callback of a schedule does not. *)
Definition ret_run (q : ret_req) : MT unit :=
  match q with
  | RqCreate p => WithTransaction (_ ← retentionAPI.CreateRetention js object_of callbacks now sc p; mret tt)
  | RqUpdate id p => WithTransaction (retentionAPI.UpdateRetention js object_of callbacks polls env now sc id p)
  | RqDelete id => WithTransaction (retentionAPI.DeleteRetention js polls env sc id)
  | RqTrigger id dryRun => WithTransaction (_ ← retentionAPI.TriggerRetentionExecution dm js retention_js polls env sc id dryRun; mret tt)
  | RqOperate id eid action => WithTransaction (retentionAPI.OperateRetentionExecution js sc id eid action)
  | RqAddMetadata x metas => WithTransaction (on_robots (projectMetadataAPI.AddProjectMetadatas title sc x metas))
  | RqUpdateMetadata x name metas => WithTransaction (on_robots (projectMetadataAPI.UpdateProjectMetadata title sc x name metas))
  | RqDeleteMetadata x name => WithTransaction (on_robots (projectMetadataAPI.DeleteProjectMetadata sc x name))
  | RqCallback p => retentionCallback dm js retention_js polls env p
  end.

Definition req_action (q : ret_req) : string :=
  match q with RqCreate _ => Rbac.ActionCreate | RqUpdate _ _ => Rbac.ActionUpdate | RqDelete _ => Rbac.ActionDelete | _ => EmptyString end.
Definition req_json (q : ret_req) : Prop :=
  match q with RqCreate p => json_ok p | RqUpdate _ p => json_ok (with_ID 0 p) | _ => True end.

Lemma request_keeps {A} (m : MT A) action t x : keeps (sched_of t x) m → ret_ok t x →
  spec (sched_of t x) m (λ _, authorised action x) (λ _, True).
Proof. intros Hm Hx. eapply spec_conseq; [exact Hm|done| |done]. intros a d [? ?]. by eapply unchanged_authorised. Qed.

Lemma ret_run_authorised q t x : req_json q → ret_ok t x → spec (sched_of t x) (ret_run q) (λ _, authorised (req_action q) x) (authorised (req_action q) x).
Proof.
  intros Hj Hx. assert (Hend : ∀ d : RetDB, sched_of t x d → authorised (req_action q) x d) by (intros d [? ?]; by eapply unchanged_authorised).
  destruct q; cbn [ret_run req_action req_json] in *; try (eapply (spec_WithTransaction _ _ _ _ (λ _, True)); [|done]).
  - eapply spec_bind; [by apply API_Create_ok|]. intros ?. by apply spec_ret.
  - by apply API_Update_ok.
  - by apply API_Delete_ok.
  - apply request_keeps; [|done]. apply keeps_bind; [|intros ?; apply keeps_ret]. unfold retentionAPI.TriggerRetentionExecution.
    apply keeps_bind; [eapply reading_keeps, Prepare_reading|intros ?]. apply keeps_bind; [eapply reading_keeps, found_reading|intros p].
    apply keeps_bind; [eapply reading_keeps, requireAccess_reading|intros ?]. apply Trigger_keeps.
  - apply request_keeps; [|done]. unfold retentionAPI.OperateRetentionExecution.
    apply keeps_bind; [eapply reading_keeps, Prepare_reading|intros ?]. destruct (negb _); [apply keeps_fail|].
    apply keeps_bind; [eapply reading_keeps, found_reading|intros p]. apply keeps_bind; [eapply reading_keeps, requireAccess_reading|intros ?].
    apply keeps_bind; [eapply reading_keeps, requirePolicyAccess_reading|intros ?].
    apply keeps_bind; [unfold retentionAPI.requireExecutionInProject, GetRetentionExec|intros ?].
    { apply keeps_bind; [apply keeps_bind; [apply on_tasks_sched|intros ?; apply keeps_of_result]|]. intros e. destruct (_ && _); [apply keeps_ret|apply keeps_fail]. }
    unfold OperateRetentionExec, launcher_Stop. apply keeps_bind; [apply on_tasks_sched|intros ?]. destruct (_ == _); [|apply keeps_fail].
    destruct (_ <=? _); [apply keeps_fail|apply on_tasks_sched].
  - apply robots_spec; [done|]. apply meta_request; [apply RobotSpec.RequireProjectAccess_reads|].
    intros m pid e (key & v & -> & Hk)%validate_key. by apply meta_Add_kept.
  - apply robots_spec; [done|]. apply meta_request; [apply RobotSpec.RequireProjectAccess_reads|].
    intros m pid e (key & v & -> & Hk)%validate_key. by apply meta_Update_kept.
  - apply robots_spec; [done|]. unfold projectMetadataAPI.DeleteProjectMetadata.
    apply (meta_request _ (Ok tt) _ (λ _ pid, ProjectStore.meta_mgr.Delete pid [name])); [apply RobotSpec.RequireProjectAccess_reads|].
    intros [] pid e _. apply meta_Delete_kept.
  - eapply (spec_conseq _ (sched_of t x) _ _ (λ _, sched_of t x) _ (sched_of t x)); [|done|intros [] d; apply Hend|exact Hend].
    change (keeps (sched_of t x) (retentionCallback dm js retention_js polls env p)). unfold retentionCallback. destruct (param_of p) as [[id tg]|e]; [|apply keeps_fail].
    apply keeps_bind; [apply Trigger_keeps|intros ?; apply keeps_ret].
Qed.
End policies.

(** C14 (safety). Who may change a retention policy.  Whatever the request on retention
    policies, their executions and the metadata of projects, or the callback of a
    schedule, and whatever fails: afterwards every policy with a schedule trigger has
    exactly one schedule, at its cron expression, no other schedule of retention exists,
    and the policy that the metadata of a project names is one for that project.  A
    policy that is created, changed or deleted is, before and after, one for a project
    for which, or for the whole system, the caller has the right to that action. *)
Theorem retention_authorised `{RetentionConfig} js object_of callbacks polls env now sc title dm retention_js q w r w' :
  retention_cron EmptyString = false → req_json q → ret_ok (schedules (db w)) (rest (db w)) →
  ret_run js object_of callbacks polls env now sc title dm retention_js q w = (r, w') → authorised sc (req_action q) (rest (db w)) (db w').
Proof.
  intros Hcron Hj Hx Hr.
  pose proof (ret_run_authorised Hcron js object_of callbacks polls env now sc title dm retention_js q _ _ Hj Hx w r w' (conj eq_refl eq_refl) Hr) as Ha.
  by destruct r.
Qed.

(** ** An example: two repositories, a rule for one of them *)

#[local] Instance param_dec : EqDecision param.
Proof. solve_decision. Defined.
#[local] Instance SelectorMeta_dec : EqDecision SelectorMeta.
Proof. solve_decision. Defined.
#[local] Instance RuleMeta_dec : EqDecision RuleMeta.
Proof. solve_decision. Defined.
#[local] Instance Rule_dec : EqDecision Rule.
Proof. solve_decision. Defined.

Definition ex_rule : Rule :=
  mkFullRule 1 1 false (mkRule "latestPushedK" {["latestPushedK"%string := PNum 1]} "retain" [mkSelectorMeta "doublestar" "matches" "**" None])
    {["repository"%string := [mkSelectorMeta "doublestar" "repoMatches" "app" None]]}.
Definition ex_retention (kind cron : string) : Metadata :=
  mkMetadata 0 "or" [ex_rule] (Some (mkTrigger kind (if cron == "" then ∅ else {["cron"%string := SString cron]}))) (Some (mkScope "project" 1)).
Definition ex_book : list Metadata := [ex_retention "Schedule" "0 0 0 * * *"; ex_retention "Schedule" "0 0 1 * * *"; ex_retention "Schedule" ""; ex_retention "" ""].
Definition ex_marshal (p : Metadata) : string :=
  match pm_Trigger p with
  | Some t => tg_Kind t +:+ match cron_setting t with Some (SString c) => c | _ => EmptyString end
  | None => EmptyString
  end.

#[local] Instance ex_config : RetentionConfig := {|
  marshal := ex_marshal;
  unmarshal := λ s, match List.find (λ p, ex_marshal p == s) ex_book with Some p => Ok p | None => Err (PlainError "unexpected end of JSON input") end;
  marshal_rule := λ r, pretty (rl_ID r);
  retention_cron := λ s, negb (s == "");
  NextSchedule := λ _, 0;
  trigger_param := λ id _, pretty id;
  param_of := λ s, match ParseInt s with Some id => Ok (id, "Schedule"%string) | None => Err (PlainError "invalid character") end;
  repository_json := λ k, Ok (re_Name k);
  lite_json := λ alg rs, if decide (alg = "or"%string ∧ rs = [ex_rule]) then Ok "rule"%string else Err (PlainError "unknown");
  execution_attrs := λ b, if b then "dry" else "real";
  task_attrs := λ name _, name;
  dry_run_of := λ s, if s == "dry" then Some true else if s == "real" then Some false else None;
  text_attr := λ _ s, s;
  number_attr := λ _ _, 0;
  counted_attrs := λ s _ _, s;
  range_order := λ l, l;
  range_perm := λ l, reflexivity l;
|}.

Definition ex_repo (id : Z) (name : string) : RepoRecord := mkRepoRecord id name 1 EmptyString 0 0 0.
Definition ex_rob (metas : table ProjectStore.ProjectMetadata) : RobotStore.RobotDB :=
  RobotStore.mkRobotDB (ProjectStore.mkProjDB (mkTable {[1 := ProjectStore.mkProject 1 1 "library" false 0 0]} 1) empty_table metas
    empty_table empty_table empty_table 0) empty_table empty_table empty_table.
Definition ex_ret_db : RetDB :=
  mkSchedDB (mkTaskDB ∅ ∅ 0 0 1) empty_table
    (mkRetRest (ex_rob empty_table)
       (mkArtDB empty_table empty_table empty_table empty_table empty_table empty_table empty_table
          (mkTable (<[1 := ex_repo 1 "library/app"]> {[2 := ex_repo 2 "library/base"]}) 2) (BlobStore.mkBlobDB ∅ ∅ ∅ [] 0 0) [])
       empty_table).
Definition ex_world : World RetDB := mkWorld ex_ret_db true [].

(** The pattern [**] matches everything, other patterns themselves. *)
Definition ex_dm (pattern str : string) : result bool := Ok ((pattern == "**") || (pattern == str)).
Definition ex_js : JsClient := mkJsClient (λ _ _, mret "job"%string) (λ _, mret tt).
Definition ex_admin : RobotStore.SecCtx := RobotStore.mkSecCtx true "admin" (λ _ _, true).
(** While a request waits, the job service reports the jobs of schedules as stopped. *)
Definition ex_env : M TaskDB unit := stmt (λ d, (Ok tt, set_execs
  (set_tasks d ((λ t, if t_VendorType t == JobNameScheduler then taskDAO.set_status_only StoppedStatus 2 t else t) <$> tasks d))
  ((λ e, if e_VendorType e == JobNameScheduler then mkExec (e_ID e) (e_VendorType e) (e_VendorID e) StoppedStatus (e_StatusMessage e)
     (e_Trigger e) (e_ExtraAttrs e) (e_StartTime e) 2 (Some 2) (e_Revision e + 1) else e) <$> execs d))).
Definition ex_req (q : ret_req) : MT unit :=
  ret_run ex_js (λ s, s) {[RetentionCallback := λ _, mret tt]} 2 ex_env 5 (Some ex_admin) (λ s, s) ex_dm (λ _ _ _, ex_js) q.
Definition ex_lite (text : string) : result (string * list RuleMeta) :=
  if text == "rule" then Ok ("or"%string, [rl_Meta ex_rule]) else Err (PlainError "unknown").

(** What a series of requests answers, and the schedules and the tasks afterwards. *)
Fixpoint ex_series (l : list ret_req) (w : World RetDB) : list bool * World RetDB :=
  match l with
  | [] => ([], w)
  | q :: l => let '(r, w) := ex_req q w in let '(rs, w) := ex_series l w in (match r with Ok _ => true | Err _ => false end :: rs, w)
  end.
Definition ex_outcome (l : list ret_req) : list bool * list (Z * string) * list string :=
  let '(rs, w) := ex_series l ex_world in
  (rs, (λ s, (sd_VendorID s, sd_CRON s)) <$> (map_to_list (rows (schedules (db w)))).*2,
   t_ExtraAttrs <$> filter (λ t, t_VendorType t = RetentionVendorType) ((map_to_list (tasks (tdb (db w)))).*2)).

(** A policy is created, run by hand and by its schedule, and moved to another hour. *)
Example retention_requests :
  ex_outcome [RqCreate (ex_retention "Schedule" "0 0 0 * * *"); RqTrigger 1 false; RqCallback "1"; RqUpdate 1 (ex_retention "Schedule" "0 0 1 * * *")]
  = ([true; true; true; true], [(1, "0 0 1 * * *"%string)], ["app"%string; "app"%string]).
Proof. vm_compute. reflexivity. Qed.

(** The metadata of the project keep the number of a policy that is deleted, and no
    other policy can be created. *)
Example deleted_policy_blocks :
  ex_outcome [RqCreate (ex_retention "" ""); RqDelete 1; RqCreate (ex_retention "" "")] = ([true; true; false], [], []).
Proof. vm_compute. reflexivity. Qed.

(** The attribute can be removed through the API of metadata: the project gets a second
    policy, and both run. *)
Example second_policy :
  ex_outcome [RqCreate (ex_retention "Schedule" "0 0 0 * * *"); RqDeleteMetadata (ProjectStore.ByID 1) "retention_id";
    RqCreate (ex_retention "Schedule" "0 0 1 * * *")]
  = ([true; true; true], [(2, "0 0 1 * * *"%string); (1, "0 0 0 * * *"%string)], []).
Proof. vm_compute. reflexivity. Qed.

(** A policy with a schedule trigger and no cron expression is accepted, and then
    neither deleted nor given an expression. *)
Example cron_missing_stuck :
  ex_outcome [RqCreate (ex_retention "Schedule" ""); RqDelete 1; RqUpdate 1 (ex_retention "Schedule" "0 0 1 * * *")]
  = ([true; false; false], [], []).
Proof. vm_compute. reflexivity. Qed.

Lemma retention_authorised_witness :
  ∃ w', ex_req (RqCreate (ex_retention "Schedule" "0 0 0 * * *")) ex_world = (Ok tt, w') ∧ rows (y_policies (rest (db w'))) !! 1 ≠ None ∧
    authorised (Some ex_admin) Rbac.ActionCreate (rest ex_ret_db) (db w').
Proof.
  eexists. split; [vm_compute; reflexivity|]. split; [vm_compute; discriminate|].
  eapply (retention_authorised ex_js (λ s, s) {[RetentionCallback := λ _, mret tt]} 2 ex_env 5 (Some ex_admin) (λ s, s) ex_dm (λ _ _ _, ex_js)
    (RqCreate (ex_retention "Schedule" "0 0 0 * * *")) ex_world); [reflexivity|reflexivity| |vm_compute; reflexivity].
  split; [apply empty_ok..| |]; cbn.
  - intros id c. unfold has_schedule, wants_schedule. cbn. setoid_rewrite lookup_empty. naive_solver.
  - intros i m Hm. cbn in Hm. by rewrite lookup_empty in Hm.
Defined.

(** Two images, of which the rule keeps the one that was pushed last. *)
Definition ex_image (digest : string) (time : Z) : CoreArtifact :=
  mkCoreArtifact digest time 0 [] [mkCoreTag digest 0 time].
Definition ex_list (_ _ : string) : result (list CoreArtifact) := Ok [ex_image "sha256:old" 1000000000; ex_image "sha256:new" 2000000000].
Definition ex_app : Repository_ := mkRepository 1 "library" "app" "image".
Definition ex_candidates : list Candidate := match GetCandidates ex_list ex_app with Ok l => l | Err _ => [] end.
Definition ex_params : list AlgParameter := match Build "or" [rl_Meta ex_rule] with Ok ps => ps | Err _ => [] end.

Lemma retention_enforced_witness :
  ∃ jobs w1 w', Launch ex_dm (λ _ _ _, ex_js) (ex_retention "" "") 1 false (mkWorld (set_tdb (mkTaskDB {[1 := mkExec 1 RetentionVendorType 1 RunningStatus
      EmptyString "MANUAL" "real" 1 1 None 0]} ∅ 1 0 1) ex_ret_db) true []) = (Ok 1, w') ∧
    submitTasks (λ _ _ _, ex_js) 1 jobs w1 = (Ok tt, w') ∧ jd_Repository <$> jobs = [ex_app] ∧
    ∃ o deleted q, Run ex_dm 5 (λ _, Ok []) ex_list (λ _ _ _, None) false false ex_app "or" [rl_Meta ex_rule] false (Ok (Some (o, deleted, q))) ∧
      ∀ c, c ∈ deleted ↔ c ∈ ex_candidates ∧ Digest c = "sha256:old"%string.
Proof.
  edestruct (retention_enforced ex_dm (λ _ _ _, ex_js) ex_lite (ex_retention "" "") 1 false
    (mkWorld (set_tdb (mkTaskDB {[1 := mkExec 1 RetentionVendorType 1 RunningStatus EmptyString "MANUAL" "real" 1 1 None 0]} ∅ 1 0 1) ex_ret_db) true []))
    as (jobs & w1 & _ & Hsub & Hn & Hnd & Hk & Hj); [| |vm_compute; reflexivity|].
  - split; simpl.
    + split; [| |intros i j x y Hx Hy Hs|intros i x Hx]; simpl in *.
      * intros i x Hx. cbn in Hx. apply lookup_insert_Some in Hx as [[<- <-]|[_ [<- <-]%lookup_singleton_Some]]; simpl; lia.
      * lia.
      * apply lookup_insert_Some in Hx as [[<- <-]|[_ [<- <-]%lookup_singleton_Some]];
          apply lookup_insert_Some in Hy as [[<- <-]|[_ [<- <-]%lookup_singleton_Some]]; done.
      * apply lookup_insert_Some in Hx as [[<- <-]|[_ [<- <-]%lookup_singleton_Some]]; reflexivity.
    + intros i x Hx. cbn in Hx. apply lookup_singleton_Some in Hx as [<- <-]. simpl. lia.
  - intros alg rs text. simpl. case_decide as E; [|done]. destruct E as [-> ->]. by intros [= <-].
  - assert (Happ : ex_app ∈ jd_Repository <$> jobs).
    { apply Hk. exists (mkScope "project" 1), ex_rule. split_and!; [reflexivity|left; reflexivity|]. vm_compute. reflexivity. }
    destruct jobs as [|j [|j' jobs]]; [by apply elem_of_nil in Happ| |simpl in Hn; lia].
    apply list_elem_of_singleton in Happ as Ej. exists [j], w1. eexists. split; [vm_compute; reflexivity|]. split; [exact Hsub|].
    split; [simpl; by rewrite Ej|].
    destruct (Hj j ltac:(left)) as (s & [= <-] & _ & _ & Hrun). rewrite <-Ej in Hrun.
    specialize (Hrun 5 (λ _, Ok []) ex_list (λ _ _ _, None) ex_candidates ex_params ltac:(vm_compute; reflexivity) ltac:(vm_compute; reflexivity) ltac:(vm_compute; reflexivity)).
    destruct Hrun as [[r Hr] Hall]. destruct (Hall r Hr) as (o & deleted & q & -> & Hdel).
    exists o, deleted, q. split; [exact Hr|]. intros c. rewrite Hdel. split.
    + intros (_ & _ & Hc & _ & Hno). split; [done|]. apply elem_of_cons in Hc as [->|Hc]; [reflexivity|].
      apply list_elem_of_singleton in Hc as ->. destruct Hno. exists ex_rule. split; [by left|]. split; [vm_compute; reflexivity|].
      eexists _, _, _. split; [vm_compute; reflexivity|]. split; [discriminate|]. split; [vm_compute; reflexivity|]. split; [left|]; reflexivity.
    + intros [Hc Hd]. split_and!; [done|vm_compute; discriminate|done| |].
      * intros (c' & Hc' & _ & Him). apply elem_of_cons in Hc' as [->|Hc']; [vm_compute in Him; discriminate Him|].
        apply list_elem_of_singleton in Hc' as ->. vm_compute in Him. discriminate Him.
      * intros (rule & Hin & _ & p & l & c' & Hb & _ & Ho & Hc' & Hh). apply list_elem_of_singleton in Hin as ->.
        vm_compute in Hb. injection Hb as <-. vm_compute in Ho. injection Ho as <-. apply list_elem_of_singleton in Hc' as ->.
        unfold Hash in Hh. rewrite Hd in Hh. apply elem_of_cons in Hc as [->|Hc]; [vm_compute in Hh; discriminate Hh|].
        apply list_elem_of_singleton in Hc as ->. vm_compute in Hd. discriminate Hd.
Defined.
