(* ===== verification/Goroutines.v ===== *)
(** * Goroutines

    Programs whose calls interleave with those of other goroutines.  A program is a
    tree of calls: each call is a computation over the shared state that runs without
    interruption, and between two calls everything else may run.  The [go] statement
    starts a task, named by a value of [T].

    The rely/guarantee rules reason about one goroutine at a time: [G] relates the
    states before and after a call of any of them. *)

From S2P Require Import Prelude GoErrors Orm Hoare.

Inductive proc (D T A : Type) : Type :=
| Done (r : result A)
| Step (B : Type) (m : M D B) (k : result B → proc D T A)
| Go (t : T) (k : proc D T A).
Arguments Done {D T A}.
Arguments Step {D T A B}.
Arguments Go {D T A}.

Section programs.
Context {D T : Type}.

#[global] Instance proc_ret : MRet (proc D T) := λ A a, Done (Ok a).
#[global] Instance proc_bind : MBind (proc D T) := λ A B k, fix bind p :=
  match p with
  | Done (Ok a) => k a
  | Done (Err e) => Done (Err e)
  | Step m c => Step m (λ r, bind (c r))
  | Go t p => Go t (bind p)
  end.

Definition pfail {A} (e : error) : proc D T A := Done (Err e).
Definition presult {A} (r : result A) : proc D T A := Done r.

(** Go's [x, err := p()]. *)
Fixpoint ptry {A} (p : proc D T A) : proc D T (result A) :=
  match p with
  | Done r => Done (Ok r)
  | Step m k => Step m (λ r, ptry (k r))
  | Go t p => Go t (ptry p)
  end.

Definition call {A} (m : M D A) : proc D T A := Step m Done.
Definition go (t : T) : proc D T unit := Go t (Done (Ok tt)).
End programs.

(** ** A pool of goroutines *)

(** Each is labelled with what it was started for.  [arrives] says which programs the
    outside starts in a state, [run] which program a task is. *)
Section pool.
Context {D T A L : Type} (run : T → proc D T A) (label : T → L) (arrives : D → L → proc D T A → Prop).

Notation pool := (list (L * proc D T A)).

Inductive pool_step : pool * World D → pool * World D → Prop :=
| pool_call l i x B (m : M D B) k w r w' : l !! i = Some (x, Step m k) → m w = (r, w') →
    pool_step (l, w) (<[i := (x, k r)]> l, w')
| pool_go l i x t k w : l !! i = Some (x, Go t k) → pool_step (l, w) (<[i := (x, k)]> l ++ [(label t, run t)], w)
| pool_new l x p w : arrives (db w) x p → pool_step (l, w) (l ++ [(x, p)], w).

(** Let the goroutine [i] take its next step; a list is a schedule. *)
Definition pool_exec (c : pool * World D) (i : nat) : pool * World D :=
  match c.1 !! i with
  | Some (x, Step m k) => let '(r, w) := m c.2 in (<[i := (x, k r)]> c.1, w)
  | Some (x, Go t k) => (<[i := (x, k)]> c.1 ++ [(label t, run t)], c.2)
  | _ => c
  end.
Definition pool_run (c : pool * World D) (schedule : list nat) : pool * World D := foldl pool_exec c schedule.

Lemma pool_exec_steps c i : rtc pool_step c (pool_exec c i).
Proof.
  unfold pool_exec. destruct c as [l w]. simpl. destruct (l !! i) as [[x [r|B m k|t k]]|] eqn:E; [done| | |done].
  - destruct (m w) as [r w'] eqn:Em. by eapply rtc_once, pool_call.
  - by apply rtc_once, pool_go.
Qed.
Lemma pool_run_steps c schedule : rtc pool_step c (pool_run c schedule).
Proof.
  revert c. induction schedule as [|i l IH]; intros c; [done|]. etrans; [apply pool_exec_steps|apply IH].
Qed.

(** ** Rely and guarantee *)

Context (G : D → D → Prop) `{!PreOrder G}.

(** [started t d]: the task [t] may be started in [d]. *)
Context (started : T → D → Prop).

Fixpoint safe {B} (p : proc D T B) (Q : result B → D → Prop) (d : D) : Prop :=
  match p with
  | Done r => ∀ d', G d d' → Q r d'
  | Step m k => ∀ w r w', G d (db w) → m w = (r, w') → G (db w) (db w') ∧ safe (k r) Q (db w')
  | Go t k => ∀ d', G d d' → started t d' ∧ safe k Q d'
  end.

Lemma safe_mono {B} (p : proc D T B) Q d d' : G d d' → safe p Q d → safe p Q d'.
Proof.
  destruct p as [r|C m k|t k]; simpl; intros Hd H.
  - intros d'' Hd'. apply H. by etrans.
  - intros w r w' Hw. apply H. by etrans.
  - intros d'' Hd'. apply H. by etrans.
Qed.

Lemma safe_conseq {B} (p : proc D T B) (Q Q' : result B → D → Prop) d : (∀ r d', G d d' → Q r d' → Q' r d') →
  safe p Q d → safe p Q' d.
Proof.
  revert d. induction p as [r|C m k IH|t p IH]; simpl; intros d HQ H.
  - eauto.
  - intros w r w' Hw Hm. destruct (H w r w' Hw Hm) as [? Hs]. split; [done|]. apply IH; [|done].
    intros r' d' Hd. apply HQ. by etrans; [exact Hw|]; etrans.
  - intros d' Hd. destruct (H d' Hd). split; [done|]. apply IH; [|done]. intros r d'' Hd'. apply HQ. by etrans.
Qed.

Lemma safe_bind {B C} (p : proc D T B) (k : B → proc D T C) Q d :
  safe p (λ r d', match r with Ok a => safe (k a) Q d' | Err e => Q (Err e) d' end) d → safe (p ≫= k) Q d.
Proof.
  revert d. induction p as [r|E m c IH|t p IH]; intros d H.
  - destruct r as [a|e]; [exact (H d (reflexivity d))|exact H].
  - cbn. intros w r w' Hw Hm. destruct (H w r w' Hw Hm). split; [done|]. by apply IH.
  - cbn. intros d' Hd. destruct (H d' Hd). split; [done|]. by apply IH.
Qed.

Lemma safe_try {B} (p : proc D T B) (Q : result (result B) → D → Prop) d : safe p (λ r, Q (Ok r)) d → safe (ptry p) Q d.
Proof.
  revert d. induction p as [r|E m c IH|t p IH]; intros d H; [exact H|..]; simpl in *.
  - intros w r w' Hw Hm. destruct (H w r w' Hw Hm). split; [done|]. by apply IH.
  - intros d' Hd. destruct (H d' Hd). split; [done|]. by apply IH.
Qed.

Lemma safe_done {B} (r : result B) (Q : result B → D → Prop) d : (∀ d', G d d' → Q r d') → safe (Done r) Q d.
Proof. done. Qed.

(** A call whose effect is one of [G]; what it returns may only use what others keep. *)
Lemma safe_call {B} (m : M D B) (Q : result B → D → Prop) d :
  (∀ d0, G d d0 → spec (λ x, x = d0) m (λ a d1, G d0 d1 ∧ ∀ d', G d1 d' → Q (Ok a) d') (λ d1, G d0 d1 ∧ ∀ d' e, G d1 d' → Q (Err e) d')) →
  safe (call m) Q d.
Proof.
  intros H w r w' Hw Hm. pose proof (H _ Hw w r w' eq_refl Hm) as Hr. destruct r as [a|e]; destruct Hr as [? HQ]; (split; [done|]); simpl; eauto.
Qed.

Lemma safe_go {B} t (p : proc D T B) Q d : (∀ d', G d d' → started t d') → safe p Q d → safe (_ ← go t; p) Q d.
Proof. intros Ht Hp. cbn. intros d' Hd. split; [by apply Ht|by eapply safe_mono]. Qed.

(** [I] is an invariant of all goroutines. *)
Context (I : D → Prop) (I_kept : ∀ d d', G d d' → I d → I d').

(** A call that has to keep [G] where [I] holds; [φ] is what it returns. *)
Lemma safe_op {B} (m : M D B) (φ : D → B → D → Prop) (Q : result B → D → Prop) d : I d →
  (∀ d0, I d0 → spec (λ x, x = d0) m (λ a d1, G d0 d1 ∧ φ d0 a d1) (λ d1, G d0 d1)) →
  (∀ d0 a d1 d', G d d0 → I d0 → φ d0 a d1 → G d0 d1 → G d1 d' → Q (Ok a) d') → (∀ e d', G d d' → Q (Err e) d') →
  safe (call m) Q d.
Proof.
  intros Hd Hm HQ HE. apply safe_call. intros d0 Hd0. assert (Hi : I d0) by (by eapply I_kept).
  eapply spec_conseq; [exact (Hm d0 Hi)|done|intros a d1 [? ?]; split; [done|]; eauto|].
  intros d1 ?. split; [done|]. intros d' e ?. apply HE. etrans; [exact Hd0|]. by etrans.
Qed.

Lemma safe_seq {B C} (p : proc D T B) (k : B → proc D T C) (φ : result B → D → Prop) Q d : I d → safe p φ d →
  (∀ a d', G d d' → I d' → φ (Ok a) d' → safe (k a) Q d') → (∀ e d', G d d' → I d' → φ (Err e) d' → Q (Err e) d') →
  safe (p ≫= k) Q d.
Proof.
  intros Hd Hp Hk HE. apply safe_bind. eapply safe_conseq; [|exact Hp]. intros [a|e] d' Hd' Hr; [apply Hk|apply HE]; eauto.
Qed.

(** A sequence that goes on whatever the first part returns. *)
Lemma safe_tried {B C} (p : proc D T B) (k : result B → proc D T C) (φ : result B → D → Prop) Q d : I d → safe p φ d →
  (∀ r d', G d d' → I d' → φ r d' → safe (k r) Q d') → safe (r ← ptry p; k r) Q d.
Proof.
  intros Hd Hp Hk. apply safe_bind, safe_try. eapply safe_conseq; [|exact Hp]. intros r d' Hd' Hr. eauto.
Qed.

(** ** Every interleaving *)

Context (Q : L → result A → D → Prop).
Hypothesis arrives_safe : ∀ d x p, I d → arrives d x p → safe p (Q x) d.
Hypothesis run_safe : ∀ t d, I d → started t d → safe (run t) (Q (label t)) d.

Definition pool_safe (c : pool * World D) : Prop :=
  I (db c.2) ∧ ∀ i x p, c.1 !! i = Some (x, p) → safe p (Q x) (db c.2).

Lemma pool_step_safe c c' : pool_step c c' → pool_safe c → G (db c.2) (db c'.2) ∧ pool_safe c'.
Proof.
  intros Hs [Hi0 Hc]. inversion Hs as [l i x B m k w r w' Hi Hm|l i x t k w Hi|l x p w Hp]; subst; unfold pool_safe in *; simpl in *.
  - destruct (Hc _ _ _ Hi w r w' (reflexivity _) Hm) as [HG Hk]. split_and!; [done|by eapply I_kept|]. intros j y p Hj.
    destruct (decide (j = i)) as [->|Hne].
    + rewrite list_lookup_insert_eq in Hj by (by eapply lookup_lt_Some). by injection Hj as <- <-.
    + rewrite list_lookup_insert_ne in Hj by done. eapply safe_mono; [exact HG|]. by eapply Hc.
  - split_and!; [done..|]. destruct (Hc _ _ _ Hi (db w) (reflexivity _)) as [Ht Hk]. intros j y p Hj.
    apply lookup_app_Some in Hj as [Hj|[_ Hj]].
    + destruct (decide (j = i)) as [->|Hne].
      * rewrite list_lookup_insert_eq in Hj by (by eapply lookup_lt_Some). by injection Hj as <- <-.
      * rewrite list_lookup_insert_ne in Hj by done. by eapply Hc.
    + apply list_lookup_singleton_Some in Hj as [_ [= <- <-]]. by apply run_safe.
  - split_and!; [done..|]. intros j y p' Hj. apply lookup_app_Some in Hj as [Hj|[_ Hj]]; [by eapply Hc|].
    apply list_lookup_singleton_Some in Hj as [_ [= <- <-]]. by apply arrives_safe.
Qed.

Lemma pool_steps_safe c c' : rtc pool_step c c' → pool_safe c → G (db c.2) (db c'.2) ∧ pool_safe c'.
Proof.
  induction 1 as [c|c1 c2 c3 H12 _ IH]; intros Hc; [by split|].
  destruct (pool_step_safe _ _ H12 Hc) as [HG1 Hc2]. destruct (IH Hc2) as [HG2 Hc3]. split; [by etrans|done].
Qed.

Lemma pool_start w : I (db w) → pool_safe ([], w).
Proof. intros Hi. split; [done|]. by intros i x p Hx. Qed.

(** The invariant holds in every state, and what a goroutine has returned is as
    promised. *)
Lemma pool_invariant w c' : I (db w) → rtc pool_step ([], w) c' → I (db c'.2).
Proof. intros Hi Hc. by destruct (pool_steps_safe _ _ Hc (pool_start _ Hi)) as [_ [? _]]. Qed.
Lemma pool_results w c' i x r : I (db w) → rtc pool_step ([], w) c' → c'.1 !! i = Some (x, Done r) → Q x r (db c'.2).
Proof.
  intros Hi Hc Hx. destruct (pool_steps_safe _ _ Hc (pool_start _ Hi)) as [_ [_ Hs]]. exact (Hs _ _ _ Hx _ (reflexivity _)).
Qed.
End pool.
#[global] Arguments safe : simpl never.
