(* ===== verification/ProxyCache.v ===== *)
(** * The proxy cache

    Projects that stand for a remote registry: [src/controller/proxy] (controller,
    cache of manifests, local and remote helpers, pushes in flight) and the middlewares
    of [src/server/middleware/repoproxy/proxy.go].  A request and the goroutines that it
    starts are programs of [Goroutines]; a call of a registry, of the cache or of
    another controller is one step.  The registries are instances of
    [ArtifactRegistry], the remote one for each number of a registry; the laws of
    manifests and the JSON of lists are parameters.  A reply is written without
    failures.

    The calls whose outcome matters later are kept in a trace, newest first. *)

From S2P Require Import Prelude GoErrors GoStrings Orm Table Hoare Goroutines Cached.
From S2P Require Import RegistryClient Transfer Replication ReplicationCtl Pull.
From S2P Require ProjectStore.
From Stdlib Require Import Ascii.
Local Open Scope Z_scope.
Local Open Scope harbor_scope.

(** What the proxy reads of [artifact.Artifact]. *)
Record LocalArtifact := mkLocalArtifact { la_ID : Z; la_RepositoryID : Z; la_Digest : string }.

(** The controllers of artifacts and of tags as the proxy calls them. *)
Class LocalCore (R : Type) := {
  lc_GetByReference : string → string → R → result LocalArtifact * R;
  lc_EnsureTag : Z → Z → string → R → result unit * R }.

(** The vendored manifest lists: [v.Manifests] of [*DeserializedManifestList], and
    [manifestlist.FromDescriptors]. *)
Class ManifestLists `{!Manifests} := {
  list_Manifests : Manifest → option (list Descriptor);
  FromDescriptors : list Descriptor → result Manifest }.

(** ** State *)

Section state.
Context `{!Manifests} {S R data : Type}.

Inductive event :=
| EvHead (reg : Z) (repo ref : string) (x : result (bool * option Descriptor))
| EvPull (reg : Z) (repo ref : string) (x : result (Manifest * string))
| EvPushFailed (repo ref : string)
| EvPullEvent (artifact : Z) (tag operator : string).

Record PxDB := mkPx {
  px_proj : ProjectStore.ProjDB; px_rep : RepRest; px_local : R; px_remote : S; px_cache : Cache data;
  px_inflight : gset string; px_trace : list event }.

Definition set_proj (p : ProjectStore.ProjDB) (d : PxDB) : PxDB :=
  mkPx p (px_rep d) (px_local d) (px_remote d) (px_cache d) (px_inflight d) (px_trace d).
Definition set_rep (x : RepRest) (d : PxDB) : PxDB :=
  mkPx (px_proj d) x (px_local d) (px_remote d) (px_cache d) (px_inflight d) (px_trace d).
Definition set_local (l : R) (d : PxDB) : PxDB :=
  mkPx (px_proj d) (px_rep d) l (px_remote d) (px_cache d) (px_inflight d) (px_trace d).
Definition set_remote (s : S) (d : PxDB) : PxDB :=
  mkPx (px_proj d) (px_rep d) (px_local d) s (px_cache d) (px_inflight d) (px_trace d).
Definition set_cache (c : Cache data) (d : PxDB) : PxDB :=
  mkPx (px_proj d) (px_rep d) (px_local d) (px_remote d) c (px_inflight d) (px_trace d).
Definition set_inflight (s : gset string) (d : PxDB) : PxDB :=
  mkPx (px_proj d) (px_rep d) (px_local d) (px_remote d) (px_cache d) s (px_trace d).
Definition traced (e : event) (d : PxDB) : PxDB :=
  mkPx (px_proj d) (px_rep d) (px_local d) (px_remote d) (px_cache d) (px_inflight d) (e :: px_trace d).
End state.
Arguments event {_}.
Arguments PxDB {_} S R data.

(** What [w] holds in the end: the request was redirected or passed to the next
    handler, or it has a reply. *)
Inductive response :=
| Redirected (url : string)
| Next
| Replied (length : Z) (mediaType : option string) (digest : string) (body : option string)
| Streamed (body : string).

Section proxy.
Context `{!Manifests, !ManifestLists} {S R data : Type}.
Context `{!ArtifactRegistry R, !LocalCore R, !Codec data string} (remote : Z → ArtifactRegistry S).
Context (cfg : Config) (AES : list ascii → list ascii → list ascii) (factories : gmap string (Registry → result Adapter)).
Context (digest_of : string → string).
(** Whether [cache.Default] was initialised. *)
Context (has_cache : bool).
Notation DB := (PxDB S R data).

(** The goroutines: the background of a pulled manifest, of a pulled blob and of a
    HEAD request, and the removal of a tag that is gone. *)
Inductive task :=
| TManifest (art : ArtifactInfo) (reg : Z) (man : Manifest) (dig ct operator : string)
| TBlob (reg : Z) (remoteRepo localRepo : string) (desc : Descriptor)
| TEnsureTag (art : ArtifactInfo) (digest : string)
| TDelete (repo ref : string).

Notation MX := (M DB).
Notation P := (proc DB task).

Definition on_proj {A} (m : M ProjectStore.ProjDB A) : MX A := zoom px_proj set_proj m.
Definition on_rep {A} (m : M RepRest A) : MX A := zoom px_rep set_rep m.
Definition on_local {A} (f : R → result A * R) : MX A := act (λ d, let '(r, l) := f (px_local d) in (r, set_local l d)).
Definition on_cache {A} (f : Cache data → result A * Cache data) : MX A :=
  act (λ d, let '(r, c) := f (px_cache d) in (r, set_cache c d)).
Definition on_remote {A} (f : S → result A * S) (e : result A → option event) : MX A := act (λ d,
  let '(r, s) := f (px_remote d) in (r, match e r with Some e => traced e (set_remote s d) | None => set_remote s d end)).

Definition sleep : P unit := call (mret tt).

(** ** [inflight.go] *)

Definition addRequest (artifact : string) : MX bool := act (λ d,
  if decide (artifact ∈ px_inflight d) then (Ok false, d) else (Ok true, set_inflight ({[artifact]} ∪ px_inflight d) d)).
Definition removeRequest (artifact : string) : MX unit := act (λ d, (Ok tt, set_inflight (px_inflight d ∖ {[artifact]}) d)).

(** [p] while the request is in flight; nothing when another one is. *)
Definition inflight_only (artifact : string) (p : P unit) : P unit :=
  added ← call (addRequest artifact);
  if negb added then mret tt
  else
    r ← ptry p;
    _ ← call (removeRequest artifact);
    presult r.

(** ** [remote.go] *)

Definition unhealthy (r : Registry) : error :=
  PlainError ("current registry is unhealthy, regID:" +:+ pretty (rg_ID r) +:+ ", Name:" +:+ rg_Name r +:+ ", Status: " +:+ rg_Status r).
Definition NewRemoteHelper (regID : Z) : MX Z :=
  r ← on_rep (reg_Get cfg AES regID);
  if negb (rg_Status r == Healthy) then fail (unhealthy r)
  else
    adp ← of_result (CreateAdapter factories r);
    match ad_FetchArtifacts adp with
    | None => of_result (Err (Panic "interface conversion"))
    | Some _ => mret regID
    end.

Definition BlobReader (reg : Z) (repo dig : string) : MX (Z * result string) :=
  on_remote (@ar_PullBlob _ S (remote reg) repo dig) (λ _, None).
Definition remote_Manifest (reg : Z) (repo ref : string) : MX (Manifest * string) :=
  on_remote (@ar_PullManifest _ S (remote reg) repo ref) (λ r, Some (EvPull reg repo ref r)).
Definition remote_ManifestExist (reg : Z) (repo ref : string) : MX (bool * option Descriptor) :=
  on_remote (@ar_ManifestExist _ S (remote reg) repo ref) (λ r, Some (EvHead reg repo ref r)).

(** ** [local.go] *)

Definition getRemoteRepo (art : ArtifactInfo) : string := TrimPrefix (af_Repository art) (af_ProjectName art +:+ "/").
Definition getReference (art : ArtifactInfo) : string := if af_Tag art == "" then af_Digest art else af_Tag art.

Definition GetManifest (repository reference : string) : MX (option LocalArtifact) :=
  r ← try (on_local (lc_GetByReference repository reference));
  match r with
  | Ok a => mret (Some a)
  | Err e => if IsNotFoundErr e then mret None else fail e
  end.
Definition BlobExist (repository digest : string) : MX bool := on_local (ar_BlobExist repository digest).

(** A push to the local registry, with its failures in the trace. *)
Definition local_push {A} (repo ref : string) (f : R → result A * R) : MX A := act (λ d,
  let '(r, l) := f (px_local d) in
  (r, match r with Ok _ => set_local l d | Err _ => traced (EvPushFailed repo ref) (set_local l d) end)).

Definition artName (repo ref : string) : string := repo +:+ ":" +:+ ref.
Definition PushBlob (localRepo : string) (desc : Descriptor) (reader : result string) : P unit :=
  inflight_only (artName localRepo (ds_Digest desc))
    (call (local_push localRepo (ds_Digest desc) (ar_PushBlob localRepo (ds_Digest desc) (ds_Size desc) reader))).

Definition PushManifest (repo ref : string) (man : Manifest) : P unit :=
  inflight_only (artName repo ref)
    (match Payload man with
     | Err e => call (local_push repo ref (λ l, (Err e, l)))
     | Ok (mediaType, payload) => _ ← call (local_push repo ref (ar_PushManifest repo ref mediaType payload)); mret tt
     end).

Definition local_DeleteManifest (repo ref : string) : P unit :=
  _ ← ptry (call (on_local (ar_DeleteManifest repo ref))); mret tt.

Fixpoint check_each (repo : string) (l : list Descriptor) : P (list Descriptor) :=
  match l with
  | [] => mret []
  | desc :: l =>
      exist ← ptry (call (BlobExist repo (ds_Digest desc)));
      rest ← check_each repo l;
      mret (match exist with Ok true => rest | _ => desc :: rest end)
  end.
Definition CheckDependencies (repo : string) (man : Manifest) : P (list Descriptor) := check_each repo (References man).

(** ** [manifestcache.go] *)

Definition manifestListKey (repo ref : string) : string := "manifestlist:" +:+ repo +:+ ":" +:+ ref.
Definition manifestListContentTypeKey (repo ref : string) : string := manifestListKey repo ref +:+ ":contenttype".
Definition TrimmedManifestlist : string := "trimmedmanifestlist:".
Definition no_cache {A} : P A := presult (Err (Panic "invalid memory address or nil pointer dereference")).

Definition Fetch (key : string) : MX string := on_cache (cache_Fetch key).
Definition Save (key value : string) : MX unit := on_cache (cache_Save key value).

(** [info] is the artifact of the request, which the context carries. *)
Definition cacheTrimmedDigest (info : ArtifactInfo) (newDig : string) : P unit :=
  if negb has_cache then mret tt
  else _ ← ptry (call (Save (TrimmedManifestlist +:+ af_Digest info) newDig)); mret tt.

Fixpoint existing (repo : string) (l : list Descriptor) : P (list Descriptor) :=
  match l with
  | [] => mret []
  | ma :: l =>
      a ← call (GetManifest repo (ds_Digest ma));
      rest ← existing repo l;
      mret (match a with Some _ => ma :: rest | None => rest end)
  end.
Definition updateManifestList (repo : string) (man : Manifest) : P Manifest :=
  match list_Manifests man with
  | None => pfail (PlainError "current manifest list type is unknown")
  | Some l => existMans ← existing repo l; presult (FromDescriptors existMans)
  end.

(** The rounds of waiting: [n] are left, and [last] is what the previous one gave. *)
Fixpoint wait_manifests (n : nat) (repo : string) (man : Manifest) (last : Manifest) : P Manifest :=
  match n with
  | O => mret last
  | Datatypes.S n =>
      _ ← sleep;
      newMan ← updateManifestList repo man;
      if bool_decide (length (References newMan) = length (References man)) then mret newMan
      else wait_manifests n repo man newMan
  end.
Definition maxManifestListWait : nat := 20.
Definition maxManifestWait : nat := 10.

Definition push_list (info : ArtifactInfo) (repo reference : string) (man : Manifest) : P unit :=
  newMan ← wait_manifests maxManifestListWait repo man man;
  if bool_decide (References newMan = []) then pfail (New "manifest list doesn't contain any pushed manifest")
  else
    '(_, pl) ← presult (Payload newMan);
    let newDig := digest_of pl in
    _ ← cacheTrimmedDigest info newDig;
    a ← call (GetManifest repo reference);
    if match a with Some a => la_Digest a == newDig | None => false end then mret tt
    else PushManifest repo (if HasPrefix reference "sha256:" then newDig else reference) newMan.

Definition ListCacheContent (info : ArtifactInfo) (man : Manifest) (art : ArtifactInfo) (contentType : string) : P unit :=
  match Payload man with
  | Err _ => mret tt
  | Ok (_, payload) =>
      if getReference art == "" then mret tt
      else if negb has_cache then no_cache
      else
        _ ← ptry (call (Save (manifestListContentTypeKey (af_Repository art) (getReference art)) contentType));
        _ ← ptry (call (Save (manifestListKey (af_Repository art) (getReference art)) payload));
        _ ← ptry (push_list info (af_Repository art) (getReference art) man);
        mret tt
  end.

Fixpoint wait_blobs (n : nat) (repo : string) (man : Manifest) (waiting : list Descriptor) : P (list Descriptor) :=
  match n with
  | O => mret waiting
  | Datatypes.S n =>
      _ ← sleep;
      waiting ← CheckDependencies repo man;
      match waiting with [] => mret [] | _ => wait_blobs n repo man waiting end
  end.

Definition putBlobToLocal (reg : Z) (remoteRepo localRepo : string) (desc : Descriptor) : P unit :=
  r ← call (BlobReader reg remoteRepo (ds_Digest desc));
  PushBlob localRepo desc (snd r).
Fixpoint put_blobs (reg : Z) (remoteRepo localRepo : string) (l : list Descriptor) : P unit :=
  match l with
  | [] => mret tt
  | desc :: l => _ ← putBlobToLocal reg remoteRepo localRepo desc; put_blobs reg remoteRepo localRepo l
  end.
Definition CacheContent (reg : Z) (remoteRepo : string) (man : Manifest) (art : ArtifactInfo) : P unit :=
  waitBlobs ← wait_blobs maxManifestWait (af_Repository art) man [];
  r ← ptry (put_blobs reg remoteRepo (af_Repository art) waitBlobs);
  match r with
  | Err _ => mret tt
  | Ok _ => _ ← ptry (PushManifest (af_Repository art) (getReference art) man); mret tt
  end.

(** ** [controller.go] *)

Definition is_list_type (ct : string) : bool := (ct == MediaTypeManifestList) || (ct == MediaTypeImageIndex).
Definition waitAndPushManifest (info : ArtifactInfo) (reg : Z) (remoteRepo : string) (man : Manifest) (art : ArtifactInfo) (ct : string) : P unit :=
  if is_list_type ct then ListCacheContent info man art ct else CacheContent reg remoteRepo man art.

Definition UseLocalBlob (art : ArtifactInfo) : P bool :=
  if af_Digest art == "" then mret false
  else r ← ptry (call (BlobExist (af_Repository art) (af_Digest art))); mret (match r with Ok b => b | Err _ => false end).

Record ManifestList := mkManifestList { ml_Content : string; ml_Digest : string; ml_ContentType : string }.

Definition tag_not_found (art : ArtifactInfo) : error :=
  NotFoundError (Some (PlainError ("repo " +:+ af_Repository art +:+ ", tag " +:+ af_Tag art +:+ " not found"))).
Definition digest_matches (a : option LocalArtifact) (desc : Descriptor) : bool :=
  match a with Some a => ds_Digest desc == la_Digest a | None => false end.

Definition UseLocalManifest (art : ArtifactInfo) (reg : Z) : P (bool * option ManifestList) :=
  a ← call (GetManifest (af_Repository art) (getReference art));
  if bool_decide (a ≠ None) && negb (af_Digest art == "") then mret (true, None)
  else
    let remoteRepo := getRemoteRepo art in
    x ← call (remote_ManifestExist reg remoteRepo (getReference art));
    match x with
    | (true, Some desc) =>
        if negb has_cache then mret (digest_matches a desc, None)
        else
          content ← ptry (call (Fetch (manifestListKey (af_Repository art) (getReference art))));
          match content with
          | Err _ => mret (digest_matches a desc, None)
          | Ok content =>
              contentType ← ptry (call (Fetch (manifestListContentTypeKey (af_Repository art) (getReference art))));
              match contentType with
              | Err _ => mret (false, None)
              | Ok contentType => mret (true, Some (mkManifestList content (ds_Digest desc) contentType))
              end
          end
    | _ => _ ← go (TDelete remoteRepo (af_Tag art)); pfail (tag_not_found art)
    end.

Definition ProxyManifest (operator : string) (art : ArtifactInfo) (reg : Z) : P Manifest :=
  let remoteRepo := getRemoteRepo art in
  r ← ptry (call (remote_Manifest reg remoteRepo (getReference art)));
  match r with
  | Err e => if IsNotFoundErr e then _ ← go (TDelete remoteRepo (af_Tag art)); pfail e else pfail e
  | Ok (man, dig) =>
      '(ct, _) ← presult (Payload man);
      _ ← go (TManifest art reg man dig ct operator);
      mret man
  end.

(** The goroutine of [ProxyManifest]. *)
Definition local_or_none (repository reference : string) : P (option LocalArtifact) :=
  r ← ptry (call (GetManifest repository reference)); mret (match r with Ok a => a | Err _ => None end).
Definition SendPullEvent (a : LocalArtifact) (tag operator : string) : P unit :=
  call (act (λ d, (Ok tt, traced (EvPullEvent (la_ID a) tag operator) d))).
Definition push_in_background (art : ArtifactInfo) (reg : Z) (man : Manifest) (dig ct operator : string) : P unit :=
  a ← local_or_none (af_Repository art) (getReference art);
  _ ← (if (af_Tag art == "") || match a with Some a => negb (la_Digest a == dig) | None => true end
       then
         let artInfo := if af_Digest art == "" then with_digest dig art else art in
         waitAndPushManifest art reg (getRemoteRepo art) man artInfo ct
       else mret tt);
  a ← (match a with Some a => mret (Some a) | None => local_or_none (af_Repository art) (getReference art) end);
  match a with Some a => SendPullEvent a (af_Tag art) operator | None => mret tt end.

Definition ProxyBlob (regID : Z) (art : ArtifactInfo) : P (Z * result string) :=
  let remoteRepo := getRemoteRepo art in
  reg ← call (NewRemoteHelper regID);
  r ← call (BlobReader reg remoteRepo (af_Digest art));
  _ ← go (TBlob reg remoteRepo (af_Repository art) (mkDescriptor EmptyString (fst r) (af_Digest art)));
  mret r.

Definition HeadManifest (art : ArtifactInfo) (reg : Z) : P (bool * option Descriptor) :=
  call (remote_ManifestExist reg (getRemoteRepo art) (getReference art)).

Definition EnsureTag (art : ArtifactInfo) (tagName : string) : P unit :=
  if negb has_cache then no_cache
  else
    r ← ptry (call (Fetch (TrimmedManifestlist +:+ af_Digest art)));
    digest ← (match r with
              | Ok trimmed => mret trimmed
              | Err e => if is_ErrNotFound e then mret (af_Digest art) else pfail e
              end);
    a ← call (GetManifest (af_Repository art) digest);
    match a with
    | None => pfail (PlainError ("the artifact is not ready yet, failed to tag it to " +:+ tagName))
    | Some a => call (on_local (lc_EnsureTag (la_RepositoryID a) (la_ID a) tagName))
    end.

(** ** [src/server/middleware/repoproxy/proxy.go] *)

Definition preCheck (info : option ArtifactInfo) : P (ArtifactInfo * ProjectStore.Project) :=
  match info with
  | None => pfail (WithCode (New "artifactinfo is not found") NotFoundCode)
  | Some art =>
      p ← call (on_proj (ProjectStore.project_ctl.GetByName (af_ProjectName art) (ProjectStore.mkProjectOptions true false false false)));
      mret (art, ProjectStore.pv_Project p)
  end.

Definition RegistryTypeDockerHub : string := "docker-hub".

(** The name without a namespace, for which Docker Hub has a default. *)
Definition defaultLibrary (registryID : Z) (a : ArtifactInfo) : P (option string) :=
  if registryID <=? 0 then mret None
  else
    reg ← call (on_rep (reg_Get cfg AES registryID));
    if negb (rg_Type reg == RegistryTypeDockerHub) then mret None
    else
      let name := TrimPrefix (af_Repository a) (af_ProjectName a +:+ "/") in
      mret (if Contains name "/" then None else Some name).
Definition defaultManifestURL (projectName name : string) (a : ArtifactInfo) : string :=
  "/v2/" +:+ projectName +:+ "/library/" +:+ name +:+ "/manifests/" +:+ af_Reference a.
Definition defaultBlobURL (projectName name digest : string) : string :=
  "/v2/" +:+ projectName +:+ "/library/" +:+ name +:+ "/blobs/" +:+ digest.

Definition canProxy (p : ProjectStore.Project) : P bool :=
  if ProjectStore.j_RegistryID p <? 1 then mret false
  else
    r ← ptry (call (on_rep (reg_Get cfg AES (ProjectStore.j_RegistryID p))));
    mret (match r with Ok reg => rg_Status reg == Healthy | Err _ => false end).

(** [io.CopyN] to the client: an error when the reader ends early or fails.  The
    headers are set after the body and have no effect. *)
Definition copyN (size : Z) (reader : result string) : result string :=
  match reader with
  | Err e => Err e
  | Ok body =>
      if size <? 0 then Err (New ("The size mismatch, actual:0, expected: " +:+ pretty size))
      else if Z.of_nat (String.length body) <? size then Err (PlainError "EOF")
      else Ok (String.substring 0 (Z.to_nat size) body)
  end.

Definition handleBlob (info : option ArtifactInfo) : P response :=
  '(art, p) ← preCheck info;
  d ← defaultLibrary (ProjectStore.j_RegistryID p) art;
  match d with
  | Some name => mret (Redirected (defaultBlobURL (ProjectStore.j_Name p) name (af_Digest art)))
  | None =>
      can ← canProxy p;
      useLocal ← (if negb can then mret true else UseLocalBlob art);
      if (useLocal : bool) then mret Next
      else
        r ← ProxyBlob (ProjectStore.j_RegistryID p) art;
        body ← presult (copyN (fst r) (snd r));
        mret (Streamed body)
  end.

Definition proxyManifestGet (operator : string) (art : ArtifactInfo) (reg : Z) : P response :=
  man ← ProxyManifest operator art reg;
  '(ct, payload) ← presult (Payload man);
  mret (Replied (Z.of_nat (String.length payload)) (if ct == "" then None else Some ct) (af_Digest art) (Some payload)).

Definition proxyManifestHead (art : ArtifactInfo) (reg : Z) : P response :=
  x ← HeadManifest art reg;
  match x with
  | (true, Some desc) =>
      _ ← go (TEnsureTag art (ds_Digest desc));
      mret (Replied (ds_Size desc) (Some (ds_MediaType desc)) (ds_Digest desc) None)
  | _ => pfail (NotFoundError (Some (PlainError ("the tag " +:+ af_Repository art +:+ ":" +:+ af_Tag art +:+ " is not found"))))
  end.

(** The goroutine of [proxyManifestHead]: [n] attempts are left. *)
Fixpoint ensure_tag (n : nat) (art bArt : ArtifactInfo) : P unit :=
  match n with
  | O => mret tt
  | Datatypes.S n =>
      _ ← sleep;
      r ← ptry (EnsureTag bArt (af_Tag art));
      match r with Ok _ => mret tt | Err _ => ensure_tag n art bArt end
  end.
Definition ensureTagMaxRetry : nat := 60.

Definition MethodGet : string := "GET".
Definition MethodHead : string := "HEAD".

Definition handleManifest (method operator : string) (info : option ArtifactInfo) : P response :=
  '(art, p) ← preCheck info;
  d ← defaultLibrary (ProjectStore.j_RegistryID p) art;
  match d with
  | Some name => mret (Redirected (defaultManifestURL (ProjectStore.j_Name p) name art))
  | None =>
      can ← canProxy p;
      if negb can then mret Next
      else
        reg ← call (NewRemoteHelper (ProjectStore.j_RegistryID p));
        u ← UseLocalManifest art reg;
        match u with
        | (true, Some man) =>
            mret (Replied (Z.of_nat (String.length (ml_Content man))) (Some (ml_ContentType man)) (ml_Digest man)
                    (if method == MethodGet then Some (ml_Content man) else None))
        | (true, None) => mret Next
        | (false, _) =>
            r ← ptry (if method == MethodHead then proxyManifestHead art reg
                      else if method == MethodGet then proxyManifestGet operator art reg
                      else mret (Replied 0 None EmptyString None));
            match r with
            | Ok x => mret x
            | Err e => if IsNotFoundErr e then pfail e else mret Next
            end
        end
  end.

Definition ManifestMiddleware (method operator : string) (info : option ArtifactInfo) : P response :=
  r ← ptry (handleManifest method operator info);
  match r with
  | Ok x => mret x
  | Err e => if IsNotFoundErr e then pfail e else mret Next
  end.

(** What a goroutine does. *)
Definition run_task (t : task) : P response :=
  _ ← (match t with
       | TManifest art reg man dig ct operator => push_in_background art reg man dig ct operator
       | TBlob reg remoteRepo localRepo desc => _ ← ptry (putBlobToLocal reg remoteRepo localRepo desc); mret tt
       | TEnsureTag art digest =>
           ensure_tag ensureTagMaxRetry art
             (mkArtifactInfo (af_Repository art) EmptyString (af_ProjectName art) digest EmptyString EmptyString EmptyString EmptyString)
       | TDelete repo ref => local_DeleteManifest repo ref
       end);
  mret Next.
End proxy.
