(* ===== verification/ProxyCacheSpec.v ===== *)
(** * Correctness of the proxy cache

    Any number of requests and of the goroutines that they start, interleaved between
    their calls of registries, caches and tables: what a client is served
    ([proxied_content]), and what the local registry holds ([proxy_cache_closed]). *)

From S2P Require Import Prelude GoErrors GoStrings Orm Table Hoare Goroutines Cached.
From S2P Require Import RegistryClient Transfer TransferSpec Replication ReplicationCtl Pull ProxyCache.
From S2P Require ProjectStore ScanCtlSpec.
From Stdlib Require Import Ascii.
Local Open Scope Z_scope.
Local Open Scope harbor_scope.

(** ** Names and keys *)

Definition colon : ascii := ":"%char.
Notation lacks c s := (no_char c s = true).
Lemma lacks_cons c x s : lacks c (String x s) ↔ x ≠ c ∧ lacks c s.
Proof. unfold no_char. cbn. case_bool_decide; naive_solver. Qed.
Lemma lacks_app c a b : lacks c (a +:+ b) ↔ lacks c a ∧ lacks c b.
Proof. by rewrite no_char_app, andb_true_iff. Qed.

Lemma cut_unique c a b s s' : lacks c a → lacks c b → a +:+ String c s = b +:+ String c s' → a = b ∧ s = s'.
Proof.
  revert b. induction a as [|x a IH]; intros [|y b]; rewrite ?lacks_cons; simpl; intros Ha Hb E.
  - by injection E as <-.
  - injection E as <- _. by destruct Hb.
  - injection E as -> _. by destruct Ha.
  - injection E as -> E. destruct Ha as [_ Ha], Hb as [_ Hb]. by destruct (IH b Ha Hb E) as [<- <-].
Qed.

(** A tag, or an algorithm with a sum. *)
Definition ref_ok (ref : string) : Prop :=
  lacks colon ref ∨ ∃ alg sum, ref = alg +:+ String colon sum ∧ lacks colon alg ∧ lacks colon sum ∧ sum ≠ "contenttype"%string.

Lemma artName_inj repo ref repo' ref' : lacks colon repo → lacks colon repo' → artName repo ref = artName repo' ref' →
  repo = repo' ∧ ref = ref'.
Proof. intros H H' E. by apply (cut_unique colon). Qed.

Lemma manifestListKey_inj repo ref repo' ref' : lacks colon repo → lacks colon repo' →
  manifestListKey repo ref = manifestListKey repo' ref' → repo = repo' ∧ ref = ref'.
Proof. intros H H' E. unfold manifestListKey in E. repeat (injection E as E). by apply (cut_unique colon). Qed.

(** The type of a list is not kept where a list is. *)
Lemma contentTypeKey_other repo ref repo' ref' : lacks colon repo → lacks colon repo' → ref_ok ref →
  manifestListKey repo ref ≠ manifestListContentTypeKey repo' ref'.
Proof.
  intros H H' Hr E. unfold manifestListContentTypeKey, manifestListKey in E. repeat (injection E as E).
  rewrite <- !append_assoc in E.
  destruct (cut_unique colon _ _ _ _ H H' E) as [_ E2]. subst ref.
  destruct Hr as [Hr|(alg & sum & Es & Ha & Hs & Hc)].
  - apply lacks_app in Hr as [_ Hr]. by apply (lacks_cons colon colon) in Hr as [? _].
  - assert (Hn : lacks colon ref').
    { clear -Es Ha Hs. revert ref' Es. induction alg as [|x alg IH]; intros [|y ref'] Es; simpl in *; [done| | done|].
      - injection Es as -> Es. rewrite <- Es in Hs. apply lacks_app in Hs as [_ Hs]. by apply (lacks_cons colon colon) in Hs as [? _].
      - injection Es as -> Es. apply lacks_cons in Ha as [Hx Ha]. apply lacks_cons. split; [done|]. by apply IH. }
    change (":contenttype"%string) with (String colon "contenttype") in Es.
    destruct (cut_unique colon _ _ _ _ Hn Ha Es) as [_ <-]. done.
Qed.

Lemma trimmedKey_other repo ref s : manifestListKey repo ref ≠ TrimmedManifestlist +:+ s.
Proof. done. Qed.

(** ** Requests *)

(** What the middleware before it has found in the path. *)
Definition info_ok (art : ArtifactInfo) : Prop :=
  lacks "/" (af_ProjectName art) ∧ (∃ rest, af_Repository art = af_ProjectName art +:+ "/" +:+ rest) ∧
  lacks colon (af_Repository art) ∧ ref_ok (getReference art) ∧ getReference art ≠ EmptyString ∧
  (af_Tag art = EmptyString ∨ af_Digest art = EmptyString).

Lemma same_remote art art' : info_ok art → info_ok art' → af_Repository art = af_Repository art' →
  af_ProjectName art = af_ProjectName art' ∧ getRemoteRepo art = getRemoteRepo art'.
Proof.
  intros (H & (x & E) & _) (H' & (x' & E') & _) Er. rewrite E, E' in Er.
  destruct (cut_unique _ _ _ _ _ H H' Er) as [Hp _]. split; [done|]. unfold getRemoteRepo. rewrite E, E', Hp in *. by rewrite Er.
Qed.

(** ** What the registries promise *)

(** The local registry is a [Destination]; the tables of artifacts agree with it, tags
    leave digests alone, and the secret of the proxy lets nobody delete
    ([proxycache_Can]). *)
Class LocalLaws `{!Manifests} (digest_of : string → string) (R : Type) `{!ArtifactRegistry R, !LocalCore R, !Destination digest_of R} := {
  local_GetByReference repo ref r x r' : lc_GetByReference repo ref r = (x, r') →
    no_push has_blob resolve r r' ∧ ∀ a, x = Ok a → digest_Parse ref = true → resolve r repo ref = Some ref;
  local_EnsureTag rid aid tag r x r' : lc_EnsureTag rid aid tag r = (x, r') →
    blobs_kept has_blob r r' ∧ ∀ repo ref, digest_Parse ref = true → resolve r' repo ref = resolve r repo ref;
  local_Delete repo ref r x r' : ar_DeleteManifest repo ref r = (x, r') → no_push has_blob resolve r r';
}.

Section spec.
Context `{!Manifests, !ManifestLists} {S R data : Type}.
Context `{AR : !ArtifactRegistry R, !LocalCore R, CD : !Codec data string} (remote : Z → ArtifactRegistry S).
Context (cfg : Config) (AES : list ascii → list ascii → list ascii) (factories : gmap string (Registry → result Adapter)).
Context (digest_of : string → string) (has_cache : bool).
Context `{SL : !∀ id, @Source _ digest_of S (remote id), DL : !Destination digest_of R, LL : !LocalLaws digest_of R}.
Context (codec_law : ∀ s x, Encode s = Ok x → Decode x = Ok s).
Context (lists_law : ∀ l m, FromDescriptors l = Ok m → References m = l).
Context (Hcol : no_collision (digest_of := digest_of)).
Notation DB := (PxDB S R data).
Notation P := (proc DB task).
Notation MX := (M DB).

Definition registry_of (d : DB) (name : string) : option Z :=
  ProjectStore.j_RegistryID <$> ScanCtlSpec.live_project (px_proj d) name.

(** The remote registry of the project has served [content] for the reference, and
    [t] has the call. *)
Definition pulled_in (t : list event) (d : DB) (art : ArtifactInfo) (content : string) : Prop :=
  ∃ reg m dig ct, registry_of d (af_ProjectName art) = Some reg ∧
    EvPull reg (getRemoteRepo art) (getReference art) (Ok (m, dig)) ∈ t ∧ Payload m = Ok (ct, content).

(** What is kept for a reference has been served for it. *)
Definition cache_ok (d : DB) : Prop := ∀ repo ref x content, lacks colon repo → ref_ok ref →
  store (px_cache d) !! Key (manifestListKey repo ref) = Some x → Decode x = Ok content →
  ∃ art, info_ok art ∧ af_Repository art = repo ∧ getReference art = ref ∧ pulled_in (px_trace d) d art content.

Definition trace_ok (d : DB) : Prop := ∀ reg repo ref m dig, EvPull reg repo ref (Ok (m, dig)) ∈ px_trace d →
  @served _ _ S (remote reg) (SL reg) repo ref m dig.

(** The local registry has something under the reference. *)
Definition held (r : R) (repo ref : string) : Prop := is_Some (resolve r repo ref) ∨ has_blob r repo ref.

(** It has it, or a push of it is in flight, or one has failed. *)
Definition pending (d : DB) (repo dig : string) : Prop :=
  held (px_local d) repo dig ∨ artName repo dig ∈ px_inflight d ∨ EvPushFailed repo dig ∈ px_trace d.

Definition local_ok (d : DB) : Prop := ∀ repo dg m c, lacks colon repo →
  resolve (px_local d) repo dg = Some dg → man_digest digest_of m = Some dg → c ∈ References m → digest_Parse (ds_Digest c) = true →
  pending d repo (ds_Digest c).

Record px_ok (d : DB) : Prop := { po_cache : cache_ok d; po_trace : trace_ok d; po_local : local_ok d }.

(** What a call of any goroutine does to the state. *)
Record G (d d' : DB) : Prop := {
  g_proj : px_proj d' = px_proj d;
  g_rep : px_rep d' = px_rep d;
  g_trace : px_trace d `suffix_of` px_trace d';
  g_held : ∀ repo ref, digest_Parse ref = true → held (px_local d) repo ref → held (px_local d') repo ref;
  g_pending : ∀ repo ref, lacks colon repo → digest_Parse ref = true → pending d repo ref → pending d' repo ref;
  g_ok : px_ok d → px_ok d' }.

#[local] Instance G_preorder : PreOrder G.
Proof.
  split.
  - intros d. by split.
  - intros d1 d2 d3 [P1 R1 T1 H1 N1 O1] [P2 R2 T2 H2 N2 O2]. split; eauto; [congruence..|by etrans].
Qed.

Lemma G_ok d d' : G d d' → px_ok d → px_ok d'.
Proof. apply g_ok. Qed.
Lemma G_in_trace d d' e : G d d' → e ∈ px_trace d → e ∈ px_trace d'.
Proof. intros HG He. destruct (g_trace _ _ HG) as [l ->]. apply elem_of_app. by right. Qed.
Lemma G_registry d d' name : G d d' → registry_of d' name = registry_of d name.
Proof. intros HG. unfold registry_of. by rewrite (g_proj _ _ HG). Qed.
Lemma G_pulled d d' art c : G d d' → pulled_in (px_trace d) d art c → pulled_in (px_trace d') d' art c.
Proof.
  intros HG (reg & m & dig & ct & Hr & Ht & Hp). exists reg, m, dig, ct. rewrite (G_registry _ _ _ HG). split_and!; [done| |done].
  by eapply G_in_trace.
Qed.

(** ** Calls *)

(** Changes that matter to none of the promises. *)
Lemma G_intro d d' (t : list event) :
  px_proj d' = px_proj d → px_rep d' = px_rep d → px_trace d' = t ++ px_trace d →
  (∀ reg repo ref m dig, EvPull reg repo ref (Ok (m, dig)) ∈ t → @served _ _ S (remote reg) (SL reg) repo ref m dig) →
  (∀ repo ref, digest_Parse ref = true → held (px_local d) repo ref → held (px_local d') repo ref) →
  (∀ repo ref, lacks colon repo → digest_Parse ref = true → pending d repo ref → pending d' repo ref) →
  (px_ok d → cache_ok d') → (px_ok d → local_ok d') → G d d'.
Proof.
  intros Hp Hr Ht Hs Hh Hn Hc Hl. split; try done; [by exists t|]. intros Hd. split; [by apply Hc| |by apply Hl].
  intros reg repo ref m dig. rewrite Ht. intros [?|?]%elem_of_app; [by apply Hs|by apply (po_trace _ Hd)].
Qed.

Lemma cache_ok_mono d d' (t : list event) : px_proj d' = px_proj d → px_trace d' = t ++ px_trace d →
  store (px_cache d') = store (px_cache d) → cache_ok d → cache_ok d'.
Proof.
  intros Hp Ht Hs Hc repo ref x content Hrepo Href. rewrite Hs. intros Hx Hd.
  destruct (Hc _ _ _ _ Hrepo Href Hx Hd) as (art & ? & ? & ? & reg & m & dig & ct & Hr & Hin & Hpl). exists art.
  split_and!; [done..|]. exists reg, m, dig, ct. unfold registry_of in *. rewrite Hp, Ht. split_and!; [done| |done].
  apply elem_of_app. by right.
Qed.

Lemma pending_mono d d' repo ref : (held (px_local d) repo ref → held (px_local d') repo ref) → px_inflight d ⊆ px_inflight d' →
  px_trace d `suffix_of` px_trace d' → pending d repo ref → pending d' repo ref.
Proof.
  intros Hh Hi [t Ht] [?|[?|?]]; [left; eauto|right; left; set_solver|right; right]. rewrite Ht. apply elem_of_app. by right.
Qed.

Definition digests_kept (r r' : R) : Prop :=
  blobs_kept has_blob r r' ∧ ∀ repo ref, digest_Parse ref = true → resolve r' repo ref = resolve r repo ref.
Lemma no_push_digests r r' : no_push has_blob resolve r r' → digests_kept r r'.
Proof. intros [? Hr]. split; [done|]. intros repo ref _. apply Hr. Qed.
Lemma held_kept r r' repo ref : digests_kept r r' → digest_Parse ref = true → held r repo ref → held r' repo ref.
Proof. intros [Hb Hr] Hd [?|?]; [left; by rewrite Hr|right; by apply Hb]. Qed.

(** The state after a call of the local registry. *)
Definition local_after (l : R) (t : list event) (d : DB) : DB :=
  mkPx (px_proj d) (px_rep d) l (px_remote d) (px_cache d) (px_inflight d) (t ++ px_trace d).

Definition no_pull (t : list event) : Prop := ∀ reg repo ref x, EvPull reg repo ref x ∉ t.

Lemma no_pull_nil : no_pull [].
Proof. by intros ???? []%elem_of_nil. Qed.
#[local] Hint Resolve no_pull_nil : core.

Lemma local_pending d l t repo ref : (held (px_local d) repo ref → held l repo ref) → pending d repo ref → pending (local_after l t d) repo ref.
Proof. intros Hh. apply pending_mono; [done|done|by exists t]. Qed.

Lemma G_local d l t : digests_kept (px_local d) l → no_pull t → G d (local_after l t d).
Proof.
  intros Hk Ht. apply (G_intro _ _ t); try done.
  - intros reg repo ref m dig Hin. by destruct (Ht _ _ _ _ Hin).
  - intros repo ref Hd. by apply held_kept.
  - intros repo ref _ Hd. apply local_pending. by apply held_kept.
  - intros Hd. by apply (cache_ok_mono d _ t), po_cache.
  - intros Hd repo dg m c Hrepo Hr Hm Hc Hp. apply local_pending; [by apply held_kept|]. eapply (po_local _ Hd); try done. simpl in Hr.
    destruct Hk as [_ Hk]. rewrite <- Hk; [done|]. by eapply resolve_digest.
Qed.

(** A manifest arrives whose references are pending. *)
Lemma G_pushed d l t repo ref m dig : no_pull t → lacks colon repo → pushed has_blob resolve repo ref dig (px_local d) l →
  man_digest digest_of m = Some dig → (∀ c, c ∈ References m → digest_Parse (ds_Digest c) = true → pending d repo (ds_Digest c)) →
  G d (local_after l t d).
Proof.
  intros Ht Hrepo [Hb Hp] Hm Hc.
  assert (Hh : ∀ repo' x, digest_Parse x = true → held (px_local d) repo' x → held l repo' x).
  { intros repo' x Hx [?|?]; [|right; by apply Hb]. left. rewrite Hp. by destruct (decide _). }
  apply (G_intro _ _ t); try done.
  - intros reg ???? Hin. by destruct (Ht _ _ _ _ Hin).
  - intros repo' x _ Hx. apply local_pending. by apply Hh.
  - intros Hd. by apply (cache_ok_mono d _ t), po_cache.
  - intros Hd repo' dg m' c Hrepo' Hr Hm' Hin Hx. apply local_pending; [by apply Hh|]. simpl in Hr. rewrite Hp in Hr.
    destruct (decide _) as [[-> _]|_]; [|by eapply (po_local _ Hd)].
    injection Hr as <-. apply Hc; [|done]. by rewrite (Hcol _ _ _ Hm Hm').
Qed.

(** A call of the local registry that returns [x]. *)
Lemma on_local_spec {A} (f : R → result A * R) (φ : R → A → Prop) d :
  (∀ r x r', f r = (x, r') → digests_kept r r' ∧ ∀ a, x = Ok a → φ r a) →
  spec (λ x, x = d) (on_local f : MX A) (λ a d', G d d' ∧ φ (px_local d) a) (G d).
Proof.
  intros Hf. unfold on_local. apply spec_act. intros ? ->. destruct (f (px_local d)) as [x l] eqn:E.
  destruct (Hf _ _ _ E) as [Hk Hx]. destruct x as [a|e]; [split; [|by apply Hx]|]; by apply (G_local d l []).
Qed.

Lemma GetManifest_spec repo ref d :
  spec (λ x, x = d) (GetManifest repo ref : MX (option LocalArtifact)) (λ a d', G d d' ∧
    (a ≠ None → digest_Parse ref = true → held (px_local d) repo ref)) (G d).
Proof.
  unfold GetManifest. eapply (spec_bind _ _ (λ r d', G d d' ∧ ∀ a, r = Ok a → digest_Parse ref = true → resolve (px_local d) repo ref = Some ref)).
  - eapply spec_post; [eapply spec_try, (on_local_spec _ (λ r a, digest_Parse ref = true → resolve r repo ref = Some ref) d)|].
    + intros r x r' Hx. destruct (local_GetByReference _ _ _ _ _ Hx) as [? Ha]. split; [by apply no_push_digests|eauto].
    + intros [a|e] d'; naive_solver.
  - intros [a|e]; [|destruct (IsNotFoundErr e)].
    + apply spec_ret. intros d' [HG Ha]. split; [done|]. intros _ Hd. left. rewrite (Ha _ eq_refl Hd). eauto.
    + apply spec_ret. intros d' [HG Ha]. split; [done|]. by intros ?.
    + apply spec_fail. by intros d' [? _].
Qed.

Lemma BlobExist_spec repo dig d :
  spec (λ x, x = d) (BlobExist repo dig : MX bool) (λ b d', G d d' ∧ (b = true → held (px_local d) repo dig)) (G d).
Proof.
  apply (on_local_spec _ (λ r b, b = true → held r repo dig)). intros r x r' Hx. destruct (dest_BlobExist _ _ _ _ _ Hx) as [? Ha].
  split; [by apply no_push_digests|]. intros a -> ->. right. by apply Ha.
Qed.

(** The cache. *)
Lemma G_cache d c : (px_ok d → cache_ok (set_cache c d)) → G d (set_cache c d).
Proof.
  intros Hc. apply (G_intro _ _ []); try done; [by intros ????? []%elem_of_nil|]. intros Hd repo dg m x. apply (po_local _ Hd).
Qed.

Lemma Fetch_spec key d : spec (λ x, x = d) (Fetch key : MX string)
  (λ v d', G d d' ∧ ∃ x, store (px_cache d) !! Key key = Some x ∧ Decode x = Ok v) (G d).
Proof.
  unfold Fetch, on_cache. apply spec_act. intros ? ->. unfold cache_Fetch.
  destruct (next_fault (fetch_faults (px_cache d))) as [f l]. set (c := mkCache _ _ _ _ _).
  assert (HG : G d (set_cache c d)) by (apply G_cache; intros Hd; by apply (cache_ok_mono d _ []), po_cache).
  destruct f; [done|]. destruct (store (px_cache d) !! Key key) as [x|] eqn:E; [|done]. destruct (Decode x) eqn:Ex; [|done].
  split; [done|]. by exists x.
Qed.

Lemma Save_spec key v d :
  (∀ repo ref, lacks colon repo → ref_ok ref → manifestListKey repo ref = key →
     ∃ art, info_ok art ∧ af_Repository art = repo ∧ getReference art = ref ∧ pulled_in (px_trace d) d art v) →
  spec (λ x, x = d) (Save key v : MX unit) (λ _ d', G d d' ∧ True) (G d).
Proof.
  intros Hkey. unfold Save, on_cache. apply spec_act. intros ? ->. unfold cache_Save. destruct (Encode v) as [x|e] eqn:Ex.
  - destruct (next_fault (save_faults (px_cache d))) as [[e|] l]; [apply G_cache; intros Hd; by apply (cache_ok_mono d _ []), po_cache|].
    split; [|done]. apply G_cache. intros Hd repo ref y content Hrepo Href. simpl.
    destruct (decide (Key key = Key (manifestListKey repo ref))) as [E|E].
    + rewrite E, lookup_insert_eq. intros [= <-]. rewrite (codec_law _ _ Ex). intros [= <-].
      assert (manifestListKey repo ref = key) as Ek by (unfold Key in E; by repeat (injection E as E)).
      destruct (Hkey repo ref Hrepo Href Ek) as (art & ? & ? & ? & Hp). by exists art.
    + rewrite lookup_insert_ne by done. intros Hy Hc. destruct (po_cache _ Hd _ _ _ _ Hrepo Href Hy Hc) as (art & ? & ? & ? & Hp). by exists art.
  - apply G_cache. intros Hd. by apply (cache_ok_mono d _ []), po_cache.
Qed.

(** The remote registry. *)
Definition remote_after (s : S) (t : list event) (d : DB) : DB :=
  mkPx (px_proj d) (px_rep d) (px_local d) s (px_cache d) (px_inflight d) (t ++ px_trace d).
Lemma G_remote d s t :
  (∀ reg repo ref m dig, EvPull reg repo ref (Ok (m, dig)) ∈ t → @served _ _ S (remote reg) (SL reg) repo ref m dig) → G d (remote_after s t d).
Proof.
  intros Ht. assert (Hn : ∀ repo ref, pending d repo ref → pending (remote_after s t d) repo ref).
  { intros repo ref. apply pending_mono; [done|done|by exists t]. }
  apply (G_intro _ _ t); try done.
  - intros repo ref _ _. apply Hn.
  - intros Hd. by apply (cache_ok_mono d _ t), po_cache.
  - intros Hd repo dg m c Hrepo Hr Hm Hc Hp. apply Hn. by eapply (po_local _ Hd).
Qed.

Lemma BlobReader_spec reg repo dig d : spec (λ x, x = d) (BlobReader remote reg repo dig : MX (Z * result string)) (λ _ d', G d d' ∧ True) (G d).
Proof.
  unfold BlobReader, on_remote. apply spec_act. intros ? ->. destruct (ar_PullBlob _ _ _) as [[a|e] s]; [split; [|done]|];
    apply (G_remote d s []); by intros ????? []%elem_of_nil.
Qed.

Lemma remote_Manifest_spec reg repo ref d : spec (λ x, x = d) (remote_Manifest remote reg repo ref : MX (Manifest * string))
  (λ x d', G d d' ∧ EvPull reg repo ref (Ok x) ∈ px_trace d' ∧ ∃ e, px_trace d' = e :: px_trace d ∧ e = EvPull reg repo ref (Ok x)) (G d).
Proof.
  unfold remote_Manifest, on_remote. apply spec_act. intros ? ->. destruct (ar_PullManifest _ _ _) as [[[m dig]|e] s] eqn:E.
  - split; [|split; [by left|eauto]]. apply (G_remote d s [EvPull reg repo ref (Ok (m, dig))]).
    intros reg' repo' ref' m' dig' [= -> -> -> -> ->]%list_elem_of_singleton. by eapply served_pull.
  - apply (G_remote d s [EvPull reg repo ref (Err e)]). by intros ????? [=]%list_elem_of_singleton.
Qed.

Lemma remote_ManifestExist_spec reg repo ref d : spec (λ x, x = d) (remote_ManifestExist remote reg repo ref : MX (bool * option Descriptor))
  (λ x d', G d d' ∧ ∃ e, px_trace d' = e :: px_trace d ∧ e = EvHead reg repo ref (Ok x)) (G d).
Proof.
  unfold remote_ManifestExist, on_remote. apply spec_act. intros ? ->. destruct (ar_ManifestExist _ _ _) as [[x|e] s] eqn:E.
  - split; [|eauto]. apply (G_remote d s [EvHead reg repo ref (Ok x)]). by intros ????? [=]%list_elem_of_singleton.
  - apply (G_remote d s [EvHead reg repo ref (Err e)]). by intros ????? [=]%list_elem_of_singleton.
Qed.

(** Readers of the tables. *)
Lemma table_spec {A} (m : MX A) φ d : reading m φ → spec (λ x, x = d) m (λ a d', G d d' ∧ φ d a) (G d).
Proof. intros Hm. by eapply spec_read. Qed.

(** ** Pushes in flight *)

Definition settled (d : DB) (repo ref : string) : Prop := held (px_local d) repo ref ∨ EvPushFailed repo ref ∈ px_trace d.
Lemma settled_kept d d' repo ref : G d d' → digest_Parse ref = true → settled d repo ref → settled d' repo ref.
Proof. intros HG Hd [?|?]; [left; by eapply g_held|right; by eapply G_in_trace]. Qed.
Lemma settled_pending d repo ref : settled d repo ref → pending d repo ref.
Proof. intros [?|?]; [by left|by right; right]. Qed.

Lemma G_inflight d s : (∀ repo ref, lacks colon repo → digest_Parse ref = true → pending d repo ref → pending (set_inflight s d) repo ref) →
  G d (set_inflight s d).
Proof.
  intros Hs. apply (G_intro _ _ []); try done.
  - by intros ????? []%elem_of_nil.
  - intros Hd. by apply (cache_ok_mono d _ []), po_cache.
  - intros Hd repo dg m c Hrepo Hr Hm Hc Hp. apply Hs; [done..|]. by eapply (po_local _ Hd).
Qed.

Lemma addRequest_spec name d : spec (λ x, x = d) (addRequest name : MX bool) (λ b d', G d d' ∧ (b = false → name ∈ px_inflight d')) (G d).
Proof.
  unfold addRequest. apply spec_act. intros ? ->. case_decide; [by split|]. split; [|done]. apply G_inflight.
  intros repo ref _ _. apply pending_mono; [done|set_solver|by exists []].
Qed.

Lemma removeRequest_spec repo ref d : lacks colon repo → (digest_Parse ref = true → settled d repo ref) →
  spec (λ x, x = d) (removeRequest (artName repo ref) : MX unit) (λ _ d', G d d' ∧ True) (G d).
Proof.
  intros Hrepo Hs. unfold removeRequest. apply spec_act. intros ? ->. split; [|done]. apply G_inflight.
  intros repo' ref' Hrepo' Hd [?|[Hin|?]]; [by left| |by right; right]. destruct (decide (artName repo' ref' = artName repo ref)) as [E|E].
  - destruct (artName_inj _ _ _ _ Hrepo' Hrepo E) as [-> ->]. destruct (Hs Hd) as [?|?]; [by left|by right; right].
  - right. left. simpl. set_solver.
Qed.

(** What is known when a goroutine is started. *)
Definition started (t : task) (d : DB) : Prop :=
  match t with
  | TManifest art reg man dig ct _ => info_ok art ∧ registry_of d (af_ProjectName art) = Some reg ∧
      EvPull reg (getRemoteRepo art) (getReference art) (Ok (man, dig)) ∈ px_trace d
  | TBlob _ _ localRepo _ => lacks colon localRepo
  | _ => True
  end.
Notation psafe := (safe G started).

(** A call that other goroutines may not notice. *)
Lemma psafe_op {B} (m : MX B) (φ : DB → B → Prop) (Q : result B → DB → Prop) d : px_ok d →
  (∀ d0, px_ok d0 → spec (λ x, x = d0) m (λ a d1, G d0 d1 ∧ φ d0 a) (λ d1, G d0 d1)) →
  (∀ d0 a d', G d d0 → px_ok d0 → φ d0 a → G d0 d' → Q (Ok a) d') → (∀ e d', G d d' → Q (Err e) d') → psafe (call m) Q d.
Proof.
  intros Hd Hm HQ HE. eapply (safe_op G started px_ok G_ok _ (λ d0 a _, φ d0 a)); [done|done| |done].
  intros d0 a d1 d' K0 Hi Ha K1 K2. eapply HQ; [exact K0|done|done|by etrans].
Qed.

(** Where the error is only logged. *)
Lemma psafe_quiet {B} (m : MX B) d : px_ok d → (∀ d0, px_ok d0 → spec (λ x, x = d0) m (λ a d1, G d0 d1 ∧ True) (λ d1, G d0 d1)) →
  psafe (call m) (λ _ _, True) d.
Proof. intros Hd Hm. by eapply (psafe_op _ (λ _ _, True)). Qed.

Lemma psafe_seq {B C} (p : P B) (k : B → P C) (φ : result B → DB → Prop) Q d : px_ok d → psafe p φ d →
  (∀ a d', G d d' → px_ok d' → φ (Ok a) d' → psafe (k a) Q d') → (∀ e d', G d d' → px_ok d' → φ (Err e) d' → Q (Err e) d') →
  psafe (p ≫= k) Q d.
Proof. apply (safe_seq G started px_ok G_ok). Qed.
Lemma psafe_tried {B C} (p : P B) (k : result B → P C) (φ : result B → DB → Prop) Q d : px_ok d → psafe p φ d →
  (∀ r d', G d d' → px_ok d' → φ r d' → psafe (k r) Q d') → psafe (r ← ptry p; k r) Q d.
Proof. apply (safe_tried G started px_ok G_ok). Qed.
Lemma psafe_ret {B} (a : B) (Q : result B → DB → Prop) d : (∀ d', G d d' → Q (Ok a) d') → psafe (mret a) Q d.
Proof. done. Qed.
Lemma psafe_result {B} (r : result B) (Q : result B → DB → Prop) d : (∀ d', G d d' → Q r d') → psafe (presult r) Q d.
Proof. done. Qed.

Lemma psafe_fail {B} e (Q : result B → DB → Prop) d : (∀ d', G d d' → Q (Err e) d') → psafe (pfail e) Q d.
Proof. done. Qed.

Lemma inflight_safe repo ref (p : P unit) d : px_ok d → lacks colon repo →
  (∀ d', G d d' → px_ok d' → psafe p (λ _ d'', digest_Parse ref = true → settled d'' repo ref) d') →
  psafe (inflight_only (artName repo ref) p) (λ r d', r = Ok tt → digest_Parse ref = true → pending d' repo ref) d.
Proof.
  intros Hd Hrepo Hp. unfold inflight_only.
  eapply (psafe_seq _ _ (λ r d', r = Ok false → digest_Parse ref = true → pending d' repo ref)); [done| | |done].
  - eapply (safe_op G started px_ok G_ok _ (λ _ b d1, b = false → artName repo ref ∈ px_inflight d1)); [done|intros d0 _; apply addRequest_spec| |done].
    intros d0 [|] d1 d' K0 K1 Hb HG1 HG2 E Hr; [done|]. eapply g_pending; [done..|]. right. left. by apply Hb.
  - intros [|] d' HG Hd' Hb; cbn [negb].
    + eapply psafe_tried; [done|by apply Hp|]. intros r d1 HG1 Hd1 Hs.
      eapply (psafe_seq _ _ (λ _ _, True)); [done| | |done].
      * apply safe_call. intros d0 HG0. eapply spec_conseq; [apply removeRequest_spec; [done|intros Hr; eapply settled_kept; eauto]|done|..]; naive_solver.
      * intros [] d2 HG2 Hd2 _. apply psafe_result. intros d3 HG3 _ Hr. apply settled_pending. eapply settled_kept; [|done|by apply Hs].
        by etrans.
    + apply psafe_ret. intros d1 HG1 _ Hr. eapply g_pending; [done..|]. by apply Hb.
Qed.

Lemma no_pull_failed repo ref : no_pull [EvPushFailed repo ref].
Proof. by intros ???? [=]%list_elem_of_singleton. Qed.
#[local] Hint Resolve no_pull_failed : core.

(** A push settles its name: the registry has it, or the failure is known. *)
Lemma local_push_spec {A} repo ref (f : R → result A * R) d :
  (∀ x l t, f (px_local d) = (x, l) → no_pull t → G d (local_after l t d) ∧ (is_ok x → digest_Parse ref = true → held l repo ref)) →
  spec (λ x, x = d) (local_push repo ref f : MX A) (λ _ d', G d d' ∧ (digest_Parse ref = true → settled d' repo ref))
    (λ d', G d d' ∧ (digest_Parse ref = true → settled d' repo ref)).
Proof.
  intros Hf. unfold local_push. apply spec_act. intros ? ->. destruct (f (px_local d)) as [x l] eqn:E. destruct x as [a|e].
  - destruct (Hf _ _ [] eq_refl) as [HG Hh]; [done|]. split; [exact HG|]. intros Hr. left. by apply Hh.
  - destruct (Hf _ _ [EvPushFailed repo ref] eq_refl) as [HG _]; [done|]. split; [exact HG|]. intros _. right. by left.
Qed.

Lemma psafe_push {A} repo ref (f : R → result A * R) d :
  (∀ d0, G d d0 → ∀ x l t, f (px_local d0) = (x, l) → no_pull t →
     G d0 (local_after l t d0) ∧ (is_ok x → digest_Parse ref = true → held l repo ref)) →
  psafe (call (local_push repo ref f)) (λ _ d', digest_Parse ref = true → settled d' repo ref) d.
Proof.
  intros Hf. apply safe_call. intros d0 HG0. eapply spec_conseq; [apply (local_push_spec repo ref f d0 (Hf d0 HG0))|done|..].
  - intros a d1 [HG1 Hs]. split; [done|]. intros d' HG' Hr. eapply settled_kept; eauto.
  - intros d1 [HG1 Hs]. split; [done|]. intros d' e HG' Hr. eapply settled_kept; eauto.
Qed.

Lemma PushBlob_safe repo desc reader d : px_ok d → lacks colon repo →
  psafe (PushBlob repo desc reader) (λ r d', r = Ok tt → digest_Parse (ds_Digest desc) = true → pending d' repo (ds_Digest desc)) d.
Proof.
  intros Hd Hrepo. unfold PushBlob. apply inflight_safe; [done..|]. intros d' _ _. apply psafe_push.
  intros d0 _ x l t E Ht. destruct (dest_PushBlob _ _ _ _ _ _ _ E) as [Hp Hx]. split; [by apply G_local; [apply no_push_digests|]|].
  intros Hok _. destruct x as [[]|]; [|done]. right. by apply Hx.
Qed.

Definition refs_pending (d : DB) (repo : string) (m : Manifest) : Prop :=
  ∀ c, c ∈ References m → digest_Parse (ds_Digest c) = true → pending d repo (ds_Digest c).
Lemma refs_pending_kept d d' repo m : lacks colon repo → G d d' → refs_pending d repo m → refs_pending d' repo m.
Proof. intros Hrepo HG Hm c Hc Hp. eapply g_pending; eauto. Qed.

Lemma PushManifest_safe repo ref man d : px_ok d → lacks colon repo → refs_pending d repo man → psafe (PushManifest repo ref man) (λ _ _, True) d.
Proof.
  intros Hd Hrepo Hm. eapply safe_conseq; [| |apply inflight_safe; [done..|]]; [apply _|done|].
  intros d1 HG1 Hd1. destruct (Payload man) as [[mt pl]|e] eqn:Ep.
  - eapply (psafe_seq _ _ (λ _ d', digest_Parse ref = true → settled d' repo ref)); [done| |intros a d2 HG2 _ Hs; apply psafe_ret|done].
    + apply psafe_push. intros d0 HG0 x l t E Ht. assert (Hk : refs_pending d0 repo man) by (eapply refs_pending_kept; [done| |exact Hm]; by etrans).
      destruct (dest_PushManifest _ _ _ _ _ _ _ E) as [[Hp Hx]|Hp].
      * split; [by apply G_local; [apply no_push_digests|]|]. by intros ?.
      * split; [eapply G_pushed; [done|done|done| |exact Hk]; unfold man_digest; by rewrite Ep|].
        intros _ _. left. destruct Hp as [_ Hp]. rewrite Hp, decide_True by auto. eauto.
    + intros d' HG' Hr. eapply settled_kept; eauto.
  - apply psafe_push. intros d0 HG0 x l t [= <- <-] Ht. split; [|by intros ?]. apply G_local; [|done]. by split; [intros ??|].
Qed.

(** ** Images *)

Definition checked (d : DB) (repo : string) (l waiting : list Descriptor) : Prop :=
  ∀ c, c ∈ l → digest_Parse (ds_Digest c) = true → c ∈ waiting ∨ pending d repo (ds_Digest c).
Lemma checked_kept d d' repo l waiting : lacks colon repo → G d d' → checked d repo l waiting → checked d' repo l waiting.
Proof. intros Hrepo HG Hc c Hin Hp. destruct (Hc c Hin Hp) as [?|?]; [by left|right]. by eapply g_pending. Qed.

Lemma check_each_safe repo l d : px_ok d → lacks colon repo →
  psafe (check_each repo l) (λ r d', ∀ waiting, r = Ok waiting → checked d' repo l waiting) d.
Proof.
  intros Hd Hrepo. revert d Hd. induction l as [|c l IH]; intros d Hd; cbn [check_each].
  { apply psafe_ret. by intros d' _ w [= <-] c []%elem_of_nil. }
  eapply (psafe_tried _ _ (λ r d', r = Ok true → held (px_local d') repo (ds_Digest c) ∨ digest_Parse (ds_Digest c) = false)); [done| |].
  - eapply (psafe_op _ (λ d0 b, b = true → held (px_local d0) repo (ds_Digest c))); [done|intros; apply BlobExist_spec| |done].
    intros d0 b d' _ _ Hb HG [= ->]. destruct (digest_Parse (ds_Digest c)) eqn:Ep; [left|by right]. eapply g_held; [done..|]. by apply Hb.
  - intros r d1 HG1 Hd1 Hr. eapply psafe_seq; [done|by apply IH| |].
    + intros rest d2 HG2 Hd2 Hrest. specialize (Hrest _ eq_refl). apply psafe_ret. intros d3 HG3 w [= <-] x [->|Hx]%elem_of_cons Hp.
      * destruct r as [[|]|]; [|by left; left..]. right. destruct (Hr eq_refl) as [?|?]; [|congruence]. eapply (g_pending d1); [by etrans|done..|]. by left.
      * destruct (checked_kept _ _ _ _ _ Hrepo HG3 Hrest x Hx Hp) as [?|?]; [|by right]. left. destruct r as [[|]|]; [done|by right..].
    + by intros e d2 _ _ _ w [=].
Qed.

Lemma wait_blobs_safe n repo man waiting d : px_ok d → lacks colon repo → (n = O → checked d repo (References man) waiting) →
  psafe (wait_blobs n repo man waiting) (λ r d', ∀ w, r = Ok w → checked d' repo (References man) w) d.
Proof.
  intros Hd Hrepo. revert d waiting Hd. induction n as [|n IH]; intros d waiting Hd Hw; cbn [wait_blobs].
  { apply psafe_ret. intros d' HG w [= <-]. eapply checked_kept; eauto. }
  eapply (psafe_seq _ _ (λ _ _, True)); [done|apply psafe_quiet; [done|intros; by apply spec_ret; intros ? ->]| |done].
  intros [] d1 HG1 Hd1 _. eapply psafe_seq; [done|by apply check_each_safe| |by intros e d2 _ _ _ w [=]].
  intros w d2 HG2 Hd2 Hc. specialize (Hc _ eq_refl). destruct w as [|c w]; [|by apply IH].
  apply psafe_ret. intros d' HG w [= <-]. eapply checked_kept; eauto.
Qed.

Lemma putBlobToLocal_safe reg remoteRepo localRepo desc d : px_ok d → lacks colon localRepo →
  psafe (putBlobToLocal remote reg remoteRepo localRepo desc)
    (λ r d', r = Ok tt → digest_Parse (ds_Digest desc) = true → pending d' localRepo (ds_Digest desc)) d.
Proof.
  intros Hd Hrepo. eapply (psafe_seq _ _ (λ _ _, True)); [done|apply psafe_quiet; [done|intros; apply BlobReader_spec]| |done].
  intros x d1 HG1 Hd1 _. by apply PushBlob_safe.
Qed.

Lemma put_blobs_safe reg remoteRepo repo l d : px_ok d → lacks colon repo →
  psafe (put_blobs remote reg remoteRepo repo l)
    (λ r d', r = Ok tt → ∀ c, c ∈ l → digest_Parse (ds_Digest c) = true → pending d' repo (ds_Digest c)) d.
Proof.
  intros Hd Hrepo. revert d Hd. induction l as [|c l IH]; intros d Hd; cbn [put_blobs].
  { apply psafe_ret. by intros d' _ _ c []%elem_of_nil. }
  eapply psafe_seq; [done|by apply putBlobToLocal_safe| |done]. intros [] d1 HG1 Hd1 Hc.
  eapply safe_conseq; [| |by apply IH]; [apply _|]. intros r d2 HG2 Hl Hr x [->|Hx]%elem_of_cons Hp; [|by apply Hl].
  eapply g_pending; [done..|]. by apply Hc.
Qed.

Lemma CacheContent_safe reg remoteRepo man art d : px_ok d → lacks colon (af_Repository art) →
  psafe (CacheContent remote reg remoteRepo man art) (λ _ _, True) d.
Proof.
  intros Hd Hrepo. unfold CacheContent. eapply psafe_seq; [done|by apply wait_blobs_safe| |done].
  intros w d1 HG1 Hd1 Hw. specialize (Hw _ eq_refl). eapply psafe_tried; [done|by apply put_blobs_safe|].
  intros r d2 HG2 Hd2 Hr. destruct r as [[]|e]; [|by apply psafe_ret].
  eapply psafe_tried; [done|apply PushManifest_safe; [done..|]|intros; by apply psafe_ret].
  intros c Hc Hp. destruct (checked_kept _ _ _ _ _ Hrepo HG2 Hw c Hc Hp) as [?|?]; [|done]. by apply Hr.
Qed.

(** ** Lists *)

Definition listed (d : DB) (repo : string) (l : list Descriptor) : Prop :=
  ∀ c, c ∈ l → digest_Parse (ds_Digest c) = true → pending d repo (ds_Digest c).
Lemma listed_kept d d' repo l : lacks colon repo → G d d' → listed d repo l → listed d' repo l.
Proof. intros Hrepo HG Hc c Hin Hp. eapply g_pending; eauto. Qed.

Lemma existing_safe repo l d : px_ok d → lacks colon repo → psafe (existing repo l) (λ r d', ∀ x, r = Ok x → listed d' repo x) d.
Proof.
  intros Hd Hrepo. revert d Hd. induction l as [|c l IH]; intros d Hd; cbn [existing].
  { apply psafe_ret. by intros d' _ w [= <-] c []%elem_of_nil. }
  eapply (psafe_seq _ _ (λ r d', ∀ a, r = Ok (Some a) → digest_Parse (ds_Digest c) = true → pending d' repo (ds_Digest c))); [done| | |by intros e d' _ _ _ x [=]].
  - eapply (psafe_op _ (λ d0 a, a ≠ None → digest_Parse (ds_Digest c) = true → held (px_local d0) repo (ds_Digest c)));
      [done|intros; apply GetManifest_spec| |done].
    intros d0 a d' _ _ Ha HG b [= ->] Hp. eapply g_pending; [done..|]. left. by apply Ha.
  - intros a d1 HG1 Hd1 Ha. eapply psafe_seq; [done|by apply IH| |by intros e d' _ _ _ x [=]].
    intros rest d2 HG2 Hd2 Hrest. apply psafe_ret. intros d3 HG3 x [= <-].
    assert (Hl : listed d3 repo rest) by (eapply listed_kept; eauto). destruct a as [a|]; [|done].
    intros y [->|Hy]%elem_of_cons Hp; [|by apply Hl]. eapply (g_pending d1); [by etrans|done..|]. by eapply Ha.
Qed.

Lemma updateManifestList_safe repo man d : px_ok d → lacks colon repo →
  psafe (updateManifestList repo man) (λ r d', ∀ m, r = Ok m → refs_pending d' repo m) d.
Proof.
  intros Hd Hrepo. unfold updateManifestList. destruct (list_Manifests man) as [l|]; [|by apply psafe_fail; intros d' _ m [=]].
  eapply psafe_seq; [done|by apply existing_safe| |by intros e d' _ _ _ x [=]].
  intros l' d1 HG1 Hd1 Hl. apply psafe_result. intros d2 HG2 m Hm. unfold refs_pending. rewrite (lists_law _ _ Hm).
  eapply listed_kept; eauto.
Qed.

Lemma wait_manifests_safe n repo man last d : px_ok d → lacks colon repo → (n = O → refs_pending d repo last) →
  psafe (wait_manifests n repo man last) (λ r d', ∀ m, r = Ok m → refs_pending d' repo m) d.
Proof.
  intros Hd Hrepo. revert d last Hd. induction n as [|n IH]; intros d last Hd Hw; cbn [wait_manifests].
  { apply psafe_ret. intros d' HG w [= <-]. eapply refs_pending_kept; eauto. }
  eapply (psafe_seq _ _ (λ _ _, True)); [done|apply psafe_quiet; [done|intros; by apply spec_ret; intros ? ->]| |done].
  intros [] d1 HG1 Hd1 _. eapply psafe_seq; [done|by apply updateManifestList_safe| |by intros e d2 _ _ _ w [=]].
  intros m d2 HG2 Hd2 Hm. specialize (Hm _ eq_refl). case_bool_decide; [|by apply IH].
  apply psafe_ret. intros d' HG w [= <-]. eapply refs_pending_kept; eauto.
Qed.

Lemma cacheTrimmedDigest_safe info dig d : px_ok d → psafe (cacheTrimmedDigest has_cache info dig) (λ _ _, True) d.
Proof.
  intros Hd. unfold cacheTrimmedDigest. destruct (negb has_cache); [by apply psafe_ret|].
  eapply psafe_tried; [done|apply psafe_quiet; [done|]|intros; by apply psafe_ret].
  intros d0 _. apply Save_spec. intros repo ref _ _ E. by apply trimmedKey_other in E.
Qed.

Lemma psafe_GetManifest repo ref d : px_ok d → psafe (call (GetManifest repo ref)) (λ _ _, True) d.
Proof.
  intros Hd. apply psafe_quiet; [done|]. intros d0 _. eapply spec_conseq; [apply (GetManifest_spec repo ref d0)|done|by intros a d' [? _]|done].
Qed.

Lemma push_list_safe info repo reference man d : px_ok d → lacks colon repo →
  psafe (push_list digest_of has_cache info repo reference man) (λ _ _, True) d.
Proof.
  intros Hd Hrepo. unfold push_list. eapply psafe_seq; [done|by apply wait_manifests_safe| |done].
  intros m d1 HG1 Hd1 Hm. specialize (Hm _ eq_refl). case_bool_decide; [by apply psafe_fail|].
  eapply psafe_seq; [done|by apply (psafe_result _ (λ _ _, True))| |done]. intros [mt pl] d2 HG2 Hd2 _.
  eapply psafe_seq; [done|by apply cacheTrimmedDigest_safe| |done]. intros [] d3 HG3 Hd3 _.
  eapply psafe_seq; [done|by apply psafe_GetManifest| |done]. intros a d4 HG4 Hd4 _. 
  destruct (match a with Some a => la_Digest a == digest_of pl | None => false end); [by apply psafe_ret|].
  apply PushManifest_safe; [done..|]. eapply refs_pending_kept; [done| |exact Hm]. etrans; [exact HG2|]. by etrans.
Qed.

Lemma ListCacheContent_safe info man art ct d : px_ok d → lacks colon (af_Repository art) → ref_ok (getReference art) →
  (∀ mt pl, Payload man = Ok (mt, pl) → ∃ art', info_ok art' ∧ af_Repository art' = af_Repository art ∧ getReference art' = getReference art ∧
     pulled_in (px_trace d) d art' pl) →
  psafe (ListCacheContent digest_of has_cache info man art ct) (λ _ _, True) d.
Proof.
  intros Hd Hrepo Href Hp. unfold ListCacheContent. destruct (Payload man) as [[mt pl]|e] eqn:Ep; [|by apply psafe_ret].
  destruct (Hp _ _ eq_refl) as (art' & Ha & Er & Ee & Hpl). destruct (_ == _); [by apply psafe_ret|]. destruct (negb has_cache); [by apply psafe_result|].
  eapply psafe_tried; [done|apply psafe_quiet; [done|]|].
  { intros d0 _. apply Save_spec. intros repo ref Hr Hf E. exfalso. revert E. by apply contentTypeKey_other. }
  intros _ d1 HG1 Hd1 _. apply (psafe_tried _ _ (λ _ _, True)); [done| |].
  { apply safe_call. intros d0 HG0. eapply spec_conseq; [apply (Save_spec (manifestListKey (af_Repository art) (getReference art)) pl d0)|done|naive_solver|naive_solver].
    intros repo ref Hr Hf [-> ->]%manifestListKey_inj; [|done..]. exists art'. split_and!; [done..|]. eapply G_pulled; [|exact Hpl]. by etrans. }
  intros _ d2 HG2 Hd2 _. eapply psafe_tried; [done|by apply push_list_safe|intros; by apply psafe_ret].
Qed.

(** ** Goroutines *)

Lemma local_or_none_safe repo ref d : px_ok d → psafe (local_or_none repo ref) (λ _ _, True) d.
Proof. intros Hd. eapply psafe_tried; [done|by apply psafe_GetManifest|intros; by apply psafe_ret]. Qed.

Lemma SendPullEvent_safe a tag operator d : px_ok d → psafe (SendPullEvent a tag operator) (λ _ _, True) d.
Proof.
  intros Hd. apply psafe_quiet; [done|]. intros d0 _. apply spec_act. intros ? ->. split; [|done].
  apply (G_local d0 (px_local d0) [EvPullEvent (la_ID a) tag operator]); [by split; [intros ??|]|]. by intros ???? [=]%list_elem_of_singleton.
Qed.

(** The reference of the manifest stays when the digest is filled in. *)
Lemma filled_reference art dig : info_ok art → getReference (if af_Digest art == "" then with_digest dig art else art) = getReference art.
Proof.
  intros (_ & _ & _ & _ & Hr & _). case_bool_decide as E; [|done]. unfold getReference in *. simpl. case_bool_decide; [congruence|done].
Qed.

Lemma push_in_background_safe art reg man dig ct operator d : px_ok d → started (TManifest art reg man dig ct operator) d →
  psafe (push_in_background remote digest_of has_cache art reg man dig ct operator) (λ _ _, True) d.
Proof.
  intros Hd (Ha & Hreg & Hin). unfold push_in_background. eapply psafe_seq; [done|by apply local_or_none_safe| |done].
  intros a d1 HG1 Hd1 _. eapply (psafe_seq _ _ (λ _ _, True)); [done| | |done].
  - destruct (_ || _); [|by apply psafe_ret]. set (artInfo := if af_Digest art == "" then with_digest dig art else art). unfold waitAndPushManifest.
    assert (Er : af_Repository artInfo = af_Repository art) by (unfold artInfo; by destruct (_ == _)).
    assert (Ee : getReference artInfo = getReference art) by by apply filled_reference.
    destruct (is_list_type ct).
    + apply ListCacheContent_safe; [done|rewrite Er; apply Ha|rewrite Ee; apply Ha|].
      intros mt pl Hpl. exists art. split_and!; [done..|]. eapply G_pulled; [exact HG1|]. by exists reg, man, dig, mt.
    + apply CacheContent_safe; [done|]. rewrite Er. apply Ha.
  - intros [] d2 HG2 Hd2 _. eapply (psafe_seq _ _ (λ _ _, True)); [done|destruct a; [by apply psafe_ret|by apply local_or_none_safe]| |done].
    intros [a'|] d3 HG3 Hd3 _; [by apply SendPullEvent_safe|by apply psafe_ret].
Qed.

Lemma EnsureTag_safe art tag d : px_ok d → psafe (EnsureTag has_cache art tag) (λ _ _, True) d.
Proof.
  intros Hd. unfold EnsureTag. destruct (negb has_cache); [by apply psafe_result|].
  eapply psafe_tried; [done|apply psafe_quiet; [done|]|].
  { intros d0 _. eapply spec_conseq; [apply (Fetch_spec _ d0)|done|by intros a d' [? _]|done]. }
  intros r d1 HG1 Hd1 _. eapply (psafe_seq _ _ (λ _ _, True)); [done| | |done].
  { destruct r as [t|e]; [by apply psafe_ret|]. destruct (is_ErrNotFound e); [by apply psafe_ret|by apply psafe_fail]. }
  intros dig d2 HG2 Hd2 _. eapply psafe_seq; [done|by apply psafe_GetManifest| |done].
  intros [a|] d3 HG3 Hd3 _; [|by apply psafe_fail]. apply psafe_quiet; [done|]. intros d0 _.
  eapply spec_conseq; [apply (on_local_spec _ (λ _ _, True) d0)|done|by intros ?? [? _]|done].
  intros r' x r'' Hx. split; [|done]. by eapply local_EnsureTag.
Qed.

Lemma ensure_tag_safe n art bArt d : px_ok d → psafe (ensure_tag has_cache n art bArt) (λ _ _, True) d.
Proof.
  revert d. induction n as [|n IH]; intros d Hd; cbn [ensure_tag]; [by apply psafe_ret|].
  eapply (psafe_seq _ _ (λ _ _, True)); [done|apply psafe_quiet; [done|intros; by apply spec_ret; intros ? ->]| |done].
  intros [] d1 HG1 Hd1 _. eapply psafe_tried; [done|by apply EnsureTag_safe|]. intros [[]|e] d2 HG2 Hd2 _; [by apply psafe_ret|by apply IH].
Qed.

Lemma run_task_safe t d : px_ok d → started t d → psafe (run_task remote digest_of has_cache t) (λ _ _, True) d.
Proof.
  intros Hd Ht. unfold run_task. eapply (psafe_seq _ _ (λ _ _, True)); [done| |intros; by apply psafe_ret|done].
  destruct t as [art reg man dig ct operator|reg remoteRepo localRepo desc|art dig|repo ref].
  - by apply push_in_background_safe.
  - eapply psafe_tried; [done|by apply putBlobToLocal_safe|intros; by apply psafe_ret].
  - by apply ensure_tag_safe.
  - eapply psafe_tried; [done| |intros; by apply psafe_ret]. apply psafe_quiet; [done|]. intros d0 _.
    eapply spec_conseq; [apply (on_local_spec _ (λ _ _, True) d0)|done|by intros ?? [? _]|done].
    intros r' x r'' Hx. split; [|done]. apply no_push_digests. by eapply local_Delete.
Qed.

(** ** Requests *)

(** [e] was traced after [t0]. *)
Definition since (t0 : list event) (d : DB) (e : event) : Prop := ∃ t, px_trace d = t ++ t0 ∧ e ∈ t.
Lemma since_kept t0 d d' e : G d d' → since t0 d e → since t0 d' e.
Proof.
  intros HG (t & Ht & He). destruct (g_trace _ _ HG) as [l Hl]. exists (l ++ t). rewrite Hl, Ht. split; [by rewrite app_assoc|]. set_solver.
Qed.
Lemma since_now t0 (d d' : DB) e : t0 `suffix_of` px_trace d → px_trace d' = e :: px_trace d → since t0 d' e.
Proof. intros [t Ht] Hd. exists (e :: t). rewrite Hd, Ht. split; [done|by left]. Qed.

Section request.
Context (t0 : list event) (art : ArtifactInfo) (Hart : info_ok art).

(** The remote registry of the project has answered a HEAD request during this one. *)
Definition headed (d : DB) (desc : Descriptor) : Prop := ∃ reg, registry_of d (af_ProjectName art) = Some reg ∧
  since t0 d (EvHead reg (getRemoteRepo art) (getReference art) (Ok (true, Some desc))).
Lemma headed_kept d d' desc : G d d' → headed d desc → headed d' desc.
Proof. intros HG (reg & Hr & He). exists reg. rewrite (G_registry _ _ _ HG). split; [done|by eapply since_kept]. Qed.

(** It has served the content, during this request, or at some time. *)
Definition served_now (d : DB) (content : string) : Prop := ∃ reg m dig ct, registry_of d (af_ProjectName art) = Some reg ∧
  since t0 d (EvPull reg (getRemoteRepo art) (getReference art) (Ok (m, dig))) ∧ Payload m = Ok (ct, content).
Lemma served_now_kept d d' c : G d d' → served_now d c → served_now d' c.
Proof.
  intros HG (reg & m & dig & ct & Hr & He & Hp). exists reg, m, dig, ct. rewrite (G_registry _ _ _ HG). split_and!; [done| |done]. by eapply since_kept.
Qed.

Context (reg : Z).
Definition ready (d : DB) : Prop := px_ok d ∧ t0 `suffix_of` px_trace d ∧ registry_of d (af_ProjectName art) = Some reg.
Lemma ready_kept d d' : G d d' → ready d → ready d'.
Proof.
  intros HG (Hd & Ht & Hr). split_and!; [by eapply G_ok| |by rewrite (G_registry _ _ _ HG)]. etrans; [exact Ht|]. apply (g_trace _ _ HG).
Qed.

Lemma psafe_head d : ready d →
  psafe (call (remote_ManifestExist remote reg (getRemoteRepo art) (getReference art))) (λ r d', ∀ desc, r = Ok (true, Some desc) → headed d' desc) d.
Proof.
  intros Hd. eapply (safe_op G started px_ok G_ok _ (λ d0 x d1, ∃ e, px_trace d1 = e :: px_trace d0 ∧ e = EvHead reg (getRemoteRepo art) (getReference art) (Ok x)));
    [apply Hd|intros; apply remote_ManifestExist_spec| |done].
  intros d0 x d1 d' K0 K1 (e & He & ->) K2 K3 desc [= ->]. eapply headed_kept; [exact K3|]. exists reg.
  destruct (ready_kept _ _ K0 Hd) as (_ & Ht & Hr). rewrite (G_registry _ _ _ K2). split; [done|by eapply since_now].
Qed.

Lemma cached_content d x content : px_ok d → registry_of d (af_ProjectName art) = Some reg →
  store (px_cache d) !! Key (manifestListKey (af_Repository art) (getReference art)) = Some x → Decode x = Ok content →
  pulled_in (px_trace d) d art content.
Proof.
  intros Hd Hr Hx Hc. destruct Hart as (_ & _ & Hrepo & Href & _).
  destruct (po_cache _ Hd _ _ _ _ Hrepo Href Hx Hc) as (art' & Ha' & Er & Ee & reg' & m & dig & ct & Hreg' & Hin & Hp).
  destruct (same_remote _ _ Ha' Hart Er) as [Ep Em]. exists reg', m, dig, ct. rewrite <- Ep, <- Em, <- Ee. done.
Qed.

Lemma UseLocalManifest_safe d : ready d →
  psafe (UseLocalManifest remote has_cache art reg) (λ r d', ∀ ml, r = Ok (true, Some ml) →
    ∃ desc, headed d' desc ∧ ml_Digest ml = ds_Digest desc ∧ pulled_in (px_trace d') d' art (ml_Content ml)) d.
Proof.
  intros Hd. unfold UseLocalManifest. eapply psafe_seq; [apply Hd|apply psafe_GetManifest, Hd| |done]. intros a d1 HG1 Hd1 _.
  destruct (_ && _); [by apply psafe_ret|]. assert (Hr1 := ready_kept _ _ HG1 Hd).
  eapply psafe_seq; [done|by apply psafe_head| |done]. intros x d2 HG2 Hd2 Hx. assert (Hr2 := ready_kept _ _ HG2 Hr1).
  assert (Hnone : psafe (_ ← go (TDelete (getRemoteRepo art) (af_Tag art)); pfail (tag_not_found art)) (λ r d', ∀ ml, r = Ok (true, Some ml) →
    ∃ desc, headed d' desc ∧ ml_Digest ml = ds_Digest desc ∧ pulled_in (px_trace d') d' art (ml_Content ml)) d2).
  { apply safe_go; [apply _|done|]. by apply psafe_fail. }
  destruct x as [[|] [desc|]]; try exact Hnone. specialize (Hx _ eq_refl). destruct (negb has_cache); [by apply psafe_ret|].
  eapply (psafe_tried _ _ (λ r d', ∀ c, r = Ok c → pulled_in (px_trace d') d' art c)); [done| |].
  { eapply (psafe_op _ (λ d0 v, ∃ x, store (px_cache d0) !! _ = Some x ∧ Decode x = Ok v)); [done|intros; apply Fetch_spec| |done].
    intros d0 v d' K0 K1 (x & Hx0 & Hv) K2 c [= ->]. eapply G_pulled; [exact K2|]. eapply cached_content; [done|apply (ready_kept _ _ K0 Hr2)|done|done]. }
  intros [c|e] d3 HG3 Hd3 Hc; [|by apply psafe_ret]. specialize (Hc _ eq_refl).
  eapply psafe_tried; [done|apply psafe_quiet; [done|]|].
  { intros d0 _. eapply spec_conseq; [apply (Fetch_spec _ d0)|done|by intros ?? [? _]|done]. }
  intros [t|e] d4 HG4 Hd4 _; [|by apply psafe_ret]. apply psafe_ret. intros d5 HG5 ml [= <-]. exists desc. simpl.
  assert (G d3 d5) by by etrans. split_and!; [|done|by eapply G_pulled]. eapply headed_kept; [|exact Hx]. by etrans.
Qed.

Lemma proxyManifestGet_safe operator d : ready d →
  psafe (proxyManifestGet remote operator art reg) (λ r d', ∀ x, r = Ok x → ∃ c mt, x = Replied (Z.of_nat (String.length c)) mt (af_Digest art) (Some c) ∧
    served_now d' c) d.
Proof.
  intros Hd. unfold proxyManifestGet.
  eapply (psafe_seq _ _ (λ r d', ∀ m, r = Ok m → ∃ dig, since t0 d' (EvPull reg (getRemoteRepo art) (getReference art) (Ok (m, dig))))); [apply Hd| | |done].
  - unfold ProxyManifest. eapply (psafe_tried _ _ (λ r d', ∀ m dig, r = Ok (m, dig) → since t0 d' (EvPull reg (getRemoteRepo art) (getReference art) (Ok (m, dig)))));
      [apply Hd| |].
    + eapply (safe_op G started px_ok G_ok _ (λ d0 x d1, _)); [apply Hd|intros; apply remote_Manifest_spec| |done].
      intros d0 [m' dig'] d1 d' K0 K1 (_ & e & He & ->) K2 K3 m dig [= -> ->]. eapply since_kept; [exact K3|].
      eapply since_now; [|exact He]. apply (ready_kept _ _ K0 Hd).
    + intros r d1 HG1 Hd1 Hr. destruct r as [[m dig]|e]; [|destruct (IsNotFoundErr e); [apply safe_go; [apply _|done|]|]; by apply psafe_fail].
      specialize (Hr _ _ eq_refl). eapply psafe_seq; [done|by apply (psafe_result _ (λ _ _, True))| |done]. intros [ct pl] d2 HG2 Hd2 _.
      apply safe_go; [apply _| |].
      * intros d3 HG3. assert (HG13 : G d1 d3) by by etrans. destruct (since_kept _ _ _ _ HG13 Hr) as (t & Ht & Hin).
        split_and!; [done|apply (ready_kept d); [by etrans|done]|]. rewrite Ht. set_solver.
      * apply psafe_ret. intros d3 HG3 m' [= <-]. exists dig. eapply since_kept; [|exact Hr]. by etrans.
  - intros m d1 HG1 Hd1 Hm. destruct (Hm _ eq_refl) as [dig Hs].
    eapply (psafe_seq _ _ (λ r _, ∀ x, r = Ok x → Payload m = Ok x)); [done|by apply psafe_result; intros d' _ x| |done].
    intros [ct pl] d2 HG2 Hd2 Hp. specialize (Hp _ eq_refl). apply psafe_ret. intros d3 HG3 x [= <-].
    exists pl, (if ct == "" then None else Some ct). split; [done|]. exists reg, m, dig, ct.
    destruct (ready_kept d d3) as (_ & _ & ?); [by etrans; [exact HG1|]; etrans|done|]. split_and!; [done| |done].
    eapply since_kept; [|exact Hs]. by etrans.
Qed.

Lemma proxyManifestHead_safe d : ready d →
  psafe (proxyManifestHead remote art reg) (λ r d', ∀ x, r = Ok x → ∃ desc, headed d' desc ∧
    x = Replied (ds_Size desc) (Some (ds_MediaType desc)) (ds_Digest desc) None) d.
Proof.
  intros Hd. unfold proxyManifestHead. eapply psafe_seq; [apply Hd|by apply psafe_head| |done].
  intros x d1 HG1 Hd1 Hx. destruct x as [[|] [desc|]]; try (by apply psafe_fail). specialize (Hx _ eq_refl).
  apply safe_go; [apply _|done|]. apply psafe_ret. intros d2 HG2 y [= <-]. exists desc. split; [by eapply headed_kept|done].
Qed.
End request.

(** What a request for a manifest is answered: with content that the remote registry of
    the project serves during the request, under the digest of the request; or with a
    list that it served at some time for the same reference, under the digest that it
    names now; or, without content, with that digest. *)
Definition manifest_reply (info : option ArtifactInfo) (t0 : list event) (r : result response) (d : DB) : Prop :=
  match r with
  | Ok (Replied len _ dg (Some c)) => len = Z.of_nat (String.length c) ∧ ∃ art, info = Some art ∧
      (served_now t0 art d c ∧ dg = af_Digest art ∨
       ∃ desc, headed t0 art d desc ∧ dg = ds_Digest desc ∧ pulled_in (px_trace d) d art c)
  | Ok (Replied _ _ dg None) => ∃ art desc, info = Some art ∧ headed t0 art d desc ∧ dg = ds_Digest desc
  | Ok (Streamed _) => False
  | Ok (Redirected _) | Ok Next => True
  | Err e => IsNotFoundErr e = true
  end.

Lemma manifest_reply_kept info t0 r d d' : G d d' → manifest_reply info t0 r d → manifest_reply info t0 r d'.
Proof.
  intros HG. destruct r as [[url| |len mt dg [c|]|]|e]; try done; simpl.
  - intros [Hl (art & Ei & Hc)]. split; [done|]. exists art. split; [done|].
    destruct Hc as [[Hs ?]|(desc & Hh & ? & Hp)]; [left; split; [by eapply served_now_kept|done]|right].
    exists desc. split_and!; [by eapply headed_kept|done|by eapply G_pulled].
  - intros (art & desc & Ei & Hh & ?). exists art, desc. split_and!; [done|by eapply headed_kept|done].
Qed.

Lemma preCheck_safe info d : px_ok d → psafe (preCheck info) (λ r d', ∀ art p, r = Ok (art, p) →
  info = Some art ∧ registry_of d' (af_ProjectName art) = Some (ProjectStore.j_RegistryID p)) d.
Proof.
  intros Hd. unfold preCheck. destruct info as [art|]; [|by apply psafe_fail].
  eapply (psafe_seq _ _ (λ r d', ∀ pv, r = Ok pv → registry_of d' (af_ProjectName art) = Some (ProjectStore.j_RegistryID (ProjectStore.pv_Project pv)))); [done| | |done].
  - eapply (psafe_op _ (λ d0 pv, ScanCtlSpec.live_project (px_proj d0) (af_ProjectName art) = Some (ProjectStore.pv_Project pv))); [done| | |done].
    + intros d0 _. apply (table_spec _ (λ d pv, ScanCtlSpec.live_project (px_proj d) (af_ProjectName art) = Some (ProjectStore.pv_Project pv))).
      eapply reading_conseq; [apply (reading_zoom px_proj set_proj); [by intros []|apply ScanCtlSpec.project_GetByName_reading]|].
      intros x pv [Hp _]. exact Hp.
    + intros d0 pv d' _ _ Hp HG x [= <-]. rewrite (G_registry _ _ _ HG). unfold registry_of. by rewrite Hp.
  - intros pv d1 HG1 Hd1 Hp. apply psafe_ret. intros d' HG art' p [= <- <-]. rewrite (G_registry _ _ _ HG). by split; [|apply Hp].
Qed.

Lemma reg_Get_reads id : reads (reg_Get cfg AES id).
Proof. unfold reads, reg_Get. frame. Qed.

Lemma psafe_reg id d : px_ok d → psafe (call (on_rep (reg_Get cfg AES id))) (λ _ _, True) d.
Proof.
  intros Hd. apply psafe_quiet; [done|]. intros d0 _. apply (table_spec _ (λ _ _, True)).
  apply (reading_zoom px_rep set_rep _ (λ _ _, True)); [by intros []|]. intros w r w' Hw. split; [|done]. symmetry. by eapply reg_Get_reads.
Qed.

Lemma defaultLibrary_safe id art d : px_ok d → psafe (defaultLibrary cfg AES id art) (λ _ _, True) d.
Proof.
  intros Hd. unfold defaultLibrary. destruct (_ <=? _); [by apply psafe_ret|]. eapply psafe_seq; [done|by apply psafe_reg| |done].
  intros reg d1 HG1 Hd1 _. destruct (negb _); by apply psafe_ret.
Qed.

Lemma canProxy_safe p d : px_ok d → psafe (canProxy cfg AES p) (λ _ _, True) d.
Proof.
  intros Hd. unfold canProxy. destruct (_ <? _); [by apply psafe_ret|]. eapply psafe_tried; [done|by apply psafe_reg|intros; by apply psafe_ret].
Qed.

Lemma NewRemoteHelper_safe id d : px_ok d → psafe (call (NewRemoteHelper cfg AES factories id)) (λ r _, ∀ reg, r = Ok reg → reg = id) d.
Proof.
  intros Hd. eapply (psafe_op _ (λ _ reg, reg = id)); [done| |by intros d0 a d' _ _ -> _ reg [= <-]|done]. intros d0 _. apply (table_spec _ (λ _ reg, reg = id)).
  unfold NewRemoteHelper. eapply reading_conseq; [eapply reading_skip; [|intros r]|intros x a Ha; exact Ha].
  - intros w r w' Hw. symmetry. apply zoom_inv in Hw as (w1 & Hw & ->). rewrite <- (reg_Get_reads id _ _ _ Hw). by destruct (db w).
  - destruct (negb _); [apply reading_fail|]. eapply reading_skip; [unfold reads; frame|intros adp].
    destruct (ad_FetchArtifacts adp); [apply reading_ret|]. eapply reading_conseq; [apply reading_of_result|done].
Qed.

Lemma handleManifest_safe method operator info d : px_ok d → (∀ art, info = Some art → info_ok art) → method = MethodGet ∨ method = MethodHead →
  psafe (handleManifest remote cfg AES factories has_cache method operator info) (λ r d', ∀ x, r = Ok x → manifest_reply info (px_trace d) (Ok x) d') d.
Proof.
  intros Hd Hinfo Hm. unfold handleManifest. eapply psafe_seq; [done|by apply preCheck_safe| |done]. intros [art p] d1 HG1 Hd1 Hp.
  destruct (Hp _ _ eq_refl) as [Ei Hreg]. specialize (Hinfo _ Ei). set (id := ProjectStore.j_RegistryID p) in *.
  assert (Hr1 : ready (px_trace d) art id d1) by (split_and!; [done|apply (g_trace _ _ HG1)|done]).
  eapply psafe_seq; [done|by apply defaultLibrary_safe| |done]. intros [name|] d2 HG2 Hd2 _; [by apply psafe_ret; intros d' _ x [= <-]|].
  eapply psafe_seq; [done|by apply canProxy_safe| |done]. intros can d3 HG3 Hd3 _. destruct (negb can); [by apply psafe_ret; intros d' _ x [= <-]|].
  eapply psafe_seq; [done|by apply NewRemoteHelper_safe| |done]. intros reg d4 HG4 Hd4 E. specialize (E _ eq_refl). subst reg.
  assert (Hr4 : ready (px_trace d) art id d4) by (eapply ready_kept; [|exact Hr1]; etrans; [exact HG2|]; by etrans).
  eapply psafe_seq; [done|by apply UseLocalManifest_safe| |done]. intros [[|] u] d5 HG5 Hd5 Hu; [destruct u as [ml|]|].
  - destruct (Hu _ eq_refl) as (desc & Hh & Ed & Hpl). apply psafe_ret. intros d6 HG6 x [= <-]. simpl.
    destruct (method == MethodGet).
    + split; [done|]. exists art. split; [done|]. right. exists desc. split_and!; [by eapply headed_kept|done|by eapply G_pulled].
    + exists art, desc. split_and!; [done|by eapply headed_kept|done].
  - by apply psafe_ret; intros d' _ x [= <-].
  - assert (Hr5 := ready_kept _ _ _ _ _ HG5 Hr4).
    eapply (psafe_tried _ _ (λ r d', ∀ x, r = Ok x → manifest_reply info (px_trace d) (Ok x) d')); [done| |].
    + destruct (method == MethodHead) eqn:Eh; [|destruct (method == MethodGet) eqn:Eg].
      * eapply safe_conseq; [| |by apply proxyManifestHead_safe]; [apply _|]. intros r d' HG Hy x Hx. destruct (Hy x Hx) as (desc & Hh & ->).
        by exists art, desc.
      * eapply safe_conseq; [| |by apply proxyManifestGet_safe]; [apply _|]. intros r d' HG Hy x Hx. destruct (Hy x Hx) as (c & mt & -> & Hs).
        split; [done|]. exists art. split; [done|]. by left.
      * apply bool_decide_eq_false in Eh, Eg. naive_solver.
    + intros [x|e] d6 HG6 Hd6 Hx; [|destruct (IsNotFoundErr e); [by apply psafe_fail|by apply psafe_ret; intros d' _ y [= <-]]].
      apply psafe_ret. intros d7 HG7 y [= <-]. eapply manifest_reply_kept; [exact HG7|]. by apply Hx.
Qed.

Lemma ManifestMiddleware_safe method operator info d : px_ok d → (∀ art, info = Some art → info_ok art) → method = MethodGet ∨ method = MethodHead →
  psafe (ManifestMiddleware remote cfg AES factories has_cache method operator info) (manifest_reply info (px_trace d)) d.
Proof.
  intros Hd Hi Hm. unfold ManifestMiddleware. eapply psafe_tried; [done|by apply handleManifest_safe|].
  intros [x|e] d1 HG1 Hd1 Hx; [|destruct (IsNotFoundErr e) eqn:E; [by apply psafe_fail|by apply psafe_ret]].
  apply psafe_ret. intros d2 HG2. eapply manifest_reply_kept; [exact HG2|]. by apply Hx.
Qed.

Lemma handleBlob_safe info d : px_ok d → (∀ art, info = Some art → info_ok art) →
  psafe (handleBlob remote cfg AES factories info) (λ _ _, True) d.
Proof.
  intros Hd Hinfo. unfold handleBlob. eapply psafe_seq; [done|by apply preCheck_safe| |done]. intros [art p] d1 HG1 Hd1 Hp.
  destruct (Hp _ _ eq_refl) as [Ei _]. destruct (Hinfo _ Ei) as (_ & _ & Hrepo & _).
  eapply psafe_seq; [done|by apply defaultLibrary_safe| |done]. intros [name|] d2 HG2 Hd2 _; [by apply psafe_ret|].
  eapply psafe_seq; [done|by apply canProxy_safe| |done]. intros can d3 HG3 Hd3 _.
  eapply (psafe_seq _ _ (λ _ _, True)); [done| | |done].
  { destruct (negb can); [by apply psafe_ret|]. unfold UseLocalBlob. destruct (_ == _); [by apply psafe_ret|].
    eapply psafe_tried; [done|apply psafe_quiet; [done|]|intros; by apply psafe_ret].
    intros d0 _. eapply spec_conseq; [apply (BlobExist_spec _ _ d0)|done|by intros ?? [? _]|done]. }
  intros [|] d4 HG4 Hd4 _; [by apply psafe_ret|]. eapply (psafe_seq _ _ (λ _ _, True)); [done| | |done].
  { unfold ProxyBlob. eapply psafe_seq; [done|by apply NewRemoteHelper_safe| |done]. intros reg d5 HG5 Hd5 _.
    eapply psafe_seq; [done|apply psafe_quiet; [done|intros; apply BlobReader_spec]| |done]. intros x d6 HG6 Hd6 _.
    apply safe_go; [apply _|done|by apply psafe_ret]. }
  intros x d5 HG5 Hd5 _. eapply (psafe_seq _ _ (λ _ _, True)); [done|by apply psafe_result|intros; by apply psafe_ret|done].
Qed.

(** ** Every interleaving *)

(** What a goroutine is there for; a request for a manifest has the trace at its start. *)
Inductive job := JManifest (info : option ArtifactInfo) (t0 : list event) | JBlob | JTask.

Inductive arrives : DB → job → P response → Prop :=
| arrives_manifest d method operator info : (∀ art, info = Some art → info_ok art) → method = MethodGet ∨ method = MethodHead →
    arrives d (JManifest info (px_trace d)) (ManifestMiddleware remote cfg AES factories has_cache method operator info)
| arrives_blob d info : (∀ art, info = Some art → info_ok art) → arrives d JBlob (handleBlob remote cfg AES factories info).

Definition proxy_step := pool_step (run_task remote digest_of has_cache) (λ _, JTask) arrives.

Definition job_result (x : job) (r : result response) (d : DB) : Prop :=
  match x with JManifest info t0 => manifest_reply info t0 r d | _ => True end.

Lemma arrives_safe d x p : px_ok d → arrives d x p → psafe p (job_result x) d.
Proof. intros Hd Ha. destruct Ha; [by apply ManifestMiddleware_safe|by apply handleBlob_safe]. Qed.

Lemma proxy_invariant w c : px_ok (db w) → rtc proxy_step ([], w) c → px_ok (db c.2).
Proof. apply (pool_invariant _ _ _ G started px_ok G_ok job_result); [exact arrives_safe|exact run_task_safe]. Qed.
Lemma proxy_results w c i x r : px_ok (db w) → rtc proxy_step ([], w) c → c.1 !! i = Some (x, Done r) → job_result x r (db c.2).
Proof. apply (pool_results _ _ _ G started px_ok G_ok job_result); [exact arrives_safe|exact run_task_safe]. Qed.
End spec.

(** C11 (safety). What the proxy serves.  Any number of requests for manifests and blobs
    of proxy projects and the goroutines that they start interleave between their calls,
    and calls of registries, tables and caches fail at any time.  A manifest that a
    client gets through the proxy is one that the remote registry of the project serves
    for that reference during the request, or a list that it has served for it before,
    with the digest that the reference has now; a reply without content has that digest.
    A reply to a request by digest is the content of that digest. *)
Theorem proxied_content `{!Manifests, !ManifestLists} {S R data} `{!ArtifactRegistry R, !LocalCore R, !Codec data string}
    (remote : Z → ArtifactRegistry S) cfg AES factories digest_of has_cache
    `{SL : !∀ id, @Source _ digest_of S (remote id), !Destination digest_of R, !LocalLaws digest_of R} w c i info t0 r :
  (∀ (s : string) (x : data), Encode s = Ok x → Decode x = Ok s) → (∀ l m, FromDescriptors l = Ok m → References m = l) →
  no_collision (digest_of := digest_of) → px_ok remote digest_of (db w) →
  rtc (proxy_step remote cfg AES factories digest_of has_cache) ([], w) c → c.1 !! i = Some (JManifest info t0, Done r) →
  manifest_reply info t0 r (db c.2) ∧
  ∀ len mt dg content art, r = Ok (Replied len mt dg (Some content)) → info = Some art → digest_Parse (getReference art) = true →
    digest_of content = getReference art.
Proof.
  intros Hcodec Hlists Hcol Hw Hc Hi.
  pose proof (proxy_invariant remote cfg AES factories digest_of has_cache Hcodec Hlists Hcol w c Hw Hc) as Hok.
  pose proof (proxy_results remote cfg AES factories digest_of has_cache Hcodec Hlists Hcol w c i _ r Hw Hc Hi) as Hr.
  split; [done|]. intros len mt dg content art -> -> Hd. destruct Hr as [_ (art' & [= <-] & Hcases)].
  assert (∃ reg m dig ct, EvPull reg (getRemoteRepo art) (getReference art) (Ok (m, dig)) ∈ px_trace (db c.2) ∧ Payload m = Ok (ct, content)) as (reg & m & dig & ct & Hin & Hp).
  { destruct Hcases as [[(reg & m & dig & ct & _ & (t & Ht & Hin) & Hp) _]|(desc & _ & _ & reg & m & dig & ct & _ & Hin & Hp)];
      exists reg, m, dig, ct; (split; [|done]); [rewrite Ht; set_solver|done]. }
  pose proof (po_trace _ _ _ Hok _ _ _ _ _ Hin) as Hs. rewrite <- (served_exact _ _ _ _ Hs Hd). eapply served_digest; [exact Hs|].
  unfold man_digest. by rewrite Hp.
Qed.

(** C12 (invariant). What the proxy keeps.  In every state of such a history, everything
    that a manifest of the local registry refers to by a digest is there too, or a push
    of it is in flight, or a push of it has failed: a manifest is pushed only after what
    it refers to, and a list without what is not there. *)
Theorem proxy_cache_closed `{!Manifests, !ManifestLists} {S R data} `{!ArtifactRegistry R, !LocalCore R, !Codec data string}
    (remote : Z → ArtifactRegistry S) cfg AES factories digest_of has_cache
    `{SL : !∀ id, @Source _ digest_of S (remote id), !Destination digest_of R, !LocalLaws digest_of R} w c repo dg m x :
  (∀ (s : string) (x : data), Encode s = Ok x → Decode x = Ok s) → (∀ l m, FromDescriptors l = Ok m → References m = l) →
  no_collision (digest_of := digest_of) → px_ok remote digest_of (db w) →
  rtc (proxy_step remote cfg AES factories digest_of has_cache) ([], w) c →
  lacks colon repo → resolve (px_local (db c.2)) repo dg = Some dg → man_digest digest_of m = Some dg → x ∈ References m →
  digest_Parse (ds_Digest x) = true →
  is_Some (resolve (px_local (db c.2)) repo (ds_Digest x)) ∨ has_blob (px_local (db c.2)) repo (ds_Digest x) ∨
  artName repo (ds_Digest x) ∈ px_inflight (db c.2) ∨ EvPushFailed repo (ds_Digest x) ∈ px_trace (db c.2).
Proof.
  intros Hcodec Hlists Hcol Hw Hc Hrepo Hr Hm Hx Hd.
  pose proof (proxy_invariant remote cfg AES factories digest_of has_cache Hcodec Hlists Hcol w c Hw Hc) as Hok.
  destruct (po_local _ _ _ Hok _ _ _ _ Hrepo Hr Hm Hx Hd) as [[?|?]|?]; auto.
Qed.

(** ** An example: an image, and a list with it *)

Module ProxyToy.

Definition child : Descriptor := mkDescriptor schema2_MediaTypeManifest 5 "sha256:image".
Definition layer : Descriptor := mkDescriptor "application/octet-stream" 3 "sha256:abc".
Inductive toy_manifest := Image | ImageList (l : list Descriptor).
Definition image_digest : string := "sha256:image".
Definition list_digest : string := "sha256:index".

#[export] Instance toy_manifests : Manifests := {|
  Manifest := toy_manifest;
  References m := match m with Image => [layer] | ImageList l => l end;
  Payload m := match m with
               | Image => Ok (schema2_MediaTypeManifest, "image"%string)
               | ImageList l => match l with
                                | [d] => if ds_Digest d == "sha256:image" then if ds_MediaType d == schema2_MediaTypeManifest then if ds_Size d =? 5
                                         then Ok (MediaTypeManifestList, "index"%string) else Err (PlainError "") else Err (PlainError "") else Err (PlainError "")
                                | _ => Err (PlainError "")
                                end
               end;
  UnmarshalManifest _ _ := Err (PlainError "unknown");
  digest_Parse := String.prefix "sha256:";
|}.
#[export] Instance toy_lists : ManifestLists := {|
  list_Manifests m := match m with Image => None | ImageList l => Some l end;
  FromDescriptors l := Ok (ImageList l) |}.
#[export] Instance toy_codec : Codec string string := {| Encode s := Ok s; Decode s := Ok s |}.

(** The remote registry: what [latest] is when it is asked next. *)
Definition at_ref (s : list bool) (ref : string) : option (toy_manifest * string) :=
  if (ref == image_digest) || (ref == "latest") && default false (head s) then Some (Image, image_digest)
  else if (ref == list_digest) || (ref == "latest") then Some (ImageList [child], list_digest)
  else None.
Definition missing : error := NotFoundError (Some (PlainError "manifest unknown")).
Definition unsupported {A} : result A := Err (PlainError "unsupported").

Definition toy_remote (reg : Z) : ArtifactRegistry (list bool) := {|
  ar_ManifestExist repo ref s := (Ok match at_ref s ref with Some (_, d) => (true, Some (mkDescriptor "application/json" 1 d)) | None => (false, None) end, tail s);
  ar_PullManifest repo ref s := (match at_ref s ref with Some x => Ok x | None => Err missing end, tail s);
  ar_PushManifest _ _ _ _ s := (unsupported, s);
  ar_DeleteManifest _ _ s := (unsupported, s);
  ar_BlobExist _ _ s := (unsupported, s);
  ar_PullBlob _ _ s := (Ok (3, Ok "abc"%string), s);
  ar_PullBlobChunk _ _ _ _ _ s := (unsupported, s);
  ar_PushBlob _ _ _ _ s := (unsupported, s);
  ar_PushBlobChunk _ _ _ _ _ _ _ s := ((EmptyString, 0, Some (PlainError "unsupported")), s);
  ar_MountBlob _ _ _ s := (unsupported, s);
  ar_CanBeMount _ s := (unsupported, s);
  ar_DeleteTag _ _ s := (unsupported, s) |}.

Lemma at_ref_cases s ref m d : at_ref s ref = Some (m, d) →
  m = Image ∧ d = image_digest ∧ (ref = image_digest ∨ ref = "latest"%string) ∨
  m = ImageList [child] ∧ d = list_digest ∧ (ref = list_digest ∨ ref = "latest"%string).
Proof. unfold at_ref. repeat case_bool_decide; destruct (default false (head s)); simpl; naive_solver. Qed.

#[export] Instance toy_source id : @Source toy_manifests Toy.digest_of (list bool) (toy_remote id).
Proof.
  refine (@Build_Source toy_manifests Toy.digest_of (list bool) (toy_remote id) (λ repo ref m d, ∃ s, at_ref s ref = Some (m, d)) _ _ _ _ _).
  - intros repo ref m d s s'. simpl. intros [= E _]. exists s. destruct (at_ref s ref); [|done]. by injection E as ->.
  - intros repo ref m d d' [s [(-> & -> & _)|(-> & -> & _)]%at_ref_cases]; by intros [= <-].
  - intros repo ref m d [s [(-> & -> & [->| ->])|(-> & -> & [->| ->])]%at_ref_cases]; done.
  - intros repo ref m d [s [(-> & -> & _)|(-> & -> & _)]%at_ref_cases]; done.
  - intros repo ref m d c [s [(-> & -> & _)|(-> & -> & _)]%at_ref_cases] Hc; simpl in Hc; by apply list_elem_of_singleton in Hc as ->.
Defined.

#[export] Instance toy_local : ArtifactRegistry Toy.Reg := {|
  ar_ManifestExist repo ref r := (Ok match Toy.find r repo ref with Some d => (true, Some (mkDescriptor "application/json" 1 d)) | None => (false, None) end, r);
  ar_PullManifest repo ref r := (unsupported, r);
  ar_PushManifest repo ref mt p r :=
    if String.prefix "sha256:" ref && negb (ref == Toy.digest_of p) then (Err (PlainError "digest invalid"), r)
    else (Ok (Toy.digest_of p), Toy.mkReg (Toy.blobs r) (<[(repo, ref) := Toy.digest_of p]> (<[(repo, Toy.digest_of p) := Toy.digest_of p]> (Toy.refs r))) (Toy.failures r));
  ar_DeleteManifest repo ref r := (Err (ForbiddenError None), r);
  ar_BlobExist repo d r := (Ok (bool_decide ((repo, d) ∈ Toy.blobs r)), r);
  ar_PullBlob repo d r := (unsupported, r);
  ar_PullBlobChunk repo d n s e r := (unsupported, r);
  ar_PushBlob repo d n data r := Toy.push_blob repo d r;
  ar_PushBlobChunk repo d n data s e l r := @ar_PushBlobChunk _ _ Toy.registry repo d n data s e l r;
  ar_MountBlob from d repo r := (unsupported, r);
  ar_CanBeMount d r := (Ok (false, EmptyString), r);
  ar_DeleteTag repo tag r := (unsupported, r) |}.
(** One repository, the first; the number of an artifact tells which one it is. *)
Definition local_repo : string := "hub/app".
Definition artifact_of (d : string) : LocalArtifact := mkLocalArtifact (if d == image_digest then 1 else 2) 1 d.
#[export] Instance toy_core : LocalCore Toy.Reg := {|
  lc_GetByReference repo ref r := (match Toy.find r repo ref with Some d => Ok (artifact_of d) | None => Err missing end, r);
  lc_EnsureTag rid aid tag r :=
    if String.prefix "sha256:" tag then (unsupported, r)
    else (Ok tt, Toy.mkReg (Toy.blobs r) (<[(local_repo, tag) := if aid =? 1 then image_digest else list_digest]> (Toy.refs r)) (Toy.failures r)) |}.

Lemma find_other d r repo ref tag : String.prefix "sha256:" tag = false → String.prefix "sha256:" ref = true →
  Toy.find (Toy.mkReg (Toy.blobs r) (<[(local_repo, tag) := d]> (Toy.refs r)) (Toy.failures r)) repo ref = Toy.find r repo ref.
Proof. intros Ht Hr. unfold Toy.find. simpl. rewrite lookup_insert_ne; [done|]. intros [= _ ->]. congruence. Qed.

#[export] Instance toy_destination : @Destination toy_manifests Toy.digest_of Toy.Reg toy_local.
Proof.
  refine (@Build_Destination toy_manifests Toy.digest_of Toy.Reg toy_local Toy.has_blob (λ _ _, False) Toy.find _ _ _ _ _ _ _ _ _).
  - exact (@resolve_digest _ _ _ _ Toy.destination).
  - exact (@resolve_exact _ _ _ _ Toy.destination).
  - intros repo ref r x r' [= <- <-]. split; [apply Toy.no_push_refl|]. intros desc. by destruct (Toy.find r repo ref); intros [= <-].
  - intros repo d r x r' [= <- <-]. split; [apply Toy.no_push_refl|]. intros [= Hd]. by apply bool_decide_eq_true in Hd.
  - intros d r x r' [= <- <-]. apply Toy.no_push_refl.
  - intros from d repo r x r' [= <- <-]. split; [apply Toy.no_push_refl|done].
  - exact (@dest_PushBlob _ _ _ _ Toy.destination).
  - exact (@dest_PushBlobChunk _ _ _ _ Toy.destination).
  - exact (@dest_PushManifest _ _ _ _ Toy.destination).
Defined.

#[export] Instance toy_laws : @LocalLaws toy_manifests Toy.digest_of Toy.Reg toy_local toy_core toy_destination.
Proof.
  split.
  - intros repo ref r x r'. simpl. intros [= <- <-]. split; [apply Toy.no_push_refl|]. intros a Ha Hr.
    destruct (Toy.find r repo ref) as [d|] eqn:E; [|done].
    pose proof (@resolve_exact _ _ _ _ toy_destination r repo ref d E Hr) as ->. reflexivity.
  - intros rid aid tag r x r'. simpl. destruct (String.prefix "sha256:" tag) eqn:E; intros [= <- <-]; [by split; [intros ??|]|].
    split; [by intros ??|]. intros repo ref Hr. by apply find_other.
  - intros repo ref r x r' [= <- <-]. apply Toy.no_push_refl.
Qed.

Lemma toy_collisions : @no_collision toy_manifests Toy.digest_of.
Proof.
  assert (Hl : ∀ l d, man_digest Toy.digest_of (ImageList l) = Some d → l = [child] ∧ d = list_digest).
  { intros [|c [|]] dig; try done. unfold man_digest. cbn. repeat case_bool_decide; try done. destruct (Z.eqb_spec (ds_Size c) 5); [|done].
    intros [= <-]. split; [|done]. destruct c. simpl in *. by subst. }
  intros [|l] [|l'] d Hm Hm'; [done|..].
  - apply Hl in Hm' as [_ ->]. done.
  - apply Hl in Hm as [_ ->]. done.
  - apply Hl in Hm as [-> _], Hm' as [-> _]. done.
Qed.


Definition toy_cfg : Config := mkConfig (Ok "key"%string) EmptyString EmptyString EmptyString false.
Definition toy_factories : gmap string (Registry → result Adapter) :=
  {["toy"%string := λ _, Ok (mkAdapter (Err missing) (Ok Healthy) (Some (λ _, Ok [])) (λ l, Ok l))]}.
Definition toy_db (remote : list bool) (failures : list bool) : PxDB (list bool) Toy.Reg string :=
  mkPx (ProjectStore.mkProjDB (mkTable {[1 := ProjectStore.mkProject 1 1 "hub" false 1 0]} 1) empty_table empty_table empty_table empty_table empty_table 0)
    (mkRest (mkTable {[1 := mkRegRow 1 "https://r" "r" EmptyString EmptyString EmptyString "toy" false EmptyString Healthy]} 1) empty_table [])
    (Toy.mkReg [] ∅ failures) remote (mkCache ∅ [] [] [] []) ∅ [].
Definition by_tag (tag : string) : ArtifactInfo := mkArtifactInfo local_repo tag "hub" EmptyString tag EmptyString EmptyString EmptyString.
Definition by_digest (d : string) : ArtifactInfo := mkArtifactInfo local_repo d "hub" d EmptyString EmptyString EmptyString EmptyString.

Notation TDB := (PxDB (list bool) Toy.Reg string).
Notation state := (list (job * proc TDB task response) * World TDB)%type.
Definition toy_request (method : string) (art : ArtifactInfo) : proc TDB task response :=
  ManifestMiddleware toy_remote toy_cfg (λ _ _, []) toy_factories true method "alice" (Some art).
Definition toy_world (remote failures : list bool) : World TDB := mkWorld (toy_db remote failures) true [].

(** A request that arrives in a state, and the goroutine [i] for [n] steps. *)
Definition toy_arrive (method : string) (art : ArtifactInfo) (c : state) : state :=
  (c.1 ++ [(JManifest (Some art) (px_trace (db c.2)), toy_request method art)], c.2).
Definition toy_let (i n : nat) (c : state) : state := pool_run (run_task toy_remote Toy.digest_of true) (λ _, JTask) c (replicate n i).
Definition toy_results (c : state) : list (option (result response)) :=
  (λ x, match x.2 with Done r => Some r | _ => None end) <$> c.1.

Definition toy_blob (art : ArtifactInfo) (c : state) : state :=
  (c.1 ++ [(JBlob, handleBlob toy_remote toy_cfg (λ _ _, []) toy_factories (Some art))], c.2).

Definition first_pull : state := toy_let 0 20 (toy_arrive MethodGet (by_tag "latest") ([], toy_world [false; false; true] [])).

(** The tag moves between two pulls: the second client gets the list that the first one
    was served, under the digest of the image that the tag is now. *)
Definition second_pull : state := toy_let 2 20 (toy_arrive MethodGet (by_tag "latest") (toy_let 1 80 first_pull)).
Example stale_list : toy_results second_pull =
  [Some (Ok (Replied 5 (Some MediaTypeManifestList) EmptyString (Some "index"%string))); Some (Ok Next);
   Some (Ok (Replied 5 (Some MediaTypeManifestList) image_digest (Some "index"%string)))].
Proof. vm_compute. reflexivity. Qed.

(** The layer of an image is in flight when the image is pushed, so it is left out; its
    push fails: the local registry keeps an image without its layer. *)
Definition skipped_layer : state :=
  toy_let 1 9 (toy_let 3 99 (toy_let 2 20 (toy_arrive MethodGet (by_digest image_digest)
    (toy_let 1 2 (toy_let 0 20 (toy_blob (by_digest "sha256:abc") ([], toy_world [] [true]))))))).
Example incomplete_image : let l := px_local (db skipped_layer.2) in
  Toy.find l local_repo image_digest = Some image_digest ∧ Toy.blobs l = [] ∧ px_inflight (db skipped_layer.2) = ∅.
Proof. vm_compute. done. Qed.

(** A HEAD request by digest has no tag: when the image arrives, it is tagged with the
    empty name. *)
Definition head_by_digest : state :=
  toy_let 1 9 (toy_let 3 99 (toy_let 2 20 (toy_arrive MethodGet (by_digest image_digest)
    (toy_let 0 20 (toy_arrive MethodHead (by_digest image_digest) ([], toy_world [] [])))))).
Example empty_tag : Toy.find (px_local (db head_by_digest.2)) local_repo EmptyString = Some image_digest.
Proof. vm_compute. reflexivity. Qed.

(** ** The theorems apply *)

Definition step_toy := proxy_step toy_remote toy_cfg (λ _ _, []) toy_factories Toy.digest_of true (data := string) (R := Toy.Reg).

Lemma toy_let_steps i n c : rtc step_toy c (toy_let i n c).
Proof. apply pool_run_steps. Qed.
Lemma toy_arrive_step method art c : info_ok art → method = MethodGet ∨ method = MethodHead → rtc step_toy c (toy_arrive method art c).
Proof.
  intros Ha Hm. destruct c as [l w]. unfold toy_arrive. cbn [fst snd]. apply rtc_once. refine (pool_new _ _ _ l _ _ w _). unfold toy_request.
  apply arrives_manifest; [|done]. intros a [= <-]. exact Ha.
Qed.

Lemma toy_start remote failures : px_ok toy_remote Toy.digest_of (toy_db remote failures).
Proof.
  split.
  - intros repo ref x c _ _. simpl. by rewrite lookup_empty.
  - by intros reg repo ref m dig []%elem_of_nil.
  - intros repo dg m c _. cbn. unfold Toy.find. simpl. by rewrite lookup_empty.
Qed.

Lemma by_tag_ok : info_ok (by_tag "latest").
Proof. split_and!; [done|by exists "app"%string|done|by left|done|by right]. Qed.
Lemma by_digest_ok : info_ok (by_digest image_digest).
Proof.
  split_and!; [done|by exists "app"%string|done| |done|by left]. right. exists "sha256"%string, "image"%string.
  by split_and!.
Qed.

Lemma proxied_content_witness : let c := second_pull in
  c.1 !! 2%nat = Some (JManifest (Some (by_tag "latest")) (px_trace (db (toy_let 1 80 first_pull).2)),
    Done (Ok (Replied 5 (Some MediaTypeManifestList) image_digest (Some "index"%string)))) ∧
  manifest_reply (Some (by_tag "latest")) (px_trace (db (toy_let 1 80 first_pull).2))
    (Ok (Replied 5 (Some MediaTypeManifestList) image_digest (Some "index"%string))) (db c.2).
Proof.
  split; [vm_compute; reflexivity|].
  refine (proj1 (proxied_content toy_remote toy_cfg (λ _ _, []) toy_factories Toy.digest_of true (toy_world [false; false; true] []) second_pull 2 _ _ _ _ _ _ _ _ _)).
  - intros s x. by intros [= <-].
  - intros l m. by intros [= <-].
  - exact toy_collisions.
  - apply toy_start.
  - etrans; [|apply toy_let_steps]. etrans; [|apply toy_arrive_step; [apply by_tag_ok|by left]]. etrans; [|apply toy_let_steps].
    etrans; [|apply toy_let_steps]. apply toy_arrive_step; [apply by_tag_ok|by left].
  - vm_compute. reflexivity.
Defined.

Definition kept_image : state := toy_let 1 99 (toy_let 0 20 (toy_arrive MethodGet (by_digest image_digest) ([], toy_world [] []))).
Lemma proxy_cache_closed_witness : let l := px_local (db kept_image.2) in
  resolve l local_repo image_digest = Some image_digest ∧
  (is_Some (resolve l local_repo "sha256:abc") ∨ has_blob l local_repo "sha256:abc" ∨
   artName local_repo "sha256:abc" ∈ px_inflight (db kept_image.2) ∨ EvPushFailed local_repo "sha256:abc" ∈ px_trace (db kept_image.2)).
Proof.
  split; [vm_compute; reflexivity|].
  refine (proxy_cache_closed toy_remote toy_cfg (λ _ _, []) toy_factories Toy.digest_of true (toy_world [] []) kept_image local_repo image_digest Image layer
    _ _ _ _ _ _ _ _ _ _).
  - intros s x. by intros [= <-].
  - intros l m. by intros [= <-].
  - exact toy_collisions.
  - apply toy_start.
  - etrans; [|apply toy_let_steps]. etrans; [|apply toy_let_steps]. apply toy_arrive_step; [apply by_digest_ok|by left].
  - reflexivity.
  - vm_compute. reflexivity.
  - reflexivity.
  - by left.
  - reflexivity.
Defined.
End ProxyToy.
